(* ===== verification/_CoqProject ===== *)
-Q . S2P
Prelude.v
Machine.v
Blocks.v
Gf.v
Linear.v
Matrix.v
Kernels.v
X86.v
Codec.v
SelfTest.v
F64.v
Topology.v
Cluster.v
LogTables.v
Log.v
LogProps.v
Placer.v
Crc.v
Clmul.v
Zbc.v
Crc64.v
Crc64Api.v
Crc32Kernels.v
Crc32.v
Crc32c.v
Journal.v
JournalOwners.v
JournalSpec.v
JournalIo.v
JournalLog.v
JournalStore.v
JournalProps.v
Str.v
Utf8.v
HttpDate.v
MetadataBlob.v
Conditional.v
ConditionalSpec.v
Range.v
Cobblestone.v
CobblestoneSpec.v
CobblestoneSeal.v
CobblestoneOpen.v
CobblestoneInPlace.v
CobblestoneRange.v
CobblestoneProps.v
Chunked.v
ChunkedSpec.v
ChunkedSlices.v
ChunkedWire.v
ChunkedProps.v
Lease.v
LeaseRules.v
AuthorityClock.v
ClockSpec.v
ClockFiles.v
LeaseProtocol.v
Policy.v
Identity.v
IamPolicy.v
IamSpec.v
SessionToken.v
SessionSpec.v
TokenSamples.v
SessionRing.v
Provider.v
ProviderSpec.v
Canonical.v
CanonicalSpec.v
AmzDate.v
SigV4.v
SigV4Spec.v
