(* ===== verification/Prelude.v ===== *)
(** * Verification of argmin, an S3-compatible object store

    ** The program and its parts

    argmin is a Rust workspace (src/crates).  HTTP requests enter through
    server-http, which decodes the body and parses headers; auth decides who sends them
    and what that principal may do; server-core turns them into operations on objects;
    storage keeps the objects as erasure-coded shards on
    nodes and the cluster state in a replicated or single-authority control plane.
    The libraries below them are ec (the Reed-Solomon codec), placement (which node
    holds which shard) and checksum (CRC-64/NVME, CRC-32, CRC-32C).  This
    development models the parts whose correctness is a matter of computation:

    - crates/ec: [Gf] (field arithmetic, tables), [Matrix] (encoding matrix, Gauss-
      Jordan inversion), [Kernels] (scalar byte loops), [X86] (AVX2 and AVX-512
      loops), [Codec] (encode, verify, reconstruct, backend choice) and [SelfTest].
      [Linear] is the linear algebra the proofs use.
    - crates/placement: [Topology] (node locations), [Cluster] (cluster map,
      constraints), [LogTables] and [Log] (the logarithm of the score; [LogProps]
      is its proof) and [Placer] (rendezvous placement under constraints), over
      [F64], the binary64 format as Rocq's specification floats.
    - crates/checksum: [Crc] (tables, GF(2) matrices, combine), [Clmul] (carry-less
      multiplication and vector intrinsics), [Zbc] (RISC-V), [Crc64] and [Crc64Api],
      [Crc32Kernels], [Crc32] and [Crc32c].
    - crates/storage: [Journal] (file system and every method of
      DurableJournalFile in durable_journal.rs) and [JournalOwners] (its two
      configurations: the single-authority command journal and the Raft write-ahead
      log); [JournalSpec], [JournalIo], [JournalLog] and [JournalStore] are the
      proofs, [JournalProps] the properties.
    - crates/storage, leases: [Lease] (the process clock monitor, the binding of
      leases, deadlines, fences and the grant horizon of control_plane_lease.rs and
      clock.rs, and the lease commands of control_plane.rs) and [AuthorityClock] (the
      clock of the serving authority and its files, authority_clock.rs and
      single_authority.rs).  [LeaseRules], [ClockSpec] and [ClockFiles] hold their
      theorems; [LeaseProtocol] composes them into a step relation of authorities,
      nodes and consumers.
    - crates/crypto: [Cobblestone] (chunked authenticated encryption: layouts, sealer,
      openers); [CobblestoneSpec], [CobblestoneSeal], [CobblestoneOpen],
      [CobblestoneInPlace] and [CobblestoneRange] are the proofs, [CobblestoneProps]
      the properties.
    - crates/server-core: [Range] (range.rs, HTTP byte ranges), [MetadataBlob]
      (metadata_blob.rs) and [Conditional] (etag.rs and conditional.rs, with the header
      extraction of server-http/src/http/conditional.rs; [ConditionalSpec] holds the
      theorems).
    - crates/server-http: [Chunked] (http/chunked.rs, the incremental decoder of
      aws-chunked bodies; [ChunkedSpec] and [ChunkedSlices] are the proofs,
      [ChunkedWire] is the grammar of the bodies on the wire, [ChunkedProps] holds the
      properties) and [HttpDate] (the dates of http/response.rs).
    - crates/auth: [Policy] (policy.rs, patterns and their matcher, and the action names
      of bucket_policy.rs), [Identity] (identity.rs and the account identity of
      s3-types), [IamPolicy] (iam_policy.rs and authorization.rs; [IamSpec] holds the
      theorems), [SessionToken] (credential.rs and session_token.rs: credentials, the key
      ring and its tokens; [SessionSpec] is the format, [SessionRing] the runs of a ring,
      [TokenSamples] a concrete library for the witnesses), [Provider] (provider.rs,
      over any backend and over the in-memory one; [ProviderSpec] holds the theorems),
      [Canonical] (encoding.rs and canonical.rs, the canonical form of a request;
      [CanonicalSpec] is its proof), [AmzDate] (the timestamps of canonical.rs) and
      [SigV4] (sigv4.rs, the verification of signatures; [SigV4Spec] holds the theorems).
    - [Machine] holds 64-bit arithmetic, slices and the state monad the later
      components share, [Blocks] lists cut into blocks, [Str] the Rust string methods
      and [Utf8] the theorems on their encoding.

    The components meet through interfaces: the placer is proved for every
    constraint that satisfies the class [PartitionMatroid], which the built-in
    constraints do; the journal, the clock files and the multipart tags take their
    checksum from the class [Checksum64], whose instance in [JournalOwners] uses the
    CRC-64 of [Crc64Api]; the journal takes its observer from
    [DurableJournalObserver]; the decoder takes SHA-256 and HMAC from [Crypto]; the
    encryption takes AES-GCM and HMAC-SHA-512 from the class [Provider] of
    [Cobblestone], and so do session tokens, with base64, a digest and the comparison in
    constant time from [TokenLibrary]; the identity provider is written for every
    instance of [IdentityProviderBackend], of which the in-memory backend is one.

    ** How the code is represented

    A call returns an [outcome] (below): a value, an error of the function's own
    type, or a panic.  Indexing out of range, a failed expect or unwrap, an unchecked
    pointer access outside its slice and an arithmetic overflow where the build
    checks it are panics, so a theorem that a call is [Ok] also says that it
    does not panic.  Structs are records and enums inductive types with the names of the
    source; a method that changes its receiver returns the new value.  Bytes are
    coqutil bytes, other integers are Z with their wrap-around written out, f64
    values are specification floats, vector registers are lists of bytes or of
    128-bit lanes.  The journal runs in a state monad over a world of files
    in which a script decides which I/O call fails, and after how many bytes.

    Loops with an exit condition carry fuel, and a proof that it suffices: eight
    rounds for the bitwise field product; one per bit of a matrix row or length in
    the CRC code; the shard length for the unrolled loops; the rows left in the pivot
    search; two calls for the one swap of [add_dint]; one more than the number of
    bytes for the journal's replay (each turn consumes a frame prefix) and for the
    decoder's loop (each turn that goes on consumes a byte); the number of chunks of
    the input for the loops of the encryption; the eight attempts of the clock sample;
    twenty digits for a 64-bit number; the buffers of random bytes that the generation of
    an access key asks for, of which twenty suffice when each has a usable byte.

    ** What the theorems show

    The properties are numbered; further theorems beside them (field axioms, the
    self-test, keys and cluster maps, hashers, burst detection, the header codec of the
    journal, the process clock monitor and others) carry no number.

    - ec, C1 to C5: any k shards of an encoded stripe reconstruct the others exactly;
      encode, verify and reconstruct answer on every input as specified, without panic;
      the vector kernels equal the scalar ones.
    - placement, C6 to C8: placement is sound, complete and optimal; the logarithm of
      the score is total and gives numbers.
    - checksum, C9 and C10: every backend equals the bit-at-a-time register, and combine
      joins checksums.
    - journal, C11 to C15: what replay makes of every file, and that it panics exactly
      when frames end past the last 64-bit offset in a build with overflow checks;
      refinement of an abstract log by append
      and compaction under I/O failures, the invariant of a store over any run of steps
      and restarts, and recovery.
    - aws-chunked bodies, C16 to C18: the slicing of the wire is irrelevant, but for bytes
      behind the end of a body and for a line of the greatest length that is cut inside
      its CRLF; every encoded body is decoded; and the wires accepted, in one slice, are exactly those of
      bodies whose lines, chunk sizes, chain of signatures, trailers and length are as
      they have to be.
    - encryption, C19 to C21: what opens is exactly what was sealed, in one piece, in
      slices and by ranges, and nothing unauthentic is released.
    - leases, C22 to C25: no successor activates while a consumer of its predecessor
      serves, in any interleaving; the durable snapshot loses no granted deadline; the
      authority clock gives times only while it is sound, and a reading that contradicts
      it closes it, but for the last generation and times past 64 bits.
    - metadata blobs, C26, dates, C27, and conditional requests, C28: the stored
      representation is exact; dates are those of the Gregorian calendar and are read
      back; conditions are decided as RFC 7232 and the documentation of the code say.
    - policies, C29 to C32: patterns match as globs; the ARN of a role identifies it;
      the permissions of a session and the decision on AssumeRole are those of the
      statements in force, denials first, whatever their order.
    - sessions, C33 to C36: no nonce is used twice under one key; a token opens exactly
      while its key is in the ring, to what it was sealed from; no record of a backend
      passes the provider for another; a session is authenticated until it expires or its
      role is gone, and nothing else is.
    - signatures, C37 to C40: the canonical query is the multiset of its parameters;
      timestamps are those of the calendar; the Authorization header is read in every
      order and spelling; a request is accepted exactly when it is signed as it has to be,
      and requests with one canonical form agree in all that is protected.

    ** What is assumed, and what is not modelled

    Third-party code is a parameter: the hash function of the placement score, SHA-256
    and HMAC, of which no theorem assumes anything, so that those on signatures speak of
    what is signed and not of how hard a signature is to forge; AES-GCM and HMAC-SHA-512, with the
    laws of [ProviderOk]: lengths, and that opening accepts exactly what sealing makes;
    the header map of a request; base64 and the digest of session tokens, with the laws of
    [TokenLibraryOk]: encodings decode, their length and alphabet, and that the comparison
    is equality; no theorem assumes anything of the digest.  The lease protocol assumes of wall clocks
    that their offsets from real time lie in one interval as wide as the skew budget at
    two moments: when the clock of an authority is established, and when a consumer binds
    a lease.  The logarithm of the score is claimed to be correctly rounded, which
    is not proved: the model is compared with the repository's reference values only.
    Sizes are those of a 64-bit target.

    In the file system of the journal a written byte stays: syncs are calls that may
    fail but move no data, so that the loss of bytes that were never synced is not
    covered.  The protocol of the owners of a journal ([JournalStore.step]) is an
    abstraction of theirs, without the replacement of frames at a start; the refinement
    of [replace_from] is a theorem of its own.

    Not modelled are the parts whose behaviour lies in I/O, third-party code or
    sheer breadth of data types: the commands of the control-plane state machine other
    than those of leases, the Raft glue, the embedded database, RPC and sockets, the
    coordinator of S3 operations and its authorization, the choice between header,
    presigned and form authentication of a request (request.rs and post.rs of auth), the
    parsers of policy documents and the conditions of bucket policies, server-side
    encryption, XML and routing, TLS, configuration and observability.  Durations and
    counters are left out of the models, and the texts of errors where no caller reads
    them.

    ** This file

    The prelude of the development: outcomes and their rules, loops, slices, byte
    and list lemmas, the tactics and the hint database. *)

From Stdlib Require Export ZArith Lia.
From coqutil Require Export Byte Word.LittleEndianList.
From stdpp Require Export base list numbers.

#[global] Set Default Goal Selector "!".

Declare Scope rust_scope.
Delimit Scope rust_scope with rust.

(** * Rust outcomes

    A call that may fail returns one of three things: a value, an error of
    the function's own error type, or a panic (an out-of-range index, a failed
    [expect], an out-of-range unchecked pointer access).  A theorem that a call
    is [Ok] therefore also says that it does not panic. *)
Inductive outcome (E A : Type) : Type :=
| Ok (a : A)
| Err (e : E)
| Panic.
Arguments Ok {E A} a.
Arguments Err {E A} e.
Arguments Panic {E A}.

#[global] Instance outcome_ret {E} : MRet (outcome E) := fun _ a => Ok a.

#[global] Instance outcome_bind {E} : MBind (outcome E) := fun _ _ f m =>
  match m with
  | Ok a => f a
  | Err e => Err e
  | Panic => Panic
  end.

#[global] Instance outcome_eq_dec {E A} `{EqDecision E, EqDecision A} :
  EqDecision (outcome E A).
Proof. solve_decision. Defined.

(** [if c { return Err(e) }] *)
Definition guard_err {E} (c : bool) (e : E) : outcome E () :=
  if c then Err e else Ok ().

(** [o.ok_or(e)?] *)
Definition ok_or {E A} (o : option A) (e : E) : outcome E A :=
  match o with Some a => Ok a | None => Err e end.

(** [o.expect(..)] and [o.unwrap()] *)
Definition unwrap {E A} (o : option A) : outcome E A :=
  match o with Some a => Ok a | None => Panic end.

(** [r.map_err(f)] *)
Definition map_err {E F A} (f : E -> F) (m : outcome E A) : outcome F A :=
  match m with Ok a => Ok a | Err e => Err (f e) | Panic => Panic end.

Definition is_ok {E A} (m : outcome E A) : bool :=
  match m with Ok _ => true | _ => false end.

(** * Slices *)

(** [l[i]] *)
Definition idx {E A} (l : list A) (i : nat) : outcome E A := unwrap (l !! i).

(** [l[i] = x] *)
Definition upd {E A} (l : list A) (i : nat) (x : A) : outcome E (list A) :=
  if decide (i < length l) then Ok (<[i:=x]> l) else Panic.

(** [&l[a..b]] *)
Definition slice {E A} (l : list A) (a b : nat) : outcome E (list A) :=
  if decide (a <= b /\ b <= length l) then Ok (take (b - a) (drop a l)) else Panic.

(** * Loops *)

(** [for x in l { s = f(s, x)?; }] *)
Fixpoint foldM {E S A} (f : S -> A -> outcome E S) (s : S) (l : list A) : outcome E S :=
  match l with
  | [] => Ok s
  | x :: l' => f s x ≫= fun s' => foldM f s' l'
  end.

(** [for i in a..b { .. }] *)
Definition for_range {E S} (a b : nat) (s : S) (f : S -> nat -> outcome E S) : outcome E S :=
  foldM f s (seq a (b - a)).

(** [while c { s = f(s) }], and a panic when the fuel does not suffice *)
Fixpoint while_loop {E S} (fuel : nat) (c : S -> bool) (f : S -> outcome E S) (s : S) : outcome E S :=
  match fuel with
  | O => Panic
  | Datatypes.S fuel => if c s then s' ← f s; while_loop fuel c f s' else mret s
  end.

(** [assert!(c)] *)
Definition assert_true {E} (c : bool) : outcome E () := if c then Ok () else Panic.

(** * Total-correctness rules

    [wp m Q R]: the call [m] does not panic, its value satisfies [Q] if it
    succeeds, and its error satisfies [R] if it fails. *)
Definition wp {E A} (m : outcome E A) (Q : A -> Prop) (R : E -> Prop) : Prop :=
  match m with
  | Ok a => Q a
  | Err e => R e
  | Panic => False
  end.

(** The call succeeds, with a value that satisfies [Q]. *)
Definition returns {E A} (m : outcome E A) (Q : A -> Prop) : Prop :=
  wp m Q (fun _ => False).

Lemma foldM_app {E S A} (f : S -> A -> outcome E S) s l1 l2 :
  foldM f s (l1 ++ l2) = foldM f s l1 ≫= fun s' => foldM f s' l2.
Proof.
  revert s; induction l1 as [|x l1 IH]; intros s; simpl; [done|].
  destruct (f s x); simpl; auto.
Qed.

Lemma foldM_fmap {E S A B} (f : S -> B -> outcome E S) (g : A -> B) s l :
  foldM f s (g <$> l) = foldM (fun s a => f s (g a)) s l.
Proof.
  revert s; induction l as [|x l IH]; intros s; simpl; [done|].
  destruct (f s (g x)); simpl; auto.
Qed.

Lemma foldM_ext {E S A} (f g : S -> A -> outcome E S) s l :
  (forall s x, x ∈ l -> f s x = g s x) -> foldM f s l = foldM g s l.
Proof.
  revert s; induction l as [|x l IH]; intros s H; simpl; [done|].
  rewrite H by left. destruct (g s x); simpl; [|done..].
  apply IH. intros. apply H. by right.
Qed.

(** Iterating over the tail of a list is iterating over the indices. *)
Lemma foldM_drop {E S A} (f : S -> A -> outcome E S) a (l : list A) s :
  a <= length l ->
  foldM f s (drop a l) =
  for_range a (length l) s (fun s i => unwrap (l !! i) ≫= f s).
Proof.
  unfold for_range. intros Ha. remember (length l - a) as n eqn:Hn.
  revert a s Ha Hn; induction n as [|n IH]; intros a s Ha Hn.
  { by rewrite drop_ge by lia. }
  destruct (lookup_lt_is_Some_2 l a) as [x Hx]; [lia|].
  rewrite (drop_S _ _ _ Hx). simpl. rewrite Hx. simpl.
  destruct (f s x); simpl; [|done..]. apply IH; lia.
Qed.

Section rules.
Context {E : Type}.

Lemma returns_Ok {A} (m : outcome E A) Q : returns m Q <-> exists a, m = Ok a /\ Q a.
Proof. unfold returns, wp. destruct m; naive_solver. Qed.

Lemma returns_eq {A} (m : outcome E A) a : returns m (fun r => r = a) -> m = Ok a.
Proof. intros (r & -> & ->)%returns_Ok. done. Qed.

Lemma wp_mono {A} (m : outcome E A) (Q Q' : A -> Prop) (R R' : E -> Prop) :
  wp m Q R -> (forall a, Q a -> Q' a) -> (forall e, R e -> R' e) -> wp m Q' R'.
Proof. destruct m; simpl; auto. Qed.

Lemma returns_mono {A} (m : outcome E A) (Q Q' : A -> Prop) :
  returns m Q -> (forall a, Q a -> Q' a) -> returns m Q'.
Proof. intros. by eapply wp_mono. Qed.

Lemma returns_wp {A} (m : outcome E A) (Q : A -> Prop) (R : E -> Prop) :
  returns m Q -> wp m Q R.
Proof. intros. by eapply wp_mono. Qed.

Lemma wp_bind {A B} (m : outcome E A) (f : A -> outcome E B) Q (R : E -> Prop) :
  wp m (fun a => wp (f a) Q R) R -> wp (m ≫= f) Q R.
Proof. by destruct m. Qed.

Lemma wp_bind_returns {A B} (m : outcome E A) (f : A -> outcome E B) P Q (R : E -> Prop) :
  returns m P -> (forall a, P a -> wp (f a) Q R) -> wp (m ≫= f) Q R.
Proof. destruct m; simpl; auto; intros []. Qed.

Lemma wp_ret {A} (a : A) (Q : A -> Prop) (R : E -> Prop) : Q a -> wp (mret a) Q R.
Proof. done. Qed.

Lemma wp_idx {A} (l : list A) i (Q : A -> Prop) (R : E -> Prop) :
  i < length l -> (forall x, l !! i = Some x -> Q x) -> wp (idx l i) Q R.
Proof.
  intros [x Hx]%lookup_lt_is_Some_2 HQ. unfold idx. rewrite Hx. simpl. auto.
Qed.

Lemma wp_upd {A} (l : list A) i x (Q : list A -> Prop) (R : E -> Prop) :
  i < length l -> Q (<[i:=x]> l) -> wp (upd l i x) Q R.
Proof. intros. unfold upd. by rewrite decide_True. Qed.

Lemma wp_slice {A} (l : list A) a b (Q : list A -> Prop) (R : E -> Prop) :
  a <= b -> b <= length l -> Q (take (b - a) (drop a l)) -> wp (slice l a b) Q R.
Proof. intros. unfold slice. by rewrite decide_True. Qed.

Lemma wp_guard (c : bool) (e : E) (Q : () -> Prop) (R : E -> Prop) :
  (c = false -> Q ()) -> (c = true -> R e) -> wp (guard_err c e) Q R.
Proof. destruct c; simpl; auto. Qed.

(** Loop rule: an invariant indexed by the loop counter. *)
Lemma wp_for_range {S} (P : nat -> S -> Prop) (R : E -> Prop)
    (f : S -> nat -> outcome E S) a b s (Q : S -> Prop) :
  a <= b ->
  P a s ->
  (forall i s, a <= i < b -> P i s -> wp (f s i) (P (i + 1)) R) ->
  (forall s, P b s -> Q s) ->
  wp (for_range a b s f) Q R.
Proof.
  unfold for_range. intros Hab Ha Hstep HQ.
  remember (b - a) as n eqn:Hn.
  revert a s Hab Ha Hstep Hn; induction n as [|n IH]; intros a s Hab Ha Hstep Hn; simpl.
  - apply HQ. by replace b with a by lia.
  - apply wp_bind. eapply wp_mono; [apply Hstep; [lia|done]|simpl|done].
    intros s1 H1. apply IH; [lia| |intros; apply Hstep; [lia|done]|lia].
    by replace (Datatypes.S a) with (a + 1) by lia.
Qed.

(** Loop rule: an invariant and a measure that the body decreases. *)
Lemma wp_while {S} (P : S -> Prop) (m : S -> nat) (R : E -> Prop) fuel
    (c : S -> bool) (f : S -> outcome E S) s (Q : S -> Prop) :
  P s -> m s < fuel ->
  (forall s, P s -> c s = true -> wp (f s) (fun s' => P s' /\ m s' < m s) R) ->
  (forall s, P s -> c s = false -> Q s) ->
  wp (while_loop fuel c f s) Q R.
Proof.
  intros HP Hm Hstep HQ. revert s HP Hm. induction fuel as [|fuel IH]; intros s HP Hm; [lia|].
  simpl. destruct (c s) eqn:Hc; [|by apply wp_ret, HQ].
  apply wp_bind. eapply wp_mono; [by apply Hstep|simpl|done].
  intros s' [HP' Hm']. apply IH; [done|lia].
Qed.

(** The same for iteration over a list; the invariant sees the elements done. *)
Lemma wp_foldM {S A} (P : list A -> S -> Prop) (R : E -> Prop)
    (f : S -> A -> outcome E S) l s (Q : S -> Prop) :
  P [] s ->
  (forall pre x suf s, l = pre ++ x :: suf -> P pre s -> wp (f s x) (P (pre ++ [x])) R) ->
  (forall s, P l s -> Q s) ->
  wp (foldM f s l) Q R.
Proof.
  intros H0 Hstep HQ.
  enough (forall suf pre s, l = pre ++ suf -> P pre s -> wp (foldM f s suf) Q R) as Hgen
    by (apply (Hgen l []); done).
  induction suf as [|x suf IH]; intros pre s1 Hl HP; simpl.
  { apply HQ. by rewrite Hl, app_nil_r. }
  apply wp_bind. eapply wp_mono; [by eapply Hstep|simpl|done].
  intros s2 H2. apply (IH (pre ++ [x])); [by rewrite <-app_assoc|done].
Qed.
End rules.

(** Reduce the binds of the goal whose first call has been evaluated. *)
Ltac bind_step := cbn [mbind outcome_bind mret outcome_ret].

(** Destruct the monadic steps of a hypothesis [m = Ok a]. *)
Ltac bind_inv H :=
  repeat (simpl in H;
    match type of H with
    | mbind _ ?m = Ok _ => let Hm := fresh "Hm" in
        destruct m eqn:Hm; simpl in H; [|discriminate H..]
    end).

Lemma bind_Ok {E A B} (m : outcome E A) (f : A -> outcome E B) b :
  (m ≫= f) = Ok b <-> exists a, m = Ok a /\ f a = Ok b.
Proof.
  destruct m; simpl; split; intros H; try naive_solver.
Qed.

Lemma guard_err_Ok {E} c (e : E) : guard_err c e = Ok () <-> c = false.
Proof. by destruct c. Qed.

Lemma guard_err_false {E B} c (e : E) (f : () -> outcome E B) :
  c = false -> (guard_err c e ≫= f) = f ().
Proof. by intros ->. Qed.

Lemma idx_Ok {E A} (l : list A) i x : idx (E:=E) l i = Ok x <-> l !! i = Some x.
Proof. unfold idx. destruct (l !! i); simpl; naive_solver. Qed.

Lemma idx_lt {E A} (l : list A) i : i < length l -> exists x, idx (E:=E) l i = Ok x.
Proof. intros [x Hx]%lookup_lt_is_Some_2. exists x. by apply idx_Ok. Qed.

Lemma upd_lt {E A} (l : list A) i x : i < length l -> upd (E:=E) l i x = Ok (<[i:=x]> l).
Proof. intros. unfold upd. by rewrite decide_True. Qed.

Lemma slice_Ok {E A} (l : list A) a b :
  a <= b -> b <= length l -> slice (E:=E) l a b = Ok (take (b - a) (drop a l)).
Proof. intros. unfold slice. by rewrite decide_True. Qed.

Create HintDb rust.
#[export] Hint Resolve upd_lt slice_Ok : rust.

(** [l.iter().enumerate()] *)
Definition enumerate {A} (l : list A) : list (nat * A) := imap pair l.

Lemma enumerate_lookup {A} (l : list A) i j x :
  enumerate l !! i = Some (j, x) <-> j = i /\ l !! i = Some x.
Proof.
  unfold enumerate. rewrite list_lookup_imap. destruct (l !! i); simpl; naive_solver.
Qed.

Lemma take_enumerate {A} n (l : list A) : take n (enumerate l) = enumerate (take n l).
Proof.
  unfold enumerate. apply list_eq. intros i. destruct (decide (i < n)).
  - by rewrite lookup_take_lt, !list_lookup_imap, lookup_take_lt by done.
  - by rewrite lookup_take_ge, list_lookup_imap, lookup_take_ge by lia.
Qed.

(** An invariant of a fold, indexed by the elements already visited *)
Lemma foldl_inv {A B} (P : list A -> B -> Prop) (f : B -> A -> B) l b :
  P [] b ->
  (forall pre x suf b, l = pre ++ x :: suf -> P pre b -> P (pre ++ [x]) (f b x)) ->
  P l (foldl f b l).
Proof.
  intros H0 Hstep. rewrite <-(app_nil_l l) at 1.
  assert (forall pre suf b, l = pre ++ suf -> P pre b -> P (pre ++ suf) (foldl f b suf)) as H.
  { intros pre suf. revert pre. induction suf as [|x suf IH]; intros pre b' Hl Hp; simpl.
    - by rewrite app_nil_r.
    - rewrite cons_middle, app_assoc. apply IH; [by rewrite Hl, <-app_assoc|]. by eapply Hstep. }
  by apply H.
Qed.

Lemma mod_sub_multiple n k b : n mod b = 0 -> k * b <= n -> (n - k * b) mod b = 0.
Proof.
  intros Hn Hk. rewrite <-Hn. rewrite <-(Nat.Div0.mod_add (n - k * b) k b). f_equal. lia.
Qed.

Lemma length_filter_mono {A} (P Q : A -> Prop) `{!forall x, Decision (P x), !forall x, Decision (Q x)}
    (l : list A) :
  (forall x, x ∈ l -> P x -> Q x) -> length (filter P l) <= length (filter Q l).
Proof.
  induction l as [|x l IH]; intros HPQ; [done|]. rewrite !filter_cons.
  specialize (IH ltac:(intros; apply HPQ; [by right|done])).
  destruct (decide (P x)); [rewrite decide_True by (apply HPQ; [left|done]); simpl; lia|].
  case_decide; simpl; lia.
Qed.

(** * Bytes *)

(** [b as usize] *)
Definition u8_usize (b : byte) : nat := Z.to_nat (byte.unsigned b).

(** [n as u8]: truncation to eight bits *)
Definition usize_u8 (n : nat) : byte := byte.of_Z (Z.of_nat n).

Lemma u8_usize_lt b : u8_usize b < 256.
Proof. unfold u8_usize. pose proof (byte.unsigned_range b). lia. Qed.

Lemma u8_usize_inj a b : u8_usize a = u8_usize b -> a = b.
Proof.
  unfold u8_usize. intros H. apply byte.unsigned_inj.
  pose proof (byte.unsigned_range a); pose proof (byte.unsigned_range b). lia.
Qed.

Lemma u8_usize_u8 n : n < 256 -> u8_usize (usize_u8 n) = n.
Proof.
  intros. unfold u8_usize, usize_u8. rewrite byte.unsigned_of_Z. unfold byte.wrap.
  rewrite Z.mod_small; lia.
Qed.

Lemma usize_u8_usize b : usize_u8 (u8_usize b) = b.
Proof. apply u8_usize_inj, u8_usize_u8, u8_usize_lt. Qed.

#[global] Instance byte_eq_dec : EqDecision byte := Byte.byte_eq_dec.

(** * Lists cut into blocks of one length *)

Section blocks.
Context {A B : Type} (n : nat) (f : A -> list B).
Hypothesis Hlen : forall x, length (f x) = n.

Lemma length_bind_blocks (l : list A) : length (l ≫= f) = length l * n.
Proof.
  induction l as [|x l IH]; [done|]. rewrite bind_cons, length_app, Hlen, IH. done.
Qed.

Lemma lookup_bind_blocks (l : list A) i j :
  j < n -> (l ≫= f) !! (i * n + j) = l !! i ≫= fun x => f x !! j.
Proof.
  intros Hj. revert i; induction l as [|x l IH]; intros i; [by destruct i|].
  rewrite bind_cons. destruct i as [|i].
  - by rewrite lookup_app_l by (rewrite Hlen; lia).
  - rewrite lookup_app_r by (rewrite Hlen; lia). rewrite Hlen.
    replace (S i * n + j - n) with (i * n + j) by lia. apply IH.
Qed.

Lemma take_bind_blocks (l : list A) b : take (b * n) (l ≫= f) = take b l ≫= f.
Proof.
  revert b; induction l as [|x l IH]; intros b; [by rewrite take_nil; simpl; rewrite take_nil|].
  destruct b as [|b]; [done|]. rewrite bind_cons, firstn_cons, bind_cons.
  rewrite take_app_ge by (rewrite Hlen; lia). rewrite Hlen.
  replace (S b * n - n) with (b * n) by lia. by rewrite IH.
Qed.

Lemma drop_bind_blocks (l : list A) a : drop (a * n) (l ≫= f) = drop a l ≫= f.
Proof.
  revert a; induction l as [|x l IH]; intros a; [by rewrite drop_nil; simpl; rewrite drop_nil|].
  destruct a as [|a]; [done|]. rewrite bind_cons, skipn_cons.
  rewrite drop_app_ge by (rewrite Hlen; lia). rewrite Hlen.
  replace (S a * n - n) with (a * n) by lia. apply IH.
Qed.

Lemma block_bind_blocks (l : list A) i x :
  l !! i = Some x -> take n (drop (i * n) (l ≫= f)) = f x.
Proof.
  revert i; induction l as [|y l IH]; intros i Hi; [by destruct i|].
  rewrite bind_cons. destruct i as [|i]; simplify_eq/=.
  - rewrite drop_0, take_app_le by (rewrite Hlen; lia). apply take_ge. rewrite Hlen. lia.
  - rewrite drop_app_ge by (rewrite Hlen; lia). rewrite Hlen.
    replace (n + i * n - n) with (i * n) by lia. by apply IH.
Qed.
End blocks.
