(* ===== verification/Machine.v ===== *)
(** 64-bit arithmetic of Rust, and code that changes an object it borrows: the
    state-and-error monad [stm] with its rules.

    A [u64] or [usize] is a [Z]; the methods [checked_*] and [saturating_*] and the
    plain operators, which panic where they leave the width, are written out.  A
    method with [&mut self] is a computation of [stm]: it returns its result and
    the object as it leaves it, also when the result is an error. *)

From Stdlib Require Import ZifyBool.
From S2P Require Import Prelude.

Local Open Scope Z_scope.

Module Machine.

Definition MAX64 : Z := 2 ^ 64 - 1.

(** The values of [u64] and, on the 64-bit targets, of [usize] *)
Definition is_u64 (n : Z) : Prop := 0 <= n <= MAX64.

(** [s.len()] *)
Definition len {A} (l : list A) : Z := Z.of_nat (length l).

(** [&s[..n]], [&s[n..]] where [n] is known to be in range *)
Definition takeZ {A} (n : Z) (l : list A) : list A := take (Z.to_nat n) l.
Definition dropZ {A} (n : Z) (l : list A) : list A := drop (Z.to_nat n) l.

Definition checked_add64 (a b : Z) : option Z := if a + b <=? MAX64 then Some (a + b) else None.
Definition checked_sub64 (a b : Z) : option Z := if b <=? a then Some (a - b) else None.
Definition checked_mul64 (a b : Z) : option Z := if a * b <=? MAX64 then Some (a * b) else None.
Definition saturating_add64 (a b : Z) : Z := Z.min (a + b) MAX64.
Definition saturating_sub64 (a b : Z) : Z := Z.max (a - b) 0.
Definition abs_diff64 (a b : Z) : Z := Z.abs (a - b).

(** [a + b] and [a - b] *)
Definition add64 {E} (a b : Z) : outcome E Z := unwrap (checked_add64 a b).
Definition sub64 {E} (a b : Z) : outcome E Z := unwrap (checked_sub64 a b).

(** [usize::try_from(n)] *)
Definition usize_try_from64 (n : Z) : option Z := if n <=? MAX64 then Some n else None.

(** [s.get(a..b)] *)
Definition get_range {A} (l : list A) (a b : Z) : option (list A) :=
  if (a <=? b) && (b <=? len l) then Some (takeZ (b - a) (dropZ a l)) else None.

(** [&s[a..b]] *)
Definition index_range {E A} (l : list A) (a b : Z) : outcome E (list A) := unwrap (get_range l a b).

(** [s.copy_within(a..b, dest)] *)
Definition copy_within {E A} (l : list A) (a b dest : Z) : outcome E (list A) :=
  src ← index_range l a b;
  if dest <=? len l - (b - a) then Ok (takeZ dest l ++ src ++ dropZ (dest + (b - a)) l) else Panic.

(** ** State and errors *)

Definition stm (S E A : Type) : Type := S -> outcome E A * S.

#[global] Instance stm_ret {S E} : MRet (stm S E) := fun _ a s => (Ok a, s).

#[global] Instance stm_bind {S E} : MBind (stm S E) := fun _ _ f m s =>
  match m s with
  | (Ok a, s') => f a s'
  | (Err e, s') => (Err e, s')
  | (Panic, s') => (Panic, s')
  end.

(** A call that does not touch the object *)
Definition liftS {S E A} (m : outcome E A) : stm S E A := fun s => (m, s).

(** [m.map_err(|e| { f(self); e })?] *)
Definition lift_or {S E A} (f : S -> S) (m : outcome E A) : stm S E A := fun s =>
  match m with Err e => (Err e, f s) | _ => (m, s) end.

Definition gets {S E A} (f : S -> A) : stm S E A := fun s => (Ok (f s), s).
Definition modify {S E} (f : S -> S) : stm S E () := fun s => (Ok (), f s).

(** [return self.fail()], where [fail] is the change [f] *)
Definition fail_with {S E A} (f : S -> S) (e : E) : stm S E A := fun s => (Err e, f s).

(** [for x in l { a = f(a, x)?; }] *)
Fixpoint foldS {S E A B} (f : B -> A -> stm S E B) (b : B) (l : list A) : stm S E B :=
  match l with
  | [] => mret b
  | x :: l' => f b x ≫= fun b' => foldS f b' l'
  end.

(** [wpst m s Q R]: from [s], [m] does not panic; [Q] holds of its value and the
    state it leaves if it succeeds, [R] of its error and the state if it fails. *)
Definition wpst {S E A} (m : stm S E A) (s : S) (Q : A -> S -> Prop) (R : E -> S -> Prop) : Prop :=
  match m s with
  | (Ok a, s') => Q a s'
  | (Err e, s') => R e s'
  | (Panic, _) => False
  end.

Section rules.
Context {S E : Type}.

Lemma wpst_bind {A B} (m : stm S E A) (f : A -> stm S E B) s Q R :
  wpst m s (fun a s' => wpst (f a) s' Q R) R -> wpst (m ≫= f) s Q R.
Proof. unfold wpst, mbind, stm_bind. by destruct (m s) as [[] ?]. Qed.

Lemma wpst_bind_inv {A B} (m : stm S E A) (f : A -> stm S E B) s Q R :
  wpst (m ≫= f) s Q R -> wpst m s (fun a s' => wpst (f a) s' Q R) R.
Proof. unfold wpst, mbind, stm_bind. by destruct (m s) as [[] ?]. Qed.

Lemma wpst_ret {A} (a : A) (s : S) (Q : A -> S -> Prop) (R : E -> S -> Prop) : Q a s -> wpst (mret a) s Q R.
Proof. done. Qed.

Lemma wpst_mono {A} (m : stm S E A) s (Q Q' : A -> S -> Prop) (R R' : E -> S -> Prop) :
  wpst m s Q R -> (forall a s', Q a s' -> Q' a s') -> (forall e s', R e s' -> R' e s') -> wpst m s Q' R'.
Proof. unfold wpst. destruct (m s) as [[] ?]; auto. Qed.

Lemma wpst_lift {A} (m : outcome E A) (s : S) Q R :
  wp m (fun a => Q a s) (fun e => R e s) -> wpst (liftS m) s Q R.
Proof. unfold wpst, liftS. by destruct m. Qed.

Lemma wpst_lift_or {A} f (m : outcome E A) (s : S) Q R :
  wp m (fun a => Q a s) (fun e => R e (f s)) -> wpst (lift_or f m) s Q R.
Proof. unfold wpst, lift_or. by destruct m. Qed.

Lemma wpst_gets {A} (f : S -> A) s Q (R : E -> S -> Prop) : Q (f s) s -> wpst (gets f) s Q R.
Proof. done. Qed.

Lemma wpst_modify f s Q (R : E -> S -> Prop) : Q () (f s) -> wpst (modify f) s Q R.
Proof. done. Qed.

(** What a computation that cannot panic returns *)
Lemma wpst_run {A} (m : stm S E A) s Q R :
  wpst m s Q R ->
  (exists a s', m s = (Ok a, s') /\ Q a s') \/ (exists e s', m s = (Err e, s') /\ R e s').
Proof. unfold wpst. destruct (m s) as [[] ?]; naive_solver. Qed.
End rules.

(** One step of a computation of [stm] in a goal [wpst ..] *)
Ltac stm_step :=
  lazymatch goal with
  | |- wpst (mbind _ _) _ _ _ => apply wpst_bind
  | |- wpst (mret _) _ _ _ => apply wpst_ret
  | |- wpst (gets _) _ _ _ => apply wpst_gets
  | |- wpst (modify _) _ _ _ => apply wpst_modify
  | |- wpst (liftS _) _ _ _ => apply wpst_lift
  | |- wpst (lift_or _ _) _ _ _ => apply wpst_lift_or
  | |- wp (Ok _) _ _ => cbn [wp]
  | |- wp (ok_or (Some _) _) _ _ => cbn [ok_or wp]
  end; cbn beta.

(** [keeps R m]: whatever [m] returns, the state it leaves is related to the one it
    began with. *)
Definition keeps {S E A} (R : relation S) (m : stm S E A) : Prop := forall s, R s (snd (m s)).

Section keeps.
Context {S E : Type} (R : relation S) `{!PreOrder R}.

Lemma keeps_at {A} (m : stm S E A) s : keeps R m -> R s (snd (m s)).
Proof. intros Hm. apply Hm. Qed.

Lemma keeps_bind_at {A B} (m : stm S E A) (f : A -> stm S E B) s :
  R s (snd (m s)) -> (forall a, keeps R (f a)) -> R s (snd ((m ≫= f) s)).
Proof.
  intros Hm Hf. unfold mbind, stm_bind.
  destruct (m s) as [[a|e|] s1]; simpl in *; [|done..]. etrans; [done|]. apply Hf.
Qed.

Lemma keeps_bind {A B} (m : stm S E A) (f : A -> stm S E B) :
  keeps R m -> (forall a, keeps R (f a)) -> keeps R (m ≫= f).
Proof. intros Hm Hf s. by apply keeps_bind_at. Qed.

(** A computation that begins with a look at the state, or with a call that does not
    touch it *)
Lemma keeps_gets_bind {A B} (g : S -> A) (f : A -> stm S E B) s :
  R s (snd (f (g s) s)) -> R s (snd ((gets g ≫= f) s)).
Proof. done. Qed.

Lemma keeps_lift_bind {A B} (m : outcome E A) (f : A -> stm S E B) s :
  (forall a, m = Ok a -> R s (snd (f a s))) -> R s (snd ((liftS m ≫= f) s)).
Proof. intros Hf. unfold mbind, stm_bind, liftS. destruct m; [by apply Hf|reflexivity..]. Qed.

Lemma keeps_lift {A} (m : outcome E A) : keeps R (liftS m).
Proof. intros s. simpl. reflexivity. Qed.

Lemma keeps_ret {A} (a : A) : keeps R (mret (M:=stm S E) a).
Proof. intros s. simpl. reflexivity. Qed.

Lemma keeps_gets {A} (f : S -> A) : keeps R (gets (E:=E) f).
Proof. intros s. simpl. reflexivity. Qed.

Lemma keeps_modify f : (forall s, R s (f s)) -> keeps R (modify (E:=E) f).
Proof. intros Hf s. apply Hf. Qed.
End keeps.

Create HintDb keeps discriminated.
#[global] Hint Resolve keeps_bind keeps_lift keeps_ret keeps_gets : keeps.

(** ** Arithmetic *)

Lemma checked_add64_Some a b : a + b <= MAX64 -> checked_add64 a b = Some (a + b).
Proof. unfold checked_add64. intros. by rewrite (proj2 (Z.leb_le _ _)). Qed.

Lemma checked_sub64_Some a b : b <= a -> checked_sub64 a b = Some (a - b).
Proof. unfold checked_sub64. intros. by rewrite (proj2 (Z.leb_le _ _)). Qed.

Lemma checked_mul64_Some a b : a * b <= MAX64 -> checked_mul64 a b = Some (a * b).
Proof. unfold checked_mul64. intros. by rewrite (proj2 (Z.leb_le _ _)). Qed.

Lemma usize_try_from64_Some a : a <= MAX64 -> usize_try_from64 a = Some a.
Proof. unfold usize_try_from64. intros. by rewrite (proj2 (Z.leb_le _ _)). Qed.

Lemma add64_Ok {E} a b : a + b <= MAX64 -> add64 (E:=E) a b = Ok (a + b).
Proof. intros. unfold add64. by rewrite checked_add64_Some. Qed.

Lemma sub64_Ok {E} a b : b <= a -> sub64 (E:=E) a b = Ok (a - b).
Proof. intros. unfold sub64. by rewrite checked_sub64_Some. Qed.

Create Rewrite HintDb machine.
#[global] Hint Rewrite checked_add64_Some checked_sub64_Some checked_mul64_Some usize_try_from64_Some
  @add64_Ok @sub64_Ok using (unfold MAX64 in *; lia) : machine.

(** ** Ranges *)

Lemma len_app {A} (l k : list A) : len (l ++ k) = len l + len k.
Proof. unfold len. rewrite length_app. lia. Qed.

Lemma len_cons {A} (x : A) l : len (x :: l) = 1 + len l.
Proof. unfold len. simpl. lia. Qed.

Lemma len_nonneg {A} (l : list A) : 0 <= len l.
Proof. unfold len. lia. Qed.

Lemma len_nil_inv {A} (l : list A) : len l = 0 -> l = [].
Proof. unfold len. destruct l; [done|simpl; lia]. Qed.

Lemma len_takeZ {A} n (l : list A) : 0 <= n <= len l -> len (takeZ n l) = n.
Proof. unfold len, takeZ. intros. rewrite length_take. lia. Qed.

Lemma len_dropZ {A} n (l : list A) : 0 <= n <= len l -> len (dropZ n l) = len l - n.
Proof. unfold len, dropZ. intros. rewrite length_drop. lia. Qed.

Lemma length_dropZ_lt {A} n (l : list A) : 0 < n <= len l -> (length (dropZ n l) < length l)%nat.
Proof. unfold len, dropZ. intros. rewrite length_drop. lia. Qed.

Lemma dropZ_all {A} n (l : list A) : len l <= n -> dropZ n l = [].
Proof. unfold len, dropZ. intros. apply drop_ge. lia. Qed.

Lemma take_dropZ {A} n (l : list A) : takeZ n l ++ dropZ n l = l.
Proof. apply take_drop. Qed.

Lemma dropZ_0 {A} (l : list A) : dropZ 0 l = l.
Proof. done. Qed.

Lemma takeZ_0 {A} (l : list A) : takeZ 0 l = [].
Proof. done. Qed.

Lemma dropZ_app {A} n (l k : list A) : n = len l -> dropZ n (l ++ k) = k.
Proof. intros ->. unfold dropZ, len. rewrite Nat2Z.id. apply drop_app_length. Qed.

Lemma takeZ_app {A} n (l k : list A) : n = len l -> takeZ n (l ++ k) = l.
Proof. intros ->. unfold takeZ, len. rewrite Nat2Z.id. apply take_app_length. Qed.

Lemma takeZ_all {A} n (l : list A) : len l <= n -> takeZ n l = l.
Proof. unfold takeZ, len. intros. apply take_ge. lia. Qed.

Lemma takeZ_app_le {A} n (l k : list A) : n <= len l -> takeZ n (l ++ k) = takeZ n l.
Proof. unfold takeZ, len. intros. apply take_app_le. lia. Qed.

Lemma dropZ_app_le {A} n (l k : list A) : n <= len l -> dropZ n (l ++ k) = dropZ n l ++ k.
Proof. unfold dropZ, len. intros. apply drop_app_le. lia. Qed.

Lemma dropZ_dropZ {A} n m (l : list A) : 0 <= n -> 0 <= m -> dropZ m (dropZ n l) = dropZ (n + m) l.
Proof. unfold dropZ. intros. rewrite drop_drop. f_equal. lia. Qed.

Lemma get_range_app {A} (l m k : list A) a b :
  a = len l -> b = len l + len m -> get_range (l ++ m ++ k) a b = Some m.
Proof.
  intros -> ->. unfold get_range. rewrite !len_app. pose proof (len_nonneg m). pose proof (len_nonneg k).
  rewrite (proj2 (Z.leb_le _ _)), (proj2 (Z.leb_le _ (_ + (_ + _)))) by lia. cbn [andb].
  rewrite dropZ_app by done. by rewrite takeZ_app by lia.
Qed.

Lemma get_range_Some {A} (l : list A) a b m :
  0 <= a -> get_range l a b = Some m -> len m = b - a /\ l = takeZ a l ++ m ++ dropZ b l.
Proof.
  intros Ha. unfold get_range. destruct (Z.leb_spec a b); [|done]. destruct (Z.leb_spec b (len l)); [|done].
  intros [= <-]. split; [rewrite len_takeZ; [done|rewrite len_dropZ; lia]|].
  rewrite <-(take_dropZ a l) at 1. f_equal. rewrite <-(take_dropZ (b - a) (dropZ a l)) at 1. f_equal.
  rewrite dropZ_dropZ by lia. f_equal. lia.
Qed.

End Machine.
