(* ===== verification/Blocks.v ===== *)
(** Lists cut into blocks of [n] elements and a shorter rest. *)

From Stdlib Require Import ZifyBool.
From S2P Require Import Prelude Machine.

Local Open Scope Z_scope.

Module Blocks.
Import Machine.

Definition blocks {A} (n : Z) (l : list A) : list (list A) :=
  (fun i => takeZ n (dropZ (i * n) l)) <$> seqZ 0 (len l / n).

Definition rest {A} (n : Z) (l : list A) : list A := dropZ (len l / n * n) l.

Section cut.
Context {A : Type} (n : Z).
Hypothesis Hn : 0 < n.
Implicit Types l x : list A.

Lemma blocks_short l : len l < n -> blocks n l = [] /\ rest n l = l.
Proof.
  intros Hl. unfold blocks, rest. rewrite Z.div_small by (pose proof (len_nonneg l); lia). done.
Qed.

Lemma blocks_step l :
  n <= len l -> blocks n l = takeZ n l :: blocks n (dropZ n l) /\ rest n l = rest n (dropZ n l).
Proof.
  intros Hl. unfold blocks, rest. rewrite len_dropZ by lia.
  assert (len l / n = 1 + (len l - n) / n) as Heq.
  { replace (len l) with (len l - n + 1 * n) at 1 by lia. rewrite Z.div_add by lia. lia. }
  assert (0 <= (len l - n) / n) by (apply Z.div_pos; lia).
  rewrite Heq. split; [|rewrite dropZ_dropZ by nia; f_equal; lia].
  rewrite seqZ_cons by lia. rewrite fmap_cons. f_equal.
  replace (Z.pred (1 + (len l - n) / n)) with ((len l - n) / n) by lia. change (Z.succ 0) with (1 + 0).
  rewrite <-fmap_add_seqZ, <-list_fmap_compose.
  apply list_fmap_ext. intros i y Hy%list_elem_of_lookup_2%elem_of_seqZ. simpl.
  rewrite dropZ_dropZ by nia. f_equal. f_equal. lia.
Qed.

Lemma blocks_cons b l : len b = n -> blocks n (b ++ l) = b :: blocks n l /\ rest n (b ++ l) = rest n l.
Proof.
  intros Hb. pose proof (len_nonneg l).
  destruct (blocks_step (b ++ l)) as [-> ->]; [rewrite len_app; lia|].
  by rewrite takeZ_app, dropZ_app.
Qed.

Lemma blocks_concat bs l :
  Forall (fun b => len b = n) bs ->
  blocks n (concat bs ++ l) = bs ++ blocks n l /\ rest n (concat bs ++ l) = rest n l.
Proof.
  induction 1 as [|b bs Hb Hbs [IH1 IH2]]; [done|]. cbn [concat]. rewrite <-app_assoc.
  destruct (blocks_cons b (concat bs ++ l) Hb) as [-> ->]. by rewrite IH1, IH2.
Qed.

Lemma blocks_spec l :
  concat (blocks n l) ++ rest n l = l /\ Forall (fun b => len b = n) (blocks n l) /\ len (rest n l) < n.
Proof.
  remember (length l) as m eqn:Hm. revert l Hm. induction m as [m IH] using lt_wf_ind. intros l Hm.
  destruct (Z.lt_ge_cases (len l) n) as [Hl|Hl].
  { destruct (blocks_short l Hl) as [-> ->]. by repeat split. }
  destruct (blocks_step l Hl) as [-> ->].
  destruct (IH (length (dropZ n l))) with (l := dropZ n l) as (H1 & H2 & H3); [|done|].
  { unfold dropZ, len in *. rewrite length_drop. lia. }
  cbn [concat]. rewrite <-app_assoc, H1, take_dropZ. split; [done|]. split; [|done].
  constructor; [rewrite len_takeZ; lia|done].
Qed.

Lemma blocks_lengths l : Forall (fun b => len b = n) (blocks n l).
Proof. apply blocks_spec. Qed.

Lemma len_rest l : len (rest n l) < n.
Proof. apply blocks_spec. Qed.

Lemma blocks_append l x :
  blocks n (l ++ x) = blocks n l ++ blocks n (rest n l ++ x) /\ rest n (l ++ x) = rest n (rest n l ++ x).
Proof.
  destruct (blocks_spec l) as (Heq & Hbs & _). pose proof (blocks_concat (blocks n l) (rest n l ++ x) Hbs) as H.
  by rewrite app_assoc, Heq in H.
Qed.

Lemma len_blocks l : len (blocks n l) = len l / n.
Proof.
  unfold blocks. unfold len at 1. rewrite length_fmap, length_seqZ.
  assert (0 <= len l / n) by (apply Z.div_pos; pose proof (len_nonneg l); lia). lia.
Qed.

Lemma len_rest_mod l : len (rest n l) = len l mod n.
Proof.
  pose proof (len_nonneg l). unfold rest. pose proof (Z.div_mod (len l) n).
  pose proof (Z.mod_pos_bound (len l) n). assert (0 <= len l / n) by (apply Z.div_pos; lia).
  rewrite len_dropZ by nia. lia.
Qed.

Lemma blocks_exact (bs : list (list A)) (r : list A) :
  Forall (fun b => len b = n) bs -> len r < n -> blocks n (concat bs ++ r) = bs /\ rest n (concat bs ++ r) = r.
Proof.
  intros Hbs Hr. destruct (blocks_concat bs r Hbs) as [-> ->].
  destruct (blocks_short r Hr) as [-> ->]. by rewrite app_nil_r.
Qed.
End cut.

End Blocks.
