(* ===== verification/Gf.v ===== *)
(** GF(2^8) arithmetic of the erasure coder: the scalar part of
    [crates/ec/src/gf.rs].  The multiplication loop, the two constant tables and
    the table lookups are the code's; the theorems show that they are a field
    (characteristic 2, no zero divisors, every non-zero byte invertible), which
    is what the codec's correctness rests on. *)

From Stdlib Require Import Ring.
From S2P Require Import Prelude.
Local Open Scope Z_scope.

Module Gf.

(** ** The code *)

Definition GF_POLY_LOW : byte := Byte.x1d.
Definition GF_TABLE_SIZE : nat := 256 * 256.

(** [a <<= 1] and [b >>= 1] on [u8] *)
Definition u8_shl1 (a : byte) : byte := byte.of_Z (Z.shiftl (byte.unsigned a) 1).
Definition u8_shr1 (a : byte) : byte := byte.of_Z (Z.shiftr (byte.unsigned a) 1).

(** One shift of [a] in the loop of [gf_mul_slow]: the carry folds back in as
    the low byte of the field polynomial. *)
Definition gf_shift (a : byte) : byte :=
  let carry := byte.and a Byte.x80 in
  let a := u8_shl1 a in
  if Byte.eqb carry Byte.x00 then a else byte.xor a GF_POLY_LOW.

(** [while b != 0 { .. }], one unit of fuel per iteration *)
Fixpoint gf_mul_loop (fuel : nat) (a b product : byte) : byte :=
  match fuel with
  | O => product
  | S fuel =>
      if Byte.eqb b Byte.x00 then product
      else
        let product :=
          if Byte.eqb (byte.and b Byte.x01) Byte.x00 then product
          else byte.xor product a in
        gf_mul_loop fuel (gf_shift a) (u8_shr1 b) product
  end.

(** Eight iterations exhaust the bits of [b] ([gf_mul_loop_enough]). *)
Definition gf_mul_slow (a b : byte) : byte := gf_mul_loop 8 a b Byte.x00.

(** [0..256] as bytes *)
Definition u8_all : list byte := usize_u8 <$> seq 0 256.

(** The inner loop of [build_mul_table] fills row [a]. *)
Definition mul_row (a : byte) : list byte := gf_mul_slow a <$> u8_all.

Definition build_mul_table : list byte := u8_all ≫= mul_row.

(** The inner search loop of [build_inv_table]: the first candidate from 1 on
    whose product with [value] is 1; the entry stays 0 when there is none, and
    entry 0 is never visited. *)
Definition inv_entry (mul_table : list byte) (value : nat) : byte :=
  if decide (value = 0%nat) then Byte.x00
  else match list_find (fun candidate : nat =>
               mul_table !! (value * 256 + candidate)%nat = Some Byte.x01)
             (seq 1 255) with
       | Some (_, candidate) => usize_u8 candidate
       | None => Byte.x00
       end.

Definition build_inv_table (mul_table : list byte) : list byte :=
  inv_entry mul_table <$> seq 0 256.

Definition GF_MUL_TABLE : list byte := build_mul_table.
Definition GF_INV_TABLE : list byte := build_inv_table GF_MUL_TABLE.

Definition gf_mul (a b : byte) : byte :=
  default Byte.x00 (GF_MUL_TABLE !! (u8_usize a * 256 + u8_usize b)%nat).

Definition gf_inv (a : byte) : byte :=
  default Byte.x00 (GF_INV_TABLE !! u8_usize a).

(** [&GF_MUL_TABLE[coeff * 256 .. (coeff + 1) * 256]] *)
Definition gf_mul_table (coeff : byte) : list byte :=
  take 256 (drop (u8_usize coeff * 256) GF_MUL_TABLE).

(** ** Bytes under exclusive or *)

Lemma byte_mod_lxor (a b : Z) : Z.lxor a b mod 256 = Z.lxor (a mod 256) (b mod 256).
Proof.
  change 256 with (2 ^ 8). rewrite <-!Z.land_ones by lia.
  apply Z.bits_inj'. intros n Hn. rewrite !Z.lxor_spec, !Z.land_spec, !Z.lxor_spec.
  by destruct (Z.testbit a n), (Z.testbit b n), (Z.testbit (Z.ones 8) n).
Qed.

Lemma unsigned_xor a b :
  byte.unsigned (byte.xor a b) = Z.lxor (byte.unsigned a) (byte.unsigned b).
Proof.
  unfold byte.xor. rewrite byte.unsigned_of_Z. unfold byte.wrap.
  change (2 ^ 8) with 256. rewrite byte_mod_lxor.
  by rewrite !(Z.mod_small _ 256) by apply byte.unsigned_range.
Qed.

Lemma xor_comm a b : byte.xor a b = byte.xor b a.
Proof. apply byte.unsigned_inj. rewrite !unsigned_xor. apply Z.lxor_comm. Qed.

Lemma xor_assoc a b c : byte.xor a (byte.xor b c) = byte.xor (byte.xor a b) c.
Proof. apply byte.unsigned_inj. rewrite !unsigned_xor. symmetry. apply Z.lxor_assoc. Qed.

Lemma xor_0_l a : byte.xor Byte.x00 a = a.
Proof. apply byte.unsigned_inj. rewrite unsigned_xor. apply Z.lxor_0_l. Qed.

Lemma xor_0_r a : byte.xor a Byte.x00 = a.
Proof. by rewrite xor_comm, xor_0_l. Qed.

Lemma xor_diag a : byte.xor a a = Byte.x00.
Proof. apply byte.unsigned_inj. rewrite unsigned_xor. apply Z.lxor_nilpotent. Qed.

Lemma xor_swap a b c d :
  byte.xor (byte.xor a b) (byte.xor c d) = byte.xor (byte.xor a c) (byte.xor b d).
Proof. rewrite <-!xor_assoc. f_equal. rewrite !xor_assoc. f_equal. apply xor_comm. Qed.

Lemma xor_eq_0 a b : byte.xor a b = Byte.x00 -> a = b.
Proof.
  intros H. rewrite <-(xor_0_r a), <-(xor_diag b), xor_assoc, H. apply xor_0_l.
Qed.

(** ** The multiplication loop is bilinear *)

Lemma shl1_xor a b : u8_shl1 (byte.xor a b) = byte.xor (u8_shl1 a) (u8_shl1 b).
Proof.
  apply byte.unsigned_inj. rewrite unsigned_xor. unfold u8_shl1.
  rewrite !byte.unsigned_of_Z, unsigned_xor, Z.shiftl_lxor. apply byte_mod_lxor.
Qed.

Lemma shr1_unsigned a : byte.unsigned (u8_shr1 a) = Z.shiftr (byte.unsigned a) 1.
Proof.
  unfold u8_shr1. rewrite byte.unsigned_of_Z. unfold byte.wrap.
  pose proof (byte.unsigned_range a).
  rewrite Z.shiftr_div_pow2 by lia. apply Z.mod_small.
  split; [apply Z.div_pos; lia|]. apply Z.div_lt_upper_bound; lia.
Qed.

Lemma shr1_xor a b : u8_shr1 (byte.xor a b) = byte.xor (u8_shr1 a) (u8_shr1 b).
Proof.
  apply byte.unsigned_inj.
  by rewrite unsigned_xor, !shr1_unsigned, unsigned_xor, Z.shiftr_lxor.
Qed.

Lemma high_bit_test a :
  Byte.eqb (byte.and a Byte.x80) Byte.x00 = negb (Z.testbit (byte.unsigned a) 7).
Proof. by destruct a. Qed.

Lemma low_bit_test a :
  Byte.eqb (byte.and a Byte.x01) Byte.x00 = negb (Z.testbit (byte.unsigned a) 0).
Proof. by destruct a. Qed.

Lemma gf_shift_xor a b : gf_shift (byte.xor a b) = byte.xor (gf_shift a) (gf_shift b).
Proof.
  unfold gf_shift. rewrite !high_bit_test, unsigned_xor, Z.lxor_spec, shl1_xor.
  destruct (Z.testbit (byte.unsigned a) 7), (Z.testbit (byte.unsigned b) 7); simpl.
  - by rewrite xor_swap, xor_diag, xor_0_r.
  - by rewrite <-!xor_assoc, (xor_comm GF_POLY_LOW).
  - by rewrite <-!xor_assoc.
  - done.
Qed.

Lemma gf_mul_loop_b0 n a p : gf_mul_loop n a Byte.x00 p = p.
Proof. by destruct n. Qed.

(** The accumulator factors out. *)
Lemma gf_mul_loop_acc n a b p q :
  gf_mul_loop n a b (byte.xor p q) = byte.xor p (gf_mul_loop n a b q).
Proof.
  revert a b q; induction n as [|n IH]; intros a b q; [done|]. simpl.
  destruct (Byte.eqb b Byte.x00); [done|].
  destruct (Byte.eqb (byte.and b Byte.x01) Byte.x00); [apply IH|].
  rewrite <-xor_assoc. apply IH.
Qed.

Lemma gf_mul_loop_xor_l n a a' b p p' :
  gf_mul_loop n (byte.xor a a') b (byte.xor p p') =
  byte.xor (gf_mul_loop n a b p) (gf_mul_loop n a' b p').
Proof.
  revert a a' b p p'; induction n as [|n IH]; intros a a' b p p'; [done|]. simpl.
  destruct (Byte.eqb b Byte.x00); [done|]. rewrite gf_shift_xor.
  destruct (Byte.eqb (byte.and b Byte.x01) Byte.x00); [apply IH|].
  rewrite xor_swap. apply IH.
Qed.

(** The early exit on [b = 0] is only an optimisation. *)
Lemma gf_mul_loop_step n a b p :
  gf_mul_loop (S n) a b p =
  gf_mul_loop n (gf_shift a) (u8_shr1 b)
    (if Z.testbit (byte.unsigned b) 0 then byte.xor p a else p).
Proof.
  cbn [gf_mul_loop]. rewrite low_bit_test. destruct (Byte.eqb b Byte.x00) eqn:Hb.
  - apply Byte.byte_dec_bl in Hb as ->. symmetry. apply gf_mul_loop_b0.
  - by destruct (Z.testbit (byte.unsigned b) 0).
Qed.

Lemma gf_mul_loop_xor_r n a b b' p p' :
  gf_mul_loop n a (byte.xor b b') (byte.xor p p') =
  byte.xor (gf_mul_loop n a b p) (gf_mul_loop n a b' p').
Proof.
  revert a b b' p p'; induction n as [|n IH]; intros a b b' p p'; [done|].
  rewrite !gf_mul_loop_step, shr1_xor, unsigned_xor, Z.lxor_spec, <-IH. f_equal.
  destruct (Z.testbit (byte.unsigned b) 0), (Z.testbit (byte.unsigned b') 0); simpl.
  - by rewrite (xor_swap p a), xor_diag, xor_0_r.
  - by rewrite <-!xor_assoc, (xor_comm a).
  - by rewrite <-!xor_assoc.
  - done.
Qed.

Lemma gf_mul_loop_enough n m a b p :
  byte.unsigned b < 2 ^ Z.of_nat n -> (n <= m)%nat ->
  gf_mul_loop m a b p = gf_mul_loop n a b p.
Proof.
  revert m a b p; induction n as [|n IH]; intros m a b p Hb Hm.
  - assert (b = Byte.x00) as ->; [|by rewrite !gf_mul_loop_b0].
    apply byte.unsigned_inj. pose proof (byte.unsigned_range b).
    change (byte.unsigned Byte.x00) with 0. change (2 ^ Z.of_nat 0) with 1 in Hb. lia.
  - destruct m as [|m]; [lia|]. rewrite !gf_mul_loop_step. apply IH; [|lia].
    rewrite shr1_unsigned, Z.shiftr_div_pow2 by lia. change (2 ^ 1) with 2.
    apply Z.div_lt_upper_bound; [lia|].
    replace (2 * 2 ^ Z.of_nat n) with (2 ^ Z.of_nat (S n)); [done|].
    rewrite Nat2Z.inj_succ, Z.pow_succ_r; lia.
Qed.

Lemma gf_mul_slow_xor_l a a' b :
  gf_mul_slow (byte.xor a a') b = byte.xor (gf_mul_slow a b) (gf_mul_slow a' b).
Proof.
  unfold gf_mul_slow. rewrite <-(xor_0_l Byte.x00) at 1. apply gf_mul_loop_xor_l.
Qed.

Lemma gf_mul_slow_xor_r a b b' :
  gf_mul_slow a (byte.xor b b') = byte.xor (gf_mul_slow a b) (gf_mul_slow a b').
Proof.
  unfold gf_mul_slow. rewrite <-(xor_0_l Byte.x00) at 1. apply gf_mul_loop_xor_r.
Qed.

(** ** Linear extension from the eight single-bit bytes *)

Definition basis : list byte :=
  [Byte.x01; Byte.x02; Byte.x04; Byte.x08; Byte.x10; Byte.x20; Byte.x40; Byte.x80].

Definition decompose (a : byte) : list byte :=
  filter (fun e => byte.and a e ≠ Byte.x00) basis.

Definition xor_all (l : list byte) : byte := foldr byte.xor Byte.x00 l.

Lemma xor_all_decompose a : xor_all (decompose a) = a.
Proof. by destruct a. Qed.

Definition additive (f : byte -> byte) : Prop :=
  forall a b, f (byte.xor a b) = byte.xor (f a) (f b).

Lemma additive_0 f : additive f -> f Byte.x00 = Byte.x00.
Proof. intros Hf. rewrite <-(xor_0_l Byte.x00), Hf. apply xor_diag. Qed.

Lemma additive_ext f g :
  additive f -> additive g -> Forall (fun e => f e = g e) basis -> forall a, f a = g a.
Proof.
  intros Hf Hg Hb a. rewrite <-(xor_all_decompose a).
  assert (Forall (fun e => f e = g e) (decompose a)) as Hd.
  { apply list.Forall_forall. intros e He. rewrite list.Forall_forall in Hb. apply Hb.
    by apply list_elem_of_filter in He as [_ He]. }
  induction Hd as [|e l He _ IH]; simpl.
  - by rewrite !additive_0.
  - by rewrite Hf, Hg, He, IH.
Qed.

Lemma additive_mul_l b : additive (fun a => gf_mul_slow a b).
Proof. intros a a'. apply gf_mul_slow_xor_l. Qed.

Lemma additive_mul_r a : additive (gf_mul_slow a).
Proof. intros b b'. apply gf_mul_slow_xor_r. Qed.

Lemma additive_compose f g : additive f -> additive g -> additive (fun a => f (g a)).
Proof. intros Hf Hg a b. by rewrite Hg, Hf. Qed.

Lemma gf_mul_slow_comm a b : gf_mul_slow a b = gf_mul_slow b a.
Proof.
  revert a. apply additive_ext; [apply additive_mul_l|apply additive_mul_r|].
  repeat constructor; revert b;
    (apply additive_ext; [apply additive_mul_r|apply additive_mul_l|
       by repeat constructor]).
Qed.

Lemma gf_mul_slow_assoc a b c :
  gf_mul_slow a (gf_mul_slow b c) = gf_mul_slow (gf_mul_slow a b) c.
Proof.
  revert a. apply additive_ext.
  { apply additive_mul_l. }
  { apply (additive_compose (fun x => gf_mul_slow x c)); apply additive_mul_l. }
  repeat constructor; revert b;
    (apply additive_ext;
       [apply (additive_compose (gf_mul_slow _) (fun b => gf_mul_slow b c));
          [apply additive_mul_r|apply additive_mul_l]
       |apply (additive_compose (fun x => gf_mul_slow x c) (gf_mul_slow _));
          [apply additive_mul_l|apply additive_mul_r]|];
     repeat constructor; revert c;
     (apply additive_ext;
       [apply (additive_compose (gf_mul_slow _) (gf_mul_slow _)); apply additive_mul_r
       |apply additive_mul_r|by repeat constructor])).
Qed.

Lemma gf_mul_slow_1_l a : gf_mul_slow Byte.x01 a = a.
Proof. by destruct a. Qed.

(** Every non-zero byte has an inverse: its 254th power. *)
Definition pow254 (a : byte) : byte :=
  let a2 := gf_mul_slow a a in
  let a4 := gf_mul_slow a2 a2 in
  let a8 := gf_mul_slow a4 a4 in
  let a16 := gf_mul_slow a8 a8 in
  let a32 := gf_mul_slow a16 a16 in
  let a64 := gf_mul_slow a32 a32 in
  let a128 := gf_mul_slow a64 a64 in
  gf_mul_slow a2 (gf_mul_slow a4 (gf_mul_slow a8 (gf_mul_slow a16
    (gf_mul_slow a32 (gf_mul_slow a64 a128))))).

Lemma gf_mul_slow_pow254 a : a ≠ Byte.x00 -> gf_mul_slow a (pow254 a) = Byte.x01.
Proof. destruct a; [done|intros _; vm_compute; reflexivity..]. Qed.

(** ** The tables *)

Lemma u8_all_lookup b : u8_all !! u8_usize b = Some b.
Proof.
  unfold u8_all. rewrite list_lookup_fmap, lookup_seq_lt by apply u8_usize_lt.
  simpl. by rewrite usize_u8_usize.
Qed.

Lemma length_u8_all : length u8_all = 256%nat.
Proof. done. Qed.

Lemma length_mul_row a : length (mul_row a) = 256%nat.
Proof. unfold mul_row. by rewrite length_fmap. Qed.

Lemma mul_row_lookup a b : mul_row a !! u8_usize b = Some (gf_mul_slow a b).
Proof. unfold mul_row. by rewrite list_lookup_fmap, u8_all_lookup. Qed.

Lemma mul_table_lookup a b :
  GF_MUL_TABLE !! (u8_usize a * 256 + u8_usize b)%nat = Some (gf_mul_slow a b).
Proof.
  unfold GF_MUL_TABLE, build_mul_table.
  rewrite (lookup_bind_blocks 256) by (apply length_mul_row || apply u8_usize_lt).
  rewrite u8_all_lookup. simpl. apply mul_row_lookup.
Qed.

Lemma length_mul_table : length GF_MUL_TABLE = GF_TABLE_SIZE.
Proof.
  unfold GF_MUL_TABLE, build_mul_table.
  rewrite (length_bind_blocks 256) by apply length_mul_row. by rewrite length_u8_all.
Qed.

Lemma gf_mul_slow_eq a b : gf_mul a b = gf_mul_slow a b.
Proof. unfold gf_mul. by rewrite mul_table_lookup. Qed.

Lemma gf_mul_table_eq c : gf_mul_table c = mul_row c.
Proof.
  unfold gf_mul_table, GF_MUL_TABLE, build_mul_table.
  apply (block_bind_blocks 256); [apply length_mul_row|apply u8_all_lookup].
Qed.

Lemma gf_mul_table_lookup c b : gf_mul_table c !! u8_usize b = Some (gf_mul c b).
Proof. rewrite gf_mul_table_eq, gf_mul_slow_eq. apply mul_row_lookup. Qed.

Lemma length_gf_mul_table c : length (gf_mul_table c) = 256%nat.
Proof. rewrite gf_mul_table_eq. apply length_mul_row. Qed.

Lemma u8_usize_0 a : u8_usize a = 0%nat -> a = Byte.x00.
Proof. intros H. by apply u8_usize_inj. Qed.

(** The search loop of [build_inv_table] succeeds on every non-zero value. *)
Lemma gf_mul_inv_r a : a ≠ Byte.x00 -> gf_mul a (gf_inv a) = Byte.x01.
Proof.
  intros Ha. unfold gf_inv, GF_INV_TABLE, build_inv_table.
  rewrite list_lookup_fmap, lookup_seq_lt by apply u8_usize_lt.
  cbn [fmap option_fmap option_map default from_option id Nat.add].
  unfold inv_entry. rewrite decide_False by (intros ?%u8_usize_0; done).
  case_match eqn:Hf; [destruct p as [i c]|].
  - apply list_find_Some in Hf as (Hi & HP & _).
    apply lookup_seq in Hi as [-> Hi].
    rewrite <-(u8_usize_u8 (1 + i)), mul_table_lookup in HP by lia.
    injection HP as HP. by rewrite gf_mul_slow_eq.
  - apply list_find_None in Hf. rewrite list.Forall_forall in Hf. exfalso.
    apply (Hf (u8_usize (pow254 a))).
    + apply elem_of_seq. split; [|pose proof (u8_usize_lt (pow254 a)); lia].
      destruct (u8_usize (pow254 a)) eqn:Hp; [|lia].
      apply u8_usize_0 in Hp. pose proof (gf_mul_slow_pow254 a Ha) as H1.
      rewrite Hp, (additive_0 (gf_mul_slow a)) in H1 by apply additive_mul_r. done.
    + by rewrite mul_table_lookup, gf_mul_slow_pow254.
Qed.

(** ** The field *)

Lemma gf_ring_theory :
  ring_theory Byte.x00 Byte.x01 byte.xor gf_mul byte.xor (fun a => a) eq.
Proof.
  constructor; intros; rewrite ?gf_mul_slow_eq.
  - apply xor_0_l.
  - apply xor_comm.
  - apply xor_assoc.
  - apply gf_mul_slow_1_l.
  - apply gf_mul_slow_comm.
  - apply gf_mul_slow_assoc.
  - apply gf_mul_slow_xor_l.
  - done.
  - apply xor_diag.
Qed.

(** Coefficients in GF(2), so that [ring] knows [x + x = 0]. *)
Definition gf_coeff (c : bool) : byte := if c then Byte.x01 else Byte.x00.

Lemma gf_ring_morph :
  ring_morph Byte.x00 Byte.x01 byte.xor gf_mul byte.xor (fun a => a) eq
    false true xorb andb xorb (fun c => c) Bool.eqb gf_coeff.
Proof.
  constructor; try done.
  - by intros [] [].
  - by intros [] [].
  - intros [] []; rewrite gf_mul_slow_eq; done.
  - intros [] [] H; done.
Qed.

Ltac gf_constant t :=
  lazymatch t with
  | Byte.x00 => constr:(false)
  | Byte.x01 => constr:(true)
  | _ => constr:(InitialRing.NotConstant)
  end.

Add Ring gf_ring : gf_ring_theory (morphism gf_ring_morph, constants [gf_constant]).

Lemma gf_mul_0_l a : gf_mul Byte.x00 a = Byte.x00.
Proof. ring. Qed.

Lemma gf_mul_0_r a : gf_mul a Byte.x00 = Byte.x00.
Proof. ring. Qed.

Lemma gf_mul_1_l a : gf_mul Byte.x01 a = a.
Proof. ring. Qed.

Lemma gf_mul_inv_l a : a ≠ Byte.x00 -> gf_mul (gf_inv a) a = Byte.x01.
Proof. intros Ha. rewrite <-(gf_mul_inv_r a Ha). ring. Qed.

Lemma gf_mul_eq_0 a b : gf_mul a b = Byte.x00 -> a = Byte.x00 \/ b = Byte.x00.
Proof.
  intros H. destruct (decide (a = Byte.x00)) as [|Ha]; [by left|right].
  transitivity (gf_mul (gf_inv a) (gf_mul a b)); [|by rewrite H, gf_mul_0_r].
  transitivity (gf_mul (gf_mul (gf_inv a) a) b); [|ring].
  rewrite (gf_mul_inv_l a Ha). ring.
Qed.

Lemma gf_inv_neq_0 a : a ≠ Byte.x00 -> gf_inv a ≠ Byte.x00.
Proof.
  intros Ha H. pose proof (gf_mul_inv_r a Ha) as H1. by rewrite H, gf_mul_0_r in H1.
Qed.

Lemma xor_neq_0 a b : a ≠ b -> byte.xor a b ≠ Byte.x00.
Proof. intros Hab H. by apply Hab, xor_eq_0. Qed.

(** The multiplication and inverse tables the erasure coder computes with
    make the 256 bytes, with exclusive or as addition, a field of
    characteristic 2: both operations are associative and commutative, product
    distributes over sum, 0 and 1 are neutral, every element is its own
    negative, and the table inverse of a non-zero byte is its inverse. *)
Theorem gf_tables_form_field :
  ring_theory Byte.x00 Byte.x01 byte.xor gf_mul byte.xor (fun a => a) eq /\
  Byte.x01 ≠ Byte.x00 /\
  (forall a, byte.xor a a = Byte.x00) /\
  (forall a, a ≠ Byte.x00 -> gf_mul a (gf_inv a) = Byte.x01).
Proof.
  split_and!; [apply gf_ring_theory|done|apply xor_diag|apply gf_mul_inv_r].
Qed.

End Gf.

Add Ring gf_ring : Gf.gf_ring_theory (morphism Gf.gf_ring_morph, constants [Gf.gf_constant]).
