(* ===== verification/Linear.v ===== *)
(** Linear algebra over GF(2^8), independent of the code: finite sums, matrices
    as functions of row and column, elementary row operations, and Cauchy
    matrices.  The erasure coder's proofs (files Matrix, Codec) use it to state
    what an inverse is and why every square sub-matrix of the encoding matrix
    has one. *)

From Stdlib Require Import Ring.
From S2P Require Import Prelude Gf.

Declare Scope gf_scope.
Delimit Scope gf_scope with gf.
Infix "+" := byte.xor : gf_scope.
Infix "*" := Gf.gf_mul : gf_scope.
Notation "0" := Byte.x00 : gf_scope.
Notation "1" := Byte.x01 : gf_scope.

Module Linear.

(** A matrix or vector is given by its entries; sizes are side conditions. *)
Abbreviation matrix := (nat -> nat -> byte).
Abbreviation vector := (nat -> byte).

(** [gsum n f = f 0 + ... + f (n - 1)] *)
Fixpoint gsum (n : nat) (f : nat -> byte) : byte :=
  match n with
  | O => 0%gf
  | S m => (gsum m f + f m)%gf
  end.

Definition delta (i j : nat) : byte := if decide (i = j) then 1%gf else 0%gf.

(** Row [i] of [M] applied to the vector [x] of length [n] *)
Definition dot (n : nat) (M : matrix) (i : nat) (x : vector) : byte :=
  gsum n (fun j => (M i j * x j)%gf).

(** Entry [(i, j)] of the product [A B], inner dimension [n] *)
Definition mprod (n : nat) (A B : matrix) (i j : nat) : byte :=
  gsum n (fun l => (A i l * B l j)%gf).

(** Only the zero vector is mapped to zero. *)
Definition trivial_kernel (n : nat) (M : matrix) : Prop :=
  forall x, (forall i, i < n -> dot n M i x = 0%gf) -> forall j, j < n -> x j = 0%gf.

Lemma gsum_ext n f g : (forall i, i < n -> f i = g i) -> gsum n f = gsum n g.
Proof.
  induction n as [|n IH]; intros H; simpl; [done|].
  rewrite IH by (intros; apply H; lia). by rewrite H by lia.
Qed.

Lemma gsum_zero n f : (forall i, i < n -> f i = 0%gf) -> gsum n f = 0%gf.
Proof.
  induction n as [|n IH]; intros H; simpl; [done|].
  rewrite IH by (intros; apply H; lia). rewrite H by lia. ring.
Qed.

Lemma gsum_add n f g : gsum n (fun i => (f i + g i)%gf) = (gsum n f + gsum n g)%gf.
Proof. induction n as [|n IH]; simpl; [done|]. rewrite IH. ring. Qed.

Lemma gsum_mul_l n c f : gsum n (fun i => (c * f i)%gf) = (c * gsum n f)%gf.
Proof. induction n as [|n IH]; simpl; [ring|]. rewrite IH. ring. Qed.

Lemma gsum_mul_r n c f : gsum n (fun i => (f i * c)%gf) = (gsum n f * c)%gf.
Proof. induction n as [|n IH]; simpl; [ring|]. rewrite IH. ring. Qed.

Lemma gsum_swap n m (f : nat -> nat -> byte) :
  gsum n (fun i => gsum m (fun j => f i j)) = gsum m (fun j => gsum n (fun i => f i j)).
Proof.
  induction n as [|n IH]; simpl; [by rewrite gsum_zero|].
  by rewrite IH, gsum_add.
Qed.

(** A sum with a single non-zero term *)
Lemma gsum_single n k f :
  k < n -> (forall i, i < n -> i ≠ k -> f i = 0%gf) -> gsum n f = f k.
Proof.
  induction n as [|n IH]; intros Hk H; simpl; [lia|].
  destruct (decide (k = n)) as [->|Hne].
  - rewrite gsum_zero by (intros; apply H; lia). ring.
  - rewrite IH, (H n) by (intros; try apply H; lia). ring.
Qed.

Lemma delta_same i : delta i i = 1%gf.
Proof. unfold delta. by rewrite decide_True. Qed.

Lemma delta_ne i j : i ≠ j -> delta i j = 0%gf.
Proof. intros. unfold delta. by rewrite decide_False. Qed.

Lemma gsum_delta_l n i f : i < n -> gsum n (fun j => (delta i j * f j)%gf) = f i.
Proof.
  intros Hi. rewrite (gsum_single n i) by
    (try intros j _ Hj; rewrite ?(delta_ne i j) by done; try ring; done).
  rewrite delta_same. ring.
Qed.

Lemma dot_mprod n A B i x : dot n (mprod n A B) i x = dot n A i (fun l => dot n B l x).
Proof.
  unfold dot, mprod.
  rewrite (gsum_ext n _ (fun j => gsum n (fun l => (A i l * B l j * x j)%gf)))
    by (intros; by rewrite <-gsum_mul_r).
  rewrite gsum_swap. apply gsum_ext. intros l _. rewrite <-gsum_mul_l.
  apply gsum_ext. intros. ring.
Qed.

Lemma dot_ext n A B i x y :
  (forall j, j < n -> A i j = B i j) -> (forall j, j < n -> x j = y j) ->
  dot n A i x = dot n B i y.
Proof. intros HA Hx. apply gsum_ext. intros j Hj. by rewrite HA, Hx. Qed.

(** A left inverse recovers the vector. *)
Lemma left_inverse_dot n A B x i :
  i < n ->
  (forall i j, i < n -> j < n -> mprod n B A i j = delta i j) ->
  dot n B i (fun l => dot n A l x) = x i.
Proof.
  intros Hi HBA. rewrite <-dot_mprod.
  rewrite (dot_ext _ _ delta _ _ x) by (intros; auto). by apply gsum_delta_l.
Qed.

Lemma trivial_kernel_ext n M M' :
  (forall i j, i < n -> j < n -> M i j = M' i j) -> trivial_kernel n M -> trivial_kernel n M'.
Proof.
  intros H HM x Hx. apply HM. intros i Hi. rewrite <-(Hx i Hi).
  apply dot_ext; auto.
Qed.

(** A matrix with a left inverse has a trivial kernel. *)
Lemma left_inverse_kernel n A B :
  (forall i j, i < n -> j < n -> mprod n B A i j = delta i j) -> trivial_kernel n A.
Proof.
  intros HBA x Hx j Hj. rewrite <-(left_inverse_dot n A B x j) by done.
  apply gsum_zero. intros i Hi. rewrite Hx by done. ring.
Qed.

(** ** Elementary row operations *)

(** A row operation acts on the first [n] rows and columns only, commutes with
    right multiplication, and does not create kernel vectors. *)
Definition row_operation (n : nat) (T : matrix -> matrix) : Prop :=
  (forall M M', (forall i j, i < n -> j < n -> M i j = M' i j) ->
     forall i j, i < n -> j < n -> T M i j = T M' i j) /\
  (forall B A i j, mprod n (T B) A i j = T (mprod n B A) i j) /\
  (forall M, trivial_kernel n M -> trivial_kernel n (T M)).

Definition row_swap (p q : nat) (M : matrix) : matrix := fun i j =>
  if decide (i = p) then M q j else if decide (i = q) then M p j else M i j.

Definition row_scale (p : nat) (s : byte) (M : matrix) : matrix := fun i j =>
  if decide (i = p) then (M i j * s)%gf else M i j.

(** Add [F i] times row [p] to every other row [i]. *)
Definition row_elim (p : nat) (F : vector) (M : matrix) : matrix := fun i j =>
  if decide (i = p) then M i j else (M i j + F i * M p j)%gf.

Lemma mprod_swap n p q B A i j :
  mprod n (row_swap p q B) A i j = row_swap p q (mprod n B A) i j.
Proof. unfold mprod, row_swap. by repeat case_decide. Qed.

Lemma mprod_scale n p s B A i j :
  mprod n (row_scale p s B) A i j = row_scale p s (mprod n B A) i j.
Proof.
  unfold mprod, row_scale. case_decide; [|done].
  rewrite <-gsum_mul_r. apply gsum_ext. intros. ring.
Qed.

Lemma mprod_elim n p F B A i j :
  mprod n (row_elim p F B) A i j = row_elim p F (mprod n B A) i j.
Proof.
  unfold mprod, row_elim. case_decide; [done|].
  rewrite <-gsum_mul_l, <-gsum_add. apply gsum_ext. intros. ring.
Qed.

(** Each operation is invertible, so it keeps the kernel trivial. *)
Lemma kernel_swap n p q M :
  p < n -> q < n -> trivial_kernel n M -> trivial_kernel n (row_swap p q M).
Proof.
  intros Hp Hq HM x Hx. apply HM. intros i Hi.
  assert (forall r, dot n (row_swap p q M) r x =
    if decide (r = p) then dot n M q x
    else if decide (r = q) then dot n M p x else dot n M r x) as Hrow
    by (intros r; unfold dot, row_swap; by repeat case_decide).
  pose proof (Hx p Hp) as Xp. pose proof (Hx q Hq) as Xq. specialize (Hx i Hi).
  rewrite Hrow in Xp, Xq, Hx. repeat case_decide; congruence.
Qed.

Lemma kernel_scale n p s M :
  s ≠ 0%gf -> trivial_kernel n M -> trivial_kernel n (row_scale p s M).
Proof.
  intros Hs HM x Hx. apply HM. intros i Hi. specialize (Hx i Hi).
  unfold dot, row_scale in *. destruct (decide (i = p)); [|done].
  assert ((s * gsum n (fun j => (M i j * x j)%gf))%gf = 0%gf) as H.
  { rewrite <-gsum_mul_l, <-Hx. apply gsum_ext. intros. ring. }
  by apply Gf.gf_mul_eq_0 in H as [|].
Qed.

Lemma kernel_elim n p F M :
  p < n -> trivial_kernel n M -> trivial_kernel n (row_elim p F M).
Proof.
  intros Hp HM x Hx. apply HM. intros i Hi.
  pose proof (Hx p Hp) as Xp. specialize (Hx i Hi).
  unfold dot, row_elim in *. destruct (decide (p = p)); [|done].
  destruct (decide (i = p)); [done|].
  rewrite <-Hx, (gsum_ext n (fun j => ((M i j + F i * M p j) * x j)%gf)
    (fun j => (M i j * x j + F i * (M p j * x j))%gf)) by (intros; ring).
  rewrite gsum_add, gsum_mul_l, Xp. ring.
Qed.

Lemma row_operation_swap n p q : p < n -> q < n -> row_operation n (row_swap p q).
Proof.
  intros Hp Hq. split_and!; intros.
  - unfold row_swap. repeat case_decide; auto.
  - apply mprod_swap.
  - by apply kernel_swap.
Qed.

Lemma row_operation_scale n p s : s ≠ 0%gf -> row_operation n (row_scale p s).
Proof.
  intros Hs. split_and!; intros.
  - unfold row_scale. case_decide; [f_equal|]; auto.
  - apply mprod_scale.
  - by apply kernel_scale.
Qed.

Lemma row_operation_elim n p F : p < n -> row_operation n (row_elim p F).
Proof.
  intros Hp. split_and!; intros.
  - unfold row_elim. case_decide; [|f_equal; [|f_equal]]; auto.
  - apply mprod_elim.
  - by apply kernel_elim.
Qed.

(** If the first [p] columns are unit vectors and column [p] vanishes from row
    [p] on, the kernel is not trivial. *)
Lemma no_pivot_kernel n p M :
  p < n ->
  (forall i j, i < n -> j < p -> M i j = delta i j) ->
  (forall i, p <= i < n -> M i p = 0%gf) ->
  ~ trivial_kernel n M.
Proof.
  intros Hp Hcols Hcol Hker.
  set (x := fun j => if decide (j < p) then M j p else delta j p).
  assert (x p = 0%gf) as Hxp; [|by unfold x in Hxp; rewrite decide_False, delta_same in Hxp by lia].
  apply Hker; [|done]. intros i Hi.
  assert (dot n M i x =
    (gsum n (fun j => (M i p * delta p j)%gf) +
     gsum n (fun j => (delta i j * (if decide (j < p) then M j p else 0%gf))%gf))%gf) as ->.
  { unfold dot. rewrite <-gsum_add. apply gsum_ext. intros j Hj. unfold x.
    destruct (decide (j < p)).
    - rewrite (Hcols i j), (delta_ne p j) by lia. ring.
    - destruct (decide (j = p)) as [->|]; [rewrite !delta_same; ring|].
      rewrite (delta_ne j p), (delta_ne p j) by lia. ring. }
  rewrite gsum_mul_l, (gsum_delta_l n i) by done.
  rewrite (gsum_ext n (delta p) (fun j => (delta p j * 1)%gf)) by (intros; ring).
  rewrite gsum_delta_l by done. case_decide; [ring|].
  rewrite Hcol by lia. ring.
Qed.

(** ** Cauchy systems *)

(** Sum over the elements of a list *)
Definition lsum {A} (f : A -> byte) (l : list A) : byte :=
  foldr (fun a acc => (f a + acc)%gf) 0%gf l.

Section lsum.
Context {A : Type}.
Implicit Types (f g : A -> byte) (l : list A).

Lemma lsum_ext f g l : (forall a, a ∈ l -> f a = g a) -> lsum f l = lsum g l.
Proof.
  induction l as [|a l IH]; intros H; simpl; [done|].
  rewrite (H a) by left. f_equal. apply IH. intros b Hb. apply H. by right.
Qed.

Lemma lsum_add f g l : lsum (fun a => (f a + g a)%gf) l = (lsum f l + lsum g l)%gf.
Proof. induction l as [|a l IH]; simpl; [ring|]. rewrite IH. ring. Qed.

Lemma lsum_mul_l c f l : lsum (fun a => (c * f a)%gf) l = (c * lsum f l)%gf.
Proof. induction l as [|a l IH]; simpl; [ring|]. rewrite IH. ring. Qed.

Lemma lsum_zero f l : (forall a, a ∈ l -> f a = 0%gf) -> lsum f l = 0%gf.
Proof.
  intros H. rewrite (lsum_ext f (fun a => (0 * f a)%gf)).
  - rewrite lsum_mul_l. ring.
  - intros a Ha. rewrite H by done. ring.
Qed.

Lemma lsum_app f l1 l2 : lsum f (l1 ++ l2) = (lsum f l1 + lsum f l2)%gf.
Proof. induction l1 as [|a l1 IH]; simpl; [ring|]. rewrite IH. ring. Qed.

Lemma lsum_filter (P : A -> Prop) `{!forall a, Decision (P a)} f l :
  (forall a, a ∈ l -> ~ P a -> f a = 0%gf) -> lsum f (filter P l) = lsum f l.
Proof.
  induction l as [|a l IH]; intros Hz; [done|]. rewrite filter_cons.
  assert (lsum f (filter P l) = lsum f l) as IH'
    by (apply IH; intros; apply Hz; [by right|done]).
  case_decide; simpl; rewrite IH'; [done|]. rewrite (Hz a) by (done || left). ring.
Qed.
End lsum.

Lemma lsum_fmap {A B} (h : A -> B) f l : lsum f (h <$> l) = lsum (fun a => f (h a)) l.
Proof. induction l as [|a l IH]; simpl; [done|]. by rewrite <-IH. Qed.

Lemma gsum_lsum n f : gsum n f = lsum f (seq 0 n).
Proof.
  induction n as [|n IH]; [done|]. rewrite seq_S, lsum_app. simpl. rewrite IH. ring.
Qed.

(** Eliminating one unknown and one equation of a Cauchy system leaves a
    smaller Cauchy system. *)
Lemma cauchy_eliminate (x c r c0 r0 : byte) :
  r ≠ c -> r0 ≠ c -> r ≠ c0 ->
  (x * Gf.gf_inv (r + c) +
   (r0 + c0) * Gf.gf_inv (r + c0) * (x * Gf.gf_inv (r0 + c)))%gf =
  ((r0 + r) * Gf.gf_inv (r + c0) *
   (x * (c0 + c) * Gf.gf_inv (r0 + c) * Gf.gf_inv (r + c)))%gf.
Proof.
  intros H1 H2 H3. apply Gf.xor_neq_0 in H1, H2, H3.
  pose proof (Gf.gf_mul_inv_r _ H1) as E1. pose proof (Gf.gf_mul_inv_r _ H2) as E2.
  pose proof (Gf.gf_mul_inv_r _ H3) as E3.
  set (i1 := Gf.gf_inv (r + c)%gf) in *. set (i2 := Gf.gf_inv (r0 + c)%gf) in *.
  set (i3 := Gf.gf_inv (r + c0)%gf) in *.
  transitivity (x * i1 * ((r0 + c) * i2) * ((r + c0) * i3) +
                (r0 + c0) * i3 * (x * i2) * ((r + c) * i1))%gf.
  - rewrite E1, E2, E3. ring.
  - ring.
Qed.

Lemma cauchy_system (cs rs : list byte) (x : byte -> byte) :
  NoDup cs -> NoDup rs -> (forall c r, c ∈ cs -> r ∈ rs -> r ≠ c) ->
  length cs <= length rs ->
  (forall r, r ∈ rs -> lsum (fun c => (x c * Gf.gf_inv (r + c))%gf) cs = 0%gf) ->
  forall c, c ∈ cs -> x c = 0%gf.
Proof.
  revert rs x; induction cs as [|c0 cs IH]; intros rs x Hcs Hrs Hne Hlen Heq c Hc.
  { by apply not_elem_of_nil in Hc. }
  destruct rs as [|r0 rs]; [simpl in Hlen; lia|].
  apply list.NoDup_cons in Hcs as [Hc0 Hcs], Hrs as [Hr0 Hrs].
  assert (r0 ≠ c0) as H00 by (apply Hne; left).
  pose proof (Gf.gf_mul_inv_r _ (Gf.xor_neq_0 _ _ H00)) as Hi00.
  (* the first equation gives the first unknown *)
  assert (x c0 = ((r0 + c0) * lsum (fun c => (x c * Gf.gf_inv (r0 + c))%gf) cs)%gf) as Hx0.
  { pose proof (Heq r0 (list_elem_of_here _ _)) as H0. simpl in H0.
    apply Gf.xor_eq_0 in H0. rewrite <-H0.
    transitivity (x c0 * ((r0 + c0) * Gf.gf_inv (r0 + c0)))%gf; [rewrite Hi00|]; ring. }
  assert (forall c, c ∈ cs -> x c = 0%gf) as Htail.
  { intros c1 Hc1.
    assert (x c1 * (c0 + c1) * Gf.gf_inv (r0 + c1) = 0)%gf as H.
    { apply (IH rs (fun c => (x c * (c0 + c) * Gf.gf_inv (r0 + c))%gf));
        [done..|by intros; apply Hne; right|simpl in Hlen; lia| |done].
      intros r Hr.
      assert (r ≠ c0) as Hrc0 by (apply Hne; [left|by right]).
      assert (r0 ≠ r) as Hr0r by (by intros ->).
      assert (((r0 + r) * Gf.gf_inv (r + c0) *
        lsum (fun c => (x c * (c0 + c) * Gf.gf_inv (r0 + c) * Gf.gf_inv (r + c))%gf) cs)%gf
        = 0%gf) as Hz.
      { rewrite <-lsum_mul_l.
        rewrite (lsum_ext _ (fun c => (x c * Gf.gf_inv (r + c) +
          (r0 + c0) * Gf.gf_inv (r + c0) * (x c * Gf.gf_inv (r0 + c)))%gf)).
        - rewrite lsum_add, lsum_mul_l.
          pose proof (Heq r (list_elem_of_further _ _ _ Hr)) as Hr'. simpl in Hr'.
          rewrite Hx0 in Hr'. rewrite <-Hr'. ring.
        - intros c2 Hc2. symmetry. apply cauchy_eliminate; [|  |done].
          + apply Hne; by right.
          + apply Hne; [by right|left]. }
      apply Gf.gf_mul_eq_0 in Hz as [Hz|Hz]; [|done].
      apply Gf.gf_mul_eq_0 in Hz as [Hz|Hz].
      - by apply Gf.xor_neq_0 in Hz.
      - by apply Gf.gf_inv_neq_0 in Hz; [|apply Gf.xor_neq_0]. }
    apply Gf.gf_mul_eq_0 in H as [H|H].
    - apply Gf.gf_mul_eq_0 in H as [H|H]; [done|].
      apply Gf.xor_eq_0 in H as ->. done.
    - apply Gf.gf_inv_neq_0 in H; [done|]. apply Gf.xor_neq_0, Hne; [by right|left]. }
  apply elem_of_cons in Hc as [->|Hc]; [|by apply Htail].
  rewrite Hx0, lsum_zero; [ring|]. intros c Hc. rewrite Htail by done. ring.
Qed.

End Linear.
