(* ===== verification/Matrix.v ===== *)
(** Row-major byte matrices of the erasure coder: [gen_cauchy1_matrix] and
    [invert_matrix] of [crates/ec/src/gf.rs], on flat arrays with the code's
    index arithmetic.  The theorems show that the generated matrix is the
    identity over a Cauchy block, that Gauss-Jordan elimination never indexes
    out of range, that what it returns is a left inverse, and that it fails only
    on a matrix with a non-trivial kernel. *)

From Stdlib Require Import Ring.
From S2P Require Import Prelude Gf Linear.
Import Linear.

Module Matrix.

(** ** The code *)

(** [a ^ b] on [usize] *)
Definition usize_xor (a b : nat) : nat := Z.to_nat (Z.lxor (Z.of_nat a) (Z.of_nat b)).

Section code.
Context {E : Type}.

(** The inner loop of [gen_cauchy1_matrix]: one Cauchy row *)
Definition cauchy_row (k row : nat) (st : list byte * nat) : outcome E (list byte * nat) :=
  for_range 0 k st (fun '(matrix, offset) col =>
    matrix ← upd matrix offset (Gf.gf_inv (usize_u8 (usize_xor row col)));
    mret (matrix, offset + 1)).

Definition gen_cauchy1_matrix (matrix : list byte) (rows k : nat) : outcome E (list byte) :=
  let matrix := replicate (length matrix) Byte.x00 in
  matrix ← for_range 0 k matrix (fun matrix row => upd matrix (row * k + row) Byte.x01);
  '(matrix, _) ← for_range k rows (matrix, k * k) (fun st row => cauchy_row k row st);
  mret matrix.

(** [m.swap(a, b)] *)
Definition swap (m : list byte) (a b : nat) : outcome E (list byte) :=
  x ← idx m a; y ← idx m b; m ← upd m a y; upd m b x.

(** [while swap_row < n && input[swap_row * n + pivot] == 0 { swap_row += 1 }];
    the fuel bounds the iterations. *)
Fixpoint find_swap_row (fuel : nat) (input : list byte) (n pivot swap_row : nat) :
    outcome E nat :=
  match fuel with
  | O => mret swap_row
  | S fuel =>
      if decide (swap_row < n) then
        v ← idx input (swap_row * n + pivot);
        if decide (v = Byte.x00) then find_swap_row fuel input n pivot (swap_row + 1)
        else mret swap_row
      else mret swap_row
  end.

Definition swap_rows (n p q : nat) (io : list byte * list byte) :
    outcome E (list byte * list byte) :=
  for_range 0 n io (fun '(input, output) col =>
    input ← swap input (p * n + col) (q * n + col);
    output ← swap output (p * n + col) (q * n + col);
    mret (input, output)).

Definition scale_row (n p : nat) (scale : byte) (io : list byte * list byte) :
    outcome E (list byte * list byte) :=
  for_range 0 n io (fun '(input, output) col =>
    x ← idx input (p * n + col);
    input ← upd input (p * n + col) (Gf.gf_mul x scale);
    y ← idx output (p * n + col);
    output ← upd output (p * n + col) (Gf.gf_mul y scale);
    mret (input, output)).

Definition eliminate_row (n pivot row : nat) (factor : byte) (io : list byte * list byte) :
    outcome E (list byte * list byte) :=
  for_range 0 n io (fun '(input, output) col =>
    y ← idx output (row * n + col);
    yp ← idx output (pivot * n + col);
    output ← upd output (row * n + col) (byte.xor y (Gf.gf_mul factor yp));
    x ← idx input (row * n + col);
    xp ← idx input (pivot * n + col);
    input ← upd input (row * n + col) (byte.xor x (Gf.gf_mul factor xp));
    mret (input, output)).

Definition eliminate_rows (n pivot : nat) (io : list byte * list byte) :
    outcome E (list byte * list byte) :=
  for_range 0 n io (fun io row =>
    if decide (row = pivot) then mret io
    else
      factor ← idx (fst io) (row * n + pivot);
      if decide (factor = Byte.x00) then mret io
      else eliminate_row n pivot row factor io).

End code.

(** The result of a failed inversion is [Err(())]. *)
Definition invert_step (n : nat) (io : list byte * list byte) (pivot : nat) :
    outcome () (list byte * list byte) :=
  p ← idx (fst io) (pivot * n + pivot);
  io ← (if decide (p = Byte.x00) then
          swap_row ← find_swap_row n (fst io) n pivot (pivot + 1);
          _ ← guard_err (bool_decide (swap_row = n)) ();
          swap_rows n pivot swap_row io
        else mret io);
  p ← idx (fst io) (pivot * n + pivot);
  io ← scale_row n pivot (Gf.gf_inv p) io;
  eliminate_rows n pivot io.

Definition invert_matrix (input output : list byte) (n : nat) :
    outcome () (list byte * list byte) :=
  let output := replicate (length output) Byte.x00 in
  output ← for_range 0 n output (fun output i => upd output (i * n + i) Byte.x01);
  for_range 0 n (input, output) (invert_step n).

(** ** Entries of a flat matrix *)

Definition entry (n : nat) (m : list byte) (i j : nat) : byte :=
  default Byte.x00 (m !! (i * n + j)).

Lemma flat_lt rows n i j : i < rows -> j < n -> i * n + j < rows * n.
Proof. nia. Qed.

Lemma flat_inj n i j i' j' :
  j < n -> j' < n -> i * n + j = i' * n + j' -> i = i' /\ j = j'.
Proof.
  intros Hj Hj' H. assert (i = i') as ->; [|lia].
  destruct (Nat.lt_trichotomy i i') as [Hl|[Hl|Hl]]; [nia|done|nia].
Qed.

Lemma wp_entry_idx {E} rows n m i j (Q : byte -> Prop) (R : E -> Prop) :
  length m = rows * n -> i < rows -> j < n -> Q (entry n m i j) ->
  wp (idx m (i * n + j)) Q R.
Proof.
  intros Hm Hi Hj HQ. apply wp_idx; [rewrite Hm; by apply flat_lt|].
  intros x Hx. unfold entry in HQ. by rewrite Hx in HQ.
Qed.

Lemma wp_entry_upd {E} rows n m i j v (Q : list byte -> Prop) (R : E -> Prop) :
  length m = rows * n -> i < rows -> j < n ->
  (forall m', length m' = rows * n ->
    (forall i' j', j' < n ->
      entry n m' i' j' = if decide (i' = i /\ j' = j) then v else entry n m i' j') ->
    Q m') ->
  wp (upd m (i * n + j) v) Q R.
Proof.
  intros Hm Hi Hj HQ. assert (i * n + j < length m) by (rewrite Hm; by apply flat_lt).
  apply wp_upd; [done|]. apply HQ; [by rewrite length_insert|].
  intros i' j' Hj'. unfold entry. case_decide as H'.
  - destruct H' as [-> ->]. by rewrite list_lookup_insert_eq.
  - rewrite list_lookup_insert_ne; [done|].
    intros Heq. apply H'. apply flat_inj in Heq as [-> ->]; auto.
Qed.

Lemma entry_replicate n len i j : entry n (replicate len Byte.x00) i j = 0%gf.
Proof.
  unfold entry. destruct (replicate len Byte.x00 !! (i * n + j)) eqn:H; [|done].
  by apply lookup_replicate in H as [-> _].
Qed.

(** ** The encoding matrix *)

Definition cauchy_entry (k r c : nat) : byte :=
  if decide (r < k) then delta r c
  else Gf.gf_inv (byte.xor (usize_u8 r) (usize_u8 c)).

Lemma usize_u8_xor a b :
  usize_u8 (usize_xor a b) = byte.xor (usize_u8 a) (usize_u8 b).
Proof.
  apply byte.unsigned_inj. rewrite Gf.unsigned_xor. unfold usize_u8, usize_xor.
  rewrite !byte.unsigned_of_Z, Z2Nat.id by (apply Z.lxor_nonneg; lia).
  apply Gf.byte_mod_lxor.
Qed.

(** An array with ones on the diagonal of its first [n] rows *)
Lemma wp_identity {E} rows n m :
  length m = rows * n -> n <= rows -> (forall i j, j < n -> entry n m i j = 0%gf) ->
  returns (for_range (E:=E) 0 n m (fun m i => upd m (i * n + i) Byte.x01))
    (fun m' => length m' = rows * n /\
       forall i j, i < n -> j < n -> entry n m' i j = delta i j).
Proof.
  intros Hlen Hn Hz.
  apply (wp_for_range (fun k m => length m = rows * n /\
    forall i j, j < n -> entry n m i j = if decide (i < k) then delta i j else 0%gf)).
  - lia.
  - split; [done|]. intros. rewrite decide_False by lia. auto.
  - intros i m' Hi [Hm He]. apply (wp_entry_upd rows); [done|lia..|].
    intros m'' Hm'' He''. split; [done|]. intros i' j' Hj'.
    rewrite He'', He by done. unfold delta. repeat case_decide; try done; lia.
  - intros m' [Hm He]. split; [done|]. intros. rewrite He by done. by rewrite decide_True.
Qed.

Lemma cauchy_row_spec {E} rows k row m :
  length m = rows * k -> k <= row < rows ->
  (forall r c, r < row -> c < k -> entry k m r c = cauchy_entry k r c) ->
  returns (cauchy_row (E:=E) k row (m, row * k)) (fun '(m', offset) =>
    length m' = rows * k /\ offset = (row + 1) * k /\
    forall r c, r < row + 1 -> c < k -> entry k m' r c = cauchy_entry k r c).
Proof.
  intros Hlen Hrow Hm.
  apply (wp_for_range (fun col '(m', offset) =>
    length m' = rows * k /\ offset = row * k + col /\
    forall r c, c < k -> r < row \/ r = row /\ c < col -> entry k m' r c = cauchy_entry k r c)).
  - lia.
  - split_and!; [done|lia|]. intros. apply Hm; lia.
  - intros col [m' o] Hcol (Hm' & -> & He). apply wp_bind.
    apply (wp_entry_upd rows); [done|lia..|]. intros m'' Hm'' He''.
    split_and!; [done|lia|]. intros r c Hc Hr. rewrite He'' by done.
    case_decide as Hrc; [|apply He; lia]. destruct Hrc as [-> ->].
    unfold cauchy_entry. rewrite decide_False by lia. by rewrite usize_u8_xor.
  - intros [m' o] (Hm' & -> & He). split_and!; [done|lia|]. intros. apply He; lia.
Qed.

Lemma gen_cauchy1_matrix_spec {E} matrix rows k :
  length matrix = rows * k -> k <= rows ->
  returns (gen_cauchy1_matrix (E:=E) matrix rows k) (fun m =>
    length m = rows * k /\
    forall r c, r < rows -> c < k -> entry k m r c = cauchy_entry k r c).
Proof.
  intros Hlen Hk. unfold gen_cauchy1_matrix. eapply wp_bind_returns.
  { apply (wp_identity rows); [by rewrite length_replicate|done|].
    intros. apply entry_replicate. }
  simpl. intros m1 [Hm1 H1]. apply wp_bind.
  apply (wp_for_range (fun row '(m, offset) =>
    length m = rows * k /\ offset = row * k /\
    forall r c, r < row -> c < k -> entry k m r c = cauchy_entry k r c)).
  - done.
  - split_and!; [done..|]. intros. rewrite H1 by done.
    unfold cauchy_entry. by rewrite decide_True.
  - intros row [m o] Hrow (Hm & -> & He). by apply cauchy_row_spec.
  - intros [m o] (Hm & -> & He). by apply wp_ret.
Qed.

(** ** Gauss-Jordan elimination *)

Definition square (n : nat) (m : list byte) : Prop := length m = n * n.

Definition squares (n : nat) (io : list byte * list byte) : Prop :=
  square n (fst io) /\ square n (snd io).

(** [io'] is [io] with the row operations [TI] on the input matrix and [TO] on
    the output matrix. *)
Definition transformed (n : nat) (TI TO : matrix -> matrix)
    (io io' : list byte * list byte) : Prop :=
  squares n io' /\
  (forall i j, i < n -> j < n -> entry n (fst io') i j = TI (entry n (fst io)) i j) /\
  (forall i j, i < n -> j < n -> entry n (snd io') i j = TO (entry n (snd io)) i j).

(** A loop over the columns whose body rewrites column [col] of both arrays. *)
Lemma wp_columns {E} n (T : vector -> vector) (f : list byte * list byte -> nat ->
    outcome E (list byte * list byte)) io :
  (forall v w, (forall i, i < n -> v i = w i) -> forall i, i < n -> T v i = T w i) ->
  (forall io col, col < n -> squares n io ->
    returns (f io col) (fun io' => squares n io' /\ forall i j, i < n -> j < n ->
      entry n (fst io') i j =
        (if decide (j = col) then T (fun r => entry n (fst io) r col) i else entry n (fst io) i j) /\
      entry n (snd io') i j =
        (if decide (j = col) then T (fun r => entry n (snd io) r col) i else entry n (snd io) i j))) ->
  squares n io ->
  returns (for_range 0 n io f) (transformed n
    (fun M i j => T (fun r => M r j) i) (fun M i j => T (fun r => M r j) i) io).
Proof.
  intros HT Hf Hio.
  apply (wp_for_range (fun c io' => squares n io' /\ forall i j, i < n -> j < n ->
    entry n (fst io') i j =
      (if decide (j < c) then T (fun r => entry n (fst io) r j) i else entry n (fst io) i j) /\
    entry n (snd io') i j =
      (if decide (j < c) then T (fun r => entry n (snd io) r j) i else entry n (snd io) i j))).
  - lia.
  - done.
  - intros col io' Hcol [Hsq He]. eapply returns_mono; [apply Hf; [lia|done]|].
    intros io'' [Hsq' He']. split; [done|]. intros i j Hi Hj.
    destruct (He' i j Hi Hj) as [-> ->].
    destruct (decide (j = col)) as [->|].
    + rewrite !(decide_True (P := col < col + 1)) by lia.
      split; apply HT; [|done| |done]; intros r Hr; destruct (He r col Hr Hj) as [H1 H2];
        rewrite decide_False in H1, H2 by lia; done.
    + destruct (He i j Hi Hj) as [-> ->]. by repeat case_decide; try lia.
  - intros io' [Hsq He]. split_and!; [done|..]; intros i j Hi Hj;
      destruct (He i j Hi Hj) as [H1 H2]; by rewrite decide_True in H1, H2.
Qed.

Lemma wp_swap {E} n m p q col :
  square n m -> p < n -> q < n -> p ≠ q -> col < n ->
  returns (swap (E:=E) m (p * n + col) (q * n + col)) (fun m' => square n m' /\
    forall i j, i < n -> j < n -> entry n m' i j =
      if decide (j = col) then row_swap p q (entry n m) i col else entry n m i j).
Proof.
  intros Hm Hp Hq Hpq Hcol. unfold swap.
  apply wp_bind, (wp_entry_idx n); [done..|]. apply wp_bind, (wp_entry_idx n); [done..|].
  apply wp_bind, (wp_entry_upd n); [done..|]. intros m1 Hm1 He1.
  apply (wp_entry_upd n); [done..|]. intros m2 Hm2 He2. split; [done|].
  intros i j Hi Hj. rewrite He2, He1 by done. unfold row_swap.
  repeat case_decide; destruct_and?; subst; try done; naive_solver.
Qed.

Lemma swap_rows_spec {E} n p q io :
  squares n io -> p < n -> q < n -> p ≠ q ->
  returns (swap_rows (E:=E) n p q io) (transformed n (row_swap p q) (row_swap p q) io).
Proof.
  intros Hio Hp Hq Hpq.
  apply (wp_columns n (fun v i => if decide (i = p) then v q
                                  else if decide (i = q) then v p else v i)); [| |done].
  { intros v w Hvw i Hi. repeat case_decide; auto. }
  intros [inp out] col Hcol [Hin Hout]. simpl.
  eapply wp_bind_returns; [by apply (wp_swap n inp p q col)|]. intros inp' [Hin' Hei].
  eapply wp_bind_returns; [by apply (wp_swap n out p q col)|]. intros out' [Hout' Heo].
  split; [done|]. intros i j Hi Hj. by rewrite Hei, Heo.
Qed.

Lemma scale_row_spec {E} n p s io :
  squares n io -> p < n ->
  returns (scale_row (E:=E) n p s io) (transformed n (row_scale p s) (row_scale p s) io).
Proof.
  intros Hio Hp.
  apply (wp_columns n (fun v i => if decide (i = p) then Gf.gf_mul (v i) s else v i)); [| |done].
  { intros v w Hvw i Hi. case_decide; by rewrite Hvw. }
  intros [inp out] col Hcol [Hin Hout]. simpl.
  apply wp_bind, (wp_entry_idx n); [done..|].
  apply wp_bind, (wp_entry_upd n); [done..|]. intros inp' Hin' Hei.
  apply wp_bind, (wp_entry_idx n); [done..|].
  apply wp_bind, (wp_entry_upd n); [done..|]. intros out' Hout' Heo.
  split; [done|]. simpl. intros i j Hi Hj. rewrite Hei, Heo by done.
  repeat case_decide; destruct_and?; subst; try done; naive_solver.
Qed.

Lemma eliminate_row_spec {E} n p row factor io :
  squares n io -> p < n -> row < n -> row ≠ p ->
  let T (M : matrix) i j :=
    if decide (i = row) then (M i j + factor * M p j)%gf else M i j in
  returns (eliminate_row (E:=E) n p row factor io) (transformed n T T io).
Proof.
  intros Hio Hp Hrow Hne.
  apply (wp_columns n (fun v i => if decide (i = row) then (v i + factor * v p)%gf else v i));
    [| |done].
  { intros v w Hvw i Hi. by case_decide; rewrite !Hvw. }
  intros [inp out] col Hcol [Hin Hout]. simpl.
  apply wp_bind, (wp_entry_idx n); [done..|]. apply wp_bind, (wp_entry_idx n); [done..|].
  apply wp_bind, (wp_entry_upd n); [done..|]. intros out' Hout' Heo.
  apply wp_bind, (wp_entry_idx n); [done..|]. apply wp_bind, (wp_entry_idx n); [done..|].
  apply wp_bind, (wp_entry_upd n); [done..|]. intros inp' Hin' Hei.
  split; [done|]. simpl. intros i j Hi Hj. rewrite Hei, Heo by done.
  repeat case_decide; destruct_and?; subst; try done; naive_solver.
Qed.

Lemma eliminate_rows_spec {E} n p io :
  squares n io -> p < n ->
  let F i := entry n (fst io) i p in
  returns (eliminate_rows (E:=E) n p io) (transformed n (row_elim p F) (row_elim p F) io).
Proof.
  intros Hio Hp F.
  apply (wp_for_range (fun r => transformed n
    (fun M i j => if decide (i < r) then row_elim p F M i j else M i j)
    (fun M i j => if decide (i < r) then row_elim p F M i j else M i j) io)).
  - lia.
  - by split_and!.
  - intros row io' Hrow (Hsq & Hei & Heo). case_decide as Hpivot.
    + subst. apply wp_ret. split_and!; [apply Hsq..| |]; intros i j Hi Hj.
      * rewrite Hei by done. unfold row_elim. repeat case_decide; done || lia.
      * rewrite Heo by done. unfold row_elim. repeat case_decide; done || lia.
    + apply wp_bind, (wp_entry_idx n); [apply Hsq|lia..|].
      assert (entry n (fst io') row p = F row) as Hf.
      { rewrite Hei by lia. by rewrite decide_False by lia. }
      rewrite Hf. case_decide as Hz.
      * apply wp_ret. split_and!; [apply Hsq..| |]; intros i j Hi Hj.
        -- rewrite Hei by done. unfold row_elim.
           destruct (decide (i = row)) as [->|]; [|repeat case_decide; done || lia].
           repeat case_decide; try lia. rewrite Hz. ring.
        -- rewrite Heo by done. unfold row_elim.
           destruct (decide (i = row)) as [->|]; [|repeat case_decide; done || lia].
           repeat case_decide; try lia. rewrite Hz. ring.
      * eapply returns_mono; [apply eliminate_row_spec; [done|lia..]|].
        intros io'' (Hsq' & Hei' & Heo'). split_and!; [apply Hsq'..| |]; intros i j Hi Hj.
        -- rewrite Hei' by done. simpl. rewrite !Hei by lia. unfold row_elim.
           repeat case_decide; subst; done || lia.
        -- rewrite Heo' by done. simpl. rewrite !Heo by lia. unfold row_elim.
           repeat case_decide; subst; done || lia.
  - intros io' (Hsq & Hei & Heo). split_and!; [apply Hsq..| |]; intros i j Hi Hj.
    + rewrite Hei by done. by rewrite decide_True.
    + rewrite Heo by done. by rewrite decide_True.
Qed.

Lemma find_swap_row_spec {E} n m pivot fuel row :
  square n m -> pivot < n -> row <= n -> n - row <= fuel ->
  returns (find_swap_row (E:=E) fuel m n pivot row) (fun r =>
    row <= r <= n /\ (forall i, row <= i < r -> entry n m i pivot = 0%gf) /\
    (r < n -> entry n m r pivot ≠ 0%gf)).
Proof.
  intros Hm Hp. revert row; induction fuel as [|fuel IH]; intros row Hrow Hfuel; simpl.
  { split_and!; [lia..|intros; lia|lia]. }
  case_decide as Hlt; [|split_and!; [lia..|intros; lia|lia]].
  apply wp_bind, (wp_entry_idx n); [done..|]. case_decide as Hz.
  - eapply returns_mono; [apply IH; lia|]. intros r (Hr & Hzero & Hnz).
    split_and!; [lia..| |done]. intros i Hi.
    destruct (decide (i = row)) as [->|]; [done|]. apply Hzero. lia.
  - split_and!; [lia..|intros; lia|done].
Qed.

(** What holds of the two arrays while the matrix [A] is being inverted:
    the output times [A] is the input, and the input has no kernel vector that
    [A] does not have. *)
Definition reduces (n : nat) (A : matrix) (io : list byte * list byte) : Prop :=
  squares n io /\
  (forall i j, i < n -> j < n -> mprod n (entry n (snd io)) A i j = entry n (fst io) i j) /\
  (trivial_kernel n A -> trivial_kernel n (entry n (fst io))).

Lemma mprod_ext n B B' A i j :
  (forall l, l < n -> B i l = B' i l) -> mprod n B A i j = mprod n B' A i j.
Proof. intros H. apply gsum_ext. intros l Hl. by rewrite H. Qed.

Lemma reduces_transformed n A T io io' :
  row_operation n T -> reduces n A io -> transformed n T T io io' -> reduces n A io'.
Proof.
  intros (HText & HTprod & HTker) (Hsq & Hprod & Hker) (Hsq' & Hi & Ho).
  split_and!; [apply Hsq'..| |].
  - intros i j Hi' Hj'. rewrite (mprod_ext n _ (T (entry n (snd io)))) by (intros; by apply Ho).
    rewrite HTprod, Hi by done. apply HText; [|done..]. intros. by apply Hprod.
  - intros HA. eapply trivial_kernel_ext; [|apply HTker, Hker, HA].
    intros. symmetry. by apply Hi.
Qed.

Definition unit_columns (n p : nat) (io : list byte * list byte) : Prop :=
  forall i j, i < n -> j < p -> entry n (fst io) i j = delta i j.

(** The pivot search leaves a non-zero pivot, or shows the kernel non-trivial. *)
Definition find_pivot (n : nat) (io : list byte * list byte) (pivot : nat) :
    outcome () (list byte * list byte) :=
  p ← idx (fst io) (pivot * n + pivot);
  if decide (p = Byte.x00) then
    swap_row ← find_swap_row n (fst io) n pivot (pivot + 1);
    _ ← guard_err (bool_decide (swap_row = n)) ();
    swap_rows n pivot swap_row io
  else mret io.

Lemma invert_step_find_pivot n io pivot :
  invert_step n io pivot =
  io ← find_pivot n io pivot;
  p ← idx (fst io) (pivot * n + pivot);
  io ← scale_row n pivot (Gf.gf_inv p) io;
  eliminate_rows n pivot io.
Proof.
  unfold invert_step, find_pivot.
  by destruct (idx (fst io) (pivot * n + pivot)); simpl.
Qed.

Lemma find_pivot_spec n A io p :
  p < n -> reduces n A io -> unit_columns n p io ->
  wp (find_pivot n io p)
    (fun io' => reduces n A io' /\ unit_columns n p io' /\ entry n (fst io') p p ≠ 0%gf)
    (fun _ => ~ trivial_kernel n A).
Proof.
  intros Hp Hred Hcols. pose proof Hred as ([Hin Hout] & Hprod & Hker). unfold find_pivot.
  apply wp_bind, (wp_entry_idx n); [done..|]. case_decide as Hz; [|done].
  eapply wp_bind_returns; [by apply find_swap_row_spec; [..|lia|lia]|].
  intros r (Hr & Hzero & Hnz). apply wp_bind, wp_guard.
  - intros Hr'%bool_decide_eq_false. eapply wp_mono;
      [apply (returns_wp _ _ (fun _ => ~ trivial_kernel n A)), swap_rows_spec; done || lia| |done].
    intros io' Ht. split_and!.
    + eapply reduces_transformed; [apply (row_operation_swap n p r); lia|done|done].
    + destruct Ht as (_ & Hi & _). intros i j Hi' Hj. rewrite Hi by lia. unfold row_swap.
      repeat case_decide; subst; rewrite Hcols by lia; rewrite ?delta_ne by lia; done.
    + destruct Ht as (_ & Hi & _). rewrite Hi by lia. unfold row_swap.
      rewrite decide_True by done. apply Hnz. lia.
  - intros Hr'%bool_decide_eq_true HA. apply Hker in HA.
    apply (no_pivot_kernel n p (entry n (fst io))); [done..| |done].
    intros i Hi. destruct (decide (i = p)) as [->|]; [done|]. apply Hzero. lia.
Qed.

Lemma invert_step_spec n A io p :
  p < n -> reduces n A io -> unit_columns n p io ->
  wp (invert_step n io p) (fun io' => reduces n A io' /\ unit_columns n (p + 1) io')
    (fun _ => ~ trivial_kernel n A).
Proof.
  intros Hp Hred Hcols. rewrite invert_step_find_pivot. apply wp_bind.
  eapply wp_mono; [by apply (find_pivot_spec n A)|simpl|done].
  intros io1 (Hred1 & Hcols1 & Hpv). apply wp_bind.
  apply (wp_entry_idx n); [apply Hred1|done..|].
  pose proof (Gf.gf_mul_inv_r _ Hpv) as Hinv. pose proof (Gf.gf_inv_neq_0 _ Hpv) as Hs.
  set (s := Gf.gf_inv (entry n (fst io1) p p)) in *.
  eapply wp_bind_returns; [by apply scale_row_spec; [apply Hred1|]|]. intros io2 Ht2.
  assert (reduces n A io2) as Hred2
    by (eapply reduces_transformed; [by apply (row_operation_scale n p s)|done..]).
  eapply wp_mono; [apply (returns_wp _ _ (fun _ => ~ trivial_kernel n A)),
    eliminate_rows_spec; [apply Hred2|done]| |done].
  intros io3 Ht3. split.
  { eapply reduces_transformed; [by apply row_operation_elim|done..]. }
  destruct Ht2 as (_ & Hi2 & _), Ht3 as (_ & Hi3 & _).
  assert (forall i j, i < n -> j < p -> entry n (fst io2) i j = delta i j) as Hc2.
  { intros i j Hi Hj. rewrite Hi2 by lia. unfold row_scale.
    case_decide; [|by apply Hcols1; lia]. subst. rewrite Hcols1, delta_ne by lia. ring. }
  assert (entry n (fst io2) p p = 1%gf) as Hp2.
  { rewrite Hi2 by done. unfold row_scale. by rewrite decide_True. }
  intros i j Hi Hj. rewrite Hi3 by lia. unfold row_elim.
  destruct (decide (j = p)) as [->|].
  - case_decide; [subst; by rewrite Hp2, delta_same|].
    rewrite Hp2, delta_ne by done. ring.
  - rewrite (Hc2 p j), (delta_ne p j), Hc2 by lia. case_decide; [done|ring].
Qed.

Lemma invert_matrix_spec n input output :
  square n input -> square n output ->
  wp (invert_matrix input output n)
    (fun '(_, inverse) => square n inverse /\ forall i j, i < n -> j < n ->
       mprod n (entry n inverse) (entry n input) i j = delta i j)
    (fun _ => ~ trivial_kernel n (entry n input)).
Proof.
  intros Hin Hout. unfold invert_matrix. eapply wp_bind_returns.
  { apply (wp_identity n); [by rewrite length_replicate|lia|]. intros. apply entry_replicate. }
  intros output' [Hout' He]. set (A := entry n input).
  apply (wp_for_range (fun p io => reduces n A io /\ unit_columns n p io)).
  - lia.
  - split; [|intros i j _ Hj; lia].
    split; [by split|split; [|done]]. intros i j Hi Hj. simpl. rewrite (mprod_ext n _ delta) by (intros; auto).
    by apply (gsum_delta_l n i (fun l => A l j)).
  - intros p io Hp [Hred Hcols]. apply invert_step_spec; [lia|done..].
  - intros [inp inv] [((_ & Hinv) & Hprod & _) Hcols]. split; [done|].
    intros i j Hi Hj. rewrite Hprod by done. by apply Hcols.
Qed.

(** ** Every choice of [k] rows of the encoding matrix is invertible *)

Lemma usize_u8_inj a b : a < 256 -> b < 256 -> usize_u8 a = usize_u8 b -> a = b.
Proof. intros Ha Hb H. rewrite <-(u8_usize_u8 a), <-(u8_usize_u8 b) by done. by f_equal. Qed.

Lemma NoDup_usize_u8 l :
  (forall a, a ∈ l -> a < 256) -> NoDup l -> NoDup (usize_u8 <$> l).
Proof.
  intros Hl. induction 1 as [|a l Ha Hnd IH]; simpl; [constructor|].
  apply list.NoDup_cons. split; [|apply IH; intros; apply Hl; by right].
  intros (b & Heq & Hb)%list_elem_of_fmap.
  apply usize_u8_inj in Heq as ->; [done|apply Hl; left|apply Hl; by right].
Qed.

(** As many parity rows are chosen as data columns are missing. *)
Lemma missing_columns k (idxs : list nat) :
  NoDup idxs -> length idxs = k ->
  length (filter (fun c => c ∉ idxs) (seq 0 k)) = length (filter (fun r => k <= r) idxs).
Proof.
  intros Hnd Hlen.
  assert (length (filter (fun c => c ∈ idxs) (seq 0 k)) =
          length (filter (fun r => ~ k <= r) idxs)) as Heq.
  { apply Permutation_length, NoDup_Permutation;
      [apply list.NoDup_filter, NoDup_seq|by apply list.NoDup_filter|].
    intros c. rewrite !list_elem_of_filter, elem_of_seq. intuition lia. }
  pose proof (Permutation_length (filter_app_complement (fun r => k <= r) idxs)) as H1.
  pose proof (Permutation_length
    (filter_app_complement (fun c => c ∈ idxs) (seq 0 k))) as H2.
  rewrite length_app in H1, H2. rewrite length_seq in H2. lia.
Qed.

Lemma cauchy_rows_kernel k (idxs : list nat) :
  NoDup idxs -> length idxs = k -> (forall r, r ∈ idxs -> r < 256) -> k <= 256 ->
  trivial_kernel k (fun i j => cauchy_entry k (nth i idxs 0) j).
Proof.
  intros Hnd Hlen Hlt Hk x Hx.
  assert (forall r, r ∈ idxs -> gsum k (fun j => (cauchy_entry k r j * x j)%gf) = 0%gf) as Hrow.
  { intros r [i Hi]%list_elem_of_lookup. rewrite <-(Hx i); [|by rewrite <-Hlen; apply lookup_lt_Some in Hi].
    apply gsum_ext. intros j _. by rewrite (nth_lookup_Some _ _ _ _ Hi). }
  (* a chosen data row gives its unknown *)
  assert (forall c, c < k -> c ∈ idxs -> x c = 0%gf) as Hdata.
  { intros c Hc Hin. rewrite <-(Hrow c Hin), <-(gsum_delta_l k c x) by done.
    apply gsum_ext. intros j _. unfold cauchy_entry. by rewrite decide_True. }
  set (cs := filter (fun c => c ∉ idxs) (seq 0 k)).
  set (rs := filter (fun r => k <= r) idxs).
  assert (forall c, c ∈ usize_u8 <$> cs -> x (u8_usize c) = 0%gf) as Hpar.
  { apply (cauchy_system (usize_u8 <$> cs) (usize_u8 <$> rs) (fun c => x (u8_usize c))).
    - apply NoDup_usize_u8; [|apply list.NoDup_filter, NoDup_seq].
      intros a (_ & Ha%elem_of_seq)%list_elem_of_filter. lia.
    - apply NoDup_usize_u8; [|by apply list.NoDup_filter].
      intros a (_ & Ha)%list_elem_of_filter. auto.
    - intros c r (c' & -> & Hc)%list_elem_of_fmap (r' & -> & Hr)%list_elem_of_fmap Heq.
      apply list_elem_of_filter in Hc as [Hc Hc'%elem_of_seq], Hr as [Hr Hr'].
      apply usize_u8_inj in Heq; [lia|auto|lia].
    - rewrite !length_fmap. unfold cs, rs. by rewrite missing_columns.
    - intros r (r' & -> & [Hr Hr']%list_elem_of_filter)%list_elem_of_fmap.
      rewrite lsum_fmap, <-(Hrow r' Hr'), gsum_lsum. unfold cs.
      rewrite <-(lsum_filter (fun c => c ∉ idxs) _ (seq 0 k)).
      + apply lsum_ext. intros c (Hc & Hc'%elem_of_seq)%list_elem_of_filter.
        rewrite u8_usize_u8 by lia. unfold cauchy_entry. rewrite decide_False by lia. ring.
      + intros c Hc%elem_of_seq Hin%dec_stable. rewrite Hdata by (done || lia). ring. }
  intros j Hj. destruct (decide (j ∈ idxs)) as [|Hnin]; [by apply Hdata|].
  rewrite <-(u8_usize_u8 j) by lia. apply Hpar, list_elem_of_fmap.
  exists j. split; [done|]. apply list_elem_of_filter. split; [done|]. apply elem_of_seq. lia.
Qed.

End Matrix.
