(* ===== verification/Kernels.v ===== *)
(** The scalar shard kernels of [crates/ec/src/gf.rs]: the eight-fold unrolled
    byte loops over raw pointers, the coefficient dispatch, and the two row
    routines built from them.  A raw pointer access outside its slice is a
    [Panic] here, so the theorems also say that the unchecked accesses stay in
    bounds.  Each row routine is shown to compute the linear combination of its
    input shards. *)

From Stdlib Require Import Ring.
From S2P Require Import Prelude Gf Linear Matrix.
Import Linear Matrix.

Module Kernels.

Section code.
Context {E : Type}.
Implicit Types (dest src table output : list byte) (data inputs outputs : list (list byte)).

(** [while index + 8 <= len { <step at index, .., index + 7>; index += 8 }] *)
Fixpoint while8 (step : list byte -> nat -> outcome E (list byte)) (fuel len index : nat)
    dest : outcome E (nat * list byte) :=
  match fuel with
  | O => mret (index, dest)
  | S fuel =>
      if decide (index + 8 <= len) then
        dest ← foldM (fun dest o => step dest (index + o)) dest [0; 1; 2; 3; 4; 5; 6; 7];
        while8 step fuel len (index + 8) dest
      else mret (index, dest)
  end.

(** The unrolled loop and the loop over the remaining bytes *)
Definition unrolled (step : list byte -> nat -> outcome E (list byte)) dest :
    outcome E (list byte) :=
  let len := length dest in
  '(index, dest) ← while8 step len len 0 dest;
  for_range index len dest step.

Definition xor_with_slice dest src : outcome E (list byte) :=
  unrolled (fun dest i =>
    s ← idx src i; d ← idx dest i; upd dest i (byte.xor d s)) dest.

Definition xor_with_table dest src table : outcome E (list byte) :=
  unrolled (fun dest i =>
    s ← idx src i; t ← idx table (u8_usize s); d ← idx dest i; upd dest i (byte.xor d t)) dest.

Definition write_with_table dest src table : outcome E (list byte) :=
  unrolled (fun dest i =>
    s ← idx src i; t ← idx table (u8_usize s); upd dest i t) dest.

(** [dest.copy_from_slice(src)] panics when the lengths differ. *)
Definition copy_from_slice dest src : outcome E (list byte) :=
  if decide (length dest = length src) then Ok src else Panic.

Definition fill dest (b : byte) : list byte := replicate (length dest) b.

Definition xor_with_coeff dest src (coeff : byte) : outcome E (list byte) :=
  match coeff with
  | Byte.x00 => mret dest
  | Byte.x01 => xor_with_slice dest src
  | _ => xor_with_table dest src (Gf.gf_mul_table coeff)
  end.

Definition write_with_coeff dest src (coeff : byte) : outcome E (list byte) :=
  match coeff with
  | Byte.x00 => mret (fill dest Byte.x00)
  | Byte.x01 => copy_from_slice dest src
  | _ => write_with_table dest src (Gf.gf_mul_table coeff)
  end.

(** [for x in l.iter_mut().enumerate() { .. }] *)
Fixpoint mapiM {A B} (f : nat -> A -> outcome E B) (i : nat) (l : list A) :
    outcome E (list B) :=
  match l with
  | [] => mret []
  | x :: l => y ← f i x; ys ← mapiM f (i + 1) l; mret (y :: ys)
  end.

(** [for col in cols { if p(col) { return Some(col) } }] *)
Fixpoint find_first (p : nat -> outcome E bool) (cols : list nat) : outcome E (option nat) :=
  match cols with
  | [] => mret None
  | col :: cols => b ← p col; if (b : bool) then mret (Some col) else find_first p cols
  end.

Definition encode_row (k : nat) (tables : list byte) data (row : nat) output :
    outcome E (list byte) :=
  first_nonzero_col ← find_first (fun col =>
      t ← idx tables ((row * k + col) * 256 + 1); mret (bool_decide (t ≠ Byte.x00))) (seq 0 k);
  match first_nonzero_col with
  | None => mret (fill output Byte.x00)
  | Some first_col =>
      let table_start := (row * k + first_col) * 256 in
      first_table ← slice tables table_start (table_start + 256);
      first_data ← idx data first_col;
      output ← write_with_table output first_data first_table;
      for_range (first_col + 1) (k `min` length data) output (fun output col =>
        source ← idx data col;
        let table_start := (row * k + col) * 256 in
        t ← idx tables (table_start + 1);
        if decide (t = Byte.x00) then mret output
        else
          table ← slice tables table_start (table_start + 256);
          xor_with_table output source table)
  end.

Definition encode_rows_scalar (k : nat) (tables : list byte) data outputs :
    outcome E (list (list byte)) :=
  mapiM (encode_row k tables data) 0 outputs.

Definition apply_row (k : nat) (rows : list byte) inputs (row_index : nat) output :
    outcome E (list byte) :=
  row ← slice rows (row_index * k) ((row_index + 1) * k);
  first_nonzero ← find_first (fun i =>
      c ← idx row i; mret (bool_decide (c ≠ Byte.x00))) (seq 0 (length row));
  match first_nonzero with
  | None => mret (fill output Byte.x00)
  | Some first_index =>
      first_coeff ← idx row first_index;
      first_input ← idx inputs first_index;
      output ← write_with_coeff output first_input first_coeff;
      foldM (fun output '(coeff, source) => xor_with_coeff output source coeff) output
        (drop (first_index + 1) (zip row inputs))
  end.

Definition apply_matrix_rows_scalar (k : nat) (rows : list byte) inputs outputs :
    outcome E (list (list byte)) :=
  mapiM (apply_row k rows inputs) 0 outputs.

End code.

(** [tables[start..end].copy_from_slice(gf_mul_table(coefficient))] for every
    coefficient in order *)
Definition build_mul_tables (coefficients : list byte) : list byte :=
  coefficients ≫= Gf.gf_mul_table.

(** ** The unrolled loop is the plain loop *)

Lemma while8_for_range {E} (step : list byte -> nat -> outcome E (list byte))
    fuel len index dest :
  len - index <= fuel ->
  ('(i, d) ← while8 step fuel len index dest; for_range i len d step) =
  for_range index len dest step.
Proof.
  revert index dest; induction fuel as [|fuel IH]; intros index dest Hf.
  { simpl. done. }
  cbn [while8]. case_decide as H8; [|done].
  transitivity (foldM (fun d o => step d (index + o)) dest [0; 1; 2; 3; 4; 5; 6; 7] ≫=
    fun d => for_range (index + 8) len d step).
  { destruct (foldM _ _ _); simpl; [|done..]. apply IH. lia. }
  unfold for_range. replace (len - index) with (8 + (len - (index + 8))) by lia.
  rewrite seq_app, foldM_app. change [0; 1; 2; 3; 4; 5; 6; 7] with (seq 0 8).
  rewrite <-(foldM_fmap step (fun o => index + o)), fmap_add_seq. by rewrite Nat.add_0_r.
Qed.

Lemma unrolled_for_range {E} (step : list byte -> nat -> outcome E (list byte)) dest :
  unrolled step dest = for_range 0 (length dest) dest step.
Proof. apply while8_for_range. lia. Qed.

(** ** Byte kernels *)

(** Byte [i] of a slice *)
Definition bget (l : list byte) (i : nat) : byte := default Byte.x00 (l !! i).

Lemma bget_lookup l i : i < length l -> l !! i = Some (bget l i).
Proof. intros [x Hx]%lookup_lt_is_Some_2. unfold bget. by rewrite Hx. Qed.

Lemma bget_idx {E} l i : i < length l -> idx (E:=E) l i = Ok (bget l i).
Proof. intros. by apply idx_Ok, bget_lookup. Qed.

(** A loop whose step rewrites byte [i] by [g i] maps [g] over the slice. *)
Lemma wp_pointwise {E} (g : nat -> byte -> byte)
    (step : list byte -> nat -> outcome E (list byte)) dest :
  (forall d i, length d = length dest -> i < length dest ->
     step d i = Ok (<[i:=g i (bget d i)]> d)) ->
  unrolled step dest = Ok (imap g dest).
Proof.
  intros Hstep. rewrite unrolled_for_range.
  assert (returns (for_range 0 (length dest) dest step) (fun d => d = imap g dest)) as H;
    [|apply returns_Ok in H as (d & -> & ->); done].
  apply (wp_for_range (fun n d => length d = length dest /\ forall i,
    d !! i = if decide (i < n) then imap g dest !! i else dest !! i)).
  - lia.
  - done.
  - intros i d Hi [Hlen Hd]. rewrite Hstep by (done || lia). split.
    { by rewrite length_insert. }
    intros j. destruct (decide (j = i)) as [->|Hne].
    + rewrite list_lookup_insert_eq by lia. rewrite decide_True by lia.
      rewrite list_lookup_imap. pose proof (Hd i) as Hdi. rewrite decide_False in Hdi by lia.
      rewrite <-Hdi, bget_lookup by lia. done.
    + rewrite list_lookup_insert_ne, Hd by done. by repeat case_decide; try lia.
  - intros d [Hlen Hd]. apply list_eq. intros i. rewrite Hd. case_decide; [done|].
    rewrite list_lookup_imap. by rewrite (lookup_ge_None_2 dest i) by lia.
Qed.

(** [table] is the multiplication table of [c]. *)
Definition mul_table_of (c : byte) (table : list byte) : Prop :=
  forall b, table !! u8_usize b = Some (c * b)%gf.

Lemma gf_mul_table_of c : mul_table_of c (Gf.gf_mul_table c).
Proof. intros b. apply Gf.gf_mul_table_lookup. Qed.

Ltac run_step :=
  intros d i Hd Hi; unfold idx;
  repeat (rewrite bget_lookup by lia; simpl);
  repeat match goal with H : mul_table_of _ _ |- _ => rewrite H; simpl end;
  repeat (rewrite bget_lookup by lia; simpl);
  apply upd_lt; lia.

Lemma xor_with_slice_eq {E} dest src :
  length src = length dest ->
  xor_with_slice (E:=E) dest src = Ok (imap (fun i d => (d + bget src i)%gf) dest).
Proof. intros Hlen. apply wp_pointwise. run_step. Qed.

Lemma xor_with_table_eq {E} dest src table c :
  length src = length dest -> mul_table_of c table ->
  xor_with_table (E:=E) dest src table = Ok (imap (fun i d => (d + c * bget src i)%gf) dest).
Proof. intros Hlen Ht. apply wp_pointwise. run_step. Qed.

Lemma write_with_table_eq {E} dest src table c :
  length src = length dest -> mul_table_of c table ->
  write_with_table (E:=E) dest src table = Ok (imap (fun i _ => (c * bget src i)%gf) dest).
Proof. intros Hlen Ht. apply wp_pointwise. run_step. Qed.

Lemma imap_ext_lt {A B} (f g : nat -> A -> B) l :
  (forall i x, l !! i = Some x -> f i x = g i x) -> imap f l = imap g l.
Proof.
  intros H. apply list_eq. intros i. rewrite !list_lookup_imap.
  destruct (l !! i) eqn:Hi; simpl; [|done]. by rewrite (H i).
Qed.

Lemma coeff_cases (c : byte) : c = 0%gf \/ c = 1%gf \/
  (forall E dest src, xor_with_coeff (E:=E) dest src c =
     xor_with_table dest src (Gf.gf_mul_table c)) /\
  (forall E dest src, write_with_coeff (E:=E) dest src c =
     write_with_table dest src (Gf.gf_mul_table c)).
Proof. destruct c; auto. Qed.

Lemma xor_with_coeff_eq {E} dest src c :
  length src = length dest ->
  xor_with_coeff (E:=E) dest src c = Ok (imap (fun i d => (d + c * bget src i)%gf) dest).
Proof.
  intros Hlen. destruct (coeff_cases c) as [->|[->|[Hx _]]].
  - simpl. unfold mret, outcome_ret. f_equal. apply list_eq. intros i.
    rewrite list_lookup_imap. destruct (dest !! i); simpl; [f_equal; ring|done].
  - simpl. rewrite xor_with_slice_eq by done. f_equal. apply imap_ext_lt. intros. ring.
  - rewrite Hx. apply xor_with_table_eq; [done|apply gf_mul_table_of].
Qed.

Lemma write_with_coeff_eq {E} dest src c :
  length src = length dest ->
  write_with_coeff (E:=E) dest src c = Ok (imap (fun i _ => (c * bget src i)%gf) dest).
Proof.
  intros Hlen. destruct (coeff_cases c) as [->|[->|[_ Hw]]].
  - simpl. unfold mret, outcome_ret. f_equal. apply list_eq. intros i.
    unfold fill. rewrite list_lookup_imap. destruct (dest !! i) eqn:Hi; simpl.
    + rewrite lookup_replicate_2 by (by eapply lookup_lt_Some). f_equal. ring.
    + apply lookup_replicate_None. by apply lookup_ge_None.
  - simpl. unfold copy_from_slice. rewrite decide_True by done. f_equal.
    apply list_eq. intros i. rewrite list_lookup_imap.
    destruct (dest !! i) as [x|] eqn:Hi; simpl.
    + rewrite bget_lookup by (rewrite Hlen; by eapply lookup_lt_Some). f_equal. ring.
    + apply lookup_ge_None. rewrite Hlen. by apply lookup_ge_None.
  - rewrite Hw. apply write_with_table_eq; [done|apply gf_mul_table_of].
Qed.

(** ** Row routines *)

Lemma find_first_spec {E} (p : nat -> outcome E bool) (pb : nat -> bool) a n :
  (forall j, a <= j < a + n -> p j = Ok (pb j)) ->
  returns (find_first p (seq a n)) (fun o => match o with
    | None => forall j, a <= j < a + n -> pb j = false
    | Some c => a <= c < a + n /\ pb c = true /\ forall j, a <= j < c -> pb j = false
    end).
Proof.
  revert a; induction n as [|n IH]; intros a Hp; simpl.
  { intros. lia. }
  rewrite Hp by lia. simpl. destruct (pb a) eqn:Ha.
  { split_and!; [lia..|done|intros; lia]. }
  eapply returns_mono; [apply IH; intros; apply Hp; lia|].
  intros [c|].
  - intros (Hc & Hpc & Hlt). split_and!; [lia..|done|].
    intros j Hj. destruct (decide (j = a)) as [->|]; [done|]. apply Hlt. lia.
  - intros Hall j Hj. destruct (decide (j = a)) as [->|]; [done|]. apply Hall. lia.
Qed.

Lemma mapiM_spec {E A B} (f : nat -> A -> outcome E B) (g : nat -> A -> B) i l :
  (forall j x, l !! j = Some x -> f (i + j) x = Ok (g (i + j) x)) ->
  mapiM f i l = Ok (imap (fun j => g (i + j)) l).
Proof.
  revert i; induction l as [|x l IH]; intros i H; simpl; [done|].
  pose proof (H 0 x eq_refl) as H0. rewrite Nat.add_0_r in *. rewrite H0. simpl.
  rewrite (IH (i + 1)); simpl.
  - unfold mret, outcome_ret. do 2 f_equal. apply imap_ext_lt. intros. simpl. f_equal. lia.
  - intros j y Hy. specialize (H (S j) y Hy).
    replace (i + 1 + j) with (i + S j) by lia. done.
Qed.

(** Byte [b] of shard [j] *)
Definition byte_at (data : list (list byte)) (j b : nat) : byte := bget (nth j data []) b.

(** The linear combination of the first [k] shards with coefficients [coeff] *)
Definition combination (k len : nat) (coeff : nat -> byte) (data : list (list byte)) :
    list byte :=
  (fun b => gsum k (fun j => (coeff j * byte_at data j b)%gf)) <$> seq 0 len.

Definition shards (k len : nat) (data : list (list byte)) : Prop :=
  length data = k /\ forall j s, data !! j = Some s -> length s = len.

Lemma shards_lookup k len data j :
  shards k len data -> j < k ->
  data !! j = Some (nth j data []) /\ length (nth j data []) = len.
Proof.
  intros [Hk Hlen] Hj. rewrite <-Hk in Hj. apply lookup_lt_is_Some_2 in Hj as [s Hs].
  pose proof (nth_lookup_Some _ _ [] _ Hs) as Hn. rewrite Hn. eauto.
Qed.

Lemma shards_idx {E} k len data j :
  shards k len data -> j < k -> idx (E:=E) data j = Ok (nth j data []).
Proof. intros Hsh Hj. by apply idx_Ok, (shards_lookup k len). Qed.

(** Accumulating one shard at a time from the first non-zero coefficient on. *)
Lemma accumulate_spec {E} k (f : nat -> nat -> byte) first (output : list byte)
    (body : list byte -> nat -> outcome E (list byte)) :
  first < k ->
  (forall j b, j < first -> f j b = 0%gf) ->
  (forall c d, first < c < k -> length d = length output ->
     body d c = Ok (imap (fun b x => (x + f c b)%gf) d)) ->
  for_range (first + 1) k (imap (fun b _ => f first b) output) body =
  Ok ((fun b => gsum k (fun j => f j b)) <$> seq 0 (length output)).
Proof.
  intros Hfirst Hz Hbody.
  enough (returns (for_range (first + 1) k (imap (fun b _ => f first b) output) body)
    (fun d => d = (fun b => gsum k (fun j => f j b)) <$> seq 0 (length output))) as H
    by (apply returns_Ok in H as (d & -> & ->); done).
  apply (wp_for_range (fun c d =>
    d = (fun b => gsum c (fun j => f j b)) <$> seq 0 (length output))); [lia| | |done].
  - apply list_eq. intros b. rewrite list_lookup_imap, list_lookup_fmap.
    destruct (output !! b) eqn:Hb; simpl.
    + rewrite lookup_seq_lt by (by eapply lookup_lt_Some). simpl. f_equal.
      rewrite Nat.add_1_r. simpl. rewrite gsum_zero by (intros; by apply Hz). ring.
    + rewrite lookup_seq_ge by (by apply lookup_ge_None). done.
  - intros c d Hc ->. rewrite Hbody by (rewrite ?length_fmap, ?length_seq; lia || done).
    simpl. apply list_eq. intros b. rewrite list_lookup_imap, !list_lookup_fmap.
    destruct (seq 0 (length output) !! b) as [b'|] eqn:Hb; simpl; [|done].
    apply lookup_seq in Hb as [-> _]. f_equal. by rewrite Nat.add_1_r.
Qed.

Lemma combination_zero k len coeff data :
  (forall j, j < k -> coeff j = 0%gf) -> combination k len coeff data = replicate len Byte.x00.
Proof.
  intros Hz. apply list_eq. intros b. unfold combination. rewrite list_lookup_fmap.
  destruct (decide (b < len)).
  - rewrite lookup_seq_lt, lookup_replicate_2 by done. simpl. f_equal. apply gsum_zero.
    intros j Hj. rewrite Hz by done. ring.
  - rewrite lookup_seq_ge by lia. symmetry. apply lookup_replicate_None. lia.
Qed.

Lemma mul_tables_block coeffs i :
  i < length coeffs ->
  mul_table_of (bget coeffs i) (take 256 (drop (i * 256) (build_mul_tables coeffs))).
Proof.
  intros Hi b. unfold build_mul_tables.
  rewrite (block_bind_blocks 256 _ Gf.length_gf_mul_table _ _ _ (bget_lookup _ _ Hi)).
  apply gf_mul_table_of.
Qed.

Lemma length_mul_tables coeffs : length (build_mul_tables coeffs) = length coeffs * 256.
Proof. apply length_bind_blocks, Gf.length_gf_mul_table. Qed.

(** The probe [tables[table_start + 1]] reads the coefficient back. *)
Lemma mul_tables_probe {E} coeffs i :
  i < length coeffs ->
  idx (E:=E) (build_mul_tables coeffs) (i * 256 + 1) = Ok (bget coeffs i).
Proof.
  intros Hi. apply idx_Ok. pose proof (mul_tables_block coeffs i Hi Byte.x01) as H.
  change (u8_usize Byte.x01) with 1 in H.
  rewrite lookup_take_lt, lookup_drop in H by lia. rewrite H. f_equal. ring.
Qed.

Lemma encode_row_spec {E} k len coeffs data row output :
  shards k len data -> length output = len -> row * k + k <= length coeffs ->
  encode_row (E:=E) k (build_mul_tables coeffs) data row output =
  Ok (combination k len (fun j => bget coeffs (row * k + j)) data).
Proof.
  intros Hsh Hout Hco. unfold encode_row. pose proof (length_mul_tables coeffs) as Hlt.
  assert (forall j, j < k -> slice (E:=E) (build_mul_tables coeffs) ((row * k + j) * 256)
    ((row * k + j) * 256 + 256) = Ok (take 256 (drop ((row * k + j) * 256)
      (build_mul_tables coeffs)))) as Hslice.
  { intros j Hj. rewrite slice_Ok by nia. do 2 f_equal. lia. }
  pose proof (find_first_spec (E:=E) (fun col =>
      t ← idx (build_mul_tables coeffs) ((row * k + col) * 256 + 1);
      mret (bool_decide (t ≠ Byte.x00)))
    (fun j => bool_decide (bget coeffs (row * k + j) ≠ 0%gf)) 0 k) as Hfind.
  destruct (proj1 (returns_Ok _ _) (Hfind ltac:(intros; cbv beta; by rewrite mul_tables_probe by lia)))
    as (o & -> & Ho).
  simpl. destruct o as [first|].
  - destruct Ho as (Hf & _ & Hz). rewrite Hslice by lia. simpl.
    destruct (shards_lookup k len data first) as [Hd Hdl]; [done|lia|].
    rewrite (shards_idx k len) by (done || lia). simpl.
    rewrite (write_with_table_eq _ _ _ (bget coeffs (row * k + first)))
      by (congruence || (apply mul_tables_block; lia)). simpl.
    replace (k `min` length data) with k by (destruct Hsh; lia).
    rewrite (accumulate_spec k (fun j b => (bget coeffs (row * k + j) * byte_at data j b)%gf)).
    + by rewrite Hout.
    + lia.
    + intros j b Hj. specialize (Hz j ltac:(lia)). apply bool_decide_eq_false, dec_stable in Hz.
      rewrite Hz. ring.
    + intros c d Hc Hd'. destruct (shards_lookup k len data c) as [Hdc Hdcl]; [done|lia|].
      rewrite (shards_idx k len) by (done || lia). simpl. rewrite mul_tables_probe by lia. simpl.
      case_decide as Hc0.
      * unfold mret, outcome_ret. f_equal. apply list_eq. intros b.
        rewrite list_lookup_imap. destruct (d !! b); simpl; [|done]. f_equal. rewrite Hc0. ring.
      * rewrite Hslice by lia. simpl.
        rewrite (xor_with_table_eq _ _ _ (bget coeffs (row * k + c)))
          by (congruence || (apply mul_tables_block; lia)). done.
  - rewrite combination_zero; [by unfold fill; rewrite Hout|]. intros j Hj.
    specialize (Ho j ltac:(lia)). by apply bool_decide_eq_false, dec_stable in Ho.
Qed.

(** Write the first non-zero term, then add the others. *)
Lemma combine_from_first {E} k len row inputs first output :
  shards k len inputs -> length output = len -> length row = k -> first < k ->
  (forall j, j < first -> bget row j = 0%gf) ->
  (output ← write_with_coeff (E:=E) output (nth first inputs []) (bget row first);
   foldM (fun output '(coeff, source) => xor_with_coeff output source coeff) output
     (drop (first + 1) (zip row inputs))) =
  Ok (combination k len (bget row) inputs).
Proof.
  intros Hsh Hout Hlen Hf Hz.
  destruct (shards_lookup k len inputs first) as [_ Hfl]; [done|lia|].
  rewrite write_with_coeff_eq by congruence. simpl.
  assert (length (zip row inputs) = k) as Hzip.
  { rewrite length_zip_with, Hlen. destruct Hsh. lia. }
  rewrite foldM_drop, Hzip by lia.
  rewrite (accumulate_spec k (fun j b => (bget row j * byte_at inputs j b)%gf)).
  - by rewrite Hout.
  - lia.
  - intros j b Hj. rewrite Hz by done. ring.
  - intros c d Hc Hd. destruct (shards_lookup k len inputs c) as [Hic Hicl]; [done|lia|].
    assert (zip row inputs !! c = Some (bget row c, nth c inputs [])) as ->
      by (apply lookup_zip_with_Some; do 2 eexists; split_and!; [done|apply bget_lookup; lia|done]).
    simpl. by rewrite xor_with_coeff_eq by congruence.
Qed.

(** The search for the first non-zero coefficient of a row *)
Lemma find_first_coeff {E} row k :
  k <= length row ->
  returns (find_first (E:=E) (fun i => c ← idx row i; mret (bool_decide (c ≠ Byte.x00))) (seq 0 k))
    (fun o => match o with
     | None => forall j, j < k -> bget row j = 0%gf
     | Some c => c < k /\ bget row c ≠ 0%gf /\ forall j, j < c -> bget row j = 0%gf
     end).
Proof.
  intros Hk. eapply returns_mono.
  { apply (find_first_spec _ (fun j => bool_decide (bget row j ≠ 0%gf))).
    intros j Hj. by rewrite bget_idx by lia. }
  intros [c|].
  - intros (Hc & Hpc & Hz). split_and!; [lia|by apply bool_decide_eq_true in Hpc|].
    intros j Hj. specialize (Hz j ltac:(lia)). by apply bool_decide_eq_false, dec_stable in Hz.
  - intros Hz j Hj. specialize (Hz j ltac:(lia)). by apply bool_decide_eq_false, dec_stable in Hz.
Qed.

Lemma row_slice {E} k rows row_index :
  row_index * k + k <= length rows ->
  exists row, slice (E:=E) rows (row_index * k) ((row_index + 1) * k) = Ok row /\
    length row = k /\ forall j, j < k -> bget row j = bget rows (row_index * k + j).
Proof.
  intros Hrows. exists (take k (drop (row_index * k) rows)). split_and!.
  - rewrite slice_Ok by lia. do 2 f_equal. lia.
  - rewrite length_take, length_drop. lia.
  - intros j Hj. unfold bget. by rewrite lookup_take_lt, lookup_drop by done.
Qed.

Lemma combination_ext k len c c' data :
  (forall j, j < k -> c j = c' j) -> combination k len c data = combination k len c' data.
Proof.
  intros H. apply list_fmap_ext. intros _ b _. apply gsum_ext. intros j Hj. by rewrite H.
Qed.

Lemma apply_row_spec {E} k len rows inputs row_index output :
  shards k len inputs -> length output = len -> row_index * k + k <= length rows ->
  apply_row (E:=E) k rows inputs row_index output =
  Ok (combination k len (fun j => bget rows (row_index * k + j)) inputs).
Proof.
  intros Hsh Hout Hrows. unfold apply_row.
  destruct (row_slice (E:=E) k rows row_index Hrows) as (row & -> & Hlen & Hrow). simpl.
  rewrite (combination_ext _ _ _ (bget row)) by (intros; by rewrite Hrow). rewrite Hlen.
  destruct (proj1 (returns_Ok _ _) (find_first_coeff (E:=E) row k ltac:(lia)))
    as (o & -> & Ho). simpl.
  destruct o as [first|].
  - destruct Ho as (Hf & _ & Hz). rewrite bget_idx by lia. simpl.
    rewrite (shards_idx k len) by done. simpl. by apply combine_from_first.
  - rewrite combination_zero by done. by unfold fill; rewrite Hout.
Qed.

Lemma encode_rows_scalar_spec {E} k len m coeffs data outputs :
  shards k len data -> shards m len outputs -> m * k <= length coeffs ->
  encode_rows_scalar (E:=E) k (build_mul_tables coeffs) data outputs =
  Ok (imap (fun row _ => combination k len (fun j => bget coeffs (row * k + j)) data) outputs).
Proof.
  intros Hd [Hm Ho] Hco. unfold encode_rows_scalar.
  rewrite (mapiM_spec _ (fun row _ => combination k len (fun j => bget coeffs (row * k + j)) data));
    [done|].
  intros row output Hrow. apply encode_row_spec; [done|by eapply Ho|].
  apply lookup_lt_Some in Hrow. simpl. nia.
Qed.

Lemma apply_matrix_rows_scalar_spec {E} k len m rows inputs outputs :
  shards k len inputs -> shards m len outputs -> m * k <= length rows ->
  apply_matrix_rows_scalar (E:=E) k rows inputs outputs =
  Ok (imap (fun row _ => combination k len (fun j => bget rows (row * k + j)) inputs) outputs).
Proof.
  intros Hd [Hm Ho] Hco. unfold apply_matrix_rows_scalar.
  rewrite (mapiM_spec _ (fun row _ => combination k len (fun j => bget rows (row * k + j)) inputs));
    [done|].
  intros row output Hrow. apply apply_row_spec; [done|by eapply Ho|].
  apply lookup_lt_Some in Hrow. simpl. nia.
Qed.

End Kernels.
