(* ===== verification/X86.v ===== *)
(** The x86-64 vector kernels of [crates/ec/src/gf.rs] (modules [x86_64_avx2] and
    [x86_64_avx512]).  A vector register is a list of bytes; the intrinsics the
    code uses are defined on it byte by byte, with the 128-bit lanes of the byte
    shuffle and the 16-bit lanes of the shift written out.  The two modules differ
    only in the register width, so the kernels are parameterised by the number of
    128-bit lanes: 2 for AVX2, 4 for AVX-512.  The theorems show that both produce
    exactly the bytes of the scalar kernels, for every shard length, with every
    vector load and store in bounds. *)

From Stdlib Require Import Ring.
From S2P Require Import Prelude Gf Linear Matrix Kernels.
Import Linear Matrix Kernels.

Module X86.

(** ** Nibble tables *)

Definition build_nibble_table (coeff : byte) : list byte :=
  let full := Gf.gf_mul_table coeff in
  ((fun index => bget full index) <$> seq 0 16) ++
  ((fun index => bget full (index * 16)) <$> seq 0 16).

Definition build_nibble_tables (coefficients : list byte) : list byte :=
  coefficients ≫= build_nibble_table.

(** Row [coeff] of [GF_NIBBLE_TABLES] *)
Definition all_nibble_tables_row (coeff : byte) : list byte :=
  ((fun nibble => Gf.gf_mul_slow coeff (usize_u8 nibble)) <$> seq 0 16) ++
  ((fun nibble => Gf.gf_mul_slow coeff (usize_u8 (nibble * 16))) <$> seq 0 16).

Definition build_all_nibble_tables : list (list byte) := all_nibble_tables_row <$> Gf.u8_all.

Definition GF_NIBBLE_TABLES : list (list byte) := build_all_nibble_tables.

(** ** Vector intrinsics *)

Definition mm_and (a b : list byte) : list byte := zip_with byte.and a b.
Definition mm_xor (a b : list byte) : list byte := zip_with byte.xor a b.

(** [_mm*_srli_epi16(x, 4)]: each little-endian 16-bit lane shifted right *)
Fixpoint mm_srli_epi16_4 (x : list byte) : list byte :=
  match x with
  | b0 :: b1 :: x =>
      let v := Z.shiftr (byte.unsigned b0 + 256 * byte.unsigned b1) 4 in
      byte.of_Z v :: byte.of_Z (Z.shiftr v 8) :: mm_srli_epi16_4 x
  | _ => x
  end.

(** [_mm*_shuffle_epi8(table, ix)]: within each 128-bit lane, byte [i] selects
    the table byte given by the low nibble of [ix[i]], or zero if its top bit is
    set. *)
Definition mm_shuffle_epi8 (table ix : list byte) : list byte :=
  imap (fun i s =>
    if Z.testbit (byte.unsigned s) 7 then Byte.x00
    else bget table (16 * (i / 16) + u8_usize (byte.and s Byte.x0f))) ix.

Definition MAX_TOTAL_SHARDS : nat := 32.

Section code.
Context {E : Type} (lanes : nat).
Implicit Types (dest src table output : list byte) (data inputs outputs : list (list byte)).

Definition W : nat := 16 * lanes.

Definition mm_set1_epi8 (b : byte) : list byte := replicate W b.
Definition mm_setzero : list byte := replicate W Byte.x00.

(** [_mm256_broadcastsi128_si256], [_mm512_broadcast_i32x4] *)
Definition mm_broadcast_128 (x : list byte) : list byte := seq 0 lanes ≫= (fun _ => x).

(** Unaligned load and store of one register at [ptr.add(index)] *)
Definition mm_loadu src (index : nat) : outcome E (list byte) := slice src index (index + W).

Definition mm_storeu dest (index : nat) (v : list byte) : outcome E (list byte) :=
  if decide (index + W <= length dest)
  then Ok (take index dest ++ v ++ drop (index + W) dest) else Panic.

Definition mul_chunk (src_chunk low_table high_table mask : list byte) : list byte :=
  let low := mm_and src_chunk mask in
  let high := mm_and (mm_srli_epi16_4 src_chunk) mask in
  let low_product := mm_shuffle_epi8 low_table low in
  let high_product := mm_shuffle_epi8 high_table high in
  mm_xor low_product high_product.

(** [while index + W <= len { ..; index += W }] *)
Fixpoint while_chunks (step : list byte -> nat -> outcome E (list byte))
    (fuel len index : nat) dest : outcome E (nat * list byte) :=
  match fuel with
  | O => mret (index, dest)
  | S fuel =>
      if decide (index + W <= len) then
        dest ← step dest index; while_chunks step fuel len (index + W) dest
      else mret (index, dest)
  end.

(** Run [f] on [&mut dest[index..]]. *)
Definition on_tail (index : nat) (f : list byte -> outcome E (list byte)) dest :
    outcome E (list byte) :=
  if decide (index <= length dest) then
    tail ← f (drop index dest); mret (take index dest ++ tail)
  else Panic.

(** Whole registers in the chunk loop, then [tail] on the bytes that are left. *)
Definition chunked (step : list byte -> nat -> outcome E (list byte))
    (tail : nat -> list byte -> outcome E (list byte)) dest : outcome E (list byte) :=
  let len := length dest in
  '(index, dest) ← while_chunks step len len 0 dest;
  if decide (index < len) then on_tail index (tail index) dest else mret dest.

(** The two broadcast halves of a 32-byte nibble table *)
Definition load_nibble_table table : outcome E (list byte * list byte) :=
  low ← slice table 0 16; high ← slice table 16 32;
  mret (mm_broadcast_128 low, mm_broadcast_128 high).

Definition write_with_nibble_table dest src table : outcome E (list byte) :=
  coeff ← idx table 1;
  if decide (coeff = Byte.x00 \/ coeff = Byte.x01 \/ length dest < W) then
    write_with_coeff dest src coeff
  else
    let mask := mm_set1_epi8 Byte.x0f in
    '(low_table, high_table) ← load_nibble_table table;
    chunked
      (fun dest index =>
        src_chunk ← mm_loadu src index;
        mm_storeu dest index (mul_chunk src_chunk low_table high_table mask))
      (fun index tail =>
        s ← slice src index (length src); write_with_coeff tail s coeff) dest.

Definition xor_with_nibble_table dest src table : outcome E (list byte) :=
  coeff ← idx table 1;
  if decide (coeff = Byte.x00 \/ coeff = Byte.x01 \/ length dest < W) then
    xor_with_coeff dest src coeff
  else
    let mask := mm_set1_epi8 Byte.x0f in
    '(low_table, high_table) ← load_nibble_table table;
    chunked
      (fun dest index =>
        src_chunk ← mm_loadu src index;
        dest_chunk ← mm_loadu dest index;
        let product := mul_chunk src_chunk low_table high_table mask in
        mm_storeu dest index (mm_xor dest_chunk product))
      (fun index tail =>
        s ← slice src index (length src); xor_with_coeff tail s coeff) dest.

Definition encode_row_x86 (k : nat) (tables : list byte) data (row : nat) output :
    outcome E (list byte) :=
  first_nonzero_col ← find_first (fun col =>
      t ← idx tables ((row * k + col) * 32 + 1); mret (bool_decide (t ≠ Byte.x00))) (seq 0 k);
  match first_nonzero_col with
  | None => mret (fill output Byte.x00)
  | Some first_col =>
      let table_start := (row * k + first_col) * 32 in
      first_coeff ← idx tables (table_start + 1);
      first_table ← slice tables table_start (table_start + 32);
      first_data ← idx data first_col;
      output ← (if decide (first_coeff = Byte.x01) then copy_from_slice output first_data
                else write_with_nibble_table output first_data first_table);
      for_range (first_col + 1) (k `min` length data) output (fun output col =>
        source ← idx data col;
        let table_start := (row * k + col) * 32 in
        coeff ← idx tables (table_start + 1);
        if decide (coeff = Byte.x00) then mret output
        else if decide (coeff = Byte.x01) then xor_with_slice output source
        else
          table ← slice tables table_start (table_start + 32);
          xor_with_nibble_table output source table)
  end.

Definition encode_rows_x86 (k : nat) (tables : list byte) data outputs :
    outcome E (list (list byte)) :=
  mapiM (encode_row_x86 k tables data) 0 outputs.

(** The [active_coeffs] / [active_inputs] arrays, filled up to [active_len] *)
Definition active_columns (k : nat) (row : list byte) inputs :
    outcome E (list (byte * list byte)) :=
  for_range 0 k [] (fun active col =>
    coeff ← idx row col;
    if decide (coeff = Byte.x00) then mret active
    else
      input ← idx inputs col;
      if decide (length active < MAX_TOTAL_SHARDS) then mret (active ++ [(coeff, input)])
      else Panic).

(** The product of one register with a coefficient *)
Definition coeff_chunk (coeff : byte) (src_chunk mask : list byte) : outcome E (list byte) :=
  if decide (coeff = Byte.x01) then mret src_chunk
  else
    table ← idx GF_NIBBLE_TABLES (u8_usize coeff);
    '(low_table, high_table) ← load_nibble_table table;
    mret (mul_chunk src_chunk low_table high_table mask).

(** The accumulator of one output register *)
Definition dot_prod_chunk (active : list (byte * list byte)) (mask : list byte) (index : nat) :
    outcome E (list byte) :=
  foldM (fun acc '(coeff, input) =>
    src_chunk ← mm_loadu input index;
    product ← coeff_chunk coeff src_chunk mask;
    mret (mm_xor acc product)) mm_setzero active.

Definition dot_prod_row (k : nat) (row : list byte) inputs output : outcome E (list byte) :=
  active ← active_columns k row inputs;
  if decide (length active = 0) then mret (fill output Byte.x00)
  else
    let len := length output in
    let mask := mm_set1_epi8 Byte.x0f in
    '(index, output) ← while_chunks (fun output index =>
        acc ← dot_prod_chunk active mask index; mm_storeu output index acc) len len 0 output;
    if decide (index = len) then mret output
    else
      first_index ← find_first (fun i =>
          c ← idx row i; mret (bool_decide (c ≠ Byte.x00))) (seq 0 (k `min` length row));
      first_col ← unwrap first_index;
      first_coeff ← idx row first_col;
      first_input ← idx inputs first_col;
      output ← on_tail index (fun tail =>
        s ← slice first_input index (length first_input);
        if decide (first_coeff = Byte.x01) then copy_from_slice tail s
        else write_with_coeff tail s first_coeff) output;
      foldM (fun output '(coeff, source) =>
        on_tail index (fun tail =>
          s ← slice source index (length source); xor_with_coeff tail s coeff) output)
        output (drop (first_col + 1) (zip row inputs)).

Definition apply_matrix_rows_x86 (k : nat) (rows : list byte) inputs outputs :
    outcome E (list (list byte)) :=
  mapiM (fun row_index output =>
    row ← slice rows (row_index * k) ((row_index + 1) * k);
    dot_prod_row k row inputs output) 0 outputs.

End code.

(** The two instances *)
Definition avx2_write_with_nibble_table {E} := @write_with_nibble_table E 2.
Definition avx2_xor_with_nibble_table {E} := @xor_with_nibble_table E 2.
Definition avx2_encode_rows {E} := @encode_rows_x86 E 2.
Definition avx2_dot_prod_row {E} := @dot_prod_row E 2.
Definition avx2_apply_matrix_rows {E} := @apply_matrix_rows_x86 E 2.
Definition avx512_encode_rows {E} := @encode_rows_x86 E 4.
Definition avx512_apply_matrix_rows {E} := @apply_matrix_rows_x86 E 4.

(** ** Nibble tables hold products *)

Lemma gf_mul_table_bget c i : i < 256 -> bget (Gf.gf_mul_table c) i = (c * usize_u8 i)%gf.
Proof.
  intros Hi. unfold bget. rewrite <-(u8_usize_u8 i) at 1 by done.
  by rewrite Gf.gf_mul_table_lookup.
Qed.

Definition low_products (c : byte) : list byte := (fun i => (c * usize_u8 i)%gf) <$> seq 0 16.
Definition high_products (c : byte) : list byte :=
  (fun i => (c * usize_u8 (i * 16))%gf) <$> seq 0 16.

Lemma build_nibble_table_eq c : build_nibble_table c = low_products c ++ high_products c.
Proof.
  unfold build_nibble_table, low_products, high_products.
  f_equal; apply list_fmap_ext; intros i x [-> Hi]%lookup_seq;
    rewrite gf_mul_table_bget by lia; done.
Qed.

Lemma all_nibble_tables_row_eq c : all_nibble_tables_row c = low_products c ++ high_products c.
Proof.
  unfold all_nibble_tables_row, low_products, high_products.
  f_equal; apply list_fmap_ext; intros i x _; by rewrite Gf.gf_mul_slow_eq.
Qed.

Lemma nibble_tables_lookup {E} c :
  idx (E:=E) GF_NIBBLE_TABLES (u8_usize c) = Ok (low_products c ++ high_products c).
Proof.
  apply idx_Ok. unfold GF_NIBBLE_TABLES, build_all_nibble_tables.
  rewrite list_lookup_fmap, Gf.u8_all_lookup. simpl. by rewrite all_nibble_tables_row_eq.
Qed.

Lemma length_low_products c : length (low_products c) = 16.
Proof. done. Qed.

Lemma length_high_products c : length (high_products c) = 16.
Proof. done. Qed.

Lemma low_products_bget c i : i < 16 -> bget (low_products c) i = (c * usize_u8 i)%gf.
Proof.
  intros. unfold bget, low_products. by rewrite list_lookup_fmap, lookup_seq_lt by done.
Qed.

Lemma high_products_bget c i : i < 16 -> bget (high_products c) i = (c * usize_u8 (i * 16))%gf.
Proof.
  intros. unfold bget, high_products. by rewrite list_lookup_fmap, lookup_seq_lt by done.
Qed.

Arguments low_products : simpl never.
Arguments high_products : simpl never.

(** ** One register *)

Definition low_nibble (b : byte) : byte := usize_u8 (u8_usize b mod 16).
Definition high_nibble (b : byte) : byte := usize_u8 (u8_usize b / 16).

Lemma and_0f b : byte.and b Byte.x0f = low_nibble b.
Proof. by destruct b. Qed.

Lemma nibbles_of b : byte.xor (low_nibble b) (usize_u8 (u8_usize (high_nibble b) * 16)) = b.
Proof. by destruct b. Qed.

Lemma low_nibble_lt b : u8_usize (low_nibble b) < 16.
Proof.
  unfold low_nibble. pose proof (u8_usize_lt b).
  rewrite u8_usize_u8; [apply Nat.mod_upper_bound; lia|].
  pose proof (Nat.mod_upper_bound (u8_usize b) 16). lia.
Qed.

Lemma high_nibble_lt b : u8_usize (high_nibble b) < 16.
Proof.
  unfold high_nibble. pose proof (u8_usize_lt b).
  assert (u8_usize b / 16 < 16) by (apply Nat.Div0.div_lt_upper_bound; lia).
  rewrite u8_usize_u8; lia.
Qed.

Lemma low_nibble_bit7 b : Z.testbit (byte.unsigned (low_nibble b)) 7 = false.
Proof. by destruct b. Qed.

Lemma high_nibble_bit7 b : Z.testbit (byte.unsigned (high_nibble b)) 7 = false.
Proof. by destruct b. Qed.

(** The two halves of a 16-bit lane after the shift and the mask *)
Lemma of_Z_0f v : byte.and (byte.of_Z v) Byte.x0f = usize_u8 (Z.to_nat (v mod 16)).
Proof.
  rewrite and_0f. unfold low_nibble, u8_usize. rewrite byte.unsigned_of_Z. unfold byte.wrap.
  f_equal. pose proof (Z.mod_pos_bound v 256 ltac:(lia)).
  rewrite <-(Nat2Z.id 16), <-Z2Nat.inj_mod by (change (2 ^ 8)%Z with 256%Z; lia).
  f_equal. change (Z.of_nat 16) with 16%Z. change (2 ^ 8)%Z with (16 * 16)%Z.
  pose proof (Z.div_mod v (16 * 16) ltac:(lia)). 
  rewrite Z.rem_mul_r by lia. rewrite Z.mul_comm, Z.mod_add by lia. apply Z.mod_mod. lia.
Qed.

Lemma srli_low b0 b1 :
  byte.and (byte.of_Z (Z.shiftr (byte.unsigned b0 + 256 * byte.unsigned b1) 4)) Byte.x0f =
  high_nibble b0.
Proof.
  rewrite of_Z_0f. unfold high_nibble, u8_usize. f_equal.
  pose proof (byte.unsigned_range b0). pose proof (byte.unsigned_range b1).
  change 16 with (Z.to_nat 16). rewrite <-Z2Nat.inj_div by lia. f_equal.
  rewrite Z.shiftr_div_pow2 by lia. change (2 ^ 4)%Z with 16%Z.
  replace (byte.unsigned b0 + 256 * byte.unsigned b1)%Z
    with (byte.unsigned b0 + (byte.unsigned b1 * 16) * 16)%Z by lia.
  rewrite Z.div_add, Z.mod_add by lia. apply Z.mod_small.
  split; [apply Z.div_pos; lia|apply Z.div_lt_upper_bound; lia].
Qed.

Lemma srli_high b0 b1 :
  byte.and (byte.of_Z (Z.shiftr (Z.shiftr (byte.unsigned b0 + 256 * byte.unsigned b1) 4) 8))
    Byte.x0f = high_nibble b1.
Proof.
  rewrite of_Z_0f. unfold high_nibble, u8_usize. f_equal.
  pose proof (byte.unsigned_range b0). pose proof (byte.unsigned_range b1).
  change 16 with (Z.to_nat 16). rewrite <-Z2Nat.inj_div by lia. f_equal.
  rewrite Z.shiftr_shiftr, Z.shiftr_div_pow2 by lia. change (2 ^ (4 + 8))%Z with (256 * 16)%Z.
  rewrite <-Z.div_div by lia.
  replace (byte.unsigned b0 + 256 * byte.unsigned b1)%Z
    with (byte.unsigned b0 + byte.unsigned b1 * 256)%Z by lia.
  rewrite Z.div_add, (Z.div_small (byte.unsigned b0)) by lia. apply Z.mod_small.
  split; [apply Z.div_pos; lia|apply Z.div_lt_upper_bound; lia].
Qed.

Section registers.
Context (lanes : nat).
Abbreviation W := (W lanes).

Lemma mm_and_low src : length src = W -> mm_and src (mm_set1_epi8 lanes Byte.x0f) = low_nibble <$> src.
Proof.
  intros Hlen. unfold mm_and, mm_set1_epi8. rewrite <-Hlen. clear Hlen.
  induction src as [|b src IH]; simpl; [done|]. by rewrite and_0f, IH.
Qed.

Lemma mm_and_high n src :
  length src = 2 * n ->
  mm_and (mm_srli_epi16_4 src) (replicate (2 * n) Byte.x0f) = high_nibble <$> src.
Proof.
  revert src; induction n as [|n IH]; intros src Hlen; [by destruct src|].
  destruct src as [|b0 [|b1 src]]; simpl in Hlen; try lia.
  replace (2 * S n) with (S (S (2 * n))) by lia.
  cbn [mm_srli_epi16_4 mm_and zip_with replicate]. rewrite srli_low, srli_high.
  change (zip_with byte.and (mm_srli_epi16_4 src) (replicate (2 * n) Byte.x0f))
    with (mm_and (mm_srli_epi16_4 src) (replicate (2 * n) Byte.x0f)).
  rewrite IH by lia. done.
Qed.

Lemma broadcast_bget x i j :
  length x = 16 -> i < lanes -> j < 16 ->
  bget (mm_broadcast_128 lanes x) (16 * i + j) = bget x j.
Proof.
  intros Hx Hi Hj. unfold bget, mm_broadcast_128.
  rewrite (Nat.mul_comm 16 i), (lookup_bind_blocks 16) by done.
  by rewrite lookup_seq_lt by done.
Qed.

(** Selecting nibbles from a broadcast table *)
Lemma shuffle_nibbles x (nib : byte -> byte) src :
  length x = 16 -> length src = W -> (forall b, u8_usize (nib b) < 16) ->
  (forall b, Z.testbit (byte.unsigned (nib b)) 7 = false) ->
  mm_shuffle_epi8 (mm_broadcast_128 lanes x) (nib <$> src) =
  (fun b => bget x (u8_usize (nib b))) <$> src.
Proof.
  intros Hx Hsrc Hlt Hbit. unfold mm_shuffle_epi8. apply list_eq. intros i.
  rewrite list_lookup_imap, !list_lookup_fmap.
  destruct (src !! i) as [b|] eqn:Hi; cbn [fmap option_fmap option_map]; [|done].
  f_equal. rewrite Hbit.
  apply lookup_lt_Some in Hi. rewrite Hsrc in Hi. unfold X86.W in Hi.
  rewrite broadcast_bget.
  - rewrite and_0f. unfold low_nibble.
    rewrite Nat.mod_small by apply Hlt. by rewrite usize_u8_usize.
  - done.
  - apply Nat.Div0.div_lt_upper_bound. lia.
  - rewrite and_0f. apply low_nibble_lt.
Qed.

(** The nibble method multiplies every byte of the register by [c]. *)
Lemma mul_chunk_spec c src :
  length src = W ->
  mul_chunk src (mm_broadcast_128 lanes (low_products c)) (mm_broadcast_128 lanes (high_products c))
    (mm_set1_epi8 lanes Byte.x0f) = Gf.gf_mul c <$> src.
Proof.
  intros Hsrc. unfold mul_chunk. rewrite mm_and_low by done.
  unfold mm_set1_epi8. replace W with (2 * (8 * lanes)) by (unfold X86.W; lia).
  rewrite mm_and_high by (rewrite Hsrc; unfold X86.W; lia).
  rewrite !shuffle_nibbles; eauto using low_nibble_lt, high_nibble_lt,
    low_nibble_bit7, high_nibble_bit7, length_low_products, length_high_products.
  unfold mm_xor. apply list_eq. intros i.
  rewrite lookup_zip_with, !list_lookup_fmap. destruct (src !! i) as [b|]; simpl; [|done].
  f_equal. rewrite low_products_bget, high_products_bget
    by (apply low_nibble_lt || apply high_nibble_lt).
  rewrite usize_u8_usize. rewrite <-(nibbles_of b) at 3. ring.
Qed.

(** ** Whole shards *)

(** The destination while the chunk loop runs: [index] bytes of the result [r]
    done, the rest of [dest] untouched. *)
Definition partial (r dest : list byte) (index : nat) : list byte :=
  take index r ++ drop index dest.

Lemma length_partial r dest i :
  length r = length dest -> i <= length dest -> length (partial r dest i) = length dest.
Proof. intros. unfold partial. rewrite length_app, length_take, length_drop. lia. Qed.

Lemma take_partial r dest i : i <= length r -> take i (partial r dest i) = take i r.
Proof. intros. unfold partial. rewrite take_app_le by (rewrite length_take; lia). rewrite take_take. f_equal. lia. Qed.

Lemma drop_partial r dest i j :
  i <= length r -> drop (i + j) (partial r dest i) = drop (i + j) dest.
Proof.
  intros. unfold partial. rewrite drop_app_ge by (rewrite length_take; lia).
  rewrite length_take, drop_drop. f_equal. lia.
Qed.

Lemma mm_storeu_partial {E} r dest i v :
  length r = length dest -> i + W <= length dest -> v = take W (drop i r) ->
  mm_storeu (E:=E) lanes (partial r dest i) i v = Ok (partial r dest (i + W)).
Proof.
  intros Hr Hi ->. unfold mm_storeu. rewrite length_partial, decide_True by lia.
  rewrite take_partial, drop_partial, app_assoc by lia. f_equal. unfold partial. f_equal.
  apply take_take_drop.
Qed.

Lemma while_chunks_spec {E} (step : list byte -> nat -> outcome E (list byte)) r dest fuel i :
  0 < lanes -> length r = length dest -> i <= length dest -> length dest - i <= fuel ->
  (forall i, i + W <= length dest -> step (partial r dest i) i = Ok (partial r dest (i + W))) ->
  returns (while_chunks lanes step fuel (length dest) i (partial r dest i))
    (fun '(i', d) => i' <= length dest /\ d = partial r dest i').
Proof.
  intros Hl Hr Hi Hfuel Hstep. revert i Hi Hfuel; induction fuel as [|fuel IH];
    intros i Hi Hfuel; simpl; [done|].
  case_decide as HW; [|done]. rewrite Hstep by done. simpl. apply IH; [lia|].
  unfold X86.W in *. lia.
Qed.

Lemma on_tail_partial {E} (f : list byte -> outcome E (list byte)) r dest i :
  length r = length dest -> i <= length dest -> f (drop i dest) = Ok (drop i r) ->
  on_tail i f (partial r dest i) = Ok r.
Proof.
  intros Hr Hi Hf. unfold on_tail. rewrite length_partial, decide_True by done.
  replace i with (i + 0) at 1 by lia. rewrite drop_partial, take_partial, Nat.add_0_r by lia.
  rewrite Hf. simpl. unfold mret, outcome_ret. f_equal. apply take_drop.
Qed.

Lemma load_nibble_table_eq {E} c :
  load_nibble_table (E:=E) lanes (low_products c ++ high_products c) =
  Ok (mm_broadcast_128 lanes (low_products c), mm_broadcast_128 lanes (high_products c)).
Proof. done. Qed.

Lemma mm_loadu_eq {E} src i :
  i + W <= length src -> mm_loadu (E:=E) lanes src i = Ok (take W (drop i src)).
Proof.
  intros Hi. unfold mm_loadu. rewrite slice_Ok by lia. do 2 f_equal. lia.
Qed.

Lemma length_chunk (src : list byte) i : i + W <= length src -> length (take W (drop i src)) = W.
Proof. intros. rewrite length_take, length_drop. lia. Qed.

Lemma bget_drop l i j : bget (drop i l) j = bget l (i + j).
Proof. unfold bget. by rewrite lookup_drop. Qed.

Lemma drop_imap {A B} (g : nat -> A -> B) l i :
  drop i (imap g l) = imap (fun j => g (i + j)) (drop i l).
Proof.
  apply list_eq. intros j. by rewrite lookup_drop, !list_lookup_imap, lookup_drop.
Qed.

Lemma take_imap {A B} (g : nat -> A -> B) l n : take n (imap g l) = imap g (take n l).
Proof.
  apply list_eq. intros j. destruct (decide (j < n)).
  - by rewrite lookup_take_lt, !list_lookup_imap, lookup_take_lt by done.
  - rewrite lookup_take_ge, list_lookup_imap, lookup_take_ge by lia. done.
Qed.

Lemma nibble_table_probe {E} c :
  idx (E:=E) (low_products c ++ high_products c) 1 = Ok c.
Proof.
  apply idx_Ok. rewrite lookup_app_l by (rewrite length_low_products; lia).
  transitivity (Some (c * 1)%gf); [done|]. f_equal. ring.
Qed.

Lemma chunked_spec {E} (step : list byte -> nat -> outcome E (list byte)) tail r dest :
  0 < lanes -> length r = length dest ->
  (forall i, i + W <= length dest -> step (partial r dest i) i = Ok (partial r dest (i + W))) ->
  (forall i, i <= length dest -> tail i (drop i dest) = Ok (drop i r)) ->
  chunked lanes step tail dest = Ok r.
Proof.
  intros Hl Hr Hstep Htail. unfold chunked.
  destruct (proj1 (returns_Ok _ _) (while_chunks_spec step r dest (length dest) 0
    Hl Hr ltac:(lia) ltac:(lia) Hstep)) as ([i d] & Hw & Hi & ->).
  change (partial r dest 0) with dest in Hw. rewrite Hw. simpl.
  case_decide; [by apply on_tail_partial; [..|apply Htail]|].
  unfold mret, outcome_ret, partial. rewrite take_ge, drop_ge, app_nil_r by lia. done.
Qed.

Lemma slice_tail {E} (src : list byte) i :
  i <= length src -> slice (E:=E) src i (length src) = Ok (drop i src).
Proof.
  intros. rewrite slice_Ok by lia. f_equal. apply take_ge. rewrite length_drop. lia.
Qed.

Lemma chunk_products (c : byte) (src dest : list byte) i :
  length src = length dest -> i + W <= length dest ->
  Gf.gf_mul c <$> take W (drop i src) =
  imap (fun j _ => (c * bget src (i + j))%gf) (take W (drop i dest)).
Proof.
  intros Hlen Hi. apply list_eq. intros j. rewrite list_lookup_fmap, list_lookup_imap.
  destruct (decide (j < W)).
  - rewrite !lookup_take_lt, !lookup_drop, !bget_lookup by lia. done.
  - by rewrite !lookup_take_ge by lia.
Qed.

Lemma write_with_nibble_table_eq {E} dest src c :
  0 < lanes -> length src = length dest ->
  write_with_nibble_table (E:=E) lanes dest src (low_products c ++ high_products c) =
  Ok (imap (fun i _ => (c * bget src i)%gf) dest).
Proof.
  intros Hl Hsrc. unfold write_with_nibble_table. rewrite nibble_table_probe. bind_step.
  case_decide as Hc; [by apply write_with_coeff_eq|]. rewrite load_nibble_table_eq. bind_step.
  apply chunked_spec; [done|apply length_imap|..].
  - intros i Hi. rewrite mm_loadu_eq by lia. simpl.
    apply mm_storeu_partial; [apply length_imap|done|].
    rewrite mul_chunk_spec by (apply length_chunk; lia).
    rewrite drop_imap, take_imap. by apply chunk_products.
  - intros i Hi. rewrite slice_tail by lia. simpl.
    rewrite write_with_coeff_eq by (rewrite !length_drop; lia). f_equal.
    rewrite drop_imap. apply imap_ext_lt. intros. by rewrite bget_drop.
Qed.

Lemma xor_with_nibble_table_eq {E} dest src c :
  0 < lanes -> length src = length dest ->
  xor_with_nibble_table (E:=E) lanes dest src (low_products c ++ high_products c) =
  Ok (imap (fun i d => (d + c * bget src i)%gf) dest).
Proof.
  intros Hl Hsrc. unfold xor_with_nibble_table. rewrite nibble_table_probe. bind_step.
  case_decide as Hc; [by apply xor_with_coeff_eq|]. rewrite load_nibble_table_eq. bind_step.
  apply chunked_spec; [done|apply length_imap|..].
  - intros i Hi. rewrite (mm_loadu_eq src) by lia. simpl.
    rewrite mm_loadu_eq by (rewrite length_partial; rewrite ?length_imap; lia). simpl.
    apply mm_storeu_partial; [apply length_imap|done|].
    rewrite mul_chunk_spec by (apply length_chunk; lia).
    replace i with (i + 0) at 1 by lia. rewrite drop_partial by (rewrite length_imap; lia).
    rewrite Nat.add_0_r, drop_imap, take_imap, (chunk_products c src dest) by done.
    unfold mm_xor. apply list_eq. intros j. rewrite lookup_zip_with, !list_lookup_imap.
    by destruct (take W (drop i dest) !! j).
  - intros i Hi. rewrite slice_tail by lia. simpl.
    rewrite xor_with_coeff_eq by (rewrite !length_drop; lia). f_equal.
    rewrite drop_imap. apply imap_ext_lt. intros. by rewrite bget_drop.
Qed.

(** ** Rows of the encoder *)

Lemma length_build_nibble_table c : length (build_nibble_table c) = 32.
Proof. done. Qed.

Lemma length_nibble_tables coeffs : length (build_nibble_tables coeffs) = length coeffs * 32.
Proof. apply length_bind_blocks, length_build_nibble_table. Qed.

Lemma nibble_tables_slice {E} coeffs i :
  i < length coeffs ->
  slice (E:=E) (build_nibble_tables coeffs) (i * 32) (i * 32 + 32) =
  Ok (low_products (bget coeffs i) ++ high_products (bget coeffs i)).
Proof.
  intros Hi. rewrite slice_Ok by (rewrite ?length_nibble_tables; lia). f_equal.
  replace (i * 32 + 32 - i * 32) with 32 by lia. rewrite <-build_nibble_table_eq.
  by apply (block_bind_blocks 32 _ length_build_nibble_table), bget_lookup.
Qed.

Lemma nibble_tables_probe {E} coeffs i :
  i < length coeffs ->
  idx (E:=E) (build_nibble_tables coeffs) (i * 32 + 1) = Ok (bget coeffs i).
Proof.
  intros Hi. apply idx_Ok. unfold build_nibble_tables.
  rewrite (lookup_bind_blocks 32) by (apply length_build_nibble_table || lia).
  rewrite bget_lookup by done. cbn [mbind option_bind]. rewrite build_nibble_table_eq.
  apply (idx_Ok (E:=E)), nibble_table_probe.
Qed.

Lemma encode_row_x86_spec {E} k len coeffs data row output :
  0 < lanes -> shards k len data -> length output = len -> row * k + k <= length coeffs ->
  encode_row_x86 (E:=E) lanes k (build_nibble_tables coeffs) data row output =
  Ok (combination k len (fun j => bget coeffs (row * k + j)) data).
Proof.
  intros Hl Hsh Hout Hco. unfold encode_row_x86.
  pose proof (find_first_spec (E:=E) (fun col =>
      t ← idx (build_nibble_tables coeffs) ((row * k + col) * 32 + 1);
      mret (bool_decide (t ≠ Byte.x00)))
    (fun j => bool_decide (bget coeffs (row * k + j) ≠ 0%gf)) 0 k) as Hfind.
  destruct (proj1 (returns_Ok _ _) (Hfind ltac:(intros; cbv beta; by rewrite nibble_tables_probe by lia)))
    as (o & -> & Ho).
  bind_step. destruct o as [first|].
  - destruct Ho as (Hf & _ & Hz). rewrite nibble_tables_probe, nibble_tables_slice by lia.
    destruct (shards_lookup k len data first) as [_ Hdl]; [done|lia|].
    bind_step. rewrite (shards_idx k len) by (done || lia). bind_step.
    assert (forall c, (if decide (c = Byte.x01) then copy_from_slice (E:=E) output (nth first data [])
      else write_with_nibble_table lanes output (nth first data []) (low_products c ++ high_products c)) =
      Ok (imap (fun i _ => (c * bget (nth first data []) i)%gf) output)) as ->.
    { intros c. case_decide as Hc; [|by apply write_with_nibble_table_eq; congruence].
      subst c. rewrite <-(write_with_coeff_eq (E:=E)) by congruence. done. }
    bind_step. replace (k `min` length data) with k by (destruct Hsh; lia).
    rewrite (accumulate_spec k (fun j b => (bget coeffs (row * k + j) * byte_at data j b)%gf)).
    + by rewrite Hout.
    + lia.
    + intros j b Hj. specialize (Hz j ltac:(lia)). apply bool_decide_eq_false, dec_stable in Hz.
      rewrite Hz. ring.
    + intros c d Hc Hd. destruct (shards_lookup k len data c) as [_ Hdcl]; [done|lia|].
      rewrite (shards_idx k len) by (done || lia). bind_step.
      rewrite nibble_tables_probe, nibble_tables_slice by lia. bind_step.
      case_decide as Hc0; [|case_decide as Hc1].
      * transitivity (xor_with_coeff (E:=E) d (nth c data []) (bget coeffs (row * k + c)));
          [by rewrite Hc0|by apply xor_with_coeff_eq; congruence].
      * transitivity (xor_with_coeff (E:=E) d (nth c data []) (bget coeffs (row * k + c)));
          [by rewrite Hc1|by apply xor_with_coeff_eq; congruence].
      * by apply xor_with_nibble_table_eq; congruence.
  - rewrite combination_zero; [by unfold fill; rewrite Hout|]. intros j Hj.
    specialize (Ho j ltac:(lia)). by apply bool_decide_eq_false, dec_stable in Ho.
Qed.

Lemma encode_rows_x86_spec {E} k len m coeffs data outputs :
  0 < lanes -> shards k len data -> shards m len outputs -> m * k <= length coeffs ->
  encode_rows_x86 (E:=E) lanes k (build_nibble_tables coeffs) data outputs =
  Ok (imap (fun row _ => combination k len (fun j => bget coeffs (row * k + j)) data) outputs).
Proof.
  intros Hl Hd [Hm Ho] Hco. unfold encode_rows_x86.
  rewrite (mapiM_spec _ (fun row _ => combination k len (fun j => bget coeffs (row * k + j)) data));
    [done|].
  intros row output Hrow. apply encode_row_x86_spec; [done..|by eapply Ho|].
  apply lookup_lt_Some in Hrow. simpl. nia.
Qed.

(** ** Rows of the recovery matrix *)

(** What the active columns contribute to byte [b] *)
Definition active_sum (active : list (byte * list byte)) (b : nat) : byte :=
  lsum (fun ci => (fst ci * bget (snd ci) b)%gf) active.

Lemma active_columns_spec {E} k len row inputs :
  k <= MAX_TOTAL_SHARDS -> shards k len inputs -> length row = k ->
  returns (active_columns (E:=E) k row inputs) (fun active =>
    (forall ci, ci ∈ active -> length (snd ci) = len) /\
    (length active = 0 <-> forall j, j < k -> bget row j = 0%gf) /\
    forall b, active_sum active b = gsum k (fun j => (bget row j * byte_at inputs j b)%gf)).
Proof.
  intros Hk Hsh Hrow.
  apply (wp_for_range (fun col active => length active <= col /\
    (forall ci, ci ∈ active -> length (snd ci) = len) /\
    (length active = 0 <-> forall j, j < col -> bget row j = 0%gf) /\
    forall b, active_sum active b = gsum col (fun j => (bget row j * byte_at inputs j b)%gf))).
  - lia.
  - split_and!; [done|by intros ? ?%not_elem_of_nil|split; [lia|done]|done].
  - intros col active Hcol (Hlen & Hin & Hz & Hsum). rewrite bget_idx by lia. bind_step.
    case_decide as Hc.
    + split_and!; [lia|done| |].
      * rewrite Hz. split; intros H0 j Hj; [|apply H0; lia].
        destruct (decide (j = col)) as [->|]; [done|]. apply H0. lia.
      * intros b. rewrite Hsum, Nat.add_1_r. simpl. rewrite Hc. ring.
    + rewrite (shards_idx k len) by (done || lia). bind_step.
      rewrite decide_True by lia. destruct (shards_lookup k len inputs col) as [_ Hil]; [done|lia|].
      split_and!.
      * rewrite length_app. simpl. lia.
      * intros ci [Hci| ->%list_elem_of_singleton]%elem_of_app; [by apply Hin|done].
      * rewrite length_app. simpl. split; [lia|]. intros H0. destruct Hc. apply H0. lia.
      * intros b. rewrite Nat.add_1_r. unfold active_sum. rewrite lsum_app. simpl.
        fold (active_sum active b). rewrite Hsum. unfold byte_at. ring.
  - intros active (_ & Hin & Hz & Hsum). done.
Qed.

Lemma chunk_seq (f : byte -> byte) input i :
  i + W <= length input -> f <$> take W (drop i input) = (fun b => f (bget input b)) <$> seq i W.
Proof.
  intros Hi. apply list_eq. intros j. rewrite !list_lookup_fmap. destruct (decide (j < W)).
  - rewrite lookup_take_lt, lookup_drop, bget_lookup, lookup_seq_lt by lia. done.
  - rewrite lookup_take_ge, lookup_seq_ge by lia. done.
Qed.

Lemma mm_xor_seq (f g : nat -> byte) i n :
  mm_xor (f <$> seq i n) (g <$> seq i n) = (fun b => (f b + g b)%gf) <$> seq i n.
Proof.
  unfold mm_xor. apply list_eq. intros j. rewrite lookup_zip_with, !list_lookup_fmap.
  by destruct (seq i n !! j).
Qed.

Lemma coeff_chunk_spec {E} c input i :
  i + W <= length input ->
  coeff_chunk (E:=E) lanes c (take W (drop i input)) (mm_set1_epi8 lanes Byte.x0f) =
  Ok ((fun b => (c * bget input b)%gf) <$> seq i W).
Proof.
  intros Hi. unfold coeff_chunk. case_decide as Hc.
  - subst c. bind_step. f_equal.
    rewrite <-(list_fmap_id (take W (drop i input))), chunk_seq by lia.
    apply list_fmap_ext. intros. simpl. ring.
  - rewrite nibble_tables_lookup. bind_step. rewrite load_nibble_table_eq. bind_step.
    rewrite mul_chunk_spec by (apply length_chunk; lia). by rewrite chunk_seq by lia.
Qed.

Lemma dot_prod_chunk_spec {E} len active i :
  (forall ci, ci ∈ active -> length (snd ci) = len) -> i + W <= len ->
  dot_prod_chunk (E:=E) lanes active (mm_set1_epi8 lanes Byte.x0f) i =
  Ok (active_sum active <$> seq i W).
Proof.
  intros Hin Hi. unfold dot_prod_chunk, mm_setzero.
  replace (replicate W Byte.x00) with ((fun _ : nat => 0%gf) <$> seq i W)
    by (by rewrite (const_fmap _ (seq i W) Byte.x00), length_seq).
  enough (forall a : nat -> byte, foldM (E:=E) (fun acc '(coeff, input) =>
      src_chunk ← mm_loadu lanes input i;
      product ← coeff_chunk lanes coeff src_chunk (mm_set1_epi8 lanes Byte.x0f);
      mret (mm_xor acc product)) (a <$> seq i W) active =
    Ok ((fun b => (a b + active_sum active b)%gf) <$> seq i W)) as Hgen.
  { rewrite Hgen. f_equal. apply list_fmap_ext. intros. ring. }
  induction active as [|[c input] active IH]; intros a.
  { simpl. f_equal. apply list_fmap_ext. intros. unfold active_sum. simpl. ring. }
  cbn [foldM]. pose proof (Hin (c, input) (list_elem_of_here _ _)) as Hlen. simpl in Hlen.
  rewrite mm_loadu_eq by lia. bind_step. rewrite coeff_chunk_spec by lia. bind_step.
  rewrite mm_xor_seq, IH by (intros ci Hci; apply Hin; by right).
  f_equal. apply list_fmap_ext. intros. unfold active_sum. simpl. ring.
Qed.

Lemma on_tail_app {E} i (f : list byte -> outcome E (list byte)) pre t :
  i = length pre -> on_tail i f (pre ++ t) = t' ← f t; mret (pre ++ t').
Proof.
  intros ->. unfold on_tail. rewrite decide_True by (rewrite length_app; lia).
  by rewrite drop_app_length, take_app_length.
Qed.

Lemma foldM_on_tail {E A} i (f : A -> list byte -> outcome E (list byte)) pre t l :
  i = length pre ->
  foldM (fun o x => on_tail i (f x) o) (pre ++ t) l =
  t' ← foldM (fun t x => f x t) t l; mret (pre ++ t').
Proof.
  intros Hi. revert t; induction l as [|x l IH]; intros t; simpl; [done|].
  rewrite on_tail_app by done. destruct (f x t); simpl; [apply IH|done..].
Qed.

Lemma combination_drop k len coeff inputs i :
  shards k len inputs ->
  drop i (combination k len coeff inputs) =
  combination k (len - i) coeff (drop i <$> inputs).
Proof.
  intros Hsh. unfold combination. rewrite <-fmap_drop, drop_seq.
  apply list_eq. intros b. rewrite !list_lookup_fmap. destruct (decide (b < len - i)).
  - rewrite !lookup_seq_lt by done. simpl. f_equal. apply gsum_ext. intros j Hj. f_equal.
    destruct (shards_lookup k len inputs j) as [Hi _]; [done|done|].
    unfold byte_at. rewrite (nth_lookup_Some (drop i <$> inputs) j [] (drop i (nth j inputs []))).
    + by rewrite bget_drop.
    + by rewrite list_lookup_fmap, Hi.
  - by rewrite !lookup_seq_ge by lia.
Qed.

Lemma shards_drop k len inputs i :
  shards k len inputs -> shards k (len - i) (drop i <$> inputs).
Proof.
  intros [Hk Hlen]. split; [by rewrite length_fmap|]. intros j s Hs.
  apply list_lookup_fmap_Some in Hs as (s' & -> & Hs'). rewrite length_drop.
  by rewrite (Hlen j s').
Qed.

(** Adding the remaining terms on the tails of the shards *)
Lemma foldM_tails {E} k len row inputs i n (t : list byte) :
  shards k len inputs -> i <= len ->
  foldM (E:=E) (fun t x => s ← slice (snd x) i (length (snd x)); xor_with_coeff t s (fst x)) t
    (drop n (zip row inputs)) =
  foldM (fun t '(coeff, source) => xor_with_coeff t source coeff) t
    (drop n (zip row (drop i <$> inputs))).
Proof.
  intros [_ Hlen] Hi.
  replace (zip row (drop i <$> inputs)) with (prod_map id (drop i) <$> zip row inputs)
    by (by rewrite prod_map_zip, list_fmap_id).
  rewrite <-fmap_drop, foldM_fmap. apply foldM_ext. intros t' [c src] Hx.
  apply subseteq_drop in Hx. apply elem_of_zip_r in Hx.
  apply list_elem_of_lookup in Hx as [j Hj]. simpl.
  by rewrite slice_tail by (erewrite Hlen by done; lia).
Qed.

(** The scalar code on the bytes after the last whole register *)
Lemma dot_prod_tail_spec {E} k len row inputs first output i :
  shards k len inputs -> length output = len -> length row = k -> first < k ->
  (forall j, j < first -> bget row j = 0%gf) -> i <= len ->
  let r := combination k len (bget row) inputs in
  (output ← on_tail (E:=E) i (fun tail =>
      s ← slice (nth first inputs []) i (length (nth first inputs []));
      if decide (bget row first = Byte.x01) then copy_from_slice tail s
      else write_with_coeff tail s (bget row first)) (partial r output i);
   foldM (fun output '(coeff, source) =>
      on_tail i (fun tail =>
        s ← slice source i (length source); xor_with_coeff tail s coeff) output)
      output (drop (first + 1) (zip row inputs))) = Ok r.
Proof.
  intros Hsh Hout Hrow Hf Hz Hi r.
  assert (length r = len) as Hrl by (unfold r, combination; by rewrite length_fmap, length_seq).
  assert (i = length (take i r)) as Hpre by (rewrite length_take; lia).
  destruct (shards_lookup k len inputs first) as [Hfi Hfl]; [done..|].
  unfold partial. rewrite on_tail_app by done. rewrite slice_tail by lia. bind_step.
  assert ((if decide (bget row first = Byte.x01)
      then copy_from_slice (E:=E) (drop i output) (drop i (nth first inputs []))
      else write_with_coeff (drop i output) (drop i (nth first inputs [])) (bget row first)) =
    write_with_coeff (drop i output) (drop i (nth first inputs [])) (bget row first)) as ->
    by (case_decide as Hc; [by rewrite Hc|done]).
  pose proof (combine_from_first (E:=E) k (len - i) row (drop i <$> inputs) first (drop i output)
    (shards_drop _ _ _ _ Hsh) ltac:(rewrite length_drop; lia) Hrow Hf Hz) as Hcomb.
  rewrite (nth_lookup_Some (drop i <$> inputs) first [] (drop i (nth first inputs []))) in Hcomb
    by (by rewrite list_lookup_fmap, Hfi).
  apply bind_Ok in Hcomb as (t & Hw & Hfold). rewrite Hw. bind_step.
  rewrite (foldM_ext _ (fun o x => on_tail i (fun tail =>
    s ← slice (snd x) i (length (snd x)); xor_with_coeff tail s (fst x)) o))
    by (by intros s [c src] _).
  rewrite (foldM_on_tail i (fun x tail =>
    s ← slice (snd x) i (length (snd x)); xor_with_coeff tail s (fst x))) by done.
  rewrite (foldM_tails k len) by done. rewrite Hfold. bind_step. f_equal.
  rewrite <-combination_drop by done. apply take_drop.
Qed.

Lemma dot_prod_row_spec {E} k len row inputs output :
  0 < lanes -> k <= MAX_TOTAL_SHARDS ->
  shards k len inputs -> length output = len -> length row = k ->
  dot_prod_row (E:=E) lanes k row inputs output = Ok (combination k len (bget row) inputs).
Proof.
  intros Hl Hk Hsh Hout Hrow. unfold dot_prod_row.
  destruct (proj1 (returns_Ok _ _) (active_columns_spec (E:=E) k len row inputs Hk Hsh Hrow))
    as (active & -> & Hin & Hz & Hsum). bind_step. rewrite Hout.
  case_decide as Hact.
  { rewrite combination_zero by (by apply Hz). unfold fill. by rewrite Hout. }
  set (r := combination k len (bget row) inputs).
  assert (length r = length output) as Hrl
    by (unfold r, combination; by rewrite length_fmap, length_seq).
  destruct (proj1 (returns_Ok _ _) (while_chunks_spec (E:=E) (fun output index =>
      acc ← dot_prod_chunk lanes active (mm_set1_epi8 lanes Byte.x0f) index;
      mm_storeu lanes output index acc) r output (length output) 0
    Hl Hrl ltac:(lia) ltac:(lia) ltac:(intros i Hi; cbv beta;
      rewrite (dot_prod_chunk_spec len) by (done || lia); bind_step;
      apply mm_storeu_partial; [done..|]; unfold r, combination;
      rewrite <-fmap_drop, <-fmap_take, drop_seq, take_seq;
      replace (W `min` (len - i)) with W by lia;
      apply list_fmap_ext; intros; apply Hsum))) as ([i d] & Hw & Hi & ->).
  change (partial r output 0) with output in Hw. rewrite Hout in Hw. rewrite Hw. bind_step.
  case_decide as Hend.
  { unfold partial. subst i. rewrite take_ge, drop_ge, app_nil_r by lia. done. }
  rewrite Hrow, Nat.min_id.
  destruct (proj1 (returns_Ok _ _) (find_first_coeff (E:=E) row k ltac:(lia)))
    as (o & -> & Ho). bind_step.
  destruct o as [first|]; [|by destruct (Hact (proj2 Hz Ho))].
  destruct Ho as (Hf & _ & Hzf). cbn [unwrap]. bind_step. rewrite bget_idx by lia. bind_step.
  rewrite (shards_idx k len) by done. bind_step.
  apply dot_prod_tail_spec; [done..|lia].
Qed.

Lemma apply_matrix_rows_x86_spec {E} k len m rows inputs outputs :
  0 < lanes -> k <= MAX_TOTAL_SHARDS ->
  shards k len inputs -> shards m len outputs -> m * k <= length rows ->
  apply_matrix_rows_x86 (E:=E) lanes k rows inputs outputs =
  Ok (imap (fun row _ => combination k len (fun j => bget rows (row * k + j)) inputs) outputs).
Proof.
  intros Hl Hk Hd [Hm Ho] Hco. unfold apply_matrix_rows_x86.
  rewrite (mapiM_spec _ (fun row _ => combination k len (fun j => bget rows (row * k + j)) inputs));
    [done|].
  intros ri output Hri. simpl.
  destruct (row_slice (E:=E) k rows ri) as (row & -> & Hlen & Hrow).
  { apply lookup_lt_Some in Hri. nia. }
  bind_step. rewrite (combination_ext _ _ _ (bget row)) by (intros; by rewrite Hrow).
  apply dot_prod_row_spec; [done..|by eapply Ho|done].
Qed.

End registers.

End X86.
