(* ===== verification/Codec.v ===== *)
(** The erasure codec: [crates/ec/src/codec.rs] and
    [crates/ec/src/reconstruct.rs].  Configuration and shape checks with their
    error values, encoding, verification and reconstruction, for the scalar and
    the two x86-64 backends.  The theorems: on well-shaped input encoding
    succeeds and any [k] shards of the result reconstruct every other shard
    exactly, whichever backends are used; verification accepts exactly the
    encoded parity; no argument makes an entry point panic or report a singular
    matrix. *)

From Stdlib Require Import Ring.
From stdpp Require Import strings sets.
From S2P Require Import Prelude Gf Linear Matrix Kernels X86.
Import Linear Matrix Kernels X86.

Module Codec.

(** ** Data *)

Record EcConfig := { data_shards : byte; parity_shards : byte }.

Inductive VerifyResult :=
| VerifyOk
| Mismatch (index : nat).

Inductive EcError :=
| InvalidConfig (reason : string)
| ShardCount (expected got : nat)
| ShardSizeMismatch (index expected got : nat)
| InsufficientShards (need have : nat)
| ShardIndexOutOfRange (index total : nat)
| DuplicateShardIndex (index : nat)
| OverlappingIndices (index : nat)
| UnsortedIndices (index : nat)
| ScratchTooSmall (required provided : nat)
| ShardSizeTooLarge (size : nat)
| DuplicateRecoverIndex (index : nat)
| SingularMatrix
| SmokeTestFailed (reason : string).

(** The backends of an x86-64 build *)
Inductive Backend :=
| Scalar
| Avx512X86_64
| Avx2X86_64.

Record ErasureCodec := {
  config : EcConfig;
  encode_matrix : list byte;
  encode_tables : list byte;
  encode_tables_x86 : list byte
}.

(** ** Configuration *)

Definition total_shards (c : EcConfig) : nat :=
  u8_usize (data_shards c) + u8_usize (parity_shards c).

Definition validate_parts (data_shards parity_shards : byte) : outcome EcError () :=
  _ ← guard_err (bool_decide (data_shards = Byte.x00))
        (InvalidConfig "data_shards must be >= 1");
  let total := u8_usize data_shards + u8_usize parity_shards in
  guard_err (bool_decide (MAX_TOTAL_SHARDS < total))
    (InvalidConfig "data_shards + parity_shards exceeds MAX_TOTAL_SHARDS").

Definition EcConfig_new (data_shards parity_shards : byte) : outcome EcError EcConfig :=
  _ ← validate_parts data_shards parity_shards;
  mret {| data_shards := data_shards; parity_shards := parity_shards |}.

Definition validate (c : EcConfig) : outcome EcError EcConfig :=
  _ ← validate_parts (data_shards c) (parity_shards c);
  mret c.

Definition EcConfig_default : EcConfig :=
  {| data_shards := Byte.x04; parity_shards := Byte.x02 |}.

Definition I32_MAX : Z := 2147483647.
Definition USIZE_MAX : Z := 18446744073709551615.

Definition check_shard_size (size : nat) : outcome EcError () :=
  guard_err (bool_decide (I32_MAX < Z.of_nat size)%Z) (ShardSizeTooLarge size).

(** [a.saturating_mul(b)] on [usize] *)
Definition saturating_mul (a b : nat) : nat :=
  if decide (Z.of_nat a * Z.of_nat b <= USIZE_MAX)%Z then a * b else Z.to_nat USIZE_MAX.

(** ** Backend selection *)

(** What the CPU reports, and the trimmed lower-case value of
    [ARGMIN_EC_BENCH_BACKEND] when the variable is set *)
Record Platform := {
  avx2 : bool;
  avx512f : bool;
  avx512bw : bool;
  override_name : option string
}.

Definition has_avx2_x86_64 (p : Platform) : bool := avx2 p.
Definition has_avx512_x86_64 (p : Platform) : bool := avx512f p && avx512bw p.

Definition bench_override_backend (p : Platform) : option Backend :=
  match override_name p with
  | Some name =>
      if String.eqb name "scalar" then Some Scalar
      else if String.eqb name "avx512" && has_avx512_x86_64 p then Some Avx512X86_64
      else if String.eqb name "avx2" && has_avx2_x86_64 p then Some Avx2X86_64
      else None
  | None => None
  end.

Definition selected_backend (p : Platform) : Backend :=
  match bench_override_backend p with
  | Some backend => backend
  | None =>
      if has_avx512_x86_64 p then Avx512X86_64
      else if has_avx2_x86_64 p then Avx2X86_64
      else Scalar
  end.

Definition supported_backends (p : Platform) : list Backend :=
  let backends := [Scalar] in
  let backends := if has_avx512_x86_64 p then backends ++ [Avx512X86_64] else backends in
  if has_avx2_x86_64 p then backends ++ [Avx2X86_64] else backends.

Definition backend_name_for (b : Backend) : string :=
  match b with
  | Scalar => "scalar"
  | Avx512X86_64 => "x86_64-avx512"
  | Avx2X86_64 => "x86_64-avx2"
  end.

Definition encode_rows {E} (backend : Backend) (k : nat) (tables x86_tables : list byte)
    (data outputs : list (list byte)) : outcome E (list (list byte)) :=
  match backend with
  | Scalar => encode_rows_scalar k tables data outputs
  | Avx512X86_64 => avx512_encode_rows k x86_tables data outputs
  | Avx2X86_64 => avx2_encode_rows k x86_tables data outputs
  end.

Definition apply_matrix_rows {E} (backend : Backend) (k : nat) (rows : list byte)
    (inputs outputs : list (list byte)) : outcome E (list (list byte)) :=
  match backend with
  | Scalar => apply_matrix_rows_scalar k rows inputs outputs
  | Avx512X86_64 => avx512_apply_matrix_rows k rows inputs outputs
  | Avx2X86_64 => avx2_apply_matrix_rows k rows inputs outputs
  end.

(** ** The codec *)

Definition ErasureCodec_new (config : EcConfig) : outcome EcError ErasureCodec :=
  config ← validate config;
  let k := u8_usize (data_shards config) in
  let m := u8_usize (parity_shards config) in
  let total := k + m in
  encode_matrix ← gen_cauchy1_matrix (replicate (total * k) Byte.x00) total k;
  parity_rows ← slice encode_matrix (k * k) (length encode_matrix);
  mret {| config := config;
          encode_matrix := encode_matrix;
          encode_tables := build_mul_tables parity_rows;
          encode_tables_x86 := build_nibble_tables parity_rows |}.

(** [for (i, s) in shards.iter().enumerate().skip(skip) { if s.len() != expected {
    return Err(ShardSizeMismatch { index: index(i), .. }) } }] *)
Definition check_sizes (index : nat -> outcome EcError nat) (expected skip : nat)
    (shards : list (list byte)) : outcome EcError () :=
  foldM (fun _ '(i, s) =>
    if decide (length s = expected) then mret ()
    else index ← index i; Err (ShardSizeMismatch index expected (length s)))
    () (drop skip (enumerate shards)).

(** The checks shared by [encode] and [verify]; returns the shard size. *)
Definition check_stripe (k m : nat) (data parity : list (list byte)) : outcome EcError nat :=
  _ ← guard_err (bool_decide (length data ≠ k)) (ShardCount k (length data));
  _ ← guard_err (bool_decide (length parity ≠ m)) (ShardCount m (length parity));
  data0 ← idx data 0;
  let shard_size := length data0 in
  _ ← check_shard_size shard_size;
  _ ← check_sizes mret shard_size 1 data;
  _ ← check_sizes (fun i => mret (k + i)) shard_size 0 parity;
  mret shard_size.

Section codec.
Context (self : ErasureCodec).
Let k := u8_usize (data_shards (config self)).
Let m := u8_usize (parity_shards (config self)).

Definition verify_scratch_size (shard_size : nat) : nat := saturating_mul m shard_size.

Definition encode_with_backend (data parity : list (list byte)) (backend : Backend) :
    outcome EcError (list (list byte)) :=
  shard_size ← check_stripe k m data parity;
  if decide (m = 0 \/ shard_size = 0) then mret parity
  else encode_rows backend k (encode_tables self) (encode_tables_x86 self) data parity.

Definition encode (p : Platform) (data parity : list (list byte)) :=
  encode_with_backend data parity (selected_backend p).

(** The row loop of [verify]; [scratch] is the caller's buffer. *)
Fixpoint verify_rows (backend : Backend) (data parity : list (list byte)) (shard_size : nat)
    (rows : list nat) (scratch : list byte) : outcome EcError (VerifyResult * list byte) :=
  match rows with
  | [] => mret (VerifyOk, scratch)
  | row :: rows =>
      scratch_row ← slice scratch (row * shard_size) ((row + 1) * shard_size);
      tables ← slice (encode_tables self) (row * k * 256) (row * k * 256 + k * 256);
      x86_tables ← slice (encode_tables_x86 self) (row * k * 32) (row * k * 32 + k * 32);
      outputs ← encode_rows backend k tables x86_tables data [scratch_row];
      scratch_row ← idx outputs 0;
      let scratch := take (row * shard_size) scratch ++ scratch_row ++
                     drop ((row + 1) * shard_size) scratch in
      parity_row ← idx parity row;
      if decide (scratch_row = parity_row)
      then verify_rows backend data parity shard_size rows scratch
      else mret (Mismatch (k + row), scratch)
  end.

Definition verify_with_backend (data parity : list (list byte)) (scratch : list byte)
    (backend : Backend) : outcome EcError (VerifyResult * list byte) :=
  shard_size ← check_stripe k m data parity;
  let required := saturating_mul m shard_size in
  _ ← guard_err (bool_decide (length scratch < required))
        (ScratchTooSmall required (length scratch));
  if decide (m = 0 \/ shard_size = 0) then mret (VerifyOk, scratch)
  else verify_rows backend data parity shard_size (seq 0 m) scratch.

Definition verify (p : Platform) (data parity : list (list byte)) (scratch : list byte) :=
  verify_with_backend data parity scratch (selected_backend p).

End codec.

(** ** Reconstruction *)

(** Rows [active_present] of the encoding matrix, in the fixed stack array *)
Definition copy_sub_matrix (k : nat) (encode_matrix : list byte) (active_present : list nat) :
    outcome EcError (list byte) :=
  foldM (fun sub_matrix '(row, shard_idx) =>
    src ← slice encode_matrix (shard_idx * k) (shard_idx * k + k);
    if decide (row * k + k <= length sub_matrix)
    then mret (take (row * k) sub_matrix ++ src ++ drop (row * k + k) sub_matrix)
    else Panic)
    (replicate (MAX_TOTAL_SHARDS * MAX_TOTAL_SHARDS) Byte.x00)
    (enumerate active_present).

(** [value] of one entry of the recovery matrix *)
Definition recovery_value (k : nat) (encode_matrix inv_matrix : list byte)
    (recover_index j : nat) : outcome EcError byte :=
  for_range 0 k Byte.x00 (fun value col =>
    a ← idx encode_matrix (recover_index * k + col);
    b ← idx inv_matrix (col * k + j);
    mret (byte.xor value (Gf.gf_mul a b))).

Definition build_recovery_matrix (k : nat) (encode_matrix inv_matrix : list byte)
    (recover_indices : list nat) : outcome EcError (list byte) :=
  foldM (fun recovery_matrix '(out_row, recover_index) =>
    for_range 0 k recovery_matrix (fun recovery_matrix j =>
      value ← recovery_value k encode_matrix inv_matrix recover_index j;
      upd recovery_matrix (out_row * k + j) value))
    (replicate (MAX_TOTAL_SHARDS * MAX_TOTAL_SHARDS) Byte.x00)
    (enumerate recover_indices).

Definition reconstruct_shards (backend : Backend) (k : nat) (encode_matrix : list byte)
    (present_indices : list nat) (present_data : list (list byte))
    (recover_indices : list nat) (outputs : list (list byte)) :
    outcome EcError (list (list byte)) :=
  active_present ← slice present_indices 0 k;
  active_data ← slice present_data 0 k;
  sub_matrix ← copy_sub_matrix k encode_matrix active_present;
  input ← slice sub_matrix 0 (k * k);
  output ← slice (replicate (MAX_TOTAL_SHARDS * MAX_TOTAL_SHARDS) Byte.x00) 0 (k * k);
  '(_, inv_matrix) ← map_err (fun _ => SingularMatrix) (invert_matrix input output k);
  recovery_matrix ← build_recovery_matrix k encode_matrix inv_matrix recover_indices;
  apply_matrix_rows backend k recovery_matrix active_data outputs.

(** The loop over [present_indices]: in range and strictly increasing *)
Definition check_present (total : nat) (present_indices : list nat) : outcome EcError () :=
  foldM (fun _ '(i, ix) =>
    _ ← guard_err (bool_decide (total <= ix)) (ShardIndexOutOfRange ix total);
    if decide (0 < i) then
      prev ← idx present_indices (i - 1);
      if decide (ix <= prev) then
        if decide (ix = prev) then Err (DuplicateShardIndex ix) else Err (UnsortedIndices i)
      else mret ()
    else mret ())
    () (enumerate present_indices).

(** [set & (1u64 << ix) != 0] and [set |= 1u64 << ix] *)
Definition bit_in (set : Z) (ix : nat) : bool :=
  negb (Z.land set (Z.shiftl 1 (Z.of_nat ix)) =? 0)%Z.
Definition bit_add (set : Z) (ix : nat) : Z := Z.lor set (Z.shiftl 1 (Z.of_nat ix)).

(** The loop over [recover_indices]: in range, absent, no repetition *)
Definition check_recover (total : nat) (present_set : Z) (recover_indices : list nat) :
    outcome EcError Z :=
  foldM (fun recover_set ix =>
    _ ← guard_err (bool_decide (total <= ix)) (ShardIndexOutOfRange ix total);
    _ ← guard_err (bit_in present_set ix) (OverlappingIndices ix);
    _ ← guard_err (bit_in recover_set ix) (DuplicateRecoverIndex ix);
    mret (bit_add recover_set ix)) 0%Z recover_indices.

Definition reconstruct_with_backend (self : ErasureCodec) (present_indices : list nat)
    (present_data : list (list byte)) (recover_indices : list nat)
    (outputs : list (list byte)) (backend : Backend) : outcome EcError (list (list byte)) :=
  let k := u8_usize (data_shards (config self)) in
  let m := u8_usize (parity_shards (config self)) in
  let total := k + m in
  _ ← guard_err (bool_decide (length present_indices ≠ length present_data))
        (ShardCount (length present_indices) (length present_data));
  _ ← guard_err (bool_decide (length recover_indices ≠ length outputs))
        (ShardCount (length recover_indices) (length outputs));
  _ ← guard_err (bool_decide (length present_indices < k))
        (InsufficientShards k (length present_indices));
  _ ← check_present total present_indices;
  let present_set := foldl bit_add 0%Z present_indices in
  _ ← check_recover total present_set recover_indices;
  present0 ← idx present_data 0;
  let shard_size := length present0 in
  _ ← check_shard_size shard_size;
  _ ← check_sizes (fun i => idx present_indices i) shard_size 1 present_data;
  _ ← check_sizes (fun i => idx recover_indices i) shard_size 0 outputs;
  if decide (recover_indices = [] \/ shard_size = 0) then mret outputs
  else reconstruct_shards backend k (encode_matrix self)
         present_indices present_data recover_indices outputs.

Definition reconstruct (self : ErasureCodec) (p : Platform) (present_indices : list nat)
    (present_data : list (list byte)) (recover_indices : list nat)
    (outputs : list (list byte)) :=
  reconstruct_with_backend self present_indices present_data recover_indices outputs
    (selected_backend p).

(** ** Shape checks *)

Lemma check_sizes_wp index expected skip shards (R : EcError -> Prop) :
  (forall i s, shards !! i = Some s -> skip <= i -> length s ≠ expected ->
     wp (index i) (fun ix => R (ShardSizeMismatch ix expected (length s))) R) ->
  wp (check_sizes index expected skip shards)
    (fun _ => forall i s, skip <= i -> shards !! i = Some s -> length s = expected) R.
Proof.
  intros Hindex. unfold check_sizes.
  apply (wp_foldM (fun pre _ => forall i s, (i, s) ∈ pre -> length s = expected)).
  - by intros ? ? ?%not_elem_of_nil.
  - intros pre [i s] suf u Hl Hpre.
    assert (drop skip (enumerate shards) !! length pre = Some (i, s)) as Hlk
      by (rewrite Hl; by apply list_lookup_middle).
    rewrite lookup_drop in Hlk. apply enumerate_lookup in Hlk as [-> Hs].
    case_decide as Hlen.
    + apply wp_ret. intros i' s' [Hin|Heq%list_elem_of_singleton]%elem_of_app.
      * by apply (Hpre i').
      * by simplify_eq.
    + apply wp_bind. eapply wp_mono; [eapply Hindex; [done|lia|done]|done|done].
  - intros _ Hall i s Hi Hs. apply (Hall i). apply list_elem_of_lookup.
    exists (i - skip). rewrite lookup_drop.
    replace (skip + (i - skip)) with i by lia. by apply enumerate_lookup.
Qed.

Lemma check_sizes_Ok index expected skip shards :
  (forall i s, shards !! i = Some s -> length s = expected) ->
  check_sizes index expected skip shards = Ok ().
Proof.
  intros H. pose proof (check_sizes_wp index expected skip shards (fun _ => False)) as Hwp.
  destruct (check_sizes index expected skip shards) as [[]| |]; [done|..];
    exfalso; apply Hwp; intros i s Hs _ Hne; by destruct Hne; apply (H i).
Qed.

(** A valid configuration *)
Definition valid_config (c : EcConfig) : Prop :=
  0 < u8_usize (data_shards c) /\ total_shards c <= MAX_TOTAL_SHARDS.

Lemma u8_nonzero b : b ≠ Byte.x00 <-> 0 < u8_usize b.
Proof.
  split.
  - intros H. destruct (u8_usize b) eqn:Hb; [|lia]. by apply Gf.u8_usize_0 in Hb.
  - intros H ->. change (u8_usize Byte.x00) with 0 in H. lia.
Qed.

Lemma validate_parts_wp d p :
  wp (validate_parts d p) (fun _ => valid_config {| data_shards := d; parity_shards := p |})
    (fun e => ~ valid_config {| data_shards := d; parity_shards := p |} /\
       exists reason, e = InvalidConfig reason).
Proof.
  unfold validate_parts, valid_config, total_shards. simpl. apply wp_bind, wp_guard.
  - intros Hd%bool_decide_eq_false. apply wp_guard.
    + intros Ht%bool_decide_eq_false. apply u8_nonzero in Hd. lia.
    + intros Ht%bool_decide_eq_true. split; [lia|eauto].
  - intros ->%bool_decide_eq_true. change (u8_usize Byte.x00) with 0. split; [lia|eauto].
Qed.

Lemma check_stripe_wp k m data parity (R : EcError -> Prop) :
  0 < k -> (forall e, R e) ->
  wp (check_stripe k m data parity) (fun len =>
    shards k len data /\ shards m len parity /\ (Z.of_nat len <= I32_MAX)%Z) R.
Proof.
  intros Hk HR. unfold check_stripe.
  apply wp_bind, wp_guard; [|done]. intros Hd%bool_decide_eq_false%dec_stable.
  apply wp_bind, wp_guard; [|done]. intros Hp%bool_decide_eq_false%dec_stable.
  apply wp_bind, wp_idx; [lia|]. intros data0 H0.
  apply wp_bind, wp_guard; [|done]. intros Hmax%bool_decide_eq_false.
  apply wp_bind. eapply wp_mono; [apply (check_sizes_wp _ _ _ _ R); intros; apply wp_ret, HR| |done].
  intros u Hdata. apply wp_bind.
  eapply wp_mono; [apply (check_sizes_wp _ _ _ _ R); intros; apply wp_ret, HR| |done].
  intros u' Hparity. apply wp_ret. split; [split|split; [split|]].
  - done.
  - intros [|j] s Hs; [by simplify_eq|]. apply (Hdata (S j)); [lia|done].
  - done.
  - intros j s Hs. apply (Hparity j); [lia|done].
  - lia.
Qed.

Lemma check_stripe_Ok k m len data parity :
  0 < k -> shards k len data -> shards m len parity -> (Z.of_nat len <= I32_MAX)%Z ->
  check_stripe k m data parity = Ok len.
Proof.
  intros Hk Hd Hp Hlen. unfold check_stripe.
  destruct (shards_lookup k len data 0) as [_ H0]; [done..|].
  pose proof Hd as [Hdl Hdall]. pose proof Hp as [Hpl Hpall].
  rewrite !guard_err_false by (apply bool_decide_eq_false; intros Hn; by apply Hn).
  rewrite (shards_idx k len) by done. bind_step. rewrite H0. unfold check_shard_size.
  rewrite guard_err_false by (apply bool_decide_eq_false; lia).
  rewrite !check_sizes_Ok by done. done.
Qed.

(** ** A built codec *)

Definition ck (self : ErasureCodec) : nat := u8_usize (data_shards (config self)).
Definition cm (self : ErasureCodec) : nat := u8_usize (parity_shards (config self)).

(** What [ErasureCodec::new] establishes *)
Definition codec_ok (self : ErasureCodec) : Prop :=
  valid_config (config self) /\
  length (encode_matrix self) = (ck self + cm self) * ck self /\
  (forall r c, r < ck self + cm self -> c < ck self ->
     entry (ck self) (encode_matrix self) r c = cauchy_entry (ck self) r c) /\
  encode_tables self = build_mul_tables (drop (ck self * ck self) (encode_matrix self)) /\
  encode_tables_x86 self = build_nibble_tables (drop (ck self * ck self) (encode_matrix self)).

Lemma ErasureCodec_new_wp c :
  wp (ErasureCodec_new c) (fun self => config self = c /\ codec_ok self)
    (fun e => ~ valid_config c /\ exists reason, e = InvalidConfig reason).
Proof.
  unfold ErasureCodec_new, validate. apply wp_bind, wp_bind. destruct c as [d p].
  eapply wp_mono; [apply validate_parts_wp| |done]. simpl. intros _ Hv.
  set (k := u8_usize d) in *. set (m := u8_usize p) in *.
  eapply wp_bind_returns.
  { apply gen_cauchy1_matrix_spec; [by rewrite length_replicate|lia]. }
  intros mat [Hlen He]. apply wp_bind, wp_slice; [nia|lia|]. split; [done|].
  rewrite take_ge by (rewrite length_drop; lia). done.
Qed.

Lemma ErasureCodec_new_returns c :
  valid_config c -> returns (ErasureCodec_new c) (fun self => config self = c /\ codec_ok self).
Proof.
  intros Hv. pose proof (ErasureCodec_new_wp c) as H.
  destruct (ErasureCodec_new c); simpl in *; [done|by destruct H|done].
Qed.

(** Coefficient [j] of parity row [row] *)
Lemma parity_coeff self row j :
  codec_ok self -> row < cm self -> j < ck self ->
  bget (drop (ck self * ck self) (encode_matrix self)) (row * ck self + j) =
  cauchy_entry (ck self) (ck self + row) j.
Proof.
  intros (_ & Hlen & He & _) Hrow Hj. rewrite <-He by lia. unfold bget, entry.
  rewrite lookup_drop. do 2 f_equal. lia.
Qed.

Lemma length_parity_rows self :
  codec_ok self ->
  length (drop (ck self * ck self) (encode_matrix self)) = cm self * ck self.
Proof. intros (_ & Hlen & _). rewrite length_drop, Hlen. lia. Qed.

(** ** The reference code word *)

(** Shard [r] of the stripe that encodes [data] *)
Definition shard_ref (k len : nat) (data : list (list byte)) (r : nat) : list byte :=
  combination k len (cauchy_entry k r) data.

Definition parity_ref (k m len : nat) (data : list (list byte)) : list (list byte) :=
  (fun row => shard_ref k len data (k + row)) <$> seq 0 m.

Lemma shard_ref_data k len data r :
  shards k len data -> r < k -> shard_ref k len data r = nth r data [].
Proof.
  intros Hsh Hr. destruct (shards_lookup k len data r Hsh Hr) as [_ Hl].
  apply list_eq. intros b. unfold shard_ref, combination. rewrite list_lookup_fmap.
  destruct (decide (b < len)).
  - rewrite lookup_seq_lt, bget_lookup by lia. simpl. f_equal.
    etrans; [|exact (gsum_delta_l k r (fun j => byte_at data j b) Hr)].
    apply gsum_ext. intros j Hj. unfold cauchy_entry. by rewrite decide_True.
  - rewrite lookup_seq_ge, lookup_ge_None_2 by lia. done.
Qed.

Lemma length_shard_ref k len data r : length (shard_ref k len data r) = len.
Proof. unfold shard_ref, combination. by rewrite length_fmap, length_seq. Qed.

Lemma stripe_lookup k m len data r :
  shards k len data -> r < k + m ->
  (data ++ parity_ref k m len data) !! r = Some (shard_ref k len data r).
Proof.
  intros Hsh Hr. pose proof Hsh as [Hk _]. destruct (decide (r < k)).
  - rewrite lookup_app_l, shard_ref_data by (done || lia). by eapply shards_lookup.
  - rewrite lookup_app_r by lia. unfold parity_ref.
    rewrite list_lookup_fmap, lookup_seq_lt by lia. simpl. do 2 f_equal. lia.
Qed.

(** ** Encoding *)

Lemma encode_rows_spec {E} backend k len m coeffs data outputs :
  shards k len data -> shards m len outputs -> m * k <= length coeffs ->
  encode_rows (E:=E) backend k (build_mul_tables coeffs) (build_nibble_tables coeffs) data outputs =
  Ok (imap (fun row _ => combination k len (fun j => bget coeffs (row * k + j)) data) outputs).
Proof.
  intros Hd Ho Hc. destruct backend; simpl.
  - by apply (encode_rows_scalar_spec k len m).
  - apply (encode_rows_x86_spec 4 k len m); [lia|done..].
  - apply (encode_rows_x86_spec 2 k len m); [lia|done..].
Qed.

Lemma apply_matrix_rows_spec {E} backend k len m rows inputs outputs :
  k <= MAX_TOTAL_SHARDS -> shards k len inputs -> shards m len outputs -> m * k <= length rows ->
  apply_matrix_rows (E:=E) backend k rows inputs outputs =
  Ok (imap (fun row _ => combination k len (fun j => bget rows (row * k + j)) inputs) outputs).
Proof.
  intros Hk Hd Ho Hc. destruct backend; simpl.
  - by apply (apply_matrix_rows_scalar_spec k len m).
  - apply (apply_matrix_rows_x86_spec 4 k len m); [lia|done..].
  - apply (apply_matrix_rows_x86_spec 2 k len m); [lia|done..].
Qed.

Lemma imap_const_seq {A B} (f : nat -> B) (l : list A) :
  imap (fun i _ => f i) l = f <$> seq 0 (length l).
Proof.
  apply list_eq. intros i. rewrite list_lookup_imap, list_lookup_fmap.
  destruct (l !! i) eqn:Hi; simpl.
  - rewrite lookup_seq_lt by (by eapply lookup_lt_Some). done.
  - rewrite lookup_seq_ge by (by apply lookup_ge_None). done.
Qed.

Lemma encode_spec self backend len data parity :
  codec_ok self -> shards (ck self) len data -> shards (cm self) len parity ->
  (Z.of_nat len <= I32_MAX)%Z ->
  encode_with_backend self data parity backend = Ok (parity_ref (ck self) (cm self) len data).
Proof.
  intros Hok Hd Hp Hlen. pose proof Hok as ((Hk & _) & _ & _ & Ht & Hx).
  unfold encode_with_backend. fold (ck self) (cm self).
  rewrite (check_stripe_Ok _ _ len) by done. bind_step. pose proof Hp as [Hpl Hpall].
  case_decide as Hz.
  - f_equal. unfold parity_ref. apply list_eq. intros i. rewrite list_lookup_fmap.
    destruct (decide (i < cm self)).
    + rewrite lookup_seq_lt by done. destruct (shards_lookup _ _ _ i Hp) as [-> Hl]; [done|].
      assert (len = 0) as -> by (destruct Hz; lia).
      simpl. f_equal. by apply nil_length_inv.
    + rewrite lookup_seq_ge, lookup_ge_None_2 by lia. done.
  - rewrite Ht, Hx, (encode_rows_spec _ _ len (cm self))
      by (done || (rewrite length_parity_rows by done; lia)). f_equal.
    rewrite (imap_const_seq (fun row => combination (ck self) len (fun j =>
      bget (drop (ck self * ck self) (encode_matrix self)) (row * ck self + j)) data)), Hpl.
    apply list_fmap_ext. intros i row [-> Hi]%lookup_seq. apply combination_ext.
    intros j Hj. by rewrite parity_coeff.
Qed.

(** An accepted stripe has the shape [encode] needs, whatever was passed. *)
Lemma encode_wp self backend data parity :
  codec_ok self ->
  wp (encode_with_backend self data parity backend)
    (fun parity' => exists len, shards (ck self) len data /\ shards (cm self) len parity /\
       (Z.of_nat len <= I32_MAX)%Z /\ parity' = parity_ref (ck self) (cm self) len data)
    (fun _ => forall len, ~ (shards (ck self) len data /\ shards (cm self) len parity /\
       (Z.of_nat len <= I32_MAX)%Z)).
Proof.
  intros Hok. pose proof Hok as ((Hk & _) & _).
  pose proof (check_stripe_wp (ck self) (cm self) data parity (fun _ => True) Hk ltac:(done)) as Hc.
  destruct (check_stripe (ck self) (cm self) data parity) as [len|e|] eqn:Hs; [| |done].
  - simpl in Hc. destruct Hc as (Hd & Hp & Hmax). rewrite (encode_spec _ _ len) by done.
    by exists len.
  - unfold encode_with_backend. fold (ck self) (cm self). rewrite Hs. simpl.
    intros len (Hd & Hp & Hmax). by rewrite (check_stripe_Ok _ _ len) in Hs.
Qed.

(** ** Verification *)

(** The tables of one row are a slice of the tables of all rows. *)
Lemma mul_tables_row k row coeffs :
  take (k * 256) (drop (row * k * 256) (build_mul_tables coeffs)) =
  build_mul_tables (take k (drop (row * k) coeffs)).
Proof.
  unfold build_mul_tables. by rewrite (drop_bind_blocks 256), (take_bind_blocks 256) by apply Gf.length_gf_mul_table.
Qed.

Lemma nibble_tables_row k row coeffs :
  take (k * 32) (drop (row * k * 32) (build_nibble_tables coeffs)) =
  build_nibble_tables (take k (drop (row * k) coeffs)).
Proof.
  unfold build_nibble_tables. by rewrite (drop_bind_blocks 32), (take_bind_blocks 32) by apply length_build_nibble_table.
Qed.

(** Encoding one row into one output buffer *)
Lemma encode_one_row {E} self backend len data row (out : list byte) :
  codec_ok self -> shards (ck self) len data -> row < cm self -> length out = len ->
  encode_rows (E:=E) backend (ck self)
    (build_mul_tables (take (ck self) (drop (row * ck self)
       (drop (ck self * ck self) (encode_matrix self)))))
    (build_nibble_tables (take (ck self) (drop (row * ck self)
       (drop (ck self * ck self) (encode_matrix self)))))
    data [out] = Ok [shard_ref (ck self) len data (ck self + row)].
Proof.
  intros Hok Hd Hrow Hout.
  assert (row * ck self + ck self <= cm self * ck self) by nia.
  rewrite (encode_rows_spec _ _ len 1).
  - simpl. do 2 f_equal. apply combination_ext. intros j Hj.
    rewrite <-parity_coeff by done. unfold bget. by rewrite lookup_take_lt, lookup_drop by lia.
  - done.
  - split; [done|]. by intros [|j] s Hs; simplify_eq/=.
  - rewrite length_take, length_drop, length_parity_rows by done. lia.
Qed.

(** What the row loop reports from row [m - n] on *)
Definition verified (k len : nat) (data parity : list (list byte)) (from m : nat)
    (r : VerifyResult) : Prop :=
  match r with
  | VerifyOk => forall row, from <= row < m ->
      parity !! row = Some (shard_ref k len data (k + row))
  | Mismatch i => exists row, i = k + row /\ from <= row < m /\
      parity !! row ≠ Some (shard_ref k len data (k + row)) /\
      forall row', from <= row' < row -> parity !! row' = Some (shard_ref k len data (k + row'))
  end.

Lemma length_splice {A} (l x : list A) a b :
  a <= b -> b <= length l -> length x = b - a -> length (take a l ++ x ++ drop b l) = length l.
Proof. intros. rewrite !length_app, length_take, length_drop. lia. Qed.

Lemma verify_rows_spec self backend len data parity n : forall from scratch,
  codec_ok self -> shards (ck self) len data -> shards (cm self) len parity ->
  from + n = cm self -> cm self * len <= length scratch ->
  returns (verify_rows self backend data parity len (seq from n) scratch)
    (fun '(r, scratch') => verified (ck self) len data parity from (cm self) r /\
       length scratch' = length scratch).
Proof.
  induction n as [|n IH]; intros from scratch Hok Hd Hp Hn Hs.
  { simpl. split; [|done]. intros row Hrow. lia. }
  cbn [seq verify_rows]. fold (ck self).
  assert ((from + 1) * len <= length scratch) by nia.
  assert ((from + 1) * ck self <= cm self * ck self) by nia.
  pose proof (length_parity_rows self Hok) as Hrows.
  pose proof Hok as (_ & _ & _ & Ht & Hx). rewrite Ht, Hx.
  rewrite (slice_Ok scratch) by lia. bind_step.
  rewrite (slice_Ok (build_mul_tables _)) by (rewrite ?length_mul_tables; lia). bind_step.
  rewrite (slice_Ok (build_nibble_tables _)) by (rewrite ?length_nibble_tables; lia). bind_step.
  replace (from * ck self * 256 + ck self * 256 - from * ck self * 256) with (ck self * 256) by lia.
  replace (from * ck self * 32 + ck self * 32 - from * ck self * 32) with (ck self * 32) by lia.
  rewrite mul_tables_row, nibble_tables_row.
  rewrite (encode_one_row self backend len)
    by (done || lia || (rewrite length_take, length_drop; lia)).
  bind_step. cbn [idx lookup list_lookup unwrap]. bind_step.
  rewrite (shards_idx (cm self) len) by (done || lia). bind_step.
  destruct (shards_lookup (cm self) len parity from) as [Hlk _]; [done|lia|].
  case_decide as Heq.
  - eapply returns_mono; [apply IH; [done..|lia|]|].
    + rewrite length_splice by (rewrite ?length_shard_ref; lia). lia.
    + intros [r scratch'] [Hr Hl].
      rewrite length_splice in Hl by (rewrite ?length_shard_ref; lia). split; [|done].
      assert (parity !! from = Some (shard_ref (ck self) len data (ck self + from))) as Hfrom
        by (by rewrite Hlk, Heq).
      destruct r as [|i]; simpl in *.
      * intros row Hrow. destruct (decide (row = from)) as [->|]; [done|]. apply Hr. lia.
      * destruct Hr as (row & -> & Hrow & Hne & Hbefore). exists row.
        split; [done|]. split; [lia|]. split; [done|]. intros row' Hrow'.
        destruct (decide (row' = from)) as [->|]; [done|]. apply Hbefore. lia.
  - split; [|apply length_splice; rewrite ?length_shard_ref; lia].
    exists from. split; [done|]. split; [lia|]. split; [|lia].
    rewrite Hlk. intros [= E]. by rewrite E in Heq.
Qed.

Lemma saturating_mul_exact a b :
  a <= MAX_TOTAL_SHARDS -> (Z.of_nat b <= I32_MAX)%Z -> saturating_mul a b = a * b.
Proof.
  unfold saturating_mul, MAX_TOTAL_SHARDS, I32_MAX, USIZE_MAX. intros.
  rewrite decide_True; [done|nia].
Qed.

Lemma empty_rows_verified k m data parity :
  shards m 0 parity -> verified k 0 data parity 0 m VerifyOk.
Proof.
  intros Hp row Hrow. destruct (shards_lookup m 0 parity row) as [-> Hl]; [done|lia|].
  f_equal. by apply nil_length_inv.
Qed.

Definition stripe_shape (self : ErasureCodec) (len : nat) (data parity : list (list byte)) : Prop :=
  shards (ck self) len data /\ shards (cm self) len parity /\ (Z.of_nat len <= I32_MAX)%Z.

Lemma verify_spec self backend len data parity scratch :
  codec_ok self -> stripe_shape self len data parity -> cm self * len <= length scratch ->
  returns (verify_with_backend self data parity scratch backend)
    (fun '(r, scratch') => verified (ck self) len data parity 0 (cm self) r /\
       length scratch' = length scratch).
Proof.
  intros Hok (Hd & Hp & Hmax) Hs. pose proof Hok as ((Hk & Ht) & _). fold (ck self) in Hk.
  unfold verify_with_backend. fold (ck self) (cm self).
  rewrite (check_stripe_Ok _ _ len) by done. bind_step.
  rewrite saturating_mul_exact by (unfold total_shards, cm in *; lia).
  rewrite guard_err_false by (apply bool_decide_eq_false; lia).
  case_decide as Hz; [|by apply verify_rows_spec].
  split; [|done]. destruct Hz as [->| ->]; [intros row Hrow; lia|by apply empty_rows_verified].
Qed.

Lemma verify_err self backend data parity scratch e :
  codec_ok self -> verify_with_backend self data parity scratch backend = Err e ->
  forall len, stripe_shape self len data parity -> length scratch < cm self * len.
Proof.
  intros Hok He len Hsh. destruct (decide (length scratch < cm self * len)) as [|Hge]; [done|].
  pose proof (verify_spec self backend len data parity scratch Hok Hsh ltac:(lia)) as Hv.
  by rewrite He in Hv.
Qed.

(** Every argument is answered: [Ok] on a stripe of the right shape with enough
    scratch space, and an error otherwise. *)
Lemma verify_wp self backend data parity scratch :
  codec_ok self ->
  wp (verify_with_backend self data parity scratch backend)
    (fun '(r, _) => exists len, stripe_shape self len data parity /\
       cm self * len <= length scratch /\ verified (ck self) len data parity 0 (cm self) r)
    (fun _ => forall len, stripe_shape self len data parity -> length scratch < cm self * len).
Proof.
  intros Hok. pose proof Hok as ((Hk & Ht) & _). fold (ck self) in Hk.
  destruct (verify_with_backend self data parity scratch backend) as [[r s]|e|] eqn:Hv.
  - pose proof Hv as Hv'. unfold verify_with_backend in Hv'. fold (ck self) (cm self) in Hv'.
    apply bind_Ok in Hv' as (len & Hc & Hv'). apply bind_Ok in Hv' as ([] & Hg & _).
    pose proof (check_stripe_wp (ck self) (cm self) data parity (fun _ => True) Hk ltac:(done)) as Hsh.
    rewrite Hc in Hsh. simpl in Hsh.
    apply guard_err_Ok, bool_decide_eq_false in Hg.
    rewrite saturating_mul_exact in Hg by (unfold total_shards, cm in *; tauto || lia).
    exists len. split; [exact Hsh|]. split; [lia|].
    pose proof (verify_spec self backend len data parity scratch Hok Hsh ltac:(lia)) as Hr.
    rewrite Hv in Hr. by destruct Hr.
  - intros len. by apply (verify_err self backend data parity scratch e).
  - revert Hv. unfold verify_with_backend. fold (ck self) (cm self).
    pose proof (check_stripe_wp (ck self) (cm self) data parity (fun _ => True) Hk ltac:(done)) as Hsh.
    destruct (check_stripe _ _ _ _) as [len| |] eqn:Hc; [|done..].
    intros Hv. simpl in Hsh.
    assert (cm self * len <= length scratch) as Hs.
    { revert Hv. bind_step. rewrite saturating_mul_exact by (unfold total_shards, cm in *; tauto || lia).
      unfold guard_err. case_bool_decide; [done|lia]. }
    pose proof (verify_spec self backend len data parity scratch Hok Hsh Hs) as Hr.
    revert Hr. unfold verify_with_backend. fold (ck self) (cm self). by rewrite Hc, Hv.
Qed.

(** ** Index sets *)

(** In range and strictly increasing *)
Definition ascending (total : nat) (l : list nat) : Prop :=
  (forall x, x ∈ l -> x < total) /\
  (forall i x y, l !! i = Some x -> l !! S i = Some y -> x < y).

Lemma ascending_lookup total l : ascending total l ->
  forall i j x y, l !! i = Some x -> l !! j = Some y -> i < j -> x < y.
Proof.
  intros [_ Hstep] i j x y Hx. revert y. induction j as [|j IH]; intros y Hy Hij; [lia|].
  destruct (decide (i = j)) as [->|]; [by eapply Hstep|].
  destruct (lookup_lt_is_Some_2 l j) as [z Hz]; [by apply lookup_lt_Some in Hy; lia|].
  specialize (IH z Hz ltac:(lia)). specialize (Hstep j z y Hz Hy). lia.
Qed.

Lemma ascending_NoDup total l : ascending total l -> NoDup l.
Proof.
  intros Ha. apply list.NoDup_alt. intros i j x Hi Hj.
  destruct (Nat.lt_total i j) as [H|[H|H]]; [|done|];
    [pose proof (ascending_lookup _ _ Ha i j x x Hi Hj H)
    |pose proof (ascending_lookup _ _ Ha j i x x Hj Hi H)]; lia.
Qed.

Lemma check_present_wp total l :
  wp (check_present total l) (fun _ => ascending total l)
    (fun e => e ≠ SingularMatrix /\ ~ ascending total l).
Proof.
  unfold check_present.
  apply (wp_foldM (fun pre _ => forall i x, (i, x) ∈ pre -> x < total /\
    forall y, 0 < i -> l !! (i - 1) = Some y -> y < x)).
  - by intros ? ? ?%not_elem_of_nil.
  - intros pre [i x] suf u Hl Hpre.
    assert (enumerate l !! length pre = Some (i, x)) as [-> Hx]%enumerate_lookup
      by (rewrite Hl; by apply list_lookup_middle).
    set (i := length pre) in *. apply wp_bind, wp_guard.
    + intros Hlt%bool_decide_eq_false.
      assert ((forall y, 0 < i -> l !! (i - 1) = Some y -> y < x) ->
        forall i' x', (i', x') ∈ pre ++ [(i, x)] -> x' < total /\
          forall y, 0 < i' -> l !! (i' - 1) = Some y -> y < x') as Hnext.
      { intros Hy i' x' [Hin|Heq%list_elem_of_singleton]%elem_of_app; [by apply Hpre|].
        simplify_eq. split; [lia|done]. }
      case_decide as Hi; [|apply wp_ret, Hnext; intros; lia].
      apply wp_bind, wp_idx; [apply lookup_lt_Some in Hx; lia|]. intros y Hy.
      assert (x <= y -> ~ ascending total l) as Hbad.
      { intros Hle [_ Ha]. specialize (Ha (i - 1) y x Hy).
        replace (S (i - 1)) with i in Ha by lia. specialize (Ha Hx). lia. }
      case_decide; [case_decide; (split; [done|by apply Hbad])|].
      apply wp_ret, Hnext. intros y' _ Hy'. simplify_eq. lia.
    + intros Hge%bool_decide_eq_true. split; [done|]. intros [Ha _].
      specialize (Ha x (list_elem_of_lookup_2 _ _ _ Hx)). lia.
  - intros _ Hall.
    assert (forall i x, l !! i = Some x -> (i, x) ∈ enumerate l) as Hin.
    { intros i x Hx. apply list_elem_of_lookup. exists i. by apply enumerate_lookup. }
    split.
    + intros x [i Hx]%list_elem_of_lookup. by apply (Hall i x), Hin.
    + intros i x y Hx Hy. apply (Hall (S i) y); [by apply Hin|lia|]. by replace (S i - 1) with i by lia.
Qed.

(** The 64-bit masks are sets. *)
Lemma bit_in_testbit s ix : bit_in s ix = Z.testbit s (Z.of_nat ix).
Proof.
  unfold bit_in. rewrite Z.shiftl_1_l.
  assert (Z.land s (2 ^ Z.of_nat ix) = if Z.testbit s (Z.of_nat ix) then 2 ^ Z.of_nat ix else 0)%Z
    as ->.
  { apply Z.bits_inj'. intros n Hn. rewrite Z.land_spec, Z.pow2_bits_eqb by lia.
    destruct (Z.eqb_spec (Z.of_nat ix) n) as [->|Hne].
    - destruct (Z.testbit s n); [by rewrite Z.pow2_bits_true by lia|by rewrite Z.bits_0].
    - rewrite andb_false_r. destruct (Z.testbit s _); [|by rewrite Z.bits_0].
      by rewrite Z.pow2_bits_false. }
  destruct (Z.testbit s _); [|done]. pose proof (Z.pow_pos_nonneg 2 (Z.of_nat ix)).
  destruct (Z.eqb_spec (2 ^ Z.of_nat ix) 0); [lia|done].
Qed.

Lemma bit_in_add s ix iy : bit_in (bit_add s ix) iy = bit_in s iy || bool_decide (ix = iy).
Proof.
  rewrite !bit_in_testbit. unfold bit_add.
  rewrite Z.lor_spec, Z.shiftl_1_l, Z.pow2_bits_eqb by lia. f_equal.
  destruct (Z.eqb_spec (Z.of_nat ix) (Z.of_nat iy)); case_bool_decide; lia || done.
Qed.

Lemma bit_in_foldl l s iy :
  bit_in (foldl bit_add s l) iy = bit_in s iy || bool_decide (iy ∈ l).
Proof.
  revert s; induction l as [|ix l IH]; intros s; simpl.
  - by rewrite orb_false_r.
  - rewrite IH, bit_in_add, <-orb_assoc. f_equal.
    destruct (decide (ix = iy)) as [->|Hne].
    + by rewrite (bool_decide_true (iy = iy)), (bool_decide_true (iy ∈ iy :: l)) by (done || left).
    + rewrite (bool_decide_false (ix = iy)) by done. simpl. apply bool_decide_ext.
      rewrite elem_of_cons. naive_solver.
Qed.

Definition recoverable (total : nat) (present recover : list nat) : Prop :=
  NoDup recover /\ forall x, x ∈ recover -> x < total /\ x ∉ present.

Lemma check_recover_wp total present l :
  wp (check_recover total (foldl bit_add 0%Z present) l) (fun _ => recoverable total present l)
    (fun e => e ≠ SingularMatrix /\ ~ recoverable total present l).
Proof.
  unfold check_recover.
  apply (wp_foldM (fun pre s => s = foldl bit_add 0%Z pre /\ recoverable total present pre)).
  - split; [done|]. split; [constructor|]. by intros x ?%not_elem_of_nil.
  - intros pre x suf s -> [-> [Hnd Hpre]].
    assert (x ∈ pre ++ x :: suf) as Hx by (rewrite elem_of_app, elem_of_cons; auto).
    apply wp_bind, wp_guard.
    2: { intros Hge%bool_decide_eq_true. split; [done|]. intros [_ Ha].
         destruct (Ha x Hx). lia. }
    intros Hlt%bool_decide_eq_false. apply wp_bind, wp_guard; rewrite bit_in_foldl.
    2: { intros Hin%orb_prop. split; [done|]. intros [_ Ha]. destruct (Ha x Hx) as [_ Hnp].
         destruct Hin as [Hin|Hin%bool_decide_eq_true]; [|done].
         by rewrite bit_in_testbit, Z.bits_0 in Hin. }
    intros [_ Hnp%bool_decide_eq_false]%orb_false_elim.
    apply wp_bind, wp_guard; rewrite bit_in_foldl.
    2: { intros Hin%orb_prop. split; [done|]. intros [Hd _].
         destruct Hin as [Hin|Hin%bool_decide_eq_true].
         { by rewrite bit_in_testbit, Z.bits_0 in Hin. }
         apply list.NoDup_app in Hd as (_ & Hd & _). apply (Hd x Hin). left. }
    intros [_ Hnr%bool_decide_eq_false]%orb_false_elim. apply wp_ret.
    split; [by rewrite foldl_app|]. split.
    + apply list.NoDup_app. split; [done|]. split; [|by apply list.NoDup_singleton].
      intros y Hy ->%list_elem_of_singleton. done.
    + intros y [Hy| ->%list_elem_of_singleton]%elem_of_app; [by apply Hpre|]. split; [lia|done].
  - by intros s [_ H].
Qed.

(** ** Reconstruction *)

Definition work_size : nat := MAX_TOTAL_SHARDS * MAX_TOTAL_SHARDS.

Lemma lookup_splice {A} (l x : list A) a b i :
  b = a + length x -> b <= length l ->
  (take a l ++ x ++ drop b l) !! i = if decide (a <= i < b) then x !! (i - a) else l !! i.
Proof.
  intros -> Hl. assert (length (take a l) = a) as Ha by (rewrite length_take; lia).
  case_decide as Hi.
  - rewrite lookup_app_r, lookup_app_l by lia. by rewrite Ha.
  - destruct (decide (i < a)).
    + rewrite lookup_app_l, lookup_take_lt by lia. done.
    + rewrite !lookup_app_r, lookup_drop by lia. f_equal. lia.
Qed.

Lemma copy_sub_matrix_spec self idxs :
  codec_ok self -> length idxs <= ck self -> (forall r, r ∈ idxs -> r < ck self + cm self) ->
  returns (copy_sub_matrix (ck self) (encode_matrix self) idxs) (fun sub =>
    length sub = work_size /\
    forall i c r, idxs !! i = Some r -> c < ck self ->
      bget sub (i * ck self + c) = cauchy_entry (ck self) r c).
Proof.
  intros Hok Hlen Hidx. pose proof Hok as ((Hk & Ht) & Hml & He & _).
  set (k := ck self) in *. change (u8_usize (data_shards (config self))) with k in Hk.
  assert (k <= MAX_TOTAL_SHARDS) as Hk32 by (unfold total_shards, k, ck in *; lia).
  unfold copy_sub_matrix.
  apply (wp_foldM (fun pre sub => length sub = work_size /\ forall i c r, i < length pre ->
    idxs !! i = Some r -> c < k -> bget sub (i * k + c) = cauchy_entry k r c)).
  - split; [by rewrite length_replicate|]. simpl. lia.
  - intros pre [i r] suf sub Hl [Hsub Hpre].
    assert (enumerate idxs !! length pre = Some (i, r)) as [-> Hr]%enumerate_lookup
      by (rewrite Hl; by apply list_lookup_middle).
    set (i := length pre) in *. pose proof (lookup_lt_Some _ _ _ Hr) as Hi.
    pose proof (Hidx r (list_elem_of_lookup_2 _ _ _ Hr)) as Hrt.
    assert (r * k + k <= (k + cm self) * k) by nia.
    assert (i * k + k <= work_size) by (unfold work_size; nia).
    apply wp_bind, wp_slice; [lia|lia|]. rewrite decide_True by lia. apply wp_ret.
    set (src := take (r * k + k - r * k) _).
    assert (length src = k) as Hsrc by (unfold src; rewrite length_take, length_drop; lia).
    split; [rewrite length_splice; lia|].
    intros i' c r' Hi' Hr' Hc. unfold bget. rewrite lookup_splice by lia.
    rewrite length_app in Hi'. simpl in Hi'. case_decide as Hin.
    + assert (i' = i) as -> by nia. simplify_eq. unfold src.
      rewrite lookup_take_lt, lookup_drop by lia. rewrite <-He by lia.
      unfold entry. do 2 f_equal. lia.
    + apply Hpre; [|done|done]. destruct (decide (i' = i)) as [->|]; [nia|lia].
  - intros sub [Hsub Hall]. split; [done|]. intros i c r Hi. apply Hall; [|done].
    unfold enumerate. rewrite length_imap. by eapply lookup_lt_Some.
Qed.

Lemma recovery_value_spec self inv r j :
  codec_ok self -> square (ck self) inv -> r < ck self + cm self -> j < ck self ->
  recovery_value (ck self) (encode_matrix self) inv r j =
  Ok (mprod (ck self) (cauchy_entry (ck self)) (entry (ck self) inv) r j).
Proof.
  intros (_ & Hml & He & _) Hinv Hr Hj. unfold recovery_value.
  enough (returns (for_range 0 (ck self) Byte.x00 (fun value col =>
    a ← idx (encode_matrix self) (r * ck self + col);
    b ← idx inv (col * ck self + j);
    mret (byte.xor value (Gf.gf_mul a b))) : outcome EcError byte)
    (fun v => v = mprod (ck self) (cauchy_entry (ck self)) (entry (ck self) inv) r j))
    as (v & Hv & ->)%returns_Ok by done.
  apply (wp_for_range (fun n v => v = gsum n (fun l =>
    (cauchy_entry (ck self) r l * entry (ck self) inv l j)%gf))); [lia|done| |done].
  intros col v Hcol ->. apply wp_bind.
  apply (wp_entry_idx (ck self + cm self)); [done|lia|lia|].
  apply wp_bind, (wp_entry_idx (ck self)); [done|lia|lia|]. apply wp_ret.
  rewrite He by lia. by rewrite Nat.add_1_r.
Qed.

Lemma bget_insert l i j v :
  i < length l -> bget (<[i:=v]> l) j = if decide (j = i) then v else bget l j.
Proof.
  intros Hi. unfold bget. case_decide as Hj.
  - subst j. by rewrite list_lookup_insert_eq.
  - by rewrite list_lookup_insert_ne.
Qed.

Lemma build_recovery_matrix_spec self inv recover :
  codec_ok self -> square (ck self) inv -> length recover <= MAX_TOTAL_SHARDS ->
  (forall r, r ∈ recover -> r < ck self + cm self) ->
  returns (build_recovery_matrix (ck self) (encode_matrix self) inv recover) (fun rm =>
    length rm = work_size /\
    forall i j r, recover !! i = Some r -> j < ck self ->
      bget rm (i * ck self + j) =
      mprod (ck self) (cauchy_entry (ck self)) (entry (ck self) inv) r j).
Proof.
  intros Hok Hinv Hlen Hrec. pose proof Hok as ((Hk & Ht) & _).
  set (k := ck self) in *. change (u8_usize (data_shards (config self))) with k in Hk.
  assert (k <= MAX_TOTAL_SHARDS) as Hk32 by (unfold total_shards, k, ck in *; lia).
  set (V := mprod k (cauchy_entry k) (entry k inv)). unfold build_recovery_matrix.
  apply (wp_foldM (fun pre rm => length rm = work_size /\ forall i j r, i < length pre ->
    recover !! i = Some r -> j < k -> bget rm (i * k + j) = V r j)).
  - split; [by rewrite length_replicate|]. simpl. lia.
  - intros pre [i r] suf rm Hl [Hrm Hpre].
    assert (enumerate recover !! length pre = Some (i, r)) as [-> Hr]%enumerate_lookup
      by (rewrite Hl; by apply list_lookup_middle).
    set (i := length pre) in *. pose proof (lookup_lt_Some _ _ _ Hr) as Hi.
    pose proof (Hrec r (list_elem_of_lookup_2 _ _ _ Hr)) as Hrt.
    assert (i * k + k <= work_size) by (unfold work_size; nia).
    apply (wp_for_range (fun n rm => length rm = work_size /\ forall i' j r',
      recover !! i' = Some r' -> j < k -> i' < i \/ i' = i /\ j < n ->
      bget rm (i' * k + j) = V r' j)); [lia| | |].
    + split; [done|]. intros i' j r' Hr' Hj [?|?]; [by apply Hpre|lia].
    + intros j rm' Hj [Hrm' Hinner]. rewrite (recovery_value_spec self) by (done || lia).
      bind_step. apply wp_upd; [lia|]. split; [by rewrite length_insert|].
      intros i' j' r' Hr' Hj' Hcase. rewrite bget_insert by lia. case_decide as Heq.
      * apply flat_inj in Heq as [-> ->]; [|done|lia]. by simplify_eq.
      * apply Hinner; [done..|]. destruct Hcase as [?|[-> ?]]; [by left|].
        right. split; [done|]. assert (j' ≠ j) by (by intros ->). lia.
    + intros rm' [Hrm' Hinner]. split; [done|]. intros i' j r' Hi' Hr' Hj.
      rewrite length_app in Hi'. simpl in Hi'. apply Hinner; [done..|]. lia.
  - intros rm [Hrm Hall]. split; [done|]. intros i j r Hi. apply Hall; [|done].
    unfold enumerate. rewrite length_imap. by eapply lookup_lt_Some.
Qed.

Lemma lookup_nth {A} (l : list A) i d : i < length l -> l !! i = Some (nth i l d).
Proof. intros [x Hx]%lookup_lt_is_Some_2. by rewrite (nth_lookup_Some _ _ _ _ Hx). Qed.

Lemma NoDup_bounded (l : list nat) n : NoDup l -> (forall x, x ∈ l -> x < n) -> length l <= n.
Proof.
  intros Hnd Hlt. rewrite <-(length_seq n 0). apply submseteq_length, NoDup_submseteq; [done|].
  intros x Hx. apply elem_of_seq. specialize (Hlt x Hx). lia.
Qed.

(** The sub-matrix is the rows of the present shards, and is invertible. *)
Lemma sub_matrix_kernel self idxs sub :
  codec_ok self -> length idxs = ck self -> ascending (ck self + cm self) idxs ->
  (forall i c r, idxs !! i = Some r -> c < ck self ->
     bget sub (i * ck self + c) = cauchy_entry (ck self) r c) ->
  (forall i j, i < ck self -> j < ck self ->
     entry (ck self) (take (ck self * ck self) sub) i j =
     cauchy_entry (ck self) (nth i idxs 0) j) /\
  trivial_kernel (ck self) (entry (ck self) (take (ck self * ck self) sub)).
Proof.
  intros Hok Hlen Hasc Hsub. pose proof Hok as ((Hk & Ht) & _).
  unfold total_shards, MAX_TOTAL_SHARDS in Ht. fold (ck self) (cm self) in Ht.
  assert (forall i j, i < ck self -> j < ck self ->
    entry (ck self) (take (ck self * ck self) sub) i j =
    cauchy_entry (ck self) (nth i idxs 0) j) as Hent.
  { intros i j Hi Hj. unfold entry. rewrite lookup_take_lt by nia.
    apply (Hsub i j (nth i idxs 0)); [|done]. apply lookup_nth. lia. }
  split; [done|].
  apply (trivial_kernel_ext _ (fun i j => cauchy_entry (ck self) (nth i idxs 0) j));
    [by intros; rewrite Hent|].
  apply cauchy_rows_kernel; [by eapply ascending_NoDup|done| |lia].
  intros r Hr. destruct Hasc as [Hr' _]. specialize (Hr' r Hr). lia.
Qed.

(** Multiplying by the recovery matrix gives back the shards. *)
Lemma recovered_row k len A inv data inputs r :
  (forall i j, i < k -> j < k -> mprod k inv A i j = delta i j) ->
  (forall i b, i < k -> b < len ->
     byte_at inputs i b = dot k A i (fun c => byte_at data c b)) ->
  combination k len (mprod k (cauchy_entry k) inv r) inputs = shard_ref k len data r.
Proof.
  intros Hinv Hin. apply list_fmap_ext. intros b b' [-> Hb]%lookup_seq. rewrite Nat.add_0_l.
  change (dot k (mprod k (cauchy_entry k) inv) r (fun j => byte_at inputs j b) =
          dot k (cauchy_entry k) r (fun j => byte_at data j b)).
  rewrite dot_mprod. apply dot_ext; [done|]. intros j Hj.
  rewrite <-(left_inverse_dot k A inv (fun c => byte_at data c b) j Hj Hinv).
  apply dot_ext; [done|]. intros i Hi. by apply Hin.
Qed.

Lemma shard_ref_byte k len data r b :
  b < len -> bget (shard_ref k len data r) b = dot k (cauchy_entry k) r (fun c => byte_at data c b).
Proof.
  intros Hb. unfold bget, shard_ref, combination.
  by rewrite list_lookup_fmap, lookup_seq_lt by done.
Qed.

(** The buffers [present_data] hold the shards of [data] at [present_indices]. *)
Definition holds (k len : nat) (data : list (list byte)) (indices : list nat)
    (buffers : list (list byte)) : Prop :=
  forall i r, indices !! i = Some r -> buffers !! i = Some (shard_ref k len data r).

Lemma reconstruct_shards_spec self backend len present inputs recover outputs :
  codec_ok self -> ascending (ck self + cm self) present -> ck self <= length present ->
  shards (length present) len inputs ->
  NoDup recover -> (forall r, r ∈ recover -> r < ck self + cm self) ->
  shards (length recover) len outputs ->
  returns (reconstruct_shards backend (ck self) (encode_matrix self) present inputs recover outputs)
    (fun out => forall data, shards (ck self) len data -> holds (ck self) len data present inputs ->
       out = shard_ref (ck self) len data <$> recover).
Proof.
  intros Hok Hasc Hge Hin Hnd Hrec Hout. pose proof Hok as ((Hk & Ht) & _).
  unfold total_shards in Ht. fold (ck self) (cm self) in Ht, Hk. set (k := ck self) in *.
  assert (k * k <= work_size) by (unfold work_size; nia).
  assert (length recover <= MAX_TOTAL_SHARDS) as Hrl.
  { pose proof (NoDup_bounded _ _ Hnd Hrec). lia. }
  pose proof Hin as [Hinl Hinall]. unfold reconstruct_shards.
  rewrite !slice_Ok by (rewrite ?length_replicate; unfold work_size in *; lia). bind_step.
  rewrite !drop_0, !Nat.sub_0_r. set (active := take k present). set (adata := take k inputs).
  assert (length active = k) as Hal by (unfold active; rewrite length_take; lia).
  assert (ascending (k + cm self) active) as Hasc'.
  { destruct Hasc as [Ha Hb]. split.
    - intros x (i & Hx & _)%elem_of_take. apply Ha. by eapply list_elem_of_lookup_2.
    - intros i x y Hx Hy. apply lookup_take_Some in Hx as [Hx _], Hy as [Hy _]. by eapply Hb. }
  eapply wp_bind_returns; [apply copy_sub_matrix_spec; [done|lia|apply Hasc']|].
  intros sub [Hsubl Hsub]. rewrite slice_Ok by lia. bind_step. rewrite drop_0, Nat.sub_0_r.
  destruct (sub_matrix_kernel self active sub Hok Hal Hasc' Hsub) as [Hent Hker]. fold k in Hent, Hker.
  pose proof (invert_matrix_spec k (take (k * k) sub) (take (k * k) (replicate work_size Byte.x00))
    ltac:(unfold square; rewrite length_take; lia)
    ltac:(unfold square; rewrite length_take, length_replicate; lia)) as Hinv.
  change (replicate (MAX_TOTAL_SHARDS * MAX_TOTAL_SHARDS) Byte.x00)
    with (replicate work_size Byte.x00).
  destruct (invert_matrix _ _ k) as [[tmp inv]| |]; [|by destruct Hinv|done].
  destruct Hinv as [Hsq Hleft]. cbn [map_err]. bind_step.
  eapply wp_bind_returns; [by apply build_recovery_matrix_spec|]. fold k.
  intros rm [Hrml Hrm].
  rewrite (apply_matrix_rows_spec _ _ len (length recover));
    [|lia| |done|rewrite Hrml; unfold work_size; nia].
  2: { split; [unfold adata; rewrite length_take; lia|].
       intros j s [Hs _]%lookup_take_Some. by eapply Hinall. }
  intros data Hd Hholds. apply list_eq. intros i.
  rewrite list_lookup_imap, list_lookup_fmap. destruct Hout as [Houtl _].
  destruct (recover !! i) as [r|] eqn:Hr.
  - destruct (lookup_lt_is_Some_2 outputs i) as [o ->];
      [by rewrite Houtl; eapply lookup_lt_Some|]. simpl. f_equal.
    rewrite <-(recovered_row k len (entry k (take (k * k) sub)) (entry k inv) data adata r Hleft).
    + apply combination_ext. intros j Hj. by rewrite Hrm with (r := r).
    + intros l b Hl Hb. unfold byte_at.
      assert (active !! l = Some (nth l active 0)) as Hlk by (apply lookup_nth; lia).
      apply lookup_take_Some in Hlk as [Hlk _]. apply Hholds in Hlk.
      rewrite (nth_lookup_Some adata l [] (shard_ref k len data (nth l active 0)))
        by (unfold adata; by rewrite lookup_take_lt).
      rewrite shard_ref_byte by done. apply gsum_ext. intros c Hc. by rewrite Hent.
  - rewrite (proj2 (lookup_ge_None outputs i)); [done|].
    rewrite Houtl. by apply lookup_ge_None.
Qed.

(** A request that [reconstruct] can serve *)
Record request_ok (k m len : nat) (present : list nat)
    (inputs : list (list byte)) (recover : list nat) (outputs : list (list byte)) : Prop := {
  ro_present : ascending (k + m) present;
  ro_enough : k <= length present;
  ro_inputs : shards (length present) len inputs;
  ro_recover : recoverable (k + m) present recover;
  ro_outputs : shards (length recover) len outputs;
  ro_size : (Z.of_nat len <= I32_MAX)%Z
}.

Definition refused (self : ErasureCodec) (present : list nat) (inputs : list (list byte))
    (recover : list nat) (outputs : list (list byte)) (e : EcError) : Prop :=
  e ≠ SingularMatrix /\ forall len, ~ request_ok (ck self) (cm self) len present inputs recover outputs.

Lemma check_sizes_indices indices expected skip bufs (R : EcError -> Prop) :
  length bufs = length indices ->
  (forall ix i s, bufs !! i = Some s -> skip <= i -> length s ≠ expected ->
     R (ShardSizeMismatch ix expected (length s))) ->
  wp (check_sizes (fun i => idx indices i) expected skip bufs)
    (fun _ => forall i s, skip <= i -> bufs !! i = Some s -> length s = expected) R.
Proof.
  intros Hl HR. apply check_sizes_wp. intros i s Hs Hi Hne.
  apply wp_idx; [rewrite <-Hl; by eapply lookup_lt_Some|]. intros ix _. by eapply HR.
Qed.

(** What follows the checks, on a request that passed them *)
Lemma reconstruct_serve self backend len present inputs recover outputs :
  codec_ok self -> request_ok (ck self) (cm self) len present inputs recover outputs ->
  returns (if decide (recover = [] \/ len = 0) then mret outputs
           else reconstruct_shards backend (ck self) (encode_matrix self)
                  present inputs recover outputs)
    (fun out => forall data, shards (ck self) len data ->
       holds (ck self) len data present inputs -> out = shard_ref (ck self) len data <$> recover).
Proof.
  intros Hok [Hasc Hge Hri [Hnd Hrl] Hro _]. case_decide as Hz.
  - apply wp_ret. intros data _ _. pose proof Hro as [Hol _].
    destruct Hz as [->|Hz]; [by apply nil_length_inv|].
    apply list_eq. intros i. rewrite list_lookup_fmap.
    destruct (recover !! i) as [r|] eqn:Hr; simpl.
    + destruct (shards_lookup _ _ _ i Hro) as [-> Hl]; [by eapply lookup_lt_Some|].
      rewrite Hz in Hl |- *. f_equal. by apply nil_length_inv.
    + apply lookup_ge_None. rewrite Hol. by apply lookup_ge_None.
  - apply (reconstruct_shards_spec _ _ len);
      [done|done|done|done|done|by intros r Hr; apply Hrl|done].
Qed.

(** Every request is answered: with the recovered shards when it can be served,
    with an error otherwise, and the error is never a singular matrix. *)
Lemma reconstruct_wp self backend present inputs recover outputs :
  codec_ok self ->
  wp (reconstruct_with_backend self present inputs recover outputs backend)
    (fun out => exists len, request_ok (ck self) (cm self) len present inputs recover outputs /\
       forall data, shards (ck self) len data -> holds (ck self) len data present inputs ->
         out = shard_ref (ck self) len data <$> recover)
    (refused self present inputs recover outputs).
Proof.
  intros Hok. pose proof Hok as ((Hk & _) & _). fold (ck self) in Hk.
  unfold reconstruct_with_backend. fold (ck self) (cm self).
  apply wp_bind, wp_guard.
  2: { intros Hn%bool_decide_eq_true. split; [done|]. intros len []. destruct ro_inputs0. lia. }
  intros Hil%bool_decide_eq_false%dec_stable. apply wp_bind, wp_guard.
  2: { intros Hn%bool_decide_eq_true. split; [done|]. intros len []. destruct ro_outputs0. lia. }
  intros Hol%bool_decide_eq_false%dec_stable. apply wp_bind, wp_guard.
  2: { intros Hn%bool_decide_eq_true. split; [done|]. intros len []. lia. }
  intros Hge%bool_decide_eq_false. apply wp_bind.
  eapply wp_mono; [apply check_present_wp| |].
  2: { intros e [He Hna]. split; [done|]. by intros len []. }
  intros u Hasc. apply wp_bind. eapply wp_mono; [apply check_recover_wp| |].
  2: { intros e [He Hna]. split; [done|]. by intros len []. }
  intros s Hrec. apply wp_bind, wp_idx; [lia|]. intros p0 Hp0.
  assert (forall len, request_ok (ck self) (cm self) len present inputs recover outputs -> len = length p0) as Hlen.
  { intros len []. symmetry. by eapply ro_inputs0. }
  apply wp_bind, wp_guard.
  2: { intros Hn%bool_decide_eq_true. split; [done|]. intros len Hr.
       pose proof (Hlen len Hr) as ->. destruct Hr. lia. }
  intros Hmax%bool_decide_eq_false. apply wp_bind.
  eapply wp_mono; [apply (check_sizes_indices _ _ _ _ (refused self present inputs recover outputs))
    | |done]; [done| |].
  { intros ix i s' Hs' _ Hne. split; [done|]. intros len Hr. destruct Hne.
    rewrite <-(Hlen len Hr). destruct Hr. by eapply ro_inputs0. }
  intros u' Hins. apply wp_bind.
  eapply wp_mono; [apply (check_sizes_indices _ _ _ _ (refused self present inputs recover outputs))
    | |done]; [done| |].
  { intros ix i s' Hs' _ Hne. split; [done|]. intros len Hr. destruct Hne.
    rewrite <-(Hlen len Hr). destruct Hr. by eapply ro_outputs0. }
  intros u'' Houts.
  assert (request_ok (ck self) (cm self) (length p0) present inputs recover outputs) as Hreq.
  { split; [done|lia| |done|split; [done|intros j t Ht; apply (Houts j); [lia|done]]|lia].
    split; [done|]. intros [|j] t Ht; [by simplify_eq|]. apply (Hins (S j)); [lia|done]. }
  apply returns_wp. eapply returns_mono; [by apply reconstruct_serve|].
  intros out Hdata. by exists (length p0).
Qed.

Lemma request_ok_size k m len len' present inputs recover outputs :
  0 < k -> request_ok k m len present inputs recover outputs ->
  request_ok k m len' present inputs recover outputs -> len = len'.
Proof.
  intros Hk [_ Hge [Hl Ha] _ _ _] [_ _ [_ Ha'] _ _ _].
  destruct (lookup_lt_is_Some_2 inputs 0) as [s Hs]; [lia|].
  by rewrite <-(Ha _ _ Hs), <-(Ha' _ _ Hs).
Qed.

Lemma reconstruct_holds self backend len data present inputs recover outputs :
  codec_ok self -> request_ok (ck self) (cm self) len present inputs recover outputs ->
  shards (ck self) len data -> holds (ck self) len data present inputs ->
  reconstruct_with_backend self present inputs recover outputs backend =
  Ok (shard_ref (ck self) len data <$> recover).
Proof.
  intros Hok Hreq Hd Hh. pose proof Hok as ((Hk & _) & _).
  pose proof (reconstruct_wp self backend present inputs recover outputs Hok) as Hw.
  destruct (reconstruct_with_backend _ _ _ _ _ _) as [out|e|]; [| |done].
  - destruct Hw as (len' & Hreq' & Hout). f_equal.
    by rewrite (request_ok_size _ _ _ _ _ _ _ _ Hk Hreq Hreq') in *; apply Hout.
  - destruct Hw as [_ Hno]. by destruct (Hno len).
Qed.

(** ** The code words are far apart *)

Lemma bget_ext len (l l' : list byte) :
  length l = len -> length l' = len -> (forall b, b < len -> bget l b = bget l' b) -> l = l'.
Proof.
  intros Hl Hl' H. apply list_eq. intros b. destruct (decide (b < len)).
  - rewrite !bget_lookup, H by lia. done.
  - rewrite !lookup_ge_None_2 by lia. done.
Qed.

Lemma shards_ext k len data data' :
  shards k len data -> shards k len data' ->
  (forall j b, j < k -> b < len -> byte_at data j b = byte_at data' j b) -> data = data'.
Proof.
  intros Hd Hd' H. apply list_eq. intros j. destruct (decide (j < k)).
  - destruct (shards_lookup k len data j) as [-> Hl]; [done..|].
    destruct (shards_lookup k len data' j) as [-> Hl']; [done..|]. f_equal.
    apply (bget_ext len); [done..|]. intros b Hb. by apply H.
  - destruct Hd as [Hd _], Hd' as [Hd' _]. rewrite !lookup_ge_None_2 by lia. done.
Qed.

(** Two stripes that agree on [k] shards are equal. *)
Lemma agreeing_data k m len data data' idxs :
  k + m <= MAX_TOTAL_SHARDS -> shards k len data -> shards k len data' ->
  NoDup idxs -> k <= length idxs -> (forall r, r ∈ idxs -> r < k + m) ->
  (forall r, r ∈ idxs -> shard_ref k len data r = shard_ref k len data' r) -> data = data'.
Proof.
  unfold MAX_TOTAL_SHARDS. intros Hkm Hd Hd' Hnd Hlen Hlt Heq.
  apply (shards_ext k len); [done..|]. intros j b Hj Hb.
  assert (trivial_kernel k (fun i j => cauchy_entry k (nth i (take k idxs) 0) j)) as Hker.
  { apply cauchy_rows_kernel; [|rewrite length_take; lia| |lia].
    - by eapply sublist_NoDup, sublist_take.
    - intros r (i & Hr & _)%elem_of_take.
      specialize (Hlt r (list_elem_of_lookup_2 _ _ _ Hr)). lia. }
  assert (byte_at data j b + byte_at data' j b = 0)%gf as Hzero.
  { apply (Hker (fun c => byte_at data c b + byte_at data' c b)%gf); [|exact Hj].
    intros i Hi. set (r := nth i (take k idxs) 0).
    assert (r ∈ idxs) as Hr.
    { apply (list_elem_of_lookup_2 _ i). rewrite <-(lookup_take_lt _ k) by done.
      apply lookup_nth. rewrite length_take. lia. }
    specialize (Heq r Hr). apply (f_equal (fun l => bget l b)) in Heq.
    rewrite !shard_ref_byte in Heq by done. unfold dot in *. fold r.
    rewrite (gsum_ext k _ (fun c => cauchy_entry k r c * byte_at data c b +
      cauchy_entry k r c * byte_at data' c b)%gf) by (intros; ring).
    rewrite gsum_add, Heq. ring. }
  transitivity (byte_at data j b + (byte_at data j b + byte_at data' j b))%gf; [rewrite Hzero|]; ring.
Qed.

(** ** The properties of the codec *)

(** The shard [r] of a stripe *)
Definition shard (stripe : list (list byte)) (r : nat) : list byte := nth r stripe [].

Lemma shard_stripe k m len data r :
  shards k len data -> r < k + m ->
  shard (data ++ parity_ref k m len data) r = shard_ref k len data r.
Proof. intros Hd Hr. by apply nth_lookup_Some, stripe_lookup. Qed.

(** C1: Encode, lose shards, reconstruct.  A codec built from any valid
    configuration encodes any [data] shards of one size; from any [k] or more
    shards of the stripe, presented in increasing order, [reconstruct] returns
    exactly the missing shards asked for, whichever backends the two calls
    select and whatever the output buffers held. *)
Theorem encode_then_reconstruct c p q len data buffers present recover outputs :
  let k := u8_usize (data_shards c) in
  let m := u8_usize (parity_shards c) in
  valid_config c -> shards k len data -> shards m len buffers -> (Z.of_nat len <= I32_MAX)%Z ->
  ascending (k + m) present -> k <= length present -> recoverable (k + m) present recover ->
  shards (length recover) len outputs ->
  returns (self ← ErasureCodec_new c;
           parity ← encode self p data buffers;
           let stripe := data ++ parity in
           out ← reconstruct self q present (shard stripe <$> present) recover outputs;
           mret (stripe, out))
    (fun '(stripe, out) => out = shard stripe <$> recover).
Proof.
  intros k m Hv Hd Hb Hlen Hp Hk Hr Ho.
  eapply wp_bind_returns; [by apply ErasureCodec_new_returns|].
  intros self [Hc Hok].
  assert (ck self = k /\ cm self = m) as [Hck Hcm] by (by unfold ck, cm; rewrite Hc).
  unfold encode. rewrite (encode_spec self _ len), Hck, Hcm by (by rewrite ?Hck, ?Hcm). bind_step.
  set (stripe := data ++ _).
  assert (forall l : list nat, (forall r, r ∈ l -> r < k + m) ->
    shard stripe <$> l = shard_ref k len data <$> l) as Hs.
  { intros l Hl. apply list_fmap_ext. intros i r Hi. apply shard_stripe; [done|].
    by eapply Hl, list_elem_of_lookup_2. }
  rewrite (Hs present) by apply Hp. unfold reconstruct.
  rewrite (reconstruct_holds _ _ len data), Hck; rewrite ?Hck, ?Hcm; [|done| |done|].
  - symmetry. apply Hs. intros r ?. by apply Hr.
  - split; [done..| |done|done|done]. split; [by rewrite length_fmap|].
    intros j s (r & -> & _)%list_lookup_fmap_Some. apply length_shard_ref.
  - intros i r Hi. by rewrite list_lookup_fmap, Hi.
Qed.

(** Discharges the shape hypotheses of a concrete stripe. *)
Ltac small_number := vm_compute; first [done | lia].
Ltac concrete_shape :=
  lazymatch goal with
  | |- valid_config _ => split; small_number
  | |- shards _ _ _ =>
      split; [reflexivity|]; intros [|[|[|[|?]]]] ? ?; simplify_eq/=; reflexivity
  | |- ascending _ _ =>
      split; [intros ? ?; set_unfold; intuition (subst; small_number)
             |intros [|[|[|[|?]]]] ? ? ? ?; simplify_eq/=; lia]
  | |- recoverable _ _ _ =>
      split; [repeat (constructor; [set_solver|]); constructor
             |intros ? ?; split; set_unfold; intuition (subst; first [lia | small_number])]
  | |- NoDup _ => repeat (constructor; [set_solver|]); constructor
  | |- (_ <= _)%Z => small_number
  | |- _ <= _ => small_number
  end.

Definition two_plus_two : EcConfig := {| data_shards := Byte.x02; parity_shards := Byte.x02 |}.
Definition no_simd : Platform :=
  {| avx2 := false; avx512f := false; avx512bw := false; override_name := None |}.
Definition all_simd : Platform :=
  {| avx2 := true; avx512f := true; avx512bw := true; override_name := None |}.

(** Two data and two parity shards; shards 0 and 2 are lost, encoded without
    SIMD and reconstructed with AVX-512. *)
Lemma encode_then_reconstruct_witness :
  returns (self ← ErasureCodec_new two_plus_two;
           parity ← encode self no_simd [[Byte.x01; Byte.x02]; [Byte.x03; Byte.xff]]
                      [[Byte.x00; Byte.x00]; [Byte.x00; Byte.x00]];
           let stripe := [[Byte.x01; Byte.x02]; [Byte.x03; Byte.xff]] ++ parity in
           out ← reconstruct self all_simd [1; 3] (shard stripe <$> [1; 3]) [0; 2]
                   [[Byte.x00; Byte.x00]; [Byte.x00; Byte.x00]];
           mret (stripe, out))
    (fun '(stripe, out) => out = shard stripe <$> [0; 2]).
Proof.
  apply (encode_then_reconstruct two_plus_two no_simd all_simd 2); concrete_shape.
Defined.

(** C2: Encoding answers every call.  With a codec of a valid configuration,
    [encode] succeeds exactly when there are [k] data and [m] parity buffers of
    one size of at most [i32::MAX] bytes, and the parity it writes is the
    product of the Cauchy rows with the data, on every backend.  All other
    calls return an error; none panics. *)
Theorem encode_answers c p data buffers :
  let k := u8_usize (data_shards c) in
  let m := u8_usize (parity_shards c) in
  let shape len := shards k len data /\ shards m len buffers /\ (Z.of_nat len <= I32_MAX)%Z in
  valid_config c ->
  wp (self ← ErasureCodec_new c; encode self p data buffers)
    (fun parity => exists len, shape len /\ parity = parity_ref k m len data)
    (fun _ => forall len, ~ shape len).
Proof.
  intros k m shape Hv. eapply wp_bind_returns; [by apply ErasureCodec_new_returns|].
  intros self [<- Hok]. eapply wp_mono; [by apply encode_wp| |done].
  intros parity (len & Hd & Hp & Hl & ->). by exists len.
Qed.

Lemma encode_answers_witness :
  wp (self ← ErasureCodec_new two_plus_two;
      encode self all_simd [[Byte.x01]; [Byte.x02]] [[Byte.x00]; [Byte.x00]])
    (fun parity => exists len,
       (shards 2 len [[Byte.x01]; [Byte.x02]] /\ shards 2 len [[Byte.x00]; [Byte.x00]] /\
        (Z.of_nat len <= I32_MAX)%Z) /\ parity = parity_ref 2 2 len [[Byte.x01]; [Byte.x02]])
    (fun _ => forall len,
       ~ (shards 2 len [[Byte.x01]; [Byte.x02]] /\ shards 2 len [[Byte.x00]; [Byte.x00]] /\
          (Z.of_nat len <= I32_MAX)%Z)).
Proof. apply (encode_answers two_plus_two all_simd). concrete_shape. Defined.

Lemma verified_ok k m len data parity :
  length parity = m ->
  verified k len data parity 0 m VerifyOk <-> parity = parity_ref k m len data.
Proof.
  intros Hm. unfold verified. split.
  - intros H. apply list_eq. intros row. unfold parity_ref. rewrite list_lookup_fmap.
    destruct (decide (row < m)).
    + rewrite lookup_seq_lt by done. apply H. lia.
    + rewrite lookup_seq_ge, lookup_ge_None_2 by lia. done.
  - intros -> row Hrow. unfold parity_ref.
    by rewrite list_lookup_fmap, lookup_seq_lt by lia.
Qed.

(** C3: Verification is exact.  On a stripe of the right shape with enough
    scratch space, [verify] returns; it answers [Ok] precisely when the parity
    shards are the ones [encode] would write, and otherwise reports the first
    parity shard that differs.  It keeps the scratch buffer's length. *)
Theorem verify_exact c p len data parity scratch :
  let k := u8_usize (data_shards c) in
  let m := u8_usize (parity_shards c) in
  valid_config c -> shards k len data -> shards m len parity -> (Z.of_nat len <= I32_MAX)%Z ->
  m * len <= length scratch ->
  returns (self ← ErasureCodec_new c; verify self p data parity scratch)
    (fun '(r, scratch') => length scratch' = length scratch /\
       match r with
       | VerifyOk => parity = parity_ref k m len data
       | Mismatch i => exists row, i = k + row /\ row < m /\
           parity !! row ≠ parity_ref k m len data !! row /\
           take row parity = take row (parity_ref k m len data)
       end).
Proof.
  intros k m Hv Hd Hp Hl Hs. eapply wp_bind_returns; [by apply ErasureCodec_new_returns|].
  intros self [<- Hok]. unfold verify. eapply returns_mono; [by apply (verify_spec self _ len)|].
  change (ck self) with k. change (cm self) with m.
  intros [r scratch'] [Hr Hsl]. split; [done|]. pose proof Hp as [Hpl _].
  assert (forall row, row < m ->
    parity_ref k m len data !! row = Some (shard_ref k len data (k + row))) as Href.
  { intros row Hrow. unfold parity_ref. by rewrite list_lookup_fmap, lookup_seq_lt by lia. }
  destruct r as [|i]; [by apply verified_ok in Hr|].
  destruct Hr as (row & -> & Hrow & Hne & Hbefore). exists row.
  split; [done|]. split; [lia|]. split; [rewrite Href by lia; done|].
  apply list_eq. intros j. destruct (decide (j < row)).
  - rewrite !lookup_take_lt, Href by lia. apply Hbefore. lia.
  - rewrite !lookup_ge_None_2 by (rewrite length_take; lia). done.
Qed.

Lemma verify_exact_witness :
  returns (self ← ErasureCodec_new two_plus_two;
           verify self all_simd [[Byte.x01]; [Byte.x02]] [[Byte.x07]; [Byte.x00]]
             [Byte.x00; Byte.x00])
    (fun '(r, scratch') => length scratch' = length [Byte.x00; Byte.x00] /\
       match r with
       | VerifyOk =>
           [[Byte.x07]; [Byte.x00]] = parity_ref 2 2 1 [[Byte.x01]; [Byte.x02]]
       | Mismatch i => exists row, i = 2 + row /\ row < 2 /\
           [[Byte.x07]; [Byte.x00]] !! row ≠ parity_ref 2 2 1 [[Byte.x01]; [Byte.x02]] !! row /\
           take row [[Byte.x07]; [Byte.x00]] =
           take row (parity_ref 2 2 1 [[Byte.x01]; [Byte.x02]])
       end).
Proof. apply (verify_exact two_plus_two all_simd 1); concrete_shape. Defined.

(** C4: Reconstruction answers every call.  It succeeds exactly on the requests
    that can be served (enough increasing in-range indices, distinct absent
    targets, buffers of one size); every other request is refused with an error
    and none panics.  The error is never [SingularMatrix]: any [k] rows of the
    encoding matrix are invertible. *)
Theorem reconstruct_answers c q present inputs recover outputs :
  let k := u8_usize (data_shards c) in
  let m := u8_usize (parity_shards c) in
  valid_config c ->
  wp (self ← ErasureCodec_new c; reconstruct self q present inputs recover outputs)
    (fun _ => exists len, request_ok k m len present inputs recover outputs)
    (fun e => e ≠ SingularMatrix /\ forall len, ~ request_ok k m len present inputs recover outputs).
Proof.
  intros k m Hv. eapply wp_bind_returns; [by apply ErasureCodec_new_returns|].
  intros self [<- Hok]. eapply wp_mono; [by apply reconstruct_wp| |done].
  intros out (len & Hreq & _). by exists len.
Qed.

Lemma reconstruct_answers_witness :
  wp (self ← ErasureCodec_new two_plus_two;
      reconstruct self all_simd [3; 1] [[Byte.x01]; [Byte.x02]] [0] [[Byte.x00]])
    (fun _ => exists len, request_ok 2 2 len [3; 1] [[Byte.x01]; [Byte.x02]] [0] [[Byte.x00]])
    (fun e => e ≠ SingularMatrix /\
       forall len, ~ request_ok 2 2 len [3; 1] [[Byte.x01]; [Byte.x02]] [0] [[Byte.x00]]).
Proof. apply (reconstruct_answers two_plus_two all_simd). concrete_shape. Defined.

(** Verification detects damage to up to [m] shards.  If a stripe agrees
    with an encoded stripe on at least [k] of its shards but is not that stripe,
    [verify] reports a mismatch. *)
Theorem verify_detects_damage c p len data data' parity' agree scratch :
  let k := u8_usize (data_shards c) in
  let m := u8_usize (parity_shards c) in
  let stripe := data ++ parity_ref k m len data in
  valid_config c -> shards k len data -> shards k len data' -> shards m len parity' ->
  (Z.of_nat len <= I32_MAX)%Z -> m * len <= length scratch ->
  NoDup agree -> k <= length agree ->
  (forall r, r ∈ agree -> r < k + m /\ (data' ++ parity') !! r = stripe !! r) ->
  data' ++ parity' ≠ stripe ->
  returns (self ← ErasureCodec_new c; verify self p data' parity' scratch)
    (fun '(r, _) => exists i, r = Mismatch i).
Proof.
  intros k m stripe Hv Hd Hd' Hp Hl Hs Hnd Hk Hag Hne.
  eapply wp_bind_returns; [by apply ErasureCodec_new_returns|]. intros self [<- Hok].
  unfold verify. eapply returns_mono; [by apply (verify_spec self _ len)|].
  change (ck self) with k. change (cm self) with m.
  intros [r scratch'] [Hr _]. destruct r as [|i]; [|by exists i]. exfalso. apply Hne.
  pose proof Hp as [Hpl _]. apply verified_ok in Hr as ->; [|done].
  assert (data = data') as <-; [|done].
  apply (agreeing_data k m len data data' agree); [apply Hv|done..| |].
  - intros r Hr. by apply Hag.
  - intros r [Hlt Heq]%Hag. unfold stripe in Heq. rewrite !stripe_lookup in Heq by done. congruence.
Qed.

Lemma verify_detects_damage_witness :
  let good := [[Byte.x01]; [Byte.x02]] in
  returns (self ← ErasureCodec_new two_plus_two;
           verify self all_simd [[Byte.x01]; [Byte.x03]] (parity_ref 2 2 1 good)
             [Byte.x00; Byte.x00])
    (fun '(r, _) => exists i, r = Mismatch i).
Proof.
  apply (verify_detects_damage two_plus_two all_simd 1 [[Byte.x01]; [Byte.x02]] _ _ [0; 2; 3]);
    try concrete_shape.
  - intros r Hr. set_unfold. split; [intuition (subst; small_number)|].
    destruct Hr as [->|[->|[->|[]]]]; reflexivity.
  - by intros [=].
Defined.

(** [ErasureCodec::new] validates and builds.  It accepts a configuration
    exactly when there is a data shard and at most 32 shards in all, and the
    codec it returns holds the systematic Cauchy matrix and the multiplication
    tables of its parity rows; it never panics. *)
Theorem new_builds_codec c :
  wp (ErasureCodec_new c)
    (fun self => valid_config c /\ config self = c /\ codec_ok self)
    (fun e => ~ valid_config c /\ exists reason, e = InvalidConfig reason).
Proof.
  pose proof (ErasureCodec_new_wp c) as Hw.
  destruct (ErasureCodec_new c) as [self|e|]; [|done..].
  destruct Hw as [<- Hok]. split; [apply Hok|done].
Qed.

(** The vector backends run only where the CPU has them, also when the
    benchmark override names one: the selected backend is one of the supported
    ones, and a supported vector backend has its CPU features.  The override is
    obeyed when it can be. *)
Theorem selected_backend_supported p :
  selected_backend p ∈ supported_backends p /\
  (forall b, b ∈ supported_backends p ->
    match b with
    | Scalar => True
    | Avx2X86_64 => avx2 p = true
    | Avx512X86_64 => avx512f p = true /\ avx512bw p = true
    end) /\
  (forall b, bench_override_backend p = Some b -> selected_backend p = b).
Proof.
  split; [|split]; [| |by unfold selected_backend; intros b ->].
  2: { unfold supported_backends, has_avx512_x86_64, has_avx2_x86_64.
       destruct p as [[] [] [] o]; simpl; intros b; rewrite ?elem_of_cons, ?elem_of_nil; naive_solver. }
  unfold supported_backends, selected_backend, bench_override_backend, has_avx512_x86_64, has_avx2_x86_64.
  destruct p as [[] [] [] [name|]]; simpl; rewrite ?andb_false_r, ?andb_true_r;
    repeat case_match; simplify_eq/=; set_solver.
Qed.

(** C5: The vector kernels compute what the scalar kernels compute.  For any
    coefficient matrix and any shards and output buffers of one size, encoding
    with precomputed tables and applying a matrix give byte for byte the scalar
    result on every backend. *)
Theorem backends_equivalent b k len m coeffs data outputs :
  shards k len data -> shards m len outputs -> m * k <= length coeffs -> k <= MAX_TOTAL_SHARDS ->
  encode_rows (E:=EcError) b k (build_mul_tables coeffs) (build_nibble_tables coeffs) data outputs =
  encode_rows_scalar k (build_mul_tables coeffs) data outputs /\
  apply_matrix_rows (E:=EcError) b k coeffs data outputs =
  apply_matrix_rows_scalar k coeffs data outputs.
Proof.
  intros Hd Ho Hc Hk. split.
  - rewrite (encode_rows_spec b k len m) by done. by rewrite (encode_rows_scalar_spec k len m).
  - rewrite (apply_matrix_rows_spec b k len m) by done.
    by rewrite (apply_matrix_rows_scalar_spec k len m).
Qed.

Lemma backends_equivalent_witness :
  encode_rows (E:=EcError) Avx2X86_64 2 (build_mul_tables [Byte.x03; Byte.x00])
    (build_nibble_tables [Byte.x03; Byte.x00]) [[Byte.x01]; [Byte.x02]] [[Byte.x00]] =
  encode_rows_scalar 2 (build_mul_tables [Byte.x03; Byte.x00]) [[Byte.x01]; [Byte.x02]]
    [[Byte.x00]] /\
  apply_matrix_rows (E:=EcError) Avx2X86_64 2 [Byte.x03; Byte.x00] [[Byte.x01]; [Byte.x02]]
    [[Byte.x00]] =
  apply_matrix_rows_scalar 2 [Byte.x03; Byte.x00] [[Byte.x01]; [Byte.x02]] [[Byte.x00]].
Proof. apply (backends_equivalent Avx2X86_64 2 1 1); concrete_shape. Defined.

End Codec.
