(* ===== verification/SelfTest.v ===== *)
(** The start-up smoke test of the erasure codec: [self_test] of
    [crates/ec/src/codec.rs].  It runs on every backend the platform can select
    and is proved to pass. *)

From stdpp Require Import strings pretty.
From S2P Require Import Prelude Kernels X86 Codec.
Import Kernels Codec.

Module SelfTest.

(** [((i * 37 + j * 13 + 7) & 0xFF) as u8] *)
Definition test_byte (i j : nat) : byte :=
  usize_u8 (Z.to_nat (Z.land (Z.of_nat (i * 37 + j * 13 + 7)) 255)).

(** The calls of the test on the codec it has built, for its test data *)
Definition self_test_on (codec : ErasureCodec) (p : Platform) (k m shard_size : nat)
    (data : list (list byte)) : outcome EcError () :=
  let parity := (fun _ => replicate shard_size Byte.x00) <$> seq 0 m in
  parity ← encode codec p data parity;
  let scratch := replicate (verify_scratch_size codec shard_size) Byte.x00 in
  '(result, _) ← verify codec p data parity scratch;
  _ ← match result with
      | VerifyOk => mret ()
      | Mismatch idx =>
          Err (SmokeTestFailed ("verify mismatch at shard index " +:+ pretty idx))
      end;
  let present_indices := [0; 2; 3; k] in
  data0 ← idx data 0;
  data2 ← idx data 2;
  data3 ← idx data 3;
  parity0 ← idx parity 0;
  let present_data := [data0; data2; data3; parity0] in
  let recover_indices := [1; k + 1] in
  let recovered_data := replicate (length recover_indices) (replicate shard_size Byte.x00) in
  recovered_data ← reconstruct codec p present_indices present_data recover_indices recovered_data;
  recovered0 ← idx recovered_data 0;
  data1 ← idx data 1;
  _ ← guard_err (bool_decide (recovered0 ≠ data1))
        (SmokeTestFailed "reconstruction mismatch for missing data shard");
  recovered1 ← idx recovered_data 1;
  parity1 ← idx parity 1;
  guard_err (bool_decide (recovered1 ≠ parity1))
    (SmokeTestFailed "reconstruction mismatch for missing parity shard").

Definition test_data (k shard_size : nat) : list (list byte) :=
  (fun i => test_byte i <$> seq 0 shard_size) <$> seq 0 k.

Definition self_test (p : Platform) : outcome EcError () :=
  config ← EcConfig_new Byte.x04 Byte.x02;
  codec ← ErasureCodec_new config;
  let k := u8_usize (data_shards config) in
  let m := u8_usize (parity_shards config) in
  let shard_size := 256 in
  self_test_on codec p k m shard_size (test_data k shard_size).

Lemma test_data_shards k len : shards k len (test_data k len).
Proof.
  split; [unfold test_data; by rewrite length_fmap, length_seq|].
  intros j s (i & -> & _)%list_lookup_fmap_Some. by rewrite length_fmap, length_seq.
Qed.

Lemma zero_shards n len : shards n len (replicate n (replicate len Byte.x00)).
Proof.
  split; [by rewrite length_replicate|]. intros j s [-> _]%lookup_replicate.
  by rewrite length_replicate.
Qed.

Lemma const_fmap_seq {A} (x : A) n : (fun _ => x) <$> seq 0 n = replicate n x.
Proof. rewrite <-(length_seq n 0) at 2. by apply const_fmap. Qed.

Section smoke.
Context (codec : ErasureCodec) (p : Platform) (len : nat) (data : list (list byte)).
Hypothesis Hconfig : config codec = EcConfig_default.
Hypothesis Hok : codec_ok codec.
Hypothesis Hdata : shards 4 len data.
Hypothesis Hlen : (Z.of_nat len <= I32_MAX)%Z.
Let sh := shard_ref 4 len data.

Lemma smoke_k : ck codec = 4.
Proof. unfold ck. by rewrite Hconfig. Qed.

Lemma smoke_m : cm codec = 2.
Proof. unfold cm. by rewrite Hconfig. Qed.

Lemma smoke_encode :
  encode codec p data (replicate 2 (replicate len Byte.x00)) = Ok (parity_ref 4 2 len data).
Proof.
  unfold encode. rewrite (encode_spec codec _ len), smoke_k, smoke_m;
    rewrite ?smoke_k, ?smoke_m; [done|done|done|apply zero_shards|done].
Qed.

Lemma smoke_verify :
  exists scratch', verify codec p data (parity_ref 4 2 len data)
    (replicate (verify_scratch_size codec len) Byte.x00) = Ok (VerifyOk, scratch').
Proof.
  assert (verify_scratch_size codec len = 2 * len) as ->.
  { unfold verify_scratch_size. change (u8_usize _) with (cm codec). rewrite smoke_m.
    apply saturating_mul_exact; [small_number|done]. }
  assert (shards 2 len (parity_ref 4 2 len data)) as Hp.
  { split; [done|]. intros j s (r & -> & _)%list_lookup_fmap_Some. apply length_shard_ref. }
  unfold verify. destruct (proj1 (returns_Ok _ _) (verify_spec codec (selected_backend p) len data
    (parity_ref 4 2 len data) (replicate (2 * len) Byte.x00) Hok
    ltac:(unfold stripe_shape; by rewrite smoke_k, smoke_m)
    ltac:(rewrite smoke_m, length_replicate; lia))) as ([r scratch'] & -> & Hr & _).
  exists scratch'. rewrite smoke_k, smoke_m in Hr. destruct r as [|i]; [done|].
  destruct Hr as (row & _ & Hrow & Hne & _). destruct Hne. unfold parity_ref.
  by rewrite list_lookup_fmap, lookup_seq_lt by lia.
Qed.

Lemma smoke_reconstruct :
  reconstruct codec p [0; 2; 3; 4] [sh 0; sh 2; sh 3; sh 4] [1; 5]
    (replicate 2 (replicate len Byte.x00)) = Ok [sh 1; sh 5].
Proof.
  unfold reconstruct.
  rewrite (reconstruct_holds codec _ len data), smoke_k; rewrite ?smoke_k, ?smoke_m; [done|done| |done|].
  - split; [concrete_shape|concrete_shape| |concrete_shape|apply zero_shards|done].
    split; [done|]. intros [|[|[|[|?]]]] s ?; simplify_eq/=; apply length_shard_ref.
  - intros [|[|[|[|?]]]] r ?; by simplify_eq/=.
Qed.

Lemma smoke_data_idx r : r < 4 -> idx (E:=EcError) data r = Ok (sh r).
Proof.
  intros Hr. unfold sh. rewrite shard_ref_data by done. by apply (shards_idx 4 len).
Qed.

Lemma smoke_parity_idx row :
  row < 2 -> idx (E:=EcError) (parity_ref 4 2 len data) row = Ok (sh (4 + row)).
Proof.
  intros Hr. apply idx_Ok. unfold parity_ref. by rewrite list_lookup_fmap, lookup_seq_lt.
Qed.

Lemma self_test_on_passes : self_test_on codec p 4 2 len data = Ok ().
Proof.
  unfold self_test_on. rewrite const_fmap_seq, smoke_encode. bind_step.
  destruct smoke_verify as [scratch' ->]. bind_step.
  rewrite !smoke_data_idx, !smoke_parity_idx by lia. bind_step. cbn [length Nat.add].
  rewrite smoke_reconstruct. bind_step. cbn [idx lookup list_lookup unwrap]. bind_step.
  rewrite !bool_decide_false by (intros Hn; by apply Hn). done.
Qed.
End smoke.

(** The smoke test passes on every platform: it neither panics nor reports
    a failure, whatever backend is selected. *)
Theorem self_test_passes p : self_test p = Ok ().
Proof.
  unfold self_test.
  assert (EcConfig_new Byte.x04 Byte.x02 = Ok EcConfig_default) as -> by reflexivity. bind_step.
  assert (valid_config EcConfig_default) as Hv by concrete_shape.
  destruct (proj1 (returns_Ok _ _) (ErasureCodec_new_returns _ Hv)) as (codec & -> & Hc & Hok).
  bind_step. apply self_test_on_passes; [done|done|apply test_data_shards|small_number].
Qed.

End SelfTest.
