(* ===== verification/F64.v ===== *)
(** IEEE 754 binary64 values as the placement code uses them: Rocq's
    executable specification floats at the [f64] format, with the comparisons
    and the division of [crates/placement/src].  The lemmas: comparison is a
    total preorder away from NaN, dividing a number by a positive finite weight
    gives a number, and sums and products of values far from the largest one are
    finite. *)

From Stdlib Require Import SpecFloat.
From S2P Require Import Prelude.

Module F64.

Definition f64 := spec_float.

Definition f64_zero : f64 := S754_zero false.
Definition INFINITY : f64 := S754_infinity false.
Definition NEG_INFINITY : f64 := S754_infinity true.

(** [a < b], [a > b], [a == b] *)
Definition f64_lt (a b : f64) : bool := SFltb a b.
Definition f64_gt (a b : f64) : bool := SFltb b a.
Definition f64_eq (a b : f64) : bool := SFeqb a b.

Definition is_nan (a : f64) : bool := match a with S754_nan => true | _ => false end.
Definition is_finite (a : f64) : bool :=
  match a with S754_zero _ | S754_finite _ _ _ => true | _ => false end.

Definition f64_neg (a : f64) : f64 := SFopp a.
Definition f64_div (a b : f64) : f64 := SFdiv 53 1024 a b.
Definition f64_add (a b : f64) : f64 := SFadd 53 1024 a b.
Definition f64_sub (a b : f64) : f64 := SFsub 53 1024 a b.
Definition f64_mul (a b : f64) : f64 := SFmul 53 1024 a b.

(** [n as f64] *)
Definition f64_of_Z (n : Z) : f64 := binary_normalize 53 1024 n 0 false.

(** [a.mul_add(b, c)]: the exact product and sum, rounded once *)
Definition f64_mul_add (a b c : f64) : f64 :=
  match a, b, c with
  | S754_finite sa ma ea, S754_finite sb mb eb, S754_finite sc mc ec =>
      let e := Z.min (ea + eb) ec in
      binary_normalize 53 1024
        (cond_Zopp (xorb sa sb) (Zpos (ma * mb) * 2 ^ (ea + eb - e)) + cond_Zopp sc (Zpos mc * 2 ^ (ec - e))) e false
  | S754_finite _ _ _, S754_finite _ _ _, S754_zero _ => f64_mul a b
  | S754_finite _ _ _, S754_finite _ _ _, _ => c
  | _, _, _ => f64_add (f64_mul a b) c
  end%Z.

(** [f64::from_bits] and [to_bits]; NaN payloads are not kept *)
Definition from_bits (bits : Z) : f64 :=
  let s := Z.testbit bits 63 in
  let e := Z.land (Z.shiftr bits 52) 0x7ff in
  let m := Z.land bits (2 ^ 52 - 1) in
  if (e =? 0x7ff)%Z then (if (m =? 0)%Z then S754_infinity s else S754_nan)
  else if (e =? 0)%Z then match m with Zpos p => S754_finite s p (-1074) | _ => S754_zero s end
  else match (2 ^ 52 + m)%Z with Zpos p => S754_finite s p (e - 1075) | _ => S754_zero s end.

Definition to_bits (a : f64) : Z :=
  let sign (s : bool) := if s then Z.shiftl 1 63 else 0%Z in
  match a with
  | S754_zero s => sign s
  | S754_infinity s => sign s + Z.shiftl 0x7ff 52
  | S754_nan => Z.shiftl 0xfff 51
  | S754_finite s m e =>
      if (Zpos m <? 2 ^ 52)%Z then sign s + Zpos m
      else sign s + Z.shiftl (e + 1075) 52 + (Zpos m - 2 ^ 52)
  end%Z.

#[global] Instance f64_eq_dec : EqDecision f64.
Proof. solve_decision. Defined.

(** ** The order of the numbers *)

(** A number as a triple that orders lexicographically *)
Definition ord (a : f64) : Z * Z * Z :=
  match a with
  | S754_infinity true => (-2, 0, 0)
  | S754_finite true m e => (-1, - e, - Zpos m)
  | S754_zero _ => (0, 0, 0)
  | S754_finite false m e => (1, e, Zpos m)
  | S754_infinity false => (2, 0, 0)
  | S754_nan => (3, 0, 0)
  end%Z.

Definition lex_lt (x y : Z * Z * Z) : Prop :=
  let '(a, b, c) := x in
  let '(a', b', c') := y in
  (a < a' \/ a = a' /\ (b < b' \/ b = b' /\ c < c'))%Z.

Lemma f64_lt_ord a b :
  is_nan a = false -> is_nan b = false -> f64_lt a b = true <-> lex_lt (ord a) (ord b).
Proof.
  intros Ha Hb. unfold f64_lt, SFltb, lex_lt.
  destruct a as [|[]| |[] m1 e1], b as [|[]| |[] m2 e2]; simpl in *; try done; try lia.
  - destruct (Z.compare_spec e1 e2) as [->|?|?]; simpl; try lia.
    change (Pos.compare_cont Eq m1 m2) with (Pos.compare m1 m2).
    destruct (Pos.compare_spec m1 m2) as [->|?|?]; simpl; split; intros; try done; lia.
  - destruct (Z.compare_spec e1 e2) as [->|?|?]; simpl; try lia.
    change (Pos.compare_cont Eq m1 m2) with (Pos.compare m1 m2).
    destruct (Pos.compare_spec m1 m2) as [->|?|?]; simpl; split; intros; try done; lia.
Qed.

(** [a <= b] as the negation of [b < a] *)
Definition f64_le (a b : f64) : Prop := f64_lt b a = false.

Lemma f64_le_ord a b :
  is_nan a = false -> is_nan b = false -> f64_le a b <-> ~ lex_lt (ord b) (ord a).
Proof.
  intros Ha Hb. unfold f64_le. rewrite <-(f64_lt_ord b a) by done.
  by rewrite not_true_iff_false.
Qed.

Ltac f64_order :=
  repeat match goal with
  | H : f64_lt ?a ?b = true |- _ => apply (f64_lt_ord a b) in H; [|done..]
  | H : f64_le ?a ?b |- _ => apply (f64_le_ord a b) in H; [|done..]
  | |- f64_lt ?a ?b = true => apply (f64_lt_ord a b); [done..|]
  | |- f64_le ?a ?b => apply (f64_le_ord a b); [done..|]
  end;
  unfold lex_lt in *;
  repeat match goal with
  | H : context [ord ?a] |- _ => destruct (ord a) as [[? ?] ?]
  | |- context [ord ?a] => destruct (ord a) as [[? ?] ?]
  end; lia.

Lemma f64_le_refl a : f64_le a a.
Proof.
  unfold f64_le, f64_lt, SFltb. destruct a as [|[]| |[] m e]; simpl; try done;
    rewrite Z.compare_refl; change (Pos.compare_cont Eq m m) with (Pos.compare m m);
    by rewrite Pos.compare_refl.
Qed.

Section numbers.
Context (a b c : f64).
Hypotheses (Ha : is_nan a = false) (Hb : is_nan b = false) (Hc : is_nan c = false).

Lemma f64_le_trans : f64_le a b -> f64_le b c -> f64_le a c.
Proof. intros. f64_order. Qed.

Lemma f64_lt_le : f64_lt a b = true -> f64_le a b.
Proof. intros. f64_order. Qed.

Lemma f64_lt_le_trans : f64_lt a b = true -> f64_le b c -> f64_le a c.
Proof. intros. f64_order. Qed.
End numbers.

Lemma neg_infinity_lt a : is_nan a = false -> a ≠ NEG_INFINITY -> f64_lt NEG_INFINITY a = true.
Proof. by destruct a as [|[]| |[] m e]. Qed.

(** ** Rounding gives a number *)

Lemma shr_1_nonneg mrs : (0 <= shr_m mrs)%Z -> (0 <= shr_m (shr_1 mrs))%Z.
Proof. destruct mrs as [[|[]|] r s]; simpl; lia. Qed.

Lemma shr_fexp_nonneg prec emax m e l :
  (0 <= m)%Z -> (0 <= shr_m (fst (shr_fexp prec emax m e l)))%Z.
Proof.
  intros Hm. unfold shr_fexp, shr.
  assert (0 <= shr_m (shr_record_of_loc m l))%Z as H by (by destruct l as [|[]]).
  destruct (_ - e)%Z as [|n|n]; [done| |done]. simpl. revert H. generalize (shr_record_of_loc m l).
  induction n as [n IH|n IH|]; intros mrs H; simpl; auto using shr_1_nonneg.
Qed.

Lemma binary_round_aux_number prec emax sx mx ex lx :
  (0 <= mx)%Z -> is_nan (binary_round_aux prec emax sx mx ex lx) = false.
Proof.
  intros Hm. unfold binary_round_aux.
  pose proof (shr_fexp_nonneg prec emax mx ex lx Hm) as H1.
  destruct (shr_fexp prec emax mx ex lx) as [mrs e']. simpl in H1.
  assert (0 <= round_nearest_even (shr_m mrs) (loc_of_shr_record mrs))%Z as H2.
  { unfold round_nearest_even. destruct (loc_of_shr_record mrs) as [|[]]; try done; [|lia].
    destruct (Z.even _); lia. }
  pose proof (shr_fexp_nonneg prec emax _ e' loc_Exact H2) as H3.
  destruct (shr_fexp prec emax _ e' loc_Exact) as [mrs' e'']. simpl in H3.
  destruct (shr_m mrs') as [|m|m]; [done| |lia]. by destruct (e'' <=? _)%Z.
Qed.

(** A number divided by a positive finite number is a number. *)
Lemma f64_div_number a w :
  is_nan a = false -> is_finite w = true -> f64_lt f64_zero w = true -> is_nan (f64_div a w) = false.
Proof.
  intros Ha Hw Hpos. unfold f64_div. destruct w as [| | |[] mw ew]; try done.
  destruct a as [s|s| |s m e]; try done. cbn [SFdiv].
  unfold SFdiv_core_binary.
  set (m' := match _ with Z0 => _ | Zpos _ => _ | Zneg _ => _ end).
  assert (0 <= m')%Z as Hm'.
  { unfold m'. destruct (_ - _)%Z; [done| |done]. by apply Z.shiftl_nonneg. }
  pose proof (Z_div_mod m' (Zpos mw) ltac:(done)) as Hdiv.
  destruct (Z.div_eucl m' (Zpos mw)) as [q r]. apply binary_round_aux_number. nia.
Qed.

(** Rounding keeps the sign. *)
Lemma binary_round_aux_sign prec emax mx ex lx :
  binary_round_aux prec emax false mx ex lx ≠ NEG_INFINITY.
Proof.
  unfold binary_round_aux. destruct (shr_fexp prec emax mx ex lx) as [mrs e'].
  destruct (shr_fexp prec emax _ e' loc_Exact) as [mrs' e''].
  destruct (shr_m mrs') as [|m|m]; [done| |done]. by destruct (e'' <=? _)%Z.
Qed.

(** A non-negative number divided by a positive finite number *)
Lemma f64_div_nonneg a w :
  is_nan a = false -> f64_le f64_zero a -> is_finite w = true -> f64_lt f64_zero w = true ->
  is_nan (f64_div a w) = false /\ f64_div a w ≠ NEG_INFINITY.
Proof.
  intros Ha H0 Hw Hpos. split; [by apply f64_div_number|].
  destruct w as [| | |[] mw ew]; try done.
  destruct a as [s|[]| |[] m e]; try done. unfold f64_div. cbn [SFdiv].
  destruct (SFdiv_core_binary _ _ _ _ _) as [[mz ez] lz]. apply binary_round_aux_sign.
Qed.

(** ** Magnitudes *)

(** [a] is finite and below [2 ^ k] in absolute value. *)
Definition below (k : Z) (a : f64) : Prop :=
  match a with
  | S754_zero _ => True
  | S754_finite _ m e => (Zpos m < 2 ^ (k - e))%Z
  | _ => False
  end.

Definition belowb (k : Z) (a : f64) : bool :=
  match a with
  | S754_zero _ => true
  | S754_finite _ m e => (Zpos m <? 2 ^ (k - e))%Z
  | _ => false
  end.

Lemma belowb_true k a : belowb k a = true -> below k a.
Proof. destruct a; simpl; try done. apply Z.ltb_lt. Qed.

Lemma below_finite k a : below k a -> is_finite a = true.
Proof. by destruct a. Qed.

Lemma below_exp k m e : (Zpos m < 2 ^ (k - e))%Z -> (e < k)%Z.
Proof.
  intros Hm. destruct (Z.le_gt_cases k e); [|done].
  destruct (Z.eq_dec k e) as [->|]; [rewrite Z.sub_diag in Hm; lia|]. rewrite Z.pow_neg_r in Hm; lia.
Qed.

Lemma f64_below_mono k k' a : (k <= k')%Z -> below k a -> below k' a.
Proof.
  intros Hk. destruct a as [| | |s m e]; simpl; try done. intros Hm. eapply Z.lt_le_trans; [exact Hm|].
  apply Z.pow_le_mono_r; lia.
Qed.

Lemma Zdigits2_bound m j : (0 < m -> m < 2 ^ j -> Zdigits2 m <= j)%Z.
Proof.
  intros Hm Hj. destruct m as [|p|p]; try lia. simpl.
  assert (Zpos (digits2_pos p) = Z.log2 (Zpos p) + 1)%Z as ->.
  { clear Hm Hj. induction p as [p IH|p IH|]; [| |done]; simpl digits2_pos; rewrite Pos2Z.inj_succ, IH;
      destruct p; simpl; lia. }
  assert (Z.log2 (Zpos p) < j)%Z; [|lia]. apply Z.log2_lt_pow2; lia.
Qed.

Lemma shr_1_div2 mrs : (0 <= shr_m mrs)%Z -> shr_m (shr_1 mrs) = (shr_m mrs / 2)%Z.
Proof. destruct mrs as [[|[p|p|]|p] r s]; simpl; try lia; intros _; rewrite <-Z.div2_div; done. Qed.

Lemma iter_shr_div n : forall mrs, (0 <= shr_m mrs)%Z ->
  shr_m (SpecFloat.iter_pos shr_1 n mrs) = (shr_m mrs / 2 ^ Zpos n)%Z.
Proof.
  assert (forall x a b, 0 <= x -> 0 <= a -> 0 <= b -> x / 2 ^ a / 2 ^ b = x / 2 ^ (a + b))%Z as Hdd.
  { intros x a b Hx Ha Hb. rewrite Z.div_div, Z.pow_add_r by (try apply Z.pow_pos_nonneg; lia). done. }
  induction n as [n IH|n IH|]; intros mrs Hm; simpl SpecFloat.iter_pos.
  - pose proof (shr_1_nonneg mrs Hm). rewrite IH, IH, (shr_1_div2 mrs Hm); rewrite ?IH; try done;
      try (apply Z.div_pos; [done|lia]).
    change 2%Z with (2 ^ 1)%Z at 1. rewrite !Hdd by (try apply Z.div_pos; lia). f_equal. f_equal. lia.
  - rewrite IH, IH; rewrite ?IH; try done; try (apply Z.div_pos; lia). rewrite Hdd by lia. f_equal. f_equal. lia.
  - by rewrite shr_1_div2.
Qed.

(** One normalising shift keeps the bound. *)
Lemma shr_fexp_below k m e l :
  (0 <= k -> 0 <= m < 2 ^ (k - e) -> e <= k ->
   let r := shr_fexp 53 1024 m e l in
   0 <= shr_m (fst r) < 2 ^ (k - snd r) /\ snd r <= Z.max e (Z.max (k - 53) (-1074)))%Z.
Proof.
  intros Hk Hm He. unfold shr_fexp, shr.
  assert (shr_m (shr_record_of_loc m l) = m) as Hrec by (by destruct l as [|[]]).
  assert (fexp 53 1024 (Zdigits2 m + e) <= Z.max e (Z.max (k - 53) (-1074)))%Z as Hfexp.
  { unfold fexp, emin. destruct (Z.eq_dec m 0%Z) as [->|Hnz]; [simpl; lia|].
    pose proof (Zdigits2_bound m (k - e)%Z ltac:(lia) ltac:(lia)). lia. }
  destruct (fexp 53 1024 (Zdigits2 m + e) - e)%Z as [|n|n] eqn:Hn; cbn [fst snd]; rewrite ?Hrec; [split; lia| |split; lia].
  rewrite iter_shr_div by (rewrite Hrec; lia). rewrite Hrec.
  assert (Zpos n <= k - e)%Z as Hle by lia.
  split; [|lia]. split; [apply Z.div_pos; [lia|by apply Z.pow_pos_nonneg; lia]|].
  apply Z.div_lt_upper_bound; [apply Z.pow_pos_nonneg; lia|]. rewrite <-Z.pow_add_r by lia.
  replace (Zpos n + (k - (e + Zpos n)))%Z with (k - e)%Z by lia. lia.
Qed.

(** Rounding at most doubles the bound. *)
Lemma round_below k s m e :
  (0 <= k <= 900 -> 0 < m < 2 ^ (k - e) -> below (k + 1) (binary_round_aux 53 1024 s m e loc_Exact))%Z.
Proof.
  intros Hk Hm. unfold binary_round_aux.
  assert (e < k)%Z as He by (destruct m as [|m|]; try lia; by apply (below_exp k m e), Hm).
  destruct (shr_fexp_below k m e loc_Exact ltac:(lia) ltac:(lia) ltac:(lia)) as [H1 H2].
  destruct (shr_fexp 53 1024 m e loc_Exact) as [mrs e']. cbn [fst snd] in *.
  set (m2 := round_nearest_even _ _).
  assert (0 <= m2 <= shr_m mrs + 1)%Z as Hm2.
  { unfold m2, round_nearest_even. destruct (loc_of_shr_record mrs) as [|[]]; try lia. destruct (Z.even _); lia. }
  assert (2 ^ (k + 1 - e') = 2 * 2 ^ (k - e'))%Z as Hpow
    by (rewrite <-Z.pow_succ_r by lia; f_equal; lia).
  destruct (shr_fexp_below (k + 1)%Z m2 e' loc_Exact ltac:(lia) ltac:(lia) ltac:(lia)) as [H3 H4].
  destruct (shr_fexp 53 1024 m2 e' loc_Exact) as [mrs2 e2]. cbn [fst snd] in *.
  destruct (shr_m mrs2) as [|p|p]; [done| |lia]. rewrite (proj2 (Z.leb_le e2 (1024 - 53))) by lia. simpl. lia.
Qed.

Lemma shl_align_value m e e' : (e' <= e)%Z -> Zpos (fst (shl_align m e e')) = (Zpos m * 2 ^ (e - e'))%Z.
Proof.
  intros He. unfold shl_align. destruct (e' - e)%Z as [|n|n] eqn:Hn; [|lia|].
  - replace (e - e')%Z with 0%Z by lia. simpl. lia.
  - replace (e - e')%Z with (Zpos n) by lia. cbn [fst]. clear Hn.
    induction n as [|n IH] using Pos.peano_ind; [simpl; lia|].
    rewrite Pos.iter_succ, Pos2Z.inj_xO, IH, Pos2Z.inj_succ, Z.pow_succ_r by lia. lia.
Qed.

Lemma normalize_below k m e b :
  (0 <= k <= 900 -> Z.abs m < 2 ^ (k - e) -> below (k + 1) (binary_normalize 53 1024 m e b))%Z.
Proof.
  intros Hk Hm. unfold binary_normalize.
  assert (forall s p, Z.pos p < 2 ^ (k - e) -> below (k + 1) (binary_round 53 1024 s p e))%Z as Hround.
  { intros s p Hp. unfold binary_round. set (e' := fexp _ _ _).
    pose proof (below_exp _ _ _ Hp) as Hek.
    destruct (Z.le_gt_cases e' e) as [Hle|Hgt].
    - pose proof (shl_align_value p e e' Hle) as Hv. destruct (shl_align p e e') as [mz ez] eqn:Hs. cbn [fst] in Hv.
      assert (ez = e') as ->.
      { unfold shl_align in Hs. destruct (e' - e)%Z eqn:He; injection Hs as <- <-; lia. }
      apply round_below; [done|]. rewrite Hv. split; [apply Z.mul_pos_pos; [lia|apply Z.pow_pos_nonneg; lia]|].
      replace (k - e')%Z with (k - e + (e - e'))%Z by lia. rewrite Z.pow_add_r by lia.
      apply Z.mul_lt_mono_pos_r; [apply Z.pow_pos_nonneg; lia|done].
    - assert (shl_align p e e' = (p, e)) as ->.
      { unfold shl_align. destruct (e' - e)%Z eqn:He; [done|done|lia]. }
      by apply round_below. }
  destruct m as [|p|p]; [done|apply Hround; lia|apply Hround; lia].
Qed.

(** A significand moved to a smaller exponent *)
Lemma below_scaled k m e e' : (Zpos m < 2 ^ (k - e) -> e' <= e -> Zpos m * 2 ^ (e - e') < 2 ^ (k - e'))%Z.
Proof.
  intros Hm He. pose proof (below_exp _ _ _ Hm).
  replace (k - e')%Z with (k - e + (e - e'))%Z by lia. rewrite Z.pow_add_r by lia.
  apply Z.mul_lt_mono_pos_r; [apply Z.pow_pos_nonneg; lia|done].
Qed.

Lemma abs_cond_Zopp s x : (0 <= x -> Z.abs (cond_Zopp s x) = x)%Z.
Proof. destruct s; simpl; lia. Qed.

(** The rounded sum of two aligned significands *)
Lemma sum_below k s1 x1 s2 x2 e :
  (0 <= k <= 899 -> e < k -> 0 <= x1 < 2 ^ (k - e) -> 0 <= x2 < 2 ^ (k - e) ->
   below (k + 2) (binary_normalize 53 1024 (cond_Zopp s1 x1 + cond_Zopp s2 x2) e false))%Z.
Proof.
  intros Hk He H1 H2. replace (k + 2)%Z with (k + 1 + 1)%Z by lia. apply normalize_below; [lia|].
  pose proof (abs_cond_Zopp s1 x1 ltac:(lia)). pose proof (abs_cond_Zopp s2 x2 ltac:(lia)).
  replace (k + 1 - e)%Z with (Z.succ (k - e)) by lia. rewrite Z.pow_succ_r by lia. lia.
Qed.

Lemma neg_below k a : below k a -> below k (f64_neg a).
Proof. by destruct a. Qed.

Lemma add_below k a b : (0 <= k <= 899)%Z -> below k a -> below k b -> below (k + 2) (f64_add a b).
Proof.
  intros Hk Ha Hb. unfold f64_add. destruct a as [sa| | |sa ma ea]; [|done|done|];
    destruct b as [sb| | |sb mb eb]; try done.
  - by destruct sa, sb.
  - apply (f64_below_mono k); [lia|done].
  - apply (f64_below_mono k); [lia|done].
  - cbn [SFadd]. simpl in Ha, Hb. pose proof (below_exp _ _ _ Ha). pose proof (below_exp _ _ _ Hb).
    rewrite !shl_align_value by lia. apply sum_below; [done|lia|split|split]; try lia.
    + by apply below_scaled; [|lia].
    + by apply below_scaled; [|lia].
Qed.

Lemma f64_sub_add a b : is_finite a = true -> is_finite b = true -> f64_sub a b = f64_add a (f64_neg b).
Proof.
  unfold f64_sub, f64_add. destruct a as [[]| | |sa ma ea], b as [[]| | |sb mb eb]; try done. intros _ _. simpl.
  f_equal. destruct sb; simpl; lia.
Qed.

Lemma sub_below k a b : (0 <= k <= 899)%Z -> below k a -> below k b -> below (k + 2) (f64_sub a b).
Proof.
  intros Hk Ha Hb. rewrite f64_sub_add by (by eapply below_finite). by apply add_below, neg_below.
Qed.

(** The exact product *)
Lemma product_below j k ma ea mb eb : (Zpos ma < 2 ^ (j - ea) -> Zpos mb < 2 ^ (k - eb) ->
  Zpos (ma * mb) < 2 ^ (j + k - (ea + eb)))%Z.
Proof.
  intros Ha Hb. pose proof (below_exp _ _ _ Ha). pose proof (below_exp _ _ _ Hb).
  replace (j + k - (ea + eb))%Z with ((j - ea) + (k - eb))%Z by lia. rewrite Z.pow_add_r by lia.
  rewrite Pos2Z.inj_mul. apply Z.mul_lt_mono_nonneg; lia.
Qed.

Lemma mul_below j k a b :
  (0 <= j + k <= 900)%Z -> below j a -> below k b -> below (j + k + 1) (f64_mul a b).
Proof.
  intros Hk Ha Hb. unfold f64_mul. destruct a as [sa| | |sa ma ea]; [|done|done|];
    destruct b as [sb| | |sb mb eb]; try done. cbn [SFmul]. simpl in Ha, Hb.
  apply round_below; [done|]. split; [lia|by apply product_below].
Qed.

Lemma mul_add_below j k l a b c :
  (0 <= j + k)%Z -> (j + k + 1 <= l <= 899)%Z -> below j a -> below k b -> below l c ->
  below (l + 2) (f64_mul_add a b c).
Proof.
  intros Hjk Hl Ha Hb Hc.
  assert (below (l + 2) (f64_add (f64_mul a b) c)) as Hsplit.
  { apply add_below; [lia| |done]. apply (f64_below_mono (j + k + 1)); [lia|]. apply mul_below; [lia|done|done]. }
  unfold f64_mul_add. destruct a as [sa| | |sa ma ea]; [exact Hsplit|done|done|].
  destruct b as [sb| | |sb mb eb]; [exact Hsplit|done|done|]. simpl in Ha, Hb.
  destruct c as [sc| | |sc mc ec]; [|done|done|].
  - apply (f64_below_mono (j + k + 1)); [lia|]. by apply mul_below; [lia|..].
  - simpl in Hc. pose proof (product_below j k ma ea mb eb Ha Hb) as Hp.
    pose proof (below_exp _ _ _ Hp). pose proof (below_exp _ _ _ Hc).
    apply sum_below; [lia|lia|split|split]; try lia.
    + apply below_scaled; [|lia]. eapply Z.lt_le_trans; [exact Hp|]. apply Z.pow_le_mono_r; lia.
    + by apply below_scaled; [|lia].
Qed.

End F64.
