(* ===== verification/Topology.v ===== *)
(** Node locations: [crates/placement/src/topology.rs].  A location is a list of
    (level, id) segments that [TopologyKey::new] sorts and checks.  The theorem:
    construction rejects exactly the repeated levels, does not depend on the
    order of the segments, and [level] reads the segments back. *)

From stdpp Require Import sorting.
From S2P Require Import Prelude.

(** * [sort_unstable_by_key] *)
Module Sort.

(** The order of elements with equal keys is not specified by the source; what
    is used of the result below does not depend on it. *)
Section sort.
Context {A : Type} (key : A -> Z).

Fixpoint insert_by (x : A) (l : list A) : list A :=
  match l with
  | [] => [x]
  | y :: l' => if decide (key x <= key y)%Z then x :: l else y :: insert_by x l'
  end.

Definition sort_by_key (l : list A) : list A := foldr insert_by [] l.

(** [for w in v.windows(2) { if key(w[0]) == key(w[1]) { return Some(w[0]) } }] *)
Fixpoint windows_dup (l : list A) : option A :=
  match l with
  | x :: (y :: _) as l' => if decide (key x = key y) then Some x else windows_dup l'
  | _ => None
  end.

Definition le_key (x y : A) : Prop := (key x <= key y)%Z.
Definition lt_key (x y : A) : Prop := (key x < key y)%Z.

Lemma insert_by_perm x l : insert_by x l ≡ₚ x :: l.
Proof.
  induction l as [|y l IH]; simpl; [done|]. case_decide; [done|].
  rewrite IH. constructor.
Qed.

Lemma sort_by_key_perm l : sort_by_key l ≡ₚ l.
Proof. induction l as [|x l IH]; simpl; [done|]. by rewrite insert_by_perm, IH. Qed.

Lemma insert_by_sorted x l : Sorted le_key l -> Sorted le_key (insert_by x l).
Proof.
  induction l as [|y l IH]; simpl; intros Hs; [by repeat constructor|].
  case_decide as Hle; [by constructor; [|constructor]|].
  apply Sorted_inv in Hs as [Hs Hh]. constructor; [by apply IH|].
  destruct l as [|z l]; simpl; [repeat constructor; unfold le_key; lia|].
  case_decide; constructor; [unfold le_key; lia|]. by inversion Hh.
Qed.

Lemma sort_by_key_sorted l : Sorted le_key (sort_by_key l).
Proof. induction l as [|x l IH]; simpl; [constructor|by apply insert_by_sorted]. Qed.

Lemma windows_dup_None l :
  Sorted le_key l -> windows_dup l = None <-> Sorted lt_key l.
Proof.
  induction l as [|x l IH]; intros Hs; [done|].
  apply Sorted_inv in Hs as [Hs Hh]. specialize (IH Hs).
  destruct l as [|y l]; [split; [by repeat constructor|done]|].
  cbn [windows_dup]. inversion Hh as [|? ? Hle]. subst. unfold le_key in Hle.
  case_decide as Heq.
  - split; [done|]. intros [_ Hl]%Sorted_inv. inversion Hl. unfold lt_key in *. lia.
  - split.
    + intros H. constructor; [by apply IH|]. constructor. unfold lt_key. lia.
    + intros [H _]%Sorted_inv. by apply IH.
Qed.

Lemma windows_dup_Some l x : windows_dup l = Some x -> x ∈ l /\ ~ NoDup (key <$> l).
Proof.
  induction l as [|a l IH]; [done|]. destruct l as [|b l]; [done|].
  cbn [windows_dup]. case_decide as Heq.
  - intros [= <-]. split; [left|]. intros [Hn _]%list.NoDup_cons. apply Hn.
    change (key a ∈ key b :: (key <$> l)). rewrite Heq. left.
  - intros [Hx Hn]%IH. split; [by right|]. by intros [_ Hnd]%list.NoDup_cons.
Qed.

#[local] Instance lt_key_trans : Transitive lt_key.
Proof. unfold lt_key. intros x y z. lia. Qed.

Lemma lt_sorted_NoDup l : Sorted lt_key l -> NoDup (key <$> l).
Proof.
  intros Hs%(Sorted_StronglySorted lt_key). induction Hs as [|x l Hs IH Hx]; [constructor|].
  simpl. constructor; [|done]. intros (y & Hk & Hy)%list_elem_of_fmap.
  rewrite list.Forall_forall in Hx. specialize (Hx y Hy). unfold lt_key in Hx. lia.
Qed.

(** The keys of a sorted list are determined by the multiset of elements. *)
Lemma sorted_keys_unique l l' :
  Sorted le_key l -> Sorted le_key l' -> l ≡ₚ l' -> key <$> l = key <$> l'.
Proof.
  intros Hl Hl' Hp. apply (Sorted_unique Z.le); [..|by apply fmap_Permutation];
    by apply (Sorted_fmap key le_key Z.le).
Qed.

#[local] Instance lt_key_antisymm : AntiSymm (=) lt_key.
Proof. unfold lt_key. intros x y Hxy Hyx. lia. Qed.

(** Distinct keys: the sorted list is unique. *)
Lemma lt_sorted_unique l l' : Sorted lt_key l -> Sorted lt_key l' -> l ≡ₚ l' -> l = l'.
Proof. apply (Sorted_unique lt_key). Qed.

Lemma windows_dup_keys l l' :
  key <$> l = key <$> l' -> key <$> windows_dup l = key <$> windows_dup l'.
Proof.
  revert l'. induction l as [|x l IH]; intros [|x' l'] Hk; [done|done|done|].
  injection Hk as Hx Hk. destruct l as [|y l], l' as [|y' l']; [done|done|done|].
  pose proof Hk as Hk'. injection Hk' as Hy _. specialize (IH (y' :: l') Hk).
  cbn [windows_dup] in *. destruct (decide (key x = key y)), (decide (key x' = key y'));
    [simpl; by rewrite Hx|congruence..|done].
Qed.

(** Sort, then look for a repeated key. *)
Definition sort_distinct (l : list A) : A + list A :=
  let v := sort_by_key l in
  match windows_dup v with
  | Some w => inl w
  | None => inr v
  end.

Lemma sort_distinct_spec l :
  match sort_distinct l with
  | inl w => w ∈ l /\ ~ NoDup (key <$> l)
  | inr v => NoDup (key <$> l) /\ Sorted lt_key v /\ v ≡ₚ l
  end.
Proof.
  pose proof (sort_by_key_perm l) as Hp. pose proof (sort_by_key_sorted l) as Hs.
  unfold sort_distinct. destruct (windows_dup (sort_by_key l)) as [w|] eqn:Hw.
  - apply windows_dup_Some in Hw as [Hw Hn]. by rewrite Hp in Hw, Hn.
  - apply windows_dup_None in Hw; [|done]. split; [|done]. rewrite <-Hp. by apply lt_sorted_NoDup.
Qed.

Lemma sort_distinct_perm l l' :
  l ≡ₚ l' ->
  match sort_distinct l, sort_distinct l' with
  | inl w, inl w' => key w = key w'
  | inr v, inr v' => v = v'
  | _, _ => False
  end.
Proof.
  intros Hp.
  assert (sort_by_key l ≡ₚ sort_by_key l') as Hpp by (by rewrite !sort_by_key_perm).
  pose proof (sorted_keys_unique _ _ (sort_by_key_sorted l) (sort_by_key_sorted l') Hpp) as Hk.
  apply windows_dup_keys in Hk. unfold sort_distinct.
  destruct (windows_dup (sort_by_key l)) as [w|] eqn:Hw,
    (windows_dup (sort_by_key l')) as [w'|] eqn:Hw'; simplify_eq/=; [done|].
  apply windows_dup_None in Hw, Hw'; [|apply sort_by_key_sorted..]. by apply lt_sorted_unique.
Qed.

End sort.
End Sort.

Module Topology.
Import Sort.

(** [Level] is a newtype of [u8], ordered as its number. *)
Definition Level := Z.
Definition ZONE : Level := 16%Z.
Definition RACK : Level := 32%Z.
Definition MACHINE : Level := 48%Z.
Definition DISK : Level := 64%Z.

(** The segments of a location, (level, u32 id) *)
Definition TopologyKey := list (Level * Z).

Inductive TopologyError :=
| DuplicateLevel (l : Level).

Definition TopologyKey_new (segments : list (Level * Z)) : outcome TopologyError TopologyKey :=
  match sort_distinct fst segments with
  | inl w => Err (DuplicateLevel (fst w))
  | inr v => mret v
  end.

Definition rack (rack : Z) : TopologyKey := [(RACK, rack)].
Definition rack_machine (rack machine : Z) : TopologyKey := [(RACK, rack); (MACHINE, machine)].

Fixpoint level (self : TopologyKey) (kind : Level) : option Z :=
  match self with
  | [] => None
  | (l, v) :: self => if decide (l = kind) then Some v else level self kind
  end.

Definition well_formed (k : TopologyKey) : Prop := Sorted (lt_key fst) k.

Lemma level_in k l v : NoDup (fst <$> k) -> level k l = Some v <-> (l, v) ∈ k.
Proof.
  induction k as [|[l' v'] k IH]; simpl.
  - split; [done|]. by intros ?%not_elem_of_nil.
  - intros [Hl Hnd]%list.NoDup_cons. rewrite elem_of_cons. case_decide as Heq; simpl in Hl.
    + subst l'. split; [intros [= ->]; by left|]. intros [[= ->]|Hin]; [done|].
      destruct Hl. by apply (list_elem_of_fmap_2 fst) in Hin.
    + rewrite IH by done. split; [by right|]. by intros [[= -> ->]|?].
Qed.

(** Locations.  [TopologyKey::new] fails exactly when a level is repeated,
    and names such a level; otherwise the segments are kept in increasing level
    order and [level] finds exactly the given segments.  The result, error
    included, does not depend on the order in which the segments are given. *)
Theorem TopologyKey_new_spec segments :
  match TopologyKey_new segments with
  | Ok k => NoDup (fst <$> segments) /\ well_formed k /\
      forall l v, level k l = Some v <-> (l, v) ∈ segments
  | Err (DuplicateLevel l) => ~ NoDup (fst <$> segments) /\ l ∈ fst <$> segments
  | Panic => False
  end /\
  forall segments', segments ≡ₚ segments' -> TopologyKey_new segments = TopologyKey_new segments'.
Proof.
  split.
  - pose proof (sort_distinct_spec fst segments) as H. unfold TopologyKey_new.
    destruct (sort_distinct fst segments) as [w|v].
    + destruct H as [Hw Hn]. split; [done|]. by apply list_elem_of_fmap_2.
    + destruct H as (Hnd & Hs & Hp). split; [done|]. split; [done|]. intros l w.
      rewrite level_in by (by rewrite Hp). by rewrite Hp.
  - intros segments' Hp. apply (sort_distinct_perm fst) in Hp. unfold TopologyKey_new.
    destruct (sort_distinct fst segments), (sort_distinct fst segments'); by rewrite ?Hp.
Qed.

End Topology.
