(* ===== verification/Cluster.v ===== *)
(** The cluster snapshot and the constraint interface of the placement crate:
    [crates/placement/src/cluster.rs], [config.rs] and [constraint.rs].  The
    theorems: a cluster map is built exactly from a non-empty list of nodes with
    distinct ids and finite non-negative weights and is kept in id order; the
    built-in constraints satisfy the partition contract that the placer needs. *)

From Stdlib Require Import SpecFloat.
From stdpp Require Import sorting.
From S2P Require Import Prelude F64 Topology.
Import F64 Sort Topology.

Module Cluster.

(** ** [config.rs] *)

Definition MAX_SHARDS : nat := 32.

Record PlacementConfig := { total_shards : nat }.

Inductive PlacementError :=
| EmptyCluster
| DuplicateNodeId (id : Z)
| InvalidWeight (id : Z) (weight : f64)
| InvalidTotalShards
| TooFewNodes (shards nodes : nat)
| ConstraintUnsatisfiable (shards filled : nat)
| OutputLengthMismatch (got expected : nat).

Definition validate_total_shards (total_shards : nat) : outcome PlacementError () :=
  guard_err (bool_decide (total_shards = 0 \/ MAX_SHARDS < total_shards)) InvalidTotalShards.

Definition PlacementConfig_new (total_shards : nat) : outcome PlacementError PlacementConfig :=
  _ ← validate_total_shards total_shards;
  mret {| total_shards := total_shards |}.

Definition PlacementConfig_validate (self : PlacementConfig) :
    outcome PlacementError PlacementConfig :=
  _ ← validate_total_shards (total_shards self);
  mret self.

(** ** [cluster.rs] *)

(** [NodeId] is a newtype of [u32]. *)
Record NodeInfo := {
  id : Z;
  location : TopologyKey;
  weight : f64
}.

Definition ClusterMap := list NodeInfo.

(** [!weight.is_finite() || weight < 0.0] *)
Definition bad_weight (n : NodeInfo) : bool :=
  negb (is_finite (weight n)) || f64_lt (weight n) f64_zero.

(** [weight > 0.0] *)
Definition active (n : NodeInfo) : bool := f64_gt (weight n) f64_zero.

Definition ClusterMap_new (nodes : list NodeInfo) : outcome PlacementError ClusterMap :=
  _ ← guard_err (bool_decide (nodes = [])) EmptyCluster;
  _ ← foldM (fun _ n =>
        guard_err (bad_weight n) (InvalidWeight (id n) (weight n))) () nodes;
  match sort_distinct id nodes with
  | inl w => Err (DuplicateNodeId (id w))
  | inr sorted => mret sorted
  end.

Definition active_node_count (self : ClusterMap) : nat :=
  length (filter (fun n => active n = true) self).

Definition distinct_count (self : ClusterMap) (l : Level) : nat :=
  length (foldl (fun seen n =>
    match level (location n) l with
    | Some v => if decide (v ∈ seen) then seen else seen ++ [v]
    | None => seen
    end) [] (filter (fun n => active n = true) self)).

(** ** [constraint.rs] *)

Inductive Admission :=
| Global
| Constrained
| Excluded.

Record PlacementConstraint := {
  group_key : NodeInfo -> Z;
  admission : nat -> NodeInfo -> Admission
}.

Definition U64_MAX : Z := 18446744073709551615.

Definition level_cap (l : Level) (max : nat) : PlacementConstraint := {|
  group_key node := default U64_MAX (level (location node) l);
  admission same_group_count new_node :=
    match level (location new_node) l with
    | None => Global
    | Some _ => if decide (same_group_count < max) then Global else Constrained
    end
|}.

Definition rack_cap (max : nat) : PlacementConstraint := level_cap RACK max.

Definition none : PlacementConstraint := {|
  group_key _ := 0%Z;
  admission _ _ := Global
|}.

(** The correctness contract of [PlacementConstraint], over the nodes it is used
    with: a node's group has a capacity ([None]: unbounded), and [admission] answers
    [Global] below the capacity and [Constrained] from it on. *)
Class PartitionMatroid (c : PlacementConstraint) (nodes : list NodeInfo) := {
  cap : Z -> option nat;
  admit_cap : forall n node, node ∈ nodes ->
    admission c n node =
    match cap (group_key c node) with
    | None => Global
    | Some max => if decide (n < max) then Global else Constrained
    end
}.

#[global] Instance none_matroid nodes : PartitionMatroid none nodes.
Proof. by exists (fun _ => None). Defined.

(** Topology ids are [u32]. *)
Definition u32_locations (nodes : list NodeInfo) : Prop :=
  forall node l v, node ∈ nodes -> level (location node) l = Some v -> (0 <= v < 2 ^ 32)%Z.

(** The sentinel group of the nodes without the level is unbounded; no [u32]
    value collides with it. *)
Definition level_cap_matroid l max nodes (Hu32 : u32_locations nodes) :
  PartitionMatroid (level_cap l max) nodes.
Proof.
  exists (fun g => if decide (g = U64_MAX) then None else Some max).
  intros n node Hn. simpl. destruct (level (location node) l) as [v|] eqn:Hv; simpl.
  - specialize (Hu32 _ _ _ Hn Hv). rewrite (decide_False (P:=v = U64_MAX)); [done|unfold U64_MAX; lia].
  - done.
Defined.

(** ** The cluster map *)

Definition good_weight (n : NodeInfo) : Prop :=
  is_finite (weight n) = true /\ f64_lt (weight n) f64_zero = false.

Lemma bad_weight_spec n : bad_weight n = false <-> good_weight n.
Proof. unfold bad_weight, good_weight. destruct (is_finite _), (f64_lt _ _); naive_solver. Qed.

Lemma check_weights_wp nodes :
  wp (foldM (fun _ n => guard_err (bad_weight n) (InvalidWeight (id n) (weight n))) () nodes)
    (fun _ => forall n, n ∈ nodes -> good_weight n)
    (fun e => exists n, n ∈ nodes /\ ~ good_weight n /\ e = InvalidWeight (id n) (weight n)).
Proof.
  apply (wp_foldM (fun pre _ => forall n, n ∈ pre -> good_weight n)).
  - by intros n ?%not_elem_of_nil.
  - intros pre n suf u -> Hpre. apply wp_guard.
    + intros Hg%bad_weight_spec n' [?| ->%list_elem_of_singleton]%elem_of_app; auto.
    + intros Hb. exists n. split; [rewrite elem_of_app, elem_of_cons; auto|]. split; [|done].
      intros Hg%bad_weight_spec. congruence.
  - done.
Qed.

(** A well-formed cluster map *)
Definition cluster_ok (map : ClusterMap) : Prop :=
  Sorted (lt_key id) map /\ (forall n, n ∈ map -> good_weight n).

Lemma cluster_ok_NoDup map : cluster_ok map -> NoDup (id <$> map).
Proof. intros [Hs _]. by apply lt_sorted_NoDup. Qed.

(** The weights of a cluster map are zero or positive and finite. *)
Lemma active_weight map n :
  cluster_ok map -> n ∈ map -> f64_eq (weight n) f64_zero = negb (active n).
Proof.
  intros [_ Hg] Hn. destruct (Hg n Hn) as [Hf Hp]. unfold active, f64_eq, f64_gt, f64_lt, SFeqb in *.
  by destruct (weight n) as [| | |[] m e].
Qed.

(** Cluster maps.  [ClusterMap::new] succeeds exactly on a non-empty list of
    nodes with finite non-negative weights and distinct ids; the map holds those
    nodes in increasing id order.  Otherwise the error names what is wrong. *)
Theorem ClusterMap_new_spec nodes :
  match ClusterMap_new nodes with
  | Ok map => nodes ≠ [] /\ cluster_ok map /\ map ≡ₚ nodes
  | Err EmptyCluster => nodes = []
  | Err (InvalidWeight i w) =>
      exists n, n ∈ nodes /\ ~ good_weight n /\ i = id n /\ w = weight n
  | Err (DuplicateNodeId i) => i ∈ id <$> nodes /\ ~ NoDup (id <$> nodes)
  | _ => False
  end.
Proof.
  unfold ClusterMap_new, guard_err at 1. case_bool_decide as Hne; bind_step; [done|].
  pose proof (check_weights_wp nodes) as Hw.
  destruct (foldM _ _ nodes) as [u|e|]; bind_step; [| |done].
  - pose proof (sort_distinct_spec id nodes) as Hs.
    destruct (sort_distinct id nodes) as [w|v].
    + destruct Hs as [Hin Hnd]. split; [by apply list_elem_of_fmap_2|done].
    + destruct Hs as (Hnd & Hs & Hp). split; [done|]. split; [|done].
      split; [done|]. intros n Hn. apply Hw. by rewrite <-Hp.
  - destruct Hw as (n & Hn & Hg & ->). by exists n.
Qed.

(** The values of a level among the active nodes *)
Definition level_values (map : ClusterMap) (l : Level) : list Z :=
  omap (fun n => level (location n) l) (filter (fun n => active n = true) map).

(** [distinct_count] counts each value of the level among the active nodes once. *)
Theorem distinct_count_spec map l :
  distinct_count map l = length (remove_dups (level_values map l)).
Proof.
  unfold distinct_count, level_values. set (nodes := filter _ map).
  enough (forall seen, NoDup seen ->
    exists new, foldl (fun seen n =>
      match level (location n) l with
      | Some v => if decide (v ∈ seen) then seen else seen ++ [v]
      | None => seen
      end) seen nodes = seen ++ new /\ NoDup (seen ++ new) /\
      forall v, v ∈ seen ++ new <-> v ∈ seen \/ v ∈ omap (fun n => level (location n) l) nodes) as H.
  { destruct (H [] ltac:(constructor)) as (new & -> & Hnd & Hv). simpl in *.
    apply Permutation_length, NoDup_Permutation; [done|apply NoDup_remove_dups|].
    intros v. rewrite Hv, elem_of_remove_dups, elem_of_nil. tauto. }
  induction nodes as [|n nodes IH]; intros seen Hseen; simpl.
  - exists []. rewrite app_nil_r. split; [done|]. split; [done|]. intros v. rewrite elem_of_nil. tauto.
  - destruct (level (location n) l) as [v|]; simpl; [|by apply IH]. case_decide as Hv.
    + destruct (IH seen Hseen) as (new & -> & Hnd & Hin). exists new. split; [done|]. split; [done|].
      intros w. rewrite Hin, elem_of_cons. split; [tauto|]. by intros [?|[->|?]]; auto.
    + destruct (IH (seen ++ [v])) as (new & -> & Hnd & Hin).
      { apply list.NoDup_app. split; [done|]. split; [|apply list.NoDup_singleton].
        by intros w Hw ->%list_elem_of_singleton. }
      exists (v :: new). rewrite <-app_assoc in *. split; [done|]. split; [done|].
      intros w. rewrite Hin, elem_of_app, list_elem_of_singleton, elem_of_cons. tauto.
Qed.

End Cluster.
