(* ===== verification/LogTables.v ===== *)
(** The constants of the placement logarithm:
    [crates/placement/src/deterministic_log_tables.rs], transcribed.  An [f64] is
    given by its bits, as [fb] does in the source. *)

From S2P Require Import Prelude F64.
Import F64.

Local Open Scope Z_scope.

Module LogTables.

(** [DInt64] of deterministic_log.rs: a 128-bit significand, an exponent and a sign *)
Record DInt64 := MkD { hi : Z; lo : Z; ex_ : Z; sgn : Z }.

Definition fb (bits : Z) : f64 := from_bits bits.

Definition M_ONE : DInt64 := MkD 0x8000000000000000 0x0000000000000000 (0) 1.

Definition LOG2 : DInt64 := MkD 0xb17217f7d1cf79ab 0xc9e3b39803f2f6af (-1) 0.

Definition ZERO : DInt64 := MkD 0x0000000000000000 0x0000000000000000 (0) 0.

Definition INVERSE : list f64 := fb <$> [
  0x3ff6980000000000; 0x3ff6880000000000; 0x3ff6780000000000; 0x3ff6680000000000;
  0x3ff6580000000000; 0x3ff6480000000000; 0x3ff6380000000000; 0x3ff6300000000000;
  0x3ff6200000000000; 0x3ff6100000000000; 0x3ff6000000000000; 0x3ff5f00000000000;
  0x3ff5e00000000000; 0x3ff5d00000000000; 0x3ff5c00000000000; 0x3ff5b00000000000;
  0x3ff5a80000000000; 0x3ff5980000000000; 0x3ff5880000000000; 0x3ff5780000000000;
  0x3ff5680000000000; 0x3ff5600000000000; 0x3ff5500000000000; 0x3ff5400000000000;
  0x3ff5300000000000; 0x3ff5200000000000; 0x3ff5180000000000; 0x3ff5080000000000;
  0x3ff4f80000000000; 0x3ff4f00000000000; 0x3ff4e00000000000; 0x3ff4d00000000000;
  0x3ff4c00000000000; 0x3ff4b80000000000; 0x3ff4a80000000000; 0x3ff4a00000000000;
  0x3ff4900000000000; 0x3ff4800000000000; 0x3ff4780000000000; 0x3ff4680000000000;
  0x3ff4580000000000; 0x3ff4500000000000; 0x3ff4400000000000; 0x3ff4300000000000;
  0x3ff4280000000000; 0x3ff4180000000000; 0x3ff4100000000000; 0x3ff4000000000000;
  0x3ff3f80000000000; 0x3ff3e80000000000; 0x3ff3e00000000000; 0x3ff3d00000000000;
  0x3ff3c00000000000; 0x3ff3b80000000000; 0x3ff3a80000000000; 0x3ff3a00000000000;
  0x3ff3900000000000; 0x3ff3880000000000; 0x3ff3780000000000; 0x3ff3700000000000;
  0x3ff3600000000000; 0x3ff3580000000000; 0x3ff3500000000000; 0x3ff3400000000000;
  0x3ff3380000000000; 0x3ff3280000000000; 0x3ff3200000000000; 0x3ff3100000000000;
  0x3ff3080000000000; 0x3ff3000000000000; 0x3ff2f00000000000; 0x3ff2e80000000000;
  0x3ff2d80000000000; 0x3ff2d00000000000; 0x3ff2c80000000000; 0x3ff2b80000000000;
  0x3ff2b00000000000; 0x3ff2a00000000000; 0x3ff2980000000000; 0x3ff2900000000000;
  0x3ff2800000000000; 0x3ff2780000000000; 0x3ff2700000000000; 0x3ff2600000000000;
  0x3ff2580000000000; 0x3ff2500000000000; 0x3ff2400000000000; 0x3ff2380000000000;
  0x3ff2300000000000; 0x3ff2280000000000; 0x3ff2180000000000; 0x3ff2100000000000;
  0x3ff2080000000000; 0x3ff2000000000000; 0x3ff1f00000000000; 0x3ff1e80000000000;
  0x3ff1e00000000000; 0x3ff1d00000000000; 0x3ff1c80000000000; 0x3ff1c00000000000;
  0x3ff1b80000000000; 0x3ff1b00000000000; 0x3ff1a00000000000; 0x3ff1980000000000;
  0x3ff1900000000000; 0x3ff1880000000000; 0x3ff1800000000000; 0x3ff1700000000000;
  0x3ff1680000000000; 0x3ff1600000000000; 0x3ff1580000000000; 0x3ff1500000000000;
  0x3ff1400000000000; 0x3ff1380000000000; 0x3ff1300000000000; 0x3ff1280000000000;
  0x3ff1200000000000; 0x3ff1180000000000; 0x3ff1100000000000; 0x3ff1000000000000;
  0x3ff0f80000000000; 0x3ff0f00000000000; 0x3ff0e80000000000; 0x3ff0e00000000000;
  0x3ff0d80000000000; 0x3ff0d00000000000; 0x3ff0c80000000000; 0x3ff0c00000000000;
  0x3ff0b00000000000; 0x3ff0a80000000000; 0x3ff0a00000000000; 0x3ff0980000000000;
  0x3ff0900000000000; 0x3ff0880000000000; 0x3ff0800000000000; 0x3ff0780000000000;
  0x3ff0700000000000; 0x3ff0680000000000; 0x3ff0600000000000; 0x3ff0580000000000;
  0x3ff0500000000000; 0x3ff0480000000000; 0x3ff0400000000000; 0x3ff0380000000000;
  0x3ff0300000000000; 0x3ff0280000000000; 0x3ff0200000000000; 0x3ff0180000000000;
  0x3ff0100000000000; 0x3ff0080000000000; 0x3feff80000000000; 0x3fefe80000000000;
  0x3fefd80000000000; 0x3fefc80000000000; 0x3fefb80000000000; 0x3fefa80000000000;
  0x3fef980000000000; 0x3fef880000000000; 0x3fef780000000000; 0x3fef680000000000;
  0x3fef580000000000; 0x3fef500000000000; 0x3fef400000000000; 0x3fef300000000000;
  0x3fef200000000000; 0x3fef100000000000; 0x3fef000000000000; 0x3feef00000000000;
  0x3feee00000000000; 0x3feed00000000000; 0x3feec80000000000; 0x3feeb80000000000;
  0x3feea80000000000; 0x3fee980000000000; 0x3fee880000000000; 0x3fee780000000000;
  0x3fee700000000000; 0x3fee600000000000; 0x3fee500000000000; 0x3fee400000000000;
  0x3fee300000000000; 0x3fee280000000000; 0x3fee180000000000; 0x3fee080000000000;
  0x3fedf80000000000; 0x3fedf00000000000; 0x3fede00000000000; 0x3fedd00000000000;
  0x3fedc00000000000; 0x3fedb80000000000; 0x3feda80000000000; 0x3fed980000000000;
  0x3fed900000000000; 0x3fed800000000000; 0x3fed700000000000; 0x3fed600000000000;
  0x3fed580000000000; 0x3fed480000000000; 0x3fed380000000000; 0x3fed300000000000;
  0x3fed200000000000; 0x3fed100000000000; 0x3fed080000000000; 0x3fecf80000000000;
  0x3fece80000000000; 0x3fece00000000000; 0x3fecd00000000000; 0x3fecc80000000000;
  0x3fecb80000000000; 0x3feca80000000000; 0x3feca00000000000; 0x3fec900000000000;
  0x3fec880000000000; 0x3fec780000000000; 0x3fec680000000000; 0x3fec600000000000;
  0x3fec500000000000; 0x3fec480000000000; 0x3fec380000000000; 0x3fec300000000000;
  0x3fec200000000000; 0x3fec180000000000; 0x3fec080000000000; 0x3febf80000000000;
  0x3febf00000000000; 0x3febe00000000000; 0x3febd80000000000; 0x3febc80000000000;
  0x3febc00000000000; 0x3febb00000000000; 0x3feba80000000000; 0x3feb980000000000;
  0x3feb900000000000; 0x3feb800000000000; 0x3feb780000000000; 0x3feb680000000000;
  0x3feb600000000000; 0x3feb580000000000; 0x3feb480000000000; 0x3feb400000000000;
  0x3feb300000000000; 0x3feb280000000000; 0x3feb180000000000; 0x3feb100000000000;
  0x3feb000000000000; 0x3feaf80000000000; 0x3feaf00000000000; 0x3feae00000000000;
  0x3fead80000000000; 0x3feac80000000000; 0x3feac00000000000; 0x3feab80000000000;
  0x3feaa80000000000; 0x3feaa00000000000; 0x3fea900000000000; 0x3fea880000000000;
  0x3fea800000000000; 0x3fea700000000000; 0x3fea680000000000; 0x3fea600000000000;
  0x3fea500000000000; 0x3fea480000000000; 0x3fea400000000000; 0x3fea300000000000;
  0x3fea280000000000; 0x3fea200000000000; 0x3fea100000000000; 0x3fea080000000000;
  0x3fea000000000000; 0x3fe9f00000000000; 0x3fe9e80000000000; 0x3fe9e00000000000;
  0x3fe9d00000000000; 0x3fe9c80000000000; 0x3fe9c00000000000; 0x3fe9b00000000000;
  0x3fe9a80000000000; 0x3fe9a00000000000; 0x3fe9980000000000; 0x3fe9880000000000;
  0x3fe9800000000000; 0x3fe9780000000000; 0x3fe9680000000000; 0x3fe9600000000000;
  0x3fe9580000000000; 0x3fe9500000000000; 0x3fe9400000000000; 0x3fe9380000000000;
  0x3fe9300000000000; 0x3fe9280000000000; 0x3fe9200000000000; 0x3fe9100000000000;
  0x3fe9080000000000; 0x3fe9000000000000; 0x3fe8f80000000000; 0x3fe8e80000000000;
  0x3fe8e00000000000; 0x3fe8d80000000000; 0x3fe8d00000000000; 0x3fe8c80000000000;
  0x3fe8b80000000000; 0x3fe8b00000000000; 0x3fe8a80000000000; 0x3fe8a00000000000;
  0x3fe8980000000000; 0x3fe8880000000000; 0x3fe8800000000000; 0x3fe8780000000000;
  0x3fe8700000000000; 0x3fe8680000000000; 0x3fe8600000000000; 0x3fe8500000000000;
  0x3fe8480000000000; 0x3fe8400000000000; 0x3fe8380000000000; 0x3fe8300000000000;
  0x3fe8280000000000; 0x3fe8200000000000; 0x3fe8100000000000; 0x3fe8080000000000;
  0x3fe8000000000000; 0x3fe7f80000000000; 0x3fe7f00000000000; 0x3fe7e80000000000;
  0x3fe7e00000000000; 0x3fe7d80000000000; 0x3fe7c80000000000; 0x3fe7c00000000000;
  0x3fe7b80000000000; 0x3fe7b00000000000; 0x3fe7a80000000000; 0x3fe7a00000000000;
  0x3fe7980000000000; 0x3fe7900000000000; 0x3fe7880000000000; 0x3fe7800000000000;
  0x3fe7780000000000; 0x3fe7700000000000; 0x3fe7600000000000; 0x3fe7580000000000;
  0x3fe7500000000000; 0x3fe7480000000000; 0x3fe7400000000000; 0x3fe7380000000000;
  0x3fe7300000000000; 0x3fe7280000000000; 0x3fe7200000000000; 0x3fe7180000000000;
  0x3fe7100000000000; 0x3fe7080000000000; 0x3fe7000000000000; 0x3fe6f80000000000;
  0x3fe6f00000000000; 0x3fe6e80000000000; 0x3fe6e00000000000; 0x3fe6d80000000000;
  0x3fe6d00000000000; 0x3fe6c80000000000; 0x3fe6c00000000000; 0x3fe6b80000000000;
  0x3fe6b00000000000; 0x3fe6a80000000000; 0x3fe6a00000000000].

Definition LOG_INV : list (f64 * f64) := (fun '(l1, l2) => (fb l1, fb l2)) <$> [
  (0xbfd615ddb4bec000, 0xbd13c7ca90bc04b2); (0xbfd5e87b20c29000, 0xbd3527d18f7738fa);
  (0xbfd5baf846aa2000, 0x3d339ae8f873fa41); (0xbfd58d54f86e0000, 0xbd2791f30a795215);
  (0xbfd55f9107a44000, 0x3d11e64778df4a62); (0xbfd531ac457ee000, 0xbd3df83b7d931501);
  (0xbfd503a682cb2000, 0x3d2a68c8f16f9b5d); (0xbfd4ec9732600000, 0xbd234d7aaf04d104);
  (0xbfd4be5f95778000, 0x3d3d7c92cd9ad824); (0xbfd4900680401000, 0x3d38bccffe1a0f8c);
  (0xbfd4618bc21c6000, 0x3d13d82f484c84cc); (0xbfd432ef2a04f000, 0x3d3fb129931715ad);
  (0xbfd404308686a000, 0xbd3f8ef43049f7d3); (0xbfd3d54fa5c1f000, 0xbd3c3e1cd9a395e3);
  (0xbfd3a64c55694000, 0xbd37a71cbcd735d0); (0xbfd3772662bfe000, 0x3d3e9436ac53b023);
  (0xbfd35f865c933000, 0x3d3b07de4ea1a54a); (0xbfd3302c16586000, 0xbd36217dc2a3e08b);
  (0xbfd300aead063000, 0xbd342f568b75fcac); (0xbfd2d10dec508000, 0xbd360c61f7088353);
  (0xbfd2a1499f763000, 0x3d30dbbf51f3aadc); (0xbfd2895a13de8000, 0xbd3a8d7ad24c13f0);
  (0xbfd2596010df7000, 0xbd38e7bc224ea3e3); (0xbfd22941fbcf8000, 0x3d3a6976f5eb0963);
  (0xbfd1f8ff9e48a000, 0xbd27946c040cbe77); (0xbfd1c898c169a000, 0x3d381410e5c62aff);
  (0xbfd1b05791f08000, 0x3d32dd466dc55e2d); (0xbfd17fb98e151000, 0x3d3a8a8ba74a2684);
  (0xbfd14ef67f887000, 0x3d3e97a65dfc9794); (0xbfd136870293b000, 0x3d3d3e8499d67123);
  (0xbfd1058bf9ae5000, 0x3d34ab9d817d52cd); (0xbfd0d46b579ab000, 0xbd3d2c81f640e1e6);
  (0xbfd0a324e2739000, 0xbd0c6bee7ef4030e); (0xbfd08a73667c5000, 0xbd3ebc1d40c5a329);
  (0xbfd058f3c703f000, 0x3d30e866bcd236ad); (0xbfd0402594b4d000, 0xbcf036b89ef42d7f);
  (0xbfd00e6c45ad5000, 0xbcdcc68d52e01203); (0xbfcfb9186d5e4000, 0x3d0d572aab993c87);
  (0xbfcf871b28956000, 0x3d3f75fd6a526efe); (0xbfcf22e5e72f2000, 0x3d3f454f1417e41f);
  (0xbfcebe61f4dd8000, 0x3d23d45330fdca4d); (0xbfce8c0252aa6000, 0x3d26805b80e8e6ff);
  (0xbfce27076e2b0000, 0x3d3a342c2af0003c); (0xbfcdc1bca0abe000, 0xbd38fac1a628ccc6);
  (0xbfcd8ef91af32000, 0x3d15105fc364c784); (0xbfcd293581b6c000, 0x3d383270128aaa5f);
  (0xbfccf6354e09c000, 0xbd2771239a07d55b); (0xbfcc8ff7c79aa000, 0x3d27794f689f8434);
  (0xbfcc5cba543ae000, 0xbd20929decb454fc); (0xbfcbf601bb0e4000, 0xbd2386a947c378b5);
  (0xbfcbc286742d8000, 0xbd39ac53f39d121c); (0xbfcb5b519e8fc000, 0x3d34b722ec011f31);
  (0xbfcaf3c94e80c000, 0x3cba4e633fcd9066); (0xbfcabfe5ae462000, 0x3d3b68f5395f139d);
  (0xbfca57df28244000, 0xbd3b99c8ca1d9abb); (0xbfca23bc1fe2c000, 0x3d3539cd91dc9f0b);
  (0xbfc9bb362e7e0000, 0x3d21f2a8a1ce0ffc); (0xbfc986d322818000, 0xbcf93b564dd44000);
  (0xbfc91dcc8c340000, 0xbd37bc6abddeff46); (0xbfc8e928de886000, 0xbd3a8154b13d72d5);
  (0xbfc87fa06520c000, 0xbd322120401202fc); (0xbfc84abb75866000, 0x3d3d8daadf4e2bd2);
  (0xbfc815c0a1436000, 0x3d302a52f9201ce8); (0xbfc7ab890210e000, 0x3d2bdb9072534a58);
  (0xbfc7764c128f2000, 0xbd0274903479e3d1); (0xbfc70b8f97a1a000, 0xbd34ea64f6a95bef);
  (0xbfc6d60fe719e000, 0x3d3bc6e557134767); (0xbfc66acd4272a000, 0xbd3aa1bdbfc6c785);
  (0xbfc6350a28aaa000, 0xbd2d5ec0ab8163af); (0xbfc5ff3070a7a000, 0x3d38586f183bebf2);
  (0xbfc59338d9982000, 0xbcf0ba68b7555d4a); (0xbfc55d1ad4232000, 0xbd3add94dda647e8);
  (0xbfc4f099f4a24000, 0x3d3e9bf2fafeaf27); (0xbfc4ba36f39a6000, 0x3d34354bb3f219e5);
  (0xbfc483bccce6e000, 0xbd1eea52723f6369); (0xbfc41682bf728000, 0x3d210047081f849d);
  (0xbfc3dfc2b0ecc000, 0xbd28a72a62b8c13f); (0xbfc371fc201e8000, 0xbd3ee8779b2d8abc);
  (0xbfc33af575770000, 0xbd3c9ecca2fe72a5); (0xbfc303d718e48000, 0x3cd680b5ce3ecb05);
  (0xbfc29552f8200000, 0x3d35b967f4471dfc); (0xbfc25ded0abc6000, 0xbd35a3854f176449);
  (0xbfc2266f190a6000, 0x3d24d20ab840e7f6); (0xbfc1b72ad52f6000, 0xbd2e80a41811a396);
  (0xbfc17f6458fca000, 0xbd2843fad093c8dc); (0xbfc1478584674000, 0xbd1563451027c750);
  (0xbfc0d77e7cd08000, 0xbd3cb2cd2ee2f482); (0xbfc09f561ee72000, 0x3d28f3057157d1a8);
  (0xbfc0671512ca6000, 0x3d2a47579cdc0a3d); (0xbfc02ebb42bf4000, 0x3d15a8fa5ce00e5d);
  (0xbfbf7b79fec38000, 0x3d010987e897ed01); (0xbfbf0a30c0118000, 0x3d3d599e83368e91);
  (0xbfbe98b549670000, 0xbd34677489c50e97); (0xbfbe27076e2b0000, 0x3d2a342c2af0003c);
  (0xbfbd4313d66cc000, 0x3d29454379135713); (0xbfbcd0cdbf8c0000, 0xbd33e14db50dd743);
  (0xbfbc5e548f5bc000, 0xbd1d0c57585fbe06); (0xbfbb78c82bb10000, 0x3d325ef7bc3987e7);
  (0xbfbb05b49bee4000, 0xbd0ff22c18f84a5e); (0xbfba926d3a4ac000, 0xbd3563650bd22a9c);
  (0xbfba1ef1d8060000, 0xbd3cd4176df97bcb); (0xbfb9ab4246204000, 0x3d28a64826787061);
  (0xbfb8c345d6318000, 0xbd3b20f5acb42a66); (0xbfb84ef898e84000, 0x3d37d5cd246977c9);
  (0xbfb7da766d7b0000, 0xbd32cc844480c89b); (0xbfb765bf23a6c000, 0x3cfecbc035c4256a);
  (0xbfb6f0d28ae58000, 0x3d34b4641b664613); (0xbfb60658a9374000, 0xbd30c3b1dee9c4f8);
  (0xbfb590cafdf00000, 0xbd3c284f5722abaa); (0xbfb51b073f060000, 0xbd383f69278e686a);
  (0xbfb4a50d3aa1c000, 0x3d2f7fe1308973e2); (0xbfb42edcbea64000, 0xbd1bc0eeea7c9acd);
  (0xbfb341d7961bc000, 0xbd31d09299837610); (0xbfb2cb0283f5c000, 0xbd3e1ee2ca657021);
  (0xbfb253f62f0a0000, 0xbd3416f8fb69a701); (0xbfb1dcb263db0000, 0xbd39444f5e9e8981);
  (0xbfb16536eea38000, 0x3d147c5e768fa309); (0xbfb0ed839b554000, 0x3d3901f46d48abb4);
  (0xbfb0759835990000, 0x3d3b8ecfe4b59987); (0xbfaf0a30c0118000, 0x3d2d599e83368e91);
  (0xbfae19070c278000, 0x3d2fea4664629e86); (0xbfad276b8adb0000, 0xbd16a423c78a64b0);
  (0xbfac355dd0920000, 0xbd2f2ccc9abf8388); (0xbfab42dd71198000, 0x3d1c827ae5d6704c);
  (0xbfaa4fe9ffa40000, 0x3d36e584a0402925); (0xbfa95c830ec90000, 0x3d2c148297c5feb8);
  (0xbfa868a830840000, 0x3d12623a134ac693); (0xbfa77458f6330000, 0x3d3181dce586af09);
  (0xbfa58a5bafc90000, 0x3d2b2b739570ad39); (0xbfa494acc34d8000, 0xbd211c78a56fd247);
  (0xbfa39e87b9fe8000, 0xbd3eafd480ad9015); (0xbfa2a7ec22150000, 0x3d278ce77a9163fe);
  (0xbfa1b0d989240000, 0x3d33401e9ae889bb); (0xbfa0b94f7c198000, 0x3d2e89896f022783);
  (0xbf9f829b0e780000, 0xbd2980267c7e09e4); (0xbf9d91a66c540000, 0xbd2e61f1658cfb9a);
  (0xbf9b9fc027b00000, 0x3d3b9a010ae6922a); (0xbf99ace7551d0000, 0x3d2d75d97ec7c410);
  (0xbf97b91b07d60000, 0x3d33b955b602ace4); (0xbf95c45a51b90000, 0x3d263bb6216d87d8);
  (0xbf93cea443470000, 0x3d36a2c432d6a40b); (0xbf91d7f7eb9f0000, 0x3d14193a83fcc7a6);
  (0xbf8fc0a8b0fc0000, 0xbcdf1e7cf6d3a69c); (0xbf8bcf712c740000, 0xbd1c25e097bd9771);
  (0xbf87dc475f820000, 0x3d3eb1245b5da1f5); (0xbf83e7295d260000, 0x3d2609c1ff29a114);
  (0xbf7fe02a6b100000, 0xbd19e23f0dda40e4); (0xbf77ee11ebd80000, 0xbd0749d3c2d23a07);
  (0xbf6ff00aa2b00000, 0xbd20bc04a086b56a); (0xbf5ff802a9b00000, 0x3d33bc661d61c5eb);
  (0x3f50020055600000, 0x3d356224cd5f35f8); (0x3f68090482880000, 0x3d285c0696a70c0c);
  (0x3f740c8a74780000, 0x3d1e3871df070002); (0x3f7c189cbb100000, 0xbd3d805512588560);
  (0x3f82145e939e0000, 0x3d3e3d1238c4ea00); (0x3f861e77e8b60000, 0xbd38073eeaf8eaf3);
  (0x3f8a2a9c6c180000, 0xbd3f73bc4d6d3472); (0x3f8e38ce30340000, 0xbd39de88a3da281a);
  (0x3f912487a5500000, 0x3d3fdbe5fed4b393); (0x3f932db0ea130000, 0x3d2710cb130895fc);
  (0x3f9537e3f45f0000, 0x3d2ab259d2d7f253); (0x3f963d6178690000, 0x3d07abf389596542);
  (0x3f98492528c90000, 0xbd2aa0ba325a0c34); (0x3f9a55f548c60000, 0xbd2de0709f2d03c9);
  (0x3f9c63d2ec150000, 0xbd35439ce030a687); (0x3f9e72bf28140000, 0xbd28d75149774d47);
  (0x3fa0415d89e78000, 0xbd3dddc7f461c516); (0x3fa149e3e4008000, 0xbd32b98a9a4168fd);
  (0x3fa252f32f8d0000, 0x3d283e9ae021b67b); (0x3fa35c8bfaa10000, 0x3d38357d5ef9eb35);
  (0x3fa3e18c1ca08000, 0x3d3748ed3f6e378e); (0x3fa4ebf4334a0000, 0xbd2d9150f73be773);
  (0x3fa5f6e730790000, 0xbd20485a8012494c); (0x3fa70265a5510000, 0xbd2888df11fd5ce7);
  (0x3fa80e7023d90000, 0xbd399dc16f28bf45); (0x3fa91b073efd8000, 0xbd19d7c53f76ca96);
  (0x3fa9a187b5740000, 0xbd30c22e4ec4d90d); (0x3faaaef2d0fb0000, 0x3d20fc1a353bb42e);
  (0x3fabbcebfc690000, 0xbd17bf868c317c2a); (0x3faccb73cddd8000, 0x3d3965c36e09f5fe);
  (0x3fadda8adc680000, 0xbd21b1ac64d9e42f); (0x3fae624c4a0b8000, 0xbd30f25c74676689);
  (0x3faf723b51800000, 0xbd3d6eb0dd5610d3); (0x3fb0415d89e74000, 0x3d1111c05cf1d753);
  (0x3fb0c9e615ac4000, 0x3d2c2da80974d976); (0x3fb10e45b3cb0000, 0xbd37cf69284a3465);
  (0x3fb1973bd1464000, 0x3d3566d154f930b3); (0x3fb2207b5c784000, 0x3d349d8cfc10c7bf);
  (0x3fb2aa04a4470000, 0x3d37a48ba8b1cb41); (0x3fb2eee507b40000, 0x3d08081edd77c860);
  (0x3fb378dd7f748000, 0x3d37141128f1faca); (0x3fb403207b414000, 0x3d26fd84aa8157c0);
  (0x3fb4485e03dbc000, 0x3d3fad46e8d26ab7); (0x3fb4d3115d208000, 0xbcf53a2582f4e1ef);
  (0x3fb55e10050e0000, 0x3d0c1d740c53c72e); (0x3fb5e95a4d978000, 0x3d31cb7ce1d17171);
  (0x3fb62f1be7d78000, 0xbd2179957ed63c4e); (0x3fb6bad83c188000, 0x3d0daf3cc08926ae);
  (0x3fb746e100228000, 0xbd3126d16e1e21d2); (0x3fb78d02263d8000, 0x3d069b5794b69fb7);
  (0x3fb8197e2f410000, 0xbd3c0fe460d20041); (0x3fb8a6477a91c000, 0x3d3c28c0af9bd6df);
  (0x3fb8ecc933aec000, 0xbd222f39be67f7aa); (0x3fb97a07024cc000, 0xbcf8bcc1732093ce);
  (0x3fba0792e9278000, 0xbd0a9ce6c9ad51bf); (0x3fba4e7640b1c000, 0xbd0e42b6b94407c8);
  (0x3fbadc77ee5b0000, 0xbd3573b209c31904); (0x3fbb23965a530000, 0xbceff64eea137079);
  (0x3fbbb20e936d8000, 0xbd368ba835459b8e); (0x3fbc40d6425a4000, 0x3d3cb1121d1930dd);
  (0x3fbc885801bc4000, 0x3d2646d1c65aacd3); (0x3fbd179788218000, 0x3d336433b5efbeed);
  (0x3fbd5f5565920000, 0x3d30e239cc185469); (0x3fbdef0d8d468000, 0xbd324750412e9a74);
  (0x3fbe7f1691a34000, 0xbd32c1c59bc77bfa); (0x3fbec739830a0000, 0x3d311fcba80cdd10);
  (0x3fbf57bc7d900000, 0x3d176a6c9ea8b04e); (0x3fbfa01c9db58000, 0xbd08f351fa48a730);
  (0x3fc0188d2ecf6000, 0x3d03f9651cff9dfe); (0x3fc03cdc0a51e000, 0x3d381a9cf169fc5c);
  (0x3fc08598b59e4000, 0xbd27e5dd7009902c); (0x3fc0aa0691268000, 0xbd345519d7032129);
  (0x3fc0f301717d0000, 0xbd3e09b441ae86c5); (0x3fc13c2605c3a000, 0xbd2cf5fdd94f6509);
  (0x3fc160c8024b2000, 0x3d2ec2d2a9009e3d); (0x3fc1aa2b7e240000, 0xbd31ac38dde3b366);
  (0x3fc1ceed09854000, 0xbd315c1c39192af9); (0x3fc2188fd9808000, 0xbd3b3a1e7f50c701);
  (0x3fc23d712a49c000, 0x3d100d238fd3df5c); (0x3fc28753bc11a000, 0x3d37494e359302e6);
  (0x3fc2ac55095f6000, 0xbd1d3466d0c6c8a8); (0x3fc2f677cbbc0000, 0x3d352b302160f40d);
  (0x3fc31b994d3a4000, 0x3d3f098ee3a50810); (0x3fc365fcb015a000, 0xbd3fd3a0afb9691b);
  (0x3fc38b3e9e028000, 0xbd370ef0545c17f9); (0x3fc3d5e3126bc000, 0x3d13fb2f85096c4b);
  (0x3fc3fb45a5992000, 0x3d319713c0cae559); (0x3fc420b327410000, 0xbd116282c85a0884);
  (0x3fc46baf0f9f6000, 0xbd1249cd0790841a); (0x3fc4913d8333c000, 0xbd353e43558124c4);
  (0x3fc4dc7b897bc000, 0x3d0c79b60ae1ff0f); (0x3fc5022b292f6000, 0x3d348a05ff36a25b);
  (0x3fc54dabc2610000, 0x3d2746fee5c8d0d8); (0x3fc5737cc9018000, 0x3d39baa7a6b887f6);
  (0x3fc5bf406b544000, 0xbd127023eb68981c); (0x3fc5e533144c2000, 0xbd31ce0bf3b290ea);
  (0x3fc60b3100b0a000, 0xbd371456c988f814); (0x3fc6574ebe8c2000, 0xbd398c1d34f0f462);
  (0x3fc67d6e9d786000, 0xbd311e8830a706d3); (0x3fc6c9d07d204000, 0xbcdc73fafd9b2dca);
  (0x3fc6f0128b756000, 0x3d3577390d31ef0f); (0x3fc716600c914000, 0x3ce51b157cec3838);
  (0x3fc7631d82936000, 0xbd25e77dc7c5f3e1); (0x3fc7898d85444000, 0x3d38e67be3dbaf3f);
  (0x3fc7d6903caf6000, 0xbd24c06b17c301d7); (0x3fc7fd22ff59a000, 0xbd158bebf457b7d2);
  (0x3fc823c16551a000, 0x3d1e0ddb9a631e83); (0x3fc871213750e000, 0x3d3328eb42f9af75);
  (0x3fc897e2b17b2000, 0xbd296b37380cbe9e); (0x3fc8beafeb390000, 0xbd073d54aae92cd1);
  (0x3fc90c6db9fcc000, 0xbd1935f57718d7ca); (0x3fc9335e5d594000, 0x3d33115c3abd47da);
  (0x3fc95a5adcf70000, 0x3d07f22858a0ff6f); (0x3fc9a8778deba000, 0x3d3470fa3efec390);
  (0x3fc9cf97cdce0000, 0x3d3d862f10c414e3); (0x3fc9f6c40708a000, 0xbd3337d94bcd3f43);
  (0x3fca454082e6a000, 0x3d360a77c81f7171); (0x3fca6c90d44b8000, 0xbd3f63b7f037b0c6);
  (0x3fca93ed3c8ae000, 0xbd28724350562169); (0x3fcae2ca6f672000, 0x3d37a8d5ae54f550);
  (0x3fcb0a4b48fc2000, 0xbd22e72d5c3998ed); (0x3fcb31d8575bc000, 0x3d3c794e562a63cb);
  (0x3fcb811730b82000, 0x3d1e90683b9cd768); (0x3fcba8c90ae4a000, 0x3d3a32e7f44432da);
  (0x3fcbd087383be000, 0xbd2d4bc4595412b6); (0x3fcc2028ab180000, 0xbd292e0ee55c7ac6);
  (0x3fcc480c0005c000, 0x3d39a294d5e44e76); (0x3fcc6ffbc6f00000, 0x3d3ee138d3a69d43);
  (0x3fcc97f8079d4000, 0x3d23b161a8c6e6c5); (0x3fcce816157f2000, 0xbd29e0aba2099515);
  (0x3fcd1037f2656000, 0xbd084a7e75b6f6e4); (0x3fcd386668720000, 0xbd373650b38932bc);
  (0x3fcd88e93fb30000, 0xbd375f280234bf51); (0x3fcdb13db0d48000, 0x3d32806a847527e6);
  (0x3fcdd99edaf6e000, 0xbd302ec669c756eb); (0x3fce020cc6236000, 0xbd252b00adb91424);
  (0x3fce530effe72000, 0xbd3fdbdbb13f7c18); (0x3fce7ba35eb78000, 0xbd0d5eee23793649);
  (0x3fcea4449f04a000, 0x3d35e91663732a36); (0x3fceccf2c8fea000, 0xbd3bec63a3e75640);
  (0x3fcef5ade4dd0000, 0xbcca211565bb8e11); (0x3fcf474b134e0000, 0xbd3bae49f1df7b5e);
  (0x3fcf702d36778000, 0xbd10819516673e23); (0x3fcf991c6cb3c000, 0xbd390d04cd7cc834);
  (0x3fcfc218be620000, 0x3d34bba46f1cf6a0); (0x3fd00a1c6adda000, 0x3d31cd8d688b9e18);
  (0x3fd01eae5626c000, 0x3d3a43dcfade85ae); (0x3fd03346e0106000, 0x3cf89ff8a966395c);
  (0x3fd047e60cde8000, 0x3d2dbdf10d397f3c); (0x3fd05c8be0d96000, 0x3d2ad0f1c77ccb58);
  (0x3fd085eb8f8ae000, 0x3d3e5d513f45fe7b); (0x3fd09aa572e6c000, 0x3d3b50a1e1734342);
  (0x3fd0af660eb9e000, 0x3d23c7c3f528d80a); (0x3fd0c42d67616000, 0x3d27188b163ceae9);
  (0x3fd0d8fb813eb000, 0x3d1ee8c88753fa35); (0x3fd102ac0a35d000, 0xbd2f1fbddfdfd686);
  (0x3fd1178e8227e000, 0x3d31ef78ce2d07f2); (0x3fd12c77cd007000, 0x3d13b2948a11f797);
  (0x3fd14167ef367000, 0x3d3e0c07824daaf5); (0x3fd1565eed456000, 0xbcee75adfb6aba25);
  (0x3fd16b5ccbad0000, 0xbd323299042d74bf); (0x3fd1956d3b9bc000, 0x3d27d2f73ad1aa14);
  (0x3fd1aa7fd638d000, 0x3d29f60a9616f7a0); (0x3fd1bf99635a7000, 0xbd31ac89575c2125);
  (0x3fd1d4b9e796c000, 0x3d222a667c42e56d); (0x3fd1e9e16788a000, 0xbd382eaed3c8b65e);
  (0x3fd1ff0fe7cf4000, 0x3d3e9d5b513ff0c1); (0x3fd214456d0ec000, 0xbd3caf0428b728a3);
  (0x3fd23ec5991ec000, 0xbd36dbe448a2e522); (0x3fd25410494e5000, 0x3d3b1d7ac0ef77f2);
  (0x3fd269621134e000, 0xbd31b61f10522625); (0x3fd27ebaf58d9000, 0xbd2b198800b4bda7);
  (0x3fd2941afb187000, 0xbd3210c2b730e28b); (0x3fd2a982269a4000, 0xbd22058e557285cf);
  (0x3fd2bef07cdc9000, 0x3d2a9cfa4a5004f4); (0x3fd2d46602add000, 0xbd288d0ddcd54196);
  (0x3fd2ff66b04eb000, 0xbd38aed2541e6e2e); (0x3fd314f1e1d36000, 0xbd28e27ad3213cb8);
  (0x3fd32a8456512000, 0x3d04f928139af5d6); (0x3fd3401e12aed000, 0xbd317c73556e291d);
  (0x3fd355bf1bd83000, 0xbd2ba99b8964f0e8); (0x3fd36b6776be1000, 0x3d116ecdb0f177c8);
  (0x3fd3811728565000, 0xbd2a71e493a0702b); (0x3fd396ce359bc000, 0xbd05839c5663663d);
  (0x3fd3ac8ca38e6000, 0xbd2d0befbc02be4a); (0x3fd3c25277333000, 0x3d183b54b606bd5c);
  (0x3fd3d81fb5947000, 0xbd222c7c2a9d37a4); (0x3fd3edf463c17000, 0xbd3f067c297f2c3f);
  (0x3fd419b423d5f000, 0xbd3ce379226de3ec); (0x3fd42f9f3ff62000, 0x3d3906440f7d3354);
  (0x3fd44591e053a000, 0xbd06e95892923d88); (0x3fd45b8c0a17e000, 0xbd0d9120e7d0a853);
  (0x3fd4718dc271c000, 0x3d306c18fb4c14c5); (0x3fd487970e958000, 0x3d3dc1b8465cf25f);
  (0x3fd49da7f3bcc000, 0x3d307b334daf4b9a); (0x3fd4b3c077268000, 0xbd165b4681052b9f);
  (0x3fd4c9e09e173000, 0xbd2e20891b0ad8a4); (0x3fd4e0086dd8c000, 0xbd34d692a1e44788);
  (0x3fd4f637ebbaa000, 0xbd3fc158cb3124b9); (0x3fd50c6f1d11c000, 0xbd3a0e6b7e827c2c);
  (0x3fd522ae0738a000, 0x3d2ebe708164c759); (0x3fd538f4af8f7000, 0x3d27ec02e45547ce);
  (0x3fd54f431b7be000, 0x3d1a8954c0910952); (0x3fd5659950695000, 0x3d14c5fd2badc774);
  (0x3fd57bf753c8d000, 0x3d1fadedee5d40ef); (0x3fd5925d2b113000, 0xbd369bf5a7a56f34);
  (0x3fd5a8cadbbee000, 0xbcf7c79b0af7ecf8); (0x3fd5bf406b544000, 0xbd227023eb68981c);
  (0x3fd5d5bddf596000, 0xbd0a0b2a08a465dc); (0x3fd5ec433d5c3000, 0x3d36b71a1229d17f);
  (0x3fd602d08af09000, 0x3d1ebe9176df3f65); (0x3fd61965cdb03000, 0xbd2f08ad603c488e);
  (0x3fd630030b3ab000, 0xbd2db623e731ae00)].

Definition P : list f64 := fb <$> [
  0x3ff0000000000000; 0xbfdffffffffffffa; 0x3fd555555554f4d8;
  0xbfd0000000537df6; 0x3fc999a14758b084; 0xbfc55362255e0f63].

Definition INVERSE_2 : list DInt64 := [
  MkD 0x8000000000000000 0x0000000000000000 (1) 0;
  MkD 0xfe03f80fe03f80ff 0x0000000000000000 (0) 0;
  MkD 0xfc0fc0fc0fc0fc10 0x0000000000000000 (0) 0;
  MkD 0xfa232cf252138ac0 0x0000000000000000 (0) 0;
  MkD 0xf83e0f83e0f83e10 0x0000000000000000 (0) 0;
  MkD 0xf6603d980f6603da 0x0000000000000000 (0) 0;
  MkD 0xf4898d5f85bb3951 0x0000000000000000 (0) 0;
  MkD 0xf2b9d6480f2b9d65 0x0000000000000000 (0) 0;
  MkD 0xf0f0f0f0f0f0f0f1 0x0000000000000000 (0) 0;
  MkD 0xef2eb71fc4345239 0x0000000000000000 (0) 0;
  MkD 0xed7303b5cc0ed731 0x0000000000000000 (0) 0;
  MkD 0xebbdb2a5c1619c8c 0x0000000000000000 (0) 0;
  MkD 0xea0ea0ea0ea0ea0f 0x0000000000000000 (0) 0;
  MkD 0xe865ac7b7603a197 0x0000000000000000 (0) 0;
  MkD 0xe6c2b4481cd8568a 0x0000000000000000 (0) 0;
  MkD 0xe525982af70c880f 0x0000000000000000 (0) 0;
  MkD 0xe38e38e38e38e38f 0x0000000000000000 (0) 0;
  MkD 0xe1fc780e1fc780e2 0x0000000000000000 (0) 0;
  MkD 0xe070381c0e070382 0x0000000000000000 (0) 0;
  MkD 0xdee95c4ca037ba58 0x0000000000000000 (0) 0;
  MkD 0xdd67c8a60dd67c8b 0x0000000000000000 (0) 0;
  MkD 0xdbeb61eed19c5958 0x0000000000000000 (0) 0;
  MkD 0xda740da740da740e 0x0000000000000000 (0) 0;
  MkD 0xd901b2036406c80e 0x0000000000000000 (0) 0;
  MkD 0xd79435e50d79435f 0x0000000000000000 (0) 0;
  MkD 0xd62b80d62b80d62c 0x0000000000000000 (0) 0;
  MkD 0xd4c77b03531dec0e 0x0000000000000000 (0) 0;
  MkD 0xd3680d3680d3680e 0x0000000000000000 (0) 0;
  MkD 0xd20d20d20d20d20e 0x0000000000000000 (0) 0;
  MkD 0xd0b69fcbd2580d0c 0x0000000000000000 (0) 0;
  MkD 0xcf6474a8819ec8ea 0x0000000000000000 (0) 0;
  MkD 0xce168a7725080ce2 0x0000000000000000 (0) 0;
  MkD 0xcccccccccccccccd 0x0000000000000000 (0) 0;
  MkD 0xcb8727c065c393e1 0x0000000000000000 (0) 0;
  MkD 0xca4587e6b74f032a 0x0000000000000000 (0) 0;
  MkD 0xc907da4e871146ad 0x0000000000000000 (0) 0;
  MkD 0xc7ce0c7ce0c7ce0d 0x0000000000000000 (0) 0;
  MkD 0xc6980c6980c6980d 0x0000000000000000 (0) 0;
  MkD 0xc565c87b5f9d4d1c 0x0000000000000000 (0) 0;
  MkD 0xc4372f855d824ca6 0x0000000000000000 (0) 0;
  MkD 0xc30c30c30c30c30d 0x0000000000000000 (0) 0;
  MkD 0xc1e4bbd595f6e948 0x0000000000000000 (0) 0;
  MkD 0xc0c0c0c0c0c0c0c1 0x0000000000000000 (0) 0;
  MkD 0xbfa02fe80bfa02ff 0x0000000000000000 (0) 0;
  MkD 0xbe82fa0be82fa0bf 0x0000000000000000 (0) 0;
  MkD 0xbd69104707661aa3 0x0000000000000000 (0) 0;
  MkD 0xbc52640bc52640bd 0x0000000000000000 (0) 0;
  MkD 0xbb3ee721a54d880c 0x0000000000000000 (0) 0;
  MkD 0xba2e8ba2e8ba2e8c 0x0000000000000000 (0) 0;
  MkD 0xb92143fa36f5e02f 0x0000000000000000 (0) 0;
  MkD 0xb81702e05c0b8171 0x0000000000000000 (0) 0;
  MkD 0xb70fbb5a19be3659 0x0000000000000000 (0) 0;
  MkD 0xb60b60b60b60b60c 0x0000000000000000 (0) 0;
  MkD 0xb509e68a9b948220 0x0000000000000000 (0) 0;
  MkD 0xb40b40b40b40b40c 0x0000000000000000 (0) 0;
  MkD 0xb30f63528917c80c 0x0000000000000000 (0) 0;
  MkD 0xb21642c8590b2165 0x0000000000000000 (0) 0;
  MkD 0xb11fd3b80b11fd3c 0x0000000000000000 (0) 0;
  MkD 0xb02c0b02c0b02c0c 0x0000000000000000 (0) 0;
  MkD 0xaf3addc680af3ade 0x0000000000000000 (0) 0;
  MkD 0xae4c415c9882b932 0x0000000000000000 (0) 0;
  MkD 0xad602b580ad602b6 0x0000000000000000 (0) 0;
  MkD 0xac7691840ac76919 0x0000000000000000 (0) 0;
  MkD 0xab8f69e28359cd12 0x0000000000000000 (0) 0;
  MkD 0xaaaaaaaaaaaaaaab 0x0000000000000000 (0) 0;
  MkD 0xa9c84a47a07f5638 0x0000000000000000 (0) 0;
  MkD 0xa8e83f5717c0a8e9 0x0000000000000000 (0) 0;
  MkD 0xa80a80a80a80a80b 0x0000000000000000 (0) 0;
  MkD 0xa72f05397829cbc2 0x0000000000000000 (0) 0;
  MkD 0xa655c4392d7b73a8 0x0000000000000000 (0) 0;
  MkD 0xa57eb50295fad40b 0x0000000000000000 (0) 0;
  MkD 0xa4a9cf1d96833752 0x0000000000000000 (0) 0;
  MkD 0xa3d70a3d70a3d70b 0x0000000000000000 (0) 0;
  MkD 0xa3065e3fae7cd0e1 0x0000000000000000 (0) 0;
  MkD 0xa237c32b16cfd773 0x0000000000000000 (0) 0;
  MkD 0xa16b312ea8fc377d 0x0000000000000000 (0) 0;
  MkD 0xa0a0a0a0a0a0a0a1 0x0000000000000000 (0) 0;
  MkD 0x9fd809fd809fd80a 0x0000000000000000 (0) 0;
  MkD 0x9f1165e7254813e3 0x0000000000000000 (0) 0;
  MkD 0x9e4cad23dd5f3a21 0x0000000000000000 (0) 0;
  MkD 0x9d89d89d89d89d8a 0x0000000000000000 (0) 0;
  MkD 0x9cc8e160c3fb19b9 0x0000000000000000 (0) 0;
  MkD 0x9c09c09c09c09c0a 0x0000000000000000 (0) 0;
  MkD 0x9b4c6f9ef03a3caa 0x0000000000000000 (0) 0;
  MkD 0x9a90e7d95bc609aa 0x0000000000000000 (0) 0;
  MkD 0x99d722dabde58f07 0x0000000000000000 (0) 0;
  MkD 0x991f1a515885fb38 0x0000000000000000 (0) 0;
  MkD 0x9868c809868c8099 0x0000000000000000 (0) 0;
  MkD 0x97b425ed097b425f 0x0000000000000000 (0) 0;
  MkD 0x97012e025c04b80a 0x0000000000000000 (0) 0;
  MkD 0x964fda6c0964fda7 0x0000000000000000 (0) 0;
  MkD 0x95a02568095a0257 0x0000000000000000 (0) 0;
  MkD 0x94f2094f2094f20a 0x0000000000000000 (0) 0;
  MkD 0x9445809445809446 0x0000000000000000 (0) 0;
  MkD 0x939a85c40939a85d 0x0000000000000000 (0) 0;
  MkD 0x92f113840497889d 0x0000000000000000 (0) 0;
  MkD 0x924924924924924a 0x0000000000000000 (0) 0;
  MkD 0x91a2b3c4d5e6f80a 0x0000000000000000 (0) 0;
  MkD 0x90fdbc090fdbc091 0x0000000000000000 (0) 0;
  MkD 0x905a38633e06c43b 0x0000000000000000 (0) 0;
  MkD 0x8fb823ee08fb823f 0x0000000000000000 (0) 0;
  MkD 0x8f1779d9fdc3a219 0x0000000000000000 (0) 0;
  MkD 0x8e78356d1408e784 0x0000000000000000 (0) 0;
  MkD 0x8dda520237694809 0x0000000000000000 (0) 0;
  MkD 0x8d3dcb08d3dcb08e 0x0000000000000000 (0) 0;
  MkD 0x8ca29c046514e024 0x0000000000000000 (0) 0;
  MkD 0x8c08c08c08c08c09 0x0000000000000000 (0) 0;
  MkD 0x8b70344a139bc75b 0x0000000000000000 (0) 0;
  MkD 0x8ad8f2fba9386823 0x0000000000000000 (0) 0;
  MkD 0x8a42f8705669db47 0x0000000000000000 (0) 0;
  MkD 0x89ae4089ae4089af 0x0000000000000000 (0) 0;
  MkD 0x891ac73ae9819b51 0x0000000000000000 (0) 0;
  MkD 0x8888888888888889 0x0000000000000000 (0) 0;
  MkD 0x87f78087f78087f8 0x0000000000000000 (0) 0;
  MkD 0x8767ab5f34e47ef2 0x0000000000000000 (0) 0;
  MkD 0x86d905447a34acc7 0x0000000000000000 (0) 0;
  MkD 0x864b8a7de6d1d609 0x0000000000000000 (0) 0;
  MkD 0x85bf37612cee3c9b 0x0000000000000000 (0) 0;
  MkD 0x8534085340853409 0x0000000000000000 (0) 0;
  MkD 0x84a9f9c8084a9f9d 0x0000000000000000 (0) 0;
  MkD 0x8421084210842109 0x0000000000000000 (0) 0;
  MkD 0x839930523fbe3368 0x0000000000000000 (0) 0;
  MkD 0x83126e978d4fdf3c 0x0000000000000000 (0) 0;
  MkD 0x828cbfbeb9a020a4 0x0000000000000000 (0) 0;
  MkD 0x8208208208208209 0x0000000000000000 (0) 0;
  MkD 0x81848da8faf0d278 0x0000000000000000 (0) 0;
  MkD 0x8102040810204082 0x0000000000000000 (0) 0;
  MkD 0x8000000000000000 0x0000000000000000 (0) 0;
  MkD 0x8000000000000000 0x0000000000000000 (0) 0;
  MkD 0xff00ff00ff00ff02 0x0000000000000000 (-1) 0;
  MkD 0xfe03f80fe03f80ff 0x0000000000000000 (-1) 0;
  MkD 0xfd08e5500fd08e56 0x0000000000000000 (-1) 0;
  MkD 0xfc0fc0fc0fc0fc11 0x0000000000000000 (-1) 0;
  MkD 0xfb18856506ddaba7 0x0000000000000000 (-1) 0;
  MkD 0xfa232cf252138ac1 0x0000000000000000 (-1) 0;
  MkD 0xf92fb2211855a866 0x0000000000000000 (-1) 0;
  MkD 0xf83e0f83e0f83e11 0x0000000000000000 (-1) 0;
  MkD 0xf74e3fc22c700f76 0x0000000000000000 (-1) 0;
  MkD 0xf6603d980f6603db 0x0000000000000000 (-1) 0;
  MkD 0xf57403d5d00f5741 0x0000000000000000 (-1) 0;
  MkD 0xf4898d5f85bb3951 0x0000000000000000 (-1) 0;
  MkD 0xf3a0d52cba872337 0x0000000000000000 (-1) 0;
  MkD 0xf2b9d6480f2b9d66 0x0000000000000000 (-1) 0;
  MkD 0xf1d48bcee0d399fb 0x0000000000000000 (-1) 0;
  MkD 0xf0f0f0f0f0f0f0f2 0x0000000000000000 (-1) 0;
  MkD 0xf00f00f00f00f010 0x0000000000000000 (-1) 0;
  MkD 0xef2eb71fc4345239 0x0000000000000000 (-1) 0;
  MkD 0xee500ee500ee5010 0x0000000000000000 (-1) 0;
  MkD 0xed7303b5cc0ed731 0x0000000000000000 (-1) 0;
  MkD 0xec979118f3fc4da3 0x0000000000000000 (-1) 0;
  MkD 0xebbdb2a5c1619c8d 0x0000000000000000 (-1) 0;
  MkD 0xeae56403ab959010 0x0000000000000000 (-1) 0;
  MkD 0xea0ea0ea0ea0ea10 0x0000000000000000 (-1) 0;
  MkD 0xe939651fe2d8d35d 0x0000000000000000 (-1) 0;
  MkD 0xe865ac7b7603a198 0x0000000000000000 (-1) 0;
  MkD 0xe79372e225fe30da 0x0000000000000000 (-1) 0;
  MkD 0xe6c2b4481cd8568a 0x0000000000000000 (-1) 0;
  MkD 0xe5f36cb00e5f36cc 0x0000000000000000 (-1) 0;
  MkD 0xe525982af70c880f 0x0000000000000000 (-1) 0;
  MkD 0xe45932d7dc52100f 0x0000000000000000 (-1) 0;
  MkD 0xe38e38e38e38e38f 0x0000000000000000 (-1) 0;
  MkD 0xe2c4a6886a4c2e11 0x0000000000000000 (-1) 0;
  MkD 0xe1fc780e1fc780e3 0x0000000000000000 (-1) 0;
  MkD 0xe135a9c97500e137 0x0000000000000000 (-1) 0;
  MkD 0xe070381c0e070383 0x0000000000000000 (-1) 0;
  MkD 0xdfac1f74346c5760 0x0000000000000000 (-1) 0;
  MkD 0xdee95c4ca037ba58 0x0000000000000000 (-1) 0;
  MkD 0xde27eb2c41f3d9d2 0x0000000000000000 (-1) 0;
  MkD 0xdd67c8a60dd67c8b 0x0000000000000000 (-1) 0;
  MkD 0xdca8f158c7f91ab9 0x0000000000000000 (-1) 0;
  MkD 0xdbeb61eed19c5959 0x0000000000000000 (-1) 0;
  MkD 0xdb2f171df770291a 0x0000000000000000 (-1) 0;
  MkD 0xda740da740da740f 0x0000000000000000 (-1) 0;
  MkD 0xd9ba4256c0366e92 0x0000000000000000 (-1) 0;
  MkD 0xd901b2036406c80f 0x0000000000000000 (-1) 0;
  MkD 0xd84a598ec9151f44 0x0000000000000000 (-1) 0;
  MkD 0xd79435e50d79435f 0x0000000000000000 (-1) 0;
  MkD 0xd6df43fca482f00e 0x0000000000000000 (-1) 0;
  MkD 0xd62b80d62b80d62d 0x0000000000000000 (-1) 0;
  MkD 0xd578e97c3f5fe552 0x0000000000000000 (-1) 0;
  MkD 0xd4c77b03531dec0e 0x0000000000000000 (-1) 0;
  MkD 0xd4173289870ac52f 0x0000000000000000 (-1) 0;
  MkD 0xd3680d3680d3680e 0x0000000000000000 (-1) 0;
  MkD 0xd2ba083b445250ac 0x0000000000000000 (-1) 0;
  MkD 0xd20d20d20d20d20e 0x0000000000000000 (-1) 0;
  MkD 0xd161543e28e50275 0x0000000000000000 (-1) 0;
  MkD 0xd0b69fcbd2580d0c 0x0000000000000000 (-1) 0;
  MkD 0xd00d00d00d00d00e 0x0000000000000000 (-1) 0;
  MkD 0xcf6474a8819ec8ea 0x0000000000000000 (-1) 0;
  MkD 0xcebcf8bb5b4169cc 0x0000000000000000 (-1) 0;
  MkD 0xce168a7725080ce2 0x0000000000000000 (-1) 0;
  MkD 0xcd712752a886d243 0x0000000000000000 (-1) 0;
  MkD 0xccccccccccccccce 0x0000000000000000 (-1) 0;
  MkD 0xcc29786c7607f9a0 0x0000000000000000 (-1) 0;
  MkD 0xcb8727c065c393e1 0x0000000000000000 (-1) 0;
  MkD 0xcae5d85f1bbd6c96 0x0000000000000000 (-1) 0;
  MkD 0xca4587e6b74f032a 0x0000000000000000 (-1) 0;
  MkD 0xc9a633fcd967300e 0x0000000000000000 (-1) 0;
  MkD 0xc907da4e871146ae 0x0000000000000000 (-1) 0;
  MkD 0xc86a78900c86a78a 0x0000000000000000 (-1) 0;
  MkD 0xc7ce0c7ce0c7ce0d 0x0000000000000000 (-1) 0;
  MkD 0xc73293d789b9f839 0x0000000000000000 (-1) 0;
  MkD 0xc6980c6980c6980d 0x0000000000000000 (-1) 0;
  MkD 0xc5fe740317f9d00d 0x0000000000000000 (-1) 0;
  MkD 0xc565c87b5f9d4d1d 0x0000000000000000 (-1) 0;
  MkD 0xc4ce07b00c4ce07c 0x0000000000000000 (-1) 0;
  MkD 0xc4372f855d824ca7 0x0000000000000000 (-1) 0;
  MkD 0xc3a13de60495c774 0x0000000000000000 (-1) 0;
  MkD 0xc30c30c30c30c30d 0x0000000000000000 (-1) 0;
  MkD 0xc2780613c0309e03 0x0000000000000000 (-1) 0;
  MkD 0xc1e4bbd595f6e948 0x0000000000000000 (-1) 0;
  MkD 0xc152500c152500c2 0x0000000000000000 (-1) 0;
  MkD 0xc0c0c0c0c0c0c0c2 0x0000000000000000 (-1) 0;
  MkD 0xc0300c0300c0300d 0x0000000000000000 (-1) 0;
  MkD 0xbfa02fe80bfa0300 0x0000000000000000 (-1) 0;
  MkD 0xbf112a8ad278e8de 0x0000000000000000 (-1) 0;
  MkD 0xbe82fa0be82fa0c0 0x0000000000000000 (-1) 0;
  MkD 0xbdf59c91700bdf5b 0x0000000000000000 (-1) 0;
  MkD 0xbd69104707661aa4 0x0000000000000000 (-1) 0;
  MkD 0xbcdd535db1cc5b7c 0x0000000000000000 (-1) 0;
  MkD 0xbc52640bc52640bd 0x0000000000000000 (-1) 0;
  MkD 0xbbc8408cd63069a2 0x0000000000000000 (-1) 0;
  MkD 0xbb3ee721a54d880d 0x0000000000000000 (-1) 0;
  MkD 0xbab656100bab6562 0x0000000000000000 (-1) 0;
  MkD 0xba2e8ba2e8ba2e8d 0x0000000000000000 (-1) 0;
  MkD 0xb9a7862a0ff46589 0x0000000000000000 (-1) 0;
  MkD 0xb92143fa36f5e02f 0x0000000000000000 (-1) 0;
  MkD 0xb89bc36ce3e0453b 0x0000000000000000 (-1) 0;
  MkD 0xb81702e05c0b8171 0x0000000000000000 (-1) 0;
  MkD 0xb79300b79300b794 0x0000000000000000 (-1) 0;
  MkD 0xb70fbb5a19be365a 0x0000000000000000 (-1) 0;
  MkD 0xb68d31340e4307d9 0x0000000000000000 (-1) 0;
  MkD 0xb60b60b60b60b60c 0x0000000000000000 (-1) 0;
  MkD 0xb58a485518d1e7e5 0x0000000000000000 (-1) 0;
  MkD 0xb509e68a9b948220 0x0000000000000000 (-1) 0;
  MkD 0xb48a39d44685fe98 0x0000000000000000 (-1) 0;
  MkD 0xb40b40b40b40b40c 0x0000000000000000 (-1) 0;
  MkD 0xb38cf9b00b38cf9c 0x0000000000000000 (-1) 0;
  MkD 0xb30f63528917c80c 0x0000000000000000 (-1) 0;
  MkD 0xb2927c29da5519d0 0x0000000000000000 (-1) 0].

Definition LOG_INV_2 : list DInt64 := [
  MkD 0xb17217f7d1cf79ab 0xc9e3b39803f2f6af (-1) 1;
  MkD 0xaf74155120c9011d 0x046d235ee63073dc (-1) 1;
  MkD 0xad7a02e1b24efd32 0x160864fd949b4bd3 (-1) 1;
  MkD 0xab83d135dc633301 0xffe6607ba902ef3b (-1) 1;
  MkD 0xa991713433c2b999 0x0ba4aea614d05700 (-1) 1;
  MkD 0xa7a2d41ad270c9d7 0xcd362382a7688479 (-1) 1;
  MkD 0xa5b7eb7cb860fb89 0x7b6a62a0dec6e072 (-1) 1;
  MkD 0xa3d0a93f45169a4b 0x09594fab088c0d64 (-1) 1;
  MkD 0xa1ecff97c91e267b 0x1b7efae08e597e16 (-1) 1;
  MkD 0xa00ce1092e5498c4 0x69879c5a30cd1241 (-1) 1;
  MkD 0x9e304061b5fda91a 0x04603d87b6df81ac (-1) 1;
  MkD 0x9c5710b8cbb73a42 0xaa554b2dd4619e63 (-1) 1;
  MkD 0x9a81456cec642e10 0x4d49f9aaea3cb5e0 (-1) 1;
  MkD 0x98aed221a03458b6 0x732f89321647b358 (-1) 1;
  MkD 0x96dfaabd86fa1647 0xd61188fbc94e2f14 (-1) 1;
  MkD 0x9513c36876083696 0xb5cbc416a2418011 (-1) 1;
  MkD 0x934b1089a6dc93c2 0xbf5bb3b60554e151 (-1) 1;
  MkD 0x918586c5f5e4bf01 0x9f92199ed1a4bab0 (-1) 1;
  MkD 0x8fc31afe30b2c6de 0xe300bf167e95da66 (-1) 1;
  MkD 0x8e03c24d7300395a 0xcddae1ccce247837 (-1) 1;
  MkD 0x8c47720791e53314 0x762ad19415fe25a5 (-1) 1;
  MkD 0x8a8e1fb794b09134 0x9eb628dba173c82d (-1) 1;
  MkD 0x88d7c11e3ad53cdc 0x8a3111a707b6de2c (-1) 1;
  MkD 0x87244c308e670a66 0x85e005d06dbfa8f7 (-1) 1;
  MkD 0x8573b71682a7d21b 0xb21f9f89c1ab80b2 (-1) 1;
  MkD 0x83c5f8299e2b4091 0xb8f6fafe8fbb68b8 (-1) 1;
  MkD 0x821b05f3b01d6774 0xdb0d58c3f7e2ea1e (-1) 1;
  MkD 0x8072d72d903d588c 0x7dd1b09c70c40109 (-1) 1;
  MkD 0xfd9ac57bd2442180 0xaf05924d258c14c4 (-2) 1;
  MkD 0xfa553f7018c966f4 0x2780a545a1b54dce (-2) 1;
  MkD 0xf7150ab5a09f27f6 0x0a470250d40ebe8e (-2) 1;
  MkD 0xf3da161eed6b9ab1 0x248d42f78d3e65d2 (-2) 1;
  MkD 0xf0a450d139366ca7 0x7c66eb6408ff6432 (-2) 1;
  MkD 0xed73aa4264b0adeb 0x5391cf4b33e42996 (-2) 1;
  MkD 0xea481236f7d35bb2 0x39a767a80d6d97e6 (-2) 1;
  MkD 0xe72178c0323a1a0f 0xcc4e1653e71d9973 (-2) 1;
  MkD 0xe3ffce3a2aa64923 0x8eadb651b49ac539 (-2) 1;
  MkD 0xe0e30349fd1cec82 0x03e8e1802aba24d5 (-2) 1;
  MkD 0xddcb08dc0717d85c 0x940a666c87842842 (-2) 1;
  MkD 0xdab7d02231484a93 0xbec20cca6efe2ac4 (-2) 1;
  MkD 0xd7a94a92466e833c 0xcd88bba7d0cee8df (-2) 1;
  MkD 0xd49f69e456cf1b7b 0x7f53bd2e406e66e6 (-2) 1;
  MkD 0xd19a201127d3c646 0x279d79f51dcc7301 (-2) 1;
  MkD 0xce995f50af69d863 0x432f3f4f861ad6a8 (-2) 1;
  MkD 0xcb9d1a189ab56e77 0x7d7e9307c70c0667 (-2) 1;
  MkD 0xc8a5431adfb44ca6 0x048ce7c1a75e341a (-2) 1;
  MkD 0xc5b1cd44596fa51f 0xf218fb8f9f9ef27f (-2) 1;
  MkD 0xc2c2abbb6e5fd570 0x03337789d592e296 (-2) 1;
  MkD 0xbfd7d1dec0a8df70 0x37eda996244bccaf (-2) 1;
  MkD 0xbcf13343e7d9ec7f 0x2afd17781bb3afea (-2) 1;
  MkD 0xba0ec3b633dd8b0b 0x91dc60b2b059a609 (-2) 1;
  MkD 0xb730773578cb90b3 0xaa1116c3466beb6c (-2) 1;
  MkD 0xb45641f4e350a0d4 0xe756eba00bc33976 (-2) 1;
  MkD 0xb1801859d56249de 0x98ce51fff99479cb (-2) 1;
  MkD 0xaeadeefacaf97d37 0x9dd6e688ebb13b01 (-2) 1;
  MkD 0xabdfba9e468fd6f9 0x472ea07749ce6bd1 (-2) 1;
  MkD 0xa9157039c51ebe72 0xe164c759686a2207 (-2) 1;
  MkD 0xa64f04f0b961df78 0x54f5275c2d15c21e (-2) 1;
  MkD 0xa38c6e138e20d834 0xd698298adddd7f30 (-2) 1;
  MkD 0xa0cda11eaf46390e 0x632438273918db7d (-2) 1;
  MkD 0x9e1293b9998c1dad 0x3b035eae273a855c (-2) 1;
  MkD 0x9b5b3bb5f088b768 0x5078bbe3d392be24 (-2) 1;
  MkD 0x98a78f0e9ae71d87 0x64dec34784707838 (-2) 1;
  MkD 0x95f783e6e49a9cfc 0x025004f3ef063312 (-2) 1;
  MkD 0x934b1089a6dc93c2 0xdf5bb3b60554e151 (-2) 1;
  MkD 0x90a22b6875c6a1f8 0x8e91aeba609c8876 (-2) 1;
  MkD 0x8dfccb1ad35ca6ef 0x9947bdb6ddcaf59a (-2) 1;
  MkD 0x8b5ae65d67db9acf 0x7ba5168126a58b99 (-2) 1;
  MkD 0x88bc74113f23def3 0xbc5a0fe396f40f1c (-2) 1;
  MkD 0x86216b3b0b17188c 0x363ceae88f720f1d (-2) 1;
  MkD 0x8389c3026ac3139d 0x6adda9d2270fa1f3 (-2) 1;
  MkD 0x80f572b1363487bc 0xedbd0b5b3479d5f2 (-2) 1;
  MkD 0xfcc8e3659d9bcbf1 0x8a0cdf301431b60b (-3) 1;
  MkD 0xf7ad6f26e7ff2efc 0x9cd2238f75f969ad (-3) 1;
  MkD 0xf29877ff38809097 0x2b020fa1820c948d (-3) 1;
  MkD 0xed89ed86a44a01ab 0x09d49f96cb88317a (-3) 1;
  MkD 0xe881bf932af3dac3 0x2524848e3443e03f (-3) 1;
  MkD 0xe37fde37807b84e3 0x5e9a750b6b68781c (-3) 1;
  MkD 0xde8439c1dec5687c 0x9d57da945b5d0aa6 (-3) 1;
  MkD 0xd98ec2bade71e53e 0xd0a98f2ad65bee96 (-3) 1;
  MkD 0xd49f69e456cf1b7a 0x5f53bd2e406e66e7 (-3) 1;
  MkD 0xcfb6203844b3209b 0x18cb02f33f79c16b (-3) 1;
  MkD 0xcad2d6e7b80bf915 0xcc507fb7a3d0bf69 (-3) 1;
  MkD 0xc5f57f59c7f46156 0x9a8b6997a402bf30 (-3) 1;
  MkD 0xc11e0b2a8d1e0de1 0xda631e830fd308fe (-3) 1;
  MkD 0xbc4c6c2a226399f6 0x276ebcfb2016a433 (-3) 1;
  MkD 0xb780945bab55dcea 0xb4c7bc3d32750fd9 (-3) 1;
  MkD 0xb2ba75f46099cf8f 0x243c2e77904afa76 (-3) 1;
  MkD 0xadfa035aa1ed8fdd 0x549767e410316d2b (-3) 1;
  MkD 0xa93f2f250dac67d5 0x9ad2fb8d48054add (-3) 1;
  MkD 0xa489ec199dab06f4 0x59fb6cf0ecb411b7 (-3) 1;
  MkD 0x9fda2d2cc9465c52 0x6b2b9565f5355180 (-3) 1;
  MkD 0x9b2fe580ac80b182 0x011a5b944aca8705 (-3) 1;
  MkD 0x968b08643409ceb9 0xd5c0da506a088482 (-3) 1;
  MkD 0x91eb89524e100d28 0xbfd3df5c52d67e77 (-3) 1;
  MkD 0x8d515bf11fb94f22 0xa0713268840cbcbb (-3) 1;
  MkD 0x88bc74113f23def7 0x9c5a0fe396f40f19 (-3) 1;
  MkD 0x842cc5acf1d0344b 0x6fecdfa819b96092 (-3) 1;
  MkD 0xff4489cedeab2ca6 0xe17bd40d8d9291ec (-4) 1;
  MkD 0xf639cc185088fe62 0x5066e87f2c0f733d (-4) 1;
  MkD 0xed393b1c22351281 0xff4e2e660317d55f (-4) 1;
  MkD 0xe442c00de2591b4c 0xe96ab34ce0bccd10 (-4) 1;
  MkD 0xdb56446d6ad8df09 0x28112e35a60e636f (-4) 1;
  MkD 0xd273b2058de1bd4b 0x36bbf837b4d320c6 (-4) 1;
  MkD 0xc99af2eaca4c457b 0xeaf51f66692844b2 (-4) 1;
  MkD 0xc0cbf17a071f80e9 0x396ffdf76a147cc2 (-4) 1;
  MkD 0xb8069857560707a7 0x0a677b4c8bec22e0 (-4) 1;
  MkD 0xaf4ad26cbc8e5bef 0x9e8b8b88a14ff0c9 (-4) 1;
  MkD 0xa6988ae903f562f1 0x7e858f08597b3a68 (-4) 1;
  MkD 0x9defad3e8f732186 0x476d3b5b45f6ca02 (-4) 1;
  MkD 0x9550252238bd2468 0x658e5a0b811c596d (-4) 1;
  MkD 0x8cb9de8a32ab3694 0x97c9859530a4514c (-4) 1;
  MkD 0x842cc5acf1d0344c 0x1fecdfa819b96094 (-4) 1;
  MkD 0xf7518e0035c3dd92 0x606d89093278a931 (-5) 1;
  MkD 0xe65b9e6eed965c4f 0x609f5fe2058d5ff2 (-5) 1;
  MkD 0xd5779687d887e0ee 0x49dda17056e45ebb (-5) 1;
  MkD 0xc4a550a4fd9a19bb 0x3e97660a23cc5402 (-5) 1;
  MkD 0xb3e4a796a5dac213 0x07cca0bcc06c2f8e (-5) 1;
  MkD 0xa33576a16f1f4c79 0x121016bd904dc95a (-5) 1;
  MkD 0x9297997c68c1f4e6 0x610db3d4dd423bc9 (-5) 1;
  MkD 0x820aec4f3a222397 0xb9e3aea6c444eef6 (-5) 1;
  MkD 0xe31e9760a5578c6d 0xf9eb2f284f31c35a (-6) 1;
  MkD 0xc24929464655f482 0xda5f3cc0b3251da6 (-6) 1;
  MkD 0xa195492cc0660519 0x4a18dff7cdb4ae33 (-6) 1;
  MkD 0x8102b2c49ac23a86 0x91d082dce3ddcd08 (-6) 1;
  MkD 0xc122451c45155150 0xb16137f09a002b0e (-7) 1;
  MkD 0x8080abac46f389c4 0x662d417ced0079c9 (-7) 1;
  MkD 0x0000000000000000 0x0000000000000000 (127) 0;
  MkD 0x0000000000000000 0x0000000000000000 (127) 0;
  MkD 0xff805515885e014e 0x435ab4da6a5bb50f (-9) 0;
  MkD 0xff015358833c4762 0xbb481c8ee1416999 (-8) 0;
  MkD 0xbee23afc0853b6a8 0xa89782c20df350c2 (-7) 0;
  MkD 0xfe054587e01f1e2b 0xf6d3a69bd5eab72f (-7) 0;
  MkD 0x9e75221a352ba751 0x452b7ea62f2198ea (-6) 0;
  MkD 0xbdc8d83ead88d518 0x7faa638b5e00ee90 (-6) 0;
  MkD 0xdcfe013d7c8cbfc5 0x632dbac46f30d009 (-6) 0;
  MkD 0xfc14d873c1980236 0xc7e09e3de453f5fc (-6) 0;
  MkD 0x8d86cc491ecbfe03 0xf1776453b7e82558 (-5) 0;
  MkD 0x9cf43dcff5eafd2f 0x2ad90155c8a7236a (-5) 0;
  MkD 0xac52dd7e4726a456 0xa47a963a91bb3018 (-5) 0;
  MkD 0xbba2c7b196e7e224 0xe7950f7252c163cf (-5) 0;
  MkD 0xcae41876471f5bde 0x91d00a417e330f8e (-5) 0;
  MkD 0xda16eb88cb8df5fb 0x28a63ecfb66e94c0 (-5) 0;
  MkD 0xe93b5c56d85a9083 0xce2992bfea38e76b (-5) 0;
  MkD 0xf85186008b1532f9 0xe64b8b7759978998 (-5) 0;
  MkD 0x83acc1acc7238978 0x5a5333c45b7f442e (-4) 0;
  MkD 0x8b29b7751bd7073b 0x02e0b9ee992f2372 (-4) 0;
  MkD 0x929fb17850a0b7be 0x5b4d3807660516a4 (-4) 0;
  MkD 0x9a0ebcb0de8e848e 0x2c1bb082689ba814 (-4) 0;
  MkD 0xa176e5f5323781d2 0xdcf935996c92e8d4 (-4) 0;
  MkD 0xa8d839f830c1fb40 0x4c7343517c8ac264 (-4) 0;
  MkD 0xb032c549ba861d83 0x774e27bc92ce3373 (-4) 0;
  MkD 0xb78694572b5a5cd3 0x24cdcf68cdb2067c (-4) 0;
  MkD 0xbed3b36bd8966419 0x7c0644d7d9ed08b4 (-4) 0;
  MkD 0xc61a2eb18cd907a1 0xe5a1532f6d5a1ac1 (-4) 0;
  MkD 0xcd5a1231019d66d7 0x761e3e7b171e44b2 (-4) 0;
  MkD 0xd49369d256ab1b1f 0x9e9154e1d5263cda (-4) 0;
  MkD 0xdbc6415d876d0839 0x3e33c0c9f8824f54 (-4) 0;
  MkD 0xe2f2a47ade3a18a8 0xa0bf7c0b0d8bb4ef (-4) 0;
  MkD 0xea189eb3659aeaeb 0x93b2a3b21f448259 (-4) 0;
  MkD 0xf1383b7157972f48 0x543fff0ff4f0aaf1 (-4) 0;
  MkD 0xf85186008b153302 0x5e4b8b7759978993 (-4) 0;
  MkD 0xff64898edf55d548 0x428ccfc99271dffa (-4) 0;
  MkD 0x8338a89652cb714a 0xb247eb86498c2ce7 (-3) 0;
  MkD 0x86bbf3e68472cb2f 0x0b8bd20615747126 (-3) 0;
  MkD 0x8a3c2c233a156341 0x9027c74fe0e6f64f (-3) 0;
  MkD 0x8db956a97b3d0143 0xf023472cd739f9e1 (-3) 0;
  MkD 0x913378c852d65be6 0x977e3013d10f7525 (-3) 0;
  MkD 0x94aa97c0ffa91a5d 0x4ee3880fb7d34429 (-3) 0;
  MkD 0x981eb8c723fe97f2 0x1f1c134fb702d433 (-3) 0;
  MkD 0x9b8fe100f47ba1d8 0x04b62af189fcba0d (-3) 0;
  MkD 0x9efe158766314e4f 0x4d71827efe892fc8 (-3) 0;
  MkD 0xa2695b665be8f338 0x4eca87c3f0f06211 (-3) 0;
  MkD 0xa5d1b79cd2af2aca 0x8837986ceabfbed6 (-3) 0;
  MkD 0xa9372f1d0da1bd10 0x580eb71e58cd36e5 (-3) 0;
  MkD 0xac99c6ccc1042e94 0x3dd557528315838d (-3) 0;
  MkD 0xaff983853c9e9e40 0x5f105039091dd7f5 (-3) 0;
  MkD 0xb3566a13956a86f4 0x471b1e1574d9fd55 (-3) 0;
  MkD 0xb6b07f38ce90e463 0x7bb2e265d0de37e1 (-3) 0;
  MkD 0xba07c7aa01bd2648 0x43f9d57b324bd05f (-3) 0;
  MkD 0xbd5c481086c848db 0xbb596b5030403242 (-3) 0;
  MkD 0xc0ae050a1abf56ad 0x2f7f8c5fa9c50d76 (-3) 0;
  MkD 0xc3fd03290648847d 0x30480bee4cbbd698 (-3) 0;
  MkD 0xc74946f4436a054e 0xf4f5cb531201c0d3 (-3) 0;
  MkD 0xca92d4e7a2b5a3ad 0xc983a9c5c4b3b135 (-3) 0;
  MkD 0xcdd9b173efdc1aaa 0x8863e007c184a1e7 (-3) 0;
  MkD 0xd11de0ff15ab18c6 0xd88d83d4cc613f21 (-3) 0;
  MkD 0xd45f67e44178c612 0x5486e73c615158b4 (-3) 0;
  MkD 0xd79e4a7405ff96c3 0x1300c9be67ae5da0 (-3) 0;
  MkD 0xdada8cf47dad236d 0xdffb833c3409ee7e (-3) 0;
  MkD 0xde1433a16c66b14c 0xde744870f54f0f18 (-3) 0;
  MkD 0xe14b42ac60c60512 0x4e38eb8092a01f06 (-3) 0;
  MkD 0xe47fbe3cd4d10d5b 0x2ec0f797fdcd125c (-3) 0;
  MkD 0xe7b1aa704e2ee240 0xb40faab6d2ad0841 (-3) 0;
  MkD 0xeae10b5a7ddc8ad8 0x806b2fc9a8038790 (-3) 0;
  MkD 0xee0de5055f63eb01 0x90a33316df83ba5a (-3) 0;
  MkD 0xf1383b7157972f4a 0xb43fff0ff4f0aaf1 (-3) 0;
  MkD 0xf460129552d2ff41 0xe62e3201bb2bbdce (-3) 0;
  MkD 0xf7856e5ee2c9b28a 0x76f2a1b84190a7dc (-3) 0;
  MkD 0xfaa852b25bd9b833 0xa6dbfa03186e0666 (-3) 0;
  MkD 0xfdc8c36af1f15468 0x0a3361bca696504a (-3) 0;
  MkD 0x8073622d6a80e631 0xe897009015316073 (-2) 0;
  MkD 0x82012ca5a68206d5 0x8fde85afdd2bc88a (-2) 0;
  MkD 0x838dc2fe6ac868e7 0x1a3fcbdef40100cb (-2) 0;
  MkD 0x851927139c871af8 0x67bd00c38061c51f (-2) 0;
  MkD 0x86a35abcd5ba5901 0x5481c3cbd925ccd2 (-2) 0;
  MkD 0x882c5fcd7256a8c1 0x39055a6598e7c29e (-2) 0;
  MkD 0x89b438149d4582f5 0x34531dba493eb5a6 (-2) 0;
  MkD 0x8b3ae55d5d30701a 0xc63eab8837170480 (-2) 0;
  MkD 0x8cc0696ea11b7b36 0x94361c9a28d38a6a (-2) 0;
  MkD 0x8e44c60b4ccfd7dc 0x1473aa01c7778679 (-2) 0;
  MkD 0x8fc7fcf24517946a 0x380cbe769f2c6793 (-2) 0;
  MkD 0x914a0fde7bcb2d0e 0xc429ed3aea197a60 (-2) 0;
  MkD 0x92cb0086fbb1cf75 0xa29d47c50b1182d0 (-2) 0;
  MkD 0x944ad09ef4351af1 0xa49827e081cb16ba (-2) 0;
  MkD 0x95c981d5c4e924ea 0x45404f5aa577d6b4 (-2) 0;
  MkD 0x974715d708e984dd 0x6648d42840d9e6fb (-2) 0;
  MkD 0x98c38e4aa20c27d2 0x846767ec990d7333 (-2) 0;
  MkD 0x9a3eecd4c3eaa6ae 0xdb3a7f6e6087b947 (-2) 0;
  MkD 0x9bb93315fec2d790 0x7f589fba0865790f (-2) 0;
  MkD 0x9d3262ab4a2f4e37 0xa1ae6ba06846fae0 (-2) 0;
  MkD 0x9eaa7d2e0fb87c35 0xff472bc6ce648a7d (-2) 0;
  MkD 0xa0218434353f1de4 0xd493efa632530acc (-2) 0;
  MkD 0xa197795027409daa 0x1dd1d4a6df960357 (-2) 0;
  MkD 0xa30c5e10e2f613e4 0x9bd9bd99e39a20b3 (-2) 0;
  MkD 0xa4803402004e865c 0x31cbe0e8824116cd (-2) 0;
  MkD 0xa5f2fcabbbc506d8 0x68ca4fb7ec323d74 (-2) 0;
  MkD 0xa764b99300134d79 0x0d04d10474301862 (-2) 0;
  MkD 0xa8d56c396fc1684c 0x01eb067d578c4756 (-2) 0;
  MkD 0xaa45161d6e93167b 0x9b081cf72249f5b2 (-2) 0;
  MkD 0xabb3b8ba2ad362a1 0x1db6506cc17a01f5 (-2) 0;
  MkD 0xad215587a67f0cdf 0xe890422cb86b7cb1 (-2) 0;
  MkD 0xae8dedfac04e5282 0xac707b8ffc22b3e8 (-2) 0;
  MkD 0xaff983853c9e9e3f 0xc5105039091dd7f8 (-2) 0;
  MkD 0xb1641795ce3ca978 0xfaf915300e517393 (-2) 0;
  MkD 0xb2cdab981f0f940b 0xc857c77dc1df600f (-2) 0;
  MkD 0xb43640f4d8a5761f 0xf5f080a71c34b25d (-2) 0;
  MkD 0xb59dd911aca1ec48 0x1d2664cf09a0c1bf (-2) 0;
  MkD 0xb70475515d0f1c5e 0x4c98c6b8be17818d (-2) 0;
  MkD 0xb86a1713c491aeaa 0xd37ee2872a6f1cd6 (-2) 0].

Definition P_2 : list DInt64 := [
  MkD 0x99df88a0430813ca 0xa1cffb6e966a70f6 (-4) 0;
  MkD 0xaaa02d43f696c3e4 0x4dbe754667b6bc48 (-4) 1;
  MkD 0xba2e7a1eaf856174 0x70e5c5a5ebbe0226 (-4) 0;
  MkD 0xccccccb9ec017492 0xf934e28d924e76d4 (-4) 1;
  MkD 0xe38e38e3807cfa4b 0xc976e6cbd22e203f (-4) 0;
  MkD 0xfffffffffff924cc 0x05b308e39fa7dfb5 (-4) 1;
  MkD 0x924924924924911d 0x862bc3d33abb3649 (-3) 0;
  MkD 0xaaaaaaaaaaaaaaaa 0x6637fd4b19743eec (-3) 1;
  MkD 0xcccccccccccccccc 0xccc2ca18b08fe343 (-3) 0;
  MkD 0xffffffffffffffff 0xffffff2245823ae0 (-3) 1;
  MkD 0xaaaaaaaaaaaaaaaa 0xaaaaaaaaa5c48b54 (-2) 0;
  MkD 0xffffffffffffffff 0xffffffffffffebd8 (-2) 1;
  MkD 0x8000000000000000 0x0000000000000000 (0) 0].

Definition LOG2_H : f64 := fb 0x3fe62e42fefa3800.
Definition LOG2_L : f64 := fb 0x3d2ef35793c76730.
Definition FAST_ERR : f64 := fb 0x3bab600000000000.
Definition SQRT2_CUTOFF_M : Z := 0x16a09e667f3bcd.
Definition OFFSET : nat := 362.

End LogTables.
