(* ===== verification/Log.v ===== *)
(** The logarithm of the placement score: [crates/placement/src/deterministic_log.rs],
    a port of the correctly rounded logarithm of CORE-MATH to the numbers n / 2^53.

    A fast path in binary64 arithmetic decides most inputs; when its error bound
    does not, the accurate path computes with 128-bit significands ([DInt64]).
    Integers carry the checks of a build with overflow checks.  The theorem: on the
    whole domain every table index is in range, no integer operation overflows, and
    the result is a number. *)

From Stdlib Require Import SpecFloat ZifyBool.
From S2P Require Import Prelude F64 LogTables.
Import F64.

Local Open Scope Z_scope.

Module Log.
Import LogTables.

(** ** Machine integers *)

Section log.
Context {E : Type}.

(** An [i64] result, a panic when it overflows *)
Definition i64 (n : Z) : outcome E Z :=
  if (- 2 ^ 63 <=? n) && (n <? 2 ^ 63) then mret n else Panic.

(** [a - b] of unsigned integers *)
Definition usub (a b : Z) : outcome E Z := if a <? b then Panic else mret (a - b).

(** [x << n], [x >> n] of a [u128] *)
Definition shl_u128 (x n : Z) : outcome E Z :=
  if (0 <=? n) && (n <? 128) then mret (Z.shiftl x n mod 2 ^ 128) else Panic.
Definition shr_u128 (x n : Z) : outcome E Z :=
  if (0 <=? n) && (n <? 128) then mret (Z.shiftr x n) else Panic.

(** [x.leading_zeros()] of a [u64] *)
Definition leading_zeros (x : Z) : Z := if x =? 0 then 64 else 63 - Z.log2 x.

(** ** Inputs *)

Definition DENOMINATOR : Z := Z.shiftl 1 53.

(** [Unit53::from_hash] *)
Definition from_hash (hash : Z) : Z := Z.shiftr hash 11 + 1.

Definition numerator (u : Z) : outcome E Z := if (1 <=? u) && (u <=? DENOMINATOR) then mret u else Panic.

Definition to_f64 (u : Z) : outcome E f64 :=
  n ← numerator u;
  mret (f64_div (f64_of_Z n) (f64_of_Z DENOMINATOR)).

(** [F64Bits]: a float and its bits *)
Record F64Bits := MkBits { f : f64; u : Z }.

Definition bits_from_bits (bits : Z) : F64Bits := MkBits (from_bits bits) bits.

(** ** The fast path *)

Definition fast_two_sum (a b : f64) : f64 * f64 :=
  let hi := f64_add a b in
  let e := f64_sub hi a in
  let lo := f64_sub b e in
  (hi, lo).

Definition half : f64 := S754_finite false 4503599627370496 (-53).
Definition one : f64 := S754_finite false 4503599627370496 (-52).
Definition minus_one : f64 := f64_neg one.

Definition cr_log_fast (e : Z) (v : F64Bits) : outcome E (f64 * f64) :=
  let m := 0x10000000000000 + Z.land (u v) 0xfffffffffffff in
  let c := SQRT2_CUTOFF_M <=? m in
  let e := e + (if c then 1 else 0) in
  let '(cy, shift) := if c then (half, 44) else (one, 43) in
  let i := Z.shiftr m shift in
  let y := f64_mul (f v) cy in
  index ← usub i (Z.of_nat OFFSET);
  r ← idx INVERSE (Z.to_nat index);
  '(l1, l2) ← idx LOG_INV (Z.to_nat index);
  let z := f64_mul_add r y minus_one in
  let z2 := f64_mul z z in
  p5 ← idx P 5; p4 ← idx P 4; p3 ← idx P 3; p2 ← idx P 2; p1 ← idx P 1;
  let p45 := f64_mul_add p5 z p4 in
  let p23 := f64_mul_add p3 z p2 in
  let ph := f64_mul_add p45 z2 p23 in
  let ph := f64_mul_add ph z p1 in
  let ph := f64_mul ph z2 in
  let ee := f64_of_Z e in
  let '(h, l0) := fast_two_sum (f64_mul_add ee LOG2_H l1) z in
  let l := f64_add ph (f64_add l0 l2) in
  let l := f64_mul_add ee LOG2_L l in
  mret (h, l).

(** ** 128-bit significands *)

Definition cmp_dint (a b : DInt64) : comparison :=
  match ex_ a ?= ex_ b with
  | Eq => match hi a ?= hi b with Eq => lo a ?= lo b | c => c end
  | c => c
  end.

Definition pack_u128 (hi lo : Z) : Z := Z.lor (Z.shiftl hi 64) lo.
Definition unpack_u128 (value : Z) : Z * Z := (Z.shiftr value 64, value mod 2 ^ 64).

Definition add_u128 (a b : Z) : Z * bool := ((a + b) mod 2 ^ 128, 2 ^ 128 <=? a + b).
Definition sub_u128 (a b : Z) : Z * bool := ((a - b) mod 2 ^ 128, a <? b).

(** The smaller significand moved to the exponent of the larger *)
Definition align_smaller (a b : DInt64) : outcome E Z :=
  let b_bits := pack_u128 (hi b) (lo b) in
  if ex_ b <? ex_ a then
    d ← i64 (ex_ a - ex_ b);
    let sh := d mod 2 ^ 32 in
    b_bits ← (if sh <=? 128 then
                s ← usub sh 1;
                x ← shr_u128 b_bits s;
                mret ((b_bits + Z.land x 1) mod 2 ^ 128)
              else mret b_bits);
    if sh <? 128 then shr_u128 b_bits sh else mret 0
  else mret b_bits.

(** The sum of the significands and the carry into the exponent *)
Definition combine_bits (subtract : bool) (a_bits b_bits : Z) : Z * Z :=
  if subtract then (fst (sub_u128 a_bits b_bits), 0)
  else
    let '(sum, overflow) := add_u128 a_bits b_bits in
    if overflow then
      let rounded := (sum + Z.land sum 1) mod 2 ^ 128 in
      (Z.lor (Z.shiftl 1 127) (Z.shiftr rounded 1), 1)
    else (sum, 0).

(** [add_dint] for [a] above [b], both not zero *)
Definition add_larger (a b : DInt64) : outcome E DInt64 :=
  let a_bits := pack_u128 (hi a) (lo a) in
  b_bits ← align_smaller a b;
  let '(c_bits, carry) := combine_bits (negb (Z.lxor (sgn a) (sgn b) =? 0)) a_bits b_bits in
  out_ex ← i64 (ex_ a + carry);
  let '(c_hi, c_lo) := unpack_u128 c_bits in
  let shift := if negb (c_hi =? 0) then leading_zeros c_hi
               else if negb (c_lo =? 0) then 64 + leading_zeros c_lo
               else ex_ a in
  c_bits ← shl_u128 c_bits (shift mod 2 ^ 32);
  let '(h, l) := unpack_u128 c_bits in
  e ← i64 (out_ex - shift);
  mret (MkD h l e (sgn a)).

(** The recursive call of [add_dint] swaps the arguments, once. *)
Fixpoint add_dint_rec (fuel : nat) (a b : DInt64) : outcome E DInt64 :=
  match fuel with
  | O => Panic
  | S fuel =>
      if Z.lor (hi a) (lo a) =? 0 then mret b else
      if Z.lor (hi b) (lo b) =? 0 then mret a else
      match cmp_dint a b with
      | Eq =>
          if negb (Z.lxor (sgn a) (sgn b) =? 0) then mret ZERO
          else e ← i64 (ex_ a + 1); mret (MkD (hi a) (lo a) e (sgn a))
      | Lt => add_dint_rec fuel b a
      | Gt => add_larger a b
      end
  end.

Definition add_dint (a b : DInt64) : outcome E DInt64 := add_dint_rec 2 a b.

Definition mul_dint (a b : DInt64) : outcome E DInt64 :=
  let t := hi a * hi b in
  let m1 := hi a * lo b in
  let m2 := lo a * hi b in
  let '(sum, overflow) := add_u128 m1 m2 in
  let carry := Z.shiftr sum 64 + Z.shiftl (if overflow then 1 else 0) 64 in
  let t := (t + carry) mod 2 ^ 128 in
  let '(t, ex) := if Z.shiftr t 127 =? 0 then (Z.shiftl t 1 mod 2 ^ 128, 1) else (t, 0) in
  let t := (t + Z.land (Z.shiftr sum 63) 1) mod 2 ^ 128 in
  let '(h, l) := unpack_u128 t in
  e1 ← i64 (ex_ a + ex_ b);
  e2 ← i64 (e1 - ex);
  e ← i64 (e2 + 1);
  mret (MkD h l e (Z.lxor (sgn a) (sgn b))).

Definition mul_dint_i64 (b : Z) (a : DInt64) : outcome E DInt64 :=
  if b =? 0 then mret ZERO else
  let c := Z.abs b in
  let s := if b <? 0 then Z.lxor (sgn a) 1 else sgn a in
  let t := hi a * c in
  let m := if negb (Z.shiftr t 64 =? 0) then leading_zeros (Z.shiftr t 64) else 64 in
  t ← shl_u128 t m;
  let l := lo a * c in
  m1 ← usub m 1;
  l ← shl_u128 l m1;
  l ← shr_u128 l 63;
  let '(sum, overflow) := add_u128 l t in
  '(t, m) ← (if overflow then
               let t := (sum + Z.land sum 1) mod 2 ^ 128 in
               m ← usub m 1;
               mret (Z.lor (Z.shiftl 1 127) (Z.shiftr t 1), m)
             else mret (sum, m));
  let '(h, l) := unpack_u128 t in
  e1 ← i64 (ex_ a + 64);
  e ← i64 (e1 - m);
  mret (MkD h l e s).

Definition p_2 (z : DInt64) : outcome E DInt64 :=
  out ← idx P_2 0;
  out ← foldM (fun out coeff => out ← mul_dint z out; add_dint coeff out) out (drop 1 P_2);
  mul_dint z out.

Definition log_2 (x : DInt64) : outcome E DInt64 :=
  let exp := ex_ x in
  let i := Z.shiftr (hi x) 55 in
  '(exp, i) ← (if 0xb504f333f9de6484 <? hi x then exp ← i64 (exp + 1); mret (exp, Z.shiftr i 1)
               else mret (exp, i));
  e ← i64 (ex_ x - exp);
  let x := MkD (hi x) (lo x) e (sgn x) in
  k ← usub i 128;
  inverse ← idx INVERSE_2 (Z.to_nat k);
  z ← mul_dint x inverse;
  z ← add_dint z M_ONE;
  out ← mul_dint_i64 exp LOG2;
  p ← p_2 z;
  log_inv ← idx LOG_INV_2 (Z.to_nat k);
  p ← add_dint log_inv p;
  add_dint p out.

(** ** Conversions *)

Definition fast_extract (x : f64) : Z * Z :=
  let bits := to_bits x in
  let exp_bits := Z.land (Z.shiftr bits 52) 0x7ff in
  let mantissa := Z.land bits (Z.shiftl 1 52 - 1) + (if negb (exp_bits =? 0) then Z.shiftl 1 52 else 0) in
  (exp_bits - 0x3ff, mantissa).

Definition is_sign_negative (x : f64) : bool := Z.testbit (to_bits x) 63.

Definition dint_from_f64 (value : f64) : outcome E DInt64 :=
  let '(ex, hi) := fast_extract value in
  let t := leading_zeros hi in
  hi ← (if t <? 64 then mret (Z.shiftl hi t mod 2 ^ 64) else Panic);
  let ex := ex - (if 11 <? t then t - 12 else 0) in
  mret (MkD hi 0 ex (if is_sign_negative value then 1 else 0)).

Definition dint_to_f64 (value : DInt64) : outcome E f64 :=
  let r_u := Z.lor (Z.shiftr (hi value) 11) (Z.shiftl 0x3ff 52) in
  let rd := f64_zero in
  let rd := if negb (Z.land (Z.shiftr (hi value) 10) 1 =? 0) then f64_add rd (from_bits 0x3ca0000000000000) else rd in
  let rd := if negb (Z.land (hi value) 0x3ff =? 0) || negb (lo value =? 0)
            then f64_add rd (from_bits 0x3c90000000000000) else rd in
  let r_u := Z.lor r_u (Z.shiftl (sgn value) 63) in
  let r_f := f64_add (from_bits r_u) (if sgn value =? 0 then rd else f64_neg rd) in
  e ← i64 (ex_ value + 1023);
  let e_f := from_bits (Z.shiftl (Z.land e 0x7ff) 52) in
  mret (f64_mul r_f e_f).

(** ** The logarithm *)

Definition cr_log_accurate (x : f64) : outcome E f64 :=
  if to_bits x =? to_bits one then mret f64_zero else
  input ← dint_from_f64 x;
  output ← log_2 input;
  dint_to_f64 output.

Definition cr_log_restricted (x : f64) : outcome E f64 :=
  let bits := to_bits x in
  let e := Z.land (Z.shiftr bits 52) 0x7ff - 0x3ff in
  let v := bits_from_bits (Z.lor (Z.shiftl 0x3ff 52) (Z.land bits 0xfffffffffffff)) in
  if (u v =? 0x3ff0000000000000) && (e =? 0) then mret f64_zero else
  '(h, l) ← cr_log_fast e v;
  let left := f64_add h (f64_sub l FAST_ERR) in
  let right := f64_add h (f64_add l FAST_ERR) in
  if to_bits left =? to_bits right then mret left else cr_log_accurate x.

Definition deterministic_log_u53 (x : Z) : outcome E f64 :=
  v ← to_f64 x;
  cr_log_restricted v.
End log.
End Log.
