(* ===== verification/LogProps.v ===== *)
(** The logarithm of the placement score: it is total and gives numbers.

    The inputs n / 2^53 are exact; the fast path stays far below the largest float;
    the 128-bit significands stay zero or normalised, so that every shift is in
    range; and the final conversion of the accurate path is a number. *)

From Stdlib Require Import SpecFloat ZifyBool.
From S2P Require Import Prelude F64 LogTables Log.
Import F64.

Local Open Scope Z_scope.

Module LogProps.
Import LogTables Log.

(** A 64-bit hash gives a numerator in [1, 2^53]. *)
Lemma from_hash_range h : 0 <= h < 2 ^ 64 -> 1 <= from_hash h <= 2 ^ 53.
Proof.
  intros Hh. unfold from_hash. rewrite Z.shiftr_div_pow2 by lia.
  assert (0 <= h / 2 ^ 11 < 2 ^ 53); [|lia].
  split; [apply Z.div_pos; lia|]. apply Z.div_lt_upper_bound; lia.
Qed.

(** ** Bits *)

Lemma lor_disjoint a b n : 0 <= n -> 0 <= b < 2 ^ n -> Z.lor (Z.shiftl a n) b = a * 2 ^ n + b.
Proof.
  intros Hn Hb. rewrite <-Z.shiftl_mul_pow2 by done.
  assert (Z.land (Z.shiftl a n) b = 0) as Hland.
  { apply Z.bits_inj'. intros i Hi. rewrite Z.land_spec, Z.bits_0. destruct (Z.ltb_spec i n).
    - by rewrite Z.shiftl_spec_low.
    - rewrite <-(Z.mod_small b (2 ^ n)) by lia. by rewrite Z.mod_pow2_bits_high, andb_false_r by lia. }
  by rewrite Z.add_nocarry_lxor, Z.lxor_lor.
Qed.

Lemma land_ones_mod a n : 0 <= n -> Z.land a (2 ^ n - 1) = a mod 2 ^ n.
Proof. intros Hn. replace (2 ^ n - 1) with (Z.ones n) by (rewrite Z.ones_equiv; lia). by apply Z.land_ones. Qed.

Section log.
Context {E : Type}.

(** ** Inputs *)

(** A positive significand of 53 bits *)
Definition normal (x : f64) (lo hi : Z) : Prop :=
  exists m e, x = S754_finite false m e /\ 2 ^ 52 <= Zpos m < 2 ^ 53 /\ lo <= e <= hi.

Lemma Zdigits2_normal m : 2 ^ 52 <= Zpos m < 2 ^ 53 -> Zdigits2 (Zpos m) = 53.
Proof.
  intros Hm. pose proof (Zdigits2_bound (Zpos m) 53 ltac:(lia) ltac:(lia)) as Hle.
  assert (Zpos m < 2 ^ Zdigits2 (Zpos m)) as Hlt.
  { simpl. clear. induction m as [m IH|m IH|]; simpl digits2_pos; [| |done];
      rewrite Pos2Z.inj_succ, Z.pow_succ_r by lia; lia. }
  destruct (Z.lt_trichotomy (Zdigits2 (Zpos m)) 53) as [Hd|[Hd|Hd]]; [|done|lia].
  assert (2 ^ Zdigits2 (Zpos m) <= 2 ^ 52) by (apply Z.pow_le_mono_r; lia). lia.
Qed.

(** A normal significand is not shifted. *)
Lemma shr_fexp_normal m e :
  2 ^ 52 <= Zpos m < 2 ^ 53 -> -1074 <= e ->
  shr_fexp 53 1024 (Zpos m) e loc_Exact = (Build_shr_record (Zpos m) false false, e).
Proof.
  intros Hm He. unfold shr_fexp. rewrite (Zdigits2_normal m Hm). unfold fexp, emin.
  by replace (Z.max (53 + e - 53) (3 - 1024 - 53) - e) with 0 by lia.
Qed.

Lemma round_exact s m e :
  2 ^ 52 <= Zpos m < 2 ^ 53 -> -1074 <= e <= 971 ->
  binary_round_aux 53 1024 s (Zpos m) e loc_Exact = S754_finite s m e.
Proof.
  intros Hm He. unfold binary_round_aux. rewrite (shr_fexp_normal m e Hm) by lia.
  cbn [shr_m loc_of_shr_record round_nearest_even]. rewrite (shr_fexp_normal m e Hm) by lia.
  cbn [shr_m]. by rewrite (proj2 (Z.leb_le e (1024 - 53))) by lia.
Qed.

Lemma digits_range p : 2 ^ (Zdigits2 (Zpos p) - 1) <= Zpos p < 2 ^ Zdigits2 (Zpos p).
Proof.
  simpl Zdigits2. induction p as [p IH|p IH|]; simpl digits2_pos; [| |done];
    rewrite Pos2Z.inj_succ; replace (Z.succ _ - 1) with (Z.succ (Zpos (digits2_pos p) - 1)) by lia;
    rewrite !Z.pow_succ_r by lia; lia.
Qed.

Lemma of_Z_normal n : 1 <= n <= 2 ^ 53 -> exists m e,
  f64_of_Z n = S754_finite false m e /\ 2 ^ 52 <= Zpos m < 2 ^ 53 /\ -52 <= e <= 1 /\
  Zpos m * 2 ^ (e + 52) = n * 2 ^ 52.
Proof.
  intros Hn. destruct (Z.eq_dec n (2 ^ 53)) as [->|Hne].
  { exists 4503599627370496%positive, 1. split; [by vm_compute|lia]. }
  destruct n as [|p|p]; try lia. pose proof (digits_range p) as Hd.
  set (d := Zdigits2 (Zpos p)) in *.
  assert (d <= 53) as Hd53 by (apply Zdigits2_bound; lia). assert (1 <= d) as Hd1 by (unfold d; simpl; lia).
  unfold f64_of_Z, binary_normalize, binary_round. change (Zpos (digits2_pos p)) with d.
  assert (fexp 53 1024 (d + 0) = d - 53) as -> by (unfold fexp, emin; lia).
  pose proof (shl_align_value p 0 (d - 53) ltac:(lia)) as Hv.
  destruct (shl_align p 0 (d - 53)) as [mz ez] eqn:Hs. cbn [fst] in Hv.
  assert (ez = d - 53) as ->.
  { unfold shl_align in Hs. destruct (d - 53 - 0) eqn:He; injection Hs as <- <-; lia. }
  assert (2 ^ 52 <= Zpos mz < 2 ^ 53) as Hmz.
  { rewrite Hv. replace (0 - (d - 53)) with (53 - d) by lia. split.
    - replace (2 ^ 52) with (2 ^ (d - 1) * 2 ^ (53 - d)) by (rewrite <-Z.pow_add_r by lia; f_equal; lia).
      apply Z.mul_le_mono_nonneg_r; lia.
    - replace (2 ^ 53) with (2 ^ d * 2 ^ (53 - d)) by (rewrite <-Z.pow_add_r by lia; f_equal; lia).
      apply Z.mul_lt_mono_pos_r; lia. }
  rewrite round_exact by (done || lia). exists mz, (d - 53). split; [done|]. split; [done|]. split; [lia|].
  rewrite Hv, <-Z.mul_assoc, <-Z.pow_add_r by lia. do 2 f_equal. lia.
Qed.

(** The division by 2^53 is exact. *)
Lemma div_denominator m e :
  2 ^ 52 <= Zpos m < 2 ^ 53 -> -52 <= e <= 1 ->
  f64_div (S754_finite false m e) (f64_of_Z DENOMINATOR) = S754_finite false m (e - 53).
Proof.
  intros Hm He. change (f64_of_Z DENOMINATOR) with (S754_finite false 4503599627370496 1).
  unfold f64_div. cbn [SFdiv xorb]. unfold SFdiv_core_binary. rewrite (Zdigits2_normal m Hm).
  change (Zdigits2 4503599627370496) with 53. unfold fexp, emin.
  replace (Z.min (Z.max (53 + e - (53 + 1) - 53) (3 - 1024 - 53)) (e - 1)) with (e - 54) by lia.
  replace (e - 1 - (e - 54)) with 53 by lia. cbv iota.
  assert (Z.div_eucl (Z.shiftl (Zpos m) 53) 4503599627370496 = (Zpos (2 * m), 0)) as ->.
  { rewrite Z.shiftl_mul_pow2 by lia.
    pose proof (Z_div_mod (Zpos m * 2 ^ 53) 4503599627370496 ltac:(lia)) as Hdm.
    destruct (Z.div_eucl _ _) as [q r]. f_equal; lia. }
  change (new_location 4503599627370496 0) with loc_Exact. unfold binary_round_aux.
  assert (shr_fexp 53 1024 (Zpos (2 * m)) (e - 54) loc_Exact = (Build_shr_record (Zpos m) false false, e - 53)) as ->.
  { unfold shr_fexp. change (Zdigits2 (Zpos (2 * m))) with (Zpos (Pos.succ (digits2_pos m))). rewrite Pos2Z.inj_succ.
    change (Zpos (digits2_pos m)) with (Zdigits2 (Zpos m)). rewrite (Zdigits2_normal m Hm). unfold fexp, emin.
    replace (Z.max (Z.succ 53 + (e - 54) - 53) (3 - 1024 - 53) - (e - 54)) with 1 by lia. unfold shr. simpl.
    f_equal. lia. }
  cbn [shr_m loc_of_shr_record round_nearest_even]. rewrite (shr_fexp_normal m (e - 53) Hm) by lia.
  cbn [shr_m]. by rewrite (proj2 (Z.leb_le (e - 53) (1024 - 53))) by lia.
Qed.

(** The inputs are normal floats between 2^-53 and 1, and exact. *)
Lemma to_f64_exact n : 1 <= n <= 2 ^ 53 ->
  returns (to_f64 (E:=E) n) (fun x => exists m e, x = S754_finite false m e /\
    2 ^ 52 <= Zpos m < 2 ^ 53 /\ -105 <= e <= -52 /\ Zpos m * 2 ^ (e + 105) = n * 2 ^ 52).
Proof.
  intros Hn. unfold to_f64, numerator.
  rewrite (proj2 (Z.leb_le 1 n)), (proj2 (Z.leb_le n DENOMINATOR)) by (change DENOMINATOR with (2 ^ 53); lia).
  cbn [andb]. bind_step.
  apply returns_Ok. eexists. split; [done|]. destruct (of_Z_normal n Hn) as (m & e & -> & Hm & He & Hv).
  rewrite (div_denominator m e Hm He). exists m, (e - 53). split; [done|]. split; [done|]. split; [lia|].
  by replace (e - 53 + 105) with (e + 52) by lia.
Qed.

(** The bits of a normal float *)
Lemma to_bits_normal m e :
  2 ^ 52 <= Zpos m < 2 ^ 53 -> -105 <= e <= -52 ->
  let bits := to_bits (S754_finite false m e) in
  Z.shiftr bits 52 = e + 1075 /\ Z.land bits (2 ^ 52 - 1) = Zpos m - 2 ^ 52 /\ 0 <= bits < 2 ^ 63.
Proof.
  intros Hm He bits.
  assert (bits = (e + 1075) * 2 ^ 52 + (Zpos m - 2 ^ 52)) as Hb.
  { unfold bits, to_bits. rewrite (proj2 (Z.ltb_ge _ _)) by lia. rewrite Z.shiftl_mul_pow2; lia. }
  rewrite land_ones_mod, Z.shiftr_div_pow2 by lia. split; [|split; [|lia]].
  - rewrite Hb, Z.div_add_l by lia. rewrite (Z.div_small (Zpos m - 2 ^ 52)); lia.
  - rewrite Hb, Z.add_comm, Z.mod_add by lia. apply Z.mod_small. lia.
Qed.

(** ** The fast path *)

Lemma from_bits_one b : 0 <= b < 2 ^ 52 -> exists m,
  from_bits (Z.lor (Z.shiftl 0x3ff 52) b) = S754_finite false m (-52) /\ Zpos m = 2 ^ 52 + b.
Proof.
  intros Hb. rewrite lor_disjoint by lia. unfold from_bits.
  rewrite land_ones_mod, Z.add_comm, Z.mod_add, (Z.mod_small b) by lia.
  rewrite Z.shiftr_div_pow2, Z.div_add, (Z.div_small b) by lia. change (Z.land (0 + 0x3ff) 0x7ff) with 0x3ff.
  cbn [Z.eqb Pos.eqb].
  assert (Z.testbit (b + 0x3ff * 2 ^ 52) 63 = false) as ->.
  { rewrite <-(Z.mod_small (b + 0x3ff * 2 ^ 52) (2 ^ 63)) by lia. by apply Z.mod_pow2_bits_high. }
  destruct (2 ^ 52 + b) as [|m|m] eqn:Hm; [lia| |lia]. by exists m.
Qed.

Lemma table_below k l (i : nat) x : forallb (belowb k) l = true -> l !! i = Some x -> below k x.
Proof.
  intros Hl Hi. apply belowb_true. eapply (proj1 (forallb_forall _ _) Hl).
  apply list_elem_of_In. by eapply list_elem_of_lookup_2.
Qed.

Lemma INVERSE_below : forallb (belowb 1) INVERSE = true.
Proof. by vm_compute. Qed.
Lemma LOG_INV_below : forallb (fun '(l1, l2) => belowb 0 l1 && belowb 0 l2) LOG_INV = true.
Proof. by vm_compute. Qed.

(** The index of the tables is in range. *)
Lemma fast_index m :
  2 ^ 52 <= m < 2 ^ 53 ->
  let i := Z.shiftr m (if SQRT2_CUTOFF_M <=? m then 44 else 43) in
  362 <= i <= 724.
Proof.
  intros Hm. unfold SQRT2_CUTOFF_M. simpl. rewrite !Z.shiftr_div_pow2 by (destruct (_ <=? _); lia).
  destruct (Z.leb_spec 0x16a09e667f3bcd m).
  - split; [apply Z.div_le_lower_bound; lia|]. apply Z.lt_succ_r, Z.div_lt_upper_bound; lia.
  - split; [apply Z.div_le_lower_bound; lia|]. apply Z.lt_succ_r, Z.div_lt_upper_bound; lia.
Qed.

(** Reading a table whose entries are bounded *)
Lemma idx_below k l (i : nat) :
  forallb (belowb k) l = true -> (i < length l)%nat -> returns (idx (E:=E) l i) (below k).
Proof.
  intros Hl Hi. apply lookup_lt_is_Some in Hi as [x Hx]. apply returns_Ok. exists x.
  unfold idx. rewrite Hx. split; [done|by eapply table_below].
Qed.

Lemma idx_LOG_INV_below (i : nat) :
  (i < 363)%nat -> returns (idx (E:=E) LOG_INV i) (fun '(l1, l2) => below 0 l1 /\ below 0 l2).
Proof.
  intros Hi. assert (length LOG_INV = 363%nat) as Hl by (by vm_compute).
  destruct (lookup_lt_is_Some_2 LOG_INV i ltac:(lia)) as [[l1 l2] Hx]. apply returns_Ok. exists (l1, l2).
  unfold idx. rewrite Hx. split; [done|].
  assert (belowb 0 l1 && belowb 0 l2 = true) as [H1 H2]%andb_prop; [|by split; apply belowb_true].
  apply (proj1 (forallb_forall _ _) LOG_INV_below (l1, l2)). apply list_elem_of_In. by eapply list_elem_of_lookup_2.
Qed.

Lemma fast_two_sum_below a b :
  below 16 a -> below 16 b -> below 18 (fast_two_sum a b).1 /\ below 22 (fast_two_sum a b).2.
Proof.
  intros Ha Hb. unfold fast_two_sum. cbn [fst snd]. assert (below 18 (f64_add a b)) as Hhi by (by apply (add_below 16)).
  split; [done|]. apply (sub_below 20); [done|by apply (f64_below_mono 16)|].
  apply (sub_below 18); [done|done|by apply (f64_below_mono 16)].
Qed.

(** The polynomial part of the fast path stays far below the largest float. *)
Lemma fast_poly_below r y p1 p2 p3 p4 p5 :
  below 1 r -> below 3 y -> below 1 p1 -> below 1 p2 -> below 1 p3 -> below 1 p4 -> below 1 p5 ->
  let z := f64_mul_add r y minus_one in
  let z2 := f64_mul z z in
  let ph := f64_mul_add (f64_mul_add p5 z p4) z2 (f64_mul_add p3 z p2) in
  below 7 z /\ below 61 (f64_mul (f64_mul_add ph z p1) z2).
Proof.
  intros Hr Hy H1 H2 H3 H4 H5 z z2 ph.
  assert (below 7 z) as Hz by (by apply (mul_add_below 1 3 5); [..|by vm_compute]).
  assert (below 15 z2) as Hz2 by (by apply (mul_below 7 7)).
  assert (forall a b, below 1 a -> below 1 b -> below 11 (f64_mul_add a z b)) as Hp.
  { intros a b Ha Hb. apply (mul_add_below 1 7 9); [done|done|done|done|by apply (f64_below_mono 1)]. }
  assert (below 29 ph) as Hph.
  { apply (mul_add_below 11 15 27); [done|done|by apply Hp|done|by apply (f64_below_mono 11), Hp]. }
  split; [done|]. apply (f64_below_mono 55); [done|]. apply (mul_below 39 15); [done| |done].
  apply (mul_add_below 29 7 37); [done|done|done|done|by apply (f64_below_mono 1)].
Qed.

Lemma int_below e : -1100 <= e <= 1100 -> below 12 (f64_of_Z e).
Proof. intros He. apply (normalize_below 11); [done|]. change (2 ^ (11 - 0)) with 2048. lia. Qed.

(** Read the next coefficient of the polynomial. *)
Ltac read_coefficient p H :=
  eapply wp_bind_returns; [by apply (idx_below 1); [by vm_compute|simpl; lia]|]; intros p H.

(** The last lines of the fast path *)
Lemma fast_sum_below e z ph l1 l2 :
  -1100 <= e <= 1100 -> below 7 z -> below 61 ph -> below 0 l1 -> below 0 l2 ->
  let ee := f64_of_Z e in
  returns (let '(h, l0) := fast_two_sum (f64_mul_add ee LOG2_H l1) z in
           let l := f64_add ph (f64_add l0 l2) in
           let l := f64_mul_add ee LOG2_L l in
           mret (M := outcome E) (h, l))
    (fun '(h, l) => below 18 h /\ below 65 l).
Proof.
  intros He Hz Hph Hl1 Hl2 ee. pose proof (int_below e He) as Hee.
  assert (below 16 (f64_mul_add ee LOG2_H l1)) as Ha
    by (apply (mul_add_below 12 0 14); [done|done|done|by vm_compute|by apply (f64_below_mono 0)]).
  destruct (fast_two_sum_below _ z Ha (f64_below_mono 7 16 z ltac:(lia) Hz)) as [Hh Hl0].
  destruct (fast_two_sum _ z) as [h l0]. cbn [fst snd] in *. split; [done|].
  apply (mul_add_below 12 0 63); [done|done|done|by vm_compute|]. apply (add_below 61); [done|done|].
  apply (f64_below_mono 24); [done|]. apply (add_below 22); [done|done|by apply (f64_below_mono 0)].
Qed.

Lemma cr_log_fast_below e b :
  -1099 <= e <= 1099 -> 0 <= b < 2 ^ 52 ->
  returns (cr_log_fast (E:=E) e (bits_from_bits (Z.lor (Z.shiftl 0x3ff 52) b)))
    (fun '(h, l) => below 18 h /\ below 65 l).
Proof.
  intros He Hb. unfold cr_log_fast, bits_from_bits. cbn [u f].
  destruct (from_bits_one b Hb) as (v & -> & Hv).
  assert (Z.land (Z.lor (Z.shiftl 0x3ff 52) b) 0xfffffffffffff = b) as ->.
  { change 0xfffffffffffff with (2 ^ 52 - 1). rewrite land_ones_mod, lor_disjoint, Z.add_comm, Z.mod_add by lia.
    apply Z.mod_small. lia. }
  change 0x10000000000000 with (2 ^ 52). set (m := 2 ^ 52 + b).
  pose proof (fast_index m ltac:(lia)) as Hi. set (c := SQRT2_CUTOFF_M <=? m) in *.
  assert (exists cy, (if c then (half, 44) else (one, 43)) = (cy, if c then 44 else 43) /\ below 1 cy) as (cy & -> & Hcy)
    by (destruct c; eexists; split; done).
  set (i := Z.shiftr m (if c then 44 else 43)) in *. cbv zeta in Hi.
  unfold usub at 1. rewrite (proj2 (Z.ltb_ge i (Z.of_nat OFFSET))) by (unfold OFFSET; lia). bind_step.
  assert (Z.to_nat (i - Z.of_nat OFFSET) < 363)%nat as Hidx by (unfold OFFSET; lia).
  apply (wp_bind_returns _ _ (below 1)); [by apply idx_below; [apply INVERSE_below|]|]. intros r Hr.
  eapply wp_bind_returns; [by apply idx_LOG_INV_below|]. intros [l1 l2] [Hl1 Hl2].
  read_coefficient p5 H5.  read_coefficient p4 H4.  read_coefficient p3 H3.  read_coefficient p2 H2.  read_coefficient p1 H1.
  assert (below 3 (f64_mul (S754_finite false v (-52)) cy)) as Hy.
  { apply (mul_below 1 1); [done| |done]. simpl. rewrite Hv. lia. }
  destruct (fast_poly_below r _ p1 p2 p3 p4 p5 Hr Hy H1 H2 H3 H4 H5) as [Hz Hph].
  apply fast_sum_below; [destruct c; lia|done..].
Qed.

(** ** 128-bit significands *)

(** Zero or normalised, with an exponent of at most [B] *)
Definition dint_ok (B : Z) (d : DInt64) : Prop :=
  0 <= hi d < 2 ^ 64 /\ 0 <= lo d < 2 ^ 64 /\ (hi d = 0 /\ lo d = 0 \/ 2 ^ 63 <= hi d) /\
  Z.abs (ex_ d) <= B /\ (sgn d = 0 \/ sgn d = 1).

Lemma dint_ok_mono B B' d : B <= B' -> dint_ok B d -> dint_ok B' d.
Proof. intros HB (? & ? & ? & ? & ?). repeat split; try done; lia. Qed.

Lemma i64_ok n : Z.abs n <= 2 ^ 62 -> i64 (E:=E) n = Ok n.
Proof. intros Hn. unfold i64. by rewrite (proj2 (Z.leb_le _ _)), (proj2 (Z.ltb_lt _ _)) by lia. Qed.

(** A significand of 128 bits that is zero or has its top bit *)
Lemma unpack_ok t e s B :
  t = 0 \/ 2 ^ 127 <= t < 2 ^ 128 -> Z.abs e <= B -> s = 0 \/ s = 1 ->
  dint_ok B (MkD (fst (unpack_u128 t)) (snd (unpack_u128 t)) e s).
Proof.
  intros Ht He Hs. unfold unpack_u128, dint_ok. cbn [fst snd hi lo ex_ sgn]. rewrite Z.shiftr_div_pow2 by lia.
  pose proof (Z.mod_pos_bound t (2 ^ 64) ltac:(lia)).
  destruct Ht as [->|Ht]; [rewrite Z.div_0_l, Z.mod_0_l by lia; repeat split; try done; try lia; by left|].
  assert (2 ^ 63 <= t / 2 ^ 64 < 2 ^ 64) as Hh.
  { split; [apply Z.div_le_lower_bound|apply Z.div_lt_upper_bound]; lia. }
  repeat split; try done; lia.
Qed.

Lemma lxor_sign a b : a = 0 \/ a = 1 -> b = 0 \/ b = 1 -> Z.lxor a b = 0 \/ Z.lxor a b = 1.
Proof. intros [-> | ->] [-> | ->]; simpl; auto. Qed.

Lemma bit_cases x : Z.land x 1 = 0 \/ Z.land x 1 = 1.
Proof. rewrite (land_ones_mod x 1 ltac:(done) : Z.land x 1 = x mod 2). pose proof (Z.mod_pos_bound x 2 ltac:(lia)). lia. Qed.

(** The high half of the product, with the carries of the cross products *)
Lemma product_range ah al bh bl :
  2 ^ 63 <= ah < 2 ^ 64 -> 2 ^ 63 <= bh < 2 ^ 64 -> 0 <= al < 2 ^ 64 -> 0 <= bl < 2 ^ 64 ->
  2 ^ 126 <= ah * bh + (ah * bl + al * bh) / 2 ^ 64 < 2 ^ 128.
Proof.
  intros Ha Hb Hal Hbl.
  assert (0 <= ah * bl + al * bh <= 2 * (2 ^ 64 - 1) * (2 ^ 64 - 1)) as Hs by nia.
  assert (0 <= (ah * bl + al * bh) / 2 ^ 64 <= 2 * (2 ^ 64 - 1)) as Hd.
  { split; [apply Z.div_pos; lia|]. apply Z.lt_succ_r, Z.div_lt_upper_bound; lia. }
  assert (2 ^ 126 <= ah * bh <= (2 ^ 64 - 1) * (2 ^ 64 - 1)) by nia. lia.
Qed.

Lemma add_u128_carry x y :
  0 <= x -> 0 <= y -> x + y < 2 * 2 ^ 128 ->
  let '(sum, overflow) := add_u128 x y in
  Z.shiftr sum 64 + Z.shiftl (if overflow then 1 else 0) 64 = (x + y) / 2 ^ 64.
Proof.
  intros Hx Hy Hxy. unfold add_u128. rewrite Z.shiftr_div_pow2, Z.shiftl_mul_pow2 by lia.
  destruct (Z.leb_spec (2 ^ 128) (x + y)).
  - replace ((x + y) mod 2 ^ 128) with (x + y - 2 ^ 128) by (apply (Z.mod_unique _ _ 1); lia).
    replace (x + y) with (x + y - 2 ^ 128 + 2 ^ 64 * 2 ^ 64) at 2 by lia. rewrite Z.div_add by lia. lia.
  - rewrite Z.mod_small by lia. lia.
Qed.

Lemma mul_dint_ok A B a b :
  dint_ok A a -> dint_ok B b -> A + B <= 2 ^ 60 -> returns (mul_dint (E:=E) a b) (dint_ok (A + B + 1)).
Proof.
  intros (Hah & Hal & Ha & Hae & Has) (Hbh & Hbl & Hb & Hbe & Hbs) HAB. unfold mul_dint.
  pose proof (add_u128_carry (hi a * lo b) (lo a * hi b) ltac:(nia) ltac:(nia) ltac:(nia)) as Hcarry.
  destruct (add_u128 _ _) as [sum overflow] eqn:Hsum. rewrite Hcarry.
  set (t := (hi a * hi b + _) mod 2 ^ 128).
  set (p := if Z.shiftr t 127 =? 0 then _ else _).
  assert ((fst p = 0 /\ sum = 0 \/ 2 ^ 127 <= fst p < 2 ^ 128) /\ (snd p = 0 \/ snd p = 1)) as [Hp1 Hp2].
  { assert (t = 0 /\ sum = 0 \/ 2 ^ 126 <= t < 2 ^ 128) as Ht.
    { unfold t, add_u128 in *. destruct Ha as [[Ha0 Ha1]|Ha]; [rewrite Ha0, Ha1 in *; left; split; [done|by injection Hsum as <- _]|].
      destruct Hb as [[Hb0 Hb1]|Hb]; [rewrite Hb0, Hb1, !Z.mul_0_r in *; left; split; [done|by injection Hsum as <- _]|]. right. pose proof (product_range (hi a) (lo a) (hi b) (lo b) ltac:(lia) ltac:(lia) Hal Hbl).
      by rewrite Z.mod_small by lia. }
    unfold p. rewrite Z.shiftr_div_pow2 by lia. destruct Ht as [[-> ->]|Ht]; [by split; [left|right]|].
    destruct (Z.eqb_spec (t / 2 ^ 127) 0) as [H0|H0]; cbn [fst snd].
    - apply Z.div_small_iff in H0; [|lia]. split; [right|by right].
      rewrite Z.shiftl_mul_pow2, Z.mod_small by lia. lia.
    - split; [right|by left]. assert (~ t < 2 ^ 127) by (intros ?; apply H0, Z.div_small; lia). lia. }
  destruct p as [t' ex]. cbn [fst snd] in *.
  assert (let t2 := (t' + Z.land (Z.shiftr sum 63) 1) mod 2 ^ 128 in t2 = 0 \/ 2 ^ 127 <= t2 < 2 ^ 128) as Ht2.
  { simpl. destruct Hp1 as [[-> ->]|Hp1]; [by left|]. destruct (bit_cases (Z.shiftr sum 63)) as [-> | ->].
    - rewrite Z.add_0_r, Z.mod_small by lia. by right.
    - destruct (Z.eq_dec t' (2 ^ 128 - 1)) as [->|Hne]; [by left|]. rewrite Z.mod_small by lia. lia. }
  set (t2 := (t' + _) mod 2 ^ 128) in *. cbv zeta in Ht2.
  pose proof (unpack_ok t2 (ex_ a + ex_ b - ex + 1) (Z.lxor (sgn a) (sgn b)) (A + B + 1) Ht2 ltac:(lia)
    (lxor_sign _ _ Has Hbs)) as Hok.
  destruct (unpack_u128 t2) as [h l]. cbn [fst snd] in Hok.
  rewrite i64_ok by lia. bind_step. rewrite i64_ok by lia. bind_step. rewrite i64_ok by lia. exact Hok.
Qed.

Lemma pack_ok d B : dint_ok B d ->
  pack_u128 (hi d) (lo d) = hi d * 2 ^ 64 + lo d /\ 0 <= pack_u128 (hi d) (lo d) < 2 ^ 128 /\
  (2 ^ 63 <= hi d -> 2 ^ 127 <= pack_u128 (hi d) (lo d)).
Proof. intros (Hh & Hl & _). unfold pack_u128. rewrite lor_disjoint by lia. lia. Qed.

Lemma shr_u128_ok x n : 0 <= n < 128 -> shr_u128 (E:=E) x n = Ok (x / 2 ^ n).
Proof.
  intros Hn. unfold shr_u128. rewrite (proj2 (Z.leb_le _ _)), (proj2 (Z.ltb_lt _ _)) by lia.
  by rewrite Z.shiftr_div_pow2 by lia.
Qed.

(** [a] comes after [b] in the order of [cmp_dint]. *)
Lemma cmp_dint_Gt a b A B : dint_ok A a -> dint_ok B b -> cmp_dint a b = Gt ->
  ex_ b < ex_ a \/ ex_ a = ex_ b /\ pack_u128 (hi b) (lo b) < pack_u128 (hi a) (lo a).
Proof.
  intros Ha Hb. destruct (pack_ok a A Ha) as (-> & _). destruct (pack_ok b B Hb) as (-> & _).
  destruct Ha as (_ & Hal & _). destruct Hb as (_ & Hbl & _). unfold cmp_dint.
  destruct (Z.compare_spec (ex_ a) (ex_ b)); [|done|by left; lia].
  destruct (Z.compare_spec (hi a) (hi b)); [|done|right; lia].
  destruct (Z.compare_spec (lo a) (lo b)); [done|done|right; lia].
Qed.

(** The aligned smaller significand is below the larger one. *)
Lemma align_smaller_ok A B a b :
  dint_ok A a -> dint_ok B b -> A + B <= 2 ^ 30 -> 2 ^ 63 <= hi a ->
  ex_ b < ex_ a \/ ex_ a = ex_ b /\ pack_u128 (hi b) (lo b) < pack_u128 (hi a) (lo a) ->
  returns (align_smaller (E:=E) a b) (fun x => 0 <= x < pack_u128 (hi a) (lo a)).
Proof.
  intros Ha Hb HAB Hah Hcmp. destruct (pack_ok a A Ha) as (_ & _ & Hatop). specialize (Hatop Hah).
  destruct (pack_ok b B Hb) as (_ & Hbr & _). destruct Ha as (_ & _ & _ & Hae & _). destruct Hb as (_ & _ & _ & Hbe & _).
  unfold align_smaller. destruct (Z.ltb_spec (ex_ b) (ex_ a)); [|simpl; lia].
  rewrite i64_ok by lia. bind_step. rewrite Z.mod_small by lia. set (sh := ex_ a - ex_ b) in *.
  assert (0 <= sh - 1 < 128 -> returns (E:=E)
    (s ← usub sh 1; x ← shr_u128 (pack_u128 (hi b) (lo b)) s;
     mret ((pack_u128 (hi b) (lo b) + Z.land x 1) mod 2 ^ 128)) (fun x => 0 <= x < 2 ^ 128)) as Hround.
  { intros Hs. unfold usub. rewrite (proj2 (Z.ltb_ge _ _)) by lia. bind_step. rewrite shr_u128_ok by lia. bind_step.
    apply Z.mod_pos_bound. lia. }
  eapply (wp_bind_returns _ _ (fun x => 0 <= x < 2 ^ 128)).
  { destruct (Z.leb_spec sh 128); [by apply Hround; lia|done]. }
  intros x Hx. destruct (Z.ltb_spec sh 128); [|simpl; lia]. rewrite shr_u128_ok by lia. simpl.
  split; [apply Z.div_pos; [lia|apply Z.pow_pos_nonneg; lia]|].
  apply Z.div_lt_upper_bound; [apply Z.pow_pos_nonneg; lia|].
  assert (2 ^ 1 <= 2 ^ sh) by (apply Z.pow_le_mono_r; lia). nia.
Qed.

Lemma combine_bits_ok subtract x y :
  2 ^ 127 <= x < 2 ^ 128 -> 0 <= y < x ->
  let '(c, carry) := combine_bits subtract x y in 0 < c < 2 ^ 128 /\ (carry = 0 \/ carry = 1).
Proof.
  intros Hx Hy. unfold combine_bits, sub_u128, add_u128. destruct subtract.
  - cbn [fst]. rewrite Z.mod_small by lia. lia.
  - destruct (Z.leb_spec (2 ^ 128) (x + y)); [|rewrite Z.mod_small by lia; lia]. split; [|by right].
    set (s := (x + y) mod 2 ^ 128). pose proof (Z.mod_pos_bound (s + Z.land s 1) (2 ^ 128) ltac:(lia)) as Hr.
    set (r := (s + Z.land s 1) mod 2 ^ 128) in *.
    assert (0 <= Z.shiftr r 1 < 2 ^ 127) as Hr1.
    { rewrite Z.shiftr_div_pow2 by lia. split; [apply Z.div_pos; lia|apply Z.div_lt_upper_bound; lia]. }
    rewrite lor_disjoint by lia. lia.
Qed.

(** Normalisation: the number of leading zeros of a 128-bit value *)
Lemma leading_zeros_128 c :
  0 < c < 2 ^ 128 ->
  (if negb (Z.shiftr c 64 =? 0) then leading_zeros (Z.shiftr c 64)
   else if negb (c mod 2 ^ 64 =? 0) then 64 + leading_zeros (c mod 2 ^ 64) else 0) = 127 - Z.log2 c /\
  (Z.shiftr c 64 =? 0) && (c mod 2 ^ 64 =? 0) = false.
Proof.
  intros Hc. rewrite Z.shiftr_div_pow2 by lia. pose proof (Z.div_mod c (2 ^ 64) ltac:(lia)) as Hdm.
  pose proof (Z.mod_pos_bound c (2 ^ 64) ltac:(lia)). unfold leading_zeros.
  destruct (Z.eqb_spec (c / 2 ^ 64) 0) as [H0|H0]; cbn [negb andb].
  - rewrite H0 in Hdm. destruct (Z.eqb_spec (c mod 2 ^ 64) 0) as [H1|H1]; [lia|]. cbn [negb].
    replace (c mod 2 ^ 64) with c by lia. split; [lia|done].
  - split; [|done]. rewrite <-Z.shiftr_div_pow2, Z.log2_shiftr by lia.
    assert (64 <= Z.log2 c); [|lia]. apply Z.log2_le_pow2; [lia|].
    assert (0 <= c / 2 ^ 64) by (apply Z.div_pos; lia). nia.
Qed.

Lemma add_larger_ok A B a b :
  dint_ok A a -> dint_ok B b -> A + B <= 2 ^ 30 -> 2 ^ 63 <= hi a -> cmp_dint a b = Gt ->
  returns (add_larger (E:=E) a b) (dint_ok (A + 128)).
Proof.
  intros Ha Hb HAB Hah Hcmp. pose proof (cmp_dint_Gt a b A B Ha Hb Hcmp) as Hgt.
  destruct (pack_ok a A Ha) as (_ & Har & Hatop). specialize (Hatop Hah).
  pose proof Ha as (_ & _ & _ & Hae & Has). pose proof Hb as (_ & _ & _ & Hbe & _). unfold add_larger.
  eapply wp_bind_returns; [by eapply (align_smaller_ok A B)|]. intros y Hy. cbv beta in Hy.
  pose proof (combine_bits_ok (negb (Z.lxor (sgn a) (sgn b) =? 0)) _ y (conj Hatop (proj2 Har)) Hy) as Hc.
  destruct (combine_bits _ _ y) as [c carry]. destruct Hc as [Hc Hcarry].
  rewrite i64_ok by lia. bind_step. unfold unpack_u128 at 1.
  destruct (leading_zeros_128 c Hc) as [Hlz Hnz].
  assert (0 <= Z.log2 c < 128) as Hlog by (split; [apply Z.log2_nonneg|apply Z.log2_lt_pow2; lia]).
  assert ((if negb (Z.shiftr c 64 =? 0) then leading_zeros (Z.shiftr c 64)
    else if negb (c mod 2 ^ 64 =? 0) then 64 + leading_zeros (c mod 2 ^ 64) else ex_ a) = 127 - Z.log2 c) as ->.
  { rewrite <-Hlz. destruct (Z.shiftr c 64 =? 0); [|done]. by destruct (c mod 2 ^ 64 =? 0). }
  set (shift := 127 - Z.log2 c). unfold shl_u128. rewrite (Z.mod_small shift) by lia.
  rewrite (proj2 (Z.leb_le 0 shift)), (proj2 (Z.ltb_lt shift 128)) by lia. cbn [andb]. bind_step.
  rewrite Z.shiftl_mul_pow2 by lia.
  assert (2 ^ 127 <= c * 2 ^ shift < 2 ^ 128) as Hn.
  { destruct (Z.log2_spec c ltac:(lia)) as [H1 H2]. rewrite Z.pow_succ_r in H2 by lia.
    assert (2 ^ Z.log2 c * 2 ^ shift = 2 ^ 127) by (rewrite <-Z.pow_add_r by lia; f_equal; lia).
    assert (0 < 2 ^ shift) by (apply Z.pow_pos_nonneg; lia). nia. }
  rewrite Z.mod_small by lia. rewrite (surjective_pairing (unpack_u128 _)). rewrite i64_ok by lia.
  apply unpack_ok; [by right|lia|done].
Qed.

Lemma cmp_dint_swap a b : cmp_dint a b = Lt -> cmp_dint b a = Gt.
Proof.
  unfold cmp_dint. rewrite (Z.compare_antisym (ex_ b)), (Z.compare_antisym (hi b)), (Z.compare_antisym (lo b)).
  destruct (ex_ b ?= ex_ a); [|done..]. destruct (hi b ?= hi a); [|done..]. by destruct (lo b ?= lo a).
Qed.

Lemma not_zero_top B d : dint_ok B d -> (Z.lor (hi d) (lo d) =? 0) = false -> 2 ^ 63 <= hi d.
Proof.
  intros (_ & _ & [[Hh Hl]|Hd] & _) Hz; [|done]. rewrite Hh, Hl in Hz. done.
Qed.

Lemma add_dint_ok M a b :
  dint_ok M a -> dint_ok M b -> 0 <= M <= 2 ^ 28 -> returns (add_dint (E:=E) a b) (dint_ok (M + 128)).
Proof.
  intros Ha Hb HM. unfold add_dint. cbn [add_dint_rec].
  destruct (Z.lor (hi a) (lo a) =? 0) eqn:Haz; [by apply (dint_ok_mono M); [lia|]|].
  destruct (Z.lor (hi b) (lo b) =? 0) eqn:Hbz; [by apply (dint_ok_mono M); [lia|]|].
  destruct (cmp_dint a b) eqn:Hcmp.
  - destruct (negb _); [repeat split; simpl; lia|]. destruct Ha as (H1 & H2 & H3 & H4 & H5). rewrite i64_ok by lia.
    repeat split; simpl; lia || done.
  - rewrite (cmp_dint_swap a b Hcmp). apply (add_larger_ok M M); [done|done|lia|by eapply not_zero_top|].
    by apply cmp_dint_swap.
  - apply (add_larger_ok M M); [done|done|lia|by eapply not_zero_top|done].
Qed.

(** Tables of significands, checked by evaluation *)
Definition dint_okb (B : Z) (d : DInt64) : bool :=
  (0 <=? hi d) && (hi d <? 2 ^ 64) && (0 <=? lo d) && (lo d <? 2 ^ 64) &&
  ((hi d =? 0) && (lo d =? 0) || (2 ^ 63 <=? hi d)) && (Z.abs (ex_ d) <=? B) && ((sgn d =? 0) || (sgn d =? 1)).

Lemma dint_okb_true B d : dint_okb B d = true -> dint_ok B d.
Proof. unfold dint_okb, dint_ok. lia. Qed.

Lemma idx_dint_ok B l (i : nat) :
  forallb (dint_okb B) l = true -> (i < length l)%nat -> returns (idx (E:=E) l i) (dint_ok B).
Proof.
  intros Hl Hi. apply lookup_lt_is_Some in Hi as [x Hx]. apply returns_Ok. exists x.
  unfold idx. rewrite Hx. split; [done|]. apply dint_okb_true, (proj1 (forallb_forall _ _) Hl).
  apply list_elem_of_In. by eapply list_elem_of_lookup_2.
Qed.

Lemma mul_LOG2_ok b : -60 <= b <= 60 -> returns (mul_dint_i64 (E:=E) b LOG2) (dint_ok 200).
Proof.
  intros Hb.
  assert (forallb (fun n => match mul_dint_i64 (E:=E) (Z.of_nat n - 60) LOG2 with
    | Ok d => dint_okb 200 d | _ => false end) (seq 0 121) = true) as Hall by (by vm_compute).
  pose proof (proj1 (forallb_forall _ _) Hall (Z.to_nat (b + 60))) as Hn. cbv beta in Hn.
  replace (Z.of_nat (Z.to_nat (b + 60)) - 60) with b in Hn by lia.
  specialize (Hn ltac:(apply in_seq; lia)).
  destruct (mul_dint_i64 b LOG2) as [d|e|]; [|done|done]. by apply dint_okb_true.
Qed.

Lemma p_2_loop_ok z l : forall out B,
  dint_ok 300 z -> Forall (dint_ok 20) l -> dint_ok B out -> 20 <= B -> B + 500 * Z.of_nat (length l) <= 2 ^ 20 ->
  returns (foldM (fun out coeff => out ← mul_dint (E:=E) z out; add_dint coeff out) out l)
    (dint_ok (B + 500 * Z.of_nat (length l))).
Proof.
  induction l as [|c l IH]; intros out B Hz Hl Hout HB Hlen; cbn [foldM length] in *.
  { by apply (dint_ok_mono B); [lia|]. }
  apply list.Forall_cons in Hl as [Hc Hl]. apply (wp_bind_returns _ _ (dint_ok (B + 500))).
  - eapply wp_bind_returns; [by apply (mul_dint_ok 300 B); [..|lia]|]. intros t Ht.
    eapply returns_mono; [apply (add_dint_ok (B + 301))|intros d; apply dint_ok_mono; lia].
    + by apply (dint_ok_mono 20); [lia|].
    + by apply (dint_ok_mono (300 + B + 1)); [lia|].
    + lia.
  - intros out' Hout'. eapply returns_mono; [apply (IH out' (B + 500)); [done|done|done|lia|lia]|].
    intros d. apply dint_ok_mono. lia.
Qed.

Lemma p_2_ok z : dint_ok 300 z -> returns (p_2 (E:=E) z) (dint_ok 10000).
Proof.
  intros Hz. unfold p_2. assert (forallb (dint_okb 20) P_2 = true) as HP by (by vm_compute).
  eapply wp_bind_returns; [by apply (idx_dint_ok 20 P_2); [|simpl; lia]|]. intros out Hout.
  eapply wp_bind_returns.
  { apply (p_2_loop_ok z _ out 20); [done| |done|lia|simpl; lia].
    apply list.Forall_drop, list.Forall_forall. intros d Hd.
    apply dint_okb_true, (proj1 (forallb_forall _ _) HP). by apply list_elem_of_In. }
  intros p Hp. eapply returns_mono; [apply (mul_dint_ok 300 (20 + 500 * 12)); [done|exact Hp|lia]|].
  intros d. apply dint_ok_mono. lia.
Qed.

Lemma log_2_ok h e :
  2 ^ 63 <= h < 2 ^ 64 -> -53 <= e <= 0 -> returns (log_2 (E:=E) (MkD h 0 e 0)) (dint_ok 20000).
Proof.
  intros Hh He. unfold log_2. cbn [hi lo ex_ sgn].
  set (big := 0xb504f333f9de6484 <? h).
  assert ((if big then exp ← i64 (E:=E) (e + 1); mret (exp, Z.shiftr (Z.shiftr h 55) 1)
    else mret (e, Z.shiftr h 55)) = Ok (e + (if big then 1 else 0), Z.shiftr h (if big then 56 else 55))) as ->.
  { destruct big; [rewrite i64_ok by lia; bind_step; by rewrite Z.shiftr_shiftr by lia|by rewrite Z.add_0_r]. }
  bind_step. set (exp := e + _). set (i := Z.shiftr h _).
  assert (128 <= i < 368) as Hi.
  { unfold i, big. rewrite Z.shiftr_div_pow2 by (destruct (_ <? _); lia).
    destruct (Z.ltb_spec 0xb504f333f9de6484 h).
    - split; [apply Z.div_le_lower_bound; lia|apply Z.div_lt_upper_bound; lia].
    - split; [apply Z.div_le_lower_bound; lia|apply Z.div_lt_upper_bound; lia]. }
  assert (exp - 1 <= e <= exp /\ -60 <= exp <= 60) as [Hexp1 Hexp2] by (unfold exp; destruct big; lia).
  rewrite i64_ok by lia. bind_step. unfold usub. rewrite (proj2 (Z.ltb_ge _ _)) by lia. bind_step.
  assert (Z.to_nat (i - 128) < 240)%nat as Hidx by lia.
  eapply wp_bind_returns; [by apply (idx_dint_ok 2 INVERSE_2); [by vm_compute|]|]. intros inverse Hinv.
  eapply wp_bind_returns; [apply (mul_dint_ok 1 2); [|done|lia]|intros z Hz].
  { unfold dint_ok. simpl. lia. }
  eapply wp_bind_returns; [apply (add_dint_ok 4); [done|by apply dint_okb_true|lia]|]. intros z' Hz'.
  eapply wp_bind_returns; [by apply mul_LOG2_ok|]. intros out Hout.
  eapply wp_bind_returns; [by apply p_2_ok, (dint_ok_mono (4 + 128))|]. intros p Hp.
  eapply wp_bind_returns; [by apply (idx_dint_ok 127 LOG_INV_2); [by vm_compute|]|]. intros log_inv Hlog.
  eapply wp_bind_returns; [apply (add_dint_ok 10000); [by apply (dint_ok_mono 127)|done|lia]|]. intros p' Hp'.
  eapply returns_mono; [apply (add_dint_ok 10128); [done|by apply (dint_ok_mono 200)|lia]|].
  intros d. by apply dint_ok_mono.
Qed.

(** ** The result *)

(** A number of at least 54 bits does not round to zero. *)
Lemma round_nonzero s m e s' :
  2 ^ 53 <= m -> -1000 <= e -> binary_round_aux 53 1024 s m e loc_Exact <> S754_zero s'.
Proof.
  intros Hm He. unfold binary_round_aux.
  assert (exists d, 54 <= d /\ Zdigits2 m = d /\ 2 ^ (d - 1) <= m < 2 ^ d) as (d & Hd & Hdm & Hr).
  { destruct m as [|p|p]; try lia. pose proof (digits_range p) as Hr. exists (Zdigits2 (Zpos p)).
    split; [|done]. destruct (Z.lt_ge_cases (Zdigits2 (Zpos p)) 54); [|done].
    assert (2 ^ Zdigits2 (Zpos p) <= 2 ^ 53) by (apply Z.pow_le_mono_r; lia). lia. }
  assert (exists r, shr_fexp 53 1024 m e loc_Exact = (r, e + (d - 53)) /\ 2 ^ 52 <= shr_m r < 2 ^ 53) as (r & -> & Hrm).
  { unfold shr_fexp, shr. rewrite Hdm. unfold fexp, emin.
    replace (Z.max (d + e - 53) (3 - 1024 - 53) - e) with (d - 53) by lia.
    destruct (d - 53) as [|n|n] eqn:Hn; [lia| |lia]. eexists. split; [done|].
    rewrite iter_shr_div by (simpl; lia). rewrite <-Hn. cbn [shr_record_of_loc shr_m].
    split; [apply Z.div_le_lower_bound|apply Z.div_lt_upper_bound]; try (apply Z.pow_pos_nonneg; lia).
    - rewrite <-Z.pow_add_r by lia. replace (d - 53 + 52) with (d - 1) by lia. lia.
    - rewrite <-Z.pow_add_r by lia. replace (d - 53 + 53) with d by lia. lia. }
  set (m2 := round_nearest_even _ _).
  assert (2 ^ 52 <= m2 <= 2 ^ 53) as Hm2.
  { unfold m2, round_nearest_even. destruct (loc_of_shr_record r) as [|[]]; try lia. destruct (Z.even _); lia. }
  assert (0 < shr_m (fst (shr_fexp 53 1024 m2 (e + (d - 53)) loc_Exact))) as Hpos.
  { unfold shr_fexp, shr. unfold fexp, emin.
    assert (Zdigits2 m2 <= 54) by (apply Zdigits2_bound; lia).
    destruct (Z.max _ _ - _) as [|n|n] eqn:Hn; cbn [fst shr_record_of_loc shr_m]; [lia| |lia].
    rewrite iter_shr_div by (simpl; lia). cbn [shr_m]. assert (Zpos n <= 1) by lia.
    assert (n = 1%positive) as -> by lia. apply Z.lt_le_trans with (2 ^ 51); [lia|]. apply Z.div_le_lower_bound; lia. }
  destruct (shr_fexp 53 1024 m2 _ loc_Exact) as [r2 e2]. cbn [fst] in Hpos.
  destruct (shr_m r2) as [|p|p]; [lia| |lia]. by destruct (_ <=? _).
Qed.

(** The sum of a normal float at exponent -52 and a small one of the same sign *)
Lemma add_same_sign s p q e :
  2 ^ 52 <= Zpos p < 2 ^ 53 -> -200 <= e <= -53 -> Zpos q < 2 ^ (1 - e) ->
  exists m k, f64_add (S754_finite s p (-52)) (S754_finite s q e) = S754_finite s m k.
Proof.
  intros Hp He Hq.
  assert (below 4 (f64_add (S754_finite s p (-52)) (S754_finite s q e))) as Hb.
  { apply (f64_below_mono 3); [done|]. apply (add_below 1); [done|simpl; lia|done]. }
  revert Hb. unfold f64_add. cbn [SFadd]. rewrite Z.min_r, !shl_align_value by lia. rewrite Z.sub_diag, Z.mul_1_r.
  assert (2 ^ 1 <= 2 ^ (-52 - e)) by (apply Z.pow_le_mono_r; lia).
  set (sum := Zpos p * 2 ^ (-52 - e) + Zpos q). assert (2 ^ 53 <= sum) as Hsum by (unfold sum; nia).
  replace (cond_Zopp s _ + cond_Zopp s _) with (cond_Zopp s sum) by (unfold sum; destruct s; simpl; lia).
  destruct sum as [|m|m]; try lia.
  assert (binary_normalize 53 1024 (cond_Zopp s (Zpos m)) e false = binary_round 53 1024 s m e) as -> by (by destruct s).
  unfold binary_round.
  assert (shl_align m e (fexp 53 1024 (Zpos (digits2_pos m) + e)) = (m, e)) as ->.
  { unfold shl_align. pose proof (digits_range m) as Hd. simpl Zdigits2 in Hd.
    assert (53 < Zpos (digits2_pos m)).
    { destruct (Z.lt_ge_cases 53 (Zpos (digits2_pos m))); [done|].
      assert (2 ^ Zpos (digits2_pos m) <= 2 ^ 53) by (apply Z.pow_le_mono_r; lia). lia. }
    assert (0 <= fexp 53 1024 (Zpos (digits2_pos m) + e) - e) as Hx by (unfold fexp, emin; lia).
    by destruct (fexp 53 1024 (Zpos (digits2_pos m) + e) - e). }
  pose proof (round_nonzero s (Zpos m) e) as Hnz. unfold binary_round_aux in *.
  destruct (shr_fexp 53 1024 (Zpos m) e loc_Exact) as [r e'].
  destruct (shr_fexp 53 1024 _ e' loc_Exact) as [r' e'']. destruct (shr_m r') as [|m'|m']; [|intros Hb|done].
  - by specialize (Hnz s Hsum ltac:(lia)).
  - destruct (e'' <=? _); [by eexists _, _|done].
Qed.

(** A power of two given by its exponent bits is not NaN. *)
Lemma from_bits_power x : is_nan (from_bits (Z.shiftl x 52)) = false.
Proof.
  unfold from_bits. rewrite land_ones_mod, Z.shiftl_mul_pow2, Z.mod_mul by lia.
  destruct (_ =? 0x7ff); [done|]. by destruct (_ =? 0).
Qed.

Lemma mul_finite_number s m e x : is_nan x = false -> is_nan (f64_mul (S754_finite s m e) x) = false.
Proof. intros Hx. unfold f64_mul. destruct x; try done. by apply binary_round_aux_number. Qed.

(** The significand of the result, with its sign *)
Lemma result_significand h s :
  0 <= h < 2 ^ 64 -> s = 0 \/ s = 1 ->
  exists p, from_bits (Z.lor (Z.lor (Z.shiftr h 11) (Z.shiftl 0x3ff 52)) (Z.shiftl s 63)) =
    S754_finite (negb (s =? 0)) p (-52) /\ 2 ^ 52 <= Zpos p < 2 ^ 53.
Proof.
  intros Hh Hs. set (x := Z.lor _ _). unfold from_bits.
  assert (Z.testbit x 63 = negb (s =? 0)) as ->.
  { unfold x. rewrite !Z.lor_spec, Z.shiftr_spec by lia.
    rewrite <-(Z.mod_small h (2 ^ 64)) by lia. rewrite Z.mod_pow2_bits_high by lia.
    by destruct Hs as [-> | ->]. }
  assert (Z.land (Z.shiftr x 52) 0x7ff = 0x3ff) as ->.
  { unfold x. rewrite !Z.shiftr_lor, Z.shiftr_shiftr, Z.land_lor_distr_l by lia.
    assert (Z.shiftr h (11 + 52) = 0 \/ Z.shiftr h (11 + 52) = 1) as Htop.
    { rewrite Z.shiftr_div_pow2 by lia. assert (0 <= h / 2 ^ (11 + 52) < 2); [|lia].
      split; [apply Z.div_pos; lia|apply Z.div_lt_upper_bound; lia]. }
    by destruct Hs as [-> | ->], Htop as [-> | ->]. }
  rewrite land_ones_mod by lia. pose proof (Z.mod_pos_bound x (2 ^ 52) ltac:(lia)) as Hm. cbn [Z.eqb Pos.eqb].
  destruct (2 ^ 52 + x mod 2 ^ 52) as [|p|p] eqn:Hp; try lia. exists p. split; [done|lia].
Qed.

Lemma dint_to_f64_number d : dint_ok 20000 d -> returns (dint_to_f64 (E:=E) d) (fun x => is_nan x = false).
Proof.
  intros (Hh & _ & _ & He & Hs). unfold dint_to_f64.
  destruct (result_significand (hi d) (sgn d) Hh Hs) as (p & -> & Hp).
  rewrite i64_ok by lia. bind_step. unfold returns. cbn [wp].
  set (rd := if negb (Z.land (hi d) 0x3ff =? 0) || _ then _ else _).
  enough (exists m k, f64_add (S754_finite (negb (sgn d =? 0)) p (-52)) (if sgn d =? 0 then rd else f64_neg rd) =
    S754_finite (negb (sgn d =? 0)) m k) as (m & k & ->) by apply mul_finite_number, from_bits_power.
  assert (rd = f64_zero \/ exists q e, rd = S754_finite false q e /\ -200 <= e <= -53 /\ Zpos q < 2 ^ (1 - e)) as Hrd.
  { unfold rd. destruct (negb (Z.land (Z.shiftr (hi d) 10) 1 =? 0)), (negb _ || negb _); [right..|by left].
    all: eexists _, _; split; [by vm_compute|by vm_compute]. }
  destruct Hrd as [->|(q & e & -> & He' & Hq)]; [destruct (sgn d =? 0); by eexists _, _|].
  destruct (sgn d =? 0); by apply add_same_sign.
Qed.

Lemma cr_log_accurate_number x :
  normal x (-105) (-52) -> returns (cr_log_accurate (E:=E) x) (fun y => is_nan y = false).
Proof.
  intros (m & e & -> & Hm & He). unfold cr_log_accurate.
  destruct (_ =? to_bits one); [done|]. destruct (to_bits_normal m e Hm He) as (Hexp & Hman & Hbits).
  assert (dint_from_f64 (E:=E) (S754_finite false m e) = Ok (MkD (Zpos m * 2 ^ 11) 0 (e + 52) 0)) as ->.
  { unfold dint_from_f64, fast_extract, is_sign_negative. rewrite Hexp. change (Z.shiftl 1 52 - 1) with (2 ^ 52 - 1).
    rewrite Hman. change 0x7ff with (2 ^ 11 - 1). rewrite land_ones_mod, (Z.mod_small (e + 1075)) by lia.
    rewrite (proj2 (Z.eqb_neq (e + 1075) 0)) by lia. cbn [negb]. change (Z.shiftl 1 52) with (2 ^ 52).
    replace (Zpos m - 2 ^ 52 + 2 ^ 52) with (Zpos m) by lia.
    assert (Z.log2 (Zpos m) = 52) as Hlog by (apply Z.log2_unique; lia).
    unfold leading_zeros. rewrite Hlog. cbn [Z.eqb Z.sub Z.add Z.opp Z.pos_sub Z.ltb Z.compare Pos.compare Pos.compare_cont].
    assert (Z.testbit (to_bits (S754_finite false m e)) 63 = false) as ->.
    { rewrite <-(Z.mod_small (to_bits _) (2 ^ 63)) by lia. by apply Z.mod_pow2_bits_high. }
    change (63 - 52) with 11. simpl. rewrite Z.shiftl_mul_pow2, Z.mod_small by lia. do 2 f_equal. lia. }
  bind_step. eapply wp_bind_returns; [apply log_2_ok; lia|]. intros d Hd. by apply dint_to_f64_number.
Qed.

Lemma cr_log_restricted_number x :
  normal x (-105) (-52) -> returns (cr_log_restricted (E:=E) x) (fun y => is_nan y = false).
Proof.
  intros Hx. pose proof Hx as (m & e & -> & Hm & He). unfold cr_log_restricted.
  destruct (to_bits_normal m e Hm He) as (Hexp & Hman & Hbits).
  change 0xfffffffffffff with (2 ^ 52 - 1). rewrite Hexp, Hman.
  change 0x7ff with (2 ^ 11 - 1). rewrite land_ones_mod, (Z.mod_small (e + 1075)) by lia.
  destruct (_ && _); [done|].
  eapply wp_bind_returns; [apply cr_log_fast_below; lia|]. intros [h l] [Hh Hl].
  destruct (_ =? _); [|by apply cr_log_accurate_number].
  assert (below 69 (f64_add h (f64_sub l FAST_ERR))) as Hleft.
  { apply (add_below 67); [done|by apply (f64_below_mono 18)|]. apply (sub_below 65); [done|done|by apply belowb_true]. }
  simpl. by destruct (f64_add h (f64_sub l FAST_ERR)).
Qed.

(** The logarithm returns a number on its whole domain. *)
Lemma log_number n : 1 <= n <= 2 ^ 53 -> returns (deterministic_log_u53 (E:=E) n) (fun y => is_nan y = false).
Proof.
  intros Hn. unfold deterministic_log_u53. eapply wp_bind_returns; [by apply to_f64_exact|].
  intros x (m & e & Hx & Hm & He & _). apply cr_log_restricted_number. by exists m, e.
Qed.

(** C8: The logarithm of the score is total.  For every numerator [n] from 1 to
    2^53 the input is exactly [n / 2^53], every table index and shift is in range,
    no integer operation overflows, and the result is a number. *)
Theorem deterministic_log_total n :
  1 <= n <= 2 ^ 53 ->
  (exists m e, to_f64 (E:=E) n = Ok (S754_finite false m e) /\ Zpos m * 2 ^ (e + 105) = n * 2 ^ 52) /\
  (exists y, deterministic_log_u53 (E:=E) n = Ok y /\ is_nan y = false).
Proof.
  intros Hn. split; [|by apply returns_Ok, log_number].
  destruct (proj1 (returns_Ok _ _) (to_f64_exact n Hn)) as (x & Hx & m & e & -> & _ & _ & Hv). by exists m, e.
Qed.
End log.

Lemma deterministic_log_total_witness :
  (exists m e, to_f64 (E:=Empty_set) 1 = Ok (S754_finite false m e) /\ Zpos m * 2 ^ (e + 105) = 1 * 2 ^ 52) /\
  (exists y, deterministic_log_u53 (E:=Empty_set) 1 = Ok y /\ is_nan y = false).
Proof. apply (deterministic_log_total 1). lia. Defined.

(** The reference values of crates/placement/testdata/log_u53_reference.tsv: the
    numerator, the bits of the input and the bits of its logarithm *)
Definition reference_corpus : list (Z * Z * Z) := [
  (1, 0x3ca0000000000000, 0xc0425e4f7b2737fa);
  (2, 0x3cb0000000000000, 0xc04205966f2b4f12);
  (3, 0x3cb8000000000000, 0xc041d1b02751cfe2);
  (4, 0x3cc0000000000000, 0xc041acdd632f662b);
  (5, 0x3cc4000000000000, 0xc041904d6b67cb90);
  (7, 0x3ccc000000000000, 0xc041653be5b5a527);
  (8, 0x3cd0000000000000, 0xc041542457337d43);
  (15, 0x3cde000000000000, 0xc04103ae17926378);
  (16, 0x3ce0000000000000, 0xc040fb6b4b37945b);
  (17, 0x3ce1000000000000, 0xc040f3a8bf079002);
  (67108863, 0x3e3ffffff8000000, 0xc032b708876320e2);
  (67108864, 0x3e40000000000000, 0xc032b708872320e2);
  (67108865, 0x3e40000004000000, 0xc032b70886e320e2);
  (4503599627370495, 0x3fdffffffffffffe, 0xbfe62e42fefa39f1);
  (4503599627370496, 0x3fe0000000000000, 0xbfe62e42fefa39ef);
  (4503599627370497, 0x3fe0000000000001, 0xbfe62e42fefa39ed);
  (9007199254740989, 0x3feffffffffffffd, 0xbcb8000000000001);
  (9007199254740990, 0x3feffffffffffffe, 0xbcb0000000000001);
  (9007199254740991, 0x3fefffffffffffff, 0xbca0000000000000);
  (9007199254740992, 0x3ff0000000000000, 0x0000000000000000);
  (8031363715860096, 0x3fec887b95588680, 0xbfbd5b0091240dc1);
  (3469980719646670, 0x3fd8a7dbb0580f9c, 0xbfee862526ccda7c);
  (8018604117806253, 0x3fec7ce0c2094cad, 0xbfbdc33414f1e33a);
  (364648824738902, 0x3fa4ba56baa94560, 0xc009a79e2ffab1ea);
  (8696133065399867, 0x3feee51642485e3b, 0xbfa1fe9ec7188427);
  (4376848748439139, 0x3fdf197105c5ccc6, 0xbfe7182079ca92f9);
  (8270717181870969, 0x3fed622c67a9c379, 0xbfb5d669fe6f81a2);
  (7474650915735098, 0x3fea8e27c8a7063a, 0xbfc7df74128122d8);
  (8717165710927626, 0x3feef8374da5e70a, 0xbfa0c1fd534f92da);
  (3225019975090693, 0x3fd6ea46f404840a, 0xbff06ef0b691dbbe)].

Definition result_bits (m : outcome Empty_set f64) : outcome Empty_set Z := x ← m; mret (to_bits x).

(** Both paths agree with the reference values. *)
Example log_matches_reference_corpus :
  Forall (fun '(n, input, log) =>
    result_bits (to_f64 n) = Ok input /\ result_bits (deterministic_log_u53 n) = Ok log /\
    result_bits (x ← to_f64 n; cr_log_accurate x) = Ok log) reference_corpus.
Proof. repeat constructor; by vm_compute. Qed.
End LogProps.
