(* ===== verification/Placer.v ===== *)
(** The placement engine: [crates/placement/src/placer.rs] and the score of
    [hash.rs].  [place] scans the nodes in id order and keeps the best
    candidates in a fixed buffer with a group-count list beside it.  The buffers
    are arrays with bounds checks; the scan is shown to refine the abstract
    steps of [step_rel] on a plain list of candidates, and the theorems are
    proved of those steps: distinct active nodes, capacities respected, success
    exactly when a placement exists, and the chosen scores dominate those of
    every other placement. *)

From Stdlib Require Import SpecFloat.
From coqutil Require Import Word.LittleEndianList.
From S2P Require Import Prelude F64 Topology Cluster Log LogProps.
Import F64 Sort Topology Cluster.

Module Placer.

(** ** [hash.rs] *)

Section placer.

(** [rapidhash_v3_micro_inline] with the fixed secrets; its result is a [u64]. *)
Context (rapidhash : list byte -> Z).

Definition hash_bytes (data : list byte) : Z := rapidhash data mod 2 ^ 64.

Definition STACK_KEY_LIMIT : nat := 512 + 4.

(** The key and the little-endian node id, assembled in a zeroed stack buffer
    when they fit and in a vector otherwise *)
Definition hash_key_node {E} (key : list byte) (node_id : Z) : outcome E Z :=
  let node_id_bytes := le_split 4 node_id in
  let total_len := length key + length node_id_bytes in
  if decide (total_len <= STACK_KEY_LIMIT) then
    let data := replicate STACK_KEY_LIMIT Byte.x00 in
    let data := key ++ drop (length key) data in
    let data := take (length key) data ++ node_id_bytes ++ drop total_len data in
    data ← slice data 0 total_len;
    mret (hash_bytes data)
  else
    mret (hash_bytes (key ++ node_id_bytes)).

(** A call that has no error of its own *)
Definition infallible {E A} (m : outcome Empty_set A) : outcome E A :=
  map_err (fun e : Empty_set => match e with end) m.

Definition score {E} (key : list byte) (node_id : Z) (weight : f64) : outcome E f64 :=
  h ← hash_key_node key node_id;
  let u := Log.from_hash h in
  l ← infallible (Log.deterministic_log_u53 u);
  mret (f64_div (f64_neg l) weight).

(** ** The buffers *)

Record Candidate := { cscore : f64; node_id : Z; cgroup : Z }.

Definition EMPTY_CAND : Candidate := {| cscore := INFINITY; node_id := 0; cgroup := 0 |}.

Record Placer := {
  config : PlacementConfig;
  nodes : list (NodeInfo * Z);
  padmit : nat -> NodeInfo -> Admission
}.

Definition Placer_new (config : PlacementConfig) (map : ClusterMap)
    (constraint : PlacementConstraint) : outcome PlacementError Placer :=
  config ← PlacementConfig_validate config;
  let active := active_node_count map in
  let total := total_shards config in
  _ ← guard_err (bool_decide (active < total)) (TooFewNodes total active);
  let nodes := (fun n => (n, group_key constraint n)) <$> map in
  mret {| config := config; nodes := nodes; padmit := admission constraint |}.

(** Group counts, [(u64, u8)] pairs *)
Fixpoint find_group (entries : list (Z * Z)) (gk : Z) : option (nat * Z) :=
  match entries with
  | [] => None
  | (key, count) :: entries =>
      if decide (key = gk) then Some (0, count)
      else prod_map S (fun c => c) <$> find_group entries gk
  end.

Definition gc_get (gc : list (Z * Z)) (gc_len : nat) (gk : Z) : Z :=
  match find_group (take gc_len gc) gk with
  | Some (_, count) => count
  | None => 0
  end.

(** [*count += 1] panics past [u8::MAX]. *)
Definition gc_inc {E} (gc : list (Z * Z)) (gc_len : nat) (gk : Z) :
    outcome E (list (Z * Z) * nat) :=
  match find_group (take gc_len gc) gk with
  | Some (i, count) =>
      if decide (count + 1 <= 255)%Z
      then gc ← upd gc i (gk, count + 1)%Z; mret (gc, gc_len)
      else Panic
  | None => gc ← upd gc gc_len (gk, 1%Z); mret (gc, gc_len + 1)
  end.

Definition gc_dec {E} (gc : list (Z * Z)) (gc_len : nat) (gk : Z) :
    outcome E (list (Z * Z) * nat) :=
  match find_group (take gc_len gc) gk with
  | Some (i, count) =>
      if decide (count <= 1)%Z then
        gc ← for_range i (gc_len - 1) gc (fun gc j => x ← idx gc (j + 1); upd gc j x);
        mret (gc, gc_len - 1)
      else gc ← upd gc i (gk, count - 1)%Z; mret (gc, gc_len)
  | None => mret (gc, gc_len)
  end.

Definition find_worst {E} (cands : list Candidate) (cand_len : nat) : outcome E nat :=
  c0 ← idx cands 0;
  mret (fst (foldl (fun '(worst_idx, worst_score) '(i, cand) =>
    if f64_gt (cscore cand) worst_score then (i, cscore cand) else (worst_idx, worst_score))
    (0, cscore c0) (drop 1 (take cand_len (enumerate cands))))).

Definition find_worst_in_group (cands : list Candidate) (cand_len : nat) (gk : Z) : option nat :=
  fst (foldl (fun '(worst_idx, worst_score) '(i, cand) =>
    if bool_decide (cgroup cand = gk) && f64_gt (cscore cand) worst_score
    then (Some i, cscore cand) else (worst_idx, worst_score))
    (None, NEG_INFINITY) (take cand_len (enumerate cands))).

(** The mutable state of [place] *)
Record Buffers := {
  cands : list Candidate;
  cand_len : nat;
  gc : list (Z * Z);
  gc_len : nat
}.

Definition with_cands (st : Buffers) (cands : list Candidate) : Buffers :=
  {| cands := cands; cand_len := cand_len st; gc := gc st; gc_len := gc_len st |}.

(** One turn of the scan *)
Definition place_step {E} (self : Placer) (key : list byte) (st : Buffers)
    (entry : NodeInfo * Z) : outcome E Buffers :=
  let total := total_shards (config self) in
  let '(node, gk) := entry in
  if f64_eq (weight node) f64_zero then mret st
  else
    s ← score key (id node) (weight node);
    let same_group := Z.to_nat (gc_get (gc st) (gc_len st) gk) in
    let cand := {| cscore := s; node_id := id node; cgroup := gk |} in
    match padmit self same_group node with
    | Excluded => mret st
    | Global =>
        if decide (cand_len st < total) then
          cands ← upd (cands st) (cand_len st) cand;
          '(gc, gc_len) ← gc_inc (gc st) (gc_len st) gk;
          mret {| cands := cands; cand_len := cand_len st + 1; gc := gc; gc_len := gc_len |}
        else
          wi ← find_worst (cands st) (cand_len st);
          worst ← idx (cands st) wi;
          if f64_lt s (cscore worst) then
            '(gc, gc_len) ← gc_dec (gc st) (gc_len st) (cgroup worst);
            cands ← upd (cands st) wi cand;
            '(gc, gc_len) ← gc_inc gc gc_len gk;
            mret {| cands := cands; cand_len := cand_len st; gc := gc; gc_len := gc_len |}
          else mret st
    | Constrained =>
        match find_worst_in_group (cands st) (cand_len st) gk with
        | Some wi =>
            worst ← idx (cands st) wi;
            if f64_lt s (cscore worst) then
              cands ← upd (cands st) wi cand;
              mret (with_cands st cands)
            else mret st
        | None => mret st
        end
    end.

Definition place (self : Placer) (key : list byte) (out : list Z) :
    outcome PlacementError (list Z) :=
  let total := total_shards (config self) in
  _ ← guard_err (bool_decide (length out ≠ total)) (OutputLengthMismatch (length out) total);
  st ← foldM (place_step self key)
         {| cands := replicate MAX_SHARDS EMPTY_CAND; cand_len := 0;
            gc := replicate MAX_SHARDS (0, 0)%Z; gc_len := 0 |} (nodes self);
  _ ← guard_err (bool_decide (cand_len st < total)) (ConstraintUnsatisfiable total (cand_len st));
  mret (zip_with (fun _ cand => node_id cand) out (take total (cands st))).

End placer.

#[global] Instance candidate_eq_dec : EqDecision Candidate.
Proof. solve_decision. Defined.

(** ** The score *)

Lemma hash_key_node_eq {E} hash key i :
  hash_key_node (E:=E) hash key i = Ok (hash_bytes hash (key ++ le_split 4 i)).
Proof.
  unfold hash_key_node. rewrite length_le_split. case_decide as Hl; [|done].
  unfold STACK_KEY_LIMIT in Hl.
  rewrite slice_Ok; rewrite ?length_app, ?length_take, ?length_app, ?length_drop, ?length_app,
    ?length_le_split, ?length_drop, ?length_replicate; unfold STACK_KEY_LIMIT; try lia.
  bind_step. do 2 f_equal. rewrite drop_0, Nat.sub_0_r, take_app_length, app_assoc.
  apply take_app_length'. by rewrite length_app, length_le_split.
Qed.

(** The value of the logarithm *)
Definition log_u53 (u : Z) : f64 :=
  match Log.deterministic_log_u53 (E:=Empty_set) u with Ok l => l | _ => S754_nan end.

Definition score_of (hash : list byte -> Z) (key : list byte) (node : NodeInfo) : f64 :=
  f64_div (f64_neg (log_u53 (Log.from_hash (hash_bytes hash (key ++ le_split 4 (id node)))))) (weight node).

Lemma hash_bytes_range hash data : (0 <= hash_bytes hash data < 2 ^ 64)%Z.
Proof. apply Z.mod_pos_bound. lia. Qed.

Lemma log_u53_eq u : (1 <= u <= 2 ^ 53)%Z ->
  Log.deterministic_log_u53 (E:=Empty_set) u = Ok (log_u53 u) /\ is_nan (log_u53 u) = false.
Proof.
  intros Hu. destruct (proj1 (returns_Ok _ _) (LogProps.log_number (E:=Empty_set) u Hu)) as (l & Hl & Hn).
  unfold log_u53. by rewrite Hl.
Qed.

Lemma score_eq {E} hash key node :
  score (E:=E) hash key (id node) (weight node) = Ok (score_of hash key node).
Proof.
  unfold score. rewrite hash_key_node_eq. bind_step.
  by rewrite (proj1 (log_u53_eq _ (LogProps.from_hash_range _ (hash_bytes_range hash _)))).
Qed.

(** ** Group counts *)

Definition group_count (cs : list Candidate) (gk : Z) : nat :=
  length (filter (fun c => cgroup c = gk) cs).

Record gc_ok (gc : list (Z * Z)) (gc_len : nat) (cs : list Candidate) : Prop := {
  gc_length : length gc = MAX_SHARDS;
  gc_bound : gc_len <= MAX_SHARDS;
  gc_keys : NoDup (fst <$> take gc_len gc);
  gc_counts : forall k c, (k, c) ∈ take gc_len gc -> c = Z.of_nat (group_count cs k) /\
    0 < group_count cs k;
  gc_complete : forall k, 0 < group_count cs k -> k ∈ fst <$> take gc_len gc
}.

Lemma find_group_Some entries gk i c :
  find_group entries gk = Some (i, c) -> entries !! i = Some (gk, c).
Proof.
  revert i; induction entries as [|[k c'] entries IH]; intros i; simpl; [done|].
  case_decide as Hk; [intros [= <- <-]; by subst|].
  destruct (find_group entries gk) as [[j d]|]; [|done]. intros [= <- <-]. simpl. by apply IH.
Qed.

Lemma find_group_None entries gk : find_group entries gk = None -> gk ∉ fst <$> entries.
Proof.
  induction entries as [|[k c'] entries IH]; simpl; [by intros _ ?%not_elem_of_nil|].
  case_decide as Hk; [done|]. destruct (find_group entries gk) as [[j d]|]; [done|].
  intros _ [->|?]%elem_of_cons; [done|by apply IH].
Qed.

Lemma group_count_elem cs k : 0 < group_count cs k <-> exists c, c ∈ cs /\ cgroup c = k.
Proof.
  unfold group_count. split.
  - intros H. destruct (filter _ cs) as [|c l] eqn:Hf; simpl in H; [lia|].
    assert (c ∈ filter (fun c => cgroup c = k) cs) as Hc by (rewrite Hf; left).
    apply list_elem_of_filter in Hc as [? ?]. by exists c.
  - intros (c & Hc & Hk). destruct (filter (fun c => cgroup c = k) cs) eqn:Hf; simpl; [|lia].
    assert (c ∈ filter (fun c => cgroup c = k) cs) as Hin by (by apply list_elem_of_filter).
    rewrite Hf in Hin. by apply not_elem_of_nil in Hin.
Qed.

Lemma gc_get_ok gc n cs gk : gc_ok gc n cs -> gc_get gc n gk = Z.of_nat (group_count cs gk).
Proof.
  intros H. unfold gc_get. destruct (find_group (take n gc) gk) as [[i c]|] eqn:Hf.
  - apply find_group_Some, list_elem_of_lookup_2, (gc_counts _ _ _ H) in Hf as [? _]. done.
  - apply find_group_None in Hf. destruct (group_count cs gk) eqn:Hc; [done|].
    destruct Hf. apply (gc_complete _ _ _ H). lia.
Qed.

(** One entry per group of the candidates *)
Lemma gc_len_le gc n cs : gc_ok gc n cs -> n <= length cs.
Proof.
  intros H. rewrite <-(length_fmap cgroup cs).
  assert (length (fst <$> take n gc) = n) as <-.
  { rewrite length_fmap, length_take, (gc_length _ _ _ H). pose proof (gc_bound _ _ _ H). lia. }
  apply submseteq_length, NoDup_submseteq; [apply H|].
  intros k ([k' c] & -> & Hin)%list_elem_of_fmap. simpl.
  apply (gc_counts _ _ _ H) in Hin as [_ Hc]. apply group_count_elem in Hc as (d & Hd & <-).
  by apply list_elem_of_fmap_2.
Qed.

Lemma gc_ok_counts gc n cs cs' :
  (forall k, group_count cs k = group_count cs' k) -> gc_ok gc n cs -> gc_ok gc n cs'.
Proof.
  intros Hc []. split; [done|done|done| |].
  - intros k c. rewrite <-Hc. auto.
  - intros k. rewrite <-Hc. auto.
Qed.

Lemma group_count_cons c cs k :
  group_count (c :: cs) k = (if decide (cgroup c = k) then 1 else 0) + group_count cs k.
Proof. unfold group_count. rewrite filter_cons. by destruct (decide (cgroup c = k)). Qed.

Lemma group_count_perm cs cs' k : cs ≡ₚ cs' -> group_count cs k = group_count cs' k.
Proof. intros H. unfold group_count. by rewrite H. Qed.

#[global] Instance group_count_proper : Proper ((≡ₚ) ==> (=) ==> (=)) group_count.
Proof. intros cs cs' H k k' <-. by apply group_count_perm. Qed.

Lemma group_count_le cs k : group_count cs k <= length cs.
Proof. apply length_filter. Qed.

Lemma key_unique (e : list (Z * Z)) i j k c c' :
  NoDup (fst <$> e) -> e !! i = Some (k, c) -> e !! j = Some (k, c') -> i = j.
Proof.
  intros Hnd Hi Hj. apply (NoDup_lookup (fst <$> e) i j k Hnd);
    rewrite list_lookup_fmap; [by rewrite Hi|by rewrite Hj].
Qed.

(** Replacing the count of a present group *)
Lemma gc_ok_set gc n cs cs' i gk c c' :
  gc_ok gc n cs -> take n gc !! i = Some (gk, c) ->
  (forall k, k ≠ gk -> group_count cs' k = group_count cs k) ->
  c' = Z.of_nat (group_count cs' gk) -> 0 < group_count cs' gk ->
  i < length gc /\ gc_ok (<[i:=(gk, c')]> gc) n cs'.
Proof.
  intros [Hl Hb Hk Hc Hcomp] Hi Hother Hc' Hpos.
  pose proof (lookup_lt_Some _ _ _ Hi) as Hin. rewrite length_take in Hin.
  split; [lia|].
  assert (fst <$> <[i:=(gk, c')]> (take n gc) = fst <$> take n gc) as Hkeys.
  { rewrite list_fmap_insert. apply list_insert_id. by rewrite list_lookup_fmap, Hi. }
  split; [by rewrite length_insert|done|..]; rewrite take_insert_lt, ?Hkeys by lia.
  - done.
  - intros k d [j Hj]%list_elem_of_lookup. destruct (decide (j = i)) as [->|Hji].
    + rewrite list_lookup_insert_eq in Hj by (rewrite length_take; lia). by simplify_eq.
    + rewrite list_lookup_insert_ne in Hj by done.
      assert (k ≠ gk) as Hne by (intros ->; by apply Hji, (key_unique (take n gc) j i gk d c)).
      rewrite Hother by done. by eapply Hc, list_elem_of_lookup_2.
  - intros k Hkpos. destruct (decide (k = gk)) as [->|Hne].
    + apply list_elem_of_fmap. exists (gk, c). split; [done|by eapply list_elem_of_lookup_2].
    + apply Hcomp. by rewrite <-Hother.
Qed.

Lemma gc_inc_ok {E} gc n cs c :
  gc_ok gc n cs -> length cs < MAX_SHARDS ->
  returns (gc_inc (E:=E) gc n (cgroup c)) (fun '(gc', n') => gc_ok gc' n' (c :: cs)).
Proof.
  intros H Hlen. pose proof (gc_len_le _ _ _ H) as Hn. pose proof (group_count_le cs (cgroup c)).
  unfold MAX_SHARDS in Hlen. unfold gc_inc.
  destruct (find_group (take n gc) (cgroup c)) as [[i d]|] eqn:Hf.
  - apply find_group_Some in Hf. pose proof (list_elem_of_lookup_2 _ _ _ Hf) as Hin.
    apply (gc_counts _ _ _ H) in Hin as [-> Hpos]. rewrite decide_True by lia.
    edestruct (gc_ok_set gc n cs (c :: cs)) as [Hi Hok];
      [exact H|exact Hf| | |..|rewrite upd_lt by exact Hi; exact Hok];
      [intros k Hk; rewrite group_count_cons, decide_False; [done|congruence]
      |rewrite group_count_cons, decide_True by done; lia
      |rewrite group_count_cons, decide_True by done; lia].
  - apply find_group_None in Hf. pose proof H as [Hl Hb Hk Hc Hcomp].
    rewrite upd_lt by (rewrite Hl; unfold MAX_SHARDS; lia). bind_step. simpl.
    assert (take (n + 1) (<[n:=(cgroup c, 1%Z)]> gc) = take n gc ++ [(cgroup c, 1%Z)]) as He.
    { rewrite Nat.add_1_r, (take_S_r _ n (cgroup c, 1%Z)), take_insert_ge; [done|lia|].
      apply list_lookup_insert_eq. unfold MAX_SHARDS in Hl. lia. }
    assert (group_count cs (cgroup c) = 0) as Hzero.
    { destruct (group_count cs (cgroup c)) eqn:Hg; [done|]. destruct Hf. apply Hcomp. lia. }
    split; rewrite ?He, ?fmap_app; [by rewrite length_insert|unfold MAX_SHARDS; lia|..].
    + apply list.NoDup_app. split; [done|]. split; [|apply list.NoDup_singleton].
      by intros k Hin ->%list_elem_of_singleton.
    + intros k d [Hin|[= -> ->]%list_elem_of_singleton]%elem_of_app; rewrite group_count_cons.
      * assert (k ≠ cgroup c) by (intros ->; destruct Hf; by apply (list_elem_of_fmap_2 fst) in Hin).
        rewrite decide_False by congruence. by apply Hc.
      * rewrite decide_True by done. lia.
    + intros k. rewrite group_count_cons, elem_of_app. case_decide as Hkc.
      * right. subst k. left.
      * left. by apply Hcomp.
Qed.

(** The shifting loop of [gc_dec] removes entry [i]. *)
Lemma gc_shift {E} (gc : list (Z * Z)) i n :
  i < n -> n <= length gc ->
  returns (for_range i (n - 1) gc (fun gc j => x ← idx gc (j + 1); upd gc j x) : outcome E _)
    (fun gc' => length gc' = length gc /\ take (n - 1) gc' = delete i (take n gc)).
Proof.
  intros Hi Hn.
  apply (wp_for_range (fun j gc' => length gc' = length gc /\ forall x,
    gc' !! x = if decide (i <= x < j) then gc !! S x else gc !! x)); [lia| | |].
  - split; [done|]. intros x. rewrite decide_False by lia. done.
  - intros j gc' Hj [Hl Hlk]. apply wp_bind, wp_idx; [lia|]. intros x Hx.
    rewrite Hlk, decide_False, Nat.add_1_r in Hx by lia.
    apply wp_upd; [lia|]. split; [by rewrite length_insert|]. intros y.
    destruct (decide (y = j)) as [->|Hy].
    + rewrite list_lookup_insert_eq, decide_True by lia. done.
    + rewrite list_lookup_insert_ne, Hlk by done.
      destruct (decide (i <= y < j)), (decide (i <= y < j + 1)); done || lia.
  - intros gc' [Hl Hlk]. split; [done|]. apply list_eq. intros x.
    destruct (decide (x < n - 1)).
    + rewrite lookup_take_lt, Hlk by lia. case_decide.
      * rewrite list_lookup_delete_ge, lookup_take_lt by lia. done.
      * rewrite list_lookup_delete_lt, lookup_take_lt by lia. done.
    + rewrite lookup_take_ge by lia. symmetry. apply lookup_ge_None.
      rewrite length_delete, length_take; [lia|]. apply lookup_lt_is_Some. rewrite length_take. lia.
Qed.

Lemma gc_dec_ok {E} gc n cs c cs' :
  gc_ok gc n cs -> cs ≡ₚ c :: cs' ->
  returns (gc_dec (E:=E) gc n (cgroup c)) (fun '(gc', n') => gc_ok gc' n' cs').
Proof.
  intros H Hp.
  assert (forall k, group_count cs k = (if decide (cgroup c = k) then 1 else 0) + group_count cs' k)
    as Hcnt by (intros k; by rewrite (group_count_perm _ _ _ Hp), group_count_cons).
  pose proof (Hcnt (cgroup c)) as Hself. rewrite decide_True in Hself by done.
  pose proof H as [Hl Hb Hk Hc Hcomp]. unfold gc_dec.
  destruct (find_group (take n gc) (cgroup c)) as [[i d]|] eqn:Hf.
  2: { apply find_group_None in Hf. destruct Hf. apply Hcomp. lia. }
  apply find_group_Some in Hf. pose proof (list_elem_of_lookup_2 _ _ _ Hf) as Hin.
  apply Hc in Hin as [-> Hpos]. pose proof (lookup_lt_Some _ _ _ Hf) as Hi.
  rewrite length_take in Hi. case_decide as Hone.
  - eapply wp_bind_returns; [apply gc_shift; lia|]. intros gc' [Hl' He].
    apply wp_ret. split; [lia|lia|..]; rewrite He.
    + eapply sublist_NoDup; [exact Hk|]. apply fmap_sublist, sublist_delete.
    + intros k e [j Hj]%list_elem_of_lookup.
      assert (exists j', j' ≠ i /\ take n gc !! j' = Some (k, e)) as (j' & Hj' & Hlk).
      { destruct (decide (j < i)).
        - rewrite list_lookup_delete_lt in Hj by done. exists j. split; [lia|done].
        - rewrite list_lookup_delete_ge in Hj by lia. exists (S j). split; [lia|done]. }
      assert (cgroup c ≠ k) as Hne
        by (intros <-; by apply Hj', (key_unique (take n gc) j' i (cgroup c) e (Z.of_nat (group_count cs (cgroup c))))).
      pose proof (Hc k e (list_elem_of_lookup_2 _ _ _ Hlk)) as Hke.
      rewrite Hcnt, decide_False in Hke by done. done.
    + intros k Hkpos. assert (k ≠ cgroup c) as Hne by (intros ->; lia).
      assert (k ∈ fst <$> take n gc) as ([k' e] & -> & [j Hj]%list_elem_of_lookup)%list_elem_of_fmap.
      { apply Hcomp. rewrite Hcnt. lia. }
      apply list_elem_of_fmap. exists (k', e). split; [done|]. apply list_elem_of_lookup.
      assert (j ≠ i) by (intros ->; simplify_eq/=).
      destruct (decide (j < i)).
      * exists j. by rewrite list_lookup_delete_lt.
      * exists (j - 1). rewrite list_lookup_delete_ge by lia. by replace (S (j - 1)) with j by lia.
  - edestruct (gc_ok_set gc n cs cs') as [Hi' Hok];
      [exact H|exact Hf| | |..|rewrite upd_lt by exact Hi'; exact Hok]; [|lia|lia].
    intros k Hne. rewrite Hcnt, decide_False by congruence. done.
Qed.

(** ** The worst candidate *)

Definition numbers (cs : list Candidate) : Prop :=
  forall c, c ∈ cs -> is_nan (cscore c) = false.

Definition worst_in (cs : list Candidate) (P : Candidate -> Prop) (w : Candidate) : Prop :=
  w ∈ cs /\ P w /\ (numbers cs -> forall c, c ∈ cs -> P c -> f64_le (cscore c) (cscore w)).

Lemma find_worst_ok {E} cands cs :
  take (length cs) cands = cs -> cs ≠ [] ->
  returns (find_worst (E:=E) cands (length cs)) (fun i => exists w,
    cs !! i = Some w /\ worst_in cs (fun _ => True) w).
Proof.
  intros Hcs Hne. destruct cs as [|c0 cs]; [done|]. unfold find_worst.
  assert (cands !! 0 = Some c0) as H0 by (destruct cands; by simplify_eq/=).
  rewrite (proj2 (idx_Ok _ _ _) H0). bind_step. rewrite take_enumerate, Hcs. simpl.
  set (l := imap _ cs).
  assert (forall i x, (i, x) ∈ l -> (c0 :: cs) !! i = Some x) as Hl.
  { intros i x [j Hj]%list_elem_of_lookup. unfold l in Hj. rewrite list_lookup_imap in Hj.
    destruct (cs !! j) eqn:Hcj; simplify_eq/=. done. }
  assert (snd <$> l = cs) as Hsnd.
  { apply list_eq. intros i. unfold l. rewrite list_lookup_fmap, list_lookup_imap.
    by destruct (cs !! i). }
  pose proof (foldl_inv (fun pre '(wi, ws) => exists w, (c0 :: cs) !! wi = Some w /\ ws = cscore w /\
    (numbers (c0 :: cs) -> forall c, c ∈ c0 :: (snd <$> pre) -> f64_le (cscore c) ws))
    (fun '(worst_idx, worst_score) '(i, cand) =>
      if f64_gt (cscore cand) worst_score then (i, cscore cand) else (worst_idx, worst_score))
    l (0, cscore c0)) as Hinv.
  destruct (foldl _ _ l) as [wi ws]. destruct Hinv as (w & Hw & -> & Hmax).
  - exists c0. split; [done|]. split; [done|]. intros _ c ->%list_elem_of_singleton. apply f64_le_refl.
  - intros pre [i x] suf [wi' ws'] Heq (w & Hw & -> & Hmax).
    assert ((c0 :: cs) !! i = Some x) as Hx
      by (apply Hl; rewrite Heq, elem_of_app, elem_of_cons; auto).
    destruct (f64_gt (cscore x) (cscore w)) eqn:Hgt.
    + exists x. split; [done|]. split; [done|]. intros Hnum c. rewrite fmap_app, app_comm_cons.
      intros [Hc| ->%list_elem_of_singleton]%elem_of_app; [|apply f64_le_refl].
      apply (f64_le_trans _ (cscore w)); [|by eapply Hnum, list_elem_of_lookup_2..|by apply Hmax|].
      * apply Hnum. apply elem_of_cons in Hc as [->|Hc]; [left|right].
        rewrite <-Hsnd, Heq, fmap_app. apply elem_of_app. by left.
      * apply f64_lt_le; [by eapply Hnum, list_elem_of_lookup_2..|done].
    + exists w. split; [done|]. split; [done|]. intros Hnum c. rewrite fmap_app, app_comm_cons.
      intros [Hc| ->%list_elem_of_singleton]%elem_of_app; [by apply Hmax|]. done.
  - exists w. split; [done|]. split; [by eapply list_elem_of_lookup_2|]. split; [done|].
    intros Hnum c Hc _. apply Hmax; [done|]. by rewrite Hsnd.
Qed.

(** What the scan of [find_worst_in_group] has found in the visited prefix *)
Definition group_worst (cs : list Candidate) (gk : Z) (pre : list (nat * Candidate))
    (st : option nat * f64) : Prop :=
  match st with
  | (None, ws) => ws = NEG_INFINITY /\
      forall i c, (i, c) ∈ pre -> cgroup c = gk -> f64_lt NEG_INFINITY (cscore c) = false
  | (Some i, ws) => exists w, cs !! i = Some w /\ cgroup w = gk /\ ws = cscore w /\
      (numbers cs -> forall i c, (i, c) ∈ pre -> cgroup c = gk -> f64_le (cscore c) (cscore w))
  end.

Lemma group_worst_step cs gk pre st i x :
  cs !! i = Some x -> (forall j c, (j, c) ∈ pre -> c ∈ cs) -> group_worst cs gk pre st ->
  group_worst cs gk (pre ++ [(i, x)])
    (let '(worst_idx, worst_score) := st in
     if bool_decide (cgroup x = gk) && f64_gt (cscore x) worst_score
     then (Some i, cscore x) else (worst_idx, worst_score)).
Proof.
  intros Hx Hpre. destruct st as [wi ws].
  assert (x ∈ cs) as Hxin by (by eapply list_elem_of_lookup_2).
  case_bool_decide as Hgk; cbn [andb]; [destruct (f64_gt (cscore x) ws) eqn:Hgt|]; intros H.
  1: {
    exists x. split; [done|]. split; [done|]. split; [done|].
    intros Hnum j c [Hc|[= -> ->]%list_elem_of_singleton]%elem_of_app Hcg; [|apply f64_le_refl].
    pose proof (Hnum c (Hpre _ _ Hc)) as Hcn. pose proof (Hnum x Hxin) as Hxn.
    unfold f64_gt in Hgt. fold (f64_lt ws (cscore x)) in Hgt.
    destruct wi as [wi|]; simpl in H.
    + destruct H as (w & Hw & _ & -> & Hmax).
      assert (is_nan (cscore w) = false) by (by eapply Hnum, list_elem_of_lookup_2).
      specialize (Hmax Hnum _ _ Hc Hcg). f64_order.
    + destruct H as [-> Hno]. specialize (Hno _ _ Hc Hcg).
      fold (f64_le (cscore c) NEG_INFINITY) in Hno. assert (is_nan NEG_INFINITY = false) by done.
      f64_order. }
  all: destruct wi as [wi|]; simpl in H |- *.
  all: try (destruct H as (w & Hw & Hwg & -> & Hmax); exists w; do 3 (split; [done|]);
    intros Hnum j c [Hc|[= -> ->]%list_elem_of_singleton]%elem_of_app Hcg; [by eapply Hmax|done]).
  all: destruct H as [-> Hno]; split; [done|];
    intros j c [Hc|[= -> ->]%list_elem_of_singleton]%elem_of_app Hcg; [by eapply Hno|done].
Qed.

Lemma find_worst_in_group_ok cands cs gk :
  take (length cs) cands = cs ->
  match find_worst_in_group cands (length cs) gk with
  | Some i => exists w, cs !! i = Some w /\ worst_in cs (fun c => cgroup c = gk) w
  | None => forall c, c ∈ cs -> cgroup c = gk -> f64_lt NEG_INFINITY (cscore c) = false
  end.
Proof.
  intros Hcs. unfold find_worst_in_group. rewrite take_enumerate, Hcs.
  assert (forall i x, (i, x) ∈ enumerate cs <-> cs !! i = Some x) as Hl.
  { intros i x. rewrite list_elem_of_lookup. split.
    - by intros [j [-> Hj]%enumerate_lookup].
    - intros Hx. exists i. by apply enumerate_lookup. }
  match goal with |- context [foldl ?f ?b ?l] =>
    assert (group_worst cs gk l (foldl f b l)) as Hinv end.
  { apply (foldl_inv (group_worst cs gk)); [by split; [|intros ? ? ?%not_elem_of_nil]|].
    intros pre [i x] suf [wi ws] Heq Hpre. apply (group_worst_step cs gk pre (wi, ws)); [..|done].
    - apply Hl. rewrite Heq, elem_of_app, elem_of_cons. auto.
    - intros j c Hc. apply (list_elem_of_lookup_2 _ j), Hl. rewrite Heq, elem_of_app. by left. }
  destruct (foldl _ _ (enumerate cs)) as [[i|] ws]; simpl in *.
  - destruct Hinv as (w & Hw & Hwg & _ & Hmax). exists w. split; [done|].
    split; [by eapply list_elem_of_lookup_2|]. split; [done|].
    intros Hnum c [j Hj%Hl]%list_elem_of_lookup. by apply (Hmax Hnum j).
  - destruct Hinv as [_ Hno]. intros c [j Hj%Hl]%list_elem_of_lookup. by apply (Hno j).
Qed.

(** ** The scan as steps on a list of candidates *)

Section scan.
Context (total : nat) (adm : nat -> NodeInfo -> Admission) (sc : NodeInfo -> f64).

Definition candidate (node : NodeInfo) (gk : Z) : Candidate :=
  {| cscore := sc node; node_id := id node; cgroup := gk |}.

Inductive step_rel (node : NodeInfo) (gk : Z) (cs : list Candidate) : list Candidate -> Prop :=
| step_zero : f64_eq (weight node) f64_zero = true -> step_rel node gk cs cs
| step_excluded :
    f64_eq (weight node) f64_zero = false ->
    adm (group_count cs gk) node = Excluded -> step_rel node gk cs cs
| step_append :
    f64_eq (weight node) f64_zero = false ->
    adm (group_count cs gk) node = Global -> length cs < total ->
    step_rel node gk cs (cs ++ [candidate node gk])
| step_replace i w :
    f64_eq (weight node) f64_zero = false ->
    adm (group_count cs gk) node = Global -> length cs = total ->
    cs !! i = Some w -> worst_in cs (fun _ => True) w -> f64_lt (sc node) (cscore w) = true ->
    step_rel node gk cs (<[i:=candidate node gk]> cs)
| step_keep w :
    f64_eq (weight node) f64_zero = false ->
    adm (group_count cs gk) node = Global -> length cs = total ->
    worst_in cs (fun _ => True) w -> f64_le (cscore w) (sc node) -> step_rel node gk cs cs
| step_group_replace i w :
    f64_eq (weight node) f64_zero = false ->
    adm (group_count cs gk) node = Constrained ->
    cs !! i = Some w -> worst_in cs (fun c => cgroup c = gk) w ->
    f64_lt (sc node) (cscore w) = true ->
    step_rel node gk cs (<[i:=candidate node gk]> cs)
| step_group_keep w :
    f64_eq (weight node) f64_zero = false ->
    adm (group_count cs gk) node = Constrained ->
    worst_in cs (fun c => cgroup c = gk) w -> f64_le (cscore w) (sc node) -> step_rel node gk cs cs
| step_group_none :
    f64_eq (weight node) f64_zero = false ->
    adm (group_count cs gk) node = Constrained ->
    (forall c, c ∈ cs -> cgroup c = gk -> f64_lt NEG_INFINITY (cscore c) = false) ->
    step_rel node gk cs cs.

(** The scan over a list of nodes *)
Inductive scan : list (NodeInfo * Z) -> list Candidate -> Prop :=
| scan_nil : scan [] []
| scan_snoc l cs node gk cs' :
    scan l cs -> step_rel node gk cs cs' -> scan (l ++ [(node, gk)]) cs'.

End scan.

(** The arrays hold the candidates [cs]. *)
Record holds_cands (total : nat) (st : Buffers) (cs : list Candidate) : Prop := {
  hc_length : length (cands st) = MAX_SHARDS;
  hc_len : cand_len st = length cs;
  hc_take : take (length cs) (cands st) = cs;
  hc_total : length cs <= total;
  hc_gc : gc_ok (gc st) (gc_len st) cs
}.

Lemma take_insert_snoc {A} (l cs : list A) x :
  take (length cs) l = cs -> length cs < length l ->
  take (length cs + 1) (<[length cs:=x]> l) = cs ++ [x].
Proof.
  intros Ht Hl. rewrite Nat.add_1_r, (take_S_r _ _ x), take_insert_ge, Ht; [done|lia|].
  by apply list_lookup_insert_eq.
Qed.

Lemma insert_perm_delete {A} (cs : list A) i w x :
  cs !! i = Some w -> exists rest, cs ≡ₚ w :: rest /\ <[i:=x]> cs ≡ₚ x :: rest.
Proof.
  intros Hi. exists (take i cs ++ drop (S i) cs). split.
  - rewrite <-(take_drop_middle cs i w Hi) at 1. by rewrite Permutation_middle.
  - rewrite insert_take_drop by (by eapply lookup_lt_Some). by rewrite Permutation_middle.
Qed.

Section simulation.
Context (hash : list byte -> Z) (self : Placer) (key : list byte).
Let total := total_shards (config self).
Let sc := score_of hash key.
Let step := step_rel total (padmit self) sc.
Hypothesis Htotal : 0 < total <= MAX_SHARDS.

Lemma sim_append {E} st cs node gk :
  holds_cands total st cs -> length cs < total ->
  returns (cands ← upd (cands st) (cand_len st) (candidate sc node gk);
           '(gc, gc_len) ← gc_inc (gc st) (gc_len st) gk;
           mret {| cands := cands; cand_len := cand_len st + 1; gc := gc; gc_len := gc_len |}
           : outcome E Buffers)
    (fun st' => holds_cands total st' (cs ++ [candidate sc node gk])).
Proof.
  intros [Hl Hn Ht Hb Hgc] Hlt. rewrite upd_lt by lia. bind_step.
  eapply wp_bind_returns; [apply (gc_inc_ok _ _ _ (candidate sc node gk) Hgc); lia|].
  intros [gc' n'] Hok. apply wp_ret.
  split; simpl; rewrite ?length_insert, ?length_app; simpl; [done|lia| |lia|].
  - rewrite Hn. apply take_insert_snoc; [done|lia].
  - eapply gc_ok_counts; [|exact Hok]. intros k. apply group_count_perm.
    by rewrite Permutation_app_comm.
Qed.

Lemma sim_replace {E} st cs node gk i w :
  holds_cands total st cs -> cs !! i = Some w ->
  returns ('(gc, gc_len) ← gc_dec (gc st) (gc_len st) (cgroup w);
           cands ← upd (cands st) i (candidate sc node gk);
           '(gc, gc_len) ← gc_inc gc gc_len gk;
           mret {| cands := cands; cand_len := cand_len st; gc := gc; gc_len := gc_len |}
           : outcome E Buffers)
    (fun st' => holds_cands total st' (<[i:=candidate sc node gk]> cs)).
Proof.
  intros [Hl Hn Ht Hb Hgc] Hi. pose proof (lookup_lt_Some _ _ _ Hi) as Hlt.
  destruct (insert_perm_delete cs i w (candidate sc node gk) Hi) as (rest & Hp & Hp').
  assert (length cs = S (length rest)) as Hlen by (by rewrite Hp).
  eapply wp_bind_returns; [by eapply gc_dec_ok|]. intros [gc' n'] Hok.
  rewrite upd_lt by lia. bind_step.
  eapply wp_bind_returns; [apply (gc_inc_ok _ _ _ (candidate sc node gk) Hok); lia|].
  intros [gc'' n''] Hok'. apply wp_ret.
  split; simpl; rewrite ?length_insert; [done|done| |done|].
  - rewrite take_insert_lt by done. by rewrite Ht.
  - eapply gc_ok_counts; [|exact Hok']. intros k. by apply group_count_perm.
Qed.

Lemma sim_group_replace st cs node gk i w :
  holds_cands total st cs -> cs !! i = Some w -> cgroup w = gk ->
  holds_cands total (with_cands st (<[i:=candidate sc node gk]> (cands st)))
    (<[i:=candidate sc node gk]> cs).
Proof.
  intros [Hl Hn Ht Hb Hgc] Hi Hw. pose proof (lookup_lt_Some _ _ _ Hi) as Hlt.
  destruct (insert_perm_delete cs i w (candidate sc node gk) Hi) as (rest & Hp & Hp').
  split; simpl; rewrite ?length_insert; [done|done| |done|].
  - rewrite take_insert_lt by done. by rewrite Ht.
  - eapply gc_ok_counts; [|exact Hgc]. intros k.
    rewrite (group_count_perm _ _ _ Hp), (group_count_perm _ _ _ Hp'), !group_count_cons.
    simpl. by rewrite Hw.
Qed.

Lemma place_step_sim {E} st cs node gk :
  holds_cands total st cs ->
  returns (place_step (E:=E) hash self key st (node, gk)) (fun st' => exists cs',
    holds_cands total st' cs' /\ step node gk cs cs').
Proof.
  intros Hst. unfold place_step.
  destruct (f64_eq (weight node) f64_zero) eqn:Hz; [exists cs; split; [done|by constructor]|].
  rewrite score_eq. bind_step. pose proof Hst as [Hl Hn Ht Hb Hgc].
  rewrite (gc_get_ok _ _ _ _ Hgc), Nat2Z.id. fold sc total.
  assert (forall i w, cs !! i = Some w -> idx (E:=E) (cands st) i = Ok w) as Hidx.
  { intros i w Hi. apply idx_Ok. rewrite <-Ht in Hi. by apply lookup_take_Some in Hi as [? _]. }
  destruct (padmit self (group_count cs gk) node) eqn:Hadm.
  - case_decide as Hfull.
    + eapply returns_mono; [apply (sim_append st cs node gk Hst); lia|].
      intros st' Hst'. eexists. split; [exact Hst'|]. apply step_append; [done|done|lia].
    + assert (length cs = total) as Hfl by lia. rewrite Hn.
      eapply wp_bind_returns; [apply (find_worst_ok _ cs Ht); intros ->; simpl in Hfl; lia|].
      intros i (w & Hi & Hw). rewrite (Hidx i w Hi). bind_step.
      destruct (f64_lt (sc node) (cscore w)) eqn:Hlt.
      * eapply returns_mono; [rewrite <-Hn; apply (sim_replace st cs node gk i w Hst Hi)|].
        intros st' Hst'. eexists. split; [exact Hst'|]. by eapply step_replace.
      * exists cs. split; [done|]. by eapply step_keep.
  - rewrite Hn. pose proof (find_worst_in_group_ok (cands st) cs gk Ht) as Hw.
    destruct (find_worst_in_group _ _ _) as [i|].
    + destruct Hw as (w & Hi & Hw). rewrite (Hidx i w Hi). bind_step.
      pose proof (lookup_lt_Some _ _ _ Hi) as Hil.
      destruct (f64_lt (sc node) (cscore w)) eqn:Hlt.
      * rewrite upd_lt by lia. bind_step. eexists. split.
        { apply (sim_group_replace st cs node gk i w Hst Hi). apply Hw. }
        by eapply step_group_replace.
      * exists cs. split; [done|]. by eapply step_group_keep.
    + exists cs. split; [done|]. by eapply step_group_none.
  - exists cs. split; [done|]. by eapply step_excluded.
Qed.

Definition init_buffers : Buffers :=
  {| cands := replicate MAX_SHARDS EMPTY_CAND; cand_len := 0;
     gc := replicate MAX_SHARDS (0, 0)%Z; gc_len := 0 |}.

Lemma init_holds : holds_cands total init_buffers [].
Proof.
  split; simpl; [done|done|done|lia|].
  split; [done|simpl; lia|constructor| |].
  - by intros k c ?%not_elem_of_nil.
  - intros k. unfold group_count. simpl. lia.
Qed.

(** The array code computes a scan of the node list. *)
Lemma place_scan {E} :
  returns (foldM (place_step (E:=E) hash self key) init_buffers (nodes self)) (fun st =>
    exists cs, holds_cands total st cs /\ scan total (padmit self) sc (nodes self) cs).
Proof.
  apply (wp_foldM (fun pre st => exists cs, holds_cands total st cs /\
    scan total (padmit self) sc pre cs)); [|intros pre [node gk] suf st _ (cs & Hst & Hs)|done].
  - exists []. split; [apply init_holds|constructor].
  - eapply returns_mono; [by apply place_step_sim|].
    intros st' (cs' & Hst' & Hstep). exists cs'. split; [done|]. by econstructor.
Qed.
End simulation.

(** ** Orders on scores *)

(** What the scan needs of "no worse than" on the scores that occur *)
Class ScoreOrder (D : f64 -> Prop) (le : f64 -> f64 -> Prop) := {
  le_dec :: RelDecision le;
  le_trans a b c : D a -> D b -> D c -> le a b -> le b c -> le a c;
  le_of_lt a b : D a -> D b -> f64_lt a b = true -> le a b;
  le_of_le a b : D a -> D b -> f64_le a b -> le a b;
  le_neg_infinity a b : D a -> D b -> f64_lt NEG_INFINITY a = false -> le a b;
  le_worst cs P w c :
    (forall d, d ∈ cs -> D (cscore d)) -> worst_in cs P w -> c ∈ cs -> P c ->
    le (cscore c) (cscore w)
}.

(** The order of numbers *)
#[global] Instance number_order : ScoreOrder (fun a => is_nan a = false) f64_le.
Proof.
  split.
  - intros a b. unfold f64_le. solve_decision.
  - intros a b c Ha Hb Hc. by apply f64_le_trans.
  - intros a b Ha Hb. by apply f64_lt_le.
  - done.
  - intros a b Ha Hb Hinf. assert (is_nan NEG_INFINITY = false) as Hn by done.
    fold (f64_le a NEG_INFINITY) in Hinf. apply (f64_le_trans _ NEG_INFINITY); [done..|].
    by destruct b as [|[]| |[] m e].
  - intros cs P w c HD (_ & _ & Hmax). by apply Hmax.
Defined.

(** Ignoring the scores *)
#[global] Instance any_order : ScoreOrder (fun _ => True) (fun _ _ => True).
Proof. split; try done. intros a b. by left. Defined.

Lemma le_refl_of D le `{!ScoreOrder D le} a : D a -> le a a.
Proof. intros Ha. apply le_of_le; [done..|apply f64_le_refl]. Qed.

(** ** Counting *)

Lemma group_domination (A B : list Candidate) :
  (forall k, group_count A k <= group_count B k) -> length A <= length B.
Proof.
  remember (length A) as n eqn:Hn. revert A B Hn.
  induction (lt_wf n) as [n _ IH]. intros A B Hn H. destruct A as [|a A]; [simpl in Hn; lia|].
  set (k := cgroup a). set (A0 := a :: A) in *.
  assert (forall L, length L = group_count L k + length (filter (fun c => cgroup c ≠ k) L)) as Hsplit.
  { intros L. unfold group_count. rewrite <-length_app. apply Permutation_length.
    by rewrite (filter_app_complement (fun c => cgroup c = k)). }
  assert (forall L k', group_count (filter (fun c => cgroup c ≠ k) L) k' =
    if decide (k' = k) then 0 else group_count L k') as Hcnt.
  { intros L k'. unfold group_count. rewrite list_filter_filter. case_decide as Hk.
    - subst k'. induction L as [|c L IHL]; [done|]. rewrite filter_cons_False; [done|tauto].
    - apply f_equal, list_filter_iff. intros c. split; [tauto|]. intros ->. done. }
  rewrite Hn, (Hsplit A0), (Hsplit B). specialize (H k) as Hk.
  enough (length (filter (fun c => cgroup c ≠ k) A0) <= length (filter (fun c => cgroup c ≠ k) B))
    by lia.
  eapply IH; [|reflexivity|].
  - rewrite Hn, (Hsplit A0). enough (0 < group_count A0 k) by lia.
    apply group_count_elem. exists a. split; [left|done].
  - intros k'. rewrite !Hcnt. case_decide; [lia|apply H].
Qed.

Lemma group_count_app A B k : group_count (A ++ B) k = group_count A k + group_count B k.
Proof. unfold group_count. by rewrite list.filter_app, length_app. Qed.

Lemma group_count_submseteq A B k : A ⊆+ B -> group_count A k <= group_count B k.
Proof.
  intros [C ->]%submseteq_Permutation. rewrite group_count_app. lia.
Qed.

(** ** The invariants of the scan *)

Section matroid.
Context (total : nat) (c : PlacementConstraint) (ns : list NodeInfo) (sc : NodeInfo -> f64).
Context `{!PartitionMatroid c ns}.
Context (D : f64 -> Prop) (le : f64 -> f64 -> Prop) `{!ScoreOrder D le}.
Hypothesis Hscores : forall node, node ∈ ns -> active node = true -> D (sc node).
Hypothesis Hactive : forall node, node ∈ ns ->
  f64_eq (weight node) f64_zero = negb (active node).

Let cand node := candidate sc node (group_key c node).
Let step node := step_rel total (admission c) sc node (group_key c node).

(** The candidate of an active node among [l] *)
Definition eligible (l : list NodeInfo) (x : Candidate) : Prop :=
  exists node, node ∈ l /\ active node = true /\ x = cand node.

(** The capacities are respected. *)
Definition within_caps (cs : list Candidate) : Prop :=
  forall k max, cap k = Some max -> group_count cs k <= max.

Definition below (x : f64) (cs : list Candidate) : list Candidate :=
  filter (fun d => le (cscore d) x) cs.

(** No room for [x]: its group, or the buffer, is full of candidates no worse. *)
Definition blocked (cs : list Candidate) (x : Candidate) : Prop :=
  (exists max, cap (cgroup x) = Some max /\
     max <= group_count (below (cscore x) cs) (cgroup x)) \/
  total <= length (below (cscore x) cs).

Record scanned (l : list NodeInfo) (cs : list Candidate) : Prop := {
  sd_length : length cs <= total;
  sd_eligible : forall x, x ∈ cs -> eligible l x;
  sd_NoDup : NoDup (node_id <$> cs);
  sd_caps : within_caps cs;
  sd_spanned : forall x, eligible l x -> x ∈ cs \/ blocked cs x
}.

Lemma eligible_D l x : (forall node, node ∈ l -> node ∈ ns) -> eligible l x -> D (cscore x).
Proof. intros Hl (node & Hn & Ha & ->). simpl. auto. Qed.

Lemma below_submseteq x cs cs' : cs ⊆+ cs' -> below x cs ⊆+ below x cs'.
Proof.
  intros [r Hr]%submseteq_Permutation. unfold below. rewrite Hr, list.filter_app.
  by apply submseteq_inserts_r.
Qed.

Lemma below_all x cs : (forall d, d ∈ cs -> le (cscore d) x) -> below x cs = cs.
Proof.
  unfold below. induction cs as [|d cs IH]; intros H; [done|].
  rewrite filter_cons_True by (apply H; left). f_equal. apply IH. intros. apply H. by right.
Qed.

Lemma blocked_submseteq cs cs' x : cs ⊆+ cs' -> blocked cs x -> blocked cs' x.
Proof.
  intros H%(below_submseteq (cscore x)). intros [(max & Hc & Hm)|Ht].
  - left. exists max. split; [done|]. etrans; [done|]. by apply group_count_submseteq.
  - right. etrans; [done|]. by apply submseteq_length.
Qed.

Lemma below_mono x y cs :
  (forall d, d ∈ cs -> D (cscore d)) -> D x -> D y -> le x y -> below x cs ⊆+ below y cs.
Proof.
  intros HD Hx Hy Hle. unfold below. induction cs as [|e cs IH]; [done|].
  rewrite !filter_cons. specialize (IH ltac:(intros; apply HD; by right)).
  destruct (decide (le (cscore e) x)) as [Hed|].
  - rewrite decide_True; [by apply submseteq_skip|].
    apply (le_trans _ x); [apply HD; left|done..].
  - case_decide; [by apply submseteq_cons|done].
Qed.

(** A full buffer of candidates below [x] *)
Lemma blocked_total cs x :
  total <= length cs -> (forall d, d ∈ cs -> le (cscore d) (cscore x)) -> blocked cs x.
Proof. intros Hl H. right. by rewrite below_all. Qed.

Lemma below_full x cs :
  length cs <= length (below x cs) -> forall d, d ∈ cs -> le (cscore d) x.
Proof.
  intros Hl d Hd. destruct (decide (le (cscore d) x)) as [|Hn]; [done|].
  apply elem_of_Permutation in Hd as [r Hr]. exfalso. revert Hl. unfold below.
  rewrite Hr, list.filter_cons_False by done. simpl. pose proof (length_filter (fun d => le (cscore d) x) r).
  lia.
Qed.

(** A full group of candidates below [x] *)
Lemma blocked_group cs x max :
  cap (cgroup x) = Some max -> max <= group_count cs (cgroup x) ->
  (forall d, d ∈ cs -> cgroup d = cgroup x -> le (cscore d) (cscore x)) -> blocked cs x.
Proof.
  intros Hc Hm H. left. exists max. split; [done|]. etrans; [done|].
  unfold group_count, below. rewrite list_filter_filter.
  assert (filter (fun d => cgroup d = cgroup x) cs =
    filter (fun d => cgroup d = cgroup x /\ le (cscore d) (cscore x)) cs) as ->; [|done].
  clear Hm. induction cs as [|d cs IH]; [done|].
  rewrite !filter_cons, IH by (intros; apply H; [by right|done]).
  destruct (decide (cgroup d = cgroup x)) as [Hd|Hd].
  - rewrite decide_True; [done|]. split; [done|]. apply H; [left|done].
  - rewrite decide_False; [done|]. tauto.
Qed.

Lemma admit_global n node max :
  node ∈ ns -> admission c n node = Global -> cap (group_key c node) = Some max -> n < max.
Proof.
  intros Hn Ha Hc. rewrite (admit_cap n node Hn), Hc in Ha. by destruct (decide (n < max)).
Qed.

Lemma admit_constrained n node :
  node ∈ ns -> admission c n node = Constrained ->
  exists max, cap (group_key c node) = Some max /\ max <= n.
Proof.
  intros Hn Ha. rewrite (admit_cap n node Hn) in Ha.
  destruct (cap (group_key c node)) as [max|]; [|done]. exists max. split; [done|].
  destruct (decide (n < max)); [done|lia].
Qed.

Lemma admit_included n node : node ∈ ns -> admission c n node ≠ Excluded.
Proof. intros Hn. rewrite (admit_cap n node Hn). repeat case_match; done. Qed.

Section swap.
Context (cs cs' rest : list Candidate) (w y : Candidate).
Hypotheses (Hcs : cs ≡ₚ w :: rest) (Hcs' : cs' ≡ₚ y :: rest).
Hypotheses (Hlen : length cs <= total) (Hyw : le (cscore y) (cscore w)).
Hypotheses (HD : forall d, d ∈ cs -> D (cscore d)) (HDy : D (cscore y)).
(** Either the two are of one group, or [w] is the worst of a full buffer. *)
Hypothesis Hcase : cgroup y = cgroup w \/
  (length cs = total /\ forall d, d ∈ cs -> le (cscore d) (cscore w)).

Lemma swap_lengths : length cs' = length cs.
Proof. by rewrite Hcs, Hcs'. Qed.

Lemma swap_all_below x :
  D (cscore x) -> (forall d, d ∈ cs -> le (cscore d) (cscore x)) ->
  forall d, d ∈ cs' -> le (cscore d) (cscore x).
Proof.
  intros Hx H d. rewrite Hcs'. intros [->|Hd]%elem_of_cons.
  - assert (w ∈ cs) as Hw by (rewrite Hcs; left).
    apply (le_trans _ (cscore w)); [done|by apply HD|done|done|by apply H].
  - apply H. rewrite Hcs. by right.
Qed.

Lemma swap_blocked x : D (cscore x) -> blocked cs x -> blocked cs' x.
Proof.
  intros Hx Hb. assert (w ∈ cs) as Hw by (rewrite Hcs; left).
  destruct (decide (le (cscore w) (cscore x))) as [Hwx|Hwx].
  - destruct Hb as [(max & Hc & Hm)|Ht].
    + destruct Hcase as [Hg|[Hfull Hworst]].
      * left. exists max. split; [done|]. etrans; [done|]. apply Nat.eq_le_incl.
        unfold below. rewrite Hcs, Hcs', !filter_cons_True, !group_count_cons, Hg; [done| |done].
        apply (le_trans _ (cscore w)); [done|by apply HD|done..].
      * apply blocked_total; [rewrite swap_lengths; lia|]. apply swap_all_below; [done|].
        intros d Hd. apply (le_trans _ (cscore w)); [by apply HD|by apply HD|done|by apply Hworst|done].
    + apply blocked_total.
      * rewrite swap_lengths. etrans; [done|]. apply length_filter.
      * apply swap_all_below; [done|]. apply below_full. lia.
  - apply (blocked_submseteq rest).
    + rewrite Hcs'. by apply submseteq_cons.
    + assert (below (cscore x) cs ≡ₚ below (cscore x) rest) as Heq
        by (unfold below; by rewrite Hcs, list.filter_cons_False).
      destruct Hb as [(max & Hc & Hm)|Ht]; [left; exists max; split; [done|]; by rewrite <-Heq
        |right; by rewrite <-Heq].
Qed.
End swap.

(** One step of the scan preserves the invariant. *)
Section preserve.
Context (l : list NodeInfo) (cs : list Candidate) (node : NodeInfo).
Hypotheses (Hl : forall n, n ∈ l -> n ∈ ns) (Hnode : node ∈ ns) (Hfresh : id node ∉ id <$> l).
Hypothesis Hsd : scanned l cs.

Lemma eligible_snoc x :
  eligible (l ++ [node]) x <-> eligible l x \/ (active node = true /\ x = cand node).
Proof.
  split.
  - intros (n & [Hn| ->%list_elem_of_singleton]%elem_of_app & Ha & ->); [left; by exists n|by right].
  - intros [(n & Hn & Ha & ->)|[Ha ->]]; [exists n|exists node];
      (split; [apply elem_of_app|done]); [by left|right; left].
Qed.

Lemma cs_D d : d ∈ cs -> D (cscore d).
Proof. intros Hd. eapply eligible_D; [exact Hl|]. by apply Hsd. Qed.

Lemma fresh_id : id node ∉ node_id <$> cs.
Proof.
  intros (x & Hx & Hin)%list_elem_of_fmap. apply Hsd in Hin as (n & Hn & _ & ->).
  apply Hfresh. simpl in Hx. rewrite Hx. by apply list_elem_of_fmap_2.
Qed.

(** The node is not taken: it must be blocked if it is active. *)
Lemma keep_scanned :
  (active node = true -> blocked cs (cand node)) -> scanned (l ++ [node]) cs.
Proof.
  intros Hb. destruct Hsd as [H1 H2 H3 H4 H5]. split; [done| |done|done|].
  - intros x Hx. apply eligible_snoc. left. by apply H2.
  - intros x [Hx|[Ha ->]]%eligible_snoc; [by apply H5|right; by apply Hb].
Qed.

Lemma append_scanned :
  active node = true -> length cs < total -> admission c (group_count cs (group_key c node)) node = Global ->
  scanned (l ++ [node]) (cs ++ [cand node]).
Proof.
  intros Ha Hlt Hadm. destruct Hsd as [H1 H2 H3 H4 H5]. split.
  - rewrite length_app. simpl. lia.
  - intros x [Hx| ->%list_elem_of_singleton]%elem_of_app; apply eligible_snoc; [left; auto|by right].
  - rewrite fmap_app. apply list.NoDup_app. split; [done|]. split; [|apply list.NoDup_singleton].
    intros i Hi ->%list_elem_of_singleton. by apply fresh_id.
  - intros k max Hk. rewrite group_count_app, group_count_cons. change (group_count [] k) with 0.
    cbn [cgroup candidate cand]. specialize (H4 k max Hk). case_decide as Hg; [|lia]. subst k.
    pose proof (admit_global _ _ _ Hnode Hadm Hk). lia.
  - intros x [Hx|[_ ->]]%eligible_snoc; [|left; apply elem_of_app; right; left].
    destruct (H5 x Hx) as [Hin|Hb]; [left; apply elem_of_app; by left|right].
    eapply blocked_submseteq; [|exact Hb]. by apply submseteq_inserts_r.
Qed.

Lemma swap_scanned cs' rest w :
  active node = true -> cs ≡ₚ w :: rest -> cs' ≡ₚ cand node :: rest ->
  f64_lt (sc node) (cscore w) = true ->
  (group_key c node = cgroup w \/
   (length cs = total /\ (forall d, d ∈ cs -> le (cscore d) (cscore w)) /\
    admission c (group_count cs (group_key c node)) node = Global)) ->
  blocked cs' w -> scanned (l ++ [node]) cs'.
Proof.
  intros Ha Hcs Hcs' Hlt Hcase Hbw. destruct Hsd as [H1 H2 H3 H4 H5].
  assert (w ∈ cs) as Hw by (rewrite Hcs; left).
  assert (le (sc node) (cscore w)) as Hle by (apply le_of_lt; [by apply Hscores|by apply cs_D|done]).
  split.
  - by rewrite Hcs', <-H1, Hcs.
  - intros x. rewrite Hcs'. intros [->|Hx]%elem_of_cons; apply eligible_snoc; [by right|left].
    apply H2. rewrite Hcs. by right.
  - rewrite Hcs'. rewrite Hcs in H3. simpl in *. apply list.NoDup_cons in H3 as [_ H3].
    constructor; [|done]. intros Hin. apply fresh_id. rewrite Hcs. simpl. by right.
  - intros k max Hk. specialize (H4 k max Hk). rewrite Hcs', group_count_cons. simpl.
    rewrite Hcs, group_count_cons in H4.
    destruct (decide (group_key c node = k)) as [Hg|Hg]; [|lia].
    destruct Hcase as [Hgw|(_ & _ & Hadm)]; [rewrite decide_True in H4 by congruence; lia|].
    subst k. pose proof (admit_global _ _ _ Hnode Hadm Hk) as Hroom.
    rewrite Hcs, group_count_cons in Hroom. lia.
  - intros x [Hx|[_ ->]]%eligible_snoc; [|left; rewrite Hcs'; left].
    destruct (H5 x Hx) as [Hin|Hb].
    + rewrite Hcs in Hin. apply elem_of_cons in Hin as [->|Hin]; [by right|].
      left. rewrite Hcs'. by right.
    + right. eapply (swap_blocked cs cs' rest w (cand node)); [done|done|done|done|apply cs_D| | | |done].
      * by apply Hscores.
      * destruct Hcase as [Hg|(Hf & Hall & _)]; [by left|by right].
      * eapply eligible_D; [exact Hl|done].
Qed.

Lemma step_scanned cs' : step node cs cs' -> scanned (l ++ [node]) cs'.
Proof.
  assert (f64_eq (weight node) f64_zero = false -> active node = true) as Hact
    by (rewrite Hactive by done; by destruct (active node)).
  assert (length cs <= total) as Hlen by apply Hsd.
  intros Hs. destruct Hs as [Hz|Hz Hadm|Hz Hadm Hlt|i w Hz Hadm Hfull Hi Hw Hlt|w Hz Hadm Hfull Hw Hle
    |i w Hz Hadm Hi Hw Hlt|w Hz Hadm Hw Hle|Hz Hadm Hnone];
    change (candidate sc node (group_key c node)) with (cand node).
  - apply keep_scanned. rewrite Hactive in Hz by done. by destruct (active node).
  - by apply admit_included in Hadm.
  - apply append_scanned; auto.
  - destruct (insert_perm_delete cs i w (cand node) Hi) as (rest & Hp & Hp').
    assert (forall d, d ∈ cs -> le (cscore d) (cscore w)) as Hall.
    { intros d Hd. by eapply le_worst; [apply cs_D|..]. }
    apply (swap_scanned _ rest w); [auto|done..|by right|].
    apply blocked_total; [by rewrite length_insert, Hfull|]. intros d. rewrite Hp'.
    intros [->|Hd]%elem_of_cons; [|apply Hall; rewrite Hp; by right].
    apply le_of_lt; [apply Hscores; auto|apply cs_D, Hw|done].
  - apply keep_scanned. intros Ha. apply blocked_total; [lia|]. intros d Hd.
    assert (D (cscore w)) by apply cs_D, Hw. assert (D (sc node)) by auto.
    apply (le_trans _ (cscore w)); [by apply cs_D|done|done| |by apply le_of_le].
    by eapply le_worst; [apply cs_D|..].
  - destruct (insert_perm_delete cs i w (cand node) Hi) as (rest & Hp & Hp').
    pose proof Hw as (Hwin & Hwg & _).
    apply (swap_scanned _ rest w); [auto|done..|by left|].
    destruct (admit_constrained _ _ Hnode Hadm) as (max & Hc & Hm).
    apply (blocked_group _ w max); [by rewrite Hwg| |].
    + rewrite Hp', group_count_cons. rewrite Hp, group_count_cons in Hm.
      cbn [cgroup candidate cand]. rewrite Hwg in *. lia.
    + intros d. rewrite Hp'. intros [->|Hd]%elem_of_cons Hg.
      * apply le_of_lt; [apply Hscores; auto|by apply cs_D|done].
      * eapply (le_worst cs); [apply cs_D|exact Hw|rewrite Hp; by right|congruence].
  - apply keep_scanned. intros Ha. pose proof Hw as (Hwin & Hwg & _).
    destruct (admit_constrained _ _ Hnode Hadm) as (max & Hc & Hm).
    apply (blocked_group _ _ max); [done|done|]. intros d Hd Hg.
    assert (D (cscore w)) by by apply cs_D. assert (D (sc node)) by auto.
    apply (le_trans _ (cscore w)); [by apply cs_D|done|done| |by apply le_of_le].
    by eapply le_worst; [apply cs_D|..].
  - apply keep_scanned. intros Ha.
    destruct (admit_constrained _ _ Hnode Hadm) as (max & Hc & Hm).
    apply (blocked_group _ _ max); [done|done|]. intros d Hd Hg.
    apply le_neg_infinity; [by apply cs_D|by apply Hscores|by apply Hnone].
Qed.
End preserve.

Lemma scan_scanned l cs :
  (forall n, n ∈ l -> n ∈ ns) -> NoDup (id <$> l) ->
  scan total (admission c) sc ((fun n => (n, group_key c n)) <$> l) cs -> scanned l cs.
Proof.
  revert cs. induction l as [|n l IH] using rev_ind; intros cs Hin Hnd Hs.
  - inversion Hs as [|? ? ? ? ? ? ? Heq]; [|by apply app_eq_nil in Heq as [_ ?]].
    split; [simpl; lia|by intros x ?%not_elem_of_nil|constructor|intros k max _; apply Nat.le_0_l|].
    by intros x (n & ?%not_elem_of_nil & _).
  - rewrite fmap_app in Hs. rewrite fmap_app in Hnd. apply list.NoDup_app in Hnd as (Hnd & Hfresh & _).
    inversion Hs as [Heq|l' cs0 node gk cs1 Hs0 Hstep Heq].
    { symmetry in Heq. by apply app_eq_nil in Heq as [_ ?]. }
    apply app_inj_tail in Heq as [-> Heq]. injection Heq as -> ->. subst cs1.
    apply (step_scanned l cs0 n).
    + intros m Hm. apply Hin, elem_of_app. by left.
    + apply Hin, elem_of_app. right. left.
    + intros Hid. apply (Hfresh (id n) Hid). left.
    + apply IH; [intros m Hm; apply Hin, elem_of_app; by left|done|done].
    + done.
Qed.

(** A set of nodes that may be chosen together *)
Definition feasible (l : list NodeInfo) (S : list Candidate) : Prop :=
  NoDup S /\ (forall x, x ∈ S -> eligible l x) /\ length S <= total /\ within_caps S.

(** No choice has more nodes with score at most [x]. *)
Lemma scanned_dominates l cs S x :
  (forall n, n ∈ l -> n ∈ ns) -> scanned l cs -> feasible l S -> D x ->
  length (below x S) <= length (below x cs).
Proof.
  intros Hl [H1 H2 H3 H4 H5] (Hnd & Hel & Hlen & Hcaps) Hx.
  destruct (decide (total <= length (below x cs))) as [Ht|Ht].
  { pose proof (length_filter (fun d => le (cscore d) x) S). unfold below at 1. lia. }
  apply group_domination. intros k.
  destruct (decide (Forall (fun d => d ∈ cs) (filter (fun d => cgroup d = k) (below x S))))
    as [Hall|Hex].
  - rewrite list.Forall_forall in Hall. unfold group_count. apply submseteq_length, NoDup_submseteq.
    + by apply list.NoDup_filter, list.NoDup_filter.
    + intros d Hd. pose proof (Hall d Hd) as Hin.
      apply list_elem_of_filter in Hd as [Hg Hd]. apply list_elem_of_filter in Hd as [Hle _].
      apply list_elem_of_filter. split; [done|]. by apply list_elem_of_filter.
  - apply not_Forall_Exists, list.Exists_exists in Hex as (d & Hd & Hout); [|apply _].
    apply list_elem_of_filter in Hd as [<- Hd]. apply list_elem_of_filter in Hd as [Hle Hin].
    assert (D (cscore d)) as HDd by (eapply eligible_D; [exact Hl|by apply Hel]).
    assert (below (cscore d) cs ⊆+ below x cs) as Hsub.
    { apply below_mono; [|done..]. intros e He. eapply eligible_D; [exact Hl|by apply H2]. }
    destruct (H5 d (Hel d Hin)) as [?|[(max & Hc & Hm)|Htot]]; [done| |].
    + specialize (Hcaps _ _ Hc).
      assert (group_count (below x S) (cgroup d) <= group_count S (cgroup d)).
      { apply group_count_submseteq. apply sublist_submseteq, sublist_filter. }
      pose proof (group_count_submseteq _ _ (cgroup d) Hsub). lia.
    + apply submseteq_length in Hsub. lia.
Qed.

End matroid.

(** ** Placements *)

(** Nodes that may hold the shards of one stripe together *)
Definition choice (map : ClusterMap) (c : PlacementConstraint) `{!PartitionMatroid c map}
    (S : list NodeInfo) : Prop :=
  NoDup (id <$> S) /\ (forall n, n ∈ S -> n ∈ map /\ active n = true) /\
  forall k max, cap k = Some max -> length (filter (fun n => group_key c n = k) S) <= max.

Section chosen.
Context (map : ClusterMap) (c : PlacementConstraint) `{!PartitionMatroid c map}.
Context (sc : NodeInfo -> f64) (total : nat).
Let cand node := candidate sc node (group_key c node).

Lemma group_count_cand (S : list NodeInfo) k :
  group_count (cand <$> S) k = length (filter (fun n => group_key c n = k) S).
Proof.
  induction S as [|n S IH]; [done|]. rewrite fmap_cons, group_count_cons, IH, filter_cons.
  cbn [cgroup cand candidate]. by destruct (decide (group_key c n = k)).
Qed.

Lemma choice_feasible S :
  choice map c S -> length S <= total -> feasible total c map sc map (cand <$> S).
Proof.
  intros (Hnd & Hin & Hcap) Hlen. split; [|split; [|split]].
  - apply (NoDup_fmap_1 node_id). by rewrite <-list_fmap_compose.
  - intros x (n & -> & Hn)%list_elem_of_fmap. destruct (Hin n Hn) as [? ?]. by exists n.
  - by rewrite length_fmap.
  - intros k max Hk. rewrite group_count_cand. by apply Hcap.
Qed.

Lemma eligible_nodes (l : list NodeInfo) (cs : list Candidate) :
  (forall x, x ∈ cs -> eligible c sc l x) ->
  exists S : list NodeInfo, cs = cand <$> S /\ forall n, n ∈ S -> n ∈ l /\ active n = true.
Proof.
  induction cs as [|x cs IH]; intros H; [exists []; split; [done|by intros n ?%not_elem_of_nil]|].
  destruct (H x) as (n & Hn & Ha & ->); [left|].
  destruct IH as (S & -> & HS); [intros; apply H; by right|].
  exists (n :: S). split; [done|]. intros m [->|?]%elem_of_cons; auto.
Qed.

Lemma below_nodes (le : f64 -> f64 -> Prop) `{!RelDecision le} x (S : list NodeInfo) :
  length (filter (fun d => le (cscore d) x) (cand <$> S)) =
  length (filter (fun n => le (sc n) x) S).
Proof.
  induction S as [|n S IH]; [done|]. rewrite fmap_cons, !filter_cons.
  cbn [cscore cand candidate]. destruct (decide (le (sc n) x)); simpl; by rewrite IH.
Qed.

Lemma choice_take S n : choice map c S -> choice map c (take n S).
Proof.
  intros (Hnd & Hin & Hcap). split; [|split].
  - rewrite fmap_take. by eapply sublist_NoDup, sublist_take.
  - intros m (i & Hm & _)%elem_of_take. by eapply Hin, list_elem_of_lookup_2.
  - intros k max Hk. etrans; [|by apply Hcap]. apply sublist_length.
    rewrite <-(take_drop n S) at 2. rewrite list.filter_app. by apply sublist_inserts_r.
Qed.

(** What the scan of the cluster leaves in the buffer: a choice of nodes, and no
    choice of at most [total] nodes has more of them below any score. *)
Lemma scan_choice D le `{!ScoreOrder D le} cs :
  cluster_ok map -> (forall n, n ∈ map -> active n = true -> D (sc n)) ->
  scan total (admission c) sc ((fun n => (n, group_key c n)) <$> map) cs ->
  exists S, cs = cand <$> S /\ choice map c S /\ length S <= total /\
    forall S' x, choice map c S' -> length S' <= total -> D x ->
      length (filter (fun n => le (sc n) x) S') <= length (filter (fun n => le (sc n) x) S).
Proof.
  intros Hok HD Hs.
  pose proof (scan_scanned total c map sc D le HD ltac:(intros; by eapply active_weight) map cs
    ltac:(done) (cluster_ok_NoDup _ Hok) Hs) as Hsd.
  destruct (eligible_nodes map cs) as (S & -> & HS); [apply Hsd|].
  exists S. split; [done|]. split; [|split].
  - split; [|split; [done|]].
    + pose proof (sd_NoDup _ _ _ _ _ _ _ _ Hsd) as Hnd. by rewrite <-list_fmap_compose in Hnd.
    + intros k max Hk. rewrite <-group_count_cand. by apply Hsd.
  - rewrite <-(length_fmap cand). apply Hsd.
  - intros S' x Hch Hlen Hx. rewrite <-!below_nodes.
    apply (scanned_dominates total c map sc D le HD map); [done|done|by apply choice_feasible|done].
Qed.
End chosen.

(** ** The engine *)

Definition run_placer (hash : list byte -> Z) (total : nat) (map : ClusterMap)
    (c : PlacementConstraint) (key : list byte) (out : list Z) : outcome PlacementError (list Z) :=
  config ← PlacementConfig_new total;
  placer ← Placer_new config map c;
  place hash placer key out.

(** The errors other than an unsatisfiable constraint *)
Definition refused_early (total : nat) (map : ClusterMap) (out : list Z) (e : PlacementError) : Prop :=
  match e with
  | InvalidTotalShards => total = 0 \/ MAX_SHARDS < total
  | TooFewNodes shards nodes =>
      shards = total /\ nodes = active_node_count map /\ nodes < total
  | OutputLengthMismatch got expected =>
      got = length out /\ expected = total /\ got ≠ expected
  | _ => False
  end.

Section engine.
Context (hash : list byte -> Z) (total : nat) (map : ClusterMap).
Context (c : PlacementConstraint) `{!PartitionMatroid c map} (key : list byte) (out : list Z).
Hypothesis Hok : cluster_ok map.
Let sc := score_of hash key.

Lemma run_placer_wp D le `{!ScoreOrder D le} :
  (forall n, n ∈ map -> active n = true -> D (sc n)) ->
  let best (S : list NodeInfo) := forall S' x, choice map c S' -> length S' <= total -> D x ->
    length (filter (fun n => le (sc n) x) S') <= length (filter (fun n => le (sc n) x) S) in
  wp (run_placer hash total map c key out)
    (fun ids => exists S, choice map c S /\ length S = total /\ ids = id <$> S /\ best S)
    (fun e => refused_early total map out e \/
       exists S, choice map c S /\ length S < total /\
         e = ConstraintUnsatisfiable total (length S) /\ best S).
Proof.
  intros HD best. unfold run_placer, PlacementConfig_new, Placer_new, PlacementConfig_validate,
    validate_total_shards.
  apply wp_bind, wp_bind, wp_guard; [|intros H%bool_decide_eq_true; by left].
  intros Hv%bool_decide_eq_false. apply wp_ret. simpl.
  apply wp_bind, wp_bind, wp_bind, wp_guard; [|intros H%bool_decide_eq_true; tauto].
  intros _. apply wp_ret. simpl.
  apply wp_bind, wp_guard; [|intros H%bool_decide_eq_true; by left]. intros Hact%bool_decide_eq_false.
  apply wp_ret. unfold place. simpl. apply wp_bind, wp_guard; [|intros H%bool_decide_eq_true; by left].
  intros Hout%bool_decide_eq_false%dec_stable.
  eapply wp_bind_returns.
  { apply (place_scan hash); simpl. unfold MAX_SHARDS in *. lia. }
  simpl. intros st (cs & [Hl Hn Ht Hb Hgc] & Hs). fold sc in Hs.
  destruct (scan_choice map c sc total D le cs Hok HD Hs) as (S & -> & Hch & HSl & Hbest).
  rewrite length_fmap in *. rewrite Hn. apply wp_bind, wp_guard.
  - intros Hfull%bool_decide_eq_false. apply wp_ret. exists S.
    assert (length S = total) as HSt by lia. split; [done|]. split; [done|]. split; [|done].
    rewrite <-HSt at 1. rewrite Ht. clear -Hout HSt.
    rewrite <-HSt in Hout. revert out Hout. clear. induction S as [|n S IH]; intros [|o out] Hl;
      simplify_eq/=; [done|]. f_equal. by apply IH.
  - intros Hfull%bool_decide_eq_true. right. by exists S.
Qed.
End engine.

(** C6: Placement is sound and complete.  With a partition constraint over a
    well-formed cluster, and whatever the hash is, [place]
    returns the ids of [total] distinct active nodes that respect every group's
    capacity.  It fails only with the errors for a bad shard count, too few
    active nodes or a wrong output length, or because no [total] nodes satisfy
    the constraint; then [filled] is the size of a largest choice.  It never
    panics. *)
Theorem place_sound_complete hash total map c `{!PartitionMatroid c map} key out :
  cluster_ok map ->
  wp (run_placer hash total map c key out)
    (fun ids => exists S, choice map c S /\ length S = total /\ ids = id <$> S)
    (fun e => refused_early total map out e \/
       exists filled, e = ConstraintUnsatisfiable total filled /\ filled < total /\
         (exists S, choice map c S /\ length S = filled) /\
         forall S, choice map c S -> length S <= filled).
Proof.
  intros Hok.
  eapply wp_mono;
    [by apply (run_placer_wp hash total map c key out Hok (fun _ => True) (fun _ _ => True))| |].
  - intros ids (S & Hch & Hl & -> & _). by exists S.
  - intros e [He|(S & Hch & Hl & -> & Hbest)]; [by left|right]. exists (length S).
    split; [done|]. split; [done|]. split; [by exists S|]. intros S' Hch'.
    assert (forall L : list NodeInfo, length (filter (fun _ => True) L) = length L) as Hall.
    { intros L. induction L as [|n L IH]; [done|]. rewrite filter_cons_True by done. simpl. by rewrite IH. }
    specialize (Hbest (take total S') f64_zero (choice_take map c S' total Hch')
      ltac:(rewrite length_take; lia) I). rewrite !Hall, length_take in Hbest. lia.
Qed.

(** The scores that occur are numbers. *)
Lemma scores_numbers hash key map n :
  cluster_ok map -> n ∈ map -> active n = true -> is_nan (score_of hash key n) = false.
Proof.
  intros [_ Hw] Hn Ha. unfold score_of. apply f64_div_number; [|by apply Hw|done].
  destruct (log_u53_eq _ (LogProps.from_hash_range _ (hash_bytes_range hash (key ++ le_split 4 (id n))))) as [_ Hl].
  by destruct (log_u53 _).
Qed.

(** C7: Placement is optimal.  Whatever the hash, the nodes that [place] chooses
    dominate every other choice of at most [total] nodes: for each score bound, no choice has more nodes whose score
    is at most the bound.  So the scores of the chosen nodes, sorted, are
    pointwise minimal. *)
Theorem place_optimal hash total map c `{!PartitionMatroid c map} key out ids :
  cluster_ok map ->
  run_placer hash total map c key out = Ok ids ->
  let sc := score_of hash key in
  exists S, choice map c S /\ ids = id <$> S /\
    forall S' x, choice map c S' -> length S' <= total -> is_nan x = false ->
      length (filter (fun n => f64_le (sc n) x) S') <= length (filter (fun n => f64_le (sc n) x) S).
Proof.
  intros Hok Hrun sc.
  pose proof (run_placer_wp hash total map c key out Hok (fun a => is_nan a = false) f64_le
    ltac:(intros n; by apply scores_numbers)) as Hw.
  rewrite Hrun in Hw. destruct Hw as (S & Hch & _ & -> & Hbest). by exists S.
Qed.

(** Level caps.  With [level_cap l max] no value of level [l] holds more than
    [max] of the shards. *)
Theorem level_cap_respected hash total map l max key out ids :
  cluster_ok map -> u32_locations map ->
  run_placer hash total map (level_cap l max) key out = Ok ids ->
  exists S, ids = id <$> S /\ NoDup ids /\ length ids = total /\
    (forall n, n ∈ S -> n ∈ map /\ active n = true) /\
    forall v, length (filter (fun n => level (location n) l = Some v) S) <= max.
Proof.
  intros Hok Hu32 Hrun.
  pose proof (run_placer_wp (PartitionMatroid0 := level_cap_matroid l max map Hu32) hash total map
    (level_cap l max) key out Hok (fun _ => True) (fun _ _ => True) ltac:(done)) as Hw.
  rewrite Hrun in Hw. destruct Hw as (S & (Hnd & Hin & Hcap) & Hl & -> & _).
  exists S. split; [done|]. split; [done|]. split; [by rewrite length_fmap|]. split; [done|].
  intros v. destruct (filter (fun n => level (location n) l = Some v) S) as [|n0 rest] eqn:Hf;
    [simpl; lia|]. rewrite <-Hf.
  assert (n0 ∈ filter (fun n => level (location n) l = Some v) S) as Hn0 by (rewrite Hf; left).
  apply list_elem_of_filter in Hn0 as [Hlv Hn0]. pose proof (Hu32 n0 l v ltac:(by apply Hin) Hlv) as Hv.
  specialize (Hcap v max). cbn [cap level_cap_matroid] in Hcap.
  rewrite decide_False in Hcap by (unfold U64_MAX; lia). specialize (Hcap eq_refl).
  etrans; [|exact Hcap]. apply length_filter_mono. intros n _ Hn. simpl. by rewrite Hn.
Qed.

(** ** A concrete cluster *)

Definition one : f64 := S754_finite false 4503599627370496 (-52).
Definition node_at (i r : Z) : NodeInfo := {| id := i; location := rack r; weight := one |}.

(** Four nodes in two racks *)
Definition small_map : ClusterMap := [node_at 1 0; node_at 2 0; node_at 3 0; node_at 4 1].

(** A hash that depends on the node id *)
Definition small_hash (data : list byte) : Z :=
  (byte.unsigned (nth (length data - 4) data Byte.x00) * 7 mod 5 * 2 ^ 60)%Z.

Lemma small_map_ok : cluster_ok small_map.
Proof.
  split.
  - repeat constructor; unfold lt_key; simpl; lia.
  - intros n Hn. unfold small_map in Hn. rewrite !elem_of_cons, elem_of_nil in Hn.
    split; destruct Hn as [->|[->|[->|[->|[]]]]]; reflexivity.
Qed.

Lemma small_map_u32 : u32_locations small_map.
Proof.
  intros n l v Hn. unfold small_map in Hn. rewrite !elem_of_cons, elem_of_nil in Hn.
  destruct Hn as [->|[->|[->|[->|[]]]]]; simpl; case_decide; intros [= <-]; lia.
Qed.

#[global] Instance small_matroid : PartitionMatroid (rack_cap 1) small_map :=
  level_cap_matroid RACK 1 small_map small_map_u32.

Lemma place_sound_complete_witness :
  wp (run_placer small_hash 3 small_map (rack_cap 1) [Byte.x61] [0; 0; 0]%Z)
    (fun ids => exists S, choice small_map (rack_cap 1) S /\ length S = 3 /\ ids = id <$> S)
    (fun e => refused_early 3 small_map [0; 0; 0]%Z e \/
       exists filled, e = ConstraintUnsatisfiable 3 filled /\ filled < 3 /\
         (exists S, choice small_map (rack_cap 1) S /\ length S = filled) /\
         forall S, choice small_map (rack_cap 1) S -> length S <= filled).
Proof.
  apply (place_sound_complete small_hash 3 small_map (rack_cap 1)). exact small_map_ok.
Defined.

Lemma place_optimal_witness :
  let sc := score_of small_hash [Byte.x61] in
  run_placer small_hash 2 small_map (rack_cap 1) [Byte.x61] [0; 0]%Z = Ok [2; 4]%Z /\
  exists S, choice small_map (rack_cap 1) S /\ [2; 4]%Z = id <$> S /\
    forall S' x, choice small_map (rack_cap 1) S' -> length S' <= 2 -> is_nan x = false ->
      length (filter (fun n => f64_le (sc n) x) S') <= length (filter (fun n => f64_le (sc n) x) S).
Proof.
  assert (run_placer small_hash 2 small_map (rack_cap 1) [Byte.x61] [0; 0]%Z =
    Ok [2; 4]%Z) as Hrun by (vm_compute; reflexivity).
  split; [exact Hrun|].
  apply (place_optimal small_hash 2 small_map (rack_cap 1) [Byte.x61] [0; 0]%Z);
    [exact small_map_ok|exact Hrun].
Defined.

Lemma level_cap_respected_witness :
  exists S, [2; 4]%Z = id <$> S /\ NoDup [2; 4]%Z /\ length [2; 4]%Z = 2 /\
    (forall n, n ∈ S -> n ∈ small_map /\ active n = true) /\
    forall v, length (filter (fun n => level (location n) RACK = Some v) S) <= 1.
Proof.
  apply (level_cap_respected small_hash 2 small_map RACK 1 [Byte.x61] [0; 0]%Z);
    [exact small_map_ok|exact small_map_u32|vm_compute; reflexivity].
Defined.

End Placer.
