(* ===== verification/Crc.v ===== *)
(** Table-driven CRCs: what [crates/checksum/src/crc64.rs], [crc32.rs] and
    [crc32c.rs] share.  A section over the width and the reflected polynomial
    holds the table construction, the GF(2) matrices and [combine]; the
    reference is the bit-at-a-time register.  The lemmas: the register step is
    linear, table [k] is [k + 1] byte steps, a block of table reads is a run of
    byte steps, and [combine] applies the zero-byte operator. *)

From Stdlib Require Import Btauto.
From coqutil Require Import Word.LittleEndianList.
From S2P Require Import Prelude.

Module Crc.

(** ** Bits of integers *)

(** Equality of integers bit by bit, with the bits of the operands *)
Ltac zbits :=
  apply Z.bits_inj'; let n := fresh "n" in let Hn := fresh "Hn" in intros n Hn;
  repeat first [rewrite Z.lxor_spec | rewrite Z.land_spec | rewrite Z.lor_spec | rewrite Z.bits_0];
  try btauto.

Lemma lxor_cancel_r a b : Z.lxor (Z.lxor a b) b = a.
Proof. by rewrite Z.lxor_assoc, Z.lxor_nilpotent, Z.lxor_0_r. Qed.

Section crc.

(** The width in bits and the reflected polynomial *)
Context (w : Z) (POLY : Z).

(** ** The code *)

(** [crc & 1 != 0] selects the reduction. *)
Definition crc_bit (crc : Z) : Z :=
  if negb (Z.land crc 1 =? 0)%Z then Z.lxor (Z.shiftr crc 1) POLY else Z.shiftr crc 1.

Definition table0_entry (i : nat) : Z := Nat.iter 8 crc_bit (Z.of_nat i).

Definition table0 : list Z := table0_entry <$> seq 0 256.

(** Row [table_idx] from row [table_idx - 1] *)
Definition next_table {E} (prev : list Z) : outcome E (list Z) :=
  foldM (fun row crc =>
    t ← idx table0 (Z.to_nat (Z.land crc 255));
    mret (row ++ [Z.lxor t (Z.shiftr crc 8)])) [] prev.

Definition build_tables {E} : outcome E (list (list Z)) :=
  for_range 1 16 [table0] (fun tables table_idx =>
    prev ← idx tables (table_idx - 1);
    row ← next_table prev;
    mret (tables ++ [row])).

(** [TABLES[k1][b1] ^ TABLES[k2][b2] ^ ...] *)
Definition xor_tables {E} (tables : list (list Z)) (reads : list (nat * Z)) : outcome E Z :=
  foldM (fun acc '(k, b) =>
    row ← idx tables k;
    t ← idx row (Z.to_nat b);
    mret (Z.lxor acc t)) 0%Z reads.

(** [for &byte in remaining { state = TABLES[0][(state as u8 ^ byte)] ^ (state >> 8) }] *)
Definition update_bytes {E} (tables : list (list Z)) (state : Z) (remaining : list byte) :
    outcome E Z :=
  foldM (fun state b =>
    t ← xor_tables tables [(0, Z.lxor (Z.land state 255) (byte.unsigned b))];
    mret (Z.lxor t (Z.shiftr state 8))) state remaining.

(** [while vec != 0 { if vec & 1 != 0 { result ^= mat[i] } vec >>= 1; i += 1 }] *)
Fixpoint matrix_times_loop {E} (fuel : nat) (mat : list Z) (vec : Z) (i : nat) (result : Z) :
    outcome E Z :=
  match fuel with
  | O => mret result
  | S fuel =>
      if (vec =? 0)%Z then mret result
      else
        result ← (if negb (Z.land vec 1 =? 0)%Z
                  then m ← idx mat i; mret (Z.lxor result m)
                  else mret result);
        matrix_times_loop fuel mat (Z.shiftr vec 1) (i + 1) result
  end.

Definition gf2_matrix_times {E} (mat : list Z) (vec : Z) : outcome E Z :=
  matrix_times_loop (Z.to_nat w + 1) mat vec 0 0.

Definition gf2_matrix_square {E} (square mat : list Z) : outcome E (list Z) :=
  for_range 0 (Z.to_nat w) square (fun square i =>
    m ← idx mat i;
    x ← gf2_matrix_times mat m;
    upd square i x).

(** [odd]: the operator for one zero bit *)
Definition odd_init {E} : outcome E (list Z) :=
  odd ← upd (replicate (Z.to_nat w) 0%Z) 0 POLY;
  for_range 1 (Z.to_nat w) odd (fun odd i => upd odd i (Z.shiftl 1 (Z.of_nat i - 1))).

(** The loop of [combine]: two turns of one body, with [even] and [odd] swapped *)
Fixpoint combine_loop {E} (fuel : nat) (even odd : list Z) (crc n : Z) : outcome E Z :=
  match fuel with
  | O => mret crc
  | S fuel =>
      even ← gf2_matrix_square even odd;
      crc ← (if negb (Z.land n 1 =? 0)%Z then gf2_matrix_times even crc else mret crc);
      let n := Z.shiftr n 1 in
      if (n =? 0)%Z then mret crc
      else
        odd ← gf2_matrix_square odd even;
        crc ← (if negb (Z.land n 1 =? 0)%Z then gf2_matrix_times odd crc else mret crc);
        let n := Z.shiftr n 1 in
        if (n =? 0)%Z then mret crc else combine_loop fuel even odd crc n
  end.

Definition combine {E} (crc_a crc_b len_b : Z) : outcome E Z :=
  if (len_b =? 0)%Z then mret crc_a
  else
    let even := replicate (Z.to_nat w) 0%Z in
    odd ← odd_init;
    even ← gf2_matrix_square even odd;
    odd ← gf2_matrix_square odd even;
    crc ← combine_loop 32 even odd crc_a len_b;
    mret (Z.lxor crc crc_b).

(** ** The reference *)

(** One byte step of the register, and a run of them *)
Definition crc_byte (x : Z) : Z := Nat.iter 8 crc_bit x.
Definition shift (n : nat) (x : Z) : Z := Nat.iter n crc_byte x.
Definition crc_bytes (state : Z) (data : list byte) : Z :=
  foldl (fun s b => crc_byte (Z.lxor s (byte.unsigned b))) state data.

Definition word (x : Z) : Prop := (0 <= x < 2 ^ w)%Z.

(** ** The register step *)

Lemma low_bit x : negb (Z.land x 1 =? 0)%Z = Z.testbit x 0.
Proof.
  change 1%Z with (Z.ones 1). rewrite Z.land_ones, Z.bit0_odd by lia. change (2 ^ 1)%Z with 2%Z.
  rewrite Zmod_odd. by destruct (Z.odd x).
Qed.

Lemma crc_bit_lxor a b : crc_bit (Z.lxor a b) = Z.lxor (crc_bit a) (crc_bit b).
Proof.
  unfold crc_bit. rewrite !low_bit, Z.lxor_spec, Z.shiftr_lxor.
  destruct (Z.testbit a 0), (Z.testbit b 0); simpl; zbits.
Qed.

Lemma crc_bit_double x : crc_bit (Z.shiftl x 1) = x.
Proof.
  unfold crc_bit. rewrite low_bit, Z.shiftl_spec_low by lia.
  by rewrite Z.shiftr_shiftl_l, Z.shiftl_0_r by lia.
Qed.

Lemma crc_bit_0 : crc_bit 0 = 0%Z.
Proof. reflexivity. Qed.

(** Anything iterated from a linear step is linear. *)
Definition linear (f : Z -> Z) : Prop := forall a b, f (Z.lxor a b) = Z.lxor (f a) (f b).

Lemma linear_iter f n : linear f -> linear (Nat.iter n f).
Proof.
  intros Hf. induction n as [|n IH]; intros a b; [done|]. simpl. by rewrite IH, Hf.
Qed.

Lemma linear_0 f : linear f -> f 0%Z = 0%Z.
Proof.
  intros Hf. specialize (Hf 0%Z 0%Z). rewrite Z.lxor_0_l in Hf.
  rewrite Hf. apply Z.lxor_nilpotent.
Qed.

Lemma crc_byte_linear : linear crc_byte.
Proof. apply linear_iter. intros a b. apply crc_bit_lxor. Qed.

Lemma shift_linear n : linear (shift n).
Proof. apply linear_iter, crc_byte_linear. Qed.

Lemma iter_bit_shiftl n x : Nat.iter n crc_bit (Z.shiftl x (Z.of_nat n)) = x.
Proof.
  revert x. induction n as [|n IH]; intros x; [by rewrite Z.shiftl_0_r|].
  rewrite Nat.iter_succ_r.
  replace (Z.of_nat (S n)) with (Z.of_nat n + 1)%Z by lia.
  by rewrite <-Z.shiftl_shiftl, crc_bit_double by lia.
Qed.

Lemma crc_byte_shiftl x : crc_byte (Z.shiftl x 8) = x.
Proof. apply (iter_bit_shiftl 8). Qed.

Lemma split_low x k : (0 <= k)%Z -> x = Z.lxor (Z.land x (Z.ones k)) (Z.shiftl (Z.shiftr x k) k).
Proof.
  intros Hk. zbits. destruct (Z.lt_ge_cases n k).
  - rewrite Z.ones_spec_low, Z.shiftl_spec_low by lia. btauto.
  - rewrite Z.ones_spec_high, Z.shiftl_spec, Z.shiftr_spec by lia.
    replace (n - k + k)%Z with n by lia. btauto.
Qed.

(** The byte step through its low byte: what the tables compute *)
Lemma crc_byte_low x : crc_byte x = Z.lxor (crc_byte (Z.land x 255)) (Z.shiftr x 8).
Proof.
  rewrite (split_low x 8) at 1 by lia. rewrite crc_byte_linear, crc_byte_shiftl. done.
Qed.

Lemma shift_S n x : shift (S n) x = crc_byte (shift n x).
Proof. done. Qed.

Lemma shift_S_r n x : shift (S n) x = shift n (crc_byte x).
Proof. apply Nat.iter_succ_r. Qed.

Lemma shift_add n m x : shift (n + m) x = shift n (shift m x).
Proof. apply Nat.iter_add. Qed.

(** A word moved up by a byte saves a step. *)
Lemma shift_shiftl n x : shift (S n) (Z.shiftl x 8) = shift n x.
Proof. by rewrite shift_S_r, crc_byte_shiftl. Qed.

(** ** Widths *)

Section width.
Hypothesis Hw : (8 <= w)%Z.
Hypothesis HPOLY : word POLY.

Lemma word_bits x : word x <-> (0 <= x)%Z /\ forall n, (w <= n)%Z -> Z.testbit x n = false.
Proof.
  unfold word. split.
  - intros [H0 H1]. split; [done|]. intros n Hn. destruct (decide (x = 0)%Z) as [->|]; [apply Z.bits_0|].
    apply Z.bits_above_log2; [done|]. apply Z.log2_lt_pow2 in H1; lia.
  - intros [H0 H1]. split; [done|]. destruct (decide (x = 0)%Z) as [->|]; [lia|].
    apply Z.log2_lt_pow2; [lia|]. destruct (Z.lt_ge_cases (Z.log2 x) w) as [|Hge]; [done|].
    specialize (H1 _ Hge). rewrite Z.bit_log2 in H1 by lia. done.
Qed.

Lemma word_lxor a b : word a -> word b -> word (Z.lxor a b).
Proof.
  rewrite !word_bits. intros [Ha Ha'] [Hb Hb']. split; [by apply Z.lxor_nonneg|].
  intros n Hn. by rewrite Z.lxor_spec, Ha', Hb'.
Qed.

Lemma word_shiftr a k : (0 <= k)%Z -> word a -> word (Z.shiftr a k).
Proof.
  rewrite !word_bits. intros Hk [Ha Ha']. split; [by apply Z.shiftr_nonneg|].
  intros n Hn. rewrite Z.shiftr_spec by lia. apply Ha'. lia.
Qed.

Lemma word_crc_bit x : word x -> word (crc_bit x).
Proof.
  intros Hx. unfold crc_bit. destruct (negb _); [apply word_lxor|]; auto using word_shiftr with lia.
Qed.

Lemma word_iter_bit n x : word x -> word (Nat.iter n crc_bit x).
Proof. intros Hx. induction n; simpl; auto using word_crc_bit. Qed.

Lemma word_shift n x : word x -> word (shift n x).
Proof. intros Hx. induction n; simpl; [done|]. by apply word_iter_bit. Qed.

Lemma word_byte x : (0 <= x < 256)%Z -> word x.
Proof. intros H. unfold word. pose proof (Z.pow_le_mono_r 2 8 w ltac:(lia) ltac:(lia)). lia. Qed.

Lemma word_crc_bytes s data : word s -> word (crc_bytes s data).
Proof.
  revert s. induction data as [|b data IH]; intros s Hs; [done|]. simpl. apply IH.
  apply word_iter_bit, word_lxor; [done|]. apply word_byte, byte.unsigned_range.
Qed.

End width.

(** ** The tables *)

Lemma land_255 x : (0 <= Z.land x 255 < 256)%Z.
Proof. change 255%Z with (Z.ones 8). rewrite Z.land_ones by lia. apply Z.mod_pos_bound. lia. Qed.

Lemma land_255_small x : (0 <= x < 256)%Z -> Z.land x 255 = x.
Proof. intros H. change 255%Z with (Z.ones 8). rewrite Z.land_ones by lia. apply Z.mod_small. lia. Qed.

Lemma shiftr_small x : (0 <= x < 256)%Z -> Z.shiftr x 8 = 0%Z.
Proof. intros H. rewrite Z.shiftr_div_pow2 by lia. apply Z.div_small. lia. Qed.

Lemma table0_idx {E} x :
  (0 <= x < 256)%Z -> idx (E:=E) table0 (Z.to_nat x) = Ok (crc_byte x).
Proof.
  intros Hx. apply idx_Ok. unfold table0. rewrite list_lookup_fmap, lookup_seq_lt by lia.
  simpl. unfold table0_entry. by rewrite Z2Nat.id by lia.
Qed.

Lemma next_table_spec {E} prev : next_table (E:=E) prev = Ok (crc_byte <$> prev).
Proof.
  unfold next_table.
  enough (forall row, foldM (fun row crc =>
    t ← idx table0 (Z.to_nat (Z.land crc 255));
    mret (row ++ [Z.lxor t (Z.shiftr crc 8)])) row prev =
    Ok (row ++ (crc_byte <$> prev)) :> outcome E _) as -> by done.
  induction prev as [|c prev IH]; intros row; [by rewrite app_nil_r|].
  cbn [foldM]. rewrite table0_idx by apply land_255. bind_step.
  rewrite IH, <-crc_byte_low, <-app_assoc. done.
Qed.

(** Row [k] of the tables: [k + 1] byte steps *)
Definition table_row (k : nat) : list Z := (fun b => shift (S k) (Z.of_nat b)) <$> seq 0 256.
Definition TABLES : list (list Z) := table_row <$> seq 0 16.

Lemma table0_row : table0 = table_row 0.
Proof. apply list_fmap_ext. by intros i b _. Qed.

Lemma build_tables_spec {E} : build_tables (E:=E) = Ok TABLES.
Proof.
  enough (returns (build_tables (E:=E)) (fun t => t = TABLES)) as (t & -> & ->)%returns_Ok by done.
  unfold build_tables.
  apply (wp_for_range (fun n t => t = table_row <$> seq 0 n)); [lia| | |by intros t ->].
  { change (table_row <$> seq 0 1) with [table_row 0]. by rewrite table0_row. }
  intros i t Hi ->. apply wp_bind. apply wp_idx; [rewrite length_fmap, length_seq; lia|].
  intros prev Hp. rewrite list_lookup_fmap, lookup_seq_lt in Hp by lia. injection Hp as <-.
  rewrite next_table_spec. bind_step. apply wp_ret. rewrite seq_app, fmap_app. f_equal.
  change (table_row <$> seq (0 + i) 1) with [table_row i]. f_equal.
  unfold table_row. rewrite <-list_fmap_compose. apply list_fmap_ext. intros j b _. cbn [compose].
  rewrite <-shift_S. replace (S (i - 1)) with i by lia. reflexivity.
Qed.

Lemma table_read {E} k b :
  k < 16 -> (0 <= b < 256)%Z ->
  (row ← idx TABLES k; idx row (Z.to_nat b)) = Ok (shift (S k) b) :> outcome E Z.
Proof.
  intros Hk Hb. assert (TABLES !! k = Some (table_row k)) as H.
  { unfold TABLES. by rewrite list_lookup_fmap, lookup_seq_lt. }
  rewrite (proj2 (idx_Ok _ _ _) H). bind_step. apply idx_Ok. unfold table_row.
  rewrite list_lookup_fmap, lookup_seq_lt by lia. simpl. by rewrite Z2Nat.id by lia.
Qed.

(** The exclusive or of a list of byte steps, one for each table read *)
Definition steps (reads : list (nat * Z)) : Z :=
  foldl (fun acc '(k, b) => Z.lxor acc (shift (S k) b)) 0%Z reads.

Definition good_read (r : nat * Z) : Prop := fst r < 16 /\ (0 <= snd r < 256)%Z.

Lemma xor_tables_spec {E} reads :
  Forall good_read reads -> xor_tables (E:=E) TABLES reads = Ok (steps reads).
Proof.
  unfold xor_tables, steps. generalize 0%Z. induction reads as [|[k b] reads IH]; intros acc H; [done|].
  apply list.Forall_cons in H as [[Hk Hb] H]. cbn [foldM foldl].
  pose proof (table_read (E:=E) k b Hk Hb) as Ht.
  destruct (idx TABLES k); cbn [mbind outcome_bind] in *; [|done..]. rewrite Ht. bind_step. by apply IH.
Qed.

Lemma steps_app r1 r2 : steps (r1 ++ r2) = Z.lxor (steps r1) (steps r2).
Proof.
  unfold steps. rewrite foldl_app. generalize (foldl (fun acc '(k, b) => Z.lxor acc (shift (S k) b)) 0%Z r1).
  intros x. revert x. induction r2 as [|[k b] r2 IH] using rev_ind; intros x; simpl.
  - by rewrite Z.lxor_0_r.
  - rewrite !foldl_app. simpl. by rewrite IH, Z.lxor_assoc.
Qed.

Lemma lxor_low_byte s b :
  (0 <= b < 256)%Z ->
  Z.land (Z.lxor s b) 255 = Z.lxor (Z.land s 255) b /\ Z.shiftr (Z.lxor s b) 8 = Z.shiftr s 8.
Proof.
  intros Hb. rewrite Z.shiftr_lxor, (shiftr_small b), Z.lxor_0_r by done. split; [|done].
  transitivity (Z.lxor (Z.land s 255) (Z.land b 255)); [zbits|by rewrite (land_255_small b)].
Qed.

Lemma lxor_byte_range a b :
  (0 <= a < 256)%Z -> (0 <= b < 256)%Z -> (0 <= Z.lxor a b < 256)%Z.
Proof.
  intros Ha Hb. rewrite <-(land_255_small a), <-(land_255_small b) by done.
  replace (Z.lxor (Z.land a 255) (Z.land b 255)) with (Z.land (Z.lxor a b) 255) by zbits.
  apply land_255.
Qed.

(** The byte loop *)
Lemma update_bytes_spec {E} data : forall s,
  update_bytes (E:=E) TABLES s data = Ok (crc_bytes s data).
Proof.
  induction data as [|b data IH]; intros s; [done|]. unfold update_bytes. cbn [foldM].
  pose proof (byte.unsigned_range b) as Hb.
  rewrite xor_tables_spec.
  - bind_step.
    change (foldM _ ?x data) with (update_bytes (E:=E) TABLES x data). rewrite IH. simpl.
    do 2 f_equal. rewrite (crc_byte_low (Z.lxor s (byte.unsigned b))).
    destruct (lxor_low_byte s (byte.unsigned b) Hb) as [-> ->]. done.
  - constructor; [|constructor]. split; [simpl; lia|]. apply lxor_byte_range; [apply land_255|lia].
Qed.

(** ** Blocks of reads *)

(** The reads for the [k] bytes of [x], the first through table [n - 1] *)
Fixpoint word_reads (n k : nat) (x : Z) : list (nat * Z) :=
  match k with
  | O => []
  | S k => (n - 1, Z.land x 255) :: word_reads (n - 1) k (Z.shiftr x 8)
  end.

Lemma word_reads_good n k x : k <= n <= 16 -> Forall good_read (word_reads n k x).
Proof.
  revert n x. induction k as [|k IH]; intros n x Hn; [constructor|]. constructor; [|apply IH; lia].
  split; [simpl; lia|apply land_255].
Qed.

Lemma steps_word n k x :
  k <= n -> (0 <= x < 2 ^ (8 * Z.of_nat k))%Z -> steps (word_reads n k x) = shift n x.
Proof.
  revert n x. induction k as [|k IH]; intros n x Hn Hx.
  - replace x with 0%Z by (simpl in Hx; lia). symmetry. apply linear_0, shift_linear.
  - cbn [word_reads]. change ((n - 1, Z.land x 255) :: ?l) with ([(n - 1, Z.land x 255)] ++ l).
    rewrite steps_app, IH; [|lia|].
    + unfold steps. cbn [foldl]. rewrite Z.lxor_0_l. replace (S (n - 1)) with n by lia.
      rewrite (split_low x 8) at 3 by lia. rewrite shift_linear. f_equal.
      replace n with (S (n - 1)) at 2 by lia. by rewrite shift_shiftl.
    + rewrite Z.shiftr_div_pow2 by lia. split; [apply Z.div_pos; lia|].
      apply Z.div_lt_upper_bound; [lia|]. rewrite <-Z.pow_add_r by lia.
      replace (8 + 8 * Z.of_nat k)%Z with (8 * Z.of_nat (S k))%Z by lia. lia.
Qed.

(** The register is affine in its initial state. *)
Lemma crc_bytes_state s data :
  crc_bytes s data = Z.lxor (shift (length data) s) (crc_bytes 0 data).
Proof.
  revert s. induction data as [|b data IH]; intros s; [by rewrite Z.lxor_0_r|].
  cbn [crc_bytes foldl length]. fold (crc_bytes (crc_byte (Z.lxor s (byte.unsigned b))) data).
  fold (crc_bytes (crc_byte (Z.lxor 0 (byte.unsigned b))) data).
  rewrite IH, (IH (crc_byte (Z.lxor 0 _))), shift_S_r, crc_byte_linear, shift_linear, Z.lxor_0_l.
  by rewrite Z.lxor_assoc.
Qed.

Lemma crc_bytes_app s d1 d2 : crc_bytes s (d1 ++ d2) = crc_bytes (crc_bytes s d1) d2.
Proof. apply foldl_app. Qed.

Lemma lor_shiftl_byte b x : (0 <= b < 256)%Z -> Z.lor b (Z.shiftl x 8) = Z.lxor b (Z.shiftl x 8).
Proof.
  intros Hb. zbits. destruct (Z.lt_ge_cases n 8).
  - rewrite Z.shiftl_spec_low by lia. btauto.
  - assert (Z.testbit b n = false) as ->; [|btauto].
    destruct (decide (b = 0)%Z) as [->|]; [apply Z.bits_0|].
    apply Z.bits_above_log2; [lia|].
    assert (Z.log2 b < 8)%Z by (apply Z.log2_lt_pow2; lia). lia.
Qed.

(** Loading [data] as a little-endian word and stepping it *)
Lemma shift_le_combine n data :
  shift (n + length data) (le_combine data) = shift n (crc_bytes 0 data).
Proof.
  revert n. induction data as [|b data IH]; intros n.
  { cbn [length]. rewrite Nat.add_0_r. done. }
  change (le_combine (b :: data)) with (Z.lor (byte.unsigned b) (Z.shiftl (le_combine data) 8)).
  rewrite lor_shiftl_byte by apply byte.unsigned_range. cbn [length].
  rewrite shift_linear, Nat.add_succ_r, shift_shiftl, IH. cbn [crc_bytes foldl].
  fold (crc_bytes (crc_byte (Z.lxor 0 (byte.unsigned b))) data).
  rewrite (crc_bytes_state (crc_byte _)), Z.lxor_0_l, shift_linear. f_equal.
  by rewrite shift_S_r, shift_add.
Qed.

(** Data as one little-endian word mixed into the state *)
Lemma crc_bytes_word s data :
  crc_bytes s data = shift (length data) (Z.lxor s (le_combine data)).
Proof.
  rewrite crc_bytes_state, shift_linear. f_equal.
  change (crc_bytes 0 data) with (shift 0 (crc_bytes 0 data)). by rewrite <-shift_le_combine.
Qed.

(** A block of data mixed into the state through its first word *)
Lemma block_step s first rest :
  Z.lxor (shift (length first + length rest) (Z.lxor s (le_combine first))) (crc_bytes 0 rest) =
  crc_bytes s (first ++ rest).
Proof.
  rewrite crc_bytes_app, (crc_bytes_state (crc_bytes s first)), (crc_bytes_state s first).
  rewrite Nat.add_comm, !shift_linear, shift_le_combine, shift_add. done.
Qed.

(** ** Matrices over GF(2) *)

Section matrices.
Hypothesis Hw : (8 <= w)%Z.
Hypothesis HPOLY : word POLY.

Let wn := Z.to_nat w.

(** The columns of a linear map *)
Definition matrix_of (f : Z -> Z) : list Z := (fun i => f (2 ^ Z.of_nat i)%Z) <$> seq 0 (Z.to_nat w).

(** A linear map on words *)
Definition word_map (f : Z -> Z) : Prop := linear f /\ forall x, word x -> word (f x).

Lemma length_matrix f : length (matrix_of f) = wn.
Proof. unfold matrix_of. by rewrite length_fmap, length_seq. Qed.

Lemma matrix_lookup f i : i < wn -> matrix_of f !! i = Some (f (2 ^ Z.of_nat i)%Z).
Proof. intros Hi. unfold matrix_of. by rewrite list_lookup_fmap, lookup_seq_lt. Qed.

Lemma matrix_ext f g : (forall x, f x = g x) -> matrix_of f = matrix_of g.
Proof. intros H. apply list_fmap_ext. intros. apply H. Qed.

Lemma word_pow2 i : i < wn -> word (2 ^ Z.of_nat i)%Z.
Proof.
  intros Hi. split; [lia|]. apply Z.pow_lt_mono_r; lia.
Qed.

Lemma matrix_is mat f :
  length mat = wn -> (forall i, i < wn -> mat !! i = Some (f (2 ^ Z.of_nat i)%Z)) ->
  mat = matrix_of f.
Proof.
  intros Hl H. apply list_eq. intros i. destruct (decide (i < wn)).
  - by rewrite H, matrix_lookup.
  - by rewrite !lookup_ge_None_2 by (rewrite ?length_matrix; lia).
Qed.

Lemma shiftl_low_bit vec i :
  (0 <= i)%Z ->
  Z.shiftl vec i = Z.lxor (if Z.testbit vec 0 then 2 ^ i else 0) (Z.shiftl (Z.shiftr vec 1) (i + 1)).
Proof.
  intros Hi. zbits. destruct (Z.lt_ge_cases n i).
  { rewrite !Z.shiftl_spec_low by lia. destruct (Z.testbit vec 0).
    - rewrite Z.pow2_bits_false by lia. done.
    - by rewrite Z.bits_0. }
  rewrite !Z.shiftl_spec by lia. destruct (decide (n = i)) as [->|].
  - rewrite Z.sub_diag, (Z.testbit_neg_r _ (i - (i + 1))) by lia. rewrite xorb_false_r.
    destruct (Z.testbit vec 0); [by rewrite Z.pow2_bits_true|by rewrite Z.bits_0].
  - rewrite Z.shiftr_spec by lia. replace (n - (i + 1) + 1)%Z with (n - i)%Z by lia.
    destruct (Z.testbit vec 0); [by rewrite Z.pow2_bits_false by lia|by rewrite Z.bits_0].
Qed.

Lemma matrix_times_loop_spec {E} f : linear f -> forall k vec i result,
  i + k = wn -> (0 <= vec < 2 ^ Z.of_nat k)%Z ->
  matrix_times_loop (E:=E) (S k) (matrix_of f) vec i result =
  Ok (Z.lxor result (f (Z.shiftl vec (Z.of_nat i)))).
Proof.
  intros Hf. induction k as [|k IH]; intros vec i result Hi Hv.
  - replace vec with 0%Z by (simpl in Hv; lia).
    by rewrite Z.shiftl_0_l, (linear_0 f Hf), Z.lxor_0_r.
  - remember (S k) as k' eqn:Hk'. cbn [matrix_times_loop]. destruct (Z.eqb_spec vec 0) as [->|Hne].
    { by rewrite Z.shiftl_0_l, (linear_0 f Hf), Z.lxor_0_r. }
    rewrite low_bit, (shiftl_low_bit vec (Z.of_nat i)), Hf by lia. subst k'.
    assert (0 <= Z.shiftr vec 1 < 2 ^ Z.of_nat k)%Z as Hv'.
    { rewrite Z.shiftr_div_pow2 by lia. split; [apply Z.div_pos; lia|].
      apply Z.div_lt_upper_bound; [lia|]. rewrite <-Z.pow_add_r by lia.
      replace (1 + Z.of_nat k)%Z with (Z.of_nat (S k)) by lia. lia. }
    replace (Z.of_nat i + 1)%Z with (Z.of_nat (i + 1)) by lia.
    destruct (Z.testbit vec 0).
    + rewrite (proj2 (idx_Ok _ _ _) (matrix_lookup f i ltac:(lia))). bind_step.
      rewrite IH by (done || lia). by rewrite Z.lxor_assoc.
    + bind_step. rewrite IH by (done || lia). by rewrite (linear_0 f Hf), Z.lxor_0_l.
Qed.

Lemma gf2_matrix_times_spec {E} f x :
  linear f -> word x -> gf2_matrix_times (E:=E) (matrix_of f) x = Ok (f x).
Proof.
  intros Hf [H0 H1]. unfold gf2_matrix_times. rewrite Nat.add_1_r.
  rewrite (matrix_times_loop_spec f Hf wn); [by rewrite Z.shiftl_0_r, Z.lxor_0_l|done|].
  unfold wn. rewrite Z2Nat.id by lia. done.
Qed.

Lemma gf2_matrix_square_spec {E} f square :
  word_map f -> length square = wn ->
  gf2_matrix_square (E:=E) square (matrix_of f) = Ok (matrix_of (fun x => f (f x))).
Proof.
  intros [Hf Hfw] Hl.
  enough (returns (gf2_matrix_square (E:=E) square (matrix_of f))
    (fun m => m = matrix_of (fun x => f (f x)))) as (m & -> & ->)%returns_Ok by done.
  unfold gf2_matrix_square. fold wn.
  apply (wp_for_range (fun n m => length m = wn /\ forall i, i < n ->
    m !! i = Some (f (f (2 ^ Z.of_nat i)%Z)))); [lia|split; [done|lia]| |].
  - intros i m Hi [Hm Hlk]. rewrite (proj2 (idx_Ok _ _ _) (matrix_lookup f i ltac:(lia))). bind_step.
    rewrite gf2_matrix_times_spec by (done || apply Hfw, word_pow2; lia). bind_step.
    apply wp_upd; [lia|]. split; [by rewrite length_insert|]. intros j Hj.
    destruct (decide (j = i)) as [->|].
    + by rewrite list_lookup_insert_eq by lia.
    + rewrite list_lookup_insert_ne by done. apply Hlk. lia.
  - intros m [Hm Hlk]. by apply matrix_is.
Qed.

Lemma odd_init_spec {E} : odd_init (E:=E) = Ok (matrix_of crc_bit).
Proof.
  enough (returns (odd_init (E:=E)) (fun m => m = matrix_of crc_bit)) as (m & -> & ->)%returns_Ok
    by done.
  unfold odd_init. fold wn. rewrite upd_lt by (rewrite length_replicate; lia). bind_step.
  apply (wp_for_range (fun n m => length m = wn /\ forall i, i < n ->
    m !! i = Some (crc_bit (2 ^ Z.of_nat i)%Z))); [lia| | |].
  - split; [by rewrite length_insert, length_replicate|]. intros i Hi. replace i with 0 by lia.
    by rewrite list_lookup_insert_eq by (rewrite length_replicate; lia).
  - intros i m Hi [Hm Hlk]. apply wp_upd; [lia|]. split; [by rewrite length_insert|]. intros j Hj.
    destruct (decide (j = i)) as [->|].
    + rewrite list_lookup_insert_eq by lia. f_equal. rewrite <-(crc_bit_double (Z.shiftl 1 _)).
      f_equal. rewrite Z.shiftl_shiftl, Z.shiftl_1_l by lia. f_equal. lia.
    + rewrite list_lookup_insert_ne by done. apply Hlk. lia.
  - intros m [Hm Hlk]. by apply matrix_is.
Qed.

Lemma word_map_shift n : word_map (shift n).
Proof. split; [apply shift_linear|]. intros x. by apply word_shift. Qed.

Lemma word_map_iter n : word_map (Nat.iter n crc_bit).
Proof.
  split; [apply linear_iter; intros a b; apply crc_bit_lxor|]. intros x. by apply word_iter_bit.
Qed.

(** One turn of [combine_loop]'s body: apply the operator for [m] bytes if the
    lowest bit of [n] is set *)
Lemma combine_turn {E} m crc n :
  word crc ->
  (if negb (Z.land n 1 =? 0)%Z then gf2_matrix_times (E:=E) (matrix_of (shift m)) crc else mret crc) =
  Ok (shift (m * Z.to_nat (n mod 2)) crc).
Proof.
  intros Hcrc. rewrite low_bit, Z.bit0_odd, Zmod_odd. destruct (Z.odd n).
  - rewrite gf2_matrix_times_spec by (done || apply shift_linear). by rewrite Nat.mul_1_r.
  - by rewrite Nat.mul_0_r.
Qed.

Lemma half_bits n : (0 <= n)%Z -> Z.to_nat n = Z.to_nat (n mod 2) + 2 * Z.to_nat (Z.shiftr n 1).
Proof.
  intros Hn. rewrite Z.shiftr_div_pow2 by lia. change (2 ^ 1)%Z with 2%Z.
  pose proof (Z.div_mod n 2 ltac:(lia)). pose proof (Z.mod_pos_bound n 2 ltac:(lia)).
  pose proof (Z.div_pos n 2 ltac:(lia) ltac:(lia)). lia.
Qed.

Lemma combine_loop_spec {E} fuel : forall even odd h m crc n,
  length even = wn -> odd = matrix_of h -> word_map h -> (forall x, h (h x) = shift m x) ->
  word crc -> (0 < n < 4 ^ Z.of_nat fuel)%Z ->
  combine_loop (E:=E) fuel even odd crc n = Ok (shift (m * Z.to_nat n) crc).
Proof.
  induction fuel as [|fuel IH]; intros even odd h m crc n He -> Hh Hm Hcrc Hn; [simpl in Hn; lia|].
  cbn [combine_loop]. rewrite (gf2_matrix_square_spec h even Hh He), (matrix_ext _ _ Hm). bind_step.
  rewrite combine_turn by done. bind_step.
  pose proof (half_bits n ltac:(lia)) as Hhalf. set (n1 := Z.shiftr n 1) in *.
  assert (0 <= n1 < 2 * 4 ^ Z.of_nat fuel)%Z as Hn1.
  { unfold n1. rewrite Z.shiftr_div_pow2 by lia. change (2 ^ 1)%Z with 2%Z. split; [apply Z.div_pos; lia|].
    apply Z.div_lt_upper_bound; [lia|]. rewrite Nat2Z.inj_succ, Z.pow_succ_r in Hn by lia. lia. }
  destruct (Z.eqb_spec n1 0) as [Hz|Hnz].
  { rewrite Hz in Hhalf. simpl in Hhalf. by rewrite Hhalf, Nat.add_0_r. }
  set (crc1 := shift (m * Z.to_nat (n mod 2)) crc).
  assert (word crc1) as Hcrc1 by (by apply word_shift).
  rewrite (gf2_matrix_square_spec (shift m) (matrix_of h)) by
    (apply word_map_shift || apply length_matrix). bind_step.
  rewrite (matrix_ext (fun x => shift m (shift m x)) (shift (2 * m))) by
    (intros x; rewrite <-shift_add; f_equal; lia).
  rewrite combine_turn by done. bind_step.
  pose proof (half_bits n1 ltac:(lia)) as Hhalf1. set (n2 := Z.shiftr n1 1) in *.
  set (crc2 := shift (2 * m * Z.to_nat (n1 mod 2)) crc1).
  assert (crc2 = shift (m * (Z.to_nat (n mod 2) + 2 * Z.to_nat (n1 mod 2))) crc) as Hcrc2.
  { unfold crc2, crc1. rewrite <-shift_add. f_equal. lia. }
  destruct (Z.eqb_spec n2 0) as [Hz2|Hnz2].
  { rewrite Hz2 in Hhalf1. simpl in Hhalf1. rewrite Hcrc2, Hhalf, Hhalf1, Nat.add_0_r. done. }
  rewrite (IH _ _ (shift (2 * m)) (4 * m)).
  - rewrite Hcrc2, <-shift_add. do 2 f_equal. nia.
  - apply length_matrix.
  - done.
  - apply word_map_shift.
  - intros x. rewrite <-shift_add. f_equal. lia.
  - by apply word_shift.
  - assert (0 <= n2)%Z by (apply Z.shiftr_nonneg; lia). split; [lia|].
    unfold n2. rewrite Z.shiftr_div_pow2 by lia. change (2 ^ 1)%Z with 2%Z.
    apply Z.div_lt_upper_bound; lia.
Qed.

Lemma combine_spec {E} crc_a crc_b len_b :
  word crc_a -> (0 <= len_b < 2 ^ 64)%Z ->
  combine (E:=E) crc_a crc_b len_b =
  Ok (if (len_b =? 0)%Z then crc_a else Z.lxor (shift (Z.to_nat len_b) crc_a) crc_b).
Proof.
  intros Ha Hl. unfold combine. destruct (Z.eqb_spec len_b 0); [done|].
  rewrite odd_init_spec. bind_step.
  rewrite (gf2_matrix_square_spec crc_bit) by
    (apply (word_map_iter 1) || (rewrite length_replicate; done)). bind_step.
  rewrite (matrix_ext (fun x => crc_bit (crc_bit x)) (Nat.iter 2 crc_bit)) by done.
  rewrite (gf2_matrix_square_spec (Nat.iter 2 crc_bit)) by
    (apply word_map_iter || apply length_matrix). bind_step.
  rewrite (combine_loop_spec 32 _ _ (Nat.iter 4 crc_bit) 1); [|apply length_matrix|done|
    apply word_map_iter|done|done|].
  - bind_step. by rewrite Nat.mul_1_l.
  - change (4 ^ Z.of_nat 32)%Z with (2 ^ 64)%Z. lia.
Qed.

(** ** The finished checksum *)

Definition ones : Z := (2 ^ w - 1)%Z.

(** [!x] *)
Definition crc_not (x : Z) : Z := Z.lxor x ones.

(** The checksum of [data] continued from the checksum [crc] *)
Definition crc_extend (crc : Z) (data : list byte) : Z := crc_not (crc_bytes (crc_not crc) data).

Lemma word_ones : word ones.
Proof. unfold word, ones. pose proof (Z.pow_pos_nonneg 2 w). lia. Qed.

Lemma crc_not_not x : crc_not (crc_not x) = x.
Proof. apply lxor_cancel_r. Qed.

Lemma word_crc_extend crc data : word crc -> word (crc_extend crc data).
Proof.
  intros H. apply word_lxor, word_ones; try done. apply word_crc_bytes; try done.
  apply word_lxor, word_ones; done.
Qed.

Lemma crc_extend_app crc d1 d2 : crc_extend crc (d1 ++ d2) = crc_extend (crc_extend crc d1) d2.
Proof. unfold crc_extend. by rewrite crc_bytes_app, crc_not_not. Qed.

(** The operator for [length d2] zero bytes joins two checksums. *)
Lemma crc_extend_shift crc d :
  crc_extend crc d = Z.lxor (shift (length d) crc) (crc_extend 0 d).
Proof.
  unfold crc_extend, crc_not. rewrite (crc_bytes_state (Z.lxor crc ones)), (crc_bytes_state (Z.lxor 0 ones)).
  rewrite Z.lxor_0_l, shift_linear. zbits.
Qed.

Lemma combine_extend {E} d1 d2 :
  (Z.of_nat (length d2) < 2 ^ 64)%Z ->
  combine (E:=E) (crc_extend 0 d1) (crc_extend 0 d2) (Z.of_nat (length d2)) =
  Ok (crc_extend 0 (d1 ++ d2)).
Proof.
  intros Hl. rewrite combine_spec by (lia || (apply word_crc_extend; unfold word; split; [lia|];
    apply Z.pow_pos_nonneg; lia)).
  rewrite crc_extend_app, (crc_extend_shift (crc_extend 0 d1)), Nat2Z.id. f_equal.
  destruct (Z.eqb_spec (Z.of_nat (length d2)) 0) as [Hz|]; [|done].
  assert (d2 = []) as -> by (apply nil_length_inv; lia). simpl.
  unfold crc_extend, crc_not. simpl. rewrite Z.lxor_0_l, Z.lxor_nilpotent, Z.lxor_0_r. done.
Qed.

(** ** Detection *)

Section detection.
Hypothesis Htop : Z.testbit POLY (w - 1) = true.

Lemma crc_bit_kernel z : word z -> crc_bit z = 0%Z -> z = 0%Z.
Proof.
  intros Hz. unfold crc_bit. rewrite low_bit. destruct (Z.testbit z 0) eqn:H0; intros H.
  - apply Z.lxor_eq in H. apply word_bits in Hz as [_ Hz]; [|done].
    specialize (Hz w ltac:(lia)). rewrite <-H, Z.shiftr_spec in Htop by lia.
    replace (w - 1 + 1)%Z with w in Htop by lia. congruence.
  - unfold word in Hz. rewrite Z.shiftr_div_pow2 in H by lia. change (2 ^ 1)%Z with 2%Z in H.
    rewrite Z.bit0_odd in H0. pose proof (Zmod_odd z) as Hm. rewrite H0 in Hm.
    pose proof (Z.div_mod z 2 ltac:(lia)). lia.
Qed.

Lemma shift_kernel n z : word z -> shift n z = 0%Z -> z = 0%Z.
Proof.
  assert (forall k z, word z -> Nat.iter k crc_bit z = 0%Z -> z = 0%Z) as Hiter.
  { intros k. induction k as [|k IH]; intros y Hy H; [done|]. simpl in H.
    apply IH; [done|]. apply crc_bit_kernel; [by apply word_iter_bit|done]. }
  induction n as [|n IH]; intros Hz H; [done|]. rewrite shift_S in H.
  apply IH; [done|]. apply (Hiter 8); [by apply word_shift|done].
Qed.

Lemma shift_inj n x y : word x -> word y -> shift n x = shift n y -> x = y.
Proof.
  intros Hx Hy H. apply Z.lxor_eq, (shift_kernel n); [by apply word_lxor|].
  by rewrite shift_linear, H, Z.lxor_nilpotent.
Qed.

(** Two messages that differ in a run no longer than the register end in
    different states. *)
Lemma crc_bytes_burst s b1 b2 post :
  word s -> length b1 = length b2 -> (8 * Z.of_nat (length b1) <= w)%Z ->
  crc_bytes s (b1 ++ post) = crc_bytes s (b2 ++ post) -> b1 = b2.
Proof.
  intros Hs Hl Hlen. rewrite !crc_bytes_app, (crc_bytes_state (crc_bytes s b1)), (crc_bytes_state (crc_bytes s b2)).
  intros H.
  assert (forall b, length b = length b1 -> word (le_combine b)) as Hword.
  { intros b Hb. pose proof (le_combine_bound b) as [Hlo Hhi]. split; [done|].
    eapply Z.lt_le_trans; [exact Hhi|]. apply Z.pow_le_mono_r; lia. }
  apply (f_equal (fun x => Z.lxor x (crc_bytes 0 post))) in H. rewrite !lxor_cancel_r in H.
  apply shift_inj in H; [|by apply word_crc_bytes..].
  rewrite !crc_bytes_word, Hl in H. apply shift_inj in H; [|by apply word_lxor; auto..].
  apply (f_equal (Z.lxor s)) in H. rewrite <-!Z.lxor_assoc, Z.lxor_nilpotent, !Z.lxor_0_l in H.
  rewrite <-(split_le_combine b1), <-(split_le_combine b2), H, Hl. reflexivity.
Qed.

Lemma crc_extend_burst crc pre b1 b2 post :
  word crc -> length b1 = length b2 -> (8 * Z.of_nat (length b1) <= w)%Z ->
  crc_extend crc (pre ++ b1 ++ post) = crc_extend crc (pre ++ b2 ++ post) -> b1 = b2.
Proof.
  intros Hcrc Hl Hlen. unfold crc_extend. rewrite !(crc_bytes_app _ pre). intros H.
  apply (f_equal crc_not) in H. rewrite !crc_not_not in H.
  eapply crc_bytes_burst; [|exact Hl|exact Hlen|exact H].
  apply word_crc_bytes; [done..|]. apply word_lxor; [done..|apply word_ones].
Qed.

End detection.

End matrices.

End crc.
End Crc.
