(* ===== verification/Clmul.v ===== *)
(** Carry-less multiplication and the vector intrinsics that the hardware
    backends of [crates/checksum/src/crc64.rs], [crc32.rs], [crc32c.rs] and
    [riscv64_zbc_crc32.rs] share.  A 128-bit register is an integer below
    [2 ^ 128]; a wider register is the list of its 128-bit lanes.  The lemmas:
    a carry-less product by a well-chosen constant is a run of register steps,
    folding the lanes over a stride keeps the checksum of the consumed data,
    and two linear maps that agree on the powers of two agree. *)

From Stdlib Require Import Btauto.
From coqutil Require Import Word.LittleEndianList.
From S2P Require Import Prelude Crc.

Module Clmul.
Import Crc.

(** ** Targets *)

(** [target_arch], and what [is_x86_feature_detected!],
    [is_aarch64_feature_detected!] and [is_riscv_feature_detected!] answer *)
Inductive target_arch := X86_64 | Aarch64 | Riscv64 | OtherArch.

Record cpu_features := CpuFeatures {
  has_sse41 : bool;
  has_sse42 : bool;
  has_pclmulqdq : bool;
  has_vpclmulqdq : bool;
  has_avx2 : bool;
  has_avx512f : bool;
  has_aes : bool;
  has_sha3 : bool;
  has_crc : bool;
  has_zbc : bool;
}.

(** ** Intrinsics *)

Definition U64_MAX : Z := 0xFFFFFFFFFFFFFFFF.
Definition U128_MAX : Z := 0xFFFFFFFFFFFFFFFFFFFFFFFFFFFFFFFF.

(** The words of a 128-bit register, and the register of two words *)
Definition lo64 (x : Z) : Z := Z.land x U64_MAX.
Definition hi64 (x : Z) : Z := Z.land (Z.shiftr x 64) U64_MAX.
Definition words64 (lo hi : Z) : Z := Z.lor lo (Z.shiftl hi 64).

(** The 128-bit carry-less product of two 64-bit words *)
Definition clmul (a b : Z) : Z :=
  foldl (fun acc i => if Z.testbit a (Z.of_nat i) then Z.lxor acc (Z.shiftl b (Z.of_nat i)) else acc)
    0%Z (seq 0 64).

(** [_mm_clmulepi64_si128]: bit 0 of the immediate selects the word of the
    first operand, bit 4 that of the second. *)
Definition mm_clmulepi64 (imm : Z) (x c : Z) : Z :=
  clmul (if Z.testbit imm 0 then hi64 x else lo64 x) (if Z.testbit imm 4 then hi64 c else lo64 c).

(** [_mm_slli_si128] and [_mm_srli_si128], by [n] bytes *)
Definition mm_slli (n : Z) (x : Z) : Z := Z.land (Z.shiftl x (8 * n)) U128_MAX.
Definition mm_srli (n : Z) (x : Z) : Z := Z.shiftr x (8 * n).

(** The lane-wise forms on 256-bit and 512-bit registers *)
Definition lanes_clmulepi64 (imm : Z) (x c : list Z) : list Z := zip_with (mm_clmulepi64 imm) x c.
Definition lanes_xor (x y : list Z) : list Z := zip_with Z.lxor x y.

(** [_mm512_ternarylogic_epi64::<imm>]: bit [a b c] of the immediate *)
Definition ternary_bit (imm : Z) (a b c : bool) : bool :=
  Z.testbit imm (4 * Z.b2z a + 2 * Z.b2z b + Z.b2z c).

Definition ternary_word (imm x y z : Z) : Z :=
  foldl (fun acc i =>
    let n := Z.of_nat i in
    if ternary_bit imm (Z.testbit x n) (Z.testbit y n) (Z.testbit z n) then Z.lor acc (Z.shiftl 1 n)
    else acc) 0%Z (seq 0 128).

Definition lanes_ternary (imm : Z) (x y z : list Z) : list Z :=
  zip_with (fun f c => f c) (zip_with (ternary_word imm) x y) z.

(** A lane by its number ([_mm256_castsi256_si128], [_mm256_extracti128_si256],
    [_mm512_extracti32x4_epi32]) *)
Definition lane (i : nat) (x : list Z) : Z := nth i x 0%Z.

(** [fold_without_next] and [fold_block] of the x86 backends, on one lane *)
Definition fold_without_next (x constant : Z) : Z :=
  let lo := mm_clmulepi64 0x01 x constant in
  let hi := mm_clmulepi64 0x10 x constant in
  Z.lxor lo hi.

Definition fold_block (x next constant : Z) : Z :=
  let lo := mm_clmulepi64 0x01 x constant in
  let hi := mm_clmulepi64 0x10 x constant in
  Z.lxor (Z.lxor lo hi) next.

(** The same on the lanes of a 256-bit or 512-bit register *)
Definition fold_without_next_lanes (x constant : list Z) : list Z :=
  let lo := lanes_clmulepi64 0x01 x constant in
  let hi := lanes_clmulepi64 0x10 x constant in
  lanes_xor lo hi.

Definition fold_block256 (x next constant : list Z) : list Z :=
  let lo := lanes_clmulepi64 0x01 x constant in
  let hi := lanes_clmulepi64 0x10 x constant in
  lanes_xor (lanes_xor lo hi) next.

Definition fold_block512 (x next constant : list Z) : list Z :=
  let lo := lanes_clmulepi64 0x01 x constant in
  let hi := lanes_clmulepi64 0x10 x constant in
  lanes_ternary 0x96 lo hi next.

(** Unaligned loads: [n] bytes at [ptr], little endian *)
Definition read_le {E} (n : nat) (data : list byte) (ptr : nat) : outcome E Z :=
  b ← slice data ptr (ptr + n);
  mret (le_combine b).

Definition load_lanes {E} (n : nat) (data : list byte) (ptr : nat) : outcome E (list Z) :=
  for_range 0 n [] (fun l i => x ← read_le 16 data (ptr + 16 * i); mret (l ++ [x])).

(** [n & !(b - 1)] for a power of two [b]; [split_at] panics past the end. *)
Definition align_down (n b : nat) : nat := n - n mod b.

Definition split_at {E A} (l : list A) (mid : nat) : outcome E (list A * list A) :=
  _ ← assert_true (mid <=? length l);
  mret (take mid l, drop mid l).

(** ** The VPCLMULQDQ routine *)

(** The folding constants of [extend_blocks_only_vpclmul] *)
Record vpclmul_constants := VpclmulConstants {
  fold_8x2 : list Z;
  fold_7_6 : list Z;
  fold_5_4 : list Z;
  fold_3_2 : list Z;
  fold_1 : Z;
}.

(** [xor_crc256]: the checksum in the low word of the first lane *)
Definition xor_crc256 (block : list Z) (crc : Z) : list Z := lanes_xor block [words64 crc 0; words64 0 0].

(** [extend_blocks_only_vpclmul] up to the reduction: four 256-bit registers
    over the data, then onto one lane.  [crc] is the register's state. *)
Definition vpclmul_fold {E} (K : vpclmul_constants) (crc : Z) (data : list byte) : outcome E Z :=
  x0 ← load_lanes 2 data 0;
  x1 ← load_lanes 2 data 32;
  x2 ← load_lanes 2 data 64;
  x3 ← load_lanes 2 data 96;
  '(x0, x1, x2, x3, _) ← while_loop (S (length data))
    (fun '(_, _, _, _, ptr) => ptr <? length data)
    (fun '(x0, x1, x2, x3, ptr) =>
      n0 ← load_lanes 2 data ptr;
      n1 ← load_lanes 2 data (ptr + 32);
      n2 ← load_lanes 2 data (ptr + 64);
      n3 ← load_lanes 2 data (ptr + 96);
      mret (fold_block256 x0 n0 (fold_8x2 K), fold_block256 x1 n1 (fold_8x2 K),
            fold_block256 x2 n2 (fold_8x2 K), fold_block256 x3 n3 (fold_8x2 K), ptr + 128))
    (xor_crc256 x0 crc, x1, x2, x3, 128);
  let accum_7_6 := fold_without_next_lanes x0 (fold_7_6 K) in
  let accum_5_4 := fold_without_next_lanes x1 (fold_5_4 K) in
  let accum_3_2 := fold_without_next_lanes x2 (fold_3_2 K) in
  let accum := lanes_xor (lanes_xor accum_7_6 accum_5_4) accum_3_2 in
  let x3_lo := lane 0 x3 in
  let x3_hi := lane 1 x3 in
  let x3_lo_folded := fold_without_next x3_lo (fold_1 K) in
  let accum_lo := Z.lxor (lane 0 accum) x3_lo_folded in
  let accum_hi := lane 1 accum in
  mret (Z.lxor (Z.lxor x3_hi accum_lo) accum_hi).

(** ** Bounds *)

Definition below (k : Z) (x : Z) : Prop := (0 <= x < 2 ^ k)%Z.

Lemma below_bits k x :
  (8 <= k)%Z -> below k x <-> (0 <= x)%Z /\ forall n, (k <= n)%Z -> Z.testbit x n = false.
Proof. intros Hk. by apply (word_bits k). Qed.

Lemma below_lxor k a b : (8 <= k)%Z -> below k a -> below k b -> below k (Z.lxor a b).
Proof. intros Hk. by apply (word_lxor k). Qed.

Lemma below_weaken k k' x : (k <= k')%Z -> below k x -> below k' x.
Proof. intros Hk Hx. unfold below in *. pose proof (Z.pow_le_mono_r 2 k k' ltac:(lia) Hk). lia. Qed.

Lemma below_shiftl k i x : (0 <= i)%Z -> (0 <= k)%Z -> below k x -> below (k + i) (Z.shiftl x i).
Proof.
  intros Hi Hk Hx. unfold below in *. rewrite Z.shiftl_mul_pow2, Z.pow_add_r by lia.
  pose proof (Z.pow_pos_nonneg 2 i). nia.
Qed.

Lemma below_0 k : (0 <= k)%Z -> below k 0.
Proof. intros. unfold below. pose proof (Z.pow_pos_nonneg 2 k). lia. Qed.

Lemma lo64_mod x : lo64 x = (x mod 2 ^ 64)%Z.
Proof. unfold lo64. change U64_MAX with (Z.ones 64). by rewrite Z.land_ones. Qed.

Lemma lo64_below x : below 64 (lo64 x).
Proof. rewrite lo64_mod. apply Z.mod_pos_bound. lia. Qed.

Lemma hi64_below x : below 64 (hi64 x).
Proof. apply lo64_below. Qed.

Lemma lo64_small x : below 64 x -> lo64 x = x.
Proof. intros H. rewrite lo64_mod. by apply Z.mod_small. Qed.

Lemma split_words x : below 128 x -> x = Z.lxor (lo64 x) (Z.shiftl (hi64 x) 64).
Proof.
  intros Hx. unfold hi64. fold (lo64 (Z.shiftr x 64)). rewrite (lo64_small (Z.shiftr x 64)).
  - rewrite lo64_mod, <-Z.land_ones by lia. apply Z.bits_inj'. intros n Hn.
    rewrite Z.lxor_spec, Z.land_spec. destruct (Z.lt_ge_cases n 64).
    + rewrite Z.ones_spec_low, Z.shiftl_spec_low by lia. btauto.
    + rewrite Z.ones_spec_high, Z.shiftl_spec, Z.shiftr_spec by lia.
      replace (n - 64 + 64)%Z with n by lia. btauto.
  - unfold below in *. rewrite Z.shiftr_div_pow2 by lia. split; [apply Z.div_pos; lia|].
    apply Z.div_lt_upper_bound; [lia|]. change (2 ^ 64 * 2 ^ 64)%Z with (2 ^ 128)%Z. lia.
Qed.

Lemma le_combine_below data : below (8 * Z.of_nat (length data)) (le_combine data).
Proof. apply le_combine_bound. Qed.

Lemma align_down_mod n b : b <> 0 -> align_down n b mod b = 0 /\ align_down n b <= n /\ n < align_down n b + b.
Proof.
  intros Hb. unfold align_down. pose proof (Nat.mod_upper_bound n b Hb).
  pose proof (Nat.div_mod_eq n b) as Hd. split_and!; [|lia..].
  replace (n - n mod b) with (n / b * b) by lia. apply Nat.Div0.mod_mul.
Qed.

Lemma align_down_pos n b : b <> 0 -> b <= n -> b <= align_down n b.
Proof.
  intros Hb Hn. destruct (align_down_mod n b Hb) as (Hm & _ & Hgt).
  destruct (Nat.eq_dec (align_down n b) 0); [lia|].
  apply Nat.Div0.mod_divides in Hm as [[|k] Hk]; [lia|]. rewrite Hk. nia.
Qed.

Lemma split_at_Ok {E A} (l : list A) mid :
  mid <= length l -> split_at (E:=E) l mid = Ok (take mid l, drop mid l).
Proof. intros H. unfold split_at. by rewrite (proj2 (Nat.leb_le _ _) H). Qed.

(** ** Linear maps *)

Lemma land_pow2_below k y : (0 <= k)%Z -> below k y -> Z.land (2 ^ k) y = 0%Z.
Proof.
  intros Hk Hy. zbits. rewrite Z.pow2_bits_eqb by done. destruct (Z.eqb_spec k n) as [<-|]; [|done].
  apply Z.testbit_false; [done|]. by rewrite Z.div_small.
Qed.

(** Linear maps that agree on the powers of two below [2 ^ k] agree there. *)
Lemma linear_basis f g k :
  linear f -> linear g -> (forall i, (0 <= i < Z.of_nat k)%Z -> f (2 ^ i)%Z = g (2 ^ i)%Z) ->
  forall x, below (Z.of_nat k) x -> f x = g x.
Proof.
  intros Hf Hg. induction k as [|k IH]; intros Hb x Hx.
  { assert (x = 0%Z) as -> by (unfold below in Hx; simpl in Hx; lia). by rewrite !linear_0. }
  assert (below (Z.of_nat k) x \/ exists y, below (Z.of_nat k) y /\ x = Z.lxor (2 ^ Z.of_nat k) y)
    as [Hy|(y & Hy & ->)].
  - unfold below in *. rewrite Nat2Z.inj_succ, Z.pow_succ_r in Hx by lia.
    destruct (Z.lt_ge_cases x (2 ^ Z.of_nat k)); [left; lia|right].
    exists (x - 2 ^ Z.of_nat k)%Z. split; [lia|].
    rewrite <-(Z.add_nocarry_lxor (2 ^ Z.of_nat k) (x - 2 ^ Z.of_nat k)); [lia|].
    apply land_pow2_below; unfold below; lia.
  - apply IH; [|done]. intros. apply Hb. lia.
  - rewrite Hf, Hg, (Hb (Z.of_nat k)) by lia. f_equal. apply IH; [|done]. intros. apply Hb. lia.
Qed.

Definition agree_on_basis (f g : Z -> Z) (k : nat) : bool :=
  forallb (fun i => f (2 ^ Z.of_nat i) =? g (2 ^ Z.of_nat i))%Z (seq 0 k).

Lemma linear_basis_check f g k :
  linear f -> linear g -> agree_on_basis f g k = true -> forall x, below (Z.of_nat k) x -> f x = g x.
Proof.
  intros Hf Hg H. apply linear_basis; [done..|]. intros i Hi.
  unfold agree_on_basis in H. rewrite forallb_forall in H. specialize (H (Z.to_nat i)).
  rewrite Z2Nat.id in H by lia. apply Z.eqb_eq, H, in_seq. lia.
Qed.

Lemma linear_comp f g : linear f -> linear g -> linear (fun x => f (g x)).
Proof. intros Hf Hg a b. by rewrite Hg, Hf. Qed.

Lemma linear_lxor f g : linear f -> linear g -> linear (fun x => Z.lxor (f x) (g x)).
Proof. intros Hf Hg a b. rewrite Hf, Hg. zbits. Qed.

Lemma linear_id : linear (fun x => x).
Proof. by intros a b. Qed.

Lemma linear_zero : linear (fun _ => 0%Z).
Proof. by intros a b. Qed.

Lemma linear_land m : linear (fun x => Z.land x m).
Proof. intros a b. zbits. Qed.

Lemma linear_shiftr n : linear (fun x => Z.shiftr x n).
Proof. intros a b. apply Z.shiftr_lxor. Qed.

Lemma linear_shiftl n : linear (fun x => Z.shiftl x n).
Proof. intros a b. apply Z.shiftl_lxor. Qed.

Lemma linear_lo64 : linear lo64.
Proof. apply linear_land. Qed.

Lemma linear_hi64 : linear hi64.
Proof. apply (linear_comp lo64 (fun x => Z.shiftr x 64)); [apply linear_lo64|apply linear_shiftr]. Qed.

Lemma linear_clmul c : linear (fun a => clmul a c).
Proof.
  intros a b. unfold clmul. assert (0 = Z.lxor 0 0)%Z as H0 by done. rewrite H0 at 1. clear H0.
  generalize 0%Z at 1 3. generalize 0%Z. induction (seq 0 64) as [|i l IH]; intros x y; [done|].
  cbn [foldl]. rewrite <-IH, Z.lxor_spec. f_equal.
  destruct (Z.testbit a _), (Z.testbit b _); cbn [xorb]; zbits.
Qed.

Lemma linear_mm_clmulepi64 imm c : linear (fun x => mm_clmulepi64 imm x c).
Proof.
  unfold mm_clmulepi64. destruct (Z.testbit imm 0).
  - apply (linear_comp (fun a => clmul a _) hi64); [apply linear_clmul|apply linear_hi64].
  - apply (linear_comp (fun a => clmul a _) lo64); [apply linear_clmul|apply linear_lo64].
Qed.

Lemma linear_mm_slli n : linear (mm_slli n).
Proof.
  apply (linear_comp (fun x => Z.land x U128_MAX) (fun x => Z.shiftl x (8 * n)));
    [apply linear_land|apply linear_shiftl].
Qed.

Lemma linear_mm_srli n : linear (mm_srli n).
Proof. apply linear_shiftr. Qed.

(** Linearity of a map built from linear maps *)
Ltac linear_map :=
  lazymatch goal with
  | |- linear (fun x => x) => apply linear_id
  | |- linear (fun x => 0%Z) => apply linear_zero
  | |- linear (fun x => Z.lxor (@?f x) (@?g x)) => apply (linear_lxor f g); linear_map
  | |- linear (fun x => mm_clmulepi64 ?i (@?f x) ?c) =>
      apply (linear_comp (fun y => mm_clmulepi64 i y c) f); [apply linear_mm_clmulepi64|linear_map]
  | |- linear (fun x => clmul (@?f x) ?c) =>
      apply (linear_comp (fun y => clmul y c) f); [apply linear_clmul|linear_map]
  | |- linear (fun x => mm_slli ?n (@?f x)) =>
      apply (linear_comp (mm_slli n) f); [apply linear_mm_slli|linear_map]
  | |- linear (fun x => mm_srli ?n (@?f x)) =>
      apply (linear_comp (mm_srli n) f); [apply linear_mm_srli|linear_map]
  | |- linear (fun x => hi64 (@?f x)) => apply (linear_comp hi64 f); [apply linear_hi64|linear_map]
  | |- linear (fun x => lo64 (@?f x)) => apply (linear_comp lo64 f); [apply linear_lo64|linear_map]
  | |- linear (fun x => Z.land (@?f x) ?m) =>
      apply (linear_comp (fun y => Z.land y m) f); [apply linear_land|linear_map]
  | |- linear (fun x => Z.shiftl (@?f x) ?n) =>
      apply (linear_comp (fun y => Z.shiftl y n) f); [apply linear_shiftl|linear_map]
  | |- linear (fun x => Z.shiftr (@?f x) ?n) =>
      apply (linear_comp (fun y => Z.shiftr y n) f); [apply linear_shiftr|linear_map]
  end.

(** ** Products *)

Lemma clmul_below a b k : (8 <= k)%Z -> below k b -> below (k + 63) (clmul a b).
Proof.
  intros Hk Hb. unfold clmul.
  apply (foldl_inv (fun _ acc => below (k + 63) acc)); [apply below_0; lia|].
  intros l1 i l2 acc Hl Hacc. destruct (Z.testbit a _); [|done]. apply below_lxor; [lia|done|].
  assert (i ∈ seq 0 64) as [_ Hi]%elem_of_seq
    by (rewrite Hl; apply elem_of_app; right; constructor).
  apply (below_weaken (k + Z.of_nat i)); [lia|]. apply below_shiftl; [lia..|done].
Qed.

Lemma mm_clmulepi64_below imm x c : below 128 (mm_clmulepi64 imm x c).
Proof.
  apply (below_weaken (64 + 63)); [lia|]. apply clmul_below; [lia|].
  destruct (Z.testbit imm 4); [apply hi64_below|apply lo64_below].
Qed.

Lemma clmul_pow2 i c : i < 64 -> clmul (2 ^ Z.of_nat i) c = Z.shiftl c (Z.of_nat i).
Proof.
  intros Hi. unfold clmul.
  replace 64 with (i + (1 + (63 - i))) by lia. rewrite seq_app, foldl_app. cbn [seq Nat.add].
  cbn [foldl].
  assert (forall l x, Forall (fun j => j <> i) l ->
    foldl (fun acc j => if Z.testbit (2 ^ Z.of_nat i) (Z.of_nat j)
      then Z.lxor acc (Z.shiftl c (Z.of_nat j)) else acc) x l = x) as Hskip.
  { intros l x Hl. revert x. induction Hl as [|j l Hj Hl IH]; intros x; [done|]. cbn [foldl].
    rewrite Z.pow2_bits_false by lia. apply IH. }
  rewrite !Hskip.
  - by rewrite Z.pow2_bits_true, Z.lxor_0_l by lia.
  - apply list.Forall_forall. intros j [_ Hj]%elem_of_seq. lia.
  - apply list.Forall_forall. intros j [Hj _]%elem_of_seq. lia.
Qed.

Section steps.
Context (POLY : Z).

(** [n] bit steps of the register *)
Definition step (n : nat) (x : Z) : Z := Nat.iter n (crc_bit POLY) x.

Lemma step_add n m x : step (n + m) x = step n (step m x).
Proof. apply Nat.iter_add. Qed.

Lemma step_linear n : linear (step n).
Proof. apply linear_iter. intros a b. apply crc_bit_lxor. Qed.

Lemma step_shift n x : shift POLY n x = step (8 * n) x.
Proof.
  induction n as [|n IH]; [done|]. replace (8 * S n) with (8 + 8 * n) by lia.
  rewrite step_add, <-IH. apply shift_S.
Qed.

Lemma step_shiftl n i x : i <= n -> step n (Z.shiftl x (Z.of_nat i)) = step (n - i) x.
Proof.
  intros Hi. replace n with ((n - i) + i) at 1 by lia. rewrite step_add.
  unfold step at 2. by rewrite iter_bit_shiftl.
Qed.

Lemma step_pow2 n i : i <= n -> step n (2 ^ Z.of_nat i) = step (n - i) 1.
Proof. intros Hi. rewrite <-(step_shiftl n i 1) by done. by rewrite Z.shiftl_1_l. Qed.

(** A product by a constant that stands for the right power of [x] turns [m]
    register steps into [n]. *)
Lemma clmul_step k m n c a :
  k < 64 -> k <= m -> k <= n -> step (m - k) c = step (n - k) 1 ->
  below (Z.of_nat k + 1) a -> step m (clmul a c) = step n a.
Proof.
  intros Hk Hm Hn Hc. replace (Z.of_nat k + 1)%Z with (Z.of_nat (S k)) by lia.
  apply (linear_basis (fun a => step m (clmul a c)) (step n)).
  - apply (linear_comp (step m) (fun a => clmul a c)); [apply step_linear|apply linear_clmul].
  - apply step_linear.
  - intros i Hi. rewrite <-(Z2Nat.id i) by lia. set (j := Z.to_nat i).
    rewrite clmul_pow2, step_shiftl, step_pow2 by lia.
    replace (m - j) with ((k - j) + (m - k)) by lia.
    replace (n - j) with ((k - j) + (n - k)) by lia. by rewrite !step_add, Hc.
Qed.

#[local] Opaque step shift.

(** ** Folding *)

(** The constant that moves a lane over [k] lanes *)
Definition fold_const (k : nat) (c : Z) : bool :=
  ((step 65 (hi64 c) =? step (65 + 128 * k) 1) && (step 65 (lo64 c) =? step (1 + 128 * k) 1))%Z.

Lemma fold_step k c x :
  fold_const k c = true -> below 128 x ->
  shift POLY 16 (fold_without_next x c) = shift POLY (16 * (k + 1)) x.
Proof.
  intros [Hhi%Z.eqb_eq Hlo%Z.eqb_eq]%andb_prop Hx. rewrite !step_shift.
  unfold fold_without_next, mm_clmulepi64. simpl Z.testbit. cbv iota zeta. rewrite step_linear.
  rewrite (clmul_step 63 (8 * 16) (64 + 128 * k) (lo64 c));
    [|lia..| |apply hi64_below]; cycle 1.
  { replace (8 * 16 - 63) with 65 by lia. rewrite Hlo. f_equal; lia. }
  rewrite (clmul_step 63 (8 * 16) (128 + 128 * k) (hi64 c));
    [|lia..| |apply lo64_below]; cycle 1.
  { replace (8 * 16 - 63) with 65 by lia. rewrite Hhi. f_equal; lia. }
  rewrite (split_words x) at 3 by done. rewrite step_linear, Z.lxor_comm. f_equal.
  - f_equal. lia.
  - change 64%Z with (Z.of_nat 64). rewrite step_shiftl by lia. f_equal. lia.
Qed.

Lemma fold_block_eq x n c : fold_block x n c = Z.lxor (fold_without_next x c) n.
Proof. unfold fold_block, fold_without_next. reflexivity. Qed.

Lemma fold_below x c : below 128 (fold_without_next x c).
Proof. apply below_lxor; [lia|apply mm_clmulepi64_below..]. Qed.

(** The register after a run of 16-byte lanes *)
Definition feed (s x : Z) : Z := shift POLY 16 (Z.lxor s x).
Definition run (xs : list Z) : Z := foldl feed 0%Z xs.

Lemma run_snoc xs x : run (xs ++ [x]) = Z.lxor (shift POLY 16 (run xs)) (shift POLY 16 x).
Proof. unfold run. rewrite foldl_app. cbn [foldl]. apply shift_linear. Qed.

Lemma foldl_feed s xs : foldl feed s xs = Z.lxor (shift POLY (16 * length xs) s) (run xs).
Proof.
  induction xs as [|x xs IH] using rev_ind; [by rewrite Z.lxor_0_r|].
  rewrite foldl_app, run_snoc, IH, length_app. cbn [foldl length]. unfold feed.
  rewrite !shift_linear, <-shift_add, Z.lxor_assoc. f_equal. f_equal. lia.
Qed.

Lemma run_lxor xs ys :
  length xs = length ys -> run (lanes_xor xs ys) = Z.lxor (run xs) (run ys).
Proof.
  revert ys. induction xs as [|x xs IH] using rev_ind; intros ys Hl.
  { by destruct ys. }
  destruct ys as [|y ys _] using rev_ind; rewrite !length_app in Hl; cbn in Hl; [lia|].
  unfold lanes_xor. rewrite zip_with_app by lia. cbn [zip_with]. rewrite !run_snoc.
  fold (lanes_xor xs ys). rewrite IH by lia. rewrite !shift_linear. zbits.
Qed.

Lemma run_fold k c xs :
  fold_const k c = true -> Forall (below 128) xs ->
  run ((fun x => fold_without_next x c) <$> xs) = shift POLY (16 * k) (run xs).
Proof.
  intros Hc. induction xs as [|x xs IH] using rev_ind; intros H.
  { symmetry. apply linear_0, shift_linear. }
  apply list.Forall_app in H as [H [Hx _]%list.Forall_cons]. rewrite fmap_app.
  change ((fun x => fold_without_next x c) <$> [x]) with [fold_without_next x c]. rewrite !run_snoc.
  rewrite (IH H), (fold_step k c x Hc Hx). rewrite !shift_linear.
  rewrite <-!shift_add. f_equal; f_equal; lia.
Qed.

(** A stride: every lane folded over the stride, and the next lanes mixed in *)
Lemma run_stride k c xs next :
  fold_const k c = true -> Forall (below 128) xs -> length xs = k -> length next = k ->
  run (zip_with (fun x n => fold_block x n c) xs next) = foldl feed (run xs) next.
Proof.
  intros Hc Hxs Hl Hn. rewrite foldl_feed, Hn, <-(run_fold k c) by done.
  rewrite <-run_lxor by (rewrite length_fmap; lia). f_equal.
  unfold lanes_xor. rewrite zip_with_fmap_l. unfold fold_block, fold_without_next. reflexivity.
Qed.

(** The constants that bring the lanes [xs] over the rest of [xs] and one more *)
Fixpoint collapse_consts (cs : list Z) : bool :=
  match cs with
  | [] => true
  | c :: cs => fold_const (S (length cs)) c && collapse_consts cs
  end.

(** All lanes folded onto the last *)
Definition collapse (last : Z) (xs cs : list Z) : Z :=
  foldl (fun acc '(x, c) => Z.lxor acc (fold_without_next x c)) last (zip xs cs).

Lemma collapse_below last xs cs : below 128 last -> below 128 (collapse last xs cs).
Proof.
  intros Hl. unfold collapse. apply (foldl_inv (fun _ acc => below 128 acc)); [done|].
  intros pre [x c] suf acc _ Hacc. apply below_lxor; [lia|done|apply fold_below].
Qed.

Lemma run_cons x xs : run (x :: xs) = Z.lxor (shift POLY (16 * (length xs + 1)) x) (run xs).
Proof.
  unfold run. cbn [foldl]. rewrite foldl_feed. f_equal. unfold feed. rewrite Z.lxor_0_l, <-shift_add.
  f_equal. lia.
Qed.

Lemma run_collapse xs : forall last cs,
  length cs = length xs -> collapse_consts cs = true -> Forall (below 128) xs ->
  shift POLY 16 (collapse last xs cs) = run (xs ++ [last]).
Proof.
  induction xs as [|x xs IH]; intros last [|c cs] Hl Hc Hxs; try done.
  apply andb_prop in Hc as [Hc Hcs]. apply list.Forall_cons in Hxs as [Hx Hxs]. injection Hl as Hl.
  change (collapse last (x :: xs) (c :: cs)) with (collapse (Z.lxor last (fold_without_next x c)) xs cs).
  rewrite (IH _ _ Hl Hcs Hxs). cbn [app]. rewrite run_cons, !run_snoc, shift_linear, length_app.
  rewrite (fold_step _ c x Hc Hx), Hl. cbn [length].
  replace (16 * (S (length xs) + 1)) with (16 * (length xs + 1 + 1)) by lia. zbits.
Qed.

(** ** Loads *)

Definition block_at (data : list byte) (ptr : nat) : Z := le_combine (take 16 (drop ptr data)).
Definition blocks_at (n : nat) (data : list byte) (ptr : nat) : list Z :=
  (fun i => block_at data (ptr + 16 * i)) <$> seq 0 n.

Lemma read_le_Ok {E} n data ptr :
  ptr + n <= length data -> read_le (E:=E) n data ptr = Ok (le_combine (take n (drop ptr data))).
Proof.
  intros H. unfold read_le. rewrite slice_Ok by lia. bind_step. by replace (ptr + n - ptr) with n by lia.
Qed.

Lemma load_lanes_Ok {E} n data ptr :
  ptr + 16 * n <= length data -> load_lanes (E:=E) n data ptr = Ok (blocks_at n data ptr).
Proof.
  intros H. enough (returns (load_lanes (E:=E) n data ptr) (fun l => l = blocks_at n data ptr))
    as (l & -> & ->)%returns_Ok by done.
  apply (wp_for_range (fun m l => l = blocks_at m data ptr)); [lia|done| |done].
  intros i l Hi ->. rewrite read_le_Ok by lia. bind_step. apply wp_ret. unfold blocks_at.
  by rewrite seq_app, fmap_app.
Qed.

Lemma length_blocks n data ptr : length (blocks_at n data ptr) = n.
Proof. unfold blocks_at. by rewrite length_fmap, length_seq. Qed.

Lemma block_at_below data ptr : below 128 (block_at data ptr).
Proof.
  apply (below_weaken (8 * Z.of_nat (length (take 16 (drop ptr data))))); [|apply le_combine_below].
  rewrite length_take. lia.
Qed.

Lemma blocks_below n data ptr : Forall (below 128) (blocks_at n data ptr).
Proof. apply list.Forall_fmap, list.Forall_forall. intros i _. apply block_at_below. Qed.

Lemma feed_block s b : length b = 16 -> feed s (le_combine b) = crc_bytes POLY s b.
Proof. intros Hb. by rewrite crc_bytes_word, Hb. Qed.

Lemma feed_blocks n data ptr s :
  ptr + 16 * n <= length data ->
  foldl feed s (blocks_at n data ptr) = crc_bytes POLY s (take (16 * n) (drop ptr data)).
Proof.
  induction n as [|n IH]; intros H; [done|]. unfold blocks_at in *.
  rewrite seq_S, fmap_app, foldl_app, IH by lia. cbn [fmap list_fmap foldl]. unfold block_at.
  rewrite feed_block by (rewrite length_take, length_drop; lia).
  rewrite <-crc_bytes_app. f_equal. rewrite Nat.add_0_l, <-drop_drop.
  rewrite take_take_drop. f_equal. lia.
Qed.

(** ** Strides *)

(** The lanes [xs] stand for the data before [ptr], consumed from state [s]. *)
Definition consumed (data : list byte) (s : Z) (L : nat) (xs : list Z) (ptr : nat) : Prop :=
  length xs = L /\ Forall (below 128) xs /\ ptr <= length data /\
  run xs = crc_bytes POLY s (take ptr data).

Lemma consumed_first data s L x xs :
  below 128 s -> 16 * L <= length data -> blocks_at L data 0 = x :: xs ->
  consumed data s L (Z.lxor x s :: xs) (16 * L).
Proof.
  intros Hs Hl Hb. pose proof (blocks_below L data 0) as Hbelow. pose proof (length_blocks L data 0) as Hlen.
  pose proof (feed_blocks L data 0 s ltac:(lia)) as Hfeed.
  rewrite Hb in *. apply list.Forall_cons in Hbelow as [Hx Hxs]. split_and!; [done| |done|].
  - constructor; [by apply below_lxor|done].
  - rewrite drop_0 in Hfeed. rewrite <-Hfeed. unfold run. cbn [foldl]. f_equal. unfold feed.
    by rewrite Z.lxor_0_l, Z.lxor_comm.
Qed.

Lemma fold_block_below x n c : below 128 n -> below 128 (fold_block x n c).
Proof. intros Hn. rewrite fold_block_eq. apply below_lxor; [lia|apply fold_below|done]. Qed.

Lemma zip_fold_below c xs next :
  Forall (below 128) next -> Forall (below 128) (zip_with (fun x n => fold_block x n c) xs next).
Proof.
  intros H. revert xs. induction H as [|n next Hn H IH]; intros [|x xs]; constructor; auto using fold_block_below.
Qed.

Lemma consumed_stride data s L xs ptr c :
  consumed data s L xs ptr -> fold_const L c = true -> ptr + 16 * L <= length data ->
  consumed data s L (zip_with (fun x n => fold_block x n c) xs (blocks_at L data ptr)) (ptr + 16 * L).
Proof.
  intros (Hl & Hb & Hp & Hr) Hc Hptr. split_and!.
  - rewrite length_zip_with, length_blocks. lia.
  - apply zip_fold_below, blocks_below.
  - done.
  - rewrite (run_stride L c) by (done || apply length_blocks). rewrite Hr, feed_blocks by done.
    rewrite <-crc_bytes_app. f_equal. apply take_take_drop.
Qed.

Lemma blocks_S n data ptr :
  blocks_at (S n) data ptr = block_at data ptr :: blocks_at n data (ptr + 16).
Proof.
  unfold blocks_at. cbn [seq]. rewrite fmap_cons. f_equal; [f_equal; lia|].
  rewrite <-fmap_S_seq, <-list_fmap_compose. apply list_fmap_ext. intros i j _. cbn [compose].
  f_equal. lia.
Qed.

Lemma blocks_app n m data ptr :
  blocks_at (n + m) data ptr = blocks_at n data ptr ++ blocks_at m data (ptr + 16 * n).
Proof.
  revert ptr. induction n as [|n IH]; intros ptr.
  { cbn [Nat.add app]. by rewrite Nat.mul_0_r, Nat.add_0_r. }
  cbn [Nat.add]. rewrite !blocks_S, IH. cbn [app].
  by replace (ptr + 16 + 16 * n) with (ptr + 16 * S n) by lia.
Qed.

Lemma blocks_1 data ptr : blocks_at 1 data ptr = [block_at data ptr].
Proof. by rewrite blocks_S. Qed.

Lemma read_block_Ok {E} data ptr :
  ptr + 16 <= length data -> read_le (E:=E) 16 data ptr = Ok (block_at data ptr).
Proof. apply read_le_Ok. Qed.

Lemma consumed_one data s x ptr c :
  consumed data s 1 [x] ptr -> fold_const 1 c = true -> ptr + 16 <= length data ->
  consumed data s 1 [fold_block x (block_at data ptr) c] (ptr + 16).
Proof.
  intros Hx Hc Hp. pose proof (consumed_stride data s 1 [x] ptr c Hx Hc ltac:(lia)) as H.
  rewrite blocks_1 in H. exact H.
Qed.

Lemma consumed_collapse data s xs last cs ptr :
  consumed data s (length xs + 1) (xs ++ [last]) ptr ->
  length cs = length xs -> collapse_consts cs = true ->
  consumed data s 1 [collapse last xs cs] ptr.
Proof.
  intros (_ & Hb & Hp & Hr) Hl Hc. apply list.Forall_app in Hb as [Hxs [Hlast _]%list.Forall_cons].
  split_and!; [done| |done|].
  - constructor; [by apply collapse_below|constructor].
  - rewrite <-Hr, <-(run_collapse xs last cs) by done. unfold run. cbn [foldl]. unfold feed.
    by rewrite Z.lxor_0_l.
Qed.

(** The first lane folded onto the second *)
Lemma consumed_onto data s n x0 x1 xs c ptr :
  consumed data s (S (S n)) (x0 :: x1 :: xs) ptr -> fold_const 1 c = true ->
  consumed data s (S n) (Z.lxor x1 (fold_without_next x0 c) :: xs) ptr.
Proof.
  intros (Hl & Hb & Hp & Hr) Hc. apply list.Forall_cons in Hb as [Hx0 [Hx1 Hxs]%list.Forall_cons].
  split_and!; [cbn [length] in *; lia| |exact Hp|].
  - constructor; [apply below_lxor; [lia|exact Hx1|apply fold_below]|exact Hxs].
  - rewrite <-Hr, !run_cons, shift_linear. cbn [length].
    replace (16 * (length xs + 1)) with (16 * length xs + 16) at 2 by lia.
    rewrite (shift_add POLY (16 * length xs) 16 (fold_without_next x0 c)).
    rewrite (fold_step 1 c x0 Hc Hx0), <-shift_add.
    replace (16 * length xs + 16 * (1 + 1)) with (16 * (S (length xs) + 1)) by lia. zbits.
Qed.

Lemma consumed_finish data s x ptr :
  consumed data s 1 [x] ptr -> length data <= ptr ->
  below 128 x /\ shift POLY 16 x = crc_bytes POLY s data.
Proof.
  intros (_ & [Hx _]%list.Forall_cons & Hp & Hr) Hend. split; [done|].
  rewrite take_ge in Hr by lia. rewrite <-Hr. unfold run. cbn [foldl]. unfold feed. by rewrite Z.lxor_0_l.
Qed.

(** ** Wide registers *)

Lemma lanes_xor_comm x y : lanes_xor x y = lanes_xor y x.
Proof.
  unfold lanes_xor. revert y. induction x as [|a x IH]; intros [|b y]; try reflexivity.
  cbn [zip_with]. by rewrite IH, Z.lxor_comm.
Qed.

Lemma lanes_fold_same n c xs :
  length xs = n -> fold_without_next_lanes xs (replicate n c) = (fun x => fold_without_next x c) <$> xs.
Proof.
  intros <-. unfold fold_without_next_lanes, lanes_xor, lanes_clmulepi64, fold_without_next. cbv zeta.
  induction xs as [|x xs IH]; [done|]. rewrite fmap_cons. cbn [length replicate zip_with].
  by rewrite IH.
Qed.

Lemma fold_block256_same n c xs next :
  length xs = n -> fold_block256 xs next (replicate n c) = zip_with (fun x n => fold_block x n c) xs next.
Proof.
  intros Hl. unfold fold_block256. cbv zeta.
  change (lanes_xor (lanes_clmulepi64 0x01 xs (replicate n c)) (lanes_clmulepi64 0x10 xs (replicate n c)))
    with (fold_without_next_lanes xs (replicate n c)).
  rewrite lanes_fold_same by done. unfold lanes_xor. rewrite zip_with_fmap_l.
  unfold fold_block, fold_without_next. reflexivity.
Qed.

Lemma ternary_word_bits imm x y z n :
  (0 <= n)%Z ->
  Z.testbit (ternary_word imm x y z) n =
  ((n <? 128)%Z && ternary_bit imm (Z.testbit x n) (Z.testbit y n) (Z.testbit z n)).
Proof.
  intros Hn. unfold ternary_word. change 128%Z with (Z.of_nat (length (seq 0 128))).
  assert (seq 0 128 = seq 0 (length (seq 0 128))) as H by (by rewrite length_seq).
  revert H. generalize (seq 0 128).
  intros l. induction l as [|i l IH] using rev_ind; intros Hl.
  { rewrite Z.bits_0. by destruct (Z.ltb_spec n (Z.of_nat (length (@nil nat)))); [simpl in *; lia|]. }
  rewrite length_app, seq_app in Hl. apply app_inj_tail in Hl as [Hl ->].
  rewrite foldl_app, length_app, Nat2Z.inj_add. specialize (IH Hl). cbn [foldl length Nat.add].
  set (m := Z.of_nat (length l)) in *.
  destruct (ternary_bit imm (Z.testbit x m) (Z.testbit y m) (Z.testbit z m)) eqn:Hm;
    rewrite ?Z.lor_spec, IH, ?Z.shiftl_1_l, ?Z.pow2_bits_eqb by lia;
    destruct (Z.ltb_spec n m), (Z.ltb_spec n (m + Z.of_nat 1)); try lia;
    try (destruct (Z.eqb_spec m n) as [He|He]; try lia);
    try (rewrite <-He, ?Hm); try btauto.
Qed.

(** Immediate [0x96] is the exclusive or of three words. *)
Lemma ternary_word_xor x y z :
  below 128 x -> below 128 y -> below 128 z ->
  ternary_word 0x96 x y z = Z.lxor (Z.lxor x y) z.
Proof.
  intros Hx Hy Hz. apply Z.bits_inj'. intros n Hn. rewrite ternary_word_bits, !Z.lxor_spec by done.
  apply below_bits in Hx as [_ Hx], Hy as [_ Hy], Hz as [_ Hz]; [|lia..].
  destruct (Z.ltb_spec n 128).
  - by destruct (Z.testbit x n), (Z.testbit y n), (Z.testbit z n).
  - by rewrite Hx, Hy, Hz.
Qed.

Lemma fold_block512_same n c xs next :
  length xs = n -> Forall (below 128) next ->
  fold_block512 xs next (replicate n c) = zip_with (fun x n => fold_block x n c) xs next.
Proof.
  intros <- Hnext. unfold fold_block512, lanes_ternary, lanes_clmulepi64. cbv zeta.
  revert xs. induction Hnext as [|y next Hy Hnext IH]; intros [|x xs]; try done.
  cbn [length replicate zip_with]. rewrite IH. f_equal.
  rewrite ternary_word_xor by (done || apply mm_clmulepi64_below).
  unfold fold_block. reflexivity.
Qed.

(** ** The VPCLMULQDQ routine *)

Lemma blocks_8 data ptr :
  blocks_at 8 data ptr =
  blocks_at 2 data ptr ++ blocks_at 2 data (ptr + 32) ++ blocks_at 2 data (ptr + 64) ++
  blocks_at 2 data (ptr + 96).
Proof.
  rewrite (blocks_app 2 6), (blocks_app 2 4), (blocks_app 2 2).
  replace (ptr + 16 * 2 + 16 * 2 + 16 * 2) with (ptr + 96) by lia.
  by replace (ptr + 16 * 2 + 16 * 2) with (ptr + 64) by lia.
Qed.

Lemma xor_crc256_eq x y crc : xor_crc256 [x; y] crc = [Z.lxor x crc; y].
Proof.
  unfold xor_crc256, lanes_xor, words64. cbn [zip_with].
  by rewrite !Z.shiftl_0_l, !Z.lor_0_r, Z.lxor_0_r.
Qed.

(** Constants that fold by the right distances *)
Definition vpclmul_ok (K : vpclmul_constants) : Prop :=
  exists c8 c7 c6 c5 c4 c3 c2,
    K = VpclmulConstants [c8; c8] [c7; c6] [c5; c4] [c3; c2] (fold_1 K) /\
    fold_const 8 c8 = true /\ collapse_consts [c7; c6; c5; c4; c3; c2; fold_1 K] = true.

Lemma vpclmul_stride data s c x0 x1 x2 x3 ptr :
  length x0 = 2 -> length x1 = 2 -> length x2 = 2 -> fold_const 8 c = true ->
  consumed data s 8 (x0 ++ x1 ++ x2 ++ x3) ptr -> ptr + 128 <= length data ->
  consumed data s 8
    (fold_block256 x0 (blocks_at 2 data ptr) [c; c] ++
     fold_block256 x1 (blocks_at 2 data (ptr + 32)) [c; c] ++
     fold_block256 x2 (blocks_at 2 data (ptr + 64)) [c; c] ++
     fold_block256 x3 (blocks_at 2 data (ptr + 96)) [c; c]) (ptr + 128).
Proof.
  intros H0 H1 H2 Hc Hx Hp. pose proof (proj1 Hx) as Hl. rewrite !length_app in Hl.
  change [c; c] with (replicate 2 c). rewrite !fold_block256_same by lia.
  apply (consumed_stride data s 8 _ ptr c) in Hx; [|exact Hc|lia]. rewrite blocks_8 in Hx.
  rewrite !zip_with_app in Hx by (rewrite length_blocks; lia). exact Hx.
Qed.

Definition vpclmul_inv (data : list byte) (s : Z) (st : list Z * list Z * list Z * list Z * nat) : Prop :=
  let '(x0, x1, x2, x3, ptr) := st in
  length x0 = 2 /\ length x1 = 2 /\ length x2 = 2 /\ consumed data s 8 (x0 ++ x1 ++ x2 ++ x3) ptr /\
  (length data - ptr) mod 128 = 0.

Lemma vpclmul_first data s x0 x1 x2 x3 :
  below 128 s -> 128 <= length data -> length data mod 128 = 0 ->
  x0 = blocks_at 2 data 0 -> x1 = blocks_at 2 data 32 -> x2 = blocks_at 2 data 64 ->
  x3 = blocks_at 2 data 96 -> vpclmul_inv data s (xor_crc256 x0 s, x1, x2, x3, 128).
Proof.
  intros Hs Hl Hm -> -> -> ->. rewrite (blocks_S 1 data 0), (blocks_1 data (0 + 16)), xor_crc256_eq.
  split_and!; [reflexivity|apply length_blocks..| |by apply (mod_sub_multiple _ 1 128)].
  apply (consumed_first data s 8); [exact Hs|lia|].
  rewrite (blocks_8 data 0), (blocks_S 1 data 0), (blocks_1 data (0 + 16)). reflexivity.
Qed.

Lemma lanes2 (x : list Z) : length x = 2 -> exists a b, x = [a; b].
Proof. intros H. destruct x as [|a [|b [|c x]]]; try discriminate. eauto. Qed.

Lemma vpclmul_fold_spec {E} K data s :
  vpclmul_ok K -> below 128 s -> 128 <= length data -> length data mod 128 = 0 ->
  returns (vpclmul_fold (E:=E) K s data)
    (fun x => consumed data s 1 [x] (length data)).
Proof.
  intros (c8 & c7 & c6 & c5 & c4 & c3 & c2 & -> & H8 & Hcs) Hs Hl Hm.
  set (c1 := fold_1 _) in *. unfold vpclmul_fold.
  cbn [fold_8x2 fold_7_6 fold_5_4 fold_3_2 fold_1].
  rewrite !load_lanes_Ok by lia. bind_step.
  apply wp_bind, (wp_while (vpclmul_inv data s) (fun '(_, _, _, _, ptr) => length data - ptr)).
  - by apply vpclmul_first.
  - lia.
  - intros [[[[x0 x1] x2] x3] ptr] (Hx0 & Hx1 & Hx2 & Hc & Hr) Hlt%Nat.ltb_lt.
    assert (128 <= length data - ptr) as Hge.
    { destruct (Nat.lt_ge_cases (length data - ptr) 128); [|done]. rewrite Nat.mod_small in Hr; lia. }
    rewrite !load_lanes_Ok by lia. bind_step. apply wp_ret. split; [|lia].
    pose proof (proj1 Hc) as Hlen. rewrite !length_app in Hlen.
    split_and!; try (change [c8; c8] with (replicate 2 c8); rewrite fold_block256_same by done;
      rewrite length_zip_with, length_blocks; lia).
    + apply vpclmul_stride; (assumption || lia).
    + replace (length data - (ptr + 128)) with (length data - ptr - 1 * 128) by lia.
      apply mod_sub_multiple; [exact Hr|lia].
  - intros [[[[x0 x1] x2] x3] ptr] (Hx0 & Hx1 & Hx2 & Hc & Hr) Hge%Nat.ltb_ge.
    pose proof (proj1 Hc) as Hlen. rewrite !length_app in Hlen.
    destruct (lanes2 x0 Hx0) as (a0 & a1 & ->), (lanes2 x1 Hx1) as (a2 & a3 & ->),
      (lanes2 x2 Hx2) as (a4 & a5 & ->), (lanes2 x3 ltac:(lia)) as (a6 & a7 & ->).
    apply wp_ret.
    apply (consumed_collapse data s [a0; a1; a2; a3; a4; a5; a6] a7
      [c7; c6; c5; c4; c3; c2; c1] ptr) in Hc;
      [|done|exact Hcs].
    assert (ptr = length data) as -> by (destruct Hc as (_ & _ & ? & _); lia).
    refine (eq_ind _ (fun x => consumed data s 1 [x] (length data)) Hc _ _).
    unfold collapse, fold_without_next_lanes, lanes_clmulepi64, lanes_xor, lane, fold_without_next.
    cbn [zip zip_with foldl nth]. zbits.
Qed.

(** ** Chunked loops *)

Section chunks.
Context (w : Z) (Hw : (8 <= w)%Z) (HPOLY : word w POLY).

(** A loop that consumes [k] bytes per turn, each turn stepping the register
    over the bytes it drops *)
Lemma wp_chunks {E} k fuel (body : Z * list byte -> outcome E (Z * list byte)) s data
    (Q : Z * list byte -> Prop) (R : E -> Prop) :
  0 < k -> word w s -> length data < fuel ->
  (forall s rem, word w s -> k <= length rem ->
    body (s, rem) = Ok (crc_bytes POLY s (take k rem), drop k rem)) ->
  (forall s' rem', word w s' -> crc_bytes POLY s' rem' = crc_bytes POLY s data ->
    length rem' <= length data -> length rem' < k -> Q (s', rem')) ->
  wp (while_loop fuel (fun '(_, rem) => k <=? length rem) body (s, data)) Q R.
Proof.
  intros Hk Hs Hfuel Hbody HQ.
  apply (wp_while (fun '(s', rem') => word w s' /\ crc_bytes POLY s' rem' = crc_bytes POLY s data /\
    length rem' <= length data) (fun '(_, rem') => length rem')); [done|done| |].
  - intros [s' rem'] (Hs' & Heq & Hl) Hc%Nat.leb_le. rewrite Hbody by done. simpl. split_and!.
    + by apply word_crc_bytes.
    + by rewrite <-crc_bytes_app, take_drop.
    + rewrite length_drop. lia.
    + rewrite length_drop. lia.
  - intros [s' rem'] (Hs' & Heq & Hl) Hc%Nat.leb_gt. by apply HQ.
Qed.

End chunks.

End steps.

End Clmul.
