(* ===== verification/Zbc.v ===== *)
(** The RISC-V Zbc folding kernel: [crates/checksum/src/riscv64_zbc_crc32.rs]
    and the module [riscv64_zbc] of [crc64.rs], which share everything but the
    constants and the final reduction.  A pair of 64-bit words stands for a
    128-bit lane; loads must be aligned, so the kernel takes the address of the
    buffer.  The kernel keeps the checksum of the data it has consumed. *)

From Stdlib Require Import Btauto.
From coqutil Require Import Word.LittleEndianList.
From S2P Require Import Prelude Crc Clmul.

Module Zbc.
Import Crc Clmul.

Record Polynomial := MkPolynomial { low : Z; high : Z }.

Definition poly_xor (self other : Polynomial) : Polynomial :=
  MkPolynomial (Z.lxor (low self) (low other)) (Z.lxor (high self) (high other)).

(** The instructions [clmul] and [clmulh] *)
Definition clmul_low (lhs rhs : Z) : Z := lo64 (clmul lhs rhs).
Definition clmul_high (lhs rhs : Z) : Z := hi64 (clmul lhs rhs).

Definition multiply (lhs rhs : Z) : Polynomial := MkPolynomial (clmul_low lhs rhs) (clmul_high lhs rhs).

(** [align_offset] of [u64] at the byte [ptr] of a buffer at [addr] *)
Definition align_offset (addr : Z) (ptr : nat) : nat := Z.to_nat ((- (addr + Z.of_nat ptr)) mod 8).

Definition load_block {E} (addr : Z) (data : list byte) (ptr : nat) : outcome E Polynomial :=
  _ ← assert_true (align_offset addr ptr =? 0);
  low ← read_le 8 data ptr;
  high ← read_le 8 data (ptr + 8);
  mret (MkPolynomial low high).

Definition fold_without_next (value constant : Polynomial) : Polynomial :=
  poly_xor (multiply (low value) (low constant)) (multiply (high value) (high constant)).

Definition fold_block (value next constant : Polynomial) : Polynomial :=
  poly_xor (fold_without_next value constant) next.

(** [x0] to [x3], at [ptr], [ptr + 16], [ptr + 32] and [ptr + 48] *)
Definition load_four {E} (addr : Z) (data : list byte) (ptr : nat) : outcome E (list Polynomial) :=
  x0 ← load_block addr data ptr;
  x1 ← load_block addr data (ptr + 16);
  x2 ← load_block addr data (ptr + 32);
  x3 ← load_block addr data (ptr + 48);
  mret [x0; x1; x2; x3].

(** The folding loop: the lanes of the data, folded onto the last four *)
Definition fold_loop {E} (p4 : Polynomial) (addr : Z) (data : list byte) (x : list Polynomial) :
    outcome E (list Polynomial) :=
  '(x, _) ← while_loop (S (length data))
    (fun '(_, ptr) => ptr <? length data)
    (fun '(x, ptr) =>
      next ← load_four addr data ptr;
      mret (zip_with (fun x next => fold_block x next p4) x next, ptr + 64)) (x, 64);
  mret x.

(** [update_blocks] up to the reduction; [crc] is the register's state. *)
Definition fold_blocks {E} (p4 p1 : Polynomial) (crc : Z) (addr : Z) (data : list byte) :
    outcome E Polynomial :=
  _ ← assert_true (negb (length data =? 0));
  _ ← assert_true (length data mod 64 =? 0);
  _ ← assert_true (align_offset addr 0 =? 0);
  x ← load_four addr data 0;
  match x with
  | [x0; x1; x2; x3] =>
      x ← fold_loop p4 addr data [poly_xor x0 (MkPolynomial crc 0); x1; x2; x3];
      match x with
      | [x0; x1; x2; x3] =>
          let x1 := poly_xor x1 (fold_without_next x0 p1) in
          let x2 := poly_xor x2 (fold_without_next x1 p1) in
          let x3 := poly_xor x3 (fold_without_next x2 p1) in
          mret x3
      | _ => Panic
      end
  | _ => Panic
  end.

(** ** Lanes *)

(** The lane that a pair of words stands for *)
Definition value (p : Polynomial) : Z := words64 (low p) (high p).

Definition words_ok (p : Polynomial) : Prop := below 64 (low p) /\ below 64 (high p).

Lemma words64_lxor lo hi : below 64 lo -> words64 lo hi = Z.lxor lo (Z.shiftl hi 64).
Proof.
  intros Hlo. unfold words64. apply below_bits in Hlo as [_ Hlo]; [|lia].
  apply Z.bits_inj'. intros n Hn. rewrite Z.lor_spec, Z.lxor_spec. destruct (Z.lt_ge_cases n 64).
  - rewrite Z.shiftl_spec_low by lia. btauto.
  - rewrite Hlo by lia. btauto.
Qed.

Lemma value_words x : below 128 x -> value (MkPolynomial (lo64 x) (hi64 x)) = x.
Proof.
  intros Hx. unfold value. cbn [low high]. rewrite words64_lxor by apply lo64_below.
  symmetry. by apply split_words.
Qed.

Lemma value_xor p q : words_ok p -> words_ok q -> value (poly_xor p q) = Z.lxor (value p) (value q).
Proof.
  intros [Hp _] [Hq _]. unfold value, poly_xor. cbn [low high].
  rewrite !words64_lxor by (done || by apply below_lxor). rewrite Z.shiftl_lxor. zbits.
Qed.

Lemma xor_ok p q : words_ok p -> words_ok q -> words_ok (poly_xor p q).
Proof. intros [] []. split; apply below_lxor; (lia || done). Qed.

Lemma value_below p : words_ok p -> below 128 (value p).
Proof.
  intros [Hl Hh]. unfold value. rewrite words64_lxor by done. apply below_lxor; [lia| |].
  - by apply (below_weaken 64); [lia|].
  - by apply (below_shiftl 64 64); [lia..|].
Qed.

Lemma value_multiply a b : below 64 b -> value (multiply a b) = clmul a b.
Proof.
  intros Hb. apply value_words. apply (below_weaken (64 + 63)); [lia|]. by apply clmul_below; [lia|].
Qed.

Lemma multiply_ok a b : words_ok (multiply a b).
Proof. split; [apply lo64_below|apply hi64_below]. Qed.

Lemma lo64_value p : words_ok p -> lo64 (value p) = low p.
Proof.
  intros [Hl Hh]. unfold value. rewrite words64_lxor, linear_lo64, (lo64_small (low p)) by done.
  rewrite lo64_mod, Z.shiftl_mul_pow2, Z.mod_mul by lia. apply Z.lxor_0_r.
Qed.

Lemma hi64_value p : words_ok p -> hi64 (value p) = high p.
Proof.
  intros [Hl Hh]. unfold value. rewrite words64_lxor, linear_hi64 by done. unfold hi64.
  rewrite Z.shiftr_shiftl_l, Z.shiftl_0_r by lia. fold (lo64 (high p)). rewrite (lo64_small (high p)) by done.
  rewrite Z.shiftr_div_pow2, Z.div_small by (unfold below in Hl; lia). reflexivity.
Qed.

(** The lane-wise constant with its words swapped *)
Definition swapped (c : Polynomial) : Z := words64 (high c) (low c).

(** Folding a pair of words is folding its lane. *)
Lemma value_fold p c :
  words_ok p -> words_ok c -> value (fold_without_next p c) = Clmul.fold_without_next (value p) (swapped c).
Proof.
  intros Hp Hc. unfold fold_without_next. rewrite value_xor by apply multiply_ok.
  rewrite !value_multiply by apply Hc.
  unfold Clmul.fold_without_next, mm_clmulepi64. simpl Z.testbit. cbv iota zeta.
  rewrite (lo64_value p), (hi64_value p) by done.
  change (swapped c) with (value (MkPolynomial (high c) (low c))).
  rewrite lo64_value, hi64_value by (split; apply Hc). apply Z.lxor_comm.
Qed.

Lemma fold_ok p c : words_ok (fold_without_next p c).
Proof. apply xor_ok; apply multiply_ok. Qed.

(** ** Loads *)

Definition poly_at (data : list byte) (ptr : nat) : Polynomial :=
  MkPolynomial (le_combine (take 8 (drop ptr data))) (le_combine (take 8 (drop (ptr + 8) data))).

Definition aligned (addr : Z) (ptr : nat) : Prop := ((addr + Z.of_nat ptr) mod 8 = 0)%Z.

Lemma aligned_offset addr ptr : aligned addr ptr -> align_offset addr ptr = 0.
Proof.
  intros H. unfold align_offset. rewrite Z.mod_opp_l_z by (lia || exact H). reflexivity.
Qed.

Lemma aligned_add addr ptr k : aligned addr ptr -> k mod 8 = 0 -> aligned addr (ptr + k).
Proof.
  unfold aligned. intros H Hk. apply Nat.Div0.mod_divides in Hk as [j ->].
  replace (addr + Z.of_nat (ptr + 8 * j))%Z with (addr + Z.of_nat ptr + Z.of_nat j * 8)%Z by lia.
  by rewrite Z.mod_add.
Qed.

Lemma word8_below data ptr : below 64 (le_combine (take 8 (drop ptr data))).
Proof.
  apply (below_weaken (8 * Z.of_nat (length (take 8 (drop ptr data))))); [|apply le_combine_below].
  rewrite length_take. lia.
Qed.

Lemma poly_at_ok data ptr : words_ok (poly_at data ptr).
Proof. split; apply word8_below. Qed.

Lemma value_poly_at data ptr :
  ptr + 16 <= length data -> value (poly_at data ptr) = block_at data ptr.
Proof.
  intros H. unfold value, poly_at, block_at, words64. cbn [low high].
  change 16 with (8 + 8). rewrite <-(take_take_drop (drop ptr data) 8 8), drop_drop.
  rewrite (le_combine_app (take 8 (drop ptr data))). rewrite length_take, length_drop.
  replace (8 `min` (length data - ptr)) with 8 by lia. reflexivity.
Qed.

Lemma load_block_Ok {E} addr data ptr :
  aligned addr ptr -> ptr + 16 <= length data -> load_block (E:=E) addr data ptr = Ok (poly_at data ptr).
Proof.
  intros Ha Hp. unfold load_block. rewrite aligned_offset by done. cbn [Nat.eqb assert_true]. bind_step.
  rewrite !read_le_Ok by lia. reflexivity.
Qed.

Definition polys_at (data : list byte) (ptr : nat) : list Polynomial :=
  [poly_at data ptr; poly_at data (ptr + 16); poly_at data (ptr + 32); poly_at data (ptr + 48)].

Lemma load_four_Ok {E} addr data ptr :
  aligned addr ptr -> ptr + 64 <= length data -> load_four (E:=E) addr data ptr = Ok (polys_at data ptr).
Proof.
  intros Ha Hp. unfold load_four. rewrite !load_block_Ok by (lia || done || by apply aligned_add).
  reflexivity.
Qed.

Lemma value_polys_at data ptr :
  ptr + 64 <= length data -> value <$> polys_at data ptr = blocks_at 4 data ptr.
Proof.
  intros H. rewrite 3!blocks_S, blocks_1. unfold polys_at. rewrite !fmap_cons, fmap_nil, !value_poly_at by lia.
  by replace (ptr + 16 + 16 + 16) with (ptr + 48) by lia; replace (ptr + 16 + 16) with (ptr + 32) by lia.
Qed.

Lemma polys_at_ok data ptr : Forall words_ok (polys_at data ptr).
Proof. repeat constructor; apply word8_below. Qed.

(** ** The kernel *)

Section kernel.
Context (POLY : Z) (p4 p1 : Polynomial).
Context (Hp4 : words_ok p4) (Hp1 : words_ok p1).
Context (H4 : fold_const POLY 4 (swapped p4) = true) (H1 : fold_const POLY 1 (swapped p1) = true).

Lemma value_stride xs next :
  Forall words_ok xs -> Forall words_ok next ->
  value <$> zip_with (fun x n => fold_block x n p4) xs next =
  zip_with (fun x n => Clmul.fold_block x n (swapped p4)) (value <$> xs) (value <$> next).
Proof.
  intros Hxs. revert next. induction Hxs as [|x xs Hx Hxs IH]; intros [|n next] Hn; try reflexivity.
  apply list.Forall_cons in Hn as [Hn Hnext]. cbn [zip_with]. rewrite !fmap_cons. cbn [zip_with].
  rewrite (IH next Hnext). f_equal. unfold fold_block. rewrite value_xor by (apply fold_ok || done).
  by rewrite value_fold, fold_block_eq.
Qed.

Lemma stride_ok xs next : Forall words_ok next -> Forall words_ok (zip_with (fun x n => fold_block x n p4) xs next).
Proof.
  intros H. revert xs. induction H as [|n next Hn H IH]; intros [|x xs]; constructor; [|apply IH].
  apply xor_ok; [apply fold_ok|done].
Qed.

Definition kernel_inv (addr : Z) (data : list byte) (s : Z) (st : list Polynomial * nat) : Prop :=
  let '(x, ptr) := st in
  Forall words_ok x /\ consumed POLY data s 4 (value <$> x) ptr /\ (length data - ptr) mod 64 = 0 /\
  aligned addr ptr.

Lemma fold_loop_spec {E} addr data s x :
  kernel_inv addr data s (x, 64) ->
  returns (fold_loop (E:=E) p4 addr data x)
    (fun x => Forall words_ok x /\ consumed POLY data s 4 (value <$> x) (length data)).
Proof.
  intros Hx. unfold fold_loop.
  apply wp_bind, (wp_while (kernel_inv addr data s) (fun '(_, ptr) => length data - ptr)); [exact Hx|lia| |].
  - intros [x' ptr] (Hok & Hc & Hr & Ha) Hlt%Nat.ltb_lt.
    assert (64 <= length data - ptr) as Hge.
    { destruct (Nat.lt_ge_cases (length data - ptr) 64); [|done]. rewrite Nat.mod_small in Hr; lia. }
    rewrite load_four_Ok by (exact Ha || lia). bind_step. apply wp_ret. split; [|lia]. split_and!.
    + apply stride_ok, polys_at_ok.
    + rewrite value_stride by (exact Hok || apply polys_at_ok). rewrite value_polys_at by lia.
      apply (consumed_stride POLY data s 4); [exact Hc|exact H4|lia].
    + replace (length data - (ptr + 64)) with (length data - ptr - 1 * 64) by lia.
      apply mod_sub_multiple; [exact Hr|lia].
    + by apply aligned_add.
  - intros [x' ptr] (Hok & Hc & Hr & Ha) Hge%Nat.ltb_ge. apply wp_ret. split; [exact Hok|].
    destruct (proj2 (proj2 Hc)) as [Hp _]. by replace (length data) with ptr by lia.
Qed.

(** A pair of words folded onto the next *)
Lemma fold_onto data s n x0 x1 xs ptr :
  Forall words_ok (x0 :: x1 :: xs) -> consumed POLY data s (S (S n)) (value <$> x0 :: x1 :: xs) ptr ->
  Forall words_ok (poly_xor x1 (fold_without_next x0 p1) :: xs) /\
  consumed POLY data s (S n) (value <$> poly_xor x1 (fold_without_next x0 p1) :: xs) ptr.
Proof.
  intros [Hx0 [Hx1 Hxs]%list.Forall_cons]%list.Forall_cons Hc. split.
  - constructor; [apply xor_ok; [exact Hx1|apply fold_ok]|exact Hxs].
  - rewrite fmap_cons, value_xor, value_fold by (assumption || apply fold_ok).
    by apply consumed_onto.
Qed.

Lemma fold_blocks_spec {E} crc addr data :
  below 64 crc -> 0 < length data -> length data mod 64 = 0 -> aligned addr 0 ->
  returns (fold_blocks (E:=E) p4 p1 crc addr data)
    (fun p => words_ok p /\ consumed POLY data crc 1 [value p] (length data)).
Proof.
  intros Hcrc Hl Hm Ha. assert (64 <= length data) as Hge.
  { destruct (Nat.lt_ge_cases (length data) 64); [|done]. rewrite Nat.mod_small in Hm; lia. }
  unfold fold_blocks. rewrite (proj2 (Nat.eqb_neq (length data) 0)), Hm, aligned_offset by (lia || exact Ha).
  cbn [negb Nat.eqb assert_true]. bind_step. rewrite load_four_Ok by (exact Ha || lia). bind_step.
  unfold polys_at. eapply wp_bind_returns.
  - apply (fold_loop_spec addr data crc). pose proof (polys_at_ok data 0) as Hok.
    assert (words_ok (MkPolynomial crc 0)) as Hcok by (split; [exact Hcrc|by apply below_0]).
    apply list.Forall_cons in Hok as [Hx0 Hx]. split_and!.
    + constructor; [by apply xor_ok|exact Hx].
    + rewrite fmap_cons, value_xor by done.
      replace (value (MkPolynomial crc 0)) with crc by (unfold value, words64; cbn [low high];
        by rewrite Z.shiftl_0_l, Z.lor_0_r).
      apply (consumed_first POLY data crc 4); [by apply (below_weaken 64); [lia|]|lia|].
      by rewrite <-value_polys_at by lia.
    + by apply (mod_sub_multiple _ 1 64).
    + by apply (aligned_add addr 0 64).
  - intros x [Hok Hc]. pose proof (proj1 Hc) as Hlen. rewrite length_fmap in Hlen.
    destruct x as [|x0 [|x1 [|x2 [|x3 [|? ?]]]]]; try discriminate.
    destruct (fold_onto _ _ _ _ _ _ _ Hok Hc) as [Hok1 Hc1].
    destruct (fold_onto _ _ _ _ _ _ _ Hok1 Hc1) as [Hok2 Hc2].
    destruct (fold_onto _ _ _ _ _ _ _ Hok2 Hc2) as [Hok3 Hc3].
    apply wp_ret. apply list.Forall_cons in Hok3 as [Hok3 _]. by split.
Qed.

End kernel.

End Zbc.
