(* ===== verification/Crc64.v ===== *)
(** CRC-64/NVME: [crates/checksum/src/crc64.rs].  The table-driven scalar
    routine, the PCLMULQDQ, VPCLMULQDQ and AVX-512 routines, the Arm PMULL
    routines, the RISC-V Zbc routine, backend selection, [checksum], [combine]
    and the streaming [Hasher].  Every routine computes the bit-at-a-time
    register; no load leaves the buffer. *)

From Stdlib Require Import Btauto.
From coqutil Require Import Word.LittleEndianList.
From S2P Require Import Prelude Crc Clmul.

Module Crc64.
Import Crc Clmul.

Definition POLY : Z := 0x9A6C9329AC4BC9B5.

Definition build_tables {E} : outcome E (list (list Z)) := Crc.build_tables POLY.

(** [!x] *)
Definition not64 (x : Z) : Z := crc_not 64 x.

(** ** Scalar *)

(** The table reads for the bytes of a word, the first byte through table [k + 7] *)
Definition reads8 (k : nat) (x : Z) : list (nat * Z) :=
  [(k + 7, Z.land x 0xFF); (k + 6, Z.land (Z.shiftr x 8) 0xFF);
   (k + 5, Z.land (Z.shiftr x 16) 0xFF); (k + 4, Z.land (Z.shiftr x 24) 0xFF);
   (k + 3, Z.land (Z.shiftr x 32) 0xFF); (k + 2, Z.land (Z.shiftr x 40) 0xFF);
   (k + 1, Z.land (Z.shiftr x 48) 0xFF); (k, Z.shiftr x 56)].

Definition extend_scalar {E} (crc : Z) (data : list byte) : outcome E Z :=
  TABLES ← build_tables;
  '(state, remaining) ← while_loop (S (length data))
    (fun '(_, remaining) => 16 <=? length remaining)
    (fun '(state, remaining) =>
      first ← read_le 8 remaining 0;
      second ← read_le 8 remaining 8;
      let mixed := Z.lxor state first in
      state ← xor_tables TABLES (reads8 8 mixed ++ reads8 0 second);
      remaining ← slice remaining 16 (length remaining);
      mret (state, remaining)) (not64 crc, data);
  '(state, remaining) ← while_loop (S (length data))
    (fun '(_, remaining) => 8 <=? length remaining)
    (fun '(state, remaining) =>
      block ← read_le 8 remaining 0;
      let mixed := Z.lxor state block in
      state ← xor_tables TABLES (reads8 0 mixed);
      remaining ← slice remaining 8 (length remaining);
      mret (state, remaining)) (state, remaining);
  state ← update_bytes TABLES state remaining;
  mret (not64 state).

(** ** x86-64 *)

Definition FOLD_1 : Z := words64 0x21e9761e252621ac 0xeadc41fd2ba3d420.
Definition FOLD_8 : Z := words64 0x5f852fb61e8d92dc 0xa1ca681e733f9c40.
Definition FOLD_7 : Z := words64 0x946588403d4adcbc 0xd083dd594d96319d.
Definition FOLD_6 : Z := words64 0x34f5a24e22d66e90 0x3c255f5ebc414423.
Definition FOLD_5 : Z := words64 0x03363823e6e791e5 0x7b0ab10dd0f809fe.
Definition FOLD_4 : Z := words64 0x62242240ace5045a 0x0c32cdb31e18a84a.
Definition FOLD_3 : Z := words64 0xa3ffdc1fe8e82a8b 0xbdd7ac0ee1a4a0f0.
Definition FOLD_2 : Z := words64 0xe1e0bb9d45d7a44c 0xb0bc2e589204f500.
Definition FOLD_128_TO_64 : Z := words64 0x21e9761e252621ac 0x0000000000000000.
Definition BARRETT : Z := words64 0x27ecfa329aef9f77 0x34d926535897936a.
Definition FOLD_8X2 : list Z :=
  [words64 0x5f852fb61e8d92dc 0xa1ca681e733f9c40; words64 0x5f852fb61e8d92dc 0xa1ca681e733f9c40].
Definition FOLD_16X4 : list Z :=
  [words64 0xa043808c0f782663 0x37ccd3e14069cabc; words64 0xa043808c0f782663 0x37ccd3e14069cabc;
   words64 0xa043808c0f782663 0x37ccd3e14069cabc; words64 0xa043808c0f782663 0x37ccd3e14069cabc].
Definition FOLD_8X4 : list Z :=
  [words64 0x5f852fb61e8d92dc 0xa1ca681e733f9c40; words64 0x5f852fb61e8d92dc 0xa1ca681e733f9c40;
   words64 0x5f852fb61e8d92dc 0xa1ca681e733f9c40; words64 0x5f852fb61e8d92dc 0xa1ca681e733f9c40].
Definition FOLD_7_6 : list Z :=
  [words64 0x946588403d4adcbc 0xd083dd594d96319d; words64 0x34f5a24e22d66e90 0x3c255f5ebc414423].
Definition FOLD_5_4 : list Z :=
  [words64 0x03363823e6e791e5 0x7b0ab10dd0f809fe; words64 0x62242240ace5045a 0x0c32cdb31e18a84a].
Definition FOLD_3_2 : list Z :=
  [words64 0xa3ffdc1fe8e82a8b 0xbdd7ac0ee1a4a0f0; words64 0xe1e0bb9d45d7a44c 0xb0bc2e589204f500].

Definition load_block {E} (data : list byte) (ptr : nat) : outcome E Z := read_le 16 data ptr.
Definition load_block512 {E} (data : list byte) (ptr : nat) : outcome E (list Z) := load_lanes 4 data ptr.

Definition xor_crc (block crc : Z) : Z := Z.lxor block (words64 crc 0).
Definition xor_crc512 (block : list Z) (crc : Z) : list Z :=
  lanes_xor block [words64 crc 0; words64 0 0; words64 0 0; words64 0 0].

Definition reduce_to_crc (x : Z) : Z :=
  let fold := FOLD_128_TO_64 in
  let hi := mm_srli 8 x in
  let folded := Z.lxor (mm_clmulepi64 0x00 x fold) hi in
  let y := mm_clmulepi64 0x00 folded BARRETT in
  let y_shifted := mm_slli 8 y in
  let z := mm_clmulepi64 0x10 y BARRETT in
  let reduced := Z.lxor (Z.lxor z y_shifted) folded in
  hi64 reduced.

(** The registers [x0] to [x7] are a list of lanes. *)
Definition x86_extend_blocks_only {E} (crc : Z) (data : list byte) : outcome E Z :=
  let fold_1 := FOLD_1 in
  let remaining := length data in
  '(state, ptr, remaining) ← (
    if 128 <=? length data then
      let fold_8 := FOLD_8 in
      x0 ← load_block data 0;
      x ← load_lanes 7 data 16;
      let x := xor_crc x0 (not64 crc) :: x in
      '(x, ptr, remaining) ← while_loop (S (length data))
        (fun '(_, _, remaining) => 128 <=? remaining)
        (fun '(x, ptr, remaining) =>
          next ← load_lanes 8 data ptr;
          mret (zip_with (fun x next => fold_block x next fold_8) x next, ptr + 128, remaining - 128))
        (x, 128, remaining - 128);
      let x7 := lane 7 x in
      let x7 := Z.lxor x7 (fold_without_next (lane 0 x) FOLD_7) in
      let x7 := Z.lxor x7 (fold_without_next (lane 1 x) FOLD_6) in
      let x7 := Z.lxor x7 (fold_without_next (lane 2 x) FOLD_5) in
      let x7 := Z.lxor x7 (fold_without_next (lane 3 x) FOLD_4) in
      let x7 := Z.lxor x7 (fold_without_next (lane 4 x) FOLD_3) in
      let x7 := Z.lxor x7 (fold_without_next (lane 5 x) FOLD_2) in
      let x7 := Z.lxor x7 (fold_without_next (lane 6 x) fold_1) in
      mret (x7, ptr, remaining)
    else
      first ← load_block data 0;
      mret (xor_crc first (not64 crc), 16, remaining - 16));
  '(state, ptr, _) ← while_loop (S (length data))
    (fun '(_, _, remaining) => 16 <=? remaining)
    (fun '(state, ptr, remaining) =>
      next ← load_block data ptr;
      mret (fold_block state next fold_1, ptr + 16, remaining - 16)) (state, ptr, remaining);
  _ ← assert_true (ptr =? length data);
  mret (not64 (reduce_to_crc state)).

Definition extend_blocks_only_vpclmul {E} (crc : Z) (data : list byte) : outcome E Z :=
  state ← vpclmul_fold (VpclmulConstants FOLD_8X2 FOLD_7_6 FOLD_5_4 FOLD_3_2 FOLD_1) (not64 crc) data;
  mret (not64 (reduce_to_crc state)).

Definition extend_blocks_only_avx512 {E} (crc : Z) (data : list byte) : outcome E Z :=
  x0 ← load_block512 data 0;
  x1 ← load_block512 data 64;
  x2 ← load_block512 data 128;
  x3 ← load_block512 data 192;
  '(x0, x1, x2, x3, _) ← while_loop (S (length data))
    (fun '(_, _, _, _, ptr) => ptr <? length data)
    (fun '(x0, x1, x2, x3, ptr) =>
      n0 ← load_block512 data ptr;
      n1 ← load_block512 data (ptr + 64);
      n2 ← load_block512 data (ptr + 128);
      n3 ← load_block512 data (ptr + 192);
      mret (fold_block512 x0 n0 FOLD_16X4, fold_block512 x1 n1 FOLD_16X4,
            fold_block512 x2 n2 FOLD_16X4, fold_block512 x3 n3 FOLD_16X4, ptr + 256))
    (xor_crc512 x0 (not64 crc), x1, x2, x3, 256);
  let x2 := lanes_xor x2 (fold_without_next_lanes x0 FOLD_8X4) in
  let x3 := lanes_xor x3 (fold_without_next_lanes x1 FOLD_8X4) in
  let state := lane 3 x3 in
  let state := Z.lxor state (fold_without_next (lane 0 x2) FOLD_7) in
  let state := Z.lxor state (fold_without_next (lane 1 x2) FOLD_6) in
  let state := Z.lxor state (fold_without_next (lane 2 x2) FOLD_5) in
  let state := Z.lxor state (fold_without_next (lane 3 x2) FOLD_4) in
  let state := Z.lxor state (fold_without_next (lane 0 x3) FOLD_3) in
  let state := Z.lxor state (fold_without_next (lane 1 x3) FOLD_2) in
  let state := Z.lxor state (fold_without_next (lane 2 x3) FOLD_1) in
  mret (not64 (reduce_to_crc state)).

Definition x86_extend {E} (crc : Z) (data : list byte) : outcome E Z :=
  let prefix_len := align_down (length data) 16 in
  if prefix_len <? 32 then extend_scalar crc data
  else
    '(prefix, tail) ← split_at data prefix_len;
    prefix_crc ← x86_extend_blocks_only crc prefix;
    extend_scalar prefix_crc tail.

Definition extend_vpclmul {E} (crc : Z) (data : list byte) : outcome E Z :=
  let prefix_len := align_down (length data) 16 in
  if prefix_len <? 128 then x86_extend crc data
  else
    let prefix_len := align_down prefix_len 128 in
    '(prefix, tail) ← split_at data prefix_len;
    prefix_crc ← extend_blocks_only_vpclmul crc prefix;
    extend_scalar prefix_crc tail.

Definition extend_avx512 {E} (crc : Z) (data : list byte) : outcome E Z :=
  let prefix_len := align_down (length data) 16 in
  if prefix_len <? 256 then extend_vpclmul crc data
  else
    let prefix_len := align_down prefix_len 256 in
    '(prefix, tail) ← split_at data prefix_len;
    prefix_crc ← extend_blocks_only_avx512 crc prefix;
    extend_scalar prefix_crc tail.

(** * Correctness *)

(** The reference: the register, bit by bit, from [!crc] and negated again *)
Definition crc64_reference (crc : Z) (data : list byte) : Z := crc_extend 64 POLY crc data.

Lemma word_POLY : word 64 POLY.
Proof. unfold word, POLY. lia. Qed.

Lemma word_not64 x : word 64 x -> word 64 (not64 x).
Proof. intros H. apply word_lxor; [lia|done|by apply word_ones]. Qed.

(** ** Scalar *)

Lemma reads8_word k x : k <= 8 -> word 64 x -> reads8 k x = word_reads (k + 8) 8 x.
Proof.
  intros Hk Hx. unfold reads8. cbn [word_reads]. rewrite !Z.shiftr_shiftr by lia.
  replace (Z.land (Z.shiftr x (8 + 8 + 8 + 8 + 8 + 8 + 8)) 255) with (Z.shiftr x 56).
  - repeat f_equal; lia.
  - symmetry. apply land_255_small. unfold word in Hx. rewrite Z.shiftr_div_pow2 by lia.
    split; [apply Z.div_pos; lia|]. apply Z.div_lt_upper_bound; lia.
Qed.

Lemma steps_reads8 k x : k <= 8 -> word 64 x -> steps POLY (reads8 k x) = shift POLY (k + 8) x.
Proof. intros Hk Hx. rewrite reads8_word by done. apply steps_word; [lia|done]. Qed.

Lemma reads8_good k x : k <= 8 -> word 64 x -> Forall good_read (reads8 k x).
Proof. intros Hk Hx. rewrite reads8_word by done. apply word_reads_good. lia. Qed.

Lemma word_le_combine b : length b = 8 -> word 64 (le_combine b).
Proof. intros Hb. pose proof (le_combine_below b) as H. by rewrite Hb in H. Qed.

Lemma scalar_block16 {E} s rem :
  word 64 s -> 16 <= length rem ->
  (first ← read_le 8 rem 0;
   second ← read_le 8 rem 8;
   let mixed := Z.lxor s first in
   state ← xor_tables (TABLES POLY) (reads8 8 mixed ++ reads8 0 second);
   remaining ← slice rem 16 (length rem);
   mret (state, remaining)) = Ok (crc_bytes POLY s (take 16 rem), drop 16 rem) :> outcome E _.
Proof.
  intros Hs Hl. rewrite !read_le_Ok by lia. bind_step. cbv zeta.
  set (first := take 8 (drop 0 rem)). set (second := take 8 (drop 8 rem)).
  assert (length first = 8) as Hf by (unfold first; rewrite length_take, length_drop; lia).
  assert (length second = 8) as Hsec by (unfold second; rewrite length_take, length_drop; lia).
  assert (word 64 (Z.lxor s (le_combine first))) as Hm
    by (apply word_lxor; auto using word_le_combine with lia).
  assert (word 64 (le_combine second)) as H2 by auto using word_le_combine.
  rewrite xor_tables_spec by (apply list.Forall_app; split; apply reads8_good; (lia || done)). bind_step.
  rewrite slice_Ok by lia. bind_step. do 2 f_equal.
  - rewrite steps_app, !steps_reads8 by (lia || done).
    replace (take 16 rem) with (first ++ second) by apply (take_take_drop rem 8 8).
    rewrite <-block_step, Hf, Hsec. f_equal. by rewrite crc_bytes_word, Hsec.
  - apply take_ge. rewrite length_drop. lia.
Qed.

Lemma scalar_block8 {E} s rem :
  word 64 s -> 8 <= length rem ->
  (block ← read_le 8 rem 0;
   let mixed := Z.lxor s block in
   state ← xor_tables (TABLES POLY) (reads8 0 mixed);
   remaining ← slice rem 8 (length rem);
   mret (state, remaining)) = Ok (crc_bytes POLY s (take 8 rem), drop 8 rem) :> outcome E _.
Proof.
  intros Hs Hl. rewrite read_le_Ok by lia. bind_step. cbv zeta. rewrite drop_0.
  assert (length (take 8 rem) = 8) as Hf by (rewrite length_take; lia).
  assert (word 64 (Z.lxor s (le_combine (take 8 rem)))) as Hm
    by (apply word_lxor; auto using word_le_combine with lia).
  rewrite xor_tables_spec by (apply reads8_good; (lia || done)). bind_step.
  rewrite slice_Ok by lia. bind_step. do 2 f_equal.
  - rewrite steps_reads8 by (lia || done). by rewrite crc_bytes_word, Hf.
  - apply take_ge. rewrite length_drop. lia.
Qed.

Lemma extend_scalar_spec {E} crc data :
  word 64 crc -> extend_scalar (E:=E) crc data = Ok (crc64_reference crc data).
Proof.
  intros Hcrc. pose proof word_POLY as HP. unfold extend_scalar, build_tables.
  rewrite build_tables_spec. bind_step. apply returns_eq.
  apply wp_bind, (wp_chunks POLY 64 ltac:(lia) HP); [lia|by apply word_not64|lia|apply scalar_block16|].
  intros s rem Hs Heq Hl _.
  apply wp_bind, (wp_chunks POLY 64 ltac:(lia) HP); [lia|done|lia|apply scalar_block8|].
  intros s' rem' Hs' Heq' _ _. rewrite update_bytes_spec. bind_step. apply wp_ret.
  by rewrite Heq', Heq.
Qed.

(** ** x86-64 *)

(** Barrett reduction: both sides are linear, and agree on the powers of two. *)
Lemma reduce_to_crc_spec x : below 128 x -> reduce_to_crc x = shift POLY 16 x.
Proof.
  intros Hx. rewrite step_shift. revert x Hx. apply (linear_basis_check _ _ 128).
  - unfold reduce_to_crc. cbv zeta. linear_map.
  - apply step_linear.
  - vm_compute. reflexivity.
Qed.

Lemma fold_constants :
  fold_const POLY 1 FOLD_1 = true /\ fold_const POLY 8 FOLD_8 = true /\
  fold_const POLY 16 (lane 0 FOLD_16X4) = true /\
  collapse_consts POLY [FOLD_7; FOLD_6; FOLD_5; FOLD_4; FOLD_3; FOLD_2; FOLD_1] = true.
Proof. split_and!; vm_compute; reflexivity. Qed.

Lemma vpclmul_constants_ok :
  vpclmul_ok POLY (VpclmulConstants FOLD_8X2 FOLD_7_6 FOLD_5_4 FOLD_3_2 FOLD_1).
Proof.
  destruct fold_constants as (_ & H8 & _ & Hcs).
  exists FOLD_8, FOLD_7, FOLD_6, FOLD_5, FOLD_4, FOLD_3, FOLD_2. split_and!; [reflexivity|exact H8|exact Hcs].
Qed.

#[local] Opaque fold_const collapse_consts fold_block fold_without_next shift step
  block_at blocks_at reduce_to_crc.

Lemma xor_crc_eq block crc : xor_crc block crc = Z.lxor block crc.
Proof. unfold xor_crc, words64. by rewrite Z.shiftl_0_l, Z.lor_0_r. Qed.

Lemma below_not64 crc : word 64 crc -> below 128 (not64 crc).
Proof. intros H. apply (below_weaken 64); [lia|]. by apply word_not64. Qed.

(** The last step of every vector routine *)
Lemma finish_reduce data crc x ptr :
  consumed POLY data (not64 crc) 1 [x] ptr -> length data <= ptr ->
  not64 (reduce_to_crc x) = crc64_reference crc data.
Proof.
  intros Hc Hend. destruct (consumed_finish _ _ _ _ _ Hc Hend) as [Hx Hr].
  by rewrite reduce_to_crc_spec, Hr.
Qed.

(** A list of known length, element by element *)
Ltac explode l H :=
  repeat (let x := fresh "x" in destruct l as [|x l]; simpl in H; [lia|]);
  destruct l; simpl in H; [|lia].

(** The state of the narrow loop: one lane, and whole lanes remaining *)
Definition narrow (crc : Z) (data : list byte) (st : Z * nat * nat) : Prop :=
  let '(state, ptr, remaining) := st in
  consumed POLY data (not64 crc) 1 [state] ptr /\ ptr + remaining = length data /\ remaining mod 16 = 0.

Lemma narrow_loop {E} crc data st :
  narrow crc data st ->
  returns (E:=E) (while_loop (S (length data))
    (fun '(_, _, remaining) => 16 <=? remaining)
    (fun '(state, ptr, remaining) =>
      next ← load_block data ptr;
      mret (fold_block state next FOLD_1, ptr + 16, remaining - 16)) st)
    (fun '(state, ptr, _) => consumed POLY data (not64 crc) 1 [state] ptr /\ ptr = length data).
Proof.
  intros Hst. destruct fold_constants as (H1 & _).
  apply (wp_while (narrow crc data) (fun '(_, _, remaining) => remaining)); [done| | |].
  - destruct st as [[state ptr] remaining]. destruct Hst as (_ & Hp & _). lia.
  - intros [[state' ptr'] remaining'] (Hc & Hp & Hm) Hle%Nat.leb_le. unfold load_block.
    rewrite read_block_Ok by lia. bind_step. apply wp_ret. split; [|lia]. split_and!.
    + by apply consumed_one; [| |lia].
    + lia.
    + by apply (mod_sub_multiple _ 1 16).
  - intros [[state' ptr'] remaining'] (Hc & Hp & Hm) Hle%Nat.leb_gt. split; [done|].
    rewrite Nat.mod_small in Hm; lia.
Qed.

Lemma wide_loop {E} crc data x ptr remaining :
  consumed POLY data (not64 crc) 8 x ptr -> ptr + remaining = length data -> remaining mod 16 = 0 ->
  returns (E:=E) (while_loop (S (length data))
    (fun '(_, _, remaining) => 128 <=? remaining)
    (fun '(x, ptr, remaining) =>
      next ← load_lanes 8 data ptr;
      mret (zip_with (fun x next => fold_block x next FOLD_8) x next, ptr + 128, remaining - 128))
    (x, ptr, remaining))
    (fun '(x, ptr, remaining) => consumed POLY data (not64 crc) 8 x ptr /\
      ptr + remaining = length data /\ remaining mod 16 = 0).
Proof.
  intros Hx Hp Hm. destruct fold_constants as (_ & H8 & _).
  apply (wp_while (fun '(x, ptr, remaining) => consumed POLY data (not64 crc) 8 x ptr /\
      ptr + remaining = length data /\ remaining mod 16 = 0) (fun '(_, _, remaining) => remaining));
    [split_and!; assumption|lia| |intros [[x' ptr'] remaining'] H _; exact H].
  intros [[x' ptr'] remaining'] (Hc & Hp' & Hm') Hle%Nat.leb_le.
  rewrite load_lanes_Ok by lia. bind_step. apply wp_ret. split; [|lia]. split_and!.
  - by apply (consumed_stride POLY data _ 8 x' ptr' FOLD_8); [| |lia].
  - lia.
  - by apply (mod_sub_multiple _ 8 16).
Qed.

(** The eight lanes folded onto the last *)
Lemma collapse8 data s x ptr :
  consumed POLY data s 8 x ptr ->
  consumed POLY data s 1 [collapse (lane 7 x) (take 7 x) [FOLD_7; FOLD_6; FOLD_5; FOLD_4; FOLD_3; FOLD_2; FOLD_1]] ptr.
Proof.
  intros Hc. destruct fold_constants as (_ & _ & _ & Hcs). pose proof (proj1 Hc) as Hl.
  assert (length (take 7 x) = 7) as Ht by (rewrite length_take; lia).
  apply consumed_collapse; [|by rewrite Ht|assumption].
  rewrite Ht. replace (take 7 x ++ [lane 7 x]) with x; [exact Hc|].
  clear Hc. explode x Hl. reflexivity.
Qed.

Lemma x86_extend_blocks_only_spec {E} crc data :
  word 64 crc -> 16 <= length data -> length data mod 16 = 0 ->
  x86_extend_blocks_only (E:=E) crc data = Ok (crc64_reference crc data).
Proof.
  intros Hcrc Hl Hm. pose proof (below_not64 crc Hcrc) as Hn. unfold x86_extend_blocks_only. cbv zeta.
  apply returns_eq. apply (wp_bind_returns _ _ (narrow crc data)).
  - destruct (Nat.leb_spec 128 (length data)) as [H128|H128]; unfold load_block;
      rewrite read_block_Ok by lia; bind_step; rewrite xor_crc_eq.
    + rewrite load_lanes_Ok by lia. bind_step.
      eapply wp_bind_returns.
      { apply (wide_loop crc data).
        - apply (consumed_first POLY data _ 8); [exact Hn|lia|apply (blocks_S 7)].
        - lia.
        - by apply (mod_sub_multiple _ 8 16). }
      intros [[x ptr] remaining] (Hc & Hp & Hr). apply wp_ret. split_and!; [|exact Hp|exact Hr].
      pose proof (proj1 Hc) as Hlx. apply collapse8 in Hc. clear - Hc Hlx. explode x Hlx. exact Hc.
    + apply wp_ret. split_and!.
      * apply (consumed_first POLY data _ 1); [exact Hn|lia|apply blocks_1].
      * lia.
      * by apply (mod_sub_multiple _ 1 16).
  - intros [[state0 ptr0] remaining0] Hst. eapply wp_bind_returns; [by apply narrow_loop|].
    intros [[state ptr] remaining] [Hc ->]. rewrite Nat.eqb_refl. bind_step. apply wp_ret.
    apply (finish_reduce data crc state (length data)); [exact Hc|lia].
Qed.

Lemma extend_blocks_only_vpclmul_spec {E} crc data :
  word 64 crc -> 128 <= length data -> length data mod 128 = 0 ->
  extend_blocks_only_vpclmul (E:=E) crc data = Ok (crc64_reference crc data).
Proof.
  intros Hcrc Hl Hm. apply returns_eq. unfold extend_blocks_only_vpclmul. eapply wp_bind_returns.
  - apply (vpclmul_fold_spec POLY); [apply vpclmul_constants_ok|by apply below_not64|exact Hl|exact Hm].
  - intros x Hc. apply wp_ret, (finish_reduce data crc x (length data)); [exact Hc|lia].
Qed.

Lemma blocks_16 data ptr :
  blocks_at 16 data ptr =
  blocks_at 4 data ptr ++ blocks_at 4 data (ptr + 64) ++ blocks_at 4 data (ptr + 128) ++
  blocks_at 4 data (ptr + 192).
Proof.
  rewrite (blocks_app 4 12), (blocks_app 4 8), (blocks_app 4 4).
  replace (ptr + 16 * 4 + 16 * 4 + 16 * 4) with (ptr + 192) by lia.
  by replace (ptr + 16 * 4 + 16 * 4) with (ptr + 128) by lia.
Qed.

Lemma lanes4 (x : list Z) : length x = 4 -> exists a b c d, x = [a; b; c; d].
Proof. intros H. destruct x as [|a [|b [|c [|d [|e x]]]]]; try discriminate. eauto. Qed.

Lemma xor_crc512_eq a b c d crc : xor_crc512 [a; b; c; d] crc = [Z.lxor a crc; b; c; d].
Proof.
  unfold xor_crc512, lanes_xor, words64. cbn [zip_with].
  by rewrite !Z.shiftl_0_l, !Z.lor_0_r, !Z.lxor_0_r.
Qed.

Definition avx512_inv (data : list byte) (s : Z) (st : list Z * list Z * list Z * list Z * nat) : Prop :=
  let '(x0, x1, x2, x3, ptr) := st in
  length x0 = 4 /\ length x1 = 4 /\ length x2 = 4 /\
  consumed POLY data s 16 (x0 ++ x1 ++ x2 ++ x3) ptr /\ (length data - ptr) mod 256 = 0.

Lemma avx512_first data s :
  below 128 s -> 256 <= length data -> length data mod 256 = 0 ->
  avx512_inv data s (xor_crc512 (blocks_at 4 data 0) s, blocks_at 4 data 64, blocks_at 4 data 128,
                     blocks_at 4 data 192, 256).
Proof.
  intros Hs Hl Hm. destruct (lanes4 _ (length_blocks 4 data 0)) as (a & b & c & d & Hb).
  rewrite Hb, xor_crc512_eq.
  split_and!; [reflexivity|apply length_blocks..| |by apply (mod_sub_multiple _ 1 256)].
  apply (consumed_first POLY data s 16); [exact Hs|lia|]. rewrite (blocks_16 data 0), Hb. reflexivity.
Qed.

Lemma avx512_stride data s x0 x1 x2 x3 ptr :
  length x0 = 4 -> length x1 = 4 -> length x2 = 4 ->
  consumed POLY data s 16 (x0 ++ x1 ++ x2 ++ x3) ptr -> ptr + 256 <= length data ->
  consumed POLY data s 16
    (fold_block512 x0 (blocks_at 4 data ptr) FOLD_16X4 ++
     fold_block512 x1 (blocks_at 4 data (ptr + 64)) FOLD_16X4 ++
     fold_block512 x2 (blocks_at 4 data (ptr + 128)) FOLD_16X4 ++
     fold_block512 x3 (blocks_at 4 data (ptr + 192)) FOLD_16X4) (ptr + 256).
Proof.
  intros H0 H1 H2 Hx Hp. pose proof (proj1 Hx) as Hl. rewrite !length_app in Hl.
  destruct fold_constants as (_ & _ & H16 & _).
  change FOLD_16X4 with (replicate 4 (lane 0 FOLD_16X4)).
  rewrite !fold_block512_same by (lia || apply blocks_below).
  apply (consumed_stride POLY data s 16 _ ptr (lane 0 FOLD_16X4)) in Hx; [|exact H16|lia]. rewrite blocks_16 in Hx.
  rewrite !zip_with_app in Hx by (rewrite length_blocks; lia). exact Hx.
Qed.

(** The upper eight lanes, with the lower eight folded onto them *)
Lemma avx512_halves data s x0 x1 x2 x3 ptr :
  length x0 = 4 -> length x1 = 4 -> length x2 = 4 -> length x3 = 4 ->
  consumed POLY data s 16 (x0 ++ x1 ++ x2 ++ x3) ptr ->
  consumed POLY data s 8
    (lanes_xor x2 (fold_without_next_lanes x0 FOLD_8X4) ++
     lanes_xor x3 (fold_without_next_lanes x1 FOLD_8X4)) ptr.
Proof.
  intros H0 H1 H2 H3 (_ & Hb & Hp & Hr).
  rewrite !list.Forall_app in Hb. destruct Hb as (B0 & B1 & B2 & B3).
  assert (lanes_xor x2 (fold_without_next_lanes x0 FOLD_8X4) ++
          lanes_xor x3 (fold_without_next_lanes x1 FOLD_8X4) =
          zip_with (fun x n => fold_block x n FOLD_8) (x0 ++ x1) (x2 ++ x3)) as ->.
  { rewrite zip_with_app by lia. change FOLD_8X4 with (replicate 4 FOLD_8).
    rewrite <-!(fold_block256_same 4) by done.
    rewrite !(lanes_xor_comm _ (fold_without_next_lanes _ _)). reflexivity. }
  split_and!; [rewrite length_zip_with, !length_app; lia| |done|].
  - apply zip_fold_below, list.Forall_app. done.
  - rewrite (run_stride POLY 8 FOLD_8); [|exact (proj1 (proj2 fold_constants))|by apply list.Forall_app|rewrite length_app; lia..].
    rewrite <-Hr. unfold run. rewrite <-foldl_app. f_equal. by rewrite <-app_assoc.
Qed.

Lemma extend_blocks_only_avx512_spec {E} crc data :
  word 64 crc -> 256 <= length data -> length data mod 256 = 0 ->
  extend_blocks_only_avx512 (E:=E) crc data = Ok (crc64_reference crc data).
Proof.
  intros Hcrc Hl Hm. apply returns_eq. unfold extend_blocks_only_avx512, load_block512.
  rewrite !load_lanes_Ok by lia. bind_step.
  apply wp_bind, (wp_while (avx512_inv data (not64 crc)) (fun '(_, _, _, _, ptr) => length data - ptr)).
  - apply avx512_first; [by apply below_not64|exact Hl|exact Hm].
  - lia.
  - intros [[[[x0 x1] x2] x3] ptr] (Hx0 & Hx1 & Hx2 & Hc & Hr) Hlt%Nat.ltb_lt.
    assert (256 <= length data - ptr) as Hge.
    { destruct (Nat.lt_ge_cases (length data - ptr) 256); [|done]. rewrite Nat.mod_small in Hr; lia. }
    rewrite !load_lanes_Ok by lia. bind_step. apply wp_ret. split; [|lia].
    split_and!; try (change FOLD_16X4 with (replicate 4 (lane 0 FOLD_16X4));
      rewrite fold_block512_same by (assumption || apply blocks_below);
      rewrite length_zip_with, length_blocks; lia).
    + apply avx512_stride; (assumption || lia).
    + replace (length data - (ptr + 256)) with (length data - ptr - 1 * 256) by lia.
      apply mod_sub_multiple; [exact Hr|lia].
  - intros [[[[x0 x1] x2] x3] ptr] (Hx0 & Hx1 & Hx2 & Hc & Hr) Hge%Nat.ltb_ge.
    pose proof (proj1 Hc) as Hlen. rewrite !length_app in Hlen.
    apply avx512_halves in Hc; [|(assumption || lia)..]. apply collapse8 in Hc.
    apply wp_ret, (finish_reduce data crc _ ptr); [|exact Hge].
    destruct (lanes4 x0 Hx0) as (? & ? & ? & ? & ->), (lanes4 x1 Hx1) as (? & ? & ? & ? & ->),
      (lanes4 x2 Hx2) as (? & ? & ? & ? & ->), (lanes4 x3 ltac:(lia)) as (? & ? & ? & ? & ->).
    exact Hc.
Qed.

#[local] Opaque extend_scalar.

(** ** Prefix and tail *)

Lemma word_reference crc data : word 64 crc -> word 64 (crc64_reference crc data).
Proof. intros H. apply word_crc_extend; [lia|apply word_POLY|done]. Qed.

Lemma reference_nil crc : crc64_reference crc [] = crc.
Proof. apply crc_not_not. Qed.

Lemma reference_app crc d1 d2 :
  crc64_reference crc (d1 ++ d2) = crc64_reference (crc64_reference crc d1) d2.
Proof. apply crc_extend_app. Qed.

(** A routine for the prefix, then the scalar routine for the tail *)
Lemma prefix_tail {E} (blocks : Z -> list byte -> outcome E Z) crc data n :
  word 64 crc -> n <= length data ->
  blocks crc (take n data) = Ok (crc64_reference crc (take n data)) ->
  ('(prefix, tail) ← split_at data n;
   prefix_crc ← blocks crc prefix;
   extend_scalar prefix_crc tail) = Ok (crc64_reference crc data).
Proof.
  intros Hcrc Hn Hb. rewrite split_at_Ok by exact Hn. bind_step.
  rewrite Hb. bind_step. rewrite extend_scalar_spec by by apply word_reference.
  by rewrite <-reference_app, take_drop.
Qed.

Lemma x86_extend_spec {E} crc data :
  word 64 crc -> x86_extend (E:=E) crc data = Ok (crc64_reference crc data).
Proof.
  intros Hcrc. unfold x86_extend. destruct (align_down_mod (length data) 16 ltac:(lia)) as (Hm & Hle & _).
  destruct (Nat.ltb_spec (align_down (length data) 16) 32); [by apply extend_scalar_spec|].
  apply prefix_tail; [done..|]. apply x86_extend_blocks_only_spec; [done| |]; rewrite length_take_le by lia; lia.
Qed.

Lemma extend_vpclmul_spec {E} crc data :
  word 64 crc -> extend_vpclmul (E:=E) crc data = Ok (crc64_reference crc data).
Proof.
  intros Hcrc. unfold extend_vpclmul. destruct (align_down_mod (length data) 16 ltac:(lia)) as (_ & Hle & _).
  destruct (Nat.ltb_spec (align_down (length data) 16) 128); [by apply x86_extend_spec|]. cbv zeta.
  destruct (align_down_mod (align_down (length data) 16) 128 ltac:(lia)) as (Hm & Hle' & Hgt).
  apply prefix_tail; [done|lia|].
  apply extend_blocks_only_vpclmul_spec; [done| |]; rewrite length_take_le by lia; [|done].
  by apply align_down_pos.
Qed.

Lemma extend_avx512_spec {E} crc data :
  word 64 crc -> extend_avx512 (E:=E) crc data = Ok (crc64_reference crc data).
Proof.
  intros Hcrc. unfold extend_avx512. destruct (align_down_mod (length data) 16 ltac:(lia)) as (_ & Hle & _).
  destruct (Nat.ltb_spec (align_down (length data) 16) 256); [by apply extend_vpclmul_spec|]. cbv zeta.
  destruct (align_down_mod (align_down (length data) 16) 256 ltac:(lia)) as (Hm & Hle' & Hgt).
  apply prefix_tail; [done|lia|].
  apply extend_blocks_only_avx512_spec; [done| |]; rewrite length_take_le by lia; [|done].
  by apply align_down_pos.
Qed.

End Crc64.
