(* ===== verification/Crc64Api.v ===== *)
(** CRC-64/NVME, the other architectures and the interface of
    [crates/checksum/src/crc64.rs]: the Arm PMULL and RISC-V Zbc routines,
    [pure_rust_backend] and [extend], [checksum], [combine] and [Hasher].
    Whatever the processor offers, [extend] is the bit-at-a-time register; the
    hasher does not depend on how the data is cut, [combine] joins checksums,
    and a damaged run of eight bytes is always detected. *)

From coqutil Require Import Word.LittleEndianList.
From S2P Require Import Prelude Crc Clmul Zbc Crc64.

Module Crc64Api.
Import Crc Clmul Crc64.

(** ** Constants of the Arm and RISC-V routines *)

Definition P4_LOW : Z := 0x0C32CDB31E18A84A.
Definition P4_HIGH : Z := 0x62242240ACE5045A.
Definition P1_LOW : Z := 0xEADC41FD2BA3D420.
Definition P1_HIGH : Z := 0x21E9761E252621AC.
Definition P0_LOW : Z := 0x21E9761E252621AC.
Definition BR_LOW : Z := 0x27ECFA329AEF9F77.
Definition BR_HIGH : Z := 0x34D926535897936B.

(** ** Arm *)

Definition poly64x2 (lo hi : Z) : Z := words64 lo hi.
Definition low64_as_u8x16 (value : Z) : Z := words64 value 0.
Definition arm_xor_crc (block crc : Z) : Z := Z.lxor block (low64_as_u8x16 crc).
Definition arm_clmul_low (x y : Z) : Z := clmul (lo64 x) (lo64 y).
Definition arm_clmul_high (x y : Z) : Z := clmul (hi64 x) (hi64 y).

Definition arm_fold_block (x next constant : Z) : Z :=
  Z.lxor (Z.lxor (arm_clmul_low x constant) (arm_clmul_high x constant)) next.

Definition arm_fold_without_next (x constant : Z) : Z :=
  Z.lxor (arm_clmul_low x constant) (arm_clmul_high x constant).

Definition arm_reduce_to_crc (x : Z) : Z :=
  let folded :=
    let tmp_low := clmul (lo64 x) P0_LOW in
    let tmp_high := low64_as_u8x16 (hi64 x) in
    Z.lxor tmp_low tmp_high in
  let y := clmul (lo64 folded) BR_LOW in
  let y_low := lo64 y in
  let y_shifted := words64 0 y_low in
  let z := clmul y_low BR_HIGH in
  let reduced := Z.lxor (Z.lxor z y_shifted) folded in
  hi64 reduced.

(** The registers [x0] to [x3] are a list of lanes. *)
Definition arm_extend_blocks_only {E} (crc : Z) (data : list byte) : outcome E Z :=
  let p4 := poly64x2 P4_LOW P4_HIGH in
  let p1 := poly64x2 P1_LOW P1_HIGH in
  x0 ← read_le 16 data 0;
  x ← load_lanes 3 data 16;
  '(x, _) ← while_loop (S (length data))
    (fun '(_, ptr) => ptr <? length data)
    (fun '(x, ptr) =>
      next ← load_lanes 4 data ptr;
      mret (zip_with (fun x next => arm_fold_block x next p4) x next, ptr + 64))
    (arm_xor_crc x0 (not64 crc) :: x, 64);
  let x1 := Z.lxor (lane 1 x) (arm_fold_without_next (lane 0 x) p1) in
  let x2 := Z.lxor (lane 2 x) (arm_fold_without_next x1 p1) in
  let x3 := Z.lxor (lane 3 x) (arm_fold_without_next x2 p1) in
  mret (not64 (arm_reduce_to_crc x3)).

Definition arm_extend {E} (crc : Z) (data : list byte) : outcome E Z :=
  let prefix_len := align_down (length data) 64 in
  if prefix_len <? 64 then extend_scalar crc data
  else
    '(prefix, tail) ← split_at data prefix_len;
    prefix_crc ← arm_extend_blocks_only crc prefix;
    extend_scalar prefix_crc tail.

(** The SHA3 routines repeat the bodies above. *)
Definition extend_blocks_only_sha3 {E} (crc : Z) (data : list byte) : outcome E Z :=
  arm_extend_blocks_only crc data.

Definition extend_sha3 {E} (crc : Z) (data : list byte) : outcome E Z :=
  let prefix_len := align_down (length data) 64 in
  if prefix_len <? 64 then extend_scalar crc data
  else
    '(prefix, tail) ← split_at data prefix_len;
    prefix_crc ← extend_blocks_only_sha3 crc prefix;
    extend_scalar prefix_crc tail.

(** ** RISC-V *)

Definition zbc_reduce_to_crc (value : Zbc.Polynomial) : Z :=
  let folded := Zbc.poly_xor (Zbc.multiply (Zbc.low value) P0_LOW) (Zbc.MkPolynomial (Zbc.high value) 0) in
  let quotient_low := Zbc.clmul_low (Zbc.low folded) BR_LOW in
  let reduced := Zbc.poly_xor (Zbc.poly_xor (Zbc.multiply quotient_low BR_HIGH)
    (Zbc.MkPolynomial 0 quotient_low)) folded in
  Zbc.high reduced.

Definition zbc_extend_blocks_only {E} (crc addr : Z) (data : list byte) : outcome E Z :=
  x3 ← Zbc.fold_blocks (Zbc.MkPolynomial P4_LOW P4_HIGH) (Zbc.MkPolynomial P1_LOW P1_HIGH)
         (not64 crc) addr data;
  mret (not64 (zbc_reduce_to_crc x3)).

Definition zbc_extend {E} (crc addr : Z) (data : list byte) : outcome E Z :=
  let unaligned_len := Zbc.align_offset addr 0 `min` length data in
  '(unaligned, aligned) ← split_at data unaligned_len;
  aligned_crc ← extend_scalar crc unaligned;
  let prefix_len := align_down (length aligned) 64 in
  if prefix_len <? 64 then extend_scalar aligned_crc aligned
  else
    '(prefix, tail) ← split_at aligned prefix_len;
    prefix_crc ← zbc_extend_blocks_only aligned_crc (addr + Z.of_nat unaligned_len) prefix;
    extend_scalar prefix_crc tail.

(** ** Backend selection *)

Inductive PureRustBackend :=
  Scalar | Avx512X86_64 | VpclmulX86_64 | PclmulX86_64 | PmullSha3Aarch64 | PmullAarch64 | ZbcRiscv64.

Definition has_pclmul_x86_64 (cpu : cpu_features) : bool := has_pclmulqdq cpu.
Definition has_vpclmul_x86_64 (cpu : cpu_features) : bool :=
  has_pclmulqdq cpu && has_vpclmulqdq cpu && has_avx2 cpu.
Definition has_avx512_x86_64 (cpu : cpu_features) : bool :=
  has_pclmulqdq cpu && has_vpclmulqdq cpu && has_avx512f cpu.

Definition pure_rust_backend (arch : target_arch) (cpu : cpu_features) : PureRustBackend :=
  match arch with
  | X86_64 =>
      if has_avx512_x86_64 cpu then Avx512X86_64
      else if has_vpclmul_x86_64 cpu then VpclmulX86_64
      else if has_pclmul_x86_64 cpu then PclmulX86_64
      else Scalar
  | Aarch64 =>
      if has_aes cpu && has_sha3 cpu then PmullSha3Aarch64
      else if has_aes cpu then PmullAarch64
      else Scalar
  | Riscv64 => if has_zbc cpu then ZbcRiscv64 else Scalar
  | OtherArch => Scalar
  end.

(** [data] lies at [addr]. *)
Definition extend {E} (arch : target_arch) (cpu : cpu_features) (crc addr : Z) (data : list byte) :
    outcome E Z :=
  match pure_rust_backend arch cpu with
  | Scalar => extend_scalar crc data
  | Avx512X86_64 => extend_avx512 crc data
  | VpclmulX86_64 => extend_vpclmul crc data
  | PclmulX86_64 => x86_extend crc data
  | PmullSha3Aarch64 => extend_sha3 crc data
  | PmullAarch64 => arm_extend crc data
  | ZbcRiscv64 => zbc_extend crc addr data
  end.

(** ** The interface *)

Definition checksum {E} (arch : target_arch) (cpu : cpu_features) (addr : Z) (data : list byte) :
    outcome E Z := extend arch cpu 0 addr data.

Definition combine {E} (crc_a crc_b len_b : Z) : outcome E Z := Crc.combine 64 POLY crc_a crc_b len_b.

Record Hasher := MkHasher { crc : Z }.

Definition new : Hasher := MkHasher 0.
Definition update {E} (arch : target_arch) (cpu : cpu_features) (self : Hasher) (addr : Z)
    (data : list byte) : outcome E Hasher :=
  crc ← extend arch cpu (crc self) addr data;
  mret (MkHasher crc).
Definition finalize (self : Hasher) : Z := crc self.
Definition reset (self : Hasher) : Hasher := MkHasher 0.

(** Several chunks, each at its address *)
Definition update_all {E} (arch : target_arch) (cpu : cpu_features) (self : Hasher)
    (chunks : list (Z * list byte)) : outcome E Hasher :=
  foldM (fun h '(addr, data) => update arch cpu h addr data) self chunks.

(** * Correctness *)

(** ** Constants *)

Definition p4 : Zbc.Polynomial := Zbc.MkPolynomial P4_LOW P4_HIGH.
Definition p1 : Zbc.Polynomial := Zbc.MkPolynomial P1_LOW P1_HIGH.

Lemma p4_ok : Zbc.words_ok p4.
Proof. split; unfold below, p4, P4_LOW, P4_HIGH; cbn [Zbc.low Zbc.high]; lia. Qed.

Lemma p1_ok : Zbc.words_ok p1.
Proof. split; unfold below, p1, P1_LOW, P1_HIGH; cbn [Zbc.low Zbc.high]; lia. Qed.

Lemma p4_fold : fold_const POLY 4 (Zbc.swapped p4) = true.
Proof. vm_compute. reflexivity. Qed.

Lemma p1_fold : fold_const POLY 1 (Zbc.swapped p1) = true.
Proof. vm_compute. reflexivity. Qed.

Lemma low64_eq x : low64_as_u8x16 x = x.
Proof. unfold low64_as_u8x16, words64. by rewrite Z.shiftl_0_l, Z.lor_0_r. Qed.

Lemma words64_high x : words64 0 x = Z.shiftl x 64.
Proof. unfold words64. apply Z.lor_0_l. Qed.

(** The Arm reduction, without the vector constructors *)
Lemma arm_reduce_to_crc_spec x : below 128 x -> arm_reduce_to_crc x = shift POLY 16 x.
Proof.
  intros Hx. unfold arm_reduce_to_crc. cbv zeta. rewrite low64_eq, words64_high, step_shift.
  revert x Hx. apply (linear_basis_check _ _ 128).
  - linear_map.
  - apply step_linear.
  - vm_compute. reflexivity.
Qed.

#[local] Opaque fold_const shift step block_at blocks_at clmul.

(** The RISC-V reduction is the Arm reduction on pairs of words. *)
Lemma zbc_reduce_to_crc_spec p :
  Zbc.words_ok p -> zbc_reduce_to_crc p = shift POLY 16 (Zbc.value p).
Proof.
  intros Hp. rewrite <-arm_reduce_to_crc_spec by by apply Zbc.value_below.
  assert (Zbc.words_ok (Zbc.MkPolynomial (Zbc.high p) 0)) as Hh by (split; [apply Hp|by apply below_0]).
  unfold zbc_reduce_to_crc, arm_reduce_to_crc. cbv zeta.
  set (folded := Zbc.poly_xor _ (Zbc.MkPolynomial (Zbc.high p) 0)).
  assert (Zbc.words_ok folded) as Hf by (apply Zbc.xor_ok; [apply Zbc.multiply_ok|exact Hh]).
  assert (Zbc.value folded = Z.lxor (clmul (lo64 (Zbc.value p)) P0_LOW) (low64_as_u8x16 (hi64 (Zbc.value p))))
    as Hv.
  { unfold folded. rewrite Zbc.value_xor by (apply Zbc.multiply_ok || exact Hh).
    rewrite Zbc.value_multiply by (unfold below, P0_LOW; lia).
    by rewrite Zbc.lo64_value, Zbc.hi64_value. }
  rewrite <-Hv, Zbc.lo64_value by exact Hf. unfold Zbc.clmul_low.
  set (q := lo64 (clmul (Zbc.low folded) BR_LOW)).
  assert (Zbc.words_ok (Zbc.MkPolynomial 0 q)) as Hq by (split; [by apply below_0|apply lo64_below]).
  rewrite <-(Zbc.hi64_value (Zbc.poly_xor _ folded)) by
    (apply Zbc.xor_ok; [apply Zbc.xor_ok; [apply Zbc.multiply_ok|exact Hq]|exact Hf]).
  rewrite !Zbc.value_xor by (exact Hq || exact Hf || apply Zbc.multiply_ok ||
    (apply Zbc.xor_ok; [apply Zbc.multiply_ok|exact Hq])).
  by rewrite Zbc.value_multiply by (unfold below, BR_HIGH; lia).
Qed.

Lemma arm_fold_eq x p :
  Zbc.words_ok p ->
  arm_fold_without_next x (Zbc.value p) = Clmul.fold_without_next x (Zbc.swapped p).
Proof.
  intros Hp. unfold Clmul.fold_without_next, mm_clmulepi64.
  simpl Z.testbit. cbv iota zeta.
  unfold arm_fold_without_next, arm_clmul_low, arm_clmul_high.
  change (Zbc.swapped p) with (Zbc.value (Zbc.MkPolynomial (Zbc.high p) (Zbc.low p))).
  rewrite !Zbc.lo64_value, !Zbc.hi64_value by (exact Hp || (split; apply Hp)). apply Z.lxor_comm.
Qed.

#[local] Opaque Clmul.fold_block Clmul.fold_without_next arm_reduce_to_crc extend_scalar crc64_reference.

Lemma arm_fold_block_eq x n p :
  Zbc.words_ok p -> arm_fold_block x n (Zbc.value p) = Clmul.fold_block x n (Zbc.swapped p).
Proof. intros Hp. rewrite fold_block_eq, <-arm_fold_eq by done. reflexivity. Qed.

(** ** Arm *)

Definition arm_inv (crc : Z) (data : list byte) (st : list Z * nat) : Prop :=
  let '(x, ptr) := st in
  consumed POLY data (not64 crc) 4 x ptr /\ (length data - ptr) mod 64 = 0.

Lemma arm_stride crc data x ptr :
  arm_inv crc data (x, ptr) -> ptr + 64 <= length data ->
  arm_inv crc data (zip_with (fun x next => arm_fold_block x next (Zbc.value p4)) x (blocks_at 4 data ptr), ptr + 64).
Proof.
  intros [Hc Hr] Hp. split.
  - rewrite (zip_with_ext _ (fun x next => Clmul.fold_block x next (Zbc.swapped p4)) x x
      (blocks_at 4 data ptr) (blocks_at 4 data ptr)); [|intros; by apply arm_fold_block_eq, p4_ok|done..].
    apply (consumed_stride POLY data _ 4); [exact Hc|exact p4_fold|lia].
  - replace (length data - (ptr + 64)) with (length data - ptr - 1 * 64) by lia.
    apply mod_sub_multiple; [exact Hr|lia].
Qed.

Lemma arm_extend_blocks_only_spec {E} crc data :
  word 64 crc -> 64 <= length data -> length data mod 64 = 0 ->
  arm_extend_blocks_only (E:=E) crc data = Ok (crc64_reference crc data).
Proof.
  intros Hcrc Hl Hm. apply returns_eq. unfold arm_extend_blocks_only. cbv zeta.
  change (poly64x2 P4_LOW P4_HIGH) with (Zbc.value p4). change (poly64x2 P1_LOW P1_HIGH) with (Zbc.value p1).
  rewrite read_block_Ok, load_lanes_Ok by lia. bind_step. unfold arm_xor_crc. rewrite low64_eq.
  apply wp_bind, (wp_while (arm_inv crc data) (fun '(_, ptr) => length data - ptr)).
  - split; [|by apply (mod_sub_multiple _ 1 64)].
    apply (consumed_first POLY data _ 4); [by apply below_not64|lia|apply (blocks_S 3)].
  - lia.
  - intros [x ptr] Hinv Hlt%Nat.ltb_lt. pose proof (proj2 Hinv) as Hr.
    assert (64 <= length data - ptr) as Hge.
    { destruct (Nat.lt_ge_cases (length data - ptr) 64); [|done]. rewrite Nat.mod_small in Hr; lia. }
    rewrite load_lanes_Ok by lia. bind_step. apply wp_ret. split; [|lia].
    apply arm_stride; [exact Hinv|lia].
  - intros [x ptr] [Hc _] Hge%Nat.ltb_ge. apply wp_ret. pose proof (proj1 Hc) as Hlen.
    destruct x as [|x0 [|x1 [|x2 [|x3 [|? ?]]]]]; try discriminate. cbn [lane nth].
    rewrite !arm_fold_eq by apply p1_ok.
    do 3 (apply (fun H => consumed_onto _ _ _ _ _ _ _ _ _ H p1_fold) in Hc).
    destruct (consumed_finish _ _ _ _ _ Hc Hge) as [Hx Hr].
    by rewrite arm_reduce_to_crc_spec, Hr.
Qed.

Lemma arm_extend_spec {E} crc data :
  word 64 crc -> arm_extend (E:=E) crc data = Ok (crc64_reference crc data).
Proof.
  intros Hcrc. unfold arm_extend. destruct (align_down_mod (length data) 64 ltac:(lia)) as (Hm & Hle & _).
  destruct (Nat.ltb_spec (align_down (length data) 64) 64); [by apply extend_scalar_spec|].
  apply prefix_tail; [done|lia|]. apply arm_extend_blocks_only_spec; [done| |]; rewrite length_take_le by lia; lia.
Qed.

(** ** RISC-V *)

Lemma zbc_extend_blocks_only_spec {E} crc addr data :
  word 64 crc -> 0 < length data -> length data mod 64 = 0 -> Zbc.aligned addr 0 ->
  zbc_extend_blocks_only (E:=E) crc addr data = Ok (crc64_reference crc data).
Proof.
  intros Hcrc Hl Hm Ha. apply returns_eq. unfold zbc_extend_blocks_only. eapply wp_bind_returns.
  - apply (Zbc.fold_blocks_spec POLY p4 p1); [apply p4_ok|apply p1_ok|exact p4_fold|exact p1_fold| |done..].
    by apply word_not64.
  - intros p [Hp Hc]. apply wp_ret. destruct (consumed_finish _ _ _ _ _ Hc ltac:(lia)) as [Hx Hr].
    by rewrite zbc_reduce_to_crc_spec, Hr.
Qed.

Lemma zbc_extend_spec {E} crc addr data :
  word 64 crc -> zbc_extend (E:=E) crc addr data = Ok (crc64_reference crc data).
Proof.
  intros Hcrc. unfold zbc_extend.
  pose proof (@extend_scalar_spec E) as Hs. generalize dependent (@extend_scalar E). intros scalar Hs.
  pose proof (@zbc_extend_blocks_only_spec E) as Hb. generalize dependent (@zbc_extend_blocks_only E).
  intros blocks Hb. remember (Zbc.align_offset addr 0 `min` length data) as u eqn:Hu.
  rewrite split_at_Ok by lia. bind_step. rewrite Hs by done. bind_step.
  replace (crc64_reference crc data) with (crc64_reference (crc64_reference crc (take u data)) (drop u data))
    by (by rewrite <-reference_app, take_drop).
  pose proof (word_reference crc (take u data) Hcrc) as Hw.
  generalize dependent (crc64_reference crc (take u data)). intros crc' Hw.
  remember (drop u data) as d eqn:Hd.
  destruct (align_down_mod (length d) 64 ltac:(lia)) as (Hm & Hle & _).
  destruct (Nat.ltb_spec (align_down (length d) 64) 64); [by apply Hs|].
  rewrite split_at_Ok by lia. bind_step. rewrite Hb.
  - bind_step. rewrite Hs by by apply word_reference. by rewrite <-reference_app, take_drop.
  - done.
  - rewrite length_take_le; lia.
  - by rewrite length_take_le by lia.
  - assert (u = Zbc.align_offset addr 0) as -> by (rewrite Hd, length_drop in *; lia).
    unfold Zbc.aligned, Zbc.align_offset. rewrite !Z.add_0_r, Z2Nat.id by (apply Z.mod_pos_bound; lia).
    rewrite Z.add_comm, Zplus_mod_idemp_l. by replace (- addr + addr)%Z with 0%Z by lia.
Qed.

(** ** The interface *)

Lemma extend_sha3_spec {E} crc data :
  word 64 crc -> extend_sha3 (E:=E) crc data = Ok (crc64_reference crc data).
Proof. apply arm_extend_spec. Qed.

Lemma extend_spec {E} arch cpu crc addr data :
  word 64 crc -> extend (E:=E) arch cpu crc addr data = Ok (crc64_reference crc data).
Proof.
  intros Hcrc. unfold extend. destruct (pure_rust_backend arch cpu);
    [by apply extend_scalar_spec|by apply extend_avx512_spec|by apply extend_vpclmul_spec|
     by apply x86_extend_spec|by apply extend_sha3_spec|by apply arm_extend_spec|by apply zbc_extend_spec].
Qed.

Lemma word_0 : word 64 0.
Proof. unfold word. lia. Qed.

Lemma update_all_spec {E} arch cpu chunks : forall c,
  word 64 c -> update_all (E:=E) arch cpu (MkHasher c) chunks =
  Ok (MkHasher (crc64_reference c (chunks ≫= snd))).
Proof.
  unfold update_all, update. induction chunks as [|[a d] chunks IH]; intros c Hc; cbn [foldM crc].
  - by rewrite reference_nil.
  - rewrite extend_spec by done. bind_step. rewrite IH by by apply word_reference.
    by rewrite <-reference_app.
Qed.

(** C9: CRC-64/NVME is computed right on every processor.  Whatever the
    architecture, the detected features and the address of the buffer,
    [extend] returns without panic or out-of-bounds load, and its value is the
    one of the bit-at-a-time register over the data. *)
Theorem crc64_extend_reference {E} arch cpu crc addr data :
  word 64 crc ->
  extend (E:=E) arch cpu crc addr data = Ok (crc64_reference crc data).
Proof. apply extend_spec. Qed.

(** C10: checksums of two parts combine.  [combine] of the checksums of [a] and
    [b] and the length of [b] is the checksum of [a] followed by [b], for every
    choice of backends and every length that fits 64 bits. *)
Theorem crc64_combine_checksums {E} arch cpu addr_a addr_b addr a b :
  (Z.of_nat (length b) < 2 ^ 64)%Z ->
  (crc_a ← checksum arch cpu addr_a a;
   crc_b ← checksum arch cpu addr_b b;
   combine crc_a crc_b (Z.of_nat (length b))) = checksum (E:=E) arch cpu addr (a ++ b).
Proof.
  intros Hb. unfold checksum. rewrite !extend_spec by apply word_0. bind_step.
  apply combine_extend; [lia|apply word_POLY|exact Hb].
Qed.

(** Streaming is cutting-independent.  Feeding any sequence of chunks to a
    new hasher, or to one that was used and reset, finalizes to the checksum of
    their concatenation. *)
Theorem crc64_hasher_streams {E} arch cpu old chunks addr :
  (h ← update_all (E:=E) arch cpu (reset old) chunks; mret (finalize h)) =
  checksum arch cpu addr (chunks ≫= snd) /\
  (h ← update_all (E:=E) arch cpu new chunks; mret (finalize h)) =
  checksum arch cpu addr (chunks ≫= snd).
Proof.
  unfold reset, new, checksum. by rewrite !update_all_spec, extend_spec by apply word_0.
Qed.

(** Damage is detected.  Two buffers that differ only within eight
    consecutive bytes have different checksums. *)
Theorem crc64_detects_bursts {E} arch cpu addr1 addr2 pre b1 b2 post :
  length b1 = length b2 -> length b1 <= 8 -> b1 <> b2 ->
  checksum (E:=E) arch cpu addr1 (pre ++ b1 ++ post) <> checksum arch cpu addr2 (pre ++ b2 ++ post).
Proof.
  intros Hl H8 Hne. unfold checksum. rewrite !extend_spec by apply word_0. intros [= H].
  apply Hne. revert H. apply (crc_extend_burst 64 POLY); [lia|apply word_POLY|reflexivity|apply word_0|exact Hl|lia].
Qed.

(** ** Examples *)

(** The ASCII digits [1] to [9], and processors with everything and nothing *)
Definition digits : list byte := (fun i => byte.of_Z (48 + Z.of_nat i)) <$> seq 1 9.
Definition all_features : cpu_features := CpuFeatures true true true true true true true true true true.
Definition no_features : cpu_features :=
  CpuFeatures false false false false false false false false false false.

Lemma crc64_extend_reference_witness :
  extend (E:=unit) X86_64 all_features 0 0 digits = Ok 0xAE8B14860A799888%Z.
Proof.
  etransitivity; [apply (crc64_extend_reference X86_64 all_features 0 0 digits); unfold word; lia|].
  vm_compute. reflexivity.
Defined.

Lemma crc64_combine_checksums_witness :
  (crc_a ← checksum X86_64 no_features 0 digits;
   crc_b ← checksum X86_64 no_features 0 digits;
   combine crc_a crc_b 9) = checksum (E:=unit) X86_64 no_features 0 (digits ++ digits).
Proof. apply (crc64_combine_checksums X86_64 no_features 0 0 0 digits digits). vm_compute. reflexivity. Defined.

Lemma crc64_detects_bursts_witness :
  checksum (E:=unit) Riscv64 all_features 3 (digits ++ [Byte.x00] ++ digits) <>
  checksum Riscv64 all_features 5 (digits ++ [Byte.x01] ++ digits).
Proof. apply (crc64_detects_bursts Riscv64 all_features 3 5 digits [Byte.x00] [Byte.x01] digits); [done|simpl; lia|done]. Defined.

End Crc64Api.
