(* ===== verification/Crc32Kernels.v ===== *)
(** What [crates/checksum/src/crc32.rs] and [crc32c.rs] share: the two files
    hold the same routines for two polynomials.  The table-driven scalar
    routine, the PCLMULQDQ reduction, the RISC-V reduction of
    [riscv64_zbc_crc32.rs], the CRC instructions of Arm and x86, and the Arm
    routine that runs three stripes at once and folds them together.  A section
    over the polynomial holds them; every routine computes the register. *)

From coqutil Require Import Word.LittleEndianList.
From S2P Require Import Prelude Crc Clmul Zbc.

Module Crc32Kernels.
Import Crc Clmul.

(** [!x] *)
Definition not32 (x : Z) : Z := crc_not 32 x.

(** The table reads for the bytes of a word, the first byte through table [k + 3] *)
Definition reads4 (k : nat) (x : Z) : list (nat * Z) :=
  [(k + 3, Z.land x 0xFF); (k + 2, Z.land (Z.shiftr x 8) 0xFF);
   (k + 1, Z.land (Z.shiftr x 16) 0xFF); (k, Z.shiftr x 24)].

Definition LO32_CLR_MASK : Z := words64 0xFFFFFFFF00000000 0xFFFFFFFFFFFFFFFF.
Definition HI64_MASK : Z := words64 0xFFFFFFFFFFFFFFFF 0x0000000000000000.

(** [reduce_to_crc] of the x86 routines *)
Definition x86_reduce (FOLD_128_TO_64 BARRETT x : Z) : Z :=
  let fold := FOLD_128_TO_64 in
  let hi := mm_srli 8 x in
  let folded := Z.lxor (mm_clmulepi64 0x00 x fold) hi in
  let tmp := mm_slli 4 folded in
  let folded32 := Z.lxor (mm_clmulepi64 0x10 tmp fold) folded in
  let masked := Z.land folded32 LO32_CLR_MASK in
  let y := Z.lxor (mm_clmulepi64 0x00 masked BARRETT) masked in
  let y := Z.land y HI64_MASK in
  let z := Z.lxor (mm_clmulepi64 0x10 y BARRETT) y in
  let reduced := Z.lxor z masked in
  Z.land (mm_srli 8 reduced) 0xFFFFFFFF.

(** The trait [Parameters] of the RISC-V kernel *)
Record zbc_parameters := ZbcParameters {
  P4_LOW : Z;
  P4_HIGH : Z;
  P1_LOW : Z;
  P1_HIGH : Z;
  P0_LOW : Z;
  P0_HIGH : Z;
  BR_LOW : Z;
  BR_HIGH : Z;
}.

Definition zbc_reduce (P : zbc_parameters) (value : Zbc.Polynomial) : Z :=
  let folded := Zbc.poly_xor (Zbc.multiply (Zbc.low value) (P0_LOW P)) (Zbc.MkPolynomial (Zbc.high value) 0) in
  let folded32 := Zbc.poly_xor (Zbc.multiply (lo64 (Z.shiftl (Zbc.low folded) 32)) (P0_HIGH P)) folded in
  let masked := Zbc.MkPolynomial (Z.land (Zbc.low folded32) 0xFFFFFFFF00000000) (Zbc.high folded32) in
  let quotient := Zbc.low (Zbc.poly_xor (Zbc.multiply (Zbc.low masked) (BR_LOW P)) masked) in
  let reduced := Zbc.poly_xor (Zbc.poly_xor (Zbc.multiply quotient (BR_HIGH P))
    (Zbc.MkPolynomial quotient 0)) masked in
  Z.land (Zbc.high reduced) 0xFFFFFFFF.

(** [update_blocks] *)
Definition zbc_update_blocks {E} (P : zbc_parameters) (crc addr : Z) (data : list byte) : outcome E Z :=
  x3 ← Zbc.fold_blocks (Zbc.MkPolynomial (P4_LOW P) (P4_HIGH P))
         (Zbc.MkPolynomial (P1_LOW P) (P1_HIGH P)) crc addr data;
  mret (zbc_reduce P x3).

(** [-address & 7] *)
Definition unaligned_len (addr : Z) : nat := Z.to_nat (Z.land (- addr) 7).

Definition BLOCK_SIZE : nat := 1024.
Definition STRIPE_BYTES : nat := 336.

Lemma unaligned_len_aligned addr :
  unaligned_len addr <= 7 /\ Zbc.aligned (addr + Z.of_nat (unaligned_len addr)) 0.
Proof.
  unfold unaligned_len, Zbc.aligned. change 7%Z with (Z.ones 3). rewrite Z.land_ones by lia.
  change (2 ^ 3)%Z with 8%Z. pose proof (Z.mod_pos_bound (- addr) 8 ltac:(lia)).
  split; [lia|]. rewrite Z.add_0_r, Z2Nat.id, Z.add_comm, Zplus_mod_idemp_l by lia.
  by replace (- addr + addr)%Z with 0%Z by lia.
Qed.

Section kernels.
Context (POLY : Z).

Definition slicing_update {E} (state : Z) (data : list byte) : outcome E Z :=
  TABLES ← build_tables POLY;
  '(state, remaining) ← while_loop (S (length data))
    (fun '(_, remaining) => 16 <=? length remaining)
    (fun '(state, remaining) =>
      first ← read_le 4 remaining 0;
      second ← read_le 4 remaining 4;
      third ← read_le 4 remaining 8;
      fourth ← read_le 4 remaining 12;
      let mixed := Z.lxor state first in
      state ← xor_tables TABLES (reads4 12 mixed ++ reads4 8 second ++ reads4 4 third ++ reads4 0 fourth);
      remaining ← slice remaining 16 (length remaining);
      mret (state, remaining)) (state, data);
  '(state, remaining) ← while_loop (S (length data))
    (fun '(_, remaining) => 4 <=? length remaining)
    (fun '(state, remaining) =>
      block ← read_le 4 remaining 0;
      let mixed := Z.lxor state block in
      state ← xor_tables TABLES (reads4 0 mixed);
      remaining ← slice remaining 4 (length remaining);
      mret (state, remaining)) (state, remaining);
  update_bytes TABLES state remaining.

(** The CRC instructions over [n] bytes: [__crc32b], [__crc32h], [__crc32w],
    [__crc32d] and their Castagnoli forms, [_mm_crc32_u8], [_mm_crc32_u32] and
    [_mm_crc32_u64] *)
Definition crc_instr (n : nat) (crc v : Z) : Z := step POLY (8 * n) (Z.lxor crc v).

(** [fold_crc_word] *)
Definition fold_crc_word (crc constant : Z) : Z :=
  let folded := clmul crc constant in
  crc_instr 8 0 (lo64 folded).

Definition update_hw {E} (crc : Z) (data : list byte) : outcome E Z :=
  '(crc, remaining) ← while_loop (S (length data))
    (fun '(_, remaining) => 16 <=? length remaining)
    (fun '(crc, remaining) =>
      a ← read_le 8 remaining 0;
      let crc := crc_instr 8 crc a in
      b ← read_le 8 remaining 8;
      let crc := crc_instr 8 crc b in
      remaining ← slice remaining 16 (length remaining);
      mret (crc, remaining)) (crc, data);
  '(crc, remaining) ← while_loop (S (length data))
    (fun '(_, remaining) => 8 <=? length remaining)
    (fun '(crc, remaining) =>
      a ← read_le 8 remaining 0;
      remaining ← slice remaining 8 (length remaining);
      mret (crc_instr 8 crc a, remaining)) (crc, remaining);
  '(crc, remaining) ← (if 4 <=? length remaining then
      a ← read_le 4 remaining 0;
      remaining ← slice remaining 4 (length remaining);
      mret (crc_instr 4 crc a, remaining) else mret (crc, remaining));
  '(crc, remaining) ← (if 2 <=? length remaining then
      a ← read_le 2 remaining 0;
      remaining ← slice remaining 2 (length remaining);
      mret (crc_instr 2 crc a, remaining) else mret (crc, remaining));
  match remaining with
  | b :: _ => mret (crc_instr 1 crc (byte.unsigned b))
  | [] => mret crc
  end.

(** One turn of the stripe loop: two words of each stripe *)
Definition stripe_step {E} (data : list byte) (crc : Z) (ptr : nat) : outcome E (Z * nat) :=
  a ← read_le 8 data ptr;
  let crc := crc_instr 8 crc a in
  b ← read_le 8 data (ptr + 8);
  let crc := crc_instr 8 crc b in
  mret (crc, ptr + 16).

(** The body of [update_blocks_only] for the block at [ptr] *)
Definition update_block {E} (FOLD_CRC0 FOLD_CRC1 : Z) (data : list byte) (crc : Z) (ptr : nat) :
    outcome E Z :=
  a ← read_le 8 data ptr;
  let crc0 := crc_instr 8 crc a in
  let ptr0 := ptr + 8 in
  let ptr1 := ptr0 + STRIPE_BYTES in
  let ptr2 := ptr1 + STRIPE_BYTES in
  '(crc0, _, crc1, _, crc2, ptr2) ← for_range 0 (STRIPE_BYTES / 16) (crc0, ptr0, 0%Z, ptr1, 0%Z, ptr2)
    (fun '(crc0, ptr0, crc1, ptr1, crc2, ptr2) _ =>
      '(crc0, ptr0) ← stripe_step data crc0 ptr0;
      '(crc1, ptr1) ← stripe_step data crc1 ptr1;
      '(crc2, ptr2) ← stripe_step data crc2 ptr2;
      mret (crc0, ptr0, crc1, ptr1, crc2, ptr2));
  a ← read_le 8 data ptr2;
  let crc2 := crc_instr 8 crc2 a in
  mret (Z.lxor (Z.lxor (fold_crc_word crc0 FOLD_CRC0) (fold_crc_word crc1 FOLD_CRC1)) crc2).

Definition update_blocks_only {E} (FOLD_CRC0 FOLD_CRC1 : Z) (crc : Z) (data : list byte) : outcome E Z :=
  '(crc, _) ← while_loop (S (length data))
    (fun '(_, ptr) => ptr <? length data)
    (fun '(crc, ptr) =>
      crc ← update_block FOLD_CRC0 FOLD_CRC1 data crc ptr;
      mret (crc, ptr + BLOCK_SIZE)) (crc, 0);
  mret crc.

(** [aarch64_crc_pmull::update] *)
Definition arm_update {E} (FOLD_CRC0 FOLD_CRC1 : Z) (crc : Z) (data : list byte) : outcome E Z :=
  let prefix_len := align_down (length data) BLOCK_SIZE in
  state ← (if negb (prefix_len =? 0) then
    prefix ← slice data 0 prefix_len;
    update_blocks_only FOLD_CRC0 FOLD_CRC1 crc prefix else mret crc);
  rest ← slice data prefix_len (length data);
  update_hw state rest.

(** * Correctness *)

Context (HPOLY : word 32 POLY).

(** ** Scalar *)

Lemma reads4_word k x : word 32 x -> reads4 k x = word_reads (k + 4) 4 x.
Proof.
  intros Hx. unfold reads4. cbn [word_reads]. rewrite !Z.shiftr_shiftr by lia.
  replace (Z.land (Z.shiftr x (8 + 8 + 8)) 255) with (Z.shiftr x 24).
  - repeat f_equal; lia.
  - symmetry. apply land_255_small. unfold word in Hx. rewrite Z.shiftr_div_pow2 by lia.
    split; [apply Z.div_pos; lia|]. apply Z.div_lt_upper_bound; lia.
Qed.

Lemma steps_reads4 k x : word 32 x -> steps POLY (reads4 k x) = shift POLY (k + 4) x.
Proof. intros Hx. rewrite reads4_word by done. apply steps_word; [lia|done]. Qed.

Lemma reads4_good k x : k <= 12 -> word 32 x -> Forall good_read (reads4 k x).
Proof. intros Hk Hx. rewrite reads4_word by done. apply word_reads_good. lia. Qed.

(** The [k] bytes at [p] *)
Definition bytes_at (data : list byte) (p k : nat) : list byte := take k (drop p data).

Lemma length_bytes_at data p k : p + k <= length data -> length (bytes_at data p k) = k.
Proof. intros H. unfold bytes_at. rewrite length_take, length_drop. lia. Qed.

Lemma bytes_at_app data p j k : bytes_at data p (j + k) = bytes_at data p j ++ bytes_at data (p + j) k.
Proof. unfold bytes_at. rewrite <-drop_drop. symmetry. apply take_take_drop. Qed.

Lemma word32_bytes_at data p : word 32 (le_combine (bytes_at data p 4)).
Proof.
  apply (below_weaken (8 * Z.of_nat (length (bytes_at data p 4)))); [|apply le_combine_below].
  unfold bytes_at. rewrite length_take. lia.
Qed.

Lemma slicing_block16 {E} s rem :
  word 32 s -> 16 <= length rem ->
  (first ← read_le 4 rem 0;
   second ← read_le 4 rem 4;
   third ← read_le 4 rem 8;
   fourth ← read_le 4 rem 12;
   let mixed := Z.lxor s first in
   state ← xor_tables (TABLES POLY) (reads4 12 mixed ++ reads4 8 second ++ reads4 4 third ++ reads4 0 fourth);
   remaining ← slice rem 16 (length rem);
   mret (state, remaining)) = Ok (crc_bytes POLY s (take 16 rem), drop 16 rem) :> outcome E _.
Proof.
  intros Hs Hl. rewrite !read_le_Ok by lia. bind_step. cbv zeta.
  change (take 4 (drop ?p rem)) with (bytes_at rem p 4).
  assert (word 32 (Z.lxor s (le_combine (bytes_at rem 0 4)))) as Hm
    by (apply word_lxor; [lia|done|apply word32_bytes_at]).
  rewrite xor_tables_spec by (rewrite !list.Forall_app; split_and!; apply reads4_good;
    (lia || done || apply word32_bytes_at)). bind_step.
  rewrite slice_Ok by lia. bind_step. do 2 f_equal.
  - rewrite !steps_app, !steps_reads4 by (done || apply word32_bytes_at).
    change (take 16 rem) with (bytes_at rem 0 (4 + (4 + (4 + 4)))).
    rewrite !bytes_at_app. cbn [Nat.add].
    rewrite <-block_step, !length_app, !length_bytes_at by lia. cbn [Nat.add]. f_equal.
    rewrite (crc_bytes_app _ _ (bytes_at rem 4 4)), (crc_bytes_state _ (crc_bytes _ 0 (bytes_at rem 4 4))).
    rewrite (crc_bytes_app _ _ (bytes_at rem 8 4)), (crc_bytes_state _ (crc_bytes _ 0 (bytes_at rem 8 4))).
    rewrite !crc_bytes_word, !Z.lxor_0_l, !length_app, !length_bytes_at, <-!shift_add by lia.
    reflexivity.
  - apply take_ge. rewrite length_drop. lia.
Qed.

Lemma slicing_block4 {E} s rem :
  word 32 s -> 4 <= length rem ->
  (block ← read_le 4 rem 0;
   let mixed := Z.lxor s block in
   state ← xor_tables (TABLES POLY) (reads4 0 mixed);
   remaining ← slice rem 4 (length rem);
   mret (state, remaining)) = Ok (crc_bytes POLY s (take 4 rem), drop 4 rem) :> outcome E _.
Proof.
  intros Hs Hl. rewrite read_le_Ok by lia. bind_step. cbv zeta.
  change (take 4 (drop 0 rem)) with (bytes_at rem 0 4).
  assert (word 32 (Z.lxor s (le_combine (bytes_at rem 0 4)))) as Hm
    by (apply word_lxor; [lia|done|apply word32_bytes_at]).
  rewrite xor_tables_spec by (apply reads4_good; (lia || done)). bind_step.
  rewrite slice_Ok by lia. bind_step. do 2 f_equal.
  - rewrite steps_reads4 by done. change (take 4 rem) with (bytes_at rem 0 4).
    by rewrite crc_bytes_word, length_bytes_at by lia.
  - apply take_ge. rewrite length_drop. lia.
Qed.

Lemma slicing_update_spec {E} s data :
  word 32 s -> slicing_update (E:=E) s data = Ok (crc_bytes POLY s data).
Proof.
  intros Hs. unfold slicing_update. rewrite build_tables_spec. bind_step. apply returns_eq.
  apply wp_bind, (wp_chunks POLY 32 ltac:(lia) HPOLY); [lia|done|lia|apply slicing_block16|].
  intros s1 rem Hs1 Heq Hl _.
  apply wp_bind, (wp_chunks POLY 32 ltac:(lia) HPOLY); [lia|done|lia|apply slicing_block4|].
  intros s2 rem' Hs2 Heq' _ _. rewrite update_bytes_spec.
  by rewrite Heq', Heq.
Qed.

(** ** Reductions *)

Lemma x86_reduce_spec fold barrett :
  agree_on_basis (x86_reduce fold barrett) (step POLY 128) 128 = true ->
  forall x, below 128 x -> x86_reduce fold barrett x = shift POLY 16 x.
Proof.
  intros Hcheck x Hx. rewrite step_shift. change (8 * 16) with 128. revert x Hx.
  apply (linear_basis_check _ _ 128); [|apply step_linear|exact Hcheck].
  unfold x86_reduce. cbv zeta. linear_map.
Qed.

Lemma zbc_reduce_spec P :
  agree_on_basis (fun x => zbc_reduce P (Zbc.MkPolynomial (lo64 x) (hi64 x))) (step POLY 128) 128 = true ->
  forall p, Zbc.words_ok p -> zbc_reduce P p = shift POLY 16 (Zbc.value p).
Proof.
  intros Hcheck p Hp. rewrite step_shift. change (8 * 16) with 128.
  rewrite <-(linear_basis_check (fun x => zbc_reduce P (Zbc.MkPolynomial (lo64 x) (hi64 x))) _ 128 );
    [| |apply step_linear|exact Hcheck|by apply Zbc.value_below].
  - rewrite Zbc.lo64_value, Zbc.hi64_value by done. by destruct p.
  - unfold zbc_reduce, Zbc.poly_xor, Zbc.multiply, Zbc.clmul_low, Zbc.clmul_high. cbv zeta.
    cbn [Zbc.low Zbc.high]. linear_map.
Qed.

(** Parameters that fold by the right distances and reduce *)
Definition zbc_ok (P : zbc_parameters) : Prop :=
  let p4 := Zbc.MkPolynomial (P4_LOW P) (P4_HIGH P) in
  let p1 := Zbc.MkPolynomial (P1_LOW P) (P1_HIGH P) in
  Zbc.words_ok p4 /\ Zbc.words_ok p1 /\
  fold_const POLY 4 (Zbc.swapped p4) = true /\ fold_const POLY 1 (Zbc.swapped p1) = true /\
  agree_on_basis (fun x => zbc_reduce P (Zbc.MkPolynomial (lo64 x) (hi64 x))) (step POLY 128) 128 = true.

Lemma zbc_update_blocks_spec {E} P crc addr data :
  zbc_ok P -> word 32 crc -> 0 < length data -> length data mod 64 = 0 -> Zbc.aligned addr 0 ->
  zbc_update_blocks (E:=E) P crc addr data = Ok (crc_bytes POLY crc data).
Proof.
  intros (H4 & H1 & F4 & F1 & HR) Hcrc Hl Hm Ha. apply returns_eq. unfold zbc_update_blocks.
  eapply wp_bind_returns.
  - apply (Zbc.fold_blocks_spec POLY); [exact H4|exact H1|exact F4|exact F1| |done..].
    by apply (below_weaken 32); [lia|].
  - intros p [Hp Hc]. apply wp_ret. destruct (consumed_finish _ _ _ _ _ Hc ltac:(lia)) as [Hx Hr].
    by rewrite zbc_reduce_spec, Hr.
Qed.

(** ** Instructions *)

Lemma crc_instr_bytes n crc b :
  length b = n -> crc_instr n crc (le_combine b) = crc_bytes POLY crc b.
Proof. intros <-. unfold crc_instr. by rewrite <-step_shift, <-crc_bytes_word. Qed.

Lemma crc_instr_at n crc data p :
  p + n <= length data -> crc_instr n crc (le_combine (take n (drop p data))) = crc_bytes POLY crc (bytes_at data p n).
Proof. intros H. apply crc_instr_bytes. by apply length_bytes_at. Qed.

Lemma crc_instr_0 v : crc_instr 8 0 v = step POLY 64 v.
Proof. unfold crc_instr. by rewrite Z.lxor_0_l. Qed.

#[local] Opaque crc_instr step.

Lemma hw_block16 {E} s rem :
  word 32 s -> 16 <= length rem ->
  (a ← read_le 8 rem 0;
   let crc := crc_instr 8 s a in
   b ← read_le 8 rem 8;
   let crc := crc_instr 8 crc b in
   remaining ← slice rem 16 (length rem);
   mret (crc, remaining)) = Ok (crc_bytes POLY s (take 16 rem), drop 16 rem) :> outcome E _.
Proof.
  intros Hs Hl. rewrite !read_le_Ok by lia. bind_step. cbv zeta. rewrite !crc_instr_at by lia.
  rewrite slice_Ok by lia. bind_step. rewrite <-crc_bytes_app.
  change (bytes_at rem 8 8) with (bytes_at rem (0 + 8) 8). rewrite <-(bytes_at_app rem 0 8 8). do 2 f_equal.
  apply take_ge. rewrite length_drop. lia.
Qed.

(** One instruction and the bytes it consumes *)
Lemma hw_block {E} n s rem :
  n <= length rem ->
  (a ← read_le n rem 0;
   remaining ← slice rem n (length rem);
   mret (crc_instr n s a, remaining)) = Ok (crc_bytes POLY s (take n rem), drop n rem) :> outcome E _.
Proof.
  intros Hl. rewrite read_le_Ok by lia. bind_step. rewrite crc_instr_at by lia.
  rewrite slice_Ok by lia. bind_step. do 2 f_equal. apply take_ge. rewrite length_drop. lia.
Qed.

Lemma hw_optional {E} n s rem :
  (if n <=? length rem then
     a ← read_le n rem 0;
     remaining ← slice rem n (length rem);
     mret (crc_instr n s a, remaining) else mret (s, rem)) =
  Ok (if n <=? length rem then (crc_bytes POLY s (take n rem), drop n rem) else (s, rem)) :> outcome E _.
Proof. destruct (Nat.leb_spec n (length rem)); [by apply hw_block|done]. Qed.

Lemma hw_tail {E} s rem :
  length rem < 8 ->
  ('(crc, remaining) ← (if 4 <=? length rem then
      a ← read_le 4 rem 0;
      remaining ← slice rem 4 (length rem);
      mret (crc_instr 4 s a, remaining) else mret (s, rem));
   '(crc, remaining) ← (if 2 <=? length remaining then
      a ← read_le 2 remaining 0;
      remaining ← slice remaining 2 (length remaining);
      mret (crc_instr 2 crc a, remaining) else mret (crc, remaining));
   match remaining with
   | b :: _ => mret (crc_instr 1 crc (byte.unsigned b))
   | [] => mret crc
   end) = Ok (crc_bytes POLY s rem) :> outcome E _.
Proof.
  intros Hl. rewrite hw_optional. bind_step.
  assert (exists s' rem', (if 4 <=? length rem then (crc_bytes POLY s (take 4 rem), drop 4 rem) else (s, rem)) =
    (s', rem') /\ crc_bytes POLY s' rem' = crc_bytes POLY s rem /\ length rem' < 4) as (s' & r' & -> & <- & Hl').
  { destruct (Nat.leb_spec 4 (length rem)).
    - exists (crc_bytes POLY s (take 4 rem)), (drop 4 rem). rewrite <-crc_bytes_app, take_drop, length_drop.
      split_and!; [done..|lia].
    - by exists s, rem. }
  rewrite hw_optional. bind_step. destruct r' as [|b0 [|b1 [|b2 [|? ?]]]]; cbn [length] in Hl'; try lia;
    cbn [length Nat.leb take drop]; [done| |done|];
    rewrite <-(le_combine_1 _); f_equal; rewrite (crc_instr_bytes 1) by done; [done|].
  by rewrite <-crc_bytes_app.
Qed.

Lemma update_hw_spec {E} crc data :
  word 32 crc -> update_hw (E:=E) crc data = Ok (crc_bytes POLY crc data).
Proof.
  intros Hs. unfold update_hw. apply returns_eq.
  apply wp_bind, (wp_chunks POLY 32 ltac:(lia) HPOLY); [lia|done|lia|apply hw_block16|].
  intros s1 rem Hs1 Heq Hl _.
  apply wp_bind, (wp_chunks POLY 32 ltac:(lia) HPOLY); [lia|done|lia| |].
  { intros s' rem' _ Hl'. by apply hw_block. }
  intros s2 rem' Hs2 Heq' _ Hl'. rewrite hw_tail by done. change (crc_bytes POLY s2 rem' = crc_bytes POLY crc data).
  by rewrite Heq', Heq.
Qed.

(** ** Stripes *)

(** The constant that moves a 32-bit checksum over [n] bytes *)
Definition stripe_const (n : nat) (c : Z) : bool :=
  ((step POLY 33 c =? step POLY (8 * n - 31) 1) && (0 <=? c) && (c <? 2 ^ 32))%Z.

Lemma fold_crc_word_spec n crc c :
  4 <= n -> stripe_const n c = true -> word 32 crc -> fold_crc_word crc c = shift POLY n crc.
Proof.
  intros Hn Hc Hcrc. unfold stripe_const in Hc. rewrite !andb_true_iff, Z.eqb_eq, Z.leb_le, Z.ltb_lt in Hc.
  destruct Hc as [[Hc Hc0] Hc1]. unfold fold_crc_word. cbv zeta.
  assert (lo64 (clmul crc c) = clmul crc c) as ->.
  { revert crc Hcrc. apply (linear_basis (fun a => lo64 (clmul a c)) _ 32).
    - apply (linear_comp lo64 (fun a => clmul a c)); [apply linear_lo64|apply linear_clmul].
    - apply linear_clmul.
    - intros i Hi. rewrite <-(Z2Nat.id i), clmul_pow2 by lia. apply lo64_small.
      apply (below_weaken (32 + Z.of_nat (Z.to_nat i))); [lia|]. apply below_shiftl; [lia..|]. by split. }
  rewrite crc_instr_0, step_shift.
  apply (clmul_step POLY 31 64 (8 * n) c crc); [lia..| |exact Hcrc].
  replace (64 - 31) with 33 by lia. exact Hc.
Qed.

Lemma stripe_step_spec {E} data crc ptr :
  ptr + 16 <= length data ->
  stripe_step (E:=E) data crc ptr = Ok (crc_bytes POLY crc (bytes_at data ptr 16), ptr + 16).
Proof.
  intros H. unfold stripe_step. rewrite !read_le_Ok by lia. bind_step. cbv zeta.
  rewrite !crc_instr_at by lia. by rewrite <-crc_bytes_app, <-(bytes_at_app data ptr 8 8).
Qed.

Definition stripes_at (data : list byte) (crc : Z) (ptr i : nat) : Z * nat * Z * nat * Z * nat :=
  (crc_bytes POLY crc (bytes_at data ptr (8 + 16 * i)), ptr + 8 + 16 * i,
   crc_bytes POLY 0 (bytes_at data (ptr + 344) (16 * i)), ptr + 344 + 16 * i,
   crc_bytes POLY 0 (bytes_at data (ptr + 680) (16 * i)), ptr + 680 + 16 * i).

Lemma stripe_loop_spec {E} data crc ptr crc0 :
  ptr + 1024 <= length data -> crc0 = crc_bytes POLY crc (bytes_at data ptr 8) ->
  for_range (E:=E) 0 (STRIPE_BYTES / 16)
    (crc0, ptr + 8, 0%Z, ptr + 8 + STRIPE_BYTES, 0%Z, ptr + 8 + STRIPE_BYTES + STRIPE_BYTES)
    (fun '(crc0, ptr0, crc1, ptr1, crc2, ptr2) _ =>
      '(crc0, ptr0) ← stripe_step data crc0 ptr0;
      '(crc1, ptr1) ← stripe_step data crc1 ptr1;
      '(crc2, ptr2) ← stripe_step data crc2 ptr2;
      mret (crc0, ptr0, crc1, ptr1, crc2, ptr2)) = Ok (stripes_at data crc ptr 21).
Proof.
  intros Hl ->. change (STRIPE_BYTES / 16) with 21. apply returns_eq.
  apply (wp_for_range (fun i st => st = stripes_at data crc ptr i)); [lia| | |done].
  - unfold stripes_at, STRIPE_BYTES. replace (ptr + 8 + 336 + 336) with (ptr + 680) by lia.
    replace (ptr + 8 + 336) with (ptr + 344) by lia. change (16 * 0) with 0. rewrite !Nat.add_0_r. reflexivity.
  - intros i st Hi ->. unfold stripes_at at 1. rewrite !stripe_step_spec by lia. bind_step. apply wp_ret.
    unfold stripes_at. rewrite <-!crc_bytes_app.
    replace (ptr + 8 + 16 * i) with (ptr + (8 + 16 * i)) by lia. rewrite <-!bytes_at_app.
    replace (16 * (i + 1)) with (16 * i + 16) by lia. by rewrite !Nat.add_assoc.
Qed.

Lemma crc_three_parts s a b c :
  crc_bytes POLY s (a ++ b ++ c) =
  Z.lxor (Z.lxor (shift POLY (length c + length b) (crc_bytes POLY s a))
    (shift POLY (length c) (crc_bytes POLY 0 b))) (crc_bytes POLY 0 c).
Proof.
  rewrite !crc_bytes_app, (crc_bytes_state POLY _ c), (crc_bytes_state POLY (crc_bytes POLY s a) b).
  by rewrite shift_linear, <-shift_add.
Qed.

Lemma update_block_spec {E} F0 F1 data crc ptr :
  stripe_const 680 F0 = true -> stripe_const 344 F1 = true -> word 32 crc -> ptr + 1024 <= length data ->
  update_block (E:=E) F0 F1 data crc ptr = Ok (crc_bytes POLY crc (bytes_at data ptr 1024)).
Proof.
  intros H0 H1 Hcrc Hl. unfold update_block. rewrite read_le_Ok by lia. bind_step. cbv zeta.
  rewrite crc_instr_at by lia. rewrite (stripe_loop_spec data crc ptr) by done. bind_step.
  unfold stripes_at. rewrite read_le_Ok by lia. bind_step. rewrite crc_instr_at by lia.
  assert (word 32 0) as Hw0 by (unfold word; lia).
  rewrite (fold_crc_word_spec 680), (fold_crc_word_spec 344) by
    (lia || assumption || (apply word_crc_bytes; (lia || done))).
  rewrite <-crc_bytes_app, <-bytes_at_app. apply (f_equal Ok).
  replace (bytes_at data ptr 1024) with
    (bytes_at data ptr 344 ++ bytes_at data (ptr + 344) 336 ++ bytes_at data (ptr + 680) 344).
  - rewrite crc_three_parts, !length_bytes_at by lia. reflexivity.
  - replace (ptr + 680) with (ptr + 344 + 336) by lia.
    rewrite <-(bytes_at_app data (ptr + 344) 336 344), <-(bytes_at_app data ptr 344). reflexivity.
Qed.

#[local] Opaque update_block.

Lemma update_blocks_only_spec {E} F0 F1 crc data :
  stripe_const 680 F0 = true -> stripe_const 344 F1 = true -> word 32 crc -> length data mod 1024 = 0 ->
  update_blocks_only (E:=E) F0 F1 crc data = Ok (crc_bytes POLY crc data).
Proof.
  intros H0 H1 Hcrc Hm. apply returns_eq. unfold update_blocks_only.
  apply wp_bind, (wp_while (fun '(c, ptr) => c = crc_bytes POLY crc (take ptr data) /\ ptr <= length data /\
    (length data - ptr) mod 1024 = 0) (fun '(_, ptr) => length data - ptr)).
  - rewrite take_0, Nat.sub_0_r. split_and!; [done|lia|exact Hm].
  - lia.
  - intros [c ptr] (-> & Hp & Hr) Hlt%Nat.ltb_lt.
    assert (1024 <= length data - ptr) as Hge.
    { destruct (Nat.lt_ge_cases (length data - ptr) 1024); [|done]. rewrite Nat.mod_small in Hr; lia. }
    rewrite update_block_spec by (assumption || lia || (apply word_crc_bytes; (lia || done))).
    bind_step. apply wp_ret. unfold BLOCK_SIZE. split; [|lia]. split_and!; [|lia|].
    + rewrite <-crc_bytes_app. unfold bytes_at. by rewrite take_take_drop.
    + replace (length data - (ptr + 1024)) with (length data - ptr - 1 * 1024) by lia.
      apply mod_sub_multiple; [exact Hr|lia].
  - intros [c ptr] (-> & Hp & _) Hge%Nat.ltb_ge. apply wp_ret. by rewrite take_ge by lia.
Qed.

Lemma arm_update_spec {E} F0 F1 crc data :
  stripe_const 680 F0 = true -> stripe_const 344 F1 = true -> word 32 crc ->
  arm_update (E:=E) F0 F1 crc data = Ok (crc_bytes POLY crc data).
Proof.
  intros H0 H1 Hcrc. unfold arm_update. change BLOCK_SIZE with 1024.
  destruct (align_down_mod (length data) 1024 ltac:(lia)) as (Hm & Hle & _).
  remember (align_down (length data) 1024) as n eqn:Hn. clear Hn. cbv zeta.
  assert ((if negb (n =? 0) then prefix ← slice data 0 n; update_blocks_only F0 F1 crc prefix else mret crc) =
    Ok (crc_bytes POLY crc (take n data)) :> outcome E Z) as ->.
  { destruct (Nat.eqb_spec n 0) as [->|]; [done|]. cbn [negb]. rewrite slice_Ok by lia. bind_step.
    rewrite Nat.sub_0_r, drop_0. apply update_blocks_only_spec; [assumption..|]. by rewrite length_take_le. }
  bind_step. rewrite slice_Ok by lia. bind_step.
  rewrite update_hw_spec by (apply word_crc_bytes; (lia || done)).
  by rewrite (take_ge (drop n data)), <-crc_bytes_app, take_drop by (rewrite length_drop; lia).
Qed.

End kernels.

End Crc32Kernels.
