(* ===== verification/Crc32.v ===== *)
(** CRC-32 (IEEE): [crates/checksum/src/crc32.rs].  The routines of
    [Crc32Kernels] at the IEEE polynomial, the PCLMULQDQ and VPCLMULQDQ routines,
    backend selection, [checksum], [combine] and [Hasher].  The theorems are
    those of [Crc64Api] for this checksum. *)

From coqutil Require Import Word.LittleEndianList.
From S2P Require Import Prelude Crc Clmul Zbc Crc32Kernels.

Module Crc32.
Import Crc Clmul Crc32Kernels.

Definition POLY : Z := 0xEDB88320.

Definition extend_scalar {E} (crc : Z) (data : list byte) : outcome E Z :=
  state ← slicing_update POLY (not32 crc) data;
  mret (not32 state).

(** ** x86-64 *)

Definition FOLD_1 : Z := words64 0x00000000ccaa009e 0x00000001751997d0.
Definition FOLD_128_TO_64 : Z := words64 0x00000000ccaa009e 0x0000000163cd6124.
Definition BARRETT : Z := words64 0x00000001f7011640 0x00000001db710640.
Definition FOLD_8X2 : list Z :=
  [words64 0x000000014a7fe880 0x00000001e88ef372; words64 0x000000014a7fe880 0x00000001e88ef372].
Definition FOLD_7_6 : list Z :=
  [words64 0x00000001d7cfc6ac 0x00000001ea89367e; words64 0x000000018cb44e58 0x00000000df068dc2].
Definition FOLD_5_4 : list Z :=
  [words64 0x00000000ae0b5394 0x00000001c7569e54; words64 0x00000001c6e41596 0x0000000154442bd4].
Definition FOLD_3_2 : list Z :=
  [words64 0x0000000174359406 0x000000003db1ecdc; words64 0x000000015a546366 0x00000000f1da05aa].

(** [_mm_cvtsi32_si128]: the word in the lowest lane *)
Definition xor_crc (block crc : Z) : Z := Z.lxor block crc.

Definition reduce_to_crc (x : Z) : Z := x86_reduce FOLD_128_TO_64 BARRETT x.

Definition x86_extend_blocks_only {E} (crc : Z) (data : list byte) : outcome E Z :=
  first ← read_le 16 data 0;
  '(state, _) ← while_loop (S (length data))
    (fun '(_, ptr) => ptr <? length data)
    (fun '(state, ptr) =>
      next ← read_le 16 data ptr;
      mret (fold_block state next FOLD_1, ptr + 16)) (xor_crc first (not32 crc), 16);
  mret (not32 (reduce_to_crc state)).

Definition extend_blocks_only_vpclmul {E} (crc : Z) (data : list byte) : outcome E Z :=
  state ← vpclmul_fold (VpclmulConstants FOLD_8X2 FOLD_7_6 FOLD_5_4 FOLD_3_2 FOLD_1) (not32 crc) data;
  mret (not32 (reduce_to_crc state)).

Definition x86_extend {E} (crc : Z) (data : list byte) : outcome E Z :=
  let prefix_len := align_down (length data) 16 in
  if prefix_len <? 16 then extend_scalar crc data
  else
    '(prefix, tail) ← split_at data prefix_len;
    prefix_crc ← x86_extend_blocks_only crc prefix;
    extend_scalar prefix_crc tail.

Definition extend_vpclmul {E} (crc : Z) (data : list byte) : outcome E Z :=
  let prefix_len := align_down (length data) 16 in
  if prefix_len <? 128 then x86_extend crc data
  else
    let prefix_len := align_down prefix_len 128 in
    '(prefix, tail) ← split_at data prefix_len;
    prefix_crc ← extend_blocks_only_vpclmul crc prefix;
    extend_scalar prefix_crc tail.

(** ** Arm *)

Definition FOLD_CRC0 : Z := 0x00000000B486819B.
Definition FOLD_CRC1 : Z := 0x0000000076278617.

Definition arm_extend {E} (crc : Z) (data : list byte) : outcome E Z :=
  state ← arm_update POLY FOLD_CRC0 FOLD_CRC1 (not32 crc) data;
  mret (not32 state).

(** ** RISC-V *)

(** [Parameters for Ieee] *)
Definition Ieee : zbc_parameters := {|
  P4_LOW := 0x0000000154442BD4;
  P4_HIGH := 0x00000001C6E41596;
  P1_LOW := 0x00000001751997D0;
  P1_HIGH := 0x00000000CCAA009E;
  P0_LOW := 0x00000000CCAA009E;
  P0_HIGH := 0x0000000163CD6124;
  BR_LOW := 0x00000001F7011640;
  BR_HIGH := 0x00000001DB710640;
|}.

Definition extend_zbc_riscv64 {E} (crc addr : Z) (data : list byte) : outcome E Z :=
  if length data <? 64 then extend_scalar crc data
  else
    let unaligned_len := unaligned_len addr in
    if length data - unaligned_len <? 64 then extend_scalar crc data
    else
      '(unaligned, aligned) ← split_at data unaligned_len;
      aligned_crc ← extend_scalar crc unaligned;
      let prefix_len := align_down (length aligned) 64 in
      '(prefix, tail) ← split_at aligned prefix_len;
      prefix_state ← zbc_update_blocks Ieee (not32 aligned_crc) (addr + Z.of_nat unaligned_len) prefix;
      extend_scalar (not32 prefix_state) tail.

(** ** Backend selection *)

Inductive PureRustBackend := Scalar | ZbcRiscv64 | CrcPmullAarch64 | VpclmulX86_64 | PclmulX86_64.

Definition has_pclmul_x86_64 (cpu : cpu_features) : bool := has_sse41 cpu && has_pclmulqdq cpu.
Definition has_vpclmul_x86_64 (cpu : cpu_features) : bool :=
  has_sse41 cpu && has_pclmulqdq cpu && has_vpclmulqdq cpu && has_avx2 cpu.
Definition has_crc_pmull_aarch64 (cpu : cpu_features) : bool := has_crc cpu && has_aes cpu.

Definition pure_rust_backend (arch : target_arch) (cpu : cpu_features) : PureRustBackend :=
  match arch with
  | X86_64 =>
      if has_vpclmul_x86_64 cpu then VpclmulX86_64
      else if has_pclmul_x86_64 cpu then PclmulX86_64
      else Scalar
  | Aarch64 => if has_crc_pmull_aarch64 cpu then CrcPmullAarch64 else Scalar
  | Riscv64 => if has_zbc cpu then ZbcRiscv64 else Scalar
  | OtherArch => Scalar
  end.

(** [data] lies at [addr]. *)
Definition extend {E} (arch : target_arch) (cpu : cpu_features) (crc addr : Z) (data : list byte) :
    outcome E Z :=
  let dispatch :=
    match pure_rust_backend arch cpu with
    | Scalar => extend_scalar crc data
    | ZbcRiscv64 =>
        if length data - unaligned_len addr <? 64 then extend_scalar crc data
        else extend_zbc_riscv64 crc addr data
    | CrcPmullAarch64 => arm_extend crc data
    | VpclmulX86_64 => extend_vpclmul crc data
    | PclmulX86_64 => x86_extend crc data
    end in
  match arch with
  | Riscv64 => if length data <? 64 then extend_scalar crc data else dispatch
  | _ => dispatch
  end.

(** ** The interface *)

Definition checksum {E} (arch : target_arch) (cpu : cpu_features) (addr : Z) (data : list byte) :
    outcome E Z := extend arch cpu 0 addr data.

Definition combine {E} (crc_a crc_b len_b : Z) : outcome E Z := Crc.combine 32 POLY crc_a crc_b len_b.

Record Hasher := MkHasher { crc : Z }.

Definition new : Hasher := MkHasher 0.
Definition update {E} (arch : target_arch) (cpu : cpu_features) (self : Hasher) (addr : Z)
    (data : list byte) : outcome E Hasher :=
  crc ← extend arch cpu (crc self) addr data;
  mret (MkHasher crc).
Definition finalize (self : Hasher) : Z := crc self.
Definition reset (self : Hasher) : Hasher := MkHasher 0.

(** Several chunks, each at its address *)
Definition update_all {E} (arch : target_arch) (cpu : cpu_features) (self : Hasher)
    (chunks : list (Z * list byte)) : outcome E Hasher :=
  foldM (fun h '(addr, data) => update arch cpu h addr data) self chunks.

(** * Correctness *)

(** The reference: the register, bit by bit, from [!crc] and negated again *)
Definition crc32_reference (crc : Z) (data : list byte) : Z := crc_extend 32 POLY crc data.

Lemma crc32_word_POLY : word 32 POLY.
Proof. unfold word, POLY. lia. Qed.

Lemma crc32_word_not32 x : word 32 x -> word 32 (not32 x).
Proof. intros H. apply word_lxor; [lia|done|by apply word_ones]. Qed.

Lemma crc32_below_not32 crc : word 32 crc -> below 128 (not32 crc).
Proof. intros H. apply (below_weaken 32); [lia|]. by apply crc32_word_not32. Qed.

Lemma crc32_word_reference crc data : word 32 crc -> word 32 (crc32_reference crc data).
Proof. intros H. apply word_crc_extend; [lia|apply crc32_word_POLY|done]. Qed.

Lemma crc32_reference_nil crc : crc32_reference crc [] = crc.
Proof. apply crc_not_not. Qed.

Lemma crc32_reference_app crc d1 d2 :
  crc32_reference crc (d1 ++ d2) = crc32_reference (crc32_reference crc d1) d2.
Proof. apply crc_extend_app. Qed.

Lemma crc32_reference_take n crc data :
  crc32_reference (crc32_reference crc (take n data)) (drop n data) = crc32_reference crc data.
Proof. by rewrite <-crc32_reference_app, take_drop. Qed.

Lemma crc32_extend_scalar_spec {E} crc data :
  word 32 crc -> extend_scalar (E:=E) crc data = Ok (crc32_reference crc data).
Proof.
  intros H. unfold extend_scalar. rewrite slicing_update_spec by (apply crc32_word_POLY || by apply crc32_word_not32).
  reflexivity.
Qed.

Lemma crc32_fold_1_ok : fold_const POLY 1 FOLD_1 = true.
Proof. vm_compute. reflexivity. Qed.

Lemma crc32_vpclmul_constants_ok :
  vpclmul_ok POLY (VpclmulConstants FOLD_8X2 FOLD_7_6 FOLD_5_4 FOLD_3_2 FOLD_1).
Proof.
  exists (lane 0 FOLD_8X2), (lane 0 FOLD_7_6), (lane 1 FOLD_7_6), (lane 0 FOLD_5_4), (lane 1 FOLD_5_4),
    (lane 0 FOLD_3_2), (lane 1 FOLD_3_2).
  split; [reflexivity|]. split; vm_compute; reflexivity.
Qed.

Lemma crc32_reduce_to_crc_spec x : below 128 x -> reduce_to_crc x = shift POLY 16 x.
Proof. apply x86_reduce_spec. vm_compute. reflexivity. Qed.

Lemma Ieee_ok : zbc_ok POLY Ieee.
Proof.
  unfold zbc_ok, Zbc.words_ok, below. cbn [Zbc.low Zbc.high P4_LOW P4_HIGH P1_LOW P1_HIGH Ieee].
  refine (conj _ (conj _ (conj _ (conj _ _)))); [lia|lia|vm_compute; reflexivity..].
Qed.

Lemma crc32_stripe_constants : stripe_const POLY 680 FOLD_CRC0 = true /\ stripe_const POLY 344 FOLD_CRC1 = true.
Proof. split; vm_compute; reflexivity. Qed.

#[local] Opaque slicing_update fold_const shift step Clmul.fold_block block_at reduce_to_crc zbc_update_blocks
  arm_update stripe_const vpclmul_fold.

(** The last step of the vector routines *)
Lemma crc32_finish_reduce data crc x ptr :
  consumed POLY data (not32 crc) 1 [x] ptr -> length data <= ptr ->
  not32 (reduce_to_crc x) = crc32_reference crc data.
Proof.
  intros Hc Hend. destruct (consumed_finish _ _ _ _ _ Hc Hend) as [Hx Hr].
  by rewrite crc32_reduce_to_crc_spec, Hr.
Qed.

Lemma crc32_x86_extend_blocks_only_spec {E} crc data :
  word 32 crc -> 16 <= length data -> length data mod 16 = 0 ->
  x86_extend_blocks_only (E:=E) crc data = Ok (crc32_reference crc data).
Proof.
  intros Hcrc Hl Hm. apply returns_eq. unfold x86_extend_blocks_only, xor_crc.
  rewrite read_block_Ok by lia. bind_step.
  apply wp_bind, (wp_while (fun '(x, ptr) => consumed POLY data (not32 crc) 1 [x] ptr /\
    (length data - ptr) mod 16 = 0) (fun '(_, ptr) => length data - ptr)).
  - split; [|by apply (mod_sub_multiple _ 1 16)].
    apply (consumed_first POLY data _ 1); [by apply crc32_below_not32|lia|apply blocks_1].
  - lia.
  - intros [x ptr] [Hc Hr] Hlt%Nat.ltb_lt. assert (16 <= length data - ptr) as Hge.
    { destruct (Nat.lt_ge_cases (length data - ptr) 16); [|done]. rewrite Nat.mod_small in Hr; lia. }
    rewrite read_block_Ok by lia. bind_step. apply wp_ret. split; [|lia]. split.
    + apply consumed_one; [exact Hc|exact crc32_fold_1_ok|lia].
    + replace (length data - (ptr + 16)) with (length data - ptr - 1 * 16) by lia.
      apply mod_sub_multiple; [exact Hr|lia].
  - intros [x ptr] [Hc _] Hge%Nat.ltb_ge. by apply wp_ret, (crc32_finish_reduce data crc x ptr).
Qed.

Lemma crc32_extend_blocks_only_vpclmul_spec {E} crc data :
  word 32 crc -> 128 <= length data -> length data mod 128 = 0 ->
  extend_blocks_only_vpclmul (E:=E) crc data = Ok (crc32_reference crc data).
Proof.
  intros Hcrc Hl Hm. apply returns_eq. unfold extend_blocks_only_vpclmul. eapply wp_bind_returns.
  - apply (vpclmul_fold_spec POLY); [apply crc32_vpclmul_constants_ok|by apply crc32_below_not32|exact Hl|exact Hm].
  - intros x Hc. apply wp_ret, (crc32_finish_reduce data crc x (length data)); [exact Hc|lia].
Qed.

#[local] Opaque extend_scalar.

(** A routine for the prefix, then the scalar routine for the tail *)
Lemma crc32_prefix_tail {E} (blocks : Z -> list byte -> outcome E Z) crc data n :
  word 32 crc -> n <= length data ->
  blocks crc (take n data) = Ok (crc32_reference crc (take n data)) ->
  ('(prefix, tail) ← split_at data n;
   prefix_crc ← blocks crc prefix;
   extend_scalar prefix_crc tail) = Ok (crc32_reference crc data).
Proof.
  intros Hcrc Hn Hb. rewrite split_at_Ok by exact Hn. bind_step.
  rewrite Hb. bind_step. rewrite crc32_extend_scalar_spec by by apply crc32_word_reference.
  by rewrite crc32_reference_take.
Qed.

Lemma crc32_x86_extend_spec {E} crc data :
  word 32 crc -> x86_extend (E:=E) crc data = Ok (crc32_reference crc data).
Proof.
  intros Hcrc. unfold x86_extend. destruct (align_down_mod (length data) 16 ltac:(lia)) as (Hm & Hle & _).
  destruct (Nat.ltb_spec (align_down (length data) 16) 16); [by apply crc32_extend_scalar_spec|].
  apply crc32_prefix_tail; [done..|]. apply crc32_x86_extend_blocks_only_spec; [done| |]; rewrite length_take_le by lia; lia.
Qed.

Lemma crc32_extend_vpclmul_spec {E} crc data :
  word 32 crc -> extend_vpclmul (E:=E) crc data = Ok (crc32_reference crc data).
Proof.
  intros Hcrc. unfold extend_vpclmul. destruct (align_down_mod (length data) 16 ltac:(lia)) as (_ & Hle & _).
  destruct (Nat.ltb_spec (align_down (length data) 16) 128); [by apply crc32_x86_extend_spec|]. cbv zeta.
  destruct (align_down_mod (align_down (length data) 16) 128 ltac:(lia)) as (Hm & Hle' & Hgt).
  apply crc32_prefix_tail; [done|lia|].
  apply crc32_extend_blocks_only_vpclmul_spec; [done| |]; rewrite length_take_le by lia; [|done].
  by apply align_down_pos.
Qed.

Lemma crc32_arm_extend_spec {E} crc data :
  word 32 crc -> arm_extend (E:=E) crc data = Ok (crc32_reference crc data).
Proof.
  intros Hcrc. unfold arm_extend.
  rewrite (arm_update_spec POLY crc32_word_POLY _ _ _ _ (proj1 crc32_stripe_constants) (proj2 crc32_stripe_constants)
    (crc32_word_not32 crc Hcrc)).
  reflexivity.
Qed.

Lemma crc32_zbc_blocks_spec {E} crc addr data :
  word 32 crc -> 0 < length data -> length data mod 64 = 0 -> Zbc.aligned addr 0 ->
  zbc_update_blocks (E:=E) Ieee (not32 crc) addr data = Ok (not32 (crc32_reference crc data)).
Proof.
  intros Hcrc Hl Hm Ha.
  rewrite (zbc_update_blocks_spec POLY) by (apply Ieee_ok || by apply crc32_word_not32 || done).
  unfold crc32_reference, crc_extend, not32. by rewrite crc_not_not.
Qed.

Lemma crc32_extend_zbc_riscv64_spec {E} crc addr data :
  word 32 crc -> extend_zbc_riscv64 (E:=E) crc addr data = Ok (crc32_reference crc data).
Proof.
  intros Hcrc. unfold extend_zbc_riscv64.
  pose proof (@crc32_extend_scalar_spec E) as Hs. generalize dependent (@extend_scalar E). intros scalar Hs.
  pose proof (@crc32_zbc_blocks_spec E) as Hb. generalize dependent (@zbc_update_blocks E Ieee).
  intros blocks Hb. destruct (unaligned_len_aligned addr) as [Hu Ha].
  remember (unaligned_len addr) as u eqn:Hequ. clear Hequ.
  destruct (Nat.ltb_spec (length data) 64); [by apply Hs|]. cbv zeta.
  destruct (Nat.ltb_spec (length data - u) 64); [by apply Hs|].
  rewrite split_at_Ok by lia. bind_step. rewrite Hs by done. bind_step.
  rewrite <-(crc32_reference_take u crc data). pose proof (crc32_word_reference crc (take u data) Hcrc) as Hw.
  generalize dependent (crc32_reference crc (take u data)). intros crc' Hw.
  remember (drop u data) as d eqn:Hd. assert (64 <= length d) as H64 by (rewrite Hd, length_drop; lia).
  destruct (align_down_mod (length d) 64 ltac:(lia)) as (Hm & Hle & _).
  pose proof (align_down_pos (length d) 64 ltac:(lia) H64) as Hpos.
  rewrite split_at_Ok by lia. bind_step.
  rewrite Hb by (done || rewrite length_take_le by lia; (lia || done)). bind_step.
  unfold not32. rewrite crc_not_not, Hs by by apply crc32_word_reference. by rewrite crc32_reference_take.
Qed.

Lemma crc32_extend_spec {E} arch cpu crc addr data :
  word 32 crc -> extend (E:=E) arch cpu crc addr data = Ok (crc32_reference crc data).
Proof.
  intros Hcrc. unfold extend. cbv zeta.
  assert (forall b, match b with
    | Scalar => extend_scalar (E:=E) crc data
    | ZbcRiscv64 =>
        if length data - unaligned_len addr <? 64 then extend_scalar crc data
        else extend_zbc_riscv64 crc addr data
    | CrcPmullAarch64 => arm_extend crc data
    | VpclmulX86_64 => extend_vpclmul crc data
    | PclmulX86_64 => x86_extend crc data
    end = Ok (crc32_reference crc data)) as H.
  { intros []; [by apply crc32_extend_scalar_spec| |by apply crc32_arm_extend_spec|by apply crc32_extend_vpclmul_spec|
      by apply crc32_x86_extend_spec].
    destruct (_ <? _); [by apply crc32_extend_scalar_spec|by apply crc32_extend_zbc_riscv64_spec]. }
  destruct arch; try apply H. destruct (length data <? 64); [by apply crc32_extend_scalar_spec|apply H].
Qed.

Lemma crc32_word_0 : word 32 0.
Proof. unfold word. lia. Qed.

Lemma crc32_update_all_spec {E} arch cpu chunks : forall c,
  word 32 c -> update_all (E:=E) arch cpu (MkHasher c) chunks =
  Ok (MkHasher (crc32_reference c (chunks ≫= snd))).
Proof.
  unfold update_all, update. induction chunks as [|[a d] chunks IH]; intros c Hc; cbn [foldM crc].
  - by rewrite crc32_reference_nil.
  - rewrite crc32_extend_spec by done. bind_step. rewrite IH by by apply crc32_word_reference.
    by rewrite <-crc32_reference_app.
Qed.

(** CRC-32 is computed right on every processor.  Whatever the
    architecture, the detected features and the address of the buffer,
    [extend] returns without panic or out-of-bounds load, and its value is the
    one of the bit-at-a-time register over the data. *)
Theorem crc32_extend_reference {E} arch cpu crc addr data :
  word 32 crc ->
  extend (E:=E) arch cpu crc addr data = Ok (crc32_reference crc data).
Proof. apply crc32_extend_spec. Qed.

(** [combine] of the CRC-32 checksums of [a] and [b] and the length of [b]
    is the checksum of [a] followed by [b]. *)
Theorem crc32_combine_checksums {E} arch cpu addr_a addr_b addr a b :
  (Z.of_nat (length b) < 2 ^ 64)%Z ->
  (crc_a ← checksum arch cpu addr_a a;
   crc_b ← checksum arch cpu addr_b b;
   combine crc_a crc_b (Z.of_nat (length b))) = checksum (E:=E) arch cpu addr (a ++ b).
Proof.
  intros Hb. unfold checksum. rewrite !crc32_extend_spec by apply crc32_word_0. bind_step.
  apply combine_extend; [lia|apply crc32_word_POLY|exact Hb].
Qed.

(** Feeding any sequence of chunks to a new CRC-32 hasher, or to one that
    was used and reset, finalizes to the checksum of their concatenation. *)
Theorem crc32_hasher_streams {E} arch cpu old chunks addr :
  (h ← update_all (E:=E) arch cpu (reset old) chunks; mret (finalize h)) =
  checksum arch cpu addr (chunks ≫= snd) /\
  (h ← update_all (E:=E) arch cpu new chunks; mret (finalize h)) =
  checksum arch cpu addr (chunks ≫= snd).
Proof.
  unfold reset, new, checksum. by rewrite !crc32_update_all_spec, crc32_extend_spec by apply crc32_word_0.
Qed.

(** ** Examples *)

(** The ASCII digits [1] to [9], and a processor with every feature *)
Definition digits : list byte := (fun i => byte.of_Z (48 + Z.of_nat i)) <$> seq 1 9.
Definition all_features : cpu_features := CpuFeatures true true true true true true true true true true.

Lemma crc32_extend_reference_witness :
  extend (E:=unit) Aarch64 all_features 0 0 digits = Ok 0xCBF43926%Z.
Proof.
  etransitivity; [apply (crc32_extend_reference Aarch64 all_features 0 0 digits); unfold word; lia|].
  vm_compute. reflexivity.
Defined.

Lemma crc32_combine_checksums_witness :
  (crc_a ← checksum X86_64 all_features 0 digits;
   crc_b ← checksum X86_64 all_features 0 digits;
   combine crc_a crc_b 9) = checksum (E:=unit) X86_64 all_features 0 (digits ++ digits).
Proof. apply (crc32_combine_checksums X86_64 all_features 0 0 0 digits digits). vm_compute. reflexivity. Defined.

End Crc32.
