(* ===== verification/Crc32c.v ===== *)
(** CRC-32C (Castagnoli): [crates/checksum/src/crc32c.rs].  The routines of
    [Crc32Kernels] at the Castagnoli polynomial on the raw register state, the
    SSE4.2 and VPCLMULQDQ routines, backend selection, [checksum], [combine] and
    [Hasher].  The theorems are those of [Crc64Api] for this checksum. *)

From coqutil Require Import Word.LittleEndianList.
From S2P Require Import Prelude Crc Clmul Zbc Crc32Kernels.

Module Crc32c.
Import Crc Clmul Crc32Kernels.

Definition POLY : Z := 0x82F63B78.

Definition update_scalar {E} (crc : Z) (data : list byte) : outcome E Z := slicing_update POLY crc data.

(** ** x86-64 *)

Definition update_sse42_x86_64 {E} (crc : Z) (data : list byte) : outcome E Z :=
  '(crc, remaining) ← while_loop (S (length data))
    (fun '(_, remaining) => 8 <=? length remaining)
    (fun '(crc, remaining) =>
      a ← read_le 8 remaining 0;
      remaining ← slice remaining 8 (length remaining);
      mret (crc_instr POLY 8 crc a, remaining)) (crc, data);
  '(crc, remaining) ← while_loop (S (length data))
    (fun '(_, remaining) => 4 <=? length remaining)
    (fun '(crc, remaining) =>
      a ← read_le 4 remaining 0;
      remaining ← slice remaining 4 (length remaining);
      mret (crc_instr POLY 4 crc a, remaining)) (crc, remaining);
  mret (foldl (fun crc b => crc_instr POLY 1 crc (byte.unsigned b)) crc remaining).

Definition FOLD_1 : Z := words64 0x00000000493c7d27 0x0000000ec1068c50.
Definition FOLD_128_TO_64 : Z := words64 0x00000000493c7d27 0x00000000dd45aab8.
Definition BARRETT : Z := words64 0x00000000dea713f0 0x0000000105ec76f0.
Definition FOLD_8X2 : list Z :=
  [words64 0x0000000206e38d70 0x000000006992cea2; words64 0x0000000206e38d70 0x000000006992cea2].
Definition FOLD_7_6 : list Z :=
  [words64 0x0000000047db8317 0x000000002ad91c30; words64 0x000000000715ce53 0x00000000c49f4f67].
Definition FOLD_5_4 : list Z :=
  [words64 0x0000000039d3b296 0x00000000083a6eec; words64 0x000000009e4addf8 0x00000000740eef02].
Definition FOLD_3_2 : list Z :=
  [words64 0x00000000ddc0152b 0x000000001c291d04; words64 0x00000000ba4fc28e 0x000000003da6d0cb].

Definition reduce_to_crc (x : Z) : Z := x86_reduce FOLD_128_TO_64 BARRETT x.

Definition update_blocks_only_vpclmul {E} (crc : Z) (data : list byte) : outcome E Z :=
  state ← vpclmul_fold (VpclmulConstants FOLD_8X2 FOLD_7_6 FOLD_5_4 FOLD_3_2 FOLD_1) crc data;
  mret (reduce_to_crc state).

Definition update_vpclmul {E} (crc : Z) (data : list byte) : outcome E Z :=
  let prefix_len := align_down (length data) 16 in
  if prefix_len <? 128 then update_scalar crc data
  else
    let prefix_len := align_down prefix_len 128 in
    '(prefix, tail) ← split_at data prefix_len;
    prefix_crc ← update_blocks_only_vpclmul crc prefix;
    update_scalar prefix_crc tail.

(** ** Arm *)

Definition FOLD_CRC0 : Z := 0x00000000E417F38A.
Definition FOLD_CRC1 : Z := 0x000000008F158014.

Definition update_crc_pmull_aarch64 {E} (crc : Z) (data : list byte) : outcome E Z :=
  arm_update POLY FOLD_CRC0 FOLD_CRC1 crc data.

(** ** RISC-V *)

(** [Parameters for Castagnoli] *)
Definition Castagnoli : zbc_parameters := {|
  P4_LOW := 0x00000000740EEF02;
  P4_HIGH := 0x000000009E4ADDF8;
  P1_LOW := 0x0000000EC1068C50;
  P1_HIGH := 0x00000000493C7D27;
  P0_LOW := 0x00000000493C7D27;
  P0_HIGH := 0x00000000DD45AAB8;
  BR_LOW := 0x00000000DEA713F0;
  BR_HIGH := 0x0000000105EC76F0;
|}.

Definition update_zbc_riscv64 {E} (crc addr : Z) (data : list byte) : outcome E Z :=
  if length data <? 64 then update_scalar crc data
  else
    let unaligned_len := unaligned_len addr in
    if length data - unaligned_len <? 64 then update_scalar crc data
    else
      '(unaligned, aligned) ← split_at data unaligned_len;
      aligned_crc ← update_scalar crc unaligned;
      let prefix_len := align_down (length aligned) 64 in
      '(prefix, tail) ← split_at aligned prefix_len;
      prefix_crc ← zbc_update_blocks Castagnoli aligned_crc (addr + Z.of_nat unaligned_len) prefix;
      update_scalar prefix_crc tail.

(** ** Backend selection *)

Inductive PureRustBackend := Scalar | ZbcRiscv64 | CrcPmullAarch64 | VpclmulX86_64 | Sse42X86_64.

Definition has_sse42_x86_64 (cpu : cpu_features) : bool := has_sse42 cpu.
Definition has_vpclmul_x86_64 (cpu : cpu_features) : bool :=
  has_sse41 cpu && has_pclmulqdq cpu && has_vpclmulqdq cpu && has_avx2 cpu.
Definition has_crc_pmull_aarch64 (cpu : cpu_features) : bool := has_crc cpu && has_aes cpu.

Definition pure_rust_backend (arch : target_arch) (cpu : cpu_features) : PureRustBackend :=
  match arch with
  | X86_64 =>
      if has_vpclmul_x86_64 cpu then VpclmulX86_64
      else if has_sse42_x86_64 cpu then Sse42X86_64
      else Scalar
  | Aarch64 => if has_crc_pmull_aarch64 cpu then CrcPmullAarch64 else Scalar
  | Riscv64 => if has_zbc cpu then ZbcRiscv64 else Scalar
  | OtherArch => Scalar
  end.

(** [data] lies at [addr]. *)
Definition update_internal {E} (arch : target_arch) (cpu : cpu_features) (crc addr : Z) (data : list byte) :
    outcome E Z :=
  let dispatch :=
    match pure_rust_backend arch cpu with
    | Scalar => update_scalar crc data
    | ZbcRiscv64 =>
        if length data - unaligned_len addr <? 64 then update_scalar crc data
        else update_zbc_riscv64 crc addr data
    | CrcPmullAarch64 => update_crc_pmull_aarch64 crc data
    | VpclmulX86_64 => update_vpclmul crc data
    | Sse42X86_64 => update_sse42_x86_64 crc data
    end in
  match arch with
  | Riscv64 => if length data <? 64 then update_scalar crc data else dispatch
  | _ => dispatch
  end.

(** ** The interface *)

Definition U32_MAX : Z := 0xFFFFFFFF.

Definition checksum {E} (arch : target_arch) (cpu : cpu_features) (addr : Z) (data : list byte) :
    outcome E Z :=
  crc ← update_internal arch cpu U32_MAX addr data;
  mret (Z.lxor crc U32_MAX).

Definition combine {E} (crc_a crc_b len_b : Z) : outcome E Z := Crc.combine 32 POLY crc_a crc_b len_b.

Record Hasher := MkHasher { crc : Z }.

Definition new : Hasher := MkHasher U32_MAX.
Definition update {E} (arch : target_arch) (cpu : cpu_features) (self : Hasher) (addr : Z)
    (data : list byte) : outcome E Hasher :=
  crc ← update_internal arch cpu (crc self) addr data;
  mret (MkHasher crc).
Definition finalize (self : Hasher) : Z := Z.lxor (crc self) U32_MAX.
Definition reset (self : Hasher) : Hasher := MkHasher U32_MAX.

(** Several chunks, each at its address *)
Definition update_all {E} (arch : target_arch) (cpu : cpu_features) (self : Hasher)
    (chunks : list (Z * list byte)) : outcome E Hasher :=
  foldM (fun h '(addr, data) => update arch cpu h addr data) self chunks.

(** * Correctness *)

(** The reference: the register, bit by bit, from all ones and negated at the end *)
Definition crc32c_reference (data : list byte) : Z := crc_extend 32 POLY 0 data.

Lemma crc32c_word_POLY : word 32 POLY.
Proof. unfold word, POLY. lia. Qed.

Lemma crc32c_word_bytes crc data : word 32 crc -> word 32 (crc_bytes POLY crc data).
Proof. intros H. apply word_crc_bytes; [lia|apply crc32c_word_POLY|done]. Qed.

Lemma crc32c_bytes_take n crc data :
  crc_bytes POLY (crc_bytes POLY crc (take n data)) (drop n data) = crc_bytes POLY crc data.
Proof. by rewrite <-crc_bytes_app, take_drop. Qed.

Lemma update_scalar_spec {E} crc data :
  word 32 crc -> update_scalar (E:=E) crc data = Ok (crc_bytes POLY crc data).
Proof. apply slicing_update_spec, crc32c_word_POLY. Qed.

Lemma crc_instr_tail crc data :
  foldl (fun crc b => crc_instr POLY 1 crc (byte.unsigned b)) crc data = crc_bytes POLY crc data.
Proof.
  revert crc. induction data as [|b data IH]; intros crc; [done|]. cbn [foldl]. rewrite IH.
  rewrite <-(le_combine_1 b), (crc_instr_bytes POLY 1) by done. by rewrite <-crc_bytes_app.
Qed.

Lemma update_sse42_spec {E} crc data :
  word 32 crc -> update_sse42_x86_64 (E:=E) crc data = Ok (crc_bytes POLY crc data).
Proof.
  intros Hs. pose proof crc32c_word_POLY as HP. unfold update_sse42_x86_64. apply returns_eq.
  apply wp_bind, (wp_chunks POLY 32 ltac:(lia) HP); [lia|done|lia| |].
  { intros s' rem' _ Hl'. by apply hw_block. }
  intros s1 rem Hs1 Heq Hl _.
  apply wp_bind, (wp_chunks POLY 32 ltac:(lia) HP); [lia|done|lia| |].
  { intros s' rem' _ Hl'. by apply hw_block. }
  intros s2 rem' Hs2 Heq' _ Hl'. apply wp_ret. by rewrite crc_instr_tail, Heq', Heq.
Qed.

Lemma crc32c_vpclmul_constants :
  vpclmul_ok POLY (VpclmulConstants FOLD_8X2 FOLD_7_6 FOLD_5_4 FOLD_3_2 FOLD_1).
Proof.
  exists (lane 0 FOLD_8X2), (lane 0 FOLD_7_6), (lane 1 FOLD_7_6), (lane 0 FOLD_5_4), (lane 1 FOLD_5_4),
    (lane 0 FOLD_3_2), (lane 1 FOLD_3_2).
  split; [reflexivity|]. split; vm_compute; reflexivity.
Qed.

Lemma crc32c_reduce_spec x : below 128 x -> reduce_to_crc x = shift POLY 16 x.
Proof. apply x86_reduce_spec. vm_compute. reflexivity. Qed.

Lemma Castagnoli_ok : zbc_ok POLY Castagnoli.
Proof.
  unfold zbc_ok, Zbc.words_ok, below. cbn [Zbc.low Zbc.high P4_LOW P4_HIGH P1_LOW P1_HIGH Castagnoli].
  refine (conj _ (conj _ (conj _ (conj _ _)))); [lia|lia|vm_compute; reflexivity..].
Qed.

Lemma crc32c_stripe_constants :
  stripe_const POLY 680 FOLD_CRC0 = true /\ stripe_const POLY 344 FOLD_CRC1 = true.
Proof. split; vm_compute; reflexivity. Qed.

#[local] Opaque slicing_update fold_const shift step block_at reduce_to_crc zbc_update_blocks
  arm_update stripe_const vpclmul_fold crc_bytes.

Lemma update_blocks_only_vpclmul_spec {E} crc data :
  word 32 crc -> 128 <= length data -> length data mod 128 = 0 ->
  update_blocks_only_vpclmul (E:=E) crc data = Ok (crc_bytes POLY crc data).
Proof.
  intros Hcrc Hl Hm. apply returns_eq. unfold update_blocks_only_vpclmul. eapply wp_bind_returns.
  - apply (vpclmul_fold_spec POLY); [apply crc32c_vpclmul_constants| |exact Hl|exact Hm].
    by apply (below_weaken 32); [lia|].
  - intros x Hc. apply wp_ret. destruct (consumed_finish _ _ _ _ _ Hc ltac:(lia)) as [Hx Hr].
    by rewrite crc32c_reduce_spec, Hr.
Qed.

#[local] Opaque update_scalar.

Lemma update_vpclmul_spec {E} crc data :
  word 32 crc -> update_vpclmul (E:=E) crc data = Ok (crc_bytes POLY crc data).
Proof.
  intros Hcrc. unfold update_vpclmul. destruct (align_down_mod (length data) 16 ltac:(lia)) as (_ & Hle & _).
  destruct (Nat.ltb_spec (align_down (length data) 16) 128); [by apply update_scalar_spec|]. cbv zeta.
  destruct (align_down_mod (align_down (length data) 16) 128 ltac:(lia)) as (Hm & Hle' & Hgt).
  pose proof (align_down_pos (align_down (length data) 16) 128 ltac:(lia) ltac:(lia)) as Hpos.
  rewrite split_at_Ok by lia. bind_step.
  rewrite update_blocks_only_vpclmul_spec by (done || rewrite length_take_le by lia; done). bind_step.
  rewrite update_scalar_spec by by apply crc32c_word_bytes. by rewrite crc32c_bytes_take.
Qed.

Lemma update_crc_pmull_spec {E} crc data :
  word 32 crc -> update_crc_pmull_aarch64 (E:=E) crc data = Ok (crc_bytes POLY crc data).
Proof.
  intros Hcrc. exact (arm_update_spec POLY crc32c_word_POLY _ _ _ _ (proj1 crc32c_stripe_constants)
    (proj2 crc32c_stripe_constants) Hcrc).
Qed.

Lemma crc32c_zbc_blocks_spec {E} crc addr data :
  word 32 crc -> 0 < length data -> length data mod 64 = 0 -> Zbc.aligned addr 0 ->
  zbc_update_blocks (E:=E) Castagnoli crc addr data = Ok (crc_bytes POLY crc data).
Proof. apply zbc_update_blocks_spec, Castagnoli_ok. Qed.

Lemma update_zbc_riscv64_spec {E} crc addr data :
  word 32 crc -> update_zbc_riscv64 (E:=E) crc addr data = Ok (crc_bytes POLY crc data).
Proof.
  intros Hcrc. unfold update_zbc_riscv64.
  pose proof (@update_scalar_spec E) as Hs. generalize dependent (@update_scalar E). intros scalar Hs.
  pose proof (@crc32c_zbc_blocks_spec E) as Hb. generalize dependent (@zbc_update_blocks E Castagnoli).
  intros blocks Hb. destruct (unaligned_len_aligned addr) as [Hu Ha].
  remember (unaligned_len addr) as u eqn:Hequ. clear Hequ.
  destruct (Nat.ltb_spec (length data) 64); [by apply Hs|]. cbv zeta.
  destruct (Nat.ltb_spec (length data - u) 64); [by apply Hs|].
  rewrite split_at_Ok by lia. bind_step. rewrite Hs by done. bind_step.
  rewrite <-(crc32c_bytes_take u crc data). pose proof (crc32c_word_bytes crc (take u data) Hcrc) as Hw.
  generalize dependent (crc_bytes POLY crc (take u data)). intros crc' Hw.
  remember (drop u data) as d eqn:Hd. assert (64 <= length d) as H64 by (rewrite Hd, length_drop; lia).
  destruct (align_down_mod (length d) 64 ltac:(lia)) as (Hm & Hle & _).
  pose proof (align_down_pos (length d) 64 ltac:(lia) H64) as Hpos.
  rewrite split_at_Ok by lia. bind_step.
  rewrite Hb by (done || rewrite length_take_le by lia; (lia || done)). bind_step.
  rewrite Hs by by apply crc32c_word_bytes. by rewrite crc32c_bytes_take.
Qed.

Lemma update_internal_spec {E} arch cpu crc addr data :
  word 32 crc -> update_internal (E:=E) arch cpu crc addr data = Ok (crc_bytes POLY crc data).
Proof.
  intros Hcrc. unfold update_internal. cbv zeta.
  assert (forall b, match b with
    | Scalar => update_scalar (E:=E) crc data
    | ZbcRiscv64 =>
        if length data - unaligned_len addr <? 64 then update_scalar crc data
        else update_zbc_riscv64 crc addr data
    | CrcPmullAarch64 => update_crc_pmull_aarch64 crc data
    | VpclmulX86_64 => update_vpclmul crc data
    | Sse42X86_64 => update_sse42_x86_64 crc data
    end = Ok (crc_bytes POLY crc data)) as H.
  { intros []; [by apply update_scalar_spec| |by apply update_crc_pmull_spec|by apply update_vpclmul_spec|
      by apply update_sse42_spec].
    destruct (_ <? _); [by apply update_scalar_spec|by apply update_zbc_riscv64_spec]. }
  destruct arch; try apply H. destruct (length data <? 64); [by apply update_scalar_spec|apply H].
Qed.

Lemma crc32c_word_max : word 32 U32_MAX.
Proof. unfold word, U32_MAX. lia. Qed.

Lemma crc32c_reference_eq data : crc32c_reference data = Z.lxor (crc_bytes POLY U32_MAX data) U32_MAX.
Proof. reflexivity. Qed.

Lemma checksum_spec {E} arch cpu addr data :
  checksum (E:=E) arch cpu addr data = Ok (crc32c_reference data).
Proof.
  unfold checksum. rewrite update_internal_spec by apply crc32c_word_max. bind_step.
  by rewrite crc32c_reference_eq.
Qed.

Lemma crc32c_update_all_spec {E} arch cpu chunks : forall c,
  word 32 c -> update_all (E:=E) arch cpu (MkHasher c) chunks =
  Ok (MkHasher (crc_bytes POLY c (chunks ≫= snd))).
Proof.
  unfold update_all, update. induction chunks as [|[a d] chunks IH]; intros c Hc; cbn [foldM crc].
  - done.
  - rewrite update_internal_spec by done. bind_step. rewrite IH by by apply crc32c_word_bytes.
    by rewrite <-crc_bytes_app.
Qed.

(** CRC-32C is computed right on every processor.  Whatever the
    architecture, the detected features and the address of the buffer, the
    register update returns without panic or out-of-bounds load and equals the
    bit-at-a-time register, and [checksum] is the reference checksum. *)
Theorem crc32c_update_reference {E} arch cpu crc addr data :
  word 32 crc ->
  update_internal (E:=E) arch cpu crc addr data = Ok (crc_bytes POLY crc data) /\
  checksum (E:=E) arch cpu addr data = Ok (crc32c_reference data).
Proof. intros Hcrc. split; [by apply update_internal_spec|apply checksum_spec]. Qed.

(** [combine] of the CRC-32C checksums of [a] and [b] and the length of [b]
    is the checksum of [a] followed by [b]. *)
Theorem crc32c_combine_checksums {E} arch cpu addr_a addr_b addr a b :
  (Z.of_nat (length b) < 2 ^ 64)%Z ->
  (crc_a ← checksum arch cpu addr_a a;
   crc_b ← checksum arch cpu addr_b b;
   combine crc_a crc_b (Z.of_nat (length b))) = checksum (E:=E) arch cpu addr (a ++ b).
Proof.
  intros Hb. rewrite !checksum_spec. bind_step.
  apply combine_extend; [lia|apply crc32c_word_POLY|exact Hb].
Qed.

(** Feeding any sequence of chunks to a new CRC-32C hasher, or to one that
    was used and reset, finalizes to the checksum of their concatenation. *)
Theorem crc32c_hasher_streams {E} arch cpu old chunks addr :
  (h ← update_all (E:=E) arch cpu (reset old) chunks; mret (finalize h)) =
  checksum arch cpu addr (chunks ≫= snd) /\
  (h ← update_all (E:=E) arch cpu new chunks; mret (finalize h)) =
  checksum arch cpu addr (chunks ≫= snd).
Proof.
  unfold reset, new. rewrite !crc32c_update_all_spec, checksum_spec by apply crc32c_word_max.
  by rewrite crc32c_reference_eq.
Qed.

(** ** Examples *)

(** The ASCII digits [1] to [9], and a processor with every feature *)
Definition digits : list byte := (fun i => byte.of_Z (48 + Z.of_nat i)) <$> seq 1 9.
Definition all_features : cpu_features := CpuFeatures true true true true true true true true true true.

Lemma crc32c_update_reference_witness :
  word 32 U32_MAX /\ checksum (E:=unit) Riscv64 all_features 0 digits = Ok 0xE3069283%Z.
Proof.
  split; [unfold word, U32_MAX; lia|].
  etransitivity; [apply (crc32c_update_reference Riscv64 all_features U32_MAX 0 digits); unfold word, U32_MAX; lia|].
  vm_compute. reflexivity.
Defined.

Lemma crc32c_combine_checksums_witness :
  (crc_a ← checksum X86_64 all_features 0 digits;
   crc_b ← checksum X86_64 all_features 0 digits;
   combine crc_a crc_b 9) = checksum (E:=unit) X86_64 all_features 0 (digits ++ digits).
Proof. apply (crc32c_combine_checksums X86_64 all_features 0 0 0 digits digits). vm_compute. reflexivity. Defined.

End Crc32c.
