(* ===== verification/Journal.v ===== *)
(** The durable journal file of the control plane, [DurableJournalFile] in
    crates/storage/src/durable_journal.rs: definitions.

    Module [Fs] models the part of [std::fs] the journal uses: a map from paths
    to contents, a script that decides which of the coming I/O calls fail and
    after how many bytes, the journal's mutex (poisoned or not) and the trace of
    the observer's counters.  Module [Journal] holds the journal itself, one
    definition per method.  The checksum of the header and the observer enter
    through the classes [Checksum64] and [DurableJournalObserver], which
    JournalOwners.v instantiates. *)

From stdpp Require Import gmap strings.
From S2P Require Import Prelude.

Local Open Scope Z_scope.

(** * The file system *)
Module Fs.

(** The last component of a path, [Path::file_name], valid UTF-8 or not *)
Inductive OsString := Utf8 (s : string) | NonUtf8 (s : string).

#[global] Instance OsString_eq_dec : EqDecision OsString.
Proof. solve_decision. Defined.

#[global] Instance OsString_countable : Countable OsString.
Proof.
  refine (inj_countable' (fun n => match n with Utf8 s => inl s | NonUtf8 s => inr s end)
    (fun n => match n with inl s => Utf8 s | inr s => NonUtf8 s end) _).
  by intros [].
Defined.

(** A path that ends in a file name; [parent] is empty for a bare name. *)
Record PathBuf := MkPathBuf { parent : string; file_name : OsString }.

#[global] Instance PathBuf_eq_dec : EqDecision PathBuf.
Proof. solve_decision. Defined.

#[global] Instance PathBuf_countable : Countable PathBuf.
Proof.
  refine (inj_countable' (fun p => (parent p, file_name p)) (fun q => MkPathBuf q.1 q.2) _).
  by intros [].
Defined.

(** [Path::with_file_name] *)
Definition with_file_name (p : PathBuf) (name : string) : PathBuf :=
  MkPathBuf (parent p) (Utf8 name).

Inductive ErrorKind := NotFound | Other.

(** What the observer counts, without the durations *)
Inductive event :=
| RecordAppend (succeeded : bool)
| RecordLockWait
| RecordFrameBytes (bytes : Z)
| RecordFileSync
| RecordDirectorySync
| RecordCompaction (succeeded : bool)
| RecordCompactionLockWait
| RecordCompactionBytes (bytes : Z)
| RecordCompactionFileSync
| RecordCompactionDirectorySync.

(** [script]: for each I/O call to come, whether it fails, and then after how
    many bytes a write fails.  Calls after the end of the script succeed. *)
Record world := World {
  files : gmap PathBuf (list byte);
  script : list (option nat);
  poisoned : bool;
  events : list event
}.

(** A computation with side effects *)
Definition io (E A : Type) : Type := world -> outcome E A * world.

#[global] Instance io_ret {E} : MRet (io E) := fun _ a w => (Ok a, w).

#[global] Instance io_bind {E} : MBind (io E) := fun _ _ f m w =>
  match m w with
  | (Ok a, w') => f a w'
  | (Err e, w') => (Err e, w')
  | (Panic, w') => (Panic, w')
  end.

Definition lift {E A} (m : outcome E A) : io E A := fun w => (m, w).

Definition raise {E A} (e : E) : io E A := lift (Err e).

(** [r.map_err(f)] *)
Definition io_map_err {E F A} (f : E -> F) (m : io E A) : io F A := fun w =>
  let '(r, w') := m w in (map_err f r, w').

(** [match m { Ok(a) => Ok(a), Err(e) => h(e) }] *)
Definition io_catch {E F A} (m : io E A) (h : E -> io F A) : io F A := fun w =>
  match m w with
  | (Ok a, w') => (Ok a, w')
  | (Err e, w') => h e w'
  | (Panic, w') => (Panic, w')
  end.

(** The value of [r] itself, for code that looks at a result before [?] *)
Definition attempt {E F A} (m : io E A) : io F (outcome E A) := fun w =>
  let '(r, w') := m w in
  match r with Panic => (Panic, w') | _ => (Ok r, w') end.

Definition record {E} (e : event) : io E () := fun w =>
  (Ok (), World (files w) (script w) (poisoned w) (events w ++ [e])).

(** One I/O call: either it fails, as the script says, or it runs [f]. *)
Definition syscall {A} (onfail : nat -> world -> world) (f : world -> outcome ErrorKind A * world) :
    io ErrorKind A := fun w =>
  match script w with
  | [] => f w
  | None :: s => f (World (files w) s (poisoned w) (events w))
  | Some n :: s => (Err Other, onfail n (World (files w) s (poisoned w) (events w)))
  end.

Definition set_files (w : world) (fs : gmap PathBuf (list byte)) : world :=
  World fs (script w) (poisoned w) (events w).

Definition no_effect (n : nat) (w : world) : world := w.

(** [fs::create_dir_all] *)
Definition create_dir_all (dir : string) : io ErrorKind () := syscall no_effect (fun w => (Ok (), w)).

(** [OpenOptions::new().create(true).read(true).append(true).open(p)] *)
Definition open_append (p : PathBuf) : io ErrorKind () := syscall no_effect (fun w =>
  match files w !! p with
  | Some _ => (Ok (), w)
  | None => (Ok (), set_files w (<[p:=[]]> (files w)))
  end).

(** [File::open(p)] and [OpenOptions::new().write(true).open(p)] *)
Definition open_existing (p : PathBuf) : io ErrorKind () := syscall no_effect (fun w =>
  match files w !! p with
  | Some _ => (Ok (), w)
  | None => (Err NotFound, w)
  end).

(** [File::create(p)] *)
Definition create (p : PathBuf) : io ErrorKind () := syscall no_effect (fun w =>
  (Ok (), set_files w (<[p:=[]]> (files w)))).

(** [metadata(p)?.len()] *)
Definition metadata_len (p : PathBuf) : io ErrorKind Z := syscall no_effect (fun w =>
  match files w !! p with
  | Some bytes => (Ok (Z.of_nat (length bytes)), w)
  | None => (Err NotFound, w)
  end).

(** [file.read_to_end(..)] on a file just opened *)
Definition read_to_end (p : PathBuf) : io ErrorKind (list byte) := syscall no_effect (fun w =>
  (Ok (default [] (files w !! p)), w)).

(** [fs::read(p)] *)
Definition read (p : PathBuf) : io ErrorKind (list byte) :=
  _ ← open_existing p;
  read_to_end p.

Definition append_bytes (p : PathBuf) (bytes : list byte) (w : world) : world :=
  set_files w (<[p:=default [] (files w !! p) ++ bytes]> (files w)).

(** [file.write_all(bytes)] at the end of the file.  A failing call has written
    a strict prefix; writing nothing makes no call. *)
Definition write_all (p : PathBuf) (bytes : list byte) : io ErrorKind () :=
  match bytes with
  | [] => mret ()
  | _ => syscall (fun n => append_bytes p (take (Nat.min n (length bytes - 1)) bytes))
           (fun w => (Ok (), append_bytes p bytes w))
  end.

(** [file.set_len(n)]: cut, or extend with zeros *)
Definition set_len (p : PathBuf) (n : Z) : io ErrorKind () := syscall no_effect (fun w =>
  (Ok (), set_files w (<[p:=resize (Z.to_nat n) Byte.x00 (default [] (files w !! p))]> (files w)))).

(** [file.sync_all()] *)
Definition sync_all (p : PathBuf) : io ErrorKind () := syscall no_effect (fun w => (Ok (), w)).

(** [File::open(dir).and_then(|directory| directory.sync_all())] *)
Definition sync_directory (dir : string) : io ErrorKind () :=
  _ ← syscall no_effect (fun w => (Ok (), w));
  syscall no_effect (fun w => (Ok (), w)).

(** [fs::rename(from, to)], which replaces [to] in one step *)
Definition rename (from to : PathBuf) : io ErrorKind () := syscall no_effect (fun w =>
  match files w !! from with
  | Some bytes => (Ok (), set_files w (<[to:=bytes]> (delete from (files w))))
  | None => (Err NotFound, w)
  end).

End Fs.

Export Fs.

(** * The interfaces of the journal *)

(** [checksum::crc64::checksum]: total, a 64-bit value, and changed by any change
    confined to eight adjacent bytes. *)
Class Checksum64 := {
  checksum64 : forall {E}, list byte -> outcome E Z;
  checksum64_value : list byte -> Z;
  checksum64_total {E} bytes : checksum64 (E:=E) bytes = Ok (checksum64_value bytes);
  checksum64_range bytes : 0 <= checksum64_value bytes < 2 ^ 64;
  checksum64_burst pre b1 b2 post :
    length b1 = length b2 -> (length b1 <= 8)%nat -> b1 <> b2 ->
    checksum64_value (pre ++ b1 ++ post) <> checksum64_value (pre ++ b2 ++ post)
}.

(** Texts of the protocol errors, one constructor per format string *)
Inductive message :=
| LockPoisoned
| FrameLengthExceedsU32 (len : Z)
| ZeroLengthFrame
| TruncatedFileHeader
| StatusLengthOverflows
| ReplayOffsetNoFile (replay_offset : Z)
| ReplayOffsetEmptyFile (replay_offset : Z)
| ReplayOffsetExceedsUsize
| BaseOffsetExceedsUsize
| ReplayOffsetBeforeBase (replay_offset base_offset : Z)
| ReplayOffsetOverflows
| ReplayOffsetExceedsLength (replay_offset len : Z)
| FrameLengthCheckMismatch
| CleanLengthBeforeBase (clean_len base_offset : Z)
| PhysicalLengthOverflows
| ReplacementOffsetBeforeBase (replay_offset base_offset : Z)
| CleanLengthOverflows
| ChangedDuringReplacement (expected_clean_len clean_len : Z)
| ReplacementOffsetExceedsCleanLength (replay_offset clean_len : Z)
| ReplacementFrameLengthExceedsU32 (len : Z)
| CompactionOffsetNoFile (replay_offset : Z)
| CompactionOffsetEmptyFile (replay_offset : Z)
| CompactionOffsetBeforeBase (replay_offset base_offset : Z)
| CompactionOffsetExceedsUsize
| CompactionOffsetOverflows
| CompactionOffsetExceedsLength (replay_offset len base_offset : Z)
| HeaderChecksumMismatch (expected actual : Z)
| InvalidFileHeaderMagic
| UnsupportedFileHeaderVersion (version : Z).

(** The two errors of [ControlPlaneError] the journal makes *)
Inductive ControlPlaneError :=
| Io (context : string) (kind : ErrorKind)
| CommandDecode (m : message).

(** Every I/O call of the script succeeds. *)
Definition faultless (w : world) : Prop := Forall (fun f => f = None) (script w).

(** The journal's observer: its two fallible hooks leave the files and the lock
    alone, do not panic, and succeed when no I/O call fails. *)
Class DurableJournalObserver := {
  before_file_sync : PathBuf -> io ControlPlaneError ();
  sync_parent : PathBuf -> io ControlPlaneError ();
  before_file_sync_quiet p w : let '(r, w') := before_file_sync p w in
    files w' = files w /\ poisoned w' = poisoned w /\ r <> Panic /\
    (faultless w -> r = Ok () /\ faultless w');
  sync_parent_quiet p w : let '(r, w') := sync_parent p w in
    files w' = files w /\ poisoned w' = poisoned w /\ r <> Panic /\
    (faultless w -> r = Ok () /\ faultless w')
}.

(** Whether the build checks integer overflow (debug) or wraps (release) *)
Class Profile := { overflow_checks : bool }.

Module Journal.

(** ** Data *)

Definition u32_MAX : Z := 2 ^ 32 - 1.
Definition u64_MAX : Z := 2 ^ 64 - 1.
Definition usize_MAX : Z := 2 ^ 64 - 1.

Definition FRAME_LENGTH_LEN : nat := 4.
Definition FRAME_PREFIX_LEN : nat := FRAME_LENGTH_LEN * 2.
Definition CHECKSUM_LEN : nat := 8.

Inductive DurableJournalFileHeaderFormatError :=
| Truncated
| ChecksumMismatch (expected actual : Z)
| UnknownMagic
| UnsupportedVersion (version : Z).

Record DurableJournalFormat := MkFormat {
  file_magic : list byte;
  file_version : Z;
  label : string
}.

Definition header_len (self : DurableJournalFormat) : nat :=
  length (file_magic self) + 2 + 8 + CHECKSUM_LEN.

Record DurableJournalIoContexts := MkContexts {
  create_directory : string;
  open_for_append : string;
  write_frame_length : string;
  write_frame : string;
  sync_file : string;
  stat_for_status : string;
  open_for_replay : string;
  read_for_replay : string;
  open_for_tail_truncation : string;
  truncate_torn_tail : string;
  sync_truncated_tail : string;
  read_for_compaction : string;
  create_compacted_temp : string;
  write_compacted_temp : string;
  sync_compacted_temp : string;
  commit_compacted : string;
  stat_before_append : string;
  write_file_header : string;
  open_file_header : string;
  read_file_header : string
}.

Inductive DurableJournalAppendError :=
| BeforeReplayableRecord (e : ControlPlaneError)
| AmbiguousRecordMayExist (e : ControlPlaneError)
| ReplayableRecordMayExist (e : ControlPlaneError).

Definition into_control_plane_error (self : DurableJournalAppendError) : ControlPlaneError :=
  match self with
  | BeforeReplayableRecord error
  | AmbiguousRecordMayExist error
  | ReplayableRecordMayExist error => error
  end.

Record DurableJournalOffsets := MkOffsets { base_offset : Z; offsets_clean_len : Z }.

Record DurableJournalFrames := MkFrames {
  frames : list (list byte);
  clean_len : Z;
  truncated_tail : bool
}.

(** The lock and the observer are in the world; [pid] is [std::process::id()]. *)
Record DurableJournalFile := MkFile {
  path : PathBuf;
  format : DurableJournalFormat;
  contexts : DurableJournalIoContexts;
  pid : string
}.

(** ** Integers *)

(** [n.to_be_bytes()] for an integer of [w] bytes, and [from_be_bytes] *)
Definition to_be_bytes (w : nat) (n : Z) : list byte := rev (le_split w n).
Definition from_be_bytes (bytes : list byte) : Z := le_combine (rev bytes).

(** [!n] on u32 *)
Definition not_u32 (n : Z) : Z := Z.lxor n u32_MAX.

(** [a + b] on usize *)
Definition usize_add `{Profile} {E} (a b : Z) : outcome E Z :=
  if a + b <=? usize_MAX then Ok (a + b)
  else if overflow_checks then Panic else Ok ((a + b) mod 2 ^ 64).

(** [a.checked_add(b)] on u64 and on usize *)
Definition checked_add (a b : Z) : option Z := if a + b <=? u64_MAX then Some (a + b) else None.

(** [u32::try_from(n)] and [usize::try_from(n)] *)
Definition u32_try_from (n : Z) : option Z := if n <=? u32_MAX then Some n else None.
Definition usize_try_from (n : Z) : option Z := if n <=? usize_MAX then Some n else None.

Definition usize_saturating_add (a b : Z) : Z := Z.min (a + b) usize_MAX.

Definition framed_len (frame_len : Z) : Z :=
  usize_saturating_add frame_len (Z.of_nat FRAME_PREFIX_LEN).

Definition protocol_error (m : message) : ControlPlaneError := CommandDecode m.

Definition file_header_format_error (error : DurableJournalFileHeaderFormatError) : ControlPlaneError :=
  protocol_error
    match error with
    | Truncated => TruncatedFileHeader
    | ChecksumMismatch expected actual => HeaderChecksumMismatch expected actual
    | UnknownMagic => InvalidFileHeaderMagic
    | UnsupportedVersion version => UnsupportedFileHeaderVersion version
    end.

Section journal.
Context `{Checksum64, DurableJournalObserver, Profile}.

(** ** The file header *)

Definition encode_file_header {E} (self : DurableJournalFile) (base_offset : Z) : outcome E (list byte) :=
  let out := file_magic (format self) ++ to_be_bytes 2 (file_version (format self))
             ++ to_be_bytes 8 base_offset in
  checksum ← checksum64 out;
  mret (out ++ to_be_bytes 8 checksum).

Definition decode_file_header_classified (self : DurableJournalFile) (bytes : list byte) :
    outcome DurableJournalFileHeaderFormatError (Z * nat) :=
  let header_len := header_len (format self) in
  if decide (bytes = []) then Ok (0, header_len) else
  _ ← guard_err (bool_decide (length bytes < header_len)%nat) Truncated;
  whole ← slice bytes 0 header_len;
  let header := take (header_len - CHECKSUM_LEN) whole in
  let checksum_bytes := drop (header_len - CHECKSUM_LEN) whole in
  let expected_checksum := from_be_bytes checksum_bytes in
  actual_checksum ← checksum64 header;
  _ ← guard_err (negb (actual_checksum =? expected_checksum))
        (ChecksumMismatch expected_checksum actual_checksum);
  magic ← slice header 0 (length (file_magic (format self)));
  _ ← guard_err (bool_decide (magic <> file_magic (format self))) UnknownMagic;
  let version_start := length (file_magic (format self)) in
  version_bytes ← slice header version_start (version_start + 2);
  let version := from_be_bytes version_bytes in
  _ ← guard_err (negb (version =? file_version (format self))) (UnsupportedVersion version);
  let offset_start := (version_start + 2)%nat in
  offset_bytes ← slice header offset_start (offset_start + 8);
  mret (from_be_bytes offset_bytes, header_len).

Definition decode_file_header (self : DurableJournalFile) (bytes : list byte) :
    outcome ControlPlaneError (Z * nat) :=
  map_err file_header_format_error (decode_file_header_classified self bytes).

Definition encode_file_bytes {E} (self : DurableJournalFile) (base_offset : Z) (frames : list byte) :
    outcome E (list byte) :=
  out ← encode_file_header self base_offset;
  mret (out ++ frames).

Definition tmp_path (self : DurableJournalFile) : PathBuf :=
  let file_name := match file_name (path self) with
                   | Utf8 name => name
                   | NonUtf8 _ => "durable-journal"%string
                   end in
  with_file_name (path self) (file_name +:+ ".tmp." +:+ pid self).

(** ** The lock *)

Definition lock : io ControlPlaneError () := fun w =>
  if poisoned w then (Err (protocol_error LockPoisoned), w) else (Ok (), w).

(** The rest of a method that holds the guard: a panic poisons the lock. *)
Definition guarded {E A} (m : io E A) : io E A := fun w =>
  match m w with
  | (Panic, w') => (Panic, World (files w') (script w') true (events w'))
  | r => r
  end.

(** ** Reading *)

Definition read_file_base_offset_unlocked (self : DurableJournalFile) : io ControlPlaneError Z :=
  _ ← io_map_err (Io (open_file_header (contexts self))) (open_existing (path self));
  bytes ← io_map_err (Io (read_file_header (contexts self))) (read_to_end (path self));
  '(base_offset, _) ← lift (decode_file_header self (take (header_len (format self)) bytes));
  mret base_offset.

Definition status_offsets_unlocked (self : DurableJournalFile) :
    io ControlPlaneError DurableJournalOffsets :=
  file_len ← io_catch (o ← metadata_len (path self); mret (Some o)) (fun source =>
    match source with
    | NotFound => mret None
    | Other => raise (Io (stat_for_status (contexts self)) source)
    end);
  match file_len with
  | None | Some 0 => mret (MkOffsets 0 0)
  | Some file_len =>
      base_offset ← read_file_base_offset_unlocked self;
      let header_len := Z.of_nat (header_len (format self)) in
      _ ← lift (guard_err (file_len <? header_len) (protocol_error TruncatedFileHeader));
      clean_len ← lift (ok_or (checked_add base_offset (file_len - header_len))
                          (protocol_error StatusLengthOverflows));
      mret (MkOffsets base_offset clean_len)
  end.

Definition status_offsets (self : DurableJournalFile) : io ControlPlaneError DurableJournalOffsets :=
  _ ← lock;
  guarded (status_offsets_unlocked self).

(** The loop of the replay; it ends before [fuel] does when [fuel] exceeds the
    number of bytes that remain. *)
Fixpoint replay_loop (fuel : nat) (bytes : list byte) (base_offset : Z) (header_len : nat)
    (acc : list (list byte)) (offset : nat) (clean_len : Z) :
    outcome ControlPlaneError DurableJournalFrames :=
  match fuel with
  | O => Panic
  | S fuel =>
      if negb (bool_decide (offset < length bytes)%nat) then mret (MkFrames acc clean_len false) else
      let frame_start := offset in
      logical_frame_start ← usize_add base_offset (Z.of_nat (frame_start - header_len));
      if bool_decide (length bytes - offset < FRAME_PREFIX_LEN)%nat
      then mret (MkFrames acc clean_len true) else
      len_bytes ← slice bytes offset (offset + FRAME_LENGTH_LEN);
      let frame_len := from_be_bytes len_bytes in
      check_bytes ← slice bytes (offset + FRAME_LENGTH_LEN) (offset + FRAME_PREFIX_LEN);
      let frame_len_check := from_be_bytes check_bytes in
      _ ← guard_err (negb (frame_len_check =? not_u32 frame_len))
            (protocol_error FrameLengthCheckMismatch);
      let offset := (offset + FRAME_PREFIX_LEN)%nat in
      _ ← guard_err (frame_len =? 0) (protocol_error ZeroLengthFrame);
      let remaining := (length bytes - offset)%nat in
      if Z.of_nat remaining <? frame_len
      then mret (MkFrames acc logical_frame_start true) else
      let frame_end := (offset + Z.to_nat frame_len)%nat in
      frame ← slice bytes offset frame_end;
      clean_len ← usize_add base_offset (Z.of_nat (frame_end - header_len));
      replay_loop fuel bytes base_offset header_len (acc ++ [frame]) frame_end clean_len
  end.

(** What [read_frames_from_unlocked] does with the bytes of the file *)
Definition replay_bytes (self : DurableJournalFile) (bytes : list byte) (replay_offset : Z) :
    outcome ControlPlaneError DurableJournalFrames :=
  if decide (bytes = []) then
    if negb (replay_offset =? 0) then Err (protocol_error (ReplayOffsetEmptyFile replay_offset))
    else mret (MkFrames [] 0 false)
  else
  '(base_offset, header_len) ← decode_file_header self bytes;
  replay_offset ← ok_or (usize_try_from replay_offset) (protocol_error ReplayOffsetExceedsUsize);
  base_offset ← ok_or (usize_try_from base_offset) (protocol_error BaseOffsetExceedsUsize);
  _ ← guard_err (replay_offset <? base_offset)
        (protocol_error (ReplayOffsetBeforeBase replay_offset base_offset));
  replay_offset ← ok_or (checked_add (Z.of_nat header_len) (replay_offset - base_offset))
        (protocol_error ReplayOffsetOverflows);
  _ ← guard_err (Z.of_nat (length bytes) <? replay_offset)
        (protocol_error (ReplayOffsetExceedsLength replay_offset (Z.of_nat (length bytes))));
  let offset := Z.to_nat replay_offset in
  clean_len ← usize_add base_offset (Z.of_nat (offset - header_len));
  replay_loop (S (length bytes - offset)) bytes base_offset header_len [] offset clean_len.

Definition read_frames_from_unlocked (self : DurableJournalFile) (replay_offset : Z) :
    io ControlPlaneError DurableJournalFrames :=
  opened ← io_catch (_ ← open_existing (path self); mret true) (fun source =>
    match source with
    | NotFound => mret false
    | Other => raise (Io (open_for_replay (contexts self)) source)
    end);
  if negb opened then
    if negb (replay_offset =? 0) then raise (protocol_error (ReplayOffsetNoFile replay_offset))
    else mret (MkFrames [] 0 false)
  else
  bytes ← io_map_err (Io (read_for_replay (contexts self))) (read_to_end (path self));
  lift (replay_bytes self bytes replay_offset).

Definition read_frames_from (self : DurableJournalFile) (replay_offset : Z) :
    io ControlPlaneError DurableJournalFrames :=
  _ ← lock;
  guarded (read_frames_from_unlocked self replay_offset).

(** ** Appending *)

Definition write_replayable_bytes (self : DurableJournalFile) (bytes : list byte) (context : string) :
    io DurableJournalAppendError () :=
  io_map_err (fun source => AmbiguousRecordMayExist (Io context source)) (write_all (path self) bytes).

Definition ensure_file_header (self : DurableJournalFile) : io DurableJournalAppendError () :=
  len ← io_map_err (fun source => BeforeReplayableRecord (Io (stat_before_append (contexts self)) source))
          (metadata_len (path self));
  if negb (len =? 0) then
    _ ← io_map_err BeforeReplayableRecord (read_file_base_offset_unlocked self);
    mret ()
  else
    header ← lift (encode_file_header self 0);
    write_replayable_bytes self header (write_file_header (contexts self)).

(** [frame_prefix]: the length and its complement *)
Definition frame_prefix (frame_len : Z) : list byte :=
  to_be_bytes FRAME_LENGTH_LEN frame_len ++ to_be_bytes FRAME_LENGTH_LEN (not_u32 frame_len).

(** The syncs at the end of [append_frame_inner] *)
Definition append_syncs (self : DurableJournalFile) (frame_bytes : Z) : io DurableJournalAppendError () :=
  file_sync_result ← attempt (_ ← before_file_sync (path self);
                              io_map_err (Io (sync_file (contexts self))) (sync_all (path self)));
  _ ← record RecordFileSync;
  _ ← lift (map_err AmbiguousRecordMayExist file_sync_result);
  _ ← record (RecordFrameBytes frame_bytes);
  directory_sync_result ← attempt (sync_parent (path self));
  _ ← record RecordDirectorySync;
  _ ← lift (map_err ReplayableRecordMayExist directory_sync_result);
  mret ().

(** [append_frame_inner] from the opening of the file on *)
Definition append_open_file (self : DurableJournalFile) (frame_len : Z) (frame : list byte) :
    io DurableJournalAppendError () :=
  let frame_bytes := usize_saturating_add (Z.of_nat (length frame)) (Z.of_nat FRAME_PREFIX_LEN) in
  _ ← io_map_err (fun source => BeforeReplayableRecord (Io (open_for_append (contexts self)) source))
        (open_append (path self));
  _ ← ensure_file_header self;
  _ ← write_replayable_bytes self (frame_prefix frame_len) (write_frame_length (contexts self));
  _ ← write_replayable_bytes self frame (write_frame (contexts self));
  append_syncs self frame_bytes.

(** The part of [append_frame_inner] that holds the lock *)
Definition append_frame_locked (self : DurableJournalFile) (frame : list byte) :
    io DurableJournalAppendError () :=
  frame_len ← lift (ok_or (u32_try_from (Z.of_nat (length frame)))
    (BeforeReplayableRecord (protocol_error (FrameLengthExceedsU32 (Z.of_nat (length frame))))));
  _ ← lift (guard_err (frame_len =? 0) (BeforeReplayableRecord (protocol_error ZeroLengthFrame)));
  _ ← (if decide (parent (path self) = ""%string) then mret () else
       io_map_err (fun source => BeforeReplayableRecord (Io (create_directory (contexts self)) source))
         (create_dir_all (parent (path self))));
  append_open_file self frame_len frame.

Definition append_frame_inner (self : DurableJournalFile) (frame : list byte) :
    io DurableJournalAppendError () :=
  guard ← attempt (io_map_err BeforeReplayableRecord lock);
  _ ← record RecordLockWait;
  _ ← lift guard;
  guarded (append_frame_locked self frame).

Definition append_frame (self : DurableJournalFile) (frame : list byte) :
    io DurableJournalAppendError () :=
  result ← attempt (append_frame_inner self frame);
  _ ← record (RecordAppend (is_ok result));
  lift result.

(** ** Truncation *)

Definition truncate_locked (self : DurableJournalFile) (clean_len : Z) : io ControlPlaneError () :=
  base_offset ← read_file_base_offset_unlocked self;
  _ ← lift (guard_err (clean_len <? base_offset)
              (protocol_error (CleanLengthBeforeBase clean_len base_offset)));
  _ ← io_map_err (Io (open_for_tail_truncation (contexts self))) (open_existing (path self));
  physical_len ← lift (ok_or (checked_add (Z.of_nat (header_len (format self))) (clean_len - base_offset))
                         (protocol_error PhysicalLengthOverflows));
  _ ← io_map_err (Io (truncate_torn_tail (contexts self))) (set_len (path self) physical_len);
  _ ← io_map_err (Io (sync_truncated_tail (contexts self))) (sync_all (path self));
  sync_parent (path self).

Definition truncate_to_clean_len (self : DurableJournalFile) (clean_len : Z) : io ControlPlaneError () :=
  _ ← lock;
  guarded (truncate_locked self clean_len).

(** ** Replacing the file *)

(** The common end of compaction and replacement: write the new contents to the
    temporary file, sync it, rename it over the journal, sync the directory. *)
Definition commit_file (self : DurableJournalFile) (compacted : list byte) : io ControlPlaneError () :=
  let tmp_path := tmp_path self in
  _ ← io_map_err (Io (create_compacted_temp (contexts self))) (create tmp_path);
  _ ← io_map_err (Io (write_compacted_temp (contexts self))) (write_all tmp_path compacted);
  _ ← record (RecordCompactionBytes (Z.of_nat (length compacted)));
  file_sync_result ← attempt (io_map_err (Io (sync_compacted_temp (contexts self))) (sync_all tmp_path));
  _ ← record RecordCompactionFileSync;
  _ ← lift file_sync_result;
  _ ← io_map_err (Io (commit_compacted (contexts self))) (rename tmp_path (path self));
  directory_sync_result ← attempt (sync_parent (path self));
  _ ← record RecordCompactionDirectorySync;
  lift directory_sync_result.

Definition compact_through_locked (self : DurableJournalFile) (replay_offset : Z) : io ControlPlaneError () :=
  bytes ← io_catch (bytes ← read (path self); mret (Some bytes)) (fun source =>
    match source with
    | NotFound => mret None
    | Other => raise (Io (read_for_compaction (contexts self)) source)
    end);
  match bytes with
  | None => if replay_offset =? 0 then mret ()
            else raise (protocol_error (CompactionOffsetNoFile replay_offset))
  | Some [] => if replay_offset =? 0 then mret ()
               else raise (protocol_error (CompactionOffsetEmptyFile replay_offset))
  | Some bytes =>
      '(base_offset, header_len) ← lift (decode_file_header self bytes);
      _ ← lift (guard_err (replay_offset <? base_offset)
                  (protocol_error (CompactionOffsetBeforeBase replay_offset base_offset)));
      relative_offset ← lift (ok_or (usize_try_from (replay_offset - base_offset))
                                (protocol_error CompactionOffsetExceedsUsize));
      suffix_start ← lift (ok_or (checked_add (Z.of_nat header_len) relative_offset)
                             (protocol_error CompactionOffsetOverflows));
      _ ← lift (guard_err (Z.of_nat (length bytes) <? suffix_start)
                  (protocol_error (CompactionOffsetExceedsLength replay_offset
                     (Z.of_nat (length bytes) - Z.of_nat header_len) base_offset)));
      if replay_offset =? base_offset then mret () else
      let suffix := drop (Z.to_nat suffix_start) bytes in
      compacted ← lift (encode_file_bytes self replay_offset suffix);
      commit_file self compacted
  end.

Definition compact_through_inner (self : DurableJournalFile) (replay_offset : Z) : io ControlPlaneError () :=
  guard ← attempt lock;
  _ ← record RecordCompactionLockWait;
  _ ← lift guard;
  guarded (compact_through_locked self replay_offset).

Definition compact_through (self : DurableJournalFile) (replay_offset : Z) : io ControlPlaneError () :=
  result ← attempt (compact_through_inner self replay_offset);
  _ ← record (RecordCompaction (is_ok result));
  lift result.

(** [replacement]: the frames of the new file *)
Definition encode_replacement (frames : list (list byte)) : outcome ControlPlaneError (list byte) :=
  foldM (fun replacement frame =>
    frame_len ← ok_or (u32_try_from (Z.of_nat (length frame)))
      (protocol_error (ReplacementFrameLengthExceedsU32 (Z.of_nat (length frame))));
    _ ← guard_err (frame_len =? 0) (protocol_error ZeroLengthFrame);
    mret (replacement ++ to_be_bytes 4 frame_len ++ to_be_bytes 4 (not_u32 frame_len) ++ frame))
    [] frames.

Definition replace_from_locked (self : DurableJournalFile) (replay_offset expected_clean_len : Z)
    (frames : list (list byte)) : io ControlPlaneError () :=
  bytes ← io_map_err (Io (read_for_compaction (contexts self))) (read (path self));
  '(base_offset, header_len) ← lift (decode_file_header self bytes);
  _ ← lift (guard_err (replay_offset <? base_offset)
              (protocol_error (ReplacementOffsetBeforeBase replay_offset base_offset)));
  physical_payload_len ← lift (ok_or (if bool_decide (header_len <= length bytes)%nat
                                      then Some (length bytes - header_len)%nat else None)
                                 (protocol_error TruncatedFileHeader));
  clean_len ← lift (ok_or (checked_add base_offset (Z.of_nat physical_payload_len))
                      (protocol_error CleanLengthOverflows));
  _ ← lift (guard_err (negb (clean_len =? expected_clean_len))
              (protocol_error (ChangedDuringReplacement expected_clean_len clean_len)));
  _ ← lift (guard_err (clean_len <? replay_offset)
              (protocol_error (ReplacementOffsetExceedsCleanLength replay_offset clean_len)));
  replacement ← lift (encode_replacement frames);
  compacted ← lift (encode_file_bytes self replay_offset replacement);
  commit_file self compacted.

Definition replace_from_inner (self : DurableJournalFile) (replay_offset expected_clean_len : Z)
    (frames : list (list byte)) : io ControlPlaneError () :=
  guard ← attempt lock;
  _ ← record RecordCompactionLockWait;
  _ ← lift guard;
  guarded (replace_from_locked self replay_offset expected_clean_len frames).

Definition replace_from (self : DurableJournalFile) (replay_offset expected_clean_len : Z)
    (frames : list (list byte)) : io ControlPlaneError () :=
  result ← attempt (replace_from_inner self replay_offset expected_clean_len frames);
  _ ← record (RecordCompaction (is_ok result));
  lift result.
End journal.
End Journal.
