(* ===== verification/JournalOwners.v ===== *)
(** The two journals of the control plane: the command journal of the
    single-authority store (crates/storage/src/control_plane/single_authority.rs)
    and the write-ahead log of the Raft store
    (crates/storage/src/control_plane_raft.rs), with their formats, their I/O
    contexts and their observers, and the CRC-64 of the checksum crate as the
    checksum of the header. *)

From stdpp Require Import gmap strings.
From S2P Require Import Prelude Crc Clmul Crc64 Crc64Api Journal.

Local Open Scope Z_scope.

(** The CRC-64 of the checksum crate, whatever the processor and the address of
    the buffer *)
#[global, program] Instance crc64_checksum (arch : Clmul.target_arch) (cpu : Clmul.cpu_features) (addr : Z) :
  Checksum64 := {
  checksum64 E := Crc64Api.checksum arch cpu addr;
  checksum64_value := Crc64.crc64_reference 0
}.
Next Obligation. intros. apply Crc64Api.extend_spec, Crc64Api.word_0. Qed.
Next Obligation. intros. apply (Crc64.word_reference 0), Crc64Api.word_0. Qed.
Next Obligation.
  intros arch cpu addr pre b1 b2 post Hl H8 Hne H. apply Hne. revert H.
  apply (Crc.crc_extend_burst 64 Crc64.POLY);
    [lia|apply Crc64.word_POLY|reflexivity|apply Crc64Api.word_0|exact Hl|lia].
Qed.

(** Opening and syncing a directory only makes I/O calls. *)
Lemma sync_directory_quiet (f : ErrorKind -> ControlPlaneError) dir w :
  let '(r, w') := io_map_err f (sync_directory dir) w in
  files w' = files w /\ poisoned w' = poisoned w /\ r <> Panic /\
  (faultless w -> r = Ok () /\ faultless w').
Proof.
  unfold io_map_err, sync_directory, mbind, io_bind, syscall, faultless.
  destruct (script w) as [|[n|] [|[m|] s]] eqn:Hs; simpl; rewrite ?Hs; simpl;
    rewrite ?Hs, ?list.Forall_cons; naive_solver.
Qed.

(** The directory of a path, the current one for a bare name *)
Definition state_parent (p : PathBuf) : string :=
  if decide (parent p = ""%string) then "."%string else parent p.

(** * The single-authority store *)
Module SingleAuthority.

Definition SINGLE_AUTHORITY_JOURNAL_FILE_MAGIC : list byte := String.list_byte_of_string "ARGCPSJL".
Definition SINGLE_AUTHORITY_JOURNAL_FILE_VERSION : Z := 2.

(** [path] with [.journal] appended *)
Definition single_authority_journal_path (p : PathBuf) : PathBuf :=
  MkPathBuf (parent p)
    match file_name p with
    | Utf8 name => Utf8 (name +:+ ".journal")
    | NonUtf8 name => NonUtf8 (name +:+ ".journal")
    end.

(** The journal [with_checkpoint_policy] makes *)
Definition journal (p : PathBuf) (pid : string) : Journal.DurableJournalFile :=
  Journal.MkFile (single_authority_journal_path p)
    (Journal.MkFormat SINGLE_AUTHORITY_JOURNAL_FILE_MAGIC SINGLE_AUTHORITY_JOURNAL_FILE_VERSION
       "single-authority control-plane journal")
    {|
      Journal.create_directory := "create single-authority control-plane journal directory";
      Journal.open_for_append := "open single-authority control-plane journal for append";
      Journal.write_frame_length := "write single-authority control-plane journal frame length";
      Journal.write_frame := "write single-authority control-plane journal frame";
      Journal.sync_file := "sync single-authority control-plane journal";
      Journal.stat_for_status := "stat single-authority control-plane journal";
      Journal.open_for_replay := "open single-authority control-plane journal for replay";
      Journal.read_for_replay := "read single-authority control-plane journal";
      Journal.open_for_tail_truncation :=
        "open single-authority control-plane journal for tail truncation";
      Journal.truncate_torn_tail := "truncate torn single-authority control-plane journal tail";
      Journal.sync_truncated_tail := "sync truncated single-authority control-plane journal tail";
      Journal.read_for_compaction := "read single-authority control-plane journal for compaction";
      Journal.create_compacted_temp := "create compacted single-authority control-plane journal";
      Journal.write_compacted_temp := "write compacted single-authority control-plane journal";
      Journal.sync_compacted_temp := "sync compacted single-authority control-plane journal";
      Journal.commit_compacted := "commit compacted single-authority control-plane journal";
      Journal.stat_before_append := "stat single-authority control-plane journal before append";
      Journal.write_file_header := "write single-authority control-plane journal header";
      Journal.open_file_header := "open single-authority control-plane journal header";
      Journal.read_file_header := "read single-authority control-plane journal header"
    |}%string
    pid.

(** [before_file_sync] does nothing outside of tests. *)
Definition before_file_sync (p : PathBuf) : io ControlPlaneError () := mret ().

Definition sync_parent (p : PathBuf) : io ControlPlaneError () :=
  io_map_err (Io "sync single-authority control-plane journal directory")
    (sync_directory (state_parent p)).

#[program] Definition SingleAuthorityJournalObserver : DurableJournalObserver := {|
  Journal.before_file_sync := before_file_sync;
  Journal.sync_parent := sync_parent
|}.
Next Obligation. intros p w. done. Qed.
Next Obligation. intros p w. apply sync_directory_quiet. Qed.

End SingleAuthority.

(** * The Raft write-ahead log *)
Module RaftWal.

Definition CONTROL_PLANE_RAFT_WAL_FILE_MAGIC : list byte :=
  String.list_byte_of_string "ARGMINCPRAFTWALFILE".
Definition CONTROL_PLANE_RAFT_WAL_FILE_VERSION : Z := 2.

Definition CONTROL_PLANE_RAFT_WAL_JOURNAL_FORMAT : Journal.DurableJournalFormat :=
  Journal.MkFormat CONTROL_PLANE_RAFT_WAL_FILE_MAGIC CONTROL_PLANE_RAFT_WAL_FILE_VERSION
    "control-plane OpenRaft WAL".

Definition CONTROL_PLANE_RAFT_WAL_IO_CONTEXTS : Journal.DurableJournalIoContexts := {|
  Journal.create_directory := "create control-plane OpenRaft WAL directory";
  Journal.open_for_append := "open control-plane OpenRaft WAL for append";
  Journal.write_frame_length := "write control-plane OpenRaft WAL frame length";
  Journal.write_frame := "write control-plane OpenRaft WAL frame";
  Journal.sync_file := "sync control-plane OpenRaft WAL";
  Journal.stat_for_status := "stat control-plane OpenRaft WAL for status";
  Journal.open_for_replay := "open control-plane OpenRaft WAL for replay";
  Journal.read_for_replay := "read control-plane OpenRaft WAL";
  Journal.open_for_tail_truncation := "open control-plane OpenRaft WAL for tail truncation";
  Journal.truncate_torn_tail := "truncate torn control-plane OpenRaft WAL tail";
  Journal.sync_truncated_tail := "sync truncated control-plane OpenRaft WAL";
  Journal.read_for_compaction := "read control-plane OpenRaft WAL for compaction";
  Journal.create_compacted_temp := "create compacted control-plane OpenRaft WAL temp file";
  Journal.write_compacted_temp := "write compacted control-plane OpenRaft WAL temp file";
  Journal.sync_compacted_temp := "sync compacted control-plane OpenRaft WAL temp file";
  Journal.commit_compacted := "commit compacted control-plane OpenRaft WAL";
  Journal.stat_before_append := "stat control-plane OpenRaft WAL before append";
  Journal.write_file_header := "write control-plane OpenRaft WAL file header";
  Journal.open_file_header := "open control-plane OpenRaft WAL header";
  Journal.read_file_header := "read control-plane OpenRaft WAL header"
|}%string.

(** Does nothing outside of
    tests. *)
Definition inject_control_plane_raft_wal_file_sync_failure (p : PathBuf) : io ControlPlaneError () := mret ().

Definition sync_control_plane_raft_wal_parent (p : PathBuf) : io ControlPlaneError () :=
  io_map_err (Io "sync control-plane OpenRaft WAL directory") (sync_directory (state_parent p)).

#[program] Definition ControlPlaneRaftWalObserver : DurableJournalObserver := {|
  Journal.before_file_sync := inject_control_plane_raft_wal_file_sync_failure;
  Journal.sync_parent := sync_control_plane_raft_wal_parent
|}.
Next Obligation. intros p w. done. Qed.
Next Obligation. intros p w. apply sync_directory_quiet. Qed.

End RaftWal.
