(* ===== verification/JournalSpec.v ===== *)
(** The durable journal file: what its bytes mean.

    The header accepts exactly the encodings of a base offset, frames are
    self-delimiting, and the replay loop splits every byte string into frames
    and a tail that is empty, torn or corrupt. *)

From stdpp Require Import gmap strings.
From S2P Require Import Prelude Crc Journal.

Local Open Scope Z_scope.

Module JournalSpec.
Import Journal.

(** * Big-endian integers *)

Lemma length_to_be_bytes w n : length (to_be_bytes w n) = w.
Proof. unfold to_be_bytes. by rewrite length_rev, length_le_split. Qed.

Lemma from_to_be_bytes w n : 0 <= n < 2 ^ (8 * Z.of_nat w) -> from_be_bytes (to_be_bytes w n) = n.
Proof.
  intros Hn. unfold from_be_bytes, to_be_bytes. rewrite rev_involutive, le_combine_split.
  apply Z.mod_small. by rewrite (Z.mul_comm _ 8).
Qed.

Lemma to_from_be_bytes bytes : to_be_bytes (length bytes) (from_be_bytes bytes) = bytes.
Proof.
  unfold from_be_bytes, to_be_bytes. rewrite <-(length_rev bytes), split_le_combine. apply rev_involutive.
Qed.

Lemma to_be_bytes_eq w bytes : length bytes = w -> to_be_bytes w (from_be_bytes bytes) = bytes.
Proof. intros <-. apply to_from_be_bytes. Qed.

Lemma from_be_bytes_range w bytes : length bytes = w -> 0 <= from_be_bytes bytes < 2 ^ (8 * Z.of_nat w).
Proof.
  intros <-. unfold from_be_bytes. rewrite <-(length_rev bytes). apply le_combine_bound.
Qed.

Lemma slice_mid {E A} (a b c : list A) (n m : nat) :
  n = length a -> m = (length a + length b)%nat -> slice (E:=E) (a ++ b ++ c) n m = Ok b.
Proof.
  intros -> ->. rewrite slice_Ok by (rewrite ?length_app; lia). f_equal.
  rewrite drop_app_length. apply take_app_length'. lia.
Qed.

Lemma slice_prefix {E A} (a b : list A) n : n = length a -> slice (E:=E) (a ++ b) 0 n = Ok a.
Proof. intros ->. by apply (slice_mid [] a b). Qed.

(** A list cut at the given lengths *)
Lemma cut_app {A} (l : list A) n : (n <= length l)%nat -> exists a b, l = a ++ b /\ length a = n.
Proof. intros Hn. exists (take n l), (drop n l). rewrite take_drop, length_take. split; [done|lia]. Qed.

Section spec.
Context `{Checksum64, DurableJournalObserver, Profile}.
Context (self : DurableJournalFile).

(** * The header *)

Definition header_body (base : Z) : list byte :=
  file_magic (format self) ++ to_be_bytes 2 (file_version (format self)) ++ to_be_bytes 8 base.

Definition header (base : Z) : list byte :=
  header_body base ++ to_be_bytes 8 (checksum64_value (header_body base)).

Definition valid_version : Prop := 0 <= file_version (format self) < 2 ^ 16.

Definition u64 (n : Z) : Prop := 0 <= n <= u64_MAX.

Lemma length_header_body base : length (header_body base) = (header_len (format self) - 8)%nat.
Proof.
  unfold header_body, header_len, CHECKSUM_LEN. rewrite !length_app, !length_to_be_bytes. lia.
Qed.

Lemma length_header base : length (header base) = header_len (format self).
Proof.
  unfold header. rewrite length_app, length_header_body, length_to_be_bytes.
  unfold header_len, CHECKSUM_LEN. lia.
Qed.

Lemma encode_file_header_Ok {E} base : encode_file_header (E:=E) self base = Ok (header base).
Proof. unfold encode_file_header. by rewrite checksum64_total. Qed.

Lemma encode_file_bytes_Ok {E} base bytes :
  encode_file_bytes (E:=E) self base bytes = Ok (header base ++ bytes).
Proof. unfold encode_file_bytes. by rewrite encode_file_header_Ok. Qed.

(** Decoding a header whose fields have the right lengths, whatever they hold *)
Lemma decode_fields magic version offset checksum rest :
  length magic = length (file_magic (format self)) -> length version = 2%nat ->
  length offset = 8%nat -> length checksum = 8%nat ->
  decode_file_header_classified self ((magic ++ version ++ offset) ++ checksum ++ rest) =
  (let actual := checksum64_value (magic ++ version ++ offset) in
   if negb (actual =? from_be_bytes checksum)
   then Err (ChecksumMismatch (from_be_bytes checksum) actual)
   else if bool_decide (magic <> file_magic (format self)) then Err UnknownMagic
   else if negb (from_be_bytes version =? file_version (format self))
   then Err (UnsupportedVersion (from_be_bytes version))
   else Ok (from_be_bytes offset, header_len (format self))).
Proof.
  intros Hm Hv Ho Hc. unfold decode_file_header_classified.
  assert (header_len (format self) = length (magic ++ version ++ offset) + 8)%nat as Hl.
  { rewrite !length_app, Hm, Hv, Ho. unfold header_len, CHECKSUM_LEN. lia. }
  rewrite decide_False by (intros Hn; apply (f_equal length) in Hn; revert Hn; rewrite !length_app; simpl; lia).
  rewrite guard_err_false by (apply bool_decide_eq_false; rewrite Hl, !length_app, Hc; lia).
  rewrite (app_assoc (magic ++ version ++ offset)), slice_Ok by (rewrite ?Hl, ?length_app, ?Hc; lia). bind_step.
  rewrite drop_0, Nat.sub_0_r, take_app_length' by (rewrite Hl, !length_app, Hc; lia).
  unfold CHECKSUM_LEN. rewrite take_app_length', drop_app_length' by lia.
  rewrite checksum64_total. bind_step. cbv zeta.
  destruct (negb _); [done|]. cbn [guard_err]. bind_step.
  rewrite (slice_prefix magic) by lia. bind_step.
  destruct (bool_decide _); [done|]. cbn [guard_err]. bind_step.
  rewrite (slice_mid magic version offset (length (file_magic (format self)))) by lia. bind_step.
  destruct (negb _); [done|]. cbn [guard_err]. bind_step.
  rewrite (app_assoc magic), <-(app_nil_r offset), (slice_mid (magic ++ version) offset [])
    by (rewrite ?length_app; lia).
  by rewrite app_nil_r.
Qed.

(** Every byte string long enough is cut that way. *)
Lemma header_fields (bytes : list byte) :
  (header_len (format self) <= length bytes)%nat ->
  exists magic version offset checksum rest,
    bytes = (magic ++ version ++ offset) ++ checksum ++ rest /\
    length magic = length (file_magic (format self)) /\ length version = 2%nat /\
    length offset = 8%nat /\ length checksum = 8%nat.
Proof.
  unfold header_len, CHECKSUM_LEN. intros Hl.
  destruct (cut_app bytes (length (file_magic (format self)))) as (m & r1 & -> & Hm); [lia|].
  rewrite length_app in Hl. destruct (cut_app r1 2) as (v & r2 & -> & Hv); [lia|].
  rewrite length_app in Hl. destruct (cut_app r2 8) as (o & r3 & -> & Ho); [lia|].
  rewrite length_app in Hl. destruct (cut_app r3 8) as (c & r4 & -> & Hc); [lia|].
  exists m, v, o, c, r4. by rewrite <-!app_assoc.
Qed.

Lemma decode_header base rest :
  valid_version -> u64 base ->
  decode_file_header_classified self (header base ++ rest) = Ok (base, header_len (format self)).
Proof.
  intros Hv Hb. unfold header, header_body. rewrite <-(app_assoc _ (to_be_bytes 8 _) rest).
  rewrite decode_fields by (rewrite ?length_to_be_bytes; done). cbv zeta.
  pose proof (checksum64_range (header_body base)) as Hc.
  rewrite (from_to_be_bytes 8 (checksum64_value _)) by exact Hc. rewrite Z.eqb_refl. cbn [negb].
  rewrite bool_decide_eq_false_2 by auto.
  rewrite from_to_be_bytes by exact Hv. rewrite Z.eqb_refl. cbn [negb].
  rewrite from_to_be_bytes; [done|]. unfold u64, u64_MAX in Hb. lia.
Qed.

Lemma decode_inv bytes base hl :
  decode_file_header_classified self bytes = Ok (base, hl) ->
  hl = header_len (format self) /\
  ((bytes = [] /\ base = 0) \/ (u64 base /\ exists rest, bytes = header base ++ rest)).
Proof.
  intros Hd. destruct (decide (bytes = [])) as [->|Hne].
  { unfold decode_file_header_classified in Hd. simpl in Hd. naive_solver. }
  destruct (decide (length bytes < header_len (format self))%nat) as [Hs|Hl].
  { unfold decode_file_header_classified in Hd. rewrite decide_False in Hd by done.
    by rewrite bool_decide_eq_true_2 in Hd by done. }
  destruct (header_fields bytes) as (m & v & o & c & rest & -> & Hm & Hv & Ho & Hc); [lia|].
  rewrite decode_fields in Hd by done. cbv zeta in Hd.
  destruct (_ =? from_be_bytes c) eqn:Hck; [|done]. cbn [negb] in Hd.
  case_bool_decide as Hmag; [done|]. destruct (_ =? file_version _) eqn:Hver; [|done]. cbn [negb] in Hd.
  apply Z.eqb_eq in Hck, Hver. injection Hd as <- <-. subst m.
  split; [done|right]. split.
  { pose proof (from_be_bytes_range 8 o Ho). unfold u64, u64_MAX. lia. }
  exists rest. unfold header, header_body. rewrite <-Hver.
  rewrite (to_be_bytes_eq 2 v), (to_be_bytes_eq 8 o), Hck, (to_be_bytes_eq 8 c) by done.
  by rewrite <-!app_assoc.
Qed.

(** * Frames *)

Definition valid_frame (frame : list byte) : Prop := 0 < Z.of_nat (length frame) <= u32_MAX.

(** A frame as it is in the file *)
Definition frame_record (frame : list byte) : list byte :=
  frame_prefix (Z.of_nat (length frame)) ++ frame.

Definition frames_bytes (fs : list (list byte)) : list byte := fs ≫= frame_record.

(** A tail that a partial write leaves *)
Definition torn (rest : list byte) : Prop :=
  (length rest < 8)%nat \/
  exists len, 0 < len <= u32_MAX /\ take 8 rest = frame_prefix len /\ Z.of_nat (length rest) < 8 + len.

(** A tail that no writer leaves, and the error it gives *)
Definition corrupt (rest : list byte) (e : ControlPlaneError) : Prop :=
  exists len check, (8 <= length rest)%nat /\
    len = from_be_bytes (take 4 rest) /\ check = from_be_bytes (take 4 (drop 4 rest)) /\
    ((check <> not_u32 len /\ e = protocol_error FrameLengthCheckMismatch) \/
     (check = not_u32 len /\ len = 0 /\ e = protocol_error ZeroLengthFrame)).

Lemma length_frame_prefix len : length (frame_prefix len) = 8%nat.
Proof. unfold frame_prefix. by rewrite length_app, !length_to_be_bytes. Qed.

Lemma length_frame_record frame : length (frame_record frame) = (8 + length frame)%nat.
Proof. unfold frame_record. by rewrite length_app, length_frame_prefix. Qed.

Lemma frames_bytes_cons f fs : frames_bytes (f :: fs) = frame_record f ++ frames_bytes fs.
Proof. done. Qed.

Lemma frames_bytes_app fs gs : frames_bytes (fs ++ gs) = frames_bytes fs ++ frames_bytes gs.
Proof. apply bind_app. Qed.

Lemma frames_bytes_snoc fs f : frames_bytes (fs ++ [f]) = frames_bytes fs ++ frame_record f.
Proof. rewrite frames_bytes_app. f_equal. apply app_nil_r. Qed.

Lemma not_u32_range n : 0 <= n <= u32_MAX -> 0 <= not_u32 n < 2 ^ 32.
Proof.
  unfold not_u32, u32_MAX. intros Hn.
  apply (Crc.word_lxor 32); [unfold Crc.word; lia..].
Qed.

Lemma frame_prefix_be len : 0 <= len <= u32_MAX ->
  from_be_bytes (take 4 (frame_prefix len)) = len /\
  from_be_bytes (take 4 (drop 4 (frame_prefix len))) = not_u32 len.
Proof.
  intros Hl. unfold frame_prefix. pose proof (not_u32_range len Hl).
  rewrite take_app_length', drop_app_length' by (by rewrite length_to_be_bytes).
  rewrite (take_ge (to_be_bytes _ (not_u32 _))) by (by rewrite length_to_be_bytes).
  unfold u32_MAX in Hl. split; apply from_to_be_bytes;
    change (2 ^ (8 * Z.of_nat FRAME_LENGTH_LEN)) with (2 ^ 32); lia.
Qed.

Lemma frame_prefix_read rest len : 0 <= len <= u32_MAX -> take 8 rest = frame_prefix len ->
  from_be_bytes (take 4 rest) = len /\ from_be_bytes (take 4 (drop 4 rest)) = not_u32 len.
Proof.
  intros Hl Hp. destruct (frame_prefix_be len Hl) as [H1' H2']. rewrite <-Hp in H1', H2'.
  rewrite take_take in H1'. rewrite skipn_firstn_comm, take_take in H2'. done.
Qed.

(** What the next bytes of a file can be *)
Inductive next_frame : list byte -> Prop :=
| next_torn rest : torn rest -> next_frame rest
| next_corrupt rest e : corrupt rest e -> next_frame rest
| next_record frame rest : valid_frame frame -> next_frame (frame_record frame ++ rest).

Lemma next_frame_cases rest : next_frame rest.
Proof.
  destruct (decide (length rest < 8)%nat) as [Hs|Hl]; [by apply next_torn; left|].
  pose (len := from_be_bytes (take 4 rest)). pose (check := from_be_bytes (take 4 (drop 4 rest))).
  destruct (decide (check = not_u32 len)) as [Hc|Hc];
    [|eapply next_corrupt; exists len, check; split; [lia|naive_solver]].
  destruct (decide (len = 0)) as [Hz|Hz];
    [eapply next_corrupt; exists len, check; split; [lia|naive_solver]|].
  assert (0 <= len < 2 ^ 32) by (apply (from_be_bytes_range 4); rewrite length_take; lia).
  assert (take 8 rest = frame_prefix len) as Hp.
  { unfold frame_prefix. rewrite <-Hc. unfold len, check.
    rewrite !to_be_bytes_eq by (rewrite length_take, ?length_drop; unfold FRAME_LENGTH_LEN; lia).
    rewrite <-(take_drop 4 (take 8 rest)) , take_take, firstn_skipn_comm. done. }
  destruct (decide (Z.of_nat (length rest) < 8 + len)) as [Ht|Ht].
  { apply next_torn. right. exists len. unfold u32_MAX. split; [lia|done]. }
  rewrite <-(take_drop 8 rest), Hp, <-(take_drop (Z.to_nat len) (drop 8 rest)), app_assoc.
  assert (length (take (Z.to_nat len) (drop 8 rest)) = Z.to_nat len) as Hlen
    by (rewrite length_take, length_drop; lia).
  replace len with (Z.of_nat (length (take (Z.to_nat len) (drop 8 rest)))) at 1 by lia.
  apply next_record. unfold valid_frame, u32_MAX. lia.
Qed.

(** * The replay loop *)

Lemma usize_add_Ok {E} a b : a + b <= usize_MAX -> usize_add (E:=E) a b = Ok (a + b).
Proof. intros. unfold usize_add. by rewrite (proj2 (Z.leb_le _ _)) by done. Qed.

(** A sum on usize: past the end it panics, or wraps in a build without checks. *)
Lemma usize_add_wrap {E} a b :
  overflow_checks = false -> 0 <= a + b -> usize_add (E:=E) a b = Ok ((a + b) mod 2 ^ 64).
Proof.
  intros Hc Hn. unfold usize_add. rewrite Hc. destruct (Z.leb_spec (a + b) usize_MAX); [|done].
  by rewrite Z.mod_small by (unfold usize_MAX in *; lia).
Qed.

Lemma usize_add_Panic {E} a b : overflow_checks = true -> usize_MAX < a + b -> usize_add (E:=E) a b = Panic.
Proof. intros Hc Hn. unfold usize_add. by rewrite Hc, (proj2 (Z.leb_gt _ _)) by done. Qed.

(** The loop on [bytes], with [lg] the logical offset of each physical one up to
    [lim]: the plain sum where it fits, the wrapped one in a build without overflow
    checks *)
Section replay.
Context (bytes : list byte) (base : Z) (hl lim : nat) (lg : nat -> Z).
Hypothesis loop_add : forall n, (n <= lim)%nat ->
  usize_add (E:=ControlPlaneError) base (Z.of_nat (n - hl)) = Ok (lg n).

Lemma replay_loop_end fuel acc offset clean :
  (length bytes <= offset)%nat ->
  replay_loop (S fuel) bytes base hl acc offset clean = Ok (MkFrames acc clean false).
Proof. clear loop_add. intros. simpl. by rewrite bool_decide_eq_false_2 by lia. Qed.

Lemma loop_prefix {E} offset :
  (8 <= length (drop offset bytes))%nat ->
  slice (E:=E) bytes offset (offset + FRAME_LENGTH_LEN) = Ok (take 4 (drop offset bytes)) /\
  slice (E:=E) bytes (offset + FRAME_LENGTH_LEN) (offset + FRAME_PREFIX_LEN) =
    Ok (take 4 (drop 4 (drop offset bytes))).
Proof.
  clear loop_add. rewrite length_drop. intros Hl. unfold FRAME_PREFIX_LEN, FRAME_LENGTH_LEN.
  rewrite !slice_Ok by lia. rewrite drop_drop. split; do 2 f_equal; lia.
Qed.

(** One round of the loop on a whole prefix *)
Lemma replay_loop_round fuel acc offset clean :
  let rest := drop offset bytes in
  let len := from_be_bytes (take 4 rest) in
  (8 <= length rest)%nat -> usize_add (E:=ControlPlaneError) base (Z.of_nat (offset - hl)) = Ok (lg offset) ->
  replay_loop (S fuel) bytes base hl acc offset clean =
  if negb (from_be_bytes (take 4 (drop 4 rest)) =? not_u32 len)
  then Err (protocol_error FrameLengthCheckMismatch)
  else if len =? 0 then Err (protocol_error ZeroLengthFrame)
  else if Z.of_nat (length rest) <? 8 + len then Ok (MkFrames acc (lg offset) true)
  else let next := (offset + (8 + Z.to_nat len))%nat in
       clean' ← usize_add base (Z.of_nat (next - hl));
       replay_loop fuel bytes base hl (acc ++ [take (Z.to_nat len) (drop 8 rest)]) next clean'.
Proof.
  clear loop_add. intros rest len Hl Hoff. subst rest.
  destruct (loop_prefix (E:=ControlPlaneError) offset Hl) as [Hs1 Hs2].
  rewrite length_drop in Hl |- *. cbn [replay_loop].
  rewrite bool_decide_eq_true_2 by lia. cbn [negb]. rewrite Hoff. bind_step.
  rewrite bool_decide_eq_false_2 by (unfold FRAME_PREFIX_LEN, FRAME_LENGTH_LEN; lia).
  rewrite Hs1. bind_step. rewrite Hs2. bind_step. fold len.
  destruct (negb _); [done|]. destruct (len =? 0) eqn:Hz; [done|]. cbn [guard_err]. bind_step.
  assert (0 <= len < 2 ^ 32) by (apply (from_be_bytes_range 4); rewrite length_take, length_drop; lia).
  unfold FRAME_PREFIX_LEN, FRAME_LENGTH_LEN.
  destruct (Z.ltb_spec (Z.of_nat (length bytes - offset)) (8 + len)).
  { by rewrite (proj2 (Z.ltb_lt _ _)) by lia. }
  rewrite (proj2 (Z.ltb_ge _ _)) by lia. rewrite slice_Ok by lia. bind_step. cbv zeta.
  rewrite drop_drop.
  replace (offset + 4 * 2 + Z.to_nat len)%nat with (offset + (8 + Z.to_nat len))%nat by lia.
  replace (offset + (8 + Z.to_nat len) - (offset + 4 * 2))%nat with (Z.to_nat len) by lia.
  done.
Qed.

Lemma replay_loop_torn fuel acc offset :
  (offset <= lim)%nat -> torn (drop offset bytes) -> drop offset bytes <> [] ->
  replay_loop (S fuel) bytes base hl acc offset (lg offset) =
  Ok (MkFrames acc (lg offset) true).
Proof.
  intros Hlim Ht Hne. destruct (decide (8 <= length (drop offset bytes))%nat) as [Hl|Hs].
  - destruct Ht as [?|(len & Hlen & Hp & Hd)]; [lia|].
    rewrite replay_loop_round by (first [done|apply loop_add; rewrite length_drop in *; lia]).
    destruct (frame_prefix_read _ len ltac:(lia) Hp) as [-> ->]. rewrite Z.eqb_refl. cbn [negb].
    by rewrite (proj2 (Z.eqb_neq _ _)), (proj2 (Z.ltb_lt _ _)) by lia.
  - assert (length (drop offset bytes) <> 0)%nat by (by destruct (drop offset bytes)).
    rewrite length_drop in *. cbn [replay_loop]. rewrite bool_decide_eq_true_2 by lia. cbn [negb].
    rewrite loop_add by lia. bind_step. by rewrite bool_decide_eq_true_2 by (unfold FRAME_PREFIX_LEN, FRAME_LENGTH_LEN; lia).
Qed.

Lemma replay_loop_corrupt fuel acc offset e :
  (offset <= lim)%nat -> corrupt (drop offset bytes) e ->
  replay_loop (S fuel) bytes base hl acc offset (lg offset) = Err e.
Proof.
  intros Hlim (len & check & Hl & -> & -> & Hc). rewrite replay_loop_round by (first [done|apply loop_add; rewrite length_drop in *; lia]).
  destruct Hc as [[Hc ->]|(-> & -> & ->)]; [by rewrite (proj2 (Z.eqb_neq _ _)) by done|].
  by rewrite Z.eqb_refl.
Qed.

Lemma replay_loop_record fuel acc offset frame rest :
  (offset + length (frame_record frame) <= lim)%nat ->
  valid_frame frame -> drop offset bytes = frame_record frame ++ rest ->
  replay_loop (S fuel) bytes base hl acc offset (lg offset) =
  replay_loop fuel bytes base hl (acc ++ [frame]) (offset + length (frame_record frame))
    (lg (offset + length (frame_record frame))).
Proof.
  intros Hlim Hv Hd. assert (length bytes - offset = length (frame_record frame ++ rest))%nat as Hlen
    by (by rewrite <-Hd, length_drop).
  rewrite length_app, length_frame_record in Hlen. rewrite length_frame_record in Hlim.
  rewrite replay_loop_round by (rewrite ?length_drop; lia || apply loop_add; lia).
  rewrite Hd. unfold frame_record. rewrite <-app_assoc.
  destruct (frame_prefix_read (frame_prefix (Z.of_nat (length frame)) ++ frame ++ rest)
    (Z.of_nat (length frame))) as [-> ->];
    [unfold valid_frame in Hv; lia|by rewrite take_app_length' by by rewrite length_frame_prefix|].
  rewrite Z.eqb_refl, (proj2 (Z.eqb_neq _ _)), (proj2 (Z.ltb_ge _ _)), Nat2Z.id
    by (rewrite ?length_app, ?length_frame_prefix; unfold valid_frame in Hv; lia).
  cbn [negb]. cbv zeta. rewrite drop_app_length', take_app_length by (by rewrite length_frame_prefix).
  rewrite loop_add by lia. by rewrite length_app, length_frame_prefix.
Qed.

(** The frames up to a tail, and then what the tail says *)
Lemma replay_loop_spec fs tail : forall fuel acc offset,
  Forall valid_frame fs -> drop offset bytes = frames_bytes fs ++ tail ->
  (length bytes - offset < fuel)%nat -> (offset + length (frames_bytes fs) <= lim)%nat ->
  (torn tail -> replay_loop fuel bytes base hl acc offset (lg offset) =
     Ok (MkFrames (acc ++ fs) (lg (offset + length (frames_bytes fs)))
           (bool_decide (tail <> [])))) /\
  (forall e, corrupt tail e ->
     replay_loop fuel bytes base hl acc offset (lg offset) = Err e).
Proof.
  induction fs as [|f fs IH]; intros [|fuel] acc offset Hv Hd Hfuel Hlim; try lia.
  - rewrite app_nil_r. simpl in Hd. rewrite Nat.add_0_r. simpl in Hlim.
    split; intros; [|by apply replay_loop_corrupt; [lia|rewrite Hd]].
    destruct (decide (tail = [])) as [->|Hne].
    + apply replay_loop_end. apply (f_equal length) in Hd. rewrite length_drop in Hd. simpl in Hd. lia.
    + rewrite bool_decide_eq_true_2 by done. by apply replay_loop_torn; [lia|rewrite Hd..].
  - apply list.Forall_cons in Hv as [Hf Hv]. rewrite frames_bytes_cons, <-app_assoc in Hd.
    assert (length bytes - offset = length (frame_record f) + length (frames_bytes fs ++ tail))%nat as Hl
      by (rewrite <-length_drop, Hd, length_app; done).
    rewrite frames_bytes_cons, length_app in Hlim. rewrite length_frame_record in Hl.
    rewrite (replay_loop_record fuel acc offset f (frames_bytes fs ++ tail)) by (done || lia).
    destruct (IH fuel (acc ++ [f]) (offset + length (frame_record f))%nat) as [IH1 IH2];
      [done| |rewrite length_frame_record; lia|lia|].
    { rewrite <-drop_drop, Hd. apply drop_app_length. }
    split; [|done]. intros Ht. rewrite IH1 by done. rewrite <-app_assoc, frames_bytes_cons, length_app.
    by rewrite Nat.add_assoc.
Qed.
End replay.

(** Every byte string is frames and a tail. *)
Lemma frames_and_tail (n : nat) : forall rest, (length rest < n)%nat ->
  exists fs tail, Forall valid_frame fs /\ rest = frames_bytes fs ++ tail /\
    (torn tail \/ exists e, corrupt tail e).
Proof.
  induction n as [|n IH]; intros rest Hn; [lia|].
  destruct (next_frame_cases rest) as [rest Ht|rest e Hc|f rest Hf].
  - exists [], rest. split; [done|]. split; [done|by left].
  - exists [], rest. split; [done|]. split; [done|right; by exists e].
  - rewrite length_app, length_frame_record in Hn.
    destruct (IH rest ltac:(lia)) as (fs & tail & Hv & -> & Ht).
    exists (f :: fs), tail. split; [by constructor|]. by rewrite frames_bytes_cons, <-app_assoc.
Qed.

(** * Replaying a file *)

Lemma header_nonempty base rest : header base ++ rest <> [].
Proof.
  intros Hn. apply (f_equal length) in Hn. rewrite length_app, length_header in Hn. simpl in Hn.
  unfold header_len, CHECKSUM_LEN in Hn. lia.
Qed.

Lemma decode_file_header_Ok base rest :
  valid_version -> u64 base ->
  decode_file_header self (header base ++ rest) = Ok (base, header_len (format self)).
Proof. intros. unfold decode_file_header. by rewrite decode_header. Qed.

Lemma checked_add_Some a b : a + b <= u64_MAX -> checked_add a b = Some (a + b).
Proof. intros. unfold checked_add. by rewrite (proj2 (Z.leb_le _ _)) by done. Qed.

(** Replay at an offset inside the file starts the loop there. *)
Lemma replay_bytes_loop base pre rest :
  valid_version -> u64 base -> base + Z.of_nat (length pre) <= u64_MAX ->
  Z.of_nat (header_len (format self) + length pre) <= u64_MAX ->
  let bytes := header base ++ pre ++ rest in
  let offset := (header_len (format self) + length pre)%nat in
  replay_bytes self bytes (base + Z.of_nat (length pre)) =
  replay_loop (S (length bytes - offset)) bytes base (header_len (format self)) [] offset
    (base + Z.of_nat (length pre)).
Proof.
  intros Hv Hb Hfit Hhl bytes offset. unfold replay_bytes.
  rewrite decide_False by apply header_nonempty.
  rewrite (decode_file_header_Ok base (pre ++ rest) Hv Hb : decode_file_header self bytes = _). bind_step.
  unfold usize_try_from. rewrite !(proj2 (Z.leb_le _ usize_MAX)) by (unfold u64, u64_MAX, usize_MAX in *; lia).
  cbn [ok_or]. bind_step. rewrite guard_err_false by (apply Z.ltb_ge; lia).
  rewrite checked_add_Some by (unfold u64_MAX in *; lia). cbn [ok_or]. bind_step.
  assert (length bytes = offset + length rest)%nat as Hl
    by (unfold bytes; rewrite !length_app, length_header; lia).
  rewrite guard_err_false by (apply Z.ltb_ge; lia).
  replace (Z.to_nat (Z.of_nat (header_len (format self)) + (base + Z.of_nat (length pre) - base)))
    with offset by lia.
  replace (offset - header_len (format self))%nat with (length pre) by lia.
  by rewrite usize_add_Ok by (unfold usize_MAX, u64_MAX in *; lia).
Qed.

(** The frames whose last one ends past the end of the offsets *)
Lemma replay_loop_overflow bytes base hl fs tail : overflow_checks = true -> forall fuel acc offset clean,
  Forall valid_frame fs -> drop offset bytes = frames_bytes fs ++ tail -> (length bytes - offset < fuel)%nat ->
  (hl <= offset)%nat ->
  base + Z.of_nat (offset - hl) <= usize_MAX < base + Z.of_nat (offset - hl + length (frames_bytes fs)) ->
  replay_loop fuel bytes base hl acc offset clean = Panic.
Proof.
  intros Hchk. induction fs as [|f fs IH]; intros [|fuel] acc offset clean Hv Hd Hfuel Hhl Hover; try lia.
  { simpl in Hover. lia. }
  apply list.Forall_cons in Hv as [Hf Hv]. rewrite frames_bytes_cons, <-app_assoc in Hd.
  rewrite frames_bytes_cons, length_app, length_frame_record in Hover.
  assert (length bytes - offset = length (frame_record f) + length (frames_bytes fs ++ tail))%nat as Hl
    by (rewrite <-length_drop, Hd, length_app; done).
  rewrite length_frame_record in Hl.
  rewrite (replay_loop_round bytes base hl (fun n => base + Z.of_nat (n - hl)))
    by (rewrite ?length_drop; lia || (apply usize_add_Ok; lia)).
  rewrite Hd. unfold frame_record. rewrite <-app_assoc.
  destruct (frame_prefix_read (frame_prefix (Z.of_nat (length f)) ++ f ++ frames_bytes fs ++ tail)
    (Z.of_nat (length f))) as [-> ->];
    [unfold valid_frame in Hf; lia|by rewrite take_app_length' by by rewrite length_frame_prefix|].
  rewrite Z.eqb_refl, (proj2 (Z.eqb_neq _ _)), (proj2 (Z.ltb_ge _ _)), Nat2Z.id
    by (rewrite ?length_app, ?length_frame_prefix; unfold valid_frame in Hf; lia).
  cbn [negb]. cbv zeta.
  destruct (Z.le_gt_cases (base + Z.of_nat (offset + (8 + length f) - hl)) usize_MAX) as [Hle|Hgt].
  - rewrite usize_add_Ok by done. bind_step. apply IH; [done| |lia..].
    rewrite <-drop_drop, Hd, <-(length_frame_record f). apply drop_app_length.
  - by rewrite usize_add_Panic.
Qed.

(** Replay of frames and a tail from the first frame on: when the end of the last
    frame passes 64 bits, a build with overflow checks panics and one without
    reports the wrapped length. *)
Lemma replay_bytes_cases base pre fs tail :
  valid_version -> u64 base -> Forall valid_frame fs -> base + Z.of_nat (length pre) <= u64_MAX ->
  Z.of_nat (header_len (format self) + length pre) <= u64_MAX ->
  let m := replay_bytes self (header base ++ pre ++ frames_bytes fs ++ tail) (base + Z.of_nat (length pre)) in
  let clean := base + Z.of_nat (length pre + length (frames_bytes fs)) in
  (clean <= u64_MAX \/ overflow_checks = false ->
   (torn tail -> m = Ok (MkFrames fs (clean mod 2 ^ 64) (bool_decide (tail <> [])))) /\
   (forall e, corrupt tail e -> m = Err e)) /\
  (u64_MAX < clean -> overflow_checks = true -> m = Panic).
Proof.
  intros Hv Hb Hfs Hfit Hhl m clean. unfold m. rewrite (replay_bytes_loop base pre (frames_bytes fs ++ tail)) by done.
  set (hl := header_len (format self)) in *. set (bytes := header base ++ pre ++ frames_bytes fs ++ tail).
  set (offset := (hl + length pre)%nat). set (lim := (offset + length (frames_bytes fs))%nat).
  assert (drop offset bytes = frames_bytes fs ++ tail) as Hd.
  { unfold bytes. rewrite app_assoc. apply drop_app_length'. by rewrite length_app, length_header. }
  assert (0 <= base) by (unfold u64 in Hb; lia). split.
  - intros Hor. pose (lg := fun n => (base + Z.of_nat (n - hl)) mod 2 ^ 64).
    assert (forall n, (n <= lim)%nat ->
      usize_add (E:=ControlPlaneError) base (Z.of_nat (n - hl)) = Ok (lg n)) as Hadd.
    { intros n Hn. destruct Hor as [Hle|Hc]; [|apply usize_add_wrap; [done|lia]].
      unfold lg. rewrite Z.mod_small by (unfold u64_MAX in *; lia).
      apply usize_add_Ok. unfold usize_MAX, u64_MAX in *. lia. }
    replace (base + Z.of_nat (length pre)) with (lg offset)
      by (unfold lg; rewrite Z.mod_small by (unfold u64_MAX in *; lia); lia).
    replace (clean mod 2 ^ 64) with (lg lim) by (unfold lg; f_equal; lia).
    apply (replay_loop_spec bytes base hl lim lg Hadd fs tail); [done|done|lia|lia].
  - intros Hover Hc. apply (replay_loop_overflow bytes base hl fs tail); [done|done|done|lia|lia|].
    unfold usize_MAX, u64_MAX in *. lia.
Qed.

Lemma replay_bytes_spec base pre fs tail :
  valid_version -> u64 base -> Forall valid_frame fs ->
  base + Z.of_nat (length (pre ++ frames_bytes fs ++ tail)) <= u64_MAX ->
  Z.of_nat (header_len (format self) + length pre) <= u64_MAX ->
  let m := replay_bytes self (header base ++ pre ++ frames_bytes fs ++ tail) (base + Z.of_nat (length pre)) in
  (torn tail -> m = Ok (MkFrames fs (base + Z.of_nat (length pre + length (frames_bytes fs)))
                          (bool_decide (tail <> [])))) /\
  (forall e, corrupt tail e -> m = Err e).
Proof.
  intros Hv Hb Hfs Hfit Hhl m. rewrite !length_app in Hfit.
  destruct (replay_bytes_cases base pre fs tail) as [Hin _]; [done..|lia|done|].
  rewrite Z.mod_small in Hin by (unfold u64, u64_MAX in *; lia). apply Hin. left. lia.
Qed.
End spec.
End JournalSpec.
