(* ===== verification/JournalIo.v ===== *)
(** The durable journal file under I/O failures.

    Rules for the file system calls, with any of them allowed to fail, and the
    effect of each operation of the journal on the files: the branches that
    succeed, the errors, and what a failure half way leaves behind. *)

From stdpp Require Import gmap strings.
From S2P Require Import Prelude Journal JournalSpec.

Local Open Scope Z_scope.

Module JournalIo.
Import Journal JournalSpec.

(** * Rules *)

Definition wps {E A} (m : io E A) (w : world) (Q : outcome E A -> world -> Prop) : Prop :=
  Q (m w).1 (m w).2.

(** [w] is a later state than [w0], with the files [fs]. *)
Definition after (w0 : world) (fs : gmap PathBuf (list byte)) (w : world) : Prop :=
  files w = fs /\ poisoned w = poisoned w0 /\ (faultless w0 -> faultless w).

Section rules.
Context {E : Type}.

Lemma after_refl w : after w (files w) w.
Proof. done. Qed.

Lemma after_set_files w0 fs fs' w : after w0 fs w -> after w0 fs' (set_files w fs').
Proof. by intros (_ & ? & ?). Qed.

Lemma wps_mono {A} (m : io E A) w (Q Q' : outcome E A -> world -> Prop) :
  wps m w Q -> (forall r w', Q r w' -> Q' r w') -> wps m w Q'.
Proof. unfold wps. auto. Qed.

Lemma wps_ret {A} (a : A) w (Q : outcome E A -> world -> Prop) : Q (Ok a) w -> wps (mret a) w Q.
Proof. done. Qed.

Lemma wps_lift {A} (m : outcome E A) w Q : Q m w -> wps (lift m) w Q.
Proof. done. Qed.

Lemma wps_bind {A B} (m : io E A) (f : A -> io E B) w Q :
  wps m w (fun r w' => match r with
    | Ok a => wps (f a) w' Q | Err e => Q (Err e) w' | Panic => Q Panic w' end) ->
  wps (m ≫= f) w Q.
Proof. unfold wps, mbind, io_bind. by destruct (m w) as [[] w']. Qed.

Lemma wps_map_err {F A} (f : F -> E) (m : io F A) w Q :
  wps m w (fun r w' => Q (map_err f r) w') -> wps (io_map_err f m) w Q.
Proof. unfold wps, io_map_err. by destruct (m w) as [[] w']. Qed.

Lemma wps_catch {F A} (m : io F A) (h : F -> io E A) w Q :
  wps m w (fun r w' => match r with
    | Ok a => Q (Ok a) w' | Err e => wps (h e) w' Q | Panic => Q Panic w' end) ->
  wps (io_catch m h) w Q.
Proof. unfold wps, io_catch. by destruct (m w) as [[] w']. Qed.

Lemma wps_attempt {F A} (m : io F A) w (Q : outcome E (outcome F A) -> world -> Prop) :
  wps m w (fun r w' => match r with Panic => Q Panic w' | _ => Q (Ok r) w' end) ->
  wps (attempt m) w Q.
Proof. unfold wps, attempt. by destruct (m w) as [[] w']. Qed.

Lemma wps_record w0 fs e w (Q : outcome E () -> world -> Prop) :
  after w0 fs w -> (forall w', after w0 fs w' -> Q (Ok ()) w') -> wps (record e) w Q.
Proof. intros Ha HQ. by apply HQ. Qed.
End rules.

Lemma wps_syscall {A} w0 fs onfail f w (Q : outcome ErrorKind A -> world -> Prop) :
  after w0 fs w ->
  (forall w', after w0 fs w' -> wps f w' Q) ->
  (forall n w', after w0 fs w' -> ~ faultless w0 -> Q (Err Other) (onfail n w')) ->
  wps (syscall onfail f) w Q.
Proof.
  unfold wps, syscall, after, faultless. intros (Hf & Hp & Hs) Hok Hfail.
  destruct (script w) as [|[n|] s] eqn:Hscr; simpl.
  - apply Hok. by rewrite Hscr.
  - apply Hfail; simpl; rewrite list.Forall_cons in Hs; naive_solver.
  - apply Hok. simpl. rewrite list.Forall_cons in Hs. naive_solver.
Qed.

Section calls.
Context (w0 : world) (fs : gmap PathBuf (list byte)) (w : world) (Ha : after w0 fs w).

(** A call without effect: it succeeds, or it fails by the script. *)
Definition quiet_post (Q : outcome ErrorKind () -> world -> Prop) : Prop :=
  (forall w', after w0 fs w' -> Q (Ok ()) w') /\
  (forall w', after w0 fs w' -> ~ faultless w0 -> Q (Err Other) w').

Lemma wps_quiet Q : quiet_post Q -> wps (syscall no_effect (fun w => (Ok (), w))) w Q.
Proof. intros [Hok Hf]. apply (wps_syscall w0 fs); [done|exact Hok|intros n; apply Hf]. Qed.

Lemma wps_open_existing p Q :
  (forall w' bytes, after w0 fs w' -> fs !! p = Some bytes -> Q (Ok ()) w') ->
  (forall w', after w0 fs w' -> fs !! p = None -> Q (Err NotFound) w') ->
  (forall w', after w0 fs w' -> ~ faultless w0 -> Q (Err Other) w') ->
  wps (open_existing p) w Q.
Proof.
  intros Hok Hno Hf. apply (wps_syscall w0 fs); [done| |intros n; apply Hf].
  intros w' Ha'. unfold wps. destruct Ha' as (Hw & Ha'). rewrite Hw.
  destruct (fs !! p) eqn:Hp; simpl; [by eapply Hok|by apply Hno].
Qed.

Lemma wps_metadata_len p Q :
  (forall w' bytes, after w0 fs w' -> fs !! p = Some bytes -> Q (Ok (Z.of_nat (length bytes))) w') ->
  (forall w', after w0 fs w' -> fs !! p = None -> Q (Err NotFound) w') ->
  (forall w', after w0 fs w' -> ~ faultless w0 -> Q (Err Other) w') ->
  wps (metadata_len p) w Q.
Proof.
  intros Hok Hno Hf. apply (wps_syscall w0 fs); [done| |intros n; apply Hf].
  intros w' Ha'. unfold wps. destruct Ha' as (Hw & Ha'). rewrite Hw.
  destruct (fs !! p) eqn:Hp; simpl; [by apply Hok|by apply Hno].
Qed.

Lemma wps_read_to_end p Q :
  (forall w', after w0 fs w' -> Q (Ok (default [] (fs !! p))) w') ->
  (forall w', after w0 fs w' -> ~ faultless w0 -> Q (Err Other) w') ->
  wps (read_to_end p) w Q.
Proof.
  intros Hok Hf. apply (wps_syscall w0 fs); [done| |intros n; apply Hf].
  intros w' Ha'. unfold wps. simpl. destruct Ha' as (Hw & Ha'). rewrite Hw. by apply Hok.
Qed.

Lemma wps_open_append p Q :
  (forall w', after w0 (<[p:=default [] (fs !! p)]> fs) w' -> Q (Ok ()) w') ->
  (forall w', after w0 fs w' -> ~ faultless w0 -> Q (Err Other) w') ->
  wps (open_append p) w Q.
Proof.
  intros Hok Hf. apply (wps_syscall w0 fs); [done| |intros n; apply Hf].
  intros w' Ha'. unfold wps. pose proof Ha' as (Hw & Ha''). rewrite Hw.
  destruct (fs !! p) eqn:Hp; simpl; apply Hok; simpl.
  - by rewrite insert_id.
  - by eapply after_set_files.
Qed.

Lemma wps_create p Q :
  (forall w', after w0 (<[p:=[]]> fs) w' -> Q (Ok ()) w') ->
  (forall w', after w0 fs w' -> ~ faultless w0 -> Q (Err Other) w') ->
  wps (create p) w Q.
Proof.
  intros Hok Hf. apply (wps_syscall w0 fs); [done| |intros n; apply Hf].
  intros w' Ha'. unfold wps. simpl. pose proof Ha' as (-> & _). by apply Hok, (after_set_files _ fs).
Qed.

Lemma wps_set_len p n Q :
  (forall w', after w0 (<[p:=resize (Z.to_nat n) Byte.x00 (default [] (fs !! p))]> fs) w' -> Q (Ok ()) w') ->
  (forall w', after w0 fs w' -> ~ faultless w0 -> Q (Err Other) w') ->
  wps (set_len p n) w Q.
Proof.
  intros Hok Hf. apply (wps_syscall w0 fs); [done| |intros k; apply Hf].
  intros w' Ha'. unfold wps. simpl. pose proof Ha' as (-> & _). by apply Hok, (after_set_files _ fs).
Qed.

Lemma wps_rename a b bytes Q :
  fs !! a = Some bytes ->
  (forall w', after w0 (<[b:=bytes]> (delete a fs)) w' -> Q (Ok ()) w') ->
  (forall w', after w0 fs w' -> ~ faultless w0 -> Q (Err Other) w') ->
  wps (rename a b) w Q.
Proof.
  intros Ha' Hok Hf. apply (wps_syscall w0 fs); [done| |intros k; apply Hf].
  intros w' Hw'. unfold wps. pose proof Hw' as (-> & _). rewrite Ha'. simpl.
  by apply Hok, (after_set_files _ fs).
Qed.

(** A failing write leaves a strict prefix of the bytes. *)
Lemma wps_write_all p bytes Q :
  (forall w', after w0 (<[p:=default [] (fs !! p) ++ bytes]> fs) w' -> Q (Ok ()) w') ->
  (forall w' n, (n < length bytes)%nat ->
     after w0 (<[p:=default [] (fs !! p) ++ take n bytes]> fs) w' -> ~ faultless w0 -> Q (Err Other) w') ->
  fs !! p <> None ->
  wps (write_all p bytes) w Q.
Proof.
  intros Hok Hf Hp. unfold write_all. destruct bytes as [|b bytes].
  { apply wps_ret, Hok. rewrite app_nil_r. destruct (fs !! p) eqn:Hfp; [|done]. simpl. by rewrite insert_id. }
  apply (wps_syscall w0 fs); [done| |].
  - intros w' Ha'. unfold wps. simpl. apply Hok. unfold append_bytes.
    pose proof Ha' as (-> & _). by apply (after_set_files _ fs).
  - intros n w' Ha' Hnf. apply (Hf _ (Nat.min n (length (b :: bytes) - 1))); [simpl; lia| |done].
    unfold append_bytes. pose proof Ha' as (-> & _). by apply (after_set_files _ fs).
Qed.
End calls.

Section ops.
Context `{Checksum64, DurableJournalObserver, Profile}.
Context (self : DurableJournalFile).

Lemma wps_sync_parent w0 fs p w Q :
  after w0 fs w ->
  (forall w', after w0 fs w' -> Q (Ok ()) w') ->
  (forall e w', after w0 fs w' -> ~ faultless w0 -> Q (Err e) w') ->
  wps (sync_parent p) w Q.
Proof.
  intros (Hf & Hp & Hs) Hok Herr. pose proof (sync_parent_quiet p w) as Hq. unfold wps.
  destruct (sync_parent p w) as [r w']. destruct Hq as (Hf' & Hp' & Hnp & Hfl). simpl.
  destruct r as [[]|e|]; [apply Hok|apply Herr|done]; unfold after; try naive_solver congruence.
Qed.

Lemma wps_before_file_sync w0 fs p w Q :
  after w0 fs w ->
  (forall w', after w0 fs w' -> Q (Ok ()) w') ->
  (forall e w', after w0 fs w' -> ~ faultless w0 -> Q (Err e) w') ->
  wps (before_file_sync p) w Q.
Proof.
  intros (Hf & Hp & Hs) Hok Herr. pose proof (before_file_sync_quiet p w) as Hq. unfold wps.
  destruct (before_file_sync p w) as [r w']. destruct Hq as (Hf' & Hp' & Hnp & Hfl). simpl.
  destruct r as [[]|e|]; [apply Hok|apply Herr|done]; unfold after; try naive_solver congruence.
Qed.

(** ** The header on disk *)

(** The base offset the header gives *)
Definition base_of (bytes : list byte) : outcome ControlPlaneError Z :=
  '(base_offset, _) ← decode_file_header self bytes; mret base_offset.

Lemma decode_take bytes :
  decode_file_header_classified self (take (header_len (format self)) bytes) =
  decode_file_header_classified self bytes.
Proof.
  destruct (decide (length bytes < header_len (format self))%nat); [by rewrite take_ge by lia|].
  destruct (header_fields self bytes) as (m & v & o & c & rest & -> & Hm & Hv & Ho & Hc); [lia|].
  rewrite (app_assoc _ c rest), take_app_length' by (rewrite !length_app; unfold header_len, CHECKSUM_LEN; lia).
  rewrite <-(app_assoc _ c rest), <-(app_nil_r c) at 1.
  rewrite !decode_fields by done. done.
Qed.

Lemma decode_total bytes : decode_file_header self bytes <> Panic.
Proof.
  unfold decode_file_header. enough (decode_file_header_classified self bytes <> Panic)
    by (by destruct (decode_file_header_classified self bytes)).
  destruct (decide (length bytes < header_len (format self))%nat).
  - unfold decode_file_header_classified. case_decide; [done|]. by rewrite bool_decide_eq_true_2 by done.
  - destruct (header_fields self bytes) as (m & v & o & c & rest & -> & Hm & Hv & Ho & Hc); [lia|].
    rewrite decode_fields by done. cbv zeta. repeat case_match; done.
Qed.

Lemma wps_read_file_base_offset w0 fs w bytes Q :
  after w0 fs w -> fs !! path self = Some bytes ->
  (forall w', after w0 fs w' -> Q (base_of bytes) w') ->
  (forall e w', after w0 fs w' -> ~ faultless w0 -> Q (Err e) w') ->
  wps (read_file_base_offset_unlocked self) w Q.
Proof.
  intros Ha Hp HQ Hf. unfold read_file_base_offset_unlocked.
  apply wps_bind, wps_map_err, (wps_open_existing w0 fs _ Ha);
    [clear w Ha; intros w b Ha _|intros; congruence|intros; by apply Hf].
  apply wps_bind, wps_map_err, (wps_read_to_end w0 fs _ Ha);
    [clear w Ha; intros w Ha|intros; by apply Hf].
  simpl. rewrite Hp. simpl. apply wps_bind, wps_lift. unfold decode_file_header.
  rewrite decode_take. fold (decode_file_header self bytes).
  specialize (HQ w Ha). unfold base_of in HQ.
  by destruct (decode_file_header self bytes) as [[b0 hl]|e|].
Qed.

(** ** Append *)

Definition existing (fs : gmap PathBuf (list byte)) : list byte := default [] (fs !! path self).

(** The contents a whole append leaves *)
Definition append_target (fs : gmap PathBuf (list byte)) (frame : list byte) : list byte :=
  (if decide (existing fs = []) then header self 0 else existing fs) ++ frame_record frame.

(** The frame can be framed, and the file on disk is a journal or empty. *)
Definition appendable (fs : gmap PathBuf (list byte)) (frame : list byte) : Prop :=
  valid_frame frame /\ exists base, base_of (existing fs) = Ok base.

Definition append_effect (fs : gmap PathBuf (list byte)) (frame : list byte)
    (r : outcome DurableJournalAppendError ()) (fs' : gmap PathBuf (list byte)) : Prop :=
  match r with
  | Ok _ | Err (ReplayableRecordMayExist _) =>
      appendable fs frame /\ fs' = <[path self := append_target fs frame]> fs
  | Err (AmbiguousRecordMayExist _) =>
      appendable fs frame /\
      exists content, existing fs `prefix_of` content /\ content `prefix_of` append_target fs frame /\
        fs' = <[path self := content]> fs
  | Err (BeforeReplayableRecord _) => fs' = fs \/ fs' = <[path self := existing fs]> fs
  | Panic => False
  end.

Definition append_post (w0 : world) (frame : list byte) (r : outcome DurableJournalAppendError ())
    (w' : world) : Prop :=
  after w0 (files w') w' /\ append_effect (files w0) frame r (files w') /\
  (faultless w0 -> appendable (files w0) frame -> r = Ok ()).

Lemma append_post_fail w0 frame e w' fs' :
  after w0 fs' w' -> append_effect (files w0) frame (Err e) fs' ->
  ~ (faultless w0 /\ appendable (files w0) frame) -> append_post w0 frame (Err e) w'.
Proof. intros (<- & Hp & Hs) He Hn. split; [done|]. split; [done|]. intros. by destruct Hn. Qed.

(** The header is there after [ensure_file_header]. *)
Lemma wps_ensure_file_header w0 fs w Q :
  after w0 fs w -> fs !! path self <> None ->
  (forall base w', base_of (existing fs) = Ok base ->
     after w0 (<[path self := if decide (existing fs = []) then header self 0 else existing fs]> fs) w' ->
     Q (Ok ()) w') ->
  (forall e w', base_of (existing fs) = Err e -> after w0 fs w' -> Q (Err (BeforeReplayableRecord e)) w') ->
  (forall e w', after w0 fs w' -> ~ faultless w0 -> Q (Err (BeforeReplayableRecord e)) w') ->
  (forall e w' n, existing fs = [] -> after w0 (<[path self := take n (header self 0)]> fs) w' ->
     ~ faultless w0 -> Q (Err (AmbiguousRecordMayExist e)) w') ->
  wps (ensure_file_header self) w Q.
Proof.
  intros Ha Hsome Hok Herr Hbefore Hamb. unfold ensure_file_header.
  assert (fs !! path self = Some (existing fs)) as Hp
    by (unfold existing; by destruct (fs !! path self)).
  apply wps_bind, wps_map_err, (wps_metadata_len w0 fs _ Ha);
    [clear w Ha; intros w b Ha Hb|intros; congruence|intros; by apply Hbefore].
  simpl. rewrite Hp in Hb. injection Hb as <-.
  destruct (decide (existing fs = [])) as [Hnil|Hne].
  - rewrite Hnil. simpl. apply wps_bind, wps_lift. rewrite encode_file_header_Ok.
    unfold write_replayable_bytes. apply wps_map_err, (wps_write_all w0 fs _ Ha); [| |done].
    + intros w' Ha'. rewrite Hp, Hnil in Ha'. eapply Hok; [|done]. by rewrite Hnil.
    + intros w' n _ Ha' Hf. rewrite Hp, Hnil in Ha'. simpl in Ha' |- *. by eapply Hamb.
  - rewrite (proj2 (Z.eqb_neq _ _)) by (intros Hz; apply Hne, nil_length_inv; lia). cbn [negb].
    apply wps_bind, wps_map_err, (wps_read_file_base_offset w0 fs w (existing fs)); [done..| |].
    + intros w' Ha'. pose proof (decode_total (existing fs)) as Ht.
      destruct (base_of (existing fs)) as [base|e|] eqn:Hb; simpl.
      * apply wps_ret. eapply Hok; [done|]. by rewrite insert_id.
      * by apply Herr.
      * exfalso. unfold base_of in Hb. by destruct (decode_file_header self (existing fs)) as [[]| |].
    + intros. by apply Hbefore.
Qed.

Lemma existing_insert fs content : existing (<[path self := content]> fs) = content.
Proof. unfold existing. by rewrite lookup_insert_eq. Qed.

(** Writing the two parts of a record at the end of the file *)
Lemma wps_write_part w0 fs0 frame w done_ part rest context Q :
  after w0 (<[path self := done_]> fs0) w ->
  done_ ++ part ++ rest = append_target fs0 frame -> existing fs0 `prefix_of` done_ ->
  (forall w', after w0 (<[path self := done_ ++ part]> fs0) w' -> Q (Ok ()) w') ->
  (forall e w' content, existing fs0 `prefix_of` content -> content `prefix_of` append_target fs0 frame ->
     after w0 (<[path self := content]> fs0) w' -> ~ faultless w0 -> Q (Err (AmbiguousRecordMayExist e)) w') ->
  wps (write_replayable_bytes self part context) w Q.
Proof.
  intros Ha Ht Hpre Hok Hf. unfold write_replayable_bytes.
  apply wps_map_err, (wps_write_all w0 _ _ Ha); rewrite lookup_insert_eq; [| |done]; cbn [default].
  - intros w'. rewrite insert_insert_eq. apply Hok.
  - intros w' n _. rewrite insert_insert_eq. intros Ha' Hn. simpl. eapply Hf; [..|done|done].
    + etransitivity; [done|]. by eexists.
    + rewrite <-Ht. exists (drop n part ++ rest). by rewrite <-!app_assoc, (app_assoc (take n part)), take_drop.
Qed.

Lemma wps_append_syncs w0 frame frame_bytes w :
  appendable (files w0) frame ->
  after w0 (<[path self := append_target (files w0) frame]> (files w0)) w ->
  wps (append_syncs self frame_bytes) w (append_post w0 frame).
Proof.
  intros Happ Ha. unfold append_syncs.
  set (fs := <[path self := append_target (files w0) frame]> (files w0)) in *.
  assert (existing (files w0) `prefix_of` append_target (files w0) frame) as Hpre.
  { unfold append_target. case_decide as He; [by rewrite He; apply prefix_nil|by eexists]. }
  assert (forall e w', after w0 fs w' -> ~ faultless w0 ->
    append_post w0 frame (Err (AmbiguousRecordMayExist e)) w') as Hamb.
  { intros e w' Ha' Hf. eapply append_post_fail; [done| |naive_solver]. split; [done|]. by eexists. }
  apply wps_bind, wps_attempt, wps_bind, (wps_before_file_sync w0 fs _ _ _ Ha); clear w Ha.
  2:{ intros e w Ha Hf. apply wps_bind, (wps_record w0 fs _ _ _ Ha). intros. by apply Hamb. }
  intros w Ha. apply wps_map_err, (wps_quiet w0 fs _ Ha). split; clear w Ha; intros w Ha; [|intros Hf];
    simpl; apply wps_bind, (wps_record w0 fs _ _ _ Ha); clear w Ha; intros w Ha; [|by apply Hamb].
  apply wps_bind, wps_lift, wps_bind, (wps_record w0 fs _ _ _ Ha). clear w Ha. intros w Ha.
  apply wps_bind, wps_attempt, (wps_sync_parent w0 fs _ _ _ Ha); clear w Ha; [intros w Ha|intros e w Ha Hf];
    apply wps_bind, (wps_record w0 fs _ _ _ Ha); clear w Ha; intros w Ha; apply wps_bind, wps_lift; simpl.
  - apply wps_ret. pose proof Ha as (Hfs & _). rewrite <-Hfs in Ha. split; [exact Ha|]. by split; [split|].
  - eapply append_post_fail; [done|done|naive_solver].
Qed.

Lemma append_post_before w0 frame e w' fs' :
  after w0 fs' w' -> ~ (faultless w0 /\ appendable (files w0) frame) ->
  fs' = files w0 \/ fs' = <[path self := existing (files w0)]> (files w0) ->
  append_post w0 frame (Err (BeforeReplayableRecord e)) w'.
Proof. intros. by eapply append_post_fail. Qed.

Lemma wps_append_open_file w0 frame w :
  valid_frame frame -> after w0 (files w0) w ->
  wps (append_open_file self (Z.of_nat (length frame)) frame) w (append_post w0 frame).
Proof.
  intros Hv Ha. unfold append_open_file. set (fs0 := files w0) in *.
  apply wps_bind, wps_map_err, (wps_open_append w0 fs0 _ Ha); clear w Ha; intros w Ha.
  2:{ intros Hf. eapply append_post_before; [done|naive_solver|by left]. }
  fold (existing fs0) in Ha. simpl. set (fs1 := <[path self := existing fs0]> fs0) in *.
  set (start := if decide (existing fs0 = []) then header self 0 else existing fs0).
  apply wps_bind, (wps_ensure_file_header w0 fs1 _ _ Ha); unfold fs1; clear w Ha;
    rewrite ?existing_insert, ?insert_insert_eq, ?lookup_insert_eq; [done|..].
  2:{ intros e w He Ha. eapply append_post_before; [done| |by right].
      intros [_ [_ [base Hb]]]. fold fs0 in Hb. congruence. }
  2:{ intros e w Ha Hf. eapply append_post_before; [done|naive_solver|by right]. }
  - intros base w Hb Ha. rewrite ?insert_insert_eq in Ha. fold start in Ha.
    assert (appendable fs0 frame) as Happ by (split; [done|by exists base]).
    assert (existing fs0 `prefix_of` start) as Hpre
      by (unfold start; case_decide as He; [rewrite He; apply prefix_nil|done]).
    assert (forall e w' content, existing fs0 `prefix_of` content ->
      content `prefix_of` append_target fs0 frame -> after w0 (<[path self := content]> fs0) w' ->
      ~ faultless w0 -> append_post w0 frame (Err (AmbiguousRecordMayExist e)) w') as Hamb.
    { intros. eapply append_post_fail; [done|split; [done|by eexists]|naive_solver]. }
    apply wps_bind, (wps_write_part w0 fs0 frame _ start (frame_prefix _) frame); [done|done|done| |done].
    clear w Ha. intros w Ha.
    apply wps_bind, (wps_write_part w0 fs0 frame _ _ frame [] _ _ Ha);
      [by rewrite app_nil_r, <-app_assoc|by apply prefix_app_r| |done].
    clear w Ha. intros w Ha. apply wps_append_syncs; [done|]. by rewrite <-app_assoc in Ha.
  - intros e w n He Ha Hf. rewrite ?insert_insert_eq in Ha.
    eapply append_post_fail; [done| |naive_solver]. fold fs0. split.
    { split; [done|]. rewrite He. by eexists. }
    exists (take n (header self 0)). rewrite He. split; [apply prefix_nil|split; [|done]].
    unfold append_target. rewrite decide_True by done. apply prefix_app_r, prefix_take.
Qed.

Lemma wps_append_locked w0 frame w :
  after w0 (files w0) w -> wps (append_frame_locked self frame) w (append_post w0 frame).
Proof.
  intros Ha. unfold append_frame_locked. apply wps_bind, wps_lift. unfold u32_try_from.
  destruct (Z.leb_spec (Z.of_nat (length frame)) u32_MAX) as [Hle|Hgt]; simpl.
  2:{ eapply append_post_before; [done| |by left]. intros [_ [Hv _]]. unfold valid_frame in Hv. lia. }
  apply wps_bind, wps_lift. destruct (Z.eqb_spec (Z.of_nat (length frame)) 0) as [Hz|Hnz]; simpl.
  { eapply append_post_before; [done| |by left]. intros [_ [Hv _]]. unfold valid_frame in Hv. lia. }
  assert (valid_frame frame) as Hv by (unfold valid_frame; lia). apply wps_bind. case_decide.
  - by apply wps_ret, wps_append_open_file.
  - apply wps_map_err, (wps_quiet w0 (files w0) _ Ha). split; intros.
    + by apply wps_append_open_file.
    + eapply append_post_before; [done|naive_solver|by left].
Qed.

(** ** The lock around an operation *)

Lemma wps_guarded {E A} (m : io E A) w (Q : outcome E A -> world -> Prop) :
  wps m w (fun r w' => r <> Panic /\ Q r w') -> wps (guarded m) w Q.
Proof. unfold wps, guarded. destruct (m w) as [[] w']; simpl; tauto. Qed.

(** [lock], then the body *)
Lemma wps_locked {A} (body : io ControlPlaneError A) w (Q : outcome ControlPlaneError A -> world -> Prop) :
  (poisoned w = true -> Q (Err (protocol_error LockPoisoned)) w) ->
  (poisoned w = false -> wps body w (fun r w' => r <> Panic /\ Q r w')) ->
  wps (_ ← lock; guarded body) w Q.
Proof.
  intros Hp Hok. apply wps_bind. unfold wps at 1, lock. destruct (poisoned w); [by apply Hp|].
  apply wps_guarded. by apply Hok.
Qed.

(** The same with the observer counting the wait and the result *)
Lemma wps_observed {A E} (take_lock : io E ()) (poison : E) (body : io E A) wait outcome_event w
    (Q : outcome E A -> world -> Prop) :
  take_lock w = (if poisoned w then Err poison else Ok (), w) ->
  (forall r w1 w2, after w1 (files w1) w2 -> Q r w1 -> Q r w2) ->
  (poisoned w = true -> Q (Err poison) w) ->
  (poisoned w = false -> forall w1, after w (files w) w1 -> wps body w1 (fun r w' => r <> Panic /\ Q r w')) ->
  wps (result ← attempt (guard ← attempt take_lock; _ ← record wait; _ ← lift guard; guarded body);
       _ ← record (outcome_event (is_ok result)); lift result) w Q.
Proof.
  intros Hlock HQ Hp Hok. apply wps_bind, wps_attempt, wps_bind, wps_attempt.
  unfold wps at 1. rewrite Hlock. destruct (poisoned w) eqn:Hpw; simpl.
  - apply wps_bind, (wps_record w (files w) _ _ _ (after_refl w)). intros w1 Ha1.
    apply wps_bind, wps_lift, wps_bind, (wps_record w1 (files w1) _ _ _ (after_refl w1)). intros w2 Ha2.
    apply wps_lift. eapply HQ; [exact Ha2|]. eapply HQ; [exact Ha1|]. by apply Hp.
  - apply wps_bind, (wps_record w (files w) _ _ _ (after_refl w)). intros w1 Ha1.
    apply wps_bind, wps_lift, wps_guarded. eapply wps_mono; [by apply Hok|]. intros r w2 [Hnp Hr]. split; [done|].
    destruct r; [..|done]; apply wps_bind, (wps_record w2 (files w2) _ _ _ (after_refl w2));
      intros w3 Ha3; apply wps_lift; by eapply HQ.
Qed.

Lemma lock_eq {E} (wrap : ControlPlaneError -> E) w :
  io_map_err wrap lock w =
  (if poisoned w then Err (wrap (protocol_error LockPoisoned)) else Ok (), w).
Proof. unfold io_map_err, lock. by destruct (poisoned w). Qed.

Lemma lock_eq' w : lock w = (if poisoned w then Err (protocol_error LockPoisoned) else Ok (), w).
Proof. unfold lock. by destruct (poisoned w). Qed.

Lemma after_same_files w0 w1 w2 :
  after w0 (files w1) w1 -> after w1 (files w1) w2 -> after w0 (files w2) w2.
Proof. unfold after. naive_solver congruence. Qed.

(** [append_frame] under any failures: what the result says about the file *)
Lemma wps_append_frame w0 frame :
  poisoned w0 = false -> wps (append_frame self frame) w0 (append_post w0 frame).
Proof.
  intros Hp. apply (wps_observed (io_map_err BeforeReplayableRecord lock)
    (BeforeReplayableRecord (protocol_error LockPoisoned)) (append_frame_locked self frame)
    RecordLockWait RecordAppend); [apply lock_eq|..].
  - intros r w1 w2 Ha (Hr & He & Hok). pose proof Ha as (Hf & _). split; [by eapply after_same_files|].
    by rewrite Hf.
  - congruence.
  - intros _ w1 Ha. eapply wps_mono; [by apply wps_append_locked|]. intros r w' Hr. split; [|done].
    intros ->. by destruct Hr as (_ & [] & _).
Qed.

(** ** Replacing the file through the temporary one *)

Lemma string_app_longer s c t : s +:+ String c t <> s.
Proof. induction s as [|a s IH]; [done|]. simpl. by intros [= ?]. Qed.

Lemma tmp_path_ne : tmp_path self <> path self.
Proof.
  unfold tmp_path, with_file_name. intros Heq. apply (f_equal file_name) in Heq. simpl in Heq.
  destruct (file_name (path self)) as [s|s]; [|done]. injection Heq as Heq.
  by eapply string_app_longer.
Qed.

(** Other files are untouched; the journal has its old or its new contents. *)
Definition commit_effect {A} (fs : gmap PathBuf (list byte)) (compacted : list byte)
    (r : outcome ControlPlaneError A) (fs' : gmap PathBuf (list byte)) : Prop :=
  (forall q, q <> path self -> q <> tmp_path self -> fs' !! q = fs !! q) /\
  match r with
  | Ok _ => fs' !! path self = Some compacted
  | Err _ => fs' !! path self = fs !! path self \/ fs' !! path self = Some compacted
  | Panic => False
  end.

Definition commit_post (w0 : world) (fs : gmap PathBuf (list byte)) (compacted : list byte)
    (r : outcome ControlPlaneError ()) (w' : world) : Prop :=
  after w0 (files w') w' /\ commit_effect fs compacted r (files w') /\ (faultless w0 -> r = Ok ()).

(** Before the rename only the temporary file changes. *)
Lemma commit_post_tmp w0 fs compacted e content w' :
  after w0 (<[tmp_path self := content]> fs) w' -> ~ faultless w0 -> commit_post w0 fs compacted (Err e) w'.
Proof.
  intros (Hf & Hp & Hs) Hn. split; [done|]. split; [|done]. rewrite Hf. split.
  - intros q _ Hq. by rewrite lookup_insert_ne by congruence.
  - left. rewrite lookup_insert_ne; [done|apply tmp_path_ne].
Qed.

Lemma commit_post_same w0 fs compacted e w' :
  after w0 fs w' -> ~ faultless w0 -> commit_post w0 fs compacted (Err e) w'.
Proof. intros (<- & Hp & Hs) Hn. split; [done|]. split; [|done]. split; [done|by left]. Qed.

Lemma commit_post_new w0 fs compacted r w' :
  after w0 (<[path self := compacted]> (delete (tmp_path self) fs)) w' ->
  r <> Panic -> (faultless w0 -> r = Ok ()) -> commit_post w0 fs compacted r w'.
Proof.
  intros (Hf & Hp & Hs) Hnp Hn. split; [done|]. split; [|done]. rewrite Hf. split.
  - intros q Hq1 Hq2. by rewrite lookup_insert_ne, lookup_delete_ne by congruence.
  - rewrite lookup_insert_eq. destruct r; [done|by right|done].
Qed.

Lemma wps_commit_file w0 fs w compacted :
  after w0 fs w -> wps (commit_file self compacted) w (commit_post w0 fs compacted).
Proof.
  intros Ha. unfold commit_file.
  apply wps_bind, wps_map_err, (wps_create w0 fs _ Ha); clear w Ha; intros w Ha;
    [|intros Hf; by apply commit_post_same].
  apply wps_bind, wps_map_err, (wps_write_all w0 _ _ Ha); rewrite lookup_insert_eq; [| |done];
    rewrite ?insert_insert_eq; cbn [default]; rewrite ?app_nil_l; clear w Ha.
  2:{ intros w n _ Ha Hf. rewrite insert_insert_eq in Ha. by eapply commit_post_tmp. }
  intros w Ha. simpl. apply wps_bind, (wps_record w0 _ _ _ _ Ha). clear w Ha. intros w Ha.
  apply wps_bind, wps_attempt, wps_map_err, (wps_quiet w0 _ _ Ha). clear w Ha. split; intros w Ha; [|intros Hf];
    simpl; apply wps_bind, (wps_record w0 _ _ _ _ Ha); clear w Ha; intros w Ha; apply wps_bind, wps_lift;
    [|by eapply commit_post_tmp].
  apply wps_bind, wps_map_err, (wps_rename w0 _ _ Ha _ _ compacted);
    [by rewrite lookup_insert_eq|..]; clear w Ha; intros w Ha; [|intros Hf; by eapply commit_post_tmp].
  rewrite delete_insert_eq in Ha. simpl.
  apply wps_bind, wps_attempt, (wps_sync_parent w0 _ _ _ _ Ha); clear w Ha; [intros w Ha|intros e w Ha Hf];
    apply wps_bind, (wps_record w0 _ _ _ _ Ha); clear w Ha; intros w Ha; apply wps_lift;
    by apply commit_post_new.
Qed.

(** ** The operations on a well-formed journal *)

Section wellformed.
Context (Hversion : valid_version self).

Lemma wps_read w0 fs w p bytes Q :
  after w0 fs w -> fs !! p = Some bytes ->
  (forall w', after w0 fs w' -> Q (Ok bytes) w') ->
  (forall w', after w0 fs w' -> ~ faultless w0 -> Q (Err Other) w') ->
  wps (read p) w Q.
Proof.
  intros Ha Hp Hok Hf. unfold read.
  apply wps_bind, (wps_open_existing w0 fs _ Ha); [|intros; congruence|exact Hf].
  clear w Ha. intros w b Ha _. apply (wps_read_to_end w0 fs _ Ha); [|exact Hf]. by rewrite Hp.
Qed.

Lemma commit_post_weaken w0 fs compacted r w1 w2 :
  after w1 (files w1) w2 -> commit_post w0 fs compacted r w1 -> commit_post w0 fs compacted r w2.
Proof.
  intros Ha (Hr & He & Hok). pose proof Ha as (Hf & _). split; [by eapply after_same_files|]. by rewrite Hf.
Qed.

Lemma commit_post_no_panic w0 fs compacted r w' : commit_post w0 fs compacted r w' -> r <> Panic.
Proof. by intros (_ & [_ He] & _) ->. Qed.

(** What the operations look at in a journal *)
Lemma journal_bytes base pre rest :
  u64 base -> let bytes := header self base ++ pre ++ rest in
  length bytes = (header_len (format self) + length pre + length rest)%nat /\
  decode_file_header self bytes = Ok (base, header_len (format self)) /\ bytes <> [] /\
  drop (header_len (format self) + length pre) bytes = rest.
Proof.
  intros Hb bytes. split; [unfold bytes; rewrite !length_app, length_header; lia|].
  split; [by apply decode_file_header_Ok|]. split; [apply header_nonempty|].
  unfold bytes. rewrite app_assoc. apply drop_app_length'. by rewrite length_app, length_header.
Qed.

(** Compaction through the end of [pre] *)
Lemma wps_compact_through w0 base pre rest :
  poisoned w0 = false -> u64 base -> base + Z.of_nat (length pre) <= u64_MAX ->
  Z.of_nat (header_len (format self) + length pre) <= u64_MAX ->
  files w0 !! path self = Some (header self base ++ pre ++ rest) ->
  let off := base + Z.of_nat (length pre) in
  wps (compact_through self off) w0 (commit_post w0 (files w0) (header self off ++ rest)).
Proof.
  intros Hp Hb Hoff Hlen Hfile off.
  apply (wps_observed lock (protocol_error LockPoisoned) (compact_through_locked self off)
    RecordCompactionLockWait RecordCompaction); [apply lock_eq'|apply commit_post_weaken|congruence|].
  intros _ w Ha. eapply wps_mono; [|intros r w' Hr; split; [by eapply commit_post_no_panic|exact Hr]].
  unfold compact_through_locked. set (bytes := header self base ++ pre ++ rest) in *.
  apply wps_bind, wps_catch, wps_bind, (wps_read w0 _ _ _ _ _ Ha Hfile); clear w Ha; intros w Ha;
    [apply wps_ret|intros Hf; apply wps_lift; by apply commit_post_same].
  destruct (journal_bytes base pre rest Hb) as (Hl & Hd & Hne & Hdrop). fold bytes in Hl, Hd, Hne, Hdrop.
  assert (pre = [] -> bytes = header self base ++ rest) as Hnil by (by intros ->).
  clearbody bytes. destruct bytes as [|b bytes]; [done|].
  apply wps_bind, wps_lift. rewrite Hd. apply wps_bind, wps_lift.
  rewrite (proj2 (Z.ltb_ge off base)) by lia. apply wps_bind, wps_lift. unfold usize_try_from.
  rewrite (proj2 (Z.leb_le _ usize_MAX)) by (unfold usize_MAX, u64_MAX, u64 in *; lia).
  apply wps_bind, wps_lift. rewrite checked_add_Some by lia. apply wps_bind, wps_lift.
  rewrite (proj2 (Z.ltb_ge _ _)) by lia. cbn [guard_err].
  replace (Z.to_nat (Z.of_nat (header_len (format self)) + (off - base)))
    with (header_len (format self) + length pre)%nat by lia.
  destruct (Z.eqb_spec off base) as [He|He].
  - apply wps_ret. pose proof Ha as (Hf & _). rewrite <-Hf in Ha, Hfile. split; [exact Ha|]. rewrite <-Hf.
    split; [|done]. split; [done|]. assert (pre = []) as -> by (apply nil_length_inv; lia).
    by rewrite He, Hfile, Hnil.
  - rewrite Hdrop. apply wps_bind, wps_lift. rewrite encode_file_bytes_Ok. by apply wps_commit_file.
Qed.

(** Compaction before the base is refused; of a missing or empty file there is
    nothing to do. *)
Lemma wps_compact_refused w0 base rest off :
  poisoned w0 = false -> u64 base -> off < base ->
  files w0 !! path self = Some (header self base ++ rest) ->
  wps (compact_through self off) w0 (fun r w' =>
    after w0 (files w0) w' /\ exists e, r = Err e).
Proof.
  intros Hp Hb Hoff Hfile.
  apply (wps_observed lock (protocol_error LockPoisoned) (compact_through_locked self off)
    RecordCompactionLockWait RecordCompaction); [apply lock_eq'| |congruence|].
  { intros r w1 w2 Ha [(Hf & Hr) He]. split; [|done]. unfold after in *. naive_solver congruence. }
  intros _ w Ha. unfold compact_through_locked. pose proof (header_nonempty self base rest) as Hne.
  pose proof (decode_file_header_Ok self base rest Hversion Hb) as Hd.
  apply wps_bind, wps_catch, wps_bind, (wps_read w0 _ _ _ _ _ Ha Hfile); clear w Ha; intros w Ha;
    [apply wps_ret|intros Hf; apply wps_lift; split; [done|]; split; [done|by eexists]].
  destruct (header self base ++ rest) as [|b bytes]; [done|].
  apply wps_bind, wps_lift. rewrite Hd. apply wps_bind, wps_lift.
  rewrite (proj2 (Z.ltb_lt off base)) by lia. split; [done|]. split; [done|by eexists].
Qed.

Lemma wps_compact_nothing w0 :
  poisoned w0 = false -> existing (files w0) = [] ->
  wps (compact_through self 0) w0 (fun r w' => after w0 (files w0) w' /\ r <> Panic).
Proof.
  intros Hp Hex.
  apply (wps_observed lock (protocol_error LockPoisoned) (compact_through_locked self 0)
    RecordCompactionLockWait RecordCompaction); [apply lock_eq'| |congruence|].
  { intros r w1 w2 Ha [(Hf & Hr) He]. split; [|done]. unfold after in *. naive_solver congruence. }
  intros _ w Ha. unfold compact_through_locked, read, existing in *.
  apply wps_bind, wps_catch, wps_bind, wps_bind, (wps_open_existing w0 _ _ Ha); clear w Ha;
    [intros w bytes Ha Hf|intros w Ha _; by apply wps_ret, wps_ret|intros; by apply wps_lift].
  rewrite Hf in Hex. simpl in Hex. subst bytes.
  apply (wps_read_to_end w0 _ _ Ha); clear w Ha; intros w Ha; [|intros; by apply wps_lift].
  rewrite Hf. by apply wps_ret, wps_ret.
Qed.

Lemma replay_before_base base rest off :
  u64 base -> off < base -> exists e, replay_bytes self (header self base ++ rest) off = Err e.
Proof.
  intros Hb Hoff. unfold replay_bytes. rewrite decide_False by apply header_nonempty.
  rewrite decode_file_header_Ok by done. bind_step. unfold usize_try_from.
  rewrite !(proj2 (Z.leb_le _ usize_MAX)) by (unfold u64, u64_MAX, usize_MAX in *; lia).
  cbn [ok_or]. bind_step. rewrite (proj2 (Z.ltb_lt off base)) by lia. by eexists.
Qed.

Lemma encode_replacement_Ok fs : Forall valid_frame fs -> encode_replacement fs = Ok (frames_bytes fs).
Proof.
  intros Hv. apply returns_eq. unfold encode_replacement.
  apply (wp_foldM (fun done_ out => out = frames_bytes done_)); [done| |naive_solver].
  intros pre f suf out -> ->. apply list.Forall_app in Hv as [_ [Hf _]%list.Forall_cons].
  unfold valid_frame in Hf. unfold u32_try_from. rewrite (proj2 (Z.leb_le _ _)) by lia. cbn [ok_or]. bind_step.
  rewrite guard_err_false by (apply Z.eqb_neq; lia). apply wp_ret.
  rewrite frames_bytes_snoc. unfold frame_record, frame_prefix. by rewrite <-!app_assoc.
Qed.

(** Replacement of the frames from an offset on *)
Lemma wps_replace_from w0 base payload off frames :
  poisoned w0 = false -> u64 base -> base <= off <= base + Z.of_nat (length payload) ->
  base + Z.of_nat (length payload) <= u64_MAX -> Forall valid_frame frames ->
  files w0 !! path self = Some (header self base ++ payload) ->
  wps (replace_from self off (base + Z.of_nat (length payload)) frames) w0
    (commit_post w0 (files w0) (header self off ++ frames_bytes frames)).
Proof.
  intros Hp Hb Hoff Hfit Hv Hfile. set (len := base + Z.of_nat (length payload)) in *.
  apply (wps_observed lock (protocol_error LockPoisoned) (replace_from_locked self off len frames)
    RecordCompactionLockWait RecordCompaction); [apply lock_eq'|apply commit_post_weaken|congruence|].
  intros _ w Ha. eapply wps_mono; [|intros r w' Hr; split; [by eapply commit_post_no_panic|exact Hr]].
  unfold replace_from_locked.
  apply wps_bind, wps_map_err, (wps_read w0 _ _ _ _ _ Ha Hfile); clear w Ha; intros w Ha;
    [|intros Hf; by apply commit_post_same].
  apply wps_bind, wps_lift. rewrite decode_file_header_Ok by done. apply wps_bind, wps_lift.
  rewrite (proj2 (Z.ltb_ge off base)) by lia. apply wps_bind, wps_lift.
  rewrite length_app, length_header, bool_decide_eq_true_2 by lia. apply wps_bind, wps_lift.
  rewrite Nat.add_comm, Nat.add_sub. rewrite checked_add_Some by done. fold len.
  apply wps_bind, wps_lift. rewrite Z.eqb_refl. apply wps_bind, wps_lift.
  rewrite (proj2 (Z.ltb_ge len off)) by lia. apply wps_bind, wps_lift.
  rewrite encode_replacement_Ok by done. apply wps_bind, wps_lift.
  rewrite encode_file_bytes_Ok. by apply wps_commit_file.
Qed.

(** A journal that is not as long as the caller thinks is not replaced. *)
Lemma wps_replace_changed w0 base payload off expected frames :
  poisoned w0 = false -> u64 base -> base <= off ->
  base + Z.of_nat (length payload) <= u64_MAX -> expected <> base + Z.of_nat (length payload) ->
  files w0 !! path self = Some (header self base ++ payload) ->
  wps (replace_from self off expected frames) w0 (fun r w' =>
    after w0 (files w0) w' /\ (exists e, r = Err e) /\
    (faultless w0 -> r = Err (protocol_error
       (ChangedDuringReplacement expected (base + Z.of_nat (length payload)))))).
Proof.
  intros Hp Hb Hoff Hfit Hne Hfile.
  apply (wps_observed lock (protocol_error LockPoisoned) (replace_from_locked self off expected frames)
    RecordCompactionLockWait RecordCompaction); [apply lock_eq'| |congruence|].
  { intros r w1 w2 Ha [(Hf & Hr) He]. split; [|done]. unfold after in *. naive_solver congruence. }
  intros _ w Ha. unfold replace_from_locked.
  apply wps_bind, wps_map_err, (wps_read w0 _ _ _ _ _ Ha Hfile); clear w Ha; intros w Ha;
    [|intros Hf; split; [done|]; split; [done|]; split; [by eexists|done]].
  apply wps_bind, wps_lift. rewrite decode_file_header_Ok by done. apply wps_bind, wps_lift.
  rewrite (proj2 (Z.ltb_ge off base)) by lia. apply wps_bind, wps_lift.
  rewrite length_app, length_header, bool_decide_eq_true_2 by lia. apply wps_bind, wps_lift.
  rewrite Nat.add_comm, Nat.add_sub. rewrite checked_add_Some by done.
  apply wps_bind, wps_lift. rewrite (proj2 (Z.eqb_neq _ _)) by done.
  split; [done|]. split; [done|]. split; [by eexists|done].
Qed.

(** Truncation to the end of [keep] *)
Definition truncate_post (w0 : world) (content : list byte) (r : outcome ControlPlaneError ()) (w' : world) :
    Prop :=
  after w0 (files w') w' /\
  match r with
  | Ok _ => files w' = <[path self := content]> (files w0)
  | Err _ => files w' = files w0 \/ files w' = <[path self := content]> (files w0)
  | Panic => False
  end /\ (faultless w0 -> r = Ok ()).

Lemma truncate_post_no_panic w0 content r w' : truncate_post w0 content r w' -> r <> Panic.
Proof. by intros (_ & He & _) ->. Qed.

Lemma wps_truncate w0 base keep rest :
  poisoned w0 = false -> u64 base ->
  Z.of_nat (header_len (format self) + length keep) <= u64_MAX ->
  files w0 !! path self = Some (header self base ++ keep ++ rest) ->
  wps (truncate_to_clean_len self (base + Z.of_nat (length keep))) w0
    (truncate_post w0 (header self base ++ keep)).
Proof.
  intros Hp Hb Hlen Hfile. apply wps_locked; [congruence|]. intros _.
  assert (forall e w', after w0 (files w0) w' -> ~ faultless w0 ->
    truncate_post w0 (header self base ++ keep) (Err e) w') as Hsame.
  { intros e w' (Hf & Ha) Hn. split; [split; [done|exact Ha]|]. split; [by left|done]. }
  eapply wps_mono; [|intros r w' Hr; split; [by eapply truncate_post_no_panic|exact Hr]].
  unfold truncate_locked.
  apply wps_bind, (wps_read_file_base_offset w0 _ _ _ _ (after_refl w0) Hfile); [intros w Ha|done].
  unfold base_of. rewrite decode_file_header_Ok by done. simpl. apply wps_bind, wps_lift.
  rewrite (proj2 (Z.ltb_ge _ base)) by lia.
  apply wps_bind, wps_map_err, (wps_open_existing w0 _ _ Ha); clear w Ha;
    [intros w _ Ha _|intros; congruence|intros; by apply Hsame].
  apply wps_bind, wps_lift. rewrite checked_add_Some by lia. simpl.
  apply wps_bind, wps_map_err, (wps_set_len w0 _ _ Ha); clear w Ha; intros w Ha; [|intros; by apply Hsame].
  rewrite Hfile in Ha. cbn [from_option id] in Ha.
  replace (Z.to_nat _) with (length (header self base ++ keep)) in Ha
    by (rewrite length_app, length_header; lia).
  rewrite app_assoc, resize_app_le, resize_all in Ha by lia.
  assert (forall r w', after w0 (<[path self:=header self base ++ keep]> (files w0)) w' ->
    r <> Panic -> (faultless w0 -> r = Ok ()) -> truncate_post w0 (header self base ++ keep) r w') as Hnew.
  { intros r w' (Hf & Ha') Hnp Hok. split; [split; [done|exact Ha']|]. split; [|done].
    destruct r; [done|by right|done]. }
  apply wps_bind, wps_map_err, (wps_quiet w0 _ _ Ha). clear w Ha. split; intros w Ha; [|intros; by apply Hnew].
  apply (wps_sync_parent w0 _ _ _ _ Ha); intros; by apply Hnew.
Qed.

(** Replay and status read the file and change nothing. *)
Lemma wps_read_frames_from w0 bytes off Q :
  poisoned w0 = false -> files w0 !! path self = Some bytes ->
  replay_bytes self bytes off <> Panic ->
  (forall w', after w0 (files w0) w' -> Q (replay_bytes self bytes off) w') ->
  (forall e w', after w0 (files w0) w' -> ~ faultless w0 -> Q (Err e) w') ->
  wps (read_frames_from self off) w0 Q.
Proof.
  intros Hp Hfile Hnp HQ Hf. apply wps_locked; [congruence|]. intros _. unfold read_frames_from_unlocked.
  apply wps_bind, wps_catch, wps_bind, (wps_open_existing w0 _ _ (after_refl w0));
    [intros w _ Ha _; apply wps_ret|intros; congruence|intros; apply wps_lift; split; [done|by apply Hf]].
  cbn [negb]. apply wps_bind, wps_map_err, (wps_read_to_end w0 _ _ Ha); clear w Ha; intros w Ha;
    [|intros; split; [done|by apply Hf]].
  rewrite Hfile. apply wps_lift. split; [done|by apply HQ].
Qed.

Lemma wps_read_frames_missing w0 Q :
  poisoned w0 = false -> files w0 !! path self = None ->
  (forall w', after w0 (files w0) w' -> Q (Ok (MkFrames [] 0 false)) w') ->
  (forall e w', after w0 (files w0) w' -> ~ faultless w0 -> Q (Err e) w') ->
  wps (read_frames_from self 0) w0 Q.
Proof.
  intros Hp Hfile HQ Hf. apply wps_locked; [congruence|]. intros _. unfold read_frames_from_unlocked.
  apply wps_bind, wps_catch, wps_bind, (wps_open_existing w0 _ _ (after_refl w0));
    [intros; congruence|intros w Ha _; apply wps_ret|intros; apply wps_lift; split; [done|by apply Hf]].
  apply wps_ret. split; [done|by apply HQ].
Qed.

(** [status_offsets], where the end of the journal is checked to fit *)
Definition status_result (base : Z) (payload : list byte) : outcome ControlPlaneError DurableJournalOffsets :=
  clean_len ← ok_or (checked_add base (Z.of_nat (length payload))) (protocol_error StatusLengthOverflows);
  mret (MkOffsets base clean_len).

Lemma wps_status_offsets w0 base payload Q :
  poisoned w0 = false -> u64 base ->
  files w0 !! path self = Some (header self base ++ payload) ->
  (forall w', after w0 (files w0) w' -> Q (status_result base payload) w') ->
  (forall e w', after w0 (files w0) w' -> ~ faultless w0 -> Q (Err e) w') ->
  wps (status_offsets self) w0 Q.
Proof.
  intros Hp Hb Hfile HQ Hf. apply wps_locked; [congruence|]. intros _. unfold status_offsets_unlocked.
  apply wps_bind, wps_catch, wps_bind, (wps_metadata_len w0 _ _ (after_refl w0));
    [intros w b Ha Hb'; apply wps_ret|intros; congruence|intros; apply wps_lift; split; [done|by apply Hf]].
  rewrite Hfile in Hb'. injection Hb' as <-. rewrite length_app, length_header.
  assert (exists p, Z.of_nat (header_len (format self) + length payload) = Z.pos p) as [p Hpos].
  { rewrite <-(Z2Pos.id (Z.of_nat (header_len (format self) + length payload))); [by eexists|].
    unfold header_len, CHECKSUM_LEN. lia. }
  rewrite Hpos. apply wps_bind, (wps_read_file_base_offset w0 _ _ _ _ Ha Hfile); clear w Ha.
  - intros w Ha. unfold base_of. rewrite decode_file_header_Ok by done. simpl.
    apply wps_bind, wps_lift. rewrite (proj2 (Z.ltb_ge _ _)) by lia. apply wps_bind, wps_lift.
    replace (Z.pos p - Z.of_nat (header_len (format self))) with (Z.of_nat (length payload)) by lia.
    specialize (HQ w Ha). unfold status_result in HQ.
    destruct (checked_add base (Z.of_nat (length payload))); (split; [done|exact HQ]).
  - intros e w Ha Hn. split; [done|by apply Hf].
Qed.

End wellformed.
End ops.
End JournalIo.
