(* ===== verification/JournalLog.v ===== *)
(** The durable journal as a log: what [DurableJournalFile] promises.

    The abstract state is a [log]: a base offset and the frames from it on.  The
    operations of the journal refine the operations on logs whatever I/O calls
    fail, the bytes a failed append leaves are recognised and cut off, and a
    store that stops appending after an ambiguous append never loses or reorders
    an acknowledged frame. *)

From stdpp Require Import gmap strings.
From S2P Require Import Prelude Journal JournalSpec JournalIo.

Local Open Scope Z_scope.

Module JournalLog.
Import Journal JournalSpec JournalIo.

(** * Logs *)

Record log := MkLog { log_base : Z; log_frames : list (list byte) }.

Definition empty_log : log := MkLog 0 [].

(** The logical offset behind the last frame *)
Definition log_end (l : log) : Z := log_base l + Z.of_nat (length (frames_bytes (log_frames l))).

Definition log_append (l : log) (frame : list byte) : log := MkLog (log_base l) (log_frames l ++ [frame]).

Section log.
Context `{Checksum64, DurableJournalObserver, Profile}.
Context (self : DurableJournalFile) (Hversion : valid_version self).

(** Every offset of the log and of a tail of [n] bytes fits 64 bits. *)
Definition fits (l : log) (n : nat) : Prop :=
  Z.of_nat (header_len (format self)) + log_end l + Z.of_nat n <= u64_MAX.

Definition well_formed (l : log) (tail : list byte) : Prop :=
  u64 (log_base l) /\ Forall valid_frame (log_frames l) /\ torn tail /\ fits l (length tail).

(** The bytes of a log followed by a torn tail *)
Definition log_bytes (l : log) (tail : list byte) : list byte :=
  header self (log_base l) ++ frames_bytes (log_frames l) ++ tail.

(** The file of the journal holds the log [l] and the torn tail [tail]; a missing
    or empty file is the empty log. *)
Definition represents (w : world) (l : log) (tail : list byte) : Prop :=
  well_formed l tail /\
  (files w !! path self = Some (log_bytes l tail) \/
   (existing self (files w) = [] /\ l = empty_log /\ tail = [])).

(** A failed first append left part of the header. *)
Definition torn_header (w : world) : Prop :=
  exists n, (0 < n < header_len (format self))%nat /\ files w !! path self = Some (take n (header self 0)).

(** ** Torn records *)

Lemma torn_nil : torn [].
Proof. left. simpl. lia. Qed.

Lemma prefix_record_torn frame t :
  valid_frame frame -> t `prefix_of` frame_record frame -> t = frame_record frame \/ torn t.
Proof.
  intros Hv [k Hk]. destruct (decide (k = [])) as [->|Hne]; [left; by rewrite app_nil_r in Hk|right].
  destruct (decide (length t < 8)%nat); [by left|right]. exists (Z.of_nat (length frame)).
  split; [done|]. split.
  - apply (f_equal (take 8)) in Hk. unfold frame_record in Hk.
    rewrite take_app_length', take_app_le in Hk by (rewrite ?length_frame_prefix; lia). done.
  - apply (f_equal length) in Hk. rewrite length_app, length_frame_record in Hk.
    assert (length k <> 0)%nat by (by destruct k). lia.
Qed.

Lemma log_end_append l frame :
  log_end (log_append l frame) = log_end l + Z.of_nat (length (frame_record frame)).
Proof.
  unfold log_end. cbn [log_append log_base log_frames]. rewrite frames_bytes_snoc, length_app. lia.
Qed.

Lemma log_bytes_append l frame : log_bytes (log_append l frame) [] = log_bytes l [] ++ frame_record frame.
Proof.
  unfold log_bytes. simpl. by rewrite frames_bytes_snoc, !app_nil_r, <-app_assoc.
Qed.

Lemma log_bytes_tail l tail : log_bytes l tail = log_bytes l [] ++ tail.
Proof. unfold log_bytes. by rewrite app_nil_r, <-app_assoc. Qed.

Lemma well_formed_append l frame :
  well_formed l [] -> valid_frame frame -> fits l (length (frame_record frame)) ->
  well_formed (log_append l frame) [].
Proof.
  intros (Hb & Hf & _ & _) Hv Hfit. split; [done|]. split; [by apply list.Forall_app; split; [|constructor]|].
  split; [apply torn_nil|]. unfold fits in *. rewrite log_end_append. cbn [length] in *. lia.
Qed.

Lemma well_formed_torn l frame t :
  well_formed l [] -> fits l (length (frame_record frame)) -> torn t -> t `prefix_of` frame_record frame ->
  well_formed l t.
Proof.
  intros (Hb & Hf & _ & _) Hfit Ht Hp. split; [done|]. split; [done|]. split; [done|].
  apply prefix_length in Hp. unfold fits in *. lia.
Qed.

Lemma well_formed_empty : fits empty_log 0 -> well_formed empty_log [].
Proof.
  intros Hf. split; [unfold u64, u64_MAX; simpl; lia|]. split; [done|]. split; [apply torn_nil|done].
Qed.

(** ** Appending *)

(** The contents the append starts from are those of the log. *)
Lemma append_start w l frame :
  represents w l [] ->
  append_target self (files w) frame = log_bytes l [] ++ frame_record frame /\
  (existing self (files w) = log_bytes l [] \/ (existing self (files w) = [] /\ l = empty_log)).
Proof.
  intros (Hwf & [Hf|(He & -> & _)]).
  - assert (existing self (files w) = log_bytes l []) as He by (unfold existing; by rewrite Hf).
    split; [|by left]. unfold append_target. rewrite decide_False, He; [done|]. rewrite He. apply header_nonempty.
  - split; [|by right]. unfold append_target. rewrite decide_True by done. unfold log_bytes. simpl.
    by rewrite app_nil_r.
Qed.

(** What the file can be after an ambiguous append *)
Definition half_appended (w' : world) (l : log) (frame : list byte) : Prop :=
  (exists tail, represents w' l tail) \/ represents w' (log_append l frame) [] \/
  (l = empty_log /\ torn_header w').

Lemma ambiguous_cases w w' l frame content :
  represents w l [] -> valid_frame frame -> fits l (length (frame_record frame)) ->
  existing self (files w) `prefix_of` content -> content `prefix_of` append_target self (files w) frame ->
  files w' = <[path self := content]> (files w) -> half_appended w' l frame.
Proof.
  intros Hr Hv Hfit Hpre Hsuf Hw. destruct (append_start w l frame Hr) as [Ht Hex]. rewrite Ht in Hsuf.
  assert (files w' !! path self = Some content) as Hc by (rewrite Hw; apply lookup_insert_eq).
  destruct Hr as (Hwf & _).
  assert (log_bytes l [] `prefix_of` content -> half_appended w' l frame) as Hbehind.
  { intros [t ->]. apply prefix_app_inv in Hsuf.
    destruct (prefix_record_torn frame t Hv Hsuf) as [->|Htorn].
    - right; left. split; [by apply well_formed_append|left]. by rewrite log_bytes_append.
    - left. exists t. split; [by eapply well_formed_torn|left]. by rewrite log_bytes_tail. }
  destruct Hex as [He|[He ->]]; [by rewrite He in Hpre; apply Hbehind|].
  unfold log_bytes in Hsuf, Hbehind. simpl in Hsuf, Hbehind. rewrite app_nil_r in Hsuf, Hbehind.
  destruct (prefix_weak_total content (header self 0) _ Hsuf) as [Hh|Hh];
    [by eexists| |by apply Hbehind].
  destruct (decide (content = [])) as [->|Hne].
  { left. exists []. split; [done|right]. split; [|done]. unfold existing. by rewrite Hc. }
  destruct (decide (content = header self 0)) as [->|Hnh]; [by apply Hbehind|].
  right; right. split; [done|]. exists (length content). destruct Hh as [k Hk]. split.
  - rewrite <-(length_header self 0), Hk, length_app.
    assert (length content <> 0)%nat by (by destruct content).
    assert (length k <> 0)%nat by (destruct k; [rewrite app_nil_r in Hk; congruence|done]). lia.
  - by rewrite Hk, take_app_length.
Qed.

Lemma represents_base w l tail :
  represents w l tail -> exists base, base_of self (existing self (files w)) = Ok base.
Proof.
  intros ((Hb & _) & Hrep). unfold base_of.
  destruct Hrep as [Hf|(-> & _)]; [|by eexists]. unfold existing. rewrite Hf. cbn [from_option id].
  unfold log_bytes. rewrite decode_file_header_Ok by done. by eexists.
Qed.

Lemma represents_files w w' l tail :
  represents w l tail -> files w' = files w \/ files w' = <[path self := existing self (files w)]> (files w) ->
  represents w' l tail.
Proof.
  intros (Hwf & Hrep) Hw. split; [done|].
  destruct Hw as [Hw|Hw]; unfold existing in *; rewrite Hw, ?lookup_insert_eq; [done|].
  destruct Hrep as [->|(-> & ?)]; [by left|by right].
Qed.

(** The outcome of an append, on logs *)
Definition append_refined (w : world) (l : log) (frame : list byte)
    (r : outcome DurableJournalAppendError ()) (w' : world) : Prop :=
  match r with
  | Ok _ | Err (ReplayableRecordMayExist _) => valid_frame frame /\ represents w' (log_append l frame) []
  | Err (AmbiguousRecordMayExist _) => valid_frame frame /\ half_appended w' l frame
  | Err (BeforeReplayableRecord _) => represents w' l []
  | Panic => False
  end.

Lemma wps_log_append w l frame :
  poisoned w = false -> represents w l [] -> fits l (length (frame_record frame)) ->
  wps (append_frame self frame) w (fun r w' =>
    append_refined w l frame r w' /\ poisoned w' = false /\ (faultless w -> valid_frame frame -> r = Ok ())).
Proof.
  intros Hp Hr Hfit. eapply wps_mono; [by apply wps_append_frame|].
  intros r w' ((_ & Hp' & _) & He & Hok). split; [|split; [congruence|]].
  2:{ intros. apply Hok; [done|]. split; [done|by eapply represents_base]. }
  destruct (append_start w l frame Hr) as [Ht _].
  assert (appendable self (files w) frame ->
    files w' = <[path self := append_target self (files w) frame]> (files w) ->
    valid_frame frame /\ represents w' (log_append l frame) []) as Hdone.
  { intros [Hv _] Hw. split; [done|]. split; [by destruct Hr; apply well_formed_append|left].
    by rewrite Hw, lookup_insert_eq, Ht, log_bytes_append. }
  destruct r as [|[e|e|e]|]; simpl in He |- *.
  - destruct He as [He1 He2]. by apply Hdone.
  - by eapply represents_files.
  - destruct He as ([Hv _] & content & Hc1 & Hc2 & Hw). split; [done|]. by eapply ambiguous_cases.
  - destruct He as [He1 He2]. by apply Hdone.
  - done.
Qed.

(** ** Replaying *)

Lemma replay_log l fs1 fs2 tail :
  well_formed l tail -> log_frames l = fs1 ++ fs2 ->
  replay_bytes self (log_bytes l tail) (log_base l + Z.of_nat (length (frames_bytes fs1))) =
  Ok (MkFrames fs2 (log_end l) (bool_decide (tail <> []))).
Proof.
  intros (Hb & Hf & Ht & Hfit) Hfs. unfold log_bytes, fits, log_end in *. rewrite Hfs in *.
  rewrite frames_bytes_app, length_app, <-app_assoc in *. apply list.Forall_app in Hf as [_ Hf].
  destruct (replay_bytes_spec self (log_base l) (frames_bytes fs1) fs2 tail) as [Hrep _]; [done..| | |].
  - rewrite !length_app. lia.
  - unfold u64 in Hb. lia.
  - by rewrite (Hrep Ht).
Qed.

(** A read of the whole log, from the frame boundary behind [fs1] *)
Lemma wps_log_read w l fs1 fs2 tail (Q : outcome ControlPlaneError DurableJournalFrames -> world -> Prop) :
  poisoned w = false -> represents w l tail -> log_frames l = fs1 ++ fs2 ->
  (forall w', after w (files w) w' -> Q (Ok (MkFrames fs2 (log_end l) (bool_decide (tail <> [])))) w') ->
  (forall e w', after w (files w) w' -> ~ faultless w -> Q (Err e) w') ->
  wps (read_frames_from self (log_base l + Z.of_nat (length (frames_bytes fs1)))) w Q.
Proof.
  intros Hp (Hwf & Hrep) Hfs HQ Hf. destruct Hrep as [Hfile|(Hex & -> & ->)].
  { pose proof (replay_log l fs1 fs2 tail Hwf Hfs) as Heq.
    apply (wps_read_frames_from self w _ _ _ Hp Hfile); by rewrite ?Heq. }
  simpl in Hfs. symmetry in Hfs. apply app_nil in Hfs as [-> ->].
  unfold existing in Hex. destruct (files w !! path self) as [bytes|] eqn:Hfile; simpl in Hex; [subst bytes|].
  - by apply (wps_read_frames_from self w _ _ _ Hp Hfile).
  - by apply wps_read_frames_missing.
Qed.

(** ** Compaction and replacement *)

(** The log without its frames [fs1] *)
Definition log_drop (l : log) (fs1 fs2 : list (list byte)) : log :=
  MkLog (log_base l + Z.of_nat (length (frames_bytes fs1))) fs2.

Lemma log_end_drop l fs1 fs2 : log_frames l = fs1 ++ fs2 -> log_end (log_drop l fs1 fs2) = log_end l.
Proof. intros Hfs. unfold log_end. simpl. rewrite Hfs, frames_bytes_app, length_app. lia. Qed.

Lemma well_formed_drop l fs1 fs2 tail :
  well_formed l tail -> log_frames l = fs1 ++ fs2 -> well_formed (log_drop l fs1 fs2) tail.
Proof.
  intros (Hb & Hf & Ht & Hfit) Hfs. rewrite Hfs in Hf. apply list.Forall_app in Hf as [_ Hf].
  unfold fits in *. rewrite <-(log_end_drop l fs1 fs2) in Hfit by done.
  split; [|done]. unfold u64, log_end in *. simpl in *. lia.
Qed.

(** The journal holds its old or its new contents, and nothing else changed. *)
Definition committed_to {A} (w : world) (l : log) (tail : list byte)
    (r : outcome ControlPlaneError A) (w' : world) : Prop :=
  (forall q, q <> path self -> q <> tmp_path self -> files w' !! q = files w !! q) /\
  match r with
  | Ok _ => represents w' l tail
  | Err _ => files w' !! path self = files w !! path self \/ represents w' l tail
  | Panic => False
  end.

Lemma commit_post_log w l tail r w' :
  well_formed l tail -> commit_post self w (files w) (log_bytes l tail) r w' ->
  committed_to w l tail r w' /\ poisoned w' = poisoned w /\ (faultless w -> r = Ok ()).
Proof.
  intros Hwf ((_ & Hp & _) & [Hq He] & Hok). split; [|done]. split; [done|].
  destruct r; [by split; [|left]|destruct He; [by left|right; by split; [|left]]|done].
Qed.

Lemma wps_log_compact w l fs1 fs2 tail :
  poisoned w = false -> well_formed l tail -> log_frames l = fs1 ++ fs2 ->
  files w !! path self = Some (log_bytes l tail) ->
  wps (compact_through self (log_base l + Z.of_nat (length (frames_bytes fs1)))) w (fun r w' =>
    committed_to w (log_drop l fs1 fs2) tail r w' /\ poisoned w' = poisoned w /\ (faultless w -> r = Ok ())).
Proof.
  intros Hp Hwf Hfs Hfile. eapply wps_mono; [|intros r w'; by apply commit_post_log, well_formed_drop].
  destruct Hwf as (Hb & Hf & Ht & Hfit).
  unfold fits, log_end, u64, log_bytes in *. rewrite Hfs, frames_bytes_app, length_app in *.
  apply wps_compact_through; [done|done|done|lia|lia|]. by rewrite Hfile, <-!app_assoc.
Qed.

Lemma wps_log_replace w l off frames :
  poisoned w = false -> well_formed l [] -> log_base l <= off <= log_end l ->
  well_formed (MkLog off frames) [] -> files w !! path self = Some (log_bytes l []) ->
  wps (replace_from self off (log_end l) frames) w (fun r w' =>
    committed_to w (MkLog off frames) [] r w' /\ poisoned w' = poisoned w /\ (faultless w -> r = Ok ())).
Proof.
  intros Hp Hwf Hoff Hnew Hfile. eapply wps_mono; [|intros r w'; by apply commit_post_log].
  destruct Hwf as (Hb & Hf & Ht & Hfit). destruct Hnew as (_ & Hv & _).
  unfold log_bytes in *. simpl. rewrite !app_nil_r in *. unfold fits, log_end in *. simpl in Hfit.
  apply wps_replace_from; [done|done|done|done|lia|done|done].
Qed.

(** ** Recovery *)

(** What the owner of a journal does when it opens it: replay from its
    checkpoint, and cut off a torn tail. *)
Definition recover (replay_offset : Z) : io ControlPlaneError DurableJournalFrames :=
  frames ← read_frames_from self replay_offset;
  _ ← (if truncated_tail frames then truncate_to_clean_len self (clean_len frames) else mret ());
  mret frames.

Lemma truncate_log w l tail :
  poisoned w = false -> well_formed l tail -> files w !! path self = Some (log_bytes l tail) ->
  wps (truncate_to_clean_len self (log_end l)) w (fun r w' =>
    poisoned w' = false /\ r <> Panic /\ (represents w' l tail \/ represents w' l []) /\
    (r = Ok () -> represents w' l []) /\ (faultless w -> r = Ok () /\ faultless w')).
Proof.
  intros Hp Hwf Hfile. pose proof Hwf as (Hb & Hf & Ht & Hfit).
  eapply wps_mono; [apply (wps_truncate self Hversion w (log_base l) (frames_bytes (log_frames l)) tail);
    [done|done| |exact Hfile]|].
  { unfold fits, log_end, u64 in *. lia. }
  intros r w' ((_ & Hp' & Hfl) & He & Hok).
  assert (well_formed l []) as Hwf'.
  { split; [done|]. split; [done|]. split; [apply torn_nil|]. unfold fits in *. simpl. lia. }
  assert (files w' = <[path self := header self (log_base l) ++ frames_bytes (log_frames l)]> (files w) ->
    represents w' l []) as Hnew.
  { intros Hw. split; [done|left]. rewrite Hw, lookup_insert_eq. unfold log_bytes. by rewrite app_nil_r. }
  split; [congruence|]. split; [by intros ->|]. split; [|split; [intros ->; by apply Hnew|naive_solver]].
  destruct r; [right; by apply Hnew|destruct He as [He|He]; [left|right; by apply Hnew]|done].
  split; [done|left; congruence].
Qed.

Lemma wps_recover w l fs1 fs2 tail :
  poisoned w = false -> represents w l tail -> log_frames l = fs1 ++ fs2 ->
  wps (recover (log_base l + Z.of_nat (length (frames_bytes fs1)))) w (fun r w' =>
    poisoned w' = false /\ (represents w' l tail \/ represents w' l []) /\
    match r with
    | Ok fr => represents w' l [] /\ frames fr = fs2 /\ clean_len fr = log_end l
    | Err _ => ~ faultless w
    | Panic => False
    end /\ (faultless w -> faultless w')).
Proof.
  intros Hp Hr Hfs. unfold recover.
  apply wps_bind, (wps_log_read w l fs1 fs2 tail); [done..| |].
  2:{ intros e w' (Hf & Hp' & Hfl) Hn. split; [congruence|]. split; [left; by eapply represents_files; [|left]|done]. }
  intros w1 (Hf1 & Hp1 & Hfl1). cbn [truncated_tail clean_len].
  assert (represents w1 l tail) as Hr1 by (by eapply represents_files; [|left]).
  destruct (decide (tail = [])) as [->|Hne].
  { by apply wps_bind, wps_ret, wps_ret; split; [congruence|]; split; [left|]. }
  rewrite bool_decide_eq_true_2 by done.
  destruct Hr1 as (Hwf & [Hfile|(_ & _ & ?)]); [|done].
  apply wps_bind. eapply wps_mono; [by apply (truncate_log w1 l tail); [congruence|..]|].
  intros r w2 (Hp2 & Hnp & Hrep & Hok & Hfl2). destruct r as [[]|e|]; [|naive_solver|done].
  apply wps_ret. split; [done|]. split; [done|]. split; [by split; [apply Hok|]|naive_solver].
Qed.
End log.
End JournalLog.
