(* ===== verification/JournalStore.v ===== *)
(** The durable journal in use: the protocol of its owners, and the properties of
    the journal.

    An owner of a journal (the single-authority store, the Raft write-ahead log)
    appends while it serves, checks that the logical end of the log fits 64 bits,
    stops serving when an append is ambiguous, compacts at frame boundaries and,
    when it restarts, replays from its checkpoint and cuts off a torn tail.  After a
    compaction that failed it may stop, or go on as the Raft log does.  Any I/O call
    may fail at any time.  [store] and [step] are that protocol; the replacement of
    frames at a start ([replace_from]) rewrites the history and is not a step. *)

From stdpp Require Import gmap strings relations.
From S2P Require Import Prelude Journal JournalSpec JournalIo JournalLog.

Local Open Scope Z_scope.

Module JournalStore.
Import Journal JournalSpec JournalIo JournalLog.

(** [history]: the frames of the log since it was created, compacted or not;
    [pending]: the frame of the append that stopped the store. *)
Record store := MkStore {
  disk : world;
  serving : bool;
  history : list (list byte);
  pending : option (list byte);
  clean_offset : Z
}.

(** The logical offset of frame [k] *)
Definition frame_offset (h : list (list byte)) (k : nat) : Z :=
  Z.of_nat (length (frames_bytes (take k h))).

(** The log that starts at frame [k] *)
Definition log_from (h : list (list byte)) (k : nat) : log := MkLog (frame_offset h k) (drop k h).

Section store.
Context `{Checksum64, DurableJournalObserver, Profile}.
Context (self : DurableJournalFile) (Hversion : valid_version self).

(** The store after an append: it goes on after an acknowledgement or a refusal,
    and stops when the record may exist. *)
Definition after_append (s : store) (frame : list byte) (r : outcome DurableJournalAppendError ())
    (w' : world) : store :=
  match r with
  | Ok _ => MkStore w' true (history s ++ [frame]) None
              (clean_offset s + Z.of_nat (length (frame_record frame)))
  | Err (BeforeReplayableRecord _) => MkStore w' true (history s) None (clean_offset s)
  | _ => MkStore w' false (history s) (Some frame) (clean_offset s)
  end.

(** The store after it replayed the journal from frame [k] on *)
Definition after_recover (s : store) (k : nat) (r : outcome ControlPlaneError DurableJournalFrames)
    (w' : world) : store :=
  match r with
  | Ok fr => MkStore w' true (take k (history s) ++ frames fr) None (clean_len fr)
  | _ => MkStore w' false (history s) (pending s) (clean_offset s)
  end.

Inductive step : store -> store -> Prop :=
| step_append s frame r w' :
    serving s = true ->
    Z.of_nat (header_len (format self)) + clean_offset s + Z.of_nat (length (frame_record frame)) <= u64_MAX ->
    append_frame self frame (disk s) = (r, w') ->
    step s (after_append s frame r w')
| step_compact s k r w' go :
    serving s = true -> (k <= length (history s))%nat ->
    compact_through self (frame_offset (history s) k) (disk s) = (r, w') ->
    (is_ok r = true -> go = true) ->
    step s (MkStore w' go (history s) None (clean_offset s))
| step_restart s k w r w' :
    (k <= length (history s))%nat ->
    files w = files (disk s) -> poisoned w = false ->
    recover self (frame_offset (history s) k) w = (r, w') ->
    step s (after_recover s k r w')
| step_faults s w :
    files w = files (disk s) -> poisoned w = poisoned (disk s) ->
    step s (MkStore w (serving s) (history s) (pending s) (clean_offset s)).

Definition initial (s : store) : Prop :=
  files (disk s) !! path self = None /\ poisoned (disk s) = false /\ serving s = true /\
  history s = [] /\ pending s = None /\ clean_offset s = 0.

(** What the disk of a stopped store holds: the log from some frame on, perhaps
    with the pending frame, perhaps with a torn tail; or a torn header when
    nothing was ever acknowledged. *)
Definition durable (s : store) : Prop :=
  (exists k extra tail, (k <= length (history s))%nat /\
     (extra = [] \/ exists f, pending s = Some f /\ extra = [f]) /\
     represents self (disk s) (log_from (history s ++ extra) k) tail) \/
  (history s = [] /\ torn_header self (disk s)).

Definition store_inv (s : store) : Prop :=
  durable s /\
  (serving s = true ->
     poisoned (disk s) = false /\ clean_offset s = Z.of_nat (length (frames_bytes (history s))) /\
     exists k, (k <= length (history s))%nat /\ represents self (disk s) (log_from (history s) k) []).

(** * Offsets of frames *)

Lemma frames_bytes_nil_inv fs : length (frames_bytes fs) = 0%nat -> fs = [].
Proof. destruct fs; [done|]. rewrite frames_bytes_cons, length_app, length_frame_record. lia. Qed.

Lemma frame_offset_split h k1 k2 : (k1 <= k2)%nat ->
  frame_offset h k2 = frame_offset h k1 + Z.of_nat (length (frames_bytes (take (k2 - k1) (drop k1 h)))).
Proof.
  intros Hk. unfold frame_offset. rewrite <-Nat2Z.inj_add, <-length_app, <-frames_bytes_app. do 3 f_equal.
  rewrite take_take_drop. f_equal. lia.
Qed.

Lemma frame_offset_lt h k1 k2 :
  (k1 < k2 <= length h)%nat -> frame_offset h k1 < frame_offset h k2.
Proof.
  intros Hk. rewrite (frame_offset_split h k1 k2) by lia.
  enough (length (frames_bytes (take (k2 - k1) (drop k1 h))) <> 0)%nat by lia.
  intros Hz%frames_bytes_nil_inv%(f_equal length). rewrite length_take, length_drop in Hz. simpl in Hz. lia.
Qed.

Lemma log_end_from h k : log_end (log_from h k) = Z.of_nat (length (frames_bytes h)).
Proof.
  unfold log_end, log_from, frame_offset. simpl.
  rewrite <-Nat2Z.inj_add, <-length_app, <-frames_bytes_app, take_drop. done.
Qed.

Lemma log_from_append h k frame : (k <= length h)%nat ->
  log_append (log_from h k) frame = log_from (h ++ [frame]) k.
Proof.
  intros Hk. unfold log_append, log_from, frame_offset. simpl. by rewrite take_app_le, drop_app_le.
Qed.

Lemma log_from_empty h k : log_from h k = empty_log -> h = [].
Proof.
  unfold log_from, empty_log, frame_offset. intros [= Hz Hd].
  rewrite <-(take_drop k h), Hd, app_nil_r. apply frames_bytes_nil_inv. lia.
Qed.

Lemma log_from_split h k1 k2 : (k1 <= k2)%nat ->
  log_frames (log_from h k1) = take (k2 - k1) (drop k1 h) ++ drop k2 h.
Proof.
  intros Hk. simpl. rewrite <-(take_drop (k2 - k1) (drop k1 h)) at 1. rewrite drop_drop. do 2 f_equal. lia.
Qed.

Lemma log_drop_from h k1 k2 : (k1 <= k2)%nat ->
  log_drop (log_from h k1) (take (k2 - k1) (drop k1 h)) (drop k2 h) = log_from h k2.
Proof. intros Hk. unfold log_drop, log_from. simpl. f_equal. symmetry. by apply frame_offset_split. Qed.

Lemma represents_path w w' l tail :
  represents self w l tail -> files w' !! path self = files w !! path self -> represents self w' l tail.
Proof. intros (Hwf & Hr) Hf. split; [done|]. unfold existing in *. by rewrite Hf. Qed.

(** * The invariant *)

Lemma store_inv_serving s k :
  serving s = true -> poisoned (disk s) = false -> (k <= length (history s))%nat ->
  clean_offset s = Z.of_nat (length (frames_bytes (history s))) ->
  represents self (disk s) (log_from (history s) k) [] -> store_inv s.
Proof.
  intros Hs Hp Hk Hc Hr. split; [left; exists k, [], []; rewrite app_nil_r; naive_solver|].
  intros _. split; [done|]. split; [done|]. by exists k.
Qed.

Lemma store_inv_stopped s : serving s = false -> durable s -> store_inv s.
Proof. intros Hs Hd. split; [done|congruence]. Qed.

Lemma step_append_inv s frame r w' :
  store_inv s -> serving s = true ->
  Z.of_nat (header_len (format self)) + clean_offset s + Z.of_nat (length (frame_record frame)) <= u64_MAX ->
  append_frame self frame (disk s) = (r, w') -> store_inv (after_append s frame r w').
Proof.
  intros [_ Hinv] Hs Hfit Heq. destruct (Hinv Hs) as (Hp & Hc & k & Hk & Hr).
  pose proof (wps_log_append self Hversion (disk s) _ frame Hp Hr) as Hw. unfold wps in Hw. rewrite Heq in Hw.
  destruct Hw as (He & Hp' & _); [unfold fits; rewrite log_end_from; lia|]. simpl in He, Hp'.
  destruct r as [[]|[e|e|e]|]; simpl in He; [..|done].
  - destruct He as [Hv He]. rewrite log_from_append in He by done.
    apply (store_inv_serving _ k); simpl; [done|done|rewrite length_app; lia| |done].
    rewrite frames_bytes_snoc, length_app, length_frame_record, Hc. lia.
  - by apply (store_inv_serving _ k).
  - apply store_inv_stopped; [done|]. destruct He as (Hv & [[tail Ht]|[Ht|[Hl Ht]]]).
    + left. exists k, [], tail. rewrite app_nil_r. naive_solver.
    + left. exists k, [frame], []. simpl. rewrite <-log_from_append by done. naive_solver.
    + right. simpl. split; [by eapply log_from_empty|done].
  - apply store_inv_stopped; [done|]. left. exists k, [frame], []. simpl.
    rewrite <-log_from_append by done. naive_solver.
Qed.

Lemma step_compact_inv s k r w' go :
  store_inv s -> serving s = true -> (k <= length (history s))%nat ->
  compact_through self (frame_offset (history s) k) (disk s) = (r, w') ->
  store_inv (MkStore w' go (history s) None (clean_offset s)).
Proof.
  intros [_ Hinv] Hs Hk Heq. destruct (Hinv Hs) as (Hp & Hc & k0 & Hk0 & Hr).
  assert (forall k', (k' <= length (history s))%nat -> represents self w' (log_from (history s) k') [] ->
    poisoned w' = false -> store_inv (MkStore w' go (history s) None (clean_offset s))) as Hdone.
  { intros k' Hk' Hr' Hp'. destruct go; [by apply (store_inv_serving _ k')|].
    apply store_inv_stopped; [done|]. left. exists k', [], []. rewrite app_nil_r. naive_solver. }
  destruct (decide (k0 <= k)%nat) as [Hle|Hlt]; pose proof Hr as (Hwf & [Hfile|(Hex & Hl & _)]).
  - pose proof (wps_log_compact self Hversion (disk s) _ _ _ [] Hp Hwf (log_from_split _ _ _ Hle) Hfile) as Hw.
    simpl in Hw. rewrite <-frame_offset_split in Hw by done. unfold wps in Hw. rewrite Heq in Hw. simpl in Hw.
    rewrite log_drop_from in Hw by done. destruct Hw as ([_ He] & Hp' & _). rewrite Hp in Hp'.
    destruct r; [by apply (Hdone k)|destruct He as [He|He]|done].
    + apply (Hdone k0); [done| |done]. by eapply represents_path.
    + by apply (Hdone k).
  - apply log_from_empty in Hl. rewrite Hl in Heq, Hk. assert (k = 0)%nat as -> by (simpl in Hk; lia).
    pose proof (wps_compact_nothing self (disk s) Hp Hex) as Hw. unfold wps in Hw.
    change (frame_offset [] 0) with 0 in Heq. rewrite Heq in Hw. destruct Hw as ((Hf & Hp' & _) & _).
    simpl in *. apply (Hdone k0); [done| |congruence]. eapply represents_path; [done|]. by rewrite Hf.
  - pose proof (wps_compact_refused self Hversion (disk s) _ _ (frame_offset (history s) k) Hp
      (proj1 Hwf) (frame_offset_lt _ _ _ (conj (proj1 (Nat.nle_gt _ _) Hlt) Hk0)) Hfile) as Hw.
    unfold wps in Hw. rewrite Heq in Hw. destruct Hw as ((Hf & Hp' & _) & _). simpl in *.
    apply (Hdone k0); [done| |congruence]. eapply represents_path; [done|]. by rewrite Hf.
  - apply log_from_empty in Hl. rewrite Hl in Hk0. simpl in Hk0. lia.
Qed.

(** A recovery that fails to read leaves the files alone. *)
Lemma recover_refused w bytes off e :
  poisoned w = false -> files w !! path self = Some bytes -> replay_bytes self bytes off = Err e ->
  wps (recover self off) w (fun r w' => files w' = files w /\ exists e', r = Err e').
Proof.
  intros Hp Hfile Hr. unfold recover. apply wps_bind, (wps_read_frames_from self w _ _ _ Hp Hfile); rewrite ?Hr.
  - done.
  - intros w' (Hf & _). split; [done|by eexists].
  - intros e' w' (Hf & _) _. split; [done|by eexists].
Qed.

Lemma replay_torn_header n off :
  (0 < n < header_len (format self))%nat ->
  replay_bytes self (take n (header self 0)) off = Err (protocol_error TruncatedFileHeader).
Proof.
  intros Hn. assert (length (take n (header self 0)) = n) as Hl by (rewrite length_take, length_header; lia).
  assert (take n (header self 0) <> []) as Hne by (intros Hz; rewrite Hz in Hl; simpl in Hl; lia).
  unfold replay_bytes. rewrite decide_False by done.
  unfold decode_file_header, decode_file_header_classified. rewrite decide_False by done.
  by rewrite bool_decide_eq_true_2 by lia.
Qed.

(** The log and the tail on the disk, [extra] being the pending frame or nothing *)
Definition holds (s : store) (k : nat) (extra : list (list byte)) (tail : list byte) : Prop :=
  (k <= length (history s))%nat /\ (extra = [] \/ exists f, pending s = Some f /\ extra = [f]) /\
  represents self (disk s) (log_from (history s ++ extra) k) tail.

Lemma represents_log_from_lt w h k0 k tail :
  (k < k0 <= length h)%nat -> represents self w (log_from h k0) tail -> poisoned w = false ->
  wps (recover self (frame_offset h k)) w (fun r w' => files w' = files w /\ exists e', r = Err e').
Proof.
  intros Hk (Hwf & [Hfile|(_ & Hl & _)]) Hp.
  - destruct (replay_before_base self Hversion (log_base (log_from h k0))
      (frames_bytes (log_frames (log_from h k0)) ++ tail) (frame_offset h k)) as [e Hrep];
      [by destruct Hwf|by apply frame_offset_lt|]. by eapply recover_refused.
  - apply log_from_empty in Hl. subst h. simpl in Hk. lia.
Qed.

(** The outcome of a restart: the journal is refused and left alone, or it is
    read whole from frame [k] on. *)
Lemma restart_cases s k w r w' :
  durable s -> (k <= length (history s))%nat -> files w = files (disk s) -> poisoned w = false ->
  recover self (frame_offset (history s) k) w = (r, w') ->
  (files w' = files (disk s) /\ exists e, r = Err e) \/
  exists k0 extra tail, holds s k0 extra tail /\ (k0 <= k)%nat /\ poisoned w' = false /\
    (represents self w' (log_from (history s ++ extra) k0) tail \/
     represents self w' (log_from (history s ++ extra) k0) []) /\
    match r with
    | Ok fr => represents self w' (log_from (history s ++ extra) k0) [] /\
               take k (history s) ++ frames fr = history s ++ extra /\
               clean_len fr = Z.of_nat (length (frames_bytes (history s ++ extra)))
    | Err _ => ~ faultless w
    | Panic => False
    end.
Proof.
  intros Hd Hk Hf Hp Heq. destruct Hd as [(k0 & extra & tail & Hk0 & He & Hr)|[Hh [n [Hn Hfile]]]].
  2:{ left. rewrite <-Hf in Hfile |- *. pose proof (recover_refused w _ _ _ Hp Hfile
        (replay_torn_header n (frame_offset (history s) k) Hn)) as Hw.
      unfold wps in Hw. rewrite Heq in Hw. exact Hw. }
  assert (represents self w (log_from (history s ++ extra) k0) tail) as Hrw
    by (eapply represents_path; [done|by rewrite Hf]).
  assert (frame_offset (history s ++ extra) k = frame_offset (history s) k) as Hoff
    by (unfold frame_offset; by rewrite take_app_le).
  rewrite <-Hoff in Heq. destruct (decide (k0 <= k)%nat) as [Hle|Hlt].
  - right. exists k0, extra, tail. split; [done|]. split; [done|].
    pose proof (wps_recover self Hversion w _ _ _ tail Hp Hrw (log_from_split _ _ _ Hle)) as Hw.
    simpl in Hw. rewrite <-frame_offset_split in Hw by done. unfold wps in Hw. rewrite Heq in Hw. simpl in Hw.
    destruct Hw as (Hp' & Hrep & Hres & _). split; [done|]. split; [done|].
    destruct r as [fr|e|]; [|done..]. destruct Hres as (Hr' & Hfr & Hcl).
    split; [done|]. split; [|by rewrite Hcl, log_end_from].
    by rewrite Hfr, drop_app_le, app_assoc, take_drop.
  - left. rewrite <-Hf. pose proof (represents_log_from_lt w (history s ++ extra) k0 k tail) as Hw.
    rewrite length_app in Hw. specialize (Hw ltac:(lia) Hrw Hp). unfold wps in Hw. by rewrite Heq in Hw.
Qed.

Lemma durable_files s s' :
  durable s -> files (disk s') !! path self = files (disk s) !! path self ->
  history s' = history s -> pending s' = pending s -> durable s'.
Proof.
  intros [(k & extra & tail & Hk & He & Hr)|[Hh [n Hn]]] Hf Hh' Hp'; [left|right]; rewrite Hh', ?Hp'.
  - exists k, extra, tail. split; [done|]. split; [done|]. by eapply represents_path.
  - split; [done|]. exists n. by rewrite Hf.
Qed.

Lemma step_restart_inv s k w r w' :
  durable s -> (k <= length (history s))%nat -> files w = files (disk s) -> poisoned w = false ->
  recover self (frame_offset (history s) k) w = (r, w') ->
  store_inv (after_recover s k r w') /\ history s `prefix_of` history (after_recover s k r w').
Proof.
  intros Hd Hk Hf Hp Heq. destruct (restart_cases s k w r w' Hd Hk Hf Hp Heq)
    as [[Hw [e ->]]|(k0 & extra & tail & (Hk0 & He & _) & Hle & Hp' & Hrep & Hres)].
  { split; [|done]. apply store_inv_stopped; [done|]. apply (durable_files s); simpl; [done|by rewrite Hw|done|done]. }
  destruct r as [fr|e|]; [| |done].
  - destruct Hres as (Hr' & Hhist & Hcl). simpl. rewrite Hhist. split; [|by eexists].
    apply (store_inv_serving _ k0); simpl; [done|done|rewrite length_app; lia|done|done].
  - split; [|done]. apply store_inv_stopped; [done|]. left. simpl.
    destruct Hrep as [Hrep|Hrep]; exists k0, extra; by eexists.
Qed.

Lemma step_inv s s' : store_inv s -> step s s' -> store_inv s' /\ history s `prefix_of` history s'.
Proof.
  intros Hinv Hstep. destruct Hstep as [s frame r w' Hs Hfit Heq|s k r w' go Hs Hk Heq _|s k w r w' Hk Hf Hp Heq|s w Hf Hp].
  - split; [by apply step_append_inv|]. destruct r as [|[]|]; simpl; [by eexists|done..].
  - split; [by eapply step_compact_inv|done].
  - destruct Hinv as [Hd _]. by apply (step_restart_inv s k w).
  - split; [|done]. destruct Hinv as [Hd Hs]. split; [by apply (durable_files s); simpl; rewrite ?Hf|].
    intros Hsv. destruct (Hs Hsv) as (Hp' & Hc & k & Hk & Hr). simpl in *. split; [congruence|].
    split; [done|]. exists k. split; [done|]. eapply represents_path; [done|]. by rewrite Hf.
Qed.

Lemma initial_inv s : fits self empty_log 0 -> initial s -> store_inv s.
Proof.
  intros Hfit (Hf & Hp & Hs & Hh & Hpe & Hc). apply (store_inv_serving _ 0); [done|done|lia| |].
  - by rewrite Hh, Hc.
  - rewrite Hh. split; [by apply well_formed_empty|right]. unfold existing. by rewrite Hf.
Qed.

Lemma reachable_inv s0 s :
  fits self empty_log 0 -> initial s0 -> rtc step s0 s -> store_inv s.
Proof.
  intros Hfit Hi Hsteps. pose proof (initial_inv s0 Hfit Hi) as Hinv. clear Hi.
  induction Hsteps as [s|s1 s2 s3 Hstep _ IH]; [done|]. by apply IH, (step_inv s1).
Qed.

End store.
End JournalStore.
