(* ===== verification/JournalProps.v ===== *)
(** The properties of the durable journal file, with examples on the journals of
    the single-authority store and of the Raft store. *)

From stdpp Require Import gmap strings relations.
From S2P Require Import Prelude Clmul Crc64Api Journal JournalOwners JournalSpec JournalIo JournalLog JournalStore.

Local Open Scope Z_scope.

Module JournalProps.
Import Journal JournalSpec JournalIo JournalLog JournalStore.

Section props.
Context `{Checksum64, DurableJournalObserver, Profile}.
Context (self : DurableJournalFile).

(** * Lemmas on the replay of whole files *)

(** What a successful replay says of the bytes of the file; without overflow checks
    the clean length is the wrapped sum. *)
Definition replay_sound (bytes : list byte) (off : Z) (r : DurableJournalFrames) : Prop :=
  (bytes = [] /\ off = 0 /\ r = MkFrames [] 0 false) \/
  exists base pre tail,
    bytes = header self base ++ pre ++ frames_bytes (frames r) ++ tail /\ u64 base /\
    off = base + Z.of_nat (length pre) /\
    Forall valid_frame (frames r) /\ torn tail /\
    clean_len r = (off + Z.of_nat (length (frames_bytes (frames r)))) mod 2 ^ 64 /\
    (overflow_checks = true -> off + Z.of_nat (length (frames_bytes (frames r))) <= u64_MAX) /\
    truncated_tail r = bool_decide (tail <> []).

(** The frames behind the offset end past the last 64-bit offset. *)
Definition replay_overflows (bytes : list byte) (off : Z) : Prop :=
  exists base pre fs tail,
    bytes = header self base ++ pre ++ frames_bytes fs ++ tail /\ u64 base /\
    off = base + Z.of_nat (length pre) /\ Forall valid_frame fs /\
    u64_MAX < off + Z.of_nat (length (frames_bytes fs)).

(** Why a replay can be refused *)
Definition replay_refused (bytes : list byte) (off : Z) (e : ControlPlaneError) : Prop :=
  (bytes = [] /\ off <> 0) \/ decode_file_header self bytes = Err e \/
  exists base rest, bytes = header self base ++ rest /\
    (off < base \/ base + Z.of_nat (length rest) < off \/
     exists pre fs tail, rest = pre ++ frames_bytes fs ++ tail /\ off = base + Z.of_nat (length pre) /\
       Forall valid_frame fs /\ corrupt tail e).

(** Replay from an offset past the end is refused. *)
Lemma replay_past_end base rest off :
  valid_version self -> u64 base -> u64 off ->
  base + Z.of_nat (length rest) < off ->
  exists e, replay_bytes self (header self base ++ rest) off = Err e.
Proof.
  intros Hv Hb Ho Hlt. unfold replay_bytes. rewrite decide_False by apply header_nonempty.
  rewrite decode_file_header_Ok by done. bind_step. unfold usize_try_from.
  rewrite !(proj2 (Z.leb_le _ usize_MAX)) by (unfold u64, u64_MAX, usize_MAX in *; lia).
  cbn [ok_or]. bind_step. rewrite guard_err_false by (apply Z.ltb_ge; lia).
  destruct (checked_add _ _) as [phys|] eqn:Hc; [|by eexists]. cbn [ok_or]. bind_step.
  unfold checked_add in Hc. destruct (_ <=? u64_MAX); [|done]. injection Hc as <-.
  rewrite length_app, length_header, (proj2 (Z.ltb_lt _ _)) by lia. by eexists.
Qed.

(** What a replay can return *)
Definition replay_outcome (bytes : list byte) (off : Z) (m : outcome ControlPlaneError DurableJournalFrames) : Prop :=
  match m with
  | Ok r => replay_sound bytes off r
  | Err e => replay_refused bytes off e
  | Panic => overflow_checks = true /\ replay_overflows bytes off
  end.

(** Replay from an offset inside the file *)
Lemma replay_inside base pre rest :
  valid_version self -> u64 base -> base + Z.of_nat (length pre) <= u64_MAX ->
  Z.of_nat (header_len (format self) + length pre) <= u64_MAX ->
  replay_outcome (header self base ++ pre ++ rest) (base + Z.of_nat (length pre))
    (replay_bytes self (header self base ++ pre ++ rest) (base + Z.of_nat (length pre))).
Proof.
  intros Hv Hb Hoff Hhl. destruct (frames_and_tail (S (length rest)) rest) as (fs & tail & Hfs & -> & Htail); [lia|].
  destruct (replay_bytes_cases self base pre fs tail) as [Hin Hover]; [done..|].
  rewrite Nat2Z.inj_add, Z.add_assoc in Hin, Hover.
  set (clean := base + Z.of_nat (length pre) + Z.of_nat (length (frames_bytes fs))) in *.
  destruct (Z.le_gt_cases clean u64_MAX) as [Hle|Hgt]; [|destruct overflow_checks eqn:Hchk].
  2:{ rewrite (Hover Hgt eq_refl). split; [done|]. by exists base, pre, fs, tail. }
  all: destruct Hin as [Ht Hc]; [by (left + right)|]; destruct Htail as [Htail|[e He]];
    [rewrite (Ht Htail); right; exists base, pre, tail; simpl; rewrite ?Hchk; done|].
  all: rewrite (Hc e He); right; right; exists base, (pre ++ frames_bytes fs ++ tail);
    split; [done|]; right; right; by exists pre, fs, tail.
Qed.

(** Replay of any bytes *)
Lemma replay_classified bytes off :
  valid_version self -> u64 off -> Z.of_nat (length bytes) <= usize_MAX ->
  replay_outcome bytes off (replay_bytes self bytes off).
Proof.
  intros Hv Ho Hlen. destruct (decide (bytes = [])) as [->|Hne].
  { unfold replay_bytes. simpl. destruct (Z.eqb_spec off 0); simpl; [by left|by left]. }
  destruct (decode_file_header self bytes) as [[base hl]|e|] eqn:Hd;
    [|unfold replay_bytes; rewrite decide_False, Hd by done; right; by left|by apply decode_total in Hd].
  unfold decode_file_header in Hd.
  destruct (decode_file_header_classified self bytes) as [[b l]|e|] eqn:Hc; [|done..].
  injection Hd as -> ->. apply decode_inv in Hc as [-> [[? _]|(Hb & rest & ->)]]; [done|].
  rewrite length_app, length_header in Hlen.
  destruct (Z.lt_ge_cases off base) as [Hlt|Hge].
  { destruct (replay_before_base self Hv base rest off Hb Hlt) as [e ->]. right. right. exists base, rest. auto. }
  destruct (Z.lt_ge_cases (base + Z.of_nat (length rest)) off) as [Hgt|Hle].
  { destruct (replay_past_end base rest off Hv Hb Ho Hgt) as [e ->]. right. right. exists base, rest. auto. }
  destruct (cut_app rest (Z.to_nat (off - base))) as (pre & tl & -> & Hpre); [lia|]. rewrite length_app in *.
  assert (off = base + Z.of_nat (length pre)) as -> by lia.
  apply replay_inside; [done|done|apply Ho|unfold usize_MAX, u64_MAX in *; lia].
Qed.

(** A file that has the parts is replayed. *)
Lemma replay_sound_Ok bytes off r :
  valid_version self -> u64 off -> Z.of_nat (length bytes) <= usize_MAX ->
  replay_sound bytes off r -> replay_bytes self bytes off = Ok r.
Proof.
  intros Hv Ho Hlen [(-> & -> & ->)|(base & pre & tail & -> & Hb & -> & Hfs & Htorn & Hcl & Hchk & Htr)]; [done|].
  rewrite !length_app, length_header in Hlen.
  destruct (replay_bytes_cases self base pre (frames r) tail) as [Hin _];
    [done..|apply Ho|unfold usize_MAX, u64_MAX in *; lia|].
  rewrite Nat2Z.inj_add, Z.add_assoc, <-Hcl, <-Htr in Hin.
  destruct Hin as [Hin _]; [destruct overflow_checks; [left; by apply Hchk|by right]|].
  rewrite (Hin Htorn). by destruct r.
Qed.

(** The header is what it encodes.  [decode_file_header_classified] accepts a
    file exactly when it is empty (base offset 0) or starts with the bytes
    [encode_file_header] writes, and then returns the base offset they encode. *)
Theorem header_accepts_exactly bytes base hl :
  valid_version self ->
  decode_file_header_classified self bytes = Ok (base, hl) <->
  hl = header_len (format self) /\
  ((bytes = [] /\ base = 0) \/
   (u64 base /\ exists hdr rest, encode_file_header (E:=()) self base = Ok hdr /\ bytes = hdr ++ rest)).
Proof.
  intros Hv. split.
  - intros Hd. apply decode_inv in Hd as [-> [Hd|(Hb & rest & ->)]]; (split; [done|]); [by left|right].
    split; [done|]. exists (header self base), rest. by rewrite encode_file_header_Ok.
  - intros [-> [[-> ->]|(Hb & hdr & rest & He & ->)]]; [done|].
    rewrite encode_file_header_Ok in He. injection He as <-. by apply decode_header.
Qed.

(** A damaged header is refused.  When a run of at most eight bytes of the
    magic, the version or the base offset is changed, decoding reports a checksum
    mismatch, whatever follows the header. *)
Theorem header_damage_detected base pre b1 b2 post sum rest :
  encode_file_header (E:=()) self base = Ok ((pre ++ b1 ++ post) ++ sum) -> length sum = 8%nat ->
  length b1 = length b2 -> (length b1 <= 8)%nat -> b1 <> b2 ->
  exists expected actual,
    decode_file_header_classified self ((pre ++ b2 ++ post) ++ sum ++ rest) =
    Err (ChecksumMismatch expected actual).
Proof.
  rewrite encode_file_header_Ok. unfold header. intros [= Henc] Hs Hl H8 Hne.
  apply app_inj_2 in Henc as [Hbody Hsum]; [|by rewrite length_to_be_bytes].
  destruct (header_fields self ((pre ++ b2 ++ post) ++ sum)) as (m & v & o & c & r & Heq & Hm & Hv & Ho & Hc).
  { pose proof (length_header_body self base) as Hlb. rewrite Hbody in Hlb.
    rewrite !length_app in Hlb. rewrite !length_app.
    unfold header_len, CHECKSUM_LEN in *. lia. }
  assert (r = [] /\ pre ++ b2 ++ post = m ++ v ++ o /\ sum = c) as (-> & Hb2 & ->).
  { pose proof (length_header_body self base) as Hlb. rewrite Hbody in Hlb.
    pose proof (f_equal length Heq) as Hlen. rewrite !length_app in Hlb. rewrite !length_app in Hlen.
    unfold header_len, CHECKSUM_LEN in *.
    assert (r = []) as -> by (apply nil_length_inv; lia). rewrite app_nil_r in Heq.
    apply app_inj_2 in Heq; [naive_solver|lia]. }
  rewrite Hb2, decode_fields by done. cbv zeta. rewrite <-Hb2, <-Hsum.
  pose proof (checksum64_range (header_body self base)) as Hrange.
  rewrite from_to_be_bytes by exact Hrange. rewrite Hbody.
  rewrite (proj2 (Z.eqb_neq _ _)); [by eexists _, _|]. intros Heqc. symmetry in Heqc.
  by apply checksum64_burst in Heqc.
Qed.

(** C11: replay of every file.  For every content of the file, of a length that is
    one of a Vec, and every replay offset the loop ends.  Replay succeeds exactly when the file is a header, the
    bytes before the offset, the encodings of the frames returned and a torn tail
    that is reported, or is empty; if it is refused, the header or the offset is bad
    or the first bytes that are not a frame are corrupt; and it panics exactly when
    the frames behind the offset end past the last 64-bit offset and the build has
    overflow checks.  A build without them reports the end of such frames modulo
    2^64. *)
Theorem replay_any_file bytes off :
  valid_version self -> u64 off -> Z.of_nat (length bytes) <= usize_MAX ->
  (forall r, replay_bytes self bytes off = Ok r <-> replay_sound bytes off r) /\
  (forall e, replay_bytes self bytes off = Err e -> replay_refused bytes off e) /\
  (replay_bytes self bytes off = Panic <-> overflow_checks = true /\ replay_overflows bytes off).
Proof.
  intros Hv Ho Hlen. pose proof (replay_classified bytes off Hv Ho Hlen) as Hout. split; [|split; [|split]].
  - intros r. split; [|by apply replay_sound_Ok]. intros Hr. by rewrite Hr in Hout.
  - intros e He. by rewrite He in Hout.
  - intros Hp. by rewrite Hp in Hout.
  - intros (Hchk & base & pre & fs & tail & -> & Hb & -> & Hfs & Hover). rewrite !length_app, length_header in Hlen.
    destruct (replay_bytes_cases self base pre fs tail) as [_ Hpanic];
      [done..|apply Ho|unfold usize_MAX, u64_MAX in *; lia|]. apply Hpanic; [lia|done].
Qed.

(** C12: an append is an append.  On a journal that holds the log [l], whatever
    I/O calls fail, the outcome of [append_frame] says what the file holds: the
    log with the frame when it is acknowledged or reported replayable; the log
    unchanged when it failed before a record; and after an ambiguous failure the
    log with a torn tail, the log with the frame or, for a new journal, part of
    the header.  When no call fails a frame of valid length is acknowledged. *)
Theorem append_frame_refines w l frame :
  valid_version self -> poisoned w = false -> represents self w l [] ->
  fits self l (length (frame_record frame)) ->
  wps (append_frame self frame) w (fun r w' =>
    match r with
    | Ok _ | Err (ReplayableRecordMayExist _) => represents self w' (log_append l frame) []
    | Err (AmbiguousRecordMayExist _) =>
        (exists tail, represents self w' l tail) \/ represents self w' (log_append l frame) [] \/
        (l = empty_log /\ torn_header self w')
    | Err (BeforeReplayableRecord _) => represents self w' l []
    | Panic => False
    end /\ poisoned w' = false /\ (faultless w -> valid_frame frame -> r = Ok ())).
Proof.
  intros Hv Hp Hr Hfit. eapply wps_mono; [by apply wps_log_append|].
  intros r w' (He & Hp' & Hok). split; [|done]. destruct r as [|[]|]; simpl in He; naive_solver.
Qed.

(** C13: compaction is atomic and invisible to readers.  Compacting through a
    frame boundary leaves, whatever I/O calls fail, the old file or the file of
    the log without the compacted frames, the latter when it succeeds, and
    touches no file but the journal and its temporary file.  A replay from any
    later frame boundary returns the same frames and the same clean length from
    the new file as from the old one. *)
Theorem compact_through_refines w l fs1 fs2 tail :
  valid_version self -> poisoned w = false -> well_formed self l tail -> log_frames l = fs1 ++ fs2 ->
  files w !! path self = Some (log_bytes self l tail) ->
  let off := log_base l + Z.of_nat (length (frames_bytes fs1)) in
  wps (compact_through self off) w (fun r w' =>
    (forall q, q <> path self -> q <> tmp_path self -> files w' !! q = files w !! q) /\
    match r with
    | Ok _ => represents self w' (log_drop l fs1 fs2) tail
    | Err _ => files w' !! path self = files w !! path self \/ represents self w' (log_drop l fs1 fs2) tail
    | Panic => False
    end /\ (faultless w -> r = Ok ())) /\
  forall gs1 gs2, fs2 = gs1 ++ gs2 ->
    let later := off + Z.of_nat (length (frames_bytes gs1)) in
    replay_bytes self (log_bytes self (log_drop l fs1 fs2) tail) later =
    replay_bytes self (log_bytes self l tail) later.
Proof.
  intros Hv Hp Hwf Hfs Hfile off. split.
  - eapply wps_mono; [by apply (wps_log_compact self Hv w l fs1 fs2 tail)|]. intros r w' ([Hq He] & _ & Hok). done.
  - intros gs1 gs2 Hgs later.
    rewrite (replay_log self Hv (log_drop l fs1 fs2) gs1 gs2 tail);
      [|by apply well_formed_drop|done].
    replace later with (log_base l + Z.of_nat (length (frames_bytes (fs1 ++ gs1))))
      by (unfold later, off; rewrite frames_bytes_app, length_app; lia).
    rewrite (replay_log self Hv l (fs1 ++ gs1) gs2 tail); [|done|by rewrite Hfs, Hgs, app_assoc].
    by rewrite log_end_drop.
Qed.

(** Replacement checks and replaces.  [replace_from] of a journal that holds
    [l], from an offset inside it, leaves the old file or the file with the new
    frames from that offset on, the latter when it succeeds, and touches no other
    file but the temporary one; when the expected length is not the length of the
    journal it fails and changes nothing. *)
Theorem replace_from_refines w l off expected frames :
  valid_version self -> poisoned w = false -> well_formed self l [] -> log_base l <= off <= log_end l ->
  well_formed self (MkLog off frames) [] ->
  files w !! path self = Some (log_bytes self l []) ->
  wps (replace_from self off expected frames) w (fun r w' =>
    if decide (expected = log_end l) then
      (forall q, q <> path self -> q <> tmp_path self -> files w' !! q = files w !! q) /\
      match r with
      | Ok _ => represents self w' (MkLog off frames) []
      | Err _ => files w' !! path self = files w !! path self \/ represents self w' (MkLog off frames) []
      | Panic => False
      end /\ (faultless w -> r = Ok ())
    else files w' = files w /\ (exists e, r = Err e) /\
      (faultless w -> r = Err (protocol_error (ChangedDuringReplacement expected (log_end l))))).
Proof.
  intros Hv Hp Hwf Hoff Hnew Hfile. destruct (decide (expected = log_end l)) as [->|Hne].
  - eapply wps_mono; [by apply wps_log_replace|]. intros r w' ([Hq He] & _ & Hok). done.
  - unfold log_bytes in Hfile. rewrite app_nil_r in Hfile. destruct Hwf as (Hb & _ & _ & Hfit).
    eapply wps_mono; [eapply (wps_replace_changed self Hv w (log_base l) (frames_bytes (log_frames l)))|];
      [done|done|lia| |done|done|].
    + unfold fits, log_end in Hfit. simpl in Hfit. lia.
    + intros r w' ((Hf & _) & He & Hok). done.
Qed.

(** C14: acknowledged frames are never lost or reordered.  Starting from a missing
    journal, after any sequence of appends, compactions at frame boundaries,
    restarts and I/O failures, the file of the journal holds, in order, every
    frame of the history that is not compacted, then at most the one frame whose
    append was ambiguous and a torn tail (or, when nothing was acknowledged yet,
    part of the header); while the store serves it holds exactly the history;
    and each further step only extends the history. *)
Theorem journal_store_invariant s0 s :
  valid_version self -> fits self empty_log 0 -> initial self s0 -> rtc (step self) s0 s ->
  store_inv self s /\ forall s', step self s s' -> history s `prefix_of` history s'.
Proof.
  intros Hv Hfit Hi Hsteps. assert (store_inv self s) as Hinv by (by eapply reachable_inv). split; [done|].
  intros s' Hstep. by apply (step_inv self Hv s s').
Qed.


(** A file whose only frame ends past the last 64-bit offset: the sum of the base
    and the frame wraps, and a build with overflow checks panics. *)
Lemma replay_overflow base frame :
  valid_version self -> u64 base -> valid_frame frame ->
  Z.of_nat (header_len (format self)) <= u64_MAX ->
  u64_MAX < base + Z.of_nat (length (frame_record frame)) ->
  replay_bytes self (header self base ++ frame_record frame) base =
  if overflow_checks then Panic
  else Ok (MkFrames [frame] (base + Z.of_nat (length (frame_record frame)) - 2 ^ 64) false).
Proof.
  intros Hv Hb Hf Hhl Hover. pose proof Hover as Hlen. rewrite length_frame_record in Hlen.
  destruct (replay_bytes_cases self base [] [frame] []) as [Hin Hpanic];
    [done|done|by constructor|simpl; unfold u64 in Hb; lia|simpl; lia|].
  rewrite frames_bytes_cons, !app_nil_r, Z.add_0_r in Hin, Hpanic. cbn [app length Nat.add] in Hin, Hpanic.
  destruct overflow_checks; [by apply Hpanic|]. destruct Hin as [Hin _]; [by right|].
  rewrite Hin by apply torn_nil. rewrite length_frame_record. do 2 f_equal.
  symmetry. apply (Z.mod_unique _ _ 1); unfold u64, valid_frame, u64_MAX, u32_MAX in *; lia.
Qed.

(** The end of the offset space.  On a journal whose last frame ends past
    2^64 - 1, [status_offsets] refuses the journal, while [read_frames_from] adds
    the same base and length unchecked: it panics and poisons the lock in a build
    with overflow checks, and reports a wrapped clean length in one without. *)
Theorem read_frames_offset_overflow w base frame :
  valid_version self -> u64 base -> valid_frame frame ->
  Z.of_nat (header_len (format self)) <= u64_MAX ->
  u64_MAX < base + Z.of_nat (length (frame_record frame)) ->
  poisoned w = false -> script w = [] ->
  files w !! path self = Some (header self base ++ frame_record frame) ->
  (status_offsets self w).1 = Err (protocol_error StatusLengthOverflows) /\
  (read_frames_from self base w).1 =
    (if overflow_checks then Panic
     else Ok (MkFrames [frame] (base + Z.of_nat (length (frame_record frame)) - 2 ^ 64) false)) /\
  poisoned (read_frames_from self base w).2 = overflow_checks.
Proof.
  intros Hv Hb Hf Hhl Hover Hp Hs Hfile.
  pose proof (replay_overflow base frame Hv Hb Hf Hhl Hover) as Hrep. split.
  - apply (wps_status_offsets self Hv w base (frame_record frame) (fun r _ => r = _)); [done..| |].
    + intros w' _. unfold status_result, checked_add. by rewrite (proj2 (Z.leb_gt _ _)).
    + intros e w' _ []. unfold faultless. by rewrite Hs.
  - unfold read_frames_from, lock, guarded, read_frames_from_unlocked, mbind, io_bind, io_catch, io_map_err,
      open_existing, read_to_end, syscall. rewrite Hp, !Hs, Hfile. simpl. rewrite Hs. simpl. rewrite Hfile. simpl.
    rewrite Hrep. by destruct overflow_checks.
Qed.
End props.

(** * Examples: the journal of the single-authority store *)

Definition example_checksum : Checksum64 := crc64_checksum Clmul.X86_64 Crc64Api.no_features 0.
Definition example_observer : DurableJournalObserver := SingleAuthority.SingleAuthorityJournalObserver.
Definition example_profile : Profile := {| overflow_checks := true |}.
#[local] Existing Instances example_checksum example_observer example_profile.

Definition example_file : DurableJournalFile :=
  SingleAuthority.journal (MkPathBuf "data" (Utf8 "state")) "42".

(** Two frames, and the log of both *)
Definition frame1 : list byte := Crc64Api.digits.
Definition frame2 : list byte := [Byte.x01; Byte.x02].
Definition example_log : log := MkLog 0 [frame1; frame2].

(** No journal yet, and the journal of [example_log] *)
Definition no_journal : world := World ∅ [] false [].
Definition example_world : world :=
  World {[path example_file := log_bytes example_file example_log []]} [] false [].

Lemma example_version : valid_version example_file.
Proof. vm_compute. split; [discriminate|reflexivity]. Qed.

Lemma valid_frame_dec f : (0 <? Z.of_nat (length f)) && (Z.of_nat (length f) <=? u32_MAX) = true -> valid_frame f.
Proof. unfold valid_frame. by intros [?%Z.ltb_lt ?%Z.leb_le]%andb_prop. Qed.

Lemma example_log_ok : well_formed example_file example_log [].
Proof.
  split; [unfold u64, u64_MAX; simpl; lia|]. split; [repeat constructor; by apply valid_frame_dec|].
  split; [apply torn_nil|]. vm_compute. discriminate.
Qed.

Lemma no_journal_empty : represents example_file no_journal empty_log [].
Proof. split; [|by right]. apply well_formed_empty. vm_compute. discriminate. Qed.

Lemma example_world_file : files example_world !! path example_file = Some (log_bytes example_file example_log []).
Proof. apply lookup_insert_eq. Qed.

Lemma faultless_no_script w : script w = [] -> faultless w.
Proof. unfold faultless. by intros ->. Qed.

Lemma header_accepts_exactly_witness :
  decode_file_header_classified example_file (header example_file 5 ++ [Byte.x00]) = Ok (5, 26%nat).
Proof.
  apply (header_accepts_exactly example_file); [apply example_version|]. split; [done|right].
  split; [unfold u64, u64_MAX; lia|]. exists (header example_file 5), [Byte.x00].
  split; [|done]. apply encode_file_header_Ok.
Defined.

Lemma header_damage_detected_witness :
  exists expected actual,
    decode_file_header_classified example_file
      ((SingleAuthority.SINGLE_AUTHORITY_JOURNAL_FILE_MAGIC ++ [Byte.x00; Byte.x03] ++ to_be_bytes 8 5) ++
       to_be_bytes 8 (checksum64_value (header_body example_file 5)) ++ frame1) =
    Err (ChecksumMismatch expected actual).
Proof.
  apply (header_damage_detected example_file 5 SingleAuthority.SINGLE_AUTHORITY_JOURNAL_FILE_MAGIC
    [Byte.x00; Byte.x02] [Byte.x00; Byte.x03] (to_be_bytes 8 5)
    (to_be_bytes 8 (checksum64_value (header_body example_file 5))) frame1);
    [apply encode_file_header_Ok|apply length_to_be_bytes|done|simpl; lia|discriminate].
Defined.

(** A log with a torn tail is replayed; a file at the end of the offsets panics. *)
Lemma replay_any_file_witness :
  replay_bytes example_file (log_bytes example_file example_log [Byte.x00]) 0 =
    Ok (MkFrames [frame1; frame2] 27 true) /\
  replay_bytes example_file (header example_file (2 ^ 64 - 10) ++ frame_record frame1) (2 ^ 64 - 10) = Panic.
Proof.
  split.
  - refine (proj2 (proj1 (replay_any_file example_file _ 0 example_version _ _) _) _);
      [unfold u64, u64_MAX; lia|vm_compute; discriminate|]. right. exists 0, [], [Byte.x00].
    split; [done|]. split; [unfold u64, u64_MAX; lia|]. split; [done|].
    split; [repeat constructor; by apply valid_frame_dec|]. split; [left; simpl; lia|].
    split; [by vm_compute|]. split; [vm_compute; discriminate|done].
  - refine (proj2 (proj2 (proj2 (replay_any_file example_file _ _ example_version _ _))) _);
      [unfold u64, u64_MAX; lia|vm_compute; discriminate|]. split; [done|].
    exists (2 ^ 64 - 10), [], [frame1], []. split; [by rewrite frames_bytes_cons, !app_nil_r|].
    split; [unfold u64, u64_MAX; lia|]. split; [done|]. split; [repeat constructor; by apply valid_frame_dec|].
    vm_compute. reflexivity.
Defined.

Lemma append_frame_refines_witness : (append_frame example_file frame1 no_journal).1 = Ok ().
Proof.
  destruct (append_frame_refines example_file no_journal empty_log frame1 example_version eq_refl
    no_journal_empty) as (_ & _ & Hok); [vm_compute; discriminate|].
  apply Hok; [by apply faultless_no_script|by apply valid_frame_dec].
Defined.

Lemma compact_through_refines_witness : (compact_through example_file 17 example_world).1 = Ok ().
Proof.
  destruct (compact_through_refines example_file example_world example_log [frame1] [frame2] []
    example_version eq_refl example_log_ok eq_refl example_world_file) as [(_ & _ & Hok) _].
  apply Hok. by apply faultless_no_script.
Defined.

Lemma replace_from_refines_witness : (replace_from example_file 17 27 [frame1] example_world).1 = Ok ().
Proof.
  destruct (replace_from_refines example_file example_world example_log 17 27 [frame1]
    example_version eq_refl example_log_ok) as (_ & _ & Hok).
  - vm_compute. split; discriminate.
  - split; [unfold u64, u64_MAX; simpl; lia|]. split; [repeat constructor; by apply valid_frame_dec|].
    split; [apply torn_nil|]. vm_compute. discriminate.
  - apply example_world_file.
  - apply Hok. by apply faultless_no_script.
Defined.

(** A store that serves a new journal, and the same store after one append *)
Definition new_store : store := MkStore no_journal true [] None 0.
Definition store_after_append : store :=
  after_append new_store frame1 (append_frame example_file frame1 no_journal).1
    (append_frame example_file frame1 no_journal).2.

Lemma new_store_initial : initial example_file new_store.
Proof. done. Qed.

Lemma store_after_append_reachable : rtc (step example_file) new_store store_after_append.
Proof.
  apply rtc_once, step_append; [done|vm_compute; discriminate|].
  apply surjective_pairing.
Qed.

Lemma journal_store_invariant_witness : store_inv example_file store_after_append.
Proof.
  apply (journal_store_invariant example_file new_store); [apply example_version|vm_compute; discriminate|
    apply new_store_initial|apply store_after_append_reachable].
Defined.


(** A journal at the end of the offset space *)
Definition last_world : world :=
  World {[path example_file := header example_file (2 ^ 64 - 10) ++ frame_record frame1]} [] false [].

Lemma read_frames_offset_overflow_witness :
  (read_frames_from example_file (2 ^ 64 - 10) last_world).1 = Panic.
Proof.
  destruct (read_frames_offset_overflow example_file last_world (2 ^ 64 - 10) frame1) as (_ & Hr & _);
    [apply example_version|unfold u64, u64_MAX; lia|by apply valid_frame_dec|vm_compute; discriminate|
     vm_compute; reflexivity|done|done|apply lookup_insert_eq|exact Hr].
Defined.
End JournalProps.
