(* ===== verification/Str.v ===== *)
(** Rust strings: [str] as the list of its code points, UTF-8 validation and
    encoding, the string methods the components use, and the decimal and
    hexadecimal texts of unsigned integers. *)

From Stdlib Require Import ZifyBool.
From stdpp Require Import strings.
From S2P Require Import Prelude.

Local Open Scope Z_scope.

Module Str.

(** A string is the list of its code points. *)
Definition str : Type := list Z.

(** ASCII literals *)
Definition lit (s : String.string) : str := (fun b => byte.unsigned b) <$> String.list_byte_of_string s.

#[global] Arguments lit s%_string.

(** ** UTF-8 *)

Definition in_range (x lo hi : Z) : bool := (lo <=? x) && (x <=? hi).
Definition is_cont (x : Z) : bool := in_range x 0x80 0xBF.

(** The second byte of a sequence of three or four bytes, after the first: no
    overlong forms, no surrogates, nothing above U+10FFFF *)
Definition second_ok (x0 x1 : Z) : bool :=
  if x0 =? 0xE0 then in_range x1 0xA0 0xBF
  else if x0 =? 0xED then in_range x1 0x80 0x9F
  else if x0 =? 0xF0 then in_range x1 0x90 0xBF
  else if x0 =? 0xF4 then in_range x1 0x80 0x8F
  else is_cont x1.

(** [std::str::from_utf8(bytes).ok()] *)
Fixpoint from_utf8 (bytes : list byte) : option str :=
  match bytes with
  | [] => Some []
  | b0 :: r0 =>
      let x0 := byte.unsigned b0 in
      if x0 <? 0x80 then cons x0 <$> from_utf8 r0 else
      match r0 with
      | [] => None
      | b1 :: r1 =>
          let x1 := byte.unsigned b1 in
          if in_range x0 0xC2 0xDF then
            if is_cont x1 then cons (Z.land x0 0x1F * 64 + Z.land x1 0x3F) <$> from_utf8 r1 else None
          else
          match r1 with
          | [] => None
          | b2 :: r2 =>
              let x2 := byte.unsigned b2 in
              if in_range x0 0xE0 0xEF then
                if second_ok x0 x1 && is_cont x2
                then cons ((Z.land x0 0x0F * 64 + Z.land x1 0x3F) * 64 + Z.land x2 0x3F) <$> from_utf8 r2
                else None
              else
              match r2 with
              | [] => None
              | b3 :: r3 =>
                  let x3 := byte.unsigned b3 in
                  if in_range x0 0xF0 0xF4 && second_ok x0 x1 && is_cont x2 && is_cont x3
                  then cons (((Z.land x0 0x07 * 64 + Z.land x1 0x3F) * 64 + Z.land x2 0x3F) * 64
                             + Z.land x3 0x3F) <$> from_utf8 r3
                  else None
              end
          end
      end
  end.

Definition char_bytes (c : Z) : list byte :=
  byte.of_Z <$>
  if c <? 0x80 then [c]
  else if c <? 0x800 then [0xC0 + c / 64; 0x80 + c mod 64]
  else if c <? 0x10000 then [0xE0 + c / 4096; 0x80 + c / 64 mod 64; 0x80 + c mod 64]
  else [0xF0 + c / 262144; 0x80 + c / 4096 mod 64; 0x80 + c / 64 mod 64; 0x80 + c mod 64].

(** [s.as_bytes()] *)
Definition as_bytes (s : str) : list byte := s ≫= char_bytes.

(** ** Methods *)

(** [char::is_whitespace]: the property White_Space *)
Definition is_whitespace (c : Z) : bool :=
  in_range c 9 13 || (c =? 32) || (c =? 0x85) || (c =? 0xA0) || (c =? 0x1680) ||
  in_range c 0x2000 0x200A || (c =? 0x2028) || (c =? 0x2029) || (c =? 0x202F) ||
  (c =? 0x205F) || (c =? 0x3000).

Fixpoint trim_start (s : str) : str :=
  match s with
  | c :: s' => if is_whitespace c then trim_start s' else s
  | [] => []
  end.

Definition trim (s : str) : str := rev (trim_start (rev (trim_start s))).

(** [s.split_once(c)] *)
Fixpoint split_once (c : Z) (s : str) : option (str * str) :=
  match s with
  | [] => None
  | x :: s' => if x =? c then Some ([], s') else '(a, b) ← split_once c s'; Some (x :: a, b)
  end.

(** [s.strip_prefix(p)] *)
Fixpoint strip_prefix (p s : str) : option str :=
  match p, s with
  | [], _ => Some s
  | x :: p', y :: s' => if x =? y then strip_prefix p' s' else None
  | _ :: _, [] => None
  end.

Definition to_ascii_lowercase (s : str) : str := (fun c => if in_range c 65 90 then c + 32 else c) <$> s.

(** [a.cmp(b)] is not greater: the order of the UTF-8 bytes is the order of the
    code points *)
Fixpoint str_le (a b : str) : bool :=
  match a, b with
  | [], _ => true
  | _ :: _, [] => false
  | x :: a', y :: b' => if x =? y then str_le a' b' else x <? y
  end.

(** ** Integers *)

Definition digit_value (c : Z) : option Z :=
  if in_range c 48 57 then Some (c - 48)
  else if in_range c 97 102 then Some (c - 87)
  else if in_range c 65 70 then Some (c - 55)
  else None.

Fixpoint parse_digits (radix max acc : Z) (s : str) : option Z :=
  match s with
  | [] => Some acc
  | c :: s' =>
      d ← digit_value c;
      if radix <=? d then None else
      let acc' := acc * radix + d in
      if acc' <=? max then parse_digits radix max acc' s' else None
  end.

(** [from_str_radix(s, radix).ok()] of an unsigned type with the given maximum:
    an optional plus sign, then at least one digit; overflow is an error *)
Definition from_str_radix (radix max : Z) (s : str) : option Z :=
  match s with
  | [] => None
  | [43] => None
  | 43 :: s' => parse_digits radix max 0 s'
  | _ => parse_digits radix max 0 s
  end.

(** The digits of a positive number, most significant first *)
Fixpoint digits_of (fuel : nat) (radix n : Z) (acc : str) : str :=
  match fuel with
  | O => acc
  | S fuel =>
      let d := n mod radix in
      let acc := (if d <? 10 then d + 48 else d + 87) :: acc in
      if n / radix =? 0 then acc else digits_of fuel radix (n / radix) acc
  end.

(** [format!("{n}")] and [format!("{n:x}")] of a 64-bit number: at most twenty
    decimal digits *)
Definition display_u64 (n : Z) : str := digits_of 20 10 n [].
Definition hex_u64 (n : Z) : str := digits_of 20 16 n [].

(** * Lemmas *)

Lemma split_once_app c a b : Forall (fun x => x <> c) a -> split_once c (a ++ c :: b) = Some (a, b).
Proof.
  induction 1 as [|x a Hx Ha IH]; simpl; [by rewrite Z.eqb_refl|].
  rewrite (proj2 (Z.eqb_neq _ _)) by done. by rewrite IH.
Qed.

Lemma split_once_None c s : Forall (fun x => x <> c) s -> split_once c s = None.
Proof. induction 1 as [|x a Hx Ha IH]; simpl; [done|]. rewrite (proj2 (Z.eqb_neq _ _)) by done. by rewrite IH. Qed.

Lemma split_once_Some c s a b : split_once c s = Some (a, b) <-> s = a ++ c :: b /\ Forall (fun x => x <> c) a.
Proof.
  split.
  - revert a. induction s as [|x s IH]; intros a H; simpl in H; [done|].
    destruct (Z.eqb_spec x c) as [->|Hx]; [injection H as <- <-; by split|].
    destruct (split_once c s) as [[a' b']|] eqn:Hs; [|done]. injection H as <- <-.
    destruct (IH a' eq_refl) as [-> Ha]. split; [done|]. by constructor.
  - intros [-> Ha]. by apply split_once_app.
Qed.

Lemma strip_prefix_app p s : strip_prefix p (p ++ s) = Some s.
Proof. induction p as [|x p IH]; simpl; [done|]. by rewrite Z.eqb_refl. Qed.

Lemma strip_prefix_Some p s r : strip_prefix p s = Some r <-> s = p ++ r.
Proof.
  split; [|intros ->; apply strip_prefix_app].
  revert s. induction p as [|x p IH]; intros [|y s]; simpl; try naive_solver.
  destruct (Z.eqb_spec x y); [|done]. intros Hs%IH. by subst.
Qed.

(** ASCII text is its own UTF-8 encoding. *)
Lemma from_utf8_ascii s :
  Forall (fun c => 0 <= c < 128) s -> from_utf8 (byte.of_Z <$> s) = Some s.
Proof.
  induction 1 as [|c s Hc Hs IH]; [done|]. rewrite fmap_cons. cbn [from_utf8].
  rewrite byte.unsigned_of_Z. unfold byte.wrap. rewrite Z.mod_small by lia.
  rewrite (proj2 (Z.ltb_lt _ _)) by lia. by rewrite IH.
Qed.

Lemma trim_no_whitespace s : Forall (fun c => is_whitespace c = false) s -> trim s = s.
Proof.
  assert (forall s, Forall (fun c => is_whitespace c = false) s -> trim_start s = s) as Hstart.
  { intros t [|c t' Hc _]; simpl; [done|]. by rewrite Hc. }
  intros Hs. unfold trim. rewrite (Hstart s Hs), Hstart; [apply rev_involutive|].
  by apply Forall_rev.
Qed.

(** ** Numbers *)

Definition digit_char (d : Z) : Z := if d <? 10 then d + 48 else d + 87.

Lemma digit_value_char d : 0 <= d < 16 -> digit_value (digit_char d) = Some d.
Proof.
  intros Hd. unfold digit_char, digit_value, in_range.
  destruct (Z.ltb_spec d 10).
  - rewrite (proj2 (Z.leb_le 48 _)), (proj2 (Z.leb_le _ 57)) by lia. simpl. f_equal. lia.
  - rewrite (proj2 (Z.leb_le 48 _)), (proj2 (Z.leb_gt _ 57)) by lia. simpl.
    rewrite (proj2 (Z.leb_le 97 _)), (proj2 (Z.leb_le _ 102)) by lia. simpl. f_equal. lia.
Qed.

Lemma digit_value_nonneg c d : digit_value c = Some d -> 0 <= d.
Proof. unfold digit_value, in_range. repeat case_match; intros [= <-]; lia. Qed.

Lemma parse_digits_range radix max s : forall acc n,
  0 <= radix -> 0 <= acc <= max -> parse_digits radix max acc s = Some n -> 0 <= n <= max.
Proof.
  induction s as [|c s IH]; intros acc n Hr Ha; simpl; [naive_solver|].
  destruct (digit_value c) as [d|] eqn:Hd; [|done]. simpl. apply digit_value_nonneg in Hd.
  destruct (radix <=? d); [done|]. destruct (Z.leb_spec (acc * radix + d) max); [|done].
  apply IH; [done|nia].
Qed.

Lemma from_str_radix_range radix max s n :
  0 <= radix -> 0 <= max -> from_str_radix radix max s = Some n -> 0 <= n <= max.
Proof.
  intros Hr Hm Hs. assert (exists t, parse_digits radix max 0 t = Some n) as [t Ht].
  { unfold from_str_radix in Hs. repeat case_match; by eauto. }
  eapply parse_digits_range; [exact Hr| |exact Ht]. lia.
Qed.

(** The value of a list of digits, and the digits [digits_of] makes *)
Definition digits_value (radix acc : Z) (ds : list Z) : Z := foldl (fun a d => a * radix + d) acc ds.

Lemma digits_value_ge radix ds : forall acc,
  1 <= radix -> 0 <= acc -> Forall (fun d => 0 <= d) ds -> acc <= digits_value radix acc ds.
Proof.
  induction ds as [|d ds IH]; intros acc Hr Ha Hd; simpl; [lia|].
  apply list.Forall_cons in Hd as [Hd Hds]. transitivity (acc * radix + d); [nia|]. apply IH; [done|nia|done].
Qed.

Lemma parse_digits_value radix max ds : forall acc,
  2 <= radix <= 16 -> 0 <= acc -> Forall (fun d => 0 <= d < radix) ds ->
  digits_value radix acc ds <= max ->
  parse_digits radix max acc (digit_char <$> ds) = Some (digits_value radix acc ds).
Proof.
  induction ds as [|d ds IH]; intros acc Hr Ha Hd Hmax; simpl; [done|].
  apply list.Forall_cons in Hd as [Hd Hds]. rewrite digit_value_char by lia. simpl.
  rewrite (proj2 (Z.leb_gt _ _)) by lia. simpl in Hmax.
  assert (acc * radix + d <= digits_value radix (acc * radix + d) ds)
    by (apply digits_value_ge; [lia|nia|eapply list.Forall_impl; [exact Hds|simpl; intros; lia]]).
  rewrite (proj2 (Z.leb_le _ _)) by lia. apply IH; [lia|nia|done|done].
Qed.

Lemma digits_of_spec radix fuel : forall n acc,
  2 <= radix <= 16 -> 0 <= n < radix ^ Z.of_nat fuel ->
  exists ds, digits_of fuel radix n acc = (digit_char <$> ds) ++ acc /\
    Forall (fun d => 0 <= d < radix) ds /\ digits_value radix 0 ds = n /\ (0 < fuel -> ds <> [])%nat.
Proof.
  induction fuel as [|fuel IH]; intros n acc Hr Hn.
  { exists []. simpl. split; [done|]. split; [done|]. change (radix ^ Z.of_nat 0) with 1 in Hn.
    split; [simpl; lia|intros; lia]. }
  simpl. fold (digit_char (n mod radix)). pose proof (Z.mod_pos_bound n radix ltac:(lia)).
  pose proof (Z.div_mod n radix ltac:(lia)) as Hdm.
  destruct (Z.eqb_spec (n / radix) 0) as [Hz|Hz].
  - exists [n mod radix]. split; [done|]. split; [by repeat constructor; lia|]. split; [simpl; lia|done].
  - destruct (IH (n / radix) (digit_char (n mod radix) :: acc)) as (ds & Heq & Hds & Hv & _); [lia| |].
    { split; [apply Z.div_pos; lia|]. apply Z.div_lt_upper_bound; [lia|].
      rewrite <-Z.pow_succ_r by lia. rewrite <-Nat2Z.inj_succ. lia. }
    exists (ds ++ [n mod radix]). rewrite Heq, fmap_app, <-app_assoc. split; [done|].
    split; [by apply list.Forall_app; split; [|repeat constructor; lia]|]. split.
    + unfold digits_value in *. rewrite foldl_app, Hv. simpl. lia.
    + intros _ Hnil. by apply app_eq_nil in Hnil as [_ ?].
Qed.

Lemma from_str_radix_digit radix max c s :
  c <> 43 -> from_str_radix radix max (c :: s) = parse_digits radix max 0 (c :: s).
Proof.
  intros Hc. destruct c as [|p|p]; [done| |done]. do 6 (destruct p as [p|p|]; try reflexivity). congruence.
Qed.

(** Printing and parsing of a 64-bit number; the text is made of digits. *)
Lemma print_parse radix n :
  (radix = 10 \/ radix = 16) -> 0 <= n < 2 ^ 64 ->
  let s := digits_of 20 radix n [] in
  from_str_radix radix (2 ^ 64 - 1) s = Some n /\ s <> [] /\
  Forall (fun c => 48 <= c <= 57 \/ 97 <= c <= 102) s /\ trim s = s.
Proof.
  intros Hr Hn s.
  destruct (digits_of_spec radix 20 n [] ltac:(lia)) as (ds & Heq & Hds & Hv & Hne).
  { split; [lia|]. destruct Hr as [->| ->]; [|]; simpl; lia. }
  rewrite app_nil_r in Heq. specialize (Hne ltac:(lia)).
  assert (Forall (fun c => 48 <= c <= 57 \/ 97 <= c <= 102) s) as Hs.
  { unfold s. rewrite Heq. apply list.Forall_fmap. eapply list.Forall_impl; [exact Hds|]. simpl. intros d Hd.
    unfold digit_char. destruct (Z.ltb_spec d 10); lia. }
  assert (s <> []) as Hsne by (unfold s; rewrite Heq; by destruct ds).
  split; [|split; [done|split; [done|]]].
  - assert (parse_digits radix (2 ^ 64 - 1) 0 s = Some n) as Hp.
    { unfold s. rewrite Heq, parse_digits_value; [by rewrite Hv|lia|lia|done|rewrite Hv; lia]. }
    destruct s as [|c s']; [done|]. apply list.Forall_cons in Hs as [Hc _].
    rewrite from_str_radix_digit by lia. exact Hp.
  - apply trim_no_whitespace. eapply list.Forall_impl; [exact Hs|]. simpl. intros c Hc.
    unfold is_whitespace, in_range. lia.
Qed.

Lemma digits_of_length radix k : forall fuel n acc,
  2 <= radix -> (1 <= k)%nat -> 0 <= n < radix ^ Z.of_nat k ->
  (length (digits_of fuel radix n acc) <= k + length acc)%nat.
Proof.
  induction k as [|k IH]; intros fuel n acc Hr Hk Hn; [lia|]. destruct fuel as [|fuel]; simpl; [lia|].
  destruct (Z.eqb_spec (n / radix) 0) as [Hz|Hz]; [simpl; lia|].
  destruct k as [|k].
  { change (Z.of_nat 1) with 1 in Hn. rewrite Z.pow_1_r in Hn. rewrite Z.div_small in Hz by lia. done. }
  etransitivity; [apply IH|simpl; lia]; [done|lia|]. split; [apply Z.div_pos; lia|].
  apply Z.div_lt_upper_bound; [lia|]. rewrite <-Z.pow_succ_r, <-Nat2Z.inj_succ by lia. lia.
Qed.

Lemma parse_digits_zeros radix max k s : 0 < radix -> 0 <= max ->
  parse_digits radix max 0 (replicate k 48 ++ s) = parse_digits radix max 0 s.
Proof.
  intros Hr Hm. induction k as [|k IH]; [done|]. simpl. change (digit_value 48) with (Some 0). cbn [mbind option_bind].
  rewrite (proj2 (Z.leb_gt _ _)) by lia. change (0 * radix + 0) with 0. rewrite (proj2 (Z.leb_le _ _)) by lia. exact IH.
Qed.

(** ** Trimming *)

Definition white (c : Z) : Prop := is_whitespace c = true.
Definition black (c : Z) : Prop := is_whitespace c = false.

Definition trim_end (s : str) : str := rev (trim_start (rev s)).

Lemma trim_start_idem s : trim_start (trim_start s) = trim_start s.
Proof. induction s as [|c s IH]; [done|]. simpl. destruct (is_whitespace c) eqn:E; [done|]. simpl. by rewrite E. Qed.

Lemma trim_end_snoc s w : white w -> trim_end (s ++ [w]) = trim_end s.
Proof. intros Hw. unfold trim_end. rewrite rev_app_distr. simpl. by rewrite Hw. Qed.

Lemma trim_end_snoc_black s c : black c -> trim_end (s ++ [c]) = s ++ [c].
Proof. intros Hc. unfold trim_end. rewrite rev_app_distr. simpl. rewrite Hc. simpl. by rewrite rev_involutive. Qed.

Lemma trim_end_head c s : black c -> exists s', trim_end (c :: s) = c :: s'.
Proof.
  intros Hc. induction s as [|w s IH] using rev_ind; [by exists []; apply (trim_end_snoc_black [])|].
  destruct (is_whitespace w) eqn:Hw.
  - rewrite app_comm_cons, trim_end_snoc by done. exact IH.
  - exists (s ++ [w]). by rewrite app_comm_cons, trim_end_snoc_black.
Qed.

Lemma trim_idem s : trim (trim s) = trim s.
Proof.
  unfold trim. fold (trim_end (trim_start s)).
  assert (trim_start (trim_end (trim_start s)) = trim_end (trim_start s)) as ->.
  { destruct (trim_start s) as [|c t] eqn:E; [done|]. assert (black c) as Hc.
    { pose proof (trim_start_idem s) as Hi. rewrite E in Hi. simpl in Hi. unfold black.
      destruct (is_whitespace c); [|done]. apply (f_equal length) in Hi. clear -Hi.
      exfalso. assert (forall t, length (trim_start t) <= length t)%nat as Hle.
      { intros u. induction u as [|x u IH]; simpl; [lia|]. destruct (is_whitespace x); simpl; lia. }
      specialize (Hle t). simpl in Hi. lia. }
    destruct (trim_end_head c t Hc) as [t' Ht]. rewrite Ht. simpl. by rewrite Hc. }
  unfold trim_end. by rewrite rev_involutive, trim_start_idem.
Qed.

Lemma trim_cons_white w s : white w -> trim (w :: s) = trim s.
Proof. intros Hw. unfold trim. simpl. by rewrite Hw. Qed.

Lemma trim_snoc_white s w : white w -> trim (s ++ [w]) = trim s.
Proof.
  intros Hw. unfold trim. fold (trim_end (trim_start (s ++ [w]))) (trim_end (trim_start s)).
  induction s as [|c s IH]; simpl; [by rewrite Hw|]. destruct (is_whitespace c); [exact IH|].
  by rewrite app_comm_cons, trim_end_snoc.
Qed.

Lemma trim_pad a s b : Forall white a -> Forall white b -> trim (a ++ s ++ b) = trim s.
Proof.
  intros Ha Hb. induction Ha as [|w a Hw _ IH]; simpl; [|by rewrite trim_cons_white].
  induction b as [|w b IH] using rev_ind; [by rewrite app_nil_r|]. apply list.Forall_app in Hb as [Hb Hw].
  inversion_clear Hw. rewrite app_assoc, trim_snoc_white by done. by apply IH.
Qed.

Lemma trim_black_ends c s e : black c -> black e -> trim (c :: s ++ [e]) = c :: s ++ [e].
Proof. intros Hc He. unfold trim. simpl trim_start at 2. rewrite Hc. exact (trim_end_snoc_black (c :: s) e He). Qed.

(** ** ASCII *)

Definition ascii (c : Z) : Prop := 0 <= c < 128.

Lemma as_bytes_ascii s : Forall ascii s -> as_bytes s = byte.of_Z <$> s.
Proof.
  unfold as_bytes. induction 1 as [|c s Hc _ IH]; [done|]. unfold ascii in Hc. rewrite bind_cons, IH. unfold char_bytes.
  by rewrite (proj2 (Z.ltb_lt _ _)) by lia.
Qed.

End Str.
