(* ===== verification/Utf8.v ===== *)
(** UTF-8 of [Str] is an encoding: decoding inverts encoding, and what decodes is the
    encoding of what it decodes to. *)

From Stdlib Require Import ZifyBool.
From S2P Require Import Prelude Str.

Local Open Scope Z_scope.

Module Utf8.
Import Str.

(** A Unicode scalar value: the values of [char] *)
Definition scalar (c : Z) : Prop := 0 <= c < 0xD800 \/ 0xE000 <= c <= 0x10FFFF.

Lemma land_mask x k : 0 <= k -> Z.land x (Z.ones k) = x mod 2 ^ k.
Proof. intros. by rewrite Z.land_ones. Qed.

Lemma land_3F x : Z.land x 0x3F = x mod 64.
Proof. exact (land_mask x 6 ltac:(done)). Qed.
Lemma land_1F x : Z.land x 0x1F = x mod 32.
Proof. exact (land_mask x 5 ltac:(done)). Qed.
Lemma land_0F x : Z.land x 0x0F = x mod 16.
Proof. exact (land_mask x 4 ltac:(done)). Qed.
Lemma land_07 x : Z.land x 0x07 = x mod 8.
Proof. exact (land_mask x 3 ltac:(done)). Qed.

Lemma unsigned_of_Z x : 0 <= x < 256 -> byte.unsigned (byte.of_Z x) = x.
Proof. intros. rewrite byte.unsigned_of_Z. unfold byte.wrap. apply Z.mod_small. lia. Qed.

Lemma of_Z_unsigned_eq b x : byte.unsigned b = x -> byte.of_Z x = b.
Proof. intros <-. apply byte.of_Z_unsigned. Qed.

Lemma second_ok_spec x0 x1 :
  second_ok x0 x1 = true <->
  0x80 <= x1 <= 0xBF /\ (x0 = 0xE0 -> 0xA0 <= x1) /\ (x0 = 0xED -> x1 <= 0x9F) /\
  (x0 = 0xF0 -> 0x90 <= x1) /\ (x0 = 0xF4 -> x1 <= 0x8F).
Proof.
  unfold second_ok, is_cont, in_range. destruct (Z.eqb_spec x0 0xE0), (Z.eqb_spec x0 0xED),
    (Z.eqb_spec x0 0xF0), (Z.eqb_spec x0 0xF4); lia.
Qed.

Ltac utf8_arith :=
  rewrite ?land_3F, ?land_1F, ?land_0F, ?land_07;
  unfold is_cont, in_range in *; Z.to_euclidean_division_equations; lia.

Lemma from_utf8_char c r : scalar c -> from_utf8 (char_bytes c ++ r) = cons c <$> from_utf8 r.
Proof.
  unfold scalar, char_bytes. intros Hc.
  destruct (Z.ltb_spec c 0x80); [|destruct (Z.ltb_spec c 0x800); [|destruct (Z.ltb_spec c 0x10000)]];
    cbn [fmap list_fmap app from_utf8].
  - rewrite unsigned_of_Z by lia. by rewrite (proj2 (Z.ltb_lt _ _)) by lia.
  - rewrite !unsigned_of_Z by utf8_arith.
    replace (0xC0 + c / 64 <? 0x80) with false by utf8_arith.
    replace (in_range (0xC0 + c / 64) 0xC2 0xDF) with true by utf8_arith.
    replace (is_cont (0x80 + c mod 64)) with true by utf8_arith. do 2 f_equal. utf8_arith.
  - rewrite !unsigned_of_Z by utf8_arith.
    replace (0xE0 + c / 4096 <? 0x80) with false by utf8_arith.
    replace (in_range (0xE0 + c / 4096) 0xC2 0xDF) with false by utf8_arith.
    replace (in_range (0xE0 + c / 4096) 0xE0 0xEF) with true by utf8_arith.
    rewrite (proj2 (second_ok_spec _ _)) by utf8_arith.
    replace (is_cont (0x80 + c mod 64)) with true by utf8_arith. cbn [andb].
    do 2 f_equal. utf8_arith.
  - rewrite !unsigned_of_Z by utf8_arith.
    replace (0xF0 + c / 262144 <? 0x80) with false by utf8_arith.
    replace (in_range (0xF0 + c / 262144) 0xC2 0xDF) with false by utf8_arith.
    replace (in_range (0xF0 + c / 262144) 0xE0 0xEF) with false by utf8_arith.
    rewrite (proj2 (second_ok_spec _ _)) by utf8_arith.
    replace (in_range (0xF0 + c / 262144) 0xF0 0xF4) with true by utf8_arith.
    replace (is_cont (0x80 + c / 64 mod 64)) with true by utf8_arith.
    replace (is_cont (0x80 + c mod 64)) with true by utf8_arith. cbn [andb].
    do 2 f_equal. utf8_arith.
Qed.

Lemma from_utf8_as_bytes s : Forall scalar s -> from_utf8 (as_bytes s) = Some s.
Proof.
  unfold as_bytes. induction 1 as [|c s Hc _ IH]; [done|]. rewrite bind_cons, from_utf8_char by done. by rewrite IH.
Qed.

(** The four shapes of a sequence *)
Lemma from_utf8_cons b r s :
  from_utf8 (b :: r) = Some s ->
  exists c r' s', b :: r = char_bytes c ++ r' /\ scalar c /\ s = c :: s' /\ from_utf8 r' = Some s' /\
    (length r' <= length r)%nat.
Proof.
  cbn [from_utf8]. pose proof (byte.unsigned_range b) as R0.
  destruct (Z.ltb_spec (byte.unsigned b) 0x80).
  { intros (s' & Hs & ->)%fmap_Some. exists (byte.unsigned b), r, s'. unfold char_bytes, scalar.
    rewrite (proj2 (Z.ltb_lt _ _)) by lia. cbn. rewrite byte.of_Z_unsigned. repeat split; done || lia. }
  destruct r as [|b1 r1]; [done|]. pose proof (byte.unsigned_range b1) as R1.
  destruct (in_range (byte.unsigned b) 0xC2 0xDF) eqn:H2.
  { destruct (is_cont (byte.unsigned b1)) eqn:C1; [|done]. intros (s' & Hs & ->)%fmap_Some.
    set (c := _ + _). assert (0x80 <= c < 0x800) by (unfold c; utf8_arith).
    exists c, r1, s'. unfold char_bytes, scalar.
    rewrite (proj2 (Z.ltb_ge _ _)), (proj2 (Z.ltb_lt c 0x800)) by lia. cbn [fmap list_fmap app].
    rewrite (of_Z_unsigned_eq b), (of_Z_unsigned_eq b1) by (unfold c; utf8_arith). repeat split; [lia|done|simpl; lia]. }
  destruct r1 as [|b2 r2]; [done|]. pose proof (byte.unsigned_range b2) as R2.
  destruct (in_range (byte.unsigned b) 0xE0 0xEF) eqn:H3.
  { destruct (second_ok _ _) eqn:C1; [|done]. destruct (is_cont (byte.unsigned b2)) eqn:C2; [|done]. cbn [andb].
    intros (s' & Hs & ->)%fmap_Some. apply second_ok_spec in C1.
    set (c := _ + _). assert (0x800 <= c < 0x10000 /\ ~ 0xD800 <= c < 0xE000) by (unfold c; utf8_arith).
    exists c, r2, s'. unfold char_bytes, scalar.
    rewrite (proj2 (Z.ltb_ge c 0x80)), (proj2 (Z.ltb_ge c 0x800)), (proj2 (Z.ltb_lt c 0x10000)) by lia.
    cbn [fmap list_fmap app]. rewrite (of_Z_unsigned_eq b), (of_Z_unsigned_eq b1), (of_Z_unsigned_eq b2) by (unfold c; utf8_arith).
    repeat split; [lia|done|simpl; lia]. }
  destruct r2 as [|b3 r3]; [done|]. pose proof (byte.unsigned_range b3) as R3.
  destruct (in_range (byte.unsigned b) 0xF0 0xF4) eqn:H4; [|done]. destruct (second_ok _ _) eqn:C1; [|done].
  destruct (is_cont (byte.unsigned b2)) eqn:C2; [|done]. destruct (is_cont (byte.unsigned b3)) eqn:C3; [|done]. cbn [andb].
  intros (s' & Hs & ->)%fmap_Some. apply second_ok_spec in C1.
  set (c := _ + _). assert (0x10000 <= c <= 0x10FFFF) by (unfold c; utf8_arith).
  exists c, r3, s'. unfold char_bytes, scalar.
  rewrite (proj2 (Z.ltb_ge c 0x80)), (proj2 (Z.ltb_ge c 0x800)), (proj2 (Z.ltb_ge c 0x10000)) by lia.
  cbn [fmap list_fmap app].
  rewrite (of_Z_unsigned_eq b), (of_Z_unsigned_eq b1), (of_Z_unsigned_eq b2), (of_Z_unsigned_eq b3) by (unfold c; utf8_arith).
  repeat split; [lia|done|simpl; lia].
Qed.

Lemma from_utf8_Some bytes s : from_utf8 bytes = Some s <-> Forall scalar s /\ bytes = as_bytes s.
Proof.
  split; [|intros [Hs ->]; by apply from_utf8_as_bytes].
  remember (length bytes) as n eqn:Hn. assert (length bytes <= n)%nat as Hle by lia. clear Hn.
  revert bytes s Hle. induction n as [|n IH]; intros [|b r] s Hle; simpl in Hle; try lia; try by intros [= <-].
  intros (c & r' & s' & -> & Hc & -> & Hr & Hl)%from_utf8_cons.
  destruct (IH r' s' ltac:(lia) Hr) as [Hs ->]. split; [by constructor|]. unfold as_bytes. by rewrite bind_cons.
Qed.

Lemma as_bytes_inj s1 s2 : Forall scalar s1 -> Forall scalar s2 -> as_bytes s1 = as_bytes s2 -> s1 = s2.
Proof. intros H1 H2 Heq. apply from_utf8_as_bytes in H1, H2. congruence. Qed.

End Utf8.
