(* ===== verification/HttpDate.v ===== *)
(** HTTP dates, crates/server-http/src/http/response.rs: the civil calendar, the
    formatter and the parser, with the theorems that the calendar is the Gregorian one
    and that parsing inverts formatting. *)

From Stdlib Require Import ZifyBool.
From stdpp Require Import strings.
From S2P Require Import Prelude Machine Str Utf8.

Local Open Scope Z_scope.

Module HttpDate.
Import Machine Str Utf8.

Definition U32_MAX : Z := 2 ^ 32 - 1.
Definition I64_MAX : Z := 2 ^ 63 - 1.

(** Arithmetic on u32 and i64 that panics on overflow; [as u32] wraps *)
Definition add32 {E} (a b : Z) : outcome E Z := if a + b <=? U32_MAX then Ok (a + b) else Panic.
Definition sub32 {E} (a b : Z) : outcome E Z := if b <=? a then Ok (a - b) else Panic.
Definition addi64 {E} (a b : Z) : outcome E Z :=
  if (- 2 ^ 63 <=? a + b) && (a + b <=? I64_MAX) then Ok (a + b) else Panic.
Definition as_u32 (a : Z) : Z := a mod 2 ^ 32.
Definition mul64 {E} (a b : Z) : outcome E Z := unwrap (checked_mul64 a b).

Definition days_to_date {E} (days : Z) : outcome E (Z * Z * Z) :=
  z ← addi64 days 719468;
  let era := Z.quot (if 0 <=? z then z else z - 146096) 146097 in
  let doe := as_u32 (z - era * 146097) in
  n ← sub32 doe (doe / 1460);
  n ← add32 n (doe / 36524);
  n ← sub32 n (doe / 146096);
  let yoe := n / 365 in
  let y := yoe + era * 400 in
  n ← sub32 (365 * yoe + yoe / 4) (yoe / 100);
  doy ← sub32 doe n;
  let mp := (5 * doy + 2) / 153 in
  n ← sub32 doy ((153 * mp + 2) / 5);
  d ← add32 n 1;
  m ← (if mp <? 10 then add32 mp 3 else sub32 mp 9);
  let y := if m <=? 2 then y + 1 else y in
  mret (y, m, d).

(** The callers pass months up to twelve. *)
Definition date_to_days {E} (year month day : Z) : outcome E Z :=
  y ← (if month <=? 2 then addi64 year (-1) else mret year);
  n ← (if 0 <=? y then mret y else addi64 y (-399));
  let era := Z.quot n 400 in
  let yoe := as_u32 (y - era * 400) in
  m ← (if 2 <? month then sub32 month 3 else add32 month 9);
  n ← add32 ((153 * m + 2) / 5) day;
  doy ← sub32 n 1;
  n ← add32 (yoe * 365) (yoe / 4);
  n ← sub32 n (yoe / 100);
  doe ← add32 n doy;
  n ← addi64 (era * 146097) doe;
  addi64 n (-719468).

Definition weekdays : list str := lit <$> ["Sun"; "Mon"; "Tue"; "Wed"; "Thu"; "Fri"; "Sat"].
Definition months : list str :=
  lit <$> ["Jan"; "Feb"; "Mar"; "Apr"; "May"; "Jun"; "Jul"; "Aug"; "Sep"; "Oct"; "Nov"; "Dec"].

(** [format!("{n:0w}")] of a number that is not negative *)
Definition pad (w : nat) (n : Z) : str := replicate (w - length (display_u64 n)) 48 ++ display_u64 n.

Definition format_http_date {E} (millis : Z) : outcome E str :=
  let secs := millis / 1000 in
  let days_since_epoch := secs / 86400 in
  let time_of_day := secs mod 86400 in
  let hours := time_of_day / 3600 in
  let minutes := time_of_day mod 3600 / 60 in
  let seconds := time_of_day mod 60 in
  w ← add64 days_since_epoch 4;
  let weekday := w mod 7 in
  date ← days_to_date days_since_epoch;
  let '(year, month, day) := date in
  wd ← idx weekdays (Z.to_nat weekday);
  mi ← sub32 month 1;
  mon ← idx months (Z.to_nat mi);
  mret (wd ++ lit ", " ++ pad 2 day ++ lit " " ++ mon ++ lit " " ++ pad 4 year ++ lit " "
        ++ pad 2 hours ++ lit ":" ++ pad 2 minutes ++ lit ":" ++ pad 2 seconds ++ lit " GMT").

(** [s.parse::<i64>().ok()] *)
Definition parse_i64 (s : str) : option Z :=
  match s with
  | 45 :: [] => None
  | 45 :: s' => Z.opp <$> parse_digits 10 (2 ^ 63) 0 s'
  | _ => from_str_radix 10 I64_MAX s
  end.

(** [iter().position(|m| m == x)] *)
Fixpoint position (x : str) (l : list str) : option Z :=
  match l with
  | [] => None
  | y :: l' => if bool_decide (y = x) then Some 0 else Z.succ <$> position x l'
  end.

(** [std::str::from_utf8(bytes.get(a..b)?).ok()?] *)
Definition text_at (bytes : list byte) (a b : Z) : option str := r ← get_range bytes a b; from_utf8 r.

(** [?] on an option in a function that returns an option *)
Definition try_opt {A} (o : option A) : outcome () A := ok_or o ().

(** [None] is [Err ()]. *)
Definition parse_http_date (s : str) : outcome () Z :=
  let s := trim s in
  let bytes := as_bytes s in
  _ ← guard_err (len bytes <? 29) ();
  e ← try_opt (checked_sub64 (len bytes) 3);
  last ← index_range bytes e (len bytes);
  _ ← guard_err (bool_decide (last <> as_bytes (lit "GMT"))) ();
  day ← try_opt (t ← text_at bytes 5 7; from_str_radix 10 U32_MAX t);
  month_str ← try_opt (text_at bytes 8 11);
  year ← try_opt (t ← text_at bytes 12 16; parse_i64 t);
  hours ← try_opt (t ← text_at bytes 17 19; from_str_radix 10 MAX64 t);
  minutes ← try_opt (t ← text_at bytes 20 22; from_str_radix 10 MAX64 t);
  seconds ← try_opt (t ← text_at bytes 23 25; from_str_radix 10 MAX64 t);
  p ← try_opt (position month_str months);
  month ← add32 (as_u32 p) 1;
  _ ← guard_err ((24 <=? hours) || (60 <=? minutes) || (60 <=? seconds) || (day =? 0) || (31 <? day) || (12 <? month)) ();
  days ← date_to_days year month day;
  _ ← guard_err (days <? 0) ();
  a ← mul64 days 86400;
  b ← mul64 hours 3600;
  n ← add64 a b;
  b ← mul64 minutes 60;
  n ← add64 n b;
  secs ← add64 n seconds;
  mul64 secs 1000.

(** * The Gregorian calendar *)

Definition is_leap (y : Z) : bool := ((y mod 4 =? 0) && negb (y mod 100 =? 0)) || (y mod 400 =? 0).

Definition month_len (y m : Z) : Z :=
  if m =? 2 then (if is_leap y then 29 else 28)
  else if (m =? 4) || (m =? 6) || (m =? 9) || (m =? 11) then 30 else 31.

Definition next_date (date : Z * Z * Z) : Z * Z * Z :=
  let '(y, m, d) := date in
  if d <? month_len y m then (y, m, d + 1)
  else if m <? 12 then (y, m + 1, 1) else (y + 1, 1, 1).

(** The date [n] days after 1 January 1970 *)
Definition calendar (n : nat) : Z * Z * Z := Nat.iter n next_date (1970, 1, 1).

Definition valid_date (date : Z * Z * Z) : Prop :=
  let '(y, m, d) := date in 1970 <= y /\ 1 <= m <= 12 /\ 1 <= d <= month_len y m.

(** The number of a date: years and months counted from March *)
Definition day_number (date : Z * Z * Z) : Z :=
  let '(y, m, d) := date in
  let y' := if m <=? 2 then y - 1 else y in
  let mp := if m <=? 2 then m + 9 else m - 3 in
  365 * y' + y' / 4 - y' / 100 + y' / 400 + (153 * mp + 2) / 5 + d - 1 - 719468.

Lemma next_date_valid date : valid_date date -> valid_date (next_date date).
Proof.
  destruct date as [[y m] d]. unfold valid_date, next_date. intros (Hy & Hm & Hd).
  destruct (Z.ltb_spec d (month_len y m)); [lia|]. destruct (Z.ltb_spec m 12); repeat split; try lia;
    unfold month_len; repeat case_match; lia.
Qed.

Ltac month_cases m := assert (m = 1 \/ m = 2 \/ m = 3 \/ m = 4 \/ m = 5 \/ m = 6 \/ m = 7 \/ m = 8 \/ m = 9 \/
  m = 10 \/ m = 11 \/ m = 12) as Hmonth by lia; repeat (destruct Hmonth as [-> | Hmonth]); [..|subst m].

Lemma day_number_next date : valid_date date -> day_number (next_date date) = day_number date + 1.
Proof.
  destruct date as [[y m] d]. unfold valid_date, next_date. intros (Hy & Hm & Hd).
  destruct (Z.ltb_spec d (month_len y m)); [unfold day_number; destruct (m <=? 2); lia|].
  assert (d = month_len y m) as -> by lia. clear Hd H. unfold month_len, is_leap.
  month_cases m; cbn -[Z.add Z.sub Z.mul Z.div Z.modulo]; unfold day_number; cbn -[Z.add Z.sub Z.mul Z.div Z.modulo];
    repeat case_match; Z.to_euclidean_division_equations; lia.
Qed.

Lemma add32_Ok {E} a b : a + b <= U32_MAX -> add32 (E:=E) a b = Ok (a + b).
Proof. intros H. unfold add32. by rewrite (proj2 (Z.leb_le _ _)). Qed.

Lemma sub32_Ok {E} a b : b <= a -> sub32 (E:=E) a b = Ok (a - b).
Proof. intros H. unfold sub32. by rewrite (proj2 (Z.leb_le _ _)). Qed.

Lemma addi64_Ok {E} a b : - 2 ^ 63 <= a + b <= I64_MAX -> addi64 (E:=E) a b = Ok (a + b).
Proof. intros H. unfold addi64. by rewrite (proj2 (Z.leb_le (- 2 ^ 63) _)), (proj2 (Z.leb_le _ I64_MAX)) by lia. Qed.

Lemma mul64_Ok {E} a b : a * b <= MAX64 -> mul64 (E:=E) a b = Ok (a * b).
Proof. intros H. unfold mul64. by rewrite checked_mul64_Some. Qed.

(** The year of an era from the day of the era *)
Lemma year_of_era yoe doy doe :
  0 <= yoe < 400 -> 0 <= doy <= 365 ->
  (doy = 365 -> (yoe + 1) mod 4 = 0 /\ ((yoe + 1) mod 100 <> 0 \/ yoe = 399)) ->
  doe = 365 * yoe + yoe / 4 - yoe / 100 + doy ->
  (doe - doe / 1460 + doe / 36524 - doe / 146096) / 365 = yoe.
Proof.
  intros H1 H2 H3 H4.
  assert (yoe / 100 = 0 \/ yoe / 100 = 1 \/ yoe / 100 = 2 \/ yoe / 100 = 3) as Hc by (Z.to_euclidean_division_equations; lia).
  destruct (Z.eq_dec doy 365) as [->|]; [specialize (H3 eq_refl)|clear H3];
    destruct Hc as [Hc|[Hc|[Hc|Hc]]]; rewrite Hc in H4; Z.to_euclidean_division_equations; lia.
Qed.

(** A valid date counted from March: the year of the era, the month and the day of the
    year *)
Lemma march_date y m d :
  valid_date (y, m, d) ->
  let y' := if m <=? 2 then y - 1 else y in
  let mp := if m <=? 2 then m + 9 else m - 3 in
  let doy := (153 * mp + 2) / 5 + d - 1 in
  0 <= doy <= 365 /\ (5 * doy + 2) / 153 = mp /\
  (doy = 365 -> (y' + 1) mod 4 = 0 /\ ((y' + 1) mod 100 <> 0 \/ (y' + 1) mod 400 = 0)).
Proof.
  unfold valid_date, month_len, is_leap. intros (Hy & Hm & Hd).
  month_cases m; cbn -[Z.add Z.sub Z.mul Z.div Z.modulo] in *; repeat case_match; Z.to_euclidean_division_equations; lia.
Qed.

(** The largest day number: beyond the days a 64-bit count of milliseconds reaches *)
Definition MAX_DAYS : Z := 2 ^ 40.

Lemma days_to_date_parts {E} era yoe doy mp d :
  let doe := 365 * yoe + yoe / 4 - yoe / 100 + doy in
  0 <= era -> era * 146097 + doe <= 2 ^ 50 -> 0 <= yoe < 400 -> 0 <= doy <= 365 -> 0 <= doe < 146097 ->
  (doe - doe / 1460 + doe / 36524 - doe / 146096) / 365 = yoe ->
  (5 * doy + 2) / 153 = mp -> doy = (153 * mp + 2) / 5 + d - 1 -> 1 <= d ->
  days_to_date (E:=E) (era * 146097 + doe - 719468) =
    let m := if mp <? 10 then mp + 3 else mp - 9 in
    Ok (if m <=? 2 then yoe + era * 400 + 1 else yoe + era * 400, m, d).
Proof.
  intros doe He Hmax Hyoe Hdoy Hdoe Hy Hmp Hd Hd1. unfold days_to_date.
  rewrite addi64_Ok by (unfold I64_MAX; lia). cbn [mbind outcome_bind].
  replace (era * 146097 + doe - 719468 + 719468) with (doe + era * 146097) by lia.
  rewrite (proj2 (Z.leb_le _ _)) by lia.
  assert (Z.quot (doe + era * 146097) 146097 = era) as ->.
  { rewrite Z.quot_div_nonneg by lia. rewrite Z.div_add by lia. rewrite Z.div_small by lia. lia. }
  replace (doe + era * 146097 - era * 146097) with doe by lia. unfold as_u32. rewrite (Z.mod_small doe) by lia.
  assert (0 <= doe - doe / 1460 <= doe /\ 0 <= doe / 36524 <= 4 /\ 0 <= doe / 146096 <= doe - doe / 1460) as (? & ? & ?)
    by (clear -Hdoe; Z.to_euclidean_division_equations; lia).
  assert (yoe / 100 <= yoe / 4 /\ yoe / 4 <= 100) as [? ?] by (clear -Hyoe; Z.to_euclidean_division_equations; lia).
  assert (0 <= mp <= 11) as ? by (clear -Hdoy Hmp; Z.to_euclidean_division_equations; lia).
  assert (0 <= (153 * mp + 2) / 5) by (apply Z.div_pos; lia).
  rewrite sub32_Ok by lia. cbn [mbind outcome_bind]. rewrite add32_Ok by (unfold U32_MAX; lia). cbn [mbind outcome_bind].
  rewrite sub32_Ok by lia. cbn [mbind outcome_bind]. rewrite Hy. rewrite sub32_Ok by lia. cbn [mbind outcome_bind].
  rewrite sub32_Ok by (unfold doe; lia). cbn [mbind outcome_bind].
  replace (doe - (365 * yoe + yoe / 4 - yoe / 100)) with doy by (unfold doe; lia). rewrite Hmp.
  rewrite (sub32_Ok doy) by lia. cbn [mbind outcome_bind]. rewrite (add32_Ok (doy - _)) by (unfold U32_MAX; lia). cbn [mbind outcome_bind].
  replace (doy - (153 * mp + 2) / 5 + 1) with d by lia.
  destruct (Z.ltb_spec mp 10); [rewrite add32_Ok by (unfold U32_MAX; lia)|rewrite sub32_Ok by lia]; done.
Qed.

Lemma days_to_date_number {E} date :
  valid_date date -> day_number date <= MAX_DAYS -> days_to_date (E:=E) (day_number date) = Ok date.
Proof.
  destruct date as [[y m] d]. intros Hv Hmax. pose proof (march_date y m d Hv) as (Hdoy & Hmp & Hlong).
  destruct Hv as (Hy & Hm & Hd). unfold day_number in Hmax |- *. cbv zeta in Hmax |- *.
  set (y' := if m <=? 2 then y - 1 else y) in *. set (mp := if m <=? 2 then m + 9 else m - 3) in *.
  assert (1969 <= y') as Hy' by (unfold y'; destruct (m <=? 2); lia).
  set (doy := (153 * mp + 2) / 5 + d - 1) in *. set (era := y' / 400) in *. set (yoe := y' mod 400).
  set (doe := 365 * yoe + yoe / 4 - yoe / 100 + doy).
  assert (0 <= yoe < 400) as Hyoe by (apply Z.mod_pos_bound; lia).
  assert (y' = 400 * era + yoe) as Hye by (apply Z.div_mod; lia).
  assert (year_of_era_ok : (doe - doe / 1460 + doe / 36524 - doe / 146096) / 365 = yoe).
  { apply (year_of_era yoe doy); [done|done| |done]. intros H365. destruct (Hlong H365) as [? ?].
    clear - Hye Hyoe H H0. Z.to_euclidean_division_equations; lia. }
  assert (0 <= doe < 146097) as Hdoe by (clear - Hyoe Hdoy Hlong Hye; unfold doe; Z.to_euclidean_division_equations; lia).
  assert (365 * y' + y' / 4 - y' / 100 + era + (153 * mp + 2) / 5 + d - 1 - 719468 = era * 146097 + doe - 719468) as Hz.
  { unfold doe, doy. clear - Hye Hyoe. Z.to_euclidean_division_equations; lia. }
  rewrite Hz in Hmax |- *. assert (0 <= era) as He by (unfold era; apply Z.div_pos; lia). clear Hz.
  unfold MAX_DAYS in *. pose proof (days_to_date_parts (E:=E) era yoe doy mp d) as Hp. cbv zeta in Hp. fold doe in Hp.
  rewrite Hp by (done || lia). f_equal. unfold mp, y' in *. clear - Hm Hye.
  destruct (Z.leb_spec m 2); [destruct (Z.ltb_spec (m + 9) 10); [|destruct (Z.leb_spec (m + 9 - 9) 2)]
    |destruct (Z.ltb_spec (m - 3) 10); [destruct (Z.leb_spec (m - 3 + 3) 2)|]]; repeat f_equal; lia.
Qed.

Lemma calendar_valid n : valid_date (calendar n).
Proof. induction n as [|n IH]; [vm_compute; intuition congruence|]. by apply next_date_valid. Qed.

Lemma calendar_number n : day_number (calendar n) = Z.of_nat n.
Proof.
  induction n as [|n IH]; [done|]. change (calendar (S n)) with (next_date (calendar n)).
  rewrite day_number_next by apply calendar_valid. lia.
Qed.

Lemma days_to_date_calendar {E} n : Z.of_nat n <= MAX_DAYS -> days_to_date (E:=E) (Z.of_nat n) = Ok (calendar n).
Proof. intros Hn. rewrite <-calendar_number. apply days_to_date_number; [apply calendar_valid|by rewrite calendar_number]. Qed.

Lemma date_to_days_Ok {E} y m d :
  -100000 <= y <= 100000 -> 1 <= m <= 12 -> 1 <= d <= 31 -> date_to_days (E:=E) y m d = Ok (day_number (y, m, d)).
Proof.
  intros Hy Hm Hd. unfold date_to_days, day_number. cbv zeta.
  assert ((if m <=? 2 then addi64 (E:=E) y (-1) else mret y) = Ok (if m <=? 2 then y - 1 else y)) as ->
    by (destruct (m <=? 2); [rewrite addi64_Ok by (unfold I64_MAX; lia)|]; done).
  set (y' := if m <=? 2 then y - 1 else y). assert (-100001 <= y' <= 100000) as Hy' by (unfold y'; destruct (m <=? 2); lia).
  cbn [mbind outcome_bind].
  assert ((if 0 <=? y' then mret y' else addi64 (E:=E) y' (-399)) = Ok (if 0 <=? y' then y' else y' - 399)) as ->
    by (destruct (0 <=? y'); [|rewrite addi64_Ok by (unfold I64_MAX; lia)]; done).
  cbn [mbind outcome_bind].
  assert (Z.quot (if 0 <=? y' then y' else y' - 399) 400 = y' / 400) as ->.
  { destruct (Z.leb_spec 0 y'); Z.to_euclidean_division_equations; lia. }
  assert ((if 2 <? m then sub32 (E:=E) m 3 else add32 m 9) = Ok (if m <=? 2 then m + 9 else m - 3)) as ->.
  { destruct (Z.ltb_spec 2 m), (Z.leb_spec m 2); try lia; [by rewrite sub32_Ok by lia|by rewrite add32_Ok by (unfold U32_MAX; lia)]. }
  set (mp := if m <=? 2 then m + 9 else m - 3). assert (0 <= mp <= 11) as Hmp by (unfold mp; destruct (Z.leb_spec m 2); lia).
  cbn [mbind outcome_bind]. unfold as_u32. set (yoe := y' - y' / 400 * 400).
  assert (0 <= yoe < 400) as Hyoe by (unfold yoe; clear; Z.to_euclidean_division_equations; lia).
  rewrite (Z.mod_small yoe) by lia.
  assert (0 <= (153 * mp + 2) / 5 <= 400 /\ 0 <= yoe / 4 <= 100 /\ 0 <= yoe / 100 <= yoe / 4 /\ -300 <= y' / 400 <= 300) as (? & ? & ? & ?)
    by (clear -Hmp Hyoe Hy'; Z.to_euclidean_division_equations; lia).
  unfold U32_MAX in *. rewrite (add32_Ok _ d) by (unfold U32_MAX; lia). cbn [mbind outcome_bind]. rewrite sub32_Ok by lia. cbn [mbind outcome_bind].
  rewrite add32_Ok by (unfold U32_MAX; lia). cbn [mbind outcome_bind]. rewrite sub32_Ok by lia. cbn [mbind outcome_bind].
  rewrite add32_Ok by (unfold U32_MAX; lia). cbn [mbind outcome_bind]. rewrite addi64_Ok by (unfold I64_MAX; lia). cbn [mbind outcome_bind].
  rewrite addi64_Ok by (unfold I64_MAX; lia). f_equal. assert (y' = 400 * (y' / 400) + yoe) as Hye by (unfold yoe; lia).
  clearbody yoe mp. clear - Hye Hyoe. Z.to_euclidean_division_equations; lia.
Qed.

(** ** Texts *)

Lemma pad_spec w n max :
  (1 <= w <= 19)%nat -> 0 <= n < 10 ^ Z.of_nat w -> n <= max ->
  length (pad w n) = w /\ Forall (fun c => 48 <= c <= 57) (pad w n) /\ from_str_radix 10 max (pad w n) = Some n.
Proof.
  intros Hw Hn Hmax. unfold pad, display_u64.
  assert (n < 10 ^ 20) as Hn20 by (assert (10 ^ Z.of_nat w <= 10 ^ 20) by (apply Z.pow_le_mono_r; lia); lia).
  pose proof (digits_of_length 10 w 20 n [] ltac:(lia) ltac:(lia) Hn) as Hl.
  change (length []) with 0%nat in Hl. rewrite Nat.add_0_r in Hl.
  destruct (digits_of_spec 10 20 n [] ltac:(lia) ltac:(simpl; lia)) as (ds & Heq & Hds & Hv & Hne).
  rewrite app_nil_r in Heq. rewrite Heq in *. specialize (Hne ltac:(lia)).
  assert (Forall (fun c => 48 <= c <= 57) (digit_char <$> ds)) as Hc.
  { apply list.Forall_fmap. eapply list.Forall_impl; [exact Hds|]. intros d Hd. unfold compose, digit_char. cbn beta in *.
    destruct (Z.ltb_spec d 10); lia. }
  split; [rewrite length_app, length_replicate; lia|].
  split; [apply list.Forall_app; split; [apply Forall_replicate; lia|done]|].
  assert (parse_digits 10 max 0 (replicate (w - length (digit_char <$> ds)) 48 ++ (digit_char <$> ds)) = Some n) as Hp.
  { rewrite parse_digits_zeros by lia. rewrite parse_digits_value; [by rewrite Hv|lia|lia|done|lia]. }
  destruct (replicate _ 48 ++ _) as [|c s] eqn:E; [destruct ds; [done|by destruct (replicate _ _)]|].
  rewrite from_str_radix_digit; [done|].
  assert (Forall (fun c => 48 <= c <= 57) (c :: s)) as Hcs.
  { rewrite <-E. apply list.Forall_app; split; [apply Forall_replicate; lia|done]. }
  inversion_clear Hcs. lia.
Qed.

Lemma text_at_ascii s a b : Forall ascii s -> text_at (as_bytes s) a b = get_range s a b.
Proof.
  intros Hs. unfold text_at, get_range. rewrite as_bytes_ascii by done. unfold len. rewrite length_fmap.
  destruct (_ && _); [|done]. cbn [mbind option_bind]. unfold takeZ, dropZ. rewrite <-fmap_drop, <-fmap_take.
  apply from_utf8_ascii. by apply Forall_take, Forall_drop.
Qed.

(** The text of a date *)
Definition date_text (wd mon : str) (d y h mi s : Z) : str :=
  wd ++ lit ", " ++ pad 2 d ++ lit " " ++ mon ++ lit " " ++ pad 4 y ++ lit " "
  ++ pad 2 h ++ lit ":" ++ pad 2 mi ++ lit ":" ++ pad 2 s ++ lit " GMT".

Lemma pad2_chars n : 0 <= n < 100 -> exists a b, pad 2 n = [a; b] /\ 48 <= a <= 57 /\ 48 <= b <= 57 /\
  (forall max, n <= max -> from_str_radix 10 max [a; b] = Some n).
Proof.
  intros Hn. assert (forall max, n <= max -> _) as Hp by exact (fun max H => pad_spec 2 n max ltac:(lia) Hn H).
  destruct (Hp n (Z.le_refl n)) as (Hl & Hc & _). destruct (pad 2 n) as [|a [|b [|]]]; try done.
  inversion_clear Hc as [|? ? Ha Hc']. inversion_clear Hc' as [|? ? Hb _]. exists a, b.
  repeat split; try lia. intros max Hm. by apply Hp.
Qed.

Lemma pad4_chars n : 0 <= n < 10000 -> exists a b c d, pad 4 n = [a; b; c; d] /\ Forall (fun x => 48 <= x <= 57) [a; b; c; d] /\
  parse_i64 [a; b; c; d] = Some n.
Proof.
  intros Hn. destruct (pad_spec 4 n I64_MAX ltac:(lia) Hn ltac:(unfold I64_MAX; lia)) as (Hl & Hc & Hp).
  destruct (pad 4 n) as [|a [|b [|c [|d [|]]]]]; try done. exists a, b, c, d. split; [done|]. split; [done|].
  rewrite <-Hp. inversion_clear Hc as [|? ? Ha _]. unfold parse_i64.
  assert (a = 48 \/ a = 49 \/ a = 50 \/ a = 51 \/ a = 52 \/ a = 53 \/ a = 54 \/ a = 55 \/ a = 56 \/ a = 57) as Hcase by lia.
  clear -Hcase. repeat (destruct Hcase as [-> | Hcase]; [done|]). by subst.
Qed.

Lemma month_name k mon : months !! k = Some mon ->
  position mon months = Some (Z.of_nat k) /\ (k < 12)%nat /\ exists a b c, mon = [a; b; c] /\ Forall ascii [a; b; c].
Proof.
  intros Hk. assert (k < 12)%nat as Hlt by (by apply lookup_lt_Some in Hk). split; [|split; [done|]].
  all: do 12 (destruct k as [|k]; [injection Hk as <-; first [reflexivity|eexists _, _, _; split; [reflexivity|]; repeat constructor; vm_compute; congruence]|]); lia.
Qed.

Lemma weekday_name k wd : weekdays !! k = Some wd -> exists a b c, wd = [a; b; c] /\ Forall ascii [a; b; c] /\ black a.
Proof.
  intros Hk. do 7 (destruct k as [|k]; [injection Hk as <-; eexists _, _, _; split; [reflexivity|];
    split; [repeat constructor; vm_compute; congruence|reflexivity]|]); done.
Qed.

Lemma parse_text k wd j mon d y h mi s :
  weekdays !! k = Some wd -> months !! j = Some mon -> 1 <= d <= 31 -> 0 <= y < 10000 ->
  0 <= h < 24 -> 0 <= mi < 60 -> 0 <= s < 60 ->
  let days := day_number (y, Z.of_nat j + 1, d) in
  0 <= days ->
  parse_http_date (date_text wd mon d y h mi s) = Ok ((days * 86400 + h * 3600 + mi * 60 + s) * 1000).
Proof.
  intros Hwd Hmon Hd Hy Hh Hmi Hs days Hdays.
  destruct (weekday_name _ _ Hwd) as (w1 & w2 & w3 & -> & Hw & Hb). destruct (month_name _ _ Hmon) as (Hpos & Hj & m1 & m2 & m3 & -> & Hm).
  destruct (pad2_chars d ltac:(lia)) as (d1 & d2 & Ed & Hd1 & Hd2 & Pd).
  destruct (pad2_chars h ltac:(lia)) as (h1 & h2 & Eh & Hh1 & Hh2 & Ph).
  destruct (pad2_chars mi ltac:(lia)) as (i1 & i2 & Ei & Hi1 & Hi2 & Pi).
  destruct (pad2_chars s ltac:(lia)) as (s1 & s2 & Es & Hs1 & Hs2 & Ps).
  destruct (pad4_chars y Hy) as (y1 & y2 & y3 & y4 & Ey & Hyc & Py).
  set (text := date_text _ _ _ _ _ _ _).
  assert (text = [w1; w2; w3; 44; 32; d1; d2; 32; m1; m2; m3; 32; y1; y2; y3; y4; 32; h1; h2; 58; i1; i2; 58; s1; s2; 32; 71; 77; 84]) as Ht
    by (unfold text, date_text; by rewrite Ed, Eh, Ei, Es, Ey).
  assert (Forall ascii text) as Ha.
  { rewrite Ht. rewrite !list.Forall_cons in *. unfold ascii in *. repeat split; try lia. constructor. }
  unfold parse_http_date.
  assert (trim text = text) as -> by (rewrite Ht; exact (trim_black_ends w1 [w2; w3; 44; 32; d1; d2; 32; m1; m2; m3; 32; y1; y2; y3; y4; 32; h1; h2; 58; i1; i2; 58; s1; s2; 32; 71; 77] 84 Hb eq_refl)).
  rewrite !text_at_ascii by done. assert (len (as_bytes text) = 29) as -> by (rewrite as_bytes_ascii by done; unfold len; by rewrite length_fmap, Ht).
  cbv zeta. change (29 <? 29) with false. cbn [guard_err mbind outcome_bind]. change (checked_sub64 29 3) with (Some 26).
  cbn [try_opt ok_or mbind outcome_bind].
  assert (index_range (E:=()) (as_bytes text) 26 29 = Ok (as_bytes (lit "GMT"))) as -> by (rewrite as_bytes_ascii, Ht by done; reflexivity).
  cbn [mbind outcome_bind]. rewrite bool_decide_eq_false_2 by tauto. cbn [guard_err mbind outcome_bind].
  rewrite Ht.
  change (get_range _ 5 7) with (Some [d1; d2]). change (get_range _ 8 11) with (Some [m1; m2; m3]).
  change (get_range _ 12 16) with (Some [y1; y2; y3; y4]). change (get_range _ 17 19) with (Some [h1; h2]).
  change (get_range _ 20 22) with (Some [i1; i2]). change (get_range _ 23 25) with (Some [s1; s2]).
  cbn [mbind option_bind]. unfold U32_MAX, MAX64. rewrite Pd, Ph, Pi, Ps, Py by lia.
  cbn [try_opt ok_or mbind outcome_bind]. rewrite Hpos. cbn [try_opt ok_or mbind outcome_bind]. unfold as_u32. rewrite Z.mod_small by lia.
  rewrite add32_Ok by (unfold U32_MAX; lia). cbn [mbind outcome_bind].
  replace (_ || _) with false by lia. cbn [guard_err mbind outcome_bind].
  rewrite date_to_days_Ok by lia. cbn [mbind outcome_bind]. fold days. replace (days <? 0) with false by lia.
  assert (days <= 10000000) as Hdmax by (unfold days, day_number; clear -Hy Hd Hj; destruct (_ <=? 2); Z.to_euclidean_division_equations; lia).
  cbn [guard_err mbind outcome_bind].
  repeat (first [rewrite mul64_Ok by (unfold MAX64; lia)|rewrite add64_Ok by (unfold MAX64; lia)]; cbn [mbind outcome_bind]).
  done.
Qed.

(** ** Parsing any text *)

Lemma wp_try_opt {A} (o : option A) (Q : A -> Prop) (R : () -> Prop) :
  (forall a, o = Some a -> Q a) -> R () -> wp (try_opt o) Q R.
Proof. destruct o; cbn; auto. Qed.

Lemma parse_digits_lt max s : forall acc n,
  0 <= acc -> parse_digits 10 max acc s = Some n -> 0 <= n < (acc + 1) * 10 ^ len s.
Proof.
  induction s as [|c s IH]; intros acc n Ha; cbn [parse_digits]; [intros [= <-]; change (10 ^ len []) with 1; lia|].
  destruct (digit_value c) as [d|] eqn:Hd; [|done]. cbn [mbind option_bind]. apply digit_value_nonneg in Hd.
  destruct (Z.leb_spec 10 d); [done|]. destruct (_ <=? max); [|done]. intros Hn%IH; [|lia].
  rewrite len_cons, Z.pow_add_r by (pose proof (len_nonneg s); lia). pose proof (Z.pow_nonneg 10 (len s) ltac:(lia)). nia.
Qed.

Lemma text_at_len bytes a b s : 0 <= a -> text_at bytes a b = Some s -> len s <= b - a.
Proof.
  intros Ha. unfold text_at. destruct (get_range bytes a b) as [r|] eqn:Hr; [|done]. cbn [mbind option_bind].
  intros [Hs ->]%from_utf8_Some. apply get_range_Some in Hr as [Hl _]; [|done]. rewrite <-Hl. clear.
  unfold as_bytes. induction s as [|c s IH]; [done|]. rewrite bind_cons, len_app, len_cons.
  assert (1 <= len (char_bytes c)) by (unfold char_bytes; repeat case_match; done). lia.
Qed.

Lemma parse_i64_bound s n : len s <= 4 -> parse_i64 s = Some n -> -10000 < n < 10000.
Proof.
  intros Hl. assert (forall t m max, len t <= len s -> parse_digits 10 max 0 t = Some m -> 0 <= m < 10000) as Hp.
  { intros t m max Ht Hm%parse_digits_lt; [|lia]. assert (10 ^ len t <= 10 ^ 4) by (apply Z.pow_le_mono_r; lia). lia. }
  assert (forall (c : Z) t, len t <= len (c :: t)) as Hc by (intros; rewrite len_cons; lia).
  unfold parse_i64, from_str_radix. intros Hn.
  repeat case_match; try discriminate; subst;
    try (apply fmap_Some in Hn as (m & Hm%Hp & ->); [lia|apply Hc]);
    (apply Hp in Hn; [lia|first [done|apply Hc]]).
Qed.

Lemma position_bound x l n : position x l = Some n -> 0 <= n < len l.
Proof.
  revert n. induction l as [|y l IH]; intros n; cbn [position]; [done|]. rewrite len_cons. pose proof (len_nonneg l).
  destruct (bool_decide _); [intros [= <-]; lia|]. intros (m & Hm%IH & ->)%fmap_Some. lia.
Qed.

Lemma parse_http_date_total s : wp (parse_http_date s) (fun _ => True) (fun _ => True).
Proof.
  unfold parse_http_date. set (bytes := as_bytes (trim s)). cbv zeta.
  apply wp_bind, wp_guard; [|done]. intros Hlen. apply wp_bind, wp_try_opt; [|done]. intros e He.
  assert (e = len bytes - 3) as -> by (unfold checked_sub64 in He; case_match; congruence).
  apply wp_bind. unfold index_range, get_range. rewrite (proj2 (Z.leb_le _ _)), Z.leb_refl by lia. cbn [andb unwrap wp].
  apply wp_bind, wp_guard; [|done]. intros _. apply wp_bind, wp_try_opt; [|done]. intros day Hday.
  apply wp_bind, wp_try_opt; [|done]. intros mon _. apply wp_bind, wp_try_opt; [|done]. intros year Hyear.
  assert (-10000 < year < 10000) as Hy.
  { destruct (text_at bytes 12 16) as [t|] eqn:Ht; [|done]. apply (parse_i64_bound t); [|done]. by apply text_at_len in Ht. }
  apply wp_bind, wp_try_opt; [|done]. intros hours Hh. apply wp_bind, wp_try_opt; [|done]. intros minutes Hm.
  apply wp_bind, wp_try_opt; [|done]. intros seconds Hs.
  assert (forall a b max n, 0 <= max -> (t ← text_at bytes a b; from_str_radix 10 max t) = Some n -> 0 <= n) as Hpos.
  { intros a b max n Hmax. destruct (text_at bytes a b); [|done]. cbn [mbind option_bind].
    intros Hn%from_str_radix_range; [lia|lia|lia]. }
  apply Hpos in Hday, Hh, Hm, Hs; [|unfold U32_MAX, MAX64; lia..].
  apply wp_bind, wp_try_opt; [|done]. intros p Hp%position_bound. change (len months) with 12 in Hp.
  unfold as_u32. rewrite Z.mod_small by lia. rewrite add32_Ok by (unfold U32_MAX; lia). cbn [mbind outcome_bind].
  apply wp_bind, wp_guard; [|done]. intros Hg. rewrite date_to_days_Ok by lia. cbn [mbind outcome_bind].
  set (days := day_number _).
  assert (days <= 10000000) as Hdmax.
  { unfold days, day_number. assert (1 <= day <= 31) by lia. clear -Hy Hp H. destruct (_ <=? 2); Z.to_euclidean_division_equations; lia. }
  apply wp_bind, wp_guard; [|done]. intros Hneg.
  repeat (first [rewrite mul64_Ok by (unfold MAX64; lia)|rewrite add64_Ok by (unfold MAX64; lia)]; cbn [mbind outcome_bind]).
  done.
Qed.

(** ** Formatting *)

Lemma format_text {E} millis :
  is_u64 millis ->
  exists k wd j mon d y,
    calendar (Z.to_nat (millis / 1000 / 86400)) = (y, Z.of_nat j + 1, d) /\
    weekdays !! k = Some wd /\ months !! j = Some mon /\
    k = Z.to_nat ((millis / 1000 / 86400 + 4) mod 7) /\
    format_http_date (E:=E) millis = Ok (date_text wd mon d y (millis / 1000 mod 86400 / 3600)
      (millis / 1000 mod 86400 mod 3600 / 60) (millis / 1000 mod 86400 mod 60)).
Proof.
  unfold is_u64, MAX64. intros Hm. set (days := millis / 1000 / 86400).
  assert (0 <= days <= 2 ^ 40) as Hdays by (unfold days; clear -Hm; Z.to_euclidean_division_equations; lia).
  pose proof (calendar_valid (Z.to_nat days)) as Hv.
  pose proof (days_to_date_calendar (E:=E) (Z.to_nat days) ltac:(unfold MAX_DAYS; lia)) as Hd. rewrite Z2Nat.id in Hd by lia.
  destruct (calendar (Z.to_nat days)) as [[y m] d]. destruct Hv as (Hy & Hmm & _).
  assert (0 <= (days + 4) mod 7 < 7) as Hw by (apply Z.mod_pos_bound; lia).
  destruct (lookup_lt_is_Some_2 weekdays (Z.to_nat ((days + 4) mod 7))) as [wd Hwd]; [change (length weekdays) with 7%nat; lia|].
  destruct (lookup_lt_is_Some_2 months (Z.to_nat (m - 1))) as [mon Hmon]; [change (length months) with 12%nat; lia|].
  exists (Z.to_nat ((days + 4) mod 7)), wd, (Z.to_nat (m - 1)), mon, d, y.
  split; [f_equal; f_equal; lia|]. split; [done|]. split; [done|]. split; [done|].
  unfold format_http_date. cbv zeta. fold days. rewrite add64_Ok by (unfold MAX64; lia). cbn [mbind outcome_bind].
  rewrite Hd. cbn [mbind outcome_bind]. rewrite (proj2 (idx_Ok _ _ _) Hwd). cbn [mbind outcome_bind].
  rewrite sub32_Ok by lia. cbn [mbind outcome_bind]. rewrite (proj2 (idx_Ok _ _ _) Hmon). done.
Qed.

(** Midnight of 1 January 10000 *)
Definition YEAR_10000_MS : Z := 253402300800000.

Lemma calendar_year n y m d : calendar n = (y, m, d) -> Z.of_nat n < 2932897 -> 1970 <= y < 10000.
Proof.
  intros Hc Hn. pose proof (calendar_valid n) as Hv. pose proof (calendar_number n) as Hnum. rewrite Hc in *.
  destruct Hv as (Hy & Hm & Hd). split; [done|]. unfold day_number in Hnum. clear Hc.
  assert (1 <= d) by lia. clear Hd. destruct (m <=? 2) eqn:E; Z.to_euclidean_division_equations; lia.
Qed.

Lemma valid_date_day y m d : valid_date (y, m, d) -> 1 <= d <= 31.
Proof. intros (_ & _ & Hd). split; [lia|]. transitivity (month_len y m); [lia|]. unfold month_len. repeat case_match; lia. Qed.

Lemma parse_format millis :
  is_u64 millis -> returns (format_http_date (E:=()) millis) (fun text =>
    millis < YEAR_10000_MS -> parse_http_date text = Ok (millis / 1000 * 1000)).
Proof.
  intros Hm. destruct (format_text (E:=()) millis Hm) as (k & wd & j & mon & d & y & Hc & Hwd & Hmon & _ & ->). cbn.
  intros Hlt. unfold is_u64, YEAR_10000_MS in *. set (days := millis / 1000 / 86400) in *.
  assert (0 <= days < 2932897) as Hdays by (unfold days; clear -Hm Hlt; Z.to_euclidean_division_equations; lia).
  pose proof (calendar_year _ _ _ _ Hc ltac:(lia)) as Hy. pose proof (calendar_valid (Z.to_nat days)) as Hv.
  pose proof (calendar_number (Z.to_nat days)) as Hnum. rewrite Hc in *. rewrite Z2Nat.id in Hnum by lia.
  pose proof (valid_date_day _ _ _ Hv).
  rewrite (parse_text k wd j mon) by (done || lia || (clear; Z.to_euclidean_division_equations; lia)).
  f_equal. f_equal. rewrite Hnum. unfold days. clear. Z.to_euclidean_division_equations; lia.
Qed.

(** ** Properties *)

(** C27: Dates are those of the Gregorian calendar and parsing inverts formatting.
    [days_to_date] returns the date so many days after 1 January 1970, counted with the
    lengths of the months and the leap years, and [date_to_days] is its inverse.
    [format_http_date] succeeds on every 64-bit time.  Up to the end of the year 9999,
    [parse_http_date] reads the formatted date back as the same time to the second.  It
    never panics, whatever the text. *)
Theorem http_dates :
  (forall n, Z.of_nat n <= MAX_DAYS -> days_to_date (E:=()) (Z.of_nat n) = Ok (calendar n)) /\
  (forall n y m d, calendar n = (y, m, d) -> y <= 100000 -> date_to_days (E:=()) y m d = Ok (Z.of_nat n)) /\
  (forall millis, is_u64 millis -> returns (format_http_date (E:=()) millis) (fun text =>
     millis < YEAR_10000_MS -> parse_http_date text = Ok (millis / 1000 * 1000))) /\
  (forall s, parse_http_date s <> Panic).
Proof.
  split; [intros n Hn; by apply days_to_date_calendar|]. split; [|split].
  - intros n y m d Hc Hy. pose proof (calendar_valid n) as Hv. pose proof (calendar_number n) as Hnum. rewrite Hc in *.
    pose proof (valid_date_day _ _ _ Hv). destruct Hv as (Hy0 & Hm & _). rewrite date_to_days_Ok by lia. by rewrite Hnum.
  - intros millis Hm. by apply parse_format.
  - intros s Hp. pose proof (parse_http_date_total s) as H. by rewrite Hp in H.
Qed.

End HttpDate.
