(* ===== verification/MetadataBlob.v ===== *)
(** The metadata blob of an object row, crates/server-core/src/metadata_blob.rs: the
    x-amz-meta-* headers of a request, their stored representation, and the
    theorems that the representation is exact. *)

From Stdlib Require Import ZifyBool.
From stdpp Require Import strings.
From coqutil Require Import Word.LittleEndianList.
From S2P Require Import Prelude Machine Str Utf8.

Local Open Scope Z_scope.

Module MetadataBlob.
Import Machine Str Utf8.

Definition FORMAT_VERSION : Z := 1.
Definition MIN_BLOB_SIZE : Z := 7.
Definition U16_MAX : Z := 65535.
Definition U32_MAX : Z := 4294967295.

Record MetadataEntry := MkEntry { key : str; value : str }.

Record MetadataBlob := MkBlob { entries : list MetadataEntry }.

(** The variants of [ServerError] these functions return *)
Inductive ServerError :=
| InvalidRequest (reason : str)
| MetadataBlobError (reason : str).

(** [s.bytes()] as values *)
Definition bytes (s : str) : list Z := byte.unsigned <$> as_bytes s.

(** [s.len()] *)
Definition str_len (s : str) : Z := len (as_bytes s).

Definition has_invalid_header_bytes (s : str) : bool := existsb (fun b => (b <? 0x20) || (b =? 0x7F)) (bytes s).

Definition is_ascii_uppercase (b : Z) : bool := in_range b 65 90.
Definition is_ascii_alphanumeric (b : Z) : bool := in_range b 48 57 || is_ascii_uppercase b || in_range b 97 122.

Definition is_header_name_token_byte (byte : Z) : bool :=
  is_ascii_alphanumeric byte
  || existsb (Z.eqb byte) (lit "!#$%&'*+-.^_`|~").

Definition META_PREFIX : str := lit "x-amz-meta-".

Definition starts_with (s p : str) : bool := bool_decide (is_Some (strip_prefix p s)).

Definition metadata_entry_is_canonical (key value : str) : bool :=
  starts_with key META_PREFIX
  && forallb (fun byte => is_header_name_token_byte byte && negb (is_ascii_uppercase byte)) (bytes key)
  && negb (has_invalid_header_bytes value)
  && forallb (fun character => character <=? 0xFF) value.

Definition is_ascii (s : str) : bool := forallb (fun b => b <? 0x80) (bytes s).

(** The body of the loop over the headers *)
Definition push_header (es : list MetadataEntry) (header : str * str) : outcome ServerError (list MetadataEntry) :=
  let '(name, v) := header in
  let lower := to_ascii_lowercase name in
  if starts_with lower META_PREFIX then
    _ ← guard_err (has_invalid_header_bytes v)
          (InvalidRequest (lit "metadata value for '" ++ lower ++ lit "' contains invalid header bytes"));
    let stored_value := if negb (is_ascii v) then bytes v else v in
    _ ← guard_err (negb (metadata_entry_is_canonical lower stored_value))
          (InvalidRequest (lit "metadata entry for '" ++ lower ++ lit "' is not canonical"));
    mret (es ++ [MkEntry lower stored_value])
  else mret es.

Definition from_header_iter (headers : list (str * str)) : outcome ServerError MetadataBlob :=
  es ← foldM push_header [] headers;
  mret (MkBlob es).

(** [n.to_le_bytes()] of a [w]-byte integer, after the cast to it *)
Definition to_le_bytes (w : nat) (n : Z) : list byte := le_split w n.

(** The first loop of [serialize] *)
Definition check_entry (_ : ()) (entry : MetadataEntry) : outcome ServerError () :=
  _ ← guard_err (negb (metadata_entry_is_canonical (key entry) (value entry)))
        (MetadataBlobError (lit "metadata entry is not canonical"));
  _ ← guard_err (U16_MAX <? str_len (key entry))
        (MetadataBlobError (lit "metadata key too long: " ++ display_u64 (str_len (key entry))
           ++ lit " bytes (max " ++ display_u64 U16_MAX ++ lit ")"));
  guard_err (U16_MAX <? str_len (value entry))
        (MetadataBlobError (lit "metadata value too long: " ++ display_u64 (str_len (value entry))
           ++ lit " bytes (max " ++ display_u64 U16_MAX ++ lit ")")).

(** [body_size += 2 + entry.key.len() + 2 + entry.value.len()] *)
Definition add_entry_size (body_size : Z) (entry : MetadataEntry) : outcome ServerError Z :=
  a ← add64 2 (str_len (key entry));
  b ← add64 a 2;
  c ← add64 b (str_len (value entry));
  add64 body_size c.

(** What the last loop appends *)
Definition push_entry (buf : list byte) (entry : MetadataEntry) : list byte :=
  (((buf ++ to_le_bytes 2 (str_len (key entry))) ++ as_bytes (key entry))
     ++ to_le_bytes 2 (str_len (value entry))) ++ as_bytes (value entry).

Definition serialize (self : MetadataBlob) : outcome ServerError (list byte) :=
  _ ← guard_err (U16_MAX <? len (entries self))
        (MetadataBlobError (lit "too many metadata entries: " ++ display_u64 (len (entries self))
           ++ lit " (max " ++ display_u64 U16_MAX ++ lit ")"));
  _ ← foldM check_entry () (entries self);
  body_size ← foldM add_entry_size 3 (entries self);
  total_size ← add64 4 body_size;
  _ ← guard_err (U32_MAX <? total_size) (MetadataBlobError (lit "metadata blob too large"));
  let buf := to_le_bytes 4 total_size in
  let buf := buf ++ to_le_bytes 1 FORMAT_VERSION in
  let buf := buf ++ to_le_bytes 2 (len (entries self)) in
  let buf := foldl push_entry buf (entries self) in
  _ ← assert_true (len buf =? total_size);
  mret buf.

(** [data[i]] *)
Definition byte_at {E} (data : list byte) (i : Z) : outcome E byte := idx data (Z.to_nat i).

(** [u16::from_le_bytes([data[pos], data[pos + 1]]) as usize] *)
Definition u16_at {E} (data : list byte) (pos : Z) : outcome E Z :=
  b0 ← byte_at data pos;
  i ← add64 pos 1;
  b1 ← byte_at data i;
  mret (le_combine [b0; b1]).

(** A length and a string of that length at [pos]; the string and the position
    after it *)
Definition read_field (blob_data : list byte) (total_len pos : Z) (no_len no_text bad : str) :
    outcome ServerError (str * Z) :=
  e ← add64 pos 2;
  _ ← guard_err (total_len <? e) (MetadataBlobError no_len);
  n ← u16_at blob_data pos;
  pos ← add64 pos 2;
  e ← add64 pos n;
  _ ← guard_err (total_len <? e) (MetadataBlobError no_text);
  e ← add64 pos n;
  text ← index_range blob_data pos e;
  s ← ok_or (from_utf8 text) (MetadataBlobError bad);
  pos ← add64 pos n;
  mret (s, pos).

(** The body of the loop of [deserialize] *)
Definition read_entry (blob_data : list byte) (total_len : Z) (st : Z * list MetadataEntry) (_ : nat) :
    outcome ServerError (Z * list MetadataEntry) :=
  let '(pos, es) := st in
  kp ← read_field blob_data total_len pos (lit "truncated metadata blob (key_len)")
         (lit "truncated metadata blob (key)") (lit "invalid UTF-8 in metadata key");
  vp ← read_field blob_data total_len (snd kp) (lit "truncated metadata blob (val_len)")
         (lit "truncated metadata blob (value)") (lit "invalid UTF-8 in metadata value");
  _ ← guard_err (negb (metadata_entry_is_canonical (fst kp) (fst vp)))
        (MetadataBlobError (lit "stored metadata entry is not canonical"));
  mret (snd vp, es ++ [MkEntry (fst kp) (fst vp)]).

Definition deserialize (data : list byte) : outcome ServerError MetadataBlob :=
  _ ← guard_err (len data <? MIN_BLOB_SIZE) (MetadataBlobError (lit "data too short for metadata blob"));
  d0 ← byte_at data 0; d1 ← byte_at data 1; d2 ← byte_at data 2; d3 ← byte_at data 3;
  let total_len := le_combine [d0; d1; d2; d3] in
  _ ← guard_err ((total_len <? MIN_BLOB_SIZE) || negb (total_len =? len data))
        (MetadataBlobError (lit "invalid metadata blob length: " ++ display_u64 total_len
           ++ lit " (data len: " ++ display_u64 (len data) ++ lit ")"));
  blob_data ← index_range data 0 total_len;
  version ← byte_at blob_data 4;
  _ ← guard_err (negb (byte.unsigned version =? FORMAT_VERSION))
        (MetadataBlobError (lit "unknown metadata blob version: " ++ display_u64 (byte.unsigned version)));
  entry_count ← u16_at blob_data 5;
  r ← foldM (read_entry blob_data total_len) (7, []) (seq 0 (Z.to_nat entry_count));
  _ ← guard_err (negb (fst r =? total_len)) (MetadataBlobError (lit "trailing bytes in metadata blob"));
  mret (MkBlob (snd r)).

Definition get (self : MetadataBlob) (k : str) : option str :=
  value <$> List.find (fun e => bool_decide (key e = k)) (entries self).

Definition blob_len (self : MetadataBlob) : Z := len (entries self).

Definition is_empty (self : MetadataBlob) : bool := match entries self with [] => true | _ => false end.

(** ** The representation *)

Definition field_bytes (s : str) : list byte := le_split 2 (str_len s) ++ as_bytes s.
Definition entry_bytes (e : MetadataEntry) : list byte := field_bytes (key e) ++ field_bytes (value e).
Definition body_bytes (es : list MetadataEntry) : list byte := es ≫= entry_bytes.
Definition blob_bytes (b : MetadataBlob) : list byte :=
  le_split 4 (7 + len (body_bytes (entries b))) ++ le_split 1 FORMAT_VERSION ++ le_split 2 (len (entries b))
  ++ body_bytes (entries b).

(** The strings of the entries are Rust strings. *)
Definition valid_entry (e : MetadataEntry) : Prop := Forall scalar (key e) /\ Forall scalar (value e).
Definition valid (b : MetadataBlob) : Prop := Forall valid_entry (entries b).

(** What can be stored *)
Definition storable_entry (e : MetadataEntry) : Prop :=
  metadata_entry_is_canonical (key e) (value e) = true /\ str_len (key e) <= U16_MAX /\ str_len (value e) <= U16_MAX.
Definition storable (b : MetadataBlob) : Prop :=
  len (entries b) <= U16_MAX /\ Forall storable_entry (entries b) /\ 7 + len (body_bytes (entries b)) <= U32_MAX.

Lemma len_le_split w n : len (le_split w n) = Z.of_nat w.
Proof. unfold len. by rewrite length_le_split. Qed.

Lemma str_len_nonneg s : 0 <= str_len s.
Proof. apply len_nonneg. Qed.

Lemma len_field_bytes s : len (field_bytes s) = 2 + str_len s.
Proof. unfold field_bytes. by rewrite len_app, len_le_split. Qed.

Lemma len_entry_bytes e : len (entry_bytes e) = 4 + str_len (key e) + str_len (value e).
Proof. unfold entry_bytes. rewrite len_app, !len_field_bytes. lia. Qed.

Lemma body_bytes_cons e es : body_bytes (e :: es) = entry_bytes e ++ body_bytes es.
Proof. apply bind_cons. Qed.

Lemma body_bytes_app es es' : body_bytes (es ++ es') = body_bytes es ++ body_bytes es'.
Proof. apply bind_app. Qed.

(** ** Serialising *)

Lemma check_entries_Ok es : foldM check_entry () es = Ok () <-> Forall storable_entry es.
Proof.
  induction es as [|e es IH]; [by split; [constructor|]|]. cbn [foldM]. rewrite list.Forall_cons, bind_Ok.
  assert (forall u, check_entry () e = Ok u <-> storable_entry e) as He.
  { intros []. unfold check_entry, storable_entry, guard_err.
    destruct (metadata_entry_is_canonical _ _), (Z.ltb_spec U16_MAX (str_len (key e))),
      (Z.ltb_spec U16_MAX (str_len (value e))); cbn; split; (intros [=]; lia) || (intros (? & ? & ?); congruence || lia) || by repeat split. }
  split.
  - intros (u & Hu & Hr). destruct u. split; [by apply (He ())|by apply IH].
  - intros [H1 H2]. exists (). split; [by apply He|by apply IH].
Qed.

Lemma sizes_Ok es : forall n,
  0 <= n -> n + len (body_bytes es) <= MAX64 -> foldM add_entry_size n es = Ok (n + len (body_bytes es)).
Proof.
  induction es as [|e es IH]; intros n Hn Hb; [by rewrite Z.add_0_r|].
  rewrite body_bytes_cons, len_app, len_entry_bytes in *. cbn [foldM].
  pose proof (str_len_nonneg (key e)). pose proof (str_len_nonneg (value e)). pose proof (len_nonneg (body_bytes es)).
  unfold add_entry_size. repeat (rewrite add64_Ok by lia; cbn [mbind outcome_bind]).
  rewrite IH by lia. f_equal. lia.
Qed.

Lemma push_entry_bytes buf e : push_entry buf e = buf ++ entry_bytes e.
Proof. unfold push_entry, entry_bytes, field_bytes, to_le_bytes. by rewrite <-!app_assoc. Qed.

Lemma push_entries es : forall buf, foldl push_entry buf es = buf ++ body_bytes es.
Proof.
  induction es as [|e es IH]; intros buf; [by rewrite app_nil_r|]. cbn [foldl].
  by rewrite IH, push_entry_bytes, body_bytes_cons, app_assoc.
Qed.

Lemma storable_entries_size es :
  Forall storable_entry es -> len (body_bytes es) <= len es * 131074.
Proof.
  induction 1 as [|e es (_ & ? & ?) _ IH]; [done|]. rewrite body_bytes_cons, len_app, len_entry_bytes, len_cons.
  unfold U16_MAX in *. lia.
Qed.

Lemma check_entries_total es : foldM check_entry () es <> Panic.
Proof.
  induction es as [|e es IH]; [done|]. cbn [foldM]. unfold check_entry at 2, guard_err.
  destruct (negb _), (U16_MAX <? str_len (key e)), (U16_MAX <? str_len (value e)); done.
Qed.

(** [serialize] returns the representation of what can be stored and an error
    otherwise; the debug assertion holds. *)
Lemma serialize_spec b :
  match serialize b with
  | Ok data => storable b /\ data = blob_bytes b
  | Err _ => ~ storable b
  | Panic => False
  end.
Proof.
  unfold serialize, storable. destruct (Z.ltb_spec U16_MAX (len (entries b))) as [Hc|Hc]; [simpl; lia|].
  cbn [guard_err mbind outcome_bind]. pose proof (check_entries_Ok (entries b)) as Hok.
  pose proof (check_entries_total (entries b)).
  destruct (foldM check_entry () (entries b)) as [[]|e|]; cbn [mbind outcome_bind]; [|naive_solver|done].
  pose proof (proj1 Hok eq_refl) as Hes. pose proof (storable_entries_size _ Hes).
  pose proof (len_nonneg (body_bytes (entries b))). unfold U16_MAX, U32_MAX in *.
  rewrite sizes_Ok by (unfold MAX64; lia). cbn [mbind outcome_bind]. rewrite add64_Ok by (unfold MAX64; lia).
  cbn [mbind outcome_bind]. rewrite push_entries. replace (4 + (3 + _)) with (7 + len (body_bytes (entries b))) by lia.
  destruct (Z.ltb_spec 4294967295 (7 + len (body_bytes (entries b)))); cbn [guard_err mbind outcome_bind]; [lia|].
  unfold to_le_bytes. rewrite !len_app, !len_le_split. replace (_ =? _) with true by lia. cbn.
  unfold blob_bytes. by rewrite <-!app_assoc.
Qed.

(** ** Reading *)

(** [rest] starts with the representation of [s], then [rest']. *)
Definition field_at (rest : list byte) (s : str) (rest' : list byte) : Prop :=
  rest = field_bytes s ++ rest' /\ Forall scalar s /\ str_len s <= U16_MAX.

Lemma u16_bytes b0 b1 n : [b0; b1] = le_split 2 n -> 0 <= n <= U16_MAX -> le_combine [b0; b1] = n.
Proof. intros -> Hn. rewrite le_combine_split. apply Z.mod_small. unfold U16_MAX in Hn. simpl. lia. Qed.

Lemma u16_range b0 b1 : 0 <= le_combine [b0; b1] <= U16_MAX.
Proof. pose proof (le_combine_bound [b0; b1]). simpl in *. unfold U16_MAX. lia. Qed.

Lemma field_at_inv b0 b1 r s rest' :
  field_at (b0 :: b1 :: r) s rest' ->
  str_len s = le_combine [b0; b1] /\ r = as_bytes s ++ rest' /\ from_utf8 (as_bytes s) = Some s.
Proof.
  intros (Heq & Hs & Hl). unfold field_bytes in Heq. rewrite <-app_assoc in Heq.
  apply (app_inj_1 [b0; b1]) in Heq as [H1 H2]; [|by rewrite length_le_split].
  split; [symmetry; apply u16_bytes; [done|split; [apply str_len_nonneg|done]]|].
  split; [done|by apply from_utf8_as_bytes].
Qed.

Lemma field_at_len rest s r : field_at rest s r -> 2 + str_len s + len r = len rest.
Proof. intros (-> & _). by rewrite len_app, len_field_bytes. Qed.

Lemma field_at_fun rest s1 r1 s2 r2 : field_at rest s1 r1 -> field_at rest s2 r2 -> s1 = s2 /\ r1 = r2.
Proof.
  intros H1 H2. pose proof (field_at_len _ _ _ H1) as Hl. pose proof (str_len_nonneg s1). pose proof (len_nonneg r1).
  destruct rest as [|b0 [|b1 r]]; [unfold len at 2 in Hl; simpl in Hl; lia..|].
  apply field_at_inv in H1 as (E1 & -> & U1), H2 as (E2 & Hr & U2).
  apply app_inj_1 in Hr as [Ha ->]; [|unfold str_len, len in *; lia]. split; [congruence|done].
Qed.

Lemma u16_at_app {E} pre b0 b1 r pos :
  pos = len pre -> pos < MAX64 -> u16_at (E:=E) (pre ++ b0 :: b1 :: r) pos = Ok (le_combine [b0; b1]).
Proof.
  intros -> Hm. unfold u16_at, byte_at, idx. pose proof (len_nonneg pre).
  rewrite lookup_app_r by (unfold len in *; lia).
  replace (Z.to_nat (len pre) - length pre)%nat with 0%nat by (unfold len; lia). cbn.
  rewrite add64_Ok by lia. cbn. rewrite lookup_app_r by (unfold len in *; lia).
  by replace (Z.to_nat (len pre + 1) - length pre)%nat with 1%nat by (unfold len; lia).
Qed.

Lemma read_field_spec pre rest no_len no_text bad :
  len (pre ++ rest) <= U32_MAX ->
  match read_field (pre ++ rest) (len (pre ++ rest)) (len pre) no_len no_text bad with
  | Ok (s, pos) => exists rest', field_at rest s rest' /\ pos = len pre + len (field_bytes s)
  | Err _ => forall s rest', ~ field_at rest s rest'
  | Panic => False
  end.
Proof.
  intros Hmax. unfold read_field. rewrite len_app in *. pose proof (len_nonneg pre). pose proof (len_nonneg rest).
  unfold U32_MAX in Hmax. rewrite add64_Ok by (unfold MAX64; lia). cbn [mbind outcome_bind].
  destruct (Z.ltb_spec (len pre + len rest) (len pre + 2)); cbn [guard_err mbind outcome_bind].
  { intros s r Hf%field_at_len. pose proof (str_len_nonneg s). pose proof (len_nonneg r). lia. }
  destruct rest as [|b0 [|b1 r]]; [rewrite ?len_cons in H1; change (len []) with 0 in H1; lia..|].
  rewrite u16_at_app by (unfold MAX64; lia). cbn [mbind outcome_bind].
  pose proof (u16_range b0 b1) as Hn. set (n := le_combine [b0; b1]) in *. unfold U16_MAX in Hn.
  rewrite !add64_Ok by (unfold MAX64; lia).
  rewrite !len_cons in *. cbn [mbind outcome_bind].
  destruct (Z.ltb_spec (len pre + (1 + (1 + len r))) (len pre + 2 + n)); cbn [guard_err mbind outcome_bind].
  { intros s r' Hf. pose proof (field_at_inv _ _ _ _ _ Hf) as (Hs & -> & _). fold n in Hs.
    unfold str_len in Hs. rewrite len_app in *. pose proof (len_nonneg r'). lia. }
  unfold index_range. replace (pre ++ b0 :: b1 :: r) with ((pre ++ [b0; b1]) ++ takeZ n r ++ dropZ n r)
    by (rewrite take_dropZ, <-app_assoc; done).
  rewrite get_range_app by (rewrite ?len_takeZ, len_app by lia; change (len [b0; b1]) with 2; lia).
  cbn [unwrap mbind outcome_bind]. destruct (from_utf8 (takeZ n r)) as [s|] eqn:Hu; cbn [ok_or mbind outcome_bind].
  - apply from_utf8_Some in Hu as [Hs Ht]. assert (str_len s = n) as Hl by (unfold str_len; rewrite <-Ht; apply len_takeZ; lia).
    exists (dropZ n r). unfold field_at, field_bytes. rewrite Hl, <-Ht.
    rewrite len_app, len_le_split, len_takeZ by lia. unfold U16_MAX. split; [|simpl; lia]. split; [|split; [done|lia]].
    change 2%nat with (length [b0; b1]). unfold n at 1. rewrite split_le_combine. by rewrite <-app_assoc, take_dropZ.
  - intros s r' Hf. pose proof (field_at_inv _ _ _ _ _ Hf) as (Hs & -> & Hu'). fold n in Hs.
    rewrite takeZ_app in Hu by (unfold str_len in Hs; lia). congruence.
Qed.

(** The same for an entry and for a list of entries *)
Definition entry_at (rest : list byte) (e : MetadataEntry) (rest' : list byte) : Prop :=
  rest = entry_bytes e ++ rest' /\ valid_entry e /\ storable_entry e.

Lemma entry_at_fields rest e rest' :
  entry_at rest e rest' <->
  (exists mid, field_at rest (key e) mid /\ field_at mid (value e) rest') /\
  metadata_entry_is_canonical (key e) (value e) = true.
Proof.
  unfold entry_at, field_at, entry_bytes, valid_entry, storable_entry. split.
  - intros (-> & [? ?] & ? & ? & ?). rewrite <-app_assoc. by split; [eexists|].
  - intros [(mid & (-> & ? & ?) & -> & ? & ?) ?]. by rewrite <-app_assoc.
Qed.

Lemma read_entry_spec pre rest es i :
  len (pre ++ rest) <= U32_MAX ->
  match read_entry (pre ++ rest) (len (pre ++ rest)) (len pre, es) i with
  | Ok (pos, es') => exists e rest', entry_at rest e rest' /\ pos = len pre + len (entry_bytes e) /\ es' = es ++ [e]
  | Err _ => forall e rest', ~ entry_at rest e rest'
  | Panic => False
  end.
Proof.
  intros Hmax. unfold read_entry.
  pose proof (read_field_spec pre rest (lit "truncated metadata blob (key_len)")
    (lit "truncated metadata blob (key)") (lit "invalid UTF-8 in metadata key") Hmax) as Hk.
  destruct (read_field _ _ (len pre) _ _ _) as [[k p]|err|]; cbn [mbind outcome_bind fst snd]; [|setoid_rewrite entry_at_fields; naive_solver|done].
  destruct Hk as (mid & Hk & ->). pose proof Hk as (Hr & _ & _). rewrite Hr, app_assoc in Hmax |- *.
  rewrite <-len_app. pose proof (read_field_spec (pre ++ field_bytes k) mid (lit "truncated metadata blob (val_len)")
    (lit "truncated metadata blob (value)") (lit "invalid UTF-8 in metadata value") Hmax) as Hv.
  destruct (read_field _ _ (len (pre ++ field_bytes k)) _ _ _) as [[v p]|err|]; cbn [mbind outcome_bind fst snd]; [..|done].
  - destruct Hv as (rest' & Hv & ->). destruct (metadata_entry_is_canonical k v) eqn:Hc; cbn [negb guard_err mbind outcome_bind].
    + exists (MkEntry k v), rest'. rewrite <-Hr, entry_at_fields. cbn [key value]. unfold entry_bytes. cbn [key value].
      rewrite !len_app. split; [split; [by exists mid|done]|split; [lia|done]].
    + intros e r He. rewrite <-Hr in He. apply entry_at_fields in He as [(mid' & H1 & H2) H3].
      destruct (field_at_fun _ _ _ _ _ Hk H1) as [-> ->]. destruct (field_at_fun _ _ _ _ _ Hv H2) as [-> ->]. congruence.
  - intros e r He. rewrite <-Hr in He. apply entry_at_fields in He as [(mid' & H1 & H2) H3].
    destruct (field_at_fun _ _ _ _ _ Hk H1) as [-> ->]. naive_solver.
Qed.

Lemma entry_at_fun rest e1 r1 e2 r2 : entry_at rest e1 r1 -> entry_at rest e2 r2 -> e1 = e2 /\ r1 = r2.
Proof.
  rewrite !entry_at_fields. intros [(m1 & H1 & H1') _] [(m2 & H2 & H2') _].
  destruct (field_at_fun _ _ _ _ _ H1 H2) as [Hk ->], (field_at_fun _ _ _ _ _ H1' H2') as [Hv ->].
  destruct e1, e2. simpl in *. by subst.
Qed.

Definition entries_at (rest : list byte) (es : list MetadataEntry) (rest' : list byte) : Prop :=
  rest = body_bytes es ++ rest' /\ Forall valid_entry es /\ Forall storable_entry es.

Lemma entries_at_cons rest e es rest' :
  entries_at rest (e :: es) rest' <-> exists mid, entry_at rest e mid /\ entries_at mid es rest'.
Proof.
  unfold entries_at, entry_at. rewrite !list.Forall_cons, body_bytes_cons. split.
  - intros (-> & [? ?] & ? & ?). rewrite <-app_assoc. by eexists.
  - intros (mid & (-> & ? & ?) & -> & ? & ?). by rewrite <-app_assoc.
Qed.

Lemma entries_at_fun es1 : forall rest es2 r1 r2,
  entries_at rest es1 r1 -> entries_at rest es2 r2 -> length es1 = length es2 -> es1 = es2.
Proof.
  induction es1 as [|e1 es1 IH]; intros rest [|e2 es2] r1 r2; [done..|]. rewrite !entries_at_cons.
  intros (m1 & H1 & H1') (m2 & H2 & H2') [= Hl]. destruct (entry_at_fun _ _ _ _ _ H1 H2) as [-> ->].
  f_equal. by eapply IH.
Qed.

Lemma read_entries_spec n : forall k pre rest es,
  len (pre ++ rest) <= U32_MAX ->
  match foldM (read_entry (pre ++ rest) (len (pre ++ rest))) (len pre, es) (seq k n) with
  | Ok (pos, es') => exists new rest', entries_at rest new rest' /\ length new = n /\
      pos = len pre + len (body_bytes new) /\ es' = es ++ new
  | Err _ => forall new rest', length new = n -> ~ entries_at rest new rest'
  | Panic => False
  end.
Proof.
  induction n as [|n IH]; intros k pre rest es Hmax; cbn [foldM seq].
  { exists [], rest. by rewrite app_nil_r, Z.add_0_r. }
  pose proof (read_entry_spec pre rest es k Hmax) as He.
  destruct (read_entry _ _ _ _) as [[p es']|err|]; cbn [mbind outcome_bind]; [..|done].
  2: { intros [|e new] rest' [=]; rewrite entries_at_cons; naive_solver. }
  destruct He as (e & mid & He & -> & ->). pose proof He as (Hr & _ & _). rewrite <-len_app.
  specialize (IH (S k) (pre ++ entry_bytes e) mid (es ++ [e])). rewrite <-app_assoc, <-Hr in IH. specialize (IH Hmax).
  destruct (foldM _ _ _) as [[p es']|err|]; [..|done].
  - destruct IH as (new & rest' & Hn & Hl & -> & ->). exists (e :: new), rest'. rewrite entries_at_cons, body_bytes_cons.
    rewrite !len_app, <-app_assoc. simpl. repeat split; [by eexists|lia|lia].
  - intros [|e' new] rest' [= Hl]; rewrite entries_at_cons; intros (m' & H1 & H2).
    destruct (entry_at_fun _ _ _ _ _ He H1) as [-> ->]. naive_solver.
Qed.

Lemma le_split_eq l w n : length l = w -> 0 <= n < 2 ^ (8 * Z.of_nat w) -> l = le_split w n <-> le_combine l = n.
Proof.
  intros <- Hn. split; [intros ->; rewrite le_combine_split; apply Z.mod_small; by rewrite Z.mul_comm in Hn|].
  intros <-. by rewrite split_le_combine.
Qed.

Lemma app_eq_iff {A} (l1 l2 k1 k2 : list A) : length l1 = length k1 -> l1 ++ l2 = k1 ++ k2 <-> l1 = k1 /\ l2 = k2.
Proof. intros Hl. split; [by apply app_inj_1|by intros [-> ->]]. Qed.

Lemma blob_bytes_eq d0 d1 d2 d3 d4 d5 d6 rest b :
  len (entries b) <= U16_MAX -> 7 + len (body_bytes (entries b)) <= U32_MAX ->
  d0 :: d1 :: d2 :: d3 :: d4 :: d5 :: d6 :: rest = blob_bytes b <->
  le_combine [d0; d1; d2; d3] = 7 + len rest /\ byte.unsigned d4 = FORMAT_VERSION /\
  le_combine [d5; d6] = len (entries b) /\ rest = body_bytes (entries b).
Proof.
  intros Hc Ht. unfold U16_MAX, U32_MAX in *. pose proof (len_nonneg (entries b)).
  pose proof (len_nonneg (body_bytes (entries b))). unfold blob_bytes.
  change (d0 :: d1 :: d2 :: d3 :: d4 :: d5 :: d6 :: rest) with ([d0; d1; d2; d3] ++ [d4] ++ [d5; d6] ++ rest).
  rewrite !app_eq_iff by (by rewrite length_le_split). rewrite !le_split_eq by (done || simpl; lia || (cbn; unfold FORMAT_VERSION; lia)).
  rewrite le_combine_1. naive_solver.
Qed.

(** The entries and the check that nothing follows them *)
Lemma read_body_spec hdr rest count err :
  len hdr = 7 -> 0 <= count -> len (hdr ++ rest) <= U32_MAX ->
  match r ← foldM (read_entry (hdr ++ rest) (len (hdr ++ rest))) (7, []) (seq 0 (Z.to_nat count));
        _ ← guard_err (negb (fst r =? len (hdr ++ rest))) err;
        mret (MkBlob (snd r)) with
  | Ok b => valid b /\ Forall storable_entry (entries b) /\ len (entries b) = count /\ rest = body_bytes (entries b)
  | Err _ => forall b, valid b -> Forall storable_entry (entries b) -> len (entries b) = count ->
      rest <> body_bytes (entries b)
  | Panic => False
  end.
Proof.
  intros Hh Hc Hmax. pose proof (read_entries_spec (Z.to_nat count) 0 hdr rest [] Hmax) as Hr. rewrite Hh in Hr.
  destruct (foldM _ _ _) as [[pos es]|e|]; cbn [mbind outcome_bind fst snd]; [..|done].
  2: { intros b Hb Hs Hcount ->. apply (Hr (entries b) []); [unfold len in Hcount; lia|].
       unfold entries_at. by rewrite app_nil_r. }
  destruct Hr as (new & rest' & Hat & Hl & -> & ->). rewrite len_app, Hh. pose proof Hat as (Hrest & Hv & Hs).
  destruct (Z.eqb_spec (7 + len (body_bytes new)) (7 + len rest)) as [He|He]; cbn [negb guard_err mbind outcome_bind].
  - rewrite Hrest, len_app in He. assert (rest' = []) as -> by (apply len_nil_inv; lia). rewrite app_nil_r in Hrest.
    cbn. repeat split; [done|done| |done]. unfold len. lia.
  - intros b Hb Hbs Hcount Hrb. apply He. rewrite Hrb. do 2 f_equal.
    enough (new = entries b) as -> by done.
    eapply entries_at_fun; [exact Hat|unfold entries_at; rewrite Hrb, app_nil_r; done|unfold len in Hcount; lia].
Qed.

Lemma deserialize_spec data :
  match deserialize data with
  | Ok b => valid b /\ storable b /\ data = blob_bytes b
  | Err _ => forall b, valid b -> storable b -> data <> blob_bytes b
  | Panic => False
  end.
Proof.
  unfold deserialize, MIN_BLOB_SIZE. destruct (Z.ltb_spec (len data) 7) as [Hl|Hl]; cbn [guard_err mbind outcome_bind].
  { intros b _ _ ->. unfold blob_bytes in Hl. rewrite !len_app, !len_le_split in Hl.
    pose proof (len_nonneg (body_bytes (entries b))). lia. }
  destruct data as [|d0 [|d1 [|d2 [|d3 [|d4 [|d5 [|d6 rest]]]]]]];
    [rewrite ?len_cons in Hl; change (len []) with 0 in Hl; lia..|].
  set (data := d0 :: _).
  change (byte_at (E:=ServerError) data 0) with (@Ok ServerError _ d0).
  change (byte_at (E:=ServerError) data 1) with (@Ok ServerError _ d1).
  change (byte_at (E:=ServerError) data 2) with (@Ok ServerError _ d2).
  change (byte_at (E:=ServerError) data 3) with (@Ok ServerError _ d3). cbn [mbind outcome_bind].
  assert (len data = 7 + len rest) as Hlen by (unfold data; rewrite !len_cons; lia).
  pose proof (le_combine_bound [d0; d1; d2; d3]) as Ht. set (total := le_combine [d0; d1; d2; d3]) in *.
  destruct (negb (total =? len data)) eqn:Hne; rewrite ?orb_true_r, ?orb_false_r; cbn [guard_err mbind outcome_bind].
  { intros b _ (Hc & _ & Hb) (H1 & _ & _ & _)%blob_bytes_eq; [|done..]. fold total in H1. lia. }
  assert (total = len data) as Htot by lia. rewrite Htot. replace (len data <? 7) with false by (pose proof (len_nonneg rest); lia). cbn [guard_err mbind outcome_bind].
  replace (index_range data 0 (len data)) with (@Ok ServerError _ data)
    by (unfold index_range, get_range; rewrite (proj2 (Z.leb_le 0 _)), Z.leb_refl by lia; cbn;
        by rewrite dropZ_0, takeZ_all by lia).
  cbn [mbind outcome_bind]. change (byte_at (E:=ServerError) data 4) with (@Ok ServerError _ d4). cbn [mbind outcome_bind].
  destruct (Z.eqb_spec (byte.unsigned d4) FORMAT_VERSION) as [Hv|Hv]; cbn [negb guard_err mbind outcome_bind].
  2: { intros b _ (Hc & _ & Hb) (_ & H2 & _ & _)%blob_bytes_eq; done. }
  change (u16_at (E:=ServerError) data 5) with (u16_at (E:=ServerError) ([d0; d1; d2; d3; d4] ++ d5 :: d6 :: rest) 5).
  rewrite u16_at_app by done. cbn [mbind outcome_bind]. pose proof (u16_range d5 d6) as Hn.
  change data with ([d0; d1; d2; d3; d4; d5; d6] ++ rest) at 1 2 3.
  assert (len data <= U32_MAX) as Hmax by (unfold U32_MAX; cbn in Ht; lia).
  pose proof (read_body_spec [d0; d1; d2; d3; d4; d5; d6] rest (le_combine [d5; d6])
    (MetadataBlobError (lit "trailing bytes in metadata blob")) eq_refl (proj1 Hn) Hmax) as Hr.
  destruct (_ ≫= _) as [b|e|]; [..|done].
  - destruct Hr as (Hb & Hs & Hc & Hrest). split; [done|].
    assert (storable b) as Hst by (split; [lia|split; [done|rewrite <-Hrest; lia]]). split; [done|]. apply blob_bytes_eq; [apply Hst..|].
    fold total. repeat split; done || lia.
  - intros b Hb (Hc & Hs & Hmb) (_ & _ & Hcount & Hrest)%blob_bytes_eq; [|done..]. by eapply Hr.
Qed.

(** ** The headers *)

Lemma bytes_cons c s : bytes (c :: s) = (byte.unsigned <$> char_bytes c) ++ bytes s.
Proof. unfold bytes, as_bytes. by rewrite bind_cons, fmap_app. Qed.

Lemma char_bytes_ascii c : 0 <= c < 128 -> byte.unsigned <$> char_bytes c = [c].
Proof. intros Hc. unfold char_bytes. rewrite (proj2 (Z.ltb_lt c 0x80)) by lia. cbn. by rewrite unsigned_of_Z by lia. Qed.

Lemma char_bytes_high c : 128 <= c <= 0x10FFFF -> Forall (fun b => 128 <= b < 256) (byte.unsigned <$> char_bytes c).
Proof.
  intros Hc. unfold char_bytes. rewrite (proj2 (Z.ltb_ge c 0x80)) by lia.
  destruct (Z.ltb_spec c 0x800); [|destruct (Z.ltb_spec c 0x10000)]; cbn [fmap list_fmap];
    repeat (constructor; [rewrite unsigned_of_Z; Z.to_euclidean_division_equations; lia|]); constructor.
Qed.

(** A predicate on bytes that admits the bytes of all characters above ASCII *)
Lemma bytes_forallb (f : Z -> bool) s :
  (forall b, 128 <= b < 256 -> f b = true) -> Forall scalar s ->
  forallb f (bytes s) = true <-> Forall (fun c => c < 128 -> f c = true) s.
Proof.
  intros Hf. induction 1 as [|c s Hc _ IH]; [by split|]. rewrite bytes_cons, forallb_app, andb_true_iff, IH, list.Forall_cons.
  destruct (Z.lt_ge_cases c 128) as [Hl|Hl].
  - rewrite char_bytes_ascii by (unfold scalar in Hc; lia). cbn [forallb]. rewrite andb_true_r. naive_solver.
  - assert (forallb f (byte.unsigned <$> char_bytes c) = true); [|naive_solver lia].
    apply forallb_forall. intros b Hb. apply Hf.
    pose proof (char_bytes_high c ltac:(unfold scalar in Hc; lia)) as Hh. rewrite list.Forall_forall in Hh.
    by apply Hh, list_elem_of_In.
Qed.

Lemma is_ascii_true s : Forall scalar s -> is_ascii s = true <-> Forall (fun c => c < 128) s.
Proof.
  unfold is_ascii. induction 1 as [|c s Hc _ IH]; [by split|]. rewrite bytes_cons, forallb_app, andb_true_iff, IH, list.Forall_cons.
  destruct (Z.lt_ge_cases c 128) as [Hl|Hl].
  - rewrite char_bytes_ascii by (unfold scalar in Hc; lia). cbn [forallb]. rewrite (proj2 (Z.ltb_lt _ _)) by lia. naive_solver.
  - pose proof (char_bytes_high c ltac:(unfold scalar in Hc; lia)) as Hh.
    assert (length (char_bytes c) <> 0)%nat as Hnz
      by (unfold char_bytes; repeat destruct (_ <? _); done).
    destruct (char_bytes c) as [|b bs]; [done|]. cbn [fmap list_fmap forallb] in *.
    inversion_clear Hh as [|? ? Hb]. rewrite (proj2 (Z.ltb_ge _ _)) by lia. split; [by intros [? ?]|lia].
Qed.

Lemma has_invalid_spec s :
  Forall scalar s -> has_invalid_header_bytes s = false <-> Forall (fun c => 32 <= c /\ c <> 127) s.
Proof.
  intros Hs. unfold has_invalid_header_bytes.
  replace (existsb _ _) with (negb (forallb (fun b => negb ((b <? 0x20) || (b =? 0x7F))) (bytes s))).
  2: { induction (bytes s) as [|b l IH]; [done|]. cbn [existsb forallb]. by rewrite negb_andb, negb_involutive, IH. }
  rewrite negb_false_iff, bytes_forallb by (done || lia).
  rewrite !list.Forall_forall. apply forall_proper. intros c. split; intros Hc Hin; specialize (Hc Hin); lia.
Qed.

Lemma scalar_lowercase s : Forall scalar s -> Forall scalar (to_ascii_lowercase s).
Proof.
  intros Hs. apply Forall_fmap. eapply list.Forall_impl; [exact Hs|]. intros c Hc. unfold compose, scalar in *.
  destruct (in_range c 65 90) eqn:E; unfold in_range in E; lia.
Qed.

Lemma lowercase_tokens s :
  Forall scalar s ->
  forallb (fun b => is_header_name_token_byte b && negb (is_ascii_uppercase b)) (bytes (to_ascii_lowercase s)) =
  forallb is_header_name_token_byte (bytes (to_ascii_lowercase s)).
Proof.
  intros Hs. assert (forallb (fun b => negb (is_ascii_uppercase b)) (bytes (to_ascii_lowercase s)) = true) as Hu.
  { apply bytes_forallb; [unfold is_ascii_uppercase, in_range; lia|by apply scalar_lowercase|].
    apply Forall_fmap, Forall_true. intros c. unfold compose, is_ascii_uppercase.
    destruct (in_range c 65 90) eqn:E; unfold in_range in *; lia. }
  induction (bytes (to_ascii_lowercase s)) as [|b l IH]; [done|]. cbn [forallb] in *.
  apply andb_true_iff in Hu as [Hb Hl]. by rewrite Hb, andb_true_r, IH.
Qed.

(** What is stored of a value: a value with non-ASCII bytes as Latin-1 *)
Definition stored (v : str) : str := if negb (is_ascii v) then bytes v else v.

Lemma bytes_range s : Forall (fun b => 0 <= b < 256) (bytes s).
Proof. apply Forall_fmap, Forall_true. intros b. apply byte.unsigned_range. Qed.

Lemma stored_latin1 v : Forall scalar v -> Forall (fun c => 0 <= c < 256) (stored v).
Proof.
  intros Hv. unfold stored. destruct (is_ascii v) eqn:Ha; cbn [negb]; [|apply bytes_range].
  apply is_ascii_true in Ha; [|done]. rewrite !list.Forall_forall in *. intros c Hc.
  specialize (Hv c Hc). specialize (Ha c Hc). unfold scalar in Hv. lia.
Qed.

Lemma latin1_scalar s : Forall (fun c => 0 <= c < 256) s -> Forall scalar s.
Proof. intros Hs. eapply list.Forall_impl; [exact Hs|]. unfold scalar. lia. Qed.

Lemma stored_invalid v :
  Forall scalar v -> has_invalid_header_bytes v = false -> has_invalid_header_bytes (stored v) = false.
Proof.
  intros Hv Hi. unfold stored. destruct (is_ascii v); [done|]. cbn [negb].
  apply has_invalid_spec; [apply latin1_scalar, bytes_range|]. unfold has_invalid_header_bytes in Hi.
  induction (bytes v) as [|b l IH]; constructor; cbn [existsb] in Hi; [lia|apply IH; lia].
Qed.

(** The headers [from_headers] accepts, and the entry it makes of one *)
Definition meta_name (name : str) : bool := starts_with (to_ascii_lowercase name) META_PREFIX.
Definition accepted (h : str * str) : Prop :=
  meta_name (fst h) = true ->
  Forall (fun c => 32 <= c /\ c <> 127) (snd h) /\
  forallb is_header_name_token_byte (bytes (to_ascii_lowercase (fst h))) = true.
Definition header_entry (h : str * str) : option MetadataEntry :=
  if meta_name (fst h) then Some (MkEntry (to_ascii_lowercase (fst h)) (stored (snd h))) else None.
Definition valid_header (h : str * str) : Prop := Forall scalar (fst h) /\ Forall scalar (snd h).

Lemma header_canonical name v :
  Forall scalar name -> Forall scalar v -> meta_name name = true -> has_invalid_header_bytes v = false ->
  metadata_entry_is_canonical (to_ascii_lowercase name) (stored v) =
  forallb is_header_name_token_byte (bytes (to_ascii_lowercase name)).
Proof.
  intros Hn Hv Hm Hi. unfold metadata_entry_is_canonical. unfold meta_name in Hm.
  rewrite Hm, lowercase_tokens, stored_invalid by done. cbn [negb andb]. rewrite andb_true_r.
  replace (forallb _ (stored v)) with true; [apply andb_true_r|]. symmetry. apply forallb_forall. intros c Hc%list_elem_of_In.
  pose proof (stored_latin1 v Hv) as Hl. rewrite list.Forall_forall in Hl. specialize (Hl c Hc). lia.
Qed.

Lemma push_header_spec es h :
  valid_header h ->
  match push_header es h with
  | Ok es' => accepted h /\ es' = es ++ option_list (header_entry h)
  | Err _ => ~ accepted h
  | Panic => False
  end.
Proof.
  destruct h as [name v]. intros [Hn Hv]. unfold accepted, header_entry, push_header. cbn [fst snd] in *.
  change (starts_with (to_ascii_lowercase name) META_PREFIX) with (meta_name name).
  destruct (meta_name name) eqn:Hm; [|split; [done|by rewrite app_nil_r]].
  pose proof (has_invalid_spec v Hv) as Hi.
  destruct (has_invalid_header_bytes v) eqn:Hb; cbn [guard_err mbind outcome_bind]; [naive_solver|].
  cbv zeta. change (if negb (is_ascii v) then bytes v else v) with (stored v). rewrite (header_canonical name v) by done.
  destruct (forallb _ _) eqn:Ht; cbn; naive_solver.
Qed.

Lemma push_headers_spec hs : forall es,
  Forall valid_header hs ->
  match foldM push_header es hs with
  | Ok es' => Forall accepted hs /\ es' = es ++ omap header_entry hs
  | Err _ => ~ Forall accepted hs
  | Panic => False
  end.
Proof.
  induction hs as [|h hs IH]; intros es Hv; cbn [foldM]; [by rewrite app_nil_r|].
  inversion_clear Hv as [|? ? Hh Hhs]. pose proof (push_header_spec es h Hh) as Hp.
  destruct (push_header es h) as [es'|e|]; cbn [mbind outcome_bind]; [|by intros Hf; inversion_clear Hf|done].
  destruct Hp as [Ha ->]. specialize (IH (es ++ option_list (header_entry h)) Hhs).
  destruct (foldM _ _ _) as [es'|e|]; [|by intros Hf; inversion_clear Hf|done].
  destruct IH as [Hall ->]. split; [by constructor|]. rewrite <-app_assoc. f_equal. cbn [omap list_omap].
  by destruct (header_entry h).
Qed.

Lemma header_entry_stored h e :
  valid_header h -> accepted h -> header_entry h = Some e ->
  valid_entry e /\ metadata_entry_is_canonical (key e) (value e) = true.
Proof.
  destruct h as [name v]. intros [Hn Hv] Ha. unfold header_entry, accepted in *. cbn [fst snd] in *.
  destruct (meta_name name) eqn:Hm; [|done]. intros [= <-]. destruct (Ha eq_refl) as [Hi Ht].
  split; [split; [by apply scalar_lowercase|by apply latin1_scalar, stored_latin1]|]. cbn [key value].
  by rewrite header_canonical by (done || by apply has_invalid_spec).
Qed.

Lemma header_entries_stored hs :
  Forall valid_header hs -> Forall accepted hs ->
  Forall (fun e => valid_entry e /\ metadata_entry_is_canonical (key e) (value e) = true) (omap header_entry hs).
Proof.
  intros Hv Ha. rewrite !list.Forall_forall in *. intros e (h & Hin & He)%list_elem_of_omap.
  by apply (header_entry_stored h); [apply Hv|apply Ha|].
Qed.

Lemma get_header_entries hs k :
  starts_with k META_PREFIX = true ->
  get (MkBlob (omap header_entry hs)) k =
  (fun h => stored (snd h)) <$> List.find (fun h => bool_decide (to_ascii_lowercase (fst h) = k)) hs.
Proof.
  intros Hk. unfold get. cbn [entries]. induction hs as [|[name v] hs IH]; [done|]. cbn [omap list_omap List.find fst].
  unfold header_entry at 1. cbn [fst snd].
  destruct (bool_decide_reflect (to_ascii_lowercase name = k)) as [He|He].
  - unfold meta_name. rewrite He, Hk. cbn [List.find key]. by rewrite bool_decide_eq_true_2.
  - destruct (meta_name name); [|exact IH]. cbn [List.find key]. by rewrite bool_decide_eq_false_2.
Qed.

Lemma deserialize_Ok data b : deserialize data = Ok b <-> valid b /\ storable b /\ data = blob_bytes b.
Proof.
  pose proof (deserialize_spec data) as Hd. split.
  - intros He. by rewrite He in Hd.
  - intros (Hv & Hs & ->). destruct (deserialize (blob_bytes b)) as [b'|e|] eqn:E; [|by destruct (Hd b)|done].
    destruct Hd as (Hv' & Hs' & Heq). f_equal.
    destruct b as [es], b' as [es']. f_equal. cbn [entries] in *.
    assert (entries_at (body_bytes es) es []) as H1 by (unfold entries_at; rewrite app_nil_r; exact (conj eq_refl (conj Hv (proj1 (proj2 Hs))))).
    unfold blob_bytes in Heq. rewrite !app_eq_iff in Heq by (by rewrite !length_le_split).
    destruct Heq as (_ & _ & Hc & Hb). cbn [entries] in *.
    assert (entries_at (body_bytes es) es' []) as H2 by (unfold entries_at; rewrite Hb, app_nil_r; exact (conj eq_refl (conj Hv' (proj1 (proj2 Hs'))))).
    eapply entries_at_fun; [exact H2|exact H1|].
    apply (f_equal le_combine) in Hc. rewrite !le_combine_split in Hc. destruct Hs as (Hn & _), Hs' as (Hn' & _).
    cbn [entries] in *. unfold U16_MAX in *. pose proof (len_nonneg es). pose proof (len_nonneg es').
    rewrite !Z.mod_small in Hc by (cbn; lia). unfold len in Hc. lia.
Qed.

Lemma serialize_Ok b data : serialize b = Ok data <-> storable b /\ data = blob_bytes b.
Proof.
  pose proof (serialize_spec b) as Hs. split; [intros He; by rewrite He in Hs|].
  intros [Hst ->]. destruct (serialize b) as [d|e|]; [|done..]. destruct Hs as [_ ->]. done.
Qed.

(** ** Properties *)

(** C26: The stored representation is exact.  [deserialize] and [serialize] never
    panic (the debug assertion on the length included).  [serialize] succeeds
    exactly on the blobs whose entries are canonical and whose sizes fit, with the
    documented bytes.  [deserialize] accepts exactly the outputs of [serialize], and
    returns the blob that was serialised: no other bytes decode, and two blobs never
    share a representation. *)
Theorem metadata_blob_exact data b :
  deserialize data <> Panic /\ serialize b <> Panic /\
  (serialize b = Ok data <-> storable b /\ data = blob_bytes b) /\
  (deserialize data = Ok b <-> valid b /\ serialize b = Ok data).
Proof.
  rewrite deserialize_Ok, serialize_Ok. pose proof (deserialize_spec data). pose proof (serialize_spec b).
  split; [by destruct (deserialize data)|]. split; [by destruct (serialize b)|done].
Qed.

(** Request headers become canonical entries.  [from_headers] succeeds exactly when
    every x-amz-meta-* header has a name of token characters and a value without
    control characters; the blob then holds those headers in order, names in lower
    case, values with non-ASCII bytes as Latin-1 characters; [get] returns the value
    of the first header of a name.  What it returns can be stored whenever its sizes
    fit, and reading it back gives the same blob. *)
Theorem metadata_headers headers :
  Forall valid_header headers ->
  from_header_iter headers <> Panic /\
  (forall b, from_header_iter headers = Ok b <-> Forall accepted headers /\ b = MkBlob (omap header_entry headers)) /\
  (forall b, from_header_iter headers = Ok b ->
     (forall k, starts_with k META_PREFIX = true ->
        get b k = (fun h => stored (snd h)) <$> List.find (fun h => bool_decide (to_ascii_lowercase (fst h) = k)) headers) /\
     (len (entries b) <= U16_MAX -> Forall (fun e => str_len (key e) <= U16_MAX /\ str_len (value e) <= U16_MAX) (entries b) ->
      7 + len (body_bytes (entries b)) <= U32_MAX ->
      exists data, serialize b = Ok data /\ deserialize data = Ok b)).
Proof.
  intros Hv. pose proof (push_headers_spec headers [] Hv) as Hp.
  assert (forall b, from_header_iter headers = Ok b <-> Forall accepted headers /\ b = MkBlob (omap header_entry headers)) as Hok.
  { intros b. unfold from_header_iter. destruct (foldM _ _ _) as [es|e|]; cbn; [|naive_solver..].
    destruct Hp as [Ha ->]. split; [by intros [= <-]|by intros [_ ->]]. }
  split; [unfold from_header_iter; by destruct (foldM _ _ _)|]. split; [exact Hok|].
  intros b [Ha ->]%Hok. split; [intros k Hk; by apply get_header_entries|]. cbn [entries]. intros Hc Hl Ht.
  pose proof (header_entries_stored headers Hv Ha) as Hes.
  assert (valid (MkBlob (omap header_entry headers)) /\ storable (MkBlob (omap header_entry headers))) as [Hval Hst].
  { rewrite list.Forall_forall in Hes, Hl. unfold valid, storable, storable_entry. cbn [entries]. rewrite !list.Forall_forall.
    split; [intros e He; apply (Hes e He)|]. split; [done|]. split; [|done]. intros e He.
    destruct (Hes e He), (Hl e He). done. }
  eexists. split; [by apply serialize_Ok|by apply deserialize_Ok].
Qed.

Definition sample_headers : list (str * str) :=
  [(lit "X-Amz-Meta-Author", [0xE9; 0x74; 0xE9]); (lit "Content-Type", lit "text/plain"); (lit "x-amz-meta-v", lit "1")].

Definition sample_blob : MetadataBlob :=
  MkBlob [MkEntry (lit "x-amz-meta-author") [0xC3; 0xA9; 0x74; 0xC3; 0xA9]; MkEntry (lit "x-amz-meta-v") (lit "1")].

Lemma metadata_headers_witness :
  Forall valid_header sample_headers /\
  exists b, from_header_iter sample_headers = Ok b /\ len (entries b) = 2 /\ get b (lit "x-amz-meta-v") = Some (lit "1") /\
    exists data, serialize b = Ok data /\ deserialize data = Ok b.
Proof.
  assert (Forall valid_header sample_headers) as Hv.
  { repeat (constructor; [split; apply latin1_scalar; repeat (constructor; [vm_compute; split; congruence|]); constructor|]).
    constructor. }
  split; [exact Hv|]. destruct (metadata_headers sample_headers Hv) as (_ & _ & H).
  exists sample_blob. assert (from_header_iter sample_headers = Ok sample_blob) as Hb by (vm_compute; reflexivity).
  split; [exact Hb|]. split; [reflexivity|]. split; [vm_compute; reflexivity|].
  apply (H sample_blob Hb); [vm_compute; congruence| |vm_compute; congruence].
  constructor; [split; vm_compute; congruence|]. constructor; [split; vm_compute; congruence|]. constructor.
Defined.

End MetadataBlob.
