(* ===== verification/Conditional.v ===== *)
(** Entity tags and conditional requests: crates/server-core/src/etag.rs and
    conditional.rs, and the extraction of the conditions from the headers of a request,
    crates/server-http/src/http/conditional.rs.  Definitions. *)

From Stdlib Require Import ZifyBool.
From stdpp Require Import strings.
From S2P Require Import Prelude Machine Str Utf8 HttpDate Journal.

Local Open Scope Z_scope.

(** * String methods *)
Module StrMore.
Import Str.

(** [s.split(c)] *)
Fixpoint split (c : Z) (s : str) : list str :=
  match s with
  | [] => [[]]
  | x :: s' =>
      if x =? c then [] :: split c s'
      else match split c s' with
           | [] => [[x]]
           | p :: ps => (x :: p) :: ps
           end
  end.

Fixpoint trim_start_matches (c : Z) (s : str) : str :=
  match s with
  | x :: s' => if x =? c then trim_start_matches c s' else s
  | [] => []
  end.

(** [s.trim_matches(c)] *)
Definition trim_matches (c : Z) (s : str) : str := rev (trim_start_matches c (rev (trim_start_matches c s))).

(** [s.strip_suffix(p)] *)
Definition strip_suffix (p s : str) : option str := (fun r => rev r) <$> strip_prefix (rev p) (rev s).

(** [s.len()] *)
Definition str_len (s : str) : Z := Machine.len (as_bytes s).

(** [result.expect(..)] *)
Definition expect {E F A} (m : outcome F A) : outcome E A :=
  match m with Ok a => Ok a | _ => Panic end.

End StrMore.

(** * etag.rs *)
Module Etag.
Import Str StrMore Machine.

(** The quotation mark *)
Definition QUOTE : Z := 34.

(** [format!("{n:016x}")] *)
Definition hex16 (n : Z) : str := replicate (16 - length (hex_u64 n)) 48 ++ hex_u64 n.

Definition format_etag (crc64 : Z) : str := [QUOTE] ++ hex16 crc64 ++ [QUOTE].

Definition parse_etag (etag : str) : option Z :=
  let hex := trim_matches QUOTE etag in
  if negb (str_len hex =? 16) then None else from_str_radix 16 MAX64 hex.

Definition crc64_to_etag_bytes (crc64 : Z) : list byte := Journal.to_be_bytes 8 crc64.

Definition compute_multipart_etag `{Checksum64} {E} (part_etag_bytes : list (list byte)) :
    outcome E (list byte * str) :=
  let buf := foldl (fun acc bytes => acc ++ bytes) [] part_etag_bytes in
  composite_crc ← checksum64 buf;
  let etag_bytes := crc64_to_etag_bytes composite_crc in
  let etag_str := [QUOTE] ++ hex16 composite_crc ++ lit "-" ++ display_u64 (len part_etag_bytes) ++ [QUOTE] in
  mret (etag_bytes, etag_str).

Definition etag_bytes_to_crc64 (bytes : list byte) : option Z :=
  if negb (len bytes =? 8) then None else Some (Journal.from_be_bytes bytes).

End Etag.

(** * conditional.rs *)
Module Conditional.
Import Str StrMore Etag.

Definition STAR : str := lit "*".

Record SpecificEtag := MkSpecificEtag { as_str : str }.

Definition SpecificEtag_new (value : str) : outcome str SpecificEtag :=
  if bool_decide (trim value = STAR) then Err (lit "wildcard ETag not allowed in this context") else
  let value := trim value in
  let value := default value (v ← strip_prefix [QUOTE] value; strip_suffix [QUOTE] v) in
  Ok (MkSpecificEtag value).

Inductive EtagMatchToken := Any | Specific (etag : SpecificEtag).

Definition EtagMatchList : Type := list EtagMatchToken.

Definition from_delete_header_value {E} (value : str) : outcome E EtagMatchList :=
  let value := trim value in
  if bool_decide (value = STAR) then mret [Any]
  else t ← expect (SpecificEtag_new value); mret [Specific t].

(** The closure that makes a token of an entry *)
Definition token_of {E} (entry : str) : outcome E EtagMatchToken :=
  if bool_decide (entry = STAR) then mret Any
  else t ← expect (SpecificEtag_new entry); mret (Specific t).

Definition from_header_values {E} (values : list str) : outcome E EtagMatchList :=
  foldM (fun tokens entry => t ← token_of entry; mret (tokens ++ [t])) []
    (values ≫= (fun value => trim <$> split 44 (trim value))).

Definition from_header_value {E} (value : str) : outcome E EtagMatchList := from_header_values [value].

Definition etag_matches_one (header_etag object_etag : str) : bool :=
  let h := trim header_etag in
  match parse_etag h, parse_etag object_etag with
  | Some a, Some b => a =? b
  | _, _ => bool_decide (trim_matches QUOTE h = trim_matches QUOTE object_etag)
  end.

Definition list_matches (self : EtagMatchList) (object_etag : str) : bool :=
  existsb (fun token =>
    match token with
    | Any => true
    | Specific etag => etag_matches_one (as_str etag) object_etag
    end) self.

Definition matches_read (self : EtagMatchList) (object_etag : str) : bool :=
  existsb (fun token =>
    match token with
    | Any => true
    | Specific etag =>
        let value := default (as_str etag) (strip_prefix (lit "W/") (as_str etag)) in
        etag_matches_one value object_etag
    end) self.

Record ReadCondition := MkReadCondition {
  if_match : option EtagMatchList;
  if_none_match : option EtagMatchList;
  if_modified_since : option Z;
  if_unmodified_since : option Z
}.

Inductive WriteCondition :=
| WriteNone
| WriteIfMatch (etag : SpecificEtag)
| IfNoneMatchStar.

Inductive DeleteCondition :=
| DeleteNone
| DeleteIfMatch (etags : EtagMatchList)
| IfMatchObjectEtag (etag : str).

(** The variants of [ServerError] the checks return *)
Inductive ConditionError :=
| PreconditionFailed (condition : str)
| NotModified (etag : str) (last_modified : Z).

(** [now] is [storage::clock::current_time_millis()]. *)
Definition check_read_conditions (now : Z) (cond : ReadCondition) (etag : str) (last_modified : Z) :
    outcome ConditionError () :=
  _ ← match if_match cond with
      | Some required => guard_err (negb (matches_read required etag)) (PreconditionFailed (lit "If-Match"))
      | None => mret ()
      end;
  _ ← match if_match cond with
      | Some _ => mret ()
      | None =>
          match if_unmodified_since cond with
          | Some since =>
              guard_err (since / 1000 <? last_modified / 1000) (PreconditionFailed (lit "If-Unmodified-Since"))
          | None => mret ()
          end
      end;
  _ ← match if_none_match cond with
      | Some unwanted => guard_err (matches_read unwanted etag) (NotModified etag last_modified)
      | None => mret ()
      end;
  match if_none_match cond with
  | Some _ => mret ()
  | None =>
      match if_modified_since cond with
      | Some since =>
          guard_err ((since <=? now) && (last_modified / 1000 <=? since / 1000)) (NotModified etag last_modified)
      | None => mret ()
      end
  end.

Definition check_write_conditions (cond : WriteCondition) (existing_etag : option str) : outcome ConditionError () :=
  match cond with
  | WriteNone => Ok ()
  | IfNoneMatchStar =>
      match existing_etag with
      | Some _ => Err (PreconditionFailed (lit "If-None-Match"))
      | None => Ok ()
      end
  | WriteIfMatch required_etag =>
      match existing_etag with
      | None => Err (PreconditionFailed (lit "If-Match"))
      | Some obj_etag =>
          if etag_matches_one (as_str required_etag) obj_etag then Ok () else Err (PreconditionFailed (lit "If-Match"))
      end
  end.

Definition check_delete_conditions (cond : DeleteCondition) (etag : str) : outcome ConditionError () :=
  match cond with
  | DeleteNone => Ok ()
  | DeleteIfMatch required_etag =>
      if list_matches required_etag etag then Ok () else Err (PreconditionFailed (lit "If-Match"))
  | IfMatchObjectEtag required_etag =>
      if etag_matches_one required_etag etag then Ok () else Err (PreconditionFailed (lit "If-Match"))
  end.

Definition check_copy_source_conditions (now : Z) (cond : ReadCondition) (etag : str) (last_modified : Z) :
    outcome ConditionError () :=
  _ ← match if_match cond with
      | Some required =>
          guard_err (negb (matches_read required etag)) (PreconditionFailed (lit "x-amz-copy-source-If-Match"))
      | None => mret ()
      end;
  _ ← match if_match cond with
      | Some _ => mret ()
      | None =>
          match if_unmodified_since cond with
          | Some since =>
              guard_err (since / 1000 <? last_modified / 1000)
                (PreconditionFailed (lit "x-amz-copy-source-If-Unmodified-Since"))
          | None => mret ()
          end
      end;
  _ ← match if_none_match cond with
      | Some unwanted =>
          guard_err (matches_read unwanted etag) (PreconditionFailed (lit "x-amz-copy-source-If-None-Match"))
      | None => mret ()
      end;
  match if_none_match cond with
  | Some _ => mret ()
  | None =>
      match if_modified_since cond with
      | Some since =>
          guard_err ((since <=? now) && (last_modified / 1000 <=? since / 1000))
            (PreconditionFailed (lit "x-amz-copy-source-If-Modified-Since"))
      | None => mret ()
      end
  end.

Definition from_delete_objects_etag {E} (value : str) : outcome E DeleteCondition :=
  if bool_decide (trim value = STAR) then l ← from_header_value value; mret (DeleteIfMatch l)
  else mret (IfMatchObjectEtag value).

(** The policy values of a write *)
Definition if_match_policy_value (self : WriteCondition) : option str :=
  match self with WriteIfMatch etag => Some (as_str etag) | _ => None end.

Definition if_none_match_policy_value (self : WriteCondition) : option str :=
  match self with IfNoneMatchStar => Some STAR | _ => None end.

End Conditional.

(** * server-http/src/http/conditional.rs *)
Module HttpConditional.
Import Str StrMore Etag Conditional Machine HttpDate.

(** A request, by the values of each header in order of the field lines.  [get] of
    the header map returns the first one. *)
Record S3Request := MkS3Request { header_values : str -> list str }.

Definition header (req : S3Request) (name : str) : option str := head (header_values req name).
Definition header_count (req : S3Request) (name : str) : Z := len (header_values req name).

(** The variants of [ServerError] the extraction returns *)
Inductive HeaderError :=
| NotImplemented
| InvalidRequest (reason : str)
| DeleteObjectEmptyIfMatch.

(** [req.header(name).map(|_| EtagMatchList::from_header_values(req.header_values(name)))] *)
Definition match_list {E} (req : S3Request) (name : str) : outcome E (option EtagMatchList) :=
  match header req name with
  | Some _ => l ← from_header_values (header_values req name); mret (Some l)
  | None => mret None
  end.

(** [req.header(name).and_then(parse_http_date)] *)
Definition header_date {E} (req : S3Request) (name : str) : outcome E (option Z) :=
  match header req name with
  | Some value =>
      match parse_http_date value with
      | Ok t => mret (Some t)
      | Err _ => mret None
      | Panic => Panic
      end
  | None => mret None
  end.

Definition read_condition_from_headers {E} (req : S3Request) : outcome E ReadCondition :=
  im ← match_list req (lit "if-match");
  inm ← match_list req (lit "if-none-match");
  ims ← header_date req (lit "if-modified-since");
  ius ← header_date req (lit "if-unmodified-since");
  mret (MkReadCondition im inm ims ius).

Definition copy_source_condition_from_headers {E} (req : S3Request) : outcome E ReadCondition :=
  im ← match_list req (lit "x-amz-copy-source-if-match");
  inm ← match_list req (lit "x-amz-copy-source-if-none-match");
  ims ← header_date req (lit "x-amz-copy-source-if-modified-since");
  ius ← header_date req (lit "x-amz-copy-source-if-unmodified-since");
  mret (MkReadCondition im inm ims ius).

Definition is_star (val : str) : bool := bool_decide (trim val = STAR).

Definition write_condition_from_headers (req : S3Request) : outcome HeaderError WriteCondition :=
  let if_match := header req (lit "if-match") in
  let if_none_match := header req (lit "if-none-match") in
  _ ← guard_err (match if_match with Some val => is_star val | None => false end) NotImplemented;
  _ ← guard_err (match if_none_match with Some val => negb (is_star val) | None => false end) NotImplemented;
  _ ← guard_err (match if_match, if_none_match with Some _, Some _ => true | _, _ => false end) NotImplemented;
  match if_match with
  | Some val =>
      etag ← expect (SpecificEtag_new val);
      _ ← guard_err (bool_decide (as_str etag = STAR)) NotImplemented;
      mret (WriteIfMatch etag)
  | None =>
      match if_none_match with
      | Some _ => mret IfNoneMatchStar
      | None => mret WriteNone
      end
  end.

Definition delete_condition_from_headers (req : S3Request) : outcome HeaderError DeleteCondition :=
  _ ← guard_err (bool_decide (is_Some (header req (lit "x-amz-if-match-last-modified-time")))) NotImplemented;
  _ ← guard_err (bool_decide (is_Some (header req (lit "x-amz-if-match-size")))) NotImplemented;
  _ ← guard_err (1 <? header_count req (lit "if-match"))
        (InvalidRequest (lit "Duplicate header name found: If-Match"));
  _ ← guard_err (match header req (lit "if-match") with Some value => bool_decide (trim value = []) | None => false end)
        DeleteObjectEmptyIfMatch;
  match header req (lit "if-match") with
  | Some val => l ← from_delete_header_value val; mret (DeleteIfMatch l)
  | None => mret DeleteNone
  end.

End HttpConditional.
