(* ===== verification/ConditionalSpec.v ===== *)
(** Conditional requests against entity tags: what the header texts mean and that the
    checks of [Conditional] decide it. *)

From Stdlib Require Import ZifyBool.
From stdpp Require Import strings.
From S2P Require Import Prelude Machine Str Utf8 HttpDate Journal JournalSpec Conditional.

Local Open Scope Z_scope.

Module ConditionalSpec.
Import Str StrMore Etag Conditional HttpConditional HttpDate Machine.

(** ** Splitting *)

Lemma split_cons_ne c s : exists p ps, split c s = p :: ps.
Proof. destruct s as [|x s]; simpl; [by eexists _, _|]. destruct (x =? c); [by eexists _, _|]. destruct (split c s); by eexists _, _. Qed.

Lemma split_cons_white c w s : w <> c -> exists p ps, split c s = p :: ps /\ split c (w :: s) = (w :: p) :: ps.
Proof.
  intros Hw. destruct (split_cons_ne c s) as (p & ps & Hs). exists p, ps. split; [done|]. simpl.
  by rewrite (proj2 (Z.eqb_neq _ _)), Hs by done.
Qed.

Lemma split_snoc_white c w s :
  w <> c -> Forall2 (fun p' p => p' = p \/ p' = p ++ [w]) (split c (s ++ [w])) (split c s).
Proof.
  intros Hw. induction s as [|x s IH]; simpl; [rewrite (proj2 (Z.eqb_neq _ _)) by done; constructor; [by right|constructor]|].
  destruct (x =? c); [by constructor; [left|]|].
  destruct IH as [|p' p ps' ps Hp Hps]; [by constructor; [left|constructor]|].
  constructor; [|done]. destruct Hp as [-> | ->]; [by left|by right].
Qed.

(** Trimming a comma list first makes no difference to its trimmed entries. *)
Lemma split_trim c s : is_whitespace c = false -> trim <$> split c (trim s) = trim <$> split c s.
Proof.
  intros Hc. assert (forall w, white w -> w <> c) as Hne by (intros w Hw ->; unfold white in Hw; congruence).
  trans (trim <$> split c (trim_start s)).
  - replace (trim s) with (trim_end (trim_start s)) by done. generalize (trim_start s). clear s. intros s.
    induction s as [|w s IH] using rev_ind; [done|]. destruct (is_whitespace w) eqn:Hw.
    + rewrite trim_end_snoc, IH by done. clear IH. pose proof (split_snoc_white c w s (Hne w Hw)) as Hf.
      induction Hf as [|p' p ps' ps Hp _ IHf]; [done|]. rewrite !fmap_cons, IHf. f_equal.
      destruct Hp as [-> | ->]; [done|]. by rewrite trim_snoc_white.
    + by rewrite trim_end_snoc_black.
  - induction s as [|w s IH]; [done|]. simpl trim_start. destruct (is_whitespace w) eqn:Hw; [|done].
    destruct (split_cons_white c w s (Hne w Hw)) as (p & ps & Hs & ->). rewrite IH, Hs, !fmap_cons.
    by rewrite trim_cons_white.
Qed.

Lemma split_none c s : Forall (fun x => x <> c) s -> split c s = [s].
Proof. induction 1 as [|x s Hx _ IH]; [done|]. simpl. by rewrite (proj2 (Z.eqb_neq _ _)), IH by done. Qed.

Lemma split_app c s t : Forall (fun x => x <> c) s -> split c (s ++ c :: t) = s :: split c t.
Proof.
  induction 1 as [|x s Hx _ IH]; simpl; [by rewrite Z.eqb_refl|]. by rewrite (proj2 (Z.eqb_neq _ _)), IH by done.
Qed.

(** ** Entity tags *)

(** The tag of an object: of its checksum, or of the checksums of its parts *)
Inductive ObjectTag := Single (crc : Z) | Multipart (crc parts : Z).

#[global] Instance ObjectTag_eq_dec : EqDecision ObjectTag.
Proof. solve_decision. Defined.

Definition valid_tag (t : ObjectTag) : Prop :=
  match t with
  | Single crc => is_u64 crc
  | Multipart crc parts => is_u64 crc /\ is_u64 parts
  end.

Definition tag_text (t : ObjectTag) : str :=
  match t with
  | Single crc => hex16 crc
  | Multipart crc parts => hex16 crc ++ lit "-" ++ display_u64 parts
  end.

Definition quoted (s : str) : str := [QUOTE] ++ s ++ [QUOTE].

(** The characters of tags *)
Definition tag_char (c : Z) : Prop := 48 <= c <= 57 \/ 97 <= c <= 102 \/ c = 45.

Lemma hex16_spec n :
  is_u64 n -> length (hex16 n) = 16%nat /\ Forall tag_char (hex16 n) /\ from_str_radix 16 MAX64 (hex16 n) = Some n.
Proof.
  unfold is_u64, MAX64. intros Hn. destruct (print_parse 16 n (or_intror eq_refl) ltac:(lia)) as (Hp & Hne & Hc & _).
  pose proof (digits_of_length 16 16 20 n [] ltac:(lia) ltac:(lia) ltac:(simpl; lia)) as Hl.
  fold (hex_u64 n) in *. simpl in Hl. unfold hex16. split; [rewrite length_app, length_replicate; lia|]. split.
  - apply list.Forall_app. split; [apply Forall_replicate; unfold tag_char; lia|].
    eapply list.Forall_impl; [exact Hc|]. unfold tag_char. lia.
  - destruct (hex_u64 n) as [|c h] eqn:E; [done|]. inversion_clear Hc as [|? ? Hc0 _].
    rewrite from_str_radix_digit in Hp by lia.
    destruct (16 - length (c :: h))%nat as [|k]; [cbn [replicate app]; by rewrite from_str_radix_digit by lia|].
    cbn [replicate app]. rewrite from_str_radix_digit by lia.
    change (48 :: replicate k 48 ++ c :: h) with (replicate (S k) 48 ++ c :: h). by rewrite parse_digits_zeros.
Qed.

Lemma hex16_inj a b : is_u64 a -> is_u64 b -> hex16 a = hex16 b -> a = b.
Proof. intros Ha Hb Heq. apply hex16_spec in Ha as (_ & _ & Ha), Hb as (_ & _ & Hb). congruence. Qed.

Lemma display_chars n : is_u64 n -> display_u64 n <> [] /\ Forall tag_char (display_u64 n).
Proof.
  unfold is_u64, MAX64. intros Hn. destruct (print_parse 10 n (or_introl eq_refl) ltac:(lia)) as (_ & Hne & Hc & _).
  split; [done|]. eapply list.Forall_impl; [exact Hc|]. unfold tag_char. lia.
Qed.

Lemma display_inj a b : is_u64 a -> is_u64 b -> display_u64 a = display_u64 b -> a = b.
Proof.
  unfold is_u64, MAX64. intros Ha Hb Heq. destruct (print_parse 10 a (or_introl eq_refl) ltac:(lia)) as (Hpa & _).
  destruct (print_parse 10 b (or_introl eq_refl) ltac:(lia)) as (Hpb & _). unfold display_u64 in Heq. rewrite Heq in Hpa. congruence.
Qed.

Lemma tag_text_chars t : valid_tag t -> Forall tag_char (tag_text t).
Proof.
  destruct t as [crc|crc parts]; simpl; [by intros (_ & ? & _)%hex16_spec|]. intros [(_ & ? & _)%hex16_spec [_ ?]%display_chars].
  apply list.Forall_app. split; [done|]. constructor; [by right; right|done].
Qed.

Lemma tag_text_length t :
  valid_tag t -> match t with Single _ => length (tag_text t) = 16%nat | Multipart _ _ => (17 < length (tag_text t))%nat end.
Proof.
  destruct t as [crc|crc parts]; simpl; [by intros (? & _)%hex16_spec|]. intros [(Hl & _)%hex16_spec [Hne _]%display_chars].
  rewrite length_app, Hl. destruct (display_u64 parts); [done|]. simpl. lia.
Qed.

Lemma tag_text_inj t u : valid_tag t -> valid_tag u -> tag_text t = tag_text u -> t = u.
Proof.
  intros Ht Hu Heq. pose proof (tag_text_length t Ht). pose proof (tag_text_length u Hu).
  destruct t as [a|a p], u as [b|b q]; simpl in *; [f_equal; by apply hex16_inj|rewrite Heq in *; lia..|].
  destruct Ht as [Ha Hp], Hu as [Hb Hq]. apply app_inj_1 in Heq as [H1 [= H2]].
  - f_equal; [by apply hex16_inj|by apply display_inj].
  - by rewrite (proj1 (hex16_spec a Ha)), (proj1 (hex16_spec b Hb)).
Qed.

(** ** Matching *)

Lemma trim_quotes s : Forall (fun c => c <> QUOTE) s -> trim_matches QUOTE s = s.
Proof.
  assert (forall s, Forall (fun c => c <> QUOTE) s -> trim_start_matches QUOTE s = s) as Hstart.
  { intros t [|c t' Hc _]; simpl; [done|]. by rewrite (proj2 (Z.eqb_neq _ _)). }
  intros Hs. unfold trim_matches. rewrite (Hstart s Hs), Hstart; [apply rev_involutive|by apply Forall_rev].
Qed.

Lemma trim_quoted s : Forall (fun c => c <> QUOTE) s -> trim_matches QUOTE (quoted s) = s.
Proof.
  intros Hs. unfold trim_matches, quoted. cbn [app trim_start_matches]. rewrite Z.eqb_refl.
  destruct s as [|c s]; [done|]. inversion_clear Hs as [|? ? Hc Hs']. simpl trim_start_matches at 2.
  rewrite (proj2 (Z.eqb_neq c QUOTE)) by done. rewrite app_comm_cons, rev_app_distr. cbn [rev app trim_start_matches].
  rewrite Z.eqb_refl. fold (rev (c :: s)).
  replace (trim_start_matches QUOTE (rev s ++ [c])) with (rev s ++ [c]); [by rewrite rev_app_distr, rev_involutive|].
  symmetry. assert (Forall (fun c => c <> QUOTE) (rev s ++ [c])) as Hf
    by (apply list.Forall_app; split; [by apply Forall_rev|by repeat constructor]).
  destruct Hf as [|x l Hx _]; [done|]. simpl. by rewrite (proj2 (Z.eqb_neq _ _)).
Qed.

Lemma str_len_ascii s : Forall ascii s -> str_len s = len s.
Proof. intros Hs. unfold str_len, len. by rewrite as_bytes_ascii, length_fmap. Qed.

Lemma tag_char_not c : tag_char c -> c <> QUOTE /\ c <> 44 /\ c <> 42 /\ black c /\ 0 <= c < 128.
Proof. unfold tag_char, QUOTE, black, is_whitespace, in_range. lia. Qed.

Lemma tag_text_Forall (P : Z -> Prop) t : valid_tag t -> (forall c, tag_char c -> P c) -> Forall P (tag_text t).
Proof. intros Ht HP. eapply list.Forall_impl; [by apply tag_text_chars|exact HP]. Qed.

(** A tag as it is written, with or without quotation marks *)
Definition written (s : str) (t : ObjectTag) : Prop := s = tag_text t \/ s = quoted (tag_text t).

Lemma written_trim_matches s t : valid_tag t -> written s t -> trim_matches QUOTE s = tag_text t.
Proof.
  intros Ht [-> | ->]; [apply trim_quotes|apply trim_quoted]; apply tag_text_Forall; try done; intros c; apply tag_char_not.
Qed.

Lemma written_trim s t : valid_tag t -> written s t -> trim s = s.
Proof.
  intros Ht Hs. apply trim_no_whitespace.
  assert (Forall black (tag_text t)) by (apply tag_text_Forall; [done|intros c; apply tag_char_not]).
  destruct Hs as [-> | ->]; [done|]. unfold quoted.
  apply list.Forall_app; split; [by repeat constructor|]. apply list.Forall_app; split; [done|by repeat constructor].
Qed.

Lemma written_parse s t :
  valid_tag t -> written s t -> parse_etag s = match t with Single crc => Some crc | Multipart _ _ => None end.
Proof.
  intros Ht Hs. unfold parse_etag. rewrite (written_trim_matches s t) by done.
  rewrite str_len_ascii by (apply tag_text_Forall; [done|intros c; apply tag_char_not]).
  pose proof (tag_text_length t Ht) as Hl. destruct t as [crc|crc parts]; unfold len.
  - rewrite Hl. cbn [Z.eqb negb Z.of_nat Pos.of_succ_nat Pos.succ Pos.eqb]. by apply hex16_spec.
  - by rewrite (proj2 (Z.eqb_neq _ _)) by lia.
Qed.

Lemma matches_written s t u :
  valid_tag t -> valid_tag u -> written s u -> etag_matches_one s (quoted (tag_text t)) = bool_decide (u = t).
Proof.
  intros Ht Hu Hs. assert (written (quoted (tag_text t)) t) as Hq by by right.
  unfold etag_matches_one. rewrite (written_trim s u), (written_parse s u), (written_parse _ t) by done.
  rewrite (written_trim_matches s u), (written_trim_matches _ t) by done.
  assert (bool_decide (tag_text u = tag_text t) = bool_decide (u = t)) as Heq.
  { apply bool_decide_ext. split; [by apply tag_text_inj|by intros ->]. }
  destruct u as [a|], t as [b|]; try done. destruct (Z.eqb_spec a b) as [->|]; symmetry; [by apply bool_decide_eq_true_2|].
  apply bool_decide_eq_false_2. naive_solver.
Qed.

(** A weak tag never matches as it stands: only readers drop the [W/]. *)
Definition weak (s : str) : str := lit "W/" ++ quoted s.

Lemma weak_black t : valid_tag t -> Forall black (weak (tag_text t)).
Proof.
  intros Ht. apply list.Forall_app. split; [by repeat constructor|]. apply list.Forall_app. split; [by repeat constructor|].
  apply list.Forall_app. split; [apply tag_text_Forall; [done|intros c; apply tag_char_not]|by repeat constructor].
Qed.

Lemma trim_matches_keeps_head c x s : x <> c -> exists s', trim_matches c (x :: s) = x :: s'.
Proof.
  intros Hx. unfold trim_matches. cbn [trim_start_matches]. rewrite (proj2 (Z.eqb_neq _ _)) by done.
  induction s as [|y s IH] using rev_ind; [exists []; simpl; by rewrite (proj2 (Z.eqb_neq _ _))|].
  rewrite app_comm_cons, rev_app_distr. cbn [rev app trim_start_matches].
  destruct (y =? c); [exact IH|]. exists (s ++ [y]). cbn [rev]. by rewrite rev_app_distr, rev_involutive.
Qed.

Lemma weak_no_match t u :
  valid_tag t -> valid_tag u -> etag_matches_one (weak (tag_text u)) (quoted (tag_text t)) = false.
Proof.
  intros Ht Hu. unfold etag_matches_one. rewrite trim_no_whitespace by by apply weak_black.
  rewrite (written_parse (quoted (tag_text t)) t), (written_trim_matches (quoted (tag_text t)) t) by (done || by right).
  destruct (trim_matches_keeps_head QUOTE 87 ([47] ++ quoted (tag_text u)) ltac:(done)) as [w Hw].
  change (87 :: [47] ++ quoted (tag_text u)) with (weak (tag_text u)) in Hw.
  assert (forall s, Forall tag_char s -> 87 :: w <> s) as Hne.
  { intros s Hs Heq. rewrite <-Heq in Hs. inversion_clear Hs as [|? ? Hc]. unfold tag_char in Hc. lia. }
  assert (parse_etag (weak (tag_text u)) = None) as ->.
  { unfold parse_etag. rewrite Hw. destruct (negb _); [done|]. rewrite from_str_radix_digit by done. done. }
  apply bool_decide_eq_false_2. rewrite Hw. by apply Hne, tag_text_chars.
Qed.

(** ** Header values *)

(** What an entry of a header asks for, and how it is written *)
Inductive Form := Bare | Quoted | Weak.
Inductive Wanted := WStar | WTag (form : Form) (t : ObjectTag).

Definition wanted_text (w : Wanted) : str :=
  match w with
  | WStar => STAR
  | WTag Bare t => tag_text t
  | WTag Quoted t => quoted (tag_text t)
  | WTag Weak t => weak (tag_text t)
  end.

Definition wanted_token (w : Wanted) : EtagMatchToken :=
  match w with
  | WStar => Any
  | WTag Weak t => Specific (MkSpecificEtag (weak (tag_text t)))
  | WTag _ t => Specific (MkSpecificEtag (tag_text t))
  end.

Definition valid_wanted (w : Wanted) : Prop := match w with WStar => True | WTag _ t => valid_tag t end.

(** An entry with the blanks around it, a field line of entries, and the lines of a
    header *)
Record Entry := MkEntry { before : str; wanted : Wanted; after : str }.

Definition entry_text (e : Entry) : str := before e ++ wanted_text (wanted e) ++ after e.
Definition valid_entry (e : Entry) : Prop := Forall white (before e) /\ valid_wanted (wanted e) /\ Forall white (after e).

Fixpoint join (ps : list str) : str :=
  match ps with
  | [] => []
  | [p] => p
  | p :: ps => p ++ 44 :: join ps
  end.

Definition line_text (l : list Entry) : str := join (entry_text <$> l).
Definition valid_line (l : list Entry) : Prop := l <> [] /\ Forall valid_entry l.

Lemma split_join ps : ps <> [] -> Forall (Forall (fun c => c <> 44)) ps -> split 44 (join ps) = ps.
Proof.
  induction ps as [|p [|q ps] IH]; intros Hne Hps; inversion_clear Hps as [|? ? Hp Hps']; [done|by apply split_none|].
  change (join (p :: q :: ps)) with (p ++ 44 :: join (q :: ps)). rewrite split_app by done. by rewrite IH.
Qed.

Lemma wanted_chars w : valid_wanted w -> Forall (fun c => c <> 44 /\ black c) (wanted_text w).
Proof.
  assert (forall t, valid_tag t -> Forall (fun c => c <> 44 /\ black c) (tag_text t)) as Ht.
  { intros t Ht. apply tag_text_Forall; [done|]. intros c (_ & ? & _ & ? & _)%tag_char_not. done. }
  destruct w as [|[] t]; simpl; intros Hv; [by repeat constructor|by apply Ht| |]; unfold weak, quoted;
    repeat (apply list.Forall_app; split); try (by apply Ht); by repeat constructor.
Qed.

Lemma wanted_trim w : valid_wanted w -> trim (wanted_text w) = wanted_text w.
Proof.
  intros Hw. apply trim_no_whitespace. eapply list.Forall_impl; [by apply wanted_chars|]. by intros c [_ ?].
Qed.

Lemma entry_trim e : valid_entry e -> trim (entry_text e) = wanted_text (wanted e).
Proof. intros (Hb & Hw & Ha). unfold entry_text. rewrite trim_pad by done. by apply wanted_trim. Qed.

Lemma entry_no_comma e : valid_entry e -> Forall (fun c => c <> 44) (entry_text e).
Proof.
  intros (Hb & Hw & Ha). assert (forall c, white c -> c <> 44) as Hwh by (intros c Hc ->; done).
  apply list.Forall_app; split; [by eapply list.Forall_impl|]. apply list.Forall_app; split; [|by eapply list.Forall_impl].
  eapply list.Forall_impl; [by apply wanted_chars|]. by intros c [? _].
Qed.

Lemma strip_quotes_none c s : c <> QUOTE -> strip_prefix [QUOTE] (c :: s) = None.
Proof. intros Hc. cbn [strip_prefix]. by rewrite (proj2 (Z.eqb_neq _ _)). Qed.

Lemma tag_text_cons t : valid_tag t -> exists c s, tag_text t = c :: s /\ tag_char c.
Proof.
  intros Ht. pose proof (tag_text_chars t Ht) as Hc. pose proof (tag_text_length t Ht).
  destruct (tag_text t) as [|c s]; [destruct t; simpl in *; lia|]. inversion_clear Hc. by exists c, s.
Qed.

Lemma strip_quoted s : (v ← strip_prefix [QUOTE] (quoted s); strip_suffix [QUOTE] v) = Some s.
Proof.
  unfold quoted. rewrite strip_prefix_app. cbn [mbind option_bind]. unfold strip_suffix.
  rewrite rev_app_distr. change (rev [QUOTE] ++ rev s) with ([QUOTE] ++ rev s). rewrite (strip_prefix_app (rev [QUOTE])).
  cbn. by rewrite rev_involutive.
Qed.

(** Reading the entry of a tag *)
Lemma SpecificEtag_new_tag f t a b :
  valid_tag t -> Forall white a -> Forall white b ->
  SpecificEtag_new (a ++ wanted_text (WTag f t) ++ b) =
    Ok (MkSpecificEtag (match f with Weak => weak (tag_text t) | _ => tag_text t end)).
Proof.
  intros Ht Ha Hb. destruct (tag_text_cons t Ht) as (c & s & Hs & Hc). pose proof (tag_char_not c Hc) as (Hq & _ & Hstar & _).
  unfold SpecificEtag_new. rewrite trim_pad, wanted_trim by done. destruct f; cbn [wanted_text].
  - rewrite bool_decide_eq_false_2 by (rewrite Hs; intros [= ? ?]; done). rewrite Hs, strip_quotes_none by done. done.
  - rewrite bool_decide_eq_false_2 by done. by rewrite strip_quoted.
  - by rewrite bool_decide_eq_false_2.
Qed.

Lemma token_of_wanted {E} w : valid_wanted w -> token_of (E:=E) (wanted_text w) = Ok (wanted_token w).
Proof.
  intros Hw. unfold token_of. destruct w as [|f t]; [done|].
  pose proof (SpecificEtag_new_tag f t [] [] Hw) as Hn. cbn [app] in Hn. rewrite app_nil_r in Hn.
  rewrite Hn by constructor. destruct (tag_text_cons t Hw) as (c & s & Hs & Hc). pose proof (tag_char_not c Hc) as (_ & _ & Hstar & _).
  rewrite bool_decide_eq_false_2; [by destruct f|].
  destruct f; cbn [wanted_text]; [rewrite Hs; intros [= ? ?]; done|done|done].
Qed.

Lemma push_tokens {E} ws : forall l,
  Forall valid_wanted ws ->
  foldM (E:=E) (fun tokens entry => t ← token_of entry; mret (tokens ++ [t])) l (wanted_text <$> ws) = Ok (l ++ (wanted_token <$> ws)).
Proof.
  induction ws as [|w ws IH]; intros l Hws; [cbn; by rewrite app_nil_r|]. inversion_clear Hws as [|? ? Hw Hws'].
  rewrite !fmap_cons. cbn [foldM]. rewrite token_of_wanted by done. cbn [mbind outcome_bind].
  change (mret (l ++ [wanted_token w])) with (@Ok E _ (l ++ [wanted_token w])). cbn [mbind outcome_bind].
  by rewrite IH, <-app_assoc.
Qed.

(** The wishes of the lines of a header *)
Definition wishes (ls : list (list Entry)) : list Wanted := ls ≫= fun l => wanted <$> l.

Lemma from_header_values_lines {E} ls :
  Forall valid_line ls -> from_header_values (E:=E) (line_text <$> ls) = Ok (wanted_token <$> wishes ls).
Proof.
  intros Hls. unfold from_header_values.
  assert ((line_text <$> ls) ≫= (fun value => trim <$> split 44 (trim value)) = wanted_text <$> wishes ls) as ->.
  { unfold wishes. induction Hls as [|l ls [Hne Hl] _ IH]; [done|]. rewrite fmap_cons, !bind_cons, fmap_app, IH. f_equal.
    rewrite split_trim by done. unfold line_text. rewrite split_join.
    - rewrite <-!list_fmap_compose. apply list_fmap_ext. intros i e He. apply entry_trim. rewrite list.Forall_forall in Hl.
      by apply Hl, (list_elem_of_lookup_2 _ i).
    - by destruct l.
    - apply list.Forall_fmap. eapply list.Forall_impl; [exact Hl|]. intros e. apply entry_no_comma. }
  rewrite push_tokens; [done|]. unfold wishes. apply list.Forall_forall. intros w (l & (e & -> & He)%list_elem_of_fmap & Hl)%list_elem_of_bind.
  rewrite list.Forall_forall in Hls. destruct (Hls l Hl) as [_ Hv]. rewrite list.Forall_forall in Hv. by apply Hv.
Qed.

(** ** What a wish means *)

Definition etag_text (t : ObjectTag) : str := quoted (tag_text t).

(** A reader compares tags, weak or not; a writer accepts no weak tag. *)
Definition hits (t : ObjectTag) (w : Wanted) : bool :=
  match w with WStar => true | WTag _ u => bool_decide (u = t) end.
Definition hits_strong (t : ObjectTag) (w : Wanted) : bool :=
  match w with WStar => true | WTag Weak _ => false | WTag _ u => bool_decide (u = t) end.

Lemma existsb_fmap {A B} (f : B -> bool) (g : A -> B) (h : A -> bool) l :
  (forall x, x ∈ l -> f (g x) = h x) -> existsb f (g <$> l) = existsb h l.
Proof.
  induction l as [|x l IH]; intros H; [done|]. rewrite fmap_cons. cbn [existsb]. rewrite H by (left). f_equal. apply IH.
  intros y Hy. apply H. by right.
Qed.

Lemma matches_read_wishes t ws :
  valid_tag t -> Forall valid_wanted ws -> matches_read (wanted_token <$> ws) (etag_text t) = existsb (hits t) ws.
Proof.
  intros Ht Hws. apply existsb_fmap. intros w Hw. rewrite list.Forall_forall in Hws. specialize (Hws w Hw).
  destruct w as [|f u]; [done|]. cbn in Hws. destruct (tag_text_cons u Hws) as (c & s & Hs & Hc). unfold tag_char in Hc.
  assert (strip_prefix (lit "W/") (tag_text u) = None) as Hn
    by (rewrite Hs; change (lit "W/") with [87; 47]; cbn [strip_prefix]; by rewrite (proj2 (Z.eqb_neq _ _)) by lia).
  destruct f; cbn [wanted_token as_str hits]; [rewrite Hn; apply matches_written; (done || by left)..|].
  unfold weak. rewrite strip_prefix_app. apply matches_written; (done || by right).
Qed.

Lemma list_matches_wishes t ws :
  valid_tag t -> Forall valid_wanted ws -> list_matches (wanted_token <$> ws) (etag_text t) = existsb (hits_strong t) ws.
Proof.
  intros Ht Hws. apply existsb_fmap. intros w Hw. rewrite list.Forall_forall in Hws. specialize (Hws w Hw).
  destruct w as [|f u]; [done|]. destruct f; cbn [wanted_token as_str hits_strong]; [apply matches_written; (done || by left)..|].
  by apply weak_no_match.
Qed.

Lemma wishes_valid ls : Forall valid_line ls -> Forall valid_wanted (wishes ls).
Proof.
  intros Hls. unfold wishes. apply list.Forall_forall. intros w (l & (e & -> & He)%list_elem_of_fmap & Hl)%list_elem_of_bind.
  rewrite list.Forall_forall in Hls. destruct (Hls l Hl) as [_ Hv]. rewrite list.Forall_forall in Hv. by apply Hv.
Qed.

(** ** Reads *)

(** The conditions of a read: the lines of If-Match and If-None-Match, and the times of
    If-Modified-Since and If-Unmodified-Since *)
Record Wish := MkWish {
  want_match : list (list Entry);
  want_none : list (list Entry);
  want_modified : option Z;
  want_unmodified : option Z
}.

(** A date header, absent or with a formatted time *)
Definition date_header (o : option Z) (values : list str) : Prop :=
  match o with
  | None => values = []
  | Some ms => 0 <= ms < YEAR_10000_MS /\ exists text, format_http_date (E:=()) ms = Ok text /\ values = [text]
  end.

(** The headers of a request, with the given prefix to their names, say [w]. *)
Definition asks (req : S3Request) (prefix : str) (w : Wish) : Prop :=
  Forall valid_line (want_match w) /\ Forall valid_line (want_none w) /\
  header_values req (prefix ++ lit "if-match") = line_text <$> want_match w /\
  header_values req (prefix ++ lit "if-none-match") = line_text <$> want_none w /\
  date_header (want_modified w) (header_values req (prefix ++ lit "if-modified-since")) /\
  date_header (want_unmodified w) (header_values req (prefix ++ lit "if-unmodified-since")).

(** RFC 7232, section 6: the first two steps, and the last two *)
Definition precondition (w : Wish) (t : ObjectTag) (last_modified : Z) : bool :=
  match want_match w, want_unmodified w with
  | [], Some since => last_modified / 1000 <=? since / 1000
  | [], None => true
  | ls, _ => existsb (hits t) (wishes ls)
  end.

Definition changed (w : Wish) (t : ObjectTag) (now last_modified : Z) : bool :=
  match want_none w, want_modified w with
  | [], Some since => (now <? since / 1000 * 1000) || (since / 1000 <? last_modified / 1000)
  | [], None => true
  | ls, _ => negb (existsb (hits t) (wishes ls))
  end.

Lemma match_list_lines {E} req name ls :
  Forall valid_line ls -> header_values req name = line_text <$> ls ->
  match_list (E:=E) req name = Ok (match ls with [] => None | _ => Some (wanted_token <$> wishes ls) end).
Proof.
  intros Hls Hh. unfold match_list, header. rewrite Hh. destruct ls as [|l ls]; [done|].
  rewrite from_header_values_lines by done. done.
Qed.

Lemma header_date_text {E} req name o :
  date_header o (header_values req name) -> header_date (E:=E) req name = Ok ((fun ms => ms / 1000 * 1000) <$> o).
Proof.
  unfold header_date, header. destruct o as [ms|]; cbn [date_header]; [|by intros ->].
  intros (Hms & text & Hf & ->). cbn [head].
  pose proof (parse_format ms ltac:(unfold is_u64, MAX64, YEAR_10000_MS in *; lia)) as Hp. rewrite Hf in Hp. cbn in Hp.
  by rewrite Hp by lia.
Qed.

Lemma seconds_of ms : ms / 1000 * 1000 / 1000 = ms / 1000.
Proof. by rewrite Z.div_mul. Qed.

(** What is read of the headers *)
Definition condition_of (w : Wish) : ReadCondition :=
  MkReadCondition (match want_match w with [] => None | _ => Some (wanted_token <$> wishes (want_match w)) end)
    (match want_none w with [] => None | _ => Some (wanted_token <$> wishes (want_none w)) end)
    ((fun ms => ms / 1000 * 1000) <$> want_modified w) ((fun ms => ms / 1000 * 1000) <$> want_unmodified w).

Lemma check_read_verdict w t now lm :
  Forall valid_line (want_match w) -> Forall valid_line (want_none w) -> valid_tag t ->
  match check_read_conditions now (condition_of w) (etag_text t) lm with
  | Ok _ => precondition w t lm = true /\ changed w t now lm = true
  | Err (NotModified e l) => precondition w t lm = true /\ changed w t now lm = false /\ e = etag_text t /\ l = lm
  | Err (PreconditionFailed _) => precondition w t lm = false
  | Panic => False
  end.
Proof.
  intros Hm Hn Ht. apply wishes_valid in Hm, Hn. unfold check_read_conditions, precondition, changed, condition_of.
  destruct w as [im inm ims ius]; cbn [if_match if_none_match if_modified_since if_unmodified_since want_match want_none want_modified want_unmodified] in *.
  destruct im as [|l im]; [destruct ius as [u|]|]; (destruct inm as [|l' inm]; [destruct ims as [i|]|]);
    cbn [fmap option_fmap option_map mbind outcome_bind mret outcome_ret]; rewrite ?matches_read_wishes, ?seconds_of by done;
    try (destruct (Z.ltb_spec (u / 1000) (lm / 1000)), (Z.leb_spec (lm / 1000) (u / 1000)); try lia);
    try (destruct (existsb (hits t) (wishes (l :: im))));
    try (destruct (existsb (hits t) (wishes (l' :: inm))));
    try (destruct (Z.leb_spec (i / 1000 * 1000) now), (Z.ltb_spec now (i / 1000 * 1000)); try lia;
         destruct (Z.leb_spec (lm / 1000) (i / 1000)), (Z.ltb_spec (i / 1000) (lm / 1000)); try lia); done.
Qed.

Lemma copy_like_read now cond etag lm :
  match check_copy_source_conditions now cond etag lm with
  | Ok _ => check_read_conditions now cond etag lm = Ok ()
  | Err (PreconditionFailed _) => exists e, check_read_conditions now cond etag lm = Err e
  | _ => False
  end.
Proof.
  unfold check_copy_source_conditions, check_read_conditions. destruct cond as [im inm ims ius].
  cbn [if_match if_none_match if_modified_since if_unmodified_since].
  destruct im as [m|]; [destruct (matches_read m etag)|destruct ius as [u|]; [destruct (u / 1000 <? lm / 1000)|]];
    cbn [negb guard_err mbind outcome_bind mret outcome_ret]; try (by eexists);
    (destruct inm as [n|]; [destruct (matches_read n etag)|destruct ims as [i|]; [destruct ((i <=? now) && (lm / 1000 <=? i / 1000))|]]);
    cbn [guard_err mbind outcome_bind mret outcome_ret]; done || by eexists.
Qed.

Lemma asks_read {E} req w : asks req [] w -> read_condition_from_headers (E:=E) req = Ok (condition_of w).
Proof.
  intros (Hm & Hn & Hhm & Hhn & Hd & Hu). unfold read_condition_from_headers.
  rewrite (match_list_lines _ _ _ Hm Hhm). cbn [mbind outcome_bind]. rewrite (match_list_lines _ _ _ Hn Hhn). cbn [mbind outcome_bind].
  rewrite (header_date_text _ _ _ Hd). cbn [mbind outcome_bind]. by rewrite (header_date_text _ _ _ Hu).
Qed.

Lemma asks_copy {E} req w :
  asks req (lit "x-amz-copy-source-") w -> copy_source_condition_from_headers (E:=E) req = Ok (condition_of w).
Proof.
  intros (Hm & Hn & Hhm & Hhn & Hd & Hu). unfold copy_source_condition_from_headers.
  rewrite (match_list_lines _ (lit "x-amz-copy-source-if-match") _ Hm Hhm). cbn [mbind outcome_bind].
  rewrite (match_list_lines _ (lit "x-amz-copy-source-if-none-match") _ Hn Hhn). cbn [mbind outcome_bind].
  rewrite (header_date_text _ (lit "x-amz-copy-source-if-modified-since") _ Hd). cbn [mbind outcome_bind].
  by rewrite (header_date_text _ (lit "x-amz-copy-source-if-unmodified-since") _ Hu).
Qed.

(** ** Writes and deletes *)

Definition entry_header (o : option Entry) (values : list str) : Prop :=
  match o with None => values = [] | Some e => valid_entry e /\ values = [entry_text e] end.

Definition is_wstar (w : Wanted) : bool := match w with WStar => true | _ => false end.

Lemma is_star_entry e : valid_entry e -> is_star (entry_text e) = is_wstar (wanted e).
Proof.
  intros He. unfold is_star. rewrite entry_trim by done. destruct e as [a [|f t] b], He as (_ & Hw & _); cbn in *; [done|].
  apply bool_decide_eq_false_2. destruct (tag_text_cons t Hw) as (c & s & Hs & Hc). pose proof (tag_char_not c Hc) as (_ & _ & Hstar & _).
  destruct f; cbn; [rewrite Hs; intros [= ? ?]; done|done|done].
Qed.

(** What a writer is told: the condition on the object there, if the headers are
    supported *)
Definition write_verdict (im inm : option Wanted) : option (option ObjectTag -> bool) :=
  match im, inm with
  | None, None => Some (fun _ => true)
  | None, Some WStar => Some (fun existing => bool_decide (existing = None))
  | Some (WTag f u), None =>
      Some (fun existing => match existing with Some t => hits_strong t (WTag f u) | None => false end)
  | _, _ => None
  end.

Lemma write_header_verdict req im inm :
  entry_header im (header_values req (lit "if-match")) -> entry_header inm (header_values req (lit "if-none-match")) ->
  match write_condition_from_headers req with
  | Ok cond => exists ok, write_verdict (wanted <$> im) (wanted <$> inm) = Some ok /\
      forall existing, match existing with Some t => valid_tag t | None => True end ->
        is_ok (check_write_conditions cond (etag_text <$> existing)) = ok existing
  | Err NotImplemented => write_verdict (wanted <$> im) (wanted <$> inm) = None
  | _ => False
  end.
Proof.
  intros Him Hinm. unfold write_condition_from_headers, header.
  destruct im as [e|], inm as [e'|]; cbn [entry_header] in Him, Hinm; [destruct Him as [He ->], Hinm as [He' ->]|
    destruct Him as [He ->]; rewrite Hinm|rewrite Him; destruct Hinm as [He' ->]|rewrite Him, Hinm]; cbn [head fmap option_fmap option_map];
    rewrite ?is_star_entry by done.
  - destruct e as [a [|f t] b], e' as [a' [|f' t'] b']; done.
  - destruct e as [a [|f t] b]; [done|]. cbn [wanted is_wstar guard_err mbind outcome_bind write_verdict].
    destruct He as (Ha & Hw & Hb). unfold entry_text. cbn [before after wanted] in *.
    rewrite SpecificEtag_new_tag by done. cbn [expect mbind outcome_bind as_str].
    destruct (tag_text_cons t Hw) as (c & s & Hs & Hc). pose proof (tag_char_not c Hc) as (_ & _ & Hstar & _).
    rewrite bool_decide_eq_false_2 by (destruct f; [rewrite Hs; intros [= ? ?]; done|rewrite Hs; intros [= ? ?]; done|done]).
    cbn [guard_err mbind outcome_bind]. eexists. split; [reflexivity|]. intros [u|] Hu; [|done].
    cbn [fmap option_fmap option_map check_write_conditions as_str hits_strong]. unfold etag_text.
    destruct f; [rewrite (matches_written _ u t) by (done || by left)..|rewrite weak_no_match by done]; cbn; by repeat case_match.
  - destruct e' as [a' [|f' t'] b']; [|done]. cbn. eexists. split; [reflexivity|]. by intros [u|].
  - cbn. eexists. split; [reflexivity|]. by intros [u|].
Qed.

Lemma etag_matches_trim s s' etag : trim s = trim s' -> etag_matches_one s etag = etag_matches_one s' etag.
Proof. intros H. unfold etag_matches_one. by rewrite H. Qed.

(** A single value is read like an entry of a list. *)
Lemma from_delete_token {E} value :
  from_delete_header_value (E:=E) value = t ← token_of (trim value); mret [t].
Proof. unfold from_delete_header_value, token_of. cbv zeta. destruct (bool_decide _); [done|]. by destruct (expect _). Qed.

Lemma delete_entry {E} e :
  valid_entry e -> from_delete_header_value (E:=E) (entry_text e) = Ok [wanted_token (wanted e)].
Proof. intros He. rewrite from_delete_token, entry_trim, token_of_wanted by (done || apply He). done. Qed.

Lemma entry_matches e t :
  valid_entry e -> valid_tag t -> list_matches [wanted_token (wanted e)] (etag_text t) = hits_strong t (wanted e).
Proof.
  intros (_ & Hw & _) Ht. pose proof (list_matches_wishes t [wanted e] Ht) as H. cbn [fmap list_fmap existsb] in H.
  rewrite H by by constructor. apply orb_false_r.
Qed.

Lemma delete_header_verdict req im :
  header_values req (lit "x-amz-if-match-last-modified-time") = [] -> header_values req (lit "x-amz-if-match-size") = [] ->
  entry_header im (header_values req (lit "if-match")) ->
  exists cond, delete_condition_from_headers req = Ok cond /\
    forall t, valid_tag t ->
      is_ok (check_delete_conditions cond (etag_text t)) = match im with Some e => hits_strong t (wanted e) | None => true end.
Proof.
  intros H1 H2 Him. unfold delete_condition_from_headers, header, header_count. rewrite H1, H2.
  destruct im as [e|]; cbn [entry_header] in Him; [|rewrite Him; by eexists]. destruct Him as [He ->].
  cbn [head]. change (bool_decide (is_Some (@None str))) with false. cbn [guard_err mbind outcome_bind].
  rewrite entry_trim by done. change (1 <? len [entry_text e]) with false. cbn [guard_err mbind outcome_bind].
  assert (wanted_text (wanted e) <> []) as Hne.
  { destruct He as (_ & Hw & _), (wanted e) as [|[] t]; cbn [wanted_text] in *; try done.
    by destruct (tag_text_cons t Hw) as (c & s & -> & _). }
  rewrite bool_decide_eq_false_2 by done. cbn [guard_err mbind outcome_bind]. rewrite delete_entry by done. cbn [mbind outcome_bind].
  eexists. split; [reflexivity|]. intros t Ht. cbn [check_delete_conditions]. rewrite entry_matches by done. by destruct (hits_strong _ _).
Qed.

(** The ETag of an entry of DeleteObjects *)
Lemma delete_objects_verdict {E} e :
  valid_entry e ->
  exists cond, from_delete_objects_etag (E:=E) (entry_text e) = Ok cond /\
    forall t, valid_tag t -> is_ok (check_delete_conditions cond (etag_text t)) = hits_strong t (wanted e).
Proof.
  intros He. unfold from_delete_objects_etag. change (bool_decide (trim (entry_text e) = STAR)) with (is_star (entry_text e)).
  rewrite is_star_entry by done. destruct (is_wstar (wanted e)) eqn:Hs.
  - pose proof (from_header_values_lines (E:=E) [[e]]) as Hl. unfold from_header_value.
    change (line_text <$> [[e]]) with [entry_text e] in Hl. rewrite Hl by (constructor; [split; [done|by constructor]|constructor]). cbn [mbind outcome_bind].
    eexists. split; [reflexivity|]. intros t Ht. by destruct e as [a [|] b].
  - eexists. split; [reflexivity|]. intros t Ht. cbn [check_delete_conditions].
    rewrite (etag_matches_trim _ (wanted_text (wanted e))) by (rewrite entry_trim, wanted_trim by (done || apply He); done).
    destruct He as (_ & Hw & _), (wanted e) as [|[] u]; [done|..]; cbn [wanted_text hits_strong] in *; unfold etag_text;
      [rewrite (matches_written _ t u) by (done || by left)|rewrite (matches_written _ t u) by (done || by right)|
       rewrite weak_no_match by done]; by repeat case_match.
Qed.

(** ** Totality *)

Lemma token_of_total {E} s : exists t, token_of (E:=E) (trim s) = Ok t.
Proof.
  unfold token_of. destruct (bool_decide_reflect (trim s = STAR)) as [H|H]; [by eexists|].
  unfold SpecificEtag_new. rewrite trim_idem, bool_decide_eq_false_2 by done. by eexists.
Qed.

Lemma from_header_values_total {E} values : exists l, from_header_values (E:=E) values = Ok l.
Proof.
  unfold from_header_values. assert (Forall (fun e => exists s, e = trim s) (values ≫= (fun value => trim <$> split 44 (trim value)))) as Hf.
  { apply list.Forall_forall. intros e (v & (s & -> & _)%list_elem_of_fmap & _)%list_elem_of_bind. by eexists. }
  revert Hf. generalize (values ≫= (fun value => trim <$> split 44 (trim value))). intros es.
  enough (forall l, Forall (fun e => exists s, e = trim s) es -> exists r,
    foldM (E:=E) (fun tokens entry => t ← token_of entry; mret (tokens ++ [t])) l es = Ok r) as H by apply H.
  induction es as [|e es IH]; intros l Hf; cbn [foldM]; [by eexists|]. inversion_clear Hf as [|? ? [s ->] Hf'].
  destruct (token_of_total (E:=E) s) as [t ->]. cbn [mbind outcome_bind]. by apply IH.
Qed.

Lemma header_date_total {E} req name : exists o, header_date (E:=E) req name = Ok o.
Proof.
  unfold header_date. destruct (header req name) as [v|]; [|by eexists]. pose proof (parse_http_date_total v) as H.
  destruct (parse_http_date v); [by eexists..|done].
Qed.

Lemma match_list_total {E} req name : exists o, match_list (E:=E) req name = Ok o.
Proof.
  unfold match_list. destruct (header req name); [|by eexists]. destruct (from_header_values_total (E:=E) (header_values req name)) as [l ->].
  by eexists.
Qed.

Lemma write_condition_total req : write_condition_from_headers req <> Panic.
Proof.
  unfold write_condition_from_headers. cbv zeta. destruct (header req (lit "if-match")) as [v|].
  - destruct (is_star v) eqn:Hs; [done|]. unfold is_star in Hs. cbn [guard_err mbind outcome_bind].
    destruct (header req (lit "if-none-match")) as [v'|]; [by destruct (negb (is_star v'))|]. cbn [guard_err mbind outcome_bind].
    unfold SpecificEtag_new. rewrite Hs. cbn [expect mbind outcome_bind]. destruct (bool_decide (as_str _ = STAR)); cbn; intros [=].
  - destruct (header req (lit "if-none-match")) as [v'|]; [by destruct (negb (is_star v'))|done].
Qed.

Lemma delete_condition_total req : delete_condition_from_headers req <> Panic.
Proof.
  unfold delete_condition_from_headers.
  destruct (bool_decide (is_Some (header req (lit "x-amz-if-match-last-modified-time")))); [done|].
  destruct (bool_decide (is_Some (header req (lit "x-amz-if-match-size")))); [done|]. cbn [guard_err mbind outcome_bind].
  destruct (1 <? _); [done|]. cbn [guard_err mbind outcome_bind]. destruct (header req (lit "if-match")) as [v|]; [|done].
  destruct (bool_decide (trim v = [])); [done|]. cbn [guard_err mbind outcome_bind]. rewrite from_delete_token.
  by destruct (token_of_total (E:=HeaderError) v) as [t ->].
Qed.

(** ** Properties *)

(** C28: Conditional reads are decided by RFC 7232.  Take a request whose If-Match and
    If-None-Match lines list tags of objects (bare, quoted or weak, with blanks) and
    stars, and whose date headers are formatted times, and an object with its tag as
    [format_etag] or [compute_multipart_etag] writes it.  The conditions are read without
    error; the read succeeds, fails its precondition or is not modified as the order of
    the RFC says of the tags and times.  The copy-source headers decide alike, with a
    failed precondition in place of not modified. *)
Theorem conditional_reads req w t now lm :
  valid_tag t ->
  (asks req [] w -> exists cond, read_condition_from_headers (E:=()) req = Ok cond /\
     match check_read_conditions now cond (etag_text t) lm with
     | Ok _ => precondition w t lm = true /\ changed w t now lm = true
     | Err (NotModified e l) => precondition w t lm = true /\ changed w t now lm = false /\ e = etag_text t /\ l = lm
     | Err (PreconditionFailed _) => precondition w t lm = false
     | Panic => False
     end) /\
  (asks req (lit "x-amz-copy-source-") w -> exists cond, copy_source_condition_from_headers (E:=()) req = Ok cond /\
     match check_copy_source_conditions now cond (etag_text t) lm with
     | Ok _ => precondition w t lm && changed w t now lm = true
     | Err (PreconditionFailed _) => precondition w t lm && changed w t now lm = false
     | _ => False
     end).
Proof.
  intros Ht. split; intros Hw; exists (condition_of w).
  - split; [by apply asks_read|]. apply check_read_verdict; [apply Hw..|done].
  - split; [by apply asks_copy|]. pose proof (copy_like_read now (condition_of w) (etag_text t) lm) as Hc.
    pose proof (check_read_verdict w t now lm (proj1 Hw) (proj1 (proj2 Hw)) Ht) as Hr.
    destruct (check_copy_source_conditions _ _ _ _) as [u|[c|e l]|]; [rewrite Hc in Hr; by destruct Hr as [-> ->]| |done..].
    destruct Hc as [e He]. rewrite He in Hr. destruct e as [c'|e l]; [by rewrite Hr|]. destruct Hr as (-> & -> & _). done.
Qed.

Definition sample_wish : Wish :=
  MkWish [[MkEntry [32] (WTag Quoted (Single 7)) []; MkEntry [9] (WTag Weak (Multipart 5 2)) [32]]] [] (Some 86400123) None.

Definition sample_request : S3Request := MkS3Request (fun name =>
  if bool_decide (name = lit "if-match") then line_text <$> want_match sample_wish
  else if bool_decide (name = lit "if-modified-since") then [lit "Fri, 02 Jan 1970 00:00:00 GMT"] else []).

Lemma conditional_reads_witness :
  exists cond, read_condition_from_headers (E:=()) sample_request = Ok cond /\
    is_ok (check_read_conditions 100000000 cond (etag_text (Multipart 5 2)) 90000000) = true /\
    is_ok (check_read_conditions 100000000 cond (etag_text (Multipart 5 2)) 86400000) = false.
Proof.
  assert (forall lm, precondition sample_wish (Multipart 5 2) lm = true) as Hp by (intros; vm_compute; reflexivity).
  assert (valid_tag (Multipart 5 2)) as Ht by (vm_compute; intuition congruence).
  assert (asks sample_request [] sample_wish) as Ha.
  { split; [|split; [constructor|split; [reflexivity|split; [reflexivity|split; [|reflexivity]]]]].
    - constructor; [|constructor]. split; [done|]. constructor; [|constructor; [|constructor]]; repeat split;
        repeat constructor; vm_compute; intuition congruence.
    - split; [vm_compute; intuition congruence|]. eexists. split; vm_compute; reflexivity. }
  destruct (conditional_reads sample_request sample_wish (Multipart 5 2) 100000000 90000000 Ht) as [H1 _].
  destruct (conditional_reads sample_request sample_wish (Multipart 5 2) 100000000 86400000 Ht) as [H2 _].
  destruct (H1 Ha) as (cond & Hc & Hv), (H2 Ha) as (cond' & Hc' & Hv'). assert (cond' = cond) as -> by congruence.
  assert (changed sample_wish (Multipart 5 2) 100000000 90000000 = true) as E1 by (vm_compute; reflexivity).
  assert (changed sample_wish (Multipart 5 2) 100000000 86400000 = false) as E2 by (vm_compute; reflexivity).
  rewrite Hp, E1 in Hv. rewrite Hp, E2 in Hv'. clear E1 E2 Hp Ha H1 H2.
  exists cond. split; [exact Hc|]. split.
  - destruct (check_read_conditions 100000000 cond (etag_text (Multipart 5 2)) 90000000) as [|[]|]; [reflexivity|discriminate Hv|destruct Hv as (_ & [=] & _)|destruct Hv].
  - destruct (check_read_conditions 100000000 cond (etag_text (Multipart 5 2)) 86400000) as [|[]|]; [destruct Hv' as [_ [=]]|reflexivity..].
Defined.

(** Conditional writes and deletes.  No request makes the extraction of its
    conditions panic.  A write with If-Match of one tag is allowed exactly on the object
    of that tag, never for a weak tag; If-None-Match with a star exactly where there is
    no object; the other combinations are not implemented, and no header allows every
    write.  A delete with If-Match, as a header or as the ETag of an entry of
    DeleteObjects, is allowed by a star or exactly on the object of the tag. *)
Theorem conditional_writes :
  (forall req, write_condition_from_headers req <> Panic /\ delete_condition_from_headers req <> Panic /\
     is_ok (read_condition_from_headers (E:=()) req) = true /\ is_ok (copy_source_condition_from_headers (E:=()) req) = true) /\
  (forall req im inm,
     entry_header im (header_values req (lit "if-match")) -> entry_header inm (header_values req (lit "if-none-match")) ->
     match write_condition_from_headers req with
     | Ok cond => exists ok, write_verdict (wanted <$> im) (wanted <$> inm) = Some ok /\
         forall existing, match existing with Some t => valid_tag t | None => True end ->
           is_ok (check_write_conditions cond (etag_text <$> existing)) = ok existing
     | Err NotImplemented => write_verdict (wanted <$> im) (wanted <$> inm) = None
     | _ => False
     end) /\
  (forall req im,
     header_values req (lit "x-amz-if-match-last-modified-time") = [] -> header_values req (lit "x-amz-if-match-size") = [] ->
     entry_header im (header_values req (lit "if-match")) ->
     exists cond, delete_condition_from_headers req = Ok cond /\
       forall t, valid_tag t ->
         is_ok (check_delete_conditions cond (etag_text t)) = match im with Some e => hits_strong t (wanted e) | None => true end) /\
  (forall e, valid_entry e -> exists cond, from_delete_objects_etag (E:=()) (entry_text e) = Ok cond /\
     forall t, valid_tag t -> is_ok (check_delete_conditions cond (etag_text t)) = hits_strong t (wanted e)).
Proof.
  split; [|split; [exact write_header_verdict|split; [exact delete_header_verdict|exact delete_objects_verdict]]].
  intros req. split; [apply write_condition_total|]. split; [apply delete_condition_total|].
  unfold read_condition_from_headers, copy_source_condition_from_headers.
  split; [destruct (match_list_total (E:=()) req (lit "if-match")) as [? ->], (match_list_total (E:=()) req (lit "if-none-match")) as [? ->],
      (header_date_total (E:=()) req (lit "if-modified-since")) as [? ->], (header_date_total (E:=()) req (lit "if-unmodified-since")) as [? ->]; done|].
  destruct (match_list_total (E:=()) req (lit "x-amz-copy-source-if-match")) as [? ->],
    (match_list_total (E:=()) req (lit "x-amz-copy-source-if-none-match")) as [? ->],
    (header_date_total (E:=()) req (lit "x-amz-copy-source-if-modified-since")) as [? ->],
    (header_date_total (E:=()) req (lit "x-amz-copy-source-if-unmodified-since")) as [? ->]. done.
Qed.

(** The tags of objects are those the writers of etag.rs make, and the stored bytes of a
    checksum are read back. *)
Lemma written_tags `{Checksum64} crc parts :
  is_u64 crc ->
  format_etag crc = etag_text (Single crc) /\ parse_etag (format_etag crc) = Some crc /\
  etag_bytes_to_crc64 (crc64_to_etag_bytes crc) = Some crc /\
  exists composite, is_u64 composite /\ compute_multipart_etag (E:=()) parts =
    Ok (crc64_to_etag_bytes composite, etag_text (Multipart composite (len parts))).
Proof.
  intros Hc. split; [done|]. split; [by apply (written_parse _ (Single crc)); [|right]|]. split.
  - unfold etag_bytes_to_crc64, crc64_to_etag_bytes, len. rewrite JournalSpec.length_to_be_bytes. cbn [negb Z.eqb Z.of_nat Pos.of_succ_nat Pos.succ Pos.eqb].
    rewrite JournalSpec.from_to_be_bytes; [done|]. unfold is_u64, MAX64 in Hc. change (2 ^ (8 * Z.of_nat 8)) with (2 ^ 64). lia.
  - unfold compute_multipart_etag. exists (checksum64_value (foldl (fun acc bytes => acc ++ bytes) [] parts)). rewrite checksum64_total. cbn [mbind outcome_bind].
    split; [pose proof (checksum64_range (foldl (fun acc bytes => acc ++ bytes) [] parts)); unfold is_u64, MAX64; lia|].
    unfold etag_text, quoted, tag_text. by rewrite <-!app_assoc.
Qed.

(** A sign is not rejected: a text with a plus matches the tag of its number. *)
Lemma plus_sign_matches : etag_matches_one (lit "+00000000000000f") (format_etag 15) = true.
Proof. vm_compute. reflexivity. Qed.

End ConditionalSpec.
