(* ===== verification/Range.v ===== *)
(** Byte ranges of HTTP requests: [ByteRange] of crates/server-core/src/range.rs,
    its parser, its printer and the resolution against the size of an object. *)

From Stdlib Require Import ZifyBool.
From stdpp Require Import strings.
From S2P Require Import Prelude Str.

Local Open Scope Z_scope.

Module Range.
Import Str.

Inductive ByteRange :=
| Range (start end_ : Z)
| FromStart (start : Z)
| Suffix (length : Z).

(** The reasons of [ServerError::InvalidRequest], and [ServerError::InvalidArgument]
    with the text of a copy-source range *)
Inductive ServerError :=
| MustStartWithBytes
| MultiRange
| InvalidRangeFormat
| InvalidSuffixRange
| InvalidRangeStart
| InvalidRangeEnd
| StartExceedsEnd
| InvalidCopySourceRange.

Definition u64_MAX : Z := 2 ^ 64 - 1.

(** [s.parse::<u64>()] *)
Definition parse_u64 (s : str) : option Z := from_str_radix 10 u64_MAX s.

Definition comma : Z := 44.
Definition dash : Z := 45.

(** [impl Display for ByteRange] *)
Definition to_string (self : ByteRange) : str :=
  match self with
  | Range start end_ => lit "bytes=" ++ display_u64 start ++ dash :: display_u64 end_
  | FromStart start => lit "bytes=" ++ display_u64 start ++ [dash]
  | Suffix length => lit "bytes=" ++ dash :: display_u64 length
  end.

Definition parse (header : str) : outcome ServerError ByteRange :=
  spec ← ok_or (strip_prefix (lit "bytes=") header) MustStartWithBytes;
  _ ← guard_err (bool_decide (comma ∈ spec)) MultiRange;
  '(before, after) ← ok_or (split_once dash spec) InvalidRangeFormat;
  match before, after with
  | [], _ :: _ =>
      length ← ok_or (parse_u64 after) InvalidSuffixRange;
      mret (Suffix length)
  | _ :: _, [] =>
      start ← ok_or (parse_u64 before) InvalidRangeStart;
      mret (FromStart start)
  | _ :: _, _ :: _ =>
      start ← ok_or (parse_u64 before) InvalidRangeStart;
      end_ ← ok_or (parse_u64 after) InvalidRangeEnd;
      _ ← guard_err (end_ <? start) StartExceedsEnd;
      mret (Range start end_)
  | [], [] => Err InvalidRangeFormat
  end.

Definition resolve (self : ByteRange) (object_size : Z) : option (Z * Z) :=
  if object_size =? 0 then None else
  match self with
  | Range start end_ =>
      if object_size <=? start then None else Some (start, Z.min end_ (object_size - 1))
  | FromStart start =>
      if object_size <=? start then None else Some (start, object_size - 1)
  | Suffix length =>
      if length =? 0 then None
      else if object_size <=? length then Some (0, object_size - 1)
      else Some (object_size - length, object_size - 1)
  end.

Definition parse_copy_source_range (header : str) : outcome ServerError (Z * Z) :=
  range ← map_err (fun _ => InvalidCopySourceRange) (parse header);
  match range with
  | Range start end_ => mret (start, end_)
  | _ => Err InvalidCopySourceRange
  end.

(** ** Specification *)

Definition u64 (n : Z) : Prop := 0 <= n <= u64_MAX.

(** The ranges the parser can return *)
Definition well_formed (r : ByteRange) : Prop :=
  match r with
  | Range start end_ => u64 start /\ u64 end_ /\ start <= end_
  | FromStart start => u64 start
  | Suffix length => u64 length
  end.

(** The bytes of an object of the given size that a range asks for *)
Definition selects (r : ByteRange) (size i : Z) : Prop :=
  0 <= i < size /\
  match r with
  | Range start end_ => start <= i <= end_
  | FromStart start => start <= i
  | Suffix length => size - length <= i
  end.

Lemma display_no_sep n : u64 n -> Forall (fun c => c <> comma /\ c <> dash) (display_u64 n).
Proof.
  intros Hn. destruct (print_parse 10 n) as (_ & _ & Hs & _); [by left|unfold u64, u64_MAX in Hn; lia|].
  eapply list.Forall_impl; [exact Hs|]. unfold comma, dash. simpl. lia.
Qed.

Lemma parse_display n : u64 n -> parse_u64 (display_u64 n) = Some n /\ display_u64 n <> [].
Proof.
  intros Hn. destruct (print_parse 10 n) as (Hp & Hne & _); [by left|unfold u64, u64_MAX in Hn; lia|]. done.
Qed.

Lemma no_comma s : Forall (fun c => c <> comma /\ c <> dash) s -> comma ∉ s.
Proof. intros Hs Hin. by apply (proj1 (list.Forall_forall _ _) Hs) in Hin as [? _]. Qed.

(** The parser on a text of two parts *)
Lemma parse_parts before after :
  Forall (fun c => c <> comma /\ c <> dash) before -> Forall (fun c => c <> comma /\ c <> dash) after ->
  parse (lit "bytes=" ++ before ++ dash :: after) =
  match before, after with
  | [], _ :: _ => length ← ok_or (parse_u64 after) InvalidSuffixRange; mret (Suffix length)
  | _ :: _, [] => start ← ok_or (parse_u64 before) InvalidRangeStart; mret (FromStart start)
  | _ :: _, _ :: _ =>
      start ← ok_or (parse_u64 before) InvalidRangeStart;
      end_ ← ok_or (parse_u64 after) InvalidRangeEnd;
      _ ← guard_err (end_ <? start) StartExceedsEnd; mret (Range start end_)
  | [], [] => Err InvalidRangeFormat
  end.
Proof.
  intros Hb Ha. unfold parse. rewrite strip_prefix_app. cbn [ok_or]. bind_step.
  rewrite bool_decide_eq_false_2.
  2:{ rewrite elem_of_app, elem_of_cons. intros [?|[?|?]]; [by apply (no_comma before)|done|by apply (no_comma after)]. }
  cbn [guard_err]. bind_step. rewrite split_once_app; [done|].
  eapply list.Forall_impl; [exact Hb|]. by intros ? [_ ?].
Qed.

Lemma parse_u64_range s n : parse_u64 s = Some n -> u64 n.
Proof. apply from_str_radix_range; unfold u64_MAX; lia. Qed.

(** Every result of the parser is well-formed, and it never panics. *)
Lemma parse_result header : wp (parse header) well_formed (fun _ => True).
Proof.
  unfold parse. destruct (strip_prefix _ header) as [spec|]; [|done]. cbn [ok_or]. bind_step.
  destruct (bool_decide (comma ∈ spec)); [done|]. cbn [guard_err]. bind_step.
  destruct (split_once dash spec) as [[[|b before] [|a after]]|]; try done; cbn [ok_or]; bind_step.
  - destruct (parse_u64 (a :: after)) eqn:Ha; [|done]. by apply parse_u64_range in Ha.
  - destruct (parse_u64 (b :: before)) eqn:Hb; [|done]. by apply parse_u64_range in Hb.
  - destruct (parse_u64 (b :: before)) as [start|] eqn:Hb; [|done]. cbn [ok_or]. bind_step.
    destruct (parse_u64 (a :: after)) as [end_|] eqn:Ha; [|done]. cbn [ok_or]. bind_step.
    destruct (Z.ltb_spec end_ start); [done|]. apply parse_u64_range in Ha, Hb. done.
Qed.

(** The parser on the text of a range *)
Lemma parse_to_string r : well_formed r -> parse (to_string r) = Ok r.
Proof.
  destruct r as [start end_|start|length]; cbn [to_string well_formed].
  - intros (Hs & He & Hle). rewrite parse_parts by (by apply display_no_sep).
    destruct (parse_display start Hs) as [Hps Hns]. destruct (parse_display end_ He) as [Hpe Hne].
    destruct (display_u64 start), (display_u64 end_); [done..|]. rewrite Hps. cbn [ok_or]. bind_step.
    rewrite Hpe. cbn [ok_or]. bind_step. by rewrite (proj2 (Z.ltb_ge _ _)) by done.
  - intros Hs. rewrite (parse_parts _ []) by (by try apply display_no_sep).
    destruct (parse_display start Hs) as [Hps Hns]. destruct (display_u64 start); [done|]. by rewrite Hps.
  - intros Hl. rewrite (parse_parts [] (display_u64 length) (list.Forall_nil_2 _) (display_no_sep _ Hl)
      : parse (_ ++ dash :: _) = _).
    destruct (parse_display length Hl) as [Hpl Hnl]. destruct (display_u64 length); [done|]. by rewrite Hpl.
Qed.

(** Parsing inverts printing.  Every well-formed range is the result of
    parsing its own text; a copy-source range accepts the closed form only; and
    on any text [parse] returns an error or a well-formed range, never a panic. *)
Theorem byte_range_roundtrip :
  (forall r, well_formed r -> parse (to_string r) = Ok r /\
     parse_copy_source_range (to_string r) =
       match r with Range start end_ => Ok (start, end_) | _ => Err InvalidCopySourceRange end) /\
  (forall header, wp (parse header) well_formed (fun _ => True)).
Proof.
  split; [|apply parse_result]. intros r Hr. pose proof (parse_to_string r Hr) as Hp. split; [done|].
  unfold parse_copy_source_range. rewrite Hp. by destruct r.
Qed.

Lemma byte_range_roundtrip_witness : parse (to_string (Range 0 99)) = Ok (Range 0 99).
Proof. apply (proj1 byte_range_roundtrip). unfold well_formed, u64, u64_MAX. lia. Defined.

(** Resolution is exact.  [resolve] returns the first and the last byte of
    the object that the range asks for, both inside the object, and nothing
    exactly when the range asks for no byte of it. *)
Theorem byte_range_resolve_exact r size :
  well_formed r -> u64 size ->
  match resolve r size with
  | Some (first, last) =>
      0 <= first <= last /\ last < size /\ forall i, first <= i <= last <-> selects r size i
  | None => forall i, ~ selects r size i
  end.
Proof.
  intros Hr Hs. unfold resolve, selects, well_formed, u64 in *.
  destruct (Z.eqb_spec size 0) as [->|Hz]; [lia|].
  destruct r as [start end_|start|length].
  - destruct (Z.leb_spec size start); [lia|]. split; [lia|]. split; [lia|]. lia.
  - destruct (Z.leb_spec size start); [lia|]. split; [lia|]. split; [lia|]. lia.
  - destruct (Z.eqb_spec length 0); [lia|].
    destruct (Z.leb_spec size length); (split; [lia|]; split; [lia|]; lia).
Qed.

Lemma byte_range_resolve_exact_witness :
  resolve (Suffix 20) 100 = Some (80, 99) /\ forall i, 80 <= i <= 99 <-> selects (Suffix 20) 100 i.
Proof.
  split; [done|].
  destruct (byte_range_resolve_exact (Suffix 20) 100) as (_ & _ & Hi); [unfold well_formed, u64, u64_MAX; lia..|].
  exact Hi.
Defined.

(** The parser takes what [u64::from_str] takes: also a plus sign before the
    digits, which the grammar of RFC 7233 does not have. *)
Example parse_accepts_plus_sign : parse (lit "bytes=+0-+99") = Ok (Range 0 99).
Proof. vm_compute. reflexivity. Qed.

End Range.
