(* ===== verification/Cobblestone.v ===== *)
(** Chunked encryption of stored objects: the Cobblestone-256 profile of
    crates/crypto/src/cobblestone.rs with the wrappers it calls in aead.rs and
    hkdf.rs, definitions.

    A message is a salt, a key commitment and AES-256-GCM chunks of 16 KiB, the last
    one shorter.  The cryptographic library is a parameter, the class [Provider];
    the observers of the opening routines are recorded as the trace of their
    calls.  Byte arrays are lists, with their lengths checked where the code
    converts a slice to an array. *)

From Stdlib Require Import ZifyBool.
From stdpp Require Import strings.
From coqutil Require Import Word.LittleEndianList.
From S2P Require Import Prelude Machine.

Local Open Scope Z_scope.

(** The primitives of the third-party cryptographic library *)
Class Provider := {
  (** whether the library makes a cipher key of the bytes *)
  gcm_key_accepted : list byte -> bool;
  (** key, nonce, associated data, plaintext: the ciphertext and tag *)
  gcm_seal : list byte -> list byte -> list byte -> list byte -> option (list byte);
  (** key, nonce, associated data, ciphertext and tag: the plaintext *)
  gcm_open : list byte -> list byte -> list byte -> list byte -> option (list byte);
  (** what an opening in place leaves in the buffer behind the plaintext *)
  gcm_scratch : list byte -> list byte -> list byte -> list byte -> list byte;
  (** output length, pseudorandom key, info *)
  hkdf_sha512_expand : Z -> list byte -> list byte -> option (list byte);
  verify_slices_are_equal : list byte -> list byte -> bool
}.

Module Cobblestone.
Import Machine.

Inductive CryptoError := CryptoError_.

#[global] Instance CryptoError_eq_dec : EqDecision CryptoError.
Proof. solve_decision. Defined.

#[local] Notation "o '??'" := (ok_or o CryptoError_) (at level 1, left associativity, only parsing).

Definition SHA512_LEN : Z := 64.
Definition AES_256_GCM_KEY_LEN : Z := 32.
Definition AES_GCM_NONCE_LEN : Z := 12.
Definition AES_GCM_TAG_LEN : Z := 16.

Definition COBBLESTONE_256_INPUT_KEY_LEN : Z := AES_256_GCM_KEY_LEN.
Definition COBBLESTONE_SALT_LEN : Z := 24.
Definition COBBLESTONE_COMMITMENT_LEN : Z := 32.
Definition COBBLESTONE_HEADER_LEN : Z := COBBLESTONE_SALT_LEN + COBBLESTONE_COMMITMENT_LEN.
Definition COBBLESTONE_CHUNK_LEN : Z := 16 * 1024.
Definition COBBLESTONE_FULL_ENCRYPTED_CHUNK_LEN : Z := COBBLESTONE_CHUNK_LEN + AES_GCM_TAG_LEN.
Definition COBBLESTONE_MAX_CHUNKS : Z := Z.shiftl 1 38.
Definition DERIVED_MATERIAL_LEN : Z :=
  AES_256_GCM_KEY_LEN + AES_GCM_NONCE_LEN + COBBLESTONE_COMMITMENT_LEN.
Definition HKDF_INFO_PREFIX : list byte :=
  String.list_byte_of_string "c2sp.org/chunked-encryption@v1+AEAD_AES_256_GCM" ++ [Byte.x00].

(** [slice.try_into()] to an array of [n] bytes *)
Definition try_into (n : Z) (bytes : list byte) : outcome CryptoError (list byte) :=
  if len bytes =? n then Ok bytes else Err CryptoError_.

(** ** Key material *)

Record Cobblestone256Key := MkKey { input_key_bytes : list byte }.

Definition Cobblestone256Key_new (input_key : list byte) : outcome CryptoError Cobblestone256Key :=
  bytes ← try_into COBBLESTONE_256_INPUT_KEY_LEN input_key;
  mret (MkKey bytes).

(** [Aes256GcmKey], by the bytes it is made of *)
Definition Aes256GcmKey : Type := list byte.

Record DerivedMessageKey := MkDerived {
  derived_key : Aes256GcmKey;
  derived_base_nonce : list byte;
  derived_commitment : list byte
}.

Record Cobblestone256MessageLayout := MkLayout {
  ciphertext_len : Z;
  plaintext_len : Z;
  full_chunks : Z;
  terminal_ciphertext_len : Z
}.

Record Cobblestone256SelectedRange := MkSelected {
  selected_layout : Cobblestone256MessageLayout;
  plaintext_range : Z * Z;
  first_chunk : Z;
  last_chunk : Z;
  ciphertext_range : Z * Z
}.

(** The calls of the observers of an opening *)
Inductive observation := BeforeOpen | AfterOpen (plaintext_len : Z).

Definition observe {S} (set : list observation -> S -> S) (get : S -> list observation)
    (o : observation) : stm S CryptoError () :=
  modify (fun s => set (get s ++ [o]) s).

(** ** Nonces *)

(** [n.to_be_bytes()] *)
Definition to_be_bytes (n : Z) : list byte := rev (le_split 8 n).

(** [for (a, b) in a.iter_mut().zip(b) { *a ^= b }] *)
Fixpoint xor_zip (a b : list byte) : list byte :=
  match a, b with
  | x :: a', y :: b' => byte.xor x y :: xor_zip a' b'
  | _, _ => a
  end.

Definition nonce_for_chunk (base_nonce : list byte) (chunk_index : Z) : outcome CryptoError (list byte) :=
  _ ← guard_err (COBBLESTONE_MAX_CHUNKS <=? chunk_index) CryptoError_;
  let counter := to_be_bytes chunk_index in
  let nonce_counter_start := len base_nonce - 5 in
  let counter_start := len counter - 5 in
  mret (takeZ nonce_counter_start base_nonce ++
        xor_zip (dropZ nonce_counter_start base_nonce) (dropZ counter_start counter)).

(** ** Message geometry *)

Definition from_ciphertext_len (ciphertext_len : Z) : outcome CryptoError Cobblestone256MessageLayout :=
  body_len ← (checked_sub64 ciphertext_len COBBLESTONE_HEADER_LEN)??;
  let full_chunks := body_len / COBBLESTONE_FULL_ENCRYPTED_CHUNK_LEN in
  terminal_ciphertext_len ← (usize_try_from64 (body_len mod COBBLESTONE_FULL_ENCRYPTED_CHUNK_LEN))??;
  _ ← guard_err (negb ((AES_GCM_TAG_LEN <=? terminal_ciphertext_len) &&
                       (terminal_ciphertext_len <? COBBLESTONE_FULL_ENCRYPTED_CHUNK_LEN))) CryptoError_;
  chunk_count ← (checked_add64 full_chunks 1)??;
  _ ← guard_err (COBBLESTONE_MAX_CHUNKS <? chunk_count) CryptoError_;
  length ← (checked_mul64 full_chunks COBBLESTONE_CHUNK_LEN)??;
  final ← sub64 terminal_ciphertext_len AES_GCM_TAG_LEN;
  plaintext_len ← (checked_add64 length final)??;
  mret (MkLayout ciphertext_len plaintext_len full_chunks terminal_ciphertext_len).

Definition from_plaintext_len (plaintext_len : Z) : outcome CryptoError Cobblestone256MessageLayout :=
  let full_chunks := plaintext_len / COBBLESTONE_CHUNK_LEN in
  final_plaintext_len ← (usize_try_from64 (plaintext_len mod COBBLESTONE_CHUNK_LEN))??;
  chunk_count ← (checked_add64 full_chunks 1)??;
  _ ← guard_err (COBBLESTONE_MAX_CHUNKS <? chunk_count) CryptoError_;
  terminal_ciphertext_len ← add64 final_plaintext_len AES_GCM_TAG_LEN;
  full ← (checked_mul64 full_chunks COBBLESTONE_FULL_ENCRYPTED_CHUNK_LEN)??;
  length ← (checked_add64 COBBLESTONE_HEADER_LEN full)??;
  ciphertext_len ← (checked_add64 length terminal_ciphertext_len)??;
  mret (MkLayout ciphertext_len plaintext_len full_chunks terminal_ciphertext_len).

Definition chunk_count (self : Cobblestone256MessageLayout) : outcome CryptoError Z :=
  add64 (full_chunks self) 1.

Definition ciphertext_range_for_chunk (self : Cobblestone256MessageLayout) (chunk_index : Z) :
    outcome CryptoError (Z * Z) :=
  count ← chunk_count self;
  _ ← guard_err (count <=? chunk_index) CryptoError_;
  offset ← (checked_mul64 chunk_index COBBLESTONE_FULL_ENCRYPTED_CHUNK_LEN)??;
  start ← (checked_add64 COBBLESTONE_HEADER_LEN offset)??;
  let length := if chunk_index <? full_chunks self then COBBLESTONE_FULL_ENCRYPTED_CHUNK_LEN
                else terminal_ciphertext_len self in
  end_ ← (checked_add64 start length)??;
  mret (start, end_).

Definition plaintext_range_for_chunk (self : Cobblestone256MessageLayout) (chunk_index : Z) :
    outcome CryptoError (Z * Z) :=
  ciphertext_range ← ciphertext_range_for_chunk self chunk_index;
  start ← (checked_mul64 chunk_index COBBLESTONE_CHUNK_LEN)??;
  d ← sub64 (snd ciphertext_range) (fst ciphertext_range);
  plaintext_length ← (checked_sub64 d AES_GCM_TAG_LEN)??;
  end_ ← (checked_add64 start plaintext_length)??;
  mret (start, end_).

Definition select_plaintext_range (self : Cobblestone256MessageLayout) (range : Z * Z) :
    outcome CryptoError Cobblestone256SelectedRange :=
  _ ← guard_err ((snd range <=? fst range) || (plaintext_len self <? snd range)) CryptoError_;
  let first_chunk := fst range / COBBLESTONE_CHUNK_LEN in
  last ← sub64 (snd range) 1;
  let last_chunk := last / COBBLESTONE_CHUNK_LEN in
  first_ciphertext ← ciphertext_range_for_chunk self first_chunk;
  last_ciphertext ← ciphertext_range_for_chunk self last_chunk;
  mret (MkSelected self range first_chunk last_chunk (fst first_ciphertext, snd last_ciphertext)).

Definition header_range (self : Cobblestone256SelectedRange) : Z * Z := (0, COBBLESTONE_HEADER_LEN).

Definition selected_chunk_count (self : Cobblestone256SelectedRange) : outcome CryptoError Z :=
  d ← sub64 (last_chunk self) (first_chunk self);
  add64 d 1.

Section cobblestone.
Context `{Provider}.

(** ** Wrappers of the library *)

Definition Aes256GcmKey_new (key_material : list byte) : outcome CryptoError Aes256GcmKey :=
  if gcm_key_accepted key_material then Ok key_material else Err CryptoError_.

(** The buffer [plaintext_and_tag] after the call *)
Definition seal_in_place_append_tag (self : Aes256GcmKey) (nonce associated_data plaintext_and_tag : list byte) :
    outcome CryptoError (list byte) :=
  (gcm_seal self nonce associated_data plaintext_and_tag)??.

(** The returned slice is the head of the buffer, here its length. *)
Definition open_in_place (self : Aes256GcmKey) (nonce associated_data : list byte) :
    stm (list byte) CryptoError Z := fun ciphertext_and_tag =>
  match gcm_open self nonce associated_data ciphertext_and_tag with
  | Some plaintext =>
      (Ok (len plaintext), plaintext ++ gcm_scratch self nonce associated_data ciphertext_and_tag)
  | None => ((Err CryptoError_), replicate (length ciphertext_and_tag) Byte.x00)
  end.

Definition expand_sha512 (n : Z) (pseudorandom_key info : list byte) : outcome CryptoError (list byte) :=
  _ ← guard_err (255 * SHA512_LEN <? n) CryptoError_;
  if n =? 0 then mret [] else (hkdf_sha512_expand n pseudorandom_key info)??.

Definition commitments_equal (left right : list byte) : bool := verify_slices_are_equal left right.

Definition derive_message_key (input_key : Cobblestone256Key) (salt context : list byte) :
    outcome CryptoError DerivedMessageKey :=
  let info := HKDF_INFO_PREFIX ++ salt ++ context in
  material ← expand_sha512 DERIVED_MATERIAL_LEN (input_key_bytes input_key) info;
  head ← index_range material 0 AES_256_GCM_KEY_LEN;
  key_material ← try_into AES_256_GCM_KEY_LEN head;
  let nonce_start := AES_256_GCM_KEY_LEN in
  let commitment_start := nonce_start + AES_GCM_NONCE_LEN in
  key ← Aes256GcmKey_new key_material;
  nonce ← index_range material nonce_start commitment_start;
  base_nonce ← try_into AES_GCM_NONCE_LEN nonce;
  tail ← index_range material commitment_start (len material);
  commitment ← try_into COBBLESTONE_COMMITMENT_LEN tail;
  mret (MkDerived key base_nonce commitment).

(** ** Sealing *)

Record Cobblestone256Sealer := MkSealer {
  sealer_key : Aes256GcmKey;
  sealer_base_nonce : list byte;
  sealer_next_chunk : Z;
  sealer_pending : list byte;
  sealer_failed : bool
}.

Definition sealer_set_failed (self : Cobblestone256Sealer) : Cobblestone256Sealer :=
  MkSealer (sealer_key self) (sealer_base_nonce self) (sealer_next_chunk self) (sealer_pending self) true.

Definition sealer_set_next_chunk (n : Z) (self : Cobblestone256Sealer) : Cobblestone256Sealer :=
  MkSealer (sealer_key self) (sealer_base_nonce self) n (sealer_pending self) (sealer_failed self).

Definition sealer_set_pending (p : list byte) (self : Cobblestone256Sealer) : Cobblestone256Sealer :=
  MkSealer (sealer_key self) (sealer_base_nonce self) (sealer_next_chunk self) p (sealer_failed self).

(** A method of the sealer, which also appends to the ciphertext it is lent *)
Definition sealing (A : Type) : Type := stm (Cobblestone256Sealer * list byte) CryptoError A.

Definition on_sealer (f : Cobblestone256Sealer -> Cobblestone256Sealer) : sealing () :=
  modify (fun '(self, ciphertext) => (f self, ciphertext)).

Definition emit (bytes : list byte) : sealing () :=
  modify (fun '(self, ciphertext) => (self, ciphertext ++ bytes)).

Definition start (input_key : Cobblestone256Key) (salt context ciphertext : list byte) :
    outcome CryptoError (Cobblestone256Sealer * list byte) :=
  derived ← derive_message_key input_key salt context;
  mret (MkSealer (derived_key derived) (derived_base_nonce derived) 0 [] false,
        ciphertext ++ salt ++ derived_commitment derived).

Definition seal_chunk (plaintext : list byte) : sealing () :=
  self ← gets fst;
  if sealer_failed self then liftS (Err CryptoError_) else
  sealed ← lift_or (fun '(self, ciphertext) => (sealer_set_failed self, ciphertext))
    (nonce ← nonce_for_chunk (sealer_base_nonce self) (sealer_next_chunk self);
     seal_in_place_append_tag (sealer_key self) nonce [] plaintext);
  _ ← emit sealed;
  next ← liftS ((checked_add64 (sealer_next_chunk self) 1)??);
  on_sealer (sealer_set_next_chunk next).

(** The loop over the whole chunks of the input; its rest *)
Fixpoint seal_full_chunks (fuel : nat) (plaintext : list byte) : sealing (list byte) :=
  match fuel with
  | O => liftS Panic
  | S fuel =>
      if COBBLESTONE_CHUNK_LEN <=? len plaintext then
        _ ← seal_chunk (takeZ COBBLESTONE_CHUNK_LEN plaintext);
        seal_full_chunks fuel (dropZ COBBLESTONE_CHUNK_LEN plaintext)
      else mret plaintext
  end.

(** The bytes that complete a pending chunk; the rest of the input *)
Definition fill_pending (plaintext : list byte) : sealing (list byte) :=
  self ← gets fst;
  if bool_decide (sealer_pending self = []) then mret plaintext else
  wanted ← liftS (sub64 COBBLESTONE_CHUNK_LEN (len (sealer_pending self)));
  let consumed := Z.min wanted (len plaintext) in
  let pending := sealer_pending self ++ takeZ consumed plaintext in
  _ ← on_sealer (sealer_set_pending pending);
  let plaintext := dropZ consumed plaintext in
  if len pending =? COBBLESTONE_CHUNK_LEN then
    _ ← on_sealer (sealer_set_pending []);
    _ ← seal_chunk pending;
    mret plaintext
  else mret plaintext.

Definition sealer_update (plaintext : list byte) : sealing () :=
  self ← gets fst;
  if sealer_failed self then liftS (Err CryptoError_) else
  plaintext ← fill_pending plaintext;
  plaintext ← seal_full_chunks (S (length plaintext)) plaintext;
  on_sealer (fun self => sealer_set_pending (sealer_pending self ++ plaintext) self).

Definition sealer_finish : sealing () :=
  self ← gets fst;
  _ ← on_sealer (sealer_set_pending []);
  seal_chunk (sealer_pending self).

Definition seal (input_key : Cobblestone256Key) (salt context plaintext : list byte) :
    outcome CryptoError (list byte) :=
  layout ← from_plaintext_len (len plaintext);
  capacity ← (usize_try_from64 (ciphertext_len layout))??;
  sealer ← start input_key salt context [];
  let '(result, (_, ciphertext)) := (_ ← sealer_update plaintext; sealer_finish) sealer in
  _ ← result;
  _ ← assert_true (len ciphertext =? capacity);
  mret ciphertext.

(** ** Opening records *)

Record Cobblestone256Opener := MkOpener {
  opener_key : Aes256GcmKey;
  opener_base_nonce : list byte
}.

Definition from_header (input_key : Cobblestone256Key) (context header : list byte) :
    outcome CryptoError Cobblestone256Opener :=
  _ ← guard_err (negb (len header =? COBBLESTONE_HEADER_LEN)) CryptoError_;
  head ← index_range header 0 COBBLESTONE_SALT_LEN;
  salt ← try_into COBBLESTONE_SALT_LEN head;
  derived ← derive_message_key input_key salt context;
  commitment ← index_range header COBBLESTONE_SALT_LEN (len header);
  _ ← guard_err (negb (commitments_equal (derived_commitment derived) commitment)) CryptoError_;
  mret (MkOpener (derived_key derived) (derived_base_nonce derived)).

(** The length of the plaintext at the head of the buffer *)
Definition open_chunk (self : Cobblestone256Opener) (layout : Cobblestone256MessageLayout)
    (chunk_index : Z) : stm (list byte) CryptoError Z :=
  expected ← liftS (ciphertext_range_for_chunk layout chunk_index);
  d ← liftS (sub64 (snd expected) (fst expected));
  buffer ← gets id;
  _ ← liftS (guard_err (negb (len buffer =? d)) CryptoError_);
  nonce ← liftS (nonce_for_chunk (opener_base_nonce self) chunk_index);
  open_in_place (opener_key self) nonce [].

(** A turn of the loop over the selected records: the record is copied to a
    private buffer, opened there, and its plaintext appended. *)
Definition open_selected_chunk (self : Cobblestone256Opener) (selection : Cobblestone256SelectedRange)
    (selected_ciphertext authenticated : list byte) (chunk_index : Z) :
    stm (list observation) CryptoError (list byte) :=
  absolute ← liftS (ciphertext_range_for_chunk (selected_layout selection) chunk_index);
  start ← liftS ((s ← checked_sub64 (fst absolute) (fst (ciphertext_range selection)); usize_try_from64 s)??);
  end_ ← liftS ((s ← checked_sub64 (snd absolute) (fst (ciphertext_range selection)); usize_try_from64 s)??);
  encrypted_chunk ← liftS ((get_range selected_ciphertext start end_)??);
  _ ← observe (fun t _ => t) id BeforeOpen;
  let '(result, encrypted_chunk) := open_chunk self (selected_layout selection) chunk_index encrypted_chunk in
  n ← liftS result;
  _ ← observe (fun t _ => t) id (AfterOpen n);
  mret (authenticated ++ takeZ n encrypted_chunk).

Definition open_selected_range_with_observers (self : Cobblestone256Opener)
    (selection : Cobblestone256SelectedRange) (selected_ciphertext : list byte) :
    stm (list observation) CryptoError (list byte) :=
  expected_len ← liftS ((s ← checked_sub64 (snd (ciphertext_range selection)) (fst (ciphertext_range selection));
                         usize_try_from64 s)??);
  _ ← liftS (guard_err (negb (len selected_ciphertext =? expected_len)) CryptoError_);
  first_plaintext ← liftS (plaintext_range_for_chunk (selected_layout selection) (first_chunk selection));
  last_plaintext ← liftS (plaintext_range_for_chunk (selected_layout selection) (last_chunk selection));
  authenticated_len ← liftS ((s ← checked_sub64 (snd last_plaintext) (fst first_plaintext);
                              usize_try_from64 s)??);
  authenticated ← foldS (open_selected_chunk self selection selected_ciphertext) []
    (seqZ (first_chunk selection) (last_chunk selection - first_chunk selection + 1));
  selected_start ← liftS ((s ← checked_sub64 (fst (plaintext_range selection)) (fst first_plaintext);
                           usize_try_from64 s)??);
  selected_end ← liftS ((s ← checked_sub64 (snd (plaintext_range selection)) (fst first_plaintext);
                         usize_try_from64 s)??);
  match get_range authenticated selected_start selected_end with
  | None => liftS (Err CryptoError_)
  | Some _ =>
      authenticated ← liftS (copy_within authenticated selected_start selected_end 0);
      n ← liftS (sub64 selected_end selected_start);
      mret (takeZ n authenticated)
  end.

Definition open_selected_range (self : Cobblestone256Opener) (selection : Cobblestone256SelectedRange)
    (selected_ciphertext : list byte) : outcome CryptoError (list byte) :=
  fst (open_selected_range_with_observers self selection selected_ciphertext []).

(** ** The incremental opener *)

Record Cobblestone256StreamOpener := MkStream {
  stream_input_key : option Cobblestone256Key;
  stream_context : list byte;
  stream_layout : Cobblestone256MessageLayout;
  stream_opener : option Cobblestone256Opener;
  stream_pending : list byte;
  stream_consumed : Z;
  stream_next_chunk : Z;
  stream_failed : bool;
  stream_finished : bool
}.

Definition stream_new (input_key : Cobblestone256Key) (context : list byte) (ciphertext_len : Z) :
    outcome CryptoError Cobblestone256StreamOpener :=
  layout ← from_ciphertext_len ciphertext_len;
  mret (MkStream (Some input_key) context layout None [] 0 0 false false).

Definition stream_set_failed (s : Cobblestone256StreamOpener) : Cobblestone256StreamOpener :=
  MkStream (stream_input_key s) (stream_context s) (stream_layout s) (stream_opener s) (stream_pending s)
    (stream_consumed s) (stream_next_chunk s) true (stream_finished s).

Definition stream_set_finished (s : Cobblestone256StreamOpener) : Cobblestone256StreamOpener :=
  MkStream (stream_input_key s) (stream_context s) (stream_layout s) (stream_opener s) (stream_pending s)
    (stream_consumed s) (stream_next_chunk s) (stream_failed s) true.

(** New [pending], [consumed] and [next_chunk] *)
Definition stream_advance (pending : list byte) (consumed next_chunk : Z) (s : Cobblestone256StreamOpener) :
    Cobblestone256StreamOpener :=
  MkStream (stream_input_key s) (stream_context s) (stream_layout s) (stream_opener s) pending
    consumed next_chunk (stream_failed s) (stream_finished s).

(** New [input_key] and [opener] *)
Definition stream_set_opener (input_key : option Cobblestone256Key) (opener : option Cobblestone256Opener)
    (s : Cobblestone256StreamOpener) : Cobblestone256StreamOpener :=
  MkStream input_key (stream_context s) (stream_layout s) opener (stream_pending s)
    (stream_consumed s) (stream_next_chunk s) (stream_failed s) (stream_finished s).

(** A method of the opener, beside something [T] it also changes *)
Definition opening (T A : Type) : Type := stm (Cobblestone256StreamOpener * T) CryptoError A.

Definition on_stream {T} (f : Cobblestone256StreamOpener -> Cobblestone256StreamOpener)
    (s : Cobblestone256StreamOpener * T) : Cobblestone256StreamOpener * T := (f s.1, s.2).

Definition stream_fail {T A} : opening T A := fail_with (on_stream stream_set_failed) CryptoError_.

(** [self.input_key.take().ok_or(CryptoError)?] *)
Definition take_input_key {T} : opening T Cobblestone256Key :=
  self ← gets fst;
  _ ← modify (on_stream (stream_set_opener None (stream_opener self)));
  liftS ((stream_input_key self)??).

(** The part of [update] that completes the header; the rest of the input *)
Definition read_header (ciphertext : list byte) : opening (list byte) (list byte) :=
  self ← gets fst;
  wanted ← liftS (sub64 COBBLESTONE_HEADER_LEN (len (stream_pending self)));
  let consumed := Z.min wanted (len ciphertext) in
  let pending := stream_pending self ++ takeZ consumed ciphertext in
  total ← liftS (add64 (stream_consumed self) consumed);
  _ ← modify (on_stream (stream_advance pending total (stream_next_chunk self)));
  let ciphertext := dropZ consumed ciphertext in
  if len pending =? COBBLESTONE_HEADER_LEN then
    input_key ← take_input_key;
    let opener := from_header input_key (stream_context self) pending in
    _ ← modify (on_stream (stream_advance [] total (stream_next_chunk self)));
    opener ← lift_or (on_stream stream_set_failed) opener;
    _ ← modify (on_stream (stream_set_opener None (Some opener)));
    mret ciphertext
  else mret ciphertext.

(** A turn of the loop of [update]: the rest of the input *)
Definition read_chunk (ciphertext : list byte) : opening (list byte) (list byte) :=
  self ← gets fst;
  range ← lift_or (on_stream stream_set_failed)
            (ciphertext_range_for_chunk (stream_layout self) (stream_next_chunk self));
  d ← liftS (sub64 (snd range) (fst range));
  chunk_len ← liftS ((usize_try_from64 d)??);
  wanted ← liftS (sub64 chunk_len (len (stream_pending self)));
  let consumed := Z.min wanted (len ciphertext) in
  let pending := stream_pending self ++ takeZ consumed ciphertext in
  total ← liftS (add64 (stream_consumed self) consumed);
  _ ← modify (on_stream (stream_advance pending total (stream_next_chunk self)));
  let ciphertext := dropZ consumed ciphertext in
  if len pending =? chunk_len then
    opener ← liftS ((stream_opener self)??);
    let '(result, pending) := open_chunk opener (stream_layout self) (stream_next_chunk self) pending in
    _ ← modify (on_stream (stream_advance pending total (stream_next_chunk self)));
    n ← lift_or (on_stream stream_set_failed) result;
    _ ← modify (fun '(self, plaintext) => (self, plaintext ++ takeZ n pending));
    next ← liftS (add64 (stream_next_chunk self) 1);
    _ ← modify (on_stream (stream_advance [] total next));
    mret ciphertext
  else mret ciphertext.

Fixpoint read_chunks (fuel : nat) (ciphertext : list byte) : opening (list byte) () :=
  match fuel with
  | O => liftS Panic
  | S fuel =>
      if bool_decide (ciphertext = []) then mret () else
      ciphertext ← read_chunk ciphertext;
      read_chunks fuel ciphertext
  end.

Definition stream_update (ciphertext : list byte) : opening (list byte) () :=
  self ← gets fst;
  if stream_failed self || stream_finished self ||
     match checked_add64 (stream_consumed self) (len ciphertext) with
     | None => true
     | Some length => ciphertext_len (stream_layout self) <? length
     end
  then stream_fail else
  ciphertext ← (match stream_opener self with Some _ => mret ciphertext | None => read_header ciphertext end);
  read_chunks (S (length ciphertext)) ciphertext.

Definition stream_finish {T} : opening T () :=
  self ← gets fst;
  if stream_failed self || stream_finished self
     || negb (stream_consumed self =? ciphertext_len (stream_layout self))
  then stream_fail else
  count ← liftS (chunk_count (stream_layout self));
  if negb (stream_next_chunk self =? count) || negb (bool_decide (stream_pending self = []))
  then stream_fail else
  modify (on_stream stream_set_finished).

Definition open (input_key : Cobblestone256Key) (context ciphertext : list byte) :
    outcome CryptoError (list byte) :=
  layout ← from_ciphertext_len (len ciphertext);
  capacity ← (usize_try_from64 (plaintext_len layout))??;
  opener ← stream_new input_key context (len ciphertext);
  let '(result, (_, plaintext)) := (_ ← stream_update ciphertext; stream_finish) (opener, []) in
  _ ← result;
  _ ← assert_true (len plaintext =? capacity);
  mret plaintext.

(** ** Opening in place *)

(** [open_chunk(layout, chunk_index, &mut buffer[start..end])]: the result and the
    whole buffer *)
Definition open_within (self : Cobblestone256Opener) (layout : Cobblestone256MessageLayout)
    (chunk_index start end_ : Z) (record buffer : list byte) : outcome CryptoError Z * list byte :=
  let '(result, record) := open_chunk self layout chunk_index record in
  (result, takeZ start buffer ++ record ++ dropZ end_ buffer).

Definition observe_stream (o : observation) : opening (list observation) () :=
  observe (fun t s => (s.1, t)) snd o.

(** The header, as the first unit *)
Definition open_header_owned {T} (ciphertext : list byte) : opening T (list byte) :=
  self ← gets fst;
  if negb (stream_consumed self =? 0) || negb (len ciphertext =? COBBLESTONE_HEADER_LEN) then stream_fail else
  input_key ← take_input_key;
  opener ← lift_or (on_stream stream_set_failed) (from_header input_key (stream_context self) ciphertext);
  _ ← modify (on_stream (stream_set_opener None (Some opener)));
  _ ← modify (on_stream (stream_advance (stream_pending self) COBBLESTONE_HEADER_LEN (stream_next_chunk self)));
  mret [].

(** A turn of the loop over the records of a window: the buffer and the offsets *)
Definition open_window_record (input_len : Z) (ciphertext : list byte) (input_offset output_offset : Z) :
    opening (list observation) (list byte * Z * Z) :=
  self ← gets fst;
  range ← lift_or (on_stream stream_set_failed)
            (ciphertext_range_for_chunk (stream_layout self) (stream_next_chunk self));
  d ← liftS (sub64 (snd range) (fst range));
  expected_len ← liftS ((usize_try_from64 d)??);
  input_end ← lift_or (on_stream stream_set_failed) ((checked_add64 input_offset expected_len)??);
  if negb (stream_consumed self =? fst range) || (input_len <? input_end) then stream_fail else
  _ ← observe_stream BeforeOpen;
  opener ← liftS ((stream_opener self)??);
  record ← liftS (index_range ciphertext input_offset input_end);
  let '(result, ciphertext) := open_within opener (stream_layout self) (stream_next_chunk self)
                                 input_offset input_end record ciphertext in
  plaintext_len ← lift_or (on_stream stream_set_failed) result;
  _ ← observe_stream (AfterOpen plaintext_len);
  ciphertext ← (if output_offset =? input_offset then mret ciphertext else
                plaintext_end ← liftS (add64 input_offset plaintext_len);
                liftS (copy_within ciphertext input_offset plaintext_end output_offset));
  output_offset ← lift_or (on_stream stream_set_failed) ((checked_add64 output_offset plaintext_len)??);
  _ ← modify (on_stream (stream_advance (stream_pending self) (snd range) (stream_next_chunk self)));
  next ← lift_or (on_stream stream_set_failed) ((checked_add64 (stream_next_chunk self) 1)??);
  _ ← modify (on_stream (stream_advance (stream_pending self) (snd range) next));
  mret (ciphertext, input_end, output_offset).

Fixpoint open_window_records (fuel : nat) (input_len : Z) (ciphertext : list byte)
    (input_offset output_offset : Z) : opening (list observation) (list byte) :=
  match fuel with
  | O => liftS Panic
  | S fuel =>
      if input_offset <? input_len then
        '(ciphertext, input_offset, output_offset) ←
          open_window_record input_len ciphertext input_offset output_offset;
        open_window_records fuel input_len ciphertext input_offset output_offset
      else mret (takeZ output_offset ciphertext)
  end.

Definition open_next_window_owned_with_observers (ciphertext : list byte) :
    opening (list observation) (list byte) :=
  self ← gets fst;
  if stream_failed self || stream_finished self || negb (bool_decide (stream_pending self = []))
     || bool_decide (ciphertext = [])
  then stream_fail else
  match stream_opener self with
  | Some _ => open_window_records (S (length ciphertext)) (len ciphertext) ciphertext 0 0
  | None => open_header_owned ciphertext
  end.

Definition open_next_owned (ciphertext : list byte) : opening (list observation) (list byte) :=
  self ← gets fst;
  if stream_failed self || stream_finished self || negb (bool_decide (stream_pending self = []))
  then stream_fail else
  match stream_opener self with
  | None => open_header_owned ciphertext
  | Some _ =>
    range ← lift_or (on_stream stream_set_failed)
              (ciphertext_range_for_chunk (stream_layout self) (stream_next_chunk self));
    d ← liftS (sub64 (snd range) (fst range));
    expected_len ← liftS ((usize_try_from64 d)??);
    if negb (stream_consumed self =? fst range) || negb (len ciphertext =? expected_len) then stream_fail else
    open_next_window_owned_with_observers ciphertext
  end.

(** A turn of the loop of [open_owned_with_observers]: the buffer and the offset *)
Definition open_owned_record (layout : Cobblestone256MessageLayout) (opener : Cobblestone256Opener)
    (acc : list byte * Z) (chunk_index : Z) : stm (list byte * list observation) CryptoError (list byte * Z) :=
  let '(ciphertext, output_offset) := acc in
  range ← liftS (ciphertext_range_for_chunk layout chunk_index);
  start ← liftS ((usize_try_from64 (fst range))??);
  end_ ← liftS ((usize_try_from64 (snd range))??);
  _ ← observe (fun t s => (s.1, t)) snd BeforeOpen;
  record ← liftS ((get_range ciphertext start end_)??);
  let '(result, ciphertext) := open_within opener layout chunk_index start end_ record ciphertext in
  plaintext_len ← liftS result;
  _ ← observe (fun t s => (s.1, t)) snd (AfterOpen plaintext_len);
  plaintext_end ← liftS (add64 start plaintext_len);
  ciphertext ← liftS (copy_within ciphertext start plaintext_end output_offset);
  output_offset ← liftS ((checked_add64 output_offset plaintext_len)??);
  mret (ciphertext, output_offset).

(** The state is the caller's vector, taken once the records are opened. *)
Definition open_owned_with_observers (input_key : Cobblestone256Key) (context : list byte) :
    stm (list byte * list observation) CryptoError (list byte) :=
  ciphertext ← gets fst;
  layout ← liftS (from_ciphertext_len (len ciphertext));
  header ← liftS ((get_range ciphertext 0 COBBLESTONE_HEADER_LEN)??);
  opener ← liftS (from_header input_key context header);
  _ ← modify (fun s => ([], s.2));
  count ← liftS (chunk_count layout);
  '(ciphertext, output_offset) ← foldS (open_owned_record layout opener) (ciphertext, 0) (seqZ 0 count);
  mret (takeZ output_offset ciphertext).

End cobblestone.

End Cobblestone.
