(* ===== verification/CobblestoneSpec.v ===== *)
(** Chunked encryption: what a message is, and the routines of Cobblestone.v
    against it.

    [message] is the format as a function of the plaintext; the sealer produces it
    from any slices, and the openers accept exactly the bytes that are a message. *)

From Stdlib Require Import ZifyBool.
From coqutil Require Import Word.LittleEndianList.
From S2P Require Import Prelude Machine Blocks Cobblestone.

Local Open Scope Z_scope.

(** Documented behaviour of the cryptographic library: HKDF-Expand returns the
    length asked for (RFC 5869); AES-GCM encryption appends a tag of 16 bytes, and
    decryption returns the plaintext whose encryption its input is, or nothing
    (NIST SP 800-38D); the comparison is equality. *)
Class ProviderOk `{Provider} : Prop := {
  hkdf_length n prk info m : 0 <= n -> hkdf_sha512_expand n prk info = Some m -> Machine.len m = n;
  gcm_seal_length k n a p c :
    gcm_seal k n a p = Some c -> Machine.len c = Machine.len p + Cobblestone.AES_GCM_TAG_LEN;
  gcm_open_seal k n a p c : gcm_seal k n a p = Some c -> gcm_open k n a c = Some p;
  gcm_seal_open k n a p c : gcm_open k n a c = Some p -> gcm_seal k n a p = Some c;
  gcm_scratch_length k n a p c :
    gcm_open k n a c = Some p -> Machine.len (gcm_scratch k n a c) = Cobblestone.AES_GCM_TAG_LEN;
  verify_slices_spec a b : verify_slices_are_equal a b = true <-> a = b
}.

Module CobblestoneSpec.
Import Machine Blocks Cobblestone.

(** The constants of the format, for [lia] *)
Ltac geometry :=
  unfold COBBLESTONE_HEADER_LEN, COBBLESTONE_SALT_LEN, COBBLESTONE_COMMITMENT_LEN,
    COBBLESTONE_FULL_ENCRYPTED_CHUNK_LEN, COBBLESTONE_CHUNK_LEN, AES_GCM_TAG_LEN, MAX64 in *;
  change COBBLESTONE_MAX_CHUNKS with 274877906944 in *.

(** Evaluate the checked operations that stay in range. *)
Ltac arith_steps := repeat progress (autorewrite with machine; cbn [ok_or guard_err]; bind_step).

(** ** The format *)

(** The layout of a message of [n] plaintext bytes *)
Definition layout_of (n : Z) : Cobblestone256MessageLayout :=
  let full := n / COBBLESTONE_CHUNK_LEN in
  let terminal := n mod COBBLESTONE_CHUNK_LEN + AES_GCM_TAG_LEN in
  MkLayout (COBBLESTONE_HEADER_LEN + full * COBBLESTONE_FULL_ENCRYPTED_CHUNK_LEN + terminal) n full terminal.

(** The lengths a message can have *)
Definition sealable (n : Z) : Prop := 0 <= n < COBBLESTONE_MAX_CHUNKS * COBBLESTONE_CHUNK_LEN.

Definition chunks_of (plaintext : list byte) : list (list byte) :=
  blocks COBBLESTONE_CHUNK_LEN plaintext ++ [rest COBBLESTONE_CHUNK_LEN plaintext].

(** ** Geometry *)

Lemma chunk_pos : 0 < COBBLESTONE_CHUNK_LEN.
Proof. done. Qed.

Lemma full_pos : 0 < COBBLESTONE_FULL_ENCRYPTED_CHUNK_LEN.
Proof. done. Qed.

Lemma sealable_chunks n : 0 <= n -> (sealable n <-> n / COBBLESTONE_CHUNK_LEN < COBBLESTONE_MAX_CHUNKS).
Proof.
  intros Hn. unfold sealable. pose proof (Z.div_mod n COBBLESTONE_CHUNK_LEN ltac:(done)).
  pose proof (Z.mod_pos_bound n COBBLESTONE_CHUNK_LEN ltac:(done)). geometry. lia.
Qed.

Lemma from_plaintext_len_spec n :
  is_u64 n -> from_plaintext_len n = if decide (sealable n) then Ok (layout_of n) else Err CryptoError_.
Proof.
  intros Hn. unfold is_u64 in Hn. pose proof (sealable_chunks n ltac:(lia)) as Hs.
  unfold from_plaintext_len, layout_of.
  pose proof (Z.mod_pos_bound n COBBLESTONE_CHUNK_LEN ltac:(done)).
  pose proof (Z.div_mod n COBBLESTONE_CHUNK_LEN ltac:(done)).
  set (q := n / COBBLESTONE_CHUNK_LEN) in *. set (r := n mod COBBLESTONE_CHUNK_LEN) in *.
  geometry. arith_steps.
  destruct (Z.ltb_spec 274877906944 (q + 1)); arith_steps; [by rewrite decide_False by (rewrite Hs; lia)|].
  by rewrite decide_True by (rewrite Hs; lia).
Qed.

Lemma layout_of_inv n c :
  0 <= n -> ciphertext_len (layout_of n) = c ->
  n / COBBLESTONE_CHUNK_LEN = (c - COBBLESTONE_HEADER_LEN) / COBBLESTONE_FULL_ENCRYPTED_CHUNK_LEN /\
  n mod COBBLESTONE_CHUNK_LEN + AES_GCM_TAG_LEN =
    (c - COBBLESTONE_HEADER_LEN) mod COBBLESTONE_FULL_ENCRYPTED_CHUNK_LEN.
Proof.
  intros Hn <-. cbn [layout_of ciphertext_len]. pose proof (Z.mod_pos_bound n COBBLESTONE_CHUNK_LEN ltac:(done)).
  set (q := n / COBBLESTONE_CHUNK_LEN) in *. set (r := n mod COBBLESTONE_CHUNK_LEN) in *.
  split; [apply (Z.div_unique_pos _ _ _ (r + AES_GCM_TAG_LEN))|apply (Z.mod_unique_pos _ _ q)]; geometry; lia.
Qed.

Lemma from_ciphertext_len_spec c :
  is_u64 c ->
  wp (from_ciphertext_len c)
    (fun l => exists n, sealable n /\ l = layout_of n /\ ciphertext_len l = c)
    (fun _ => forall n, sealable n -> ciphertext_len (layout_of n) <> c).
Proof.
  intros Hc. unfold is_u64 in Hc. pose proof (fun n H => layout_of_inv n c H) as Hinv.
  unfold from_ciphertext_len. unfold checked_sub64 at 1.
  destruct (Z.leb_spec COBBLESTONE_HEADER_LEN c) as [Hh|Hh]; cbn [ok_or]; bind_step; cycle 1.
  { intros n Hn Hl. unfold sealable in Hn. cbn [layout_of ciphertext_len] in Hl.
    pose proof (Z.mod_pos_bound n COBBLESTONE_CHUNK_LEN ltac:(done)).
    assert (0 <= n / COBBLESTONE_CHUNK_LEN) by (apply Z.div_pos; geometry; lia). geometry. lia. }
  pose proof (Z.mod_pos_bound (c - COBBLESTONE_HEADER_LEN) _ full_pos).
  pose proof (Z.div_mod (c - COBBLESTONE_HEADER_LEN) COBBLESTONE_FULL_ENCRYPTED_CHUNK_LEN ltac:(done)).
  set (q := (c - COBBLESTONE_HEADER_LEN) / COBBLESTONE_FULL_ENCRYPTED_CHUNK_LEN) in *.
  set (t := (c - COBBLESTONE_HEADER_LEN) mod COBBLESTONE_FULL_ENCRYPTED_CHUNK_LEN) in *.
  unfold sealable. geometry. arith_steps.
  destruct (_ && _) eqn:Ht; arith_steps; cycle 1.
  { intros n Hn Hl. destruct (Hinv n ltac:(lia) Hl). pose proof (Z.mod_pos_bound n (16 * 1024)). lia. }
  destruct (Z.ltb_spec 274877906944 (q + 1)); arith_steps.
  { intros n Hn Hl. destruct (Hinv n ltac:(lia) Hl). pose proof (Z.div_mod n (16 * 1024)).
    pose proof (Z.mod_pos_bound n (16 * 1024)). lia. }
  exists (q * (16 * 1024) + (t - 16)). unfold layout_of. geometry.
  rewrite <-(Z.div_unique_pos _ _ q (t - 16)), <-(Z.mod_unique_pos _ _ q (t - 16)) by lia.
  split; [lia|]. split; [f_equal; lia|]. cbn [ciphertext_len]. lia.
Qed.

(** The place of a record in the message *)
Lemma ciphertext_range_spec n i :
  sealable n -> 0 <= i ->
  ciphertext_range_for_chunk (layout_of n) i =
  let start := COBBLESTONE_HEADER_LEN + i * COBBLESTONE_FULL_ENCRYPTED_CHUNK_LEN in
  if i <? n / COBBLESTONE_CHUNK_LEN then Ok (start, start + COBBLESTONE_FULL_ENCRYPTED_CHUNK_LEN)
  else if i =? n / COBBLESTONE_CHUNK_LEN then Ok (start, start + (n mod COBBLESTONE_CHUNK_LEN + AES_GCM_TAG_LEN))
  else Err CryptoError_.
Proof.
  intros Hn Hi. assert (0 <= n) as Hn0 by (unfold sealable in Hn; lia).
  apply (proj1 (sealable_chunks n Hn0)) in Hn.
  pose proof (Z.mod_pos_bound n COBBLESTONE_CHUNK_LEN ltac:(done)).
  assert (0 <= n / COBBLESTONE_CHUNK_LEN) by (apply Z.div_pos; geometry; lia).
  unfold ciphertext_range_for_chunk, chunk_count, layout_of. cbn [full_chunks terminal_ciphertext_len].
  set (q := n / COBBLESTONE_CHUNK_LEN) in *. set (r := n mod COBBLESTONE_CHUNK_LEN) in *.
  geometry. arith_steps. destruct (Z.leb_spec (q + 1) i); arith_steps.
  { by rewrite (proj2 (Z.ltb_ge _ _)), (proj2 (Z.eqb_neq _ _)) by lia. }
  destruct (Z.ltb_spec i q); arith_steps; [done|]. by rewrite (proj2 (Z.eqb_eq _ _)) by lia.
Qed.

(** ** Nonces *)

Lemma nonce_for_chunk_spec base i :
  wp (nonce_for_chunk base i)
    (fun n => i < COBBLESTONE_MAX_CHUNKS /\
       n = takeZ (len base - 5) base ++ xor_zip (dropZ (len base - 5) base) (dropZ 3 (to_be_bytes i)))
    (fun _ => COBBLESTONE_MAX_CHUNKS <= i).
Proof.
  unfold nonce_for_chunk. destruct (Z.leb_spec COBBLESTONE_MAX_CHUNKS i); [done|].
  cbn [guard_err]. bind_step. by split.
Qed.

Section spec.
Context `{Provider}.

(** ** Records and messages *)

Section records.
Context (key : Aes256GcmKey) (base : list byte).

Definition seal_record (i : Z) (plaintext : list byte) : option (list byte) :=
  match nonce_for_chunk base i with Ok nonce => gcm_seal key nonce [] plaintext | _ => None end.

Definition open_record (i : Z) (record : list byte) : option (list byte) :=
  match nonce_for_chunk base i with Ok nonce => gcm_open key nonce [] record | _ => None end.

(** The records of the chunks from number [i] on *)
Fixpoint seal_records (i : Z) (chunks : list (list byte)) : option (list (list byte)) :=
  match chunks with
  | [] => Some []
  | c :: chunks => r ← seal_record i c; rs ← seal_records (i + 1) chunks; Some (r :: rs)
  end.

(** The plaintexts of the records from number [i] on *)
Fixpoint open_records (i : Z) (records : list (list byte)) : option (list (list byte)) :=
  match records with
  | [] => Some []
  | r :: records => c ← open_record i r; cs ← open_records (i + 1) records; Some (c :: cs)
  end.

(** The plaintexts up to the first record that is not authentic *)
Fixpoint authentic_prefix (i : Z) (records : list (list byte)) : list (list byte) :=
  match records with
  | [] => []
  | r :: records =>
      match open_record i r with
      | Some c => c :: authentic_prefix (i + 1) records
      | None => []
      end
  end.
End records.

(** The message of a plaintext *)
Definition message (input_key : Cobblestone256Key) (salt context plaintext : list byte) : option (list byte) :=
  match derive_message_key input_key salt context with
  | Ok derived =>
      records ← seal_records (derived_key derived) (derived_base_nonce derived) 0 (chunks_of plaintext);
      Some (salt ++ derived_commitment derived ++ concat records)
  | _ => None
  end.

Lemma seal_records_cons key base i c cs r :
  seal_record key base i c = Some r -> seal_records key base i (c :: cs) = cons r <$> seal_records key base (i + 1) cs.
Proof. intros Hr. simpl. by rewrite Hr. Qed.

Lemma seal_records_None key base i c cs :
  seal_record key base i c = None -> seal_records key base i (c :: cs) = None.
Proof. intros Hr. simpl. by rewrite Hr. Qed.

Lemma seal_records_app key base cs ds : forall i,
  seal_records key base i (cs ++ ds) =
  rs ← seal_records key base i cs; ss ← seal_records key base (i + len cs) ds; Some (rs ++ ss).
Proof.
  induction cs as [|c cs IH]; intros i; simpl.
  { change (len (@nil (list byte))) with 0. rewrite Z.add_0_r. by destruct (seal_records _ _ _ ds). }
  rewrite len_cons, Z.add_assoc.
  destruct (seal_record key base i c); simpl; [|done]. rewrite IH.
  destruct (seal_records key base (i + 1) cs); simpl; [|done]. by destruct (seal_records _ _ _ ds).
Qed.

Lemma open_records_app key base cs ds : forall i,
  open_records key base i (cs ++ ds) =
  rs ← open_records key base i cs; ss ← open_records key base (i + len cs) ds; Some (rs ++ ss).
Proof.
  induction cs as [|c cs IH]; intros i; simpl.
  { change (len (@nil (list byte))) with 0. rewrite Z.add_0_r. by destruct (open_records _ _ _ ds). }
  rewrite len_cons, Z.add_assoc.
  destruct (open_record key base i c); simpl; [|done]. rewrite IH.
  destruct (open_records key base (i + 1) cs); simpl; [|done]. by destruct (open_records _ _ _ ds).
Qed.

Lemma seal_record_bound key base i c r : seal_record key base i c = Some r -> i < COBBLESTONE_MAX_CHUNKS.
Proof.
  unfold seal_record. pose proof (nonce_for_chunk_spec base i) as Hn.
  destruct (nonce_for_chunk base i); [by destruct Hn|done..].
Qed.

Lemma seal_records_bound key base cs : forall i rs,
  i <= COBBLESTONE_MAX_CHUNKS -> seal_records key base i cs = Some rs -> i + len cs <= COBBLESTONE_MAX_CHUNKS.
Proof.
  induction cs as [|c cs IH]; intros i rs Hi; cbn [seal_records]; [change (len []) with 0; lia|].
  destruct (seal_record key base i c) eqn:Hr; [|done]. apply seal_record_bound in Hr. cbn [mbind option_bind].
  destruct (seal_records key base (i + 1) cs) eqn:Hrs; [|done]. intros _. rewrite len_cons.
  apply IH in Hrs; lia.
Qed.

Context `{!ProviderOk}.

Lemma seal_records_length key base cs : forall i rs,
  seal_records key base i cs = Some rs -> len (concat rs) = len (concat cs) + AES_GCM_TAG_LEN * len cs.
Proof.
  induction cs as [|c cs IH]; intros i rs; cbn [seal_records]; [by intros [= <-]|].
  destruct (seal_record key base i c) as [r|] eqn:Hr; [|done]. cbn [mbind option_bind].
  destruct (seal_records key base (i + 1) cs) as [rs'|] eqn:Hrs; [|done]. intros [= <-].
  cbn [concat]. rewrite !len_app, len_cons, (IH _ _ Hrs). unfold seal_record in Hr.
  destruct (nonce_for_chunk base i); [|done..]. apply gcm_seal_length in Hr. lia.
Qed.

Lemma concat_chunks_of p : concat (chunks_of p) = p.
Proof.
  unfold chunks_of. rewrite concat_app. cbn [concat]. rewrite app_nil_r.
  apply (blocks_spec _ chunk_pos p).
Qed.

Lemma len_chunks_of p : len (chunks_of p) = len p / COBBLESTONE_CHUNK_LEN + 1.
Proof. unfold chunks_of. by rewrite len_app, (len_blocks _ chunk_pos). Qed.

Lemma derive_message_key_spec input_key salt context :
  wp (derive_message_key input_key salt context)
    (fun d => len (derived_base_nonce d) = AES_GCM_NONCE_LEN /\
              len (derived_commitment d) = COBBLESTONE_COMMITMENT_LEN) (fun _ => True).
Proof.
  unfold derive_message_key, expand_sha512. cbn [guard_err]. change (_ <? _) with false. cbn [guard_err].
  bind_step. change (_ =? 0) with false. cbn match. apply wp_bind.
  destruct (hkdf_sha512_expand _ _ _) as [m|] eqn:Hm; [|done]. cbn [ok_or wp]. apply hkdf_length in Hm; [|done].
  assert (len m = 76) as Hlen by exact Hm.
  assert (forall a b, 0 <= a <= b -> b <= 76 ->
    index_range (E:=CryptoError) m a b = Ok (takeZ (b - a) (dropZ a m))) as Hi.
  { intros a b Ha Hb. unfold index_range, get_range. rewrite Hlen.
    by rewrite (proj2 (Z.leb_le a b)), (proj2 (Z.leb_le b 76)) by lia. }
  rewrite !Hi by (rewrite ?Hlen; unfold AES_256_GCM_KEY_LEN, AES_GCM_NONCE_LEN; lia). bind_step.
  assert (forall n a, 0 <= a -> 0 <= n -> a + n <= 76 ->
    try_into n (takeZ n (dropZ a m)) = Ok (takeZ n (dropZ a m))) as Ht.
  { intros n a Ha Hn Hb. unfold try_into. rewrite len_takeZ by (rewrite len_dropZ; lia). by rewrite Z.eqb_refl. }
  rewrite Z.sub_0_r, (Ht AES_256_GCM_KEY_LEN 0) by done. bind_step.
  unfold Aes256GcmKey_new. destruct (gcm_key_accepted _); [|done]. bind_step.
  change (_ + _ - _) with AES_GCM_NONCE_LEN.
  rewrite (Ht AES_GCM_NONCE_LEN AES_256_GCM_KEY_LEN) by done. bind_step.
  rewrite Hlen. change (76 - _) with COBBLESTONE_COMMITMENT_LEN. change (_ + _) with 44.
  rewrite (Ht COBBLESTONE_COMMITMENT_LEN 44) by done. bind_step.
  split; cbn [derived_base_nonce derived_commitment]; (rewrite len_takeZ; [done|rewrite len_dropZ; rewrite Hlen]); done.
Qed.

(** The length of a message, and which plaintexts have one *)
Lemma message_length input_key salt context p c :
  len salt = COBBLESTONE_SALT_LEN -> message input_key salt context p = Some c ->
  sealable (len p) /\ len c = ciphertext_len (layout_of (len p)).
Proof.
  intros Hsalt. unfold message. pose proof (derive_message_key_spec input_key salt context) as Hd.
  destruct (derive_message_key input_key salt context) as [d| |]; [|done..]. destruct Hd as [_ Hd].
  destruct (seal_records _ _ 0 (chunks_of p)) as [rs|] eqn:Hrs; [|done]. intros [= <-].
  pose proof (seal_records_bound _ _ _ 0 _ ltac:(done) Hrs) as Hb. apply seal_records_length in Hrs.
  rewrite concat_chunks_of in Hrs. rewrite len_chunks_of in Hrs, Hb. pose proof (len_nonneg p).
  split; [apply sealable_chunks; lia|]. rewrite !len_app, Hsalt, Hd, Hrs. cbn [layout_of ciphertext_len].
  pose proof (Z.div_mod (len p) COBBLESTONE_CHUNK_LEN ltac:(done)). geometry. lia.
Qed.

End spec.

End CobblestoneSpec.
