(* ===== verification/CobblestoneSeal.v ===== *)
(** Sealing: the incremental sealer makes the message of its input, however the
    input is sliced. *)

From Stdlib Require Import ZifyBool.
From S2P Require Import Prelude Machine Blocks Cobblestone CobblestoneSpec.

Local Open Scope Z_scope.

Module CobblestoneSeal.
Import Machine Blocks Cobblestone CobblestoneSpec.

#[local] Strategy opaque [takeZ dropZ].

(** Evaluate the changes of a sealer. *)
Ltac sealer_simpl :=
  unfold sealer_set_pending, sealer_set_next_chunk;
  cbn [fst snd sealer_key sealer_base_nonce sealer_next_chunk sealer_pending sealer_failed].

Section seal.
Context `{Provider}.

Section one_sealer.
Context (key : Aes256GcmKey) (base : list byte).
#[local] Notation "'sealer' n p" := (MkSealer key base n p false) (at level 10, n at level 9, p at level 9).

Lemma seal_chunk_spec p n pend out :
  0 <= n <= COBBLESTONE_MAX_CHUNKS ->
  wpst (seal_chunk p) (sealer n pend, out)
    (fun _ s => exists r, seal_record key base n p = Some r /\ n < COBBLESTONE_MAX_CHUNKS /\
       s = (sealer (n + 1) pend, out ++ r))
    (fun _ s => seal_record key base n p = None /\ sealer_failed s.1 = true).
Proof.
  intros Hn. unfold seal_chunk, emit. do 2 stm_step. cbn [fst sealer_failed]. do 2 stm_step.
  cbn [sealer_base_nonce sealer_next_chunk sealer_key].
  pose proof (nonce_for_chunk_spec base n) as Hnonce. unfold seal_record.
  destruct (nonce_for_chunk base n) as [nonce| |]; [| |done]; bind_step; [|done].
  destruct Hnonce as [Hlt _]. unfold seal_in_place_append_tag.
  destruct (gcm_seal key nonce [] p) as [r|]; [|done]. cbn [ok_or wp]. do 4 stm_step.
  geometry. autorewrite with machine. cbn [ok_or wp]. unfold on_sealer. stm_step. by exists r.
Qed.

Lemma seal_full_chunks_spec fuel : forall p n pend out,
  (length p < fuel)%nat -> 0 <= n <= COBBLESTONE_MAX_CHUNKS ->
  wpst (seal_full_chunks fuel p) (sealer n pend, out)
    (fun p' s => exists rs, seal_records key base n (blocks COBBLESTONE_CHUNK_LEN p) = Some rs /\
       p' = rest COBBLESTONE_CHUNK_LEN p /\
       n + len (blocks COBBLESTONE_CHUNK_LEN p) <= COBBLESTONE_MAX_CHUNKS /\
       s = (sealer (n + len (blocks COBBLESTONE_CHUNK_LEN p)) pend, out ++ concat rs))
    (fun _ s => seal_records key base n (blocks COBBLESTONE_CHUNK_LEN p) = None /\ sealer_failed s.1 = true).
Proof.
  induction fuel as [|fuel IH]; intros p n pend out Hfuel Hn; [lia|]. cbn [seal_full_chunks].
  destruct (Z.leb_spec COBBLESTONE_CHUNK_LEN (len p)) as [Hp|Hp]; cycle 1.
  { stm_step. destruct (blocks_short _ p Hp) as [-> ->]. exists []. change (len []) with 0.
    rewrite Z.add_0_r. cbn [concat]. rewrite app_nil_r. split; [done|]. split; [done|]. split; [lia|done]. }
  destruct (blocks_step _ chunk_pos p Hp) as [-> ->].
  stm_step. eapply wpst_mono; [by apply seal_chunk_spec| |]; cbn beta; cycle 1.
  { intros _ s [Hr Hf]. by rewrite (seal_records_None _ _ _ _ _ Hr). }
  intros _ s (r & Hr & Hlt & ->). rewrite (seal_records_cons _ _ _ _ _ _ Hr).
  eapply wpst_mono; [apply IH|..]; cbn beta.
  - pose proof chunk_pos. pose proof (length_dropZ_lt COBBLESTONE_CHUNK_LEN p). lia.
  - lia.
  - intros p' s (rs & Hrs & -> & Hle & ->). exists (r :: rs).
    rewrite len_cons, Z.add_assoc, Hrs. cbn [concat]. rewrite <-app_assoc. by repeat split.
  - intros _ s [Hrs Hf]. by rewrite Hrs.
Qed.

(** What completing the pending chunk does: no or one chunk [bs] is sealed, and
    either nothing is pending then or no input is left. *)
Lemma fill_pending_spec x n pend out :
  0 <= n <= COBBLESTONE_MAX_CHUNKS -> len pend < COBBLESTONE_CHUNK_LEN ->
  wpst (fill_pending x) (sealer n pend, out)
    (fun x' s => exists bs rs pend',
       Forall (fun b => len b = COBBLESTONE_CHUNK_LEN) bs /\ pend ++ x = concat bs ++ pend' ++ x' /\
       len pend' < COBBLESTONE_CHUNK_LEN /\ (pend' = [] \/ x' = []) /\
       seal_records key base n bs = Some rs /\ n + len bs <= COBBLESTONE_MAX_CHUNKS /\
       s = (sealer (n + len bs) pend', out ++ concat rs))
    (fun _ s => exists b x', len b = COBBLESTONE_CHUNK_LEN /\ pend ++ x = b ++ x' /\
       seal_record key base n b = None /\ sealer_failed s.1 = true).
Proof.
  intros Hn Hpend. unfold fill_pending, on_sealer. do 2 stm_step. cbn [fst sealer_pending].
  assert (forall pend' x', pend ++ x = pend' ++ x' -> len pend' < COBBLESTONE_CHUNK_LEN -> pend' = [] \/ x' = [] ->
    exists bs rs pend'', Forall (fun b => len b = COBBLESTONE_CHUNK_LEN) bs /\ pend ++ x = concat bs ++ pend'' ++ x' /\
      len pend'' < COBBLESTONE_CHUNK_LEN /\ (pend'' = [] \/ x' = []) /\ seal_records key base n bs = Some rs /\
      n + len bs <= COBBLESTONE_MAX_CHUNKS /\
      (sealer n pend', out) = (sealer (n + len bs) pend'', out ++ concat rs)) as Hnone.
  { intros pend' x' Heq Hlt Hor. exists [], [], pend'. change (len []) with 0.
    rewrite Z.add_0_r. cbn [concat]. rewrite app_nil_r. repeat split; [done..|lia]. }
  case_bool_decide as Hnil; [stm_step; by apply Hnone; [|done|left]|].
  pose proof (len_nonneg pend). pose proof (len_nonneg x).
  do 2 stm_step. rewrite sub64_Ok by lia. cbn [wp]. do 2 stm_step.
  sealer_simpl.
  rewrite len_app, len_takeZ by lia. set (m := Z.min _ _).
  destruct (Z.eqb_spec (len pend + m) COBBLESTONE_CHUNK_LEN) as [Hfull|Hfull]; cycle 1.
  { subst m. rewrite takeZ_all, dropZ_all by lia. stm_step.
    apply Hnone; [by rewrite app_nil_r|rewrite len_app; lia|by right]. }
  assert (pend ++ x = (pend ++ takeZ m x) ++ dropZ m x) as Heq by (by rewrite <-app_assoc, take_dropZ).
  assert (len (pend ++ takeZ m x) = COBBLESTONE_CHUNK_LEN) as Hlen by (rewrite len_app, len_takeZ; lia).
  do 2 stm_step. sealer_simpl. stm_step.
  eapply wpst_mono; [by apply seal_chunk_spec| |]; cbn beta; [|naive_solver].
  intros _ s (r & Hr & Hlt & ->). stm_step. exists [pend ++ takeZ m x], [r], [].
  cbn [seal_records concat]. rewrite Hr, !app_nil_r. change (len [_]) with 1.
  repeat split; [by constructor|done|by left|lia].
Qed.

(** The sealer, after any input, as a function of that input *)
Lemma sealer_update_spec x n pend out :
  0 <= n <= COBBLESTONE_MAX_CHUNKS -> len pend < COBBLESTONE_CHUNK_LEN ->
  let bs := blocks COBBLESTONE_CHUNK_LEN (pend ++ x) in
  wpst (sealer_update x) (sealer n pend, out)
    (fun _ s => exists rs, seal_records key base n bs = Some rs /\ n + len bs <= COBBLESTONE_MAX_CHUNKS /\
       s = (sealer (n + len bs) (rest COBBLESTONE_CHUNK_LEN (pend ++ x)), out ++ concat rs))
    (fun _ s => seal_records key base n bs = None /\ sealer_failed s.1 = true).
Proof.
  intros Hn Hpend bs. unfold sealer_update, on_sealer. do 2 stm_step. cbn [fst sealer_failed]. stm_step.
  eapply wpst_mono; [by apply fill_pending_spec| |]; cbn beta; cycle 1.
  { intros _ s (b & x' & Hb & Heq & Hr & Hf). split; [|done]. subst bs. rewrite Heq.
    destruct (blocks_cons _ chunk_pos b x' Hb) as [-> _]. by apply seal_records_None. }
  intros x' s (cs & rs & pend' & Hcs & Heq & Hlt & Hor & Hrs & Hle & ->).
  assert (bs = cs ++ blocks COBBLESTONE_CHUNK_LEN x' /\
    rest COBBLESTONE_CHUNK_LEN (pend ++ x) = pend' ++ rest COBBLESTONE_CHUNK_LEN x') as [Hbs Hrest].
  { subst bs. rewrite Heq. destruct (blocks_concat _ chunk_pos cs (pend' ++ x') Hcs) as [-> ->].
    destruct Hor as [->| ->]; cbn [app]; [done|]. rewrite app_nil_r.
    destruct (blocks_short _ pend' Hlt) as [-> ->]. destruct (blocks_short COBBLESTONE_CHUNK_LEN (@nil byte)) as [-> ->]; [done|].
    by rewrite !app_nil_r. }
  clearbody bs. subst bs. rewrite Hrest, seal_records_app, Hrs. cbn [mbind option_bind].
  stm_step. pose proof (len_nonneg cs).
  eapply wpst_mono; [apply seal_full_chunks_spec; lia| |]; cbn beta.
  - intros p s (ss & Hss & -> & Hle' & ->). stm_step. sealer_simpl. rewrite Hss. exists (rs ++ ss). cbn [option_bind].
    rewrite concat_app, len_app, Z.add_assoc, app_assoc. by repeat split.
  - intros _ s [Hss Hf]. by rewrite Hss.
Qed.
Lemma sealer_finish_spec n pend out :
  0 <= n <= COBBLESTONE_MAX_CHUNKS ->
  wpst sealer_finish (sealer n pend, out)
    (fun _ s => exists r, seal_record key base n pend = Some r /\ s.2 = out ++ r)
    (fun _ _ => seal_record key base n pend = None).
Proof.
  intros Hn. unfold sealer_finish, on_sealer. do 4 stm_step. sealer_simpl.
  eapply wpst_mono; [by apply seal_chunk_spec|..]; cbn beta; [|naive_solver].
  intros _ s (r & Hr & _ & ->). by exists r.
Qed.

(** The updates of the slices of [w], then the end *)
Lemma sealer_run_spec slices : forall w rs out all,
  all = chunks_of (w ++ concat slices) ->
  seal_records key base 0 (blocks COBBLESTONE_CHUNK_LEN w) = Some rs ->
  len (blocks COBBLESTONE_CHUNK_LEN w) <= COBBLESTONE_MAX_CHUNKS ->
  wpst (_ ← foldS (fun _ x => sealer_update x) () slices; sealer_finish)
    (sealer (len (blocks COBBLESTONE_CHUNK_LEN w)) (rest COBBLESTONE_CHUNK_LEN w), out ++ concat rs)
    (fun _ s => exists rs', seal_records key base 0 all = Some rs' /\ s.2 = out ++ concat rs')
    (fun _ _ => seal_records key base 0 all = None).
Proof.
  induction slices as [|x slices IH]; intros w rs out all -> Hrs Hle;
    pose proof (len_nonneg (blocks COBBLESTONE_CHUNK_LEN w)).
  { cbn [foldS]. do 2 stm_step. cbn [concat]. rewrite app_nil_r. unfold chunks_of.
    rewrite seal_records_app, Hrs, Z.add_0_l. cbn [mbind option_bind].
    eapply wpst_mono; [apply sealer_finish_spec; lia|..]; cbn beta.
    - intros _ s (r & Hr & ->). rewrite (seal_records_cons _ _ _ _ _ _ Hr). cbn. exists (rs ++ [r]).
      by rewrite concat_app, app_assoc; simpl; rewrite app_nil_r.
    - intros _ s Hr. by rewrite (seal_records_None _ _ _ _ _ Hr). }
  destruct (blocks_append _ chunk_pos w x) as [Hb Hr].
  cbn [foldS concat]. rewrite app_assoc. do 2 stm_step.
  eapply wpst_mono; [apply sealer_update_spec; [lia|by apply len_rest]|..]; cbn beta.
  - intros [] s (rs' & Hrs' & Hle' & ->). rewrite <-len_app, <-Hb in Hle' |- *.
    rewrite <-Hr, <-(app_assoc out), <-concat_app.
    apply (IH (w ++ x) (rs ++ rs') out _ eq_refl) in Hle'.
    + by apply wpst_bind_inv.
    + by rewrite Hb, seal_records_app, Hrs, Z.add_0_l, Hrs'.
  - intros _ s [Hnone _]. unfold chunks_of. destruct (blocks_append _ chunk_pos (w ++ x) (concat slices)) as [-> _].
    by rewrite Hb, <-!app_assoc, seal_records_app, Hrs, Z.add_0_l, seal_records_app, Hnone.
Qed.
End one_sealer.

Context `{!ProviderOk}.

(** The sealer driven over the slices of a plaintext *)
Definition seal_slices (input_key : Cobblestone256Key) (salt context : list byte) (slices : list (list byte)) :
    outcome CryptoError (list byte) :=
  sealer ← start input_key salt context [];
  let '(result, (_, ciphertext)) :=
    (_ ← foldS (fun _ x => sealer_update x) () slices; sealer_finish) sealer in
  _ ← result;
  mret ciphertext.

Lemma seal_slices_spec input_key salt context slices :
  seal_slices input_key salt context slices = ok_or (message input_key salt context (concat slices)) CryptoError_.
Proof.
  unfold seal_slices, start, message.
  pose proof (derive_message_key_spec input_key salt context) as Hd.
  destruct (derive_message_key input_key salt context) as [d|[]|]; [|done..]. bind_step. clear Hd.
  pose proof (sealer_run_spec (derived_key d) (derived_base_nonce d) slices [] [] (salt ++ derived_commitment d)
    _ eq_refl eq_refl ltac:(done)) as Hrun. cbn [app concat] in Hrun |- *. rewrite app_nil_r in Hrun.
  apply wpst_run in Hrun as [([] & [s ct] & Heq & rs & Hrs & Hs)|(e & [s ct] & Heq & Hrs)];
    rewrite Hrs; change (len (blocks _ [])) with 0 in Heq; change (rest _ []) with (@nil byte) in Heq; rewrite Heq.
  - cbn in Hs |- *. by rewrite Hs, app_assoc.
  - by destruct e.
Qed.

Lemma seal_spec input_key salt context p :
  len salt = COBBLESTONE_SALT_LEN -> is_u64 (len p) ->
  seal input_key salt context p = ok_or (message input_key salt context p) CryptoError_.
Proof.
  intros Hsalt Hp. unfold seal. rewrite from_plaintext_len_spec by done.
  pose proof (message_length input_key salt context p) as Hm.
  pose proof (seal_slices_spec input_key salt context [p]) as Hs. cbn [concat] in Hs. rewrite app_nil_r in Hs.
  case_decide as Hok; cycle 1.
  { destruct (message _ _ _ p) as [c|]; [|done]. by destruct (Hm c). }
  bind_step. rewrite usize_try_from64_Some; cycle 1.
  { unfold sealable in Hok. cbn [layout_of ciphertext_len].
    pose proof (Z.div_mod (len p) COBBLESTONE_CHUNK_LEN ltac:(done)).
    pose proof (Z.mod_pos_bound (len p) COBBLESTONE_CHUNK_LEN ltac:(done)). geometry. lia. }
  cbn [ok_or]. bind_step. unfold seal_slices in Hs. destruct (start _ _ _ []) as [s|[]|]; bind_step; [|done..].
  cbn [mbind outcome_bind] in Hs.
  assert ((_ ← sealer_update p; sealer_finish) s =
          (_ ← foldS (fun _ x => sealer_update x) () [p]; sealer_finish) s) as ->.
  { cbn [foldS]. unfold mbind, stm_bind, mret, stm_ret. by destruct (sealer_update p s) as [[] ?]. }
  destruct ((_ ← foldS _ () [p]; sealer_finish) s) as [[[]|[]|] [s' ct]]; [|done..].
  destruct (message _ _ _ p) as [c|]; [|done]. injection Hs as ->.
  bind_step. destruct (Hm c) as [_ ->]; [done..|]. by rewrite Z.eqb_refl.
Qed.
End seal.

End CobblestoneSeal.
