(* ===== verification/CobblestoneOpen.v ===== *)
(** Opening: the incremental opener against the format.

    The opener consumes a wire [w] slice by slice.  [complete] are the records of
    [w] that have arrived, [released] the plaintext of the authentic ones up to the
    first that is not, [accepted] says that all of them are. *)

From Stdlib Require Import ZifyBool.
From S2P Require Import Prelude Machine Blocks Cobblestone CobblestoneSpec CobblestoneSeal.

Local Open Scope Z_scope.

Module CobblestoneOpen.
Import Machine Blocks Cobblestone CobblestoneSpec.

#[local] Strategy opaque [takeZ dropZ].

(** ** The records of a wire *)

Section wire.
Context (n : Z).

(** The length of record [i], and of the records from [i] on *)
Definition record_len (i : Z) : Z :=
  if i <? n / COBBLESTONE_CHUNK_LEN then COBBLESTONE_FULL_ENCRYPTED_CHUNK_LEN
  else n mod COBBLESTONE_CHUNK_LEN + AES_GCM_TAG_LEN.

Definition remaining (i : Z) : Z :=
  (n / COBBLESTONE_CHUNK_LEN - i) * COBBLESTONE_FULL_ENCRYPTED_CHUNK_LEN +
  (n mod COBBLESTONE_CHUNK_LEN + AES_GCM_TAG_LEN).

(** The whole records at the head of [y], the bytes from record [i] on *)
Definition records_from (i : Z) (y : list byte) : list (list byte) :=
  blocks COBBLESTONE_FULL_ENCRYPTED_CHUNK_LEN y ++
  (if len y =? remaining i then [rest COBBLESTONE_FULL_ENCRYPTED_CHUNK_LEN y] else []).

(** The bytes of a record that has not arrived completely *)
Definition partial_from (i : Z) (y : list byte) : list byte :=
  if len y =? remaining i then [] else rest COBBLESTONE_FULL_ENCRYPTED_CHUNK_LEN y.

Definition complete (w : list byte) : list (list byte) :=
  if len w <? COBBLESTONE_HEADER_LEN then [] else records_from 0 (dropZ COBBLESTONE_HEADER_LEN w).

Hypothesis Hn : sealable n.

Lemma terminal_range :
  0 <= n / COBBLESTONE_CHUNK_LEN < COBBLESTONE_MAX_CHUNKS /\
  AES_GCM_TAG_LEN <= n mod COBBLESTONE_CHUNK_LEN + AES_GCM_TAG_LEN < COBBLESTONE_FULL_ENCRYPTED_CHUNK_LEN.
Proof.
  assert (0 <= n) as H0 by (unfold sealable in Hn; lia). apply (proj1 (sealable_chunks n H0)) in Hn.
  pose proof (Z.div_pos n COBBLESTONE_CHUNK_LEN H0 chunk_pos).
  pose proof (Z.mod_pos_bound n COBBLESTONE_CHUNK_LEN chunk_pos). geometry. lia.
Qed.

Lemma ciphertext_len_remaining : ciphertext_len (layout_of n) = COBBLESTONE_HEADER_LEN + remaining 0.
Proof. unfold remaining. cbn [layout_of ciphertext_len]. lia. Qed.

Lemma ciphertext_len_inj m :
  0 <= m -> ciphertext_len (layout_of m) = ciphertext_len (layout_of n) -> m = n.
Proof.
  intros Hm Heq. unfold sealable in Hn. destruct (layout_of_inv m _ Hm Heq) as [Hq Hr].
  destruct (layout_of_inv n _ ltac:(lia) eq_refl) as [Hq' Hr'].
  pose proof (Z.div_mod n COBBLESTONE_CHUNK_LEN ltac:(done)). pose proof (Z.div_mod m COBBLESTONE_CHUNK_LEN ltac:(done)).
  lia.
Qed.

Lemma ciphertext_len_bound :
  COBBLESTONE_HEADER_LEN < ciphertext_len (layout_of n) <= MAX64.
Proof.
  rewrite ciphertext_len_remaining. unfold remaining. pose proof terminal_range. geometry. lia.
Qed.

Lemma record_range i :
  0 <= i <= n / COBBLESTONE_CHUNK_LEN ->
  ciphertext_range_for_chunk (layout_of n) i =
  Ok (COBBLESTONE_HEADER_LEN + i * COBBLESTONE_FULL_ENCRYPTED_CHUNK_LEN,
      COBBLESTONE_HEADER_LEN + i * COBBLESTONE_FULL_ENCRYPTED_CHUNK_LEN + record_len i).
Proof.
  intros Hi. rewrite ciphertext_range_spec by (done || lia). unfold record_len. cbn zeta.
  destruct (Z.ltb_spec i (n / COBBLESTONE_CHUNK_LEN)); [done|]. by rewrite (proj2 (Z.eqb_eq _ _)) by lia.
Qed.

Lemma record_len_range i : AES_GCM_TAG_LEN <= record_len i <= COBBLESTONE_FULL_ENCRYPTED_CHUNK_LEN.
Proof. pose proof terminal_range. unfold record_len. case_match; geometry; lia. Qed.

(** A record at the head *)
Lemma records_from_cons i r y :
  0 <= i <= n / COBBLESTONE_CHUNK_LEN -> len r = record_len i -> len (r ++ y) <= remaining i ->
  records_from i (r ++ y) = r :: records_from (i + 1) y /\ partial_from i (r ++ y) = partial_from (i + 1) y.
Proof.
  intros Hi Hr Hle. pose proof terminal_range as [_ Ht]. pose proof (len_nonneg y).
  unfold records_from, partial_from, record_len in *. rewrite len_app in *.
  assert (remaining (i + 1) = remaining i - COBBLESTONE_FULL_ENCRYPTED_CHUNK_LEN) as Hrem by (unfold remaining; lia).
  destruct (Z.ltb_spec i (n / COBBLESTONE_CHUNK_LEN)) as [Hlt|Hge].
  - destruct (blocks_cons _ full_pos r y Hr) as [-> ->]. rewrite Hrem, Hr.
    replace (COBBLESTONE_FULL_ENCRYPTED_CHUNK_LEN + len y =? remaining i)
      with (len y =? remaining i - COBBLESTONE_FULL_ENCRYPTED_CHUNK_LEN) by lia. done.
  - assert (i = n / COBBLESTONE_CHUNK_LEN) as -> by lia. unfold remaining in *.
    assert (y = []) as -> by (apply len_nil_inv; lia). rewrite app_nil_r.
    destruct (blocks_short COBBLESTONE_FULL_ENCRYPTED_CHUNK_LEN r) as [-> ->]; [lia|].
    destruct (blocks_short COBBLESTONE_FULL_ENCRYPTED_CHUNK_LEN (@nil byte)) as [-> ->]; [done|].
    change (len []) with 0 in *. rewrite (proj2 (Z.eqb_eq _ _)), (proj2 (Z.eqb_neq _ _)) by lia. done.
Qed.

(** No whole record *)
Lemma records_from_short i y :
  len y < COBBLESTONE_FULL_ENCRYPTED_CHUNK_LEN -> len y <> remaining i ->
  records_from i y = [] /\ partial_from i y = y.
Proof.
  intros Hlt Hne. unfold records_from, partial_from. rewrite (proj2 (Z.eqb_neq _ _)) by done.
  destruct (blocks_short _ y Hlt) as [-> ->]. done.
Qed.
End wire.

(** Evaluate the changes of a stream opener. *)
Ltac stream_simpl :=
  unfold on_stream, stream_set_failed, stream_set_finished, stream_advance, stream_set_opener;
  cbn [fst snd stream_input_key stream_context stream_layout stream_opener stream_pending stream_consumed
       stream_next_chunk stream_failed stream_finished].

Section open.
Context `{Provider, !ProviderOk}.

(** ** Records *)

Lemma open_seal_record key base i p r :
  open_record key base i r = Some p <-> seal_record key base i p = Some r.
Proof.
  unfold open_record, seal_record. destruct (nonce_for_chunk base i); [|done..].
  split; [apply gcm_seal_open|apply gcm_open_seal].
Qed.

Lemma seal_record_length key base i p r :
  seal_record key base i p = Some r -> len r = len p + AES_GCM_TAG_LEN.
Proof. unfold seal_record. destruct (nonce_for_chunk base i); [|done..]. apply gcm_seal_length. Qed.

(** Opening records is inverse to sealing chunks. *)
Lemma open_seal_records key base rs : forall i ps,
  open_records key base i rs = Some ps <-> seal_records key base i ps = Some rs.
Proof.
  induction rs as [|r rs IH]; intros i ps; cbn [open_records].
  { destruct ps as [|p ps]; cbn [seal_records]; [done|]. split; [done|].
    destruct (seal_record key base i p); [|done]. cbn [mbind option_bind]. by destruct (seal_records _ _ _ ps). }
  destruct ps as [|p ps]; cbn [seal_records].
  { split; [|done]. destruct (open_record key base i r); [|done]. cbn [mbind option_bind].
    by destruct (open_records _ _ _ rs). }
  pose proof (open_seal_record key base i p r) as Hp. specialize (IH (i + 1) ps).
  split; intros Hs.
  - destruct (open_record key base i r) as [p'|]; [|done]. cbn [mbind option_bind] in Hs.
    destruct (open_records key base (i + 1) rs) as [ps'|]; [|done]. injection Hs as -> ->.
    rewrite (proj1 Hp eq_refl). cbn [mbind option_bind]. by rewrite (proj1 IH eq_refl).
  - destruct (seal_record key base i p) as [r'|]; [|done]. cbn [mbind option_bind] in Hs.
    destruct (seal_records key base (i + 1) ps) as [rs'|]; [|done]. injection Hs as -> ->.
    rewrite (proj2 Hp eq_refl). cbn [mbind option_bind]. by rewrite (proj2 IH eq_refl).
Qed.

Lemma seal_records_lens key base ps : forall i rs,
  seal_records key base i ps = Some rs -> Forall2 (fun p r => len r = len p + AES_GCM_TAG_LEN) ps rs.
Proof.
  induction ps as [|p ps IH]; intros i rs; cbn [seal_records]; [intros [= <-]; constructor|].
  destruct (seal_record key base i p) as [r|] eqn:Hr; [|done]. cbn [mbind option_bind].
  destruct (seal_records key base (i + 1) ps) as [rs'|] eqn:Hrs; [|done]. intros [= <-].
  constructor; [by eapply seal_record_length|by eapply IH].
Qed.

(** The records of a plaintext: full ones and a shorter one *)
Lemma records_of_chunks key base p rs :
  seal_records key base 0 (chunks_of p) = Some rs ->
  exists bs r, rs = bs ++ [r] /\ Forall (fun b => len b = COBBLESTONE_FULL_ENCRYPTED_CHUNK_LEN) bs /\
    len r < COBBLESTONE_FULL_ENCRYPTED_CHUNK_LEN.
Proof.
  intros Hrs%seal_records_lens. pose proof (blocks_spec _ chunk_pos p) as (_ & Hbs & Hlt). unfold chunks_of in Hrs.
  apply Forall2_app_inv_l in Hrs as (bs & rs' & Hb & Hr & ->).
  apply Forall2_cons_inv_l in Hr as (r & rs'' & Hr & Hnil & ->). apply Forall2_nil_inv_l in Hnil as ->.
  exists bs, r. split; [done|]. split; [|geometry; lia].
  revert Hbs. clear -Hb. induction Hb as [|b' b bs' bs Hb _ IH]; [by constructor|].
  intros [Hb' Hbs]%list.Forall_cons. constructor; [geometry; lia|by apply IH].
Qed.

(** The chunks of full records and a shorter one *)
Lemma chunks_of_records key base ps bs r :
  seal_records key base 0 ps = Some (bs ++ [r]) ->
  Forall (fun b => len b = COBBLESTONE_FULL_ENCRYPTED_CHUNK_LEN) bs -> len r < COBBLESTONE_FULL_ENCRYPTED_CHUNK_LEN ->
  chunks_of (concat ps) = ps /\
  len (concat ps) = len bs * COBBLESTONE_CHUNK_LEN + (len r - AES_GCM_TAG_LEN).
Proof.
  intros Hs Hbs Hr. pose proof (seal_records_lens _ _ _ _ _ Hs) as Hl.
  apply Forall2_app_inv_r in Hl as (cs & ps' & Hb & Hp & ->).
  apply Forall2_cons_inv_r in Hp as (t & ps'' & Ht & Hnil & ->). apply Forall2_nil_inv_r in Hnil as ->.
  assert (Forall (fun c => len c = COBBLESTONE_CHUNK_LEN) cs /\ len (concat cs) = len bs * COBBLESTONE_CHUNK_LEN)
    as [Hcs Hlen].
  { revert Hbs. clear -Hb. induction Hb as [|c b cs bs Hb _ IH]; [by intros; split; [constructor|]|].
    intros [Hb' Hbs]%list.Forall_cons. destruct (IH Hbs) as [IH1 IH2].
    split; [constructor; [geometry; lia|done]|]. cbn [concat]. rewrite len_app, len_cons, IH2. geometry. lia. }
  unfold chunks_of. rewrite concat_app. cbn [concat]. rewrite app_nil_r.
  destruct (blocks_exact _ chunk_pos cs t Hcs) as [-> ->]; [geometry; lia|]. split; [done|].
  rewrite len_app, Hlen. lia.
Qed.

Lemma open_records_authentic key base rs : forall i ps,
  open_records key base i rs = Some ps -> authentic_prefix key base i rs = ps.
Proof.
  induction rs as [|r rs IH]; intros i ps; cbn [open_records authentic_prefix]; [by intros [= <-]|].
  destruct (open_record key base i r); [|done]. cbn [mbind option_bind].
  destruct (open_records key base (i + 1) rs) eqn:Hrs; [|done]. intros [= <-]. by rewrite (IH _ _ Hrs).
Qed.

Lemma authentic_prefix_app key base rs rs' : forall i ps,
  open_records key base i rs = Some ps ->
  authentic_prefix key base i (rs ++ rs') = ps ++ authentic_prefix key base (i + len rs) rs'.
Proof.
  induction rs as [|r rs IH]; intros i ps; cbn [open_records authentic_prefix app].
  { intros [= <-]. change (len []) with 0. by rewrite Z.add_0_r. }
  destruct (open_record key base i r); [|done]. cbn [mbind option_bind].
  destruct (open_records key base (i + 1) rs) eqn:Hrs; [|done]. intros [= <-].
  rewrite (IH _ _ Hrs), len_cons. by rewrite Z.add_assoc.
Qed.

(** The authentic prefix is sealed by a prefix of the records. *)
Lemma authentic_prefix_sealed key base rs : forall i,
  exists k, seal_records key base i (authentic_prefix key base i rs) = Some (take k rs).
Proof.
  induction rs as [|r rs IH]; intros i; cbn [authentic_prefix]; [by exists 0%nat|].
  destruct (open_record key base i r) as [p|] eqn:Hr; [|by exists 0%nat].
  destruct (IH (i + 1)) as [k Hk]. exists (S k). apply open_seal_record in Hr.
  rewrite (seal_records_cons _ _ _ _ _ _ Hr), Hk. done.
Qed.

Lemma from_header_spec input_key context header :
  wp (from_header input_key context header)
    (fun o => exists salt d, len salt = COBBLESTONE_SALT_LEN /\ derive_message_key input_key salt context = Ok d /\
       header = salt ++ derived_commitment d /\ o = MkOpener (derived_key d) (derived_base_nonce d))
    (fun _ => forall salt d, len salt = COBBLESTONE_SALT_LEN -> derive_message_key input_key salt context = Ok d ->
       header <> salt ++ derived_commitment d).
Proof.
  unfold from_header. pose proof (derive_message_key_spec input_key) as Hd.
  destruct (Z.eqb_spec (len header) COBBLESTONE_HEADER_LEN) as [Hl|Hl]; cbn [negb guard_err]; bind_step; cycle 1.
  { intros salt d Hs Hds ->. apply Hl. rewrite len_app, Hs. specialize (Hd salt context). rewrite Hds in Hd.
    destruct Hd as [_ ->]. done. }
  assert (header = takeZ COBBLESTONE_SALT_LEN header ++ dropZ COBBLESTONE_SALT_LEN header) as Heq by (by rewrite take_dropZ).
  assert (len (takeZ COBBLESTONE_SALT_LEN header) = COBBLESTONE_SALT_LEN) as Hls by (apply len_takeZ; geometry; lia).
  set (salt := takeZ COBBLESTONE_SALT_LEN header) in *. set (com := dropZ COBBLESTONE_SALT_LEN header) in *.
  assert (index_range (E:=CryptoError) header 0 COBBLESTONE_SALT_LEN = Ok salt) as ->.
  { unfold index_range. rewrite Heq, (get_range_app [] salt com); done. }
  bind_step. unfold try_into. rewrite (proj2 (Z.eqb_eq _ _)) by done. bind_step.
  assert (index_range (E:=CryptoError) header COBBLESTONE_SALT_LEN (len header) = Ok com) as Hcom.
  { unfold index_range. pose proof (get_range_app salt com [] COBBLESTONE_SALT_LEN (len header)) as Hg.
    rewrite app_nil_r, <-Heq in Hg. rewrite Hg; [done..|]. rewrite Heq at 1. apply len_app. }
  assert (forall salt' com', len salt' = COBBLESTONE_SALT_LEN -> header = salt' ++ com' -> salt' = salt /\ com' = com) as Huniq.
  { intros salt' com' Hs' Heq'. subst salt com. rewrite Heq'. by rewrite takeZ_app, dropZ_app. }
  destruct (derive_message_key input_key salt context) as [d|[]|] eqn:Hds; bind_step.
  - rewrite Hcom. bind_step. unfold commitments_equal. pose proof (verify_slices_spec (derived_commitment d) com) as Hv.
    destruct (verify_slices_are_equal _ com); cbn [negb guard_err]; bind_step.
    + exists salt, d. rewrite (proj1 Hv eq_refl). by repeat split.
    + intros salt' d' Hs' Hd' Heq'. destruct (Huniq _ _ Hs' Heq') as [-> Hc]. rewrite Hds in Hd'.
      injection Hd' as <-. apply proj2 in Hv. specialize (Hv Hc). done.
  - intros salt' d' Hs' Hd' Heq'. destruct (Huniq _ _ Hs' Heq') as [-> _]. congruence.
  - specialize (Hd salt context). by rewrite Hds in Hd.
Qed.

(** Opening a record in its buffer *)
Lemma open_chunk_spec n key base i r :
  sealable n -> 0 <= i <= n / COBBLESTONE_CHUNK_LEN -> len r = record_len n i ->
  match open_record key base i r with
  | Some p => exists tail,
      open_chunk (MkOpener key base) (layout_of n) i r = (Ok (len p), p ++ tail) /\
      len tail = AES_GCM_TAG_LEN /\ len r = len p + AES_GCM_TAG_LEN
  | None => exists r', open_chunk (MkOpener key base) (layout_of n) i r = (Err CryptoError_, r')
  end.
Proof.
  intros Hn Hi Hr. pose proof (open_seal_record key base i) as Hseal.
  unfold open_chunk, mbind, stm_bind, liftS, gets. rewrite record_range by done.
  pose proof (record_len_range n Hn i). rewrite sub64_Ok by (cbn [fst snd]; geometry; lia). cbn [fst snd id].
  rewrite (proj2 (Z.eqb_eq _ _)) by lia. cbn [negb guard_err opener_base_nonce opener_key].
  pose proof (nonce_for_chunk_spec base i) as Hnonce. unfold open_record in *.
  destruct (nonce_for_chunk base i) as [nonce|[]|]; [|by eexists|done].
  unfold open_in_place. destruct (gcm_open key nonce [] r) as [p|] eqn:Hp; [|by eexists].
  exists (gcm_scratch key nonce [] r). split; [done|]. split; [by eapply gcm_scratch_length|].
  apply (seal_record_length key base i). by apply Hseal.
Qed.

Section stream.
Context (n : Z) (context : list byte) (key : Aes256GcmKey) (base : list byte).
Hypothesis Hn : sealable n.

(** The opener behind its header, at record [i] *)
Definition stream_at (pending : list byte) (consumed i : Z) : Cobblestone256StreamOpener :=
  MkStream None context (layout_of n) (Some (MkOpener key base)) pending consumed i false false.

(** A turn of the loop, up to what it does with the bytes it reads *)
Lemma read_chunk_turn x pend c i out Q R :
  0 <= i <= n / COBBLESTONE_CHUNK_LEN -> len pend < record_len n i -> 0 <= c -> c + len x <= MAX64 ->
  let m := Z.min (record_len n i - len pend) (len x) in
  wpst (if len (pend ++ takeZ m x) =? record_len n i then
          opener ← liftS (ok_or (Some (MkOpener key base)) CryptoError_);
          let '(result, pending) := open_chunk opener (layout_of n) i (pend ++ takeZ m x) in
          _ ← modify (on_stream (stream_advance pending (c + m) i));
          p ← lift_or (on_stream stream_set_failed) result;
          _ ← modify (fun '(self, plaintext) => (self, plaintext ++ takeZ p pending));
          next ← liftS (add64 i 1);
          _ ← modify (on_stream (stream_advance [] (c + m) next));
          mret (dropZ m x)
        else mret (dropZ m x))
       (stream_at (pend ++ takeZ m x) (c + m) i, out) Q R ->
  wpst (read_chunk x) (stream_at pend c i, out) Q R.
Proof.
  intros Hi Hpend Hc Hmax m Hw. pose proof (record_len_range n Hn i). pose proof (len_nonneg x).
  unfold read_chunk. do 4 stm_step. unfold stream_at at 1 2. cbn [fst stream_layout stream_next_chunk].
  rewrite record_range by done. cbn [wp]. do 2 stm_step. cbn [fst snd].
  rewrite sub64_Ok by (geometry; lia). rewrite Z.add_simpl_l. cbn [wp]. do 2 stm_step.
  rewrite usize_try_from64_Some by (geometry; lia). cbn [ok_or wp]. do 2 stm_step.
  rewrite sub64_Ok by (cbn; lia). cbn [wp]. do 2 stm_step.
  rewrite add64_Ok by (cbn [stream_at stream_consumed]; fold m; lia). cbn [wp]. do 2 stm_step. exact Hw.
Qed.

Lemma read_chunk_partial x pend c i out Q R :
  0 <= i <= n / COBBLESTONE_CHUNK_LEN -> len (pend ++ x) < record_len n i -> 0 <= c -> c + len x <= MAX64 ->
  Q [] (stream_at (pend ++ x) (c + len x) i, out) -> wpst (read_chunk x) (stream_at pend c i, out) Q R.
Proof.
  intros Hi Hlt Hc Hmax HQ. rewrite len_app in Hlt. pose proof (len_nonneg x).
  apply read_chunk_turn; [done|lia|done..|]. cbn zeta. rewrite Z.min_r by lia. rewrite takeZ_all by lia.
  rewrite (proj2 (Z.eqb_neq _ _)) by (rewrite len_app; lia). stm_step. by rewrite dropZ_all by lia.
Qed.

Lemma read_chunk_full x pend c i out r x' (Q : _ -> _ -> Prop) (R : _ -> _ -> Prop) :
  0 <= i <= n / COBBLESTONE_CHUNK_LEN -> len pend < record_len n i -> 0 <= c -> c + len x <= MAX64 ->
  pend ++ x = r ++ x' -> len r = record_len n i ->
  (forall p, open_record key base i r = Some p -> Q x' (stream_at [] (c + (len x - len x')) (i + 1), out ++ p)) ->
  (forall s, open_record key base i r = None -> stream_failed s = true -> R CryptoError_ (s, out)) ->
  wpst (read_chunk x) (stream_at pend c i, out) Q R.
Proof.
  intros Hi Hpend Hc Hmax Heq Hr HQ HR. pose proof (len_nonneg pend). pose proof (len_nonneg x').
  assert (len pend + len x = len r + len x') as Hlen by (by rewrite <-!len_app, Heq).
  apply read_chunk_turn; [done..|]. cbn zeta. rewrite Z.min_l by lia. set (m := record_len n i - len pend).
  assert (pend ++ takeZ m x = r /\ dropZ m x = x') as [-> ->].
  { assert (x = takeZ m x ++ dropZ m x) as Hx by (by rewrite take_dropZ). rewrite Hx, app_assoc in Heq at 1.
    apply app_inj_1 in Heq; [done|]. apply Nat2Z.inj. change (len (pend ++ takeZ m x) = len r).
    rewrite len_app, len_takeZ; lia. }
  rewrite (proj2 (Z.eqb_eq _ _)) by done. do 2 stm_step. cbn [ok_or wp].
  pose proof (open_chunk_spec n key base i r Hn Hi Hr) as Hopen. unfold stream_at.
  destruct (open_record key base i r) as [p|].
  - destruct Hopen as (tail & -> & _ & _). pose proof (terminal_range n Hn) as [Hq _].
    rewrite add64_Ok by (geometry; lia). repeat stm_step. stream_simpl.
    rewrite takeZ_app by done. replace (c + m) with (c + (len x - len x')) by lia. by apply HQ.
  - destruct Hopen as (r' & ->). repeat stm_step. cbn [wp]. stream_simpl. by apply HR.
Qed.

(** Where the loop can stand: in record [i], or behind the last one *)
Definition at_record (i : Z) (pend x : list byte) : Prop :=
  (0 <= i <= n / COBBLESTONE_CHUNK_LEN /\ len pend < record_len n i /\ len (pend ++ x) <= remaining n i) \/
  (i = n / COBBLESTONE_CHUNK_LEN + 1 /\ pend = [] /\ x = []).

Lemma remaining_record i : 0 <= i <= n / COBBLESTONE_CHUNK_LEN -> record_len n i <= remaining n i.
Proof.
  intros Hi. pose proof (terminal_range n Hn). unfold record_len, remaining.
  destruct (Z.ltb_spec i (n / COBBLESTONE_CHUNK_LEN)); geometry; lia.
Qed.

Lemma at_record_idle i pend :
  at_record i pend [] -> records_from n i pend = [] /\ partial_from n i pend = pend.
Proof.
  pose proof (terminal_range n Hn) as [Hq Ht]. intros [(Hi & Hlt & _)|(-> & -> & _)].
  - pose proof (record_len_range n Hn i). pose proof (remaining_record i Hi). apply records_from_short; lia.
  - apply records_from_short; change (len []) with 0; unfold remaining; geometry; lia.
Qed.

Lemma at_record_next i r x' :
  0 <= i <= n / COBBLESTONE_CHUNK_LEN -> len r = record_len n i -> len (r ++ x') <= remaining n i ->
  at_record (i + 1) [] x'.
Proof.
  intros Hi Hr Hle. pose proof (terminal_range n Hn) as [Hq Ht]. rewrite len_app in Hle. pose proof (len_nonneg x').
  unfold at_record, remaining, record_len in *. change (len []) with 0. cbn [app].
  destruct (Z.ltb_spec i (n / COBBLESTONE_CHUNK_LEN)).
  - left. repeat split; [lia..| |geometry; lia]. case_match; geometry; lia.
  - right. repeat split; [lia|]. apply len_nil_inv. geometry. lia.
Qed.

Lemma read_chunks_spec fuel : forall x pend c i out,
  (length x < fuel)%nat -> at_record i pend x -> 0 <= c -> c + len x <= MAX64 ->
  let rs := records_from n i (pend ++ x) in
  wpst (read_chunks fuel x) (stream_at pend c i, out)
    (fun _ s => exists ps, open_records key base i rs = Some ps /\
       s = (stream_at (partial_from n i (pend ++ x)) (c + len x) (i + len rs), out ++ concat ps))
    (fun _ s => open_records key base i rs = None /\ stream_failed s.1 = true /\
       s.2 = out ++ concat (authentic_prefix key base i rs)).
Proof.
  induction fuel as [|fuel IH]; intros x pend c i out Hfuel Hat Hc Hmax rs; [lia|]. cbn [read_chunks].
  case_bool_decide as Hx.
  { subst x. stm_step. subst rs. rewrite app_nil_r. destruct (at_record_idle i pend Hat) as [-> ->].
    exists []. cbn [open_records concat]. change (len []) with 0. by rewrite app_nil_r, !Z.add_0_r. }
  destruct Hat as [(Hi & Hlt & Hle)|(_ & _ & ?)]; [|done]. stm_step.
  destruct (Z.lt_ge_cases (len (pend ++ x)) (record_len n i)) as [Hshort|Hfull].
  { apply read_chunk_partial; [done..|]. specialize (IH [] (pend ++ x) (c + len x) i out).
    rewrite app_nil_r in IH. change (len []) with 0 in IH. rewrite Z.add_0_r in IH.
    apply IH; [destruct x; simpl in *; [done|lia]| |pose proof (len_nonneg x); lia|lia].
    left. by rewrite app_nil_r. }
  pose proof (record_len_range n Hn i) as Hrl.
  assert (len (takeZ (record_len n i) (pend ++ x)) = record_len n i) as Hr by (apply len_takeZ; geometry; lia).
  pose proof (take_dropZ (record_len n i) (pend ++ x)) as Heq.
  set (r := takeZ (record_len n i) (pend ++ x)) in *. set (x' := dropZ (record_len n i) (pend ++ x)) in *.
  assert (len pend + len x = len r + len x') as Hlen by (by rewrite <-!len_app, Heq).
  subst rs. rewrite <-Heq in Hle |- *. destruct (records_from_cons n Hn i r x' Hi Hr Hle) as [-> ->].
  eapply read_chunk_full; [done..|by rewrite Heq|done| |]; cbn [open_records authentic_prefix].
  - intros p Hp. rewrite Hp. cbn [mbind option_bind].
    eapply wpst_mono; [apply (IH x' []); [|by eapply at_record_next|pose proof (len_nonneg x'); lia|lia]|..];
      cbn [app]; cbn beta.
    + assert (len x' < len x) by lia. unfold len in *. lia.
    + intros _ s (ps & -> & ->). exists (p :: ps). cbn [concat]. rewrite len_cons, <-app_assoc.
      replace (c + (len x - len x') + len x') with (c + len x) by lia. by rewrite Z.add_assoc.
    + intros e s (-> & Hf & ->). cbn [concat]. by rewrite <-app_assoc.
  - intros s -> Hf. cbn [concat fst snd]. by rewrite app_nil_r.
Qed.

End stream.

(** Bytes that follow a prefix of the records *)
Lemma records_from_app n y x :
  sealable n -> len (y ++ x) <= remaining n 0 ->
  let i := len (records_from n 0 y) in
  let pend := partial_from n 0 y in
  at_record n i pend x /\
  records_from n 0 (y ++ x) = records_from n 0 y ++ records_from n i (pend ++ x) /\
  partial_from n 0 (y ++ x) = partial_from n i (pend ++ x).
Proof.
  intros Hn Hle. cbn zeta. pose proof (terminal_range n Hn) as [Hq Ht]. rewrite len_app in Hle.
  pose proof (len_nonneg x). pose proof (len_nonneg y). pose proof (blocks_append _ full_pos y x) as [Hb Hr].
  pose proof (len_blocks _ full_pos y) as Hlb. pose proof (len_rest_mod _ full_pos y) as Hlr.
  pose proof (Z.div_mod (len y) COBBLESTONE_FULL_ENCRYPTED_CHUNK_LEN ltac:(done)) as Hdm.
  pose proof (Z.mod_pos_bound (len y) _ full_pos). rewrite <-Hlr, <-Hlb in Hdm.
  set (bs := blocks COBBLESTONE_FULL_ENCRYPTED_CHUNK_LEN y) in *. set (r := rest COBBLESTONE_FULL_ENCRYPTED_CHUNK_LEN y) in *.
  destruct (Z.eqb_spec (len y) (remaining n 0)) as [Hend|Hend].
  - assert (x = []) as -> by (apply len_nil_inv; lia). rewrite app_nil_r.
    assert (records_from n 0 y = bs ++ [r] /\ partial_from n 0 y = []) as [-> ->]
      by (unfold records_from, partial_from; by rewrite (proj2 (Z.eqb_eq _ _))).
    assert (len (bs ++ [r]) = n / COBBLESTONE_CHUNK_LEN + 1) as ->.
    { rewrite len_app. change (len [r]) with 1. unfold remaining in Hend. geometry. lia. }
    assert (at_record n (n / COBBLESTONE_CHUNK_LEN + 1) [] []) as Hat by (right; done).
    cbn [app]. split; [done|]. destruct (at_record_idle n Hn _ [] Hat) as [-> ->]. by rewrite app_nil_r.
  - assert (records_from n 0 y = bs /\ partial_from n 0 y = r) as [-> ->]
      by (unfold records_from, partial_from; by rewrite (proj2 (Z.eqb_neq _ _)), app_nil_r).
    assert (remaining n (len bs) = remaining n 0 - len bs * COBBLESTONE_FULL_ENCRYPTED_CHUNK_LEN) as Hrem
      by (unfold remaining; lia).
    unfold records_from, partial_from. rewrite Hb, Hr, !len_app, <-app_assoc.
    replace (len y + len x =? remaining n 0) with (len r + len x =? remaining n (len bs)) by (rewrite Hrem; lia).
    split; [|done]. left. rewrite len_app. unfold record_len, remaining in *.
    assert (0 <= len bs) by apply len_nonneg. repeat split; [done|geometry; lia|case_match; geometry; lia|lia].
Qed.

(** All records *)
Lemma records_from_all n y :
  sealable n -> len y = remaining n 0 ->
  let bs := blocks COBBLESTONE_FULL_ENCRYPTED_CHUNK_LEN y in
  let r := rest COBBLESTONE_FULL_ENCRYPTED_CHUNK_LEN y in
  records_from n 0 y = bs ++ [r] /\ partial_from n 0 y = [] /\ concat (bs ++ [r]) = y /\
  Forall (fun b => len b = COBBLESTONE_FULL_ENCRYPTED_CHUNK_LEN) bs /\ len bs = n / COBBLESTONE_CHUNK_LEN /\
  len r = n mod COBBLESTONE_CHUNK_LEN + AES_GCM_TAG_LEN.
Proof.
  intros Hn Hy. cbn zeta. pose proof (terminal_range n Hn) as [Hq Ht].
  pose proof (blocks_spec _ full_pos y) as (Hcat & Hbs & _). pose proof (len_blocks _ full_pos y) as ->.
  pose proof (len_rest_mod _ full_pos y) as Hlr. unfold records_from, partial_from.
  rewrite (proj2 (Z.eqb_eq _ _)), concat_app by done. cbn [concat]. rewrite app_nil_r.
  repeat split; [done..| |]; [|rewrite Hlr]; rewrite Hy; unfold remaining; rewrite Z.sub_0_r; symmetry.
  - eapply Z.div_unique_pos; [|by rewrite Z.mul_comm]. geometry. lia.
  - eapply Z.mod_unique_pos; [|by rewrite Z.mul_comm]. geometry. lia.
Qed.

(** ** The opener as a function of the wire *)

Section opener.
Context (input_key : Cobblestone256Key) (context : list byte) (n : Z).
Hypothesis Hn : sealable n.

(** The plaintext of the authentic records up to the first that is not *)
Definition released (w : list byte) : list byte :=
  if len w <? COBBLESTONE_HEADER_LEN then [] else
  match from_header input_key context (takeZ COBBLESTONE_HEADER_LEN w) with
  | Ok o => concat (authentic_prefix (opener_key o) (opener_base_nonce o) 0 (complete n w))
  | _ => []
  end.

(** The wire is not too long, its header, once complete, is that of the key, and
    its complete records are authentic. *)
Definition accepted (w : list byte) : Prop :=
  len w <= ciphertext_len (layout_of n) /\
  (COBBLESTONE_HEADER_LEN <= len w -> exists o ps,
     from_header input_key context (takeZ COBBLESTONE_HEADER_LEN w) = Ok o /\
     open_records (opener_key o) (opener_base_nonce o) 0 (complete n w) = Some ps).

(** The opener after the accepted wire [w] *)
Definition state_after (w : list byte) (s : Cobblestone256StreamOpener) : Prop :=
  accepted w /\
  if len w <? COBBLESTONE_HEADER_LEN then
    s = MkStream (Some input_key) context (layout_of n) None w (len w) 0 false false
  else exists o, from_header input_key context (takeZ COBBLESTONE_HEADER_LEN w) = Ok o /\
    s = stream_at n context (opener_key o) (opener_base_nonce o)
          (partial_from n 0 (dropZ COBBLESTONE_HEADER_LEN w)) (len w) (len (complete n w)).

Lemma state_after_running w s : state_after w s ->
  stream_failed s = false /\ stream_finished s = false /\ stream_consumed s = len w /\ stream_layout s = layout_of n.
Proof. intros [_ Hs]. destruct (len w <? COBBLESTONE_HEADER_LEN); [by subst|]. by destruct Hs as (o & _ & ->). Qed.

(** The loop behind the header: [w] has arrived, [w'] is what will have *)
Lemma read_records_spec o w x out :
  from_header input_key context (takeZ COBBLESTONE_HEADER_LEN w) = Ok o ->
  COBBLESTONE_HEADER_LEN <= len w -> len (w ++ x) <= ciphertext_len (layout_of n) -> accepted w ->
  wpst (read_chunks (S (length x)) x)
    (stream_at n context (opener_key o) (opener_base_nonce o)
       (partial_from n 0 (dropZ COBBLESTONE_HEADER_LEN w)) (len w) (len (complete n w)), out ++ released w)
    (fun _ s => state_after (w ++ x) s.1 /\ s.2 = out ++ released (w ++ x))
    (fun _ s => ~ accepted (w ++ x) /\ stream_failed s.1 = true /\ s.2 = out ++ released (w ++ x)).
Proof.
  intros Ho Hw Hle [_ Hacc]. destruct (Hacc Hw) as (o' & ps & Ho' & Hps). rewrite Ho in Ho'. injection Ho' as <-.
  pose proof (ciphertext_len_remaining n) as HL. pose proof (ciphertext_len_bound n Hn) as HM.
  pose proof (len_nonneg x). rewrite len_app in Hle.
  assert (takeZ COBBLESTONE_HEADER_LEN (w ++ x) = takeZ COBBLESTONE_HEADER_LEN w) as Ht by (apply takeZ_app_le; lia).
  assert (dropZ COBBLESTONE_HEADER_LEN (w ++ x) = dropZ COBBLESTONE_HEADER_LEN w ++ x) as Hd by (apply dropZ_app_le; lia).
  assert ((len (w ++ x) <? COBBLESTONE_HEADER_LEN) = false) as Hl1 by (rewrite len_app; lia).
  assert ((len w <? COBBLESTONE_HEADER_LEN) = false) as Hl2 by lia.
  unfold state_after, accepted, released, complete in *. rewrite Hl1, Hl2, Ht, Hd, Ho in *.
  set (y := dropZ COBBLESTONE_HEADER_LEN w) in *.
  destruct (records_from_app n y x Hn) as (Hat & Hrec & Hpart).
  { rewrite len_app. subst y. rewrite len_dropZ by (geometry; lia). lia. }
  pose proof (open_records_authentic _ _ _ _ _ Hps) as Hauth. rewrite Hauth.
  eapply wpst_mono; [apply read_chunks_spec; [done|lia|done|pose proof (len_nonneg w); lia|lia]|..]; cbn beta.
  - intros _ s (ps' & Hps' & ->). cbn [fst snd]. rewrite <-Hpart, Hrec.
    assert (open_records (opener_key o) (opener_base_nonce o) 0
      (records_from n 0 y ++ records_from n (len (records_from n 0 y)) (partial_from n 0 y ++ x)) = Some (ps ++ ps')) as Hall
      by (by rewrite open_records_app, Hps, Z.add_0_l; cbn [mbind option_bind]; rewrite Hps').
    rewrite (open_records_authentic _ _ _ _ _ Hall), concat_app, app_assoc, !len_app.
    split; [|done]. split; [|by exists o]. split; [lia|]. intros _. by exists o, (ps ++ ps').
  - intros e s (Hnone & Hf & ->). split; [|split; [done|]].
    + intros [_ Hex]. destruct Hex as (o' & qs & Ho' & Hqs); [rewrite len_app; lia|]. injection Ho' as <-.
      rewrite Hrec, open_records_app, Hps, Z.add_0_l in Hqs. cbn [mbind option_bind] in Hqs. by rewrite Hnone in Hqs.
    + rewrite Hrec, (authentic_prefix_app _ _ _ _ _ _ Hps), Z.add_0_l, concat_app. by rewrite app_assoc.
Qed.

Lemma accepted_header w o :
  len w = COBBLESTONE_HEADER_LEN -> from_header input_key context w = Ok o ->
  complete n w = [] /\ partial_from n 0 (dropZ COBBLESTONE_HEADER_LEN w) = [] /\ accepted w /\ released w = [].
Proof.
  intros Hw Ho. pose proof (terminal_range n Hn) as [Hq Ht]. pose proof (ciphertext_len_bound n Hn).
  assert (takeZ COBBLESTONE_HEADER_LEN w = w) as Htake by (apply takeZ_all; lia).
  assert (complete n w = [] /\ partial_from n 0 (dropZ COBBLESTONE_HEADER_LEN w) = []) as [Hc Hp].
  { unfold complete. rewrite (proj2 (Z.ltb_ge _ _)), dropZ_all by lia.
    apply records_from_short; change (len []) with 0; unfold remaining; geometry; lia. }
  split; [done|]. split; [done|]. split.
  - split; [lia|]. intros _. exists o, []. by rewrite Htake, Hc.
  - unfold released. rewrite (proj2 (Z.ltb_ge _ _)), Htake, Ho, Hc by lia. done.
Qed.

(** The header arrives: [w ++ x] is shorter, or splits into the header and more. *)
Lemma read_header_spec w x out :
  len w < COBBLESTONE_HEADER_LEN -> len (w ++ x) <= ciphertext_len (layout_of n) ->
  wpst (rest ← read_header x; read_chunks (S (length rest)) rest)
    (MkStream (Some input_key) context (layout_of n) None w (len w) 0 false false, out)
    (fun _ s => state_after (w ++ x) s.1 /\ s.2 = out ++ released (w ++ x))
    (fun _ s => ~ accepted (w ++ x) /\ stream_failed s.1 = true /\ s.2 = out ++ released (w ++ x)).
Proof.
  intros Hw Hle. pose proof (ciphertext_len_bound n Hn). pose proof (len_nonneg x). pose proof (len_nonneg w).
  stm_step. unfold read_header. do 4 stm_step. cbn [fst stream_pending]. rewrite sub64_Ok by lia. do 3 stm_step.
  cbn [stream_consumed]. rewrite add64_Ok by (rewrite len_app in Hle; lia). do 3 stm_step. stream_simpl.
  rewrite len_app, len_takeZ by lia.
  destruct (Z.eqb_spec (len w + Z.min (COBBLESTONE_HEADER_LEN - len w) (len x)) COBBLESTONE_HEADER_LEN) as [Hfull|Hfull]; cycle 1.
  { assert (len (w ++ x) < COBBLESTONE_HEADER_LEN) as Hlt by (rewrite len_app; lia).
    rewrite Z.min_r by lia. rewrite takeZ_all, dropZ_all by lia. stm_step. cbn [length read_chunks].
    rewrite bool_decide_eq_true_2 by done. stm_step.
    unfold state_after, released, accepted. cbn [fst snd]. rewrite (proj2 (Z.ltb_lt _ _)), app_nil_r by done.
    rewrite len_app in *. split; [|done]. split; [|done]. split; [lia|intros; lia]. }
  assert (COBBLESTONE_HEADER_LEN - len w <= len x) by lia. rewrite Z.min_l by lia. clear Hfull. set (m := COBBLESTONE_HEADER_LEN - len w) in *.
  assert (w ++ x = (w ++ takeZ m x) ++ dropZ m x) as Heq by (by rewrite <-app_assoc, take_dropZ).
  assert (len (w ++ takeZ m x) = COBBLESTONE_HEADER_LEN) as Hh by (rewrite len_app, len_takeZ; lia).
  rewrite Heq in Hle |- *. set (h := w ++ takeZ m x) in *. set (x' := dropZ m x) in *.
  stm_step. unfold take_input_key. repeat stm_step. stream_simpl. repeat stm_step. stream_simpl.
  assert (takeZ COBBLESTONE_HEADER_LEN (h ++ x') = h) as Htake by (apply takeZ_app; lia).
  pose proof (from_header_spec input_key context h) as Hspec. destruct (from_header input_key context h) as [o|[]|] eqn:Ho; [| |done].
  - repeat stm_step. stream_simpl. destruct (accepted_header h o Hh Ho) as (Hc & Hp & Hacc & Hrel).
    pose proof (read_records_spec o h x' out) as Hrun. rewrite Hc, Hp, Hrel, app_nil_r, takeZ_all in Hrun by lia.
    unfold stream_at in Hrun. destruct o. cbn [opener_key opener_base_nonce] in Hrun.
    replace (len w + m) with (len h) by lia. apply Hrun; [done|lia|done|done].
  - cbn [wp]. stream_simpl. clear Hspec. pose proof (len_nonneg x'). repeat split.
    + intros [_ Hex]. destruct Hex as (o & ps & Ho' & _); [rewrite len_app; lia|]. rewrite Htake, Ho in Ho'. done.
    + unfold released. rewrite Htake, Ho. by case_match; rewrite app_nil_r.
Qed.

(** Feeding [x] to the opener behind [w] *)
Lemma stream_update_spec w x s out :
  state_after w s ->
  wpst (stream_update x) (s, out ++ released w)
    (fun _ s' => state_after (w ++ x) s'.1 /\ s'.2 = out ++ released (w ++ x))
    (fun _ s' => ~ accepted (w ++ x) /\ stream_failed s'.1 = true /\
       s'.2 = out ++ released (if len (w ++ x) <=? ciphertext_len (layout_of n) then w ++ x else w)).
Proof.
  intros Hs. pose proof (state_after_running w s Hs) as (Hf & Hfin & Hc & Hl).
  pose proof (ciphertext_len_bound n Hn). pose proof (len_nonneg x).
  unfold stream_update. do 2 stm_step. cbn [fst]. rewrite Hf, Hfin, Hc, Hl. cbn [orb].
  assert (match checked_add64 (len w) (len x) with
          | Some length => ciphertext_len (layout_of n) <? length | None => true end =
          negb (len (w ++ x) <=? ciphertext_len (layout_of n))) as ->.
  { unfold checked_add64. rewrite len_app. destruct (Z.leb_spec (len w + len x) MAX64); lia. }
  destruct (Z.leb_spec (len (w ++ x)) (ciphertext_len (layout_of n))) as [Hle|Hgt]; cbn [negb]; cycle 1.
  { unfold stream_fail, fail_with. unfold wpst. stream_simpl. split; [|done]. intros [? _]. lia. }
  destruct Hs as [Hacc Hs]. destruct (Z.ltb_spec (len w) COBBLESTONE_HEADER_LEN) as [Hw|Hw].
  - subst s. cbn [stream_opener]. assert (released w = []) as ->.
    { unfold released. by rewrite (proj2 (Z.ltb_lt _ _)). }
    rewrite app_nil_r. by apply read_header_spec.
  - destruct Hs as (o & Ho & ->). cbn [stream_at stream_opener]. do 2 stm_step. by apply read_records_spec.
Qed.

Lemma stream_finish_spec {T} w s (t : T) :
  state_after w s ->
  wpst stream_finish (s, t)
    (fun _ s' => len w = ciphertext_len (layout_of n) /\ s' = (stream_set_finished s, t))
    (fun _ s' => len w <> ciphertext_len (layout_of n) /\ s' = (stream_set_failed s, t)).
Proof.
  intros Hs. pose proof (state_after_running w s Hs) as (Hf & Hfin & Hc & Hl).
  pose proof (terminal_range n Hn) as [Hq _]. pose proof (ciphertext_len_bound n Hn).
  unfold stream_finish, stream_fail, fail_with. do 2 stm_step. cbn [fst]. rewrite Hf, Hfin, Hc, Hl. cbn [orb].
  destruct (Z.eqb_spec (len w) (ciphertext_len (layout_of n))) as [Hw|Hw]; cbn [negb]; [|done].
  do 2 stm_step. unfold chunk_count. rewrite add64_Ok by (cbn [layout_of full_chunks]; geometry; lia). stm_step.
  destruct Hs as [_ Hs]. rewrite (proj2 (Z.ltb_ge _ _)) in Hs by lia. destruct Hs as (o & _ & ->).
  unfold complete. rewrite (proj2 (Z.ltb_ge _ _)) by lia.
  destruct (records_from_all n (dropZ COBBLESTONE_HEADER_LEN w) Hn) as (-> & -> & _ & _ & Hbs & _).
  { rewrite len_dropZ by (geometry; lia). rewrite Hw, ciphertext_len_remaining. lia. }
  cbn [stream_at stream_next_chunk stream_pending layout_of full_chunks]. rewrite len_app, Hbs.
  change (len [_]) with 1. rewrite (proj2 (Z.eqb_eq _ _)), bool_decide_eq_true_2 by done. cbn [negb orb].
  by stm_step.
Qed.

(** The complete accepted wires are the messages, and the plaintext released is theirs. *)
Lemma accepted_message w p :
  len w = ciphertext_len (layout_of n) ->
  accepted w /\ p = released w <->
  exists salt, len salt = COBBLESTONE_SALT_LEN /\ len p = n /\ message input_key salt context p = Some w.
Proof.
  intros Hw. pose proof (ciphertext_len_bound n Hn) as HL. unfold accepted, released, complete, message.
  rewrite (proj2 (Z.ltb_ge _ _)) by lia. pose proof (terminal_range n Hn) as [Hq Ht].
  destruct (records_from_all n (dropZ COBBLESTONE_HEADER_LEN w) Hn) as (Hrec & _ & Hcat & Hbs & Hlb & Hlr).
  { rewrite len_dropZ by (geometry; lia). rewrite Hw, ciphertext_len_remaining. lia. }
  set (y := dropZ COBBLESTONE_HEADER_LEN w) in *. set (h := takeZ COBBLESTONE_HEADER_LEN w) in *.
  assert (w = h ++ y) as Hwy by (symmetry; apply take_dropZ). rewrite Hrec.
  set (bs := blocks COBBLESTONE_FULL_ENCRYPTED_CHUNK_LEN y) in *. set (r := rest COBBLESTONE_FULL_ENCRYPTED_CHUNK_LEN y) in *.
  pose proof (from_header_spec input_key context h) as Hh. split.
  - intros [[_ Hacc] ->]. destruct Hacc as (o & ps & Ho & Hps); [lia|]. rewrite Ho in Hh |- *.
    destruct Hh as (salt & d & Hsalt & Hd & Heq & ->). cbn [opener_key opener_base_nonce] in *.
    rewrite (open_records_authentic _ _ _ _ _ Hps). apply open_seal_records in Hps.
    destruct (chunks_of_records _ _ _ _ _ Hps Hbs) as [Hch Hlen]; [lia|].
    exists salt. split; [done|]. split.
    { rewrite Hlen, Hlb, Hlr. pose proof (Z.div_mod n COBBLESTONE_CHUNK_LEN ltac:(done)). geometry. lia. }
    rewrite Hd, Hch, Hps. cbn [mbind option_bind]. by rewrite Hcat, app_assoc, <-Heq, <-Hwy.
  - intros (salt & Hsalt & Hp & Hm). pose proof (derive_message_key_spec input_key salt context) as Hds.
    destruct (derive_message_key input_key salt context) as [d| |] eqn:Hd; [|done..]. destruct Hds as [_ Hcom].
    destruct (seal_records _ _ 0 (chunks_of p)) as [rs|] eqn:Hrs; [|done]. injection Hm as Hm.
    assert (h = salt ++ derived_commitment d /\ y = concat rs) as [Hh' Hy'].
    { apply app_inj_1; [|by rewrite <-Hwy, <-Hm, app_assoc]. apply Nat2Z.inj.
      change (len h = len (salt ++ derived_commitment d)). rewrite len_app, Hsalt, Hcom. subst h.
      apply len_takeZ. geometry. lia. }
    assert (bs ++ [r] = rs) as ->.
    { destruct (records_of_chunks _ _ _ _ Hrs) as (cs & t & -> & Hcs & Ht'). subst bs r.
      rewrite Hy', concat_app. cbn [concat]. rewrite app_nil_r.
      by destruct (blocks_exact _ full_pos cs t Hcs Ht') as [-> ->]. }
    destruct (from_header input_key context h) as [o|e|]; [|by destruct (Hh salt d)|done].
    destruct Hh as (salt' & d' & Hsalt' & Hd' & Heq & ->). rewrite Hh' in Heq.
    apply app_inj_1 in Heq as [<- _]; [|apply Nat2Z.inj; change (len salt = len salt'); lia].
    rewrite Hd in Hd'. injection Hd' as <-. cbn [opener_key opener_base_nonce].
    apply open_seal_records in Hrs. rewrite (open_records_authentic _ _ _ _ _ Hrs), concat_chunks_of.
    split; [|done]. split; [lia|]. intros _. by eexists _, _.
Qed.

Lemma message_accepted salt w p :
  len w = ciphertext_len (layout_of n) -> len salt = COBBLESTONE_SALT_LEN ->
  message input_key salt context p = Some w -> accepted w /\ p = released w.
Proof.
  intros Hw Hsalt Hm. apply accepted_message; [done|]. exists salt. split; [done|]. split; [|done].
  destruct (message_length _ _ _ _ _ Hsalt Hm) as [Hs Hlen]. rewrite Hw in Hlen.
  by apply (ciphertext_len_inj n Hn); [apply Hs|].
Qed.

(** What is accepted was accepted before. *)
Lemma accepted_prefix w x : accepted (w ++ x) -> accepted w.
Proof.
  intros [Hle Hacc]. rewrite len_app in *. pose proof (len_nonneg x). split; [lia|]. intros Hw.
  destruct Hacc as (o & ps & Ho & Hps); [lia|]. rewrite takeZ_app_le in Ho by lia. exists o.
  unfold complete in *. rewrite len_app in Hps. rewrite !(proj2 (Z.ltb_ge _ _)) in * by lia.
  rewrite dropZ_app_le in Hps by lia. pose proof (ciphertext_len_remaining n) as HL.
  destruct (records_from_app n (dropZ COBBLESTONE_HEADER_LEN w) x Hn) as (_ & Hrec & _).
  { rewrite len_app, len_dropZ by (geometry; lia). lia. }
  rewrite Hrec, open_records_app in Hps.
  destruct (open_records _ _ 0 (records_from n 0 (dropZ COBBLESTONE_HEADER_LEN w))) as [qs|]; [|done]. by exists qs.
Qed.

Lemma state_after_nil :
  state_after [] (MkStream (Some input_key) context (layout_of n) None [] 0 0 false false) /\ released [] = [].
Proof.
  pose proof (ciphertext_len_bound n Hn). split; [|done]. split; [|done].
  split; [change (len []) with 0; geometry; lia|]. by intros ?.
Qed.

(** The updates of the slices of a wire and the end *)
Lemma stream_run_spec slices : forall w s out,
  state_after w s ->
  wpst (_ ← foldS (fun _ x => stream_update x) () slices; stream_finish) (s, out ++ released w)
    (fun _ s' => accepted (w ++ concat slices) /\ len (w ++ concat slices) = ciphertext_len (layout_of n) /\
       s'.2 = out ++ released (w ++ concat slices))
    (fun _ s' => (~ accepted (w ++ concat slices) \/ len (w ++ concat slices) <> ciphertext_len (layout_of n)) /\
       exists k, s'.2 = out ++ released (take k (w ++ concat slices))).
Proof.
  induction slices as [|x slices IH]; intros w s out Hs; cbn [foldS concat].
  { do 2 stm_step. rewrite app_nil_r. eapply wpst_mono; [by apply (stream_finish_spec w)|..]; cbn beta.
    - intros _ s' [Hw ->]. cbn [snd]. by destruct Hs as [Hacc _].
    - intros _ s' [Hw ->]. cbn [snd]. split; [by right|]. exists (length w). by rewrite take_ge. }
  rewrite app_assoc. do 2 stm_step. eapply wpst_mono; [by apply stream_update_spec|..]; cbn beta.
  - intros [] [s' t] [Hs' Ht]. cbn [fst snd] in Hs', Ht. subst t. by apply wpst_bind_inv, IH.
  - intros _ [s' t] (Hacc & _ & Ht). cbn [fst snd] in *. split.
    + left. intros Hacc'. apply Hacc. by eapply accepted_prefix.
    + subst t. destruct (len (w ++ x) <=? _).
      * exists (length (w ++ x)). by rewrite take_app_length.
      * exists (length w). by rewrite <-app_assoc, take_app_length.
Qed.
End opener.

Definition open_slices (input_key : Cobblestone256Key) (context : list byte) (ciphertext_len : Z)
    (slices : list (list byte)) : outcome CryptoError () * list byte :=
  match stream_new input_key context ciphertext_len with
  | Ok s =>
      let '(result, (_, plaintext)) := (_ ← foldS (fun _ x => stream_update x) () slices; stream_finish) (s, []) in
      (result, plaintext)
  | Err e => (Err e, [])
  | Panic => (Panic, [])
  end.

(** [open] accepts the messages of the key and context, and returns their plaintext. *)
Lemma open_spec input_key context c :
  is_u64 (len c) ->
  wp (open input_key context c)
    (fun p => exists salt, len salt = COBBLESTONE_SALT_LEN /\ message input_key salt context p = Some c)
    (fun _ => forall salt p, len salt = COBBLESTONE_SALT_LEN -> message input_key salt context p <> Some c).
Proof.
  intros Hc. unfold open, stream_new. pose proof (from_ciphertext_len_spec (len c) Hc) as Hl.
  destruct (from_ciphertext_len (len c)) as [l|e|]; [| |done]; bind_step; cycle 1.
  { intros salt p Hsalt Hm. destruct (message_length _ _ _ _ _ Hsalt Hm) as [Hs Hlen]. by apply (Hl (len p)). }
  destruct Hl as (n & Hn & -> & Hlen). rewrite usize_try_from64_Some by (unfold sealable in Hn; cbn; geometry; lia).
  cbn [ok_or]. bind_step. destruct (state_after_nil input_key context n Hn) as [Hinit Hrel].
  pose proof (stream_update_spec input_key context n Hn [] c _ [] Hinit) as Hup. rewrite Hrel in Hup. cbn [app] in Hup.
  assert (wpst (_ ← stream_update c; stream_finish)
    (MkStream (Some input_key) context (layout_of n) None [] 0 0 false false, [])
    (fun _ s => accepted input_key context n c /\ s.2 = released input_key context n c)
    (fun _ _ => ~ accepted input_key context n c)) as Hrun.
  { stm_step. eapply wpst_mono; [exact Hup|..]; cbn beta.
    - intros _ [s t] [Hs Ht]. cbn [fst snd] in *. eapply wpst_mono; [by apply (stream_finish_spec input_key context n Hn c)|..]; cbn beta.
      + intros _ s' [_ ->]. cbn [snd]. split; [by destruct Hs|done].
      + intros _ s' [Hne _]. congruence.
    - naive_solver. }
  pose proof (fun p => accepted_message input_key context n Hn c p (eq_sym Hlen)) as Hiff. clear Hup.
  apply wpst_run in Hrun as [([] & [s t] & -> & Hacc & Ht)|(e & [s t] & -> & Hacc)]; cbn [snd] in *; bind_step.
  - destruct (proj1 (Hiff t) (conj Hacc Ht)) as (salt & Hsalt & Hp & Hm).
    cbn [layout_of plaintext_len]. rewrite Hp, Z.eqb_refl. cbn [assert_true]. bind_step. by exists salt.
  - intros salt p Hsalt Hm. by apply Hacc, (message_accepted _ _ n Hn salt c p).
Qed.

(** A message has one plaintext. *)
Lemma message_inj input_key context salt salt' p p' c :
  len salt = COBBLESTONE_SALT_LEN -> len salt' = COBBLESTONE_SALT_LEN ->
  message input_key salt context p = Some c -> message input_key salt' context p' = Some c -> p = p'.
Proof.
  intros Hs Hs' Hm Hm'. destruct (message_length _ _ _ _ _ Hs Hm) as [Hn Hlen].
  destruct (message_accepted input_key context _ Hn salt c p Hlen Hs Hm) as [_ ->].
  by destruct (message_accepted input_key context _ Hn salt' c p' Hlen Hs' Hm') as [_ ->].
Qed.

Lemma open_accepted input_key context n w :
  sealable n -> len w = ciphertext_len (layout_of n) -> accepted input_key context n w ->
  open input_key context w = Ok (released input_key context n w).
Proof.
  intros Hn Hw Hacc. pose proof (ciphertext_len_bound n Hn).
  destruct (proj1 (accepted_message input_key context n Hn w _ Hw) (conj Hacc eq_refl)) as (salt & Hs & _ & Hm).
  pose proof (open_spec input_key context w) as Ho. destruct (open input_key context w) as [p|e|].
  - destruct Ho as (salt' & Hs' & Hm'); [unfold is_u64; pose proof (len_nonneg w); lia|]. f_equal. by apply (message_inj input_key context salt' salt _ _ w).
  - by destruct (Ho ltac:(unfold is_u64; pose proof (len_nonneg w); lia) salt (released input_key context n w)).
  - destruct Ho. unfold is_u64. pose proof (len_nonneg w). lia.
Qed.

End open.

End CobblestoneOpen.
