(* ===== verification/CobblestoneInPlace.v ===== *)
(** Opening in place: the routines that compact the plaintext over the ciphertext
    in one buffer return what the incremental opener releases. *)

From Stdlib Require Import ZifyBool.
From S2P Require Import Prelude Machine Blocks Cobblestone CobblestoneSpec CobblestoneOpen.

Local Open Scope Z_scope.

Module CobblestoneInPlace.
Import Machine Blocks Cobblestone CobblestoneSpec CobblestoneOpen.

#[local] Strategy opaque [takeZ dropZ].

(** Moving a piece of a buffer towards its head *)
Lemma copy_within_down {E A} (pre p tail post : list A) a b dest :
  a = len pre -> b = a + len p -> 0 <= dest <= a ->
  exists l, copy_within (E:=E) (pre ++ p ++ tail ++ post) a b dest = Ok l /\
    takeZ (dest + len p) l = takeZ dest pre ++ p /\ dropZ (b + len tail) l = post /\
    len l = len (pre ++ p ++ tail ++ post).
Proof.
  intros -> -> Hd. set (l0 := pre ++ p ++ tail ++ post).
  pose proof (len_nonneg p). pose proof (len_nonneg tail). pose proof (len_nonneg post).
  assert (len l0 = len pre + len p + len tail + len post) as Hl0 by (subst l0; rewrite !len_app; lia).
  exists (takeZ dest l0 ++ p ++ dropZ (dest + len p) l0).
  assert (takeZ dest l0 = takeZ dest pre) as Ht by (subst l0; apply takeZ_app_le; lia).
  assert (len (takeZ dest pre) = dest) as Hlt by (apply len_takeZ; lia).
  assert (dropZ (len pre + len p + len tail) l0 = post) as Hpost.
  { subst l0. rewrite !app_assoc. apply dropZ_app. rewrite !len_app. lia. }
  assert (get_range l0 (len pre) (len pre + len p) = Some p) as Hget by (subst l0; by apply get_range_app).
  clearbody l0. unfold copy_within, index_range. rewrite Hget. cbn [unwrap]. bind_step.
  rewrite (proj2 (Z.leb_le _ _)) by lia.
  replace (dest + (len pre + len p - len pre)) with (dest + len p) by lia. rewrite Ht. split; [done|].
  rewrite (app_assoc (takeZ dest pre)). split; [apply takeZ_app; rewrite len_app; lia|].
  split; [|rewrite !len_app, len_dropZ; lia].
  rewrite <-Hpost. rewrite <-(take_dropZ (len pre + len tail - dest) (dropZ (dest + len p) l0)).
  rewrite dropZ_dropZ by lia. replace (dest + len p + (len pre + len tail - dest)) with (len pre + len p + len tail) by lia.
  rewrite app_assoc. apply dropZ_app. rewrite !len_app, Hlt, len_takeZ by (rewrite len_dropZ; lia). lia.
Qed.

(** The calls of the observers of a successful opening *)
Definition trace_of (ps : list (list byte)) : list observation :=
  ps ≫= fun p => [BeforeOpen; AfterOpen (len p)].

Section in_place.
Context `{Provider, !ProviderOk}.
Context (n : Z) (key : Aes256GcmKey) (base : list byte).
Hypothesis Hn : sealable n.

(** A record opened within a buffer and moved down: [out] is the plaintext so far,
    [y] the bytes that follow. *)
Lemma open_within_spec i start end_ off b out r y :
  0 <= i <= n / COBBLESTONE_CHUNK_LEN -> 0 <= start -> dropZ start b = r ++ y -> start <= len b ->
  len r = record_len n i -> end_ = start + len r -> takeZ off b = out -> off = len out -> off <= start ->
  match open_record key base i r with
  | Some p => len r = len p + AES_GCM_TAG_LEN /\
      exists b1, open_within (MkOpener key base) (layout_of n) i start end_ r b = (Ok (len p), b1) /\
        (off = start -> takeZ (off + len p) b1 = out ++ p /\ dropZ end_ b1 = y /\ len b1 = len b) /\
        exists b2, copy_within (E:=CryptoError) b1 start (start + len p) off = Ok b2 /\
          takeZ (off + len p) b2 = out ++ p /\ dropZ end_ b2 = y /\ len b2 = len b
  | None => exists b1, open_within (MkOpener key base) (layout_of n) i start end_ r b = (Err CryptoError_, b1)
  end.
Proof.
  intros Hi Hstart Hdrop Hlb Hr -> Hout Hoff Hle. pose proof (open_chunk_spec n key base i r Hn Hi Hr) as Hop.
  unfold open_within. destruct (open_record key base i r) as [p|]; cycle 1.
  { destruct Hop as (r' & ->). by eexists. }
  destruct Hop as (tail & -> & Ht & Hlr). split; [done|].
  assert (dropZ (start + len r) b = y) as Hy.
  { rewrite <-dropZ_dropZ by (pose proof (len_nonneg r); lia). rewrite Hdrop. by apply dropZ_app. }
  assert (len (takeZ start b) = start) as Hlt by (apply len_takeZ; lia).
  assert (len b = start + len r + len y) as Hlen.
  { rewrite <-(take_dropZ start b), Hdrop, !len_app. lia. }
  assert (takeZ off (takeZ start b) = out) as Hout'.
  { rewrite <-(take_dropZ start b) in Hout. rewrite takeZ_app_le in Hout by lia. done. }
  rewrite Hy, <-app_assoc. eexists. split; [done|]. split.
  - intros Heq. rewrite takeZ_all in Hout' by lia. rewrite Hout'.
    split; [|split].
    + rewrite app_assoc. apply takeZ_app. rewrite len_app. lia.
    + rewrite !app_assoc. apply dropZ_app. rewrite !len_app. lia.
    + rewrite !len_app. lia.
  - destruct (copy_within_down (E:=CryptoError) (takeZ start b) p tail y start (start + len p) off)
      as (b2 & -> & Ht2 & Hd2 & Hl2); [lia|lia|pose proof (len_nonneg out); lia|].
    exists b2. split; [done|]. split; [by rewrite Ht2, Hout'|]. split; [|rewrite Hl2, !len_app; lia].
    rewrite <-Hd2. f_equal. lia.
Qed.

(** The record of a buffer at an offset *)
Lemma get_record (b : list byte) start r y :
  0 <= start <= len b -> dropZ start b = r ++ y -> get_range b start (start + len r) = Some r.
Proof.
  intros Hs Hd. rewrite <-(take_dropZ start b), Hd. apply get_range_app; rewrite len_takeZ; lia.
Qed.

Lemma record_start_bound i :
  0 <= i <= n / COBBLESTONE_CHUNK_LEN ->
  0 <= COBBLESTONE_HEADER_LEN + i * COBBLESTONE_FULL_ENCRYPTED_CHUNK_LEN /\
  COBBLESTONE_HEADER_LEN + i * COBBLESTONE_FULL_ENCRYPTED_CHUNK_LEN + record_len n i <= ciphertext_len (layout_of n).
Proof.
  intros Hi. rewrite ciphertext_len_remaining. pose proof (remaining_record n Hn i Hi). pose proof (terminal_range n Hn).
  unfold remaining in *. geometry. lia.
Qed.

Lemma open_owned_record_spec i off b out r y v t :
  let start := COBBLESTONE_HEADER_LEN + i * COBBLESTONE_FULL_ENCRYPTED_CHUNK_LEN in
  0 <= i <= n / COBBLESTONE_CHUNK_LEN -> dropZ start b = r ++ y -> start <= len b ->
  len r = record_len n i -> takeZ off b = out -> off = len out -> off <= start ->
  wpst (open_owned_record (layout_of n) (MkOpener key base) (b, off) i) (v, t)
    (fun acc s => exists p b', open_record key base i r = Some p /\ acc = (b', off + len p) /\
       takeZ (off + len p) b' = out ++ p /\ dropZ (start + len r) b' = y /\ len b' = len b /\
       len r = len p + AES_GCM_TAG_LEN /\ s = (v, t ++ [BeforeOpen; AfterOpen (len p)]))
    (fun _ s => open_record key base i r = None /\ s.1 = v).
Proof.
  intros start Hi Hdrop Hlb Hr Hout Hoff Hle. destruct (record_start_bound i Hi) as [Hs0 HL]. fold start in Hs0, HL.
  pose proof (ciphertext_len_bound n Hn) as HM.
  unfold open_owned_record, observe. do 2 stm_step. rewrite (record_range n Hn i Hi). fold start. do 3 stm_step. cbn [fst].
  rewrite usize_try_from64_Some by (pose proof (record_len_range n Hn i); geometry; lia). do 3 stm_step. cbn [snd].
  rewrite usize_try_from64_Some by lia. do 5 stm_step. rewrite <-Hr. rewrite (get_record b start r y) by (lia || done).
  stm_step.
  pose proof (open_within_spec i start (start + len r) off b out r y) as Hop.
  destruct (open_record key base i r) as [p|]; cycle 1.
  { destruct Hop as (b1 & ->); [done..|]. do 2 stm_step. done. }
  destruct Hop as (Hlr & b1 & -> & _ & b2 & Hcopy & Ht2 & Hd2 & Hl2); [done..|].
  pose proof (len_nonneg p). pose proof (len_nonneg out). assert (0 <= AES_GCM_TAG_LEN) by done.
  do 5 stm_step. do 2 stm_step. rewrite add64_Ok by lia. do 3 stm_step. rewrite Hcopy. do 3 stm_step.
  rewrite checked_add64_Some by lia. do 2 stm_step. exists p, b2. cbn [fst snd id]. by rewrite <-app_assoc.
Qed.

(** The bytes of the records from [i] to the last *)
Definition all_records (i : Z) (y : list byte) : Prop :=
  (0 <= i <= n / COBBLESTONE_CHUNK_LEN /\ len y = remaining n i) \/ (i = n / COBBLESTONE_CHUNK_LEN + 1 /\ y = []).

(** They are none, or a record and the others. *)
Lemma all_records_cases i y :
  all_records i y ->
  (i = n / COBBLESTONE_CHUNK_LEN + 1 /\ records_from n i y = []) \/
  (0 <= i <= n / COBBLESTONE_CHUNK_LEN /\ exists r y', y = r ++ y' /\ len r = record_len n i /\
     all_records (i + 1) y' /\ records_from n i y = r :: records_from n (i + 1) y').
Proof.
  pose proof (terminal_range n Hn) as [Hq Ht]. intros [[Hi Hy]|[-> ->]].
  - right. split; [done|]. exists (takeZ (record_len n i) y), (dropZ (record_len n i) y).
    pose proof (remaining_record n Hn i Hi). pose proof (record_len_range n Hn i).
    assert (len (takeZ (record_len n i) y) = record_len n i) as Hr by (apply len_takeZ; geometry; lia).
    pose proof (take_dropZ (record_len n i) y) as Heq. split; [done|]. split; [done|].
    split; [|rewrite <-Heq at 1; apply (records_from_cons n Hn); [done|done|rewrite Heq; lia]].
    assert (len (dropZ (record_len n i) y) = remaining n i - record_len n i) as Hl by (rewrite len_dropZ; geometry; lia).
    unfold all_records. rewrite Hl. unfold record_len, remaining in *.
    destruct (Z.ltb_spec i (n / COBBLESTONE_CHUNK_LEN)); [left; geometry; lia|right].
    split; [lia|]. apply len_nil_inv. rewrite Hl. geometry. lia.
  - left. split; [done|]. apply records_from_short; change (len []) with 0; unfold remaining; geometry; lia.
Qed.

Lemma open_owned_loop_spec k : forall i off b out y v t,
  let start := COBBLESTONE_HEADER_LEN + i * COBBLESTONE_FULL_ENCRYPTED_CHUNK_LEN in
  k = Z.to_nat (n / COBBLESTONE_CHUNK_LEN + 1 - i) -> all_records i y -> (y <> [] -> dropZ start b = y /\ start <= len b) ->
  takeZ off b = out -> off = len out -> off <= start ->
  let rs := records_from n i y in
  wpst (foldS (open_owned_record (layout_of n) (MkOpener key base)) (b, off)
          (seqZ i (n / COBBLESTONE_CHUNK_LEN + 1 - i))) (v, t)
    (fun acc s => exists ps, open_records key base i rs = Some ps /\ takeZ acc.2 acc.1 = out ++ concat ps /\
       s = (v, t ++ trace_of ps))
    (fun _ s => open_records key base i rs = None /\ s.1 = v).
Proof.
  induction k as [|k IH]; intros i off b out y v t start Hk Hall Hdrop Hout Hoff Hle rs;
    destruct (all_records_cases i y Hall) as [[-> Hrs]|(Hi & r & y' & Heq & Hr & Hall' & Hrs)]; try lia.
  { rewrite seqZ_nil by lia. cbn [foldS]. stm_step. exists []. subst rs. rewrite Hrs.
    cbn [concat fst snd trace_of]. unfold trace_of. rewrite !app_nil_r. done. }
  subst rs. rewrite Hrs. pose proof (record_len_range n Hn i) as Hrl.
  destruct Hdrop as [Hdrop Hlb]. { intros ->. destruct r; [change (len []) with 0 in Hr; geometry; lia|done]. }
  rewrite seqZ_cons by lia. cbn [foldS]. stm_step.
  eapply wpst_mono; [apply (open_owned_record_spec i off b out r y'); [done|by rewrite <-Heq|done..]|..]; cbn beta; cycle 1.
  { intros _ s [Hnone Hv]. cbn [open_records]. by rewrite Hnone. }
  intros acc s (p & b' & Hp & -> & Ht & Hd & Hl & Hlr & ->). cbn [open_records]. rewrite Hp. cbn [mbind option_bind].
  replace (Z.pred (n / COBBLESTONE_CHUNK_LEN + 1 - i)) with (n / COBBLESTONE_CHUNK_LEN + 1 - Z.succ i) by lia.
  rewrite <-Z.add_1_r in *.
  assert (len b = start + len r + len y') as Hlen.
  { rewrite <-(take_dropZ start b), Hdrop, Heq, !len_app, len_takeZ; [lia|].
    pose proof (record_start_bound i Hi). lia. }
  pose proof (len_nonneg y'). pose proof (len_nonneg p).
  eapply wpst_mono; [apply (IH (i + 1) (off + len p) b' (out ++ p) y')|..]; cbn beta.
  - lia.
  - done.
  - intros Hy. assert (i < n / COBBLESTONE_CHUNK_LEN) as Hlt.
    { destruct Hall' as [[? _]|[_ ->]]; [lia|done]. }
    unfold record_len in Hr. rewrite (proj2 (Z.ltb_lt _ _)) in Hr by done.
    replace (COBBLESTONE_HEADER_LEN + (i + 1) * COBBLESTONE_FULL_ENCRYPTED_CHUNK_LEN) with (start + len r) by lia.
    split; [done|lia].
  - done.
  - rewrite len_app. lia.
  - assert (0 <= AES_GCM_TAG_LEN) by done. subst start. lia.
  - intros acc s (ps & Hps & Hacc & ->). exists (p :: ps). rewrite Hps. split; [done|]. cbn [concat]. unfold trace_of.
    rewrite bind_cons. rewrite Hacc, <-!app_assoc. done.
  - intros _ s [Hnone Hv]. by rewrite Hnone.
Qed.

(** A record of a window *)
Lemma open_window_record_spec context i c b inp off out r y t :
  0 <= i <= n / COBBLESTONE_CHUNK_LEN -> c = COBBLESTONE_HEADER_LEN + i * COBBLESTONE_FULL_ENCRYPTED_CHUNK_LEN ->
  0 <= inp <= len b -> is_u64 (len b) -> dropZ inp b = r ++ y -> len r = record_len n i ->
  takeZ off b = out -> off = len out -> off <= inp ->
  wpst (open_window_record (len b) b inp off) (stream_at n context key base [] c i, t)
    (fun acc s => exists p b', open_record key base i r = Some p /\ acc = (b', inp + len r, off + len p) /\
       takeZ (off + len p) b' = out ++ p /\ dropZ (inp + len r) b' = y /\ len b' = len b /\
       len r = len p + AES_GCM_TAG_LEN /\
       s = (stream_at n context key base [] (c + len r) (i + 1), t ++ [BeforeOpen; AfterOpen (len p)]))
    (fun _ s => open_record key base i r = None /\ stream_failed s.1 = true).
Proof.
  intros Hi Hc Hinp Hb Hdrop Hr Hout Hoff Hle. unfold is_u64 in Hb.
  assert (inp + len r + len y = len b) as Hlen.
  { pose proof (f_equal len (take_dropZ inp b)) as Hl. rewrite Hdrop, !len_app, len_takeZ in Hl; lia. }
  pose proof (len_nonneg y). pose proof (record_len_range n Hn i) as Hrl. pose proof (terminal_range n Hn) as [Hq _].
  pose proof (len_nonneg r). unfold open_window_record, observe_stream, observe. do 4 stm_step. stream_simpl.
  cbn [stream_at stream_layout stream_next_chunk]. rewrite (record_range n Hn i Hi), <-Hc, <-Hr. do 3 stm_step. cbn [fst snd].
  rewrite sub64_Ok, Z.add_simpl_l by lia. do 3 stm_step. rewrite usize_try_from64_Some by (geometry; lia).
  do 3 stm_step. rewrite checked_add64_Some by lia. do 1 stm_step. cbn [stream_at stream_consumed].
  rewrite (proj2 (Z.eqb_eq _ _)), (proj2 (Z.ltb_ge _ _)) by lia. cbn [negb orb]. repeat stm_step.
  cbn [stream_at stream_opener]. repeat stm_step. unfold index_range. rewrite (get_record b inp r y) by done. cbn [unwrap]. stm_step.
  pose proof (open_within_spec i inp (inp + len r) off b out r y) as Hop. cbn [stream_at stream_opener stream_layout stream_next_chunk].
  destruct (open_record key base i r) as [p|]; cycle 1.
  { destruct Hop as (b1 & ->); [done || lia..|]. do 2 stm_step. cbn [wp]. by stream_simpl. }
  destruct Hop as (Hlr & b1 & -> & Heq & b2 & Hcopy & Ht2 & Hd2 & Hl2); [done || lia..|].
  pose proof (len_nonneg p). pose proof (len_nonneg out). assert (0 <= AES_GCM_TAG_LEN) by done.
  do 5 stm_step. stm_step.
  assert (exists b', takeZ (off + len p) b' = out ++ p /\ dropZ (inp + len r) b' = y /\ len b' = len b /\
    (if off =? inp then mret b1 else plaintext_end ← liftS (add64 inp (len p));
       liftS (copy_within b1 inp plaintext_end off)) = liftS (S:=Cobblestone256StreamOpener * list observation) (E:=CryptoError) (Ok b'))
    as (b' & Ht' & Hd' & Hl' & ->).
  { destruct (Z.eqb_spec off inp) as [Ho|Ho]; [exists b1; by destruct (Heq Ho) as (? & ? & ?)|].
    exists b2. rewrite add64_Ok by lia. unfold mbind, stm_bind, liftS. by rewrite Hcopy. }
  do 4 stm_step. rewrite checked_add64_Some by lia. do 5 stm_step. rewrite checked_add64_Some by (geometry; lia).
  repeat stm_step. exists p, b'. unfold stream_at. stream_simpl. rewrite <-app_assoc. by repeat split.
Qed.

Lemma at_record_prev i r y :
  0 <= i <= n / COBBLESTONE_CHUNK_LEN -> len r = record_len n i -> at_record n (i + 1) [] y -> at_record n i [] (r ++ y).
Proof.
  intros Hi Hr Hy. left. pose proof (remaining_record n Hn i Hi) as Hrem. pose proof (terminal_range n Hn) as [Hq Ht].
  pose proof (record_len_range n Hn i). cbn [app]. change (len []) with 0. rewrite len_app.
  split; [done|]. split; [geometry; lia|]. destruct Hy as [(Hi' & _ & Hle)|(_ & _ & ->)].
  - unfold record_len, remaining in *. cbn [app] in Hle. rewrite (proj2 (Z.ltb_lt _ _)) in Hr by lia. geometry. lia.
  - change (len []) with 0. lia.
Qed.

(** A window is read whole when it ends with a record and all its records are authentic. *)
Definition window_ok (i : Z) (x : list byte) : Prop :=
  at_record n i [] x /\ partial_from n i x = [] /\ is_Some (open_records key base i (records_from n i x)).

Lemma window_ok_cons i r y p :
  0 <= i <= n / COBBLESTONE_CHUNK_LEN -> len r = record_len n i -> open_record key base i r = Some p ->
  window_ok i (r ++ y) <-> window_ok (i + 1) y.
Proof.
  intros Hi Hr Hp. unfold window_ok.
  assert (at_record n i [] (r ++ y) <-> at_record n (i + 1) [] y) as Hat.
  { split; [intros [(_ & _ & Hle)|(? & _)]; [by eapply at_record_next|lia]|by apply at_record_prev]. }
  split; intros (Ha & Hpart & [ps Hps]); apply Hat in Ha as Ha'.
  - destruct Ha as [(_ & _ & Hle)|(? & _)]; [|lia]. cbn [app] in Hle.
    destruct (records_from_cons n Hn i r y Hi Hr Hle) as [Hrec Hp']. rewrite Hrec in Hps. rewrite Hp' in Hpart.
    cbn [open_records] in Hps. rewrite Hp in Hps. cbn [mbind option_bind] in Hps.
    destruct (open_records _ _ (i + 1) _); [|done]. by repeat split.
  - destruct Ha' as [(_ & _ & Hle)|(? & _)]; [|lia]. cbn [app] in Hle.
    destruct (records_from_cons n Hn i r y Hi Hr Hle) as [Hrec Hp']. rewrite Hrec, Hp'.
    cbn [open_records]. rewrite Hp, Hps. split; [by apply Hat|]. by split.
Qed.

(** No record is left, or the window ends within one. *)
Lemma open_window_record_fails context i c b inp off t :
  (i = n / COBBLESTONE_CHUNK_LEN + 1 \/
   (0 <= i <= n / COBBLESTONE_CHUNK_LEN /\
    c = COBBLESTONE_HEADER_LEN + i * COBBLESTONE_FULL_ENCRYPTED_CHUNK_LEN /\ len b - inp < record_len n i)) ->
  wpst (open_window_record (len b) b inp off) (stream_at n context key base [] c i, t)
    (fun _ _ => False) (fun _ s => stream_failed s.1 = true).
Proof.
  pose proof (terminal_range n Hn) as [Hq _]. pose proof (record_len_range n Hn i) as Hrl.
  intros Hcase. unfold open_window_record. do 4 stm_step. cbn [fst stream_at stream_layout stream_next_chunk].
  destruct Hcase as [->|(Hi & Hc & Hshort)].
  { rewrite ciphertext_range_spec by (done || lia). cbn zeta.
    by rewrite (proj2 (Z.ltb_ge _ _)), (proj2 (Z.eqb_neq _ _)) by lia. }
  rewrite (record_range n Hn i Hi), <-Hc. do 3 stm_step. cbn [fst snd]. rewrite sub64_Ok, Z.add_simpl_l by (geometry; lia).
  do 3 stm_step. rewrite usize_try_from64_Some by (geometry; lia). do 3 stm_step.
  unfold checked_add64. destruct (inp + record_len n i <=? MAX64); [|done]. stm_step. cbn [stream_at stream_consumed].
  rewrite (proj2 (Z.eqb_eq _ _)), (proj2 (Z.ltb_lt _ _)) by lia. done.
Qed.

Lemma open_window_records_spec context fuel : forall i c b inp off out x t,
  (length x < fuel)%nat -> 0 <= i <= n / COBBLESTONE_CHUNK_LEN + 1 ->
  (i <= n / COBBLESTONE_CHUNK_LEN -> c = COBBLESTONE_HEADER_LEN + i * COBBLESTONE_FULL_ENCRYPTED_CHUNK_LEN) ->
  0 <= inp <= len b -> is_u64 (len b) -> dropZ inp b = x -> takeZ off b = out -> off = len out -> off <= inp ->
  wpst (open_window_records fuel (len b) b inp off) (stream_at n context key base [] c i, t)
    (fun res s => window_ok i x /\ exists ps, open_records key base i (records_from n i x) = Some ps /\
       res = out ++ concat ps /\
       s = (stream_at n context key base [] (c + len x) (i + len (records_from n i x)), t ++ trace_of ps))
    (fun _ s => ~ window_ok i x /\ stream_failed s.1 = true).
Proof.
  induction fuel as [|fuel IH]; intros i c b inp off out x t Hfuel Hi Hc Hinp Hb Hx Hout Hoff Hle; [lia|].
  assert (len x = len b - inp) as Hlx by (subst x; apply len_dropZ; lia).
  pose proof (terminal_range n Hn) as [Hq _]. pose proof (record_len_range n Hn i) as Hrl. cbn [open_window_records].
  destruct (Z.ltb_spec inp (len b)) as [Hlt|Hge]; cycle 1.
  { assert (x = []) as Hnil by (apply len_nil_inv; lia). rewrite Hnil. stm_step.
    assert (at_record n i [] []) as Hat.
    { destruct (decide (i = n / COBBLESTONE_CHUNK_LEN + 1)); [by right|left].
      split; [lia|]. change (len ([] ++ [])) with 0. change (len []) with 0.
      pose proof (remaining_record n Hn i ltac:(lia)). geometry. lia. }
    destruct (at_record_idle n Hn i [] Hat) as [Hr0 Hp0]. unfold window_ok. rewrite Hr0, Hp0.
    split; [by repeat split|]. exists []. unfold trace_of. cbn. change (len []) with 0.
    by rewrite !app_nil_r, !Z.add_0_r. }
  stm_step. destruct (decide (i = n / COBBLESTONE_CHUNK_LEN + 1 \/ len x < record_len n i)) as [Hend|Hrec].
  { eapply wpst_mono; [apply open_window_record_fails; destruct Hend; [by left|]|done|]; cbn beta.
    { destruct (decide (i = n / COBBLESTONE_CHUNK_LEN + 1)); [by left|right].
      split; [lia|]. split; [apply Hc; lia|lia]. }
    intros _ s Hf. split; [|done]. intros (Hat & Hpart & _). cbn [app] in *.
    destruct Hat as [(Hi' & _ & Hle')|(_ & _ & ->)]; [|change (len []) with 0 in Hlx; lia]. cbn [app] in Hle'.
    pose proof (remaining_record n Hn i Hi'). destruct (records_from_short n i x) as [_ Hp']; [lia..|].
    rewrite Hp' in Hpart. subst. rewrite Hpart in Hlx. change (len []) with 0 in Hlx. lia. }
  assert (0 <= i <= n / COBBLESTONE_CHUNK_LEN) as Hi' by lia. specialize (Hc ltac:(lia)).
  pose proof (take_dropZ (record_len n i) x) as Heq.
  assert (len (takeZ (record_len n i) x) = record_len n i) as Hr by (apply len_takeZ; geometry; lia).
  set (r := takeZ (record_len n i) x) in *. set (y := dropZ (record_len n i) x) in *.
  assert (len x = len r + len y) as Hly by (by rewrite <-len_app, Heq). pose proof (len_nonneg y).
  eapply wpst_mono; [apply (open_window_record_spec context i c b inp off out r y); by try rewrite Heq|..]; cbn beta; cycle 1.
  { intros _ s [Hnone Hf]. split; [|done]. rewrite <-Heq. intros (Hat & _ & [ps Hps]).
    destruct Hat as [(_ & _ & Hle')|(? & _)]; [|lia]. cbn [app] in Hle'.
    destruct (records_from_cons n Hn i r y Hi' Hr Hle') as [Hrec' _]. rewrite Hrec' in Hps. cbn [open_records] in Hps.
    by rewrite Hnone in Hps. }
  intros acc s (p & b' & Hp & -> & Ht & Hd & Hl & Hlr & ->). pose proof (window_ok_cons i r y p Hi' Hr Hp) as Hiff.
  rewrite Heq in Hiff. pose proof (len_nonneg p). assert (0 < AES_GCM_TAG_LEN) by done. rewrite <-Hl.
  eapply wpst_mono; [apply (IH (i + 1) (c + len r) b' (inp + len r) (off + len p) (out ++ p) y)|..]; cbn beta.
  - unfold len in *. lia.
  - lia.
  - intros Hlt'. rewrite Hr. unfold record_len. rewrite (proj2 (Z.ltb_lt _ _)) by lia. lia.
  - lia.
  - by rewrite Hl.
  - done.
  - done.
  - rewrite len_app. lia.
  - lia.
  - intros res s (Hok & ps & Hps & -> & ->). apply Hiff in Hok as Hok'. split; [done|].
    destruct Hok' as ([(_ & _ & Hle')|(? & _)] & _ & _); [|lia]. cbn [app] in Hle'. rewrite <-Heq in Hle' |- *.
    destruct (records_from_cons n Hn i r y Hi' Hr Hle') as [-> _]. cbn [open_records]. rewrite Hp. cbn [mbind option_bind].
    rewrite Hps. exists (p :: ps). cbn [concat]. unfold trace_of. rewrite bind_cons, len_cons, len_app, <-!app_assoc, !Z.add_assoc.
    by repeat split.
  - intros _ s [Hno Hf]. split; [|done]. by rewrite Hiff.
Qed.

End in_place.

Section whole.
Context `{Provider, !ProviderOk}.

(** The layout and the header of the ciphertext are valid: its records will be opened. *)
Definition header_valid (input_key : Cobblestone256Key) (context c : list byte) : bool :=
  is_ok (from_ciphertext_len (len c)) && is_ok (from_header input_key context (takeZ COBBLESTONE_HEADER_LEN c)).

Lemma open_owned_spec input_key context c t :
  is_u64 (len c) ->
  wpst (open_owned_with_observers input_key context) (c, t)
    (fun p s => (exists salt, len salt = COBBLESTONE_SALT_LEN /\ message input_key salt context p = Some c) /\
       s = ([], t ++ trace_of (chunks_of p)))
    (fun _ s => (forall salt p, len salt = COBBLESTONE_SALT_LEN -> message input_key salt context p <> Some c) /\
       if header_valid input_key context c then s.1 = [] else s = (c, t)).
Proof.
  intros Hc. unfold open_owned_with_observers, header_valid. do 4 stm_step. cbn [fst].
  pose proof (from_ciphertext_len_spec (len c) Hc) as Hl.
  destruct (from_ciphertext_len (len c)) as [l|e|]; [| |done]; cbn [is_ok andb wp]; cycle 1.
  { split; [|done]. intros salt p Hsalt Hm. destruct (message_length _ _ _ _ _ Hsalt Hm) as [Hs Hlen].
    by apply (Hl (len p)). }
  destruct Hl as (n & Hn & -> & Hlen). pose proof (ciphertext_len_bound n Hn) as HL.
  set (h := takeZ COBBLESTONE_HEADER_LEN c). set (y := dropZ COBBLESTONE_HEADER_LEN c).
  assert (len h = COBBLESTONE_HEADER_LEN) as Hh by (apply len_takeZ; geometry; lia).
  assert (len y = remaining n 0) as Hy.
  { subst y. rewrite len_dropZ by (geometry; lia). rewrite <-Hlen, ciphertext_len_remaining. lia. }
  do 2 stm_step. assert (get_range c 0 COBBLESTONE_HEADER_LEN = Some h) as ->.
  { rewrite <-(take_dropZ COBBLESTONE_HEADER_LEN c). by apply (get_range_app [] h y). }
  do 3 stm_step.
  pose proof (fun p => accepted_message input_key context n Hn c p (eq_sym Hlen)) as Hiff.
  pose proof (fun salt p => message_accepted input_key context n Hn salt c p (eq_sym Hlen)) as Hmsg.
  unfold accepted, released, complete in Hiff, Hmsg. fold h y in Hiff, Hmsg.
  rewrite (proj2 (Z.ltb_ge _ _)) in Hiff, Hmsg by lia.
  pose proof (from_header_spec input_key context h) as Hspec.
  destruct (from_header input_key context h) as [o|e|] eqn:Ho; [| |done]; cbn [is_ok wp]; cycle 1.
  { split; [|done]. intros salt p Hsalt Hm. destruct (Hmsg salt p Hsalt Hm) as [[_ (o & ps & ? & _)] _]; [lia|done]. }
  clear Hspec. do 4 stm_step. cbn [layout_of full_chunks]. unfold chunk_count. pose proof (terminal_range n Hn) as [Hq Ht].
  cbn [layout_of full_chunks]. rewrite add64_Ok by (geometry; lia). do 2 stm_step. destruct o as [key base].
  replace (n / COBBLESTONE_CHUNK_LEN + 1) with (n / COBBLESTONE_CHUNK_LEN + 1 - 0) by lia.
  eapply wpst_mono; [eapply (open_owned_loop_spec n key base Hn _ 0 0 c [] y); [done|left; split; [lia|done]| |done..]|..].
  - intros _. rewrite Z.mul_0_l, Z.add_0_r. split; [done|lia].
  - intros [b off] s (ps & Hps & Hb & ->). cbn [fst snd app] in *. stm_step. cbn [opener_key opener_base_nonce] in *.
    assert (exists salt, len salt = COBBLESTONE_SALT_LEN /\ len (takeZ off b) = n /\
      message input_key salt context (takeZ off b) = Some c) as (salt & Hsalt & Hp & Hm).
    { apply Hiff. split; [split; [lia|]; intros _; by eexists _, ps|].
      by rewrite (open_records_authentic _ _ _ _ _ Hps), Hb. }
    split; [by exists salt|]. do 3 f_equal. apply open_seal_records in Hps.
    destruct (records_from_all n y Hn Hy) as (Hrec & _ & _ & Hbs & _ & Hlr). rewrite Hrec in Hps.
    destruct (chunks_of_records _ _ _ _ _ Hps Hbs) as [Hch _]; [lia|]. by rewrite Hb, Hch.
  - intros e s [Hnone Hv]. split; [|done]. intros salt p Hsalt Hm.
    destruct (Hmsg salt p Hsalt Hm) as [[_ (o & ps & Ho' & Hps)] _]; [lia|]. injection Ho' as <-.
    cbn [opener_key opener_base_nonce] in Hps. by rewrite Hnone in Hps.
Qed.

(** ** Windows *)

Section windows.
Context (input_key : Cobblestone256Key) (context : list byte) (n : Z).
Hypothesis Hn : sealable n.

(** [x] is a unit that may follow the wire [w]: the header first, then whole records. *)
Definition window_of (w x : list byte) : Prop :=
  if len w <? COBBLESTONE_HEADER_LEN then w = [] /\ len x = COBBLESTONE_HEADER_LEN
  else x <> [] /\ partial_from n 0 (dropZ COBBLESTONE_HEADER_LEN w) = [] /\
       partial_from n 0 (dropZ COBBLESTONE_HEADER_LEN (w ++ x)) = [].

Lemma open_header_owned_spec {T} x (t : T) :
  wpst (open_header_owned x)
    (MkStream (Some input_key) context (layout_of n) None [] 0 0 false false, t)
    (fun p s' => p = [] /\ len x = COBBLESTONE_HEADER_LEN /\ state_after input_key context n x s'.1 /\
       released input_key context n x = [])
    (fun _ s' => stream_failed s'.1 = true /\ ~ (len x = COBBLESTONE_HEADER_LEN /\ accepted input_key context n x)).
Proof.
  unfold open_header_owned, stream_fail, fail_with. do 2 stm_step. cbn [fst stream_consumed].
  destruct (Z.eqb_spec (len x) COBBLESTONE_HEADER_LEN) as [Hx|Hx]; cbn [Z.eqb negb orb]; [|split; [done|]; by intros [? _]].
  unfold take_input_key. repeat stm_step. stream_simpl. repeat stm_step. stream_simpl.
  pose proof (from_header_spec input_key context x) as Hspec. pose proof (takeZ_all COBBLESTONE_HEADER_LEN x ltac:(lia)) as Ht.
  destruct (from_header input_key context x) as [o|e|] eqn:Ho; [| |done].
  - repeat stm_step. stream_simpl. destruct (accepted_header input_key context n Hn x o Hx Ho) as (Hc & Hp & Hacc & Hrel).
    split; [done|]. split; [done|]. split; [|done]. split; [done|]. rewrite (proj2 (Z.ltb_ge _ _)) by lia.
    exists o. rewrite Ht, Hc, Hp, Hx. destruct o. done.
  - cbn [wp]. split; [done|]. intros [_ [_ Hacc]]. destruct Hacc as (o & ps & Ho' & _); [lia|]. by rewrite Ht, Ho in Ho'.
Qed.

(** At the end of a record *)
Lemma boundary y :
  len y <= remaining n 0 -> partial_from n 0 y = [] ->
  let i := len (records_from n 0 y) in
  0 <= i <= n / COBBLESTONE_CHUNK_LEN + 1 /\
  (i <= n / COBBLESTONE_CHUNK_LEN -> len y = i * COBBLESTONE_FULL_ENCRYPTED_CHUNK_LEN) /\
  (forall x, at_record n i [] x -> len (y ++ x) <= remaining n 0).
Proof.
  intros Hle Hp. cbn zeta. pose proof (terminal_range n Hn) as [Hq Ht].
  destruct (Z.eqb_spec (len y) (remaining n 0)) as [Hall|Hall].
  - destruct (records_from_all n y Hn Hall) as (-> & _ & _ & _ & Hlb & _). rewrite len_app, Hlb. change (len [_]) with 1.
    split; [lia|]. split; [lia|]. intros x [(? & _)|(_ & _ & ->)]; [lia|]. by rewrite app_nil_r.
  - unfold records_from, partial_from in *. rewrite (proj2 (Z.eqb_neq _ _)) in * by done. rewrite app_nil_r.
    pose proof (len_blocks _ full_pos y) as Hlb. pose proof (len_rest_mod _ full_pos y) as Hlr. rewrite Hp in Hlr.
    change (len []) with 0 in Hlr. pose proof (Z.div_mod (len y) COBBLESTONE_FULL_ENCRYPTED_CHUNK_LEN ltac:(done)) as Hdm.
    rewrite <-Hlr, <-Hlb in Hdm. set (i := len (blocks COBBLESTONE_FULL_ENCRYPTED_CHUNK_LEN y)) in *.
    pose proof (len_nonneg y). unfold remaining in *. split; [geometry; lia|]. split; [lia|].
    intros x [(_ & _ & Hx)|(? & _ & ->)]; [|by rewrite app_nil_r]. cbn [app] in Hx. unfold remaining in Hx.
    rewrite len_app. geometry. lia.
Qed.

(** The records behind the header, as a window *)
Lemma accepted_window o w x :
  from_header input_key context (takeZ COBBLESTONE_HEADER_LEN w) = Ok o -> COBBLESTONE_HEADER_LEN <= len w ->
  accepted input_key context n w -> partial_from n 0 (dropZ COBBLESTONE_HEADER_LEN w) = [] ->
  let i := len (complete n w) in
  (accepted input_key context n (w ++ x) /\ partial_from n 0 (dropZ COBBLESTONE_HEADER_LEN (w ++ x)) = [] <->
   window_ok n (opener_key o) (opener_base_nonce o) i x) /\
  (forall ps, window_ok n (opener_key o) (opener_base_nonce o) i x ->
     open_records (opener_key o) (opener_base_nonce o) i (records_from n i x) = Some ps ->
     complete n (w ++ x) = complete n w ++ records_from n i x /\
     released input_key context n (w ++ x) = released input_key context n w ++ concat ps).
Proof.
  intros Ho Hw [Hle Hacc] Hpart. destruct (Hacc Hw) as (o' & ps0 & Ho' & Hps0). rewrite Ho in Ho'. injection Ho' as <-.
  pose proof (ciphertext_len_remaining n) as HL. pose proof (len_nonneg x).
  assert (takeZ COBBLESTONE_HEADER_LEN (w ++ x) = takeZ COBBLESTONE_HEADER_LEN w) as Ht by (apply takeZ_app_le; lia).
  assert (dropZ COBBLESTONE_HEADER_LEN (w ++ x) = dropZ COBBLESTONE_HEADER_LEN w ++ x) as Hd by (apply dropZ_app_le; lia).
  unfold accepted, released, complete in *. rewrite len_app, Ht, Hd, Ho. rewrite !(proj2 (Z.ltb_ge _ _)) in * by lia.
  assert (len (dropZ COBBLESTONE_HEADER_LEN w) = len w - COBBLESTONE_HEADER_LEN) as Hly by (apply len_dropZ; geometry; lia).
  set (y := dropZ COBBLESTONE_HEADER_LEN w) in *. cbn zeta.
  destruct (boundary y) as (_ & _ & Hfit); [lia|done|].
  pose proof (records_from_app n y x Hn) as Happ. cbn zeta in Happ. rewrite Hpart, len_app in Happ. cbn [app] in Happ.
  set (i := len (records_from n 0 y)) in *. split; [split|].
  - intros [[Hle' Hacc'] Hp']. destruct Happ as (Hat & Hrec & Hpx); [lia|]. split; [done|]. split; [by rewrite <-Hpx|].
    destruct Hacc' as (o' & ps & Ho' & Hps); [lia|]. injection Ho' as <-. rewrite Hrec, open_records_app, Hps0 in Hps.
    cbn [mbind option_bind] in Hps. rewrite Z.add_0_l in Hps. fold i in Hps.
    destruct (open_records _ _ i _); [by eexists|done].
  - intros (Hat & Hp' & [ps Hps]). apply Hfit in Hat as Hfit'. rewrite len_app in Hfit'.
    destruct Happ as (_ & Hrec & Hpx); [lia|]. rewrite Hpx. split; [|done]. split; [lia|]. intros _.
    exists o, (ps0 ++ ps). split; [done|]. rewrite Hrec, open_records_app, Hps0, Z.add_0_l. fold i.
    cbn [mbind option_bind]. by rewrite Hps.
  - intros ps (Hat & _ & _) Hps. apply Hfit in Hat as Hfit'. rewrite len_app in Hfit'.
    destruct Happ as (_ & Hrec & _); [lia|]. rewrite Hrec. split; [done|].
    rewrite (open_records_authentic _ _ _ _ _ Hps0), (authentic_prefix_app _ _ _ _ _ _ Hps0), Z.add_0_l. fold i.
    by rewrite (open_records_authentic _ _ _ _ _ Hps), concat_app.
Qed.

Lemma open_window_spec w x s t :
  is_u64 (len x) -> state_after input_key context n w s ->
  wpst (open_next_window_owned_with_observers x) (s, t)
    (fun p s' => window_of w x /\ state_after input_key context n (w ++ x) s'.1 /\
       released input_key context n (w ++ x) = released input_key context n w ++ p)
    (fun _ s' => stream_failed s'.1 = true /\ ~ (window_of w x /\ accepted input_key context n (w ++ x))).
Proof.
  intros Hx Hs. pose proof (state_after_running _ _ n w s Hs) as (Hf & Hfin & Hc & Hl).
  unfold open_next_window_owned_with_observers, stream_fail, fail_with. do 2 stm_step. cbn [fst]. rewrite Hf, Hfin. cbn [orb].
  destruct Hs as [Hacc Hs]. unfold window_of. destruct (Z.ltb_spec (len w) COBBLESTONE_HEADER_LEN) as [Hw|Hw].
  - subst s. cbn [stream_pending stream_opener].
    case_bool_decide as Hw0; cbn [negb orb]; [|split; [done|]; by intros [[? _] _]]. subst w.
    case_bool_decide as Hx0; [subst x; split; [done|]; by intros [[_ ?] _]|]. change (len []) with 0.
    eapply wpst_mono; [apply open_header_owned_spec|..]; cbn beta; cbn [app].
    + intros p s' (-> & Hl' & Hs' & ->). split; [done|]. by split.
    + intros _ s' [Hf' Hno]. split; [done|]. intros [[_ ?] ?]. by apply Hno.
  - destruct Hs as (o & Ho & ->). cbn [stream_at stream_pending stream_opener].
    set (y := dropZ COBBLESTONE_HEADER_LEN w) in *.
    case_bool_decide as Hp; cbn [negb orb]; [|split; [done|]; by intros [(_ & ? & _) _]].
    case_bool_decide as Hx0; [split; [done|]; by intros [(? & _) _]|].
    destruct (accepted_window o w x Ho Hw Hacc Hp) as [Hiff Hrel]. pose proof Hacc as [Hle _].
    rewrite ciphertext_len_remaining in Hle.
    assert (len y = len w - COBBLESTONE_HEADER_LEN) as Hly by (apply len_dropZ; geometry; lia).
    destruct (boundary y) as (Hi & Hci & _); [lia|done|]. rewrite Hp.
    assert (len (complete n w) = len (records_from n 0 y)) as Hci'.
    { unfold complete. by rewrite (proj2 (Z.ltb_ge _ _)) by lia. }
    eapply wpst_mono; [apply (open_window_records_spec n (opener_key o) (opener_base_nonce o) Hn context
      (S (length x)) (len (complete n w)) (len w) x 0 0 [] x)|..]; cbn beta.
    + lia.
    + by rewrite Hci'.
    + rewrite Hci'. lia.
    + pose proof (len_nonneg x). lia.
    + done.
    + apply dropZ_0.
    + apply takeZ_0.
    + done.
    + lia.
    + intros p s' (Hok & ps & Hps & -> & ->). destruct (Hrel ps Hok Hps) as [Hcomp Hr]. apply Hiff in Hok as [Hacc' Hp'].
      split; [done|]. split; [|done]. split; [done|]. rewrite len_app, (proj2 (Z.ltb_ge _ _)) by (pose proof (len_nonneg x); lia).
      exists o. rewrite Hcomp, len_app, Hp'. cbn [fst]. rewrite takeZ_app_le by lia. done.
    + intros _ s' [Hno Hf']. split; [done|]. intros [(_ & _ & Hp') Hacc']. by apply Hno, Hiff.
Qed.

(** Opening one unit *)
Lemma open_next_owned_spec w x s t :
  is_u64 (len x) -> state_after input_key context n w s ->
  wpst (open_next_owned x) (s, t)
    (fun p s' => window_of w x /\ state_after input_key context n (w ++ x) s'.1 /\
       released input_key context n (w ++ x) = released input_key context n w ++ p)
    (fun _ s' => stream_failed s'.1 = true).
Proof.
  intros Hx Hs. pose proof (open_window_spec w x s t Hx Hs) as Hwin.
  pose proof (state_after_running _ _ n w s Hs) as (Hf & Hfin & Hc & Hl). destruct Hs as [Hacc Hs].
  unfold open_next_owned, stream_fail, fail_with. do 2 stm_step. cbn [fst]. rewrite Hf, Hfin, Hc, Hl. cbn [orb].
  case_bool_decide as Hp; cbn [negb]; [|done].
  destruct (Z.ltb_spec (len w) COBBLESTONE_HEADER_LEN) as [Hw|Hw].
  - subst s. cbn [stream_opener stream_pending] in *. subst w.
    eapply wpst_mono; [apply open_header_owned_spec|..]; cbn beta; cbn [app]; [|naive_solver].
    intros p s' (-> & Hl' & Hs' & ->). done.
  - destruct Hs as (o & Ho & ->). cbn [stream_at stream_opener stream_next_chunk stream_pending] in *.
    destruct Hacc as [Hle _]. rewrite ciphertext_len_remaining in Hle.
    assert (len (dropZ COBBLESTONE_HEADER_LEN w) = len w - COBBLESTONE_HEADER_LEN) as Hly by (apply len_dropZ; geometry; lia).
    destruct (boundary (dropZ COBBLESTONE_HEADER_LEN w)) as (Hi & _ & _); [lia|done|].
    assert (len (complete n w) = len (records_from n 0 (dropZ COBBLESTONE_HEADER_LEN w))) as Hci.
    { unfold complete. by rewrite (proj2 (Z.ltb_ge _ _)) by lia. }
    rewrite Hci in *. set (i := len (records_from n 0 _)) in *. do 2 stm_step.
    destruct (decide (i = n / COBBLESTONE_CHUNK_LEN + 1)) as [->|Hne].
    { rewrite ciphertext_range_spec by (done || lia). cbn zeta.
      by rewrite (proj2 (Z.ltb_ge _ _)), (proj2 (Z.eqb_neq _ _)) by lia. }
    rewrite (record_range n Hn i) by lia. do 3 stm_step. cbn [fst snd]. pose proof (record_len_range n Hn i).
    rewrite sub64_Ok, Z.add_simpl_l by (geometry; lia). do 3 stm_step. rewrite usize_try_from64_Some by (geometry; lia).
    stm_step. destruct (negb _ || negb _); [done|]. eapply wpst_mono; [exact Hwin|naive_solver..].
Qed.

(** The units of a message in order *)
Definition units (w : list byte) (windows : list (list byte)) : Prop :=
  forall pre x post, windows = pre ++ x :: post -> window_of (w ++ concat pre) x.

Lemma open_windows_run windows : forall w s t,
  Forall (fun x => is_u64 (len x)) windows -> state_after input_key context n w s ->
  wpst (p ← foldS (fun out x => p ← open_next_window_owned_with_observers x; mret (out ++ p))
              (released input_key context n w) windows;
        _ ← stream_finish; mret p) (s, t)
    (fun p _ => accepted input_key context n (w ++ concat windows) /\
       len (w ++ concat windows) = ciphertext_len (layout_of n) /\ p = released input_key context n (w ++ concat windows))
    (fun _ _ => ~ (units w windows /\ accepted input_key context n (w ++ concat windows) /\
       len (w ++ concat windows) = ciphertext_len (layout_of n))).
Proof.
  induction windows as [|x windows IH]; intros w s t Hlens Hs; cbn [foldS concat].
  { do 3 stm_step. rewrite app_nil_r. eapply wpst_mono; [by apply (stream_finish_spec input_key context n Hn w)|..]; cbn beta.
    - intros _ s' [Hw _]. stm_step. by destruct Hs as [Hacc _].
    - intros _ s' [Hw _]. naive_solver. }
  apply list.Forall_cons in Hlens as [Hx Hlens]. rewrite app_assoc.
  stm_step. do 2 stm_step. eapply wpst_mono; [by apply open_window_spec|..]; cbn beta.
  - intros p [s' t'] (Hwin & Hs' & Hrel). cbn [fst] in Hs'. stm_step. rewrite <-Hrel.
    apply wpst_bind_inv. eapply wpst_mono; [by apply (IH (w ++ x))|done|]; cbn beta.
    intros _ _ Hno (Hu & Hacc). apply Hno. split; [|done]. intros pre z post ->.
    rewrite <-app_assoc. by apply (Hu (x :: pre) z post).
  - intros _ s' [_ Hno] (Hu & Hacc & _). apply Hno. split.
    + specialize (Hu [] x windows eq_refl). by rewrite app_nil_r in Hu.
    + by eapply accepted_prefix.
Qed.
End windows.

(** The opener driven over the units of a wire *)
Definition open_windows (input_key : Cobblestone256Key) (context : list byte) (ciphertext_len : Z)
    (windows : list (list byte)) : outcome CryptoError (list byte) :=
  s ← stream_new input_key context ciphertext_len;
  fst ((p ← foldS (fun out x => p ← open_next_window_owned_with_observers x; mret (out ++ p)) [] windows;
        _ ← stream_finish; mret p) (s, [])).

Lemma open_windows_spec input_key context windows :
  is_u64 (len (concat windows)) ->
  wp (open_windows input_key context (len (concat windows)) windows)
    (fun p => open input_key context (concat windows) = Ok p)
    (fun _ => forall l p, from_ciphertext_len (len (concat windows)) = Ok l -> units (plaintext_len l) [] windows ->
       open input_key context (concat windows) <> Ok p).
Proof.
  intros Hc. set (c := concat windows) in *. unfold open_windows, stream_new.
  pose proof (from_ciphertext_len_spec (len c) Hc) as Hl. pose proof (open_spec input_key context c Hc) as Ho.
  destruct (from_ciphertext_len (len c)) as [l|[]|]; bind_step; [|done..].
  destruct Hl as (n & Hn & -> & Hlen). destruct (state_after_nil input_key context n Hn) as [Hinit Hrel].
  assert (Forall (fun x => is_u64 (len x)) windows) as Hxs.
  { clear -Hc. subst c. induction windows as [|x ws IH]; constructor; cbn [concat] in Hc; unfold is_u64 in *; rewrite len_app in Hc;
      pose proof (len_nonneg x); pose proof (len_nonneg (concat ws)); [lia|]. apply IH. lia. }
  pose proof (open_windows_run input_key context n Hn windows [] _ [] Hxs Hinit) as Hrun. rewrite Hrel in Hrun.
  cbn [app] in Hrun. fold c in Hrun.
  apply wpst_run in Hrun as [(p & s & -> & Hacc & Hwl & ->)|([] & s & -> & Hno)]; cbn [fst wp].
  - by apply open_accepted.
  - intros l p [= <-] Hu Hop. apply Hno. split; [done|]. split; [|done]. rewrite Hop in Ho.
    destruct Ho as (salt & Hs & Hm). by apply (message_accepted input_key context n Hn salt c p).
Qed.
End whole.

End CobblestoneInPlace.
