(* ===== verification/CobblestoneRange.v ===== *)
(** Opening a range: the records selected for a range of the plaintext are those
    that hold its bytes, and opening them returns the range. *)

From Stdlib Require Import ZifyBool.
From S2P Require Import Prelude Machine Blocks Cobblestone CobblestoneSpec CobblestoneOpen CobblestoneInPlace.

Local Open Scope Z_scope.

Module CobblestoneRange.
Import Machine Blocks Cobblestone CobblestoneSpec CobblestoneOpen CobblestoneInPlace.

#[local] Strategy opaque [takeZ dropZ].

Section range.
Context (n a b : Z).
Hypothesis Hn : sealable n.

(** The range is not empty and within the plaintext. *)
Definition in_plaintext : Prop := 0 <= a < b /\ b <= n.

Let f : Z := a / COBBLESTONE_CHUNK_LEN.
Let l : Z := (b - 1) / COBBLESTONE_CHUNK_LEN.

(** The selection of the range *)
Definition selection_of : Cobblestone256SelectedRange :=
  MkSelected (layout_of n) (a, b) f l
    (COBBLESTONE_HEADER_LEN + f * COBBLESTONE_FULL_ENCRYPTED_CHUNK_LEN,
     COBBLESTONE_HEADER_LEN + l * COBBLESTONE_FULL_ENCRYPTED_CHUNK_LEN + record_len n l).

Lemma selected_chunks : in_plaintext ->
  0 <= f <= l /\ l <= n / COBBLESTONE_CHUNK_LEN /\ f * COBBLESTONE_CHUNK_LEN <= a /\
  l * COBBLESTONE_CHUNK_LEN < b <= l * COBBLESTONE_CHUNK_LEN + (record_len n l - AES_GCM_TAG_LEN).
Proof.
  intros [Hab Hb]. subst f l. pose proof (Z.div_mod a COBBLESTONE_CHUNK_LEN ltac:(done)).
  pose proof (Z.mod_pos_bound a _ chunk_pos). pose proof (Z.div_mod (b - 1) COBBLESTONE_CHUNK_LEN ltac:(done)).
  pose proof (Z.mod_pos_bound (b - 1) _ chunk_pos). pose proof (Z.div_mod n COBBLESTONE_CHUNK_LEN ltac:(done)).
  pose proof (Z.mod_pos_bound n _ chunk_pos). pose proof (Z.div_pos a COBBLESTONE_CHUNK_LEN ltac:(lia) chunk_pos).
  pose proof (Z.div_le_mono a (b - 1) COBBLESTONE_CHUNK_LEN chunk_pos ltac:(lia)).
  pose proof (Z.div_le_mono (b - 1) n COBBLESTONE_CHUNK_LEN chunk_pos ltac:(lia)).
  unfold record_len. set (q := n / COBBLESTONE_CHUNK_LEN) in *. set (l := (b - 1) / COBBLESTONE_CHUNK_LEN) in *.
  set (f := a / COBBLESTONE_CHUNK_LEN) in *. destruct (Z.ltb_spec l q); geometry; lia.
Qed.

Lemma select_plaintext_range_spec : is_u64 a -> is_u64 b ->
  wp (select_plaintext_range (layout_of n) (a, b)) (fun s => in_plaintext /\ s = selection_of) (fun _ => ~ in_plaintext).
Proof.
  intros Ha Hb. unfold is_u64 in *. unfold select_plaintext_range. cbn [fst snd layout_of plaintext_len].
  destruct (_ || _) eqn:Hg; cbn [guard_err]; bind_step; [cbn [wp]; unfold in_plaintext; lia|].
  assert (in_plaintext) as Hin by (unfold in_plaintext; lia). pose proof (selected_chunks Hin) as (Hf & Hl & _).
  rewrite sub64_Ok by lia. bind_step. rewrite !(record_range n Hn) by (subst f l; lia). bind_step. done.
Qed.

(** The bytes of the selected records from [i] on *)
Definition span (i : Z) : Z := (l - i) * COBBLESTONE_FULL_ENCRYPTED_CHUNK_LEN + record_len n l.

Definition in_span (i : Z) (y : list byte) : Prop :=
  (f <= i <= l /\ len y = span i) \/ (i = l + 1 /\ y = []).

(** [z] may follow the bytes [y] from record [i] on. *)
Definition fits (i : Z) (y z : list byte) : Prop :=
  len (y ++ z) <= remaining n i \/ (i = l + 1 /\ l = n / COBBLESTONE_CHUNK_LEN /\ z = []).

(** A selected record and those behind it *)
Lemma in_span_cases i y : in_plaintext -> in_span i y ->
  (i = l + 1 /\ y = []) \/
  (f <= i <= l /\ exists r y', y = r ++ y' /\ len r = record_len n i /\ in_span (i + 1) y' /\
     forall z, fits i y z -> fits (i + 1) y' z /\ records_from n i (y ++ z) = r :: records_from n (i + 1) (y' ++ z)).
Proof.
  intros Hin [[Hi Hy]|[-> ->]]; [right|by left].
  pose proof (selected_chunks Hin) as (Hf & Hl & _). pose proof (terminal_range n Hn) as [Hq Ht].
  pose proof (record_len_range n Hn i) as Hri. pose proof (record_len_range n Hn l) as Hrl.
  assert (i < l -> record_len n i = COBBLESTONE_FULL_ENCRYPTED_CHUNK_LEN) as Hfull.
  { intros Hlt. unfold record_len. by rewrite (proj2 (Z.ltb_lt _ _)) by lia. }
  assert (record_len n i <= len y) as Hfit.
  { unfold span in Hy. destruct (decide (i = l)) as [->|]; [lia|]. rewrite Hfull by lia. geometry. lia. }
  split; [done|]. exists (takeZ (record_len n i) y), (dropZ (record_len n i) y).
  assert (len (takeZ (record_len n i) y) = record_len n i) as Hr by (apply len_takeZ; geometry; lia).
  assert (len (dropZ (record_len n i) y) = len y - record_len n i) as Hd by (apply len_dropZ; geometry; lia).
  pose proof (take_dropZ (record_len n i) y) as Heq.
  split; [done|]. split; [done|]. split.
  { unfold in_span, span in *. destruct (decide (i = l)) as [->|].
    - right. split; [done|]. apply len_nil_inv. lia.
    - left. split; [lia|]. rewrite Hd, Hfull by lia. lia. }
  intros z Hz. assert (len (y ++ z) <= remaining n i) as Hle by (destruct Hz as [?|[? _]]; [done|lia]).
  rewrite len_app in Hle. pose proof (len_nonneg z). split.
  - unfold fits. rewrite len_app, Hd. unfold remaining in *. destruct (decide (i = n / COBBLESTONE_CHUNK_LEN)) as [->|].
    + right. assert (l = n / COBBLESTONE_CHUNK_LEN) as -> by lia. split; [done|]. split; [done|].
      apply len_nil_inv. unfold record_len in *. rewrite (proj2 (Z.ltb_ge _ _)) in * by lia. lia.
    + left. unfold record_len in *. rewrite (proj2 (Z.ltb_lt i _)) in * by lia. lia.
  - rewrite <-Heq at 1. rewrite <-app_assoc.
    apply (records_from_cons n Hn); [lia|done|]. rewrite app_assoc, Heq, len_app. lia.
Qed.

Lemma in_span_records i y : in_plaintext -> in_span i y ->
  exists rs, concat rs = y /\ len rs = l + 1 - i /\
    forall z, fits i y z -> records_from n i (y ++ z) = rs ++ records_from n (l + 1) z.
Proof.
  intros Hin. remember (Z.to_nat (l + 1 - i)) as k eqn:Hk. revert i y Hk.
  induction k as [|k IH]; intros i y Hk Hy;
    (destruct (in_span_cases i y Hin Hy) as [[-> ->]|(Hi & r & y' & -> & Hr & Hy' & Hrec)]; [|try lia]).
  1-2: exists []; cbn; split; [done|]; split; [change (len []) with 0; lia|done].
  destruct (IH (i + 1) y') as (rs & Hcat & Hlen & Hrs); [lia|done|]. exists (r :: rs).
  cbn [concat]. rewrite Hcat, len_cons, Hlen. split; [done|]. split; [lia|].
  intros z Hz. destruct (Hrec z Hz) as [Hz' ->]. by rewrite Hrs.
Qed.

(** Nothing need follow. *)
Lemma fits_nil i y : in_plaintext -> f <= i -> in_span i y -> fits i y [].
Proof.
  intros Hin Hi Hy. pose proof (selected_chunks Hin) as (Hf & Hl & _). pose proof (terminal_range n Hn) as [Hq Ht].
  unfold fits. rewrite app_nil_r. destruct Hy as [[Hi' Hy]|[-> ->]].
  - left. rewrite Hy. unfold span, remaining, record_len. case_match; geometry; lia.
  - destruct (decide (l = n / COBBLESTONE_CHUNK_LEN)); [by right|left]. change (len []) with 0.
    unfold remaining. geometry. lia.
Qed.

Lemma records_behind : in_plaintext -> records_from n (l + 1) [] = [].
Proof.
  intros Hin. pose proof (selected_chunks Hin) as (Hf & Hl & _). pose proof (terminal_range n Hn) as [Hq Ht].
  apply records_from_short; change (len []) with 0; unfold remaining; geometry; lia.
Qed.

Section opener.
Context `{Provider, !ProviderOk} (key : Aes256GcmKey) (base : list byte) (x : list byte).
Hypothesis Hin : in_plaintext.
Hypothesis Hx : len x = span f.

Lemma open_selected_chunk_spec i auth r y t :
  f <= i <= l -> dropZ ((i - f) * COBBLESTONE_FULL_ENCRYPTED_CHUNK_LEN) x = r ++ y -> len r = record_len n i ->
  (i - f) * COBBLESTONE_FULL_ENCRYPTED_CHUNK_LEN <= len x ->
  wpst (open_selected_chunk (MkOpener key base) selection_of x auth i) t
    (fun auth' t' => exists p, open_record key base i r = Some p /\ auth' = auth ++ p /\
       t' = t ++ [BeforeOpen; AfterOpen (len p)])
    (fun _ _ => open_record key base i r = None).
Proof.
  intros Hi Hd Hr Hle. pose proof (selected_chunks Hin) as (Hf & Hl & _). pose proof (ciphertext_len_bound n Hn) as HM.
  destruct (record_start_bound n Hn i ltac:(lia)) as [Hs0 HL]. pose proof (record_len_range n Hn i) as Hrl.
  unfold open_selected_chunk, observe. cbn [selection_of selected_layout ciphertext_range fst snd].
  do 2 stm_step. rewrite (record_range n Hn i) by lia. do 3 stm_step. cbn [fst snd].
  rewrite checked_sub64_Some by (geometry; lia). cbn [mbind option_bind].
  replace (_ + _ - (_ + _)) with ((i - f) * COBBLESTONE_FULL_ENCRYPTED_CHUNK_LEN) by lia.
  rewrite usize_try_from64_Some by (geometry; lia). do 3 stm_step.
  rewrite checked_sub64_Some by (geometry; lia). cbn [mbind option_bind].
  replace (_ + _ + record_len n i - (_ + _)) with ((i - f) * COBBLESTONE_FULL_ENCRYPTED_CHUNK_LEN + len r) by lia.
  rewrite usize_try_from64_Some by (geometry; lia). do 3 stm_step.
  rewrite (get_record x ((i - f) * COBBLESTONE_FULL_ENCRYPTED_CHUNK_LEN) r y) by (done || geometry; lia). do 3 stm_step.
  pose proof (open_chunk_spec n key base i r Hn ltac:(lia) Hr) as Hop.
  destruct (open_record key base i r) as [p|]; cycle 1.
  { destruct Hop as (r' & ->). do 2 stm_step. done. }
  destruct Hop as (tail & -> & _ & _). do 3 stm_step. repeat stm_step. exists p. rewrite takeZ_app by done.
  cbn [id]. by rewrite <-app_assoc.
Qed.

Lemma open_selected_loop_spec k : forall i auth y t,
  k = Z.to_nat (l + 1 - i) -> in_span i y -> f <= i ->
  (y <> [] -> dropZ ((i - f) * COBBLESTONE_FULL_ENCRYPTED_CHUNK_LEN) x = y /\
              (i - f) * COBBLESTONE_FULL_ENCRYPTED_CHUNK_LEN <= len x) ->
  wpst (foldS (open_selected_chunk (MkOpener key base) selection_of x) auth (seqZ i (l + 1 - i))) t
    (fun auth' t' => exists ps, open_records key base i (records_from n i y) = Some ps /\
       auth' = auth ++ concat ps /\ t' = t ++ trace_of ps)
    (fun _ _ => open_records key base i (records_from n i y) = None).
Proof.
  pose proof (selected_chunks Hin) as (Hf & Hl & _). pose proof (terminal_range n Hn) as [Hq Ht].
  induction k as [|k IH]; intros i auth y t Hk Hy Hi Hdrop;
    (destruct (in_span_cases i y Hin Hy) as [[-> ->]|(Hi' & r & y' & Heq & Hr & Hy' & Hrec)]; [|try lia]).
  1-2: rewrite seqZ_nil by lia; cbn [foldS]; stm_step; exists []; rewrite (records_behind Hin);
    unfold trace_of; cbn; by rewrite !app_nil_r.
  destruct (Hrec [] (fits_nil i y Hin Hi Hy)) as [_ Hrec']. rewrite !app_nil_r in Hrec'. rewrite Hrec', seqZ_cons by lia. cbn [foldS open_records]. stm_step.
  pose proof (record_len_range n Hn i) as Hrl.
  destruct Hdrop as [Hdrop Hle]. { intros ->. destruct r; [change (len []) with 0 in Hr; geometry; lia|done]. }
  eapply wpst_mono; [apply (open_selected_chunk_spec i auth r y'); [done|by rewrite <-Heq|done|done]|..]; cbn beta; cycle 1.
  { intros _ s ->. done. }
  intros auth' t' (p & -> & -> & ->). cbn [mbind option_bind].
  replace (Z.pred (l + 1 - i)) with (l + 1 - Z.succ i) by lia. rewrite <-Z.add_1_r.
  assert (len x = (i - f) * COBBLESTONE_FULL_ENCRYPTED_CHUNK_LEN + len r + len y') as Hlen.
  { pose proof (f_equal len (take_dropZ ((i - f) * COBBLESTONE_FULL_ENCRYPTED_CHUNK_LEN) x)) as Hl'.
    rewrite Hdrop, Heq, !len_app, len_takeZ in Hl'; [lia|geometry; lia]. }
  eapply wpst_mono; [apply (IH (i + 1) (auth ++ p) y'); [lia|done|lia|]|..]; cbn beta.
  - intros Hne. pose proof (len_nonneg y').
    assert (record_len n i = COBBLESTONE_FULL_ENCRYPTED_CHUNK_LEN) as Hfull.
    { destruct Hy' as [[? _]|[_ ->]]; [|done]. unfold record_len. by rewrite (proj2 (Z.ltb_lt _ _)) by lia. }
    replace ((i + 1 - f) * COBBLESTONE_FULL_ENCRYPTED_CHUNK_LEN)
      with ((i - f) * COBBLESTONE_FULL_ENCRYPTED_CHUNK_LEN + len r) by lia.
    split; [|lia]. rewrite <-dropZ_dropZ by (geometry; lia). rewrite Hdrop, Heq. by apply dropZ_app.
  - intros auth' t' (ps & -> & -> & ->). exists (p :: ps). cbn [concat]. unfold trace_of.
    rewrite bind_cons, <-!app_assoc. done.
  - intros _ t' ->. done.
Qed.

Lemma selected_plaintext_range i :
  0 <= i <= n / COBBLESTONE_CHUNK_LEN ->
  plaintext_range_for_chunk (layout_of n) i =
  Ok (i * COBBLESTONE_CHUNK_LEN, i * COBBLESTONE_CHUNK_LEN + (record_len n i - AES_GCM_TAG_LEN)).
Proof.
  intros Hi. pose proof (record_len_range n Hn i). pose proof (terminal_range n Hn) as [Hq _].
  unfold plaintext_range_for_chunk. rewrite (record_range n Hn i Hi). bind_step. cbn [fst snd].
  rewrite checked_mul64_Some by (geometry; lia). cbn [ok_or]. bind_step.
  rewrite sub64_Ok, Z.add_simpl_l by (geometry; lia). bind_step.
  rewrite checked_sub64_Some by lia. cbn [ok_or]. bind_step. by rewrite checked_add64_Some by (geometry; lia).
Qed.

Lemma selected_span : in_span f x.
Proof. pose proof (selected_chunks Hin) as (Hf & _). left. split; [lia|done]. Qed.

Lemma selected_length ps :
  open_records key base f (records_from n f x) = Some ps ->
  len (concat ps) = l * COBBLESTONE_CHUNK_LEN + (record_len n l - AES_GCM_TAG_LEN) - f * COBBLESTONE_CHUNK_LEN.
Proof.
  intros Hps. apply open_seal_records in Hps. apply seal_records_length in Hps as Hl1.
  apply seal_records_lens, Forall2_length in Hps as Hl2. pose proof selected_span as Hspan.
  destruct (in_span_records f x Hin Hspan) as (rs & Hcat & Hrl & Hrs).
  specialize (Hrs [] (fits_nil f x Hin ltac:(lia) Hspan)).
  rewrite app_nil_r, (records_behind Hin), app_nil_r in Hrs. rewrite Hrs, Hcat, Hx in Hl1.
  assert (len ps = l + 1 - f) as Hlp by (rewrite Hrs in Hl2; unfold len in *; lia).
  rewrite Hlp in Hl1. unfold span in Hl1. geometry. lia.
Qed.

(** Opening bytes of the right length: all records authentic, and then the range *)
Lemma open_selected_spec t :
  wpst (open_selected_range_with_observers (MkOpener key base) selection_of x) t
    (fun z t' => exists ps, open_records key base f (records_from n f x) = Some ps /\
       z = takeZ (b - a) (dropZ (a - f * COBBLESTONE_CHUNK_LEN) (concat ps)) /\ t' = t ++ trace_of ps)
    (fun _ _ => open_records key base f (records_from n f x) = None).
Proof.
  pose proof (selected_chunks Hin) as (Hf & Hl & Ha & Hb). destruct Hin as [Hab Hbn].
  pose proof (record_len_range n Hn l) as Hrl. pose proof (terminal_range n Hn) as [Hq Ht].
  unfold open_selected_range_with_observers. cbn [selection_of selected_layout ciphertext_range plaintext_range first_chunk last_chunk fst snd].
  do 2 stm_step. rewrite checked_sub64_Some by (geometry; lia). cbn [mbind option_bind].
  replace (_ + _ + _ - (_ + _)) with (span f) by (unfold span; lia).
  rewrite usize_try_from64_Some by (unfold span; geometry; lia). do 3 stm_step.
  rewrite (proj2 (Z.eqb_eq _ _)) by done. cbn [negb guard_err]. do 3 stm_step.
  rewrite selected_plaintext_range by lia. do 3 stm_step. rewrite selected_plaintext_range by lia. do 3 stm_step. cbn [fst snd].
  rewrite checked_sub64_Some by (geometry; lia). cbn [mbind option_bind].
  rewrite usize_try_from64_Some by (geometry; lia). do 2 stm_step.
  replace (l - f + 1) with (l + 1 - f) by lia.
  eapply wpst_mono; [apply (open_selected_loop_spec _ f [] x t eq_refl); [apply selected_span|lia|]|..]; cbn beta.
  { intros _. rewrite Z.sub_diag, Z.mul_0_l. split; [apply dropZ_0|apply len_nonneg]. }
  2: done.
  intros auth t' (ps & Hps & -> & ->). cbn [app].
  pose proof (selected_length ps Hps) as Hlen.
  do 2 stm_step. rewrite checked_sub64_Some by lia. cbn [mbind option_bind]. rewrite usize_try_from64_Some by (geometry; lia).
  do 3 stm_step. rewrite checked_sub64_Some by lia. cbn [mbind option_bind]. rewrite usize_try_from64_Some by (geometry; lia).
  stm_step. unfold get_range at 1. rewrite (proj2 (Z.leb_le _ _)), (proj2 (Z.leb_le _ (len _))) by lia. cbn [andb].
  set (m := concat ps) in *. set (s := a - f * COBBLESTONE_CHUNK_LEN) in *. set (e := b - f * COBBLESTONE_CHUNK_LEN) in *.
  do 2 stm_step. unfold copy_within, index_range, get_range.
  rewrite (proj2 (Z.leb_le _ _)), (proj2 (Z.leb_le _ (len _))) by lia. cbn [andb unwrap]. bind_step.
  rewrite (proj2 (Z.leb_le _ _)) by lia. rewrite takeZ_0. cbn [app]. repeat stm_step.
  rewrite sub64_Ok by lia. repeat stm_step. exists ps. split; [done|]. split; [|done].
  replace (b - a) with (e - s) by lia. apply takeZ_app. rewrite len_takeZ; [done|].
  fold m. rewrite len_dropZ; lia.
Qed.
End opener.

(** Whatever bytes are opened, the range returned is that of authentic records. *)
Lemma open_selected_sound `{Provider, !ProviderOk} key base x :
  in_plaintext ->
  wp (open_selected_range (MkOpener key base) selection_of x)
    (fun z => exists chunks records, seal_records key base f chunks = Some records /\ concat records = x /\
       z = takeZ (b - a) (dropZ (a - f * COBBLESTONE_CHUNK_LEN) (concat chunks)))
    (fun _ => True).
Proof.
  intros Hin. destruct (decide (len x = span f)) as [Hx|Hx].
  - pose proof (open_selected_spec key base x Hin Hx []) as Hspec. unfold open_selected_range.
    apply wpst_run in Hspec as [(z & t & -> & ps & Hps & -> & _)|(e & t & -> & _)]; [|done]. cbn [fst wp].
    apply open_seal_records in Hps. exists ps, (records_from n f x). split; [done|]. split; [|done].
    pose proof (selected_span x Hin Hx) as Hspan. destruct (in_span_records f x Hin Hspan) as (rs & Hcat & _ & Hrs).
    pose proof (selected_chunks Hin) as (Hf & _).
    specialize (Hrs [] (fits_nil f x Hin ltac:(lia) Hspan)). rewrite app_nil_r, (records_behind Hin), app_nil_r in Hrs.
    by rewrite Hrs.
  - pose proof (selected_chunks Hin) as (Hf & Hl & _). pose proof (record_len_range n Hn l).
    pose proof (terminal_range n Hn) as [Hq _].
    unfold open_selected_range, open_selected_range_with_observers. cbn [selection_of ciphertext_range fst snd].
    rewrite checked_sub64_Some by (geometry; lia). cbn [mbind option_bind].
    replace (_ + _ + _ - (_ + _)) with (span f) by (unfold span; lia).
    rewrite usize_try_from64_Some by (unfold span; geometry; lia).
    unfold mbind, stm_bind, liftS. cbn [ok_or]. by rewrite (proj2 (Z.eqb_neq _ _)).
Qed.

(** The selected chunks are those that hold a byte of the range. *)
Lemma selected_minimal i : in_plaintext -> f <= i <= l <-> exists k, a <= k < b /\ i = k / COBBLESTONE_CHUNK_LEN.
Proof.
  intros Hin. pose proof (selected_chunks Hin) as (Hf & Hl & Ha & Hb). destruct Hin as [Hab _]. split.
  - intros Hi. exists (Z.max a (i * COBBLESTONE_CHUNK_LEN)).
    pose proof (Z.div_mod a COBBLESTONE_CHUNK_LEN ltac:(done)). pose proof (Z.mod_pos_bound a _ chunk_pos). fold f in H.
    split; [geometry; lia|]. destruct (Z.max_spec a (i * COBBLESTONE_CHUNK_LEN)) as [[_ ->]|[Hge ->]].
    + by rewrite Z.div_mul.
    + fold f. geometry. lia.
  - intros (k & Hk & ->). split; apply Z.div_le_mono; try done; lia.
Qed.
End range.

(** ** Ranges of a message *)

Lemma takeZ_dropZ_app {A} (u v w : list A) i k :
  len u <= i -> 0 <= k -> i - len u + k <= len v ->
  takeZ k (dropZ i (u ++ v ++ w)) = takeZ k (dropZ (i - len u) v).
Proof.
  intros Hi Hk Hv. pose proof (len_nonneg u).
  replace i with (len u + (i - len u)) at 1 by lia. rewrite <-dropZ_dropZ by lia. rewrite (dropZ_app (len u)) by done.
  rewrite dropZ_app_le by lia. apply takeZ_app_le. rewrite len_dropZ; lia.
Qed.

Section message.
Context `{Provider, !ProviderOk} (input_key : Cobblestone256Key) (salt context p c : list byte).
Hypothesis Hsalt : len salt = COBBLESTONE_SALT_LEN.
Hypothesis Hm : message input_key salt context p = Some c.

Lemma message_records :
  sealable (len p) /\ len c = ciphertext_len (layout_of (len p)) /\
  exists o ps, from_header input_key context (takeZ COBBLESTONE_HEADER_LEN c) = Ok o /\
    open_records (opener_key o) (opener_base_nonce o) 0 (records_from (len p) 0 (dropZ COBBLESTONE_HEADER_LEN c)) = Some ps /\
    concat ps = p.
Proof.
  destruct (message_length _ _ _ _ _ Hsalt Hm) as [Hs Hlen]. split; [done|]. split; [done|].
  destruct (message_accepted input_key context (len p) Hs salt c p Hlen Hsalt Hm) as [[_ Hacc] Hrel].
  pose proof (ciphertext_len_bound _ Hs). destruct Hacc as (o & ps & Ho & Hps); [lia|]. exists o, ps.
  unfold released, complete in *. rewrite (proj2 (Z.ltb_ge _ _)) in * by lia. rewrite Ho in Hrel.
  rewrite (open_records_authentic _ _ _ _ _ Hps) in Hrel. done.
Qed.

(** The records of the message before, in and behind the selection *)
Lemma split_at_selection n a b y :
  sealable n -> in_plaintext n a b -> len y = remaining n 0 ->
  let f := a / COBBLESTONE_CHUNK_LEN in
  exists y1 x y3, y = y1 ++ x ++ y3 /\ len y1 = f * COBBLESTONE_FULL_ENCRYPTED_CHUNK_LEN /\ len x = span n b f /\
    exists rs1 rs3, records_from n 0 y = rs1 ++ records_from n f x ++ rs3 /\ len rs1 = f /\ concat rs1 = y1.
Proof.
  intros Hn Hin Hy. cbn zeta. pose proof (selected_chunks n a b Hin) as (Hf & Hl & _).
  pose proof (terminal_range n Hn) as [Hq Ht].
  set (f := a / COBBLESTONE_CHUNK_LEN) in *. set (l := (b - 1) / COBBLESTONE_CHUNK_LEN) in *.
  set (A := f * COBBLESTONE_FULL_ENCRYPTED_CHUNK_LEN).
  assert (0 <= span n b f /\ A + span n b f <= len y) as [Hs0 Hs].
  { rewrite Hy. subst A. unfold span, remaining, record_len. fold l. case_match; geometry; lia. }
  assert (0 <= A) by (subst A; geometry; lia).
  assert (len (takeZ A y) = A) as Hl1 by (apply len_takeZ; lia).
  assert (len (dropZ A y) = len y - A) as Hld by (apply len_dropZ; lia).
  assert (len (takeZ (span n b f) (dropZ A y)) = span n b f) as Hlx by (apply len_takeZ; lia).
  assert (y = takeZ A y ++ takeZ (span n b f) (dropZ A y) ++ dropZ (span n b f) (dropZ A y)) as Heq by (by rewrite !take_dropZ).
  set (y1 := takeZ A y) in *. set (x := takeZ (span n b f) (dropZ A y)) in *. set (y3 := dropZ (span n b f) (dropZ A y)) in *.
  exists y1, x, y3. split; [done|]. split; [done|]. split; [done|].
  assert (partial_from n 0 y1 = [] /\ len (records_from n 0 y1) = f /\ concat (records_from n 0 y1) = y1) as (Hp1 & Hr1 & Hcat).
  { pose proof (len_blocks _ full_pos y1) as Hb. pose proof (len_rest_mod _ full_pos y1) as Hr.
    rewrite Hl1 in Hb, Hr. subst A. rewrite Z.div_mul in Hb by done. rewrite Z.mod_mul in Hr by done.
    unfold partial_from, records_from. rewrite (proj2 (Z.eqb_neq _ _)) by (unfold remaining; geometry; lia).
    apply len_nil_inv in Hr. destruct (blocks_spec _ full_pos y1) as [Hcat _]. rewrite Hr, app_nil_r in Hcat.
    by rewrite app_nil_r. }
  destruct (records_from_app n y1 (x ++ y3) Hn) as (_ & Hrec & _); [by rewrite <-Heq, Hy|].
  rewrite Hp1, Hr1 in Hrec. cbn [app] in Hrec. rewrite <-Heq in Hrec.
  assert (in_span n a b f x) as Hspan by (left; split; [lia|done]).
  destruct (in_span_records n a b Hn f x Hin Hspan) as (rs & _ & _ & Hrs). fold l in Hrs.
  exists (records_from n 0 y1), (records_from n (l + 1) y3). split; [|done]. rewrite Hrec. f_equal.
  rewrite Hrs; [f_equal|]; cycle 1.
  { left. pose proof (f_equal len Heq) as Hlen. rewrite len_app, Hl1 in Hlen. subst A. unfold remaining in *. geometry. lia. }
  pose proof (Hrs [] (fits_nil n a b Hn f x Hin ltac:(lia) Hspan)) as Hnil. rewrite app_nil_r in Hnil.
  pose proof (records_behind n a b Hn Hin) as Hbeh. fold l in Hbeh. by rewrite Hnil, Hbeh, app_nil_r.
Qed.

Lemma open_range_of_message a b :
  in_plaintext (len p) a b ->
  exists o x, from_header input_key context (takeZ COBBLESTONE_HEADER_LEN c) = Ok o /\
    get_range c (fst (ciphertext_range (selection_of (len p) a b)))
      (snd (ciphertext_range (selection_of (len p) a b))) = Some x /\
    open_selected_range o (selection_of (len p) a b) x = Ok (takeZ (b - a) (dropZ a p)).
Proof.
  intros Hin. destruct message_records as (Hn & Hlen & o & ps & Ho & Hps & Hcat).
  pose proof (ciphertext_len_remaining (len p)) as HL. pose proof (ciphertext_len_bound _ Hn) as HM.
  assert (len (takeZ COBBLESTONE_HEADER_LEN c) = COBBLESTONE_HEADER_LEN) as Hh by (apply len_takeZ; geometry; lia).
  assert (len (dropZ COBBLESTONE_HEADER_LEN c) = remaining (len p) 0) as Hy by (rewrite len_dropZ; geometry; lia).
  pose proof (take_dropZ COBBLESTONE_HEADER_LEN c) as Hc.
  destruct (split_at_selection (len p) a b _ Hn Hin Hy) as (y1 & x & y3 & Heq & Hl1 & Hx & rs1 & rs3 & Hrec & Hrs1 & Hcat1).
  rewrite Heq in Hc. pose proof (selected_chunks (len p) a b Hin) as (Hf & Hl & Ha & Hb). destruct Hin as [Hab Hbn].
  exists o, x. split; [done|]. split.
  { rewrite <-Hc, app_assoc. cbn [selection_of ciphertext_range fst snd].
    apply get_range_app; rewrite len_app, Hh, Hl1; [done|]. rewrite Hx. unfold span. lia. }
  rewrite Hrec, open_records_app in Hps. destruct o as [key base]. cbn [opener_key opener_base_nonce] in Hps.
  destruct (open_records key base 0 rs1) as [ps1|] eqn:Hps1; [|done]. cbn [mbind option_bind] in Hps.
  rewrite Z.add_0_l, Hrs1, open_records_app in Hps.
  destruct (open_records key base _ (records_from (len p) _ x)) as [ps2|] eqn:Hps2; [|done]. cbn [mbind option_bind] in Hps.
  destruct (open_records key base _ rs3) as [ps3|]; [|done]. cbn [mbind option_bind] in Hps. injection Hps as <-.
  pose proof (open_selected_spec (len p) a b Hn key base x (conj Hab Hbn) Hx []) as Hopen.
  apply wpst_run in Hopen as [(z & t' & Hz & ps' & Hps' & -> & _)|(e & t' & _ & Hnone)]; [|congruence].
  unfold open_selected_range. rewrite Hz. cbn [fst]. rewrite Hps2 in Hps'. injection Hps' as <-. f_equal.
  pose proof (selected_length (len p) a b Hn key base x (conj Hab Hbn) Hx ps2 Hps2) as Hl2.
  assert (len (concat ps1) = a / COBBLESTONE_CHUNK_LEN * COBBLESTONE_CHUNK_LEN) as Hlen1.
  { apply open_seal_records in Hps1. apply seal_records_length in Hps1 as Hs. apply seal_records_lens, Forall2_length in Hps1.
    assert (len ps1 = len rs1) as Hp1 by (unfold len; lia). rewrite Hcat1, Hl1, Hp1, Hrs1 in Hs. geometry. lia. }
  rewrite <-Hcat, !concat_app. rewrite takeZ_dropZ_app by lia. by rewrite Hlen1.
Qed.
End message.

End CobblestoneRange.
