(* ===== verification/CobblestoneProps.v ===== *)
(** Chunked encryption: the theorems.

    The witnesses run the code with the provider [plain], which appends to the
    plaintext a tag made of the nonce and the key. *)

From Stdlib Require Import ZifyBool.
From coqutil Require Import Word.LittleEndianList.
From S2P Require Import Prelude Gf Machine Blocks Cobblestone CobblestoneSpec CobblestoneSeal CobblestoneOpen.
From S2P Require Import CobblestoneInPlace CobblestoneRange.

Local Open Scope Z_scope.

Module CobblestoneProps.
Import Machine Blocks Cobblestone CobblestoneSpec CobblestoneSeal CobblestoneOpen CobblestoneInPlace CobblestoneRange.

#[local] Strategy opaque [takeZ dropZ].

(** ** Nonces *)

Lemma xor_cancel x y z : byte.xor x y = byte.xor x z -> y = z.
Proof.
  intros Heq. rewrite <-(Gf.Gf.xor_0_l y), <-(Gf.Gf.xor_0_l z), <-(Gf.Gf.xor_diag x), <-!Gf.Gf.xor_assoc. by rewrite Heq.
Qed.

Lemma xor_zip_inj a : forall b c,
  length b = length a -> length c = length a -> xor_zip a b = xor_zip a c -> b = c.
Proof.
  induction a as [|x a IH]; intros [|y b] [|z c] Hb Hc; simpl in *; try lia; [done|].
  intros [= Hx Hr]. f_equal; [by eapply xor_cancel|apply IH; [lia|lia|done]].
Qed.

(** The five counter bytes are those of the number. *)
Lemma counter_bytes i : dropZ 3 (to_be_bytes i) = rev (le_split 5 i).
Proof.
  unfold to_be_bytes. change (le_split 8 i) with
    (le_split 5 i ++ le_split 3 (Z.shiftr (Z.shiftr (Z.shiftr (Z.shiftr (Z.shiftr i 8) 8) 8) 8) 8)).
  rewrite rev_app_distr. apply dropZ_app. unfold len. by rewrite length_rev, length_le_split.
Qed.

Lemma nonce_for_chunk_inj base i j nonce :
  len base = AES_GCM_NONCE_LEN -> 0 <= i -> 0 <= j ->
  nonce_for_chunk base i = Ok nonce -> nonce_for_chunk base j = Ok nonce -> i = j.
Proof.
  intros Hb Hi Hj Hni Hnj. pose proof (nonce_for_chunk_spec base i) as Hsi. pose proof (nonce_for_chunk_spec base j) as Hsj.
  rewrite Hni in Hsi. rewrite Hnj in Hsj. destruct Hsi as [Hli Hsi], Hsj as [Hlj Hsj]. rewrite Hsi in Hsj.
  apply app_inv_head in Hsj. rewrite Hb in Hsj. rewrite !counter_bytes in Hsj.
  assert (length (dropZ (AES_GCM_NONCE_LEN - 5) base) = 5%nat) as Hl.
  { pose proof (len_dropZ (AES_GCM_NONCE_LEN - 5) base). unfold len, AES_GCM_NONCE_LEN in *. lia. }
  apply xor_zip_inj in Hsj; [|by rewrite Hl, length_rev, length_le_split..].
  apply (f_equal (fun l => le_combine (rev l))) in Hsj. rewrite !rev_involutive, !le_combine_split in Hsj.
  change COBBLESTONE_MAX_CHUNKS with 274877906944 in *. rewrite !Z.mod_small in Hsj by lia. done.
Qed.

(** ** What is released is authentic *)

(** [p] are the plaintexts of records at the head of the wire [w], sealed under the
    key its header commits to. *)
Definition authentic `{Provider} (input_key : Cobblestone256Key) (context w p : list byte) : Prop :=
  exists salt d chunks records,
    len salt = COBBLESTONE_SALT_LEN /\ derive_message_key input_key salt context = Ok d /\
    seal_records (derived_key d) (derived_base_nonce d) 0 chunks = Some records /\ concat chunks = p /\
    salt ++ derived_commitment d ++ concat records `prefix_of` w.

Section props.
Context `{Provider, !ProviderOk}.

Lemma complete_prefix n w : COBBLESTONE_HEADER_LEN <= len w ->
  concat (complete n w) `prefix_of` dropZ COBBLESTONE_HEADER_LEN w.
Proof.
  intros Hw. unfold complete, records_from. rewrite (proj2 (Z.ltb_ge _ _)) by lia.
  set (y := dropZ COBBLESTONE_HEADER_LEN w). destruct (blocks_spec _ full_pos y) as [Hcat _].
  destruct (len y =? remaining n 0); rewrite concat_app; cbn [concat]; rewrite app_nil_r; [by rewrite Hcat|].
  rewrite <-Hcat at 2. by apply prefix_app_r.
Qed.

Lemma released_authentic input_key context n w :
  released input_key context n w = [] \/ authentic input_key context w (released input_key context n w).
Proof.
  unfold released. destruct (Z.ltb_spec (len w) COBBLESTONE_HEADER_LEN) as [Hw|Hw]; [by left|].
  pose proof (from_header_spec input_key context (takeZ COBBLESTONE_HEADER_LEN w)) as Hh.
  destruct (from_header input_key context _) as [o| |]; [right|by left..].
  destruct Hh as (salt & d & Hsalt & Hd & Heq & ->). cbn [opener_key opener_base_nonce].
  destruct (authentic_prefix_sealed (derived_key d) (derived_base_nonce d) (complete n w) 0) as [k Hk].
  exists salt, d, (authentic_prefix (derived_key d) (derived_base_nonce d) 0 (complete n w)), (take k (complete n w)).
  split; [done|]. split; [done|]. split; [done|]. split; [done|].
  rewrite app_assoc, <-Heq.
  enough (concat (take k (complete n w)) `prefix_of` dropZ COBBLESTONE_HEADER_LEN w) as [z Hz].
  { exists z. rewrite <-app_assoc, <-Hz. by rewrite take_dropZ. }
  transitivity (concat (complete n w)); [|by apply complete_prefix].
  rewrite <-(take_drop k (complete n w)) at 2. rewrite concat_app. by apply prefix_app_r.
Qed.

Lemma authentic_mono input_key context w w' p :
  w `prefix_of` w' -> authentic input_key context w p -> authentic input_key context w' p.
Proof.
  intros Hw (salt & d & cs & rs & Hs & Hd & Hr & Hp & Hpre). exists salt, d, cs, rs. split_and!; [done..|]. by etransitivity.
Qed.

(** ** Theorems *)

(** C19: [open] returns a plaintext exactly for the bytes that [seal] makes of it, under
    the same key and context and some salt, and never panics: what was sealed is
    opened to the plaintext, and no other bytes are accepted. *)
Theorem cobblestone_open_exact input_key context c p :
  is_u64 (len c) -> is_u64 (len p) ->
  open input_key context c <> Panic /\
  (open input_key context c = Ok p <->
   exists salt, len salt = COBBLESTONE_SALT_LEN /\ seal input_key salt context p = Ok c).
Proof.
  intros Hc Hp. pose proof (open_spec input_key context c Hc) as Ho.
  assert (forall salt, len salt = COBBLESTONE_SALT_LEN ->
    seal input_key salt context p = Ok c <-> message input_key salt context p = Some c) as Hseal.
  { intros salt Hs. rewrite seal_spec by done. destruct (message _ _ _ p); cbn [ok_or]; naive_solver. }
  destruct (open input_key context c) as [p'|e|]; [| |done]; (split; [done|]); split.
  - intros [= ->]. destruct Ho as (salt & Hs & Hm). exists salt. split; [done|]. by apply Hseal.
  - intros (salt & Hs & Hm%Hseal); [|done]. destruct Ho as (salt' & Hs' & Hm'). f_equal. by apply (message_inj input_key context salt' salt _ _ c).
  - done.
  - intros (salt & Hs & Hm%Hseal); [|done]. by destruct (Ho salt p).
Qed.

(** The sealer makes the same message whatever slices the plaintext arrives in,
    and no two of its chunks are sealed under one nonce. *)
Theorem cobblestone_seal_slices input_key salt context slices :
  len salt = COBBLESTONE_SALT_LEN -> is_u64 (len (concat slices)) ->
  seal_slices input_key salt context slices = seal input_key salt context (concat slices) /\
  forall d i j nonce, derive_message_key input_key salt context = Ok d -> 0 <= i -> 0 <= j ->
    nonce_for_chunk (derived_base_nonce d) i = Ok nonce -> nonce_for_chunk (derived_base_nonce d) j = Ok nonce -> i = j.
Proof.
  intros Hs Hl. split; [by rewrite seal_slices_spec, seal_spec|].
  intros d i j nonce Hd. apply nonce_for_chunk_inj. pose proof (derive_message_key_spec input_key salt context) as Hspec.
  rewrite Hd in Hspec. apply Hspec.
Qed.

(** C20: However a wire is sliced, the incremental opener does not panic, succeeds
    exactly when the wire has the announced length and [open] accepts it, with the
    same plaintext, and whatever it has released otherwise is the plaintext of
    authentic records at the head of the wire. *)
Theorem cobblestone_stream input_key context length slices :
  is_u64 length -> is_u64 (len (concat slices)) ->
  let w := concat slices in
  let '(result, out) := open_slices input_key context length slices in
  result <> Panic /\
  (forall p, result = Ok () /\ out = p <-> len w = length /\ open input_key context w = Ok p) /\
  (out = [] \/ authentic input_key context w out).
Proof.
  intros Hlen Hw w. unfold open_slices, stream_new. pose proof (from_ciphertext_len_spec length Hlen) as Hl.
  pose proof (open_spec input_key context w Hw) as Ho.
  destruct (from_ciphertext_len length) as [l|[]|] eqn:Hfrom; [| |done]; bind_step; cycle 1.
  { split; [done|]. split; [|by left]. intros p. split; [by intros [? _]|]. intros [Hwl Hop].
    unfold open in Hop. rewrite Hwl, Hfrom in Hop. done. }
  destruct Hl as (n & Hn & -> & Hcl). destruct (state_after_nil input_key context n Hn) as [Hinit Hrel].
  pose proof (stream_run_spec input_key context n Hn slices [] _ [] Hinit) as Hrun. rewrite Hrel in Hrun. cbn [app] in Hrun.
  fold w in Hrun. apply wpst_run in Hrun as [([] & [s t] & -> & Hacc & Hwl & Ht)|([] & [s t] & -> & Hno & k & Ht)];
    cbn [snd] in Ht; subst t; (split; [done|]); split.
  - intros p. rewrite (open_accepted input_key context n w Hn Hwl Hacc). naive_solver congruence.
  - apply released_authentic.
  - intros p. split; [by intros [? _]|]. intros [Hwl Hop]. rewrite Hop in Ho. destruct Ho as (salt & Hs & Hm).
    destruct (message_accepted input_key context n Hn salt w p ltac:(congruence) Hs Hm) as [Hacc _]. destruct Hno; congruence.
  - destruct (released_authentic input_key context n (take k w)) as [?|Ha]; [by left|right].
    eapply authentic_mono; [|exact Ha]. apply prefix_take.
Qed.

(** C21: A range of a sealed plaintext is selected exactly when it is not empty and in
    bounds; the chunks selected are those that hold its bytes; opening the
    ciphertext bytes selected returns the bytes of the range; and whatever bytes
    are opened instead, an answer is a range of authentic records. *)
Theorem cobblestone_range input_key salt context p c a b :
  len salt = COBBLESTONE_SALT_LEN -> is_u64 (len p) -> is_u64 a -> is_u64 b ->
  seal input_key salt context p = Ok c ->
  exists layout o, from_ciphertext_len (len c) = Ok layout /\
    from_header input_key context (takeZ COBBLESTONE_HEADER_LEN c) = Ok o /\
    match select_plaintext_range layout (a, b) with
    | Ok s =>
        0 <= a < b /\ b <= len p /\
        (forall i, first_chunk s <= i <= last_chunk s <-> exists k, a <= k < b /\ i = k / COBBLESTONE_CHUNK_LEN) /\
        (exists x, get_range c (fst (ciphertext_range s)) (snd (ciphertext_range s)) = Some x /\
           open_selected_range o s x = Ok (takeZ (b - a) (dropZ a p))) /\
        (forall x, wp (open_selected_range o s x)
           (fun z => exists chunks records,
              seal_records (opener_key o) (opener_base_nonce o) (first_chunk s) chunks = Some records /\
              concat records = x /\
              z = takeZ (b - a) (dropZ (a - first_chunk s * COBBLESTONE_CHUNK_LEN) (concat chunks)))
           (fun _ => True))
    | Err _ => b <= a \/ len p < b
    | Panic => False
    end.
Proof.
  intros Hs Hp Ha Hb Hseal. rewrite seal_spec in Hseal by done.
  destruct (message input_key salt context p) as [c'|] eqn:Hm; [|done]. injection Hseal as ->.
  destruct (message_records input_key salt context p c Hs Hm) as (Hn & Hlen & o & ps & Ho & _).
  exists (layout_of (len p)), o. split; [|split; [done|]].
  { pose proof (ciphertext_len_bound _ Hn). pose proof (len_nonneg c).
    pose proof (from_ciphertext_len_spec (len c) ltac:(unfold is_u64; lia)) as Hl.
    destruct (from_ciphertext_len (len c)) as [l|e|]; [|by destruct (Hl _ Hn)|done].
    destruct Hl as (n & Hn' & -> & Hl). do 2 f_equal. rewrite Hlen in Hl.
    apply (ciphertext_len_inj (len p) Hn); [apply Hn'|done]. }
  pose proof (select_plaintext_range_spec (len p) a b Hn Ha Hb) as Hsel.
  destruct (select_plaintext_range _ _) as [s|e|]; [| |done].
  - destruct Hsel as [Hin ->]. destruct (open_range_of_message input_key salt context p c Hs Hm a b Hin) as (o' & x & Ho' & Hx & Hz).
    rewrite Ho in Ho'. injection Ho' as <-. pose proof Hin as [Hab Hbp].
    split; [done|]. split; [done|]. split; [|split; [by exists x|]].
    + intros i. by apply (selected_minimal (len p) a b).
    + intros x'. destruct o as [key base]. by apply (open_selected_sound (len p) a b Hn).
  - cbn [wp] in Hsel. unfold in_plaintext, is_u64 in *. lia.
Qed.

(** Opening in place returns what [open] returns.  The caller's vector is left as
    it was when the layout or the header is refused and taken otherwise; on
    success the observers see each record once, in order.  Opening the message unit
    by unit in windows returns only what [open] returns, and returns it when the
    windows are the header and groups of whole records. *)
Theorem cobblestone_in_place input_key context c t windows :
  is_u64 (len c) -> concat windows = c ->
  (let '(result, (remains, trace)) := open_owned_with_observers input_key context (c, t) in
   result = open input_key context c /\
   remains = (if header_valid input_key context c then [] else c) /\
   (forall p, result = Ok p -> trace = t ++ trace_of (chunks_of p))) /\
  wp (open_windows input_key context (len c) windows)
    (fun p => open input_key context c = Ok p)
    (fun _ => forall l p, from_ciphertext_len (len c) = Ok l -> units (plaintext_len l) [] windows ->
       open input_key context c <> Ok p).
Proof.
  intros Hc Hws. split; [|subst c; by apply open_windows_spec].
  pose proof (open_owned_spec input_key context c t Hc) as Hown. pose proof (open_spec input_key context c Hc) as Ho.
  apply wpst_run in Hown as [(p & s & -> & (salt & Hs & Hm) & ->)|([] & [remains trace] & -> & Hno & Hleft)].
  - assert (open input_key context c = Ok p) as ->.
    { destruct (open input_key context c) as [p'|e|]; [|by destruct (Ho salt p)|done].
      destruct Ho as (salt' & Hs' & Hm'). f_equal. by apply (message_inj input_key context salt' salt _ _ c). }
    split; [done|]. split; [|by intros p' [= <-]].
    destruct (message_length _ _ _ _ _ Hs Hm) as [Hn Hlen]. unfold header_valid.
    pose proof (from_ciphertext_len_spec (len c) Hc) as Hl. destruct (message_records input_key salt context p c Hs Hm) as (_ & _ & o & ps & Hh & _).
    destruct (from_ciphertext_len (len c)) as [l|e|]; [|by destruct (Hl _ Hn)|done]. by rewrite Hh.
  - destruct (open input_key context c) as [p|[]|]; [destruct Ho as (salt & Hs & Hm); by destruct (Hno salt p)| |done].
    split; [done|]. split; [|done]. destruct (header_valid input_key context c); [done|]. by injection Hleft.
Qed.

End props.

(** ** Witnesses *)

(** A provider that seals without secrecy *)
Definition plain_tag (key nonce : list byte) : list byte := take 16 (nonce ++ key ++ replicate 16 Byte.x00).

#[local] Instance plain : Provider := {
  gcm_key_accepted _ := true;
  gcm_seal key nonce _ p := Some (p ++ plain_tag key nonce);
  gcm_open key nonce _ c :=
    let p := take (length c - 16) c in if bool_decide (c = p ++ plain_tag key nonce) then Some p else None;
  gcm_scratch _ _ _ _ := replicate 16 Byte.x00;
  hkdf_sha512_expand n prk info := Some (take (Z.to_nat n) (prk ++ info ++ replicate (Z.to_nat n) Byte.x00));
  verify_slices_are_equal a b := bool_decide (a = b)
}.

Lemma length_plain_tag key nonce : length (plain_tag key nonce) = 16%nat.
Proof. unfold plain_tag. rewrite length_take, !length_app, length_replicate. lia. Qed.

#[local] Instance plain_ok : ProviderOk.
Proof.
  split.
  - intros n prk info m Hn [= <-]. unfold len. rewrite length_take, !length_app, length_replicate. lia.
  - intros k n a p c [= <-]. rewrite len_app. unfold len. by rewrite length_plain_tag.
  - intros k n a p c [= <-]. cbn. rewrite length_app, length_plain_tag, Nat.add_sub, take_app_length.
    by rewrite bool_decide_eq_true_2.
  - intros k n a p c. cbn. case_bool_decide as Hc; [|done]. intros [= <-]. by rewrite <-Hc.
  - done.
  - intros a b. cbn. apply bool_decide_eq_true.
Qed.

Definition sample_key : Cobblestone256Key := MkKey (replicate 32 Byte.x42).
Definition sample_salt : list byte := replicate 24 Byte.x07.
Definition sample_context : list byte := [Byte.x01; Byte.x02].
Definition sample_plaintext : list byte := [Byte.x68; Byte.x65; Byte.x6c; Byte.x6c; Byte.x6f].

Definition sample_ciphertext : list byte :=
  match seal sample_key sample_salt sample_context sample_plaintext with Ok c => c | _ => [] end.

Lemma sample_sealed : seal sample_key sample_salt sample_context sample_plaintext = Ok sample_ciphertext.
Proof. refine (bool_decide_eq_true_1 _ _). vm_compute. reflexivity. Qed.

Ltac small := split; vm_compute; discriminate.

Lemma cobblestone_open_exact_witness :
  len sample_ciphertext = 77 /\ open sample_key sample_context sample_ciphertext = Ok sample_plaintext.
Proof.
  split; [vm_compute; reflexivity|].
  apply (cobblestone_open_exact sample_key sample_context sample_ciphertext sample_plaintext); [small|small|].
  exists sample_salt. split; [vm_compute; reflexivity|apply sample_sealed].
Defined.

Lemma cobblestone_seal_slices_witness :
  seal_slices sample_key sample_salt sample_context [[Byte.x68; Byte.x65]; []; [Byte.x6c; Byte.x6c; Byte.x6f]] =
  Ok sample_ciphertext.
Proof.
  rewrite (proj1 (cobblestone_seal_slices sample_key sample_salt sample_context
    [[Byte.x68; Byte.x65]; []; [Byte.x6c; Byte.x6c; Byte.x6f]] ltac:(vm_compute; reflexivity) ltac:(small))).
  apply sample_sealed.
Defined.

Lemma cobblestone_stream_witness :
  open_slices sample_key sample_context 77 [take 30 sample_ciphertext; drop 30 sample_ciphertext] = (Ok (), sample_plaintext).
Proof.
  pose proof (cobblestone_stream sample_key sample_context 77
    [take 30 sample_ciphertext; drop 30 sample_ciphertext] ltac:(small) ltac:(small)) as Hs. cbv zeta in Hs.
  destruct (open_slices _ _ _ _) as [r out]. destruct Hs as (_ & Hiff & _).
  destruct (proj2 (Hiff sample_plaintext)) as [-> ->]; [|reflexivity].
  split; [vm_compute; reflexivity|]. refine (bool_decide_eq_true_1 _ _). vm_compute. reflexivity.
Defined.

Lemma cobblestone_range_witness :
  exists layout o s x, from_ciphertext_len 77 = Ok layout /\
    from_header sample_key sample_context (takeZ COBBLESTONE_HEADER_LEN sample_ciphertext) = Ok o /\
    select_plaintext_range layout (1, 4) = Ok s /\ open_selected_range o s x = Ok [Byte.x65; Byte.x6c; Byte.x6c].
Proof.
  destruct (cobblestone_range sample_key sample_salt sample_context sample_plaintext sample_ciphertext 1 4)
    as (layout & o & Hl & Ho & Hsel); [vm_compute; reflexivity|small|small|small|apply sample_sealed|].
  change (len sample_ciphertext) with 77 in Hl.
  destruct (select_plaintext_range layout (1, 4)) as [s|e|] eqn:Hs; [|change (len sample_plaintext) with 5 in Hsel; lia|done].
  destruct Hsel as (_ & _ & _ & (x & _ & Hx) & _). by exists layout, o, s, x.
Defined.

Lemma cobblestone_in_place_witness :
  exists trace, open_owned_with_observers sample_key sample_context (sample_ciphertext, []) =
    (Ok sample_plaintext, ([], trace)) /\ trace = [BeforeOpen; AfterOpen 5] /\
  open_windows sample_key sample_context 77 [take 56 sample_ciphertext; drop 56 sample_ciphertext] = Ok sample_plaintext.
Proof.
  destruct (cobblestone_in_place sample_key sample_context sample_ciphertext []
    [take 56 sample_ciphertext; drop 56 sample_ciphertext]) as [Hown Hwin];
    [small|cbn [concat]; rewrite app_nil_r; apply take_drop|].
  assert (open sample_key sample_context sample_ciphertext = Ok sample_plaintext) as Hopen
    by (refine (bool_decide_eq_true_1 _ _); vm_compute; reflexivity).
  destruct (open_owned_with_observers _ _ _) as [r [remains trace]]. destruct Hown as (-> & -> & Htrace).
  exists trace. rewrite Hopen in *. split; [do 2 f_equal; vm_compute; reflexivity|].
  split; [rewrite (Htrace _ eq_refl); vm_compute; reflexivity|].
  destruct (open_windows _ _ _ _) as [p|e|] eqn:Hw; [by rewrite <-Hwin|exfalso|done].
  revert Hw. vm_compute. discriminate.
Defined.

End CobblestoneProps.
