(* ===== verification/Chunked.v ===== *)
(** The incremental decoder of aws-chunked request bodies:
    crates/server-http/src/http/chunked.rs, definitions.

    [feed] takes the bytes of the wire slice by slice and returns the payload
    bytes each slice completes.  A Rust method that changes [self] returns the
    new decoder beside its result, also when the result is an error.  SHA-256 and
    HMAC-SHA256 are parameters, the class [Crypto]: a hash context is the bytes it
    has been fed. *)

From stdpp Require Import strings.
From S2P Require Import Prelude Str.

Local Open Scope Z_scope.

(** The primitives of the crypto crate's third-party providers *)
Class Crypto := {
  sha256 : list byte -> list byte;
  hmac_sha256 : list byte -> list byte -> list byte
}.

Module Chunked.
Import Str.

Definition MIN_CHUNK_SIZE : Z := 8192.
Definition MAX_CHUNKED_LINE_BYTES : nat := 16 * 1024.
Definition MAX_CHUNKED_TRAILER_BYTES : Z := 64 * 1024.
Definition MAX_CHUNKED_TRAILER_COUNT : Z := 128.

Definition usize_MAX : Z := 2 ^ 64 - 1.

Definition CR : byte := Byte.x0d.
Definition LF : byte := Byte.x0a.

Record StreamingSigningContext := MkContext {
  signing_key : list byte;
  seed_signature : str;
  scope : str;
  timestamp : str;
  access_key_id : str;
  seed_canonical_request : str
}.

(** The reasons of [MalformedChunkedBody] *)
Inductive reason :=
| LineTooLong
| TrailersTooLarge
| NonUtf8ChunkHeader
| InvalidChunkSizeText (size_part : str)
| PreviouslyFailed
| DataAfterComplete
| MissingChunkSignature
| LengthMismatch (remaining : Z)
| ChunkExceedsRemaining (chunk_size remaining : Z)
| MissingCrlf
| NonUtf8Trailer.

Inductive ServerError :=
| MalformedChunkedBody (r : reason)
| InvalidChunkSize (chunk chunk_size min_size : Z)
| ObjectTooLarge (size max : Z)
| IncompleteBody
| SignatureMismatch (access_key_id string_to_sign signature_provided canonical_request : str).

(** ** Lines *)

Fixpoint find_crlf_in (data : list byte) : option nat :=
  match data with
  | a :: (b :: _) as rest =>
      if bool_decide (a = CR) && bool_decide (b = LF) then Some 0%nat else S <$> find_crlf_in rest
  | _ => None
  end.

Definition find_crlf (data : list byte) (start : nat) : option nat :=
  Nat.add start <$> find_crlf_in (drop start data).

Definition chunked_line_too_long : ServerError := MalformedChunkedBody LineTooLong.
Definition chunked_trailers_too_large : ServerError := MalformedChunkedBody TrailersTooLarge.

(** The result, the new [pending] and what is left of [wire] *)
Definition read_crlf_line (pending wire : list byte) :
    outcome ServerError (option (list byte)) * list byte * list byte :=
  if decide (pending = []) then
    match find_crlf wire 0 with
    | Some crlf_pos =>
        if bool_decide (MAX_CHUNKED_LINE_BYTES < crlf_pos)%nat
        then (Err chunked_line_too_long, pending, wire)
        else (Ok (Some (take crlf_pos wire)), pending, drop (crlf_pos + 2) wire)
    | None =>
        if bool_decide (MAX_CHUNKED_LINE_BYTES < length wire)%nat
        then (Err chunked_line_too_long, pending, wire)
        else (Ok None, pending ++ wire, [])
    end
  else if bool_decide (list.last pending = Some CR) && bool_decide (list.head wire = Some LF) then
    let line := take (length pending - 1) pending in
    if bool_decide (MAX_CHUNKED_LINE_BYTES < length line)%nat
    then (Err chunked_line_too_long, pending, wire)
    else (Ok (Some line), [], drop 1 wire)
  else
    let finish pending wire :=
      match find_crlf pending 0 with
      | Some crlf_pos => (Ok (Some (take crlf_pos pending)), drop (crlf_pos + 2) pending, wire)
      | None => (Ok None, pending, wire)
      end in
    match find_crlf wire 0 with
    | Some crlf_pos =>
        if bool_decide (MAX_CHUNKED_LINE_BYTES < length pending + crlf_pos)%nat
        then (Err chunked_line_too_long, pending, wire)
        else finish (pending ++ take (crlf_pos + 2) wire) (drop (crlf_pos + 2) wire)
    | None =>
        if bool_decide (MAX_CHUNKED_LINE_BYTES < length pending + length wire)%nat
        then (Err chunked_line_too_long, pending, wire)
        else finish (pending ++ wire) []
    end.

Definition parse_chunk_header (line : list byte) : outcome ServerError (Z * option str) :=
  line_str ← ok_or (from_utf8 line) (MalformedChunkedBody NonUtf8ChunkHeader);
  let '(size_part, rest) :=
    match split_once 59 line_str with
    | Some (s, r) => (s, Some r)
    | None => (line_str, None)
    end in
  size ← ok_or (from_str_radix 16 usize_MAX (trim size_part))
           (MalformedChunkedBody (InvalidChunkSizeText size_part));
  let sig := ext ← rest; strip_prefix (lit "chunk-signature=") ext in
  mret (size, sig).

(** ** Signatures *)

Definition HEX : list Z := lit "0123456789abcdef".

Definition hex_encode (bytes : list byte) : str :=
  bytes ≫= fun b =>
    [nth (Z.to_nat (Z.shiftr (byte.unsigned b) 4)) HEX 0;
     nth (Z.to_nat (Z.land (byte.unsigned b) 0x0f)) HEX 0].

(** [auth::constant_time_eq] *)
Definition constant_time_eq (a b : list byte) : bool := bool_decide (a = b).

Definition newline : str := [10].

Section crypto.
Context `{Crypto}.

(** [auth::canonical::sha256_hex] *)
Definition sha256_hex (data : list byte) : str := hex_encode (sha256 data).

(** The comparison both signature checks end with *)
Definition check_signature (ctx : StreamingSigningContext) (string_to_sign claimed_sig : str) :
    outcome ServerError () :=
  let expected_hex := hex_encode (hmac_sha256 (signing_key ctx) (as_bytes string_to_sign)) in
  guard_err (negb (constant_time_eq (as_bytes expected_hex) (as_bytes claimed_sig)))
    (SignatureMismatch (access_key_id ctx) string_to_sign claimed_sig (seed_canonical_request ctx)).

Definition chunk_string_to_sign (ctx : StreamingSigningContext) (prev_sig chunk_hash : str) : str :=
  lit "AWS4-HMAC-SHA256-PAYLOAD" ++ newline ++ timestamp ctx ++ newline ++ scope ctx ++ newline ++
  prev_sig ++ newline ++ sha256_hex [] ++ newline ++ chunk_hash.

Definition verify_chunk_signature_hash (ctx : StreamingSigningContext) (prev_sig chunk_hash claimed_sig : str) :
    outcome ServerError () :=
  check_signature ctx (chunk_string_to_sign ctx prev_sig chunk_hash) claimed_sig.

Definition verify_chunk_signature (ctx : StreamingSigningContext) (prev_sig : str) (chunk_data : list byte)
    (claimed_sig : str) : outcome ServerError () :=
  verify_chunk_signature_hash ctx prev_sig (sha256_hex chunk_data) claimed_sig.

Definition TRAILER_SIGNATURE : str := lit "x-amz-trailer-signature".

(** [sort_by(|a, b| a.0.cmp(&b.0))], a stable sort *)
Fixpoint insert_trailer (t : str * str) (l : list (str * str)) : list (str * str) :=
  match l with
  | [] => [t]
  | u :: l' => if str_le (fst u) (fst t) then u :: insert_trailer t l' else t :: l
  end.

Definition sort_trailers (l : list (str * str)) : list (str * str) :=
  foldl (fun acc t => insert_trailer t acc) [] l.

Definition trailer_string_to_sign (ctx : StreamingSigningContext) (prev_sig : str)
    (content_trailers : list (str * str)) : str :=
  let canonical := sort_trailers content_trailers ≫= fun '(k, v) => k ++ lit ":" ++ v ++ newline in
  lit "AWS4-HMAC-SHA256-TRAILER" ++ newline ++ timestamp ctx ++ newline ++ scope ctx ++ newline ++
  prev_sig ++ newline ++ sha256_hex (as_bytes canonical).

Definition is_signature (t : str * str) : bool := bool_decide (fst t = TRAILER_SIGNATURE).

Definition verify_trailer_signature (ctx : StreamingSigningContext) (prev_sig : str)
    (trailers : list (str * str)) : outcome ServerError () :=
  let claimed_sig := snd <$> List.find is_signature trailers in
  let content_trailers := base.filter (fun t => is_signature t = false) trailers in
  if bool_decide (content_trailers = []) && bool_decide (claimed_sig = None) then mret () else
  claimed_sig ← ok_or claimed_sig IncompleteBody;
  check_signature ctx (trailer_string_to_sign ctx prev_sig content_trailers) claimed_sig.

(** ** The decoder *)

Inductive ChunkedDecoderState :=
| ReadingHeader
| ReadingData (chunk_size remaining : Z) (sig : option str)
| ExpectingDataCrlf (seen_cr : bool)
| ReadingTrailers
| Failed
| Done.

Record IncrementalChunkedDecoder := MkDecoder {
  streaming : option StreamingSigningContext;
  trailer_mode : bool;
  prev_sig : option str;
  chunk_number : Z;
  prev_chunk_size : option Z;
  expected_decoded_remaining : option Z;
  current_chunk_hash : option (list byte);
  buf : list byte;
  state : ChunkedDecoderState;
  trailers : list (str * str);
  trailer_bytes : Z;
  trailer_count : Z;
  done : bool
}.

Definition new_with_expected_len (streaming : option StreamingSigningContext) (trailer_mode : bool)
    (expected_decoded_len : option Z) : IncrementalChunkedDecoder :=
  let prev_sig := seed_signature <$> streaming in
  MkDecoder streaming trailer_mode prev_sig 0 None expected_decoded_len None [] ReadingHeader [] 0 0 false.

Definition new (streaming : option StreamingSigningContext) (trailer_mode : bool) : IncrementalChunkedDecoder :=
  new_with_expected_len streaming trailer_mode None.

(** Assignments to the fields of [self] *)
Definition set_state (d : IncrementalChunkedDecoder) (s : ChunkedDecoderState) : IncrementalChunkedDecoder :=
  MkDecoder (streaming d) (trailer_mode d) (prev_sig d) (chunk_number d) (prev_chunk_size d)
    (expected_decoded_remaining d) (current_chunk_hash d) (buf d) s (trailers d) (trailer_bytes d)
    (trailer_count d) (done d).

Definition set_buf (d : IncrementalChunkedDecoder) (b : list byte) : IncrementalChunkedDecoder :=
  MkDecoder (streaming d) (trailer_mode d) (prev_sig d) (chunk_number d) (prev_chunk_size d)
    (expected_decoded_remaining d) (current_chunk_hash d) b (state d) (trailers d) (trailer_bytes d)
    (trailer_count d) (done d).

Definition set_prev_sig (d : IncrementalChunkedDecoder) (s : option str) : IncrementalChunkedDecoder :=
  MkDecoder (streaming d) (trailer_mode d) s (chunk_number d) (prev_chunk_size d)
    (expected_decoded_remaining d) (current_chunk_hash d) (buf d) (state d) (trailers d) (trailer_bytes d)
    (trailer_count d) (done d).

Definition set_hash (d : IncrementalChunkedDecoder) (h : option (list byte)) : IncrementalChunkedDecoder :=
  MkDecoder (streaming d) (trailer_mode d) (prev_sig d) (chunk_number d) (prev_chunk_size d)
    (expected_decoded_remaining d) h (buf d) (state d) (trailers d) (trailer_bytes d)
    (trailer_count d) (done d).

Definition set_remaining (d : IncrementalChunkedDecoder) (r : option Z) : IncrementalChunkedDecoder :=
  MkDecoder (streaming d) (trailer_mode d) (prev_sig d) (chunk_number d) (prev_chunk_size d)
    r (current_chunk_hash d) (buf d) (state d) (trailers d) (trailer_bytes d)
    (trailer_count d) (done d).

Definition set_chunk (d : IncrementalChunkedDecoder) (size number : Z) : IncrementalChunkedDecoder :=
  MkDecoder (streaming d) (trailer_mode d) (prev_sig d) number (Some size)
    (expected_decoded_remaining d) (current_chunk_hash d) (buf d) (state d) (trailers d) (trailer_bytes d)
    (trailer_count d) (done d).

Definition set_trailers (d : IncrementalChunkedDecoder) (t : list (str * str)) (bytes count : Z) (fin : bool) :
    IncrementalChunkedDecoder :=
  MkDecoder (streaming d) (trailer_mode d) (prev_sig d) (chunk_number d) (prev_chunk_size d)
    (expected_decoded_remaining d) (current_chunk_hash d) (buf d) (state d) t bytes count fin.

(** The arm [ReadingHeader] once the header line is parsed *)
Definition accept_header (d : IncrementalChunkedDecoder) (chunk_size : Z) (chunk_sig : option str) :
    outcome ServerError IncrementalChunkedDecoder :=
  _ ← guard_err (bool_decide (streaming d <> None) && bool_decide (chunk_sig = None))
        (MalformedChunkedBody MissingChunkSignature);
  if chunk_size =? 0 then
    _ ← match expected_decoded_remaining d with
        | Some remaining => guard_err (negb (remaining =? 0)) (MalformedChunkedBody (LengthMismatch remaining))
        | None => mret ()
        end;
    d ← match streaming d with
        | Some ctx =>
            sig ← unwrap chunk_sig;
            prev ← unwrap (prev_sig d);
            _ ← verify_chunk_signature ctx prev [] sig;
            mret (set_prev_sig d (Some sig))
        | None => mret d
        end;
    mret (set_state d ReadingTrailers)
  else
    _ ← match prev_chunk_size d with
        | Some prev_size =>
            guard_err (prev_size <? MIN_CHUNK_SIZE) (InvalidChunkSize (chunk_number d) prev_size MIN_CHUNK_SIZE)
        | None => mret ()
        end;
    _ ← match expected_decoded_remaining d with
        | Some remaining =>
            guard_err (remaining <? chunk_size) (MalformedChunkedBody (ChunkExceedsRemaining chunk_size remaining))
        | None => mret ()
        end;
    mret (set_state (set_hash d ((fun _ => []) <$> streaming d)) (ReadingData chunk_size chunk_size chunk_sig)).

(** The arm [ReadingData] once the chunk is complete *)
Definition finish_chunk (d : IncrementalChunkedDecoder) (chunk_size : Z) (sig : option str) :
    outcome ServerError IncrementalChunkedDecoder :=
  d ← match streaming d with
      | Some ctx =>
          s ← unwrap sig;
          hashed ← unwrap (current_chunk_hash d);
          prev ← unwrap (prev_sig d);
          _ ← verify_chunk_signature_hash ctx prev (hex_encode (sha256 hashed)) s;
          mret (set_prev_sig (set_hash d None) (Some s))
      | None => mret d
      end;
  mret (set_state (set_chunk d chunk_size (chunk_number d + 1)) (ExpectingDataCrlf false)).

(** The bytes of a chunk that this slice of the wire has: hashed and counted *)
Definition take_data (d : IncrementalChunkedDecoder) (chunk_data : list byte) (chunk_size remaining : Z)
    (sig : option str) : outcome ServerError IncrementalChunkedDecoder :=
  let d := set_hash d ((fun hashed => hashed ++ chunk_data) <$> current_chunk_hash d) in
  decoded ← match expected_decoded_remaining d with
            | Some n => if n <? Z.of_nat (length chunk_data) then Panic
                        else mret (Some (n - Z.of_nat (length chunk_data)))
            | None => mret None
            end;
  mret (set_state (set_remaining d decoded) (ReadingData chunk_size remaining sig)).

(** The arm [ReadingTrailers] at the empty line *)
Definition finish_trailers (d : IncrementalChunkedDecoder) : outcome ServerError IncrementalChunkedDecoder :=
  _ ← match trailer_mode d, streaming d with
      | true, Some ctx => prev ← unwrap (prev_sig d); verify_trailer_signature ctx prev (trailers d)
      | _, _ => mret ()
      end;
  let kept := base.filter (fun t => is_signature t = false) (trailers d) in
  mret (set_state (set_trailers d kept (trailer_bytes d) (trailer_count d) true) Done).

(** The arm [ReadingTrailers] at another line: it is counted, also when it is refused. *)
Definition count_trailer (d : IncrementalChunkedDecoder) (line : list byte) : IncrementalChunkedDecoder :=
  set_trailers d (trailers d) (trailer_bytes d + (Z.of_nat (length line) + 2)) (trailer_count d + 1) (done d).

Definition add_trailer (d : IncrementalChunkedDecoder) (line : list byte) :
    outcome ServerError IncrementalChunkedDecoder :=
  _ ← guard_err ((MAX_CHUNKED_TRAILER_COUNT <? trailer_count d) || (MAX_CHUNKED_TRAILER_BYTES <? trailer_bytes d))
        chunked_trailers_too_large;
  line_str ← ok_or (from_utf8 line) (MalformedChunkedBody NonUtf8Trailer);
  '(key, value) ← ok_or (split_once 58 line_str) IncompleteBody;
  mret (set_trailers d (trailers d ++ [(to_ascii_lowercase (trim key), trim value)]) (trailer_bytes d)
          (trailer_count d) (done d)).

(** One turn of the loop of [feed_inner]: whether it goes on, ends or fails, the
    decoder, the rest of the wire and the payload it adds *)
Inductive flow := Continue | Break.

Record turn := MkTurn {
  result : outcome ServerError flow;
  decoder : IncrementalChunkedDecoder;
  wire : list byte;
  payload : list byte
}.

(** A turn that ends with a fallible step from the decoder [d]; an error leaves [d]. *)
Definition turn_from (d : IncrementalChunkedDecoder) (m : outcome ServerError IncrementalChunkedDecoder)
    (f : flow) (wire payload : list byte) : turn :=
  match m with
  | Ok d' => MkTurn (Ok f) d' wire payload
  | Err e => MkTurn (Err e) d wire payload
  | Panic => MkTurn Panic d wire payload
  end.

(** The arm [ReadingHeader] *)
Definition header_turn (d : IncrementalChunkedDecoder) (wire : list byte) : turn :=
  let '(r, pending, wire) := read_crlf_line (buf d) wire in
  let d := set_buf d pending in
  match r with
  | Ok (Some line) =>
      turn_from d ('(chunk_size, chunk_sig) ← parse_chunk_header line; accept_header d chunk_size chunk_sig)
        Continue wire []
  | Ok None => MkTurn (Ok Break) d wire []
  | Err e => MkTurn (Err e) d wire []
  | Panic => MkTurn Panic d wire []
  end.

(** The arm [ReadingData] *)
Definition data_turn (d : IncrementalChunkedDecoder) (chunk_size remaining : Z) (sig : option str)
    (wire : list byte) : turn :=
  match wire with
  | [] => MkTurn (Ok Break) d [] []
  | _ =>
      let n := Nat.min (Z.to_nat remaining) (length wire) in
      let chunk_data := take n wire in
      let wire := drop n wire in
      let remaining := remaining - Z.of_nat n in
      match take_data d chunk_data chunk_size remaining sig with
      | Ok d =>
          if negb (remaining =? 0) then MkTurn (Ok Break) d wire chunk_data
          else turn_from d (finish_chunk d chunk_size sig) Continue wire chunk_data
      | Err e => MkTurn (Err e) d wire []
      | Panic => MkTurn Panic d wire []
      end
  end.

(** The arm [ExpectingDataCrlf] *)
Definition lf_turn (d : IncrementalChunkedDecoder) (wire : list byte) : turn :=
  match wire with
  | [] => MkTurn (Ok Break) d [] []
  | b :: rest =>
      if bool_decide (b <> LF) then MkTurn (Err (MalformedChunkedBody MissingCrlf)) d wire []
      else MkTurn (Ok Continue) (set_state d ReadingHeader) rest []
  end.

Definition crlf_turn (d : IncrementalChunkedDecoder) (seen_cr : bool) (wire : list byte) : turn :=
  if seen_cr then lf_turn d wire else
  match wire with
  | [] => MkTurn (Ok Break) d [] []
  | b :: rest =>
      if bool_decide (b <> CR) then MkTurn (Err (MalformedChunkedBody MissingCrlf)) d wire []
      else lf_turn (set_state d (ExpectingDataCrlf true)) rest
  end.

(** The arm [ReadingTrailers], one line of its inner loop: while the state stays
    the same the next line is the next turn. *)
Definition trailers_turn (d : IncrementalChunkedDecoder) (wire : list byte) : turn :=
  let '(r, pending, wire) := read_crlf_line (buf d) wire in
  let d := set_buf d pending in
  match r with
  | Ok (Some []) => turn_from d (finish_trailers d) Break wire []
  | Ok (Some line) =>
      let d := count_trailer d line in
      turn_from d (add_trailer d line) Continue wire []
  | Ok None => MkTurn (Ok Break) d wire []
  | Err e => MkTurn (Err e) d wire []
  | Panic => MkTurn Panic d wire []
  end.

Definition feed_turn (d : IncrementalChunkedDecoder) (wire : list byte) : turn :=
  match state d with
  | ReadingHeader => header_turn d wire
  | ReadingData chunk_size remaining sig => data_turn d chunk_size remaining sig wire
  | ExpectingDataCrlf seen_cr => crlf_turn d seen_cr wire
  | ReadingTrailers => trailers_turn d wire
  | Failed => MkTurn Panic d wire []
  | Done => MkTurn (Ok Break) d wire []
  end.

(** The loop; every turn that goes on consumes a byte of the wire. *)
Fixpoint feed_loop (fuel : nat) (d : IncrementalChunkedDecoder) (w : list byte) (out : list byte) :
    outcome ServerError (list byte) * IncrementalChunkedDecoder :=
  match fuel with
  | O => (Panic, d)
  | S fuel =>
      let t := feed_turn d w in
      match result t with
      | Ok Continue => feed_loop fuel (decoder t) (wire t) (out ++ payload t)
      | Ok Break => (Ok (out ++ payload t), decoder t)
      | Err e => (Err e, decoder t)
      | Panic => (Panic, decoder t)
      end
  end.

Definition feed_inner (d : IncrementalChunkedDecoder) (wire : list byte) :
    outcome ServerError (list byte) * IncrementalChunkedDecoder :=
  if done d then (Err (MalformedChunkedBody DataAfterComplete), d)
  else feed_loop (S (length wire)) d wire [].

Definition is_err {E A} (m : outcome E A) : bool := match m with Err _ => true | _ => false end.

Definition feed (d : IncrementalChunkedDecoder) (wire : list byte) :
    outcome ServerError (list byte) * IncrementalChunkedDecoder :=
  match state d with
  | Failed => (Err (MalformedChunkedBody PreviouslyFailed), d)
  | _ =>
      let '(result, d) := feed_inner d wire in
      if is_err result && negb (done d) then (result, set_hash (set_state d Failed) None) else (result, d)
  end.

Definition is_done (d : IncrementalChunkedDecoder) : bool := done d.

Definition into_trailers (d : IncrementalChunkedDecoder) : list (str * str) := trailers d.
End crypto.
End Chunked.
