(* ===== verification/ChunkedSpec.v ===== *)
(** The incremental aws-chunked decoder: lines, invariant and well-formed bodies.

    The line reader behaves like one that looks at all bytes received so far; no
    turn of the loop panics and the loop ends; and the predicates that say what a
    well-formed body is: signatures that form a chain from the seed, chunks that
    are large enough, and the announced length. *)

From Stdlib Require Import ZifyBool.
From stdpp Require Import strings.
From S2P Require Import Prelude Str Chunked.

Local Open Scope Z_scope.

Module ChunkedSpec.
Import Str Chunked.

(** * Lines *)

Definition CRLF : list byte := [CR; LF].

Lemma find_crlf_0 l : find_crlf l 0 = find_crlf_in l.
Proof. unfold find_crlf. rewrite drop_0. by destruct (find_crlf_in l). Qed.

Lemma find_crlf_cons a b l :
  find_crlf_in (a :: b :: l) =
  if bool_decide (a = CR) && bool_decide (b = LF) then Some 0%nat else S <$> find_crlf_in (b :: l).
Proof. done. Qed.

(** A CRLF found in a prefix is the first one of the whole. *)
Lemma find_crlf_prefix a b pos : find_crlf_in a = Some pos -> find_crlf_in (a ++ b) = Some pos.
Proof.
  revert pos. induction a as [|x [|y a] IH]; intros pos; [done..|].
  rewrite find_crlf_cons. change ((x :: y :: a) ++ b) with (x :: y :: a ++ b). rewrite find_crlf_cons.
  destruct (_ && _); [done|]. intros (p & Hp & ->)%fmap_Some.
  change (y :: a ++ b) with ((y :: a) ++ b). by rewrite (IH p Hp).
Qed.

Lemma find_crlf_bound l pos : find_crlf_in l = Some pos -> (pos + 2 <= length l)%nat.
Proof.
  revert pos. induction l as [|x [|y l] IH]; intros pos; [done..|]. rewrite find_crlf_cons.
  destruct (_ && _); [intros [= <-]; simpl; lia|]. intros (p & Hp & ->)%fmap_Some.
  apply IH in Hp. simpl in *. lia.
Qed.

Lemma find_crlf_take l pos : find_crlf_in l = Some pos -> find_crlf_in (take (pos + 2) l) = Some pos.
Proof.
  revert pos. induction l as [|x [|y l] IH]; intros pos; [done..|]. rewrite find_crlf_cons.
  destruct (bool_decide (x = CR) && bool_decide (y = LF)) eqn:Hxy.
  - intros [= <-]. simpl. by rewrite Hxy.
  - intros (p & Hp & ->)%fmap_Some. apply IH in Hp.
    change (take (S p + 2) (x :: y :: l)) with (x :: take (p + 2) (y :: l)).
    rewrite Nat.add_comm in Hp |- *. simpl in Hp |- *. rewrite Hxy. by rewrite Hp.
Qed.

(** Appending to bytes without CRLF: it is inside the second part or across *)
Lemma find_crlf_app a b :
  find_crlf_in a = None ->
  find_crlf_in (a ++ b) =
  if bool_decide (list.last a = Some CR) && bool_decide (list.head b = Some LF) then Some (length a - 1)%nat
  else Nat.add (length a) <$> find_crlf_in b.
Proof.
  induction a as [|x [|y a] IH]; intros Ha.
  - simpl. by destruct (find_crlf_in b).
  - destruct b as [|y b]; [simpl; by rewrite andb_false_r|].
    change ([x] ++ y :: b) with (x :: y :: b). rewrite find_crlf_cons. simpl.
    rewrite (bool_decide_ext (Some x = Some CR) (x = CR)), (bool_decide_ext (Some y = Some LF) (y = LF)) by naive_solver.
    done.
  - rewrite find_crlf_cons in Ha. change ((x :: y :: a) ++ b) with (x :: y :: a ++ b). rewrite find_crlf_cons.
    destruct (bool_decide (x = CR) && bool_decide (y = LF)); [done|].
    destruct (find_crlf_in (y :: a)) eqn:Hya; [done|].
    change (y :: a ++ b) with ((y :: a) ++ b). rewrite IH by done.
    change (list.last (x :: y :: a)) with (list.last (y :: a)).
    destruct (_ && _); [simpl; f_equal; lia|]. by destruct (find_crlf_in b).
Qed.

(** The line reader sees [pending] and [wire] as one buffer. *)
Lemma read_crlf_line_spec pending wire :
  find_crlf_in pending = None ->
  read_crlf_line pending wire =
  match find_crlf_in (pending ++ wire) with
  | Some pos =>
      if bool_decide (MAX_CHUNKED_LINE_BYTES < pos)%nat then (Err chunked_line_too_long, pending, wire)
      else (Ok (Some (take pos (pending ++ wire))), [], drop (pos + 2) (pending ++ wire))
  | None =>
      if bool_decide (MAX_CHUNKED_LINE_BYTES < length (pending ++ wire))%nat
      then (Err chunked_line_too_long, pending, wire)
      else (Ok None, pending ++ wire, [])
  end.
Proof.
  intros Hp. unfold read_crlf_line. rewrite !find_crlf_0. case_decide as Hnil; [by subst|].
  rewrite (find_crlf_app pending wire Hp). destruct (_ && _) eqn:Hcut.
  - apply andb_prop in Hcut as [Hl Hh]. apply bool_decide_eq_true in Hl, Hh.
    assert (0 < length pending)%nat by (destruct pending; simpl; [done|lia]).
    rewrite length_take, Nat.min_l by lia. destruct (bool_decide (MAX_CHUNKED_LINE_BYTES < _)%nat); [done|].
    rewrite take_app_le, drop_app_ge by lia.
    replace (length pending - 1 + 2 - length pending)%nat with 1%nat by lia. done.
  - destruct (find_crlf_in wire) as [c|] eqn:Hw; simpl.
    + destruct (bool_decide (MAX_CHUNKED_LINE_BYTES < _)%nat); [done|]. pose proof (find_crlf_bound _ _ Hw) as Hb.
      rewrite find_crlf_0, (find_crlf_app pending _ Hp).
      replace (list.head (take (c + 2) wire)) with (list.head wire) by (destruct wire; [done|by rewrite Nat.add_comm]).
      rewrite Hcut.
      rewrite (find_crlf_take _ _ Hw).
      simpl. rewrite !take_app_ge, drop_app_ge, take_take by lia.
      f_equal; [f_equal|].
      * do 3 f_equal. f_equal. lia.
      * apply drop_ge. rewrite ?length_app, ?length_take. lia.
      * rewrite drop_app_ge by lia. f_equal. lia.
    + rewrite length_app. destruct (bool_decide (MAX_CHUNKED_LINE_BYTES < _)%nat); [done|]. done.
Qed.

(** Compute the fields of an updated decoder. *)
Ltac fields := cbn [set_state set_buf set_prev_sig set_hash set_remaining set_chunk set_trailers streaming
  trailer_mode prev_sig chunk_number prev_chunk_size expected_decoded_remaining current_chunk_hash buf state
  trailers trailer_bytes trailer_count done].

Section crypto.
Context `{Crypto}.

(** * The invariant of the decoder *)

(** What holds in every state: no whole line is pending, a signed body has a
    previous signature, the announced length is not negative. *)
Definition base_inv (d : IncrementalChunkedDecoder) : Prop :=
  find_crlf_in (buf d) = None /\ (length (buf d) <= MAX_CHUNKED_LINE_BYTES)%nat /\
  (streaming d <> None -> prev_sig d <> None) /\
  (forall n, expected_decoded_remaining d = Some n -> 0 <= n).

Definition state_inv (d : IncrementalChunkedDecoder) : Prop :=
  match state d with
  | ReadingHeader | ReadingTrailers => done d = false
  | ReadingData chunk_size remaining sig =>
      done d = false /\ buf d = [] /\ 0 < remaining <= chunk_size /\
      (streaming d <> None -> sig <> None /\ current_chunk_hash d <> None) /\
      (forall n, expected_decoded_remaining d = Some n -> remaining <= n)
  | ExpectingDataCrlf _ => done d = false /\ buf d = []
  | Failed => False
  | Done => done d = true
  end.

(** The invariant of a decoder that has not failed *)
Definition decoder_inv (d : IncrementalChunkedDecoder) : Prop := base_inv d /\ state_inv d.

Lemma new_inv st tm expected :
  (forall n, expected = Some n -> 0 <= n) -> decoder_inv (new_with_expected_len st tm expected).
Proof.
  intros He. split; [|done]. split; [done|]. split; [simpl; unfold MAX_CHUNKED_LINE_BYTES; lia|].
  split; [by destruct st|done].
Qed.

Lemma inv_done d : decoder_inv d -> done d = true -> state d = Done.
Proof.
  intros [_ Hs] Hd. unfold state_inv in Hs. rewrite Hd in Hs.
  destruct (state d); [done|by destruct Hs|by destruct Hs|done|done|done].
Qed.

Lemma max_line_pos : (0 < MAX_CHUNKED_LINE_BYTES)%nat.
Proof. unfold MAX_CHUNKED_LINE_BYTES. lia. Qed.

(** The line reader keeps the pending bytes free of lines and consumes a byte for
    each line. *)
Lemma read_line_inv d w r pending rest :
  base_inv d -> read_crlf_line (buf d) w = (r, pending, rest) ->
  r <> Panic /\ base_inv (set_buf d pending) /\
  (forall line, r = Ok (Some line) -> pending = [] /\ (length rest < length w)%nat).
Proof.
  intros (Hb & Hlen & Hrest). rewrite (read_crlf_line_spec _ _ Hb).
  assert (forall b, find_crlf_in b = None -> (length b <= MAX_CHUNKED_LINE_BYTES)%nat -> base_inv (set_buf d b)) as Hset
    by (intros b Hb1 Hb2; split; [done|split; [done|exact Hrest]]).
  destruct (find_crlf_in (buf d ++ w)) as [pos|] eqn:Hf; (case_bool_decide as Hmax; intros [= <- <- <-]).
  - split; [done|]. split; [by apply Hset|done].
  - split; [done|]. split; [apply Hset; [done|simpl; lia]|]. intros line [= <-]. split; [done|].
    rewrite length_drop, length_app. pose proof (find_crlf_bound _ _ Hf) as Hbound. rewrite length_app in Hbound.
    enough (length (buf d) < pos + 2)%nat by lia.
    rewrite (find_crlf_app _ _ Hb) in Hf. destruct (_ && _) eqn:Hc; [injection Hf as <-; lia|].
    destruct (find_crlf_in w); [|done]. injection Hf as <-. lia.
  - split; [done|]. split; [by apply Hset|done].
  - split; [done|]. split; [apply Hset; [done|lia]|done].
Qed.

(** What a turn does: it does not panic, keeps the invariant, and consumes a byte
    of the wire when the loop goes on. *)
Definition turn_ok (w : list byte) (t : turn) : Prop :=
  match result t with
  | Ok f => decoder_inv (decoder t) /\ (f = Continue -> (length (wire t) < length w)%nat)
  | Err _ => base_inv (decoder t) /\ done (decoder t) = false
  | Panic => False
  end.

Lemma turn_from_ok w d m f rest out :
  base_inv d -> done d = false -> (f = Continue -> (length rest < length w)%nat) ->
  wp m decoder_inv (fun _ => True) -> turn_ok w (turn_from d m f rest out).
Proof. intros Hb Hd Hl Hm. destruct m; simpl in *; unfold turn_ok; simpl; [done|done|done]. Qed.

Lemma accept_header_inv d chunk_size chunk_sig :
  base_inv d -> done d = false -> buf d = [] -> 0 <= chunk_size ->
  wp (accept_header d chunk_size chunk_sig) decoder_inv (fun _ => True).
Proof.
  intros Hb Hd Hbuf Hs. pose proof Hb as (Hcr & Hlen & Hprev & Hexp). unfold accept_header.
  apply wp_bind, wp_guard; [intros Hg|done].
  assert (streaming d <> None -> chunk_sig <> None) as Hsig.
  { intros Hst ->. rewrite bool_decide_eq_true_2, bool_decide_eq_true_2 in Hg by done. done. }
  destruct (Z.eqb_spec chunk_size 0) as [->|Hnz].
  - apply wp_bind. destruct (expected_decoded_remaining d) eqn:He; [apply wp_guard; [intros _|done]|apply wp_ret].
    all: apply wp_bind; destruct (streaming d) as [ctx|] eqn:Hst; [|by apply wp_ret, wp_ret].
    all: destruct chunk_sig as [sig|]; [|by destruct Hsig]; destruct (prev_sig d) as [prev|] eqn:Hp; [|by destruct Hprev].
    all: cbn [unwrap]; bind_step; unfold verify_chunk_signature, verify_chunk_signature_hash, check_signature;
      apply wp_bind, wp_guard; [intros _|done]; apply wp_ret, wp_ret.
    all: split; [|exact Hd]; split; [exact Hcr|split; [exact Hlen|split; [by intros _|apply Hb]]].
  - apply wp_bind. destruct (prev_chunk_size d); [apply wp_guard; [intros _|done]|apply wp_ret].
    all: apply wp_bind; destruct (expected_decoded_remaining d) as [n|] eqn:He;
      [apply wp_guard; [intros Hn|done]|apply wp_ret]; apply wp_ret.
    all: split; [exact Hb|]; unfold state_inv; fields; split; [done|split; [done|split; [lia|split; [intros Hst; split; [by apply Hsig|destruct (streaming d); simpl; congruence]|rewrite He]]]]; intros m [= <-]; lia.
Qed.

Lemma finish_chunk_inv d chunk_size sig :
  base_inv d -> done d = false -> buf d = [] ->
  (streaming d <> None -> sig <> None /\ current_chunk_hash d <> None) ->
  wp (finish_chunk d chunk_size sig) decoder_inv (fun _ => True).
Proof.
  intros Hb Hd Hbuf Hs. pose proof Hb as (Hcr & Hlen & Hprev & _). unfold finish_chunk. apply wp_bind.
  destruct (streaming d) as [ctx|] eqn:Hst; [|by apply wp_ret, wp_ret].
  destruct Hs as [Hs1 Hs2]; [done|]. destruct sig as [s|]; [|done].
  destruct (current_chunk_hash d) as [hashed|]; [|done]. destruct (prev_sig d) as [prev|]; [|by destruct Hprev].
  cbn [unwrap]. bind_step. unfold verify_chunk_signature_hash, check_signature.
  apply wp_bind, wp_guard; [intros _|done]. apply wp_ret, wp_ret.
  split; [|done]. split; [exact Hcr|split; [exact Hlen|split; [by intros _|apply Hb]]].
Qed.

Lemma finish_trailers_inv d :
  base_inv d -> wp (finish_trailers d) decoder_inv (fun _ => True).
Proof.
  intros Hb. pose proof Hb as (_ & _ & Hprev & _). unfold finish_trailers. apply wp_bind.
  assert (decoder_inv (set_state (set_trailers d (base.filter (fun t => is_signature t = false) (trailers d))
    (trailer_bytes d) (trailer_count d) true) Done)) as Hfin by (by split).
  destruct (trailer_mode d); [|by apply wp_ret]. destruct (streaming d) as [ctx|]; [|by apply wp_ret].
  destruct (prev_sig d) as [prev|]; [|by destruct Hprev]. cbn [unwrap]. bind_step.
  unfold verify_trailer_signature. case_match; [by apply wp_ret|]. apply wp_bind.
  destruct (snd <$> List.find is_signature (trailers d)); [|done]. simpl. unfold check_signature.
  by apply wp_guard.
Qed.

Lemma add_trailer_inv d line :
  decoder_inv d -> state d = ReadingTrailers -> wp (add_trailer d line) decoder_inv (fun _ => True).
Proof.
  intros [Hb Hs] Hst. unfold add_trailer. apply wp_bind, wp_guard; [intros _|done]. apply wp_bind.
  destruct (from_utf8 line) as [s|]; [|done]. simpl. apply wp_bind.
  destruct (split_once 58 s) as [[k v]|]; [|done]. simpl.
  split; [exact Hb|]. unfold state_inv in *. fields. rewrite Hst in *. done.
Qed.

Lemma parse_chunk_header_range line :
  wp (parse_chunk_header line) (fun '(size, _) => 0 <= size <= usize_MAX) (fun _ => True).
Proof.
  unfold parse_chunk_header. apply wp_bind. destruct (from_utf8 line) as [s|]; [|done]. simpl.
  assert (forall size_part rest, wp (size ← ok_or (from_str_radix 16 usize_MAX (trim size_part))
    (MalformedChunkedBody (InvalidChunkSizeText size_part));
    mret (size, ext ← rest; strip_prefix (lit "chunk-signature=") ext)) (fun '(size, _) => 0 <= size <= usize_MAX)
    (fun _ => True)) as Hrest.
  { intros size_part rest. apply wp_bind. destruct (from_str_radix _ _ _) as [n|] eqn:Hn; [|done].
    apply from_str_radix_range in Hn; [|lia|unfold usize_MAX; lia]. simpl. lia. }
  destruct (split_once 59 s) as [[a b]|]; apply Hrest.
Qed.

Lemma header_turn_ok d w : decoder_inv d -> state d = ReadingHeader -> turn_ok w (header_turn d w).
Proof.
  intros [Hb Hs] Hst. unfold state_inv in Hs. rewrite Hst in Hs. unfold header_turn.
  destruct (read_crlf_line (buf d) w) as [[r pending] rest] eqn:Hr.
  destruct (read_line_inv d w r pending rest Hb Hr) as (Hnp & Hb' & Hline).
  destruct r as [[line|]|e|]; [| |done|done].
  - destruct (Hline line eq_refl) as [-> Hlt]. apply turn_from_ok; [done|done|done|].
    apply wp_bind. eapply wp_mono; [apply parse_chunk_header_range|simpl|done].
    intros [size sig] [Hsize _]. by apply accept_header_inv.
  - split; [|done]. split; [done|]. unfold state_inv. simpl. by rewrite Hst.
Qed.

Lemma trailers_turn_ok d w : decoder_inv d -> state d = ReadingTrailers -> turn_ok w (trailers_turn d w).
Proof.
  intros [Hb Hs] Hst. pose proof Hs as Hd. unfold state_inv in Hd. rewrite Hst in Hd. unfold trailers_turn.
  destruct (read_crlf_line (buf d) w) as [[r pending] rest] eqn:Hr.
  destruct (read_line_inv d w r pending rest Hb Hr) as (Hnp & Hb' & Hline).
  assert (decoder_inv (set_buf d pending)) as Hinv by (split; [done|unfold state_inv; simpl; by rewrite Hst]).
  destruct r as [[[|b line]|]|e|]; [| | |done|done].
  - apply turn_from_ok; [done|done|done|by apply finish_trailers_inv].
  - destruct (Hline (b :: line) eq_refl) as [-> Hlt]. apply turn_from_ok; [done|done|done|by apply (add_trailer_inv (count_trailer (set_buf d []) (b :: line)))].
  - done.
Qed.

Lemma data_turn_ok d size remaining sig w :
  decoder_inv d -> state d = ReadingData size remaining sig -> turn_ok w (data_turn d size remaining sig w).
Proof.
  intros [Hb Hs] Hst. unfold state_inv in Hs. rewrite Hst in Hs. destruct Hs as (Hd & Hbuf & Hrem & Hsig & Hexp).
  destruct w as [|b w]; [split; [split; [done|unfold state_inv; simpl; by rewrite Hst]|done]|]. unfold data_turn.
  set (n := Nat.min (Z.to_nat remaining) (length (b :: w))).
  assert (length (take n (b :: w)) = n) as Hn by (rewrite length_take; lia).
  assert (0 < n)%nat by (unfold n; simpl; lia).
  assert (exists d', take_data d (take n (b :: w)) size (remaining - Z.of_nat n) sig = Ok d' /\
    base_inv d' /\ done d' = false /\ buf d' = [] /\
    (streaming d' <> None -> sig <> None /\ current_chunk_hash d' <> None) /\
    state d' = ReadingData size (remaining - Z.of_nat n) sig /\
    (forall k, expected_decoded_remaining d' = Some k -> remaining - Z.of_nat n <= k))
    as (d' & -> & Hb' & Hd' & Hbuf' & Hsig' & Hst' & Hexp').
  { pose proof Hb as (Hcr & Hlen & Hprev & Hnn). unfold take_data. fields. rewrite Hn.
    assert (streaming d <> None -> sig <> None /\
      (fun hashed => hashed ++ take n (b :: w)) <$> current_chunk_hash d <> None) as Hsig'.
    { intros Hst'. destruct (Hsig Hst') as [? ?]. by destruct (current_chunk_hash d). }
    destruct (expected_decoded_remaining d) as [k|] eqn:Hk.
    - specialize (Hexp k eq_refl). rewrite (proj2 (Z.ltb_ge _ _)) by lia. bind_step.
      eexists. split; [done|]. split; [split; [done|split; [done|split; [done|fields; intros ? [= <-]; lia]]]|].
      split; [done|]. split; [done|]. split; [done|]. split; [done|]. fields. intros ? [= <-]. lia.
    - bind_step. eexists. split; [done|]. split; [split; [done|split; [done|split; [done|done]]]|]. done. }
  destruct (Z.eqb_spec (remaining - Z.of_nat n) 0) as [Hz|Hz]; cbn [negb].
  - apply turn_from_ok; [done|done|rewrite length_drop; simpl; lia|by apply finish_chunk_inv].
  - split; [|done]. split; [done|]. unfold state_inv. cbn [decoder]. rewrite Hst'.
    split; [done|]. split; [done|]. split; [lia|]. split; [done|done].
Qed.

Lemma lf_turn_ok d w :
  decoder_inv d -> state d = ExpectingDataCrlf true -> turn_ok w (lf_turn d w).
Proof.
  intros [Hb Hs] Hst. pose proof Hs as Hs'. unfold state_inv in Hs'. rewrite Hst in Hs'. destruct Hs' as [Hd Hbuf].
  destruct w as [|b w]; simpl; [done|]. case_bool_decide; [done|]. split; [|simpl; lia]. by split.
Qed.

Lemma crlf_turn_ok d seen w :
  decoder_inv d -> state d = ExpectingDataCrlf seen -> turn_ok w (crlf_turn d seen w).
Proof.
  intros Hinv Hst. destruct seen; [by apply lf_turn_ok|]. pose proof Hinv as [Hb Hs].
  unfold state_inv in Hs. rewrite Hst in Hs. destruct Hs as [Hd Hbuf].
  destruct w as [|b w]; simpl; [done|]. case_bool_decide; [done|].
  assert (turn_ok w (lf_turn (set_state d (ExpectingDataCrlf true)) w)) as Ht by (apply lf_turn_ok; [by split|done]).
  unfold turn_ok in *. destruct (result _) as [f| |]; [|done..]. destruct Ht as [Ht1 Ht2].
  split; [done|]. simpl. intros Hf. specialize (Ht2 Hf). lia.
Qed.

Lemma feed_turn_ok d w : decoder_inv d -> turn_ok w (feed_turn d w).
Proof.
  intros Hinv. unfold feed_turn. destruct (state d) as [|size rem sig|seen| | |] eqn:Hst.
  - by apply header_turn_ok.
  - by apply data_turn_ok.
  - by apply crlf_turn_ok.
  - by apply trailers_turn_ok.
  - destruct Hinv as [_ Hs]. unfold state_inv in Hs. by rewrite Hst in Hs.
  - done.
Qed.

(** The loop ends within the fuel [feed_inner] gives it. *)
Lemma feed_loop_ok fuel : forall d w out,
  decoder_inv d -> (length w < fuel)%nat ->
  match feed_loop fuel d w out with
  | (Ok _, d') => decoder_inv d'
  | (Err _, d') => base_inv d' /\ done d' = false
  | (Panic, _) => False
  end.
Proof.
  induction fuel as [|fuel IH]; intros d w out Hinv Hf; [lia|]. simpl.
  pose proof (feed_turn_ok d w Hinv) as Ht. unfold turn_ok in Ht.
  destruct (result (feed_turn d w)) as [[|]|e|]; [|by destruct Ht|done|done].
  destruct Ht as [Hinv' Hlt]. specialize (Hlt eq_refl). apply IH; [done|lia].
Qed.

(** The invariant of any decoder *)
Definition feed_inv (d : IncrementalChunkedDecoder) : Prop :=
  decoder_inv d \/ (base_inv d /\ state d = Failed /\ done d = false).

(** Feeding several slices one after the other, as long as each succeeds *)
Fixpoint feed_all (d : IncrementalChunkedDecoder) (slices : list (list byte)) :
    outcome ServerError (list byte) * IncrementalChunkedDecoder :=
  match slices with
  | [] => (Ok [], d)
  | w :: slices =>
      match feed d w with
      | (Ok p, d') => let '(r, d'') := feed_all d' slices in (q ← r; mret (p ++ q), d'')
      | r => r
      end
  end.

(** * Signatures *)

(** The signature of [data] in the chain behind the signature [prev] *)
Definition chunk_signature (ctx : StreamingSigningContext) (prev : str) (data : list byte) : str :=
  hex_encode (hmac_sha256 (signing_key ctx) (as_bytes (chunk_string_to_sign ctx prev (sha256_hex data)))).

(** The signature of the trailers behind the one of the terminal chunk *)
Definition trailer_signature (ctx : StreamingSigningContext) (prev : str) (content : list (str * str)) : str :=
  hex_encode (hmac_sha256 (signing_key ctx) (as_bytes (trailer_string_to_sign ctx prev content))).

(** The trailers that are not signatures *)
Definition content_of (ts : list (str * str)) : list (str * str) := base.filter (fun t => is_signature t = false) ts.

(** Trailers carry the signature of their content, unless there are none; the first
    signature counts. *)
Definition trailers_signed (ctx : StreamingSigningContext) (prev : str) (ts : list (str * str)) : Prop :=
  ts = [] \/
  exists t, List.find is_signature ts = Some t /\ as_bytes t.2 = as_bytes (trailer_signature ctx prev (content_of ts)).

Lemma check_signature_Ok ctx text s :
  check_signature ctx text s = Ok () <->
  as_bytes s = as_bytes (hex_encode (hmac_sha256 (signing_key ctx) (as_bytes text))).
Proof.
  unfold check_signature, constant_time_eq. split.
  - intros Hg. apply guard_err_Ok in Hg. apply negb_false_iff, bool_decide_eq_true in Hg. done.
  - intros ->. by rewrite bool_decide_eq_true_2.
Qed.

Lemma verify_chunk_Ok ctx prev data s :
  verify_chunk_signature ctx prev data s = Ok () <-> as_bytes s = as_bytes (chunk_signature ctx prev data).
Proof. apply check_signature_Ok. Qed.

Lemma verify_trailer_Ok ctx prev ts : verify_trailer_signature ctx prev ts = Ok () <-> trailers_signed ctx prev ts.
Proof.
  unfold verify_trailer_signature, trailers_signed. fold (content_of ts).
  destruct (List.find is_signature ts) as [t|] eqn:Hf; simpl.
  - rewrite andb_false_r. bind_step. rewrite check_signature_Ok. split; [intros; right; eauto|].
    intros [->|(t' & [= <-] & ?)]; done.
  - rewrite andb_true_r. split.
    + case_bool_decide as Hc; [intros _; left|done]. destruct ts as [|t ts]; [done|]. simpl in Hf.
      destruct (is_signature t) eqn:Ht; [done|]. unfold content_of in Hc. by rewrite filter_cons_True in Hc.
    + intros [->|(t & ? & _)]; done.
Qed.

(** * Well-formed bodies *)

(** Where a body stands: the signature before, the size of the chunk before, the
    payload bytes still announced *)
Record progress := MkProgress {
  last_sig : option str;
  last_size : option Z;
  announced : option Z
}.

Section body.
Context (st : option StreamingSigningContext) (tm : bool).

(** The signature of [data] is [sig], in the chain behind [prev]. *)
Definition signed (prev : option str) (data : list byte) (sig : option str) : Prop :=
  forall ctx, st = Some ctx -> exists p s, prev = Some p /\ sig = Some s /\
    as_bytes s = as_bytes (chunk_signature ctx p data).

Definition next_sig (prev sig : option str) : option str := match st with Some _ => sig | None => prev end.

(** A chunk may follow: the one before is large enough and the announced length
    is not exceeded. *)
Definition may_follow (a : progress) (size : Z) : Prop :=
  (forall p, last_size a = Some p -> MIN_CHUNK_SIZE <= p) /\ (forall n, announced a = Some n -> size <= n).

Definition advance (a : progress) (size : Z) (sig : option str) : progress :=
  MkProgress (next_sig (last_sig a) sig) (Some size) ((fun n => n - size) <$> announced a).

Definition chunk_ok (a : progress) (c : list byte * option str) : Prop :=
  0 < Z.of_nat (length c.1) <= usize_MAX /\ may_follow a (Z.of_nat (length c.1)) /\
  signed (last_sig a) c.1 c.2.

Fixpoint chunks_ok (a : progress) (cs : list (list byte * option str)) (b : progress) : Prop :=
  match cs with
  | [] => b = a
  | c :: cs => chunk_ok a c /\ chunks_ok (advance a (Z.of_nat (length c.1)) c.2) cs b
  end.

(** The end of the data: nothing announced is missing, and its signature *)
Definition terminal_ok (a : progress) (sig : option str) (last : option str) : Prop :=
  (forall n, announced a = Some n -> n = 0) /\ signed (last_sig a) [] sig /\ last = next_sig (last_sig a) sig.

(** The trailers, and the ones the decoder returns *)
Definition trailers_ok (last : option str) (ts final : list (str * str)) : Prop :=
  final = content_of ts /\
  (tm = true -> forall ctx, st = Some ctx -> exists p, last = Some p /\ trailers_signed ctx p ts).

Definition payload_of (cs : list (list byte * option str)) : list byte := cs ≫= fst.

End body.

End crypto.
End ChunkedSpec.
