(* ===== verification/ChunkedSlices.v ===== *)
(** The incremental aws-chunked decoder: where the wire is cut does not matter.
    A turn on a longer slice does what the turns on its parts do, and every slicing
    of an encoded body is decoded. *)

From Stdlib Require Import ZifyBool.
From stdpp Require Import strings.
From S2P Require Import Prelude Str Chunked ChunkedSpec.

Local Open Scope Z_scope.

Module ChunkedSlices.
Import Str Chunked ChunkedSpec.

Section crypto.
Context `{Crypto}.

(** ** Slices *)

(** A result with the payload [p] in front *)
Definition prepend (p : list byte) (r : outcome ServerError (list byte)) : outcome ServerError (list byte) :=
  q ← r; mret (p ++ q).

Lemma prepend_app p q r : prepend p (prepend q r) = prepend (p ++ q) r.
Proof. destruct r; simpl; [|done..]. by rewrite app_assoc. Qed.

Lemma feed_loop_fuel f1 : forall f2 d w out, decoder_inv d -> (length w < f1)%nat -> (length w < f2)%nat ->
  feed_loop f1 d w out = feed_loop f2 d w out.
Proof.
  induction f1 as [|f1 IH]; intros [|f2] d w out Hinv H1 H2; [lia..|]. simpl.
  pose proof (feed_turn_ok d w Hinv) as Ht. unfold turn_ok in Ht.
  destruct (result (feed_turn d w)) as [[|]|e|]; [|done..]. destruct Ht as [Ht Hlt]. specialize (Hlt eq_refl).
  apply IH; [done|lia..].
Qed.

Lemma feed_loop_out fuel : forall d w out,
  feed_loop fuel d w out = (prepend out (feed_loop fuel d w []).1, (feed_loop fuel d w []).2).
Proof.
  induction fuel as [|fuel IH]; intros d w out; [done|]. simpl.
  destruct (result (feed_turn d w)) as [[|]|e|]; [|done..].
  rewrite (IH _ _ (out ++ _)), (IH _ _ (payload _)). cbn [fst snd]. by rewrite prepend_app.
Qed.

(** The loop of [feed_inner] on one slice *)
Definition run (d : IncrementalChunkedDecoder) (w : list byte) :
    outcome ServerError (list byte) * IncrementalChunkedDecoder := feed_loop (S (length w)) d w [].

Definition after_turn (t : turn) : outcome ServerError (list byte) * IncrementalChunkedDecoder :=
  match result t with
  | Ok Continue => (prepend (payload t) (run (decoder t) (wire t)).1, (run (decoder t) (wire t)).2)
  | Ok Break => (Ok (payload t), decoder t)
  | Err e => (Err e, decoder t)
  | Panic => (Panic, decoder t)
  end.

Lemma run_unfold d w : decoder_inv d -> run d w = after_turn (feed_turn d w).
Proof.
  intros Hinv. unfold run at 1, after_turn. cbn [feed_loop]. pose proof (feed_turn_ok d w Hinv) as Ht.
  unfold turn_ok in Ht. destruct (result (feed_turn d w)) as [[|]|e|]; [|done..].
  destruct Ht as [Ht Hlt]. specialize (Hlt eq_refl). rewrite feed_loop_out. unfold run. simpl.
  by rewrite (feed_loop_fuel (length w) (S (length (wire (feed_turn d w))))) by (done || lia).
Qed.

(** Two turns that say the same, the first with the payload [p] in front *)
Definition same_turn (p : list byte) (u v : turn) : Prop :=
  result u = result v /\
  (forall f, result v = Ok f -> decoder u = decoder v /\ wire u = wire v /\ payload u = p ++ payload v).

Lemma same_turn_refl u : same_turn [] u u.
Proof. done. Qed.

(** What a turn on the slice [w1] says about the turn on [w1 ++ w2] *)
Definition splits (w1 w2 : list byte) (turn_on : IncrementalChunkedDecoder -> list byte -> turn)
    (d : IncrementalChunkedDecoder) : Prop :=
  let t := turn_on d w1 in
  (result t = Ok Continue -> turn_on d (w1 ++ w2) = MkTurn (Ok Continue) (decoder t) (wire t ++ w2) (payload t)) /\
  (result t = Ok Break -> done (decoder t) = false ->
   same_turn (payload t) (turn_on d (w1 ++ w2)) (feed_turn (decoder t) w2)).

Lemma splits_ext w1 w2 f g d : (forall w, f d w = g d w) -> splits w1 w2 g d -> splits w1 w2 f d.
Proof. intros He. unfold splits. by rewrite !He. Qed.

(** The line reader on a longer slice *)
Lemma read_line_split pending w1 w2 :
  find_crlf_in pending = None ->
  match read_crlf_line pending w1 with
  | (Ok (Some line), pending', rest) => read_crlf_line pending (w1 ++ w2) = (Ok (Some line), pending', rest ++ w2)
  | (Ok None, pending', rest) =>
      rest = [] /\ find_crlf_in pending' = None /\
      let '(r, p, x) := read_crlf_line pending (w1 ++ w2) in
      let '(r', p', x') := read_crlf_line pending' w2 in
      r = r' /\ (is_err r' = false -> p = p' /\ x = x')
  | _ => True
  end.
Proof.
  intros Hp. rewrite !(read_crlf_line_spec pending _ Hp), !app_assoc.
  destruct (find_crlf_in (pending ++ w1)) as [pos|] eqn:Hf.
  - rewrite (find_crlf_prefix _ w2 _ Hf). destruct (bool_decide (MAX_CHUNKED_LINE_BYTES < pos)%nat); [done|].
    pose proof (find_crlf_bound _ _ Hf). by rewrite take_app_le, drop_app_le by lia.
  - destruct (bool_decide (MAX_CHUNKED_LINE_BYTES < _)%nat); [done|]. split; [done|]. split; [done|].
    rewrite (read_crlf_line_spec _ _ Hf).
    destruct (find_crlf_in ((pending ++ w1) ++ w2)); destruct (bool_decide (MAX_CHUNKED_LINE_BYTES < _)%nat); done.
Qed.

Lemma header_turn_splits d w1 w2 : decoder_inv d -> state d = ReadingHeader -> splits w1 w2 header_turn d.
Proof.
  intros [(Hb & _) _] Hst. pose proof (read_line_split (buf d) w1 w2 Hb) as Hr. unfold splits, header_turn.
  destruct (read_crlf_line (buf d) w1) as [[r pending] rest]. destruct r as [[line|]|e|]; [| |done|done].
  - rewrite Hr. destruct (_ ≫= _) as [d'|e|]; simpl; done.
  - split; [done|]. intros _ _. destruct Hr as (-> & Hp & Hr). unfold feed_turn. fields. cbn [decoder].
    fields. rewrite Hst. unfold header_turn. fields.
    destruct (read_crlf_line (buf d) (w1 ++ w2)) as [[r p] x], (read_crlf_line pending w2) as [[r' p'] x'].
    destruct Hr as [-> Hr]. destruct r' as [[line|]|e|]; [| |done|done]; by destruct (Hr eq_refl) as [-> ->].
Qed.

Lemma trailers_turn_splits d w1 w2 : decoder_inv d -> state d = ReadingTrailers -> splits w1 w2 trailers_turn d.
Proof.
  intros [(Hb & _) _] Hst. pose proof (read_line_split (buf d) w1 w2 Hb) as Hr. unfold splits, trailers_turn.
  destruct (read_crlf_line (buf d) w1) as [[r pending] rest]. destruct r as [[[|b line]|]|e|]; [| | |done|done].
  - rewrite Hr. unfold finish_trailers. destruct (_ ≫= _) as [d'|e|] eqn:Hf; [|done..]. split; [done|].
    apply bind_Ok in Hf as (? & _ & [= <-]). done.
  - rewrite Hr. destruct (add_trailer _ _) as [d'|e|]; simpl; done.
  - split; [done|]. intros _ _. destruct Hr as (-> & Hp & Hr). unfold feed_turn. cbn [decoder].
    fields. rewrite Hst. unfold trailers_turn. fields.
    destruct (read_crlf_line (buf d) (w1 ++ w2)) as [[r p] x], (read_crlf_line pending w2) as [[r' p'] x'].
    destruct Hr as [-> Hr]. destruct r' as [[[|b line]|]|e|]; [| | |done|done]; by destruct (Hr eq_refl) as [-> ->].
Qed.

Lemma lf_turn_splits d w1 w2 : state d = ExpectingDataCrlf true -> splits w1 w2 lf_turn d.
Proof.
  intros Hst. destruct w1 as [|b w1]; unfold splits; simpl.
  - split; [done|]. intros _ _. unfold feed_turn. by rewrite Hst.
  - case_bool_decide; simpl; done.
Qed.

Lemma crlf_turn_splits d seen w1 w2 :
  state d = ExpectingDataCrlf seen -> splits w1 w2 (fun d => crlf_turn d seen) d.
Proof.
  intros Hst. destruct seen; [by apply lf_turn_splits|]. destruct w1 as [|b w1]; unfold splits.
  - split; [done|]. intros _ _. unfold feed_turn. simpl. by rewrite Hst.
  - cbn [crlf_turn app]. case_bool_decide; [done|].
    by apply (lf_turn_splits (set_state d (ExpectingDataCrlf true)) w1 w2).
Qed.

Lemma take_data_app d a b size r1 r sig d1 :
  take_data d a size r1 sig = Ok d1 -> take_data d1 b size r sig = take_data d (a ++ b) size r sig.
Proof.
  destruct d as [st tm ps cn pc ex h bf s ts tb tc dn]. unfold take_data. fields. rewrite length_app.
  intros Ht. apply bind_Ok in Ht as (dec & Hdec & [= <-]). fields.
  assert ((fun hashed => hashed ++ b) <$> ((fun hashed => hashed ++ a) <$> h) =
    (fun hashed => hashed ++ a ++ b) <$> h) as Hh by (destruct h; simpl; [by rewrite app_assoc|done]).
  destruct ex as [n|]; [|injection Hdec as <-; by rewrite Hh].
  destruct (Z.ltb_spec n (Z.of_nat (length a))); [done|]. injection Hdec as <-. rewrite Hh.
  replace (n - Z.of_nat (length a) <? Z.of_nat (length b)) with (n <? Z.of_nat (length a + length b)) by lia.
  replace (n - Z.of_nat (length a) - Z.of_nat (length b)) with (n - Z.of_nat (length a + length b)) by lia.
  by destruct (_ <? _).
Qed.

Lemma take_data_state d data size r sig d1 :
  take_data d data size r sig = Ok d1 -> state d1 = ReadingData size r sig.
Proof. intros Ht. unfold take_data in Ht. by apply bind_Ok in Ht as (? & _ & [= <-]). Qed.

Lemma data_turn_splits d size remaining sig w1 w2 :
  decoder_inv d -> state d = ReadingData size remaining sig ->
  splits w1 w2 (fun d => data_turn d size remaining sig) d.
Proof.
  intros [_ Hs] Hst. unfold state_inv in Hs. rewrite Hst in Hs. destruct Hs as (_ & _ & Hrem & _).
  destruct w1 as [|b w1'].
  { split; [done|]. intros _ _. change (same_turn [] (data_turn d size remaining sig w2) (feed_turn d w2)).
    unfold feed_turn. rewrite Hst. apply same_turn_refl. }
  unfold splits, data_turn. cbn [app]. change (b :: w1' ++ w2) with ((b :: w1') ++ w2).
  assert (0 < length (b :: w1'))%nat by (simpl; lia). set (w1 := b :: w1') in *.
  set (n := Nat.min (Z.to_nat remaining) (length w1)).
  destruct (take_data d (take n w1) _ _ _) as [d1|e|] eqn:Htake; [|done..].
  destruct (Z.eqb_spec (remaining - Z.of_nat n) 0) as [Hz|Hz]; cbn [negb].
  - replace (Nat.min (Z.to_nat remaining) (length (w1 ++ w2))) with n by (rewrite length_app; lia).
    rewrite take_app_le, drop_app_le, Htake by lia. rewrite (proj2 (Z.eqb_eq _ _) Hz). cbn [negb].
    unfold finish_chunk. destruct (_ ≫= _) as [d2|e|]; simpl; done.
  - split; [done|]. intros _ _. cbn [decoder payload].
    assert (n = length w1) as Hn by lia. rewrite Hn in *. rewrite firstn_all in *.
    unfold feed_turn. rewrite (take_data_state _ _ _ _ _ _ Htake). destruct w2 as [|c w2'].
    { rewrite app_nil_r. rewrite Nat.min_r, firstn_all, Htake, (proj2 (Z.eqb_neq _ _) Hz), drop_all by lia. split; [done|].
      intros f _. cbn [decoder wire payload]. by rewrite app_nil_r. }
    unfold data_turn. set (w2 := c :: w2') in *.
    set (n2 := Nat.min (Z.to_nat (remaining - Z.of_nat (length w1))) (length w2)).
    replace (Nat.min (Z.to_nat remaining) (length (w1 ++ w2))) with (length w1 + n2)%nat by (rewrite length_app; lia).
    rewrite take_app_add', drop_app_add' by done.
    replace (remaining - Z.of_nat (length w1 + n2)) with (remaining - Z.of_nat (length w1) - Z.of_nat n2) by lia.
    rewrite (take_data_app _ _ (take n2 w2) _ _ (remaining - Z.of_nat (length w1) - Z.of_nat n2) _ _ Htake).
    destruct (take_data d (w1 ++ take n2 w2) _ _ _) as [d2|e|]; [|by split..].
    destruct (negb (remaining - Z.of_nat (length w1) - Z.of_nat n2 =? 0)); [by split|].
    unfold turn_from. destruct (finish_chunk d2 size sig); by split.
Qed.

Lemma feed_turn_splits d w1 w2 : decoder_inv d -> splits w1 w2 feed_turn d.
Proof.
  intros Hinv. destruct (state d) as [|size rem sig|seen| | |] eqn:Hst.
  1: eapply splits_ext; [|by apply header_turn_splits].
  2: eapply splits_ext; [|by apply (data_turn_splits d size rem sig)].
  3: eapply splits_ext; [|by apply (crlf_turn_splits d seen)].
  4: eapply splits_ext; [|by apply trailers_turn_splits].
  1-4: intros w; unfold feed_turn; by rewrite Hst.
  all: destruct Hinv as [_ Hs]; unfold state_inv in Hs; rewrite Hst in Hs.
  - done.
  - unfold splits. assert (feed_turn d w1 = MkTurn (Ok Break) d w1 []) as -> by (unfold feed_turn; by rewrite Hst).
    split; [done|]. simpl. congruence.
Qed.

Lemma run_app n : forall d w1 w2 p d1,
  (length w1 <= n)%nat -> decoder_inv d -> run d w1 = (Ok p, d1) -> done d1 = false ->
  (run d (w1 ++ w2)).1 = prepend p (run d1 w2).1 /\
  (forall q, (run d1 w2).1 = Ok q -> (run d (w1 ++ w2)).2 = (run d1 w2).2).
Proof.
  induction n as [|n IH]; intros d w1 w2 p d1 Hlen Hinv Hrun Hd;
    rewrite (run_unfold d w1 Hinv) in Hrun; rewrite (run_unfold d (w1 ++ w2) Hinv);
    pose proof (feed_turn_ok d w1 Hinv) as Ht; unfold turn_ok in Ht;
    destruct (feed_turn_splits d w1 w2 Hinv) as [Hc Hk]; unfold after_turn in Hrun;
    destruct (result (feed_turn d w1)) as [[|]|e|]; try done; destruct Ht as [Hinv' Hlt].
  1: { specialize (Hlt eq_refl). lia. }
  2: { specialize (Hlt eq_refl). rewrite (Hc eq_refl). unfold after_turn. cbn [result decoder wire payload].
    destruct (run (decoder (feed_turn d w1)) (wire (feed_turn d w1))) as [[q|e|] d'] eqn:Hr; try done.
    injection Hrun as <- <-. assert (length (wire (feed_turn d w1)) <= n)%nat as Hle by lia.
    destruct (IH _ _ w2 _ _ Hle Hinv' Hr Hd) as [IH1 IH2].
    cbn [fst snd]. rewrite IH1, prepend_app. done. }
  all: injection Hrun as <- <-; destruct (Hk eq_refl Hd) as [Hres Hsame]; rewrite (run_unfold _ w2 Hinv');
    unfold after_turn; rewrite Hres; destruct (result (feed_turn (decoder _) w2)) as [[|]|e|]; [| |done|done];
    destruct (Hsame _ eq_refl) as (Hs1 & Hs2 & Hs3); rewrite Hs1, ?Hs2, Hs3; cbn [fst snd]; by rewrite ?prepend_app.
Qed.

(** ** Slices that end the body or fail *)

(** The wire is cut between the CR and the LF of a line of the greatest length. *)
Definition line_cut (w1 w2 : list byte) : Prop :=
  exists pre line, w1 = pre ++ line ++ [CR] /\ length line = MAX_CHUNKED_LINE_BYTES /\
    find_crlf_in (line ++ [CR]) = None /\ list.head w2 = Some LF.

Lemma line_cut_app pre w1 w2 : line_cut w1 w2 -> line_cut (pre ++ w1) w2.
Proof. intros (p & line & -> & Hl). exists (pre ++ p), line. by rewrite <-app_assoc. Qed.

(** An error of the line reader stands on a longer slice, unless a line is cut. *)
Lemma read_line_err w1 w2 e pending rest :
  read_crlf_line [] w1 = (Err e, pending, rest) ->
  (read_crlf_line [] (w1 ++ w2)).1.1 = Err e \/ (e = chunked_line_too_long /\ line_cut w1 w2).
Proof.
  rewrite !read_crlf_line_spec by done. cbn [app]. destruct (find_crlf_in w1) as [pos|] eqn:Hf.
  { rewrite (find_crlf_prefix _ w2 _ Hf). case_bool_decide; [|done]. intros [= <- <- <-]. by left. }
  case_bool_decide as Hlen; [|done]. intros [= <- <- <-]. rewrite (find_crlf_app _ _ Hf).
  destruct (bool_decide (list.last w1 = Some CR) && bool_decide (list.head w2 = Some LF)) eqn:Hcut.
  - apply andb_prop in Hcut as [Hl Hh]. apply bool_decide_eq_true in Hl, Hh. case_bool_decide; [by left|]. right.
    split; [done|]. apply last_Some in Hl as [line ->]. rewrite length_app in *. simpl in *.
    exists [], line. split; [done|]. split; [lia|done].
  - left. destruct (find_crlf_in w2) as [pos|]; simpl; rewrite ?length_app; by rewrite bool_decide_eq_true_2 by lia.
Qed.

Lemma accept_header_buf d size sig d' : accept_header d size sig = Ok d' -> buf d' = buf d.
Proof.
  unfold accept_header. intros Ha. apply bind_Ok in Ha as ([] & _ & Ha). destruct (size =? 0).
  - apply bind_Ok in Ha as ([] & _ & Ha). apply bind_Ok in Ha as (d1 & Hv & [= <-]).
    destruct (streaming d); [|by injection Hv as <-]. apply bind_Ok in Hv as (? & _ & Hv).
    apply bind_Ok in Hv as (? & _ & Hv). by apply bind_Ok in Hv as (? & _ & [= <-]).
  - apply bind_Ok in Ha as ([] & _ & Ha). by apply bind_Ok in Ha as ([] & _ & [= <-]).
Qed.

Lemma finish_chunk_buf d size sig d' : finish_chunk d size sig = Ok d' -> buf d' = buf d.
Proof.
  unfold finish_chunk. intros Ha. apply bind_Ok in Ha as (d1 & Hv & [= <-]).
  destruct (streaming d); [|by injection Hv as <-]. apply bind_Ok in Hv as (? & _ & Hv).
  apply bind_Ok in Hv as (? & _ & Hv). apply bind_Ok in Hv as (? & _ & Hv). by apply bind_Ok in Hv as (? & _ & [= <-]).
Qed.

Lemma add_trailer_buf d line d' : add_trailer d line = Ok d' -> buf d' = buf d.
Proof.
  unfold add_trailer. intros Ha. apply bind_Ok in Ha as ([] & _ & Ha). apply bind_Ok in Ha as (s & _ & Ha).
  by apply bind_Ok in Ha as ([k v] & _ & [= <-]).
Qed.

(** What a turn that does not wait says of a longer slice: one that fails fails there
    too, unless a line is cut; one that ends the body ends it there. *)
Definition settles (w1 w2 : list byte) (turn_on : IncrementalChunkedDecoder -> list byte -> turn)
    (d : IncrementalChunkedDecoder) : Prop :=
  (forall e, result (turn_on d w1) = Err e ->
   result (turn_on d (w1 ++ w2)) = Err e \/ (e = chunked_line_too_long /\ line_cut w1 w2)) /\
  (done d = false -> result (turn_on d w1) = Ok Break -> done (decoder (turn_on d w1)) = true ->
   turn_on d (w1 ++ w2) =
     MkTurn (Ok Break) (decoder (turn_on d w1)) (wire (turn_on d w1) ++ w2) (payload (turn_on d w1))).

Lemma settles_ext w1 w2 f g d : (forall w, f d w = g d w) -> settles w1 w2 g d -> settles w1 w2 f d.
Proof. intros He. unfold settles. by rewrite !He. Qed.

Lemma turn_from_err d m f w out e : result (turn_from d m f w out) = Err e -> m = Err e.
Proof. destruct m; simpl; congruence. Qed.

Lemma header_turn_settles d w1 w2 : buf d = [] -> settles w1 w2 header_turn d.
Proof.
  intros Hb. unfold settles, header_turn. rewrite Hb. pose proof (read_line_split [] w1 w2 eq_refl) as Hs.
  pose proof (read_line_err w1 w2) as He. destruct (read_crlf_line [] w1) as [[[[line|]|e1|] pending] rest].
  - rewrite Hs. split.
    + intros e Hr%turn_from_err. left. by rewrite Hr.
    + destruct (_ ≫= _); simpl; congruence.
  - split; [done|]. fields. simpl. congruence.
  - split; [|done]. intros e [= ->]. destruct (He _ _ _ eq_refl) as [He'|He']; [left|by right].
    destruct (read_crlf_line [] (w1 ++ w2)) as [[r p] x]. simpl in He'. by subst.
  - done.
Qed.

Lemma trailers_turn_settles d w1 w2 : buf d = [] -> settles w1 w2 trailers_turn d.
Proof.
  intros Hb. unfold settles, trailers_turn. rewrite Hb. pose proof (read_line_split [] w1 w2 eq_refl) as Hs.
  pose proof (read_line_err w1 w2) as He. destruct (read_crlf_line [] w1) as [[[[[|b line]|]|e1|] pending] rest].
  - rewrite Hs. split.
    + intros e Hr%turn_from_err. left. by rewrite Hr.
    + by destruct (finish_trailers _).
  - rewrite Hs. split.
    + intros e Hr%turn_from_err. left. by rewrite Hr.
    + by destruct (add_trailer _ _).
  - split; [done|]. fields. simpl. congruence.
  - split; [|done]. intros e [= ->]. destruct (He _ _ _ eq_refl) as [He'|He']; [left|by right].
    destruct (read_crlf_line [] (w1 ++ w2)) as [[r p] x]. simpl in He'. by subst.
  - done.
Qed.

Lemma lf_turn_settles d w1 w2 : settles w1 w2 lf_turn d.
Proof.
  destruct w1 as [|b w1]; (split; [intros e|]); simpl; [done|congruence|..]; case_bool_decide; simpl; auto; congruence.
Qed.

Lemma crlf_turn_settles d seen w1 w2 : settles w1 w2 (fun d => crlf_turn d seen) d.
Proof.
  destruct seen; [by apply lf_turn_settles|]. destruct w1 as [|b w1]; unfold settles; cbn [crlf_turn app].
  { split; [done|]. simpl. congruence. }
  case_bool_decide; [split; [auto|done]|].
  destruct (lf_turn_settles (set_state d (ExpectingDataCrlf true)) w1 w2) as [H1 H2]. split; [|exact H2].
  intros e He. destruct (H1 e He) as [Hl|[-> Hc]]; [by left|]. right. split; [done|]. by apply (line_cut_app [b]).
Qed.

Lemma take_data_done d data size r sig d1 : take_data d data size r sig = Ok d1 -> done d1 = done d.
Proof. intros Ht. unfold take_data in Ht. by apply bind_Ok in Ht as (? & _ & [= <-]). Qed.

Lemma data_turn_settles d size remaining sig w1 w2 :
  0 < remaining -> settles w1 w2 (fun d => data_turn d size remaining sig) d.
Proof.
  intros Hrem. destruct w1 as [|b w1']; [split; [done|simpl; congruence]|].
  unfold settles, data_turn. cbn [app]. change (b :: w1' ++ w2) with ((b :: w1') ++ w2).
  assert (0 < length (b :: w1'))%nat by (simpl; lia). set (w1 := b :: w1') in *. clearbody w1.
  set (n := Nat.min (Z.to_nat remaining) (length w1)).
  destruct (take_data d (take n w1) _ _ _) as [d1|e|] eqn:Htake.
  - destruct (Z.eqb_spec (remaining - Z.of_nat n) 0) as [Hz|Hz]; cbn [negb].
    + replace (Nat.min (Z.to_nat remaining) (length (w1 ++ w2))) with n by (rewrite length_app; lia).
      rewrite take_app_le, drop_app_le, Htake by lia. rewrite (proj2 (Z.eqb_eq _ _) Hz). cbn [negb]. split.
      * intros e Hr%turn_from_err. left. by rewrite Hr.
      * by destruct (finish_chunk d1 size sig).
    + split; [done|]. simpl. rewrite (take_data_done _ _ _ _ _ _ Htake). congruence.
  - unfold take_data in Htake. destruct (expected_decoded_remaining _); [destruct (_ <? _)|]; done.
  - done.
Qed.

Lemma feed_turn_settles d w1 w2 : decoder_inv d -> done d = false -> buf d = [] -> settles w1 w2 feed_turn d.
Proof.
  intros [_ Hs] Hd Hb. unfold state_inv in Hs. destruct (state d) as [|size rem sig|seen| | |] eqn:Hst.
  1: eapply settles_ext; [|by apply header_turn_settles].
  2: eapply settles_ext; [|apply (data_turn_settles d size rem sig); lia].
  3: eapply settles_ext; [|by apply (crlf_turn_settles d seen)].
  4: eapply settles_ext; [|by apply trailers_turn_settles].
  1-4: intros w; unfold feed_turn; by rewrite Hst.
  - done.
  - congruence.
Qed.

(** A turn that goes on takes bytes from the front and leaves no part of a line. *)
Lemma feed_turn_continues d w :
  decoder_inv d -> buf d = [] -> result (feed_turn d w) = Ok Continue ->
  (exists used, w = used ++ wire (feed_turn d w)) /\ buf (decoder (feed_turn d w)) = [].
Proof.
  intros Hinv Hb Hr. pose proof (feed_turn_ok d w Hinv) as Hok. unfold turn_ok in Hok. rewrite Hr in Hok.
  destruct Hok as [Hinv' _]. revert Hr Hinv'. unfold feed_turn.
  destruct (state d) as [|size rem sig|[|]| | |] eqn:Hst; [| | | | |done|done].
  - unfold header_turn. rewrite Hb, read_crlf_line_spec by done. cbn [app].
    destruct (find_crlf_in w) as [pos|]; case_bool_decide; try done.
    destruct (parse_chunk_header _) as [[size sig]|e|]; [|done..]. bind_step.
    destruct (accept_header _ size sig) as [d'|e|] eqn:Ha; [|done..]. intros _ _. cbn [turn_from wire decoder].
    split; [exists (take (pos + 2) w); by rewrite take_drop|]. by apply accept_header_buf in Ha.
  - destruct w as [|b w]; [done|]. unfold data_turn. set (n := Nat.min _ _).
    destruct (take_data d _ _ _ _) as [d1|e|] eqn:Ht; [|done..]. destruct (negb _); [done|].
    destruct (finish_chunk d1 size sig) as [d2|e|] eqn:Hf; [|done..]. intros _ _. cbn [turn_from wire decoder].
    split; [exists (take n (b :: w)); by rewrite take_drop|].
    apply finish_chunk_buf in Hf as ->. unfold take_data in Ht. by apply bind_Ok in Ht as (? & _ & [= <-]).
  - destruct w as [|b w]; [done|]. simpl. case_bool_decide; [done|]. intros _ _. by split; [exists [b]|].
  - destruct w as [|b [|c w]]; simpl; [done|case_bool_decide; done|]. do 2 (case_bool_decide; [done|]). intros _ _.
    by split; [exists [b; c]|].
  - unfold trailers_turn. rewrite Hb, read_crlf_line_spec by done. cbn [app].
    destruct (find_crlf_in w) as [pos|]; case_bool_decide; try done.
    destruct (take pos w) as [|b line]; [by destruct (finish_trailers _)|].
    destruct (add_trailer _ _) as [d'|e|] eqn:Ha; [|done..]. intros _ _. cbn [turn_from wire decoder].
    split; [exists (take (pos + 2) w); by rewrite take_drop|]. by apply add_trailer_buf in Ha.
Qed.

(** The loop on a longer slice, when it fails or ends the body on the shorter one *)
Lemma run_settles n : forall d w1 w2,
  (length w1 <= n)%nat -> decoder_inv d -> done d = false -> buf d = [] ->
  (forall e, (run d w1).1 = Err e ->
   (run d (w1 ++ w2)).1 = Err e \/ (e = chunked_line_too_long /\ line_cut w1 w2)) /\
  (forall p d', run d w1 = (Ok p, d') -> done d' = true -> run d (w1 ++ w2) = (Ok p, d')).
Proof.
  induction n as [|n IH]; intros d w1 w2 Hlen Hinv Hd Hb;
    rewrite (run_unfold d w1 Hinv), (run_unfold d (w1 ++ w2) Hinv);
    pose proof (feed_turn_ok d w1 Hinv) as Ht; unfold turn_ok in Ht;
    destruct (feed_turn_splits d w1 w2 Hinv) as [Hc _]; destruct (feed_turn_settles d w1 w2 Hinv Hd Hb) as [He Hk];
    pose proof (feed_turn_continues d w1 Hinv Hb) as Hcont;
    unfold after_turn; destruct (result (feed_turn d w1)) as [[|]|e1|]; try done.
  1: { destruct Ht as [_ Hlt]. specialize (Hlt eq_refl). lia. }
  1,4: split; [done|]; intros p d' [= <- <-] Hd'; by rewrite (Hk Hd eq_refl Hd').
  1,3: split; [|done]; intros e [= ->]; destruct (He e eq_refl) as [He'|He']; [left|by right]; by rewrite He'.
  destruct Ht as [Hinv' Hlt]. specialize (Hlt eq_refl). rewrite (Hc eq_refl). cbn [result decoder wire payload].
  destruct (Hcont eq_refl) as [[used Hused] Hb'].
  set (t := feed_turn d w1) in *. clearbody t.
  destruct (done (decoder t)) eqn:Hdt.
  { pose proof (inv_done _ Hinv' Hdt) as Hst.
    assert (forall w, run (decoder t) w = (Ok [], decoder t)) as Hrun
      by (intros w; rewrite (run_unfold _ _ Hinv'); unfold feed_turn; by rewrite Hst).
    rewrite !Hrun. simpl. split; [done|]. by intros ?? [= <- <-]. }
  destruct (IH (decoder t) (wire t) w2 ltac:(lia) Hinv' Hdt Hb') as [IH1 IH2]. split.
  - intros e Herr. cbn [fst] in Herr |- *. destruct (run (decoder t) (wire t)) as [[q|e'|] d'']; [done| |done].
    simpl in Herr. injection Herr as ->. destruct (IH1 e eq_refl) as [-> |[-> Hcut]]; [by left|]. right.
    split; [done|]. rewrite Hused. by apply line_cut_app.
  - intros p d' Hr Hd'. destruct (run (decoder t) (wire t)) as [[q|e'|] d'']; [|done..]. injection Hr as <- <-.
    by rewrite (IH2 q d'' eq_refl Hd').
Qed.

(** ** Encoded bodies *)

Definition printable (c : Z) : Prop := 32 <= c < 127.

Definition sig_ext (sig : option str) : str :=
  match sig with Some s => lit ";chunk-signature=" ++ s | None => [] end.

Definition header_line (size : Z) (sig : option str) : list byte := as_bytes (hex_u64 size ++ sig_ext sig).

Definition encode_chunk (c : list byte * option str) : list byte :=
  header_line (Z.of_nat (length c.1)) c.2 ++ CRLF ++ c.1 ++ CRLF.

Definition trailer_line (t : str * str) : list byte := as_bytes (t.1 ++ lit ":" ++ t.2).

Definition encode_body (cs : list (list byte * option str)) (sig : option str) (ts : list (str * str)) : list byte :=
  (cs ≫= encode_chunk) ++ (header_line 0 sig ++ CRLF) ++ (ts ≫= fun t => trailer_line t ++ CRLF) ++ CRLF.

(** The texts a body may carry: printable, and lines shorter than the limit *)
Definition header_ok (size : Z) (sig : option str) : Prop :=
  (forall s, sig = Some s -> Forall printable s) /\ (length (header_line size sig) < MAX_CHUNKED_LINE_BYTES)%nat.

Definition trailer_ok (t : str * str) : Prop :=
  Forall (fun c => printable c /\ c <> 32 /\ c <> 58 /\ ~ 65 <= c <= 90) t.1 /\ Forall printable t.2 /\ trim t.2 = t.2 /\
  (length (trailer_line t) < MAX_CHUNKED_LINE_BYTES)%nat.

Definition trailer_size (ts : list (str * str)) : Z :=
  foldr (fun t n => Z.of_nat (length (trailer_line t)) + 2 + n) 0 ts.

Definition trailers_fit (ts : list (str * str)) : Prop :=
  Forall trailer_ok ts /\ Z.of_nat (length ts) <= MAX_CHUNKED_TRAILER_COUNT /\
  trailer_size ts <= MAX_CHUNKED_TRAILER_BYTES.

Lemma printable_ascii s : Forall printable s -> Forall (fun c => 0 <= c < 128) s.
Proof. intros Hs. eapply list.Forall_impl; [exact Hs|]. unfold printable. lia. Qed.

(** A printable line ends at the CRLF behind it. *)
Lemma find_crlf_line s : Forall printable s -> find_crlf_in (as_bytes s ++ CRLF) = Some (length (as_bytes s)).
Proof.
  intros Hs. rewrite (as_bytes_ascii s (printable_ascii s Hs)), length_fmap. induction Hs as [|c s Hc Hs IH]; [done|].
  assert (byte.of_Z c <> CR) as Hne.
  { intros He. apply (f_equal byte.unsigned) in He. rewrite byte.unsigned_of_Z in He. unfold byte.wrap, printable in *.
    rewrite Z.mod_small in He by lia. change (byte.unsigned CR) with 13 in He. lia. }
  rewrite fmap_cons, <-app_comm_cons. destruct ((byte.of_Z <$> s) ++ CRLF) as [|y l]; [done|].
  rewrite find_crlf_cons, bool_decide_eq_false_2 by done. cbn [andb]. by rewrite IH.
Qed.

(** No cut of the line shows a line end before the whole is there. *)
Lemma find_crlf_strict line u v :
  find_crlf_in (line ++ CRLF) = Some (length line) -> line ++ CRLF = u ++ v -> v <> [] -> find_crlf_in u = None.
Proof.
  intros Hf Huv Hv. destruct (find_crlf_in u) as [pos|] eqn:Hu; [|done].
  pose proof (find_crlf_bound _ _ Hu). rewrite Huv, (find_crlf_prefix _ v _ Hu) in Hf. injection Hf as ->.
  apply (f_equal length) in Huv. rewrite !length_app in Huv. destruct v; [done|]. simpl in Huv. lia.
Qed.

Lemma hex_u64_printable n : 0 <= n <= usize_MAX ->
  from_str_radix 16 usize_MAX (trim (hex_u64 n)) = Some n /\
  Forall (fun c => 48 <= c <= 57 \/ 97 <= c <= 102) (hex_u64 n).
Proof.
  intros Hn. destruct (print_parse 16 n) as (Hp & _ & Hc & Ht); [by right|unfold usize_MAX in Hn; lia|].
  split; [|done]. unfold hex_u64. by rewrite Ht.
Qed.

Lemma header_printable size sig : 0 <= size <= usize_MAX -> header_ok size sig ->
  Forall printable (hex_u64 size ++ sig_ext sig).
Proof.
  intros Hsize [Hs _]. apply list.Forall_app. split.
  - eapply list.Forall_impl; [apply hex_u64_printable; done|]. simpl. unfold printable. lia.
  - destruct sig as [s|]; [|constructor]. apply list.Forall_app. split; [|by apply Hs].
    repeat (apply list.Forall_cons; split; [by vm_compute|]). constructor.
Qed.

Lemma parse_header_line size sig : 0 <= size <= usize_MAX -> header_ok size sig ->
  parse_chunk_header (header_line size sig) = Ok (size, sig).
Proof.
  intros Hsize Hok. pose proof (printable_ascii _ (header_printable size sig Hsize Hok)) as Ha.
  destruct (hex_u64_printable size Hsize) as [Hp Hc].
  unfold parse_chunk_header, header_line. rewrite (as_bytes_ascii _ Ha), (from_utf8_ascii _ Ha).
  cbn [ok_or]. bind_step.
  assert (Forall (fun c => c <> 59) (hex_u64 size)) as Hn by (eapply list.Forall_impl; [exact Hc|]; simpl; lia).
  destruct sig as [s|].
  - change (sig_ext (Some s)) with (59 :: lit "chunk-signature=" ++ s). rewrite (split_once_app _ _ _ Hn), Hp.
    cbn [ok_or]. bind_step. cbn [mbind option_bind]. by rewrite strip_prefix_app.
  - cbn [sig_ext]. rewrite app_nil_r, (split_once_None _ _ Hn), Hp. done.
Qed.

(** ** Reading an encoded body *)

(** From [d], the bytes [seg] lead to [d1] with the payload [p]; every part of
    them is accepted. *)
Definition reads (d : IncrementalChunkedDecoder) (seg : list byte) (d1 : IncrementalChunkedDecoder) (p : list byte) :
    Prop :=
  (forall u v, seg = u ++ v -> v <> [] -> exists q d', run d u = (Ok q, d') /\ done d' = false) /\
  run d seg = (Ok p, d1).

Lemma run_inv d w p d1 : decoder_inv d -> run d w = (Ok p, d1) -> decoder_inv d1.
Proof.
  intros Hinv Hr. pose proof (feed_loop_ok (S (length w)) d w [] Hinv ltac:(lia)) as Hl.
  unfold run in Hr. by rewrite Hr in Hl.
Qed.

Lemma reads_app d s1 d1 p1 s2 d2 p2 :
  decoder_inv d -> done d1 = false -> reads d s1 d1 p1 -> reads d1 s2 d2 p2 -> reads d (s1 ++ s2) d2 (p1 ++ p2).
Proof.
  intros Hinv Hd [Hp1 Hr1] [Hp2 Hr2].
  assert (forall w q d', run d1 w = (Ok q, d') -> run d (s1 ++ w) = (Ok (p1 ++ q), d')) as Happ.
  { intros w q d' Hw. destruct (run_app _ d s1 w p1 d1 (le_n _) Hinv Hr1 Hd) as [H1 H2].
    rewrite Hw in H1, H2. specialize (H2 q eq_refl). destruct (run d (s1 ++ w)). simpl in *. by subst. }
  split; [|by apply Happ].
  intros u v Huv Hv. apply app_eq_inv in Huv as [(k & Hs & _)|(k & -> & Hs)].
  - destruct (decide (k = [])) as [->|Hne]; [|by eapply Hp1].
    rewrite app_nil_r in Hs. subst u. by exists p1, d1.
  - destruct (Hp2 k v Hs Hv) as (q & d' & Hq & Hd'). exists (p1 ++ q), d'. split; [by apply Happ|done].
Qed.

(** A decoder waits for the next slice. *)
Lemma run_nil d : decoder_inv d -> run d [] = (Ok [], d).
Proof.
  intros Hinv. pose proof Hinv as [(Hb & Hlen & _) Hs]. rewrite (run_unfold d [] Hinv). unfold feed_turn.
  assert (read_crlf_line (buf d) [] = (Ok None, buf d, [])) as Hread.
  { rewrite (read_crlf_line_spec _ _ Hb), app_nil_r, Hb, bool_decide_eq_false_2 by lia. done. }
  unfold state_inv in Hs. destruct (state d) as [|size rem sig|[|]| | |] eqn:Hst; try done.
  all: unfold header_turn, trailers_turn; rewrite Hread; unfold after_turn; cbn [result payload decoder];
    by destruct d.
Qed.

(** A turn that takes a whole segment *)
Lemma reads_turn d seg d1 p :
  decoder_inv d -> feed_turn d seg = MkTurn (Ok Continue) d1 [] p ->
  (forall u v, seg = u ++ v -> v <> [] -> exists q d', run d u = (Ok q, d') /\ done d' = false) ->
  reads d seg d1 p.
Proof.
  intros Hinv Ht Hu. split; [done|]. pose proof (feed_turn_ok d seg Hinv) as Hok. unfold turn_ok in Hok.
  rewrite Ht in Hok. destruct Hok as [Hinv1 _]. rewrite (run_unfold d seg Hinv), Ht. unfold after_turn.
  cbn [result payload decoder wire]. rewrite (run_nil d1 Hinv1). simpl. by rewrite app_nil_r.
Qed.

Lemma set_buf_id d : set_buf d (buf d) = d.
Proof. by destruct d. Qed.

(** A line that is still being received *)
Lemma run_part_line d u :
  decoder_inv d -> (state d = ReadingHeader \/ state d = ReadingTrailers) -> buf d = [] ->
  find_crlf_in u = None -> (length u <= MAX_CHUNKED_LINE_BYTES)%nat -> run d u = (Ok [], set_buf d u).
Proof.
  intros Hinv Hst Hbuf Hu Hlen. rewrite (run_unfold d u Hinv). unfold feed_turn.
  assert (read_crlf_line (buf d) u = (Ok None, u, [])) as Hread.
  { rewrite Hbuf, read_crlf_line_spec by done. simpl. by rewrite Hu, bool_decide_eq_false_2 by lia. }
  unfold header_turn, trailers_turn. by destruct Hst as [-> | ->]; rewrite Hread.
Qed.

Lemma read_whole_line d line :
  buf d = [] -> find_crlf_in (line ++ CRLF) = Some (length line) -> (length line < MAX_CHUNKED_LINE_BYTES)%nat ->
  read_crlf_line (buf d) (line ++ CRLF) = (Ok (Some line), [], []).
Proof.
  intros Hbuf Hf Hlen. rewrite Hbuf, read_crlf_line_spec by done. simpl. rewrite Hf, bool_decide_eq_false_2 by lia.
  rewrite take_app_length, drop_ge; [done|]. rewrite length_app. simpl. lia.
Qed.

(** The parts of a line are accepted. *)
Lemma line_parts d line :
  decoder_inv d -> (state d = ReadingHeader \/ state d = ReadingTrailers) -> buf d = [] ->
  find_crlf_in (line ++ CRLF) = Some (length line) -> (length line < MAX_CHUNKED_LINE_BYTES)%nat ->
  forall u v, line ++ CRLF = u ++ v -> v <> [] -> exists q d', run d u = (Ok q, d') /\ done d' = false.
Proof.
  intros Hinv Hst Hbuf Hf Hlen u v Huv Hv. exists [], (set_buf d u). split.
  - apply run_part_line; [done|done|done|by eapply find_crlf_strict|].
    apply (f_equal length) in Huv. rewrite !length_app in Huv. destruct v; [done|]. simpl in Huv. lia.
  - destruct Hinv as [_ Hs]. unfold state_inv in Hs. fields. by destruct Hst as [He|He]; rewrite He in Hs.
Qed.

Lemma reads_header d size sig d1 :
  decoder_inv d -> state d = ReadingHeader -> buf d = [] -> 0 <= size <= usize_MAX -> header_ok size sig ->
  accept_header d size sig = Ok d1 -> reads d (header_line size sig ++ CRLF) d1 [].
Proof.
  intros Hinv Hst Hbuf Hsize Hok Hacc. pose proof (find_crlf_line _ (header_printable size sig Hsize Hok)) as Hf.
  apply reads_turn; [done| |apply line_parts; [done|by left|done|done|apply Hok]].
  unfold feed_turn. rewrite Hst. unfold header_turn. rewrite read_whole_line by (done || apply Hok).
  rewrite <-Hbuf, set_buf_id, (parse_header_line size sig Hsize Hok). bind_step. by rewrite Hacc.
Qed.

Lemma reads_trailer d t d1 :
  decoder_inv d -> state d = ReadingTrailers -> buf d = [] -> trailer_ok t ->
  add_trailer (count_trailer d (trailer_line t)) (trailer_line t) = Ok d1 -> reads d (trailer_line t ++ CRLF) d1 [].
Proof.
  intros Hinv Hst Hbuf (Hk & Hv & _ & Hlen) Hadd.
  assert (Forall printable (t.1 ++ lit ":" ++ t.2)) as Hp.
  { apply list.Forall_app. split; [eapply list.Forall_impl; [exact Hk|]; simpl; tauto|].
    apply list.Forall_app. split; [|done]. repeat (apply list.Forall_cons; split; [by vm_compute|]). constructor. }
  pose proof (find_crlf_line _ Hp) as Hf. apply reads_turn; [done| |apply line_parts; [done|by right|done..]].
  unfold feed_turn. rewrite Hst. unfold trailers_turn. rewrite read_whole_line by done.
  rewrite <-Hbuf, set_buf_id.
  assert (trailer_line t <> []) as Hne.
  { unfold trailer_line. rewrite (as_bytes_ascii _ (printable_ascii _ Hp)). intros He%fmap_nil_inv.
    apply app_nil in He as [_ He]. done. }
  destruct (trailer_line t) as [|b l]; [done|]. by rewrite Hadd.
Qed.

Lemma reads_data d size sig data d1 d2 :
  decoder_inv d -> state d = ReadingData size size sig -> size = Z.of_nat (length data) ->
  take_data d data size 0 sig = Ok d1 -> finish_chunk d1 size sig = Ok d2 -> reads d data d2 data.
Proof.
  intros Hinv Hst Hsize Htake Hfin. pose proof Hinv as [_ Hs]. unfold state_inv in Hs. rewrite Hst in Hs.
  destruct Hs as (Hd & _ & Hpos & _). apply reads_turn; [done| |].
  - unfold feed_turn. rewrite Hst. destruct data as [|b l]; [simpl in *; lia|]. unfold data_turn.
    replace (Nat.min _ _) with (length (b :: l)) by lia. rewrite firstn_all, drop_all, <-Hsize, Z.sub_diag, Htake.
    cbn [Z.eqb negb]. by rewrite Hfin.
  - intros u v -> Hv. rewrite length_app in Hsize. assert (0 < length v)%nat by (destruct v; [done|simpl; lia]).
    pose proof (feed_turn_ok d u Hinv) as Hok. rewrite (run_unfold d u Hinv). revert Hok.
    unfold feed_turn. rewrite Hst. destruct u as [|b l]; [intros _; by exists [], d|]. unfold data_turn.
    set (n := Nat.min _ _). assert (n = length (b :: l)) as Hn by lia.
    destruct (take_data d (take n (b :: l)) _ _ _) as [d'|e|] eqn:Ht; [|unfold take_data in Ht|done].
    + rewrite (proj2 (Z.eqb_neq _ 0)) by lia. cbn [negb]. unfold turn_ok. cbn [result].
      intros [[_ Hs'] _]. unfold state_inv in Hs'.
      cbn [decoder] in Hs'. rewrite (take_data_state _ _ _ _ _ _ Ht) in Hs'. eexists _, d'. split; [done|apply Hs'].
    + destruct (expected_decoded_remaining _); [destruct (_ <? _)|]; done.
Qed.

Lemma reads_crlf d :
  decoder_inv d -> state d = ExpectingDataCrlf false -> reads d CRLF (set_state d ReadingHeader) [].
Proof.
  intros Hinv Hst. pose proof Hinv as [_ Hs]. unfold state_inv in Hs. rewrite Hst in Hs. destruct Hs as [Hd _].
  apply reads_turn; [done|unfold feed_turn; by rewrite Hst|].
  intros u v Huv Hv. destruct u as [|b [|c [|x u]]].
  - exists [], d. split; [by apply run_nil|done].
  - injection Huv as <- _. rewrite (run_unfold d _ Hinv). unfold feed_turn. rewrite Hst. by eexists _, _.
  - injection Huv as _ _ <-. done.
  - done.
Qed.

Lemma reads_end d d1 :
  decoder_inv d -> state d = ReadingTrailers -> buf d = [] -> finish_trailers d = Ok d1 -> reads d CRLF d1 [].
Proof.
  intros Hinv Hst Hbuf Hfin. split.
  - apply (line_parts d []); [done|by right|done|done|]. apply max_line_pos.
  - rewrite (run_unfold d _ Hinv). unfold feed_turn. rewrite Hst. unfold trailers_turn.
    rewrite <-(app_nil_l CRLF), (read_whole_line d []); [|done|done|apply max_line_pos].
    rewrite <-Hbuf, set_buf_id, Hfin. done.
Qed.

Section body.
Context (st : option StreamingSigningContext) (tm : bool).

(** The decoder between two chunks, and between two trailers *)
Definition header_state (a : progress) (number : Z) (h : option (list byte)) : IncrementalChunkedDecoder :=
  MkDecoder st tm (last_sig a) number (last_size a) (announced a) h [] ReadingHeader [] 0 0 false.

Definition data_state (a : progress) (number size : Z) (sig : option str) : IncrementalChunkedDecoder :=
  MkDecoder st tm (last_sig a) number (last_size a) (announced a) ((fun _ => []) <$> st) []
    (ReadingData size size sig) [] 0 0 false.

(** The decoder behind the data of a chunk, before and after its signature is checked *)
Definition taken_state (a : progress) (number size : Z) (sig : option str) (data : list byte) : IncrementalChunkedDecoder :=
  MkDecoder st tm (last_sig a) number (last_size a) ((fun n => n - size) <$> announced a)
    ((fun _ => data) <$> st) [] (ReadingData size 0 sig) [] 0 0 false.

Definition crlf_state (a : progress) (number size : Z) (sig : option str) : IncrementalChunkedDecoder :=
  MkDecoder st tm (next_sig st (last_sig a) sig) (number + 1) (Some size)
    ((fun n => n - size) <$> announced a) None [] (ExpectingDataCrlf false) [] 0 0 false.

(** The decoder behind the trailers [ts], of so many lines and bytes *)
Definition at_trailers (a : progress) (last : option str) (number : Z) (h : option (list byte))
    (ts : list (str * str)) (bytes count : Z) : IncrementalChunkedDecoder :=
  MkDecoder st tm last number (last_size a) (announced a) h [] ReadingTrailers ts bytes count false.

Definition trailer_state (a : progress) (last : option str) (number : Z) (h : option (list byte))
    (ts : list (str * str)) : IncrementalChunkedDecoder :=
  at_trailers a last number h ts (trailer_size ts) (Z.of_nat (length ts)).

Lemma signed_some prev data sig : signed st prev data sig ->
  (bool_decide (st <> None) && bool_decide (sig = None)) = false.
Proof.
  intros Hs. destruct st as [ctx|]; [|done]. destruct (Hs ctx eq_refl) as (p & s & _ & -> & _).
  by rewrite andb_false_r.
Qed.

Lemma accept_chunk a number h size sig :
  0 < size -> may_follow a size -> (bool_decide (st <> None) && bool_decide (sig = None)) = false ->
  accept_header (header_state a number h) size sig =
  Ok (data_state a number size sig).
Proof.
  intros Hsize [Hmin Hexp] Hsig. unfold accept_header, header_state, data_state. fields. rewrite Hsig. cbn [guard_err]. bind_step.
  rewrite (proj2 (Z.eqb_neq _ _)) by lia.
  destruct (last_size a) as [p|]; [specialize (Hmin p eq_refl); rewrite (proj2 (Z.ltb_ge _ _)) by lia|].
  all: cbn [guard_err]; bind_step; destruct (announced a) as [n|]; [|done].
  all: specialize (Hexp n eq_refl); by rewrite (proj2 (Z.ltb_ge _ _)) by lia.
Qed.

Lemma accept_terminal a number h sig last :
  terminal_ok st a sig last ->
  accept_header (header_state a number h) 0 sig = Ok (at_trailers a last number h [] 0 0).
Proof.
  intros (Hexp & Hsig & ->). unfold accept_header, header_state. fields.
  rewrite (signed_some _ _ _ Hsig). cbn [guard_err Z.eqb]. bind_step.
  assert (match announced a with
          | Some remaining => guard_err (negb (remaining =? 0)) (MalformedChunkedBody (LengthMismatch remaining))
          | None => mret ()
          end = Ok ()) as ->.
  { destruct (announced a) as [n|]; [|done]. by rewrite (Hexp n eq_refl). }
  bind_step. unfold signed, next_sig, at_trailers in *. destruct st as [ctx|]; [|done].
  destruct (Hsig ctx eq_refl) as (p & s & -> & -> & Hv%verify_chunk_Ok). cbn [unwrap]. bind_step. by rewrite Hv.
Qed.

Lemma take_chunk a number sig data :
  may_follow a (Z.of_nat (length data)) ->
  take_data (data_state a number (Z.of_nat (length data)) sig) data (Z.of_nat (length data)) 0 sig =
  Ok (taken_state a number (Z.of_nat (length data)) sig data).
Proof.
  intros [_ Hexp]. unfold take_data, data_state, taken_state. fields. destruct (announced a) as [n|].
  - specialize (Hexp n eq_refl). rewrite (proj2 (Z.ltb_ge _ _)) by lia. by destruct st.
  - by destruct st.
Qed.

Lemma finish_signed a number size sig data :
  signed st (last_sig a) data sig ->
  finish_chunk (taken_state a number size sig data) size sig = Ok (crlf_state a number size sig).
Proof.
  intros Hsig. unfold finish_chunk, taken_state, crlf_state, next_sig, signed in *. fields. destruct st as [ctx|]; [|done].
  destruct (Hsig ctx eq_refl) as (p & s & -> & -> & Hv%verify_chunk_Ok). cbn [unwrap fmap option_fmap option_map].
  bind_step. unfold verify_chunk_signature, sha256_hex in Hv. by rewrite Hv.
Qed.

Lemma chunk_reads a number h c :
  decoder_inv (header_state a number h) -> chunk_ok st a c -> header_ok (Z.of_nat (length c.1)) c.2 ->
  reads (header_state a number h) (encode_chunk c)
    (header_state (advance st a (Z.of_nat (length c.1)) c.2) (number + 1) None) c.1.
Proof.
  destruct c as [data sig]. cbn [fst snd]. intros Hinv (Hsize & Hmay & Hsig) Hok. cbn [fst snd] in *.
  unfold encode_chunk. cbn [fst snd].
  pose proof (accept_chunk a number h (Z.of_nat (length data)) sig ltac:(lia) Hmay (signed_some _ _ _ Hsig)) as Hacc.
  pose proof (reads_header _ (Z.of_nat (length data)) sig _ Hinv eq_refl eq_refl ltac:(lia) Hok Hacc) as R1.
  assert (decoder_inv (data_state a number (Z.of_nat (length data)) sig)) as Hinv1
    by (eapply run_inv; [exact Hinv|apply R1]).
  pose proof (reads_data _ _ sig data _ _ Hinv1 eq_refl eq_refl (take_chunk a number sig data Hmay)
    (finish_signed a number _ sig data Hsig)) as R2.
  assert (decoder_inv (crlf_state a number (Z.of_nat (length data)) sig)) as Hinv3
    by (eapply run_inv; [exact Hinv1|apply R2]).
  pose proof (reads_crlf _ Hinv3 eq_refl) as R3. rewrite (app_assoc (header_line _ sig)).
  assert (reads (data_state a number (Z.of_nat (length data)) sig) (data ++ CRLF)
    (header_state (advance st a (Z.of_nat (length data)) sig) (number + 1) None) (data ++ [])) as R23
    by (by eapply reads_app; [exact Hinv1| |exact R2|exact R3]).
  rewrite app_nil_r in R23. by apply (reads_app _ _ (data_state a number (Z.of_nat (length data)) sig) []).
Qed.

Lemma chunks_reads cs : forall a b number h,
  decoder_inv (header_state a number h) -> chunks_ok st a cs b ->
  Forall (fun c => header_ok (Z.of_nat (length c.1)) c.2) cs ->
  exists number' h', reads (header_state a number h) (cs ≫= encode_chunk) (header_state b number' h') (payload_of cs).
Proof.
  induction cs as [|c cs IH]; intros a b number h Hinv Hcs Hok.
  - simpl in Hcs. subst b. exists number, h. split; [|by apply run_nil].
    intros u v Huv Hv. symmetry in Huv. by apply app_nil in Huv as [_ ->].
  - destruct Hcs as [Hc Hcs]. apply list.Forall_cons in Hok as [Hc' Hok].
    pose proof (chunk_reads a number h c Hinv Hc Hc') as R1.
    destruct (IH _ b (number + 1) None ltac:(eapply run_inv; [exact Hinv|apply R1]) Hcs Hok) as (number' & h' & R2).
    exists number', h'. eapply reads_app; [exact Hinv| |exact R1|exact R2]. done.
Qed.

Lemma key_kept k : Forall (fun c => printable c /\ c <> 32 /\ c <> 58 /\ ~ 65 <= c <= 90) k ->
  to_ascii_lowercase (trim k) = k /\ Forall (fun c => c <> 58) k.
Proof.
  intros Hk. rewrite trim_no_whitespace.
  - split; [|eapply list.Forall_impl; [exact Hk|]; simpl; tauto]. unfold to_ascii_lowercase.
    induction Hk as [|c k Hc Hk IH]; [done|]. rewrite fmap_cons, IH. unfold in_range.
    by rewrite (proj2 (andb_false_iff (65 <=? c) (c <=? 90))) by lia.
  - eapply list.Forall_impl; [exact Hk|]. simpl. unfold printable, is_whitespace, in_range. lia.
Qed.

Lemma trailer_size_snoc ts t : trailer_size (ts ++ [t]) = trailer_size ts + Z.of_nat (length (trailer_line t)) + 2.
Proof. unfold trailer_size. induction ts as [|u ts IH]; cbn [foldr app]; lia. Qed.

Lemma trailer_size_app ts us : trailer_size ts <= trailer_size (ts ++ us).
Proof.
  induction ts as [|t ts IH]; unfold trailer_size in *; cbn [foldr app]; [|lia].
  induction us as [|u us IH]; cbn [foldr]; lia.
Qed.

Lemma add_trailer_encoded a last number h ts t :
  trailer_ok t -> Z.of_nat (length (ts ++ [t])) <= MAX_CHUNKED_TRAILER_COUNT ->
  trailer_size (ts ++ [t]) <= MAX_CHUNKED_TRAILER_BYTES ->
  add_trailer (count_trailer (trailer_state a last number h ts) (trailer_line t)) (trailer_line t) =
  Ok (trailer_state a last number h (ts ++ [t])).
Proof.
  destruct t as [k v]. intros (Hk & Hv & Htrim & _) Hcount Hsize. cbn [fst snd] in *.
  unfold trailer_state at 2, at_trailers. rewrite trailer_size_snoc in *. rewrite length_app in *. cbn [length] in *.
  unfold add_trailer, count_trailer, trailer_state, at_trailers. fields. set (n := Z.of_nat (length (trailer_line (k, v)))) in *.
  rewrite (proj2 (Z.ltb_ge MAX_CHUNKED_TRAILER_COUNT _)), (proj2 (Z.ltb_ge MAX_CHUNKED_TRAILER_BYTES _)) by lia.
  cbn [orb guard_err]. bind_step. destruct (key_kept k Hk) as [Hlow Hcolon].
  assert (from_utf8 (trailer_line (k, v)) = Some (k ++ 58 :: v)) as ->.
  { unfold trailer_line. cbn [fst snd]. change (lit ":" ++ v) with (58 :: v).
    assert (Forall (fun c => 0 <= c < 128) (k ++ 58 :: v)) as Ha; [|by rewrite as_bytes_ascii, from_utf8_ascii].
    apply list.Forall_app. split; [eapply list.Forall_impl; [exact Hk|]; unfold printable; simpl; lia|].
    constructor; [lia|]. by apply printable_ascii. }
  cbn [ok_or]. bind_step. rewrite (split_once_app _ _ _ Hcolon). cbn [ok_or]. bind_step. rewrite Hlow, Htrim.
  unfold set_trailers. fields. do 2 f_equal; lia.
Qed.

Lemma trailers_reads us : forall a last number h ts,
  decoder_inv (trailer_state a last number h ts) -> trailers_fit (ts ++ us) ->
  reads (trailer_state a last number h ts) (us ≫= fun t => trailer_line t ++ CRLF)
    (trailer_state a last number h (ts ++ us)) [].
Proof.
  induction us as [|t us IH]; intros a last number h ts Hinv Hfit.
  - rewrite app_nil_r. split; [|by apply run_nil].
    intros u v Huv Hv. symmetry in Huv. by apply app_nil in Huv as [_ ->].
  - pose proof Hfit as (Hok & Hcount & Hsize). apply list.Forall_app in Hok as [_ Hok].
    apply list.Forall_cons in Hok as [Ht _].
    replace (ts ++ t :: us) with ((ts ++ [t]) ++ us) in * by (by rewrite <-app_assoc).
    pose proof (trailer_size_app (ts ++ [t]) us). rewrite length_app in Hcount.
    pose proof (reads_trailer _ t _ Hinv eq_refl eq_refl Ht
      (add_trailer_encoded a last number h ts t Ht ltac:(lia) ltac:(lia))) as R1.
    apply (reads_app _ _ (trailer_state a last number h (ts ++ [t])) []); [done|done|done|].
    apply IH; [eapply run_inv; [exact Hinv|apply R1]|done].
Qed.

Lemma finish_encoded a last number h ts bytes count final :
  trailers_ok st tm last ts final ->
  exists d, finish_trailers (at_trailers a last number h ts bytes count) = Ok d /\ done d = true /\ trailers d = final.
Proof.
  intros [-> Hv]. unfold finish_trailers, at_trailers. fields. destruct tm; [|by eexists].
  destruct st as [ctx|]; [|by eexists]. destruct (Hv eq_refl ctx eq_refl) as (p & -> & Hv'%verify_trailer_Ok).
  cbn [unwrap]. bind_step. rewrite Hv'. by eexists.
Qed.

(** The whole body *)
Lemma body_reads a b number h cs sig last ts final :
  decoder_inv (header_state a number h) -> chunks_ok st a cs b -> terminal_ok st b sig last ->
  trailers_ok st tm last ts final -> Forall (fun c => header_ok (Z.of_nat (length c.1)) c.2) cs -> header_ok 0 sig ->
  trailers_fit ts ->
  exists d, reads (header_state a number h) (encode_body cs sig ts) d (payload_of cs) /\
    done d = true /\ trailers d = final.
Proof.
  intros Hinv Hcs Hend Hts Hok Hsig Hfit.
  destruct (chunks_reads cs a b number h Hinv Hcs Hok) as (number' & h' & R1).
  assert (decoder_inv (header_state b number' h')) as Hinv1 by (eapply run_inv; [exact Hinv|apply R1]).
  pose proof (reads_header _ 0 sig _ Hinv1 eq_refl eq_refl ltac:(unfold usize_MAX; lia) Hsig
    (accept_terminal b number' h' sig last Hend)) as R2.
  assert (decoder_inv (trailer_state b last number' h' [])) as Hinv2 by (eapply run_inv; [exact Hinv1|apply R2]).
  pose proof (trailers_reads ts b last number' h' [] Hinv2 Hfit) as R3. cbn [app] in R3.
  assert (decoder_inv (trailer_state b last number' h' ts)) as Hinv3 by (eapply run_inv; [exact Hinv2|apply R3]).
  destruct (finish_encoded b last number' h' ts (trailer_size ts) (Z.of_nat (length ts)) final Hts) as (d & Hfin & Hd & Hfinal). exists d. split; [|done].
  pose proof (reads_end _ d Hinv3 eq_refl eq_refl Hfin) as R4.
  rewrite <-(app_nil_r (payload_of cs)). unfold encode_body.
  apply (reads_app _ _ (header_state b number' h')); [done|done|exact R1|].
  apply (reads_app _ _ (trailer_state b last number' h' []) []); [done|done|exact R2|].
  by apply (reads_app _ _ (trailer_state b last number' h' ts) []).
Qed.
End body.

(** ** Feeding slices *)

Lemma feed_run d w p d1 : decoder_inv d -> done d = false -> (feed d w = (Ok p, d1) <-> run d w = (Ok p, d1)).
Proof.
  intros [_ Hs] Hd. unfold feed, feed_inner. rewrite Hd. fold (run d w). unfold state_inv in Hs.
  destruct (state d), (run d w) as [[q|e|] d']; simpl; destruct (done d'); done.
Qed.

Lemma feed_result d w : decoder_inv d -> done d = false -> (feed d w).1 = (run d w).1.
Proof.
  intros [_ Hs] Hd. unfold feed, feed_inner. rewrite Hd. fold (run d w). unfold state_inv in Hs.
  destruct (state d), (run d w) as [[q|e|] d']; simpl; destruct (done d'); done.
Qed.

(** A decoder that is done refuses every slice. *)
Lemma feed_done d w :
  decoder_inv d -> done d = true -> feed d w = (Err (MalformedChunkedBody DataAfterComplete), d).
Proof.
  intros Hinv Hd. unfold feed, feed_inner. rewrite (inv_done d Hinv Hd), Hd. cbn [is_err andb negb]. by rewrite Hd.
Qed.

(** The slices fed so far amount to one slice. *)
Lemma feed_all_run slices : forall d p d1,
  decoder_inv d -> done d = false -> feed_all d slices = (Ok p, d1) -> run d (concat slices) = (Ok p, d1).
Proof.
  induction slices as [|w slices IH]; intros d p d1 Hinv Hd; simpl.
  - intros [= <- <-]. by apply run_nil.
  - destruct (feed d w) as [[q|e|] d'] eqn:Hf; [|done|done]. apply feed_run in Hf; [|done|done].
    pose proof (run_inv _ _ _ _ Hinv Hf) as Hinv'. destruct (done d') eqn:Hd'.
    { destruct slices as [|w' slices]; [|simpl; by rewrite feed_done].
      simpl. intros [= <- <-]. by rewrite !app_nil_r. }
    destruct (feed_all d' slices) as [[q'|e|] d''] eqn:Hl; [|done|done]. intros [= <- <-].
    pose proof (IH d' q' d'' Hinv' Hd' Hl) as Hr.
    destruct (run_app _ d w (concat slices) q d' (le_n _) Hinv Hf Hd') as [H1 H2].
    rewrite Hr in H1, H2. specialize (H2 q' eq_refl). destruct (run d (w ++ concat slices)). simpl in *. by subst.
Qed.

(** The slice that fails, and the ones before it *)
Lemma feed_all_stops slices : forall d r d1, feed_all d slices = (r, d1) -> (forall p, r <> Ok p) ->
  exists before w after p d',
    slices = before ++ w :: after /\ feed_all d before = (Ok p, d') /\ (feed d' w).1 = r.
Proof.
  induction slices as [|w slices IH]; intros d r d1; simpl; [intros [= <- <-] Hr; by destruct (Hr [])|].
  destruct (feed d w) as [[q|e|] d'] eqn:Hf.
  - destruct (feed_all d' slices) as [r' d''] eqn:Hl. intros [= <- <-] Hr.
    destruct (IH d' r' d'' Hl) as (before & w' & after & p & d2 & -> & Hb & Hfail).
    { intros p ->. by eapply Hr. }
    exists (w :: before), w', after, (q ++ p), d2. split; [done|]. simpl. rewrite Hf, Hb. split; [done|].
    rewrite Hfail. destruct r'; [by destruct (Hr (q ++ a))|done..].
  - intros [= <- <-] _. exists [], w, slices, [], d. simpl. by rewrite Hf.
  - intros [= <- <-] _. exists [], w, slices, [], d. simpl. by rewrite Hf.
Qed.

(** Every slicing of bytes that are read is read. *)
Lemma feed_all_reads slices : forall d seg p d1,
  decoder_inv d -> done d = false -> reads d seg d1 p -> Forall (fun w => w <> []) slices -> concat slices = seg ->
  feed_all d slices = (Ok p, d1).
Proof.
  induction slices as [|w slices IH]; intros d seg p d1 Hinv Hd [Hparts Hrun] Hne Hseg; simpl in *.
  - subst seg. rewrite (run_nil d Hinv) in Hrun. by injection Hrun as <- <-.
  - apply list.Forall_cons in Hne as [Hw Hne]. destruct slices as [|w' slices].
    { simpl in *. rewrite app_nil_r in Hseg. subst w. rewrite (proj2 (feed_run d seg p d1 Hinv Hd) Hrun). simpl.
      by rewrite app_nil_r. }
    assert (concat (w' :: slices) <> []) as Hv by (apply list.Forall_cons in Hne as [Hw' _]; by destruct w').
    destruct (Hparts w (concat (w' :: slices)) ltac:(done) Hv) as (q & d' & Hq & Hd').
    rewrite (proj2 (feed_run d w q d' Hinv Hd) Hq).
    assert (forall x r e, run d (w ++ x) = (Ok r, e) -> exists r', run d' x = (Ok r', e) /\ r = q ++ r') as Hback.
    { intros x r e Hx. destruct (run_app _ d w x q d' (le_n _) Hinv Hq Hd') as [H1 H2]. rewrite Hx in H1, H2.
      destruct (run d' x) as [[r'|?|] e']; [|done|done]. simpl in *. injection H1 as ->. specialize (H2 r' eq_refl).
      subst e'. by exists r'. }
    destruct (Hback (concat (w' :: slices)) p d1) as (p' & Hp' & ->); [by rewrite Hseg|].
    rewrite (IH d' (concat (w' :: slices)) p' d1); [done|by eapply run_inv|done| |done|done].
    split; [|done]. intros u v Huv Hvne. destruct (Hparts (w ++ u) v) as (r & e & He & Hde); [|done|].
    { by rewrite <-app_assoc, <-Huv. }
    destruct (Hback u r e He) as (r' & Hr' & _). by exists r', e.
Qed.

End crypto.
End ChunkedSlices.
