(* ===== verification/ChunkedWire.v ===== *)
(** The incremental aws-chunked decoder: the bytes of the bodies it accepts.

    [body] is a body as it is on the wire: the header lines, the data and the trailer
    lines, with what each line says.  A run of the decoder that ends has read exactly
    such a body, every such body is read, and its bytes leave no choice of its parts. *)

From Stdlib Require Import ZifyBool.
From stdpp Require Import strings.
From S2P Require Import Prelude Str Chunked ChunkedSpec ChunkedSlices.

Local Open Scope Z_scope.

Module ChunkedWire.
Import Str Chunked ChunkedSpec ChunkedSlices.

(** * The grammar *)

(** A line, without the CRLF behind it *)
Definition is_line (l : list byte) : Prop :=
  (forall a b, l <> a ++ CRLF ++ b) /\ (length l <= MAX_CHUNKED_LINE_BYTES)%nat.

(** A header line: the size in hexadecimal digits, and a signature if the text behind
    the first semicolon is one *)
Definition header_says (line : list byte) (size : Z) (sig : option str) : Prop :=
  exists digits ext, from_utf8 line = Some (digits ++ ext) /\ Forall (fun c => c <> 59) digits /\
    (ext = [] \/ list.head ext = Some 59) /\
    from_str_radix 16 usize_MAX (trim digits) = Some size /\
    (forall s, sig = Some s <-> ext = lit ";chunk-signature=" ++ s).

(** A trailer line: key and value around the first colon *)
Definition trailer_says (line : list byte) (t : str * str) : Prop :=
  exists key value, from_utf8 line = Some (key ++ 58 :: value) /\ Forall (fun c => c <> 58) key /\
    t = (to_ascii_lowercase (trim key), trim value).

Record chunk := MkChunk { chunk_line : list byte; chunk_data : list byte; chunk_sig : option str }.

Record body := MkBody {
  body_chunks : list chunk;
  end_line : list byte;
  end_sig : option str;
  trailer_lines : list (list byte * (str * str))
}.

Definition chunk_wire (c : chunk) : list byte := chunk_line c ++ CRLF ++ chunk_data c ++ CRLF.

Definition trailers_wire (ls : list (list byte * (str * str))) : list byte := ls ≫= fun l => l.1 ++ CRLF.

Definition body_wire (b : body) : list byte :=
  (body_chunks b ≫= chunk_wire) ++ end_line b ++ CRLF ++ trailers_wire (trailer_lines b) ++ CRLF.

Definition chunks_data (cs : list chunk) : list byte := cs ≫= chunk_data.
Definition body_payload (b : body) : list byte := chunks_data (body_chunks b).
Definition body_trailers (b : body) : list (str * str) := snd <$> trailer_lines b.

Definition chunk_syntax (c : chunk) : Prop :=
  is_line (chunk_line c) /\ header_says (chunk_line c) (Z.of_nat (length (chunk_data c))) (chunk_sig c).

Definition trailer_syntax (l : list byte * (str * str)) : Prop := is_line l.1 /\ l.1 <> [] /\ trailer_says l.1 l.2.

(** The bytes of the trailers that count against the limit *)
Definition trailers_total (ls : list (list byte * (str * str))) : Z :=
  foldr (fun l n => Z.of_nat (length l.1) + 2 + n) 0 ls.

Definition body_syntax (b : body) : Prop :=
  Forall chunk_syntax (body_chunks b) /\ is_line (end_line b) /\ header_says (end_line b) 0 (end_sig b) /\
  Forall trailer_syntax (trailer_lines b) /\
  Z.of_nat (length (trailer_lines b)) <= MAX_CHUNKED_TRAILER_COUNT /\
  trailers_total (trailer_lines b) <= MAX_CHUNKED_TRAILER_BYTES.

Definition signed_data (cs : list chunk) : list (list byte * option str) :=
  (fun c => (chunk_data c, chunk_sig c)) <$> cs.

(** A body that is written as the grammar says, whose chunks and trailers carry the
    signatures of the chain from [a] on, and whose chunks have the sizes they may
    have; [final] are the trailers that are not signatures. *)
Definition body_ok `{Crypto} (st : option StreamingSigningContext) (tm : bool) (a : progress) (b : body)
    (final : list (str * str)) : Prop :=
  body_syntax b /\
  exists e last, chunks_ok st a (signed_data (body_chunks b)) e /\ terminal_ok st e (end_sig b) last /\
    trailers_ok st tm last (body_trailers b) final.

(** * Lines *)

Lemma find_crlf_parts l pos :
  find_crlf_in l = Some pos -> l = take pos l ++ CRLF ++ drop (pos + 2) l /\ find_crlf_in (take pos l) = None.
Proof.
  intros Hf. split.
  - revert pos Hf. induction l as [|x [|y l] IH]; intros pos; [done..|]. rewrite find_crlf_cons.
    destruct (bool_decide (x = CR) && bool_decide (y = LF)) eqn:Hxy.
    + intros [= <-]. apply andb_prop in Hxy as [Hx Hy]. apply bool_decide_eq_true in Hx, Hy. by subst.
    + intros (p & Hp & ->)%fmap_Some. change (S p + 2)%nat with (S (p + 2)). cbn [take drop app].
      f_equal. by apply IH.
  - destruct (find_crlf_in (take pos l)) as [p|] eqn:Hp; [|done].
    pose proof (find_crlf_bound _ _ Hp) as Hb. rewrite length_take in Hb.
    apply (find_crlf_prefix _ (drop pos l)) in Hp. rewrite take_drop, Hf in Hp. injection Hp as ->. lia.
Qed.

Lemma find_crlf_behind l rest : find_crlf_in l = None -> find_crlf_in (l ++ CRLF ++ rest) = Some (length l).
Proof.
  intros Hl. rewrite (find_crlf_app _ _ Hl). cbn [CRLF app list.head].
  rewrite (bool_decide_eq_false_2 (Some CR = Some LF)) by done. rewrite andb_false_r, find_crlf_cons.
  rewrite !bool_decide_eq_true_2 by done. simpl. f_equal. lia.
Qed.

Lemma no_crlf_iff l : (forall a b, l <> a ++ CRLF ++ b) <-> find_crlf_in l = None.
Proof.
  split.
  - intros Hno. destruct (find_crlf_in l) as [pos|] eqn:Hf; [|done].
    destruct (find_crlf_parts _ _ Hf) as [Heq _]. by destruct (Hno _ _ Heq).
  - intros Hf a b ->. destruct (find_crlf_in a) as [pos|] eqn:Ha.
    + by rewrite (find_crlf_prefix _ _ _ Ha) in Hf.
    + by rewrite (find_crlf_behind _ _ Ha) in Hf.
Qed.

(** The line reader returns a line exactly when the wire starts with it. *)
Lemma read_line_inv_exact w line pending rest :
  read_crlf_line [] w = (Ok (Some line), pending, rest) ->
  pending = [] /\ w = line ++ CRLF ++ rest /\ is_line line.
Proof.
  rewrite read_crlf_line_spec by done. cbn [app].
  destruct (find_crlf_in w) as [pos|] eqn:Hf; case_bool_decide as Hlen; try done. intros [= <- <- <-].
  destruct (find_crlf_parts _ _ Hf) as [Heq Hnone]. split; [done|]. split; [done|]. split; [by apply no_crlf_iff|].
  rewrite length_take. lia.
Qed.

Lemma read_line_exact line rest :
  is_line line -> read_crlf_line [] (line ++ CRLF ++ rest) = (Ok (Some line), [], rest).
Proof.
  intros [Hno%no_crlf_iff Hlen]. rewrite read_crlf_line_spec by done. cbn [app].
  rewrite (find_crlf_behind _ rest Hno), bool_decide_eq_false_2 by lia. rewrite take_app_length.
  rewrite drop_app_ge by lia. by replace (length line + 2 - length line)%nat with 2%nat by lia.
Qed.

Lemma line_unique l l' r r' :
  is_line l -> is_line l' -> l ++ CRLF ++ r = l' ++ CRLF ++ r' -> l = l' /\ r = r'.
Proof.
  intros [Hl%no_crlf_iff _] [Hl'%no_crlf_iff _] Heq.
  pose proof (find_crlf_behind _ r Hl) as H1. rewrite Heq, (find_crlf_behind _ r' Hl') in H1. injection H1 as Hlen.
  apply app_inj_1 in Heq as [-> Heq]; [|done]. by injection Heq as ->.
Qed.

(** * What the lines say *)

Lemma parse_chunk_header_exact line size sig : parse_chunk_header line = Ok (size, sig) <-> header_says line size sig.
Proof.
  unfold parse_chunk_header, header_says. destruct (from_utf8 line) as [text|]; [|split; [done|naive_solver]].
  cbn [ok_or]. bind_step. destruct (split_once 59 text) as [[digits rest]|] eqn:Hs.
  - apply split_once_Some in Hs as [-> Hd]. split.
    + intros Hp. apply bind_Ok in Hp as (n & Hn & Hp). destruct (from_str_radix _ _ _) as [m|] eqn:Hm; [|done].
      injection Hn as ->. injection Hp as -> <-. exists digits, (59 :: rest). repeat (split; [done||by right|]).
      intros s. change (strip_prefix (lit "chunk-signature=") rest = Some s <->
        59 :: rest = 59 :: lit "chunk-signature=" ++ s).
      rewrite strip_prefix_Some. split; congruence.
    + intros (ds & ext & [= Heq] & Hds & Hext & Hn & Hsig).
      assert (ds = digits /\ ext = 59 :: rest) as [-> ->].
      { destruct Hext as [->|Hext].
        - rewrite app_nil_r in Heq. subst ds. apply list.Forall_app in Hds as [_ Hds].
          by apply list.Forall_cons in Hds as [? _].
        - destruct ext as [|c ext]; [done|]. injection Hext as ->.
          pose proof (split_once_app 59 _ rest Hd) as H1. rewrite Heq, (split_once_app 59 _ ext Hds) in H1.
          by injection H1 as -> ->. }
      rewrite Hn. cbn [ok_or]. bind_step. cbn [mbind option_bind]. do 2 f_equal.
      destruct (strip_prefix (lit "chunk-signature=") rest) as [s|] eqn:Hp.
      * apply strip_prefix_Some in Hp as ->. symmetry. by apply Hsig.
      * destruct sig as [s|]; [|done]. destruct (Hsig s) as [Hext' _]. specialize (Hext' eq_refl).
        change (59 :: rest = 59 :: lit "chunk-signature=" ++ s) in Hext'.
        assert (rest = lit "chunk-signature=" ++ s) as Hr by congruence. by rewrite Hr, strip_prefix_app in Hp.
  - assert (Forall (fun c => c <> 59) text) as Hno.
    { apply list.Forall_forall. intros c Hc ->. apply list_elem_of_split in Hc as (a & b & ->).
      destruct (split_once 59 (a ++ 59 :: b)) eqn:He; [done|]. revert He. clear. induction a as [|x a IH]; simpl; [done|].
      destruct (x =? 59); [done|]. destruct (split_once 59 (a ++ 59 :: b)) as [[]|]; [done|by intros _; apply IH]. }
    split.
    + intros Hp. apply bind_Ok in Hp as (n & Hn & Hp). destruct (from_str_radix _ _ _) as [m|] eqn:Hm; [|done].
      injection Hn as ->. injection Hp as -> <-. exists text, []. rewrite app_nil_r. repeat (split; [done||by left|]). done.
    + intros (ds & ext & [= ->] & Hds & Hext & Hn & Hsig). apply list.Forall_app in Hno as [_ Hno].
      destruct ext as [|c ext].
      * rewrite app_nil_r, Hn. cbn [ok_or]. bind_step. do 2 f_equal. destruct sig as [s|]; [|done].
        destruct (Hsig s) as [He _]. by specialize (He eq_refl).
      * destruct Hext as [?|[= ->]]; [done|]. by apply list.Forall_cons in Hno as [? _].
Qed.

Lemma header_unique line size size' sig sig' :
  header_says line size sig -> header_says line size' sig' -> size = size' /\ sig = sig'.
Proof. rewrite <-!parse_chunk_header_exact. intros -> [= -> ->]. done. Qed.

Lemma trailer_unique line t t' : trailer_says line t -> trailer_says line t' -> t = t'.
Proof.
  intros (k & v & Hu & Hk & ->) (k' & v' & Hu' & Hk' & ->). rewrite Hu in Hu'. injection Hu' as Heq.
  pose proof (split_once_app 58 _ v Hk) as H1. rewrite Heq, (split_once_app 58 _ v' Hk') in H1. by injection H1 as -> ->.
Qed.

(** * One body for the bytes *)

Lemma chunks_wire_cons c cs w :
  ((c :: cs) ≫= chunk_wire) ++ w = chunk_line c ++ CRLF ++ chunk_data c ++ CRLF ++ (cs ≫= chunk_wire) ++ w.
Proof. rewrite bind_cons. unfold chunk_wire at 1. by rewrite <-!app_assoc. Qed.

Lemma trailers_wire_cons l ls w : trailers_wire (l :: ls) ++ w = l.1 ++ CRLF ++ trailers_wire ls ++ w.
Proof. unfold trailers_wire. by rewrite bind_cons, <-!app_assoc. Qed.

Lemma chunks_unique cs : forall cs' l l' sig sig' r r',
  Forall chunk_syntax cs -> Forall chunk_syntax cs' ->
  Forall (fun c => chunk_data c <> []) cs -> Forall (fun c => chunk_data c <> []) cs' ->
  is_line l -> is_line l' -> header_says l 0 sig -> header_says l' 0 sig' ->
  (cs ≫= chunk_wire) ++ l ++ CRLF ++ r = (cs' ≫= chunk_wire) ++ l' ++ CRLF ++ r' ->
  cs = cs' /\ l = l' /\ r = r'.
Proof.
  assert (forall c l sig, chunk_syntax c -> chunk_data c <> [] -> header_says l 0 sig -> chunk_line c <> l) as Hend.
  { intros c l sig [_ Hc] Hne Hl <-. destruct (header_unique _ _ _ _ _ Hc Hl) as [Hz _].
    by destruct (chunk_data c). }
  induction cs as [|c cs IH]; intros [|c' cs'] l l' sig sig' r r' Hs Hs' Hne Hne' Hl Hl' Hh Hh'.
  - cbn [mbind list_bind app]. intros Heq. by destruct (line_unique _ _ _ _ Hl Hl' Heq).
  - apply list.Forall_cons in Hs' as [Hc' _]. apply list.Forall_cons in Hne' as [Hd' _].
    rewrite chunks_wire_cons. intros Heq.
    destruct (line_unique _ _ _ _ Hl (proj1 Hc') Heq) as [-> _]. by destruct (Hend c' _ sig Hc' Hd' Hh).
  - apply list.Forall_cons in Hs as [Hc _]. apply list.Forall_cons in Hne as [Hd _].
    rewrite chunks_wire_cons. intros Heq.
    destruct (line_unique _ _ _ _ (proj1 Hc) Hl' Heq) as [<- _]. by destruct (Hend c _ sig' Hc Hd Hh').
  - apply list.Forall_cons in Hs as [Hc Hs], Hs' as [Hc' Hs'], Hne as [_ Hne], Hne' as [_ Hne'].
    rewrite !chunks_wire_cons. intros Heq.
    destruct (line_unique _ _ _ _ (proj1 Hc) (proj1 Hc') Heq) as [Hline Htail].
    destruct c as [cl cd csig], c' as [cl' cd' csig']. cbn [chunk_line chunk_data chunk_sig] in *. subst cl'.
    destruct Hc as [_ Hc], Hc' as [_ Hc']. cbn [chunk_line chunk_data chunk_sig] in *.
    destruct (header_unique _ _ _ _ _ Hc Hc') as [Hlen ->].
    apply app_inj_1 in Htail as [-> Htail]; [|lia]. injection Htail as Htail.
    destruct (IH cs' l l' sig sig' r r' Hs Hs' Hne Hne' Hl Hl' Hh Hh' Htail) as (-> & -> & ->). done.
Qed.

Lemma trailers_unique ls : forall ls' r r',
  Forall trailer_syntax ls -> Forall trailer_syntax ls' ->
  trailers_wire ls ++ CRLF ++ r = trailers_wire ls' ++ CRLF ++ r' -> ls = ls' /\ r = r'.
Proof.
  assert (is_line []) as Hnil by (split; [by intros [|] ?|simpl; lia]).
  induction ls as [|[l t] ls IH]; intros [|[l' t'] ls'] r r' Hs Hs'.
  - by intros [= ->].
  - apply list.Forall_cons in Hs' as [(Hl' & Hne' & _) _]. rewrite trailers_wire_cons. intros Heq.
    by destruct (line_unique [] l' _ _ Hnil Hl' Heq) as [<- _].
  - apply list.Forall_cons in Hs as [(Hl & Hne & _) _]. rewrite trailers_wire_cons. intros Heq.
    by destruct (line_unique l [] _ _ Hl Hnil Heq) as [-> _].
  - apply list.Forall_cons in Hs as [(Hl & _ & Ht) Hs], Hs' as [(Hl' & _ & Ht') Hs'].
    rewrite !trailers_wire_cons. intros Heq. destruct (line_unique _ _ _ _ Hl Hl' Heq) as [Hline Htail].
    cbn [fst snd] in *. subst l'. rewrite (trailer_unique _ _ _ Ht Ht').
    by destruct (IH ls' r r' Hs Hs' Htail) as [-> ->].
Qed.

Section crypto.
Context `{Crypto}.
Context (st : option StreamingSigningContext) (tm : bool).

Lemma body_unique a b b' final final' extra extra' :
  body_ok st tm a b final -> body_ok st tm a b' final' -> body_wire b ++ extra = body_wire b' ++ extra' ->
  b = b' /\ extra = extra'.
Proof.
  assert (forall cs a e, chunks_ok st a (signed_data cs) e -> Forall (fun c => chunk_data c <> []) cs) as Hdata.
  { induction cs as [|c cs IH]; intros a0 e Hcs; [done|]. destruct Hcs as [((Hpos & _) & _) Hcs]. constructor; [|by eapply IH].
    intros Hnil. simpl in Hpos. rewrite Hnil in Hpos. simpl in Hpos. lia. }
  destruct b as [cs l sig ls], b' as [cs' l' sig' ls'].
  intros [(Hcs & Hl & Hh & Hls & _) (e & ? & Hok & _)] [(Hcs' & Hl' & Hh' & Hls' & _) (e' & ? & Hok' & _)].
  unfold body_wire. cbn [body_chunks end_line end_sig trailer_lines] in *. rewrite <-!app_assoc. intros Heq.
  apply (chunks_unique cs cs' l l' sig sig') in Heq as (-> & -> & Heq); [|by eauto..].
  apply trailers_unique in Heq as [-> ->]; [|done..]. by destruct (header_unique _ _ _ _ _ Hh Hh') as [_ ->].
Qed.

(** * Steps of the loop *)

(** A turn that goes on leaves the rest to the next one. *)
Lemma run_continue d w d' w' p :
  decoder_inv d -> feed_turn d w = MkTurn (Ok Continue) d' w' p ->
  decoder_inv d' /\ run d w = (prepend p (run d' w').1, (run d' w').2).
Proof.
  intros Hinv Ht. pose proof (feed_turn_ok d w Hinv) as Hok. unfold turn_ok in Hok. rewrite Ht in Hok.
  split; [apply Hok|]. by rewrite (run_unfold d w Hinv), Ht.
Qed.

(** A run that ends the body went on, or ended it in this turn. *)
Lemma run_ends d w p d' :
  decoder_inv d -> done d = false -> run d w = (Ok p, d') -> done d' = true ->
  (exists d1 w1 p1 q, feed_turn d w = MkTurn (Ok Continue) d1 w1 p1 /\ decoder_inv d1 /\
     (length w1 < length w)%nat /\ run d1 w1 = (Ok q, d') /\ p = p1 ++ q) \/
  (exists w1, feed_turn d w = MkTurn (Ok Break) d' w1 p).
Proof.
  intros Hinv Hd Hrun Hd'. pose proof (feed_turn_ok d w Hinv) as Hok. unfold turn_ok in Hok.
  rewrite (run_unfold d w Hinv) in Hrun. unfold after_turn in Hrun. destruct (feed_turn d w) as [r d1 w1 p1].
  cbn [result decoder wire payload] in *. destruct r as [[|]|e|]; [| |done|done].
  - left. destruct (run d1 w1) as [[q|e|] d2] eqn:Hr; [|done..]. injection Hrun as <- <-.
    exists d1, w1, p1, q. destruct Hok as [? Hlt]. by auto.
  - right. injection Hrun as -> ->. by exists w1.
Qed.

(** ** Header lines *)

Lemma header_line_turn a number h line rest size sig :
  is_line line -> header_says line size sig ->
  feed_turn (header_state st tm a number h) (line ++ CRLF ++ rest) =
  turn_from (header_state st tm a number h) (accept_header (header_state st tm a number h) size sig) Continue rest [].
Proof.
  intros Hl Hh. unfold feed_turn. cbn [state header_state]. unfold header_turn. cbn [buf header_state].
  rewrite (read_line_exact line rest Hl), (proj2 (parse_chunk_header_exact line size sig) Hh). done.
Qed.

(** What the first line of a body that is accepted can be *)
Lemma header_turn_inv a number h w t :
  feed_turn (header_state st tm a number h) w = t -> result t = Ok Continue ->
  exists line rest size sig d1, w = line ++ CRLF ++ rest /\ is_line line /\ header_says line size sig /\
    accept_header (header_state st tm a number h) size sig = Ok d1 /\ t = MkTurn (Ok Continue) d1 rest [].
Proof.
  intros <-. unfold feed_turn. cbn [state header_state]. unfold header_turn. cbn [buf header_state].
  destruct (read_crlf_line [] w) as [[[[line|]|e|] pending] rest] eqn:Hr; [|done..].
  apply read_line_inv_exact in Hr as (-> & -> & Hl).
  destruct (parse_chunk_header line) as [[size sig]|e|] eqn:Hp; [|done..]. bind_step.
  apply parse_chunk_header_exact in Hp. change (set_buf (header_state st tm a number h) []) with (header_state st tm a number h).
  destruct (accept_header _ size sig) as [d1|e|] eqn:Ha; [|done..]. intros _. by exists line, rest, size, sig, d1.
Qed.

Lemma header_turn_break a number h w t :
  feed_turn (header_state st tm a number h) w = t -> result t = Ok Break -> done (decoder t) = false.
Proof.
  intros <-. unfold feed_turn. cbn [state header_state]. unfold header_turn. cbn [buf header_state].
  destruct (read_crlf_line [] w) as [[[[line|]|e|] pending] rest]; [|done..]. by destruct (_ ≫= _).
Qed.

(** What an accepted header means *)
Lemma accept_header_inv_exact a number h size sig d1 :
  0 <= size -> accept_header (header_state st tm a number h) size sig = Ok d1 ->
  (size = 0 /\ exists last, terminal_ok st a sig last /\ d1 = at_trailers st tm a last number h [] 0 0) \/
  (0 < size /\ may_follow a size /\ (bool_decide (st <> None) && bool_decide (sig = None)) = false /\
   d1 = data_state st tm a number size sig).
Proof.
  intros Hsize Ha. pose proof Ha as Ha'. unfold accept_header in Ha. cbn [streaming header_state] in Ha.
  apply bind_Ok in Ha as ([] & Hg%guard_err_Ok & Ha). destruct (Z.eqb_spec size 0) as [->|Hnz].
  - left. split; [done|]. apply bind_Ok in Ha as ([] & Hrem & Ha). apply bind_Ok in Ha as (d2 & Hv & _).
    assert (terminal_ok st a sig (next_sig st (last_sig a) sig)) as Hend.
    { split; [|split; [|done]].
      - intros n Hn. cbn [expected_decoded_remaining header_state] in Hrem. rewrite Hn in Hrem.
        apply guard_err_Ok in Hrem. lia.
      - intros ctx Hctx. rewrite Hctx in Hv. destruct sig as [s|]; [|done]. cbn [prev_sig header_state] in Hv.
        destruct (last_sig a) as [prev|]; [|done]. cbn [unwrap] in Hv. do 2 apply bind_Ok in Hv as (? & [= <-] & Hv).
        apply bind_Ok in Hv as ([] & Hv%verify_chunk_Ok & _). by exists prev, s. }
    exists (next_sig st (last_sig a) sig). split; [done|]. rewrite (accept_terminal st tm a number h sig _ Hend) in Ha'.
    by injection Ha' as <-.
  - right. apply bind_Ok in Ha as ([] & Hmin & Ha). apply bind_Ok in Ha as ([] & Hrem & _).
    assert (may_follow a size) as Hmay.
    { split; [intros p Hp|intros n Hn]; cbn [prev_chunk_size expected_decoded_remaining header_state] in *.
      - rewrite Hp in Hmin. apply guard_err_Ok in Hmin. lia.
      - rewrite Hn in Hrem. apply guard_err_Ok in Hrem. lia. }
    rewrite (accept_chunk st tm a number h size sig ltac:(lia) Hmay Hg) in Ha'. injection Ha' as <-.
    split; [lia|]. by split.
Qed.

(** ** Data *)

Lemma data_state_turn a number data sig rest :
  0 < Z.of_nat (length data) -> may_follow a (Z.of_nat (length data)) ->
  feed_turn (data_state st tm a number (Z.of_nat (length data)) sig) (data ++ rest) =
  turn_from (taken_state st tm a number (Z.of_nat (length data)) sig data)
    (finish_chunk (taken_state st tm a number (Z.of_nat (length data)) sig data) (Z.of_nat (length data)) sig)
    Continue rest data.
Proof.
  intros Hpos Hmay. unfold feed_turn. cbn [state data_state]. unfold data_turn.
  destruct (data ++ rest) as [|b l] eqn:Hw; [apply app_nil in Hw as [-> _]; simpl in Hpos; lia|]. rewrite <-Hw.
  replace (Nat.min _ _) with (length data) by (rewrite length_app; lia).
  rewrite take_app_length, drop_app_length, Z.sub_diag, (take_chunk st tm a number sig data Hmay). done.
Qed.

(** The data of a chunk in a body that is accepted *)
Lemma data_turn_inv a number size sig w t :
  0 < size -> may_follow a size ->
  feed_turn (data_state st tm a number size sig) w = t -> result t = Ok Continue ->
  exists data rest, w = data ++ rest /\ size = Z.of_nat (length data) /\ signed st (last_sig a) data sig /\
    t = MkTurn (Ok Continue) (crlf_state st tm a number size sig) rest data.
Proof.
  intros Hpos Hmay Ht Hr. destruct (Z.le_gt_cases size (Z.of_nat (length w))) as [Hle|Hgt].
  - set (data := take (Z.to_nat size) w). set (rest := drop (Z.to_nat size) w).
    assert (w = data ++ rest) as Hw by (unfold data, rest; by rewrite take_drop).
    assert (size = Z.of_nat (length data)) as Hlen by (unfold data; rewrite length_take; lia).
    clearbody data rest. subst size w. rewrite data_state_turn in Ht by done.
    destruct (finish_chunk (taken_state st tm a number (Z.of_nat (length data)) sig data) (Z.of_nat (length data)) sig)
      as [d1|e|] eqn:Hf; [|subst t; done..].
    assert (signed st (last_sig a) data sig) as Hsig.
    { intros ctx Hctx. unfold finish_chunk in Hf. cbn [streaming taken_state] in Hf. rewrite Hctx in Hf.
      apply bind_Ok in Hf as (d2 & Hv & _). cbn [current_chunk_hash prev_sig taken_state] in Hv.
      destruct sig as [s|]; [|done]. destruct (last_sig a) as [prev|]; [|done].
      cbn [unwrap fmap option_fmap option_map] in Hv. do 3 apply bind_Ok in Hv as (? & [= <-] & Hv).
      apply bind_Ok in Hv as ([] & Hv & _). apply (verify_chunk_Ok ctx prev data s) in Hv. by exists prev, s. }
    rewrite (finish_signed st tm a number _ sig data Hsig) in Hf. injection Hf as <-. subst t.
    by exists data, rest.
  - exfalso. subst t. unfold feed_turn in Hr. cbn [state data_state] in Hr. unfold data_turn in Hr.
    destruct w as [|b w]; [done|]. destruct (take_data _ _ _ _ _) as [d1|e|]; [|done..].
    by rewrite (proj2 (Z.eqb_neq _ _)) in Hr by lia.
Qed.

Lemma data_turn_break a number size sig w t :
  feed_turn (data_state st tm a number size sig) w = t -> result t = Ok Break -> done (decoder t) = false.
Proof.
  intros <-. unfold feed_turn. cbn [state data_state]. unfold data_turn. destruct w as [|b w]; [done|].
  destruct (take_data _ _ _ _ _) as [d1|e|] eqn:Ht; [|done..]. apply take_data_done in Ht.
  destruct (negb _); [done|]. by destruct (finish_chunk _ _ _).
Qed.

(** The CRLF behind the data *)
Lemma crlf_turn_inv a number size sig w t :
  feed_turn (crlf_state st tm a number size sig) w = t ->
  (result t = Ok Break -> done (decoder t) = false) /\
  (result t = Ok Continue -> exists rest, w = CRLF ++ rest /\
     t = MkTurn (Ok Continue) (header_state st tm (advance st a size sig) (number + 1) None) rest []).
Proof.
  intros <-. unfold feed_turn. cbn [state crlf_state crlf_turn]. destruct w as [|b w]; [done|].
  case_bool_decide as Hb; [done|]. subst b. destruct w as [|c w]; [done|]. cbn [lf_turn].
  case_bool_decide as Hc; [done|]. subst c. split; [done|]. intros _. by exists w.
Qed.

(** ** Trailers *)

Lemma add_trailer_exact a last number h ts bytes count line d1 :
  add_trailer (count_trailer (at_trailers st tm a last number h ts bytes count) line) line = Ok d1 <->
  exists t, trailer_says line t /\ count + 1 <= MAX_CHUNKED_TRAILER_COUNT /\
    bytes + (Z.of_nat (length line) + 2) <= MAX_CHUNKED_TRAILER_BYTES /\
    d1 = at_trailers st tm a last number h (ts ++ [t]) (bytes + (Z.of_nat (length line) + 2)) (count + 1).
Proof.
  unfold add_trailer, count_trailer, at_trailers, trailer_says. fields. split.
  - intros Ha. apply bind_Ok in Ha as ([] & Hg%guard_err_Ok & Ha).
    destruct (from_utf8 line) as [text|]; [|done]. apply bind_Ok in Ha as (? & [= <-] & Ha).
    destruct (split_once 58 text) as [[k v]|] eqn:Hs; [|done]. apply bind_Ok in Ha as (? & [= <-] & [= <-]).
    apply split_once_Some in Hs as [-> Hk]. eexists. split; [by exists k, v|]. split; [lia|]. by split; [lia|].
  - intros (t & (k & v & -> & Hk & ->) & Hcount & Hbytes & ->).
    rewrite (proj2 (Z.ltb_ge MAX_CHUNKED_TRAILER_COUNT _)), (proj2 (Z.ltb_ge MAX_CHUNKED_TRAILER_BYTES _)) by lia.
    cbn [orb guard_err ok_or]. bind_step. by rewrite (split_once_app _ _ _ Hk).
Qed.

(** One line behind the terminal chunk *)
Lemma trailers_line_turn a last number h ts bytes count line rest :
  is_line line ->
  feed_turn (at_trailers st tm a last number h ts bytes count) (line ++ CRLF ++ rest) =
  match line with
  | [] => turn_from (at_trailers st tm a last number h ts bytes count)
            (finish_trailers (at_trailers st tm a last number h ts bytes count)) Break rest []
  | _ => turn_from (count_trailer (at_trailers st tm a last number h ts bytes count) line)
           (add_trailer (count_trailer (at_trailers st tm a last number h ts bytes count) line) line) Continue rest []
  end.
Proof.
  intros Hl. unfold feed_turn. cbn [state at_trailers]. unfold trailers_turn. cbn [buf at_trailers].
  rewrite (read_line_exact line rest Hl). by destruct line.
Qed.

Lemma trailers_turn_waits a last number h ts bytes count w :
  (exists line rest, w = line ++ CRLF ++ rest /\ is_line line) \/
  (forall f, result (feed_turn (at_trailers st tm a last number h ts bytes count) w) = Ok f ->
     f = Break /\ done (decoder (feed_turn (at_trailers st tm a last number h ts bytes count) w)) = false).
Proof.
  unfold feed_turn. cbn [state at_trailers]. unfold trailers_turn. cbn [buf at_trailers].
  destruct (read_crlf_line [] w) as [[[[line|]|e|] pending] rest] eqn:Hr; [left|right..]; [|by intros f [= <-]|done|done].
  apply read_line_inv_exact in Hr as (_ & -> & Hl). by exists line, rest.
Qed.

Lemma nil_is_line : is_line [].
Proof. split; [by intros [|] ?|simpl; lia]. Qed.

Lemma trailers_sound n : forall a last number h ts bytes count w p d',
  let d := at_trailers st tm a last number h ts bytes count in
  (length w <= n)%nat -> decoder_inv d -> count <= MAX_CHUNKED_TRAILER_COUNT -> bytes <= MAX_CHUNKED_TRAILER_BYTES ->
  run d w = (Ok p, d') -> done d' = true ->
  exists ls extra, w = trailers_wire ls ++ CRLF ++ extra /\ p = [] /\ Forall trailer_syntax ls /\
    count + Z.of_nat (length ls) <= MAX_CHUNKED_TRAILER_COUNT /\
    bytes + trailers_total ls <= MAX_CHUNKED_TRAILER_BYTES /\
    trailers_ok st tm last (ts ++ (snd <$> ls)) (trailers d').
Proof.
  induction n as [|n IH]; intros a last number h ts bytes count w p d' d Hn Hinv Hcount Hbytes Hrun Hd'.
  { destruct w; [|simpl in Hn; lia]. rewrite (run_nil d Hinv) in Hrun. by injection Hrun as <- <-. }
  destruct (trailers_turn_waits a last number h ts bytes count w) as [(line & rest & -> & Hl)|Hwait].
  2:{ fold d in Hwait. destruct (run_ends d w p d' Hinv eq_refl Hrun Hd') as [(d1 & w1 & p1 & q & Ht & _)|(w1 & Ht)];
        rewrite Ht in Hwait; destruct (Hwait _ eq_refl) as [? ?]; simpl in *; congruence. }
  pose proof (trailers_line_turn a last number h ts bytes count line rest Hl) as Hturn. fold d in Hturn.
  destruct (run_ends d _ p d' Hinv eq_refl Hrun Hd') as [(d1 & w1 & p1 & q & Ht & Hinv1 & Hlt & Hq & ->)|(w1 & Ht)];
    rewrite Ht in Hturn; destruct line as [|b line].
  - by destruct (finish_trailers d).
  - destruct (add_trailer _ _) as [d2|e|] eqn:Ha; [|done..]. injection Hturn as -> -> ->.
    apply add_trailer_exact in Ha as (t & Hsays & Hc & Hb & ->).
    destruct (IH a last number h (ts ++ [t]) _ _ rest q d' ltac:(lia) Hinv1 Hc Hb Hq Hd')
      as (ls & extra & -> & -> & Hls & Hc' & Hb' & Hok).
    exists ((b :: line, t) :: ls), extra. rewrite trailers_wire_cons. split; [done|]. split; [done|].
    split; [by constructor|]. split; [simpl length; lia|].
    split; [unfold trailers_total in *; cbn [foldr fst]; lia|]. by rewrite <-app_assoc in Hok.
  - destruct (finish_trailers d) as [d2|e|] eqn:Hf; [|done..]. injection Hturn as -> _ ->.
    exists [], rest. cbn [trailers_wire mbind list_bind app fmap list_fmap]. rewrite app_nil_r. split; [done|].
    split; [done|]. split; [done|]. split; [simpl length; lia|]. split; [cbn; lia|].
    unfold finish_trailers in Hf. apply bind_Ok in Hf as ([] & Hv & [= <-]). split; [done|].
    intros Htm ctx Hctx. cbn [trailer_mode streaming prev_sig trailers d at_trailers] in Hv. rewrite Htm, Hctx in Hv.
    apply bind_Ok in Hv as (prev & Hprev & Hv%verify_trailer_Ok). destruct last as [l|]; [|done].
    injection Hprev as ->. by exists prev.
  - by destruct (add_trailer _ _).
Qed.

Lemma trailers_run ls : forall a last number h ts bytes count final extra,
  let d := at_trailers st tm a last number h ts bytes count in
  decoder_inv d -> Forall trailer_syntax ls ->
  count + Z.of_nat (length ls) <= MAX_CHUNKED_TRAILER_COUNT ->
  bytes + trailers_total ls <= MAX_CHUNKED_TRAILER_BYTES ->
  trailers_ok st tm last (ts ++ (snd <$> ls)) final ->
  exists d', run d (trailers_wire ls ++ CRLF ++ extra) = (Ok [], d') /\ done d' = true /\ trailers d' = final.
Proof.
  induction ls as [|[line t] ls IH]; intros a last number h ts bytes count final extra d Hinv Hls Hcount Hbytes Hok.
  - cbn [fmap list_fmap] in Hok. rewrite app_nil_r in Hok.
    destruct (finish_encoded st tm a last number h ts bytes count final Hok) as (d' & Hf & Hd' & Hfinal).
    exists d'. split; [|done]. rewrite (run_unfold d _ Hinv). change (trailers_wire [] ++ CRLF ++ extra) with ([] ++ CRLF ++ extra).
    unfold d. by rewrite (trailers_line_turn _ _ _ _ _ _ _ [] extra nil_is_line), Hf.
  - apply list.Forall_cons in Hls as [(Hl & Hne & Hsays) Hls]. cbn [fst snd] in *.
    unfold trailers_total in Hbytes. cbn [foldr fst length] in Hcount, Hbytes.
    fold (trailers_total ls) in Hbytes.
    assert (0 <= trailers_total ls) by (unfold trailers_total; clear; induction ls; cbn [foldr]; lia).
    rewrite trailers_wire_cons. cbn [fst].
    destruct (run_continue d (line ++ CRLF ++ trailers_wire ls ++ CRLF ++ extra)
      (at_trailers st tm a last number h (ts ++ [t]) (bytes + (Z.of_nat (length line) + 2)) (count + 1))
      (trailers_wire ls ++ CRLF ++ extra) []) as [Hinv1 Hrun]; [done| |].
    { unfold d. rewrite (trailers_line_turn _ _ _ _ _ _ _ line _ Hl). destruct line as [|b line]; [done|].
      rewrite (proj2 (add_trailer_exact a last number h ts bytes count (b :: line)
        (at_trailers st tm a last number h (ts ++ [t]) (bytes + (Z.of_nat (length (b :: line)) + 2)) (count + 1)))); [done|].
      exists t. split; [done|]. split; [lia|]. by split; [lia|]. }
    destruct (IH a last number h (ts ++ [t]) (bytes + (Z.of_nat (length line) + 2)) (count + 1) final extra)
      as (d' & Hd' & Hdone); [done|done|lia|lia|by rewrite <-app_assoc|].
    exists d'. split; [|done]. by rewrite Hrun, Hd'.
Qed.

(** * Bodies *)

(** A run that ends has read a body. *)
Lemma body_sound n : forall a number h w p d',
  (length w <= n)%nat -> decoder_inv (header_state st tm a number h) ->
  run (header_state st tm a number h) w = (Ok p, d') -> done d' = true ->
  exists b extra, w = body_wire b ++ extra /\ p = body_payload b /\ body_ok st tm a b (trailers d').
Proof.
  induction n as [|n IH]; intros a number h w p d' Hn Hinv Hrun Hd'.
  { destruct w; [|simpl in Hn; lia]. rewrite (run_nil _ Hinv) in Hrun. by injection Hrun as <- <-. }
  destruct (run_ends _ w p d' Hinv eq_refl Hrun Hd') as [(d1 & w1 & p1 & q & Ht & Hinv1 & Hlt & Hq & ->)|(w1 & Ht)].
  2:{ pose proof (header_turn_break _ _ _ _ _ Ht eq_refl). simpl in *. congruence. }
  destruct (header_turn_inv _ _ _ _ _ Ht eq_refl) as (line & rest & size & sig & d2 & -> & Hl & Hh & Ha & Heq).
  injection Heq as -> -> ->.
  assert (0 <= size <= usize_MAX) as Hrange.
  { pose proof (parse_chunk_header_range line) as Hr. by rewrite (proj2 (parse_chunk_header_exact _ _ _) Hh) in Hr. }
  destruct (accept_header_inv_exact _ _ _ _ _ _ (proj1 Hrange) Ha)
    as [(-> & last & Hend & ->)|(Hpos & Hmay & Hsome & ->)].
  - destruct (trailers_sound _ a last number h [] 0 0 rest q d' (le_n _) Hinv1) as (ls & extra & -> & -> & Hls & Hc & Hb & Hok);
      [by vm_compute|by vm_compute|done|done|].
    exists (MkBody [] line sig ls), extra. unfold body_wire. cbn [body_chunks end_line trailer_lines mbind list_bind app].
    rewrite <-!app_assoc. split; [done|]. split; [done|]. split; [|by exists a, last].
    by split; [constructor|].
  - destruct (run_ends _ rest q d' Hinv1 eq_refl Hq Hd') as [(d3 & w3 & p3 & q3 & Ht3 & Hinv3 & Hlt3 & Hq3 & ->)|(w3 & Ht3)].
    2:{ pose proof (data_turn_break _ _ _ _ _ _ Ht3 eq_refl). simpl in *. congruence. }
    destruct (data_turn_inv _ _ _ _ _ _ Hpos Hmay Ht3 eq_refl) as (data & rest3 & -> & Hlen & Hsig & Heq).
    injection Heq as -> -> ->.
    destruct (run_ends _ rest3 q3 d' Hinv3 eq_refl Hq3 Hd') as [(d4 & w4 & p4 & q4 & Ht4 & Hinv4 & Hlt4 & Hq4 & ->)|(w4 & Ht4)].
    2:{ pose proof (proj1 (crlf_turn_inv _ _ _ _ _ _ Ht4) eq_refl). simpl in *. congruence. }
    destruct (proj2 (crlf_turn_inv _ _ _ _ _ _ Ht4) eq_refl) as (rest4 & -> & Heq). injection Heq as -> -> ->.
    destruct (IH _ _ _ rest4 q4 d' ltac:(lia) Hinv4 Hq4 Hd')
      as (b & extra & -> & -> & ((Hcs & Hsyn) & e & last & Hchunks & Hrest)).
    destruct b as [cs l s ls].
    exists (MkBody (MkChunk line data sig :: cs) l s ls), extra. unfold body_wire.
    cbn [body_chunks end_line end_sig trailer_lines] in *. split; [by rewrite <-!app_assoc, chunks_wire_cons|].
    split; [done|]. split.
    + split; [|done]. constructor; [|done]. split; [done|]. cbn [chunk_data chunk_line chunk_sig]. by rewrite <-Hlen.
    + exists e, last. split; [|done]. subst size. split; [|exact Hchunks]. split; [simpl; lia|by split].
Qed.

(** A chunk of a body is read. *)
Lemma chunk_run a number h c w :
  decoder_inv (header_state st tm a number h) -> chunk_syntax c -> chunk_ok st a (chunk_data c, chunk_sig c) ->
  let d' := header_state st tm (advance st a (Z.of_nat (length (chunk_data c))) (chunk_sig c)) (number + 1) None in
  decoder_inv d' /\
  run (header_state st tm a number h) (chunk_line c ++ CRLF ++ chunk_data c ++ CRLF ++ w) =
  (prepend (chunk_data c) (run d' w).1, (run d' w).2).
Proof.
  destruct c as [line data sig]. cbn [chunk_line chunk_data chunk_sig].
  intros Hinv [Hl Hh] (Hsize & Hmay & Hsig). cbn [chunk_line chunk_data chunk_sig fst snd] in *.
  set (d' := header_state st tm (advance st a (Z.of_nat (length data)) sig) (number + 1) None).
  destruct (run_continue _ (line ++ CRLF ++ data ++ CRLF ++ w) (data_state st tm a number (Z.of_nat (length data)) sig)
    (data ++ CRLF ++ w) [] Hinv) as [Hinv1 Hrun1].
  { rewrite (header_line_turn a number h line _ _ sig Hl Hh).
    by rewrite (accept_chunk st tm a number h (Z.of_nat (length data)) sig ltac:(lia) Hmay (signed_some _ _ _ _ Hsig)). }
  destruct (run_continue _ (data ++ CRLF ++ w) (crlf_state st tm a number (Z.of_nat (length data)) sig)
    (CRLF ++ w) data Hinv1) as [Hinv2 Hrun2].
  { rewrite data_state_turn by (done || lia). by rewrite (finish_signed st tm a number _ sig data Hsig). }
  destruct (run_continue _ (CRLF ++ w) d' w [] Hinv2 eq_refl) as [Hinv3 Hrun3].
  split; [done|]. rewrite Hrun1, Hrun2, Hrun3. cbn [fst snd]. by rewrite !prepend_app, app_nil_r.
Qed.

Lemma chunks_run cs : forall a e number h w,
  decoder_inv (header_state st tm a number h) -> Forall chunk_syntax cs -> chunks_ok st a (signed_data cs) e ->
  exists number' h', decoder_inv (header_state st tm e number' h') /\
    run (header_state st tm a number h) ((cs ≫= chunk_wire) ++ w) =
    (prepend (chunks_data cs) (run (header_state st tm e number' h') w).1, (run (header_state st tm e number' h') w).2).
Proof.
  induction cs as [|c cs IH]; intros a e number h w Hinv Hsyn Hok.
  - simpl in Hok. subst e. exists number, h. split; [done|]. cbn [mbind list_bind app].
    by destruct (run _ w) as [[]].
  - apply list.Forall_cons in Hsyn as [Hc Hsyn]. destruct Hok as [Hcok Hok]. rewrite chunks_wire_cons.
    destruct (chunk_run a number h c ((cs ≫= chunk_wire) ++ w) Hinv Hc Hcok) as [Hinv1 Hrun1].
    destruct (IH _ e _ _ w Hinv1 Hsyn Hok) as (number' & h' & Hinv' & Hrun').
    exists number', h'. split; [done|]. rewrite Hrun1, Hrun'. cbn [fst snd]. by rewrite prepend_app.
Qed.

(** Every body is read. *)
Lemma body_run a number h b final extra :
  decoder_inv (header_state st tm a number h) -> body_ok st tm a b final ->
  exists d, run (header_state st tm a number h) (body_wire b ++ extra) = (Ok (body_payload b), d) /\
    done d = true /\ trailers d = final.
Proof.
  destruct b as [cs l sig ls].
  intros Hinv [(Hcs & Hl & Hh & Hls & Hcount & Hbytes) (e & last & Hchunks & Hend & Htr)].
  unfold body_wire, body_payload, body_trailers in *. cbn [body_chunks end_line end_sig trailer_lines] in *.
  rewrite <-!app_assoc.
  destruct (chunks_run cs a e number h (l ++ CRLF ++ trailers_wire ls ++ CRLF ++ extra) Hinv Hcs Hchunks)
    as (number' & h' & Hinv' & Hrun).
  destruct (run_continue _ (l ++ CRLF ++ trailers_wire ls ++ CRLF ++ extra) (at_trailers st tm e last number' h' [] 0 0)
    (trailers_wire ls ++ CRLF ++ extra) [] Hinv') as [Hinv2 Hrun2].
  { rewrite (header_line_turn e number' h' l _ 0 sig Hl Hh). by rewrite (accept_terminal st tm e number' h' sig last Hend). }
  destruct (trailers_run ls e last number' h' [] 0 0 final extra Hinv2 Hls ltac:(lia) ltac:(lia) Htr)
    as (d & Hd & Hdone). exists d. split; [|done]. rewrite Hrun, Hrun2, Hd. simpl. by rewrite app_nil_r.
Qed.

End crypto.
End ChunkedWire.
