(* ===== verification/ChunkedProps.v ===== *)
(** The incremental aws-chunked decoder: its properties.

    No sequence of slices makes it panic or hold more than its limits, and no
    payload follows an error; the slicing of the wire does not matter, but for two
    cases; every slicing of an encoded body is decoded; and the wires that are
    accepted are exactly those of well-formed bodies. *)

From Stdlib Require Import ZifyBool.
From stdpp Require Import strings.
From S2P Require Import Prelude Str Chunked ChunkedSpec ChunkedSlices ChunkedWire.

Local Open Scope Z_scope.

Module ChunkedProps.
Import Str Chunked ChunkedSpec ChunkedSlices ChunkedWire.

Section crypto.
Context `{Crypto}.

(** ** Limits *)

(** The trailers of a decoder that has not failed *)
Definition trailers_counted (d : IncrementalChunkedDecoder) : Prop :=
  Z.of_nat (length (trailers d)) <= trailer_count d <= MAX_CHUNKED_TRAILER_COUNT /\
  trailer_bytes d <= MAX_CHUNKED_TRAILER_BYTES.

Definition trailers_bounded (d : IncrementalChunkedDecoder) : Prop :=
  Z.of_nat (length (trailers d)) <= MAX_CHUNKED_TRAILER_COUNT.

(** What the decoder holds is bounded. *)
Definition within_limits (d : IncrementalChunkedDecoder) : Prop :=
  (length (buf d) <= MAX_CHUNKED_LINE_BYTES)%nat /\ trailers_bounded d /\
  (state d <> Failed -> trailer_bytes d <= MAX_CHUNKED_TRAILER_BYTES).

Lemma counted_bounded d : trailers_counted d -> trailers_bounded d.
Proof. unfold trailers_counted, trailers_bounded. lia. Qed.

(** Two decoders with the same trailers *)
Definition same_trailers (d d' : IncrementalChunkedDecoder) : Prop :=
  trailers d' = trailers d /\ trailer_count d' = trailer_count d /\ trailer_bytes d' = trailer_bytes d.

Lemma same_trailers_counted d d' : same_trailers d d' -> trailers_counted d -> trailers_counted d'.
Proof. unfold trailers_counted. by intros (-> & -> & ->). Qed.

(** A turn keeps the count while it succeeds, and the bound in any case. *)
Definition turn_counted (t : turn) : Prop :=
  trailers_bounded (decoder t) /\ (forall f, result t = Ok f -> trailers_counted (decoder t)).

Lemma turn_counted_ret r d w p : trailers_counted d -> turn_counted (MkTurn r d w p).
Proof. intros Hd. split; [by apply counted_bounded|done]. Qed.

Lemma turn_from_counted d m f w p :
  trailers_bounded d -> (forall d', m = Ok d' -> trailers_counted d') -> turn_counted (turn_from d m f w p).
Proof. intros Hd Hm. destruct m; simpl; [by apply turn_counted_ret, Hm|by split..]. Qed.

Lemma accept_header_trailers d size sig d' : accept_header d size sig = Ok d' -> same_trailers d d'.
Proof.
  unfold accept_header. intros Ha. apply bind_Ok in Ha as ([] & _ & Ha). destruct (size =? 0).
  - apply bind_Ok in Ha as ([] & _ & Ha). apply bind_Ok in Ha as (d1 & Hv & [= <-]).
    destruct (streaming d); [|by injection Hv as <-]. apply bind_Ok in Hv as (? & _ & Hv).
    apply bind_Ok in Hv as (? & _ & Hv). by apply bind_Ok in Hv as (? & _ & [= <-]).
  - apply bind_Ok in Ha as ([] & _ & Ha). by apply bind_Ok in Ha as ([] & _ & [= <-]).
Qed.

Lemma finish_chunk_trailers d size sig d' : finish_chunk d size sig = Ok d' -> same_trailers d d'.
Proof.
  unfold finish_chunk. intros Ha. apply bind_Ok in Ha as (d1 & Hv & [= <-]).
  destruct (streaming d); [|by injection Hv as <-]. apply bind_Ok in Hv as (? & _ & Hv).
  apply bind_Ok in Hv as (? & _ & Hv). apply bind_Ok in Hv as (? & _ & Hv). by apply bind_Ok in Hv as (? & _ & [= <-]).
Qed.

Lemma finish_trailers_counted d d' : trailers_counted d -> finish_trailers d = Ok d' -> trailers_counted d'.
Proof.
  unfold finish_trailers. intros [Hc Hb] Ha. apply bind_Ok in Ha as (? & _ & [= <-]). split; [|done]. fields.
  pose proof (length_filter (fun t => is_signature t = false) (trailers d)). lia.
Qed.

Lemma add_trailer_counted d line d' :
  trailers_counted d -> add_trailer (count_trailer d line) line = Ok d' -> trailers_counted d'.
Proof.
  unfold add_trailer. intros [Hc Hb] Ha. apply bind_Ok in Ha as ([] & Hg & Ha). apply guard_err_Ok in Hg.
  apply bind_Ok in Ha as (s & _ & Ha). apply bind_Ok in Ha as ([k v] & _ & [= <-]).
  unfold trailers_counted, count_trailer in *. revert Hg. fields. rewrite length_app. simpl. lia.
Qed.

Lemma feed_turn_counted d w : trailers_counted d -> turn_counted (feed_turn d w).
Proof.
  intros Hd. unfold feed_turn. destruct (state d) as [|size rem sig|seen| | |]; [| | | |by apply turn_counted_ret..].
  - unfold header_turn. destruct (read_crlf_line _ _) as [[[[line|]|e|] pending] rest]; [|by apply turn_counted_ret..].
    apply turn_from_counted; [by apply counted_bounded|]. intros d' Ha. apply bind_Ok in Ha as ([size sig] & _ & Ha).
    eapply same_trailers_counted; [by eapply accept_header_trailers|done].
  - destruct w as [|b w]; [by apply turn_counted_ret|]. unfold data_turn.
    destruct (take_data d _ _ _ _) as [d1|e|] eqn:Ht; [|by apply turn_counted_ret..].
    assert (trailers_counted d1) as Hd1 by (unfold take_data in Ht; by apply bind_Ok in Ht as (? & _ & [= <-])).
    destruct (negb _); [by apply turn_counted_ret|]. apply turn_from_counted; [by apply counted_bounded|].
    intros d' Hf. eapply same_trailers_counted; [by eapply finish_chunk_trailers|done].
  - assert (forall d w, trailers_counted d -> turn_counted (lf_turn d w)) as Hlf.
    { intros d1 [|b w1] Hd1; simpl; [by apply turn_counted_ret|]. by case_bool_decide; apply turn_counted_ret. }
    destruct seen; [by apply Hlf|]. destruct w as [|b w]; [by apply turn_counted_ret|]. cbn [crlf_turn].
    case_bool_decide; [by apply turn_counted_ret|by apply Hlf].
  - unfold trailers_turn.
    destruct (read_crlf_line _ _) as [[[[[|b line]|]|e|] pending] rest]; [| |by apply turn_counted_ret..].
    + apply turn_from_counted; [by apply counted_bounded|]. intros d'. by apply finish_trailers_counted.
    + apply turn_from_counted; [exact (counted_bounded d Hd)|]. intros d'. by apply add_trailer_counted.
Qed.

Lemma feed_loop_counted fuel : forall d w out, trailers_counted d ->
  let '(r, d') := feed_loop fuel d w out in
  trailers_bounded d' /\ (is_err r = false -> r <> Panic -> trailers_counted d').
Proof.
  induction fuel as [|fuel IH]; intros d w out Hd; [split; [by apply counted_bounded|done]|]. simpl.
  destruct (feed_turn_counted d w Hd) as [Hb Ht].
  destruct (result (feed_turn d w)) as [[|]|e|]; [by apply IH; eapply Ht|by split; [|intros _ _; eapply Ht]|done..].
Qed.

(** ** Any sequence of slices *)

(** The results of feeding every slice, whatever the earlier ones gave *)
Fixpoint feed_each (d : IncrementalChunkedDecoder) (slices : list (list byte)) :
    list (outcome ServerError (list byte)) * IncrementalChunkedDecoder :=
  match slices with
  | [] => ([], d)
  | w :: slices =>
      let '(r, d') := feed d w in
      let '(rs, d'') := feed_each d' slices in (r :: rs, d'')
  end.

(** The decoder takes no more data. *)
Definition ended (d : IncrementalChunkedDecoder) : Prop := state d = Failed \/ done d = true.

Lemma feed_ended d w : ended d -> exists e, feed d w = (Err e, d).
Proof.
  unfold feed, feed_inner. intros [-> |Hd]; [by eexists|].
  destruct (state d); try (by eexists); rewrite Hd; simpl; rewrite Hd; by eexists.
Qed.

(** What holds between two calls *)
Definition resting (d : IncrementalChunkedDecoder) : Prop :=
  feed_inv d /\ trailers_bounded d /\ (state d <> Failed -> trailers_counted d).

Lemma new_resting st tm expected :
  (forall n, expected = Some n -> 0 <= n) -> resting (new_with_expected_len st tm expected).
Proof.
  intros He. split; [by left; apply new_inv|].
  unfold trailers_bounded, trailers_counted, MAX_CHUNKED_TRAILER_COUNT, MAX_CHUNKED_TRAILER_BYTES. simpl. lia.
Qed.

Lemma feed_step d w : resting d ->
  let '(r, d') := feed d w in r <> Panic /\ resting d' /\ (is_err r = true -> ended d').
Proof.
  intros Hrest. pose proof Hrest as (Hinv & Hb & Hc).
  assert (state d = Failed \/ state d <> Failed) as [Hf|Hf] by (destruct (state d); (by left) || by right).
  { destruct (feed_ended d w) as [e ->]; [by left|]. split; [done|]. split; [done|by left]. }
  destruct (done d) eqn:Hd.
  { destruct (feed_ended d w) as [e ->]; [by right|]. split; [done|]. split; [done|by right]. }
  destruct Hinv as [Hinv|(_ & Hfail & _)]; [|done].
  pose proof (feed_loop_ok (S (length w)) d w [] Hinv ltac:(lia)) as Hok.
  pose proof (feed_loop_counted (S (length w)) d w [] (Hc Hf)) as Hcount.
  assert (feed d w = let '(result, d) := feed_loop (S (length w)) d w [] in
    if is_err result && negb (done d) then (result, set_hash (set_state d Failed) None) else (result, d)) as ->.
  { unfold feed, feed_inner. rewrite Hd. by destruct (state d). }
  destruct (feed_loop _ _ _ _) as [[out|e|] d']; [| |done]; destruct Hcount as [Hb' Hc'].
  - split; [done|]. split; [|done]. split; [by left|]. split; [done|]. intros _. by apply Hc'.
  - destruct Hok as [Hbase Hd']. cbn [is_err]. rewrite Hd'. cbn [andb negb]. split; [done|].
    split; [|by left]. split; [by right|]. split; [done|]. by intros [].
Qed.

Lemma feed_each_ended slices : forall d rs d', ended d -> feed_each d slices = (rs, d') ->
  Forall (fun r => is_err r = true) rs /\ d' = d.
Proof.
  induction slices as [|w slices IH]; intros d rs d' Hend; simpl; [by intros [= <- <-]|].
  destruct (feed_ended d w Hend) as [e ->]. destruct (feed_each d slices) as [rs' d''] eqn:Hl.
  intros [= <- <-]. destruct (IH d rs' d'' Hend Hl) as [Hrs ->]. by split; [constructor|].
Qed.

Lemma feed_each_inv slices : forall d rs d',
  resting d -> feed_each d slices = (rs, d') ->
  Forall (fun r => r <> Panic) rs /\ resting d' /\
  (forall i j r r', (i < j)%nat -> rs !! i = Some r -> is_err r = true -> rs !! j = Some r' -> is_err r' = true).
Proof.
  induction slices as [|w slices IH]; intros d rs d' Hrest; simpl; [by intros [= <- <-]|].
  pose proof (feed_step d w Hrest) as Hstep. destruct (feed d w) as [r d1]. destruct Hstep as (Hr & Hrest1 & He).
  destruct (feed_each d1 slices) as [rs' d2] eqn:Hl. intros [= <- <-].
  destruct (IH d1 rs' d2 Hrest1 Hl) as (Hrs & Hrest2 & Hlater).
  split; [by constructor|]. split; [done|]. intros [|i] [|j] r1 r2 Hij Hi Hri Hj; [lia| |lia|].
  - injection Hi as ->. destruct (feed_each_ended _ _ _ _ (He Hri) Hl) as [Hall _].
    by eapply list.Forall_lookup_1 in Hall.
  - by apply (Hlater i j r1 r2); [lia|..].
Qed.

Definition start (st : option StreamingSigningContext) (expected : option Z) : progress :=
  MkProgress (seed_signature <$> st) None expected.

Lemma chunks_ok_announced st cs : forall a b, chunks_ok st a cs b ->
  announced b = (fun n => n - Z.of_nat (length (payload_of cs))) <$> announced a.
Proof.
  induction cs as [|c cs IH]; intros a b; simpl.
  - intros ->. destruct (announced a); simpl; [f_equal; lia|done].
  - intros [_ Hcs]. rewrite (IH _ _ Hcs), length_app. simpl. destruct (announced a); simpl; [f_equal; lia|done].
Qed.

Lemma payload_of_chunks cs : payload_of (signed_data cs) = chunks_data cs.
Proof. unfold payload_of, signed_data, chunks_data. induction cs as [|c cs IH]; [done|]. rewrite fmap_cons, !bind_cons. by rewrite IH. Qed.

(** Whatever bytes arrive, in whatever slices, [feed] returns: it never
    panics, its buffers stay within the limits, and once a call has failed every
    later call fails, so no payload follows an error. *)
Theorem chunked_feed_total st tm expected slices :
  (forall n, expected = Some n -> 0 <= n) ->
  let '(rs, d) := feed_each (new_with_expected_len st tm expected) slices in
  Forall (fun r => r <> Panic) rs /\ within_limits d /\
  (forall i j r r', (i < j)%nat -> rs !! i = Some r -> is_err r = true -> rs !! j = Some r' -> is_err r' = true).
Proof.
  intros Hexp. destruct (feed_each _ slices) as [rs d] eqn:Hl.
  destruct (feed_each_inv slices _ rs d (new_resting st tm expected Hexp) Hl) as (Hrs & Hrest & Hlater).
  destruct Hrest as (Hinv & Hb & Hc). split; [done|]. split; [|done].
  split; [by destruct Hinv as [[(_ & Hlen & _) _]|[(_ & Hlen & _) _]]|]. split; [done|].
  intros Hf. apply (Hc Hf).
Qed.

(** C16: What the cuts of the wire can change.  When every slice is accepted, the
    payload and the decoder are those of the whole wire in one slice.  When a slice
    fails, the whole wire fails with the same error, but for two cases: bytes behind
    the end of the body, which fail in a slice of their own and are dropped in the
    slice that ends it, and a line of the greatest length, which is too long when
    the wire is cut between its CR and its LF. *)
Theorem chunked_slicing st tm expected slices :
  (forall n, expected = Some n -> 0 <= n) ->
  let d0 := new_with_expected_len st tm expected in
  let whole := feed d0 (concat slices) in
  match feed_all d0 slices with
  | (Ok p, d) => whole = (Ok p, d)
  | (Err e, _) =>
      whole.1 = Err e \/
      (e = MalformedChunkedBody DataAfterComplete /\
       exists before after p d, slices = before ++ after /\ after <> [] /\
         feed_all d0 before = (Ok p, d) /\ is_done d = true /\ whole = (Ok p, d)) \/
      (e = chunked_line_too_long /\
       exists before after, slices = before ++ after /\ line_cut (concat before) (concat after))
  | (Panic, _) => False
  end.
Proof.
  intros Hexp d0 whole. pose proof (new_inv st tm expected Hexp : decoder_inv d0) as Hinv.
  assert (done d0 = false) as Hd0 by done. assert (buf d0 = []) as Hb0 by done. clearbody d0.
  destruct (feed_all d0 slices) as [r d1] eqn:Hall. 
  assert ((exists p, r = Ok p) \/ (forall p, r <> Ok p)) as [[p ->]|Hr] by (destruct r; naive_solver).
  { apply feed_run; [done|done|]. by apply feed_all_run. }
  destruct (feed_all_stops slices d0 r d1 Hall Hr) as (before & w & after & p & d & -> & Hbefore & Hw).
  pose proof (feed_all_run before d0 p d Hinv Hd0 Hbefore) as Hrun. pose proof (run_inv _ _ _ _ Hinv Hrun) as Hinvd.
  unfold whole. rewrite concat_app. cbn [concat]. destruct (done d) eqn:Hd.
  - rewrite (feed_done d w Hinvd Hd) in Hw. simpl in Hw. subst r. right. left. split; [done|].
    exists before, (w :: after), p, d. split; [done|]. split; [done|]. split; [done|]. split; [done|].
    apply feed_run; [done|done|]. by eapply (run_settles _ d0 (concat before)).
  - rewrite (feed_result d w Hinvd Hd) in Hw. rewrite app_assoc, feed_result by done.
    destruct (run_app _ d0 (concat before) w p d (le_n _) Hinv Hrun Hd) as [Hone _].
    pose proof (feed_loop_ok (S (length w)) d w [] Hinvd ltac:(lia)) as Hok. fold (run d w) in Hok.
    destruct (run d w) as [[q|e|] d']; [|simpl in Hw; subst r|done]; [by destruct (Hr q)|].
    destruct (run_settles _ d0 (concat before ++ w) (concat after) (le_n _) Hinv Hd0 Hb0) as [Herr _].
    destruct (Herr e Hone) as [Hsame|[-> Hcut]]; [by left|]. right. right. split; [done|].
    exists (before ++ [w]), after. rewrite <-app_assoc, concat_app. cbn [concat]. by rewrite app_nil_r.
Qed.

(** C17: Every slicing of an encoded body, signed or not, with or without
    trailers, into slices that are not empty decodes to its payload and its trailers;
    the lines of the body are shorter than the limit. *)
Theorem chunked_roundtrip st tm expected cs a sig last ts final slices :
  (forall n, expected = Some n -> 0 <= n) ->
  chunks_ok st (start st expected) cs a -> terminal_ok st a sig last -> trailers_ok st tm last ts final ->
  Forall (fun c => header_ok (Z.of_nat (length c.1)) c.2) cs -> header_ok 0 sig -> trailers_fit ts ->
  Forall (fun w => w <> []) slices -> concat slices = encode_body cs sig ts ->
  exists d, feed_all (new_with_expected_len st tm expected) slices = (Ok (payload_of cs), d) /\
    is_done d = true /\ into_trailers d = final.
Proof.
  intros Hexp Hcs Hend Hts Hok Hsig Hfit Hne Hcut.
  destruct (body_reads st tm (start st expected) a 0 None cs sig last ts final) as (d & Hreads & Hd & Hfinal);
    [by apply (new_inv st tm expected)|done..|].
  exists d. split; [|done]. by apply (feed_all_reads slices _ (encode_body cs sig ts)); [by apply new_inv|..].
Qed.

(** C18: The decoder accepts exactly the well-formed bodies.  When it is done, the
    bytes it was fed, in whatever slices, start with a body of the grammar: header lines that announce the
    sizes of the data behind them and carry the signatures of the chain from the seed
    signature on, no chunk but the last shorter than the minimum, the terminal chunk,
    and trailers within the limits that carry their signature; the payload is the data
    and has the announced length, and the trailers returned are the ones on the wire
    without the signature.  Fed in one slice every such body is accepted, whatever
    follows it, and the bytes leave no choice of the body. *)
Theorem chunked_accepts_exactly st tm expected :
  (forall n, expected = Some n -> 0 <= n) ->
  let d0 := new_with_expected_len st tm expected in
  let ok := body_ok st tm (start st expected) in
  (forall slices p d, feed_all d0 slices = (Ok p, d) -> is_done d = true ->
     exists b extra, concat slices = body_wire b ++ extra /\ ok b (into_trailers d) /\ p = body_payload b /\
       (forall n, expected = Some n -> Z.of_nat (length p) = n)) /\
  (forall b final extra, ok b final ->
     exists d, feed d0 (body_wire b ++ extra) = (Ok (body_payload b), d) /\ is_done d = true /\
       into_trailers d = final) /\
  (forall b b' final final' extra extra', ok b final -> ok b' final' ->
     body_wire b ++ extra = body_wire b' ++ extra' -> b = b' /\ extra = extra').
Proof.
  intros Hexp d0 ok. pose proof (new_inv st tm expected Hexp : decoder_inv d0) as Hinv.
  change d0 with (header_state st tm (start st expected) 0 None) in *. split; [|split].
  - intros slices p d Hall Hd. apply feed_all_run in Hall; [|done|done].
    destruct (body_sound st tm _ (start st expected) 0 None _ p d (le_n _) Hinv Hall Hd) as (b & extra & Hw & -> & Hok).
    exists b, extra. split; [done|]. split; [done|]. split; [done|]. intros n ->.
    destruct Hok as (_ & e & last & Hcs & (Hend & _) & _). pose proof (chunks_ok_announced st _ _ _ Hcs) as Ha.
    rewrite payload_of_chunks in Ha. specialize (Hend _ Ha). unfold body_payload. lia.
  - intros b final extra Hok. destruct (body_run st tm _ 0 None b final extra Hinv Hok) as (d & Hrun & Hdone).
    exists d. split; [|done]. by apply feed_run.
  - intros b b' final final' extra extra'. apply body_unique.
Qed.
End crypto.

(** ** Witnesses *)

(** Primitives that ignore their input: every signature is 2a. *)
Definition toy_crypto : Crypto := {| sha256 := fun _ => [Byte.x2a]; hmac_sha256 := fun _ _ => [Byte.x2a] |}.

Definition toy_context : StreamingSigningContext :=
  MkContext [Byte.x01] (lit "seed") (lit "scope") (lit "20260101T000000Z") (lit "AKID") (lit "GET").

Definition toy_sig : option str := Some (lit "2a").
Definition toy_chunks : list (list byte * option str) := [([Byte.x68; Byte.x69], toy_sig)].
Definition toy_trailers : list (str * str) :=
  [(lit "x-amz-checksum-crc32c", lit "AAAA"); (lit "x-amz-trailer-signature", lit "2a")].
Definition toy_body : list byte := encode_body toy_chunks toy_sig toy_trailers.
Definition toy_slices : list (list byte) := [take 20 toy_body; drop 20 toy_body].

Lemma chunked_feed_total_witness :
  let '(rs, d) := feed_each (H := toy_crypto) (new_with_expected_len (Some toy_context) true (Some 2)) toy_slices in
  Forall (fun r => r <> Panic) rs /\ within_limits d /\
  (forall i j r r', (i < j)%nat -> rs !! i = Some r -> is_err r = true -> rs !! j = Some r' -> is_err r' = true).
Proof. apply (chunked_feed_total (H := toy_crypto)). intros n [= <-]. lia. Defined.

#[local] Existing Instance toy_crypto.

Definition toy_decoder : IncrementalChunkedDecoder := new_with_expected_len (Some toy_context) true (Some 2).

Lemma toy_expected n : Some 2 = Some n -> 0 <= n.
Proof. intros [= <-]. lia. Qed.

Lemma toy_signed prev data : signed (Some toy_context) (Some prev) data toy_sig.
Proof. intros ctx [= <-]. exists prev, (lit "2a"). by vm_compute. Qed.

(** Decide a property of each character of a literal. *)
Ltac each_char := cbn; repeat (apply List.Forall_cons; [unfold printable; lia|]); apply List.Forall_nil.

Lemma toy_header size : (length (header_line size toy_sig) <? MAX_CHUNKED_LINE_BYTES)%nat = true -> header_ok size toy_sig.
Proof. intros Hlen. split; [intros s [= <-]; each_char|by apply Nat.ltb_lt]. Qed.

Lemma toy_trailers_fit : trailers_fit toy_trailers.
Proof.
  split; [|split; by vm_compute].
  apply List.Forall_cons; [|apply List.Forall_cons; [|apply List.Forall_nil]].
  all: (split; [each_char|]; split; [each_char|]; split; [by vm_compute|apply Nat.ltb_lt; by vm_compute]).
Qed.

Lemma toy_trailers_ok : trailers_ok (Some toy_context) true toy_sig toy_trailers [(lit "x-amz-checksum-crc32c", lit "AAAA")].
Proof.
  split; [by vm_compute|]. intros _ ctx [= <-]. exists (lit "2a"). split; [done|]. right.
  exists (lit "x-amz-trailer-signature", lit "2a"). by vm_compute.
Qed.

Lemma chunked_slicing_witness :
  let '(r, d) := feed_all toy_decoder toy_slices in
  r = Ok [Byte.x68; Byte.x69] /\ feed toy_decoder (concat toy_slices) = (r, d).
Proof.
  pose proof (chunked_slicing (Some toy_context) true (Some 2) toy_slices toy_expected) as Hs.
  fold toy_decoder in Hs. cbv zeta in Hs.
  assert ((feed_all toy_decoder toy_slices).1 = Ok [Byte.x68; Byte.x69]) as Hr by by vm_compute.
  destruct (feed_all toy_decoder toy_slices) as [r d]. simpl in Hr. subst r. by split.
Defined.

Lemma chunked_roundtrip_witness :
  exists d, feed_all toy_decoder toy_slices = (Ok [Byte.x68; Byte.x69], d) /\ is_done d = true /\
    into_trailers d = [(lit "x-amz-checksum-crc32c", lit "AAAA")].
Proof.
  apply (chunked_roundtrip (Some toy_context) true (Some 2) toy_chunks
    (MkProgress toy_sig (Some 2) (Some 0)) toy_sig toy_sig toy_trailers).
  - exact toy_expected.
  - split; [|done]. split; [by vm_compute|]. split; [|by apply toy_signed]. by split; simpl; intros ? [= <-].
  - split; [by intros n [= <-]|]. split; [by apply toy_signed|done].
  - exact toy_trailers_ok.
  - constructor; [apply toy_header; by vm_compute|constructor].
  - apply toy_header. by vm_compute.
  - exact toy_trailers_fit.
  - repeat constructor; by vm_compute.
  - by vm_compute.
Defined.

(** The slices of the sample are a body, and nothing follows it. *)
Lemma chunked_accepts_exactly_witness :
  let d := (feed_all toy_decoder toy_slices).2 in
  exists b extra, toy_body = body_wire b ++ extra /\
    body_ok (Some toy_context) true (start (Some toy_context) (Some 2)) b (into_trailers d) /\
    [Byte.x68; Byte.x69] = body_payload b /\ Z.of_nat (length [Byte.x68; Byte.x69]) = 2.
Proof.
  intros d. destruct (chunked_accepts_exactly (Some toy_context) true (Some 2) toy_expected) as [Hsound _].
  fold toy_decoder in Hsound.
  destruct (Hsound toy_slices [Byte.x68; Byte.x69] d) as (b & extra & Hw & Hok & Hp & Hn).
  - vm_compute. reflexivity.
  - vm_compute. reflexivity.
  - exists b, extra. split; [by rewrite <-Hw|]. split; [exact Hok|]. split; [exact Hp|by apply Hn].
Defined.

(** Bytes behind the body are refused in a slice of their own, but dropped without
    an error in the slice that ends the body. *)
Example trailing_bytes_dropped :
  let d := new None false in
  let body := encode_body [] None [] in
  (exists d', feed d (body ++ [Byte.x78]) = (Ok [], d') /\ is_done d' = true) /\
  (feed_all d [body; [Byte.x78]]).1 = Err (MalformedChunkedBody DataAfterComplete).
Proof. split; [eexists; by vm_compute|by vm_compute]. Qed.

(** A line of the greatest length is accepted, unless its CRLF is cut in two. *)
Example longest_line_cut :
  let d := new None false in
  let line := as_bytes (lit "0;") ++ replicate (MAX_CHUNKED_LINE_BYTES - 2) Byte.x61 in
  is_err (feed d (line ++ CRLF)).1 = false /\
  (feed_all d [line ++ [CR]; [LF]]).1 = Err (MalformedChunkedBody LineTooLong).
Proof. by vm_compute. Qed.
End ChunkedProps.
