(* ===== verification/Lease.v ===== *)
(** Leases of the control plane, definitions: the clock and lease rules of
    crates/storage/src/control_plane_lease.rs, the clock sampling of clock.rs, and
    the commands and queries of control_plane.rs that grant, extend and fence
    leases.

    Times are milliseconds of an authority's wall clock, of a process's monotonic
    clock or of its health clock, all [u64].  Of a node record and of the cluster
    snapshot the model has the fields the lease code reads or writes. *)

From Stdlib Require Import ZifyBool.
From stdpp Require Import strings.
From S2P Require Import Prelude Machine.

Local Open Scope Z_scope.

Module Lease.
Import Machine.

Definition CONTROL_PLANE_CLOCK_SKEW_BUDGET_MS : Z := 1000.
Definition MAX_HEARTBEAT_LEASE_MS : Z := 10000.
Definition MAX_LEASE_GRANT_HORIZON_MS : Z := 60000.
Definition CONTROL_PLANE_LEASE_GRANT_HORIZON_DURATION_MS : Z := 2 * MAX_HEARTBEAT_LEASE_MS.

Inductive LeaseClockError :=
| TimestampOverflow (field : string)
| AuthorityClockTooFarAhead (authority_issued_at_ms local_wall_ms skew_budget_ms : Z)
| LocalClockUnhealthy (skew_budget_ms : Z)
| ClockHealthSourceUnavailable
| ServingDeadlineOutOfBounds
    (serving_deadline_ms effective_committed_now_ms max_lease_ms skew_budget_ms : Z).

Inductive LeaseHorizonError :=
| HorizonTimestampOverflow (field : string)
| PreviousHorizonStillActive (authority_now_ms fenced_until_ms : Z).

(** ** Sampling the wall clock against the health clock *)

Record WallClockHealthSample := { wall_time_ms : Z; health_time_ms : option Z }.
Record WallClockHealthSampleWindowTooWide := { narrowest_window_ms : Z; max_window_ms : Z }.

Definition CLOCK_HEALTH_SAMPLE_MAX_WINDOW_MS : Z := 0.
Definition CLOCK_HEALTH_SAMPLE_ATTEMPTS : nat := 8.

Section sampling.

(** The readings: the state [C] of the clocks, what a reading of either returns and
    the state after it *)
Context {C : Type} (wall_time : C -> Z * C) (health_time : C -> option Z * C).

(** One turn of the loop: a sample, or the window that was too wide and the
    greatest health time seen *)
Definition sample_turn (greatest : option Z) (c : C) : WallClockHealthSample + (Z * Z) :=
  let unusable w := inl {| wall_time_ms := w; health_time_ms := None |} in
  match health_time c with
  | (None, c) => unusable (fst (wall_time c))
  | (Some health_before_ms, c) =>
      if match greatest with Some g => health_before_ms <? g | None => false end
      then unusable (fst (wall_time c))
      else
        let '(w, c) := wall_time c in
        match fst (health_time c) with
        | None => unusable w
        | Some health_after_ms =>
            if health_after_ms <? health_before_ms then unusable w
            else match checked_sub64 health_after_ms health_before_ms with
                 | None => unusable w
                 | Some window_ms =>
                     if window_ms =? CLOCK_HEALTH_SAMPLE_MAX_WINDOW_MS
                     then inl {| wall_time_ms := w;
                                 health_time_ms := Some (health_before_ms + window_ms / 2) |}
                     else inr (window_ms, health_after_ms)
                 end
        end
  end.

(** The clocks after a whole turn *)
Definition after_turn (c : C) : C := snd (health_time (snd (wall_time (snd (health_time c))))).

Fixpoint sample_loop (attempts : nat) (narrowest : Z) (greatest : option Z) (c : C) :
    outcome WallClockHealthSampleWindowTooWide WallClockHealthSample :=
  match attempts with
  | O => Err {| narrowest_window_ms := narrowest; max_window_ms := CLOCK_HEALTH_SAMPLE_MAX_WINDOW_MS |}
  | S attempts =>
      match sample_turn greatest c with
      | inl s => Ok s
      | inr (window_ms, g) => sample_loop attempts (Z.min narrowest window_ms) (Some g) (after_turn c)
      end
  end.

Definition wall_clock_health_sample_with (c : C) :
    outcome WallClockHealthSampleWindowTooWide WallClockHealthSample :=
  sample_loop CLOCK_HEALTH_SAMPLE_ATTEMPTS MAX64 None c.

End sampling.

(** ** Health of the clock of a process *)

Record ProcessLeaseClockHealth := {
  initial_wall_ms : Z;
  initial_clock_health_ms : Z;
  latest_wall_ms : Z;
  latest_clock_health_ms : Z;
  healthy : bool
}.

Definition health_new (local_wall_ms : Z) (local_clock_health_ms : option Z) :
    outcome LeaseClockError ProcessLeaseClockHealth :=
  h ← ok_or local_clock_health_ms ClockHealthSourceUnavailable;
  mret {| initial_wall_ms := local_wall_ms; initial_clock_health_ms := h;
          latest_wall_ms := local_wall_ms; latest_clock_health_ms := h; healthy := true |}.

Definition set_healthy (b : bool) (self : ProcessLeaseClockHealth) : ProcessLeaseClockHealth :=
  {| initial_wall_ms := initial_wall_ms self; initial_clock_health_ms := initial_clock_health_ms self;
     latest_wall_ms := latest_wall_ms self; latest_clock_health_ms := latest_clock_health_ms self;
     healthy := b |}.

Definition set_latest (wall health : Z) (self : ProcessLeaseClockHealth) : ProcessLeaseClockHealth :=
  {| initial_wall_ms := initial_wall_ms self; initial_clock_health_ms := initial_clock_health_ms self;
     latest_wall_ms := wall; latest_clock_health_ms := health; healthy := healthy self |}.

Definition health_observe (self : ProcessLeaseClockHealth) (local_wall_ms : Z)
    (local_clock_health_ms : option Z) (skew_budget_ms : Z) : bool * ProcessLeaseClockHealth :=
  let unhealthy := (false, set_healthy false self) in
  if negb (healthy self) then (false, self)
  else match local_clock_health_ms with
  | None => unhealthy
  | Some h =>
      if h <? latest_clock_health_ms self then unhealthy
      else match checked_sub64 local_wall_ms (initial_wall_ms self) with
      | None => unhealthy
      | Some wall_elapsed_ms =>
          match checked_sub64 h (initial_clock_health_ms self) with
          | None => unhealthy
          | Some monotonic_elapsed_ms =>
              if abs_diff64 wall_elapsed_ms monotonic_elapsed_ms <=? skew_budget_ms
              then (true,
                    if latest_clock_health_ms self <? h then set_latest local_wall_ms h self
                    else set_latest (Z.max (latest_wall_ms self) local_wall_ms)
                           (latest_clock_health_ms self) self)
              else unhealthy
          end
      end
  end.

(** [confirm] is what a fresh sample returns when it is asked for. *)
Definition observe_with_older_sample_confirmation (self : ProcessLeaseClockHealth)
    (local_wall_ms : Z) (local_clock_health_ms : option Z) (skew_budget_ms : Z)
    (confirm : option (Z * option Z)) : bool * ProcessLeaseClockHealth :=
  let sample_may_precede_latest :=
    match local_clock_health_ms with
    | Some h => (h <? latest_clock_health_ms self)
                || ((h =? latest_clock_health_ms self) && (local_wall_ms <? latest_wall_ms self))
    | None => false
    end in
  if sample_may_precede_latest
  then match confirm with
       | None => (false, set_healthy false self)
       | Some (w, h) => health_observe self w h skew_budget_ms
       end
  else health_observe self local_wall_ms local_clock_health_ms skew_budget_ms.

(** The state is the static [PROCESS_CLOCK_HEALTH], empty before the first call. *)
Definition validate_process_lease_clock (override_time_millis : option Z) (local_wall_ms : Z)
    (local_clock_health_ms : option Z) (skew_budget_ms : Z) (confirm : option (Z * option Z)) :
    stm (option ProcessLeaseClockHealth) LeaseClockError () :=
  fun static =>
  match override_time_millis with
  | Some _ => (Ok (), static)
  | None =>
      match (match static with
             | Some health => Ok health
             | None => health_new local_wall_ms local_clock_health_ms
             end) with
      | Err e => (Err e, static)
      | Panic => (Panic, static)
      | Ok health =>
          let '(ok, health) := observe_with_older_sample_confirmation health local_wall_ms
            local_clock_health_ms skew_budget_ms confirm in
          (if ok then Ok ()
           else match local_clock_health_ms with
                | None => Err ClockHealthSourceUnavailable
                | Some _ => Err (LocalClockUnhealthy skew_budget_ms)
                end, Some health)
      end
  end.

(** ** A deadline bound to the monotonic clock of a consumer *)

Record BoundRouteMapLease := {
  authority_valid_until_ms : Z;
  local_valid_until_monotonic_ms : Z
}.

Definition expired (valid_until local_monotonic_ms : Z) : BoundRouteMapLease :=
  {| authority_valid_until_ms := valid_until; local_valid_until_monotonic_ms := local_monotonic_ms |}.

Definition bind (authority_issued_at_ms valid_until local_wall_ms local_monotonic_ms skew_budget_ms : Z) :
    outcome LeaseClockError BoundRouteMapLease :=
  _ ← guard_err (saturating_add64 local_wall_ms skew_budget_ms <? authority_issued_at_ms)
        (AuthorityClockTooFarAhead authority_issued_at_ms local_wall_ms skew_budget_ms);
  let conservative_local_wall_deadline_ms := saturating_sub64 valid_until skew_budget_ms in
  let remaining_ms := saturating_sub64 conservative_local_wall_deadline_ms local_wall_ms in
  deadline ← ok_or (checked_add64 local_monotonic_ms remaining_ms)
               (TimestampOverflow "local monotonic lease deadline");
  mret {| authority_valid_until_ms := valid_until; local_valid_until_monotonic_ms := deadline |}.

Definition is_valid_at_monotonic (self : BoundRouteMapLease) (local_monotonic_ms : Z) : bool :=
  local_monotonic_ms <? local_valid_until_monotonic_ms self.

(** How long a route map may be used *)
Inductive RouteMapValidity := Forever | Until (valid_until_ms : Z).

Definition valid_until_ms (self : RouteMapValidity) : option Z :=
  match self with Forever => None | Until ms => Some ms end.

(** [ClusterRuntimeMapSnapshot] and the lease renewal do the same. *)
Definition bind_process_local_lease_at (validity : RouteMapValidity) (issued_at_ms : option Z)
    (local_wall_ms local_monotonic_ms : Z) (override_time_millis clock_health_time_millis : option Z)
    (confirm : option (Z * option Z)) :
    stm (option ProcessLeaseClockHealth) LeaseClockError (option BoundRouteMapLease) :=
  match valid_until_ms validity with
  | None => mret None
  | Some until =>
      validate_process_lease_clock override_time_millis local_wall_ms clock_health_time_millis
        CONTROL_PLANE_CLOCK_SKEW_BUDGET_MS confirm ≫= fun _ =>
      match issued_at_ms with
      | None => mret (Some (expired until local_monotonic_ms))
      | Some issued =>
          liftS (bind issued until local_wall_ms local_monotonic_ms CONTROL_PLANE_CLOCK_SKEW_BUDGET_MS)
            ≫= fun lease => mret (Some lease)
      end
  end.

(** The storage node passes its own wall clock for the time of issue. *)
Definition bind_storage_node_route_map_lease_at (validity : RouteMapValidity)
    (local_wall_ms local_monotonic_ms : Z) (override_time_millis local_health_ms : option Z)
    (confirm : option (Z * option Z)) :
    stm (option ProcessLeaseClockHealth) LeaseClockError (option BoundRouteMapLease) :=
  match valid_until_ms validity with
  | None => mret None
  | Some until =>
      validate_process_lease_clock override_time_millis local_wall_ms local_health_ms
        CONTROL_PLANE_CLOCK_SKEW_BUDGET_MS confirm ≫= fun _ =>
      liftS (bind local_wall_ms until local_wall_ms local_monotonic_ms CONTROL_PLANE_CLOCK_SKEW_BUDGET_MS)
        ≫= fun lease => mret (Some lease)
  end.

(** ** Deadlines of the authority *)

Definition validate_serving_deadline_bound
    (serving_deadline_ms effective_committed_now_ms max_lease_ms skew_budget_ms : Z) :
    outcome LeaseClockError () :=
  maximum ← ok_or (d ← checked_add64 effective_committed_now_ms max_lease_ms;
                   checked_add64 d skew_budget_ms)
              (TimestampOverflow "maximum serving deadline");
  guard_err (maximum <? serving_deadline_ms)
    (ServingDeadlineOutOfBounds serving_deadline_ms effective_committed_now_ms max_lease_ms skew_budget_ms).

Definition bounded_renewal_deadline (current_deadline_ms : option Z)
    (effective_committed_now_ms requested_lease_ms max_lease_ms skew_budget_ms : Z) :
    outcome LeaseClockError Z :=
  proposed ← ok_or (checked_add64 effective_committed_now_ms (Z.min requested_lease_ms max_lease_ms))
               (TimestampOverflow "proposed serving deadline");
  let candidate := match current_deadline_ms with
                   | None => proposed
                   | Some current => Z.max current proposed
                   end in
  _ ← validate_serving_deadline_bound candidate effective_committed_now_ms max_lease_ms skew_budget_ms;
  mret candidate.

Definition successor_activation_fence_satisfied
    (successor_authority_now_ms previous_primary_deadline_ms skew_budget_ms : Z) : bool :=
  match checked_add64 previous_primary_deadline_ms skew_budget_ms with
  | Some fenced_until_ms => fenced_until_ms <=? successor_authority_now_ms
  | None => false
  end.

(** ** The committed bound of leases that are granted without a command of their own *)

Record LeaseHorizonAuthorityBinding := {
  clock_generation : Z;
  raft_term : option Z
}.

#[global] Instance LeaseHorizonAuthorityBinding_eq_dec : EqDecision LeaseHorizonAuthorityBinding.
Proof. solve_decision. Defined.

Definition checked_new (generation : Z) (term : option Z) : option LeaseHorizonAuthorityBinding :=
  if (generation =? 0) || bool_decide (term = Some 0) then None
  else Some {| clock_generation := generation; raft_term := term |}.

Record CommittedLeaseGrantHorizon := {
  authority : LeaseHorizonAuthorityBinding;
  grant_not_after_ms : Z
}.

#[global] Instance CommittedLeaseGrantHorizon_eq_dec : EqDecision CommittedLeaseGrantHorizon.
Proof. solve_decision. Defined.

Definition validate_rebinding (self : CommittedLeaseGrantHorizon) (a : LeaseHorizonAuthorityBinding)
    (authority_now_ms skew_budget_ms : Z) : outcome LeaseHorizonError () :=
  if bool_decide (authority self = a) then Ok ()
  else
    fenced_until_ms ← ok_or (checked_add64 (grant_not_after_ms self) skew_budget_ms)
                        (HorizonTimestampOverflow "previous lease horizon fence");
    guard_err (authority_now_ms <? fenced_until_ms)
      (PreviousHorizonStillActive authority_now_ms fenced_until_ms).

Definition establish (previous : option CommittedLeaseGrantHorizon) (a : LeaseHorizonAuthorityBinding)
    (authority_now_ms horizon_duration_ms skew_budget_ms : Z) :
    outcome LeaseHorizonError CommittedLeaseGrantHorizon :=
  proposed ← ok_or (checked_add64 authority_now_ms horizon_duration_ms)
               (HorizonTimestampOverflow "lease grant horizon");
  match previous with
  | None => Ok {| authority := a; grant_not_after_ms := proposed |}
  | Some previous =>
      if bool_decide (authority previous = a)
      then Ok {| authority := a; grant_not_after_ms := Z.max (grant_not_after_ms previous) proposed |}
      else
        _ ← validate_rebinding previous a authority_now_ms skew_budget_ms;
        mret {| authority := a; grant_not_after_ms := proposed |}
  end.

(** ** The lease part of the cluster snapshot *)

Inductive NodeMembershipState := Joining | Active | Draining | Out | Removed.
Inductive NodeAvailabilityState := Healthy | Suspect | Unavailable.

#[global] Instance NodeAvailabilityState_eq_dec : EqDecision NodeAvailabilityState.
Proof. solve_decision. Defined.

Record NodeControlRecord := {
  node_id : Z;
  membership : NodeMembershipState;
  administratively_available : bool;
  observed_availability : NodeAvailabilityState;
  node_incarnation : Z;
  endpoint : string;
  lease_deadline_ms : option Z
}.

(** [nodes] holds the entries of the [BTreeMap], in key order. *)
Record ClusterControlSnapshot := {
  max_committed_timestamp_ms : option Z;
  lease_grant_horizon : option CommittedLeaseGrantHorizon;
  nodes : list (Z * NodeControlRecord)
}.

Inductive ControlPlaneAuthorityClockBlockedReason :=
| InitialTimestampDiscontinuity
| RaftLeadershipChanged
| ClockSourceUnavailable
| ClockHealthRegression
| WallClockRegression
| WallClockForwardJump
| CheckpointPersistenceFailure.

#[global] Instance BlockedReason_eq_dec : EqDecision ControlPlaneAuthorityClockBlockedReason.
Proof. solve_decision. Defined.

(** The errors of the lease and clock code; a message is its text without the
    numbers that are formatted into it. *)
Inductive ControlPlaneError :=
| LeaseDeadlineOverflow
| LeaseDeadlineOutOfBounds
    (serving_deadline_ms effective_committed_now_ms max_lease_ms skew_budget_ms : Z)
| LeaseGrantHorizonTimestampOverflow (field : string)
| PreviousLeaseGrantHorizonStillActive (authority_now_ms fenced_until_ms : Z)
| CommittedTimestampRegression (timestamp_ms max_committed_ms : Z)
| CommittedTimestampTooFarAhead (timestamp_ms max_committed_ms max_forward_jump_ms : Z)
| InvalidLeaseGrantHorizonDuration (duration_ms max_ms : Z)
| UnknownNode (id : Z)
| NodeCannotReceiveLease (id : Z) (m : NodeMembershipState)
| NodeIncarnationMismatch (id sender_incarnation current_incarnation : Z)
| NodeLeaseDeadlineRegression (id current_deadline_ms requested_deadline_ms : Z)
| SnapshotInvariantViolation (context message : string)
| CommandDecode (message : string)
| AuthorityClockCheckpoint (message : string)
| AuthorityClockSourceUnavailable
| AuthorityClockNotEstablished (blocked_reason : option ControlPlaneAuthorityClockBlockedReason)
| AuthorityClockRaftTermMismatch (expected_term actual_term : option Z)
| AuthorityClockGenerationOverflow
| AuthorityClockAlreadyEstablished
| AuthorityClockGenerationMismatch (expected_generation actual_generation : Z)
| AuthorityClockCommittedTimestampMismatch (expected_timestamp_ms actual_timestamp_ms : option Z)
| AuthorityClockNotLocalServingRaftAuthority
| AuthorityClockWallBehindCommittedTimestamp (wall_ms committed_timestamp_high_water_ms : Z)
| AuthorityClockLeadershipChanged (established_term : option Z) (current_term : Z).

(** The conversions are [outcome]s because of their [unreachable!] arms. *)
Definition control_plane_lease_clock_error {A} (m : outcome LeaseClockError A) : outcome ControlPlaneError A :=
  match m with
  | Ok a => Ok a
  | Err (TimestampOverflow _) => Err LeaseDeadlineOverflow
  | Err (ServingDeadlineOutOfBounds d n l s) => Err (LeaseDeadlineOutOfBounds d n l s)
  | Err _ | Panic => Panic
  end.

Definition control_plane_lease_horizon_error (e : LeaseHorizonError) : ControlPlaneError :=
  match e with
  | HorizonTimestampOverflow field => LeaseGrantHorizonTimestampOverflow field
  | PreviousHorizonStillActive now fenced => PreviousLeaseGrantHorizonStillActive now fenced
  end.

(** [BTreeMap::get] *)
Fixpoint nodes_get (l : list (Z * NodeControlRecord)) (id : Z) : option NodeControlRecord :=
  match l with
  | [] => None
  | (k, r) :: l' => if k =? id then Some r else nodes_get l' id
  end.

(** [record.lease_deadline_ms = Some(deadline)] in the entry of a node *)
Definition set_lease_deadline (deadline : Z) (r : NodeControlRecord) : NodeControlRecord :=
  {| node_id := node_id r; membership := membership r;
     administratively_available := administratively_available r;
     observed_availability := observed_availability r; node_incarnation := node_incarnation r;
     endpoint := endpoint r; lease_deadline_ms := Some deadline |}.

Definition nodes_set_lease (id deadline : Z) (l : list (Z * NodeControlRecord)) :
    list (Z * NodeControlRecord) :=
  (fun '(k, r) => (k, if k =? id then set_lease_deadline deadline r else r)) <$> l.

Definition set_horizon (h : option CommittedLeaseGrantHorizon) (self : ClusterControlSnapshot) :
    ClusterControlSnapshot :=
  {| max_committed_timestamp_ms := max_committed_timestamp_ms self; lease_grant_horizon := h;
     nodes := nodes self |}.

Definition set_nodes (l : list (Z * NodeControlRecord)) (self : ClusterControlSnapshot) :
    ClusterControlSnapshot :=
  {| max_committed_timestamp_ms := max_committed_timestamp_ms self;
     lease_grant_horizon := lease_grant_horizon self; nodes := l |}.

Definition lease_grant_horizon_covers (self : ClusterControlSnapshot) (a : LeaseHorizonAuthorityBinding)
    (deadline : Z) : bool :=
  match lease_grant_horizon self with
  | Some h => bool_decide (authority h = a) && (deadline <=? grant_not_after_ms h)
  | None => false
  end.

Definition lease_grant_horizon_authority (self : ClusterControlSnapshot) :
    option LeaseHorizonAuthorityBinding :=
  authority <$> lease_grant_horizon self.

Definition validate_lease_grant_horizon_rebinding (self : ClusterControlSnapshot)
    (a : LeaseHorizonAuthorityBinding) (authority_now_ms : Z) : outcome ControlPlaneError () :=
  match lease_grant_horizon self with
  | None => Ok ()
  | Some h => map_err control_plane_lease_horizon_error
                (validate_rebinding h a authority_now_ms CONTROL_PLANE_CLOCK_SKEW_BUDGET_MS)
  end.

(** The flag says whether the high-water mark moved. *)
Definition record_committed_timestamp (self : ClusterControlSnapshot) (timestamp_ms : Z) :
    bool * ClusterControlSnapshot :=
  let previous := max_committed_timestamp_ms self in
  let next := Some (match previous with Some m => Z.max m timestamp_ms | None => timestamp_ms end) in
  (negb (bool_decide (next = previous)),
   {| max_committed_timestamp_ms := next; lease_grant_horizon := lease_grant_horizon self;
      nodes := nodes self |}).

Definition validate_serving_timestamp (self : ClusterControlSnapshot) (timestamp_ms : Z) :
    outcome ControlPlaneError () :=
  match max_committed_timestamp_ms self with
  | None => Ok ()
  | Some m => guard_err (timestamp_ms <? m) (CommittedTimestampRegression timestamp_ms m)
  end.

Definition heartbeat_lease_deadline (self : ClusterControlSnapshot)
    (id heartbeat_at_ms requested_lease_duration_ms : Z) : outcome ControlPlaneError Z :=
  _ ← validate_serving_timestamp self heartbeat_at_ms;
  r ← ok_or (nodes_get (nodes self) id) (UnknownNode id);
  control_plane_lease_clock_error
    (bounded_renewal_deadline (lease_deadline_ms r) heartbeat_at_ms requested_lease_duration_ms
       MAX_HEARTBEAT_LEASE_MS CONTROL_PLANE_CLOCK_SKEW_BUDGET_MS).

Definition establish_heartbeat_lease_horizon (self : ClusterControlSnapshot)
    (a : option LeaseHorizonAuthorityBinding) (heartbeat_at_ms deadline : Z) :
    outcome ControlPlaneError ClusterControlSnapshot :=
  match a with
  | None => Ok self
  | Some a =>
      next ← (if lease_grant_horizon_covers self a deadline then Ok self
              else h ← map_err control_plane_lease_horizon_error
                         (establish (lease_grant_horizon self) a heartbeat_at_ms
                            CONTROL_PLANE_LEASE_GRANT_HORIZON_DURATION_MS CONTROL_PLANE_CLOCK_SKEW_BUDGET_MS);
                   mret (set_horizon (Some h) self));
      _ ← guard_err (negb (lease_grant_horizon_covers next a deadline))
            (SnapshotInvariantViolation "committed heartbeat lease horizon does not cover its lease"
               "lease deadline is outside the committed horizon");
      mret next
  end.

(** *** Commands

    A command gives the snapshot after it and whether it changed anything; the
    history of cluster maps that a change also appends to is not part of the model. *)

Definition apply_establish_lease_grant_horizon (self : ClusterControlSnapshot)
    (a : LeaseHorizonAuthorityBinding) (authority_now_ms horizon_duration_ms : Z) :
    outcome ControlPlaneError (ClusterControlSnapshot * bool) :=
  _ ← guard_err ((horizon_duration_ms =? 0) || (MAX_LEASE_GRANT_HORIZON_MS <? horizon_duration_ms))
        (InvalidLeaseGrantHorizonDuration horizon_duration_ms MAX_LEASE_GRANT_HORIZON_MS);
  _ ← validate_serving_timestamp self authority_now_ms;
  h ← map_err control_plane_lease_horizon_error
        (establish (lease_grant_horizon self) a authority_now_ms horizon_duration_ms
           CONTROL_PLANE_CLOCK_SKEW_BUDGET_MS);
  let horizon_changed := negb (bool_decide (lease_grant_horizon self = Some h)) in
  let '(timestamp_changed, next) :=
    record_committed_timestamp (set_horizon (Some h) self) authority_now_ms in
  mret (next, horizon_changed || timestamp_changed).

Record PromotedNodeHeartbeatLease := {
  promoted_node_id : Z;
  promoted_node_incarnation : Z;
  promoted_deadline_ms : Z
}.

Definition cannot_receive_lease (m : NodeMembershipState) : bool :=
  match m with Out | Removed => true | _ => false end.

(** One turn of the validating loop; the state is the previous node id. *)
Definition check_promoted (self : ClusterControlSnapshot) (h : CommittedLeaseGrantHorizon)
    (previous : option Z) (l : PromotedNodeHeartbeatLease) : outcome ControlPlaneError (option Z) :=
  let id := promoted_node_id l in
  let deadline := promoted_deadline_ms l in
  _ ← guard_err (match previous with Some p => id <=? p | None => false end)
        (CommandDecode "heartbeat lease promotion nodes are not strictly ordered");
  _ ← guard_err ((deadline =? 0) || (grant_not_after_ms h <? deadline))
        (CommandDecode "heartbeat lease promotion has invalid deadline under horizon");
  r ← ok_or (nodes_get (nodes self) id) (UnknownNode id);
  _ ← guard_err (cannot_receive_lease (membership r)) (NodeCannotReceiveLease id (membership r));
  _ ← guard_err (negb (administratively_available r)
                 || negb (bool_decide (observed_availability r = Healthy)))
        (CommandDecode "heartbeat lease promotion requires a healthy available durable node");
  _ ← guard_err (negb (node_incarnation r =? promoted_node_incarnation l))
        (NodeIncarnationMismatch id (promoted_node_incarnation l) (node_incarnation r));
  current ← ok_or (lease_deadline_ms r)
              (CommandDecode "heartbeat lease promotion has no durable base lease");
  _ ← guard_err (deadline <? current) (NodeLeaseDeadlineRegression id current deadline);
  mret (Some id).

(** One turn of the mutating loop; the state is the nodes and [changed]. *)
Definition promote_one (st : list (Z * NodeControlRecord) * bool) (l : PromotedNodeHeartbeatLease) :
    outcome ControlPlaneError (list (Z * NodeControlRecord) * bool) :=
  let '(ns, changed) := st in
  r ← unwrap (nodes_get ns (promoted_node_id l));
  mret (if bool_decide (lease_deadline_ms r = Some (promoted_deadline_ms l)) then (ns, changed)
        else (nodes_set_lease (promoted_node_id l) (promoted_deadline_ms l) ns, true)).

Definition apply_promote_node_heartbeat_leases (self : ClusterControlSnapshot)
    (a : LeaseHorizonAuthorityBinding) (promoted : list PromotedNodeHeartbeatLease) :
    outcome ControlPlaneError (ClusterControlSnapshot * bool) :=
  _ ← guard_err (bool_decide (promoted = []))
        (CommandDecode "heartbeat lease promotion requires at least one node");
  h ← ok_or (lease_grant_horizon self)
        (CommandDecode "heartbeat lease promotion requires a committed lease horizon");
  _ ← guard_err (negb (bool_decide (authority h = a)))
        (CommandDecode "heartbeat lease promotion authority does not match committed horizon authority");
  _ ← foldM (check_promoted self h) None promoted;
  st ← foldM promote_one (nodes self, false) promoted;
  mret (set_nodes (fst st) self, snd st).

(** The command that makes the volatile deadlines of [self] durable *)
Definition promote_node (self : ClusterControlSnapshot) (promoted : list PromotedNodeHeartbeatLease)
    (entry : Z * NodeControlRecord) : outcome ControlPlaneError (list PromotedNodeHeartbeatLease) :=
  let '(id, durable_node) := entry in
  let violation := SnapshotInvariantViolation "volatile heartbeat lease promotion" in
  live_node ← ok_or (nodes_get (nodes self) id) (violation "live snapshot is missing durable node");
  _ ← guard_err (negb (node_incarnation live_node =? node_incarnation durable_node)
                 || negb (bool_decide (endpoint live_node = endpoint durable_node)))
        (violation "live node identity differs from durable state");
  match lease_deadline_ms durable_node, lease_deadline_ms live_node with
  | Some durable, Some live =>
      if durable <? live
      then mret (promoted ++ [{| promoted_node_id := id;
                                 promoted_node_incarnation := node_incarnation live_node;
                                 promoted_deadline_ms := live |}])
      else if live <? durable then Err (NodeLeaseDeadlineRegression id durable live)
      else mret promoted
  | None, Some _ => Err (violation "live node has lease deadline without a durable base lease")
  | Some _, None => Err (violation "live node dropped its durable lease outside a replicated command")
  | None, None => mret promoted
  end.

Definition promote_volatile_heartbeat_leases_command (self durable : ClusterControlSnapshot) :
    outcome ControlPlaneError (option (LeaseHorizonAuthorityBinding * list PromotedNodeHeartbeatLease)) :=
  _ ← guard_err (negb (bool_decide (lease_grant_horizon self = lease_grant_horizon durable))
                 || negb (len (nodes self) =? len (nodes durable)))
        (SnapshotInvariantViolation "volatile heartbeat lease promotion"
           "live and durable snapshots do not share the same lease horizon and node set");
  promoted ← foldM (promote_node self) [] (nodes durable);
  if bool_decide (promoted = []) then mret None
  else
    a ← ok_or (lease_grant_horizon_authority self)
          (SnapshotInvariantViolation "volatile heartbeat lease promotion"
             "live lease advances have no committed lease horizon");
    mret (Some (a, promoted)).

(** *** Checks of a snapshot, and the fence of an activation *)

(** [validate_lease_grant_horizon_invariant], without the text of its error *)
Definition validate_lease_grant_horizon_invariant (self : ClusterControlSnapshot) : bool :=
  match lease_grant_horizon self with
  | None => true
  | Some h =>
      negb (grant_not_after_ms h =? 0) &&
      match max_committed_timestamp_ms self with
      | None => false
      | Some m => saturating_sub64 (grant_not_after_ms h) m <=? MAX_LEASE_GRANT_HORIZON_MS
      end
  end.

(** The lease part of the check of a node record *)
Definition node_lease_valid (self : ClusterControlSnapshot) (r : NodeControlRecord) : bool :=
  negb (cannot_receive_lease (membership r)
        && (administratively_available r
            || negb (bool_decide (observed_availability r = Unavailable))
            || bool_decide (is_Some (lease_deadline_ms r)))) &&
  match lease_deadline_ms r with
  | None => true
  | Some deadline =>
      match max_committed_timestamp_ms self with
      | None => false
      | Some m =>
          match lease_grant_horizon self with
          | Some h => deadline <=? grant_not_after_ms h
          | None => false
          end
          || is_ok (validate_serving_deadline_bound deadline m MAX_HEARTBEAT_LEASE_MS
                      CONTROL_PLANE_CLOCK_SKEW_BUDGET_MS)
      end
  end.

Record ExpiredNodeHeartbeatLease := { expired_node_id : Z; expired_deadline_ms : Z }.

Definition expired_node_heartbeat_leases (self : ClusterControlSnapshot) (expire_at_ms : Z) :
    list ExpiredNodeHeartbeatLease :=
  omap (fun '(_, r) =>
          if negb (cannot_receive_lease (membership r))
             && negb (bool_decide (observed_availability r = Unavailable))
          then match lease_deadline_ms r with
               | Some d => if d <=? expire_at_ms
                           then Some {| expired_node_id := node_id r; expired_deadline_ms := d |}
                           else None
               | None => None
               end
          else None) (nodes self).

Record PreviousPrimaryLease := {
  previous_node_id : Z;
  previous_node_incarnation : Z;
  previous_endpoint : string;
  previous_lease_deadline_ms : Z;
  prefer_reactivation : bool
}.

Definition matches_process (self : PreviousPrimaryLease) (id incarnation : Z) (ep : string) : bool :=
  (previous_node_id self =? id) && (previous_node_incarnation self =? incarnation)
  && bool_decide (previous_endpoint self = ep).

Definition blocks_activation (self : PreviousPrimaryLease) (primary primary_incarnation : Z)
    (primary_endpoint : string) (now_ms : Z) : bool :=
  negb (matches_process self primary primary_incarnation primary_endpoint)
  && negb (successor_activation_fence_satisfied now_ms (previous_lease_deadline_ms self)
             CONTROL_PLANE_CLOCK_SKEW_BUDGET_MS).

End Lease.
