(* ===== verification/LeaseRules.v ===== *)
(** Leases in the cluster snapshot, proofs and properties: the commands keep the
    checks a published snapshot passes, a renewal is always covered by the horizon,
    volatile deadlines are made durable by the command that is derived from them,
    and what the health monitor of a process accepts. *)

From Stdlib Require Import ZifyBool Sorting.Sorted.
From stdpp Require Import strings.
From S2P Require Import Prelude Machine Lease.

Local Open Scope Z_scope.

Module LeaseRules.
Import Machine Lease.

(** ** Renewal *)

Lemma deadline_bound_Ok d m :
  validate_serving_deadline_bound d m MAX_HEARTBEAT_LEASE_MS CONTROL_PLANE_CLOCK_SKEW_BUDGET_MS = Ok () <->
  m + MAX_HEARTBEAT_LEASE_MS + CONTROL_PLANE_CLOCK_SKEW_BUDGET_MS <= MAX64 /\
  d <= m + MAX_HEARTBEAT_LEASE_MS + CONTROL_PLANE_CLOCK_SKEW_BUDGET_MS.
Proof.
  unfold validate_serving_deadline_bound, checked_add64, MAX_HEARTBEAT_LEASE_MS, CONTROL_PLANE_CLOCK_SKEW_BUDGET_MS.
  destruct (Z.leb_spec (m + 10000) MAX64); cbn; [|split; [done|lia]].
  destruct (Z.leb_spec (m + 10000 + 1000) MAX64); cbn; [|split; [done|lia]].
  rewrite guard_err_Ok. lia.
Qed.

Lemma renewal_bounds current now requested d :
  bounded_renewal_deadline current now requested MAX_HEARTBEAT_LEASE_MS CONTROL_PLANE_CLOCK_SKEW_BUDGET_MS = Ok d ->
  now + MAX_HEARTBEAT_LEASE_MS + CONTROL_PLANE_CLOCK_SKEW_BUDGET_MS <= MAX64 /\
  now + Z.min requested MAX_HEARTBEAT_LEASE_MS <= d <= now + MAX_HEARTBEAT_LEASE_MS + CONTROL_PLANE_CLOCK_SKEW_BUDGET_MS /\
  (forall c, current = Some c -> c <= d).
Proof.
  unfold bounded_renewal_deadline. intros (p & Hp & H1)%bind_Ok.
  apply bind_Ok in H1 as ([] & [H64 Hle]%deadline_bound_Ok & H1). injection H1 as <-.
  unfold checked_add64 in Hp. destruct (_ <=? MAX64); [|done]. injection Hp as <-.
  split; [done|]. split; [destruct current; lia|]. intros c ->. lia.
Qed.

Lemma clock_error_Ok {A} (m : outcome LeaseClockError A) a : control_plane_lease_clock_error m = Ok a -> m = Ok a.
Proof. destruct m as [|[]|]; simpl; congruence. Qed.

Lemma heartbeat_deadline_Ok s id now requested d :
  heartbeat_lease_deadline s id now requested = Ok d ->
  (forall m, max_committed_timestamp_ms s = Some m -> m <= now) /\
  exists r, nodes_get (nodes s) id = Some r /\
    bounded_renewal_deadline (lease_deadline_ms r) now requested MAX_HEARTBEAT_LEASE_MS CONTROL_PLANE_CLOCK_SKEW_BUDGET_MS = Ok d.
Proof.
  unfold heartbeat_lease_deadline, validate_serving_timestamp. intros ([] & Hv & H1)%bind_Ok.
  apply bind_Ok in H1 as (r & Hr & Hd%clock_error_Ok). split.
  - intros m Hm. rewrite Hm in Hv. apply guard_err_Ok in Hv. lia.
  - exists r. split; [|done]. destruct (nodes_get (nodes s) id); simpl in Hr; congruence.
Qed.

(** ** The checks of a published snapshot *)

Definition leases_ok (s : ClusterControlSnapshot) : Prop :=
  validate_lease_grant_horizon_invariant s = true /\
  forall id r, (id, r) ∈ nodes s -> node_lease_valid s r = true.

(** The snapshot after a committed heartbeat, as far as leases go *)
Definition heartbeat_snapshot (s : ClusterControlSnapshot) (a : option LeaseHorizonAuthorityBinding)
    (id now d : Z) : outcome ControlPlaneError ClusterControlSnapshot :=
  next ← establish_heartbeat_lease_horizon s a now d;
  let next := snd (record_committed_timestamp next now) in
  mret (set_nodes (nodes_set_lease id d (nodes next)) next).

(** Time and horizon only move forward from [s] to [s']. *)
Definition advances (s s' : ClusterControlSnapshot) : Prop :=
  (forall m, max_committed_timestamp_ms s = Some m -> exists m', max_committed_timestamp_ms s' = Some m' /\ m <= m' /\
     m' + MAX_HEARTBEAT_LEASE_MS + CONTROL_PLANE_CLOCK_SKEW_BUDGET_MS <= MAX64) /\
  (forall h, lease_grant_horizon s = Some h ->
     exists h', lease_grant_horizon s' = Some h' /\ grant_not_after_ms h <= grant_not_after_ms h').

(** The deadline of a node that a snapshot may hold *)
Definition deadline_ok (s : ClusterControlSnapshot) (d : Z) : Prop :=
  exists m, max_committed_timestamp_ms s = Some m /\
    ((exists h, lease_grant_horizon s = Some h /\ d <= grant_not_after_ms h) \/
     (m + MAX_HEARTBEAT_LEASE_MS + CONTROL_PLANE_CLOCK_SKEW_BUDGET_MS <= MAX64 /\
      d <= m + MAX_HEARTBEAT_LEASE_MS + CONTROL_PLANE_CLOCK_SKEW_BUDGET_MS)).

Lemma node_lease_valid_spec s r :
  node_lease_valid s r = true <->
  (cannot_receive_lease (membership r) = true ->
   administratively_available r = false /\ observed_availability r = Unavailable /\ lease_deadline_ms r = None) /\
  (forall d, lease_deadline_ms r = Some d -> deadline_ok s d).
Proof.
  unfold node_lease_valid, deadline_ok. rewrite andb_true_iff. split.
  - intros [H1 H2]. split.
    + intros Hc. rewrite Hc in H1. destruct (administratively_available r); [done|].
      destruct (lease_deadline_ms r); [by rewrite orb_true_r in H1|].
      case_bool_decide as Hu; [done|]. done.
    + intros d Hd. rewrite Hd in H2. destruct (max_committed_timestamp_ms s) as [m|]; [|done]. exists m. split; [done|].
      apply orb_true_iff in H2 as [H2|H2]; [left|right].
      * destruct (lease_grant_horizon s) as [h|]; [|done]. exists h. split; [done|lia].
      * apply deadline_bound_Ok. by destruct (validate_serving_deadline_bound _ _ _ _) as [[]| |].
  - intros [H1 H2]. split.
    + destruct (cannot_receive_lease (membership r)); [|done]. by destruct (H1 eq_refl) as (-> & -> & ->).
    + destruct (lease_deadline_ms r) as [d|]; [|done]. destruct (H2 d eq_refl) as (m & -> & [(h & -> & Hd)|Hd]).
      * apply orb_true_iff. left. lia.
      * apply orb_true_iff. right. by rewrite (proj2 (deadline_bound_Ok d m)).
Qed.

Lemma deadline_ok_advances s s' d : advances s s' -> deadline_ok s d -> deadline_ok s' d.
Proof.
  intros [Hm Hh] (m & Hs & Hd). destruct (Hm m Hs) as (m' & Hs' & Hle & H64). exists m'. split; [done|].
  destruct Hd as [(h & Hsh & Hd)|[_ Hd]]; [|right; lia].
  destruct (Hh h Hsh) as (h' & ? & ?). left. exists h'. split; [done|lia].
Qed.

(** Nodes that only got a valid deadline keep the check. *)
Lemma nodes_ok_advances s s' :
  advances s s' ->
  (forall id r, (id, r) ∈ nodes s -> node_lease_valid s r = true) ->
  (forall id r, (id, r) ∈ nodes s' -> exists r', (id, r') ∈ nodes s /\
     (r = r' \/ exists d, r = set_lease_deadline d r' /\ deadline_ok s' d /\
        cannot_receive_lease (membership r') = false)) ->
  forall id r, (id, r) ∈ nodes s' -> node_lease_valid s' r = true.
Proof.
  intros Ha Hn Hs' id r Hin. destruct (Hs' id r Hin) as (r' & Hin' & Hr).
  specialize (Hn id r' Hin'). rewrite node_lease_valid_spec in Hn. destruct Hn as [H1 H2]. apply node_lease_valid_spec.
  destruct Hr as [->|(d & -> & Hd & Hc)].
  - split; [done|]. intros d Hd. by eapply deadline_ok_advances, H2.
  - simpl. rewrite Hc. split; [done|]. by intros ? [= <-].
Qed.

Lemma horizon_invariant_spec s :
  validate_lease_grant_horizon_invariant s = true <->
  forall h, lease_grant_horizon s = Some h ->
    grant_not_after_ms h <> 0 /\ exists m, max_committed_timestamp_ms s = Some m /\
      grant_not_after_ms h <= m + MAX_LEASE_GRANT_HORIZON_MS.
Proof.
  unfold validate_lease_grant_horizon_invariant, saturating_sub64, MAX_LEASE_GRANT_HORIZON_MS.
  destruct (lease_grant_horizon s) as [h|]; [|by split].
  destruct (max_committed_timestamp_ms s) as [m|]; split.
  - intros [? ?]%andb_true_iff ? [= <-]. split; [lia|]. exists m. split; [done|lia].
  - intros H. destruct (H h eq_refl) as (? & ? & [= <-] & ?). lia.
  - by rewrite andb_false_r.
  - intros H. by destruct (H h eq_refl) as (? & ? & ? & ?).
Qed.

(** ** The commands *)

(** The entries of a [BTreeMap] *)
Definition key_ordered (ns : list (Z * NodeControlRecord)) : Prop := StronglySorted Z.lt ns.*1.

Lemma nodes_get_elem ns id r : key_ordered ns -> nodes_get ns id = Some r <-> (id, r) ∈ ns.
Proof.
  unfold key_ordered. induction ns as [|[k x] ns IH]; cbn [nodes_get fmap list_fmap fst]; intros Hs.
  { split; [done|by intros ?%elem_of_nil]. }
  apply StronglySorted_inv in Hs as [Hs Hk]. rewrite elem_of_cons. destruct (Z.eqb_spec k id) as [->|Hne].
  - split; [intros [= ->]; by left|]. intros [[= ->]|Hin]; [done|]. exfalso.
    eapply list.Forall_forall in Hk; [|apply list_elem_of_fmap; by exists (id, r)]. simpl in Hk. lia.
  - rewrite IH by done. split; [by right|]. by intros [[= -> ->]|?].
Qed.

Lemma nodes_set_lease_keys id d ns : (nodes_set_lease id d ns).*1 = ns.*1.
Proof. unfold nodes_set_lease. rewrite <-list_fmap_compose. apply list_fmap_ext. by intros ? [? ?]. Qed.

Lemma nodes_set_lease_in id d ns k r :
  (k, r) ∈ nodes_set_lease id d ns ->
  exists r', (k, r') ∈ ns /\ ((k <> id /\ r = r') \/ (k = id /\ r = set_lease_deadline d r')).
Proof.
  unfold nodes_set_lease. intros ([k' r'] & [= -> ->] & Hin)%list_elem_of_fmap. exists r'. split; [done|].
  destruct (Z.eqb_spec k' id); [by right|by left].
Qed.

Lemma map_err_Ok {E F A} (f : E -> F) (m : outcome E A) a : map_err f m = Ok a <-> m = Ok a.
Proof. destruct m; simpl; split; congruence. Qed.

Lemma establish_Ok prev a now dur h :
  0 <= dur -> establish prev a now dur CONTROL_PLANE_CLOCK_SKEW_BUDGET_MS = Ok h ->
  authority h = a /\ now + dur <= grant_not_after_ms h /\
  (grant_not_after_ms h = now + dur \/ exists p, prev = Some p /\ grant_not_after_ms h = grant_not_after_ms p) /\
  (forall p, prev = Some p -> grant_not_after_ms p <= grant_not_after_ms h).
Proof.
  intros Hdur. unfold establish, checked_add64. destruct (_ <=? MAX64); [|done]. cbn [ok_or mbind outcome_bind].
  destruct prev as [p|]; [|by intros [= <-]; simpl; repeat split; [lia|left|]].
  case_bool_decide as Ha.
  - intros [= <-]. simpl. split; [done|]. split; [lia|]. split; [|intros ? [= <-]; lia].
    destruct (Z.max_spec (grant_not_after_ms p) (now + dur)) as [[_ ->]|[_ ->]]; [by left|right; eauto].
  - unfold validate_rebinding, checked_add64. rewrite bool_decide_eq_false_2 by done.
    destruct (_ <=? MAX64); [|done]. cbn [ok_or mbind outcome_bind].
    destruct (Z.ltb_spec now (grant_not_after_ms p + CONTROL_PLANE_CLOCK_SKEW_BUDGET_MS)); [done|].
    intros [= <-]. simpl. split; [done|]. split; [lia|]. split; [by left|].
    intros ? [= <-]. unfold CONTROL_PLANE_CLOCK_SKEW_BUDGET_MS in *. lia.
Qed.

(** What both commands that move the horizon do to the checks *)
Lemma horizon_step s s' now h dur :
  leases_ok s -> 0 <= now -> 0 < dur <= MAX_LEASE_GRANT_HORIZON_MS ->
  now + MAX_HEARTBEAT_LEASE_MS + CONTROL_PLANE_CLOCK_SKEW_BUDGET_MS <= MAX64 ->
  (forall m, max_committed_timestamp_ms s = Some m -> m <= now) ->
  max_committed_timestamp_ms s' = Some now -> lease_grant_horizon s' = Some h ->
  (lease_grant_horizon s = Some h \/
   exists a, establish (lease_grant_horizon s) a now dur CONTROL_PLANE_CLOCK_SKEW_BUDGET_MS = Ok h) ->
  advances s s' /\ validate_lease_grant_horizon_invariant s' = true.
Proof.
  intros [Hh _] Hnow Hdur H64 Hmax Hm' Hh' Hest. rewrite horizon_invariant_spec in Hh.
  assert (forall p, lease_grant_horizon s = Some p -> grant_not_after_ms p <= grant_not_after_ms h) as Hgrow.
  { destruct Hest as [->|[a Ha]]; [by intros ? [= <-]|]. by apply establish_Ok in Ha as (_ & _ & _ & ?); [|lia]. }
  split.
  - split; [intros m Hm; exists now; repeat split; auto|]. intros p Hp. eauto.
  - apply horizon_invariant_spec. rewrite Hh', Hm'. intros ? [= <-].
    destruct Hest as [Hs|[a Ha]].
    + destruct (Hh _ Hs) as (? & m & Hm & ?). split; [done|]. exists now. specialize (Hmax m Hm). split; [done|lia].
    + destruct (establish_Ok _ _ _ _ _ (Z.lt_le_incl _ _ (proj1 Hdur)) Ha) as (_ & Hge & Hor & _). split; [lia|]. exists now. split; [done|].
      destruct Hor as [->|(p & Hp & ->)]; [lia|]. destruct (Hh _ Hp) as (_ & m & Hm & ?). specialize (Hmax m Hm). lia.
Qed.

Lemma record_now s now :
  (forall m, max_committed_timestamp_ms s = Some m -> m <= now) ->
  snd (record_committed_timestamp s now) =
  {| max_committed_timestamp_ms := Some now; lease_grant_horizon := lease_grant_horizon s; nodes := nodes s |}.
Proof.
  intros Hm. unfold record_committed_timestamp. simpl. f_equal. f_equal.
  destruct (max_committed_timestamp_ms s) as [m|] eqn:Hs; [|done]. specialize (Hm m eq_refl). lia.
Qed.

Lemma establish_command_ok s a now dur s' ch :
  leases_ok s -> 0 <= now -> 0 <= dur ->
  now + MAX_HEARTBEAT_LEASE_MS + CONTROL_PLANE_CLOCK_SKEW_BUDGET_MS <= MAX64 ->
  apply_establish_lease_grant_horizon s a now dur = Ok (s', ch) -> leases_ok s'.
Proof.
  intros Hok Hnow Hdur H64. unfold apply_establish_lease_grant_horizon.
  intros ([] & Hd%guard_err_Ok & H1)%bind_Ok. apply bind_Ok in H1 as ([] & Hv & H1).
  apply bind_Ok in H1 as (h & Hh%map_err_Ok & H1).
  assert (forall m, max_committed_timestamp_ms s = Some m -> m <= now) as Hmax.
  { intros m Hm. unfold validate_serving_timestamp in Hv. rewrite Hm in Hv. apply guard_err_Ok in Hv. lia. }
  pose proof (record_now (set_horizon (Some h) s) now Hmax) as Hrec.
  destruct (record_committed_timestamp (set_horizon (Some h) s) now) as [tc next]. simpl in Hrec. injection H1 as <- _.
  subst next. destruct (horizon_step s {| max_committed_timestamp_ms := Some now; lease_grant_horizon := Some h; nodes := nodes s |} now h dur Hok Hnow ltac:(unfold MAX_LEASE_GRANT_HORIZON_MS in *; lia) H64 Hmax eq_refl eq_refl) as [Ha Hi]; [eauto|].
  split; [exact Hi|]. apply (nodes_ok_advances s); [done|apply Hok|]. simpl. intros id r Hin. eauto.
Qed.

Lemma establish_no_panic prev a now dur skew : establish prev a now dur skew <> Panic.
Proof.
  unfold establish. destruct (checked_add64 now dur); [|done]. cbn [ok_or mbind outcome_bind].
  destruct prev as [p|]; [|done]. destruct (bool_decide (authority p = a)) eqn:Ha; [done|].
  unfold validate_rebinding. rewrite Ha. destruct (checked_add64 (grant_not_after_ms p) skew); [|done].
  cbn [ok_or mbind outcome_bind]. by destruct (_ <? _).
Qed.

(** A renewal is covered by the horizon: extending it can fail, but when it does not
    it suffices. *)
Lemma heartbeat_horizon_wp s a now d :
  0 <= now -> d <= now + MAX_HEARTBEAT_LEASE_MS + CONTROL_PLANE_CLOCK_SKEW_BUDGET_MS ->
  wp (establish_heartbeat_lease_horizon s a now d)
    (fun s1 => max_committed_timestamp_ms s1 = max_committed_timestamp_ms s /\ nodes s1 = nodes s /\
       (lease_grant_horizon s1 = lease_grant_horizon s \/
        exists b h, lease_grant_horizon s1 = Some h /\
          establish (lease_grant_horizon s) b now CONTROL_PLANE_LEASE_GRANT_HORIZON_DURATION_MS
            CONTROL_PLANE_CLOCK_SKEW_BUDGET_MS = Ok h) /\
       forall b, a = Some b -> lease_grant_horizon_covers s1 b d = true)
    (fun e => (exists f, e = LeaseGrantHorizonTimestampOverflow f) \/
              exists t u, e = PreviousLeaseGrantHorizonStillActive t u).
Proof.
  intros Hnow Hd. unfold establish_heartbeat_lease_horizon. destruct a as [b|]; [|simpl; repeat split; [by left|done]].
  destruct (lease_grant_horizon_covers s b d) eqn:Hc.
  { bind_step. rewrite Hc. cbn [negb guard_err wp mbind outcome_bind mret outcome_ret].
    repeat split; [by left|]. by intros ? [= <-]. }
  destruct (establish (lease_grant_horizon s) b now _ _) as [h|e|] eqn:He; cbn [map_err mbind outcome_bind wp].
  - pose proof (establish_Ok _ b now CONTROL_PLANE_LEASE_GRANT_HORIZON_DURATION_MS h ltac:(done) He) as (Ha & Hge & _).
    assert (lease_grant_horizon_covers (set_horizon (Some h) s) b d = true) as Hcov.
    { unfold lease_grant_horizon_covers. simpl. rewrite bool_decide_eq_true_2 by done. simpl.
      unfold CONTROL_PLANE_LEASE_GRANT_HORIZON_DURATION_MS, MAX_HEARTBEAT_LEASE_MS, CONTROL_PLANE_CLOCK_SKEW_BUDGET_MS in *. lia. }
    bind_step. rewrite Hcov. cbn. repeat split; [right; eauto|]. by intros ? [= <-].
  - destruct e; [left|right]; simpl; eauto.
  - by apply establish_no_panic in He.
Qed.

Lemma heartbeat_ok s a id now requested d r :
  leases_ok s -> key_ordered (nodes s) -> 0 <= now ->
  nodes_get (nodes s) id = Some r -> cannot_receive_lease (membership r) = false ->
  heartbeat_lease_deadline s id now requested = Ok d ->
  wp (heartbeat_snapshot s a id now d)
    (fun s' => leases_ok s' /\ key_ordered (nodes s') /\
       forall b, a = Some b -> lease_grant_horizon_covers s' b d = true)
    (fun e => (exists f, e = LeaseGrantHorizonTimestampOverflow f) \/
              exists t u, e = PreviousLeaseGrantHorizonStillActive t u).
Proof.
  intros Hok Hk Hnow Hr Hmem (Hmax & r0 & Hr0 & Hd%renewal_bounds)%heartbeat_deadline_Ok.
  destruct Hd as (H64 & [_ Hd] & _). apply wp_bind.
  eapply wp_mono; [apply heartbeat_horizon_wp; [done|exact Hd]| |done].
  intros s1 (Hm1 & Hn1 & Hh1 & Hcov). rewrite record_now by by rewrite Hm1. cbn [wp mret outcome_ret].
  unfold set_nodes. cbn [max_committed_timestamp_ms lease_grant_horizon nodes]. rewrite Hn1.
  set (s' := {| max_committed_timestamp_ms := Some now; lease_grant_horizon := lease_grant_horizon s1;
                nodes := nodes_set_lease id d (nodes s) |}).
  assert (advances s s' /\ validate_lease_grant_horizon_invariant s' = true) as [Ha Hi].
  { destruct (lease_grant_horizon s1) as [h|] eqn:Eh.
    - apply (horizon_step s s' now h CONTROL_PLANE_LEASE_GRANT_HORIZON_DURATION_MS); try done.
      destruct Hh1 as [?|(b & h' & [= <-] & ?)]; [by left|by right; exists b].
    - split; [|done]. split; [intros m Hm; exists now; repeat split; auto|].
      destruct Hh1 as [<-|(b & h' & ? & _)]; done. }
  split; [|split].
  - split; [done|]. apply (nodes_ok_advances s); [done|apply Hok|]. intros k x Hin.
    destruct (nodes_set_lease_in _ _ _ _ _ Hin) as (x' & Hx' & [[_ ->]|[-> ->]]); exists x'; (split; [done|]); [by left|].
    right. exists d. split; [done|]. split; [exists now; split; [done|right; lia]|].
    apply nodes_get_elem in Hx'; [|done]. congruence.
  - unfold key_ordered, s'. simpl. by rewrite nodes_set_lease_keys.
  - intros b Hb. specialize (Hcov b Hb). unfold lease_grant_horizon_covers in *. done.
Qed.

Lemma check_promoted_Ok s h o p o' :
  check_promoted s h o p = Ok o' ->
  o' = Some (promoted_node_id p) /\ promoted_deadline_ms p <= grant_not_after_ms h /\
  exists r c, nodes_get (nodes s) (promoted_node_id p) = Some r /\ cannot_receive_lease (membership r) = false /\
    lease_deadline_ms r = Some c /\ c <= promoted_deadline_ms p.
Proof.
  unfold check_promoted. intros ([] & _ & H1)%bind_Ok. apply bind_Ok in H1 as ([] & Hg%guard_err_Ok & H1).
  apply bind_Ok in H1 as (r & Hr & H1). apply bind_Ok in H1 as ([] & Hm%guard_err_Ok & H1).
  apply bind_Ok in H1 as ([] & _ & H1). apply bind_Ok in H1 as ([] & _ & H1). apply bind_Ok in H1 as (c & Hc & H1).
  apply bind_Ok in H1 as ([] & Hd%guard_err_Ok & H1). injection H1 as <-. split; [done|]. split; [lia|].
  exists r, c. destruct (nodes_get _ _); simplify_eq/=. destruct (lease_deadline_ms r); simplify_eq/=.
  repeat split; [done|lia].
Qed.

Lemma check_promoted_all s h o l o' :
  foldM (check_promoted s h) o l = Ok o' ->
  Forall (fun p => promoted_deadline_ms p <= grant_not_after_ms h /\
    exists r, nodes_get (nodes s) (promoted_node_id p) = Some r /\ cannot_receive_lease (membership r) = false) l.
Proof.
  revert o. induction l as [|p l IH]; intros o; [constructor|].
  intros (o1 & (_ & Hd & r & c & Hr & Hm & _)%check_promoted_Ok & Hl)%bind_Ok. constructor; [eauto|by eapply IH].
Qed.

(** The mutating loop only sets deadlines. *)
Lemma promote_fold_in l ns b ns' b' :
  foldM promote_one (ns, b) l = Ok (ns', b') ->
  ns'.*1 = ns.*1 /\
  forall k r, (k, r) ∈ ns' -> exists r', (k, r') ∈ ns /\
    (r = r' \/ exists p, p ∈ l /\ promoted_node_id p = k /\ r = set_lease_deadline (promoted_deadline_ms p) r').
Proof.
  revert ns b. induction l as [|p l IH]; intros ns b; [intros [= <- <-]; eauto 6|].
  intros ([ns1 b1] & H1 & Hl)%bind_Ok. destruct (IH ns1 b1 Hl) as [Hk Hin].
  revert H1. unfold promote_one. intros (r1 & _ & H1)%bind_Ok. revert H1. case_bool_decide; intros [= <- <-].
  - split; [done|]. intros k r Hr. destruct (Hin k r Hr) as (r' & ? & [->|(q & ? & ? & ->)]); exists r'; (split; [done|]); [by left|].
    right. exists q. by rewrite elem_of_cons; auto.
  - split; [by rewrite Hk, nodes_set_lease_keys|]. intros k r Hr.
    destruct (Hin k r Hr) as (r' & Hr' & Hor). destruct (nodes_set_lease_in _ _ _ _ _ Hr') as (r2 & Hr2 & H2).
    exists r2. split; [done|]. destruct Hor as [->|(q & Hq & Hqk & ->)].
    + destruct H2 as [[_ ->]|[-> ->]]; [by left|]. right. exists p. split; [left|done].
    + right. exists q. split; [by right|]. split; [done|]. by destruct H2 as [[_ ->]|[_ ->]].
Qed.

Lemma promote_command_ok s a l s' ch :
  leases_ok s -> key_ordered (nodes s) -> apply_promote_node_heartbeat_leases s a l = Ok (s', ch) ->
  leases_ok s' /\ key_ordered (nodes s').
Proof.
  intros [Hh Hn] Hk. unfold apply_promote_node_heartbeat_leases. intros ([] & _ & H1)%bind_Ok.
  apply bind_Ok in H1 as (h & Eh & H1). apply bind_Ok in H1 as ([] & _ & H1).
  apply bind_Ok in H1 as (o & Hc%check_promoted_all & H1). apply bind_Ok in H1 as ([ns b] & Hp & H1).
  injection H1 as <- _. destruct (promote_fold_in _ _ _ _ _ Hp) as [Hkeys Hin].
  assert (lease_grant_horizon s = Some h) as Eh' by (destruct (lease_grant_horizon s); simplify_eq/=; done).
  split; [|unfold key_ordered; simpl; by rewrite Hkeys].
  split; [exact Hh|]. intros k r Hr. destruct (Hin k r Hr) as (r' & Hr' & Hor).
  pose proof (Hn k r' Hr') as Hv. rewrite node_lease_valid_spec in Hv. destruct Hv as [H1 H2].
  apply node_lease_valid_spec. destruct Hor as [->|(p & Hpl & Hpk & ->)]; [by split|].
  eapply list.Forall_forall in Hc; [|done]. destruct Hc as (Hd & r0 & Hr0 & Hm). rewrite Hpk in Hr0.
  apply nodes_get_elem in Hr'; [|done]. assert (r0 = r') as -> by congruence. simpl. rewrite Hm.
  split; [done|]. intros d [= <-].
  rewrite horizon_invariant_spec in Hh. destruct (Hh h Eh') as (_ & m & Hm' & _). exists m. split; [done|]. left. eauto.
Qed.

(** The lease commands keep what the control plane checks of a snapshot before it
    publishes it: the horizon lies at most its maximal length beyond the committed
    time, every deadline is covered by the horizon or by the longest lease from the
    committed time, and nodes that left hold none.  A heartbeat of a node that may
    hold a lease fails only if the horizon cannot be moved, never because the horizon
    does not cover the new deadline, and does not panic. *)
Theorem lease_commands_keep_checks s :
  leases_ok s -> key_ordered (nodes s) ->
  (forall a now dur s' ch, 0 <= now -> 0 <= dur ->
     now + MAX_HEARTBEAT_LEASE_MS + CONTROL_PLANE_CLOCK_SKEW_BUDGET_MS <= MAX64 ->
     apply_establish_lease_grant_horizon s a now dur = Ok (s', ch) -> leases_ok s') /\
  (forall a l s' ch, apply_promote_node_heartbeat_leases s a l = Ok (s', ch) ->
     leases_ok s' /\ key_ordered (nodes s')) /\
  (forall a id now requested d r, 0 <= now ->
     nodes_get (nodes s) id = Some r -> cannot_receive_lease (membership r) = false ->
     heartbeat_lease_deadline s id now requested = Ok d ->
     wp (heartbeat_snapshot s a id now d)
       (fun s' => leases_ok s' /\ key_ordered (nodes s') /\
          forall b, a = Some b -> lease_grant_horizon_covers s' b d = true)
       (fun e => (exists f, e = LeaseGrantHorizonTimestampOverflow f) \/
                 exists t u, e = PreviousLeaseGrantHorizonStillActive t u)).
Proof.
  intros Hok Hk. split; [intros a now dur s' ch; by apply establish_command_ok|]. split; [intros; by eapply promote_command_ok|].
  intros. by eapply heartbeat_ok.
Qed.

(** ** Volatile deadlines *)

(** An entry of the live snapshot against the durable one: the same, or with a later
    deadline that the horizon covers, granted to a healthy node *)
Definition volatile_of (o : option CommittedLeaseGrantHorizon) (x y : Z * NodeControlRecord) : Prop :=
  x = y \/
  exists d0 d1 h, y = (x.1, set_lease_deadline d1 x.2) /\ lease_deadline_ms x.2 = Some d0 /\ 0 <= d0 < d1 /\
    o = Some h /\ d1 <= grant_not_after_ms h /\ cannot_receive_lease (membership x.2) = false /\
    administratively_available x.2 = true /\ observed_availability x.2 = Healthy.

Definition live_of (durable live : ClusterControlSnapshot) : Prop :=
  lease_grant_horizon live = lease_grant_horizon durable /\
  Forall2 (volatile_of (lease_grant_horizon durable)) (nodes durable) (nodes live).

(** The leases the command promotes *)
Fixpoint promoted_of (ds ls : list (Z * NodeControlRecord)) : list PromotedNodeHeartbeatLease :=
  match ds, ls with
  | (id, d) :: ds, (_, l) :: ls =>
      match lease_deadline_ms d, lease_deadline_ms l with
      | Some dd, Some ld =>
          if dd <? ld
          then {| promoted_node_id := id; promoted_node_incarnation := node_incarnation l;
                  promoted_deadline_ms := ld |} :: promoted_of ds ls
          else promoted_of ds ls
      | _, _ => promoted_of ds ls
      end
  | _, _ => []
  end.

Lemma volatile_key o id d id' l : volatile_of o (id, d) (id', l) -> id' = id.
Proof. intros [H|(d0 & d1 & h & H & _)]; simpl in H; congruence. Qed.

Lemma volatile_keys o ds ls : Forall2 (volatile_of o) ds ls -> ls.*1 = ds.*1.
Proof.
  induction 1 as [|x y ds ls Hv _ IH]; [done|]. rewrite !fmap_cons, IH. f_equal.
  by destruct Hv as [->|(? & ? & ? & -> & _)].
Qed.

Lemma promote_node_step live acc id d l o :
  volatile_of o (id, d) (id, l) -> nodes_get (nodes live) id = Some l ->
  promote_node live acc (id, d) = Ok (acc ++ promoted_of [(id, d)] [(id, l)]).
Proof.
  intros Hv Hg. unfold promote_node. rewrite Hg. cbn [ok_or mbind outcome_bind promoted_of].
  destruct Hv as [[= <-]|(d0 & d1 & h & Hl & Hd0 & Hlt & _)].
  - rewrite Z.eqb_refl, bool_decide_eq_true_2 by done. cbn.
    destruct (lease_deadline_ms d) as [x|]; [rewrite Z.ltb_irrefl|]; by rewrite app_nil_r.
  - simpl in *. injection Hl as ->. cbn. rewrite Z.eqb_refl, bool_decide_eq_true_2 by done. cbn.
    rewrite Hd0. by rewrite (proj2 (Z.ltb_lt _ _)) by lia.
Qed.

Lemma promoted_of_cons x y ds ls : promoted_of (x :: ds) (y :: ls) = promoted_of [x] [y] ++ promoted_of ds ls.
Proof. destruct x, y. simpl. by repeat case_match. Qed.

Lemma promote_node_all live o ds ls acc :
  Forall2 (volatile_of o) ds ls -> (forall id l, (id, l) ∈ ls -> nodes_get (nodes live) id = Some l) ->
  foldM (promote_node live) acc ds = Ok (acc ++ promoted_of ds ls).
Proof.
  intros Hv. revert acc. induction Hv as [|[id d] [id' l] ds ls Hv Hvs IH]; intros acc Hg; [by rewrite app_nil_r|].
  pose proof (volatile_key _ _ _ _ _ Hv); subst id'.
  cbn [foldM]. rewrite (promote_node_step _ _ _ _ l o) by (done || apply Hg; left). bind_step.
  rewrite IH by (intros; apply Hg; by right). by rewrite (promoted_of_cons (id, d) (id, l) ds ls), app_assoc.
Qed.

(** A promoted lease passes the checks, in the order of the keys. *)
Lemma check_promoted_step s h o previous id d l :
  lease_grant_horizon s = o -> o = Some h -> volatile_of o (id, d) (id, l) -> nodes_get (nodes s) id = Some d ->
  (forall p, previous = Some p -> p < id) ->
  forall p, p ∈ promoted_of [(id, d)] [(id, l)] -> check_promoted s h previous p = Ok (Some id).
Proof.
  intros _ -> Hv Hg Hprev p. cbn [promoted_of].
  destruct Hv as [[= <-]|(d0 & d1 & h' & Hl & Hd0 & Hlt & [= <-] & Hd1 & Hm & Ha & Hob)].
  - destruct (lease_deadline_ms d) as [x|]; [rewrite Z.ltb_irrefl|]; by intros ?%elem_of_nil.
  - simpl in *. injection Hl as ->. cbn. rewrite Hd0, (proj2 (Z.ltb_lt _ _)) by lia.
    intros ->%list_elem_of_singleton. unfold check_promoted. cbn [promoted_node_id promoted_deadline_ms promoted_node_incarnation].
    rewrite guard_err_false by (destruct previous as [q|]; [specialize (Hprev q eq_refl); lia|done]).
    rewrite guard_err_false by lia. rewrite Hg. cbn [ok_or mbind outcome_bind]. rewrite Hm, Ha, Hob, Hd0.
    cbn -[Z.ltb]. rewrite Z.eqb_refl. cbn -[Z.ltb]. rewrite (proj2 (Z.ltb_ge _ _)) by lia. done.
Qed.

Lemma check_promoted_run s h ds ls previous :
  lease_grant_horizon s = Some h -> Forall2 (volatile_of (Some h)) ds ls -> StronglySorted Z.lt ds.*1 ->
  (forall id d, (id, d) ∈ ds -> nodes_get (nodes s) id = Some d) ->
  (forall p, previous = Some p -> Forall (Z.lt p) ds.*1) ->
  exists o, foldM (check_promoted s h) previous (promoted_of ds ls) = Ok o.
Proof.
  intros Hh Hv. revert previous. induction Hv as [|[id d] [id' l] ds ls Hv Hvs IH]; intros previous Hs Hg Hp; [by eexists|].
  pose proof (volatile_key _ _ _ _ _ Hv); subst id'.
  apply StronglySorted_inv in Hs as [Hs Hlt]. rewrite promoted_of_cons, foldM_app.
  assert (forall p, previous = Some p -> p < id) as Hprev
    by (intros p Hpp; specialize (Hp p Hpp); by apply list.Forall_cons in Hp as [? _]).
  pose proof (check_promoted_step s h (Some h) previous id d l Hh eq_refl Hv (Hg id d ltac:(left)) Hprev) as Hone.
  destruct (promoted_of [(id, d)] [(id, l)]) as [|p [|q t]] eqn:E.
  - simpl. apply IH; [done|intros; apply Hg; by right|]. intros p Hpp. specialize (Hp p Hpp).
    by apply list.Forall_cons in Hp as [_ ?].
  - cbn [foldM]. rewrite (Hone p) by left. bind_step. apply IH; [done|intros; apply Hg; by right|].
    by intros ? [= <-].
  - exfalso. revert E. cbn. repeat case_match; done.
Qed.

Lemma nodes_set_lease_mid pre id d x suf :
  id ∉ pre.*1 -> id ∉ suf.*1 ->
  nodes_set_lease id d (pre ++ (id, x) :: suf) = pre ++ (id, set_lease_deadline d x) :: suf.
Proof.
  intros Hpre Hsuf. unfold nodes_set_lease. rewrite fmap_app, fmap_cons, Z.eqb_refl.
  assert (forall l, id ∉ l.*1 -> ((fun '(k, r) => (k, if k =? id then set_lease_deadline d r else r)) <$> l) = l) as Hid.
  { intros l Hl. induction l as [|[k r] l IH]; [done|]. rewrite fmap_cons in *. apply not_elem_of_cons in Hl as [Hk Hl].
    rewrite IH by done. rewrite (proj2 (Z.eqb_neq _ _)); [done|]. simpl in Hk. congruence. }
  by rewrite !Hid.
Qed.

Lemma nodes_get_mid pre id x suf : id ∉ pre.*1 -> nodes_get (pre ++ (id, x) :: suf) id = Some x.
Proof.
  intros Hpre. induction pre as [|[k r] pre IH]; simpl; [by rewrite Z.eqb_refl|].
  rewrite fmap_cons in Hpre. apply not_elem_of_cons in Hpre as [Hk Hpre]. rewrite (proj2 (Z.eqb_neq _ _)); [auto|].
  simpl in Hk. congruence.
Qed.

Lemma promote_one_mid pre id x suf b inc d :
  id ∉ pre.*1 -> id ∉ suf.*1 -> lease_deadline_ms x <> Some d ->
  promote_one (pre ++ (id, x) :: suf, b)
    {| promoted_node_id := id; promoted_node_incarnation := inc; promoted_deadline_ms := d |} =
  Ok (pre ++ (id, set_lease_deadline d x) :: suf, true).
Proof.
  intros Hpre Hsuf Hd. unfold promote_one. cbn [promoted_node_id promoted_deadline_ms].
  rewrite nodes_get_mid by done. cbn [unwrap mbind outcome_bind]. rewrite bool_decide_eq_false_2 by done.
  by rewrite nodes_set_lease_mid.
Qed.

Lemma promote_run o pre ds ls b :
  Forall2 (volatile_of o) ds ls -> NoDup (pre.*1 ++ ds.*1) ->
  foldM promote_one (pre ++ ds, b) (promoted_of ds ls) =
  Ok (pre ++ ls, b || negb (bool_decide (promoted_of ds ls = []))).
Proof.
  intros Hv. revert pre b. induction Hv as [|[id d] [id' l] ds ls Hv Hvs IH]; intros pre b Hnd; [by rewrite orb_false_r|].
  pose proof (volatile_key _ _ _ _ _ Hv); subst id'.
  rewrite fmap_cons in Hnd. cbn [fst] in Hnd. pose proof Hnd as Hnd'. apply list.NoDup_app in Hnd as (_ & Hdis & Hnd%list.NoDup_cons).
  destruct Hnd as [Hid Hnd]. assert (id ∉ pre.*1) as Hpre by (intros Hx; apply (Hdis id Hx); left).
  assert (forall r, NoDup ((pre ++ [(id, r)]).*1 ++ ds.*1)) as Hnext
    by (intros r; rewrite fmap_app, <-app_assoc; exact Hnd').
  rewrite promoted_of_cons, foldM_app.
  destruct Hv as [[= <-]|(d0 & d1 & h & Hl & Hd0 & Hlt & _)].
  - replace (promoted_of [(id, d)] [(id, d)]) with (@nil PromotedNodeHeartbeatLease)
      by (cbn; by destruct (lease_deadline_ms d); [rewrite Z.ltb_irrefl|]).
    cbn [foldM mbind outcome_bind app]. specialize (IH (pre ++ [(id, d)]) b (Hnext d)). by rewrite <-!app_assoc in IH.
  - simpl in *. injection Hl as ->. rewrite Hd0. cbn [lease_deadline_ms set_lease_deadline node_incarnation].
    rewrite (proj2 (Z.ltb_lt _ _)) by lia. cbn [foldM app].
    rewrite promote_one_mid by (done || rewrite Hd0; intros [= ->]; lia).
    bind_step. specialize (IH (pre ++ [(id, set_lease_deadline d1 d)]) true (Hnext _)). rewrite <-!app_assoc in IH.
    cbn [app] in IH. rewrite IH. by rewrite orb_true_r.
Qed.

Lemma promoted_of_nil o ds ls : Forall2 (volatile_of o) ds ls -> promoted_of ds ls = [] <-> ls = ds.
Proof.
  induction 1 as [|[id d] [id' l] ds ls Hv _ IH]; [done|]. rewrite promoted_of_cons.
  destruct Hv as [[= <- <-]|(d0 & d1 & h & [= -> ->] & Hd0 & Hlt & _)].
  - replace (promoted_of [(id, d)] [(id, d)]) with (@nil PromotedNodeHeartbeatLease)
      by (cbn; by destruct (lease_deadline_ms d); [rewrite Z.ltb_irrefl|]). cbn [app]. rewrite IH. split; congruence.
  - cbn. simpl in Hd0. rewrite Hd0, (proj2 (Z.ltb_lt _ _)) by lia. split; [done|]. intros [= Heq _].
    apply (f_equal lease_deadline_ms) in Heq. simpl in Heq. rewrite Hd0 in Heq. injection Heq as ->. lia.
Qed.

Lemma Forall2_impl_in {A B} (P Q : A -> B -> Prop) l k :
  Forall2 P l k -> (forall x y, x ∈ l -> y ∈ k -> P x y -> Q x y) -> Forall2 Q l k.
Proof.
  induction 1 as [|x y l k Hxy _ IH]; intros HPQ; constructor; [by apply HPQ; [left|left|]|].
  apply IH. intros. apply HPQ; [by right|by right|done].
Qed.

Lemma key_ordered_NoDup ns : key_ordered ns -> NoDup ns.*1.
Proof.
  unfold key_ordered. induction (ns.*1) as [|k l IH]; intros Hs; [constructor|].
  apply StronglySorted_inv in Hs as [Hs Hk]. constructor; [|auto]. intros Hin.
  eapply list.Forall_forall in Hk; [|done]. lia.
Qed.

(** Without a horizon nothing is volatile. *)
Lemma volatile_none ds ls : Forall2 (volatile_of None) ds ls -> ls = ds.
Proof.
  induction 1 as [|x y ds ls Hv _ IH]; [done|]. subst ls. f_equal. by destruct Hv as [?|(? & ? & ? & _ & _ & _ & ? & _)].
Qed.

Lemma set_lease_same d r : lease_deadline_ms r = Some d -> set_lease_deadline d r = r.
Proof. destruct r. simpl. by intros ->. Qed.

(** A heartbeat the horizon covers only changes the live snapshot, as allowed. *)
Lemma volatile_heartbeat_live durable live id r d0 a now requested d :
  key_ordered (nodes durable) -> live_of durable live -> (id, r) ∈ nodes durable ->
  administratively_available r = true -> observed_availability r = Healthy ->
  cannot_receive_lease (membership r) = false -> lease_deadline_ms r = Some d0 -> 0 <= d0 ->
  heartbeat_lease_deadline live id now requested = Ok d -> lease_grant_horizon_covers live a d = true ->
  live_of durable (set_nodes (nodes_set_lease id d (nodes live)) live).
Proof.
  intros Hk [Hh Hv] Hr Ha Ho Hm Hd0 Hpos (_ & l & Hl & (_ & _ & Hge)%renewal_bounds)%heartbeat_deadline_Ok Hcov.
  assert (exists h, lease_grant_horizon durable = Some h /\ d <= grant_not_after_ms h) as (h & Eh & Hd).
  { unfold lease_grant_horizon_covers in Hcov. rewrite <-Hh. destruct (lease_grant_horizon live) as [h|]; [|done].
    exists h. split; [done|lia]. }
  assert (key_ordered (nodes live)) as Hkl by (unfold key_ordered; by rewrite (volatile_keys _ _ _ Hv)).
  split; [done|]. simpl. apply Forall2_fmap_r. apply nodes_get_elem in Hl; [|done].
  eapply Forall2_impl_in; [exact Hv|]. intros [k x] [k' y] Hx Hy Hvol. pose proof (volatile_key _ _ _ _ _ Hvol). subst k'.
  simpl. destruct (Z.eqb_spec k id) as [->|Hne]; [|done].
  assert (x = r) as -> by (apply nodes_get_elem in Hx, Hr; [congruence|done..]).
  assert (y = l) as -> by (apply nodes_get_elem in Hy, Hl; [congruence|done..]).
  assert (set_lease_deadline d l = set_lease_deadline d r /\ d0 <= d) as [-> Hle].
  { destruct Hvol as [[= <-]|(e0 & e1 & h' & [= ->] & He0 & Hlt & _)].
    - split; [done|]. by apply Hge.
    - simpl in *. split; [done|]. assert (e0 = d0) as -> by congruence. specialize (Hge e1 eq_refl). lia. }
  destruct (decide (d = d0)) as [->|Hne]; [left; by rewrite set_lease_same|].
  right. exists d0, d, h. simpl. repeat split; try done; lia.
Qed.

(** C23: volatile deadlines are not lost.  When the live snapshot differs from the
    durable one by deadlines granted under the horizon, the command derived from the
    two is accepted by the durable snapshot and leaves exactly the nodes of the live
    one; when nothing differs there is no command.  A heartbeat that the horizon covers
    keeps the two snapshots so related. *)
Theorem promotion_makes_durable durable live :
  key_ordered (nodes durable) -> live_of durable live ->
  (nodes live = nodes durable -> promote_volatile_heartbeat_leases_command live durable = Ok None) /\
  (nodes live <> nodes durable -> exists a l,
     promote_volatile_heartbeat_leases_command live durable = Ok (Some (a, l)) /\
     apply_promote_node_heartbeat_leases durable a l = Ok (set_nodes (nodes live) durable, true)) /\
  (forall id r d0 a now requested d, (id, r) ∈ nodes durable ->
     administratively_available r = true -> observed_availability r = Healthy ->
     cannot_receive_lease (membership r) = false -> lease_deadline_ms r = Some d0 -> 0 <= d0 ->
     heartbeat_lease_deadline live id now requested = Ok d -> lease_grant_horizon_covers live a d = true ->
     live_of durable (set_nodes (nodes_set_lease id d (nodes live)) live)).
Proof.
  intros Hk Hlive. split; [|split; [|intros; by eapply volatile_heartbeat_live]]; destruct Hlive as [Hh Hv].
  all: assert (key_ordered (nodes live)) as Hkl by (unfold key_ordered; by rewrite (volatile_keys _ _ _ Hv)).
  all: pose proof (promote_node_all live _ _ _ [] Hv ltac:(intros; by apply nodes_get_elem)) as Hcmd.
  all: assert (len (nodes live) = len (nodes durable)) as Hlen by (unfold len; by rewrite (list.Forall2_length _ _ _ Hv)).
  all: intros Hne; unfold promote_volatile_heartbeat_leases_command.
  all: rewrite Hh, bool_decide_eq_true_2, Hlen, Z.eqb_refl by done; cbn [negb orb guard_err mbind outcome_bind].
  all: rewrite Hcmd; bind_step; cbn [app].
  - by rewrite bool_decide_eq_true_2 by by apply (promoted_of_nil _ _ _ Hv).
  - assert (promoted_of (nodes durable) (nodes live) <> []) as Hnil by by rewrite (promoted_of_nil _ _ _ Hv).
    rewrite bool_decide_eq_false_2 by done. unfold lease_grant_horizon_authority. rewrite Hh.
    destruct (lease_grant_horizon durable) as [h|] eqn:Eh.
    2:{ by apply volatile_none in Hv. }
    exists (authority h), (promoted_of (nodes durable) (nodes live)). split; [done|].
    unfold apply_promote_node_heartbeat_leases. rewrite bool_decide_eq_false_2, Eh by done. cbn [guard_err ok_or mbind outcome_bind].
    rewrite bool_decide_eq_true_2 by done. cbn [negb guard_err mbind outcome_bind].
    destruct (check_promoted_run durable h (nodes durable) (nodes live) None) as [o ->]; [done|done|done| |done|].
    { intros. by apply nodes_get_elem. }
    bind_step. pose proof (promote_run _ [] _ _ false Hv (key_ordered_NoDup _ Hk)) as Hrun. cbn [app] in Hrun.
    rewrite Hrun.
    cbn. by rewrite bool_decide_eq_false_2.
Qed.

(** ** The clocks of a process *)

(** A sample that carries a health time was read within one tick of the health clock,
    after fewer than eight attempts. *)
Lemma sample_within_tick {C} (wall_time : C -> Z * C) (health_time : C -> option Z * C) c w h :
  wall_clock_health_sample_with wall_time health_time c =
    Ok {| wall_time_ms := w; health_time_ms := Some h |} ->
  exists k c0, (k < CLOCK_HEALTH_SAMPLE_ATTEMPTS)%nat /\
    c0 = Nat.iter k (after_turn wall_time health_time) c /\
    fst (health_time c0) = Some h /\ fst (wall_time (snd (health_time c0))) = w /\
    fst (health_time (snd (wall_time (snd (health_time c0))))) = Some h.
Proof.
  unfold wall_clock_health_sample_with. generalize CLOCK_HEALTH_SAMPLE_ATTEMPTS MAX64 (@None Z).
  intros n. revert c. induction n as [|n IH]; intros c narrowest g; [done|]. cbn [sample_loop].
  destruct (sample_turn wall_time health_time g c) as [s|[wd g']] eqn:Ht.
  - intros [= ->]. exists 0%nat, c. split; [lia|]. split; [done|]. revert Ht. unfold sample_turn.
    destruct (health_time c) as [[hb|] c1]; [|done]. cbn [fst snd]. destruct (match g with Some _ => _ | None => _ end); [done|].
    destruct (wall_time c1) as [w1 c2]. cbn [fst snd]. destruct (fst (health_time c2)) as [ha|]; [|done].
    destruct (ha <? hb); [done|]. unfold checked_sub64. destruct (hb <=? ha); [|done].
    destruct (Z.eqb_spec (ha - hb) CLOCK_HEALTH_SAMPLE_MAX_WINDOW_MS) as [Hz|]; [|done]. intros [= -> <-].
    unfold CLOCK_HEALTH_SAMPLE_MAX_WINDOW_MS in Hz. rewrite Hz. assert (ha = hb) as -> by lia.
    change (0 / 2) with 0. by rewrite Z.add_0_r.
  - intros Hs. destruct (IH _ _ _ Hs) as (k & c0 & Hk & -> & H1). exists (S k), (Nat.iter (S k) (after_turn wall_time health_time) c).
    split; [lia|]. split; [done|]. by rewrite Nat.iter_succ_r.
Qed.

Definition fresh (w0 h0 : Z) : ProcessLeaseClockHealth :=
  {| initial_wall_ms := w0; initial_clock_health_ms := h0; latest_wall_ms := w0;
     latest_clock_health_ms := h0; healthy := true |}.

Definition observe_all (skew : Z) : ProcessLeaseClockHealth -> list (Z * option Z) -> ProcessLeaseClockHealth :=
  foldl (fun s '(w, h) => snd (health_observe s w h skew)).

(** The wall clock and the health clock have gone on by the same time since the first
    reading, up to [skew]. *)
Definition agrees (w0 h0 skew : Z) (x : Z * Z) : Prop :=
  w0 <= x.1 /\ h0 <= x.2 /\ Z.abs ((x.1 - w0) - (x.2 - h0)) <= skew.

Lemma observe_step s w o skew :
  healthy s = true -> initial_clock_health_ms s <= latest_clock_health_ms s ->
  let '(ok, s') := health_observe s w o skew in
  initial_wall_ms s' = initial_wall_ms s /\ initial_clock_health_ms s' = initial_clock_health_ms s /\
  healthy s' = ok /\
  (ok = true <-> exists h, o = Some h /\ latest_clock_health_ms s <= h /\
     agrees (initial_wall_ms s) (initial_clock_health_ms s) skew (w, h)) /\
  (ok = true -> o = Some (latest_clock_health_ms s')).
Proof.
  intros Hs Hle. unfold health_observe. rewrite Hs. cbn [negb]. destruct o as [h|]; [|repeat split; try done; by intros (? & ? & _)].
  destruct (Z.ltb_spec h (latest_clock_health_ms s)).
  { repeat split; try done. intros (? & [= <-] & ? & _). lia. }
  unfold checked_sub64, abs_diff64, agrees. cbn [fst snd].
  destruct (Z.leb_spec (initial_wall_ms s) w); [|repeat split; try done; intros (? & [= <-] & _ & ? & _); lia].
  destruct (Z.leb_spec (initial_clock_health_ms s) h); [|lia].
  destruct (Z.leb_spec (Z.abs (w - initial_wall_ms s - (h - initial_clock_health_ms s))) skew);
    [|repeat split; try done; intros (? & [= <-] & _ & _ & _ & ?); lia].
  destruct (Z.ltb_spec (latest_clock_health_ms s) h); (split; [done|]); (split; [done|]); (split; [done|]).
  - split; [|done]. split; [|done]. intros _. exists h. repeat split; done || lia.
  - split; [|intros _; simpl; f_equal; lia]. split; [|done]. intros _. exists h. repeat split; done || lia.
Qed.

Lemma observe_unhealthy s w o skew : healthy s = false -> health_observe s w o skew = (false, s).
Proof. intros Hs. unfold health_observe. by rewrite Hs. Qed.

Lemma observe_all_unhealthy skew s l : healthy s = false -> observe_all skew s l = s.
Proof.
  intros Hs. unfold observe_all. induction l as [|[w o] l IH]; [done|]. cbn [foldl]. by rewrite observe_unhealthy.
Qed.

Lemma observe_all_snoc skew s l w o :
  observe_all skew s (l ++ [(w, o)]) = snd (health_observe (observe_all skew s l) w o skew).
Proof. unfold observe_all. by rewrite foldl_app. Qed.

Lemma observe_all_spec skew s l :
  healthy s = true -> initial_clock_health_ms s <= latest_clock_health_ms s ->
  healthy (observe_all skew s l) = true <->
  exists xs, l = (fun x => (x.1, Some x.2)) <$> xs /\
    StronglySorted Z.le (latest_clock_health_ms s :: xs.*2) /\
    Forall (agrees (initial_wall_ms s) (initial_clock_health_ms s) skew) xs.
Proof.
  revert s. induction l as [|[w o] l IH]; intros s Hs Hle.
  { split; [|by intros (? & _)]. intros _. exists []. repeat constructor. }
  unfold observe_all. cbn [foldl]. fold (observe_all skew).
  pose proof (observe_step s w o skew Hs Hle) as Hst. destruct (health_observe s w o skew) as [ok s']. cbn [snd].
  destruct Hst as (Hw & Hh & Hok & Hiff & Hlat). destruct ok.
  - destruct (proj1 Hiff eq_refl) as (h & -> & Hlh & Hag). injection (Hlat eq_refl) as Hl'.
    rewrite IH by (done || rewrite Hh, <-Hl'; destruct Hag as (_ & ? & _); done).
    rewrite Hw, Hh, <-Hl'. split.
    + intros (xs & -> & Hsort & Hall). exists ((w, h) :: xs). split; [done|]. split; [|by constructor].
      cbn. constructor; [done|]. apply StronglySorted_inv in Hsort as [_ Hfa]. constructor; [done|].
      eapply list.Forall_impl; [exact Hfa|]. intros x ?. lia.
    + intros ([|[w' h'] xs] & Heq & Hsort & Hall); [done|]. injection Heq as -> -> ->.
      apply list.Forall_cons in Hall as [_ Hall]. exists xs. split; [done|]. split; [|done].
      cbn in Hsort. by apply StronglySorted_inv in Hsort as [? _].
  - rewrite observe_all_unhealthy, Hok by done. split; [done|].
    intros ([|[w' h'] xs] & Heq & Hsort & Hall); [done|]. injection Heq as -> -> _. apply Hiff. exists h'. split; [done|].
    apply list.Forall_cons in Hall as [Hag _]. cbn in Hsort. apply StronglySorted_inv in Hsort as [_ Hfa].
    by apply list.Forall_cons in Hfa as [Hfa _].
Qed.

(** The sample a call is judged by: its own, or a fresh one when it may be older than
    the latest *)
Definition judged (s : ProcessLeaseClockHealth) (w : Z) (o : option Z) (confirm : option (Z * option Z)) :
    option (Z * option Z) :=
  match o with
  | Some h => if (h <? latest_clock_health_ms s) || ((h =? latest_clock_health_ms s) && (w <? latest_wall_ms s))
              then confirm else Some (w, o)
  | None => Some (w, o)
  end.

Lemma older_judged s w o skew confirm :
  observe_with_older_sample_confirmation s w o skew confirm =
  match judged s w o confirm with
  | Some (w', o') => health_observe s w' o' skew
  | None => (false, set_healthy false s)
  end.
Proof. unfold observe_with_older_sample_confirmation, judged. by destruct o; [destruct (_ || _)|]. Qed.

(** The clock monitor of a process.  After the samples it was shown, it is healthy
    exactly if every one had a health time, the health times did not go back, and at
    every one the wall clock had advanced since the first as much as the health clock,
    up to the budget; once unhealthy it stays so.  A call is accepted exactly if the
    monitor is healthy after the sample the call is judged by. *)
Theorem process_clock_monitor w0 h0 skew l :
  (healthy (observe_all skew (fresh w0 h0) l) = true <->
   exists xs, l = (fun x => (x.1, Some x.2)) <$> xs /\
     StronglySorted Z.le (h0 :: xs.*2) /\ Forall (agrees w0 h0 skew) xs) /\
  (forall l', healthy (observe_all skew (fresh w0 h0) l) = false ->
     healthy (observe_all skew (fresh w0 h0) (l ++ l')) = false) /\
  (forall w o confirm,
     let s := observe_all skew (fresh w0 h0) l in
     fst (validate_process_lease_clock None w o skew confirm (Some s)) = Ok () <->
     exists w' o', judged s w o confirm = Some (w', o') /\
       healthy (observe_all skew (fresh w0 h0) (l ++ [(w', o')])) = true).
Proof.
  split; [|split].
  - by rewrite observe_all_spec by (done || simpl; lia).
  - intros l' Hs. unfold observe_all in *. rewrite foldl_app. fold (observe_all skew). by rewrite observe_all_unhealthy.
  - intros w o confirm s. setoid_rewrite observe_all_snoc. fold s.
    assert (forall w' o', fst (health_observe s w' o' skew) = healthy (snd (health_observe s w' o' skew))) as Hres.
    { intros w' o'. unfold health_observe. destruct (healthy s) eqn:Hs; cbn [negb]; [|done].
      repeat case_match; simpl; done. }
    unfold validate_process_lease_clock. rewrite older_judged.
    destruct (judged s w o confirm) as [[w' o']|].
    + rewrite (surjective_pairing (health_observe s w' o' skew)), Hres. cbn [fst].
      destruct (healthy (snd (health_observe s w' o' skew))) eqn:Hs.
      * split; [|done]. intros _. by exists w', o'.
      * split; [by destruct o|]. intros (? & ? & [= <- <-] & Hs'). congruence.
    + cbn [fst]. split; [by destruct o|]. by intros (? & ? & ? & _).
Qed.

(** ** Examples *)

Definition sample_authority : LeaseHorizonAuthorityBinding := {| clock_generation := 1; raft_term := None |}.

Definition sample_node (id deadline : Z) : NodeControlRecord :=
  {| node_id := id; membership := Active; administratively_available := true; observed_availability := Healthy;
     node_incarnation := 1; endpoint := "n"; lease_deadline_ms := Some deadline |}.

Definition sample_snapshot : ClusterControlSnapshot :=
  {| max_committed_timestamp_ms := Some 100000;
     lease_grant_horizon := Some {| authority := sample_authority; grant_not_after_ms := 120000 |};
     nodes := [(1, sample_node 1 110000); (2, sample_node 2 108000)] |}.

(** The same after a volatile heartbeat of the second node *)
Definition sample_live : ClusterControlSnapshot :=
  set_nodes [(1, sample_node 1 110000); (2, sample_node 2 113000)] sample_snapshot.

Lemma sample_ok : leases_ok sample_snapshot /\ key_ordered (nodes sample_snapshot).
Proof.
  split; [split; [reflexivity|]|repeat constructor].
  intros id r [[= -> ->]|[[= -> ->]|?%elem_of_nil]%elem_of_cons]%elem_of_cons; done || reflexivity.
Qed.

Lemma lease_commands_keep_checks_witness :
  exists s', heartbeat_snapshot sample_snapshot (Some sample_authority) 2 103000 113000 = Ok s' /\ leases_ok s'.
Proof.
  destruct sample_ok as [Hok Hk].
  pose proof (proj2 (proj2 (lease_commands_keep_checks sample_snapshot Hok Hk)) (Some sample_authority) 2 103000 10000 113000
    (sample_node 2 108000) ltac:(done) eq_refl eq_refl eq_refl) as Hwp.
  destruct (heartbeat_snapshot sample_snapshot (Some sample_authority) 2 103000 113000) as [s'|e|] eqn:E;
    [|vm_compute in E; discriminate..].
  exists s'. split; [done|apply Hwp].
Defined.

Lemma promotion_makes_durable_witness :
  exists a l, promote_volatile_heartbeat_leases_command sample_live sample_snapshot = Ok (Some (a, l)) /\
    apply_promote_node_heartbeat_leases sample_snapshot a l =
    Ok (set_nodes (nodes sample_live) sample_snapshot, true).
Proof.
  apply (promotion_makes_durable sample_snapshot sample_live (proj2 sample_ok)); [|discriminate].
  split; [reflexivity|]. constructor; [by left|]. constructor; [|constructor]. right.
  exists 108000, 113000, {| authority := sample_authority; grant_not_after_ms := 120000 |}.
  repeat split; done.
Defined.

End LeaseRules.
