(* ===== verification/AuthorityClock.v ===== *)
(** The clock of a control-plane authority, definitions: the gate of
    crates/storage/src/control_plane/authority_clock.rs that every timestamp of a
    command passes, its restart checkpoint, and the two identity files of
    single_authority.rs that have the same layout. *)

From Stdlib Require Import ZifyBool.
From stdpp Require Import strings.
From S2P Require Import Prelude Machine Journal Lease.

Local Open Scope Z_scope.

Module AuthorityClock.
Import Machine Lease.

(** ** The restart checkpoint *)

Definition CONTROL_PLANE_CLOCK_CHECKPOINT_MAGIC : list byte := String.list_byte_of_string "ARGCPCLK".
Definition CONTROL_PLANE_CLOCK_CHECKPOINT_VERSION : Z := 2.
Definition CONTROL_PLANE_CLOCK_CHECKPOINT_BINDING_LEN : Z := 32.
Definition CONTROL_PLANE_CLOCK_CHECKPOINT_CHECKSUM_LEN : Z := 8.
Definition CONTROL_PLANE_CLOCK_CHECKPOINT_LEN : Z := 8 + 2 + 32 + 8 + 1 + 8 + 8 + 8 + 8.

(** The 32 bytes that name the durable state a checkpoint belongs to *)
Definition ControlPlaneAuthorityClockCheckpointBinding := list byte.

(** [sha256] is the hash of the checksum crate. *)
Definition for_raft (sha256 : list byte -> list byte) (cluster_name : list byte) (node_id : Z) :
    ControlPlaneAuthorityClockCheckpointBinding :=
  sha256 (String.list_byte_of_string "argmin-control-plane-clock-checkpoint-raft-v1" ++ [Byte.x00]
          ++ Journal.to_be_bytes 8 (len cluster_name) ++ cluster_name ++ Journal.to_be_bytes 8 node_id).

Inductive FormatError := Truncated | UnknownMagic | UnsupportedVersion (version : Z).
Inductive DecodeError := Format (error : FormatError) | Invalid (error : ControlPlaneError).

Record ControlPlaneAuthorityClockRestartCheckpoint := {
  binding : ControlPlaneAuthorityClockCheckpointBinding;
  authority_generation : Z;
  committed_timestamp_high_water_ms : option Z;
  checkpoint_wall_time_ms : Z;
  checkpoint_health_time_ms : Z
}.

(** [sample] is the process clock, which may have failed. *)
Definition from_process_clock (b : ControlPlaneAuthorityClockCheckpointBinding) (generation : Z)
    (high_water : option Z) (sample : outcome ControlPlaneError WallClockHealthSample) :
    outcome ControlPlaneError ControlPlaneAuthorityClockRestartCheckpoint :=
  _ ← guard_err (generation =? 0)
        (AuthorityClockCheckpoint "checkpoint authority generation must be nonzero");
  s ← sample;
  h ← ok_or (health_time_ms s) AuthorityClockSourceUnavailable;
  mret {| binding := b; authority_generation := generation;
          committed_timestamp_high_water_ms := high_water;
          checkpoint_wall_time_ms := wall_time_ms s; checkpoint_health_time_ms := h |}.

Section codec.
Context `{Checksum64}.

Definition encode {E} (self : ControlPlaneAuthorityClockRestartCheckpoint) : outcome E (list byte) :=
  let bytes :=
    CONTROL_PLANE_CLOCK_CHECKPOINT_MAGIC ++ Journal.to_be_bytes 2 CONTROL_PLANE_CLOCK_CHECKPOINT_VERSION
    ++ binding self ++ Journal.to_be_bytes 8 (authority_generation self)
    ++ match committed_timestamp_high_water_ms self with
       | Some timestamp_ms => [Byte.x01] ++ Journal.to_be_bytes 8 timestamp_ms
       | None => [Byte.x00] ++ Journal.to_be_bytes 8 0
       end
    ++ Journal.to_be_bytes 8 (checkpoint_wall_time_ms self) ++ Journal.to_be_bytes 8 (checkpoint_health_time_ms self) in
  c ← checksum64 bytes;
  mret (bytes ++ Journal.to_be_bytes 8 c).

(** The closure [take]; the state is [offset]. *)
Definition take_bytes (body : list byte) (n : Z) : stm Z DecodeError (list byte) := fun offset =>
  match checked_add64 offset n with
  | None => (Err (Invalid (AuthorityClockCheckpoint "checkpoint offset overflow")), offset)
  | Some e =>
      match get_range body offset e with
      | None => (Err (Invalid (AuthorityClockCheckpoint "checkpoint is truncated")), offset)
      | Some value => (Ok value, e)
      end
  end.

Definition throwS {S A} (e : DecodeError) : stm S DecodeError A := liftS (Err e).

Definition decode_body (body : list byte) (expected_binding : ControlPlaneAuthorityClockCheckpointBinding) :
    stm Z DecodeError ControlPlaneAuthorityClockRestartCheckpoint :=
  let invalid m := Invalid (AuthorityClockCheckpoint m) in
  magic ← take_bytes body (len CONTROL_PLANE_CLOCK_CHECKPOINT_MAGIC);
  _ ← liftS (guard_err (negb (bool_decide (magic = CONTROL_PLANE_CLOCK_CHECKPOINT_MAGIC)))
               (Format UnknownMagic));
  v ← take_bytes body 2;
  let version := Journal.from_be_bytes v in
  _ ← liftS (guard_err (negb (version =? CONTROL_PLANE_CLOCK_CHECKPOINT_VERSION))
               (Format (UnsupportedVersion version)));
  b ← take_bytes body CONTROL_PLANE_CLOCK_CHECKPOINT_BINDING_LEN;
  _ ← liftS (guard_err (negb (bool_decide (b = expected_binding)))
               (invalid "checkpoint durable-state identity does not match this authority"));
  g ← take_bytes body 8;
  let generation := Journal.from_be_bytes g in
  _ ← liftS (guard_err (generation =? 0) (invalid "checkpoint authority generation must be nonzero"));
  tag ← take_bytes body 1;
  ts ← take_bytes body 8;
  let encoded_timestamp := Journal.from_be_bytes ts in
  tag0 ← liftS (unwrap (tag !! 0%nat));
  high_water ← (if bool_decide (tag0 = Byte.x00)
                then if encoded_timestamp =? 0 then mret None
                     else throwS (invalid "absent checkpoint timestamp must use canonical zero value")
                else if bool_decide (tag0 = Byte.x01) then mret (Some encoded_timestamp)
                else throwS (invalid "invalid checkpoint timestamp option tag"));
  w ← take_bytes body 8;
  h ← take_bytes body 8;
  offset ← gets (A:=Z) id;
  _ ← liftS (guard_err (negb (offset =? len body)) (invalid "checkpoint has trailing bytes"));
  mret {| binding := b; authority_generation := generation;
          committed_timestamp_high_water_ms := high_water;
          checkpoint_wall_time_ms := Journal.from_be_bytes w; checkpoint_health_time_ms := Journal.from_be_bytes h |}.

Definition decode_classified (bytes : list byte)
    (expected_binding : ControlPlaneAuthorityClockCheckpointBinding) :
    outcome DecodeError ControlPlaneAuthorityClockRestartCheckpoint :=
  _ ← guard_err (len bytes <? CONTROL_PLANE_CLOCK_CHECKPOINT_LEN) (Format Truncated);
  _ ← guard_err (negb (len bytes =? CONTROL_PLANE_CLOCK_CHECKPOINT_LEN))
        (Invalid (AuthorityClockCheckpoint "checkpoint length does not match required fixed length"));
  let body := takeZ (len bytes - CONTROL_PLANE_CLOCK_CHECKPOINT_CHECKSUM_LEN) bytes in
  let encoded_checksum := dropZ (len bytes - CONTROL_PLANE_CLOCK_CHECKPOINT_CHECKSUM_LEN) bytes in
  actual_checksum ← checksum64 body;
  _ ← guard_err (negb (actual_checksum =? Journal.from_be_bytes encoded_checksum))
        (Invalid (AuthorityClockCheckpoint "checkpoint checksum mismatch"));
  fst (decode_body body expected_binding 0).

(** ** The identity file and the initialization marker *)

Definition CONTROL_PLANE_STATE_IDENTITY_MAGIC : list byte :=
  String.list_byte_of_string "ARGCPID" ++ [Byte.x00].
Definition CONTROL_PLANE_STATE_IDENTITY_VERSION : Z := 1.
Definition CONTROL_PLANE_STATE_IDENTITY_LEN : Z := 8 + 2 + 32 + 8.
Definition SINGLE_AUTHORITY_INITIALIZED_MAGIC : list byte := String.list_byte_of_string "ARGCPINI".
Definition SINGLE_AUTHORITY_INITIALIZED_VERSION : Z := 1.
Definition SINGLE_AUTHORITY_INITIALIZED_LEN : Z := 8 + 2 + 32 + 8.

(** What both files contain *)
Definition encode_binding_file {E} (magic : list byte) (version : Z)
    (b : ControlPlaneAuthorityClockCheckpointBinding) : outcome E (list byte) :=
  let bytes := magic ++ Journal.to_be_bytes 2 version ++ b in
  c ← checksum64 bytes;
  mret (bytes ++ Journal.to_be_bytes 8 c).

Definition decode_binding_file {E} (magic : list byte) (version file_len : Z)
    (truncated wrong_length bad_checksum unknown_magic : E) (unsupported : Z -> E) (bytes : list byte) :
    outcome E ControlPlaneAuthorityClockCheckpointBinding :=
  _ ← guard_err (len bytes <? file_len) truncated;
  _ ← guard_err (negb (len bytes =? file_len)) wrong_length;
  let body := takeZ (file_len - 8) bytes in
  let checksum_bytes := dropZ (file_len - 8) bytes in
  actual ← checksum64 body;
  _ ← guard_err (negb (actual =? Journal.from_be_bytes checksum_bytes)) bad_checksum;
  m ← index_range body 0 (len magic);
  _ ← guard_err (negb (bool_decide (m = magic))) unknown_magic;
  let version_offset := len magic in
  v ← index_range body version_offset (version_offset + 2);
  _ ← guard_err (negb (Journal.from_be_bytes v =? version)) (unsupported (Journal.from_be_bytes v));
  b ← index_range body (version_offset + 2) (len body);
  _ ← assert_true (len b =? CONTROL_PLANE_CLOCK_CHECKPOINT_BINDING_LEN);
  mret b.

Definition encode_single_authority_clock_checkpoint_binding {E}
    (b : ControlPlaneAuthorityClockCheckpointBinding) : outcome E (list byte) :=
  encode_binding_file CONTROL_PLANE_STATE_IDENTITY_MAGIC CONTROL_PLANE_STATE_IDENTITY_VERSION b.

Definition decode_single_authority_clock_checkpoint_binding (bytes : list byte) :
    outcome DecodeError ControlPlaneAuthorityClockCheckpointBinding :=
  decode_binding_file CONTROL_PLANE_STATE_IDENTITY_MAGIC CONTROL_PLANE_STATE_IDENTITY_VERSION
    CONTROL_PLANE_STATE_IDENTITY_LEN (Format Truncated)
    (Invalid (AuthorityClockCheckpoint
       "single-authority durable identity length does not match required fixed length"))
    (Invalid (AuthorityClockCheckpoint "single-authority durable identity checksum mismatch"))
    (Format UnknownMagic) (fun v => Format (UnsupportedVersion v)) bytes.

Inductive MarkerFormatError :=
| MarkerTruncated | MarkerInvalidLength | MarkerUnknownMagic | MarkerUnsupportedVersion (version : Z).
Inductive MarkerDecodeError :=
| MarkerFormat (error : MarkerFormatError) | MarkerInvalid (error : ControlPlaneError).

Definition encode_single_authority_initialized_binding {E}
    (b : ControlPlaneAuthorityClockCheckpointBinding) : outcome E (list byte) :=
  encode_binding_file SINGLE_AUTHORITY_INITIALIZED_MAGIC SINGLE_AUTHORITY_INITIALIZED_VERSION b.

Definition decode_single_authority_initialized_binding (bytes : list byte) :
    outcome MarkerDecodeError ControlPlaneAuthorityClockCheckpointBinding :=
  decode_binding_file SINGLE_AUTHORITY_INITIALIZED_MAGIC SINGLE_AUTHORITY_INITIALIZED_VERSION
    SINGLE_AUTHORITY_INITIALIZED_LEN (MarkerFormat MarkerTruncated) (MarkerFormat MarkerInvalidLength)
    (MarkerInvalid (CommandDecode "single-authority initialization marker checksum mismatch"))
    (MarkerFormat MarkerUnknownMagic) (fun v => MarkerFormat (MarkerUnsupportedVersion v)) bytes.

(** What a start makes of the checkpoint file once it is read: [None] is a file that
    does not exist.  A checkpoint that cannot be used is as good as none, one of
    another format or version is an error. *)
Definition load_authority_clock_restart_checkpoint_for_startup (file : option (list byte))
    (expected_binding : ControlPlaneAuthorityClockCheckpointBinding) :
    outcome DecodeError (option ControlPlaneAuthorityClockRestartCheckpoint) :=
  match file with
  | None => Ok None
  | Some bytes =>
      match decode_classified bytes expected_binding with
      | Ok checkpoint => Ok (Some checkpoint)
      | Err (Format Truncated) | Err (Invalid (AuthorityClockCheckpoint _)) => Ok None
      | Err e => Err e
      | Panic => Panic
      end
  end.

End codec.

(** ** The gate *)

Record ControlPlaneAuthorityClockContext := {
  context_high_water_ms : option Z;
  current_raft_leadership_term : option Z;
  local_raft_authority_leader : bool;
  local_raft_authority_serving : bool
}.

Record ControlPlaneAuthorityClock := {
  reference_wall_ms : Z;
  reference_clock_health_ms : Z;
  minimum_timestamp_ms : option Z;
  raft_leadership_term : option Z;
  initial_raft_term_binding_available : bool;
  established : bool;
  generation : Z;
  blocked_reason : option ControlPlaneAuthorityClockBlockedReason;
  restart_continuity_generation : option Z
}.

(** The four fields of the context are copied into the status. *)
Record ControlPlaneAuthorityClockStatus := {
  status_generation : Z;
  status_established : bool;
  status_blocked_reason : option ControlPlaneAuthorityClockBlockedReason;
  status_context : ControlPlaneAuthorityClockContext;
  bound_raft_leadership_term : option Z
}.

(** [o.is_none_or(f)] *)
Definition is_none_or {A} (o : option A) (f : A -> bool) : bool :=
  match o with Some a => f a | None => true end.

(** Whether the checkpoint shows that wall and health clock have gone on together
    since, and the wall clock has not fallen behind what was committed *)
Definition checkpoint_continues (c : ControlPlaneAuthorityClockRestartCheckpoint)
    (committed_ms wall_ms clock_health_ms : Z) : bool :=
  is_none_or (committed_timestamp_high_water_ms c) (fun t => t <=? committed_ms)
  && is_none_or (committed_timestamp_high_water_ms c) (fun t => t <=? checkpoint_wall_time_ms c)
  && (committed_ms <=? wall_ms)
  && match checked_sub64 wall_ms (checkpoint_wall_time_ms c),
           checked_sub64 clock_health_ms (checkpoint_health_time_ms c) with
     | Some wall_elapsed_ms, Some health_elapsed_ms =>
         abs_diff64 wall_elapsed_ms health_elapsed_ms <=? CONTROL_PLANE_CLOCK_SKEW_BUDGET_MS
     | _, _ => false
     end.

Definition new_internal (max_committed : option Z) (wall_ms : Z) (clock_health_ms : option Z)
    (restart_checkpoint : option ControlPlaneAuthorityClockRestartCheckpoint)
    (allow_uncheckpointed_initial_state : bool) : outcome ControlPlaneError ControlPlaneAuthorityClock :=
  _ ← guard_err (match restart_checkpoint with
                 | Some c => authority_generation c =? 0 | None => false end)
        (AuthorityClockCheckpoint "checkpoint authority generation must be nonzero");
  h ← ok_or clock_health_ms AuthorityClockSourceUnavailable;
  let est := is_none_or max_committed (fun committed_ms =>
    match restart_checkpoint with
    | None => allow_uncheckpointed_initial_state
              && (abs_diff64 wall_ms committed_ms <=? CONTROL_PLANE_CLOCK_SKEW_BUDGET_MS)
    | Some c => checkpoint_continues c committed_ms wall_ms h
    end) in
  let checkpoint_generation := authority_generation <$> restart_checkpoint in
  mret {| reference_wall_ms := wall_ms; reference_clock_health_ms := h;
          minimum_timestamp_ms := max_committed; raft_leadership_term := None;
          initial_raft_term_binding_available := bool_decide (max_committed = None);
          established := est;
          generation := default 1 checkpoint_generation;
          blocked_reason := if est then None else Some InitialTimestampDiscontinuity;
          restart_continuity_generation := if est then checkpoint_generation else None |}.

(** Production starts: [sample] is the process clock, which may have failed. *)
Definition new_from_process_clock_with_restart_checkpoint (max_committed : option Z)
    (restart_checkpoint : option ControlPlaneAuthorityClockRestartCheckpoint)
    (sample : outcome ControlPlaneError WallClockHealthSample) :
    outcome ControlPlaneError ControlPlaneAuthorityClock :=
  s ← sample;
  new_internal max_committed (wall_time_ms s) (health_time_ms s) restart_checkpoint false.

(** *** Changes of fields *)

Definition set_generation (g : Z) (self : ControlPlaneAuthorityClock) : ControlPlaneAuthorityClock :=
  {| reference_wall_ms := reference_wall_ms self; reference_clock_health_ms := reference_clock_health_ms self;
     minimum_timestamp_ms := minimum_timestamp_ms self; raft_leadership_term := raft_leadership_term self;
     initial_raft_term_binding_available := initial_raft_term_binding_available self;
     established := established self; generation := g; blocked_reason := blocked_reason self;
     restart_continuity_generation := restart_continuity_generation self |}.

Definition set_blocked (reason : ControlPlaneAuthorityClockBlockedReason) (self : ControlPlaneAuthorityClock) :
    ControlPlaneAuthorityClock :=
  {| reference_wall_ms := reference_wall_ms self; reference_clock_health_ms := reference_clock_health_ms self;
     minimum_timestamp_ms := minimum_timestamp_ms self; raft_leadership_term := raft_leadership_term self;
     initial_raft_term_binding_available := initial_raft_term_binding_available self;
     established := false; generation := generation self; blocked_reason := Some reason;
     restart_continuity_generation := None |}.

Definition set_minimum (t : option Z) (self : ControlPlaneAuthorityClock) : ControlPlaneAuthorityClock :=
  {| reference_wall_ms := reference_wall_ms self; reference_clock_health_ms := reference_clock_health_ms self;
     minimum_timestamp_ms := t; raft_leadership_term := raft_leadership_term self;
     initial_raft_term_binding_available := initial_raft_term_binding_available self;
     established := established self; generation := generation self; blocked_reason := blocked_reason self;
     restart_continuity_generation := restart_continuity_generation self |}.

Definition set_term (t : option Z) (self : ControlPlaneAuthorityClock) : ControlPlaneAuthorityClock :=
  {| reference_wall_ms := reference_wall_ms self; reference_clock_health_ms := reference_clock_health_ms self;
     minimum_timestamp_ms := minimum_timestamp_ms self; raft_leadership_term := t;
     initial_raft_term_binding_available := false;
     established := established self; generation := generation self; blocked_reason := blocked_reason self;
     restart_continuity_generation := restart_continuity_generation self |}.

Definition clear_continuity (self : ControlPlaneAuthorityClock) : ControlPlaneAuthorityClock :=
  {| reference_wall_ms := reference_wall_ms self; reference_clock_health_ms := reference_clock_health_ms self;
     minimum_timestamp_ms := minimum_timestamp_ms self; raft_leadership_term := raft_leadership_term self;
     initial_raft_term_binding_available := initial_raft_term_binding_available self;
     established := established self; generation := generation self; blocked_reason := blocked_reason self;
     restart_continuity_generation := None |}.

(** *** Operations *)

Definition throw {A} (e : ControlPlaneError) : stm ControlPlaneAuthorityClock ControlPlaneError A := liftS (Err e).

Definition advance_generation : stm ControlPlaneAuthorityClock ControlPlaneError () :=
  g ← gets generation;
  next ← liftS (ok_or (checked_add64 g 1) AuthorityClockGenerationOverflow);
  modify (set_generation next).

Definition latch_unhealthy (reason : ControlPlaneAuthorityClockBlockedReason) : stm ControlPlaneAuthorityClock ControlPlaneError () :=
  self ← gets (A:=ControlPlaneAuthorityClock) id;
  let c := established self || negb (bool_decide (blocked_reason self = Some reason)) in
  _ ← (if c then advance_generation else mret () : stm ControlPlaneAuthorityClock ControlPlaneError ());
  modify (set_blocked reason).

Definition fail_closed_after_checkpoint_persistence_failure : stm ControlPlaneAuthorityClock ControlPlaneError () :=
  latch_unhealthy CheckpointPersistenceFailure.

Definition status (self : ControlPlaneAuthorityClock) (context : ControlPlaneAuthorityClockContext) :
    ControlPlaneAuthorityClockStatus :=
  {| status_generation := generation self; status_established := established self;
     status_blocked_reason := blocked_reason self; status_context := context;
     bound_raft_leadership_term := raft_leadership_term self |}.

Definition lease_horizon_authority_binding (self : ControlPlaneAuthorityClock) (term : option Z) :
    outcome ControlPlaneError LeaseHorizonAuthorityBinding :=
  _ ← guard_err (negb (established self)) (AuthorityClockNotEstablished (blocked_reason self));
  _ ← guard_err (negb (bool_decide (raft_leadership_term self = term)))
        (AuthorityClockRaftTermMismatch (raft_leadership_term self) term);
  ok_or (checked_new (generation self) term) AuthorityClockGenerationOverflow.

Definition advance_generation_past_lease_horizon (previous : LeaseHorizonAuthorityBinding) : stm ControlPlaneAuthorityClock ControlPlaneError () :=
  next ← liftS (ok_or (checked_add64 (clock_generation previous) 1) AuthorityClockGenerationOverflow);
  modify (fun self => clear_continuity (set_generation (Z.max (generation self) next) self)).

Definition resume_single_authority_lease_horizon_generation (previous : LeaseHorizonAuthorityBinding) :
    stm ControlPlaneAuthorityClock ControlPlaneError bool := fun self =>
  if negb (bool_decide (restart_continuity_generation self = Some (generation self)))
     || negb (established self)
     || bool_decide (is_Some (raft_leadership_term self))
     || bool_decide (is_Some (raft_term previous))
     || negb (clock_generation previous =? generation self)
  then (Ok false, self)
  else (Ok true, clear_continuity self).

Definition bind_initial_raft_leadership_term (term : option Z) : stm ControlPlaneAuthorityClock ControlPlaneError () :=
  modify (fun self => clear_continuity (set_term term self)).

Definition observe_committed_timestamp_high_water (timestamp_ms : option Z) : stm ControlPlaneAuthorityClock ControlPlaneError () :=
  modify (fun self =>
    match timestamp_ms with
    | None => self
    | Some t => set_minimum (Some match minimum_timestamp_ms self with
                                  | None => t | Some current => Z.max current t end) self
    end).

Definition validate_raft_leadership_term (term : Z) : stm ControlPlaneAuthorityClock ControlPlaneError () :=
  self ← gets (A:=ControlPlaneAuthorityClock) id;
  if bool_decide (raft_leadership_term self = Some term) then mret ()
  else if bool_decide (raft_leadership_term self = None)
          && (bool_decide (minimum_timestamp_ms self = None) && initial_raft_term_binding_available self)
  then modify (set_term (Some term))
  else
    _ ← latch_unhealthy RaftLeadershipChanged;
    throw (AuthorityClockLeadershipChanged (raft_leadership_term self) term).

Definition effective_now_ms (wall_ms : Z) (clock_health_ms : option Z) : stm ControlPlaneAuthorityClock ControlPlaneError Z :=
  match clock_health_ms with
  | None => _ ← latch_unhealthy ClockSourceUnavailable; throw AuthorityClockSourceUnavailable
  | Some h =>
      self ← gets (A:=ControlPlaneAuthorityClock) id;
      let max_committed := default wall_ms (minimum_timestamp_ms self) in
      if negb (established self) then throw (AuthorityClockNotEstablished (blocked_reason self))
      else match checked_sub64 h (reference_clock_health_ms self) with
      | None =>
          _ ← latch_unhealthy ClockHealthRegression;
          throw (CommittedTimestampRegression h (reference_clock_health_ms self))
      | Some monotonic_elapsed_ms =>
          expected ← liftS (ok_or (checked_add64 (reference_wall_ms self) monotonic_elapsed_ms)
                              LeaseDeadlineOverflow);
          if CONTROL_PLANE_CLOCK_SKEW_BUDGET_MS <? abs_diff64 wall_ms expected
          then
            _ ← latch_unhealthy (if wall_ms <? expected then WallClockRegression else WallClockForwardJump);
            throw (if wall_ms <? expected then CommittedTimestampRegression wall_ms expected
                   else CommittedTimestampTooFarAhead wall_ms expected CONTROL_PLANE_CLOCK_SKEW_BUDGET_MS)
          else
            let now := Z.max wall_ms max_committed in
            _ ← modify (set_minimum (Some now));
            mret now
      end
  end.

(** [if let Err(error) = m { return if self.established { Err(error) } else { Ok(self.status(context)) } }] *)
Definition report_unestablished {A} (context : ControlPlaneAuthorityClockContext) (m : stm ControlPlaneAuthorityClock ControlPlaneError A)
    (k : stm ControlPlaneAuthorityClock ControlPlaneError ControlPlaneAuthorityClockStatus) : stm ControlPlaneAuthorityClock ControlPlaneError ControlPlaneAuthorityClockStatus := fun self =>
  match m self with
  | (Ok _, self) => k self
  | (Err e, self) => if established self then (Err e, self) else (Ok (status self context), self)
  | (Panic, self) => (Panic, self)
  end.

Definition observe_status (context : ControlPlaneAuthorityClockContext) (wall_ms : Z)
    (clock_health_ms : option Z) : stm ControlPlaneAuthorityClock ControlPlaneError ControlPlaneAuthorityClockStatus :=
  _ ← observe_committed_timestamp_high_water (context_high_water_ms context);
  let rest := report_unestablished context (effective_now_ms wall_ms clock_health_ms)
                (gets (fun self => status self context)) in
  match current_raft_leadership_term context with
  | Some term => report_unestablished context (validate_raft_leadership_term term) rest
  | None => rest
  end.

Definition reestablish (expected_generation : Z) (expected_high_water expected_term : option Z)
    (context : ControlPlaneAuthorityClockContext) (wall_ms : Z) (clock_health_ms : option Z) :
    stm ControlPlaneAuthorityClock ControlPlaneError ControlPlaneAuthorityClockStatus :=
  self ← gets (A:=ControlPlaneAuthorityClock) id;
  _ ← liftS (guard_err (established self) AuthorityClockAlreadyEstablished);
  _ ← liftS (guard_err (negb (expected_generation =? generation self))
               (AuthorityClockGenerationMismatch expected_generation (generation self)));
  _ ← liftS (guard_err (negb (bool_decide (expected_high_water = context_high_water_ms context)))
               (AuthorityClockCommittedTimestampMismatch expected_high_water (context_high_water_ms context)));
  _ ← liftS (guard_err (negb (bool_decide (expected_term = current_raft_leadership_term context)))
               (AuthorityClockRaftTermMismatch expected_term (current_raft_leadership_term context)));
  _ ← liftS (guard_err (bool_decide (is_Some (current_raft_leadership_term context))
                        && negb (local_raft_authority_serving context))
               AuthorityClockNotLocalServingRaftAuthority);
  _ ← liftS (match context_high_water_ms context with
             | Some hw => guard_err (wall_ms <? hw) (AuthorityClockWallBehindCommittedTimestamp wall_ms hw)
             | None => Ok ()
             end);
  h ← liftS (ok_or clock_health_ms AuthorityClockSourceUnavailable);
  next ← liftS (ok_or (checked_add64 (generation self) 1) AuthorityClockGenerationOverflow);
  _ ← modify (fun _ =>
        {| reference_wall_ms := wall_ms; reference_clock_health_ms := h;
           minimum_timestamp_ms := context_high_water_ms context;
           raft_leadership_term := current_raft_leadership_term context;
           initial_raft_term_binding_available := false; established := true;
           generation := next; blocked_reason := None; restart_continuity_generation := None |});
  gets (fun self => status self context).

Definition effective_process_now_ms (sample : outcome ControlPlaneError WallClockHealthSample) : stm ControlPlaneAuthorityClock ControlPlaneError Z :=
  s ← liftS sample;
  effective_now_ms (wall_time_ms s) (health_time_ms s).

(** The checkpoint that is stored while the clock runs *)
Definition validated_authority_clock_restart_checkpoint (b : ControlPlaneAuthorityClockCheckpointBinding)
    (high_water : option Z) (wall_ms : Z) (clock_health_ms : option Z) :
    stm ControlPlaneAuthorityClock ControlPlaneError ControlPlaneAuthorityClockRestartCheckpoint :=
  _ ← effective_now_ms wall_ms clock_health_ms;
  h ← liftS (ok_or clock_health_ms AuthorityClockSourceUnavailable);
  gets (fun self =>
    {| binding := b; authority_generation := generation self;
       committed_timestamp_high_water_ms := high_water;
       checkpoint_wall_time_ms := wall_ms; checkpoint_health_time_ms := h |}).

End AuthorityClock.
