(* ===== verification/ClockSpec.v ===== *)
(** The clock of a control-plane authority, proofs and properties: what its gate
    accepts, what a generation stands for, and the checkpoint on disk. *)

From Stdlib Require Import ZifyBool.
From stdpp Require Import strings.
From S2P Require Import Prelude Machine Journal JournalSpec Lease AuthorityClock.

Local Open Scope Z_scope.

Module ClockSpec.
Import Machine Lease AuthorityClock.

(** A clock of 64-bit times and a 64-bit generation, which starts at one *)
Definition clock_ok (c : ControlPlaneAuthorityClock) : Prop :=
  is_u64 (reference_wall_ms c) /\ is_u64 (reference_clock_health_ms c) /\ 0 < generation c <= MAX64.

(** The wall time an undisturbed clock shows when its health clock shows [h] *)
Definition expected_wall (c : ControlPlaneAuthorityClock) (h : Z) : Z :=
  reference_wall_ms c + (h - reference_clock_health_ms c).

(** A reading that agrees with the reference of the clock *)
Definition on_line (c : ControlPlaneAuthorityClock) (wall : Z) (health : option Z) : Prop :=
  exists h, health = Some h /\ reference_clock_health_ms c <= h /\ expected_wall c h <= MAX64 /\
    Z.abs (wall - expected_wall c h) <= CONTROL_PLANE_CLOCK_SKEW_BUDGET_MS.

(** Latching for [reason] takes a new generation. *)
Definition takes_generation (reason : ControlPlaneAuthorityClockBlockedReason) (c : ControlPlaneAuthorityClock) : bool :=
  established c || negb (bool_decide (blocked_reason c = Some reason)).

(** The clock after it was latched for [reason] *)
Definition latched (reason : ControlPlaneAuthorityClockBlockedReason) (c : ControlPlaneAuthorityClock) :
    ControlPlaneAuthorityClock :=
  set_blocked reason (if takes_generation reason c then set_generation (generation c + 1) c else c).

(** There is no generation left to latch under. *)
Definition exhausted (reason : ControlPlaneAuthorityClockBlockedReason) (c : ControlPlaneAuthorityClock) : bool :=
  takes_generation reason c && (MAX64 <=? generation c).

(** What a reading that latches leaves: the error [e0] and the latched clock, or at
    the last generation an error of its own and the clock as it was *)
Definition latch_answer (reason : ControlPlaneAuthorityClockBlockedReason) (e0 : ControlPlaneError)
    (c : ControlPlaneAuthorityClock) : ControlPlaneError * ControlPlaneAuthorityClock :=
  if exhausted reason c then (AuthorityClockGenerationOverflow, c) else (e0, latched reason c).

Lemma latch_unhealthy_spec reason c :
  latch_unhealthy reason c =
  if exhausted reason c then (Err AuthorityClockGenerationOverflow, c) else (Ok (), latched reason c).
Proof.
  unfold latch_unhealthy, exhausted, latched, mbind, stm_bind, gets, id. fold (takes_generation reason c).
  destruct (takes_generation reason c); [|done]. unfold advance_generation, mbind, stm_bind, gets, liftS, checked_add64.
  cbn [andb]. destruct (Z.leb_spec MAX64 (generation c)).
  - by rewrite (proj2 (Z.leb_gt _ _)) by lia.
  - by rewrite (proj2 (Z.leb_le _ _)) by lia.
Qed.

Lemma latch_then_throw {A} reason e0 c :
  (latch_unhealthy reason ≫= fun _ => throw (A:=A) e0) c =
  (Err (latch_answer reason e0 c).1, (latch_answer reason e0 c).2).
Proof. unfold mbind, stm_bind, latch_answer. rewrite latch_unhealthy_spec. by destruct (exhausted reason c). Qed.

Lemma effective_now_accepts c wall health :
  established c = true -> on_line c wall health ->
  let now := Z.max wall (default wall (minimum_timestamp_ms c)) in
  effective_now_ms wall health c = (Ok now, set_minimum (Some now) c).
Proof.
  intros Hest (h & -> & Hh & Hmax & Hskew). unfold effective_now_ms, mbind, stm_bind, gets, id.
  rewrite Hest. cbn [negb]. unfold expected_wall in *.
  rewrite checked_sub64_Some by done. unfold liftS. rewrite checked_add64_Some by done. cbn [ok_or].
  unfold abs_diff64. rewrite (proj2 (Z.ltb_ge _ _)) by done. done.
Qed.

(** What a reading that is not accepted gives: the error and the clock it leaves *)
Definition refusal (c : ControlPlaneAuthorityClock) (wall : Z) (health : option Z) :
    ControlPlaneError * ControlPlaneAuthorityClock :=
  match health with
  | None => latch_answer ClockSourceUnavailable AuthorityClockSourceUnavailable c
  | Some h =>
      if negb (established c) then (AuthorityClockNotEstablished (blocked_reason c), c)
      else if h <? reference_clock_health_ms c
      then latch_answer ClockHealthRegression (CommittedTimestampRegression h (reference_clock_health_ms c)) c
      else if MAX64 <? expected_wall c h then (LeaseDeadlineOverflow, c)
      else if wall <? expected_wall c h
      then latch_answer WallClockRegression (CommittedTimestampRegression wall (expected_wall c h)) c
      else latch_answer WallClockForwardJump
             (CommittedTimestampTooFarAhead wall (expected_wall c h) CONTROL_PLANE_CLOCK_SKEW_BUDGET_MS) c
  end.

Lemma effective_now_refuses c wall health :
  ~ (established c = true /\ on_line c wall health) ->
  effective_now_ms wall health c = (Err (refusal c wall health).1, (refusal c wall health).2).
Proof.
  intros Hno. unfold effective_now_ms, refusal. destruct health as [h|]; [|by rewrite latch_then_throw].
  unfold mbind at 1, stm_bind at 1, gets, id. destruct (established c) eqn:Hest; cbn [negb]; [|done].
  destruct (Z.ltb_spec h (reference_clock_health_ms c)).
  { unfold checked_sub64. rewrite (proj2 (Z.leb_gt _ _)) by done. apply latch_then_throw. }
  rewrite checked_sub64_Some by done. unfold mbind at 1, stm_bind at 1, liftS, checked_add64.
  fold (expected_wall c h). destruct (Z.ltb_spec MAX64 (expected_wall c h)).
  { by rewrite (proj2 (Z.leb_gt _ _)) by done. }
  rewrite (proj2 (Z.leb_le _ _)) by done. cbn [ok_or]. unfold abs_diff64.
  destruct (Z.ltb_spec CONTROL_PLANE_CLOCK_SKEW_BUDGET_MS (Z.abs (wall - expected_wall c h))).
  - rewrite latch_then_throw. by destruct (wall <? expected_wall c h).
  - exfalso. apply Hno. split; [done|]. exists h. eauto.
Qed.

(** What a reading that contradicts an established clock leaves: the gate closed
    under a new generation; or the clock as it was, because there is no generation
    left or because the expected time cannot be computed. *)
Definition contradicted (c c' : ControlPlaneAuthorityClock) (health : option Z) (e : ControlPlaneError) : Prop :=
  (generation c < MAX64 /\ established c' = false /\ generation c' = generation c + 1) \/
  (generation c = MAX64 /\ e = AuthorityClockGenerationOverflow /\ c' = c) \/
  (e = LeaseDeadlineOverflow /\ c' = c /\
   exists h, health = Some h /\ reference_clock_health_ms c <= h /\ MAX64 < expected_wall c h).

Lemma latch_answer_contradicted reason e0 c health :
  clock_ok c -> established c = true ->
  contradicted c (latch_answer reason e0 c).2 health (latch_answer reason e0 c).1.
Proof.
  intros (_ & _ & _ & Hg) Hest. unfold contradicted, latch_answer, exhausted, latched, takes_generation.
  rewrite Hest. cbn [orb andb]. destruct (Z.leb_spec MAX64 (generation c)); simpl; [right; left|left]; split; done || lia.
Qed.

(** C24: the gate lets a timestamp pass exactly when the clock is established and the
    reading agrees with its reference within the skew budget; the timestamp is then
    the wall time or the largest timestamp seen so far, whichever is later, and
    becomes that largest timestamp.  Every other reading is refused with the error
    that names its cause.  One that contradicts an established clock closes the gate
    under a new generation, with two exceptions, in which the clock is left
    established as it was: at the last generation, which is reported as an overflow
    of the generation, and where the expected wall time passes 64 bits. *)
Theorem authority_clock_gate c wall health :
  clock_ok c ->
  (established c = true /\ on_line c wall health ->
   let now := Z.max wall (default wall (minimum_timestamp_ms c)) in
   effective_now_ms wall health c = (Ok now, set_minimum (Some now) c)) /\
  (~ (established c = true /\ on_line c wall health) ->
   let '(e, c') := refusal c wall health in
   effective_now_ms wall health c = (Err e, c') /\ (established c = true -> contradicted c c' health e)).
Proof.
  intros Hok. split; [intros [Hest Hl]; by apply effective_now_accepts|].
  intros Hno. pose proof (effective_now_refuses c wall health Hno) as He.
  assert (established c = true -> contradicted c (refusal c wall health).2 health (refusal c wall health).1) as Hc.
  { intros Hest. unfold refusal. destruct health as [h|]; [|by apply latch_answer_contradicted].
    rewrite Hest. cbn [negb]. destruct (Z.ltb_spec h (reference_clock_health_ms c)); [by apply latch_answer_contradicted|].
    destruct (Z.ltb_spec MAX64 (expected_wall c h)); [right; right; eauto 6|].
    destruct (wall <? expected_wall c h); by apply latch_answer_contradicted. }
  by destruct (refusal c wall health).
Qed.

(** ** What a generation stands for *)

Inductive clock_op :=
| OpNow (wall : Z) (health : option Z)
| OpObserve (context : ControlPlaneAuthorityClockContext) (wall : Z) (health : option Z)
| OpReestablish (expected : Z) (high_water term : option Z) (context : ControlPlaneAuthorityClockContext)
    (wall : Z) (health : option Z)
| OpBindTerm (term : option Z)
| OpHighWater (timestamp : option Z)
| OpTerm (term : Z)
| OpFailClosed
| OpAdvancePast (previous : LeaseHorizonAuthorityBinding)
| OpResume (previous : LeaseHorizonAuthorityBinding)
| OpCheckpoint (b : ControlPlaneAuthorityClockCheckpointBinding) (high_water : option Z)
    (wall : Z) (health : option Z).

(** The clock after an operation, whatever it returns *)
Definition run_op (c : ControlPlaneAuthorityClock) (o : clock_op) : ControlPlaneAuthorityClock :=
  match o with
  | OpNow w h => snd (effective_now_ms w h c)
  | OpObserve ctx w h => snd (observe_status ctx w h c)
  | OpReestablish g hw t ctx w h => snd (reestablish g hw t ctx w h c)
  | OpBindTerm t => snd (bind_initial_raft_leadership_term t c)
  | OpHighWater t => snd (observe_committed_timestamp_high_water t c)
  | OpTerm t => snd (validate_raft_leadership_term t c)
  | OpFailClosed => snd (fail_closed_after_checkpoint_persistence_failure c)
  | OpAdvancePast b => snd (advance_generation_past_lease_horizon b c)
  | OpResume b => snd (resume_single_authority_lease_horizon_generation b c)
  | OpCheckpoint b hw w h => snd (validated_authority_clock_restart_checkpoint b hw w h c)
  end.

Definition run_ops : ControlPlaneAuthorityClock -> list clock_op -> ControlPlaneAuthorityClock :=
  foldl run_op.

Definition same_reference (c c' : ControlPlaneAuthorityClock) : Prop :=
  reference_wall_ms c' = reference_wall_ms c /\
  reference_clock_health_ms c' = reference_clock_health_ms c.

Definition minimum_grows (c c' : ControlPlaneAuthorityClock) : Prop :=
  forall m, minimum_timestamp_ms c = Some m ->
    exists m', minimum_timestamp_ms c' = Some m' /\ m <= m'.

(** How an operation may change a clock *)
Definition follows (c c' : ControlPlaneAuthorityClock) : Prop :=
  generation c <= generation c' /\
  (established c <> established c' -> generation c < generation c') /\
  (established c = true -> generation c' = generation c -> same_reference c c' /\ minimum_grows c c').

#[global] Instance follows_preorder : PreOrder follows.
Proof.
  split.
  - intros c. split; [lia|]. split; [done|]. intros. split; [done|]. intros m ->. eexists; split; [done|lia].
  - intros c c1 c2 (Hg1 & Hd1 & Hr1) (Hg2 & Hd2 & Hr2). split; [lia|]. split.
    + intros Hne. destruct (decide (established c = established c1)) as [He|He].
      * rewrite He in Hne. specialize (Hd2 Hne). lia.
      * specialize (Hd1 He). lia.
    + intros Hest Heq. assert (generation c1 = generation c) by lia. assert (generation c2 = generation c1) by lia.
      assert (established c1 = true) as Hest1.
      { destruct (established c1) eqn:He1; [done|]. assert (established c <> established c1) by congruence.
        rewrite Hest in Hd1. specialize (Hd1 ltac:(done)). lia. }
      destruct (Hr1 Hest ltac:(done)) as [[R1 R2] M1]. destruct (Hr2 Hest1 ltac:(done)) as [[R3 R4] M2].
      split; [split; congruence|]. intros m Hm. destruct (M1 _ Hm) as (m1 & Hm1 & ?).
      destruct (M2 _ Hm1) as (m2 & ? & ?). exists m2. split; [done|lia].
Qed.

(** A change of fields the relation does not mention *)
Lemma follows_same c c' :
  generation c' = generation c -> established c' = established c -> same_reference c c' ->
  minimum_timestamp_ms c' = minimum_timestamp_ms c -> follows c c'.
Proof.
  intros Hg He Hr Hm. split; [lia|]. split; [congruence|]. intros _ _. split; [done|].
  intros m ?. exists m. split; [congruence|lia].
Qed.

Lemma follows_set_minimum c t :
  (forall m, minimum_timestamp_ms c = Some m -> m <= t) -> follows c (set_minimum (Some t) c).
Proof.
  intros Ht. split; [simpl; lia|]. split; [done|]. intros _ _. split; [done|].
  intros m Hm. exists t. split; [done|auto].
Qed.

Lemma keeps_latch reason : keeps follows (latch_unhealthy reason).
Proof.
  intros c. unfold latch_unhealthy, advance_generation, mbind, stm_bind, gets, id, liftS, checked_add64.
  destruct (established c) eqn:He; cbn [orb].
  - destruct (_ <=? _); simpl; [|reflexivity]. split; [simpl; lia|]. split; simpl; intros; lia.
  - destruct (negb _); [|by apply follows_same].
    destruct (_ <=? _); simpl; [|reflexivity]. split; [simpl; lia|]. split; simpl; [congruence|intros; lia].
Qed.

#[local] Hint Resolve keeps_latch : keeps.
#[local] Hint Unfold throw : keeps.

Lemma keeps_effective_now w h : keeps follows (effective_now_ms w h).
Proof.
  intros c. destruct h as [h|]; [|apply (keeps_at follows); unfold effective_now_ms; eauto with keeps typeclass_instances]. apply (keeps_gets_bind follows). unfold id.
  destruct (negb (established c)); [reflexivity|].
  destruct (checked_sub64 _ _); [|apply (keeps_at follows); eauto with keeps typeclass_instances].
  apply (keeps_lift_bind follows). intros e _. destruct (_ <? _); [apply (keeps_at follows); eauto with keeps typeclass_instances|].
  apply (keeps_bind_at follows); [|eauto with keeps typeclass_instances]. apply follows_set_minimum. intros m Hm. rewrite Hm. simpl. lia.
Qed.
#[local] Hint Resolve keeps_effective_now : keeps.

Lemma keeps_validate_term t : keeps follows (validate_raft_leadership_term t).
Proof.
  intros c. apply (keeps_gets_bind follows). unfold id. case_match; [reflexivity|]. case_match; [by apply follows_same|].
  apply (keeps_at follows). eauto with keeps typeclass_instances.
Qed.
#[local] Hint Resolve keeps_validate_term : keeps.

Lemma keeps_high_water t : keeps follows (observe_committed_timestamp_high_water t).
Proof.
  apply (keeps_modify follows). intros c. destruct t; [|reflexivity]. apply follows_set_minimum. intros m ->. lia.
Qed.
#[local] Hint Resolve keeps_high_water : keeps.

Lemma keeps_report {A} ctx (m : stm ControlPlaneAuthorityClock ControlPlaneError A) k :
  keeps follows m -> keeps follows k -> keeps follows (report_unestablished ctx m k).
Proof.
  intros Hm Hk c. specialize (Hm c). unfold report_unestablished.
  destruct (m c) as [[a|e|] c1]; simpl in *; [by etrans|by destruct (established c1)|done].
Qed.

Lemma keeps_observe ctx w h : keeps follows (observe_status ctx w h).
Proof.
  apply (keeps_bind follows); [apply keeps_high_water|]. intros _.
  destruct (current_raft_leadership_term ctx); repeat apply keeps_report; eauto with keeps typeclass_instances.
Qed.

Lemma keeps_reestablish g hw t ctx w h : keeps follows (reestablish g hw t ctx w h).
Proof.
  intros c. apply (keeps_gets_bind follows). unfold id. do 7 (apply (keeps_lift_bind follows); intros ? _).
  apply (keeps_lift_bind follows). intros next Hn. apply (keeps_bind_at follows); [|eauto with keeps typeclass_instances].
  unfold checked_add64 in *. destruct (Z.leb_spec (generation c + 1) MAX64); [|done]. injection Hn as <-.
  split; simpl; [lia|]. split; [lia|intros; lia].
Qed.

Lemma run_op_follows c o : follows c (run_op c o).
Proof.
  destruct o; simpl; try (apply keeps_effective_now || apply keeps_observe || apply keeps_reestablish
    || apply keeps_high_water || apply keeps_validate_term || apply keeps_latch); try by apply follows_same.
  - apply (keeps_lift_bind follows). intros next _. split; simpl; [lia|]. split; [done|].
    intros _ _. split; [done|]. intros m ?. exists m. split; [done|lia].
  - unfold resume_single_authority_lease_horizon_generation. case_match; [reflexivity|by apply follows_same].
  - apply (keeps_bind_at follows); [apply keeps_effective_now|]. eauto with keeps typeclass_instances.
Qed.

Lemma run_ops_follows ops c : follows c (run_ops c ops).
Proof.
  revert c. induction ops as [|o ops IH]; intros c; simpl; [reflexivity|].
  etrans; [apply run_op_follows|apply IH].
Qed.

Lemma run_ops_app c pre post : run_ops c (pre ++ post) = run_ops (run_ops c pre) post.
Proof. apply foldl_app. Qed.

Lemma binding_Ok c t b :
  lease_horizon_authority_binding c t = Ok b ->
  established c = true /\ raft_leadership_term c = t /\ b = {| clock_generation := generation c; raft_term := t |}.
Proof.
  unfold lease_horizon_authority_binding, checked_new. destruct (established c); [|discriminate].
  destruct (bool_decide_reflect (raft_leadership_term c = t)); [|discriminate]. cbn.
  destruct (_ || _); cbn [ok_or]; [discriminate|]. by intros [= <-].
Qed.

(** C25: the identity under which leases are granted stands for one reference of the
    clock.  When the clock reports the same identity at the two ends of a run of
    operations, in any order and with any results, it was established all the time
    between, kept its reference and term, and its timestamps did not go back. *)
Theorem clock_identity_keeps_reference c ops t t' b :
  lease_horizon_authority_binding c t = Ok b ->
  lease_horizon_authority_binding (run_ops c ops) t' = Ok b ->
  raft_leadership_term (run_ops c ops) = raft_leadership_term c /\
  minimum_grows c (run_ops c ops) /\
  forall pre post, ops = pre ++ post ->
    established (run_ops c pre) = true /\ generation (run_ops c pre) = generation c /\
    same_reference c (run_ops c pre).
Proof.
  intros (He & Ht & ->)%binding_Ok (He' & Ht' & Hb)%binding_Ok. injection Hb as Hg Htt.
  split; [congruence|]. split; [by apply run_ops_follows|]. intros pre post ->.
  rewrite run_ops_app in *.
  destruct (run_ops_follows pre c) as (Hg1 & Hd1 & Hr1).
  destruct (run_ops_follows post (run_ops c pre)) as (Hg2 & Hd2 & _).
  assert (established (run_ops c pre) = true) as Hpre.
  { destruct (established (run_ops c pre)); [done|]. rewrite He in Hd1. specialize (Hd1 ltac:(done)). lia. }
  split; [done|]. assert (generation (run_ops c pre) = generation c) by lia. by split; [|apply Hr1].
Qed.

(** ** Examples *)

Definition sample_clock : ControlPlaneAuthorityClock :=
  {| reference_wall_ms := 1700000000000; reference_clock_health_ms := 5000; minimum_timestamp_ms := Some 1700000000700;
     raft_leadership_term := Some 3; initial_raft_term_binding_available := false; established := true;
     generation := 7; blocked_reason := None; restart_continuity_generation := None |}.

Lemma sample_clock_ok : clock_ok sample_clock.
Proof. repeat split; vm_compute; congruence. Qed.

(** The same clock at the last generation *)
Definition last_generation : ControlPlaneAuthorityClock := set_generation MAX64 sample_clock.

Lemma last_generation_ok : clock_ok last_generation.
Proof. repeat split; vm_compute; congruence. Qed.

(** Half a second later the timestamp is the largest one seen; a wall clock that is
    two seconds ahead closes the gate, but not at the last generation. *)
Lemma authority_clock_gate_witness :
  effective_now_ms 1700000000510 (Some 5500) sample_clock =
    (Ok 1700000000700, set_minimum (Some 1700000000700) sample_clock) /\
  (exists e c', effective_now_ms 1700000002501 (Some 5500) sample_clock = (Err e, c') /\
     contradicted sample_clock c' (Some 5500) e /\ established c' = false /\ generation c' = 8) /\
  effective_now_ms 1700000002501 (Some 5500) last_generation = (Err AuthorityClockGenerationOverflow, last_generation).
Proof.
  assert (forall c, reference_wall_ms c = 1700000000000 -> reference_clock_health_ms c = 5000 ->
    ~ (established c = true /\ on_line c 1700000002501 (Some 5500))) as Hoff.
  { intros c Hw Hh [_ (h & [= <-] & _ & _ & Hs)]. unfold expected_wall in Hs. rewrite Hw, Hh in Hs. by vm_compute in Hs. }
  split; [|split].
  - refine (proj1 (authority_clock_gate sample_clock 1700000000510 (Some 5500) sample_clock_ok) _). split; [done|].
    exists 5500. repeat split; vm_compute; congruence.
  - pose proof (proj2 (authority_clock_gate sample_clock 1700000002501 (Some 5500) sample_clock_ok)
      (Hoff sample_clock eq_refl eq_refl)) as Hg.
    destruct (refusal sample_clock 1700000002501 (Some 5500)) as [e c'] eqn:Hr. destruct Hg as [He Hc].
    exists e, c'. split; [exact He|]. split; [by apply Hc|]. vm_compute in Hr. by injection Hr as <- <-.
  - pose proof (proj2 (authority_clock_gate last_generation 1700000002501 (Some 5500) last_generation_ok)
      (Hoff last_generation eq_refl eq_refl)) as Hg.
    destruct (refusal last_generation 1700000002501 (Some 5500)) as [e c'] eqn:Hr. destruct Hg as [He _].
    rewrite He. vm_compute in Hr. by injection Hr as <- <-.
Defined.

(** A checkpoint and a timestamp do not change what the identity stands for. *)
Lemma clock_identity_keeps_reference_witness :
  let ops := [OpNow 1700000000510 (Some 5500); OpCheckpoint (repeat Byte.x42 32) None 1700000000900 (Some 5900)] in
  same_reference sample_clock (run_ops sample_clock ops).
Proof.
  intros ops.
  eapply (clock_identity_keeps_reference sample_clock ops (Some 3) (Some 3)
    {| clock_generation := 7; raft_term := Some 3 |}) with (post := []);
    [reflexivity|vm_compute; reflexivity|by rewrite app_nil_r].
Defined.

End ClockSpec.
