(* ===== verification/ClockFiles.v ===== *)
(** The files beside the control-plane state, proofs: the clock checkpoint, the
    identity and the initialization marker. *)

From Stdlib Require Import ZifyBool.
From stdpp Require Import strings.
From S2P Require Import Prelude Machine Clmul Crc64Api Journal JournalOwners JournalSpec Lease AuthorityClock.

Local Open Scope Z_scope.

Module ClockFiles.
Import Machine Lease AuthorityClock.

Section codec.
Context `{Checksum64}.

Lemma Ok_inj {E A} (a b : A) : Ok (E:=E) a = Ok b -> a = b.
Proof. congruence. Qed.

Lemma len_be w n : len (Journal.to_be_bytes w n) = Z.of_nat w.
Proof. unfold len. by rewrite JournalSpec.length_to_be_bytes. Qed.

Lemma be_u64 n : is_u64 n -> Journal.from_be_bytes (Journal.to_be_bytes 8 n) = n.
Proof. intros. apply JournalSpec.from_to_be_bytes. unfold is_u64, MAX64 in *. lia. Qed.

Lemma be_len8 l : len l = 8 -> Journal.to_be_bytes 8 (Journal.from_be_bytes l) = l /\ is_u64 (Journal.from_be_bytes l).
Proof.
  unfold len. intros Hl. split; [apply JournalSpec.to_be_bytes_eq; lia|].
  pose proof (JournalSpec.from_be_bytes_range 8 l ltac:(lia)). unfold is_u64, MAX64. lia.
Qed.

(** A list of the length of two parts is two parts. *)
Lemma split_len {A} n k (l : list A) :
  0 <= n -> 0 <= k -> len l = n + k -> exists a b, l = a ++ b /\ len a = n /\ len b = k.
Proof.
  intros. exists (takeZ n l), (dropZ n l). rewrite take_dropZ, len_takeZ, len_dropZ by lia. repeat split; lia.
Qed.

(** The fields of a checkpoint file, and what decoding does with them *)
Definition fields (m v b g t ts w h : list byte) : Prop :=
  len m = 8 /\ len v = 2 /\ len b = 32 /\ len g = 8 /\ len t = 1 /\ len ts = 8 /\ len w = 8 /\ len h = 8.

Definition check_fields (m v : list byte) (b : ControlPlaneAuthorityClockCheckpointBinding)
    (g t ts w h : list byte) (expected : ControlPlaneAuthorityClockCheckpointBinding) :
    outcome DecodeError ControlPlaneAuthorityClockRestartCheckpoint :=
  let invalid s := Invalid (AuthorityClockCheckpoint s) in
  _ ← guard_err (negb (bool_decide (m = CONTROL_PLANE_CLOCK_CHECKPOINT_MAGIC))) (Format UnknownMagic);
  _ ← guard_err (negb (Journal.from_be_bytes v =? CONTROL_PLANE_CLOCK_CHECKPOINT_VERSION))
        (Format (UnsupportedVersion (Journal.from_be_bytes v)));
  _ ← guard_err (negb (bool_decide (b = expected)))
        (invalid "checkpoint durable-state identity does not match this authority"%string);
  _ ← guard_err (Journal.from_be_bytes g =? 0) (invalid "checkpoint authority generation must be nonzero"%string);
  tag ← unwrap (t !! 0%nat);
  hw ← (if bool_decide (tag = Byte.x00)
        then if Journal.from_be_bytes ts =? 0 then Ok None
             else Err (invalid "absent checkpoint timestamp must use canonical zero value"%string)
        else if bool_decide (tag = Byte.x01) then Ok (Some (Journal.from_be_bytes ts))
        else Err (invalid "invalid checkpoint timestamp option tag"%string));
  mret {| binding := b; authority_generation := Journal.from_be_bytes g;
          committed_timestamp_high_water_ms := hw;
          checkpoint_wall_time_ms := Journal.from_be_bytes w;
          checkpoint_health_time_ms := Journal.from_be_bytes h |}.

Lemma take_bytes_step {A} body n (k : list byte -> stm Z DecodeError A) off pre m post :
  body = pre ++ m ++ post -> off = len pre -> n = len m -> len body <= MAX64 ->
  (take_bytes body n ≫= k) off = k m (off + n).
Proof.
  intros Hb -> -> Hmax. unfold mbind, stm_bind, take_bytes. rewrite checked_add64_Some.
  - rewrite Hb. by rewrite (get_range_app pre m post).
  - pose proof (len_nonneg post). rewrite Hb, !len_app in Hmax. lia.
Qed.

Lemma guard_step {A} c e (k : () -> stm Z DecodeError A) off :
  (liftS (guard_err c e) ≫= k) off = if c then (Err e, off) else k () off.
Proof. by destruct c. Qed.

Lemma ok_step {A B} (a : A) (k : A -> stm Z DecodeError B) off : (liftS (Ok a) ≫= k) off = k a off.
Proof. done. Qed.

Ltac field pre m post :=
  rewrite (take_bytes_step _ _ _ _ pre m post)
    by first [done | rewrite ?len_app; unfold CONTROL_PLANE_CLOCK_CHECKPOINT_BINDING_LEN; lia
             | by rewrite <-?app_assoc, ?app_nil_r].
Ltac check_field :=
  rewrite guard_step; lazymatch goal with |- fst (if ?c then _ else _) = _ => destruct c end; [done|];
  cbn [mbind outcome_bind guard_err].

Lemma decode_body_fields m v b g t ts w h expected :
  fields m v b g t ts w h ->
  fst (decode_body (m ++ v ++ b ++ g ++ t ++ ts ++ w ++ h) expected 0) = check_fields m v b g t ts w h expected.
Proof.
  intros (Hm & Hv & Hb & Hg & Ht & Hts & Hw & Hh). set (body := m ++ _).
  assert (len body = 75) as Hbody by (unfold body; rewrite !len_app; lia).
  assert (len body <= MAX64) by (rewrite Hbody; done).
  unfold decode_body, check_fields. change (len CONTROL_PLANE_CLOCK_CHECKPOINT_MAGIC) with 8.
  field (@nil byte) m (v ++ b ++ g ++ t ++ ts ++ w ++ h). check_field.
  field m v (b ++ g ++ t ++ ts ++ w ++ h).
  check_field.
  field (m ++ v) b (g ++ t ++ ts ++ w ++ h). check_field.
  field (m ++ v ++ b) g (t ++ ts ++ w ++ h). check_field.
  field (m ++ v ++ b ++ g) t (ts ++ w ++ h). field (m ++ v ++ b ++ g ++ t) ts (w ++ h).
  destruct (t !! 0%nat) as [tag|]; [|done]. cbn [unwrap]. rewrite ok_step. cbn [mbind outcome_bind].
  assert (forall hw, fst ((take_bytes body 8 ≫= fun w' => take_bytes body 8 ≫= fun h' =>
      gets (A:=Z) id ≫= fun offset =>
      liftS (guard_err (negb (offset =? len body))
               (Invalid (AuthorityClockCheckpoint "checkpoint has trailing bytes"))) ≫= fun _ =>
      mret {| binding := b; authority_generation := Journal.from_be_bytes g;
              committed_timestamp_high_water_ms := hw;
              checkpoint_wall_time_ms := Journal.from_be_bytes w';
              checkpoint_health_time_ms := Journal.from_be_bytes h' |}) (0 + 8 + 2 + 32 + 8 + 1 + 8)) =
    Ok {| binding := b; authority_generation := Journal.from_be_bytes g;
          committed_timestamp_high_water_ms := hw;
          checkpoint_wall_time_ms := Journal.from_be_bytes w;
          checkpoint_health_time_ms := Journal.from_be_bytes h |}) as Hend.
  { intros hw. field (m ++ v ++ b ++ g ++ t ++ ts) w h.
    field (m ++ v ++ b ++ g ++ t ++ ts ++ w) h (@nil byte).
    unfold mbind at 1, stm_bind at 1, gets, id. rewrite guard_step, Hbody.
    rewrite (proj2 (Z.eqb_eq _ _)) by lia. done. }
  destruct (bool_decide (tag = Byte.x00)).
  - destruct (_ =? 0); [apply Hend|done].
  - destruct (bool_decide (tag = Byte.x01)); [apply Hend|done].
Qed.

(** *** What is accepted *)

Definition well_formed (c : ControlPlaneAuthorityClockRestartCheckpoint) : Prop :=
  len (binding c) = 32 /\ 0 < authority_generation c <= MAX64 /\
  (forall t, committed_timestamp_high_water_ms c = Some t -> is_u64 t) /\
  is_u64 (checkpoint_wall_time_ms c) /\ is_u64 (checkpoint_health_time_ms c).

Definition high_water_fields (o : option Z) : list byte * list byte :=
  match o with
  | Some t => ([Byte.x01], Journal.to_be_bytes 8 t)
  | None => ([Byte.x00], Journal.to_be_bytes 8 0)
  end.

Definition body_of (c : ControlPlaneAuthorityClockRestartCheckpoint) : list byte :=
  CONTROL_PLANE_CLOCK_CHECKPOINT_MAGIC ++ Journal.to_be_bytes 2 CONTROL_PLANE_CLOCK_CHECKPOINT_VERSION
  ++ binding c ++ Journal.to_be_bytes 8 (authority_generation c)
  ++ fst (high_water_fields (committed_timestamp_high_water_ms c))
  ++ snd (high_water_fields (committed_timestamp_high_water_ms c))
  ++ Journal.to_be_bytes 8 (checkpoint_wall_time_ms c) ++ Journal.to_be_bytes 8 (checkpoint_health_time_ms c).

Lemma encode_Ok {E} c :
  encode (E:=E) c = Ok (body_of c ++ Journal.to_be_bytes 8 (checksum64_value (body_of c))).
Proof.
  unfold encode.
  replace (match committed_timestamp_high_water_ms c with Some t => _ | None => _ end)
    with (fst (high_water_fields (committed_timestamp_high_water_ms c))
          ++ snd (high_water_fields (committed_timestamp_high_water_ms c)))
    by (by destruct (committed_timestamp_high_water_ms c)).
  cbv zeta. rewrite <-!app_assoc. fold (body_of c). by rewrite checksum64_total.
Qed.

Lemma fields_of c :
  well_formed c ->
  fields CONTROL_PLANE_CLOCK_CHECKPOINT_MAGIC (Journal.to_be_bytes 2 CONTROL_PLANE_CLOCK_CHECKPOINT_VERSION)
    (binding c) (Journal.to_be_bytes 8 (authority_generation c))
    (fst (high_water_fields (committed_timestamp_high_water_ms c)))
    (snd (high_water_fields (committed_timestamp_high_water_ms c)))
    (Journal.to_be_bytes 8 (checkpoint_wall_time_ms c)) (Journal.to_be_bytes 8 (checkpoint_health_time_ms c)).
Proof.
  intros [Hb _]. unfold fields. rewrite !len_be.
  destruct (committed_timestamp_high_water_ms c); cbn [high_water_fields fst snd]; by rewrite len_be.
Qed.

Lemma fields_len m v b g t ts w h :
  fields m v b g t ts w h -> len (m ++ v ++ b ++ g ++ t ++ ts ++ w ++ h) = 75.
Proof. unfold fields. rewrite !len_app. lia. Qed.

Lemma split_fields l :
  len l = 75 -> exists m v b g t ts w h, l = m ++ v ++ b ++ g ++ t ++ ts ++ w ++ h /\ fields m v b g t ts w h.
Proof.
  intros Hl. destruct (split_len 8 67 l) as (m & l1 & -> & ? & Hl1); [lia..|].
  destruct (split_len 2 65 l1) as (v & l2 & -> & ? & Hl2); [lia..|].
  destruct (split_len 32 33 l2) as (b & l3 & -> & ? & Hl3); [lia..|].
  destruct (split_len 8 25 l3) as (g & l4 & -> & ? & Hl4); [lia..|].
  destruct (split_len 1 24 l4) as (t & l5 & -> & ? & Hl5); [lia..|].
  destruct (split_len 8 16 l5) as (ts & l6 & -> & ? & Hl6); [lia..|].
  destruct (split_len 8 8 l6) as (w & h & -> & ? & Hl7); [lia..|].
  by exists m, v, b, g, t, ts, w, h.
Qed.

Lemma decode_split body sum expected :
  len body = 75 -> len sum = 8 ->
  decode_classified (body ++ sum) expected =
  if checksum64_value body =? Journal.from_be_bytes sum then fst (decode_body body expected 0)
  else Err (Invalid (AuthorityClockCheckpoint "checkpoint checksum mismatch")).
Proof.
  intros Hb Hs. unfold decode_classified, CONTROL_PLANE_CLOCK_CHECKPOINT_CHECKSUM_LEN.
  rewrite !len_app, Hb, Hs. cbn -[takeZ dropZ decode_body].
  rewrite takeZ_app, dropZ_app by lia. rewrite checksum64_total. cbn [mbind outcome_bind].
  by destruct (_ =? _).
Qed.

Lemma check_fields_sound m v b g t ts w h expected c :
  fields m v b g t ts w h -> check_fields m v b g t ts w h expected = Ok c ->
  well_formed c /\ binding c = expected /\ m ++ v ++ b ++ g ++ t ++ ts ++ w ++ h = body_of c.
Proof.
  intros (Hm & Hv & Hb & Hg & Ht & Hts & Hw & Hh). unfold check_fields.
  destruct (bool_decide_reflect (m = CONTROL_PLANE_CLOCK_CHECKPOINT_MAGIC)) as [Hmagic|]; [|done].
  destruct (Z.eqb_spec (Journal.from_be_bytes v) CONTROL_PLANE_CLOCK_CHECKPOINT_VERSION) as [Hver|]; [|done].
  destruct (bool_decide_reflect (b = expected :> ControlPlaneAuthorityClockCheckpointBinding)) as [Hbind|]; [|done].
  destruct (Z.eqb_spec (Journal.from_be_bytes g) 0) as [|Hgen]; [done|].
  cbn [guard_err mbind outcome_bind negb]. destruct t as [|tag [|? t]]; [done| |unfold len in Ht; simpl in Ht; lia].
  cbn [lookup list_lookup unwrap mbind outcome_bind].
  destruct (be_len8 g Hg) as [Eg Rg], (be_len8 ts Hts) as [Ets Rts], (be_len8 w Hw) as [Ew Rw], (be_len8 h Hh) as [Eh Rh].
  assert (v = Journal.to_be_bytes 2 CONTROL_PLANE_CLOCK_CHECKPOINT_VERSION) as Ev.
  { rewrite <-Hver. symmetry. apply JournalSpec.to_be_bytes_eq. unfold len in Hv. lia. }
  assert (forall hw, [tag] = fst (high_water_fields hw) -> ts = snd (high_water_fields hw) ->
    (forall t, hw = Some t -> is_u64 t) ->
    Ok {| binding := b; authority_generation := Journal.from_be_bytes g; committed_timestamp_high_water_ms := hw;
          checkpoint_wall_time_ms := Journal.from_be_bytes w; checkpoint_health_time_ms := Journal.from_be_bytes h |} = Ok (E:=DecodeError) c ->
    well_formed c /\ binding c = expected /\ m ++ v ++ b ++ g ++ [tag] ++ ts ++ w ++ h = body_of c) as Hend.
  { intros hw E1 E2 Hu [= <-]. unfold well_formed, body_of, is_u64 in *. cbn. rewrite <-E1, <-E2, Eg, Ew, Eh, <-Ev, Hmagic.
    repeat split; try done; try lia; try by apply Hu. }
  destruct (bool_decide_reflect (tag = Byte.x00)) as [H0|];
    [|destruct (bool_decide_reflect (tag = Byte.x01)) as [H1|]; [|done]].
  + destruct (Z.eqb_spec (Journal.from_be_bytes ts) 0) as [Ez|]; [|done]. apply Hend; cbn; [by subst|by rewrite <-Ez|done].
  + apply Hend; cbn; [by subst|done|by intros ? [= <-]].
Qed.

Lemma check_fields_complete m v b g t ts w h expected c :
  fields m v b g t ts w h ->
  well_formed c -> binding c = expected -> m ++ v ++ b ++ g ++ t ++ ts ++ w ++ h = body_of c ->
  check_fields m v b g t ts w h expected = Ok c.
Proof.
  intros Hf Hw He Heq. pose proof (fields_of c Hw) as Hf'. revert Heq. unfold body_of.
  destruct Hf as (Hm & Hv & Hb & Hg & Ht & Hts & Hw' & Hh).
  destruct Hf' as (Hm' & Hv' & Hb' & Hg' & Ht' & Hts' & Hw'' & Hh').
  intros Heq. unfold len in *.
  do 7 (apply app_inj_1 in Heq as [-> Heq]; [|lia]). rewrite Heq. unfold check_fields.
  destruct Hw as (_ & Hgen & Hhw & Hwall & Hhealth).
  rewrite (bool_decide_eq_true_2 _ eq_refl). cbn [negb guard_err mbind outcome_bind].
  rewrite (JournalSpec.from_to_be_bytes 2) by (vm_compute; split; congruence). rewrite Z.eqb_refl.
  cbn [negb guard_err mbind outcome_bind].
  rewrite (bool_decide_eq_true_2 _ He). cbn [negb guard_err mbind outcome_bind].
  rewrite !be_u64 by (done || unfold is_u64; lia). 
  rewrite (proj2 (Z.eqb_neq (authority_generation c) 0)) by lia. cbn [guard_err mbind outcome_bind].
  destruct c as [cb cg [hw|] cw ch]; cbn in *; rewrite be_u64 by (auto; unfold is_u64, MAX64; lia); by rewrite <-?He.
Qed.

Lemma load_Some bytes expected c :
  load_authority_clock_restart_checkpoint_for_startup (Some bytes) expected = Ok (Some c) <->
  decode_classified bytes expected = Ok c.
Proof.
  unfold load_authority_clock_restart_checkpoint_for_startup.
  destruct (decode_classified bytes expected) as [|[[]|[]]|]; split; congruence.
Qed.

(** Decoding reads the fields of a file of the right length; others it refuses. *)
Lemma decode_shape bytes expected :
  (exists m v b g t ts w h sum,
     bytes = (m ++ v ++ b ++ g ++ t ++ ts ++ w ++ h) ++ sum /\ fields m v b g t ts w h /\ len sum = 8 /\
     decode_classified bytes expected =
     if checksum64_value (m ++ v ++ b ++ g ++ t ++ ts ++ w ++ h) =? Journal.from_be_bytes sum
     then check_fields m v b g t ts w h expected
     else Err (Invalid (AuthorityClockCheckpoint "checkpoint checksum mismatch"))) \/
  (len bytes <> CONTROL_PLANE_CLOCK_CHECKPOINT_LEN /\ exists e, decode_classified bytes expected = Err e).
Proof.
  destruct (decide (len bytes = 83)) as [Hl|Hl]; [left|right].
  - destruct (split_len 75 8 bytes) as (body & sum & -> & Hb & Hs); [lia..|].
    destruct (split_fields body Hb) as (m & v & b & g & t & ts & w & h & -> & Hf).
    exists m, v, b, g, t, ts, w, h, sum. rewrite decode_split, decode_body_fields by done. done.
  - split; [done|]. unfold decode_classified. change CONTROL_PLANE_CLOCK_CHECKPOINT_LEN with 83.
    destruct (len bytes <? 83); [by eexists|]. rewrite (proj2 (Z.eqb_neq _ _)) by done. by eexists.
Qed.

Lemma guard_no_panic {E B} c (e : E) (k : () -> outcome E B) : k () <> Panic -> (guard_err c e ≫= k) <> Panic.
Proof. by destruct c. Qed.

Lemma check_fields_total m v b g t ts w h expected :
  len t = 1 -> check_fields m v b g t ts w h expected <> Panic.
Proof.
  intros Ht. unfold check_fields. destruct t as [|tag t]; [done|]. cbn [lookup list_lookup unwrap].
  do 4 (apply guard_no_panic). cbn [mbind outcome_bind].
  destruct (bool_decide (tag = Byte.x00)); [by destruct (_ =? 0)|by destruct (bool_decide _)].
Qed.

Lemma decode_no_panic bytes expected : decode_classified bytes expected <> Panic.
Proof.
  destruct (decode_shape bytes expected) as [(m & v & b & g & t & ts & w & h & sum & -> & Hf & Hs & ->)|(Hl & e & ->)];
    [|done]. destruct (_ =? _); [|done]. apply check_fields_total, Hf.
Qed.

Lemma decode_Ok bytes expected c :
  decode_classified bytes expected = Ok c <->
  well_formed c /\ binding c = expected /\ encode (E:=()) c = Ok bytes.
Proof.
  rewrite encode_Ok.
  destruct (decode_shape bytes expected) as [(m & v & b & g & t & ts & w & h & sum & -> & Hf & Hs & ->)|(Hl & e & ->)].
  - split.
    + destruct (Z.eqb_spec (checksum64_value (m ++ v ++ b ++ g ++ t ++ ts ++ w ++ h)) (Journal.from_be_bytes sum))
        as [Hsum|]; [|done]. intros (Hw & He & Hb)%check_fields_sound; [|done]. split; [done|]. split; [done|].
      rewrite <-Hb, Hsum. by rewrite (proj1 (be_len8 sum Hs)).
    + intros (Hw & He & Heq%Ok_inj). apply app_inj_2 in Heq as [Hb <-]; [|unfold len in Hs; rewrite JournalSpec.length_to_be_bytes; lia].
      rewrite Hb, be_u64 by (pose proof (checksum64_range (m ++ v ++ b ++ g ++ t ++ ts ++ w ++ h)); unfold is_u64, MAX64; lia).
      rewrite Z.eqb_refl. by apply check_fields_complete.
  - split; [done|]. intros (Hw & _ & <-%Ok_inj). exfalso. apply Hl.
    rewrite len_app, len_be. unfold body_of. by rewrite (fields_len _ _ _ _ _ _ _ _ (fields_of c Hw)).
Qed.

(** *** The identity file and the initialization marker *)

Definition binding_file_body (magic : list byte) (version : Z) (b : list byte) : list byte :=
  magic ++ Journal.to_be_bytes 2 version ++ b.

Lemma index_range_app {E A} (l m k : list A) a z :
  a = len l -> z = len l + len m -> index_range (E:=E) (l ++ m ++ k) a z = Ok m.
Proof. intros. unfold index_range. by rewrite (get_range_app l m k). Qed.

Lemma decode_binding_fields {E} magic version e1 e2 e3 e4 (e5 : Z -> E) m v b sum :
  len magic = 8 -> len m = 8 -> len v = 2 -> len b = 32 -> len sum = 8 ->
  decode_binding_file magic version 50 e1 e2 e3 e4 e5 ((m ++ v ++ b) ++ sum) =
  if negb (checksum64_value (m ++ v ++ b) =? Journal.from_be_bytes sum) then Err e3
  else if negb (bool_decide (m = magic)) then Err e4
  else if negb (Journal.from_be_bytes v =? version) then Err (e5 (Journal.from_be_bytes v))
  else Ok b.
Proof.
  intros Hmg Hm Hv Hb Hs. unfold decode_binding_file. rewrite !len_app, Hm, Hv, Hb, Hs, Hmg.
  change (8 + (2 + 32) + 8 <? 50) with false. change (8 + (2 + 32) + 8 =? 50) with true.
  cbn [guard_err negb mbind outcome_bind]. rewrite takeZ_app, dropZ_app by (rewrite !len_app; lia).
  rewrite checksum64_total. cbn [mbind outcome_bind]. destruct (negb (_ =? _)); [done|]. cbn [guard_err mbind outcome_bind].
  rewrite (index_range_app [] m (v ++ b) 0 8) by (unfold len in *; cbn [length]; lia). cbn [mbind outcome_bind].
  destruct (negb (bool_decide _)); [done|]. cbn [guard_err mbind outcome_bind].
  rewrite (index_range_app m v b 8 (8 + 2)) by lia. cbn [mbind outcome_bind].
  destruct (negb (_ =? version)); [done|]. cbn [guard_err mbind outcome_bind].
  replace (m ++ v ++ b) with ((m ++ v) ++ b ++ []) by by rewrite app_nil_r, <-app_assoc.
  rewrite (index_range_app (m ++ v) b []) by (rewrite ?app_nil_r, !len_app; lia).
  cbn [mbind outcome_bind]. rewrite Hb. done.
Qed.

Lemma binding_file_Ok {E} magic version e1 e2 e3 e4 (e5 : Z -> E) bytes b :
  len magic = 8 -> 0 <= version < 2 ^ 16 ->
  decode_binding_file magic version 50 e1 e2 e3 e4 e5 bytes = Ok b <->
  len b = 32 /\ encode_binding_file (E:=()) magic version b = Ok bytes.
Proof.
  intros Hmg Hver. unfold encode_binding_file. rewrite checksum64_total. fold (binding_file_body magic version b).
  cbn [mbind outcome_bind]. set (c := checksum64_value _).
  assert (is_u64 c) as Hc by (pose proof (checksum64_range (binding_file_body magic version b)); unfold is_u64, MAX64; fold c in H0; lia).
  split.
  - destruct (decide (len bytes = 50)) as [Hl|Hl].
    + destruct (split_len 8 42 bytes) as (m & l1 & -> & Hm & Hl1); [lia..|].
      destruct (split_len 2 40 l1) as (v & l2 & -> & Hv & Hl2); [lia..|].
      destruct (split_len 32 8 l2) as (b' & sum & -> & Hb & Hs); [lia..|].
      replace (m ++ v ++ b' ++ sum) with ((m ++ v ++ b') ++ sum) by by rewrite <-!app_assoc.
      rewrite decode_binding_fields by done. destruct (Z.eqb_spec (checksum64_value (m ++ v ++ b')) (Journal.from_be_bytes sum)) as [Hsum|]; [|done].
      destruct (bool_decide_reflect (m = magic)) as [Hmm|]; [|done].
      destruct (Z.eqb_spec (Journal.from_be_bytes v) version) as [Hvv|]; [|done]. intros [= <-].
      assert (v = Journal.to_be_bytes 2 version) as Ev.
      { rewrite <-Hvv. symmetry. apply JournalSpec.to_be_bytes_eq. unfold len in Hv. lia. }
      split; [done|]. unfold c, binding_file_body. rewrite <-Ev, <-Hmm, Hsum. by rewrite (proj1 (be_len8 sum Hs)).
    + unfold decode_binding_file. destruct (len bytes <? 50); [done|]. by rewrite (proj2 (Z.eqb_neq _ _)).
  - intros [Hb <-%Ok_inj]. unfold binding_file_body. rewrite decode_binding_fields by (rewrite ?len_be; done).
    fold (binding_file_body magic version b). fold c. rewrite be_u64, Z.eqb_refl by done.
    rewrite (bool_decide_eq_true_2 _ eq_refl), (JournalSpec.from_to_be_bytes 2), Z.eqb_refl by (change (2 ^ (8 * Z.of_nat 2)) with (2 ^ 16); lia). done.
Qed.

Lemma binding_files_disjoint {E} b b' bytes :
  encode_single_authority_clock_checkpoint_binding (E:=E) b = Ok bytes ->
  encode_single_authority_initialized_binding (E:=E) b' <> Ok bytes.
Proof.
  unfold encode_single_authority_clock_checkpoint_binding, encode_single_authority_initialized_binding,
    encode_binding_file. rewrite !checksum64_total. cbn [mbind outcome_bind]. intros <-%Ok_inj Heq%Ok_inj.
  apply (f_equal (take 8)) in Heq. vm_compute in Heq. discriminate.
Qed.

(** The files beside the control-plane state.  Decoding the restart checkpoint accepts exactly the encodings of
    well-formed checkpoints of the expected identity and returns what was encoded,
    a start uses a file under the same condition, and no content of the file makes
    it panic.  When up to eight adjacent bytes before the checksum are changed, the
    start goes on as if there were no checkpoint.  The identity file and the
    initialization marker, too, are accepted exactly if they are the encoding of what
    is returned. *)
Theorem clock_checkpoint_file bytes expected :
  (forall c, decode_classified bytes expected = Ok c <->
     well_formed c /\ binding c = expected /\ encode (E:=()) c = Ok bytes) /\
  (forall c, load_authority_clock_restart_checkpoint_for_startup (Some bytes) expected = Ok (Some c) <->
     decode_classified bytes expected = Ok c) /\
  load_authority_clock_restart_checkpoint_for_startup (Some bytes) expected <> Panic /\
  (forall c pre b1 b2 post sum, bytes = (pre ++ b2 ++ post) ++ sum -> well_formed c ->
     encode (E:=()) c = Ok ((pre ++ b1 ++ post) ++ sum) -> len sum = 8 ->
     length b1 = length b2 -> (length b1 <= 8)%nat -> b1 <> b2 ->
     load_authority_clock_restart_checkpoint_for_startup (Some bytes) expected = Ok None) /\
  (forall b, decode_single_authority_clock_checkpoint_binding bytes = Ok b <->
     len b = 32 /\ encode_single_authority_clock_checkpoint_binding (E:=()) b = Ok bytes) /\
  (forall b, decode_single_authority_initialized_binding bytes = Ok b <->
     len b = 32 /\ encode_single_authority_initialized_binding (E:=()) b = Ok bytes).
Proof.
  split; [apply decode_Ok|]. split; [intros; apply load_Some|].
  unfold load_authority_clock_restart_checkpoint_for_startup. split; [|split].
  - pose proof (decode_no_panic bytes expected). by destruct (decode_classified bytes expected) as [|[[]|[]]|].
  - intros c pre b1 b2 post sum -> Hw He Hs Hl H8 Hne. rewrite encode_Ok in He. apply Ok_inj in He.
    apply app_inj_2 in He as [Hb <-]; [|unfold len in Hs; rewrite JournalSpec.length_to_be_bytes; lia].
    rewrite decode_split; [|rewrite <-(fields_len _ _ _ _ _ _ _ _ (fields_of c Hw)); fold (body_of c); rewrite Hb, !len_app; unfold len; lia|done].
    rewrite be_u64 by (pose proof (checksum64_range (body_of c)); unfold is_u64, MAX64; lia).
    rewrite Hb, (proj2 (Z.eqb_neq _ _)); [done|]. intros Heq. symmetry in Heq. by apply checksum64_burst in Heq.
  - split; intros b; (refine (binding_file_Ok _ _ _ _ _ _ _ bytes b _ _); [reflexivity|vm_compute; split; congruence]).
Qed.

End codec.

(** A checkpoint of generation 7, and the CRC-64 of the checksum crate *)
Definition sample_checkpoint : ControlPlaneAuthorityClockRestartCheckpoint :=
  {| binding := repeat Byte.x42 32; authority_generation := 7;
     committed_timestamp_high_water_ms := Some 1700000000123;
     checkpoint_wall_time_ms := 1700000000456; checkpoint_health_time_ms := 86400000 |}.

Lemma sample_well_formed : well_formed sample_checkpoint.
Proof.
  split; [reflexivity|]. unfold is_u64, MAX64. cbn [sample_checkpoint authority_generation
    committed_timestamp_high_water_ms checkpoint_wall_time_ms checkpoint_health_time_ms].
  split; [lia|]. split; [intros t Ht; injection Ht as <-|]; lia.
Qed.

Definition sample_checksum : Checksum64 := crc64_checksum Clmul.X86_64 Crc64Api.no_features 0.

Lemma clock_checkpoint_file_witness :
  exists bytes, @encode sample_checksum () sample_checkpoint = Ok bytes /\
    @decode_classified sample_checksum bytes (repeat Byte.x42 32) = Ok sample_checkpoint.
Proof.
  eexists. split; [exact (@encode_Ok sample_checksum () sample_checkpoint)|].
  apply (proj1 (@clock_checkpoint_file sample_checksum _ _)). split; [apply sample_well_formed|].
  split; [reflexivity|exact (@encode_Ok sample_checksum () sample_checkpoint)].
Defined.

End ClockFiles.
