(* ===== verification/LeaseProtocol.v ===== *)
(** The lease protocol: authorities that come and go, consumers that bind deadlines
    to their own clocks, and the theorem that nobody serves on an old lease once a
    successor may act.

    Real time is a number that only the protocol knows.  A monotonic or health clock
    is real time plus an origin of its process; a wall clock shows anything, except
    that its offset from real time lies in one interval as wide as the skew budget
    at two kinds of moments: when an authority's clock is established and when a
    consumer binds a lease. *)

From Stdlib Require Import ZifyBool.
From stdpp Require Import strings.
From S2P Require Import Prelude Machine Journal Lease LeaseRules AuthorityClock ClockSpec.

Local Open Scope Z_scope.

Module LeaseProtocol.
Import Machine Lease AuthorityClock ClockSpec.

(** ** The protocol *)

Record world := {
  real : Z;
  (** the clock of the serving authority, and the origin of its health clock *)
  authority_clock : ControlPlaneAuthorityClock;
  origin : Z;
  (** the snapshot with the volatile deadlines, and the nodes as they are durable *)
  snapshot : ClusterControlSnapshot;
  durable : list (Z * NodeControlRecord);
  (** the deadlines of the route maps that were sent out *)
  published : list Z;
  (** the leases consumers hold, with the origins of their monotonic clocks *)
  held : list (Z * BoundRouteMapLease)
}.

Section protocol.

(** The upper end of the interval of wall-clock offsets *)
Context (O : Z).

(** What the authority's process may pass to its clock: its health clock, the
    high-water mark of the snapshot, and, to establish the clock, a wall time within
    the interval *)
Definition reading (w : world) (o : clock_op) : Prop :=
  let health h := h = None \/ h = Some (real w + origin w) in
  let committed t := t = max_committed_timestamp_ms (snapshot w) in
  match o with
  | OpNow _ h | OpCheckpoint _ _ _ h => health h
  | OpObserve ctx _ h => health h /\ committed (context_high_water_ms ctx)
  | OpReestablish _ _ _ ctx wall h =>
      health h /\ committed (context_high_water_ms ctx) /\ wall - real w <= O
  | OpHighWater t => committed t
  | _ => True
  end.

(** The authority takes a timestamp. *)
Definition now_of (w : world) (wall now : Z) (c' : ControlPlaneAuthorityClock) : Prop :=
  effective_now_ms wall (Some (real w + origin w)) (authority_clock w) = (Ok now, c').

Definition with_clock (c : ControlPlaneAuthorityClock) (w : world) : world :=
  {| real := real w; authority_clock := c; origin := origin w; snapshot := snapshot w; durable := durable w;
     published := published w; held := held w |}.

Definition with_snapshot (s : ClusterControlSnapshot) (d : list (Z * NodeControlRecord)) (w : world) : world :=
  {| real := real w; authority_clock := authority_clock w; origin := origin w; snapshot := s; durable := d;
     published := published w; held := held w |}.

Inductive step : world -> world -> Prop :=
| step_time w d : 0 <= d ->
    step w {| real := real w + d; authority_clock := authority_clock w; origin := origin w;
              snapshot := snapshot w; durable := durable w; published := published w; held := held w |}
| step_clock w o : reading w o -> step w (with_clock (run_op (authority_clock w) o) w)
(** Another process becomes the authority; the volatile deadlines are lost. *)
| step_takeover w c og wall checkpoint :
    new_internal (max_committed_timestamp_ms (snapshot w)) wall (Some (real w + og)) checkpoint false = Ok c ->
    wall - real w <= O ->
    step w {| real := real w; authority_clock := c; origin := og;
              snapshot := set_nodes (durable w) (snapshot w); durable := durable w;
              published := published w; held := held w |}
(** A heartbeat that is committed, and one that the horizon already covers *)
| step_heartbeat w wall now c' term a id requested d s :
    now_of w wall now c' ->
    lease_horizon_authority_binding c' term = Ok a ->
    heartbeat_lease_deadline (set_nodes (durable w) (snapshot w)) id now requested = Ok d ->
    establish_heartbeat_lease_horizon (snapshot w) (Some a) now d = Ok s ->
    step w (with_clock c' (with_snapshot
              (set_nodes (nodes_set_lease id d (nodes s)) (snd (record_committed_timestamp s now)))
              (nodes_set_lease id d (durable w)) w))
| step_volatile_heartbeat w wall now c' term a id requested d :
    now_of w wall now c' ->
    lease_horizon_authority_binding c' term = Ok a ->
    heartbeat_lease_deadline (snapshot w) id now requested = Ok d ->
    lease_grant_horizon_covers (snapshot w) a d = true ->
    step w (with_clock c' (with_snapshot
              (set_nodes (nodes_set_lease id d (nodes (snapshot w))) (snapshot w)) (durable w) w))
| step_establish w wall now c' term a duration s changed :
    now_of w wall now c' ->
    lease_horizon_authority_binding c' term = Ok a ->
    apply_establish_lease_grant_horizon (snapshot w) a now duration = Ok (s, changed) ->
    step w (with_clock c' (with_snapshot s (durable w) w))
(** Volatile deadlines become durable. *)
| step_promote w a l s changed :
    apply_promote_node_heartbeat_leases (set_nodes (durable w) (snapshot w)) a l = Ok (s, changed) ->
    step w (with_snapshot (snapshot w) (nodes s) w)
(** A route map is valid until the lease of a primary ends. *)
| step_publish w id r d :
    (id, r) ∈ nodes (snapshot w) -> lease_deadline_ms r = Some d ->
    step w {| real := real w; authority_clock := authority_clock w; origin := origin w;
              snapshot := snapshot w; durable := durable w; published := d :: published w; held := held w |}
(** A consumer binds a route map, whenever it gets it; a storage node passes its own
    wall clock for the time of issue. *)
| step_bind w d issued wall mono override health confirm st st' lease :
    d ∈ published w -> is_u64 d -> is_u64 wall -> O - CONTROL_PLANE_CLOCK_SKEW_BUDGET_MS <= wall - real w ->
    bind_process_local_lease_at (Until d) issued wall (real w + mono) override health confirm st
      = (Ok (Some lease), st') \/
    bind_storage_node_route_map_lease_at (Until d) wall (real w + mono) override health confirm st
      = (Ok (Some lease), st') ->
    step w {| real := real w; authority_clock := authority_clock w; origin := origin w;
              snapshot := snapshot w; durable := durable w; published := published w; held := (mono, lease) :: held w |}
| step_drop w m l h1 h2 : held w = h1 ++ (m, l) :: h2 ->
    step w {| real := real w; authority_clock := authority_clock w; origin := origin w;
              snapshot := snapshot w; durable := durable w; published := published w; held := h1 ++ h2 |}.

(** The start: an authority, no committed time, no horizon, no lease *)
Definition initial (w : world) : Prop :=
  (exists wall, new_internal None wall (Some (real w + origin w)) None false = Ok (authority_clock w) /\
     wall - real w <= O) /\
  max_committed_timestamp_ms (snapshot w) = None /\ lease_grant_horizon (snapshot w) = None /\
  (forall id r, (id, r) ∈ nodes (snapshot w) \/ (id, r) ∈ durable w -> lease_deadline_ms r = None) /\
  published w = [] /\ held w = [].

Inductive reachable : world -> Prop :=
| reachable_initial w : initial w -> reachable w
| reachable_step w w' : reachable w -> step w w' -> reachable w'.

(** ** The invariant *)

(** A deadline that is over on every clock, or that the horizon covers *)
Definition covered (r : Z) (o : option CommittedLeaseGrantHorizon) (d : Z) : Prop :=
  d <= r + O \/ exists h, o = Some h /\ d <= grant_not_after_ms h.

Definition clock_inv (r og : Z) (c : ControlPlaneAuthorityClock) : Prop :=
  (established c = true -> reference_wall_ms c - (reference_clock_health_ms c - og) <= O) /\
  (forall m, minimum_timestamp_ms c = Some m -> m <= r + O + CONTROL_PLANE_CLOCK_SKEW_BUDGET_MS).

Record inv (w : world) : Prop := {
  inv_clock : clock_inv (real w) (origin w) (authority_clock w);
  inv_committed m : max_committed_timestamp_ms (snapshot w) = Some m -> m <= real w + O + CONTROL_PLANE_CLOCK_SKEW_BUDGET_MS;
  inv_nodes id r d : (id, r) ∈ nodes (snapshot w) \/ (id, r) ∈ durable w -> lease_deadline_ms r = Some d ->
    covered (real w) (lease_grant_horizon (snapshot w)) d;
  inv_published d : d ∈ published w -> covered (real w) (lease_grant_horizon (snapshot w)) d;
  inv_held mono l : (mono, l) ∈ held w ->
    covered (real w) (lease_grant_horizon (snapshot w)) (authority_valid_until_ms l) /\
    local_valid_until_monotonic_ms l <= Z.max (real w) (authority_valid_until_ms l - O) + mono
}.

(** *** The clock *)

Lemma clock_inv_later r r' og c : r <= r' -> clock_inv r og c -> clock_inv r' og c.
Proof. intros Hr [H1 H2]. split; [done|]. intros m Hm. specialize (H2 m Hm). lia. Qed.

Lemma expected_bound r og c :
  clock_inv r og c -> established c = true -> expected_wall c (r + og) <= r + O.
Proof. intros [H1 _] He. specialize (H1 He). unfold expected_wall. lia. Qed.

(** A change of the clock that cannot break the invariant *)
Lemma clock_inv_same r og c c' :
  (established c' = true -> established c = true /\ same_reference c c') ->
  minimum_timestamp_ms c' = minimum_timestamp_ms c -> clock_inv r og c -> clock_inv r og c'.
Proof.
  intros He Hm [H1 H2]. split; [|by rewrite Hm]. intros Hest. destruct (He Hest) as (Hc & -> & ->). auto.
Qed.

Section at_time.
Context (r og : Z).

#[local] Definition preserves (c c' : ControlPlaneAuthorityClock) : Prop := clock_inv r og c -> clock_inv r og c'.

#[local] Instance preserves_preorder : PreOrder preserves.
Proof. split; [intros c H; exact H|]. intros c c1 c2 H1 H2 H. exact (H2 (H1 H)). Qed.

Lemma preserves_latch reason : keeps preserves (latch_unhealthy reason).
Proof.
  intros c H. unfold latch_unhealthy, advance_generation, mbind, stm_bind, gets, id, liftS, checked_add64.
  destruct (_ || _); [destruct (_ <=? _)|]; simpl; [|done|]; by apply (clock_inv_same _ _ c).
Qed.
#[local] Hint Resolve preserves_latch : keeps.
#[local] Hint Unfold throw : keeps.

Lemma preserves_now wall h : h = None \/ h = Some (r + og) -> keeps preserves (effective_now_ms wall h).
Proof.
  intros [->| ->] c; [apply (keeps_at preserves); unfold effective_now_ms; eauto with keeps typeclass_instances|].
  apply (keeps_gets_bind preserves). unfold id. destruct (established c) eqn:He; [|done]. cbn [negb].
  destruct (checked_sub64 _ _) as [e|] eqn:Hsub; [|apply (keeps_at preserves); eauto with keeps typeclass_instances].
  apply (keeps_lift_bind preserves). intros x Hx. destruct (Z.ltb_spec CONTROL_PLANE_CLOCK_SKEW_BUDGET_MS (abs_diff64 wall x));
    [apply (keeps_at preserves); eauto with keeps typeclass_instances|].
  intros Hc. simpl. split; [intros _; by apply Hc|]. intros m [= <-].
  assert (x <= r + O).
  { unfold checked_sub64, checked_add64 in *. destruct (_ <=? r + og); [|done]. injection Hsub as <-.
    destruct (_ <=? MAX64); [|done]. injection Hx as <-. apply (expected_bound r og c Hc He). }
  destruct Hc as [_ Hmin]. unfold abs_diff64 in *. destruct (minimum_timestamp_ms c) as [m|]; simpl; [|lia].
  specialize (Hmin m eq_refl). lia.
Qed.
#[local] Hint Resolve preserves_now : keeps.

Lemma preserves_term t : keeps preserves (validate_raft_leadership_term t).
Proof.
  intros c. apply (keeps_gets_bind preserves). unfold id. case_match; [reflexivity|].
  case_match; [intros H1; by apply (clock_inv_same _ _ c)|].
  apply (keeps_at preserves). eauto with keeps typeclass_instances.
Qed.

Lemma preserves_high_water t :
  (forall m, t = Some m -> m <= r + O + CONTROL_PLANE_CLOCK_SKEW_BUDGET_MS) ->
  keeps preserves (observe_committed_timestamp_high_water t).
Proof.
  intros Ht c H. simpl. destruct t as [t|]; [|done]. split; [apply H|]. simpl. intros m [= <-].
  specialize (Ht t eq_refl). destruct H as [_ Hmin]. destruct (minimum_timestamp_ms c) as [m|]; [|done].
  specialize (Hmin m eq_refl). lia.
Qed.

Lemma preserves_report {A} ctx (m : stm ControlPlaneAuthorityClock ControlPlaneError A) k :
  keeps preserves m -> keeps preserves k -> keeps preserves (report_unestablished ctx m k).
Proof.
  intros Hm Hk c H. specialize (Hm c H). unfold report_unestablished.
  destruct (m c) as [[a|e|] c1]; simpl in *; [by apply Hk|by destruct (established c1)|done].
Qed.

Lemma preserves_observe ctx wall h :
  h = None \/ h = Some (r + og) ->
  (forall m, context_high_water_ms ctx = Some m -> m <= r + O + CONTROL_PLANE_CLOCK_SKEW_BUDGET_MS) ->
  keeps preserves (observe_status ctx wall h).
Proof.
  intros Hh Hm. apply (keeps_bind preserves); [by apply preserves_high_water|]. intros _.
  destruct (current_raft_leadership_term ctx); repeat apply preserves_report;
    eauto using preserves_term with keeps typeclass_instances.
Qed.

Lemma preserves_checkpoint b hw wall h :
  h = None \/ h = Some (r + og) -> keeps preserves (validated_authority_clock_restart_checkpoint b hw wall h).
Proof. intros Hh. apply (keeps_bind preserves); [by apply preserves_now|]. eauto with keeps typeclass_instances. Qed.

Lemma preserves_reestablish g hw t ctx wall h :
  h = None \/ h = Some (r + og) -> wall - r <= O ->
  (forall m, context_high_water_ms ctx = Some m -> m <= r + O + CONTROL_PLANE_CLOCK_SKEW_BUDGET_MS) ->
  keeps preserves (reestablish g hw t ctx wall h).
Proof.
  intros Hh Hwall Hm c. apply (keeps_gets_bind preserves). unfold id.
  do 6 (apply (keeps_lift_bind preserves); intros ? _). apply (keeps_lift_bind preserves). intros h' Hh'.
  apply (keeps_lift_bind preserves). intros next _. intros _. simpl. split; [|done]. intros _. simpl.
  destruct Hh as [->| ->]; [done|]. injection Hh' as <-. lia.
Qed.
End at_time.

Lemma run_op_inv w o :
  inv w -> reading w o -> clock_inv (real w) (origin w) (run_op (authority_clock w) o).
Proof.
  intros Hi Ho. pose proof (inv_clock _ Hi) as Hc. pose proof (inv_committed _ Hi) as Hm. revert Hc.
  set (c := authority_clock w). set (r := real w). set (og := origin w).
  destruct o; simpl in *.
  - by apply (preserves_now r og wall health Ho c).
  - destruct Ho as [Hh Hctx]. apply preserves_observe; [done|by rewrite Hctx].
  - destruct Ho as (Hh & Hctx & Hwall). apply preserves_reestablish; [done|done|by rewrite Hctx].
  - by apply clock_inv_same.
  - apply preserves_high_water. by rewrite Ho.
  - apply preserves_term.
  - apply preserves_latch.
  - unfold advance_generation_past_lease_horizon, mbind, stm_bind, liftS.
    destruct (ok_or _ _); simpl; [by apply clock_inv_same|done..].
  - unfold resume_single_authority_lease_horizon_generation. case_match; [done|by apply clock_inv_same].
  - by apply preserves_checkpoint.
Qed.

(** A timestamp the clock gives out *)
Lemma now_bound w wall now c' :
  inv w -> now_of w wall now c' ->
  now <= real w + O + CONTROL_PLANE_CLOCK_SKEW_BUDGET_MS /\ clock_inv (real w) (origin w) c'.
Proof.
  intros Hi Hn. unfold now_of in Hn.
  pose proof (preserves_now (real w) (origin w) wall _ (or_intror eq_refl) (authority_clock w) (inv_clock _ Hi)) as Hc.
  rewrite Hn in Hc. split; [|done]. apply Hc. revert Hn. unfold effective_now_ms, mbind, stm_bind, gets, id, liftS.
  destruct (negb _); [done|]. destruct (checked_sub64 _ _); [|by destruct (latch_unhealthy _ _) as [[] ?]].
  destruct (ok_or _ _); [|done..]. destruct (_ <? _); [by destruct (latch_unhealthy _ _) as [[] ?]|].
  by intros [= <- <-].
Qed.

(** *** Deadlines *)

Lemma covered_later r r' o d : r <= r' -> covered r o d -> covered r' o d.
Proof. intros Hr [H|H]; [left; lia|by right]. Qed.

Lemma covered_by r o h d : o = Some h -> d <= grant_not_after_ms h -> covered r o d.
Proof. intros -> Hd. right. eauto. Qed.

(** A fence that is passed: what lies behind it is over. *)
Lemma validate_rebinding_over r h a now :
  now <= r + O + CONTROL_PLANE_CLOCK_SKEW_BUDGET_MS -> authority h <> a ->
  validate_rebinding h a now CONTROL_PLANE_CLOCK_SKEW_BUDGET_MS = Ok () -> grant_not_after_ms h <= r + O.
Proof.
  intros Hnow Hne. unfold validate_rebinding. rewrite bool_decide_eq_false_2 by done.
  unfold checked_add64. destruct (_ <=? _); [|done]. cbn [ok_or mbind outcome_bind].
  destruct (Z.ltb_spec now (grant_not_after_ms h + CONTROL_PLANE_CLOCK_SKEW_BUDGET_MS)); [done|]. intros _. lia.
Qed.

Lemma establish_covers r o a now dur h d :
  now <= r + O + CONTROL_PLANE_CLOCK_SKEW_BUDGET_MS ->
  establish o a now dur CONTROL_PLANE_CLOCK_SKEW_BUDGET_MS = Ok h -> covered r o d -> covered r (Some h) d.
Proof.
  intros Hnow. unfold establish. destruct (ok_or _ _) as [p| |]; [|done..]. cbn [mbind outcome_bind].
  destruct o as [h0|]; [|intros _ [H|(? & ? & _)]; [by left|done]].
  case_bool_decide as Ha.
  - intros [= <-] [H|(h1 & [= <-] & H)]; [by left|]. right. eexists. split; [done|]. simpl. lia.
  - destruct (validate_rebinding h0 a now _) as [[]| |] eqn:Hv; [|done..]. intros _ [H|(h1 & [= <-] & H)]; [by left|].
    left. pose proof (validate_rebinding_over r h0 a now Hnow Ha Hv). lia.
Qed.

Lemma heartbeat_horizon_covers r s a now d s' :
  now <= r + O + CONTROL_PLANE_CLOCK_SKEW_BUDGET_MS ->
  establish_heartbeat_lease_horizon s (Some a) now d = Ok s' ->
  max_committed_timestamp_ms s' = max_committed_timestamp_ms s /\ nodes s' = nodes s /\
  lease_grant_horizon_covers s' a d = true /\
  (forall x, covered r (lease_grant_horizon s) x -> covered r (lease_grant_horizon s') x).
Proof.
  intros Hnow. unfold establish_heartbeat_lease_horizon. destruct (lease_grant_horizon_covers s a d) eqn:Hc.
  - cbn [mbind outcome_bind]. rewrite Hc. by intros [= <-].
  - destruct (map_err _ _) as [h| |] eqn:He; [|done..]. apply LeaseRules.map_err_Ok in He. cbn [mbind outcome_bind mret outcome_ret].
    destruct (lease_grant_horizon_covers (set_horizon (Some h) s) a d) eqn:Hc'; [|done]. intros [= <-].
    repeat split; [done|]. intros x. by eapply establish_covers.
Qed.

Lemma covers_covered r s a d : lease_grant_horizon_covers s a d = true -> covered r (lease_grant_horizon s) d.
Proof.
  unfold lease_grant_horizon_covers. destruct (lease_grant_horizon s) as [h|]; [|done].
  intros [_ Hd]%andb_true_iff. eapply covered_by; [done|lia].
Qed.

Lemma nodes_set_lease_elem id d ns k r x :
  (k, r) ∈ nodes_set_lease id d ns -> lease_deadline_ms r = Some x ->
  x = d \/ exists r', (k, r') ∈ ns /\ lease_deadline_ms r' = Some x.
Proof.
  unfold nodes_set_lease. intros ([k' r'] & [= -> ->] & Hin)%list_elem_of_fmap.
  destruct (k' =? id); [intros [= <-]; by left|]. right. eauto.
Qed.

Lemma check_promoted_covered s h o l o' :
  foldM (check_promoted s h) o l = Ok o' -> Forall (fun x => promoted_deadline_ms x <= grant_not_after_ms h) l.
Proof.
  revert o. induction l as [|x l IH]; intros o; [constructor|]. intros (o1 & Hx & Hc)%bind_Ok.
  constructor; [|by eapply IH]. revert Hx. unfold check_promoted. intros (? & _ & Hx)%bind_Ok.
  apply bind_Ok in Hx as ([] & Hg%guard_err_Ok & _). lia.
Qed.

(** A promotion leaves deadlines that were there or that are promoted. *)
Lemma promote_fold l ns b ns' b' :
  foldM promote_one (ns, b) l = Ok (ns', b') ->
  forall k r x, (k, r) ∈ ns' -> lease_deadline_ms r = Some x ->
    (exists r', (k, r') ∈ ns /\ lease_deadline_ms r' = Some x) \/
    exists p, p ∈ l /\ promoted_deadline_ms p = x.
Proof.
  revert ns b. induction l as [|p l IH]; intros ns b; [intros [= <- <-]; eauto|].
  intros ([ns1 b1] & H1 & Hl)%bind_Ok k r x Hin Hx.
  destruct (IH ns1 b1 Hl k r x Hin Hx) as [(r' & Hin' & Hx')|(p' & ? & ?)]; [|right; exists p'; by rewrite elem_of_cons; auto].
  revert H1. unfold promote_one. intros (r1 & _ & H1)%bind_Ok. revert H1.
  case_bool_decide; intros [= <- <-]; [eauto|].
  destruct (nodes_set_lease_elem _ _ _ _ _ _ Hin' Hx') as [->|(r2 & ? & ?)]; [|eauto].
  right. exists p. split; [left|done].
Qed.

Lemma promote_nodes s a l s' changed :
  apply_promote_node_heartbeat_leases s a l = Ok (s', changed) ->
  forall k r x, (k, r) ∈ nodes s' -> lease_deadline_ms r = Some x ->
    (exists r', (k, r') ∈ nodes s /\ lease_deadline_ms r' = Some x) \/
    exists h, lease_grant_horizon s = Some h /\ x <= grant_not_after_ms h.
Proof.
  unfold apply_promote_node_heartbeat_leases. intros ([] & _ & H1)%bind_Ok k r x Hin Hx.
  apply bind_Ok in H1 as (h & Hh & H1). apply bind_Ok in H1 as ([] & _ & H1).
  apply bind_Ok in H1 as (o & Hc%check_promoted_covered & H1). apply bind_Ok in H1 as ([ns b] & Hp & H1).
  injection H1 as <- <-. destruct (promote_fold _ _ _ _ _ Hp _ _ _ Hin Hx) as [?|(p & Hpl & <-)]; [by left|].
  right. exists h. split; [by destruct (lease_grant_horizon s); simplify_eq/=|]. by eapply list.Forall_forall in Hc.
Qed.

(** *** Consumers *)

Lemma bind_bound r mono issued d wall lease :
  is_u64 d -> is_u64 wall -> O - CONTROL_PLANE_CLOCK_SKEW_BUDGET_MS <= wall - r ->
  bind issued d wall (r + mono) CONTROL_PLANE_CLOCK_SKEW_BUDGET_MS = Ok lease ->
  authority_valid_until_ms lease = d /\
  local_valid_until_monotonic_ms lease <= Z.max r (d - O) + mono.
Proof.
  intros Hd Hw Hoff. unfold bind. destruct (guard_err _ _) as [[]| |]; [|done..]. cbn [mbind outcome_bind].
  unfold checked_add64, saturating_sub64, is_u64 in *. destruct (_ <=? MAX64); [|done]. cbn [ok_or mbind outcome_bind].
  intros [= <-]. simpl. split; [done|]. unfold CONTROL_PLANE_CLOCK_SKEW_BUDGET_MS in *. lia.
Qed.

Lemma validate_then {A} ov wall h c (k : stm (option ProcessLeaseClockHealth) LeaseClockError A) st a st' :
  (validate_process_lease_clock ov wall h CONTROL_PLANE_CLOCK_SKEW_BUDGET_MS c ≫= fun _ => k) st = (Ok a, st') ->
  exists st1, k st1 = (Ok a, st').
Proof.
  unfold mbind, stm_bind. destruct (validate_process_lease_clock _ _ _ _ _ st) as [[[]| |] st1]; [eauto|done..].
Qed.

Lemma consumer_bound r mono d issued wall ov h c st st' lease :
  is_u64 d -> is_u64 wall -> O - CONTROL_PLANE_CLOCK_SKEW_BUDGET_MS <= wall - r ->
  bind_process_local_lease_at (Until d) issued wall (r + mono) ov h c st = (Ok (Some lease), st') \/
  bind_storage_node_route_map_lease_at (Until d) wall (r + mono) ov h c st = (Ok (Some lease), st') ->
  authority_valid_until_ms lease = d /\
  local_valid_until_monotonic_ms lease <= Z.max r (d - O) + mono.
Proof.
  intros Hd Hw Hoff [H|H]; cbn [bind_process_local_lease_at bind_storage_node_route_map_lease_at valid_until_ms] in H;
    apply validate_then in H as [st1 H]; revert H.
  - destruct issued as [i|]; [|intros [= <- _]; simpl; split; [done|lia]].
    unfold mbind, stm_bind, liftS. destruct (bind i _ _ _ _) as [l| |] eqn:Hb; [|done..]. intros [= <- _].
    by eapply bind_bound.
  - unfold mbind, stm_bind, liftS. destruct (bind wall _ _ _ _) as [l| |] eqn:Hb; [|done..]. intros [= <- _].
    by eapply bind_bound.
Qed.

(** *** Steps *)

Lemma lease_initial_inv w : initial w -> inv w.
Proof.
  intros ((wall & Hnew & Hwall) & Hm & Hh & Hn & Hp & Hl). injection Hnew as Hc.
  split; rewrite ?Hm, ?Hp, ?Hl; try done.
  - rewrite <-Hc. split; simpl; [lia|done].
  - intros id r d Hin Hd. specialize (Hn id r Hin). congruence.
  - intros d ?%elem_of_nil. done.
  - intros m l ?%elem_of_nil. done.
Qed.

(** A step that only moves what it names: the clock and the snapshot after a
    timestamp [now], with nodes whose deadlines are covered *)
Lemma inv_commit w c' s ns :
  inv w -> clock_inv (real w) (origin w) c' ->
  (forall m, max_committed_timestamp_ms s = Some m -> m <= real w + O + CONTROL_PLANE_CLOCK_SKEW_BUDGET_MS) ->
  (forall d, covered (real w) (lease_grant_horizon (snapshot w)) d -> covered (real w) (lease_grant_horizon s) d) ->
  (forall id r d, (id, r) ∈ nodes s \/ (id, r) ∈ ns -> lease_deadline_ms r = Some d ->
     covered (real w) (lease_grant_horizon s) d) ->
  inv (with_clock c' (with_snapshot s ns w)).
Proof.
  intros Hi Hc Hm Hcov Hn. split; simpl; [done|done|exact Hn| |].
  - intros d Hd. by apply Hcov, (inv_published _ Hi).
  - intros mono l Hl. destruct (inv_held _ Hi mono l Hl). split; [by apply Hcov|done].
Qed.

Lemma committed_bound w now m :
  inv w -> now <= real w + O + CONTROL_PLANE_CLOCK_SKEW_BUDGET_MS ->
  Some match max_committed_timestamp_ms (snapshot w) with Some x => Z.max x now | None => now end = Some m ->
  m <= real w + O + CONTROL_PLANE_CLOCK_SKEW_BUDGET_MS.
Proof.
  intros Hi Hn [= <-]. destruct (max_committed_timestamp_ms (snapshot w)) eqn:Hm; [|done].
  pose proof (inv_committed _ Hi _ Hm). lia.
Qed.

Lemma heartbeat_inv w wall now c' a id d s :
  inv w -> now_of w wall now c' -> establish_heartbeat_lease_horizon (snapshot w) (Some a) now d = Ok s ->
  inv (with_clock c' (with_snapshot
         (set_nodes (nodes_set_lease id d (nodes s)) (snd (record_committed_timestamp s now)))
         (nodes_set_lease id d (durable w)) w)).
Proof.
  intros Hi Hn He. destruct (now_bound w wall now c' Hi Hn) as [Hnow Hc].
  destruct (heartbeat_horizon_covers (real w) _ _ _ _ _ Hnow He) as (Hm & Hns & Hcv & Hcov).
  apply inv_commit; [done|done| |done|].
  - simpl. rewrite Hm. intros m. by apply committed_bound.
  - simpl. rewrite Hns. intros k r x Hin Hx.
    assert (x = d \/ exists r', ((k, r') ∈ nodes (snapshot w) \/ (k, r') ∈ durable w) /\ lease_deadline_ms r' = Some x) as Hor.
    { destruct Hin as [Hin|Hin]; destruct (nodes_set_lease_elem _ _ _ _ _ _ Hin Hx) as [?|(? & ? & ?)]; eauto. }
    destruct Hor as [->|(r' & Hr' & Hx')]; [by eapply covers_covered|]. apply Hcov. by eapply (inv_nodes _ Hi).
Qed.

Lemma establish_inv w wall now c' a dur s changed :
  inv w -> now_of w wall now c' -> apply_establish_lease_grant_horizon (snapshot w) a now dur = Ok (s, changed) ->
  inv (with_clock c' (with_snapshot s (durable w) w)).
Proof.
  intros Hi Hn He. destruct (now_bound w wall now c' Hi Hn) as [Hnow Hc]. revert He.
  unfold apply_establish_lease_grant_horizon. intros ([] & _ & H1)%bind_Ok. apply bind_Ok in H1 as ([] & _ & H1).
  apply bind_Ok in H1 as (h & Hh%LeaseRules.map_err_Ok & H1). simpl in H1. injection H1 as <- _.
  assert (forall d, covered (real w) (lease_grant_horizon (snapshot w)) d -> covered (real w) (Some h) d) as Hcov
    by (intros d; by eapply establish_covers).
  apply inv_commit; [done|done|intros m; by apply committed_bound|exact Hcov|].
  intros k r x Hin Hx. apply Hcov. by eapply (inv_nodes _ Hi).
Qed.

Lemma lease_step_inv w w' : inv w -> step w w' -> inv w'.
Proof.
  intros Hi Hs. destruct Hs as [w d Hd|w o Ho|w c og wall cp Hnew Hwall|w wall now c' term a id req d s Hn _ _ He
    |w wall now c' term a id req d Hn _ _ Hcv|w wall now c' term a dur s ch Hn _ He|w a l s ch Hp
    |w id r d Hin Hd|w d issued wall mono ov h c st st' lease Hd Hu Hw Hoff Hb|w m l h1 h2 Hl].
  - split; simpl.
    + eapply clock_inv_later; [|apply (inv_clock _ Hi)]. lia.
    + intros m Hm. pose proof (inv_committed _ Hi m Hm). lia.
    + intros id r x Hin Hx. eapply covered_later; [|by eapply (inv_nodes _ Hi)]. lia.
    + intros x Hx. eapply covered_later; [|by eapply (inv_published _ Hi)]. lia.
    + intros mono l Hl. destruct (inv_held _ Hi mono l Hl). split; [eapply covered_later; [|done]; lia|lia].
  - destruct Hi as [Hc Hm Hn Hp Hl]. split; simpl; try done. apply run_op_inv; [by split|done].
  - split; simpl; [|apply (inv_committed _ Hi)| |apply (inv_published _ Hi)|apply (inv_held _ Hi)].
    + unfold new_internal in Hnew. apply bind_Ok in Hnew as ([] & _ & Hnew). injection Hnew as <-.
      split; simpl; [lia|apply (inv_committed _ Hi)].
    + intros id r d Hin Hx. eapply (inv_nodes _ Hi); [right|done]. by destruct Hin.
  - by eapply heartbeat_inv.
  - destruct (now_bound w wall now c' Hi Hn) as [Hnow Hc].
    apply inv_commit; [done|done|apply (inv_committed _ Hi)|done|]. simpl. intros k r x [Hin|Hin] Hx.
    + destruct (nodes_set_lease_elem _ _ _ _ _ _ Hin Hx) as [->|(r' & ? & ?)]; [by eapply covers_covered|].
      eapply (inv_nodes _ Hi); [by left|done].
    + eapply (inv_nodes _ Hi); [by right|done].
  - by eapply establish_inv.
  - change (inv (with_clock (authority_clock w) (with_snapshot (snapshot w) (nodes s) w))).
    apply inv_commit; [done|apply (inv_clock _ Hi)|apply (inv_committed _ Hi)|done|].
    intros k r x [Hin|Hin] Hx; [eapply (inv_nodes _ Hi); [by left|done]|].
    destruct (promote_nodes _ _ _ _ _ Hp k r x Hin Hx) as [(r' & Hr' & ?)|(h & Hh & ?)]; [|by right; eauto].
    eapply (inv_nodes _ Hi); [by right|done].
  - destruct Hi as [Hc Hm Hn Hp Hl]. split; simpl; try done. intros x [->|Hx]%elem_of_cons; [|by apply Hp].
    eapply Hn; [by left|done].
  - destruct Hi as [Hc Hm Hn Hp Hl]. split; simpl; try done. intros m l [[= -> ->]|Hin]%elem_of_cons; [|by apply Hl].
    destruct (consumer_bound _ _ _ _ _ _ _ _ _ _ _ Hu Hw Hoff Hb) as [-> Hv]. split; [by apply Hp|done].
  - destruct Hi as [Hc Hm Hn Hp Hh]. split; simpl; try done. intros m' l' Hin. apply Hh. rewrite Hl.
    apply elem_of_app in Hin as [?|?]; apply elem_of_app; [by left|right; by right].
Qed.

Lemma lease_reachable_inv w : reachable w -> inv w.
Proof. induction 1 as [w H|w w' _ IH H]; [by apply lease_initial_inv|by eapply lease_step_inv]. Qed.

(** A lease a consumer still serves on has time left on every clock, and the horizon
    covers it. *)
Lemma serving_covered w mono l :
  inv w -> (mono, l) ∈ held w -> is_valid_at_monotonic l (real w + mono) = true ->
  real w + O < authority_valid_until_ms l /\
  exists h, lease_grant_horizon (snapshot w) = Some h /\ authority_valid_until_ms l <= grant_not_after_ms h.
Proof.
  intros Hi Hl Hv. destruct (inv_held _ Hi mono l Hl) as [Hc Hb]. unfold is_valid_at_monotonic in Hv.
  assert (real w + O < authority_valid_until_ms l) by lia. split; [done|]. destruct Hc as [?|?]; [lia|done].
Qed.

(** C22: no two holders.  However authorities, heartbeats, clocks, messages and
    restarts interleave, a lease on which a consumer still serves ends later than
    every clock of the protocol shows and is covered by the committed horizon.  So
    when the serving authority takes a timestamp, (1) a successor whose activation
    is not blocked at that time meets no consumer of the previous primary that still
    serves, and (2) when the timestamp lets another authority take over the horizon,
    no consumer serves on any lease granted so far. *)
Theorem lease_protocol_safe w :
  reachable w ->
  (forall mono l, (mono, l) ∈ held w -> is_valid_at_monotonic l (real w + mono) = true ->
     real w + O < authority_valid_until_ms l /\
     exists h, lease_grant_horizon (snapshot w) = Some h /\ authority_valid_until_ms l <= grant_not_after_ms h) /\
  (forall wall now c', now_of w wall now c' ->
     (forall previous primary incarnation endpoint mono l,
        matches_process previous primary incarnation endpoint = false ->
        blocks_activation previous primary incarnation endpoint now = false ->
        (mono, l) ∈ held w -> authority_valid_until_ms l <= previous_lease_deadline_ms previous ->
        is_valid_at_monotonic l (real w + mono) = false) /\
     (forall a mono l,
        lease_grant_horizon_authority (snapshot w) <> Some a ->
        validate_lease_grant_horizon_rebinding (snapshot w) a now = Ok () ->
        (mono, l) ∈ held w -> is_valid_at_monotonic l (real w + mono) = false)).
Proof.
  intros Hi%lease_reachable_inv. split; [intros; by eapply serving_covered|]. intros wall now c' Hn.
  destruct (now_bound w wall now c' Hi Hn) as [Hnow _]. split.
  - intros previous primary incarnation ep mono l Hm Hb Hl Hd.
    destruct (is_valid_at_monotonic l (real w + mono)) eqn:Hv; [|done].
    destruct (serving_covered w mono l Hi Hl Hv) as [Hlt _]. revert Hb. unfold blocks_activation. rewrite Hm.
    unfold successor_activation_fence_satisfied, checked_add64. cbn [negb andb].
    destruct (_ <=? MAX64); [|done]. rewrite negb_false_iff. lia.
  - intros a mono l Ha Hr Hl. destruct (is_valid_at_monotonic l (real w + mono)) eqn:Hv; [|done].
    destruct (serving_covered w mono l Hi Hl Hv) as (Hlt & h & Hh & Hd).
    unfold validate_lease_grant_horizon_rebinding, lease_grant_horizon_authority in *. rewrite Hh in *.
    apply LeaseRules.map_err_Ok in Hr. apply (validate_rebinding_over (real w)) in Hr; [lia|done|simpl in Ha; congruence].
Qed.
End protocol.

(** A run: a node gets a lease until 110 s, a consumer binds it at 100 s, and at
    112 s a successor may be activated. *)
Definition sample_node : NodeControlRecord :=
  {| node_id := 1; membership := Active; administratively_available := true;
     observed_availability := Healthy; node_incarnation := 1; endpoint := "n1"; lease_deadline_ms := None |}.

Definition sample_start : world :=
  {| real := 100000;
     authority_clock :=
       {| reference_wall_ms := 100000; reference_clock_health_ms := 100000; minimum_timestamp_ms := None;
          raft_leadership_term := None; initial_raft_term_binding_available := true; established := true;
          generation := 1; blocked_reason := None; restart_continuity_generation := None |};
     origin := 0;
     snapshot := {| max_committed_timestamp_ms := None; lease_grant_horizon := None; nodes := [(1, sample_node)] |};
     durable := [(1, sample_node)]; published := []; held := [] |}.

Definition sample_lease : BoundRouteMapLease :=
  {| authority_valid_until_ms := 110000; local_valid_until_monotonic_ms := 109000 |}.

Definition sample_previous : PreviousPrimaryLease :=
  {| previous_node_id := 1; previous_node_incarnation := 1; previous_endpoint := "n1";
     previous_lease_deadline_ms := 110000; prefer_reactivation := false |}.

Lemma sample_run :
  exists w, reachable 0 w /\ real w = 112000 /\ origin w = 0 /\ held w = [(0, sample_lease)] /\
    fst (effective_now_ms 112000 (Some 112000) (authority_clock w)) = Ok 112000.
Proof.
  assert (reachable 0 sample_start) as H0.
  { apply reachable_initial. split; [exists 100000; split; [reflexivity|done]|]. repeat split.
    intros id r [Hin|Hin]; apply list_elem_of_singleton in Hin; by injection Hin as -> ->. }
  eassert (reachable 0 _) as H1.
  { eapply reachable_step; [exact H0|]. eapply (step_heartbeat 0 sample_start 100000 100000 _ None _ 1 10000 110000);
      vm_compute; reflexivity. }
  eassert (reachable 0 _) as H2.
  { eapply reachable_step; [exact H1|]. eapply (step_publish 0 _ 1 _ 110000); [left|reflexivity]. }
  eassert (reachable 0 _) as H3.
  { eapply reachable_step; [exact H2|].
    eapply (step_bind 0 _ 110000 (Some 100000) 100000 0 None (Some 100000) None None _ sample_lease);
      [left|by vm_compute|by vm_compute|by vm_compute|left; vm_compute; reflexivity]. }
  eexists. split; [eapply reachable_step; [exact H3|apply (step_time 0 _ 12000); done]|]. repeat split.
Qed.

Lemma lease_protocol_safe_witness :
  exists w, reachable 0 w /\ held w = [(0, sample_lease)] /\ is_valid_at_monotonic sample_lease 105000 = true /\
    is_valid_at_monotonic sample_lease (real w + 0) = false.
Proof.
  destruct sample_run as (w & Hr & Hreal & Ho & Hh & Hn). exists w. split; [done|]. split; [done|]. split; [done|].
  destruct (effective_now_ms 112000 (Some 112000) (authority_clock w)) as [r c'] eqn:He. simpl in Hn. subst r.
  assert (now_of w 112000 112000 c') as Hnow by (unfold now_of; by rewrite Hreal, Ho).
  apply (proj1 (proj2 (lease_protocol_safe 0 w Hr) 112000 112000 c' Hnow)
           sample_previous 2 1 "n2"%string 0 sample_lease);
    [reflexivity|reflexivity|rewrite Hh; left|by vm_compute].
Defined.

End LeaseProtocol.
