(* ===== verification/Policy.v ===== *)
(** The primitives of the policy language, crates/auth/src/policy.rs, and the S3 actions
    of crates/auth/src/bucket_policy.rs that policies name.  The matcher fills one row of
    a table per character of the pattern; [wildcard_matching] shows that it decides the
    glob relation, whatever mixture of pattern text and literal wildcards built the
    pattern. *)

From Stdlib Require Import ZifyBool.
From stdpp Require Import strings sets.
From S2P Require Import Prelude Machine Str.

(** * Searching vectors *)
Module Search.

(** [l.iter().any(f)]: stops at the first element accepted *)
Fixpoint anyM {E A} (f : A -> outcome E bool) (l : list A) : outcome E bool :=
  match l with
  | [] => Ok false
  | x :: l' => f x ≫= fun b : bool => if b then Ok true else anyM f l'
  end.

Lemma anyM_exists {E A} (f : A -> outcome E bool) (P : A -> Prop) l :
  (forall x, exists b, f x = Ok b /\ (b = true <-> P x)) ->
  exists b, anyM f l = Ok b /\ (b = true <-> Exists P l).
Proof.
  intros Hf. induction l as [|x l (b & Hb & IH)]; simpl.
  { exists false. split; [done|]. by rewrite Exists_nil. }
  destruct (Hf x) as ([] & -> & Hx); bind_step.
  - exists true. split; [done|]. rewrite Exists_cons. naive_solver.
  - exists b. split; [done|]. rewrite Exists_cons. naive_solver.
Qed.

(** [slice::binary_search(&x).is_ok()] *)
Definition binary_search_is_ok {E} (l : list nat) (x : nat) : outcome E bool :=
  if length l =? 0 then mret false else
  r ← while_loop (length l) (fun '(base, size) => 1 <? size)
        (fun '(base, size) =>
           let half := Nat.div size 2 in
           let mid := base + half in
           y ← idx l mid;
           mret (if x <? y then base else mid, size - half)) (0, length l);
  y ← idx l (fst r);
  mret (y =? x).

Definition increasing (l : list nat) : Prop := forall i j x y, l !! i = Some x -> l !! j = Some y -> i < j -> x < y.

Lemma increasing_le l i j x y : increasing l -> l !! i = Some x -> l !! j = Some y -> x < y -> i < j.
Proof.
  intros Hl Hi Hj Hxy. destruct (decide (i < j)); [done|].
  destruct (decide (i = j)) as [->|]; [simplify_eq; lia|]. specialize (Hl j i y x Hj Hi). lia.
Qed.

Lemma increasing_snoc l x : increasing l -> Forall (fun y => y < x) l -> increasing (l ++ [x]).
Proof.
  intros Hl Hx i j a b Hi Hj Hij. rewrite Forall_lookup in Hx.
  apply lookup_snoc_Some in Hi as [[Hi ?]|[Hi ?]]; apply lookup_snoc_Some in Hj as [[Hj ?]|[Hj ?]]; subst; eauto; lia.
Qed.

Lemma binary_search_member {E} l x : increasing l -> binary_search_is_ok (E:=E) l x = Ok (bool_decide (x ∈ l)).
Proof.
  intros Hl. unfold binary_search_is_ok. destruct (Nat.eqb_spec (length l) 0) as [Hz|Hz].
  { by destruct l. }
  apply returns_eq. unfold returns. eapply wp_bind, wp_while with
    (P := fun '(base, size) => 1 <= size /\ base + size <= length l /\
            (forall i, l !! i = Some x -> base <= i < base + size)) (m := fun p => snd p - 1).
  - split; [lia|]. split; [lia|]. intros i H%lookup_lt_Some. lia.
  - simpl. lia.
  - intros [base size] (Hs & Hle & Hin) Hc%Nat.ltb_lt.
    assert (1 <= Nat.div size 2 /\ 2 * Nat.div size 2 <= size)%nat as [Hh1 Hh2]
      by (split; [apply Nat.div_le_lower_bound|apply Nat.Div0.mul_div_le]; lia).
    eapply wp_bind, wp_idx; [lia|]. intros y Hy. apply wp_ret. cbn [snd]. split; [|lia].
    destruct (Nat.ltb_spec x y) as [Hxy|Hxy].
    + split; [lia|]. split; [lia|]. intros i H. pose proof (increasing_le l i _ _ _ Hl H Hy Hxy).
      apply Hin in H. lia.
    + split; [lia|]. split; [lia|]. intros i H. pose proof (Hin i H).
      destruct (decide (i < base + Nat.div size 2)) as [Hi|]; [|lia]. specialize (Hl i _ _ _ H Hy Hi). lia.
  - intros [base size] (Hs & Hle & Hin) Hc%Nat.ltb_ge. eapply wp_bind, wp_idx; [simpl; lia|].
    intros y Hy. apply wp_ret. cbn [fst] in Hy. symmetry. destruct (Nat.eqb_spec y x) as [->|Hne].
    + apply bool_decide_eq_true. by eapply list_elem_of_lookup_2.
    + apply bool_decide_eq_false. intros [i Hi]%list_elem_of_lookup. pose proof (Hin i Hi).
      replace i with base in Hi by lia. congruence.
Qed.

End Search.

(** * policy.rs *)
Module Policy.
Import Str Search.

Record PolicyValue := MkPolicyValue {
  value : str;
  escaped_wildcards : list nat
}.

Definition ASTERISK : Z := 42.
Definition QUESTION_MARK : Z := 63.

Definition literal (value : str) : PolicyValue := MkPolicyValue value [].

(** Append source policy syntax, preserving wildcard interpretation. *)
Definition push_pattern_fragment (self : PolicyValue) (s : str) : PolicyValue :=
  MkPolicyValue (value self ++ s) (escaped_wildcards self).

Definition push_literal_asterisk (self : PolicyValue) : PolicyValue :=
  MkPolicyValue (value self ++ [ASTERISK]) (escaped_wildcards self ++ [length (value self)]).

Definition push_literal_question_mark (self : PolicyValue) : PolicyValue :=
  MkPolicyValue (value self ++ [QUESTION_MARK]) (escaped_wildcards self ++ [length (value self)]).

Definition wildcard_is_escaped {E} (self : PolicyValue) (char_index : nat) : outcome E bool :=
  binary_search_is_ok (escaped_wildcards self) char_index.

Inductive PolicyEvaluation := ExplicitDeny | ExplicitAllow | NoMatch.

Inductive PolicyVersion := V2008_10_17 | V2012_10_17.

Definition PolicyVersion_as_str (self : PolicyVersion) : str :=
  match self with V2008_10_17 => lit "2008-10-17" | V2012_10_17 => lit "2012-10-17" end.

Inductive PolicyEffect := Allow | Deny.

Definition PolicyEffect_as_str (self : PolicyEffect) : str :=
  match self with Allow => lit "Allow" | Deny => lit "Deny" end.

Record PolicyConditionClause := MkPolicyConditionClause {
  operator : str;
  key : str;
  values : list str
}.

Record PolicyStatementCore := MkPolicyStatementCore {
  sid : option str;
  effect : PolicyEffect;
  actions : list str;
  conditions : list PolicyConditionClause
}.

#[export] Instance PolicyEvaluation_eq_dec : EqDecision PolicyEvaluation.
Proof. solve_decision. Defined.
#[export] Instance PolicyEffect_eq_dec : EqDecision PolicyEffect.
Proof. solve_decision. Defined.

(** [dst[a..b].copy_from_slice(src)] *)
Definition copy_from_slice {E A} (dst : list A) (a b : nat) (src : list A) : outcome E (list A) :=
  s ← slice dst a b;
  assert_true (length s =? length src);;
  mret (take a dst ++ src ++ drop b dst).

(** The body of the loop over the pattern: the row of one more character *)
Definition next_row {E} (pattern : PolicyValue) (value : list Z) (previous : list bool)
    (entry : nat * Z) : outcome E (list bool) :=
  let '(pattern_index, pattern_ch) := entry in
  let n := length value in
  let current := replicate (n + 1) false in
  escaped ← (if bool_decide (pattern_ch = ASTERISK \/ pattern_ch = QUESTION_MARK)
             then wildcard_is_escaped pattern pattern_index else mret false);
  if bool_decide (pattern_ch = ASTERISK) && negb escaped then
    p ← idx previous 0;
    current ← upd current 0 p;
    for_range 1 (n + 1) current (fun current index =>
      p ← idx previous index;
      c ← idx current (index - 1);
      upd current index (p || c))
  else if bool_decide (pattern_ch = QUESTION_MARK) && negb escaped then
    src ← slice previous 0 n;
    copy_from_slice current 1 (n + 1) src
  else
    foldM (fun current '(index, actual) =>
      p ← idx previous index;
      if bool_decide (actual = pattern_ch) && p then upd current (index + 1) true else mret current)
      current (enumerate value).

Definition policy_value_wildcard_matches {E} (pattern : PolicyValue) (v : str) : outcome E bool :=
  previous ← upd (replicate (length v + 1) false) 0 true;
  previous ← foldM (next_row pattern v) previous (enumerate (value pattern));
  idx previous (length v).

Definition wildcard_matches {E} (pattern value : str) : outcome E bool :=
  policy_value_wildcard_matches (literal pattern) value.

Definition action_pattern_matches {E} (pattern action : str) : outcome E bool :=
  wildcard_matches (to_ascii_lowercase pattern) (to_ascii_lowercase action).

(** ** Specification: the glob relation *)

Inductive token := Lit (c : Z) | One | Many.

Inductive glob : list token -> str -> Prop :=
  | glob_nil : glob [] []
  | glob_lit c ts v : glob ts v -> glob (Lit c :: ts) (c :: v)
  | glob_one c ts v : glob ts v -> glob (One :: ts) (c :: v)
  | glob_many s ts v : glob ts v -> glob (Many :: ts) (s ++ v).

(** What a character of policy source text stands for *)
Definition pattern_token (c : Z) : token :=
  if bool_decide (c = ASTERISK) then Many else if bool_decide (c = QUESTION_MARK) then One else Lit c.

Definition pattern_tokens (s : str) : list token := pattern_token <$> s.

(** The ways to extend a pattern *)
Inductive piece := Fragment (s : str) | LiteralAsterisk | LiteralQuestionMark.

Definition push (self : PolicyValue) (p : piece) : PolicyValue :=
  match p with
  | Fragment s => push_pattern_fragment self s
  | LiteralAsterisk => push_literal_asterisk self
  | LiteralQuestionMark => push_literal_question_mark self
  end.

Definition piece_tokens (p : piece) : list token :=
  match p with
  | Fragment s => pattern_tokens s
  | LiteralAsterisk => [Lit ASTERISK]
  | LiteralQuestionMark => [Lit QUESTION_MARK]
  end.

(** ** Lemmas on the glob relation *)

Lemma glob_app ts1 ts2 v :
  glob (ts1 ++ ts2) v <-> exists v1 v2, v = v1 ++ v2 /\ glob ts1 v1 /\ glob ts2 v2.
Proof.
  split.
  - revert v. induction ts1 as [|t ts IH]; intros v H; simpl in H.
    { exists [], v. by repeat constructor. }
    inversion H as [|c ts' v' H'|c ts' v' H'|s ts' v' H']; subst;
      destruct (IH _ H') as (v1 & v2 & -> & H1 & H2).
    1,2: exists (c :: v1), v2; repeat split; [by constructor|done].
    exists (s ++ v1), v2. repeat split; [by rewrite <-app_assoc|by constructor|done].
  - intros (v1 & v2 & -> & H1 & H2). induction H1; simpl; [done|by constructor..|].
    rewrite <-app_assoc. by constructor.
Qed.

Lemma glob_snoc_lit ts c v : glob (ts ++ [Lit c]) v <-> exists u, v = u ++ [c] /\ glob ts u.
Proof.
  rewrite glob_app. split.
  - intros (u & w & -> & Hu & Hw). inversion Hw as [|? ? ? H| |]; subst. inversion H; subst. eauto.
  - intros (u & -> & Hu). exists u, [c]. by repeat constructor.
Qed.

Lemma glob_snoc_one ts v : glob (ts ++ [One]) v <-> exists u c, v = u ++ [c] /\ glob ts u.
Proof.
  rewrite glob_app. split.
  - intros (u & w & -> & Hu & Hw). inversion Hw as [| |? ? ? H|]; subst. inversion H; subst. eauto.
  - intros (u & c & -> & Hu). exists u, [c]. by repeat constructor.
Qed.

Lemma glob_snoc_many ts v : glob (ts ++ [Many]) v <-> exists u w, v = u ++ w /\ glob ts u.
Proof.
  rewrite glob_app. split.
  - intros (u & w & -> & Hu & Hw). eauto.
  - intros (u & w & -> & Hu). exists u, w. split; [done|]. split; [done|].
    rewrite <-(app_nil_r w). by repeat constructor.
Qed.

(** ** The rows of the table *)

Section rows.
Context (v : str).

(** Entry [k] of the row of [ts] says whether [ts] matches the first [k] characters. *)
Definition row_upto (m : nat) (ts : list token) (row : list bool) : Prop :=
  length row = length v + 1 /\ forall k b, k < m -> row !! k = Some b -> b = true <-> glob ts (take k v).

Definition row_of : list token -> list bool -> Prop := row_upto (length v + 1).

Lemma glob_empty ts t : t <> Many -> ~ glob (ts ++ [t]) (take 0 v).
Proof.
  rewrite take_0. destruct t as [c| |]; intros Ht; [rewrite glob_snoc_lit|rewrite glob_snoc_one|done].
  - intros (u & Hu & _). by destruct u.
  - intros (u & c & Hu & _). by destruct u.
Qed.

Lemma glob_lit_step ts a j c : v !! j = Some c ->
  glob (ts ++ [Lit a]) (take (S j) v) <-> c = a /\ glob ts (take j v).
Proof.
  intros Hj. rewrite glob_snoc_lit, (take_S_r _ _ _ Hj). split.
  - intros (u & [-> [= ->]]%app_inj_tail & Hu). done.
  - intros [-> Hu]. eauto.
Qed.

Lemma glob_one_step ts j c : v !! j = Some c -> glob (ts ++ [One]) (take (S j) v) <-> glob ts (take j v).
Proof.
  intros Hj. rewrite glob_snoc_one, (take_S_r _ _ _ Hj). split.
  - intros (u & a & [-> [= ->]]%app_inj_tail & Hu). done.
  - intros Hu. eauto.
Qed.

Lemma glob_many_zero ts : glob (ts ++ [Many]) (take 0 v) <-> glob ts (take 0 v).
Proof.
  rewrite glob_snoc_many, take_0. split.
  - intros (u & w & Huw & Hu). by destruct u.
  - intros H. by exists [], [].
Qed.

Lemma glob_many_step ts j c : v !! j = Some c ->
  glob (ts ++ [Many]) (take (S j) v) <-> glob ts (take (S j) v) \/ glob (ts ++ [Many]) (take j v).
Proof.
  intros Hj. rewrite !glob_snoc_many. rewrite (take_S_r _ _ _ Hj). split.
  - intros (u & w & Huw & Hu). destruct w as [|d w _] using rev_ind.
    + rewrite app_nil_r in Huw. left. congruence.
    + rewrite app_assoc in Huw. apply app_inj_tail in Huw as [Huw _]. right. eauto.
  - intros [H|(u & w & -> & Hu)]; [exists (take j v ++ [c]), []; by rewrite app_nil_r|].
    exists u, (w ++ [c]). by rewrite app_assoc.
Qed.

Lemma row_upto_insert m ts row b :
  row_upto m ts row -> (b = true <-> glob ts (take m v)) -> row_upto (m + 1) ts (<[m:=b]> row).
Proof.
  intros [Hlen Hrow] Hb. split; [by rewrite length_insert|]. intros k b' Hk Hkb.
  apply list_lookup_insert_Some in Hkb as [(-> & -> & _)|[Hne Hkb]]; [done|]. apply (Hrow k); [lia|done].
Qed.

Context {E : Type} (ts : list token) (previous : list bool) (Hprev : row_of ts previous).

Lemma row_entry k b : previous !! k = Some b -> b = true <-> glob ts (take k v).
Proof. intros Hb. apply (proj2 Hprev); [|done]. apply lookup_lt_Some in Hb. destruct Hprev. lia. Qed.

Lemma many_row (R : E -> Prop) :
  wp (p ← idx previous 0;
      current ← upd (replicate (length v + 1) false) 0 p;
      for_range 1 (length v + 1) current (fun current index =>
        p ← idx previous index;
        c ← idx current (index - 1);
        upd current index (p || c))) (row_of (ts ++ [Many])) R.
Proof.
  pose proof (proj1 Hprev) as Hlen.
  eapply wp_bind, wp_idx; [lia|]. intros b0 Hb0.
  eapply wp_bind, wp_upd; [rewrite length_replicate; lia|].
  eapply wp_for_range with (P := fun m row => row_upto m (ts ++ [Many]) row); [lia| | |done].
  - apply (row_upto_insert 0).
    + split; [by rewrite length_replicate|lia].
    + rewrite glob_many_zero. by apply row_entry.
  - intros j row Hj Hrow. eapply wp_bind, wp_idx; [lia|]. intros b Hb.
    eapply wp_bind, wp_idx; [destruct Hrow; lia|]. intros c Hc.
    eapply wp_upd; [destruct Hrow; lia|]. apply row_upto_insert; [done|].
    destruct j as [|j]; [lia|]. destruct (lookup_lt_is_Some_2 v j) as [x Hx]; [lia|].
    rewrite (glob_many_step _ _ _ Hx), <-(row_entry _ _ Hb), orb_true_iff.
    replace (S j - 1) with j in Hc by lia. by rewrite (proj2 Hrow j c) by (lia || done).
Qed.

Lemma one_row (R : E -> Prop) :
  wp (src ← slice previous 0 (length v);
      copy_from_slice (replicate (length v + 1) false) 1 (length v + 1) src) (row_of (ts ++ [One])) R.
Proof.
  pose proof (proj1 Hprev) as Hlen.
  eapply wp_bind, wp_slice; [lia..|]. rewrite Nat.sub_0_r, drop_0. unfold copy_from_slice.
  eapply wp_bind, wp_slice; [lia|rewrite length_replicate; lia|].
  rewrite (proj2 (Nat.eqb_eq _ _)) by (rewrite !length_take, length_drop, length_replicate; lia).
  bind_step. rewrite drop_ge, app_nil_r by (rewrite length_replicate; lia).
  rewrite take_replicate, Nat.min_l by lia. split.
  { simpl. rewrite length_take. lia. }
  intros [|k] b Hk Hb.
  - injection Hb as <-. split; [done|]. by intros ?%glob_empty.
  - cbn in Hb. apply lookup_take_Some in Hb as [Hb Hkv].
    destruct (lookup_lt_is_Some_2 v k) as [x Hx]; [done|].
    rewrite (glob_one_step _ _ _ Hx). by apply row_entry.
Qed.

Lemma lit_row a (R : E -> Prop) :
  wp (foldM (fun current '(index, actual) =>
        p ← idx previous index;
        if bool_decide (actual = a) && p then upd current (index + 1) true else mret current)
        (replicate (length v + 1) false) (enumerate v)) (row_of (ts ++ [Lit a])) R.
Proof.
  pose proof (proj1 Hprev) as Hlen.
  eapply wp_foldM with (P := fun pre row => row_upto (length pre + 1) (ts ++ [Lit a]) row /\
    forall k b, length pre < k -> row !! k = Some b -> b = false).
  - split; [split; [by rewrite length_replicate|]|].
    + intros k b Hk [-> _]%lookup_replicate. simpl in Hk. replace k with 0 by lia. split; [done|].
      by intros ?%glob_empty.
    + by intros k b _ [-> _]%lookup_replicate.
  - intros pre [i x] suf row Henum [Hrow Hrest].
    assert (enumerate v !! length pre = Some (i, x)) as Hi by (rewrite Henum; by rewrite list_lookup_middle).
    apply enumerate_lookup in Hi as [Hi Hx]. subst i. pose proof (lookup_lt_Some _ _ _ Hx) as Hlt.
    eapply wp_bind, wp_idx; [lia|]. intros b Hb. rewrite length_app. cbn [length].
    pose proof (glob_lit_step ts a _ _ Hx) as Hstep. rewrite <-(row_entry _ _ Hb) in Hstep.
    destruct (bool_decide_reflect (x = a)) as [->|Hne]; destruct b; cbn [andb].
    1: { apply wp_upd; [destruct Hrow; lia|]. split.
         - apply row_upto_insert; [done|]. rewrite Nat.add_1_r, Hstep. done.
         - intros k b Hk [(? & ? & ?)|[? Hkb]]%list_lookup_insert_Some; [lia|]. apply (Hrest k); [lia|done]. }
    all: apply wp_ret; (split; [split; [by destruct Hrow|]|intros k b Hk; apply Hrest; lia]);
      intros k b Hk Hkb; destruct (decide (k = length pre + 1)) as [->|];
      [apply Hrest in Hkb; [|lia]; rewrite Hkb, Nat.add_1_r, Hstep; naive_solver
      |apply (proj2 Hrow k); [lia|done]].
  - intros row [Hrow _]. unfold enumerate in Hrow. rewrite length_imap in Hrow. done.
Qed.

End rows.

(** ** The matcher *)

(** What the character at [i] of a pattern with the escapes [esc] stands for *)
Definition token_at (esc : list nat) (i : nat) (c : Z) : token :=
  if bool_decide (i ∈ esc) then Lit c else pattern_token c.

Definition tokens (self : PolicyValue) : list token := imap (token_at (escaped_wildcards self)) (value self).

Lemma next_row_ok {E} p v ts previous i c (R : E -> Prop) :
  increasing (escaped_wildcards p) -> row_of v ts previous ->
  wp (next_row p v previous (i, c)) (row_of v (ts ++ [token_at (escaped_wildcards p) i c])) R.
Proof.
  intros Hesc Hprev. unfold next_row, wildcard_is_escaped, token_at, pattern_token.
  rewrite binary_search_member by done.
  destruct (bool_decide_reflect (c = ASTERISK \/ c = QUESTION_MARK)) as [Hw|Hw]; bind_step.
  2: { rewrite !(bool_decide_eq_false_2 (c = _)) by naive_solver. cbn [andb].
       destruct (bool_decide (i ∈ _)); by apply lit_row. }
  destruct (bool_decide (i ∈ _)); cbn [negb]; rewrite ?andb_false_r, ?andb_true_r; [by apply lit_row|].
  destruct (bool_decide_reflect (c = ASTERISK)) as [->|]; [by apply many_row|].
  destruct (bool_decide_reflect (c = QUESTION_MARK)) as [->|]; [by apply one_row|naive_solver].
Qed.

Lemma matches_tokens {E} p v (R : E -> Prop) : increasing (escaped_wildcards p) ->
  wp (policy_value_wildcard_matches p v) (fun b => b = true <-> glob (tokens p) v) R.
Proof.
  intros Hesc. unfold policy_value_wildcard_matches.
  eapply wp_bind, wp_upd; [rewrite length_replicate; lia|].
  eapply wp_bind, wp_foldM with
    (P := fun pre row => row_of v ((fun '(i, c) => token_at (escaped_wildcards p) i c) <$> pre) row).
  - split; [by rewrite length_insert, length_replicate|]. intros k b Hk Hb.
    apply list_lookup_insert_Some in Hb as [(<- & -> & _)|[Hne [-> _]%lookup_replicate]].
    + split; [|done]. intros _. rewrite take_0. constructor.
    + split; [done|]. intros H. destruct k; [done|]. destruct v; [simpl in Hk; lia|]. inversion H.
  - intros pre [i c] suf row _ Hrow. rewrite fmap_app. by apply next_row_ok.
  - intros row [Hlen Hrow]. eapply wp_idx; [lia|]. intros b Hb.
    apply Hrow in Hb; [|lia]. rewrite Hb, firstn_all. unfold tokens, enumerate. by rewrite fmap_imap.
Qed.

(** ** Patterns as the constructors build them *)

Definition well_escaped (p : PolicyValue) : Prop :=
  increasing (escaped_wildcards p) /\ Forall (fun i => i < length (value p)) (escaped_wildcards p).

Lemma literal_tokens s : well_escaped (literal s) /\ tokens (literal s) = pattern_tokens s.
Proof.
  split; [split; [intros i j x y Hi; by destruct i|constructor]|].
  unfold tokens, literal, pattern_tokens. cbn [value escaped_wildcards]. rewrite <-imap_const.
  apply imap_ext. intros i c _. unfold token_at. by rewrite bool_decide_eq_false_2 by set_solver.
Qed.

Lemma tokens_app esc s t : Forall (fun i => i < length s) esc ->
  imap (token_at esc) (s ++ t) = imap (token_at esc) s ++ pattern_tokens t.
Proof.
  intros Hesc. rewrite imap_app. f_equal. unfold pattern_tokens. rewrite <-imap_const.
  apply imap_ext. intros i c _. unfold token_at. rewrite bool_decide_eq_false_2; [done|].
  rewrite list.Forall_forall in Hesc. intros ?%Hesc. lia.
Qed.

Lemma tokens_escape p c : well_escaped p ->
  tokens (MkPolicyValue (value p ++ [c]) (escaped_wildcards p ++ [length (value p)])) = tokens p ++ [Lit c].
Proof.
  intros [_ Hesc]. unfold tokens. cbn [value escaped_wildcards]. rewrite imap_app. f_equal.
  - apply imap_ext. intros i x Hi%lookup_lt_Some. unfold token_at.
    rewrite (bool_decide_ext _ (i ∈ escaped_wildcards p)); [done|]. rewrite elem_of_app, list_elem_of_singleton.
    split; [intros [?| ->]; [done|lia]|auto].
  - unfold token_at. cbn. rewrite bool_decide_eq_true_2; [done|]. apply elem_of_app. right.
    apply list_elem_of_singleton. lia.
Qed.

Lemma push_piece_tokens p x : well_escaped p -> well_escaped (push p x) /\ tokens (push p x) = tokens p ++ piece_tokens x.
Proof.
  intros Hp. pose proof Hp as [Hinc Hlt].
  assert (forall k, Forall (fun i => i < length (value p) + k) (escaped_wildcards p)) as Hmore
    by (intros k; eapply list.Forall_impl; [done|simpl; lia]).
  destruct x; simpl; (split; [split; cbn; rewrite ?length_app|]).
  - done.
  - apply Hmore.
  - unfold tokens. by apply tokens_app.
  - by apply increasing_snoc.
  - apply list.Forall_app. split; [apply Hmore|]. constructor; [simpl; lia|done].
  - by apply tokens_escape.
  - by apply increasing_snoc.
  - apply list.Forall_app. split; [apply Hmore|]. constructor; [simpl; lia|done].
  - by apply tokens_escape.
Qed.

Lemma build_tokens pieces : forall p, well_escaped p ->
  well_escaped (foldl push p pieces) /\ tokens (foldl push p pieces) = tokens p ++ (pieces ≫= piece_tokens).
Proof.
  induction pieces as [|x pieces IH]; intros p Hp; cbn; [by rewrite app_nil_r|].
  destruct (push_piece_tokens p x Hp) as [Hx Ht]. destruct (IH _ Hx) as [H1 H2].
  split; [done|]. by rewrite H2, Ht, app_assoc.
Qed.

(** What the matchers answer, as booleans *)
Lemma wildcard_matches_glob {E} pattern v :
  exists b, wildcard_matches (E:=E) pattern v = Ok b /\ (b = true <-> glob (pattern_tokens pattern) v).
Proof.
  destruct (literal_tokens pattern) as [[Hinc _] Ht]. pose proof (matches_tokens (E:=E) _ v (fun _ => False) Hinc) as H.
  rewrite Ht in H. unfold wildcard_matches. by destruct (policy_value_wildcard_matches _ _); [eexists|..].
Qed.

(** C29: The matcher never panics, and it accepts exactly the values that the glob relation
    accepts: pattern text keeps its wildcards, and a pushed asterisk or question mark
    stands for itself.  The pattern is one that the constructors build: a literal with
    any sequence of appended pieces. *)
Theorem wildcard_matching {E} (start : str) (pieces : list piece) (v : str) :
  exists b, policy_value_wildcard_matches (E:=E) (foldl push (literal start) pieces) v = Ok b /\
    (b = true <-> glob (pattern_tokens start ++ (pieces ≫= piece_tokens)) v).
Proof.
  destruct (literal_tokens start) as [Hw Ht]. destruct (build_tokens pieces _ Hw) as [[Hinc _] Hts].
  rewrite Ht in Hts. rewrite <-Hts. pose proof (matches_tokens (E:=E) _ v (fun _ => False) Hinc) as H.
  by destruct (policy_value_wildcard_matches _ _); [eexists|..].
Qed.

End Policy.

(** * The actions of bucket_policy.rs *)
Module BucketPolicy.
Import Str Search Policy.

Inductive PolicyAction :=
  | DeleteBucket | GetBucketPolicy | PutBucketPolicy | DeleteBucketPolicy | GetBucketLocation
  | GetBucketCors | GetBucketAcl | GetBucketVersioning | GetBucketOwnershipControls | GetBucketTagging
  | GetEncryptionConfiguration | GetLifecycleConfiguration | GetBucketPolicyStatus
  | GetBucketPublicAccessBlock | GetBucketObjectLockConfiguration | ListBucket | ListBucketVersions
  | ListBucketMultipartUploads | PutBucketAcl | PutBucketCors | PutBucketVersioning
  | PutBucketOwnershipControls | PutBucketTagging | PutEncryptionConfiguration | PutLifecycleConfiguration
  | PutBucketPublicAccessBlock | PutBucketObjectLockConfiguration | ListTagsForResource | TagResource
  | UntagResource | GetObject | GetObjectVersion | GetObjectAttributes | GetObjectVersionAttributes
  | GetObjectAcl | GetObjectVersionAcl | GetObjectTagging | GetObjectVersionTagging | GetObjectRetention
  | GetObjectLegalHold | PutObject | PutObjectAcl | PutObjectVersionAcl | PutObjectTagging
  | PutObjectVersionTagging | PutObjectRetention | PutObjectLegalHold | BypassGovernanceRetention
  | AbortMultipartUpload | DeleteObject | DeleteObjectVersion | DeleteObjectTagging
  | DeleteObjectVersionTagging.

Definition PolicyAction_as_str (self : PolicyAction) : str :=
  match self with
  | DeleteBucket => lit "s3:DeleteBucket"
  | GetBucketPolicy => lit "s3:GetBucketPolicy"
  | PutBucketPolicy => lit "s3:PutBucketPolicy"
  | DeleteBucketPolicy => lit "s3:DeleteBucketPolicy"
  | GetBucketLocation => lit "s3:GetBucketLocation"
  | GetBucketCors => lit "s3:GetBucketCORS"
  | GetBucketAcl => lit "s3:GetBucketAcl"
  | GetBucketVersioning => lit "s3:GetBucketVersioning"
  | GetBucketOwnershipControls => lit "s3:GetBucketOwnershipControls"
  | GetBucketTagging => lit "s3:GetBucketTagging"
  | GetEncryptionConfiguration => lit "s3:GetEncryptionConfiguration"
  | GetLifecycleConfiguration => lit "s3:GetLifecycleConfiguration"
  | GetBucketPolicyStatus => lit "s3:GetBucketPolicyStatus"
  | GetBucketPublicAccessBlock => lit "s3:GetBucketPublicAccessBlock"
  | GetBucketObjectLockConfiguration => lit "s3:GetBucketObjectLockConfiguration"
  | ListBucket => lit "s3:ListBucket"
  | ListBucketVersions => lit "s3:ListBucketVersions"
  | ListBucketMultipartUploads => lit "s3:ListBucketMultipartUploads"
  | PutBucketAcl => lit "s3:PutBucketAcl"
  | PutBucketCors => lit "s3:PutBucketCORS"
  | PutBucketVersioning => lit "s3:PutBucketVersioning"
  | PutBucketOwnershipControls => lit "s3:PutBucketOwnershipControls"
  | PutBucketTagging => lit "s3:PutBucketTagging"
  | PutEncryptionConfiguration => lit "s3:PutEncryptionConfiguration"
  | PutLifecycleConfiguration => lit "s3:PutLifecycleConfiguration"
  | PutBucketPublicAccessBlock => lit "s3:PutBucketPublicAccessBlock"
  | PutBucketObjectLockConfiguration => lit "s3:PutBucketObjectLockConfiguration"
  | ListTagsForResource => lit "s3:ListTagsForResource"
  | TagResource => lit "s3:TagResource"
  | UntagResource => lit "s3:UntagResource"
  | GetObject => lit "s3:GetObject"
  | GetObjectVersion => lit "s3:GetObjectVersion"
  | GetObjectAttributes => lit "s3:GetObjectAttributes"
  | GetObjectVersionAttributes => lit "s3:GetObjectVersionAttributes"
  | GetObjectAcl => lit "s3:GetObjectAcl"
  | GetObjectVersionAcl => lit "s3:GetObjectVersionAcl"
  | GetObjectTagging => lit "s3:GetObjectTagging"
  | GetObjectVersionTagging => lit "s3:GetObjectVersionTagging"
  | GetObjectRetention => lit "s3:GetObjectRetention"
  | GetObjectLegalHold => lit "s3:GetObjectLegalHold"
  | PutObject => lit "s3:PutObject"
  | PutObjectAcl => lit "s3:PutObjectAcl"
  | PutObjectVersionAcl => lit "s3:PutObjectVersionAcl"
  | PutObjectTagging => lit "s3:PutObjectTagging"
  | PutObjectVersionTagging => lit "s3:PutObjectVersionTagging"
  | PutObjectRetention => lit "s3:PutObjectRetention"
  | PutObjectLegalHold => lit "s3:PutObjectLegalHold"
  | BypassGovernanceRetention => lit "s3:BypassGovernanceRetention"
  | AbortMultipartUpload => lit "s3:AbortMultipartUpload"
  | DeleteObject => lit "s3:DeleteObject"
  | DeleteObjectVersion => lit "s3:DeleteObjectVersion"
  | DeleteObjectTagging => lit "s3:DeleteObjectTagging"
  | DeleteObjectVersionTagging => lit "s3:DeleteObjectVersionTagging"
  end.

#[export] Instance PolicyAction_eq_dec : EqDecision PolicyAction.
Proof. solve_decision. Defined.

Definition SUPPORTED_BUCKET_POLICY_BUCKET_ACTIONS : list PolicyAction :=
  [DeleteBucket; GetBucketPolicy; PutBucketPolicy; DeleteBucketPolicy; GetBucketLocation; GetBucketCors;
  GetBucketAcl; GetBucketVersioning; GetBucketOwnershipControls; GetBucketTagging;
  GetEncryptionConfiguration; GetLifecycleConfiguration; GetBucketPolicyStatus; GetBucketPublicAccessBlock;
  GetBucketObjectLockConfiguration; ListBucket; ListBucketVersions; ListBucketMultipartUploads;
  PutBucketAcl; PutBucketCors; PutBucketVersioning; PutBucketOwnershipControls; PutBucketTagging;
  PutEncryptionConfiguration; PutLifecycleConfiguration; PutBucketPublicAccessBlock;
  PutBucketObjectLockConfiguration; ListTagsForResource; TagResource; UntagResource].

Definition SUPPORTED_BUCKET_POLICY_OBJECT_ACTIONS : list PolicyAction :=
  [GetObject; GetObjectVersion; GetObjectAttributes; GetObjectVersionAttributes; GetObjectAcl;
  GetObjectVersionAcl; GetObjectTagging; GetObjectVersionTagging; GetObjectRetention; GetObjectLegalHold;
  PutObject; PutObjectAcl; PutObjectVersionAcl; PutObjectTagging; PutObjectVersionTagging;
  PutObjectRetention; PutObjectLegalHold; BypassGovernanceRetention; AbortMultipartUpload; DeleteObject;
  DeleteObjectVersion; DeleteObjectTagging; DeleteObjectVersionTagging].

Definition policy_action_pattern_is_supported {E} (pattern : str) : outcome E bool :=
  anyM (fun action => action_pattern_matches pattern (PolicyAction_as_str action))
    (SUPPORTED_BUCKET_POLICY_BUCKET_ACTIONS ++ SUPPORTED_BUCKET_POLICY_OBJECT_ACTIONS).

(** Every action of the enumeration is in one of the two tables. *)
Lemma supported_actions a :
  a ∈ SUPPORTED_BUCKET_POLICY_BUCKET_ACTIONS ++ SUPPORTED_BUCKET_POLICY_OBJECT_ACTIONS.
Proof. destruct a; vm_compute; repeat constructor. Qed.

End BucketPolicy.
