(* ===== verification/Identity.v ===== *)
(** IAM identities, crates/auth/src/identity.rs, with the account identity of
    crates/s3-types/src/lib.rs: the validated names, the parser of principal ARNs, role
    and session identities.  The theorems: which texts the parser takes, that the ARN of
    a role identifies it, and when the ARN a role carries is one the parser takes. *)

From Stdlib Require Import ZifyBool.
From stdpp Require Import strings.
From S2P Require Import Prelude Machine Str Utf8.

Local Open Scope Z_scope.

(** * s3-types: account identities *)
Module Account.
Import Str Machine.

(** [s.len()] and [s.bytes()] *)
Definition bytes (s : str) : list Z := byte.unsigned <$> as_bytes s.

(** [s.splitn(n, c)] *)
Fixpoint splitn (n : nat) (c : Z) (s : str) : list str :=
  match n with
  | O => []
  | S O => [s]
  | S n' => match split_once c s with
            | None => [s]
            | Some (a, b) => a :: splitn n' c b
            end
  end.

(** [s.rsplit_once(c)] *)
Definition rsplit_once (c : Z) (s : str) : option (str * str) :=
  (fun '(a, b) => (rev b, rev a)) <$> split_once c (rev s).

Definition starts_with (c : Z) (s : str) : bool := bool_decide (s !! 0%nat = Some c).
Definition ends_with (c : Z) (s : str) : bool := bool_decide (list.last s = Some c).

Definition is_ascii_digit (b : Z) : bool := in_range b 48 57.
Definition is_ascii_uppercase (b : Z) : bool := in_range b 65 90.
Definition is_ascii_alphanumeric (b : Z) : bool :=
  is_ascii_digit b || is_ascii_uppercase b || in_range b 97 122.

Definition AWS_ACCOUNT_ID_LEN : Z := 12.

Definition is_valid_aws_account_id (account_id : str) : bool :=
  (len (bytes account_id) =? AWS_ACCOUNT_ID_LEN) && forallb is_ascii_digit (bytes account_id).

Definition aws_account_id_from_principal (principal : str) : option str :=
  if is_valid_aws_account_id principal then Some principal else
  rest ← strip_prefix (lit "arn:") principal;
  let parts := splitn 6 58 rest in
  _partition ← parts !! 0%nat;
  service ← parts !! 1%nat;
  if negb (bool_decide (service = lit "iam")) then None else
  _region ← parts !! 2%nat;
  account_id ← parts !! 3%nat;
  _resource ← parts !! 4%nat;
  if is_valid_aws_account_id account_id then Some account_id else None.

Record AccountIdentity := MkAccountIdentity {
  principal : str;
  canonical_user_id : str;
  display_name : str
}.

Definition account_id (self : AccountIdentity) : option str := aws_account_id_from_principal (principal self).

#[export] Instance AccountIdentity_eq_dec : EqDecision AccountIdentity.
Proof. solve_decision. Defined.

(** ** Lemmas on strings and their bytes *)

Lemma bytes_app a b : bytes (a ++ b) = bytes a ++ bytes b.
Proof. unfold bytes, as_bytes. by rewrite bind_app, fmap_app. Qed.

Lemma bytes_ascii s : Forall ascii s -> bytes s = s.
Proof.
  intros Hs. unfold bytes. rewrite as_bytes_ascii by done. rewrite <-list_fmap_compose.
  rewrite <-(list_fmap_id s) at 2. apply list_fmap_ext. intros i c Hc.
  rewrite Forall_lookup in Hs. specialize (Hs i c Hc). unfold ascii in Hs. simpl.
  rewrite byte.unsigned_of_Z. unfold byte.wrap. apply Z.mod_small. lia.
Qed.

Lemma bytes_elem c s : c ∈ s -> ascii c -> c ∈ bytes s.
Proof.
  intros [a [b ->]]%list_elem_of_split Hc. change (a ++ c :: b) with (a ++ [c] ++ b).
  rewrite !bytes_app, (bytes_ascii [c]) by (by apply list.Forall_singleton). rewrite !elem_of_app. right. left. left.
Qed.

(** A character whose byte the test rejects does not occur where all bytes pass it. *)
Lemma bytes_avoid P c s : ascii c -> P c = false -> forallb P (bytes s) = true -> Forall (fun x => x <> c) s.
Proof.
  intros Hc HP Hs. apply list.Forall_forall. intros x Hx ->. apply bytes_elem in Hx; [|done].
  rewrite forallb_forall in Hs. rewrite Hs in HP; [done|]. by apply list_elem_of_In.
Qed.

Lemma rsplit_once_app c a b : Forall (fun x => x <> c) b -> rsplit_once c (a ++ c :: b) = Some (a, b).
Proof.
  intros Hb. unfold rsplit_once. replace (rev (a ++ c :: b)) with (rev b ++ c :: rev a).
  - rewrite split_once_app by (by apply Forall_rev). simpl. by rewrite !rev_involutive.
  - by rewrite rev_app_distr; cbn [rev]; rewrite <-app_assoc.
Qed.

Lemma rsplit_once_None c s : Forall (fun x => x <> c) s -> rsplit_once c s = None.
Proof. intros Hs. unfold rsplit_once. by rewrite split_once_None by (by apply Forall_rev). Qed.

Lemma account_digits a : is_valid_aws_account_id a = true -> Forall (fun x => x <> 58) a.
Proof. intros [_ H]%andb_prop. by apply (bytes_avoid is_ascii_digit). Qed.

End Account.

(** * identity.rs *)
Module Identity.
Import Str Machine Account.

Definition STABLE_ROLE_ID_PREFIX : str := lit "ARGR".
Definition STABLE_ROLE_ID_LEN : Z := 24.
Definition ROLE_NAME_MAX_LEN : Z := 64.
Definition IAM_PATH_MAX_LEN : Z := 512.
Definition ROLE_SESSION_NAME_MIN_LEN : Z := 2.
Definition ROLE_SESSION_NAME_MAX_LEN : Z := 64.
Definition SOURCE_IDENTITY_MIN_LEN : Z := 2.
Definition SOURCE_IDENTITY_MAX_LEN : Z := 256.

Inductive IdentityError :=
  | InvalidAccountId | InvalidStableRoleId | InvalidRoleName | InvalidRoleArn | InvalidIamPath
  | InvalidSourceIdentity | InvalidSessionLifetime | AccountMismatch.

Inductive RoleSessionNameError :=
  | TooShort | TooLong | InvalidCharacter | TooShortAndInvalidCharacter | TooLongAndInvalidCharacter.

(** The types of [string_identity!], each a string behind its constructor *)
Definition AwsAccountId : Type := str.
Definition StableRoleId : Type := str.
Definition RoleName : Type := str.
Definition IamPath : Type := str.
Definition RoleSessionName : Type := str.
Definition SourceIdentity : Type := str.
Definition IamRoleArn : Type := str.
Definition IamUserArn : Type := str.
Definition AssumedRoleSessionArn : Type := str.
Definition AssumedRoleId : Type := str.

Definition AwsAccountId_new (value : str) : outcome IdentityError AwsAccountId :=
  if negb (is_valid_aws_account_id value) then Err InvalidAccountId else Ok value.

(** The prefix is ASCII, so that the slice after it starts at a character. *)
Definition StableRoleId_new (value : str) : outcome IdentityError StableRoleId :=
  let valid := (len (bytes value) =? STABLE_ROLE_ID_LEN)
    && bool_decide (is_Some (strip_prefix STABLE_ROLE_ID_PREFIX value))
    && forallb (fun byte => is_ascii_uppercase byte || is_ascii_digit byte)
         (dropZ (len (bytes STABLE_ROLE_ID_PREFIX)) (bytes value)) in
  if negb valid then Err InvalidStableRoleId else Ok value.

Definition is_iam_name_byte (b : Z) : bool :=
  is_ascii_alphanumeric b || existsb (Z.eqb b) (lit "_+=,.@-").

Definition RoleName_new (value : str) : outcome IdentityError RoleName :=
  if (len (bytes value) =? 0) || (ROLE_NAME_MAX_LEN <? len (bytes value))
     || negb (forallb is_iam_name_byte (bytes value))
  then Err InvalidRoleName else Ok value.

(** [/] *)
Definition SLASH : Z := 47.

(** Both ends of the slice are next to an ASCII character, and in range at length three
    and more. *)
Definition IamPath_new (value : str) : outcome IdentityError IamPath :=
  let n := len (bytes value) in
  let valid := bool_decide (value = [SLASH])
    || ((3 <=? n) && (n <=? IAM_PATH_MAX_LEN)
        && starts_with SLASH value && ends_with SLASH value
        && forallb (fun byte => in_range byte 0x21 0x7e) (takeZ (n - 2) (dropZ 1 (bytes value)))) in
  if negb valid then Err InvalidIamPath else Ok value.

Inductive IamPrincipalArnKind := Root | User | Role.

#[export] Instance IamPrincipalArnKind_eq_dec : EqDecision IamPrincipalArnKind.
Proof. solve_decision. Defined.

Record ParsedIamPrincipalArn := MkParsedIamPrincipalArn {
  parsed_account_id : AwsAccountId;
  kind : IamPrincipalArnKind
}.

Definition valid_iam_principal_name_and_path (value : str) : bool :=
  if (len (bytes value) =? 0) || starts_with SLASH value || ends_with SLASH value
     || existsb (fun byte => (byte =? 42) || (byte =? 63)) (bytes value)
  then false else
  let '(path, name) := default ([], value) (rsplit_once SLASH value) in
  if negb (is_ok (RoleName_new name)) then false else
  (len (bytes path) =? 0) || is_ok (IamPath_new ([SLASH] ++ path ++ [SLASH])).

(** [option.is_some_and(f)] *)
Definition is_some_and {A} (o : option A) (f : A -> bool) : bool :=
  match o with Some x => f x | None => false end.

Definition ARN_PREFIX : str := lit "arn:aws:iam::".

Definition parse_iam_principal_arn (value : str) : option ParsedIamPrincipalArn :=
  rest ← strip_prefix ARN_PREFIX value;
  p ← split_once 58 rest;
  let '(account_id, qualifier) := p in
  match AwsAccountId_new account_id with
  | Ok account_id =>
      if bool_decide (qualifier = lit "root") then Some (MkParsedIamPrincipalArn account_id Root)
      else if is_some_and (strip_prefix (lit "user/") qualifier) valid_iam_principal_name_and_path
      then Some (MkParsedIamPrincipalArn account_id User)
      else if is_some_and (strip_prefix (lit "role/") qualifier) valid_iam_principal_name_and_path
      then Some (MkParsedIamPrincipalArn account_id Role)
      else None
  | _ => None
  end.

Definition from_configured_principal (value : str) (expected_account_id : option str) : option IamUserArn :=
  parsed ← parse_iam_principal_arn value;
  if bool_decide (kind parsed <> User) || bool_decide (expected_account_id <> Some (parsed_account_id parsed))
  then None else Some value.

Definition IamRoleArn_new (value : str) : outcome IdentityError IamRoleArn :=
  parsed ← ok_or (parse_iam_principal_arn value) InvalidRoleArn;
  if bool_decide (kind parsed <> Role) then Err InvalidRoleArn else Ok value.

Definition RoleSessionName_new (value : str) : outcome RoleSessionNameError RoleSessionName :=
  let length := len value in
  let invalid_character := negb (forallb is_iam_name_byte (bytes value)) in
  let error :=
    if length <? ROLE_SESSION_NAME_MIN_LEN then
      Some (if invalid_character then TooShortAndInvalidCharacter else TooShort)
    else if ROLE_SESSION_NAME_MAX_LEN <? length then
      Some (if invalid_character then TooLongAndInvalidCharacter else TooLong)
    else if invalid_character then Some InvalidCharacter
    else None in
  match error with Some e => Err e | None => Ok value end.

Definition SourceIdentity_new (value : str) : outcome IdentityError SourceIdentity :=
  if negb (in_range (len value) SOURCE_IDENTITY_MIN_LEN SOURCE_IDENTITY_MAX_LEN)
     || negb (forallb is_iam_name_byte (bytes value))
  then Err InvalidSourceIdentity else Ok value.

Record IamRoleIdentity := MkIamRoleIdentity {
  role_account_id : AwsAccountId;
  stable_id : StableRoleId;
  name : RoleName;
  path : IamPath;
  arn : IamRoleArn
}.

#[export] Instance IamRoleIdentity_eq_dec : EqDecision IamRoleIdentity.
Proof. solve_decision. Defined.

Definition IamRoleIdentity_new (account_id : AwsAccountId) (stable_id : StableRoleId) (name : RoleName)
    (path : IamPath) : IamRoleIdentity :=
  MkIamRoleIdentity account_id stable_id name path
    (ARN_PREFIX ++ account_id ++ lit ":role" ++ path ++ name).

Record LiveRoleIdentity := MkLiveRoleIdentity {
  account : AccountIdentity;
  role : IamRoleIdentity
}.

Definition LiveRoleIdentity_new (account : AccountIdentity) (role : IamRoleIdentity) :
    outcome IdentityError LiveRoleIdentity :=
  if bool_decide (account_id account <> Some (role_account_id role)) then Err AccountMismatch
  else Ok (MkLiveRoleIdentity account role).

(** Times are seconds as i64. *)
Record SessionLifetime := MkSessionLifetime {
  issued_at_epoch_secs : Z;
  expires_at_epoch_secs : Z
}.

Inductive SessionAuthorizationContext := Version1NoSessionPolicy.

Definition SessionLifetime_new (issued expires : Z) : outcome IdentityError SessionLifetime :=
  if (issued <? 0) || (expires <=? issued) then Err InvalidSessionLifetime
  else Ok (MkSessionLifetime issued expires).

Record AssumedRoleSessionIdentity := MkAssumedRoleSessionIdentity {
  session_role : IamRoleIdentity;
  session_name : RoleSessionName;
  lifetime : SessionLifetime;
  source_identity : option SourceIdentity;
  session_arn : AssumedRoleSessionArn;
  assumed_role_id : AssumedRoleId;
  authorization_context : SessionAuthorizationContext
}.

Definition AssumedRoleSessionIdentity_new (role : IamRoleIdentity) (session_name : RoleSessionName)
    (lifetime : SessionLifetime) (source_identity : option SourceIdentity) : AssumedRoleSessionIdentity :=
  let session_arn := lit "arn:aws:sts::" ++ role_account_id role ++ lit ":assumed-role/" ++ name role
    ++ lit "/" ++ session_name in
  let assumed_role_id := stable_id role ++ lit ":" ++ session_name in
  MkAssumedRoleSessionIdentity role session_name lifetime source_identity session_arn assumed_role_id
    Version1NoSessionPolicy.

Definition ConfiguredPrincipalIdentity : Type := str.

Inductive PrincipalIdentity :=
  | Configured (principal : ConfiguredPrincipalIdentity) (iam_user_arn : option IamUserArn)
  | AssumedRoleSession (session : AssumedRoleSessionIdentity).

Record AuthenticatedIdentity := MkAuthenticatedIdentity {
  identity_account : AccountIdentity;
  identity_principal : PrincipalIdentity
}.

Definition configured (account : AccountIdentity) (principal : ConfiguredPrincipalIdentity) : AuthenticatedIdentity :=
  let iam_user_arn := from_configured_principal principal (account_id account) in
  MkAuthenticatedIdentity account (Configured principal iam_user_arn).

Definition assumed_role_session (account : AccountIdentity) (session : AssumedRoleSessionIdentity) :
    outcome IdentityError AuthenticatedIdentity :=
  if bool_decide (account_id account <> Some (role_account_id (session_role session))) then Err AccountMismatch
  else Ok (MkAuthenticatedIdentity account (AssumedRoleSession session)).

Definition configured_principal (self : AuthenticatedIdentity) : option ConfiguredPrincipalIdentity :=
  match identity_principal self with Configured principal _ => Some principal | AssumedRoleSession _ => None end.

Definition configured_iam_user_arn (self : AuthenticatedIdentity) : option IamUserArn :=
  match identity_principal self with Configured _ arn => arn | AssumedRoleSession _ => None end.

Definition role_principal_arn (self : AuthenticatedIdentity) : option IamRoleArn :=
  match identity_principal self with Configured _ _ => None | AssumedRoleSession s => Some (arn (session_role s)) end.

Definition session_principal_arn (self : AuthenticatedIdentity) : option AssumedRoleSessionArn :=
  match identity_principal self with Configured _ _ => None | AssumedRoleSession s => Some (session_arn s) end.

Definition aws_userid (self : AuthenticatedIdentity) : option AssumedRoleId :=
  match identity_principal self with Configured _ _ => None | AssumedRoleSession s => Some (assumed_role_id s) end.

Definition role_session (self : AuthenticatedIdentity) : option AssumedRoleSessionIdentity :=
  match identity_principal self with Configured _ _ => None | AssumedRoleSession s => Some s end.

(** ** Lemmas on ARNs *)

Lemma AwsAccountId_new_Ok v a : AwsAccountId_new v = Ok a <-> is_valid_aws_account_id v = true /\ a = v.
Proof. unfold AwsAccountId_new. destruct (is_valid_aws_account_id v); naive_solver. Qed.

Lemma RoleName_new_Ok v n : RoleName_new v = Ok n ->
  n = v /\ v <> [] /\ forallb is_iam_name_byte (bytes v) = true.
Proof.
  unfold RoleName_new. destruct (_ || _) eqn:H; [done|]. intros [= <-]. split; [done|].
  apply orb_false_elim in H as [[H _]%orb_false_elim H2%negb_false_iff]. split; [|done].
  by intros ->.
Qed.

Lemma name_no_slash v : forallb is_iam_name_byte (bytes v) = true -> Forall (fun x => x <> SLASH) v.
Proof. intros H. by apply (bytes_avoid is_iam_name_byte). Qed.

Lemma snoc_of_last {A} (l : list A) x : list.last l = Some x -> exists k, l = k ++ [x].
Proof. intros H. apply last_Some in H. destruct H as [k ->]. eauto. Qed.

Lemma IamPath_new_Ok v p : IamPath_new v = Ok p ->
  p = v /\ (v = [SLASH] \/ exists inner, v = SLASH :: inner ++ [SLASH]).
Proof.
  unfold IamPath_new. destruct (negb _) eqn:H; [done|]. intros [= <-]. split; [done|].
  apply negb_false_iff, orb_prop in H as [H|H]; [left; by apply bool_decide_eq_true in H|right].
  apply andb_prop in H as [[[[H1 _]%andb_prop H2]%andb_prop H3]%andb_prop _].
  apply bool_decide_eq_true in H2, H3. destruct v as [|x v]; [done|]. injection H2 as ->.
  apply snoc_of_last in H3 as [k Hk]. destruct k as [|y k]; [injection Hk as ->; vm_compute in H1; done|].
  injection Hk as -> ->. eauto.
Qed.

(** The kind of the part of an ARN behind the account *)
Definition qualifier_kind (q : str) : option IamPrincipalArnKind :=
  if bool_decide (q = lit "root") then Some Root
  else if is_some_and (strip_prefix (lit "user/") q) valid_iam_principal_name_and_path then Some User
  else if is_some_and (strip_prefix (lit "role/") q) valid_iam_principal_name_and_path then Some Role
  else None.

Lemma parse_arn a q : is_valid_aws_account_id a = true ->
  parse_iam_principal_arn (ARN_PREFIX ++ a ++ 58 :: q) = MkParsedIamPrincipalArn a <$> qualifier_kind q.
Proof.
  intros Ha. unfold parse_iam_principal_arn. rewrite strip_prefix_app. cbn [mbind option_bind].
  rewrite split_once_app by (by apply account_digits). cbn [mbind option_bind]. unfold AwsAccountId_new.
  rewrite Ha. unfold qualifier_kind. cbn [negb]. by repeat case_match.
Qed.

Lemma parse_arn_Some v a k : parse_iam_principal_arn v = Some (MkParsedIamPrincipalArn a k) ->
  exists q, v = ARN_PREFIX ++ a ++ 58 :: q /\ is_valid_aws_account_id a = true /\ qualifier_kind q = Some k.
Proof.
  intros H. assert (exists rest a' q, strip_prefix ARN_PREFIX v = Some rest /\ split_once 58 rest = Some (a', q) /\
    is_valid_aws_account_id a' = true) as (rest & a' & q & H1 & H2 & H3).
  { unfold parse_iam_principal_arn in H. destruct (strip_prefix ARN_PREFIX v) as [rest|]; [|done].
    cbn [mbind option_bind] in H. destruct (split_once 58 rest) as [[a' q]|] eqn:Hs; [|done].
    cbn [mbind option_bind] in H. destruct (AwsAccountId_new a') eqn:Ha; [|done..].
    apply AwsAccountId_new_Ok in Ha as [Ha _]. eauto 10. }
  apply strip_prefix_Some in H1 as ->. apply split_once_Some in H2 as [-> _].
  rewrite parse_arn in H by done. destruct (qualifier_kind q) as [k'|] eqn:Hq; [|done].
  injection H as <- <-. eauto.
Qed.

Lemma parse_root a : is_valid_aws_account_id a = true ->
  parse_iam_principal_arn (ARN_PREFIX ++ a ++ lit ":root") = Some (MkParsedIamPrincipalArn a Root).
Proof. intros Ha. change (lit ":root") with (58 :: lit "root"). by rewrite parse_arn. Qed.

(** ** Roles made by the constructors *)

Definition well_formed_role (r : IamRoleIdentity) : Prop :=
  is_Some (match AwsAccountId_new (role_account_id r) with Ok a => Some a | _ => None end) /\
  RoleName_new (name r) = Ok (name r) /\ IamPath_new (path r) = Ok (path r) /\
  r = IamRoleIdentity_new (role_account_id r) (stable_id r) (name r) (path r).

Lemma well_formed_role_account r : well_formed_role r -> is_valid_aws_account_id (role_account_id r) = true.
Proof.
  intros [H _]. unfold AwsAccountId_new in H. destruct (is_valid_aws_account_id _); [done|]. by destruct H.
Qed.

Lemma arn_eq r : well_formed_role r ->
  arn r = ARN_PREFIX ++ role_account_id r ++ 58 :: lit "role" ++ path r ++ name r.
Proof. intros (_ & _ & _ & Hr). by rewrite Hr at 1. Qed.

(** Text that ends with the separator, followed by text without it *)
Lemma split_last_inj (c : Z) a a' b b' : Forall (fun x => x <> c) b -> Forall (fun x => x <> c) b' ->
  (a ++ [c]) ++ b = (a' ++ [c]) ++ b' -> a = a' /\ b = b'.
Proof.
  intros Hb Hb' H. rewrite <-!app_assoc in H.
  pose proof (rsplit_once_app c a b Hb) as H1. pose proof (rsplit_once_app c a' b' Hb') as H2.
  change (c :: b) with ([c] ++ b) in H1. change (c :: b') with ([c] ++ b') in H2. rewrite H in H1. naive_solver.
Qed.

Lemma path_snoc p : IamPath_new p = Ok p -> exists k, p = k ++ [SLASH].
Proof.
  intros [_ [->|[inner ->]]]%IamPath_new_Ok; [by exists []|]. exists (SLASH :: inner). done.
Qed.

Lemma role_arn_identifies r1 r2 : well_formed_role r1 -> well_formed_role r2 -> arn r1 = arn r2 ->
  role_account_id r1 = role_account_id r2 /\ path r1 = path r2 /\ name r1 = name r2.
Proof.
  intros W1 W2 H. rewrite !arn_eq in H by done. apply app_inv_head in H.
  pose proof (split_once_app 58 _ (lit "role" ++ path r1 ++ name r1) (account_digits _ (well_formed_role_account _ W1))) as S1.
  pose proof (split_once_app 58 _ (lit "role" ++ path r2 ++ name r2) (account_digits _ (well_formed_role_account _ W2))) as S2.
  rewrite H, S2 in S1. injection S1 as Ha Hp. symmetry in Hp.
  destruct W1 as (_ & N1 & P1 & _), W2 as (_ & N2 & P2 & _).
  apply path_snoc in P1 as [k1 P1], P2 as [k2 P2]. rewrite P1, P2 in *.
  apply RoleName_new_Ok in N1 as (_ & _ & N1%name_no_slash), N2 as (_ & _ & N2%name_no_slash).
  apply split_last_inj in Hp as [-> ->]; done.
Qed.

(** ** Which role ARNs the parser takes *)

Definition is_wildcard (c : Z) : bool := (c =? 42) || (c =? 63).

Lemma existsb_app_false {A} f (l k : list A) : existsb f k = false -> existsb f (l ++ k) = existsb f l.
Proof. intros H. by rewrite existsb_app, H, orb_false_r. Qed.

Lemma name_no_wildcard n : forallb is_iam_name_byte (bytes n) = true -> existsb is_wildcard (bytes n) = false.
Proof.
  intros H. apply not_true_is_false. intros (x & Hx & Hw)%existsb_exists. rewrite forallb_forall in H.
  apply H in Hx. unfold is_wildcard in Hw. apply orb_prop in Hw as [->%Z.eqb_eq| ->%Z.eqb_eq]; done.
Qed.

Lemma ends_with_app c a b : b <> [] -> ends_with c (a ++ b) = ends_with c b.
Proof.
  intros Hb. unfold ends_with. destruct b as [|x b _] using rev_ind; [done|].
  by rewrite app_assoc, !last_snoc.
Qed.

Lemma ends_with_avoid c b : Forall (fun x => x <> c) b -> ends_with c b = false.
Proof.
  intros Hb. apply bool_decide_eq_false. intros [k ->]%snoc_of_last.
  apply list.Forall_app in Hb as [_ Hb]. by inversion Hb.
Qed.

Lemma len_bytes_pos s : s <> [] -> len (bytes s) <> 0.
Proof.
  destruct s as [|c s]; [done|]. intros _. change (c :: s) with ([c] ++ s). rewrite bytes_app, len_app.
  assert (0 < len (bytes [c])) by (unfold bytes, as_bytes, char_bytes, len; simpl; by repeat case_match).
  pose proof (len_nonneg (bytes s)). lia.
Qed.

(** The name and path of a role: the path behind its first separator, then the name *)
Lemma valid_name_and_path inner n :
  forallb is_iam_name_byte (bytes n) = true -> n <> [] -> RoleName_new n = Ok n ->
  (inner = [] \/ exists k, inner = k ++ [SLASH] /\ IamPath_new (SLASH :: inner) = Ok (SLASH :: inner)) ->
  valid_iam_principal_name_and_path (inner ++ n) =
    negb (starts_with SLASH inner) && negb (existsb is_wildcard (bytes inner)).
Proof.
  intros Hb Hn HN Hpath. pose proof (name_no_slash _ Hb) as Hs. unfold valid_iam_principal_name_and_path.
  rewrite (proj2 (Z.eqb_neq _ _)) by (apply len_bytes_pos; by destruct inner).
  rewrite ends_with_app, ends_with_avoid, orb_false_r by done. cbn [orb].
  rewrite bytes_app. fold is_wildcard. rewrite existsb_app_false by (by apply name_no_wildcard).
  destruct Hpath as [->|(k & -> & Hp)].
  - cbn [app]. rewrite rsplit_once_None by done. cbn [default]. rewrite HN. cbn.
    unfold starts_with. destruct n as [|c n]; [done|]. inversion Hs; subst.
    by rewrite bool_decide_eq_false_2 by (cbn; congruence).
  - rewrite <-app_assoc. change (k ++ [SLASH] ++ n) with (k ++ SLASH :: n). rewrite (rsplit_once_app SLASH k n Hs). cbn [default from_option id]. rewrite HN. cbn [is_ok negb].
    replace (starts_with SLASH (k ++ SLASH :: n)) with (starts_with SLASH (k ++ [SLASH])) by (by destruct k).
    change ([SLASH] ++ k ++ [SLASH]) with (SLASH :: k ++ [SLASH]). rewrite Hp. cbn [is_ok].
    rewrite orb_true_r. by destruct (starts_with _ _), (existsb _ _).
Qed.

Lemma role_arn_parses r : well_formed_role r ->
  parse_iam_principal_arn (arn r) =
    if existsb is_wildcard (bytes (path r)) || bool_decide (path r !! 1%nat = Some SLASH) then None
    else Some (MkParsedIamPrincipalArn (role_account_id r) Role).
Proof.
  intros W. rewrite arn_eq, parse_arn by (done || by apply well_formed_role_account).
  destruct W as (_ & N & P & _). pose proof (RoleName_new_Ok _ _ N) as (_ & Hn & Hb).
  pose proof (IamPath_new_Ok _ _ P) as [_ Hp].
  assert (exists inner, path r = SLASH :: inner /\ (inner = [] \/ exists k, inner = k ++ [SLASH] /\
    IamPath_new (SLASH :: inner) = Ok (SLASH :: inner))) as (inner & Hpath & Hinner).
  { destruct Hp as [Hp|[k Hp]]; rewrite Hp in *; [exists []|exists (k ++ [SLASH])]; eauto. }
  rewrite Hpath. unfold qualifier_kind. cbn [app].
  change (lit "role" ++ SLASH :: inner ++ name r) with (lit "role/" ++ (inner ++ name r)).
  rewrite bool_decide_eq_false_2 by (intros [=]). rewrite strip_prefix_app. cbn [is_some_and].
  change (strip_prefix (lit "user/") (lit "role/" ++ inner ++ name r)) with (@None str). cbn [is_some_and].
  rewrite valid_name_and_path by done. unfold starts_with.
  change (SLASH :: inner) with ([SLASH] ++ inner). rewrite bytes_app, existsb_app.
  change (existsb is_wildcard (bytes [SLASH])) with false. cbn [orb].
  change (([SLASH] ++ inner) !! 1%nat) with (inner !! 0%nat).
  by destruct (bool_decide _), (existsb _ _).
Qed.

(** C30: The ARN of a role made by the constructors identifies its account, path and name.  It
    is an ARN that [IamRoleArn::new] takes, and so one that a request can name, exactly
    when the path has no wildcard and does not start with two separators, which the
    constructor of paths allows. *)
Theorem role_arns r1 r2 : well_formed_role r1 -> well_formed_role r2 ->
  (arn r1 = arn r2 -> role_account_id r1 = role_account_id r2 /\ path r1 = path r2 /\ name r1 = name r2) /\
  IamRoleArn_new (arn r1) =
    if existsb is_wildcard (bytes (path r1)) || bool_decide (path r1 !! 1%nat = Some SLASH)
    then Err InvalidRoleArn else Ok (arn r1).
Proof.
  intros W1 W2. split; [by apply role_arn_identifies|]. unfold IamRoleArn_new.
  rewrite role_arn_parses by done. by destruct (_ || _).
Qed.

Definition sample_role (p : String.string) : IamRoleIdentity :=
  IamRoleIdentity_new (lit "123456789012") (lit "ARGR0123456789ABCDEFGHIJ") (lit "test-role") (lit p).

Lemma role_arns_witness :
  IamRoleArn_new (lit "arn:aws:iam::123456789012:role/team/test-role") = Ok (arn (sample_role "/team/")) /\
  IamRoleArn_new (arn (sample_role "/te*m/")) = Err InvalidRoleArn.
Proof.
  assert (forall p, IamPath_new (lit p) = Ok (lit p) -> well_formed_role (sample_role p)) as W.
  { intros p Hp. split; [by eexists|]. split; [done|]. split; [done|]. done. }
  split.
  - apply (role_arns (sample_role "/team/") (sample_role "/")); by apply W.
  - rewrite (proj2 (role_arns (sample_role "/te*m/") (sample_role "/")
      ltac:(by apply W) ltac:(by apply W))). reflexivity.
Defined.

End Identity.
