(* ===== verification/IamPolicy.v ===== *)
(** Typed IAM policies, crates/auth/src/iam_policy.rs, and the authorization records,
    crates/auth/src/authorization.rs.  Definitions. *)

From Stdlib Require Import ZifyBool.
From stdpp Require Import strings gmap.
From S2P Require Import Prelude Machine Str Policy Identity.

Local Open Scope Z_scope.

(** * iam_policy.rs *)
Module IamPolicy.
Import Str Machine Search Policy BucketPolicy Account Identity.

Definition IAM_POLICY_NAME_MAX_LEN : Z := 128.
Definition IAM_ACTION_PATTERN_MAX_LEN : Z := 128.
Definition IAM_RESOURCE_PATTERN_MAX_LEN : Z := 2048.

Inductive IamPolicyError :=
  | InvalidPolicyName | InvalidActionPattern | InvalidResourcePattern | EmptyPolicy | EmptyActions
  | EmptyResources | EmptyPrincipals | InvalidTrustPrincipal.

Definition InlinePolicyName : Type := str.

Definition InlinePolicyName_new (value : str) : outcome IamPolicyError InlinePolicyName :=
  let valid := negb (len (bytes value) =? 0)
    && (len (bytes value) <=? IAM_POLICY_NAME_MAX_LEN)
    && forallb (fun byte => is_ascii_alphanumeric byte || existsb (Z.eqb byte) (lit "_+=,.@-")) (bytes value) in
  if valid then Ok value else Err InvalidPolicyName.

Definition IamActionPattern : Type := str.

Definition ASSUME_ROLE : str := lit "sts:AssumeRole".

Definition IamActionPattern_new (value : str) : outcome IamPolicyError IamActionPattern :=
  let valid_shape := negb (len (bytes value) =? 0)
    && (len (bytes value) <=? IAM_ACTION_PATTERN_MAX_LEN)
    && forallb (fun byte => is_ascii_alphanumeric byte || existsb (Z.eqb byte) (lit ":*?-")) (bytes value) in
  s3 ← policy_action_pattern_is_supported value;
  supported ← (if s3 : bool then mret true else action_pattern_matches value ASSUME_ROLE);
  if valid_shape && supported then mret value else Err InvalidActionPattern.

Definition IamResourcePattern : Type := str.

(** [char::is_control] *)
Definition is_control (c : Z) : bool := in_range c 0 0x1F || in_range c 0x7F 0x9F.

Definition IamResourcePattern_new (value : str) : outcome IamPolicyError IamResourcePattern :=
  if negb (len (bytes value) =? 0) && (len (bytes value) <=? IAM_RESOURCE_PATTERN_MAX_LEN)
     && forallb (fun character => negb (is_control character)) value
  then Ok value else Err InvalidResourcePattern.

Inductive RoleTrustPrincipalKind :=
  | Any
  | Account (account_id : AwsAccountId)
  | AccountRoot (account_id : AwsAccountId)
  | ExactIamPrincipal (account_id : AwsAccountId).

Record RoleTrustPrincipal := MkRoleTrustPrincipal {
  trust_value : str;
  trust_kind : RoleTrustPrincipalKind
}.

(** An account identifier that has been validated is constructed without a second look. *)
Definition RoleTrustPrincipal_new (value : str) : outcome IamPolicyError RoleTrustPrincipal :=
  kind ← (if bool_decide (value = lit "*") then mret (Some Any)
          else if is_valid_aws_account_id value then
            a ← (match AwsAccountId_new value with Ok a => Ok a | _ => Panic end);
            mret (Some (Account a))
          else mret ((fun principal =>
            match kind principal with
            | Root => AccountRoot (parsed_account_id principal)
            | User | Role => ExactIamPrincipal (parsed_account_id principal)
            end) <$> parse_iam_principal_arn value));
  let kind := if len (bytes value) <=? IAM_RESOURCE_PATTERN_MAX_LEN then kind else None in
  ok_or ((fun kind => MkRoleTrustPrincipal value kind) <$> kind) InvalidTrustPrincipal.

Inductive RoleTrustPolicyEvaluation :=
  | TrustExplicitDeny | SameAccountDirectAllow | DelegatedAllow | TrustNoMatch.

Inductive InvalidRoleTrustCaller := MkInvalidRoleTrustCaller.

Inductive RoleTrustPrincipalMatch := Delegated | SameAccountDirect.

#[export] Instance RoleTrustPrincipalMatch_eq_dec : EqDecision RoleTrustPrincipalMatch.
Proof. solve_decision. Defined.
#[export] Instance RoleTrustPolicyEvaluation_eq_dec : EqDecision RoleTrustPolicyEvaluation.
Proof. solve_decision. Defined.

Definition strongest_principal_match (left right : option RoleTrustPrincipalMatch) : option RoleTrustPrincipalMatch :=
  if bool_decide (left = Some SameAccountDirect) || bool_decide (right = Some SameAccountDirect)
  then Some SameAccountDirect
  else match left with Some m => Some m | None => right end.

Definition matches_configured_caller (self : RoleTrustPrincipal) (caller_account_id : AwsAccountId)
    (caller_principal : ConfiguredPrincipalIdentity) (target_role : IamRoleIdentity) : option RoleTrustPrincipalMatch :=
  let by_account := if bool_decide (caller_account_id = role_account_id target_role)
                    then SameAccountDirect else Delegated in
  match trust_kind self with
  | Any => Some by_account
  | Account account_id | AccountRoot account_id =>
      if bool_decide (account_id = caller_account_id) then Some Delegated else None
  | ExactIamPrincipal account_id =>
      if bool_decide (account_id = caller_account_id) && bool_decide (trust_value self = caller_principal)
      then Some by_account else None
  end.

Record IdentityPolicyStatement := MkIdentityPolicyStatement {
  core : PolicyStatementCore;
  resources : list IamResourcePattern
}.

Definition IdentityPolicyStatement_new (effect : PolicyEffect) (actions : list IamActionPattern)
    (resources : list IamResourcePattern) : outcome IamPolicyError IdentityPolicyStatement :=
  if bool_decide (actions = []) then Err EmptyActions else
  if bool_decide (resources = []) then Err EmptyResources else
  Ok (MkIdentityPolicyStatement (MkPolicyStatementCore None effect actions []) resources).

Definition statement_matches {E} (self : IdentityPolicyStatement) (action resource : str) : outcome E bool :=
  a ← anyM (fun pattern => action_pattern_matches pattern action) (actions (core self));
  if a : bool then anyM (fun pattern => wildcard_matches pattern resource) (resources self) else mret false.

Record IdentityPolicy := MkIdentityPolicy {
  version : option PolicyVersion;
  statements : list IdentityPolicyStatement
}.

Inductive S3IdentityPolicyResource :=
  | Bucket (bucket : str)
  | Object (bucket key : str).

Inductive IdentityPolicyRequest :=
  | S3 (action : PolicyAction) (resource : S3IdentityPolicyResource)
  | StsAssumeRole (role : IamRoleIdentity).

Definition request_action (self : IdentityPolicyRequest) : str :=
  match self with
  | S3 action _ => PolicyAction_as_str action
  | StsAssumeRole _ => ASSUME_ROLE
  end.

Definition resource_arn (self : IdentityPolicyRequest) : str :=
  match self with
  | S3 _ (Bucket bucket) => lit "arn:aws:s3:::" ++ bucket
  | S3 _ (Object bucket key) => lit "arn:aws:s3:::" ++ bucket ++ lit "/" ++ key
  | StsAssumeRole role => arn role
  end.

Definition IdentityPolicy_new (version : option PolicyVersion) (statements : list IdentityPolicyStatement) :
    outcome IamPolicyError IdentityPolicy :=
  if bool_decide (statements <> []) then Ok (MkIdentityPolicy version statements) else Err EmptyPolicy.

(** The loop over the statements of a policy *)
Fixpoint evaluate_statements {E} (statements : list IdentityPolicyStatement) (action resource : str)
    (saw_allow : bool) : outcome E PolicyEvaluation :=
  match statements with
  | [] => Ok (if saw_allow then ExplicitAllow else NoMatch)
  | statement :: rest =>
      m ← statement_matches statement action resource;
      if negb m then evaluate_statements rest action resource saw_allow else
      match effect (core statement) with
      | Deny => Ok ExplicitDeny
      | Allow => evaluate_statements rest action resource true
      end
  end.

Definition evaluate {E} (self : IdentityPolicy) (request : IdentityPolicyRequest) : outcome E PolicyEvaluation :=
  evaluate_statements (statements self) (request_action request) (resource_arn request) false.

Definition SessionPolicy : Type := IdentityPolicy.

Record InlineIdentityPolicy := MkInlineIdentityPolicy {
  policy_name : InlinePolicyName;
  document : IdentityPolicy
}.

Record RoleTrustPolicyStatement := MkRoleTrustPolicyStatement {
  trust_core : PolicyStatementCore;
  principals : list RoleTrustPrincipal
}.

Definition RoleTrustPolicyStatement_new (effect : PolicyEffect) (principals : list RoleTrustPrincipal) :
    outcome IamPolicyError RoleTrustPolicyStatement :=
  if bool_decide (principals = []) then Err EmptyPrincipals
  else Ok (MkRoleTrustPolicyStatement (MkPolicyStatementCore None effect [ASSUME_ROLE] []) principals).

Record RoleTrustPolicy := MkRoleTrustPolicy {
  trust_version : option PolicyVersion;
  trust_statements : list RoleTrustPolicyStatement
}.

Definition RoleTrustPolicy_new (version : option PolicyVersion) (statements : list RoleTrustPolicyStatement) :
    outcome IamPolicyError RoleTrustPolicy :=
  if bool_decide (statements = []) then Err EmptyPolicy else Ok (MkRoleTrustPolicy version statements).

(** The strongest match among the principals of one statement *)
Definition statement_match (self : RoleTrustPolicyStatement) (caller_account_id : AwsAccountId)
    (caller_principal : ConfiguredPrincipalIdentity) (target_role : IamRoleIdentity) : option RoleTrustPrincipalMatch :=
  foldl (fun current candidate => strongest_principal_match current (Some candidate)) None
    (omap (fun principal => matches_configured_caller principal caller_account_id caller_principal target_role)
       (principals self)).

(** The loop over the statements of a trust policy *)
Fixpoint evaluate_trust_statements (statements : list RoleTrustPolicyStatement) (caller_account_id : AwsAccountId)
    (caller_principal : ConfiguredPrincipalIdentity) (target_role : IamRoleIdentity)
    (strongest_allow : option RoleTrustPrincipalMatch) : RoleTrustPolicyEvaluation :=
  match statements with
  | [] =>
      match strongest_allow with
      | Some SameAccountDirect => SameAccountDirectAllow
      | Some Delegated => DelegatedAllow
      | None => TrustNoMatch
      end
  | statement :: rest =>
      match statement_match statement caller_account_id caller_principal target_role with
      | None => evaluate_trust_statements rest caller_account_id caller_principal target_role strongest_allow
      | Some m =>
          match effect (trust_core statement) with
          | Deny => TrustExplicitDeny
          | Allow => evaluate_trust_statements rest caller_account_id caller_principal target_role
                       (strongest_principal_match strongest_allow (Some m))
          end
      end
  end.

Definition evaluate_configured_caller (self : RoleTrustPolicy) (caller_account_id : AwsAccountId)
    (caller_principal : ConfiguredPrincipalIdentity) (target_role : IamRoleIdentity) :
    outcome InvalidRoleTrustCaller RoleTrustPolicyEvaluation :=
  principal ← ok_or (parse_iam_principal_arn caller_principal) MkInvalidRoleTrustCaller;
  if bool_decide (kind principal <> User) || bool_decide (parsed_account_id principal <> caller_account_id)
  then Err MkInvalidRoleTrustCaller else
  Ok (evaluate_trust_statements (trust_statements self) caller_account_id caller_principal target_role None).

End IamPolicy.

(** * authorization.rs *)
Module Authorization.
Import Str Machine Search Policy BucketPolicy Account Identity IamPolicy.

Definition MIN_ROLE_SESSION_DURATION_SECS : Z := 3600.
Definition MAX_ROLE_SESSION_DURATION_SECS : Z := 43200.

Inductive AuthorizationRecordError :=
  | InvalidMaximumSessionDuration | InvalidRoleTimestamps | DuplicateInlinePolicyName | RecordAccountMismatch
  | DuplicateStableRoleId | DuplicateRoleArn | DuplicateConfiguredPrincipal.

Inductive AuthorizationEvaluationError := InvalidConfiguredCaller.

Definition RoleMaximumSessionDuration : Type := Z.

Definition RoleMaximumSessionDuration_new (seconds : Z) : outcome AuthorizationRecordError RoleMaximumSessionDuration :=
  if in_range seconds MIN_ROLE_SESSION_DURATION_SECS MAX_ROLE_SESSION_DURATION_SECS then Ok seconds
  else Err InvalidMaximumSessionDuration.

Record RoleRecordTimestamps := MkRoleRecordTimestamps {
  created_at_epoch_secs : Z;
  updated_at_epoch_secs : Z
}.

Definition RoleRecordTimestamps_new (created updated : Z) : outcome AuthorizationRecordError RoleRecordTimestamps :=
  if (0 <=? created) && (created <=? updated) then Ok (MkRoleRecordTimestamps created updated)
  else Err InvalidRoleTimestamps.

(** Inserts the names into a set until one is there already *)
Fixpoint all_inserted (names : gset str) (policies : list InlineIdentityPolicy) : bool :=
  match policies with
  | [] => true
  | policy :: rest =>
      bool_decide (policy_name policy ∉ names) && all_inserted ({[policy_name policy]} ∪ names) rest
  end.

Definition validate_unique_policy_names (policies : list InlineIdentityPolicy) : outcome AuthorizationRecordError () :=
  if all_inserted ∅ policies then Ok () else Err DuplicateInlinePolicyName.

Fixpoint evaluate_inline {E} (policies : list InlineIdentityPolicy) (request : IdentityPolicyRequest)
    (saw_allow : bool) : outcome E PolicyEvaluation :=
  match policies with
  | [] => Ok (if saw_allow then ExplicitAllow else NoMatch)
  | policy :: rest =>
      e ← evaluate (document policy) request;
      match e with
      | ExplicitDeny => Ok ExplicitDeny
      | ExplicitAllow => evaluate_inline rest request true
      | NoMatch => evaluate_inline rest request saw_allow
      end
  end.

Definition evaluate_inline_identity_policies {E} (policies : list InlineIdentityPolicy)
    (request : IdentityPolicyRequest) : outcome E PolicyEvaluation := evaluate_inline policies request false.

Inductive SessionPolicyRestriction := Absent | WithPolicy (policy : SessionPolicy).

Definition intersect_role_and_session_decisions (role session : PolicyEvaluation) : PolicyEvaluation :=
  if bool_decide (role = ExplicitDeny) || bool_decide (session = ExplicitDeny) then ExplicitDeny
  else if bool_decide (role = ExplicitAllow) && bool_decide (session = ExplicitAllow) then ExplicitAllow
  else NoMatch.

Definition compose_assume_role_decisions (trust : RoleTrustPolicyEvaluation) (caller_identity : PolicyEvaluation) :
    PolicyEvaluation :=
  if bool_decide (trust = TrustExplicitDeny) || bool_decide (caller_identity = ExplicitDeny) then ExplicitDeny else
  match trust with
  | SameAccountDirectAllow => ExplicitAllow
  | DelegatedAllow => if bool_decide (caller_identity = ExplicitAllow) then ExplicitAllow else NoMatch
  | TrustExplicitDeny | TrustNoMatch => NoMatch
  end.

Record RoleAuthorizationRecord := MkRoleAuthorizationRecord {
  identity : LiveRoleIdentity;
  timestamps : RoleRecordTimestamps;
  maximum_session_duration : RoleMaximumSessionDuration;
  trust_policy : RoleTrustPolicy;
  permission_policies : list InlineIdentityPolicy
}.

Definition RoleAuthorizationRecord_new identity timestamps maximum_session_duration trust_policy permission_policies :
    outcome AuthorizationRecordError RoleAuthorizationRecord :=
  validate_unique_policy_names permission_policies;;
  mret (MkRoleAuthorizationRecord identity timestamps maximum_session_duration trust_policy permission_policies).

Definition role_evaluate_identity_permissions {E} (self : RoleAuthorizationRecord) (request : IdentityPolicyRequest) :
    outcome E PolicyEvaluation := evaluate_inline_identity_policies (permission_policies self) request.

Definition evaluate_session_permissions {E} (self : RoleAuthorizationRecord) (request : IdentityPolicyRequest)
    (session_policy : SessionPolicyRestriction) : outcome E PolicyEvaluation :=
  role_decision ← role_evaluate_identity_permissions self request;
  match session_policy with
  | Absent => mret role_decision
  | WithPolicy policy => e ← evaluate policy request; mret (intersect_role_and_session_decisions role_decision e)
  end.

Record ConfiguredPrincipalAuthorizationKey := MkConfiguredPrincipalAuthorizationKey {
  key_account_id : AwsAccountId;
  key_principal : ConfiguredPrincipalIdentity
}.

Record ConfiguredPrincipalAuthorizationRecord := MkConfiguredPrincipalAuthorizationRecord {
  record_key : ConfiguredPrincipalAuthorizationKey;
  record_account : AccountIdentity;
  identity_policies : list InlineIdentityPolicy
}.

Definition ConfiguredPrincipalAuthorizationRecord_new (key : ConfiguredPrincipalAuthorizationKey)
    (account : AccountIdentity) (identity_policies : list InlineIdentityPolicy) :
    outcome AuthorizationRecordError ConfiguredPrincipalAuthorizationRecord :=
  if bool_decide (account_id account <> Some (key_account_id key)) then Err RecordAccountMismatch else
  validate_unique_policy_names identity_policies;;
  mret (MkConfiguredPrincipalAuthorizationRecord key account identity_policies).

Definition caller_evaluate_identity_permissions {E} (self : ConfiguredPrincipalAuthorizationRecord)
    (request : IdentityPolicyRequest) : outcome E PolicyEvaluation :=
  evaluate_inline_identity_policies (identity_policies self) request.

Definition evaluate_configured_caller_assume_role (self : RoleAuthorizationRecord)
    (caller : ConfiguredPrincipalAuthorizationRecord) : outcome AuthorizationEvaluationError PolicyEvaluation :=
  trust ← map_err (fun _ => InvalidConfiguredCaller)
            (evaluate_configured_caller (trust_policy self) (key_account_id (record_key caller))
               (key_principal (record_key caller)) (role (identity self)));
  identity ← caller_evaluate_identity_permissions caller (StsAssumeRole (role (identity self)));
  mret (compose_assume_role_decisions trust identity).

#[export] Instance Key_eq_dec : EqDecision ConfiguredPrincipalAuthorizationKey.
Proof. solve_decision. Defined.
#[export] Instance Key_countable : Countable ConfiguredPrincipalAuthorizationKey.
Proof.
  apply (inj_countable' (fun k => (key_account_id k, key_principal k))
    (fun '(a, p) => MkConfiguredPrincipalAuthorizationKey a p)). by intros [].
Defined.

Record AuthorizationRecordStore := MkAuthorizationRecordStore {
  roles : gmap str RoleAuthorizationRecord;
  role_arns : gmap str StableRoleId;
  configured_principals : gmap ConfiguredPrincipalAuthorizationKey ConfiguredPrincipalAuthorizationRecord
}.

Definition AuthorizationRecordStore_new : AuthorizationRecordStore := MkAuthorizationRecordStore ∅ ∅ ∅.

Definition add_role (self : AuthorizationRecordStore) (record : RoleAuthorizationRecord) :
    outcome AuthorizationRecordError AuthorizationRecordStore :=
  let stable_id := stable_id (role (identity record)) in
  let role_arn := arn (role (identity record)) in
  guard_err (bool_decide (is_Some (roles self !! stable_id))) DuplicateStableRoleId;;
  guard_err (bool_decide (is_Some (role_arns self !! role_arn))) DuplicateRoleArn;;
  mret (MkAuthorizationRecordStore (<[stable_id := record]> (roles self))
          (<[role_arn := stable_id]> (role_arns self)) (configured_principals self)).

Definition role_by_arn (self : AuthorizationRecordStore) (role_arn : IamRoleArn) : option RoleAuthorizationRecord :=
  stable_id ← role_arns self !! role_arn;
  roles self !! stable_id.

Definition add_configured_principal (self : AuthorizationRecordStore) (record : ConfiguredPrincipalAuthorizationRecord) :
    outcome AuthorizationRecordError AuthorizationRecordStore :=
  guard_err (bool_decide (is_Some (configured_principals self !! record_key record))) DuplicateConfiguredPrincipal;;
  mret (MkAuthorizationRecordStore (roles self) (role_arns self)
          (<[record_key record := record]> (configured_principals self))).

Definition role_by_id (self : AuthorizationRecordStore) (stable_role_id : StableRoleId) : option RoleAuthorizationRecord :=
  roles self !! stable_role_id.

Definition principal_by_key (self : AuthorizationRecordStore) (key : ConfiguredPrincipalAuthorizationKey) :
    option ConfiguredPrincipalAuthorizationRecord := configured_principals self !! key.

End Authorization.
