(* ===== verification/IamSpec.v ===== *)
(** What the IAM policies decide.  The evaluators of IamPolicy.v against the rules of
    the policy language: an explicit deny wins, an allow has to be granted, a session
    policy intersects, and a role is assumed by a direct grant within its account or by
    a grant on both sides. *)

From Stdlib Require Import ZifyBool.
From stdpp Require Import strings gmap.
From S2P Require Import Prelude Machine Str Policy Identity IamPolicy.

Local Open Scope Z_scope.

Module IamSpec.
Import Str Machine Search Policy BucketPolicy Account Identity IamPolicy Authorization.

(** ** Specification *)

(** The answer of an evaluation where [D] says that a deny applies and [A] an allow *)
Definition decision (D A : Prop) (e : PolicyEvaluation) : Prop :=
  match e with
  | ExplicitDeny => D
  | ExplicitAllow => ~ D /\ A
  | NoMatch => ~ D /\ ~ A
  end.

(** A statement applies when one of its actions, whatever the case of its letters, and
    one of its resources match. *)
Definition applies (request : IdentityPolicyRequest) (st : IdentityPolicyStatement) : Prop :=
  Exists (fun pattern => glob (pattern_tokens (to_ascii_lowercase pattern))
            (to_ascii_lowercase (request_action request))) (actions (core st)) /\
  Exists (fun pattern => glob (pattern_tokens pattern) (resource_arn request)) (resources st).

Definition says (x : PolicyEffect) (request : IdentityPolicyRequest) (policy : IdentityPolicy) : Prop :=
  Exists (fun st => effect (core st) = x /\ applies request st) (statements policy).

Definition attached (x : PolicyEffect) (request : IdentityPolicyRequest) (policies : list InlineIdentityPolicy) : Prop :=
  Exists (fun policy => says x request (document policy)) policies.

(** ** Evaluation of identity policies *)

Lemma decision_iff D A D' A' e : (D <-> D') -> (A <-> A') -> decision D A e -> decision D' A' e.
Proof. destruct e; simpl; tauto. Qed.

Lemma action_matches_glob {E} pattern action :
  exists b, action_pattern_matches (E:=E) pattern action = Ok b /\
    (b = true <-> glob (pattern_tokens (to_ascii_lowercase pattern)) (to_ascii_lowercase action)).
Proof. apply wildcard_matches_glob. Qed.

Lemma statement_matches_applies {E} st request :
  exists b, statement_matches (E:=E) st (request_action request) (resource_arn request) = Ok b /\
    (b = true <-> applies request st).
Proof.
  unfold statement_matches, applies.
  destruct (anyM_exists (E:=E) (fun pattern => action_pattern_matches pattern (request_action request)) _
    (actions (core st)) (fun p => action_matches_glob p _)) as (a & -> & Ha). bind_step.
  destruct (anyM_exists (E:=E) (fun pattern => wildcard_matches pattern (resource_arn request)) _
    (resources st) (fun p => wildcard_matches_glob p _)) as (b & Hb & Hbb).
  destruct a; [rewrite Hb; exists b; naive_solver|exists false; naive_solver].
Qed.

Lemma evaluate_statements_decision {E} request sts : forall saw,
  exists e, evaluate_statements (E:=E) sts (request_action request) (resource_arn request) saw = Ok e /\
    decision (Exists (fun st => effect (core st) = Deny /\ applies request st) sts)
      (saw = true \/ Exists (fun st => effect (core st) = Allow /\ applies request st) sts) e.
Proof.
  induction sts as [|st sts IH]; intros saw; simpl.
  { eexists. split; [done|]. destruct saw; simpl; rewrite !Exists_nil; naive_solver. }
  destruct (statement_matches_applies (E:=E) st request) as (m & -> & Hm). bind_step.
  destruct m; simpl.
  - destruct (effect (core st)) eqn:He.
    + destruct (IH true) as (e & He' & Hd). exists e. split; [done|].
      eapply decision_iff; [..|done]; rewrite Exists_cons, ?He; naive_solver.
    + exists ExplicitDeny. split; [done|]. simpl. rewrite Exists_cons. naive_solver.
  - destruct (IH saw) as (e & He' & Hd). exists e. split; [done|].
    eapply decision_iff; [..|done]; rewrite Exists_cons; naive_solver.
Qed.

Lemma evaluate_decision {E} policy request :
  exists e, evaluate (E:=E) policy request = Ok e /\
    decision (says Deny request policy) (says Allow request policy) e.
Proof.
  destruct (evaluate_statements_decision (E:=E) request (statements policy) false) as (e & He & Hd).
  exists e. split; [done|]. eapply decision_iff; [..|done]; unfold says; naive_solver.
Qed.

Lemma evaluate_inline_decision {E} request ps : forall saw,
  exists e, evaluate_inline (E:=E) ps request saw = Ok e /\
    decision (attached Deny request ps) (saw = true \/ exists p, p ∈ ps /\ ~ says Deny request (document p) /\
      says Allow request (document p)) e.
Proof.
  unfold attached. induction ps as [|p ps IH]; intros saw; simpl.
  { eexists. split; [done|]. destruct saw; simpl; rewrite Exists_nil; [naive_solver|]. split; [tauto|].
    intros [?|(p & Hp & _)]; [done|]. by apply not_elem_of_nil in Hp. }
  destruct (evaluate_decision (E:=E) (document p) request) as (e & -> & He). bind_step. destruct e; simpl in He.
  - exists ExplicitDeny. split; [done|]. simpl. rewrite Exists_cons. auto.
  - destruct (IH true) as (e & -> & Hd). exists e. split; [done|].
    eapply decision_iff; [..|done]; try setoid_rewrite elem_of_cons; rewrite ?Exists_cons; naive_solver.
  - destruct (IH saw) as (e & -> & Hd). exists e. split; [done|].
    eapply decision_iff; [..|done]; try setoid_rewrite elem_of_cons; rewrite ?Exists_cons; naive_solver.
Qed.

Lemma inline_decision {E} request ps :
  exists e, evaluate_inline_identity_policies (E:=E) ps request = Ok e /\
    decision (attached Deny request ps) (attached Allow request ps) e.
Proof.
  destruct (evaluate_inline_decision (E:=E) request ps false) as (e & He & Hd). exists e. split; [done|].
  assert (attached Deny request ps \/ ~ attached Deny request ps) as [HD|HD]
    by (destruct e; simpl in Hd; tauto).
  { destruct e; simpl in *; tauto. }
  eapply decision_iff; [reflexivity| |done]. unfold attached in *. rewrite list.Exists_exists in *.
  split; [|intros (p & Hp & Ha); right; exists p; naive_solver].
  intros [?|(p & Hp & _ & Ha)]; [done|]. eauto.
Qed.

(** ** Sessions of a role *)

Lemma intersect_decision D1 A1 D2 A2 e1 e2 : decision D1 A1 e1 -> decision D2 A2 e2 ->
  decision (D1 \/ D2) (A1 /\ A2) (intersect_role_and_session_decisions e1 e2).
Proof. destruct e1, e2; vm_compute; tauto. Qed.

(** What restricts a session besides the policies of its role *)
Definition restriction_says (x : PolicyEffect) (request : IdentityPolicyRequest) (r : SessionPolicyRestriction) : Prop :=
  match r with
  | Absent => x = Allow
  | WithPolicy policy => says x request policy
  end.

(** C31: The permissions of a role session are always decided: denied exactly when a statement
    of an attached policy or of the session policy that applies denies; otherwise allowed
    exactly when an attached policy allows and, where the session has a policy, that
    policy allows too.  The answer does not depend on the order of policies or of
    statements, and a session policy never adds a permission. *)
Theorem session_permissions {E} record request restriction :
  exists e, evaluate_session_permissions (E:=E) record request restriction = Ok e /\
    decision (attached Deny request (permission_policies record) \/ restriction_says Deny request restriction)
      (attached Allow request (permission_policies record) /\ restriction_says Allow request restriction) e.
Proof.
  unfold evaluate_session_permissions, role_evaluate_identity_permissions.
  destruct (inline_decision (E:=E) request (permission_policies record)) as (e & -> & He). bind_step.
  destruct restriction as [|policy]; cbn [restriction_says].
  - exists e. split; [done|]. eapply decision_iff; [..|done]; naive_solver.
  - destruct (evaluate_decision (E:=E) policy request) as (e' & -> & He'). bind_step.
    eexists. split; [done|]. by apply intersect_decision.
Qed.

(** ** Trust *)

(** A principal as its constructor makes it *)
Definition made_principal (p : RoleTrustPrincipal) : Prop := RoleTrustPrincipal_new (trust_value p) = Ok p.

(** The principal texts that cover a caller, and those that name it without delegation *)
Definition covers (account : AwsAccountId) (caller : str) (p : RoleTrustPrincipal) : Prop :=
  trust_value p ∈ [lit "*"; account; ARN_PREFIX ++ account ++ lit ":root"; caller].

Definition names_directly (caller : str) (p : RoleTrustPrincipal) : Prop := trust_value p ∈ [lit "*"; caller].

Lemma made_principal_kind p : made_principal p ->
  match trust_kind p with
  | Any => trust_value p = lit "*"
  | Account a => trust_value p = a /\ is_valid_aws_account_id a = true
  | AccountRoot a => parse_iam_principal_arn (trust_value p) = Some (MkParsedIamPrincipalArn a Root)
  | ExactIamPrincipal a => exists k, k <> Root /\ parse_iam_principal_arn (trust_value p) = Some (MkParsedIamPrincipalArn a k)
  end.
Proof.
  unfold made_principal, RoleTrustPrincipal_new. destruct p as [v k]. cbn [trust_value trust_kind].
  case_bool_decide as Hv; bind_step; [destruct (_ <=? _); by intros [= <-]|].
  destruct (is_valid_aws_account_id v) eqn:Ha.
  - unfold AwsAccountId_new. rewrite Ha. bind_step. destruct (_ <=? _); by intros [= <-].
  - bind_step. destruct (_ <=? _); [|done].
    destruct (parse_iam_principal_arn v) as [[a q]|]; [|done]. cbn. intros [= <-]. destruct q; cbn; [done|eexists; split; [|done]; done..].
Qed.

(** ARNs, accounts and the wildcard are different texts. *)
Lemma arn_not_star v x : parse_iam_principal_arn v = Some x -> v <> lit "*".
Proof. intros H ->. by vm_compute in H. Qed.

Lemma arn_not_account v x : parse_iam_principal_arn v = Some x -> is_valid_aws_account_id v = false.
Proof.
  destruct x as [a k]. intros (q & -> & _)%parse_arn_Some. apply not_true_is_false. intros [_ H]%andb_prop.
  rewrite bytes_app, forallb_app in H. by apply andb_prop in H as [H _].
Qed.

Lemma account_not_star a : is_valid_aws_account_id a = true -> a <> lit "*".
Proof. intros H ->. done. Qed.

Lemma root_text a v : parse_iam_principal_arn v = Some (MkParsedIamPrincipalArn a Root) ->
  v = ARN_PREFIX ++ a ++ lit ":root".
Proof.
  intros (q & -> & _ & Hq)%parse_arn_Some. unfold qualifier_kind in Hq.
  destruct (decide (q = lit "root")) as [->|Hn]; [done|].
  rewrite bool_decide_eq_false_2 in Hq by done.
  do 2 (destruct (is_some_and _ _); [done|]). done.
Qed.

(** Case analysis on which text a principal is *)
Ltac text_cases :=
  split; split; intros; destruct_and?; destruct_or?; unfold is_Some in *;
  repeat match goal with H : exists _, None = Some _ |- _ => by destruct H end;
  try congruence; try done; subst; eauto.

Section trust.
Context (account : AwsAccountId) (caller : str) (role : IamRoleIdentity).
Context (Hcaller : parse_iam_principal_arn caller = Some (MkParsedIamPrincipalArn account User)).

Lemma caller_account : is_valid_aws_account_id account = true.
Proof. by apply parse_arn_Some in Hcaller as (q & _ & H & _). Qed.

Lemma principal_match p : made_principal p ->
  let m := matches_configured_caller p account caller role in
  (is_Some m <-> covers account caller p) /\
  (m = Some SameAccountDirect <-> names_directly caller p /\ account = role_account_id role).
Proof.
  intros Hp%made_principal_kind. pose proof caller_account as Hacc.
  pose proof (arn_not_account _ _ Hcaller) as Hc. pose proof (parse_root account Hacc) as Hroot.
  pose proof (arn_not_account _ _ Hroot) as Hr. pose proof (root_text account) as Htext.
  pose proof arn_not_star as Harn. pose proof account_not_star as Hstar. pose proof arn_not_account as Hna.
  unfold covers, names_directly, matches_configured_caller. rewrite !elem_of_cons, elem_of_nil.
  destruct p as [v k]. cbn [trust_value trust_kind] in *.
  generalize dependent (lit "*"). intros star Hp Harn Hstar.
  generalize dependent (ARN_PREFIX ++ account ++ lit ":root"). intros root Hroot Hr Htext.
  destruct k as [|a|a|a].
  - subst v. case_bool_decide; text_cases.
  - destruct Hp as [-> Ha]. pose proof (Hstar _ Ha). case_bool_decide; text_cases.
  - pose proof (Harn _ _ Hp). pose proof (Hna _ _ Hp).
    case_bool_decide; [subst a; pose proof (Htext _ Hp)|]; text_cases.
  - destruct Hp as (k & Hk & Hp). pose proof (Harn _ _ Hp). pose proof (Hna _ _ Hp).
    destruct (bool_decide_reflect (v = caller)) as [->|Hne]; rewrite ?andb_true_r, ?andb_false_r; [|text_cases].
    rewrite Hcaller in Hp. injection Hp as <- <-. rewrite bool_decide_eq_true_2 by done.
    case_bool_decide; text_cases.
Qed.

(** The strongest match of a statement *)
Lemma fold_strongest l : forall cur,
  let r := foldl (fun current candidate => strongest_principal_match current (Some candidate)) cur l in
  (is_Some r <-> is_Some cur \/ l <> []) /\ (r = Some SameAccountDirect <-> cur = Some SameAccountDirect \/ SameAccountDirect ∈ l).
Proof.
  induction l as [|x l IH]; intros cur; cbn [foldl].
  { rewrite elem_of_nil. naive_solver. }
  destruct (IH (strongest_principal_match cur (Some x))) as [IH1 IH2]. cbn zeta in IH1, IH2 |- *.
  rewrite IH1, IH2, elem_of_cons. destruct cur as [[]|], x; cbn; rewrite ?is_Some_alt; naive_solver.
Qed.

Definition made_statement (st : RoleTrustPolicyStatement) : Prop := Forall made_principal (principals st).

Lemma statement_match_covers st : made_statement st ->
  let m := statement_match st account caller role in
  (is_Some m <-> Exists (covers account caller) (principals st)) /\
  (m = Some SameAccountDirect <-> Exists (names_directly caller) (principals st) /\ account = role_account_id role).
Proof.
  intros Hst. unfold statement_match. cbn zeta.
  destruct (fold_strongest (omap (fun principal => matches_configured_caller principal account caller role)
    (principals st)) None) as [H1 H2]. cbn zeta in H1, H2. rewrite H1, H2. clear H1 H2.
  rewrite list_elem_of_omap, !list.Exists_exists. unfold made_statement in Hst. rewrite list.Forall_forall in Hst. split.
  - split.
    + intros [[? [=]]|Hne]. destruct (omap _ _) as [|m ms] eqn:Hm; [done|].
      assert (m ∈ m :: ms) as Hin by left. rewrite <-Hm in Hin. apply list_elem_of_omap in Hin as (p & Hp & Hpm).
      exists p. split; [done|]. apply (principal_match p (Hst _ Hp)). by eexists.
    + intros (p & Hp & Hc). right. intros Hm. apply (principal_match p (Hst _ Hp)) in Hc as [m Hpm].
      apply (elem_of_nil m). rewrite <-Hm. apply list_elem_of_omap. eauto.
  - split.
    + intros [[=]|(p & Hp & Hpm)]. apply (principal_match p (Hst _ Hp)) in Hpm as [? ?]. eauto.
    + intros [(p & Hp & Hc) Ha]. right. exists p. split; [done|]. by apply (principal_match p (Hst _ Hp)).
Qed.

(** ** Trust policies *)

(** A statement of the trust policy with the effect covers the caller. *)
Definition trust_says (x : PolicyEffect) (sts : list RoleTrustPolicyStatement) : Prop :=
  Exists (fun st => effect (trust_core st) = x /\ Exists (covers account caller) (principals st)) sts.

(** A statement that allows names the caller itself, or everyone, within the account. *)
Definition trust_direct (sts : list RoleTrustPolicyStatement) : Prop :=
  account = role_account_id role /\
  Exists (fun st => effect (trust_core st) = Allow /\ Exists (names_directly caller) (principals st)) sts.

Definition trust_decision (D S A : Prop) (e : RoleTrustPolicyEvaluation) : Prop :=
  match e with
  | TrustExplicitDeny => D
  | SameAccountDirectAllow => ~ D /\ S
  | DelegatedAllow => ~ D /\ ~ S /\ A
  | TrustNoMatch => ~ D /\ ~ S /\ ~ A
  end.

Lemma trust_decision_iff D S A D' S' A' e :
  (D <-> D') -> (S <-> S') -> (A <-> A') -> trust_decision D S A e -> trust_decision D' S' A' e.
Proof. destruct e; simpl; tauto. Qed.

Lemma evaluate_trust_decision sts : Forall made_statement sts -> forall cur,
  trust_decision (trust_says Deny sts) (cur = Some SameAccountDirect \/ trust_direct sts)
    (is_Some cur \/ trust_says Allow sts) (evaluate_trust_statements sts account caller role cur).
Proof.
  unfold trust_says, trust_direct. induction sts as [|st sts IH]; intros Hmade cur; cbn [evaluate_trust_statements].
  { destruct cur as [[]|]; cbn; rewrite !Exists_nil, ?is_Some_alt; naive_solver. }
  apply list.Forall_cons in Hmade as [Hst Hsts]. destruct (statement_match_covers st Hst) as [Hc Hd].
  destruct (statement_match st account caller role) as [m|].
  - assert (Exists (covers account caller) (principals st)) as Hcov by (apply Hc; by eexists). destruct (effect (trust_core st)) eqn:He.
    + eapply trust_decision_iff; [..|apply (IH Hsts)]; rewrite !Exists_cons, ?He;
        [naive_solver| |destruct cur as [[]|], m; cbn; rewrite ?is_Some_alt; naive_solver].
      destruct cur as [[]|], m; cbn; naive_solver.
    + cbn. rewrite Exists_cons. auto.
  - assert (~ Exists (covers account caller) (principals st)) as Hcov by (intros [? [=]]%Hc).
    eapply trust_decision_iff; [..|apply (IH Hsts)]; rewrite !Exists_cons; naive_solver.
Qed.

End trust.

(** ** Assuming a role *)

Definition made_trust_policy (p : RoleTrustPolicy) : Prop := Forall made_statement (trust_statements p).

Lemma compose_decision D S A D' A' t e : (S -> A) -> trust_decision D S A t -> decision D' A' e ->
  decision (D \/ D') (S \/ A /\ A') (compose_assume_role_decisions t e).
Proof. destruct t, e; vm_compute; tauto. Qed.

Lemma direct_covers account caller role sts : trust_direct account caller role sts -> trust_says account caller Allow sts.
Proof.
  intros [_ H]. unfold trust_says. eapply list.Exists_impl; [done|]. intros st [He Hst]. split; [done|].
  eapply list.Exists_impl; [done|]. intros p Hp. unfold names_directly, covers in *.
  rewrite !elem_of_cons, elem_of_nil in *. tauto.
Qed.

(** C32: Whether a configured caller may assume a role.  A caller whose principal is not the
    ARN of a user of its account is an error.  For any other, the request is denied
    exactly when a trust statement that covers the caller, or a policy of the caller that
    applies, denies.  Otherwise it is allowed exactly when a trust statement names the
    caller itself or everyone and the role is in the caller's account, or a trust
    statement covers the caller and a policy of the caller allows it too: every grant
    across accounts and every delegation to an account needs both sides.  A principal of
    the trust policy covers a caller when its text is the wildcard, the account of the
    caller, the root of that account or the caller's own ARN. *)
Theorem assume_role_decision record caller :
  made_trust_policy (trust_policy record) ->
  let account := key_account_id (record_key caller) in
  let principal := key_principal (record_key caller) in
  let role := role (identity record) in
  let sts := trust_statements (trust_policy record) in
  let request := StsAssumeRole role in
  if decide (kind <$> parse_iam_principal_arn principal = Some User /\
             parsed_account_id <$> parse_iam_principal_arn principal = Some account)
  then exists e, evaluate_configured_caller_assume_role record caller = Ok e /\
    decision (trust_says account principal Deny sts \/ attached Deny request (identity_policies caller))
      (trust_direct account principal role sts \/
       trust_says account principal Allow sts /\ attached Allow request (identity_policies caller)) e
  else evaluate_configured_caller_assume_role record caller = Err InvalidConfiguredCaller.
Proof.
  intros Hmade. cbn zeta. unfold evaluate_configured_caller_assume_role, evaluate_configured_caller.
  destruct (parse_iam_principal_arn (key_principal (record_key caller))) as [[a k]|] eqn:Hp; cbn [fmap option_fmap option_map kind parsed_account_id].
  2: { rewrite decide_False by naive_solver. done. }
  destruct (decide _) as [[[= ->] [= ->]]|Hn].
  2: { cbn [ok_or]. bind_step. cbn [kind parsed_account_id].
       destruct (decide (k = User)) as [->|]; [|by rewrite bool_decide_eq_true_2].
       rewrite (bool_decide_eq_true_2 (a <> _)) by naive_solver. by rewrite orb_true_r. }
  cbn [ok_or]. bind_step. rewrite !bool_decide_eq_false_2 by naive_solver. cbn [orb map_err]. bind_step.
  destruct (inline_decision (E:=AuthorizationEvaluationError) (StsAssumeRole (role (identity record))) (identity_policies caller)) as (e & He & Hd).
  unfold caller_evaluate_identity_permissions. rewrite He. bind_step. eexists. split; [done|].
  pose proof (evaluate_trust_decision _ _ (role (identity record)) Hp _ Hmade None) as Ht.
  apply (compose_decision _ _ _ _ _ _ _ (direct_covers _ _ _ _)); [|done].
  eapply trust_decision_iff; [..|exact Ht]; rewrite ?is_Some_alt; naive_solver.
Qed.

(** ** A role and a caller *)

Definition sample_account : AccountIdentity :=
  MkAccountIdentity (lit "123456789012") (lit "canonical") (lit "test account").

Definition sample_principal (text : String.string) (k : RoleTrustPrincipalKind) : RoleTrustPrincipal :=
  MkRoleTrustPrincipal (lit text) k.

Definition sample_record : RoleAuthorizationRecord :=
  MkRoleAuthorizationRecord (MkLiveRoleIdentity sample_account (sample_role "/")) (MkRoleRecordTimestamps 1 1) 3600
    (MkRoleTrustPolicy (Some V2012_10_17)
       [MkRoleTrustPolicyStatement (MkPolicyStatementCore None Allow [ASSUME_ROLE] [])
          [sample_principal "arn:aws:iam::123456789012:root" (AccountRoot (lit "123456789012"))]]) [].

Definition sample_caller : ConfiguredPrincipalAuthorizationRecord :=
  MkConfiguredPrincipalAuthorizationRecord
    (MkConfiguredPrincipalAuthorizationKey (lit "123456789012") (lit "arn:aws:iam::123456789012:user/alice"))
    sample_account
    [MkInlineIdentityPolicy (lit "assume") (MkIdentityPolicy None
       [MkIdentityPolicyStatement (MkPolicyStatementCore None Allow [lit "STS:Assume*"] [])
          [lit "arn:aws:iam::123456789012:role/test-*"]])].

Lemma assume_role_decision_witness :
  evaluate_configured_caller_assume_role sample_record sample_caller = Ok ExplicitAllow /\
  ~ (trust_says (lit "123456789012") (lit "arn:aws:iam::123456789012:user/alice") Deny
       (trust_statements (trust_policy sample_record)) \/
     attached Deny (StsAssumeRole (sample_role "/")) (identity_policies sample_caller)).
Proof.
  assert (evaluate_configured_caller_assume_role sample_record sample_caller = Ok ExplicitAllow) as He
    by (vm_compute; reflexivity).
  split; [exact He|].
  assert (made_trust_policy (trust_policy sample_record)) as Hm by (repeat constructor; vm_compute; reflexivity).
  pose proof (assume_role_decision sample_record sample_caller Hm) as H. cbn zeta in H.
  rewrite decide_True in H by (split; vm_compute; reflexivity). destruct H as (e & He' & Hd).
  rewrite He in He'. injection He' as <-. exact (proj1 Hd).
Defined.

End IamSpec.
