(* ===== verification/SessionToken.v ===== *)
(** Temporary credentials: crates/auth/src/credential.rs and the sealed session tokens of
    crates/auth/src/session_token.rs.  Definitions.

    A token is a prefix and the base64 text of a frame: key identifier, nonce, and the
    AES-256-GCM encryption of the session's fields.  The key ring is the state of the
    calls; they take its lock, and each is one step of it.  The base64 codec, the digest,
    the comparison in constant time and the cipher are parameters. *)

From Stdlib Require Import ZifyBool.
From stdpp Require Import strings gmap.
From S2P Require Import Prelude Machine Str Utf8 Journal Chunked Cobblestone Identity.

Local Open Scope Z_scope.

(** Third-party routines besides the cipher *)
Class TokenLibrary := {
  (** [URL_SAFE_NO_PAD.encode] and [decode] of the crate base64 *)
  base64_encode : list byte -> Str.str;
  base64_decode : Str.str -> option (list byte);
  (** the digest behind [argmin_crypto::sha256] *)
  sha256_digest : list byte -> list byte;
  (** [ct_eq] of the crate subtle, on slices of one length *)
  ct_eq : list byte -> list byte -> bool
}.

(** * credential.rs *)
Module Credential.
Import Str Machine Account Identity.

Definition SESSION_ACCESS_KEY_ID_PREFIX : str := lit "ARGS".
Definition SESSION_ACCESS_KEY_ID_LEN : Z := 24.
Definition SESSION_SECRET_ACCESS_KEY_LEN : Z := 40.
Definition SESSION_ACCESS_KEY_SUFFIX_LEN : Z := SESSION_ACCESS_KEY_ID_LEN - len (bytes SESSION_ACCESS_KEY_ID_PREFIX).
Definition SESSION_ACCESS_KEY_ALPHABET : str := lit "ABCDEFGHIJKLMNOPQRSTUVWXYZ0123456789".
Definition SESSION_SECRET_RANDOM_LEN : Z := 30.
Definition MAX_ACCESS_KEY_ID_LEN : Z := 128.
Definition MAX_CREDENTIAL_LEN : Z := 2048.

Inductive SessionCredentialGenerationError := EntropyUnavailable.

Definition SecretKey : Type := str.

Record GeneratedSessionCredentialMaterial := MkMaterial {
  material_access_key_id : str;
  material_secret_key : SecretKey
}.

(** [SessionCredentialRandomSource::fill] on a buffer of the length, with the state of
    the source *)
Definition RandomSource (R : Type) : Type := Z -> stm R SessionCredentialGenerationError (list byte).

Definition UNBIASED_BYTE_CEILING : Z := 255 / len SESSION_ACCESS_KEY_ALPHABET * len SESSION_ACCESS_KEY_ALPHABET.

(** The loop over the candidates of one buffer; the characters found are appended until
    there are enough *)
Fixpoint take_candidates {E} (suffix : str) (candidates : list byte) : outcome E str :=
  match candidates with
  | [] => Ok suffix
  | candidate :: rest =>
      if UNBIASED_BYTE_CEILING <=? byte.unsigned candidate then take_candidates suffix rest else
      c ← idx SESSION_ACCESS_KEY_ALPHABET (Z.to_nat (byte.unsigned candidate mod len SESSION_ACCESS_KEY_ALPHABET));
      let suffix := suffix ++ [c] in
      if len suffix =? SESSION_ACCESS_KEY_SUFFIX_LEN then Ok suffix else take_candidates suffix rest
  end.

(** [while suffix_len < suffix.len()]: the source decides how often it turns *)
Fixpoint fill_suffix {R} (fuel : nat) (fill : RandomSource R) (suffix : str) :
    stm R SessionCredentialGenerationError str :=
  if len suffix <? SESSION_ACCESS_KEY_SUFFIX_LEN then
    match fuel with
    | O => liftS Panic
    | S fuel =>
        candidates ← fill 32;
        suffix ← liftS (take_candidates suffix candidates);
        fill_suffix fuel fill suffix
    end
  else mret suffix.

Definition generate_session_credential_material_with `{TokenLibrary} {R} (fuel : nat) (random : RandomSource R) :
    stm R SessionCredentialGenerationError GeneratedSessionCredentialMaterial :=
  suffix ← fill_suffix fuel random [];
  let access_key_id := SESSION_ACCESS_KEY_ID_PREFIX ++ suffix in
  secret_bytes ← random SESSION_SECRET_RANDOM_LEN;
  let secret_key := base64_encode secret_bytes in
  mret (MkMaterial access_key_id secret_key).

Inductive CredentialStoreError := ReservedSessionAccessKeyNamespace.

Definition is_reserved_session_access_key_id (value : str) : bool :=
  bool_decide (is_Some (strip_prefix SESSION_ACCESS_KEY_ID_PREFIX value)).

Inductive AuthorizationProfile := Standard | OwnerAccountAdmin.

Record StoredCredential := MkStoredCredential {
  stored_access_key_id : str;
  stored_secret_key : SecretKey;
  stored_identity : AuthenticatedIdentity;
  authorization_profile : AuthorizationProfile;
  stored_expires_at_epoch_secs : option Z;
  enabled : bool
}.

Definition StoredCredential_configured (access_key_id : str) (secret_key : SecretKey) (account : AccountIdentity)
    (principal : ConfiguredPrincipalIdentity) (profile : AuthorizationProfile) (expires_at : option Z)
    (enabled : bool) : StoredCredential :=
  MkStoredCredential access_key_id secret_key (configured account principal) profile expires_at enabled.

Inductive SessionCredentialError :=
  | InvalidAccessKeyId | InvalidSecretAccessKey | IdentityErr (e : IdentityError).

Record DecodedSessionCredential := MkDecodedSessionCredential {
  access_key_id : str;
  secret_key : SecretKey;
  session : AssumedRoleSessionIdentity;
  credential_identity : AuthenticatedIdentity
}.

(** The prefix is ASCII, so that the slice after it starts at a character. *)
Definition valid_session_access_key_id (value : str) : bool :=
  (len (bytes value) =? SESSION_ACCESS_KEY_ID_LEN)
  && bool_decide (is_Some (strip_prefix SESSION_ACCESS_KEY_ID_PREFIX value))
  && forallb (fun byte => is_ascii_uppercase byte || is_ascii_digit byte)
       (dropZ (len (bytes SESSION_ACCESS_KEY_ID_PREFIX)) (bytes value)).

Definition valid_session_secret_access_key (value : str) : bool :=
  (len (bytes value) =? SESSION_SECRET_ACCESS_KEY_LEN)
  && forallb (fun byte => is_ascii_alphanumeric byte || (byte =? 95) || (byte =? 45)) (bytes value).

(** [DecodedSessionCredential::version1] *)
Definition version1 (access_key_id : str) (secret_key : SecretKey) (issuer : LiveRoleIdentity)
    (session_name : RoleSessionName) (lifetime : SessionLifetime) (source_identity : option SourceIdentity) :
    outcome SessionCredentialError DecodedSessionCredential :=
  if negb (valid_session_access_key_id access_key_id) then Err InvalidAccessKeyId else
  if negb (valid_session_secret_access_key secret_key) then Err InvalidSecretAccessKey else
  let session := AssumedRoleSessionIdentity_new (role issuer) session_name lifetime source_identity in
  identity ← map_err IdentityErr (assumed_role_session (account issuer) session);
  mret (MkDecodedSessionCredential access_key_id secret_key session identity).

Inductive AuthenticatedCredential :=
  | LongLived (credential : StoredCredential)
  | Session (credential : DecodedSessionCredential).

(** The credentials by access key *)
Definition CredentialStore : Type := gmap str StoredCredential.

Definition add_record (self : CredentialStore) (record : StoredCredential) : outcome CredentialStoreError CredentialStore :=
  if is_reserved_session_access_key_id (stored_access_key_id record) then Err ReservedSessionAccessKeyNamespace
  else Ok (<[stored_access_key_id record := record]> self).

Definition get_record (self : CredentialStore) (access_key_id : str) : option StoredCredential := self !! access_key_id.

(** [CanonicalUserId::from_principal]: the digest in lower-case hexadecimal *)
Definition CanonicalUserId_from_principal `{TokenLibrary} (principal : str) : str :=
  Chunked.hex_encode (sha256_digest (as_bytes principal)).

(** [AccountIdentity::from_principal] *)
Definition AccountIdentity_from_principal `{TokenLibrary} (principal : str) : AccountIdentity :=
  MkAccountIdentity principal (CanonicalUserId_from_principal principal) principal.

(** [CredentialStore::add] *)
Definition CredentialStore_add `{TokenLibrary} (self : CredentialStore) (access_key_id : str) (secret_key : SecretKey) :
    outcome CredentialStoreError CredentialStore :=
  add_record self (StoredCredential_configured access_key_id secret_key (AccountIdentity_from_principal access_key_id)
    access_key_id Standard None true).

End Credential.

(** * session_token.rs *)
Module SessionToken.
Import Str Machine Account Identity Credential Cobblestone.

Definition SESSION_TOKEN_V1_PREFIX : str := lit "ARGST1.".
Definition MAX_ENCODED_SESSION_TOKEN_LEN : Z := 21853.
Definition MAX_DECODED_SESSION_TOKEN_FRAME_LEN : Z := 16384.

Definition KEY_LEN : Z := 32.
Definition KEY_ID_LEN : Z := 16.
Definition CREDENTIAL_DOMAIN_LEN : Z := 16.
Definition NONCE_PREFIX_LEN : Z := 4.
Definition NONCE_COUNTER_LEN : Z := 8.
Definition NONCE_LEN : Z := NONCE_PREFIX_LEN + NONCE_COUNTER_LEN.
Definition TAG_LEN : Z := 16.
Definition AWS_ACCOUNT_ID_LEN : Z := 12.
Definition I64_PAIR_LEN : Z := 16.
Definition U16_LEN : Z := 2.
Definition SOURCE_IDENTITY_PRESENCE_LEN : Z := 1.
Definition ASSOCIATED_DATA_LABEL : list byte := String.list_byte_of_string "argmin:sts:session-token:v1".

Definition MAX_V1_PLAINTEXT_LEN : Z :=
  SESSION_ACCESS_KEY_ID_LEN + SESSION_SECRET_ACCESS_KEY_LEN + I64_PAIR_LEN + AWS_ACCOUNT_ID_LEN
  + STABLE_ROLE_ID_LEN + U16_LEN + ROLE_NAME_MAX_LEN + U16_LEN + ROLE_SESSION_NAME_MAX_LEN
  + SOURCE_IDENTITY_PRESENCE_LEN + U16_LEN + SOURCE_IDENTITY_MAX_LEN.
Definition MAX_ISSUED_V1_FRAME_LEN : Z := KEY_ID_LEN + NONCE_LEN + MAX_V1_PLAINTEXT_LEN + TAG_LEN.

Definition unpadded_base64_len (byte_len : Z) : Z :=
  let complete_groups := byte_len / 3 in
  let remainder_len := if byte_len mod 3 =? 0 then 0 else if byte_len mod 3 =? 1 then 2 else 3 in
  complete_groups * 4 + remainder_len.

Definition MAX_ISSUED_V1_TOKEN_LEN : Z :=
  len (bytes SESSION_TOKEN_V1_PREFIX) + unpadded_base64_len MAX_ISSUED_V1_FRAME_LEN.

Definition CredentialDomain : Type := list byte.

Inductive SessionTokenKeyRingInitError := InitEntropyUnavailable | InvalidKeyMaterial.
Inductive SessionTokenSealError := InvalidCredential | SealKeyRingUnavailable | NonceExhausted | IssuanceInvariant.
Inductive SessionTokenOpenError := InvalidToken | OpenKeyRingUnavailable.

Record SessionTokenKey := MkSessionTokenKey {
  gcm_key : Aes256GcmKey;
  nonce_prefix : list byte;
  next_nonce_counter : Z
}.

Definition KeyMaterialFingerprint : Type := list byte.

Inductive RetiredSessionTokenKey :=
  | ValidationOnly (fingerprint : KeyMaterialFingerprint) (key : SessionTokenKey)
  | Removed (fingerprint : KeyMaterialFingerprint).

Definition material_fingerprint (self : RetiredSessionTokenKey) : KeyMaterialFingerprint :=
  match self with ValidationOnly f _ | Removed f => f end.

#[export] Instance byte_countable : Countable byte.
Proof. apply (inj_countable Byte.to_N Byte.of_N). exact Byte.of_to_N. Defined.

(** The ring: its domain and the state behind its lock; a lock is poisoned once a call
    panics while it holds it for writing *)
Record SessionTokenKeyRing := MkRing {
  credential_domain : CredentialDomain;
  active_key_id : list byte;
  active_fingerprint : KeyMaterialFingerprint;
  active_key : SessionTokenKey;
  retired : gmap (list byte) RetiredSessionTokenKey;
  poisoned : bool
}.

Definition set_active_key (key : SessionTokenKey) (r : SessionTokenKeyRing) : SessionTokenKeyRing :=
  MkRing (credential_domain r) (active_key_id r) (active_fingerprint r) key (retired r) (poisoned r).

Section token.
Context `{!Provider, !TokenLibrary}.

Definition from_key_material (key_material : list byte) : KeyMaterialFingerprint := sha256_digest key_material.

Definition SessionTokenKey_new (key_material nonce_prefix : list byte) :
    outcome SessionTokenKeyRingInitError SessionTokenKey :=
  key ← map_err (fun _ => InvalidKeyMaterial) (Aes256GcmKey_new key_material);
  mret (MkSessionTokenKey key nonce_prefix 0).

(** The counter is taken and advanced in one atomic update. *)
Definition next_nonce : stm SessionTokenKey SessionTokenSealError (list byte) := fun self =>
  match checked_add64 (next_nonce_counter self) 1 with
  | None => (Err NonceExhausted, self)
  | Some next =>
      (Ok (nonce_prefix self ++ Journal.to_be_bytes 8 (next_nonce_counter self)),
       MkSessionTokenKey (gcm_key self) (nonce_prefix self) next)
  end.

(** [take_array_from_generated]: the array of [n] bytes at the offset, and the offset behind it *)
Definition take_array_from_generated {E} (n : Z) (generated : list byte) (offset : Z) : outcome E (list byte * Z) :=
  let stop := offset + n in
  value ← index_range generated offset stop;
  mret (value, stop).

Definition from_initial_parts (credential_domain : CredentialDomain) (key_id : list byte)
    (nonce_prefix key_material : list byte) (next_nonce_counter : Z) :
    outcome SessionTokenKeyRingInitError SessionTokenKeyRing :=
  key ← SessionTokenKey_new key_material nonce_prefix;
  let key := MkSessionTokenKey (gcm_key key) nonce_prefix next_nonce_counter in
  mret (MkRing credential_domain key_id (from_key_material key_material) key ∅ false).

(** [generated] is what the random generator fills in, nothing when it fails. *)
Definition new_process_local (generated : option (list byte)) : outcome SessionTokenKeyRingInitError SessionTokenKeyRing :=
  generated ← ok_or generated InitEntropyUnavailable;
  '(credential_domain, offset) ← take_array_from_generated CREDENTIAL_DOMAIN_LEN generated 0;
  '(key_id, offset) ← take_array_from_generated KEY_ID_LEN generated offset;
  '(nonce_prefix, offset) ← take_array_from_generated NONCE_PREFIX_LEN generated offset;
  '(key_material, _) ← take_array_from_generated KEY_LEN generated offset;
  from_initial_parts credential_domain key_id nonce_prefix key_material 0.

Definition associated_data (credential_domain : CredentialDomain) (key_id : list byte) (nonce : list byte) : list byte :=
  ASSOCIATED_DATA_LABEL ++ credential_domain ++ as_bytes SESSION_TOKEN_V1_PREFIX ++ key_id ++ nonce.

(** [u16::try_from(n).to_be_bytes()] *)
Definition push_len_prefixed (value : str) (output : list byte) : outcome SessionTokenSealError (list byte) :=
  if 65535 <? len (as_bytes value) then Err IssuanceInvariant
  else Ok (output ++ Journal.to_be_bytes 2 (len (as_bytes value)) ++ as_bytes value).

Definition encode_v1_plaintext (credential : DecodedSessionCredential) : outcome SessionTokenSealError (list byte) :=
  if negb (valid_session_access_key_id (access_key_id credential))
     || negb (valid_session_secret_access_key (secret_key credential))
  then Err InvalidCredential else
  let session := session credential in
  let role := session_role session in
  let lifetime := lifetime session in
  let plaintext := as_bytes (access_key_id credential) ++ as_bytes (secret_key credential)
    ++ Journal.to_be_bytes 8 (issued_at_epoch_secs lifetime) ++ Journal.to_be_bytes 8 (expires_at_epoch_secs lifetime)
    ++ as_bytes (role_account_id role) ++ as_bytes (stable_id role) in
  plaintext ← push_len_prefixed (name role) plaintext;
  plaintext ← push_len_prefixed (session_name session) plaintext;
  match source_identity session with
  | None => mret (plaintext ++ [Byte.x00])
  | Some source_identity => push_len_prefixed source_identity (plaintext ++ [Byte.x01])
  end.

(** The key, its identifier and a fresh nonce, under the read lock *)
Definition allocate : stm SessionTokenKeyRing SessionTokenSealError (list byte * SessionTokenKey * list byte) := fun r =>
  if poisoned r then (Err SealKeyRingUnavailable, r) else
  let (nonce, key) := next_nonce (active_key r) in
  match nonce with
  | Ok nonce => (Ok (active_key_id r, key, nonce), set_active_key key r)
  | Err e => (Err e, set_active_key key r)
  | Panic => (Panic, set_active_key key r)
  end.

(** The cryptography and the encoding, after the lock is released *)
Definition seal_frame (domain : CredentialDomain) (key_id : list byte) (key : SessionTokenKey) (nonce plaintext : list byte) :
    outcome SessionTokenSealError str :=
  let associated_data := associated_data domain key_id nonce in
  ciphertext ← map_err (fun _ => IssuanceInvariant)
                 (seal_in_place_append_tag (gcm_key key) nonce associated_data plaintext);
  let frame := key_id ++ nonce ++ ciphertext in
  if MAX_ISSUED_V1_FRAME_LEN <? len frame then Err IssuanceInvariant else
  let token := SESSION_TOKEN_V1_PREFIX ++ base64_encode frame in
  if MAX_ISSUED_V1_TOKEN_LEN <? len (as_bytes token) then Err IssuanceInvariant else
  Ok token.

Definition seal_v1 (credential : DecodedSessionCredential) : stm SessionTokenKeyRing SessionTokenSealError str :=
  plaintext ← liftS (encode_v1_plaintext credential);
  _ ← liftS (guard_err (MAX_V1_PLAINTEXT_LEN <? len plaintext) IssuanceInvariant);
  domain ← gets credential_domain;
  '(key_id, key, nonce) ← allocate;
  liftS (seal_frame domain key_id key nonce plaintext).

Record OpenedSessionTokenV1 := MkOpened {
  opened_access_key_id : str;
  opened_secret_key : SecretKey;
  opened_lifetime : SessionLifetime;
  opened_account_id : AwsAccountId;
  opened_stable_role_id : StableRoleId;
  opened_role_name : RoleName;
  opened_session_name : RoleSessionName;
  opened_source_identity : option SourceIdentity
}.

Record PlaintextReader := MkReader { reader_bytes : list byte; offset : Z }.

Definition reading (A : Type) : Type := stm PlaintextReader SessionTokenOpenError A.

Definition reader_take (n : Z) : reading (list byte) := fun r =>
  match checked_add64 (offset r) n with
  | None => (Err InvalidToken, r)
  | Some stop =>
      match get_range (reader_bytes r) (offset r) stop with
      | None => (Err InvalidToken, r)
      | Some value => (Ok value, MkReader (reader_bytes r) stop)
      end
  end.

Definition take_u16 : reading Z :=
  b ← reader_take 2;
  mret (Journal.from_be_bytes b).

(** [i64::from_be_bytes] *)
Definition i64_from_be_bytes (b : list byte) : Z :=
  let u := Journal.from_be_bytes b in if u <? 2 ^ 63 then u else u - 2 ^ 64.

Definition take_i64 : reading Z :=
  b ← reader_take 8;
  mret (i64_from_be_bytes b).

Definition take_string (n : Z) : reading str :=
  b ← reader_take n;
  liftS (ok_or (from_utf8 b) InvalidToken).

(** A constructor whose errors all mean that the token is invalid *)
Definition checked {E A} (m : outcome E A) : reading A := liftS (map_err (fun _ => InvalidToken) m).

(** [match reader.take(1)?[0] { .. }] *)
Definition take_source_identity : reading (option SourceIdentity) :=
  presence ← reader_take 1;
  presence ← liftS (idx presence 0);
  if byte.unsigned presence =? 0 then mret None
  else if byte.unsigned presence =? 1 then
    source_identity_len ← take_u16;
    s ← take_string source_identity_len;
    source_identity ← checked (SourceIdentity_new s);
    mret (Some source_identity)
  else liftS (Err InvalidToken).

Definition decode_fields : reading OpenedSessionTokenV1 :=
  access_key_id ← take_string SESSION_ACCESS_KEY_ID_LEN;
  _ ← liftS (guard_err (negb (valid_session_access_key_id access_key_id)) InvalidToken);
  secret_key ← take_string SESSION_SECRET_ACCESS_KEY_LEN;
  _ ← liftS (guard_err (negb (valid_session_secret_access_key secret_key)) InvalidToken);
  issued_at_epoch_secs ← take_i64;
  expires_at_epoch_secs ← take_i64;
  lifetime ← checked (SessionLifetime_new issued_at_epoch_secs expires_at_epoch_secs);
  s ← take_string AWS_ACCOUNT_ID_LEN;
  account_id ← checked (AwsAccountId_new s);
  s ← take_string STABLE_ROLE_ID_LEN;
  stable_role_id ← checked (StableRoleId_new s);
  role_name_len ← take_u16;
  s ← take_string role_name_len;
  role_name ← checked (RoleName_new s);
  session_name_len ← take_u16;
  s ← take_string session_name_len;
  session_name ← checked (RoleSessionName_new s);
  source_identity ← take_source_identity;
  finished ← gets (fun r => offset r =? len (reader_bytes r));
  _ ← liftS (guard_err (negb finished) InvalidToken);
  mret (MkOpened access_key_id secret_key lifetime account_id stable_role_id role_name session_name source_identity).

Definition decode_v1_plaintext (plaintext : list byte) : outcome SessionTokenOpenError OpenedSessionTokenV1 :=
  if MAX_V1_PLAINTEXT_LEN <? len plaintext then Err InvalidToken
  else fst (decode_fields (MkReader plaintext 0)).

(** The key an identifier names, under the read lock *)
Definition find_key (r : SessionTokenKeyRing) (key_id : list byte) : outcome SessionTokenOpenError SessionTokenKey :=
  if poisoned r then Err OpenKeyRingUnavailable else
  if bool_decide (active_key_id r = key_id) then Ok (active_key r) else
  match retired r !! key_id with
  | Some (ValidationOnly _ key) => Ok key
  | Some (Removed _) | None => Err InvalidToken
  end.

(** The slice behind the prefix starts at a character. *)
Definition open_v1 (self : SessionTokenKeyRing) (token : str) : outcome SessionTokenOpenError OpenedSessionTokenV1 :=
  if (MAX_ENCODED_SESSION_TOKEN_LEN <? len (as_bytes token))
     || negb (bool_decide (is_Some (strip_prefix SESSION_TOKEN_V1_PREFIX token)))
  then Err InvalidToken else
  let encoded := drop (length SESSION_TOKEN_V1_PREFIX) token in
  if bool_decide (encoded = []) || negb (forallb (fun c => in_range c 0 127) encoded) then Err InvalidToken else
  frame ← ok_or (base64_decode encoded) InvalidToken;
  if (MAX_DECODED_SESSION_TOKEN_FRAME_LEN <? len frame)
     || negb (bool_decide (base64_encode frame = encoded))
     || (len frame <? KEY_ID_LEN + NONCE_LEN + TAG_LEN)
  then Err InvalidToken else
  key_id ← index_range frame 0 KEY_ID_LEN;
  nonce ← index_range frame KEY_ID_LEN (KEY_ID_LEN + NONCE_LEN);
  let ciphertext_offset := KEY_ID_LEN + NONCE_LEN in
  let associated_data := associated_data (credential_domain self) key_id nonce in
  key ← find_key self key_id;
  ciphertext ← index_range frame ciphertext_offset (len frame);
  let (r, buffer) := open_in_place (gcm_key key) nonce associated_data ciphertext in
  n ← map_err (fun _ => InvalidToken) r;
  decode_v1_plaintext (takeZ n buffer).

(** [debug_assert!] under the write lock, which a panic poisons *)
Definition debug_assert_locked (b : bool) : stm SessionTokenKeyRing SessionTokenSealError () := fun r =>
  if b then (Ok (), r)
  else (Panic, MkRing (credential_domain r) (active_key_id r) (active_fingerprint r) (active_key r) (retired r) true).

Definition rotate_process_local (generated : list byte) : stm SessionTokenKeyRing SessionTokenSealError (list byte) :=
  '(key_id, offset) ← liftS (take_array_from_generated KEY_ID_LEN generated 0);
  '(nonce_prefix, offset) ← liftS (take_array_from_generated NONCE_PREFIX_LEN generated offset);
  '(key_material, _) ← liftS (take_array_from_generated KEY_LEN generated offset);
  key ← liftS (map_err (fun _ => IssuanceInvariant) (SessionTokenKey_new key_material nonce_prefix));
  let fingerprint := from_key_material key_material in
  r ← gets id;
  _ ← liftS (guard_err (poisoned r) SealKeyRingUnavailable);
  _ ← liftS (guard_err
        (bool_decide (active_key_id r = key_id) || bool_decide (is_Some (retired r !! key_id))
         || bool_decide (active_fingerprint r = fingerprint)
         || existsb (fun '(_, k) => bool_decide (material_fingerprint k = fingerprint)) (map_to_list (retired r)))
        IssuanceInvariant);
  let replaced := retired r !! active_key_id r in
  _ ← modify (fun r => MkRing (credential_domain r) key_id fingerprint key
        (<[active_key_id r := ValidationOnly (active_fingerprint r) (active_key r)]> (retired r)) (poisoned r));
  _ ← debug_assert_locked (bool_decide (replaced = None));
  mret key_id.

Definition remove_validation_only_key (key_id : list byte) : stm SessionTokenKeyRing SessionTokenSealError bool := fun r =>
  if poisoned r then (Err SealKeyRingUnavailable, r) else
  if bool_decide (key_id = active_key_id r) then (Ok false, r) else
  match retired r !! key_id with
  | None => (Ok false, r)
  | Some (ValidationOnly f _) =>
      (Ok true, MkRing (credential_domain r) (active_key_id r) (active_fingerprint r) (active_key r)
                  (<[key_id := Removed f]> (retired r)) (poisoned r))
  | Some (Removed _) => (Ok false, r)
  end.

End token.

End SessionToken.
