(* ===== verification/SessionSpec.v ===== *)
(** The plaintext of session tokens: the decoder of SessionToken.v accepts exactly the
    representation of valid fields, and the encoder writes it. *)

From Stdlib Require Import ZifyBool.
From stdpp Require Import strings gmap.
From coqutil Require Import Word.LittleEndianList.
From S2P Require Import Prelude Machine Str Utf8 Journal JournalSpec Cobblestone CobblestoneSpec Identity SessionToken.

Local Open Scope Z_scope.

(** Documented behaviour of the third-party routines: decoding inverts encoding, and the
    text has the length and the alphabet of RFC 4648, section 5, without padding; the
    comparison of slices of one length is equality. *)
Class TokenLibraryOk `{TokenLibrary} : Prop := {
  base64_decode_encode b : base64_decode (base64_encode b) = Some b;
  base64_length b : Machine.len (base64_encode b) = SessionToken.unpadded_base64_len (Machine.len b);
  base64_alphabet b :
    Forall (fun c => 48 <= c <= 57 \/ 65 <= c <= 90 \/ 97 <= c <= 122 \/ c = 45 \/ c = 95) (base64_encode b);
  ct_eq_spec a b : length a = length b -> ct_eq a b = true <-> a = b
}.

Module SessionSpec.
Import Str Utf8 Machine JournalSpec Account Identity Credential Cobblestone SessionToken.

(** ** Representation *)

Definition prefixed (s : str) : list byte := Journal.to_be_bytes 2 (len (as_bytes s)) ++ as_bytes s.

Definition source_bytes (source : option SourceIdentity) : list byte :=
  match source with
  | None => [Byte.x00]
  | Some s => [Byte.x01] ++ prefixed s
  end.

Definition field_bytes (o : OpenedSessionTokenV1) : list byte :=
  as_bytes (opened_access_key_id o) ++ as_bytes (opened_secret_key o)
  ++ Journal.to_be_bytes 8 (issued_at_epoch_secs (opened_lifetime o))
  ++ Journal.to_be_bytes 8 (expires_at_epoch_secs (opened_lifetime o))
  ++ as_bytes (opened_account_id o) ++ as_bytes (opened_stable_role_id o)
  ++ prefixed (opened_role_name o) ++ prefixed (opened_session_name o)
  ++ source_bytes (opened_source_identity o).

(** Fields that pass the constructors, times that fit 64 bits *)
Record valid_fields (o : OpenedSessionTokenV1) : Prop := {
  v_access : valid_session_access_key_id (opened_access_key_id o) = true;
  v_secret : valid_session_secret_access_key (opened_secret_key o) = true;
  v_lifetime : 0 <= issued_at_epoch_secs (opened_lifetime o) < expires_at_epoch_secs (opened_lifetime o) /\
    expires_at_epoch_secs (opened_lifetime o) < 2 ^ 63;
  v_account : is_valid_aws_account_id (opened_account_id o) = true;
  v_stable : StableRoleId_new (opened_stable_role_id o) = Ok (opened_stable_role_id o);
  v_role : RoleName_new (opened_role_name o) = Ok (opened_role_name o);
  v_session : RoleSessionName_new (opened_session_name o) = Ok (opened_session_name o);
  v_source : forall s, opened_source_identity o = Some s -> SourceIdentity_new s = Ok s;
  v_scalar : Forall (Forall scalar) ([opened_access_key_id o; opened_secret_key o; opened_account_id o;
    opened_stable_role_id o; opened_role_name o; opened_session_name o] ++ from_option (fun s => [s]) [] (opened_source_identity o))
}.

(** ** Reading *)

(** The reader with [pre] behind it and [rest] ahead *)
Definition at_ (pre rest : list byte) : PlaintextReader := MkReader (pre ++ rest) (len pre).

Definition small (pre rest : list byte) : Prop := len (pre ++ rest) <= MAX_V1_PLAINTEXT_LEN.

Section read.
Context {A : Type} (o : A).

Lemma read_bytes n (k : list byte -> reading A) pre rest : small pre rest -> 0 <= n <= 65535 ->
  fst ((reader_take n ≫= k) (at_ pre rest)) = Ok o <->
  exists v rest', rest = v ++ rest' /\ len v = n /\ fst (k v (at_ (pre ++ v) rest')) = Ok o.
Proof.
  intros Hs Hn. unfold small in Hs. change MAX_V1_PLAINTEXT_LEN with 507 in Hs.
  rewrite len_app in Hs. pose proof (len_nonneg pre). pose proof (len_nonneg rest).
  unfold mbind, stm_bind, reader_take, at_. cbn [offset reader_bytes].
  rewrite checked_add64_Some by (unfold MAX64; lia).
  destruct (get_range (pre ++ rest) (len pre) (len pre + n)) as [v|] eqn:Hg; cbn [fst].
  - apply get_range_Some in Hg as [Hl Heq]; [|done]. rewrite (takeZ_app (len pre)) in Heq by done.
    apply app_inv_head in Heq. set (b := dropZ (len pre + n) (pre ++ rest)) in Heq. clearbody b. subst rest.
    split.
    + intros H1. exists v, b. rewrite <-app_assoc, len_app. replace (len v) with n by lia. split; [done|]. by split.
    + intros (v' & b' & Heq' & Hn' & H1). apply app_inj_1 in Heq' as [<- <-]; [|unfold len in *; lia].
      rewrite <-app_assoc, len_app in H1. by replace (len v) with n in H1 by lia.
  - split; [done|]. intros (v & b & -> & Hl & _). rewrite get_range_app in Hg; [done|done|lia].
Qed.

Lemma stm_assoc {B C} (m : reading B) (f : B -> reading C) (g : C -> reading A) r :
  ((m ≫= f) ≫= g) r = (m ≫= (fun b => f b ≫= g)) r.
Proof. unfold mbind, stm_bind. by destruct (m r) as [[]]. Qed.

Lemma read_lift {B E} (m : outcome E B) (f : E -> SessionTokenOpenError) (k : B -> reading A) r :
  fst ((liftS (map_err f m) ≫= k) r) = Ok o <-> exists b, m = Ok b /\ fst (k b r) = Ok o.
Proof. unfold mbind, stm_bind, liftS. destruct m; cbn; naive_solver. Qed.

Lemma read_guard c (k : () -> reading A) r :
  fst ((liftS (guard_err c InvalidToken) ≫= k) r) = Ok o <-> c = false /\ fst (k () r) = Ok o.
Proof. destruct c; cbn; naive_solver. Qed.

Lemma read_string n (k : str -> reading A) pre rest : small pre rest -> 0 <= n <= 65535 ->
  fst ((take_string n ≫= k) (at_ pre rest)) = Ok o <->
  exists s rest', Forall scalar s /\ rest = as_bytes s ++ rest' /\ len (as_bytes s) = n /\
    fst (k s (at_ (pre ++ as_bytes s) rest')) = Ok o.
Proof.
  intros Hs Hn. unfold take_string. rewrite stm_assoc, read_bytes by done. split.
  - intros (v & rest' & -> & Hl & H). unfold mbind, stm_bind, liftS in H.
    destruct (from_utf8 v) as [s|] eqn:Hv; [|done]. apply from_utf8_Some in Hv as [Hsc ->]. eauto 10.
  - intros (s & rest' & Hsc & -> & Hl & H). exists (as_bytes s), rest'. split; [done|]. split; [done|].
    unfold mbind, stm_bind, liftS. by rewrite from_utf8_as_bytes.
Qed.

Lemma read_u16 (k : Z -> reading A) pre rest : small pre rest ->
  fst ((take_u16 ≫= k) (at_ pre rest)) = Ok o <->
  exists n rest', 0 <= n <= 65535 /\ rest = Journal.to_be_bytes 2 n ++ rest' /\
    fst (k n (at_ (pre ++ Journal.to_be_bytes 2 n) rest')) = Ok o.
Proof.
  intros Hs. unfold take_u16. rewrite stm_assoc, read_bytes by (done || lia). split.
  - intros (v & rest' & -> & Hl & H). assert (length v = 2%nat) as Hv by (unfold len in Hl; lia).
    exists (Journal.from_be_bytes v), rest'. pose proof (from_be_bytes_range 2 v Hv).
    rewrite to_be_bytes_eq by done. split; [lia|]. split; [done|]. exact H.
  - intros (n & rest' & Hn & -> & H). exists (Journal.to_be_bytes 2 n), rest'. split; [done|].
    split; [unfold len; by rewrite length_to_be_bytes|].
    unfold mbind, stm_bind, mret, stm_ret. rewrite from_to_be_bytes by lia. exact H.
Qed.

(** Times that are not negative *)
Lemma read_i64 (k : Z -> reading A) pre rest : small pre rest ->
  (forall n r, n < 0 -> fst (k n r) <> Ok o) ->
  fst ((take_i64 ≫= k) (at_ pre rest)) = Ok o <->
  exists n rest', 0 <= n < 2 ^ 63 /\ rest = Journal.to_be_bytes 8 n ++ rest' /\
    fst (k n (at_ (pre ++ Journal.to_be_bytes 8 n) rest')) = Ok o.
Proof.
  intros Hs Hneg. unfold take_i64. rewrite stm_assoc, read_bytes by (done || lia). split.
  - intros (v & rest' & -> & Hl & H). assert (length v = 8%nat) as Hv by (unfold len in Hl; lia).
    pose proof (from_be_bytes_range 8 v Hv) as Hr.
    unfold mbind, stm_bind, mret, stm_ret, i64_from_be_bytes in H. cbn zeta in H.
    destruct (Z.ltb_spec (Journal.from_be_bytes v) (2 ^ 63)) as [Hlt|Hge].
    + exists (Journal.from_be_bytes v), rest'. rewrite to_be_bytes_eq by done. split; [lia|]. by split.
    + exfalso. refine (Hneg _ _ _ H). lia.
  - intros (n & rest' & Hn & -> & H). exists (Journal.to_be_bytes 8 n), rest'. split; [done|].
    split; [unfold len; by rewrite length_to_be_bytes|].
    unfold mbind, stm_bind, mret, stm_ret, i64_from_be_bytes. rewrite from_to_be_bytes by lia.
    rewrite (proj2 (Z.ltb_lt _ _)) by lia. exact H.
Qed.

End read.

(** The room that a step leaves *)
Ltac room := match goal with H : small ?p ?r |- small ?p' ?r' =>
  unfold small in *; rewrite ?len_app in *; lia end.

Lemma checked_lifetime a b l : SessionLifetime_new a b = Ok l <-> 0 <= a < b /\ l = MkSessionLifetime a b.
Proof.
  unfold SessionLifetime_new. destruct (Z.ltb_spec a 0); cbn; [naive_solver lia|].
  destruct (Z.leb_spec b a); naive_solver lia.
Qed.

(** The end of the plaintext *)
Lemma read_end (x o : OpenedSessionTokenV1) pre rest :
  fst ((finished ← gets (fun r => offset r =? len (reader_bytes r));
        _ ← liftS (guard_err (negb finished) InvalidToken);
        mret (M:=stm PlaintextReader SessionTokenOpenError) x) (at_ pre rest)) = Ok o <-> rest = [] /\ x = o.
Proof.
  unfold mbind, stm_bind, gets, liftS, at_. cbn [offset reader_bytes]. rewrite len_app.
  destruct (Z.eqb_spec (len pre) (len pre + len rest)) as [Hl|Hl]; cbn [negb guard_err].
  - assert (rest = []) as -> by (apply len_nil_inv; lia). cbn. naive_solver.
  - split; [done|]. intros [-> _]. exfalso. apply Hl. unfold len at 3. simpl. lia.
Qed.

(** ** Texts of ASCII characters *)

Lemma scalar_ascii P s : (forall b, P b = true -> b < 128) -> Forall scalar s -> forallb P (bytes s) = true ->
  Forall ascii s.
Proof.
  intros HP. induction s as [|c s IH]; intros Hs Hb; [constructor|].
  apply list.Forall_cons in Hs as [Hc Hs]. change (c :: s) with ([c] ++ s) in Hb.
  rewrite bytes_app, forallb_app in Hb. apply andb_prop in Hb as [Hb1 Hb2]. constructor; [|by apply IH].
  destruct (decide (c < 128)) as [Hlt|Hge]; [unfold scalar in Hc; unfold ascii; lia|]. exfalso.
  assert (exists x l, 128 <= x < 256 /\ bytes [c] = x :: l) as (x & l & Hx & Hl).
  { unfold bytes, as_bytes, char_bytes. cbn [mbind list_bind app]. unfold scalar in Hc.
    rewrite (proj2 (Z.ltb_ge c 128)) by lia.
    destruct (Z.ltb_spec c 0x800); [|destruct (Z.ltb_spec c 0x10000)]; cbn [fmap list_fmap app];
      (eexists _, _; split; [|rewrite unsigned_of_Z; [reflexivity|]]);
      Z.to_euclidean_division_equations; lia. }
  rewrite Hl in Hb1. cbn in Hb1. apply andb_prop in Hb1 as [Hb1 _]. apply HP in Hb1. lia.
Qed.

Lemma name_byte_ascii b : is_iam_name_byte b = true -> b < 128.
Proof.
  unfold is_iam_name_byte, is_ascii_alphanumeric, is_ascii_digit, is_ascii_uppercase, in_range.
  intros [H|H]%orb_prop; [lia|]. apply existsb_exists in H as (x & Hx & ->%Z.eqb_eq).
  cbn in Hx. lia.
Qed.

Lemma len_bytes s : len (bytes s) = len (as_bytes s).
Proof. unfold bytes, len. by rewrite length_fmap. Qed.

Lemma name_len s : Forall scalar s -> forallb is_iam_name_byte (bytes s) = true -> len (as_bytes s) = len s.
Proof.
  intros Hs Hb. rewrite <-len_bytes. f_equal. apply bytes_ascii. exact (scalar_ascii _ _ name_byte_ascii Hs Hb).
Qed.

(** ** What the constructors check *)

Lemma StableRoleId_new_Ok s a : StableRoleId_new s = Ok a -> a = s /\ len (as_bytes s) = STABLE_ROLE_ID_LEN.
Proof.
  unfold StableRoleId_new. destruct (negb _) eqn:H; [done|]. intros [= <-]. split; [done|].
  apply negb_false_iff, andb_prop in H as [[H _]%andb_prop _]. apply Z.eqb_eq in H. by rewrite <-len_bytes.
Qed.

Lemma RoleName_new_len s a : RoleName_new s = Ok a -> a = s /\ len (as_bytes s) <= ROLE_NAME_MAX_LEN.
Proof.
  unfold RoleName_new. destruct (_ || _) eqn:H; [done|]. intros [= <-]. split; [done|].
  apply orb_false_elim in H as [[_ H]%orb_false_elim _]. rewrite len_bytes in H. lia.
Qed.

Lemma RoleSessionName_new_Ok s a : RoleSessionName_new s = Ok a ->
  a = s /\ len s <= ROLE_SESSION_NAME_MAX_LEN /\ forallb is_iam_name_byte (bytes s) = true.
Proof.
  unfold RoleSessionName_new. destruct (Z.ltb_spec (len s) ROLE_SESSION_NAME_MIN_LEN); [done|].
  destruct (Z.ltb_spec ROLE_SESSION_NAME_MAX_LEN (len s)); [done|].
  destruct (forallb _ _); [|done]. by intros [= <-].
Qed.

Lemma SourceIdentity_new_Ok s a : SourceIdentity_new s = Ok a ->
  a = s /\ len s <= SOURCE_IDENTITY_MAX_LEN /\ forallb is_iam_name_byte (bytes s) = true.
Proof.
  unfold SourceIdentity_new. destruct (_ || _) eqn:H; [done|]. intros [= <-].
  apply orb_false_elim in H as [H1%negb_false_iff H2%negb_false_iff]. unfold in_range in H1. split; [done|]. split; [lia|done].
Qed.

Lemma access_key_len s : valid_session_access_key_id s = true -> len (as_bytes s) = SESSION_ACCESS_KEY_ID_LEN.
Proof. intros [[H _]%andb_prop _]%andb_prop. rewrite <-len_bytes. lia. Qed.

Lemma secret_len s : valid_session_secret_access_key s = true -> len (as_bytes s) = SESSION_SECRET_ACCESS_KEY_LEN.
Proof. intros [H _]%andb_prop. rewrite <-len_bytes. lia. Qed.

Lemma account_len s : is_valid_aws_account_id s = true -> len (as_bytes s) = AWS_ACCOUNT_ID_LEN.
Proof. intros [H _]%andb_prop. rewrite <-len_bytes. unfold AWS_ACCOUNT_ID_LEN, Account.AWS_ACCOUNT_ID_LEN in *. lia. Qed.

(** ** The decoder accepts exactly the representation of valid fields *)

Lemma lifetime_not_negative {A} a b (k : SessionLifetime -> reading A) r (o : A) :
  a < 0 \/ b < 0 -> fst ((checked (SessionLifetime_new a b) ≫= k) r) <> Ok o.
Proof.
  intros Hab. unfold checked. rewrite read_lift. intros (l & [Hl _]%checked_lifetime & _). lia.
Qed.

Lemma prefixed_app pre s : (pre ++ Journal.to_be_bytes 2 (len (as_bytes s))) ++ as_bytes s = pre ++ prefixed s.
Proof. unfold prefixed. by rewrite app_assoc. Qed.

Lemma read_prefixed {A B} (o : A) (f : str -> reading B) (k : B -> reading A) pre rest : small pre rest ->
  fst (((n ← take_u16; s ← take_string n; f s) ≫= k) (at_ pre rest)) = Ok o <->
  exists s rest', Forall scalar s /\ len (as_bytes s) <= 65535 /\ rest = prefixed s ++ rest' /\
    fst ((f s ≫= k) (at_ (pre ++ prefixed s) rest')) = Ok o.
Proof.
  intros Hs. rewrite stm_assoc, read_u16 by done. split.
  - intros (n & r1 & Hn & -> & H). rewrite stm_assoc in H.
    apply read_string in H as (s & r2 & Ss & -> & Ls & H); [|room|done]. subst n.
    exists s, r2. rewrite prefixed_app in H. split; [done|]. split; [lia|]. split; [|done].
    unfold prefixed. by rewrite <-app_assoc.
  - intros (s & r & Ss & Ls & -> & H). pose proof (len_nonneg (as_bytes s)).
    exists (len (as_bytes s)), (as_bytes s ++ r). split; [lia|].
    split; [unfold prefixed; by rewrite <-app_assoc|]. rewrite stm_assoc.
    apply read_string; [unfold prefixed in Hs; room|lia|]. exists s, r. rewrite prefixed_app. auto.
Qed.

(** [take_prefixed_name]: the same without more to come *)
Lemma read_name {A} (o : A) (k : str -> reading A) pre rest : small pre rest ->
  fst ((n ← take_u16; s ← take_string n; k s) (at_ pre rest)) = Ok o <->
  exists s rest', Forall scalar s /\ len (as_bytes s) <= 65535 /\ rest = prefixed s ++ rest' /\
    fst (k s (at_ (pre ++ prefixed s) rest')) = Ok o.
Proof.
  intros Hs. pose proof (read_prefixed o k mret pre rest Hs) as H.
  assert (forall (m : reading A) r, (m ≫= mret) r = m r) as Hret
    by (intros m r; unfold mbind, stm_bind, mret, stm_ret; by destruct (m r) as [[]]).
  rewrite Hret in H. rewrite H. by setoid_rewrite Hret.
Qed.

Lemma read_source {A} (o : A) (k : option SourceIdentity -> reading A) pre rest : small pre rest ->
  fst ((take_source_identity ≫= k) (at_ pre rest)) = Ok o <->
  exists src rest', rest = source_bytes src ++ rest' /\
    (forall s, src = Some s -> SourceIdentity_new s = Ok s /\ Forall scalar s) /\
    fst (k src (at_ (pre ++ source_bytes src) rest')) = Ok o.
Proof.
  intros Hs. unfold take_source_identity. rewrite stm_assoc, read_bytes by (done || lia). split.
  - intros (v & r & -> & Hl & H). rewrite stm_assoc in H.
    destruct v as [|b [|]]; [done| |unfold len in Hl; simpl in Hl; lia].
    change (liftS (idx [b] 0)) with (liftS (S:=PlaintextReader) (map_err id (Ok (E:=SessionTokenOpenError) b))) in H.
    apply read_lift in H as (b' & [= <-] & H).
    destruct (Z.eqb_spec (byte.unsigned b) 0) as [Hb|Hb].
    { assert (b = Byte.x00) as -> by (apply byte.unsigned_inj; by rewrite Hb). by exists None, r. }
    destruct (Z.eqb_spec (byte.unsigned b) 1) as [Hb1|Hb1]; [|done].
    assert (b = Byte.x01) as -> by (apply byte.unsigned_inj; by rewrite Hb1).
    apply read_prefixed in H as (s & r2 & Ss & Ls & -> & H); [|room]. rewrite stm_assoc in H.
    apply read_lift in H as (s' & Vs & H). pose proof (SourceIdentity_new_Ok _ _ Vs) as [-> _].
    exists (Some s), r2. rewrite <-app_assoc in H. split; [done|]. split; [naive_solver|done].
  - intros (src & r & -> & Hsrc & H). destruct src as [s|].
    + destruct (Hsrc s eq_refl) as [Vs Ss]. pose proof (SourceIdentity_new_Ok _ _ Vs) as (_ & Ls & Bs).
      pose proof (name_len _ Ss Bs). exists [Byte.x01], (prefixed s ++ r). split; [done|]. split; [done|].
      rewrite stm_assoc.
      change (liftS (idx [Byte.x01] 0)) with (liftS (S:=PlaintextReader) (map_err id (Ok (E:=SessionTokenOpenError) Byte.x01))).
      apply read_lift. exists Byte.x01. split; [done|]. cbn [byte.unsigned].
      change (byte.unsigned Byte.x01 =? 0) with false. change (byte.unsigned Byte.x01 =? 1) with true. cbn iota.
      apply read_prefixed; [cbn [source_bytes] in Hs; room|]. exists s, r. split; [done|].
      split; [unfold SOURCE_IDENTITY_MAX_LEN in Ls; lia|]. split; [done|]. rewrite stm_assoc.
      apply read_lift. exists s. split; [done|]. rewrite <-app_assoc. exact H.
    + exists [Byte.x00], r. split; [done|]. split; [done|]. exact H.
Qed.

(** A first time that is negative is refused after the second is read. *)
Lemma issued_not_negative {A} (k : SessionLifetime -> reading A) n r o : n < 0 ->
  fst ((e ← take_i64; l ← checked (SessionLifetime_new n e); k l) r) <> Ok o.
Proof.
  intros Hn. unfold take_i64. rewrite stm_assoc. unfold mbind at 1, stm_bind.
  destruct (reader_take 8 r) as [[v| |] r']; [|done..]. unfold mret, stm_ret. cbn [mbind stm_bind].
  apply lifetime_not_negative. by left.
Qed.

Lemma decode_fields_inv bs o : small [] bs -> fst (decode_fields (at_ [] bs)) = Ok o -> valid_fields o /\ bs = field_bytes o.
Proof.
  intros Hs H. unfold decode_fields in H.
  apply read_string in H as (ak & r1 & Sak & -> & Lak & H); [|room|done]. apply read_guard in H as [Vak%negb_false_iff H].
  apply read_string in H as (sk & r2 & Ssk & -> & Lsk & H); [|room|done]. apply read_guard in H as [Vsk%negb_false_iff H].
  apply read_i64 in H as (i & r3 & Hi & -> & H); [|room|intros; by apply issued_not_negative].
  apply read_i64 in H as (e & r4 & He & -> & H); [|room|intros n r Hn; apply lifetime_not_negative; by right].
  apply read_lift in H as (l & [Hl ->]%checked_lifetime & H).
  apply read_string in H as (ac & r5 & Sac & -> & Lac & H); [|room|done].
  apply read_lift in H as (ac' & [Vac ->]%AwsAccountId_new_Ok & H).
  apply read_string in H as (st & r6 & Sst & -> & Lst & H); [|room|done].
  apply read_lift in H as (st' & Vst & H). pose proof (StableRoleId_new_Ok _ _ Vst) as [-> _].
  apply read_name in H as (rn & r7 & Srn & Lrn & -> & H); [|room].
  apply read_lift in H as (rn' & Vrn & H). pose proof (RoleName_new_len _ _ Vrn) as [-> _].
  apply read_name in H as (sn & r8 & Ssn & Lsn & -> & H); [|room].
  apply read_lift in H as (sn' & Vsn & H). pose proof (RoleSessionName_new_Ok _ _ Vsn) as [-> _].
  apply read_source in H as (src & r9 & -> & Hsrc & H); [|room].
  apply read_end in H as [-> <-]. rewrite app_nil_r. split; [|done].
  split; cbn; try done; try lia.
  - intros s ->. by apply Hsrc.
  - do 6 (apply list.Forall_cons; split; [done|]). destruct src as [s|]; cbn; [apply list.Forall_singleton; by apply Hsrc|done].
Qed.

(** The fields of a token built by its constructor *)
Ltac fields := cbn [opened_access_key_id opened_secret_key opened_lifetime opened_account_id opened_stable_role_id
  opened_role_name opened_session_name opened_source_identity issued_at_epoch_secs expires_at_epoch_secs app] in *.

Lemma decode_fields_valid o : valid_fields o -> small [] (field_bytes o) -> fst (decode_fields (at_ [] (field_bytes o))) = Ok o.
Proof.
  intros [Vak Vsk Vl Vac Vst Vrn Vsn Vsrc Vsc] Hs. destruct o as [ak sk [i e] ac st rn sn src]. fields.
  apply list.Forall_cons in Vsc as [Sak Vsc]. apply list.Forall_cons in Vsc as [Ssk Vsc].
  apply list.Forall_cons in Vsc as [Sac Vsc]. apply list.Forall_cons in Vsc as [Sst Vsc].
  apply list.Forall_cons in Vsc as [Srn Vsc]. apply list.Forall_cons in Vsc as [Ssn Ssrc].
  pose proof (RoleName_new_len _ _ Vrn) as [_ Lrn]. pose proof (RoleSessionName_new_Ok _ _ Vsn) as (_ & Lsn & Bsn).
  pose proof (name_len _ Ssn Bsn) as Nsn. unfold ROLE_NAME_MAX_LEN, ROLE_SESSION_NAME_MAX_LEN in *.
  unfold field_bytes in *. fields. unfold decode_fields.
  apply read_string; [room|done|]. eexists ak, _. split; [done|]. split; [done|]. split; [by apply access_key_len|].
  apply read_guard. split; [by rewrite Vak|].
  apply read_string; [room|done|]. eexists sk, _. split; [done|]. split; [done|]. split; [by apply secret_len|].
  apply read_guard. split; [by rewrite Vsk|].
  apply read_i64; [room|intros; by apply issued_not_negative|]. eexists i, _. split; [lia|]. split; [done|].
  apply read_i64; [room|intros n r Hn; apply lifetime_not_negative; by right|]. eexists e, _. split; [lia|]. split; [done|].
  apply read_lift. exists (MkSessionLifetime i e). split; [apply checked_lifetime; split; [lia|done]|].
  apply read_string; [room|done|]. eexists ac, _. split; [done|]. split; [done|]. split; [by apply account_len|].
  apply read_lift. exists ac. split; [by apply AwsAccountId_new_Ok|].
  apply read_string; [room|done|]. eexists st, _. split; [done|]. split; [done|].
  split; [by apply (StableRoleId_new_Ok _ _ Vst)|]. apply read_lift. exists st. split; [done|].
  apply read_name; [room|]. eexists rn, _. split; [done|]. split; [lia|]. split; [done|].
  apply read_lift. exists rn. split; [done|].
  apply read_name; [room|]. eexists sn, _. split; [done|]. split; [lia|]. split; [done|].
  apply read_lift. exists sn. split; [done|].
  apply read_source; [room|]. exists src, []. split; [by rewrite app_nil_r|]. split.
  - intros s ->. split; [by apply Vsrc|]. inversion Ssrc; subst. done.
  - by apply read_end.
Qed.

Lemma len_to_be w n : len (Journal.to_be_bytes w n) = Z.of_nat w.
Proof. unfold len. by rewrite length_to_be_bytes. Qed.

Lemma field_bytes_len o : valid_fields o -> len (field_bytes o) <= MAX_V1_PLAINTEXT_LEN.
Proof.
  intros [Vak Vsk Vl Vac Vst Vrn Vsn Vsrc Vsc]. destruct o as [ak sk [i e] ac st rn sn src]. fields.
  do 5 (apply list.Forall_cons in Vsc as [_ Vsc]). apply list.Forall_cons in Vsc as [Ssn Ssrc].
  pose proof (RoleName_new_len _ _ Vrn) as [_ Lrn]. pose proof (RoleSessionName_new_Ok _ _ Vsn) as (_ & Lsn & Bsn).
  rewrite <-(name_len _ Ssn Bsn) in Lsn. apply access_key_len in Vak. apply secret_len in Vsk. apply account_len in Vac.
  apply StableRoleId_new_Ok in Vst as [_ Vst].
  assert (len (source_bytes src) <= 259) as Lsrc.
  { destruct src as [s|]; [|done]. pose proof (SourceIdentity_new_Ok _ _ (Vsrc s eq_refl)) as (_ & Ls & Bs).
    inversion Ssrc; subst. rewrite <-(name_len s) in Ls by done. cbn [source_bytes]. unfold prefixed.
    rewrite !len_app, len_to_be. unfold SOURCE_IDENTITY_MAX_LEN in Ls. unfold len at 1. simpl length. lia. }
  unfold field_bytes, prefixed. fields. rewrite !len_app, !len_to_be.
  unfold MAX_V1_PLAINTEXT_LEN, I64_PAIR_LEN, U16_LEN, SOURCE_IDENTITY_PRESENCE_LEN, SOURCE_IDENTITY_MAX_LEN. lia.
Qed.

Lemma decode_exact bs o : decode_v1_plaintext bs = Ok o <-> valid_fields o /\ bs = field_bytes o.
Proof.
  unfold decode_v1_plaintext. split.
  - destruct (Z.ltb_spec MAX_V1_PLAINTEXT_LEN (len bs)) as [|Hl]; [done|]. intros H. by apply decode_fields_inv.
  - intros [Ho ->]. pose proof (field_bytes_len o Ho) as Hl.
    rewrite (proj2 (Z.ltb_ge _ _)) by done. by apply decode_fields_valid.
Qed.

(** The fields that a credential is sealed from *)
Definition fields_of (c : DecodedSessionCredential) : OpenedSessionTokenV1 :=
  let s := session c in
  MkOpened (access_key_id c) (secret_key c) (lifetime s) (role_account_id (session_role s)) (stable_id (session_role s))
    (name (session_role s)) (session_name s) (source_identity s).

Lemma encode_fields c : valid_fields (fields_of c) -> encode_v1_plaintext c = Ok (field_bytes (fields_of c)).
Proof.
  intros V. pose proof V as [Vak Vsk Vl Vac Vst Vrn Vsn Vsrc Vsc]. cbn in Vak, Vsk, Vrn, Vsn, Vsrc, Vsc.
  unfold encode_v1_plaintext. rewrite Vak, Vsk. cbn [negb orb].
  do 5 (apply list.Forall_cons in Vsc as [_ Vsc]). apply list.Forall_cons in Vsc as [Ssn Ssrc].
  pose proof (RoleName_new_len _ _ Vrn) as [_ Lrn]. pose proof (RoleSessionName_new_Ok _ _ Vsn) as (_ & Lsn & Bsn).
  rewrite <-(name_len _ Ssn Bsn) in Lsn. unfold ROLE_NAME_MAX_LEN, ROLE_SESSION_NAME_MAX_LEN in *.
  unfold push_len_prefixed. do 2 (rewrite (proj2 (Z.ltb_ge 65535 _)) by lia; bind_step).
  unfold field_bytes, fields_of. fields. destruct (source_identity (session c)) as [s|]; cbn [source_bytes].
  - pose proof (SourceIdentity_new_Ok _ _ (Vsrc s eq_refl)) as (_ & Ls & Bs).
    inversion Ssrc; subst. rewrite <-(name_len s) in Ls by done. unfold SOURCE_IDENTITY_MAX_LEN in Ls.
    rewrite (proj2 (Z.ltb_ge 65535 _)) by lia. unfold prefixed. by rewrite <-!app_assoc.
  - unfold prefixed. by rewrite <-!app_assoc.
Qed.

(** ** Generated credentials *)

Definition key_char (c : Z) : Prop := 48 <= c <= 57 \/ 65 <= c <= 90.

(** Rejection sampling appends characters of the alphabet, one at least where a candidate
    is below the ceiling, and stops at the length. *)
Lemma take_candidates_spec {E} cands : forall suffix, len suffix < SESSION_ACCESS_KEY_SUFFIX_LEN -> Forall key_char suffix ->
  returns (take_candidates (E:=E) suffix cands) (fun s => Forall key_char s /\
    len suffix <= len s <= SESSION_ACCESS_KEY_SUFFIX_LEN /\
    (Exists (fun b => byte.unsigned b < UNBIASED_BYTE_CEILING) cands -> len suffix < len s)).
Proof.
  unfold returns. induction cands as [|b cands IH]; intros suffix Hl Hs; cbn [take_candidates].
  { split; [done|]. split; [lia|]. by intros H%Exists_nil. }
  destruct (Z.leb_spec UNBIASED_BYTE_CEILING (byte.unsigned b)) as [Hb|Hb].
  { eapply wp_mono; [by apply IH| |done]. cbn. intros s (H1 & H2 & H3). split; [done|]. split; [done|].
    intros [H|H]%Exists_cons; [lia|auto]. }
  change (len SESSION_ACCESS_KEY_ALPHABET) with 36. pose proof (Z.mod_pos_bound (byte.unsigned b) 36 ltac:(done)).
  eapply wp_bind, wp_idx; [change (length SESSION_ACCESS_KEY_ALPHABET) with 36%nat; lia|]. intros c Hc.
  assert (key_char c) as Hk.
  { assert (forallb (fun c => in_range c 48 57 || in_range c 65 90) SESSION_ACCESS_KEY_ALPHABET = true) as Ha by done.
    rewrite forallb_forall in Ha. apply list_elem_of_lookup_2, list_elem_of_In, Ha in Hc. unfold in_range in Hc.
    unfold key_char. lia. }
  assert (len (suffix ++ [c]) = len suffix + 1) as Hlen by (by rewrite len_app).
  destruct (Z.eqb_spec (len (suffix ++ [c])) SESSION_ACCESS_KEY_SUFFIX_LEN) as [He|He].
  - cbn. split; [apply list.Forall_app; split; [done|by apply list.Forall_singleton]|]. split; [lia|]. intros _. lia.
  - eapply wp_mono; [apply IH; [lia|apply list.Forall_app; split; [done|by apply list.Forall_singleton]]| |done]. cbn.
    intros s (H1 & H2 & H3). split; [done|]. split; [lia|]. intros _. lia.
Qed.

Section generation.
Context `{!TokenLibrary, !TokenLibraryOk} {R : Type} (random : RandomSource R).

(** The source fills every buffer, and a buffer of candidates has one below the ceiling. *)
Hypothesis Hrandom : forall n r, exists b r', random n r = (Ok b, r') /\ len b = n /\
  (n = 32 -> Exists (fun b => byte.unsigned b < UNBIASED_BYTE_CEILING) b).

Lemma fill_suffix_spec fuel : forall suffix r, Forall key_char suffix -> len suffix <= SESSION_ACCESS_KEY_SUFFIX_LEN ->
  SESSION_ACCESS_KEY_SUFFIX_LEN - len suffix <= Z.of_nat fuel ->
  exists s r', fill_suffix fuel random suffix r = (Ok s, r') /\ Forall key_char s /\ len s = SESSION_ACCESS_KEY_SUFFIX_LEN.
Proof.
  induction fuel as [|fuel IH]; intros suffix r Hs Hl Hf; cbn [fill_suffix].
  - rewrite (proj2 (Z.ltb_ge _ _)) by lia. exists suffix, r. split; [done|]. split; [done|lia].
  - destruct (Z.ltb_spec (len suffix) SESSION_ACCESS_KEY_SUFFIX_LEN) as [Hlt|Hge];
      [|exists suffix, r; split; [done|]; split; [done|lia]].
    destruct (Hrandom 32 r) as (b & r' & Hr & _ & Hb). unfold mbind, stm_bind. rewrite Hr. unfold liftS.
    pose proof (take_candidates_spec (E:=SessionCredentialGenerationError) b suffix Hlt Hs) as Ht.
    destruct (take_candidates suffix b) as [s| |]; [|done..]. destruct Ht as (H1 & H2 & H3). specialize (H3 (Hb eq_refl)).
    apply IH; [done|lia|lia].
Qed.

Lemma key_chars_ascii s : Forall key_char s -> Forall ascii s.
Proof. intros Hs. eapply list.Forall_impl; [done|]. intros c Hc. unfold key_char, ascii in *. lia. Qed.

(** Twenty buffers suffice for the access key, and the credential that is generated is
    one that tokens take: the key in the namespace of sessions, the secret of forty
    characters. *)
Theorem session_credential_generation fuel r : (20 <= fuel)%nat ->
  exists m r', generate_session_credential_material_with fuel random r = (Ok m, r') /\
    valid_session_access_key_id (material_access_key_id m) = true /\
    valid_session_secret_access_key (material_secret_key m) = true /\
    is_reserved_session_access_key_id (material_access_key_id m) = true.
Proof.
  intros Hf. destruct (fill_suffix_spec fuel [] r) as (s & r1 & Hfill & Hs & Hl);
    [constructor|done|change (SESSION_ACCESS_KEY_SUFFIX_LEN - len []) with 20; lia|].
  destruct (Hrandom SESSION_SECRET_RANDOM_LEN r1) as (b & r2 & Hr & Hb & _).
  unfold generate_session_credential_material_with, mbind, stm_bind. rewrite Hfill, Hr. eexists _, r2. split; [done|].
  cbn [material_access_key_id material_secret_key].
  assert (Forall ascii (SESSION_ACCESS_KEY_ID_PREFIX ++ s)) as Ha.
  { apply list.Forall_app. split; [|by apply key_chars_ascii]. by repeat (constructor; [split; done|]). }
  split; [|split].
  - unfold valid_session_access_key_id. rewrite (bytes_ascii _ Ha), len_app, Hl.
    change (bytes SESSION_ACCESS_KEY_ID_PREFIX) with SESSION_ACCESS_KEY_ID_PREFIX. rewrite dropZ_app by done.
    rewrite (bool_decide_eq_true_2 (is_Some (strip_prefix _ _))) by (rewrite strip_prefix_app; by eexists). cbn [andb].
    apply andb_true_intro. split; [done|]. apply forallb_forall. intros c Hc%list_elem_of_In. rewrite list.Forall_forall in Hs. apply Hs in Hc.
    unfold key_char in Hc. unfold is_ascii_uppercase, is_ascii_digit, in_range. lia.
  - pose proof (base64_alphabet b) as Hal.
    assert (Forall ascii (base64_encode b)) as Hba by (eapply list.Forall_impl; [done|]; intros c; unfold ascii; cbn; lia).
    unfold valid_session_secret_access_key. rewrite bytes_ascii, base64_length, Hb by done. cbn [andb].
    apply andb_true_intro. split; [done|]. apply forallb_forall. intros c Hc%list_elem_of_In.
    rewrite list.Forall_forall in Hal. apply Hal in Hc.
    unfold is_ascii_alphanumeric, is_ascii_uppercase, is_ascii_digit, in_range. lia.
  - unfold is_reserved_session_access_key_id. apply bool_decide_eq_true. rewrite strip_prefix_app. by eexists.
Qed.

End generation.

End SessionSpec.
