(* ===== verification/TokenSamples.v ===== *)
(** Concrete parameters for the session tokens: the base64 alphabet of RFC 4648, section
    5, without padding, and a ring, a role and a credential to evaluate the theorems of
    SessionRing.v and ProviderSpec.v on. *)

From Stdlib Require Import ZifyBool.
From stdpp Require Import strings gmap.
From S2P Require Import Prelude Machine Str Utf8 Cobblestone CobblestoneSpec CobblestoneProps.
From S2P Require Import Identity IamSpec SessionToken SessionSpec.

Local Open Scope Z_scope.

Module TokenSamples.
Import Str Utf8 Machine Account Identity Credential SessionToken SessionSpec IamSpec.

Definition sextet_char (n : Z) : Z :=
  if n <? 26 then n + 65 else if n <? 52 then n + 71 else if n <? 62 then n - 4 else if n =? 62 then 45 else 95.

Definition char_sextet (c : Z) : option Z :=
  if in_range c 65 90 then Some (c - 65) else if in_range c 97 122 then Some (c - 71)
  else if in_range c 48 57 then Some (c + 4) else if c =? 45 then Some 62 else if c =? 95 then Some 63 else None.

Fixpoint encode_url (l : list byte) : str :=
  match l with
  | a :: b :: c :: r =>
      let a := byte.unsigned a in let b := byte.unsigned b in let c := byte.unsigned c in
      sextet_char (a / 4) :: sextet_char (a mod 4 * 16 + b / 16) :: sextet_char (b mod 16 * 4 + c / 64)
      :: sextet_char (c mod 64) :: encode_url r
  | [a; b] =>
      let a := byte.unsigned a in let b := byte.unsigned b in
      [sextet_char (a / 4); sextet_char (a mod 4 * 16 + b / 16); sextet_char (b mod 16 * 4)]
  | [a] => let a := byte.unsigned a in [sextet_char (a / 4); sextet_char (a mod 4 * 16)]
  | [] => []
  end.

Fixpoint decode_url (s : str) : option (list byte) :=
  match s with
  | w :: x :: y :: z :: r =>
      w ← char_sextet w; x ← char_sextet x; y ← char_sextet y; z ← char_sextet z;
      rest ← decode_url r;
      Some (byte.of_Z (w * 4 + x / 16) :: byte.of_Z (x mod 16 * 16 + y / 4) :: byte.of_Z (y mod 4 * 64 + z) :: rest)
  | [w; x; y] =>
      w ← char_sextet w; x ← char_sextet x; y ← char_sextet y;
      Some [byte.of_Z (w * 4 + x / 16); byte.of_Z (x mod 16 * 16 + y / 4)]
  | [w; x] => w ← char_sextet w; x ← char_sextet x; Some [byte.of_Z (w * 4 + x / 16)]
  | [_] => None
  | [] => Some []
  end.

Lemma char_sextet_char n : 0 <= n < 64 -> char_sextet (sextet_char n) = Some n.
Proof.
  intros Hn. unfold sextet_char.
  destruct (Z.ltb_spec n 26); [|destruct (Z.ltb_spec n 52); [|destruct (Z.ltb_spec n 62); [|destruct (Z.eqb_spec n 62)]]];
    unfold char_sextet, in_range; repeat case_match; try (f_equal; lia); lia.
Qed.

Lemma sextet_char_alphabet n : 0 <= n < 64 ->
  let c := sextet_char n in 48 <= c <= 57 \/ 65 <= c <= 90 \/ 97 <= c <= 122 \/ c = 45 \/ c = 95.
Proof. intros Hn. cbn zeta. unfold sextet_char. repeat case_match; lia. Qed.

Lemma unsigned_range b : 0 <= byte.unsigned b < 256.
Proof. apply byte.unsigned_range. Qed.

(** Three bytes at a time *)
Lemma triple_ind (P : list byte -> Prop) : P [] -> (forall a, P [a]) -> (forall a b, P [a; b]) ->
  (forall a b c r, P r -> P (a :: b :: c :: r)) -> forall l, P l.
Proof.
  intros H0 H1 H2 H3 l. enough (P l /\ (forall a, P (a :: l)) /\ (forall a b, P (a :: b :: l))) by tauto.
  induction l as [|x l (IH1 & IH2 & IH3)]; [auto|]. split; [apply IH2|]. split; [intros a; apply IH3|]. intros a b. by apply H3.
Qed.

Ltac sextets := repeat match goal with
  | |- context [byte.unsigned ?b] => let x := fresh "x" in pose proof (unsigned_range b);
      set (x := byte.unsigned b) in *; clearbody x end; Z.to_euclidean_division_equations; lia.

Lemma byte_eq (b : byte) x : byte.unsigned b = x -> byte.of_Z x = b.
Proof. apply of_Z_unsigned_eq. Qed.

Lemma decode_encode_url l : decode_url (encode_url l) = Some l.
Proof.
  induction l as [| |a b|a b c r IH] using triple_ind; cbn [encode_url decode_url]; [done|..];
    rewrite !char_sextet_char by sextets; cbn [mbind option_bind]; rewrite ?IH; cbn [mbind option_bind];
    repeat f_equal; apply byte_eq; sextets.
Qed.

Lemma encode_url_length l : len (encode_url l) = unpadded_base64_len (len l).
Proof.
  induction l as [| | |a b c r IH] using triple_ind; [done..|]. cbn [encode_url]. cbn zeta. rewrite !len_cons, IH.
  unfold unpadded_base64_len. cbn zeta. replace (1 + (1 + (1 + len r))) with (len r + 1 * 3) by lia.
  rewrite Z.mod_add, Z.div_add by done. lia.
Qed.

Lemma encode_url_alphabet l :
  Forall (fun c => 48 <= c <= 57 \/ 65 <= c <= 90 \/ 97 <= c <= 122 \/ c = 45 \/ c = 95) (encode_url l).
Proof.
  induction l as [| | |a b c r IH] using triple_ind; cbn [encode_url]; cbn zeta; [constructor|..];
    repeat (apply list.Forall_cons; split; [apply sextet_char_alphabet; sextets|]); done.
Qed.

#[export] Instance sample_lib : TokenLibrary := {|
  base64_encode := encode_url;
  base64_decode := decode_url;
  sha256_digest := fun b => b;
  ct_eq := fun a b => bool_decide (a = b)
|}.

#[export] Instance sample_lib_ok : TokenLibraryOk.
Proof.
  split; [apply decode_encode_url|apply encode_url_length|apply encode_url_alphabet|].
  intros a b _. apply bool_decide_eq_true.
Qed.

#[export] Instance sample_crypto : Cobblestone.Provider := CobblestoneProps.plain.
#[export] Instance sample_crypto_ok : ProviderOk := CobblestoneProps.plain_ok.

(** ** A ring *)

Definition sample_generated : list byte :=
  replicate 16 Byte.x01 ++ replicate 16 Byte.x02 ++ replicate 4 Byte.x03 ++ replicate 32 Byte.x04.

Definition sample_ring : SessionTokenKeyRing :=
  match new_process_local (Some sample_generated) with
  | Ok r => r
  | _ => MkRing [] [] [] (MkSessionTokenKey [] [] 0) ∅ true
  end.

Lemma sample_ring_new : new_process_local (Some sample_generated) = Ok sample_ring.
Proof. vm_compute. reflexivity. Qed.

(** Material for a second key *)
Definition sample_rotation : list byte := replicate 16 Byte.x05 ++ replicate 4 Byte.x03 ++ replicate 32 Byte.x06.

(** ** A credential *)

Definition sample_issuer : LiveRoleIdentity := MkLiveRoleIdentity sample_account (sample_role "/team/").

Definition sample_session : outcome SessionCredentialError DecodedSessionCredential :=
  version1 (lit "ARGSABCDEFGHIJKLMNOPQRST") (lit "AAECAwQFBgcICQoLDA0ODxAREhMUFRYXGBkaGxwd") sample_issuer
    (lit "test-session") (MkSessionLifetime 1700000000 1700003600) (Some (lit "alice")).

Definition sample_credential : DecodedSessionCredential :=
  match sample_session with
  | Ok c => c
  | _ => MkDecodedSessionCredential [] [] (AssumedRoleSessionIdentity_new (sample_role "/team/") [] (MkSessionLifetime 0 0) None)
           (MkAuthenticatedIdentity sample_account (Configured [] None))
  end.

Lemma sample_session_Ok : sample_session = Ok sample_credential.
Proof. vm_compute. reflexivity. Qed.

Lemma lit_scalar (s : String.string) : Forall ascii (lit s) -> Forall scalar (lit s).
Proof. intros Hs. eapply list.Forall_impl; [done|]. intros c Hc. unfold ascii, scalar in *. lia. Qed.

Lemma sample_fields_valid : valid_fields (fields_of sample_credential).
Proof.
  split.
  - vm_compute. reflexivity.
  - vm_compute. reflexivity.
  - split; [split; [discriminate|reflexivity]|reflexivity].
  - vm_compute. reflexivity.
  - vm_compute. reflexivity.
  - vm_compute. reflexivity.
  - vm_compute. reflexivity.
  - intros s [= <-]. vm_compute. reflexivity.
  - repeat (apply list.Forall_cons; split; [apply lit_scalar; vm_compute; repeat constructor; discriminate|]). constructor.
Qed.

End TokenSamples.
