(* ===== verification/SessionRing.v ===== *)
(** The session-token key ring of SessionToken.v: which tokens it opens, that what it
    seals is opened for as long as its key is kept, and that no pair of key and nonce is
    ever used twice. *)

From Stdlib Require Import ZifyBool.
From stdpp Require Import strings gmap.
From S2P Require Import Prelude Machine Str Utf8 Journal JournalSpec Cobblestone CobblestoneSpec.
From S2P Require Import Identity SessionToken SessionSpec TokenSamples.

Local Open Scope Z_scope.

Module SessionRing.
Import Str Utf8 Machine JournalSpec Account Identity Credential Cobblestone SessionToken SessionSpec.

Section ring.
Context {crypto : Provider} {crypto_ok : ProviderOk} {lib : TokenLibrary} {lib_ok : TokenLibraryOk}.

(** ** Tokens *)

Definition token_of (frame : list byte) : str := SESSION_TOKEN_V1_PREFIX ++ base64_encode frame.

Lemma base64_ascii b : Forall ascii (base64_encode b).
Proof. eapply list.Forall_impl; [apply base64_alphabet|]. intros c Hc. unfold ascii. cbn in Hc. lia. Qed.

Lemma prefix_ascii : Forall ascii SESSION_TOKEN_V1_PREFIX.
Proof. by repeat (constructor; [split; done|]). Qed.

Lemma token_ascii b : Forall ascii (token_of b).
Proof. apply list.Forall_app. split; [apply prefix_ascii|apply base64_ascii]. Qed.

Lemma ascii_len s : Forall ascii s -> len (as_bytes s) = len s.
Proof. intros Hs. rewrite <-len_bytes. by rewrite bytes_ascii. Qed.

Lemma token_len frame : len (as_bytes (token_of frame)) = 7 + unpadded_base64_len (len frame).
Proof. rewrite ascii_len by apply token_ascii. unfold token_of. by rewrite len_app, base64_length. Qed.

Lemma base64_len_mono a b : 0 <= a <= b -> unpadded_base64_len a <= unpadded_base64_len b.
Proof.
  intros Hab. unfold unpadded_base64_len. cbn zeta.
  destruct (Z.eqb_spec (a mod 3) 0), (Z.eqb_spec (a mod 3) 1), (Z.eqb_spec (b mod 3) 0), (Z.eqb_spec (b mod 3) 1);
    Z.to_euclidean_division_equations; lia.
Qed.

Lemma base64_injective a b : base64_encode a = base64_encode b -> a = b.
Proof. intros Hab. pose proof (base64_decode_encode a) as Ha. rewrite Hab, base64_decode_encode in Ha. congruence. Qed.

(** A frame, by its parts *)
Definition frame_of (key_id nonce ciphertext : list byte) : list byte := key_id ++ nonce ++ ciphertext.

(** [token] is the encryption of the fields [o] under a key that the ring has. *)
Definition sealed_by (r : SessionTokenKeyRing) (token : str) (o : OpenedSessionTokenV1) : Prop :=
  exists key_id nonce key ciphertext,
    len key_id = KEY_ID_LEN /\ len nonce = NONCE_LEN /\ find_key r key_id = Ok key /\
    gcm_seal (gcm_key key) nonce (associated_data (credential_domain r) key_id nonce) (field_bytes o) = Some ciphertext /\
    token = token_of (frame_of key_id nonce ciphertext).

Lemma frame_ranges {E} key_id nonce ciphertext : len key_id = KEY_ID_LEN -> len nonce = NONCE_LEN ->
  let frame := frame_of key_id nonce ciphertext in
  index_range (E:=E) frame 0 KEY_ID_LEN = Ok key_id /\
  index_range (E:=E) frame KEY_ID_LEN (KEY_ID_LEN + NONCE_LEN) = Ok nonce /\
  index_range (E:=E) frame (KEY_ID_LEN + NONCE_LEN) (len frame) = Ok ciphertext.
Proof.
  intros Hk Hn. cbn zeta. unfold index_range, frame_of. repeat split.
  - by rewrite (get_range_app [] key_id (nonce ++ ciphertext)) by (rewrite ?Hk; done).
  - by rewrite (get_range_app key_id nonce ciphertext) by lia.
  - rewrite app_assoc. rewrite <-(app_nil_r ciphertext) at 1.
    rewrite (get_range_app (key_id ++ nonce) ciphertext []); [done|rewrite len_app; lia|].
    rewrite !len_app. lia.
Qed.

Lemma frame_split (frame : list byte) : KEY_ID_LEN + NONCE_LEN + TAG_LEN <= len frame ->
  exists key_id nonce ciphertext, frame = frame_of key_id nonce ciphertext /\ len key_id = KEY_ID_LEN /\ len nonce = NONCE_LEN.
Proof.
  unfold KEY_ID_LEN, NONCE_LEN, NONCE_PREFIX_LEN, NONCE_COUNTER_LEN, TAG_LEN. intros Hf.
  exists (takeZ 16 frame), (takeZ 12 (dropZ 16 frame)), (dropZ 12 (dropZ 16 frame)). unfold frame_of.
  rewrite !take_dropZ. split; [done|]. rewrite !len_takeZ; [done|rewrite len_dropZ; lia|lia].
Qed.

(** Opening in place leaves the plaintext at the head of the buffer. *)
Lemma open_in_place_take key nonce ad c :
  (let (r, buffer) := open_in_place key nonce ad c in
   n ← map_err (fun _ => InvalidToken) r; decode_v1_plaintext (takeZ n buffer)) =
  match gcm_open key nonce ad c with Some p => decode_v1_plaintext p | None => Err InvalidToken end.
Proof.
  unfold open_in_place. destruct (gcm_open key nonce ad c) as [p|]; [|done]. cbn [map_err]. bind_step.
  by rewrite takeZ_app.
Qed.

Lemma drop_prefix s : drop (length SESSION_TOKEN_V1_PREFIX) (SESSION_TOKEN_V1_PREFIX ++ s) = s.
Proof. by rewrite drop_app_length. Qed.

Lemma base64_nonempty b : b <> [] -> base64_encode b <> [].
Proof.
  intros Hb He. apply Hb. apply base64_injective. rewrite He. symmetry. apply len_nil_inv. by rewrite base64_length.
Qed.

Lemma ascii_test s : Forall ascii s -> forallb (fun c => in_range c 0 127) s = true.
Proof.
  intros Hs. apply forallb_forall. intros c Hc%list_elem_of_In. rewrite list.Forall_forall in Hs.
  specialize (Hs c Hc). unfold ascii in Hs. unfold in_range. lia.
Qed.

(** The checks on the text and the frame of a token *)
Lemma open_v1_frame r key_id nonce ciphertext : len key_id = KEY_ID_LEN -> len nonce = NONCE_LEN ->
  TAG_LEN <= len ciphertext -> len (frame_of key_id nonce ciphertext) <= MAX_DECODED_SESSION_TOKEN_FRAME_LEN ->
  open_v1 r (token_of (frame_of key_id nonce ciphertext)) =
  (key ← find_key r key_id;
   match gcm_open (gcm_key key) nonce (associated_data (credential_domain r) key_id nonce) ciphertext with
   | Some p => decode_v1_plaintext p
   | None => Err InvalidToken
   end).
Proof.
  intros Hk Hn Hc1 Hc2. set (frame := frame_of key_id nonce ciphertext).
  assert (44 <= len frame) as Hlen.
  { unfold frame, frame_of. rewrite !len_app, Hk, Hn.
    unfold KEY_ID_LEN, NONCE_LEN, NONCE_PREFIX_LEN, NONCE_COUNTER_LEN, TAG_LEN in *. lia. }
  fold frame in Hc2. unfold MAX_DECODED_SESSION_TOKEN_FRAME_LEN in Hc2.
  unfold open_v1. rewrite token_len.
  pose proof (base64_len_mono (len frame) 16384 ltac:(lia)) as Hb. change (unpadded_base64_len 16384) with 21846 in Hb.
  unfold MAX_ENCODED_SESSION_TOKEN_LEN, MAX_DECODED_SESSION_TOKEN_FRAME_LEN.
  rewrite (proj2 (Z.ltb_ge 21853 _)) by lia.
  rewrite (bool_decide_eq_true_2 (is_Some (strip_prefix _ _))) by (unfold token_of; rewrite strip_prefix_app; by eexists).
  cbn [negb orb]. unfold token_of. rewrite drop_prefix.
  rewrite bool_decide_eq_false_2 by (apply base64_nonempty; intros Hf; rewrite Hf in Hlen; unfold len in Hlen; simpl in Hlen; lia).
  rewrite ascii_test by apply base64_ascii. cbn [negb orb]. rewrite base64_decode_encode. cbn [ok_or]. bind_step.
  rewrite bool_decide_eq_true_2 by done. rewrite (proj2 (Z.ltb_ge 16384 _)) by lia.
  change (KEY_ID_LEN + NONCE_LEN + TAG_LEN) with 44. rewrite (proj2 (Z.ltb_ge _ 44)) by lia. cbn [negb orb].
  destruct (frame_ranges (E:=SessionTokenOpenError) key_id nonce ciphertext Hk Hn) as (H1 & H2 & H3). fold frame in H1, H2, H3.
  rewrite H1. bind_step. rewrite H2. bind_step. destruct (find_key r key_id); [|done..]. bind_step.
  rewrite H3. bind_step. apply open_in_place_take.
Qed.

(** The texts that reach the ring *)
Lemma open_v1_token r token o : open_v1 r token = Ok o ->
  exists frame, KEY_ID_LEN + NONCE_LEN + TAG_LEN <= len frame <= MAX_DECODED_SESSION_TOKEN_FRAME_LEN /\ token = token_of frame.
Proof.
  unfold open_v1. destruct (_ || negb (bool_decide (is_Some _))) eqn:Hpre; [done|].
  apply orb_false_elim in Hpre as [_ Hp%negb_false_iff]. apply bool_decide_eq_true in Hp as [s Hp].
  apply strip_prefix_Some in Hp as ->. rewrite drop_prefix. destruct (_ || _); [done|].
  destruct (base64_decode s) as [frame|]; [|done]. cbn [ok_or]. bind_step.
  destruct (_ || (_ <? _)) eqn:Hf; [done|]. intros _.
  apply orb_false_elim in Hf as [[Hm Hf%negb_false_iff]%orb_false_elim Hl].
  apply bool_decide_eq_true in Hf. exists frame. split; [lia|]. unfold token_of. by rewrite Hf.
Qed.

(** The ring opens exactly the encryptions of valid fields under its keys. *)
Lemma open_v1_exact r token o : open_v1 r token = Ok o <-> valid_fields o /\ sealed_by r token o.
Proof.
  split.
  - intros Ho. destruct (open_v1_token _ _ _ Ho) as (frame & Hlen & ->).
    destruct (frame_split frame) as (key_id & nonce & ciphertext & -> & Hk & Hn); [lia|].
    pose proof Hlen as Hlen'. unfold frame_of in Hlen'. rewrite !len_app, Hk, Hn in Hlen'.
    rewrite open_v1_frame in Ho by (done || lia). destruct (find_key r key_id) as [key| |] eqn:Hkey; [|done..].
    cbn [mbind outcome_bind] in Ho.
    destruct (gcm_open _ _ _ ciphertext) as [p|] eqn:Hopen; [|done]. apply decode_exact in Ho as [Hv ->].
    split; [done|]. apply gcm_seal_open in Hopen. exists key_id, nonce, key, ciphertext. auto.
  - intros [Hv (key_id & nonce & key & ciphertext & Hk & Hn & Hkey & Hseal & ->)].
    pose proof (gcm_seal_length _ _ _ _ _ Hseal) as Hlen. pose proof (field_bytes_len o Hv) as Hf.
    pose proof (len_nonneg (field_bytes o)). change MAX_V1_PLAINTEXT_LEN with 507 in Hf.
    unfold AES_GCM_TAG_LEN in Hlen. rewrite open_v1_frame; [|done|done|unfold TAG_LEN; lia|].
    + rewrite Hkey. bind_step. rewrite (gcm_open_seal _ _ _ _ _ Hseal). by apply decode_exact.
    + unfold frame_of. rewrite !len_app, Hk, Hn.
      unfold KEY_ID_LEN, NONCE_LEN, NONCE_PREFIX_LEN, NONCE_COUNTER_LEN, MAX_DECODED_SESSION_TOKEN_FRAME_LEN. lia.
Qed.

(** ** The ring as a state machine *)

Inductive ring_op :=
  | Seal (credential : DecodedSessionCredential)
  | Rotate (generated : list byte)
  | Remove (key_id : list byte).

Definition run_op (r : SessionTokenKeyRing) (op : ring_op) : SessionTokenKeyRing :=
  match op with
  | Seal c => snd (seal_v1 c r)
  | Rotate generated => snd (rotate_process_local generated r)
  | Remove key_id => snd (remove_validation_only_key key_id r)
  end.

Definition run (r : SessionTokenKeyRing) (ops : list ring_op) : SessionTokenKeyRing := foldl run_op r ops.

(** The generated material has the length of its array. *)
Definition op_ok (op : ring_op) : Prop :=
  match op with Rotate generated => len generated = KEY_ID_LEN + NONCE_PREFIX_LEN + KEY_LEN | _ => True end.

(** The key and the nonce that an operation hands to the cipher *)
Definition op_uses (r : SessionTokenKeyRing) (op : ring_op) : list (list byte * list byte) :=
  match op with
  | Seal c =>
      match encode_v1_plaintext c with
      | Ok plaintext =>
          if MAX_V1_PLAINTEXT_LEN <? len plaintext then [] else
          match fst (allocate r) with Ok (_, key, nonce) => [(gcm_key key, nonce)] | _ => [] end
      | _ => []
      end
  | _ => []
  end.

Fixpoint uses (r : SessionTokenKeyRing) (ops : list ring_op) : list (list byte * list byte) :=
  match ops with
  | [] => []
  | op :: rest => op_uses r op ++ uses (run_op r op) rest
  end.

Definition nonce_at (key : SessionTokenKey) (counter : Z) : list byte :=
  nonce_prefix key ++ Journal.to_be_bytes 8 counter.

(** The active key after a nonce is taken *)
Definition advanced (key : SessionTokenKey) : SessionTokenKey :=
  MkSessionTokenKey (gcm_key key) (nonce_prefix key) (next_nonce_counter key + 1).

Record ring_ok (r : SessionTokenKeyRing) : Prop := {
  ok_id : len (active_key_id r) = KEY_ID_LEN;
  ok_prefix : len (nonce_prefix (active_key r)) = NONCE_PREFIX_LEN;
  ok_counter : is_u64 (next_nonce_counter (active_key r));
  ok_fingerprint : active_fingerprint r = sha256_digest (gcm_key (active_key r));
  ok_fresh_id : retired r !! active_key_id r = None;
  ok_fresh_key : forall id k, retired r !! id = Some k -> material_fingerprint k <> active_fingerprint r
}.

Lemma allocate_spec r : is_u64 (next_nonce_counter (active_key r)) ->
  allocate r =
    if poisoned r then (Err SealKeyRingUnavailable, r)
    else if next_nonce_counter (active_key r) =? MAX64 then (Err NonceExhausted, r)
    else (Ok (active_key_id r, advanced (active_key r), nonce_at (active_key r) (next_nonce_counter (active_key r))),
          set_active_key (advanced (active_key r)) r).
Proof.
  intros [Hc1 Hc2]. unfold allocate, next_nonce. destruct (poisoned r) eqn:Hp; [done|].
  assert (set_active_key (active_key r) r = r) as Hset by (by destruct r).
  destruct (Z.eqb_spec (next_nonce_counter (active_key r)) MAX64) as [He|He].
  - unfold checked_add64. rewrite (proj2 (Z.leb_gt _ _)) by lia. by rewrite Hset.
  - rewrite checked_add64_Some by lia. done.
Qed.

Lemma set_active_key_ok r : ring_ok r -> next_nonce_counter (active_key r) <> MAX64 ->
  ring_ok (set_active_key (advanced (active_key r)) r).
Proof. intros [? ? [? ?] ? ? ?] Hc. split; cbn; [done|done|unfold is_u64; lia|done..]. Qed.

(** Sealing changes the counter of the active key at most. *)
Lemma seal_state c r : is_u64 (next_nonce_counter (active_key r)) ->
  snd (seal_v1 c r) = r /\ op_uses r (Seal c) = [] \/
  next_nonce_counter (active_key r) <> MAX64 /\ snd (seal_v1 c r) = set_active_key (advanced (active_key r)) r /\
    op_uses r (Seal c) = [(gcm_key (active_key r), nonce_at (active_key r) (next_nonce_counter (active_key r)))].
Proof.
  intros Hc. unfold seal_v1, op_uses. destruct (encode_v1_plaintext c) as [p| |]; [|by left..].
  unfold mbind, stm_bind, liftS, gets. destruct (MAX_V1_PLAINTEXT_LEN <? len p); cbn [guard_err]; [by left|].
  rewrite allocate_spec by done. destruct (poisoned r); [by left|].
  destruct (Z.eqb_spec (next_nonce_counter (active_key r)) MAX64); [by left|right]. cbn. auto.
Qed.

Lemma generated_parts {E} (g : list byte) a b c :
  0 <= a -> 0 <= b -> 0 <= c -> len g = a + b + c ->
  exists x y z, g = x ++ y ++ z /\ len x = a /\ len y = b /\ len z = c /\
    take_array_from_generated (E:=E) a g 0 = Ok (x, a) /\
    take_array_from_generated (E:=E) b g a = Ok (y, a + b) /\
    take_array_from_generated (E:=E) c g (a + b) = Ok (z, a + b + c).
Proof.
  intros Ha Hb Hc Hg. exists (takeZ a g), (takeZ b (dropZ a g)), (dropZ b (dropZ a g)).
  assert (len (takeZ a g) = a) as Lx by (apply len_takeZ; lia).
  assert (len (dropZ a g) = b + c) as Ld by (rewrite len_dropZ; lia).
  assert (len (takeZ b (dropZ a g)) = b) as Ly by (apply len_takeZ; lia).
  assert (len (dropZ b (dropZ a g)) = c) as Lz by (rewrite len_dropZ; lia).
  assert (g = takeZ a g ++ takeZ b (dropZ a g) ++ dropZ b (dropZ a g)) as Heq by (by rewrite !take_dropZ).
  generalize dependent (takeZ a g). intros x Lx. generalize dependent (takeZ b (dropZ a g)). intros y Ly.
  generalize dependent (dropZ b (dropZ a g)). intros z Lz ->. do 4 (split; [done|]).
  unfold take_array_from_generated, index_range. rewrite Z.add_0_l.
  rewrite (get_range_app [] x (y ++ z)) by (rewrite ?Lx; done).
  rewrite (get_range_app x y z) by lia. rewrite app_assoc, <-(app_nil_r ((x ++ y) ++ z)), <-(app_assoc (x ++ y) z []).
  rewrite (get_range_app (x ++ y) z []) by (rewrite ?len_app; lia). done.
Qed.

Lemma rotate_state g r : retired r !! active_key_id r = None -> len g = KEY_ID_LEN + NONCE_PREFIX_LEN + KEY_LEN ->
  snd (rotate_process_local g r) = r \/
  exists id prefix material, len id = KEY_ID_LEN /\ len prefix = NONCE_PREFIX_LEN /\
    id <> active_key_id r /\ retired r !! id = None /\ sha256_digest material <> active_fingerprint r /\
    (forall i k, retired r !! i = Some k -> material_fingerprint k <> sha256_digest material) /\
    snd (rotate_process_local g r) = MkRing (credential_domain r) id (sha256_digest material)
      (MkSessionTokenKey material prefix 0)
      (<[active_key_id r := ValidationOnly (active_fingerprint r) (active_key r)]> (retired r)) (poisoned r).
Proof.
  intros Hfresh Hg. destruct (generated_parts (E:=SessionTokenSealError) g KEY_ID_LEN NONCE_PREFIX_LEN KEY_LEN)
    as (kid & prefix & material & -> & Li & Lp & _ & H1 & H2 & H3); [done..|].
  unfold rotate_process_local, mbind, stm_bind, liftS. rewrite H1. cbn. rewrite H2. cbn. rewrite H3. cbn.
  unfold SessionTokenKey_new, Aes256GcmKey_new. destruct (gcm_key_accepted material); [|by left].
  cbn. destruct (poisoned r) eqn:Hp; [by left|]. cbn [guard_err id gets].
  destruct (_ || existsb _ _) eqn:Hg'; cbn [guard_err]; [by left|right].
  apply orb_false_elim in Hg' as [[[H4 H5]%orb_false_elim H6]%orb_false_elim H7].
  apply bool_decide_eq_false in H4, H5, H6. exists kid, prefix, material. split; [done|]. split; [done|].
  split; [done|]. split; [by apply eq_None_not_Some|]. split; [done|]. split.
  - intros i k Hk Hf. apply not_true_iff_false in H7. apply H7, existsb_exists. exists (i, k).
    split; [by apply list_elem_of_In, elem_of_map_to_list|]. by apply bool_decide_eq_true.
  - unfold debug_assert_locked. cbn. by rewrite Hfresh.
Qed.

Lemma remove_state id r : snd (remove_validation_only_key id r) = r \/
  exists f k, id <> active_key_id r /\ retired r !! id = Some (ValidationOnly f k) /\
    snd (remove_validation_only_key id r) = MkRing (credential_domain r) (active_key_id r) (active_fingerprint r)
      (active_key r) (<[id := Removed f]> (retired r)) (poisoned r).
Proof.
  unfold remove_validation_only_key. destruct (poisoned r) eqn:Hp; [by left|]. case_bool_decide; [by left|].
  destruct (retired r !! id) as [[f k|f]|] eqn:Hr; [right|by left..]. by exists f, k.
Qed.

Lemma run_op_ok r op : ring_ok r -> op_ok op -> ring_ok (run_op r op).
Proof.
  intros Hok Hop. pose proof Hok as [O1 O2 O3 O4 O5 O6]. destruct op as [c|g|id]; cbn [run_op].
  - destruct (seal_state c r O3) as [[-> _]|(Hc & -> & _)]; [done|]. by apply set_active_key_ok.
  - destruct (rotate_state g r (ok_fresh_id r Hok) Hop) as [->|(id & prefix & material & Li & Lp & N1 & N2 & N3 & N4 & ->)]; [done|].
    split; cbn; [done|done|done|done| |].
    + by rewrite lookup_insert_ne by congruence.
    + intros i k. rewrite lookup_insert_Some. intros [[<- <-]|[_ Hk]]; [cbn; congruence|by apply (N4 i)].
  - destruct (remove_state id r) as [->|(f & k & N1 & N2 & ->)]; [done|]. split; cbn; [done..| |].
    + by rewrite lookup_insert_ne.
    + intros i x. rewrite lookup_insert_Some. intros [[<- <-]|[_ Hx]]; [cbn; by apply (O6 id _ N2)|by apply (O6 i)].
Qed.

Lemma run_ok ops : forall r, ring_ok r -> Forall op_ok ops -> ring_ok (run r ops).
Proof.
  induction ops as [|op ops IH]; intros r Hr Hops; [done|]. apply list.Forall_cons in Hops as [Hop Hops].
  cbn. apply IH; [by apply run_op_ok|done].
Qed.

Lemma new_ring_ok g r : len g = CREDENTIAL_DOMAIN_LEN + KEY_ID_LEN + NONCE_PREFIX_LEN + KEY_LEN ->
  new_process_local (Some g) = Ok r -> ring_ok r /\ poisoned r = false /\ len (credential_domain r) = CREDENTIAL_DOMAIN_LEN.
Proof.
  intros Hg. destruct (generated_parts (E:=SessionTokenKeyRingInitError) g (CREDENTIAL_DOMAIN_LEN + KEY_ID_LEN) NONCE_PREFIX_LEN KEY_LEN)
    as (x & prefix & material & Hgx & Lx & Lp & _ & _ & H2 & H3); [done..|].
  destruct (generated_parts (E:=SessionTokenKeyRingInitError) g CREDENTIAL_DOMAIN_LEN KEY_ID_LEN (NONCE_PREFIX_LEN + KEY_LEN))
    as (domain & id & y & Hgy & Ld & Li & _ & H4 & H5 & _); [done..|].
  unfold new_process_local. cbn [ok_or]. bind_step. rewrite H4. bind_step. rewrite H5. bind_step. rewrite H2. bind_step.
  rewrite H3. bind_step. unfold from_initial_parts, SessionTokenKey_new, Aes256GcmKey_new.
  destruct (gcm_key_accepted material); [|done]. cbn. intros [= <-]. split; [|by cbn].
  split; cbn; [done..|]. intros i k. by rewrite lookup_empty.
Qed.

(** ** Nonces *)

(** A pair that was used: under the active key with a counter passed, or under a key whose
    fingerprint the ring remembers *)
Definition used_ok (r : SessionTokenKeyRing) (u : list byte * list byte) : Prop :=
  (fst u = gcm_key (active_key r) /\
   exists c, 0 <= c < next_nonce_counter (active_key r) /\ snd u = nonce_at (active_key r) c) \/
  exists id k, retired r !! id = Some k /\ material_fingerprint k = sha256_digest (fst u).

Lemma nonce_at_inj key a b : is_u64 a -> is_u64 b -> nonce_at key a = nonce_at key b -> a = b.
Proof.
  intros Ha Hb Hn. apply app_inv_head in Hn. unfold is_u64, MAX64 in *.
  rewrite <-(from_to_be_bytes 8 a), <-(from_to_be_bytes 8 b) by lia. by rewrite Hn.
Qed.

(** The pair taken next is none of those used. *)
Lemma next_use_fresh r : ring_ok r ->
  ~ used_ok r (gcm_key (active_key r), nonce_at (active_key r) (next_nonce_counter (active_key r))).
Proof.
  intros [_ _ O3 O4 _ O6] [[_ (c & Hc & Hn)]|(id & k & Hk & Hf)]; cbn in *.
  - apply nonce_at_inj in Hn; [lia|done|]. unfold is_u64 in *. lia.
  - apply (O6 id k Hk). by rewrite O4.
Qed.

Lemma used_ok_seal r u : used_ok r u -> used_ok (set_active_key (advanced (active_key r)) r) u.
Proof. intros [(Hk & c & Hc & Hn)|Hu]; [left|by right]. split; [done|]. exists c. cbn. split; [lia|done]. Qed.

Lemma used_ok_op r op u : ring_ok r -> op_ok op -> used_ok r u -> used_ok (run_op r op) u.
Proof.
  intros Hok Hop Hu. pose proof Hok as [O1 O2 O3 O4 O5 O6]. destruct op as [c|g|id]; cbn [run_op].
  - destruct (seal_state c r O3) as [[-> _]|(_ & -> & _)]; [done|]. by apply used_ok_seal.
  - destruct (rotate_state g r (ok_fresh_id r Hok) Hop) as [->|(id & prefix & material & _ & _ & N1 & N2 & N3 & N4 & ->)]; [done|]. right. cbn.
    destruct Hu as [(Hk & _)|(i & k & Hi & Hf)].
    + exists (active_key_id r). eexists. rewrite lookup_insert_eq. split; [done|]. cbn. congruence.
    + exists i, k. rewrite lookup_insert_ne; [done|]. intros <-. congruence.
  - destruct (remove_state id r) as [->|(f & k & N1 & N2 & ->)]; [done|].
    destruct Hu as [Hu|(i & x & Hi & Hf)]; [by left|right]. cbn.
    destruct (decide (id = i)) as [<-|Hne].
    + exists id. eexists. rewrite lookup_insert_eq. split; [done|]. cbn. rewrite N2 in Hi. by injection Hi as <-.
    + exists i, x. by rewrite lookup_insert_ne.
Qed.

Lemma uses_fresh ops : forall r used, ring_ok r -> Forall op_ok ops -> Forall (used_ok r) used -> NoDup used ->
  NoDup (used ++ uses r ops).
Proof.
  induction ops as [|op ops IH]; intros r used Hr Hops Hu Hnd; cbn [uses]; [by rewrite app_nil_r|].
  apply list.Forall_cons in Hops as [Hop Hops]. rewrite app_assoc. apply IH; [by apply run_op_ok|done| |].
  - apply list.Forall_app. split; [eapply list.Forall_impl; [done|]; intros; by apply used_ok_op|].
    destruct op as [c|g|id]; [|constructor..].
    destruct (seal_state c r (ok_counter r Hr)) as [[_ ->]|(_ & Hs & ->)]; [constructor|]. constructor; [|constructor].
    cbn [run_op]. rewrite Hs. left. split; [done|]. exists (next_nonce_counter (active_key r)).
    destruct (ok_counter r Hr). cbn. split; [lia|done].
  - destruct op as [c|g|id]; [|by rewrite app_nil_r..].
    destruct (seal_state c r (ok_counter r Hr)) as [[_ ->]|(_ & _ & ->)]; [by rewrite app_nil_r|].
    apply list.NoDup_app. split; [done|]. split; [|apply NoDup_singleton].
    intros u Hin ->%list_elem_of_singleton. rewrite list.Forall_forall in Hu. by apply (next_use_fresh r Hr), Hu.
Qed.

(** ** Keys are kept *)

Lemma find_key_op r op id key : ring_ok r -> op_ok op -> op <> Remove id -> find_key r id = Ok key ->
  exists key', find_key (run_op r op) id = Ok key' /\ gcm_key key' = gcm_key key /\
    credential_domain (run_op r op) = credential_domain r.
Proof.
  intros Hok Hop Hne Hf. pose proof Hok as [O1 O2 O3 O4 O5 O6].
  assert (poisoned r = false) as Hp by (unfold find_key in Hf; by destruct (poisoned r)).
  destruct op as [c|g|i]; cbn [run_op].
  - destruct (seal_state c r O3) as [[-> _]|(_ & -> & _)]; [by exists key|]. unfold find_key in *. cbn. rewrite Hp in *.
    case_bool_decide; [|by exists key]. injection Hf as <-. eexists. by split.
  - destruct (rotate_state g r (ok_fresh_id r Hok) Hop) as [->|(kid & prefix & material & _ & _ & N1 & N2 & N3 & N4 & ->)]; [by exists key|].
    unfold find_key in *. cbn. rewrite Hp in *. case_bool_decide as Hi; cbn in Hf.
    + injection Hf as <-. subst id. rewrite bool_decide_eq_false_2 by done. rewrite lookup_insert_eq. eexists. by split.
    + destruct (retired r !! id) as [[f k|f]|] eqn:Hr; [|done..]. injection Hf as <-.
      rewrite bool_decide_eq_false_2 by congruence. rewrite lookup_insert_ne, Hr by done. eexists. by split.
  - destruct (remove_state i r) as [->|(f & k & N1 & N2 & ->)]; [by exists key|]. unfold find_key in *. cbn. rewrite Hp in *.
    case_bool_decide; [by exists key|]. rewrite lookup_insert_ne by congruence. by exists key.
Qed.

Lemma find_key_run ops : forall r id key, ring_ok r -> Forall op_ok ops -> Remove id ∉ ops -> find_key r id = Ok key ->
  exists key', find_key (run r ops) id = Ok key' /\ gcm_key key' = gcm_key key /\
    credential_domain (run r ops) = credential_domain r.
Proof.
  induction ops as [|op ops IH]; intros r id key Hr Hops Hne Hf; [by exists key|].
  apply list.Forall_cons in Hops as [Hop Hops]. apply not_elem_of_cons in Hne as [Hne1 Hne2].
  destruct (find_key_op r op id key) as (k1 & H1 & G1 & D1); [done..|congruence|done|].
  destruct (IH (run_op r op) id k1) as (k2 & H2 & G2 & D2); [by apply run_op_ok|done..|].
  exists k2. cbn. rewrite D1 in D2. split; [done|]. split; [congruence|done].
Qed.

(** ** Sealing *)

Lemma seal_frame_Ok domain key_id key nonce p token : len key_id = KEY_ID_LEN -> len nonce = NONCE_LEN ->
  len p <= MAX_V1_PLAINTEXT_LEN ->
  seal_frame domain key_id key nonce p = Ok token <->
  exists ciphertext, gcm_seal (gcm_key key) nonce (associated_data domain key_id nonce) p = Some ciphertext /\
    token = token_of (frame_of key_id nonce ciphertext).
Proof.
  intros Hk Hn Hp. unfold seal_frame, seal_in_place_append_tag.
  destruct (gcm_seal _ _ _ p) as [ciphertext|] eqn:Hs; [|by split; [|intros (? & ? & _)]].
  cbn [ok_or map_err]. bind_step. fold (frame_of key_id nonce ciphertext). fold (token_of (frame_of key_id nonce ciphertext)).
  pose proof (gcm_seal_length _ _ _ _ _ Hs) as Hl.
  assert (0 <= len (frame_of key_id nonce ciphertext) <= 551) as Hf.
  { split; [apply len_nonneg|]. unfold frame_of. rewrite !len_app, Hk, Hn. change MAX_V1_PLAINTEXT_LEN with 507 in Hp.
    unfold KEY_ID_LEN, NONCE_LEN, NONCE_PREFIX_LEN, NONCE_COUNTER_LEN, AES_GCM_TAG_LEN in *. lia. }
  change MAX_ISSUED_V1_FRAME_LEN with 551. rewrite (proj2 (Z.ltb_ge 551 _)) by lia. rewrite token_len.
  pose proof (base64_len_mono _ 551 Hf) as Hb. change (unpadded_base64_len 551) with 735 in Hb.
  change MAX_ISSUED_V1_TOKEN_LEN with 742. rewrite (proj2 (Z.ltb_ge 742 _)) by lia. naive_solver.
Qed.

Lemma seal_v1_Ok c r token r' : ring_ok r -> valid_fields (fields_of c) -> seal_v1 c r = (Ok token, r') ->
  poisoned r = false /\ r' = set_active_key (advanced (active_key r)) r /\ ring_ok r' /\
  exists nonce ciphertext, len nonce = NONCE_LEN /\
    op_uses r (Seal c) = [(gcm_key (active_key r), nonce)] /\
    gcm_seal (gcm_key (active_key r)) nonce (associated_data (credential_domain r) (active_key_id r) nonce)
      (field_bytes (fields_of c)) = Some ciphertext /\
    token = token_of (frame_of (active_key_id r) nonce ciphertext).
Proof.
  intros Hok Hv Hs. pose proof (seal_state c r (ok_counter r Hok)) as Hst. rewrite Hs in Hst. cbn [snd] in Hst.
  pose proof (field_bytes_len _ Hv) as Hl. unfold seal_v1 in Hs. rewrite encode_fields in Hs by done.
  unfold mbind, stm_bind, liftS, gets in Hs. rewrite (proj2 (Z.ltb_ge _ _)) in Hs by done. cbn [guard_err] in Hs.
  rewrite allocate_spec in Hs by apply Hok. destruct (poisoned r); [done|].
  destruct (Z.eqb_spec (next_nonce_counter (active_key r)) MAX64) as [|Hc]; [done|].
  injection Hs as Hs <-. split; [done|]. split; [done|]. split; [by apply set_active_key_ok|].
  destruct Hst as [[Hst _]|(_ & _ & Hst)].
  { exfalso. apply (f_equal (fun r => next_nonce_counter (active_key r))) in Hst. cbn in Hst. lia. }
  assert (len (nonce_at (active_key r) (next_nonce_counter (active_key r))) = NONCE_LEN) as Hn.
  { unfold nonce_at. rewrite len_app, len_to_be, (ok_prefix r Hok). done. }
  apply seal_frame_Ok in Hs as (ct & Hct & ->); [|apply Hok|done|done].
  eexists _, ct. split; [exact Hn|]. split; [exact Hst|]. by split.
Qed.

(** ** Removal is final *)

Lemma removed_op r op id f : ring_ok r -> op_ok op -> retired r !! id = Some (Removed f) ->
  retired (run_op r op) !! id = Some (Removed f).
Proof.
  intros Hok Hop Hr. pose proof Hok as [O1 O2 O3 O4 O5 O6]. destruct op as [c|g|i]; cbn [run_op].
  - by destruct (seal_state c r O3) as [[-> _]|(_ & -> & _)].
  - destruct (rotate_state g r (ok_fresh_id r Hok) Hop) as [->|(kid & prefix & material & _ & _ & N1 & N2 & N3 & N4 & ->)]; [done|].
    cbn. rewrite lookup_insert_ne; [done|]. intros <-. congruence.
  - destruct (remove_state i r) as [->|(f' & k & N1 & N2 & ->)]; [done|].
    cbn. rewrite lookup_insert_ne; [done|]. intros ->. congruence.
Qed.

Lemma removed_run ops : forall r id f, ring_ok r -> Forall op_ok ops -> retired r !! id = Some (Removed f) ->
  retired (run r ops) !! id = Some (Removed f).
Proof.
  induction ops as [|op ops IH]; intros r id f Hr Hops Hf; [done|]. apply list.Forall_cons in Hops as [Hop Hops].
  cbn. apply IH; [by apply run_op_ok|done|]. by apply removed_op.
Qed.

Lemma removed_not_opened r id f nonce ciphertext o : ring_ok r -> retired r !! id = Some (Removed f) ->
  len id = KEY_ID_LEN -> len nonce = NONCE_LEN -> open_v1 r (token_of (frame_of id nonce ciphertext)) <> Ok o.
Proof.
  intros Hok Hr Hl Hn [_ (id' & nonce' & key & ct & Hi & Hn' & Hf & _ & Ht)]%open_v1_exact.
  apply app_inv_head, base64_injective in Ht. unfold frame_of in Ht.
  apply app_inj_1 in Ht as [<- _]; [|unfold len, KEY_ID_LEN in *; lia].
  unfold find_key in Hf. destruct (poisoned r); [done|]. rewrite bool_decide_eq_false_2, Hr in Hf; [done|].
  intros <-. rewrite (ok_fresh_id r Hok) in Hr. done.
Qed.

(** ** Theorems *)

(** A ring that operations make of a new one *)
Definition reachable_ring (r : SessionTokenKeyRing) : Prop :=
  exists g r0 ops, len g = CREDENTIAL_DOMAIN_LEN + KEY_ID_LEN + NONCE_PREFIX_LEN + KEY_LEN /\
    new_process_local (Some g) = Ok r0 /\ Forall op_ok ops /\ r = run r0 ops.

Lemma reachable_ok r : reachable_ring r -> ring_ok r.
Proof. intros (g & r0 & ops & Hg & H0 & Hops & ->). apply run_ok; [|done]. by apply (new_ring_ok g). Qed.

Lemma sealed_token_opens r c token r' after : ring_ok r -> valid_fields (fields_of c) -> seal_v1 c r = (Ok token, r') ->
  Forall op_ok after -> Remove (active_key_id r) ∉ after -> open_v1 (run r' after) token = Ok (fields_of c).
Proof.
  intros Hok Hv Hs Hafter Hne.
  destruct (seal_v1_Ok c r token r' Hok Hv Hs) as (Hp & Hr' & Hok' & nonce & ct & Hn & _ & Hct & ->).
  destruct (find_key_run after r' (active_key_id r) (advanced (active_key r))) as (key & Hkey & Hg & Hd); [done..| |].
  { rewrite Hr'. unfold find_key. cbn. rewrite Hp. by rewrite bool_decide_eq_true_2. }
  apply open_v1_exact. split; [done|]. exists (active_key_id r), nonce, key, ct.
  assert (credential_domain r' = credential_domain r) as Hd' by (by rewrite Hr').
  rewrite Hg, Hd, Hd'. split; [apply Hok|]. by repeat split.
Qed.

(** C33: No pair of key material and nonce is handed to the cipher twice in the life of a ring,
    whatever its operations: seals, rotations that install any generated material, and
    removals.  Every token issued is the encoding of an encryption under the pair that
    its operation used. *)
Theorem session_nonces_unique g r0 ops :
  len g = CREDENTIAL_DOMAIN_LEN + KEY_ID_LEN + NONCE_PREFIX_LEN + KEY_LEN ->
  new_process_local (Some g) = Ok r0 -> Forall op_ok ops ->
  NoDup (uses r0 ops) /\
  forall c token r, valid_fields (fields_of c) -> seal_v1 c (run r0 ops) = (Ok token, r) ->
    exists key nonce ciphertext, op_uses (run r0 ops) (Seal c) = [(key, nonce)] /\
      gcm_seal key nonce (associated_data (credential_domain (run r0 ops)) (active_key_id (run r0 ops)) nonce)
        (field_bytes (fields_of c)) = Some ciphertext /\
      token = token_of (frame_of (active_key_id (run r0 ops)) nonce ciphertext).
Proof.
  intros Hg H0 Hops. destruct (new_ring_ok g r0 Hg H0) as [Hok _]. split.
  - apply (uses_fresh ops r0 []); [done..|constructor].
  - intros c token r Hv Hs.
    destruct (seal_v1_Ok c _ token r (run_ok ops r0 Hok Hops) Hv Hs) as (_ & _ & _ & nonce & ct & _ & Hu & Hct & Ht).
    eauto 10.
Qed.

(** C34: The life of a session token.  A ring accepts a text exactly when it is the encryption,
    under a key that it holds and bound to its domain, of valid fields, which it returns.
    A token that it issues is opened to the fields it was sealed from after any further
    operations that do not remove its key, rotations included; once its key is removed, no
    operations make the ring open it again. *)
Theorem session_token_lifecycle r c token r' : reachable_ring r -> valid_fields (fields_of c) ->
  seal_v1 c r = (Ok token, r') ->
  (forall text o, open_v1 r text = Ok o <-> valid_fields o /\ sealed_by r text o) /\
  (forall after, Forall op_ok after -> Remove (active_key_id r) ∉ after ->
     open_v1 (run r' after) token = Ok (fields_of c)) /\
  (forall before after, Forall op_ok before -> Forall op_ok after ->
     fst (remove_validation_only_key (active_key_id r) (run r' before)) = Ok true ->
     forall o, open_v1 (run (run r' (before ++ [Remove (active_key_id r)])) after) token <> Ok o).
Proof.
  intros Hr Hv Hs. apply reachable_ok in Hr as Hok. split; [intros; apply open_v1_exact|].
  split; [intros; by apply (sealed_token_opens r)|].
  destruct (seal_v1_Ok c r token r' Hok Hv Hs) as (_ & _ & Hok' & nonce & ct & Hn & _ & _ & ->).
  intros before after Hb Ha Hrm o. pose proof (run_ok before r' Hok' Hb) as Hok1.
    assert (exists f, retired (run r' (before ++ [Remove (active_key_id r)])) !! active_key_id r = Some (Removed f)) as [f Hf].
    { unfold run in *. rewrite foldl_app. cbn [foldl run_op]. set (x := foldl run_op r' before) in *. clearbody x.
      unfold remove_validation_only_key in *. destruct (poisoned x); [by cbn in Hrm|].
      destruct (bool_decide (active_key_id r = active_key_id x)); [by cbn in Hrm|].
      destruct (retired x !! active_key_id r) as [[f k|f]|]; [|by cbn in Hrm..]. exists f. cbn. by rewrite lookup_insert_eq. }
    assert (ring_ok (run r' (before ++ [Remove (active_key_id r)]))) as Hok2
      by (apply run_ok; [done|]; apply list.Forall_app; split; [done|by constructor]).
    apply (removed_not_opened _ _ f); [by apply run_ok|by apply removed_run|apply Hok|done].
Qed.

End ring.

(** ** Witnesses *)

Import TokenSamples.

Definition sample_ops : list ring_op :=
  [Seal sample_credential; Seal sample_credential; Rotate sample_rotation; Seal sample_credential].

Lemma sample_ops_ok : Forall op_ok sample_ops.
Proof. repeat constructor. Qed.

Lemma session_nonces_unique_witness :
  length (uses sample_ring sample_ops) = 3%nat /\ NoDup (uses sample_ring sample_ops).
Proof.
  split; [vm_compute; reflexivity|].
  apply (session_nonces_unique sample_generated sample_ring sample_ops);
    [vm_compute; reflexivity|apply sample_ring_new|apply sample_ops_ok].
Defined.

Definition sample_sealed : outcome SessionTokenSealError str * SessionTokenKeyRing := seal_v1 sample_credential sample_ring.
Definition sample_token : str := match fst sample_sealed with Ok t => t | _ => [] end.

Lemma sample_sealed_Ok : seal_v1 sample_credential sample_ring = (Ok sample_token, snd sample_sealed).
Proof.
  change (sample_sealed = (Ok sample_token, snd sample_sealed)). rewrite (surjective_pairing sample_sealed) at 1.
  apply (f_equal (fun t => (t, snd sample_sealed))). vm_compute. reflexivity.
Qed.

Lemma sample_ring_reachable : reachable_ring sample_ring.
Proof.
  exists sample_generated, sample_ring, []. split; [vm_compute; reflexivity|]. split; [apply sample_ring_new|].
  split; [constructor|reflexivity].
Qed.

Lemma session_token_lifecycle_witness :
  len sample_token = 265 /\ open_v1 (run (snd sample_sealed) sample_ops) sample_token = Ok (fields_of sample_credential).
Proof.
  split; [vm_compute; reflexivity|].
  apply (session_token_lifecycle sample_ring sample_credential sample_token (snd sample_sealed)
    sample_ring_reachable sample_fields_valid sample_sealed_Ok).
  - apply sample_ops_ok.
  - intros Hin. repeat (apply elem_of_cons in Hin as [Hin|Hin]; [discriminate Hin|]). by apply elem_of_nil in Hin.
Defined.

End SessionRing.
