(* ===== verification/Provider.v ===== *)
(** The identity provider, crates/auth/src/provider.rs.  A backend is the class of the
    trait [IdentityProviderBackend]; the calls of the provider check what it returns, and
    the in-memory backend is an instance.  Definitions. *)

From Stdlib Require Import ZifyBool.
From stdpp Require Import strings gmap.
From S2P Require Import Prelude Machine Str Policy Identity IamPolicy Cobblestone SessionToken.

Local Open Scope Z_scope.

Module Backend.
Import Str Identity Account IamPolicy Authorization Credential.

Inductive IdentityProviderError := Unavailable | InvalidRecord.

End Backend.

(** The trait [IdentityProviderBackend]: absence is a value, an error that the state could
    not be read *)
Class IdentityProviderBackend := {
  lookup_long_lived_credential : Str.str -> outcome Backend.IdentityProviderError (option Credential.StoredCredential);
  lookup_live_role_identity : Identity.StableRoleId -> outcome Backend.IdentityProviderError (option Identity.LiveRoleIdentity);
  lookup_role_authorization :
    Identity.StableRoleId -> outcome Backend.IdentityProviderError (option Authorization.RoleAuthorizationRecord);
  lookup_role_authorization_by_arn :
    Identity.IamRoleArn -> outcome Backend.IdentityProviderError (option Authorization.RoleAuthorizationRecord);
  lookup_configured_principal_authorization :
    Authorization.ConfiguredPrincipalAuthorizationKey ->
    outcome Backend.IdentityProviderError (option Authorization.ConfiguredPrincipalAuthorizationRecord);
  find_account_by_canonical_user_id : Str.str -> outcome Backend.IdentityProviderError (option Account.AccountIdentity)
}.

(** * The provider *)
Module Provider.
Import Str Machine Account Policy Identity IamPolicy Authorization Credential SessionToken Backend.

Inductive SessionCredentialAuthenticationError :=
  | AuthInvalidCredential | AuthInvalidToken | ExpiredToken | AuthKeyRingUnavailable
  | IdentityProviderErr (e : IdentityProviderError).

(** Records whose binding the provider has checked *)
Record ResolvedRoleIdentity := MkResolvedRoleIdentity { resolved_identity : LiveRoleIdentity }.
Record ResolvedRoleAuthorization := MkResolvedRoleAuthorization { role_record : RoleAuthorizationRecord }.
Record ResolvedConfiguredPrincipalAuthorization := MkResolvedPrincipal {
  principal_record : ConfiguredPrincipalAuthorizationRecord
}.

Inductive ResolvedPrincipalAuthorization :=
  | ResolvedConfigured (authorization : option ResolvedConfiguredPrincipalAuthorization)
  | ResolvedRoleSession (role : ResolvedRoleAuthorization) (session_context : SessionAuthorizationContext).

#[export] Instance LiveRoleIdentity_eq_dec : EqDecision LiveRoleIdentity.
Proof. solve_decision. Defined.
#[export] Instance SessionAuthorizationContext_eq_dec : EqDecision SessionAuthorizationContext.
Proof. solve_decision. Defined.

Definition matches_authenticated_identity (self : ResolvedPrincipalAuthorization) (identity : AuthenticatedIdentity) : bool :=
  match self, identity_principal identity with
  | ResolvedConfigured authorization, Configured principal _ =>
      match authorization with
      | None => true
      | Some a => bool_decide (record_account (principal_record a) = identity_account identity)
                  && bool_decide (key_principal (record_key (principal_record a)) = principal)
      end
  | ResolvedRoleSession role session_context, AssumedRoleSession session =>
      bool_decide (account (Authorization.identity (role_record role)) = identity_account identity)
      && bool_decide (Identity.role (Authorization.identity (role_record role)) = session_role session)
      && bool_decide (session_context = authorization_context session)
  | ResolvedConfigured _, AssumedRoleSession _ | ResolvedRoleSession _ _, Configured _ _ => false
  end.

Definition evaluate_permissions {E} (self : ResolvedPrincipalAuthorization) (request : IdentityPolicyRequest) :
    outcome E PolicyEvaluation :=
  match self with
  | ResolvedConfigured (Some principal) => caller_evaluate_identity_permissions (principal_record principal) request
  | ResolvedConfigured None => mret NoMatch
  | ResolvedRoleSession role Version1NoSessionPolicy => evaluate_session_permissions (role_record role) request Absent
  end.

(** A record that a lookup returned is refused when it is not bound to what was asked. *)
Definition refuse_if {A} (bad : A -> bool) (record : option A) : outcome IdentityProviderError (option A) :=
  if is_some_and record bad then Err InvalidRecord else Ok record.

Section provider.
Context `{!IdentityProviderBackend}.

Definition provider_lookup_long_lived_credential (access_key_id : str) :
    outcome IdentityProviderError (option StoredCredential) :=
  if is_reserved_session_access_key_id access_key_id then Ok None else
  record ← lookup_long_lived_credential access_key_id;
  refuse_if (fun record => bool_decide (stored_access_key_id record <> access_key_id)
                           || is_reserved_session_access_key_id (stored_access_key_id record)) record.

Definition provider_lookup_live_role_identity (stable_role_id : StableRoleId) :
    outcome IdentityProviderError (option ResolvedRoleIdentity) :=
  identity ← lookup_live_role_identity stable_role_id;
  identity ← refuse_if (fun identity => bool_decide (stable_id (Identity.role identity) <> stable_role_id)) identity;
  Ok (option_map MkResolvedRoleIdentity identity).

Definition record_identity_differs (expected : LiveRoleIdentity) (record : RoleAuthorizationRecord) : bool :=
  bool_decide (Authorization.identity record <> expected).

Definition provider_lookup_role_authorization (expected_identity : LiveRoleIdentity) :
    outcome IdentityProviderError (option ResolvedRoleAuthorization) :=
  record ← lookup_role_authorization (stable_id (Identity.role expected_identity));
  record ← refuse_if (record_identity_differs expected_identity) record;
  Ok (option_map MkResolvedRoleAuthorization record).

Definition provider_lookup_role_authorization_by_arn (role_arn : IamRoleArn) :
    outcome IdentityProviderError (option ResolvedRoleAuthorization) :=
  record ← lookup_role_authorization_by_arn role_arn;
  record ← refuse_if (fun record => bool_decide (arn (Identity.role (Authorization.identity record)) <> role_arn)) record;
  Ok (option_map MkResolvedRoleAuthorization record).

Definition resolve_authorized_role_identity (authorization : ResolvedRoleAuthorization) :
    outcome IdentityProviderError (option ResolvedRoleIdentity) :=
  let expected := Authorization.identity (role_record authorization) in
  identity ← provider_lookup_live_role_identity (stable_id (Identity.role expected));
  refuse_if (fun identity => bool_decide (resolved_identity identity <> expected)) identity.

Definition provider_lookup_configured_principal_authorization (key : ConfiguredPrincipalAuthorizationKey)
    (expected_account : AccountIdentity) : outcome IdentityProviderError (option ResolvedConfiguredPrincipalAuthorization) :=
  if bool_decide (account_id expected_account <> Some (key_account_id key)) then Err InvalidRecord else
  record ← lookup_configured_principal_authorization key;
  record ← refuse_if (fun record => bool_decide (record_key record <> key)
                                    || bool_decide (record_account record <> expected_account)) record;
  Ok (option_map MkResolvedPrincipal record).

Definition resolve_principal_authorization (identity : AuthenticatedIdentity) :
    outcome IdentityProviderError ResolvedPrincipalAuthorization :=
  match identity_principal identity with
  | Configured principal _ =>
      match account_id (identity_account identity) with
      | None => Ok (ResolvedConfigured None)
      | Some account_id =>
          a ← map_err (fun _ => InvalidRecord) (AwsAccountId_new account_id);
          let key := MkConfiguredPrincipalAuthorizationKey a principal in
          record ← provider_lookup_configured_principal_authorization key (identity_account identity);
          mret (ResolvedConfigured record)
      end
  | AssumedRoleSession session =>
      expected_identity ← map_err (fun _ => InvalidRecord)
                            (LiveRoleIdentity_new (identity_account identity) (session_role session));
      role ← provider_lookup_role_authorization expected_identity;
      role ← ok_or role InvalidRecord;
      mret (ResolvedRoleSession role (authorization_context session))
  end.

Definition provider_find_account_by_canonical_user_id (canonical : str) :
    outcome IdentityProviderError (option AccountIdentity) :=
  account ← find_account_by_canonical_user_id canonical;
  refuse_if (fun account => bool_decide (canonical_user_id account <> canonical)) account.

Context `{!Cobblestone.Provider, !TokenLibrary}.

Definition seal_session_credential (material : GeneratedSessionCredentialMaterial) (issuer : ResolvedRoleIdentity)
    (session_name : RoleSessionName) (lifetime : SessionLifetime) (source_identity : option SourceIdentity) :
    stm SessionTokenKeyRing SessionTokenSealError str :=
  credential ← liftS (map_err (fun _ => InvalidCredential)
    (version1 (material_access_key_id material) (material_secret_key material) (resolved_identity issuer)
       session_name lifetime source_identity));
  seal_v1 credential.

(** [constant_time_eq] of lib.rs *)
Definition constant_time_eq (a b : list byte) : bool :=
  if negb (len a =? len b) then false else ct_eq a b.

Definition open_error (e : SessionTokenOpenError) : SessionCredentialAuthenticationError :=
  match e with InvalidToken => AuthInvalidToken | OpenKeyRingUnavailable => AuthKeyRingUnavailable end.

(** The time is u64 seconds; one beyond i64 counts as expired. *)
Definition authenticate_session_credential (ring : SessionTokenKeyRing) (access_key_id : str) (token : option str)
    (now_epoch_secs : Z) : outcome SessionCredentialAuthenticationError AuthenticatedCredential :=
  token ← ok_or (t ← token; if bool_decide (t = []) then None else Some t) AuthInvalidCredential;
  opened ← map_err open_error (open_v1 ring token);
  guard_err (negb (constant_time_eq (as_bytes access_key_id) (as_bytes (opened_access_key_id opened))))
    AuthInvalidCredential;;
  guard_err ((2 ^ 63 <=? now_epoch_secs) || (expires_at_epoch_secs (opened_lifetime opened) <=? now_epoch_secs))
    ExpiredToken;;
  issuer ← map_err IdentityProviderErr (provider_lookup_live_role_identity (opened_stable_role_id opened));
  issuer ← ok_or issuer AuthInvalidCredential;
  guard_err (bool_decide (role_account_id (Identity.role (resolved_identity issuer)) <> opened_account_id opened)
             || bool_decide (name (Identity.role (resolved_identity issuer)) <> opened_role_name opened))
    (IdentityProviderErr InvalidRecord);;
  credential ← map_err (fun _ => IdentityProviderErr InvalidRecord)
    (version1 (opened_access_key_id opened) (opened_secret_key opened) (resolved_identity issuer)
       (opened_session_name opened) (opened_lifetime opened) (opened_source_identity opened));
  mret (Session credential).

End provider.

(** * The in-memory backend *)

Inductive RoleIdentityStoreError := StoreDuplicateStableRoleId | StoreDuplicateRoleArn.

(** The live roles by stable identifier *)
Definition RoleIdentityStore : Type := gmap str LiveRoleIdentity.

Definition RoleIdentityStore_add (self : RoleIdentityStore) (identity : LiveRoleIdentity) :
    outcome RoleIdentityStoreError RoleIdentityStore :=
  if bool_decide (is_Some (self !! stable_id (Identity.role identity))) then Err StoreDuplicateStableRoleId else
  if existsb (fun '(_, existing) => bool_decide (arn (Identity.role existing) = arn (Identity.role identity)))
       (map_to_list self)
  then Err StoreDuplicateRoleArn
  else Ok (<[stable_id (Identity.role identity) := identity]> self).

Record InMemoryIdentityState := MkInMemory {
  credentials : CredentialStore;
  live_roles : RoleIdentityStore;
  authorization : AuthorizationRecordStore;
  state_poisoned : bool
}.

(** A read of the state behind its lock *)
Definition read_state {A} (s : InMemoryIdentityState) (a : A) : outcome IdentityProviderError A :=
  if state_poisoned s then Err Unavailable else Ok a.

(** The first of the stored credentials, in some order, whose account has the identifier *)
Definition store_find_account (credentials : CredentialStore) (canonical : str) : option AccountIdentity :=
  (fun record => identity_account (stored_identity record)) <$>
  List.find (fun record => bool_decide (canonical_user_id (identity_account (stored_identity record)) = canonical))
    (map_to_list credentials).*2.

Definition in_memory (s : InMemoryIdentityState) : IdentityProviderBackend := {|
  lookup_long_lived_credential access_key_id := read_state s (get_record (credentials s) access_key_id);
  lookup_live_role_identity stable_role_id := read_state s (live_roles s !! stable_role_id);
  lookup_role_authorization stable_role_id := read_state s (role_by_id (authorization s) stable_role_id);
  lookup_role_authorization_by_arn role_arn := read_state s (role_by_arn (authorization s) role_arn);
  lookup_configured_principal_authorization key := read_state s (principal_by_key (authorization s) key);
  find_account_by_canonical_user_id canonical := read_state s (store_find_account (credentials s) canonical)
|}.

End Provider.
