(* ===== verification/ProviderSpec.v ===== *)
(** The identity provider of Provider.v: what its boundary guarantees for every backend,
    what the in-memory backend answers, and the authentication of temporary credentials
    from issue to use. *)

From Stdlib Require Import ZifyBool.
From stdpp Require Import strings gmap.
From S2P Require Import Prelude Machine Str Utf8 Policy Identity IamPolicy IamSpec.
From S2P Require Import Cobblestone CobblestoneSpec SessionToken SessionSpec TokenSamples SessionRing Provider.

Local Open Scope Z_scope.

Module ProviderSpec.
Import Str Utf8 Machine Account Policy Identity IamPolicy Authorization Credential SessionToken SessionSpec SessionRing Backend Provider.

Lemma refuse_if_Ok {A} (bad : A -> bool) o o' : refuse_if bad o = Ok o' <-> o' = o /\ forall a, o = Some a -> bad a = false.
Proof.
  unfold refuse_if. destruct o as [a|]; cbn [is_some_and].
  - destruct (bad a) eqn:Ha; split; [done|intros [_ H]; by rewrite (H a) in Ha| |by intros [-> _]].
    intros [= <-]. split; [done|]. by intros b [= <-].
  - split; [intros [= <-]; by split|by intros [-> _]].
Qed.

Lemma option_map_Some {A B} (f : A -> B) o b : option_map f o = Some b <-> exists a, o = Some a /\ b = f a.
Proof. destruct o; cbn; naive_solver. Qed.

Section boundary.
Context {backend : IdentityProviderBackend}.

Lemma role_authorization_bound expected r :
  provider_lookup_role_authorization expected = Ok (Some r) -> Authorization.identity (role_record r) = expected.
Proof.
  unfold provider_lookup_role_authorization. intros (record & _ & H)%bind_Ok. apply bind_Ok in H as (x & H & Hr).
  apply refuse_if_Ok in H as [-> Hb]. injection Hr as Hr. apply option_map_Some in Hr as (a & -> & ->).
  specialize (Hb a eq_refl). by apply bool_decide_eq_false, dec_stable in Hb.
Qed.

Lemma configured_principal_bound key expected r :
  provider_lookup_configured_principal_authorization key expected = Ok (Some r) ->
  record_key (principal_record r) = key /\ record_account (principal_record r) = expected /\
  account_id expected = Some (key_account_id key).
Proof.
  unfold provider_lookup_configured_principal_authorization. case_bool_decide as Ha; [done|].
  intros (record & _ & H)%bind_Ok. apply bind_Ok in H as (x & H & Hr).
  apply refuse_if_Ok in H as [-> Hb]. injection Hr as Hr. apply option_map_Some in Hr as (a & -> & ->).
  specialize (Hb a eq_refl). apply orb_false_elim in Hb as [H1 H2].
  by apply bool_decide_eq_false, dec_stable in H1, H2.
Qed.

Lemma live_role_bound id r :
  provider_lookup_live_role_identity id = Ok (Some r) ->
  stable_id (Identity.role (resolved_identity r)) = id /\ lookup_live_role_identity id = Ok (Some (resolved_identity r)).
Proof.
  unfold provider_lookup_live_role_identity. intros (record & Hl & H)%bind_Ok. apply bind_Ok in H as (x & H & Hr).
  apply refuse_if_Ok in H as [-> Hb]. injection Hr as Hr. apply option_map_Some in Hr as (a & -> & ->).
  specialize (Hb a eq_refl). apply bool_decide_eq_false, dec_stable in Hb. done.
Qed.

(** C35: Whatever a backend returns, wrong records included, a record that passes the boundary
    of the provider is the one asked for: a long-lived credential has the access key, which
    is outside the namespace of sessions; a live role has the stable identifier; a role's
    authorization has the expected identity or the ARN; a principal's authorization has the
    key and the account; an account has the canonical identifier.  The authorization
    resolved for an authenticated identity always matches that identity. *)
Theorem provider_boundary :
  (forall k c, provider_lookup_long_lived_credential k = Ok (Some c) ->
     stored_access_key_id c = k /\ is_reserved_session_access_key_id k = false) /\
  (forall id r, provider_lookup_live_role_identity id = Ok (Some r) ->
     stable_id (Identity.role (resolved_identity r)) = id) /\
  (forall expected r, provider_lookup_role_authorization expected = Ok (Some r) ->
     Authorization.identity (role_record r) = expected) /\
  (forall a r, provider_lookup_role_authorization_by_arn a = Ok (Some r) ->
     arn (Identity.role (Authorization.identity (role_record r))) = a) /\
  (forall authorized r, resolve_authorized_role_identity authorized = Ok (Some r) ->
     resolved_identity r = Authorization.identity (role_record authorized)) /\
  (forall key expected r, provider_lookup_configured_principal_authorization key expected = Ok (Some r) ->
     record_key (principal_record r) = key /\ record_account (principal_record r) = expected /\
     account_id expected = Some (key_account_id key)) /\
  (forall c a, provider_find_account_by_canonical_user_id c = Ok (Some a) -> canonical_user_id a = c) /\
  (forall identity a, resolve_principal_authorization identity = Ok a -> matches_authenticated_identity a identity = true).
Proof.
  split_and!.
  - intros k c. unfold provider_lookup_long_lived_credential. destruct (is_reserved_session_access_key_id k) eqn:Hk; [done|].
    intros (record & _ & [H Hb]%refuse_if_Ok)%bind_Ok. subst record. specialize (Hb c eq_refl).
    apply orb_false_elim in Hb as [Hb _]. by apply bool_decide_eq_false, dec_stable in Hb.
  - intros id r H. by apply live_role_bound.
  - apply role_authorization_bound.
  - intros a r. unfold provider_lookup_role_authorization_by_arn. intros (record & _ & H)%bind_Ok.
    apply bind_Ok in H as (x & [-> Hb]%refuse_if_Ok & Hr). injection Hr as Hr. apply option_map_Some in Hr as (y & -> & ->).
    specialize (Hb y eq_refl). by apply bool_decide_eq_false, dec_stable in Hb.
  - intros authorized r. unfold resolve_authorized_role_identity. intros (i & _ & [H Hb]%refuse_if_Ok)%bind_Ok. subst i.
    specialize (Hb r eq_refl). by apply bool_decide_eq_false, dec_stable in Hb.
  - apply configured_principal_bound.
  - intros c a. unfold provider_find_account_by_canonical_user_id. intros (x & _ & [H Hb]%refuse_if_Ok)%bind_Ok. subst x.
    specialize (Hb a eq_refl). by apply bool_decide_eq_false, dec_stable in Hb.
  - intros identity a. unfold resolve_principal_authorization, matches_authenticated_identity.
    destruct (identity_principal identity) as [principal user|session].
    + destruct (account_id (identity_account identity)) as [acct|] eqn:Hacct; [|by intros [= <-]].
      intros (k & Hk & H)%bind_Ok. apply bind_Ok in H as (record & Hr & [= <-]).
      destruct record as [record|]; [|done]. apply configured_principal_bound in Hr as (Hkey & Ha & _).
      rewrite Hkey, Ha. by rewrite !bool_decide_eq_true_2.
    + intros (expected & He & H)%bind_Ok. apply bind_Ok in H as (role & Hr & H).
      apply bind_Ok in H as (role' & Hrole & [= <-]). destruct role as [role|]; [|done]. injection Hrole as <-.
      apply role_authorization_bound in Hr. rewrite Hr. unfold LiveRoleIdentity_new in He.
      case_bool_decide; [done|]. injection He as <-. by rewrite !bool_decide_eq_true_2.
Qed.

End boundary.

(** ** The stores of the in-memory backend *)

Inductive store_op := AddRole (record : RoleAuthorizationRecord) | AddPrincipal (record : ConfiguredPrincipalAuthorizationRecord).

(** A rejected addition leaves the collection as it is. *)
Definition or_same {S E} (s : S) (m : outcome E S) : S := match m with Ok s' => s' | _ => s end.

Definition run_store (s : AuthorizationRecordStore) (op : store_op) : AuthorizationRecordStore :=
  or_same s (match op with AddRole r => add_role s r | AddPrincipal p => add_configured_principal s p end).

Definition build_store (ops : list store_op) : AuthorizationRecordStore := foldl run_store AuthorizationRecordStore_new ops.

Definition build_credentials (records : list StoredCredential) : CredentialStore :=
  foldl (fun s r => or_same s (add_record s r)) ∅ records.

Definition build_roles (identities : list LiveRoleIdentity) : RoleIdentityStore :=
  foldl (fun s r => or_same s (RoleIdentityStore_add s r)) ∅ identities.

Definition record_role (r : RoleAuthorizationRecord) : IamRoleIdentity := Identity.role (Authorization.identity r).

Record store_ok (s : AuthorizationRecordStore) : Prop := {
  so_roles : forall id r, roles s !! id = Some r ->
    stable_id (record_role r) = id /\ role_arns s !! arn (record_role r) = Some id;
  so_arns : forall a id, role_arns s !! a = Some id -> exists r, roles s !! id = Some r /\ arn (record_role r) = a;
  so_principals : forall k p, configured_principals s !! k = Some p -> record_key p = k
}.

Lemma foldl_inv_simple {A S} (P : S -> Prop) (f : S -> A -> S) l : (forall s a, P s -> P (f s a)) ->
  forall s, P s -> P (foldl f s l).
Proof. intros Hf. induction l as [|a l IH]; intros s Hs; [done|]. apply IH. by apply Hf. Qed.

Lemma run_store_ok s op : store_ok s -> store_ok (run_store s op).
Proof.
  intros Hs. pose proof Hs as [H1 H2 H3]. unfold run_store. destruct op as [r|p].
  - unfold add_role. destruct (bool_decide_reflect (is_Some (roles s !! stable_id (Identity.role (Authorization.identity r))))) as [|Hr];
      cbn [guard_err]; bind_step; [exact Hs|]. apply eq_None_not_Some in Hr.
    destruct (bool_decide_reflect (is_Some (role_arns s !! arn (Identity.role (Authorization.identity r))))) as [|Ha];
      cbn [guard_err]; bind_step; [exact Hs|]. apply eq_None_not_Some in Ha.
    cbn [or_same]. split; cbn.
    + intros id x. rewrite lookup_insert_Some. intros [[<- <-]|[Hne Hx]].
      * split; [done|]. unfold record_role. by rewrite lookup_insert_eq.
      * destruct (H1 id x Hx) as [? Hax]. split; [done|]. rewrite lookup_insert_ne; [done|]. intros Heq.
        rewrite <-Heq in Hax. unfold record_role in Hax. rewrite Ha in Hax. done.
    + intros a id. rewrite lookup_insert_Some. intros [[<- <-]|[Hne Hx]].
      * exists r. by rewrite lookup_insert_eq.
      * destruct (H2 a id Hx) as (x & Hrx & Hax). exists x. split; [|done]. rewrite lookup_insert_ne; [done|].
        intros <-. rewrite Hr in Hrx. done.
    + done.
  - unfold add_configured_principal. destruct (bool_decide _) eqn:Hp; cbn [guard_err]; bind_step; cbn [or_same]; [done|].
    split; cbn; [done..|]. intros k q. rewrite lookup_insert_Some. intros [[<- <-]|[_ Hq]]; [done|by apply H3].
Qed.

Lemma build_store_ok ops : store_ok (build_store ops).
Proof.
  unfold build_store. apply foldl_inv_simple; [apply run_store_ok|]. by split.
Qed.

(** The index by ARN and the roles agree. *)
Lemma role_by_arn_exact s a r : store_ok s ->
  role_by_arn s a = Some r <-> arn (record_role r) = a /\ role_by_id s (stable_id (record_role r)) = Some r.
Proof.
  intros [H1 H2 _]. unfold role_by_arn, role_by_id. split.
  - intros (id & Ha & Hr)%bind_Some. destruct (H2 a id Ha) as (x & Hx & Hax).
    pose proof (eq_trans (eq_sym Hr) Hx) as [= <-]. split; [done|]. destruct (H1 id r Hr) as [-> _]. done.
  - intros [<- Hr]. destruct (H1 _ r Hr) as [_ Ha]. apply bind_Some. eauto.
Qed.

Lemma build_credentials_ok records k c : build_credentials records !! k = Some c ->
  stored_access_key_id c = k /\ is_reserved_session_access_key_id k = false.
Proof.
  revert k c. unfold build_credentials. apply (foldl_inv_simple (fun s : CredentialStore => forall k c, s !! k = Some c ->
    stored_access_key_id c = k /\ is_reserved_session_access_key_id k = false)); [|done].
  intros s r IH k c. unfold add_record. destruct (is_reserved_session_access_key_id _) eqn:Hr; cbn [or_same]; [apply IH|].
  intros Hc. apply (lookup_insert_Some (M:=gmap str)) in Hc as [[<- <-]|[_ Hc]]; [done|by apply IH].
Qed.

Lemma build_roles_ok ids k r : build_roles ids !! k = Some r -> stable_id (Identity.role r) = k.
Proof.
  revert k r. unfold build_roles. apply (foldl_inv_simple (fun s : RoleIdentityStore => forall k r, s !! k = Some r ->
    stable_id (Identity.role r) = k)); [|done].
  intros s x IH k r. unfold RoleIdentityStore_add. case_bool_decide; cbn [or_same]; [apply IH|].
  destruct (existsb _ _); cbn [or_same]; [apply IH|].
  intros Hc. apply (lookup_insert_Some (M:=gmap str)) in Hc as [[<- <-]|[_ Hc]]; [done|by apply IH].
Qed.

Lemma not_ne_self {A} (P : Prop) `{!Decision P} (x : A) : (P -> x <> x) -> bool_decide P = false.
Proof. intros H. apply bool_decide_eq_false_2. intros Hp. by apply H in Hp. Qed.

Lemma refuse_none {A} (bad : A -> bool) o : (forall a, o = Some a -> bad a = false) -> refuse_if bad o = Ok o.
Proof. intros H. by apply refuse_if_Ok. Qed.

(** The in-memory backend, with collections built by any sequence of additions, rejected
    ones included.  No lookup by a key fails or is refused, and each returns what was
    stored under the key: the ARN index and the roles agree, and long-lived credentials
    are never in the namespace of sessions.  A role's authorization is returned for the
    identity it was stored with, and refused for any other with its stable identifier. *)
Theorem in_memory_provider ops records identities :
  let s := MkInMemory (build_credentials records) (build_roles identities) (build_store ops) false in
  let backend := in_memory s in
  (forall k, provider_lookup_long_lived_credential (H:=backend) k = Ok (get_record (credentials s) k)) /\
  (forall id, provider_lookup_live_role_identity (H:=backend) id =
     Ok (option_map MkResolvedRoleIdentity (live_roles s !! id))) /\
  (forall a r, provider_lookup_role_authorization_by_arn (H:=backend) a = Ok (Some (MkResolvedRoleAuthorization r)) <->
     arn (record_role r) = a /\ role_by_id (authorization s) (stable_id (record_role r)) = Some r) /\
  (forall expected, provider_lookup_role_authorization (H:=backend) expected =
     match role_by_id (authorization s) (stable_id (Identity.role expected)) with
     | None => Ok None
     | Some r => if bool_decide (Authorization.identity r = expected) then Ok (Some (MkResolvedRoleAuthorization r))
                 else Err InvalidRecord
     end).
Proof.
  cbn zeta. split_and!.
  - intros k. unfold provider_lookup_long_lived_credential. cbn. unfold get_record.
    destruct (is_reserved_session_access_key_id k) eqn:Hk.
    + destruct (build_credentials records !! k) as [c|] eqn:Hc; [|done]. apply build_credentials_ok in Hc as [_ Hc]. congruence.
    + apply refuse_none. intros c Hc. apply build_credentials_ok in Hc as [Hc1 Hc2]. rewrite Hc1, Hc2, orb_false_r.
      by apply (not_ne_self _ k).
  - intros id. unfold provider_lookup_live_role_identity. cbn. rewrite refuse_none; [done|].
    intros r Hr%build_roles_ok. apply (not_ne_self _ id). by rewrite Hr.
  - intros a r. unfold provider_lookup_role_authorization_by_arn. cbn [lookup_role_authorization_by_arn in_memory read_state
      authorization state_poisoned]. bind_step. rewrite refuse_none.
    2: { intros x [Hx _]%role_by_arn_exact; [|apply build_store_ok]. apply (not_ne_self _ a). by rewrite <-Hx. }
    bind_step. rewrite <-role_by_arn_exact by apply build_store_ok. split; [|by intros ->].
    intros [= H]. by apply option_map_Some in H as (x & -> & [= <-]).
  - intros expected. unfold provider_lookup_role_authorization, role_by_id. cbn. unfold role_by_id.
    destruct (roles (build_store ops) !! _) as [r|]; [|done]. unfold refuse_if, record_identity_differs. cbn.
    destruct (decide (Authorization.identity r = expected)).
    + rewrite bool_decide_eq_false_2 by naive_solver. by rewrite bool_decide_eq_true_2.
    + rewrite bool_decide_eq_true_2 by done. by rewrite bool_decide_eq_false_2.
Qed.

(** ** Temporary credentials *)

Section sessions.
Context {backend : IdentityProviderBackend}.
Context {crypto : Cobblestone.Provider} {crypto_ok : ProviderOk} {lib : TokenLibrary} {lib_ok : TokenLibraryOk}.

Lemma constant_time_eq_spec a b : constant_time_eq a b = true <-> a = b.
Proof.
  unfold constant_time_eq. destruct (Z.eqb_spec (len a) (len b)) as [Hl|Hl]; cbn [negb].
  - apply ct_eq_spec. unfold len in Hl. lia.
  - split; [done|]. by intros ->.
Qed.

Lemma version1_Ok ak sk issuer sname l src c : version1 ak sk issuer sname l src = Ok c ->
  fields_of c = MkOpened ak sk l (role_account_id (Identity.role issuer)) (stable_id (Identity.role issuer))
                  (name (Identity.role issuer)) sname src /\
  session_role (session c) = Identity.role issuer /\ access_key_id c = ak.
Proof.
  unfold version1. destruct (negb _); [done|]. destruct (negb _); [done|].
  destruct (assumed_role_session _ _) as [i| |]; [|done..]. cbn. by intros [= <-].
Qed.

(** The steps behind an opened token *)
Lemma authenticate_opened ring ak token now o : open_v1 ring token = Ok o ->
  authenticate_session_credential ring ak (Some token) now =
  if decide (as_bytes ak = as_bytes (opened_access_key_id o)) then
    if (2 ^ 63 <=? now) || (expires_at_epoch_secs (opened_lifetime o) <=? now) then Err ExpiredToken else
    issuer ← map_err IdentityProviderErr (provider_lookup_live_role_identity (opened_stable_role_id o));
    issuer ← ok_or issuer AuthInvalidCredential;
    guard_err (bool_decide (role_account_id (Identity.role (resolved_identity issuer)) <> opened_account_id o)
               || bool_decide (name (Identity.role (resolved_identity issuer)) <> opened_role_name o))
      (IdentityProviderErr InvalidRecord);;
    credential ← map_err (fun _ => IdentityProviderErr InvalidRecord)
      (version1 (opened_access_key_id o) (opened_secret_key o) (resolved_identity issuer)
         (opened_session_name o) (opened_lifetime o) (opened_source_identity o));
    mret (Session credential)
  else Err AuthInvalidCredential.
Proof.
  intros Ho. unfold authenticate_session_credential.
  assert (token <> []) as Hne by (intros ->; by vm_compute in Ho). cbn [mbind option_bind].
  rewrite bool_decide_eq_false_2 by done. cbn [ok_or]. bind_step. rewrite Ho. cbn [map_err]. bind_step.
  destruct (decide (as_bytes ak = as_bytes (opened_access_key_id o))) as [He|He].
  - rewrite (proj2 (constant_time_eq_spec _ _) He). cbn [negb guard_err]. bind_step. by destruct (_ || _).
  - assert (constant_time_eq (as_bytes ak) (as_bytes (opened_access_key_id o)) = false) as ->; [|done].
    apply not_true_is_false. by rewrite constant_time_eq_spec.
Qed.

Lemma authenticate_sound ring ak text now x : authenticate_session_credential ring ak (Some text) now = Ok x ->
  exists o live c, x = Session c /\ valid_fields o /\ sealed_by ring text o /\
    as_bytes ak = as_bytes (access_key_id c) /\ now < expires_at_epoch_secs (opened_lifetime o) /\
    lookup_live_role_identity (opened_stable_role_id o) = Ok (Some live) /\
    stable_id (Identity.role live) = opened_stable_role_id o /\ session_role (session c) = Identity.role live.
Proof.
  intros H. destruct (open_v1 ring text) as [o|e|] eqn:Ho.
  2,3: unfold authenticate_session_credential in H; cbn [mbind option_bind] in H; case_bool_decide; [done|];
    cbn [ok_or mbind outcome_bind] in H; by rewrite Ho in H.
  rewrite (authenticate_opened _ _ _ _ _ Ho) in H. apply open_v1_exact in Ho as [Hv Hs].
  case_decide as Hak; [|done]. destruct (_ || _) eqn:Hexp; [done|]. apply orb_false_elim in Hexp as [_ Hexp].
  apply bind_Ok in H as (i & Hi & H). apply bind_Ok in H as (live & Hlive & H). destruct i as [i|]; [|done].
  injection Hlive as <-. apply bind_Ok in H as ([] & _ & H). apply bind_Ok in H as (c & Hc & [= <-]).
  destruct (provider_lookup_live_role_identity _) as [x| |] eqn:Hl; [|done..]. injection Hi as ->.
  apply live_role_bound in Hl as [Hid Hl]. destruct (version1 _ _ _ _ _ _) as [c'| |] eqn:Hc'; [|done..]. injection Hc as ->.
  apply version1_Ok in Hc' as (_ & Hrole & Hk). exists o, (resolved_identity i), c. rewrite Hk.
  repeat (split; [done || lia|]). done.
Qed.

(** C36: Temporary credentials from issue to use.  A token that the provider issued for a
    resolved role authenticates its access key, for as long as its key is not removed from
    the ring, exactly up to its expiry, and to the credential it was sealed from, when the
    role is live with the identity it had; it is refused when the role is gone.  In the
    other direction, whatever text authenticates is the encryption under a key of the
    ring, for its domain, of fields with that access key that have not expired, and the
    session's role is the live role with the stable identifier of the token. *)
Theorem session_authentication r material issuer sname lifetime source token r' after c :
  reachable_ring r -> Forall op_ok after -> Remove (active_key_id r) ∉ after ->
  version1 (material_access_key_id material) (material_secret_key material) (resolved_identity issuer)
    sname lifetime source = Ok c ->
  valid_fields (fields_of c) ->
  seal_session_credential material issuer sname lifetime source r = (Ok token, r') ->
  let ring := run r' after in
  let role_id := stable_id (Identity.role (resolved_identity issuer)) in
  let ak := material_access_key_id material in
  (forall now, expires_at_epoch_secs lifetime <= now ->
     authenticate_session_credential ring ak (Some token) now = Err ExpiredToken) /\
  (forall now, now < expires_at_epoch_secs lifetime ->
     lookup_live_role_identity role_id = Ok (Some (resolved_identity issuer)) ->
     authenticate_session_credential ring ak (Some token) now = Ok (Session c)) /\
  (forall now, now < expires_at_epoch_secs lifetime -> lookup_live_role_identity role_id = Ok None ->
     authenticate_session_credential ring ak (Some token) now = Err AuthInvalidCredential) /\
  (forall ak' text now x, authenticate_session_credential ring ak' (Some text) now = Ok x ->
     exists o live c', x = Session c' /\ valid_fields o /\ sealed_by ring text o /\
       as_bytes ak' = as_bytes (access_key_id c') /\ now < expires_at_epoch_secs (opened_lifetime o) /\
       lookup_live_role_identity (opened_stable_role_id o) = Ok (Some live) /\
       stable_id (Identity.role live) = opened_stable_role_id o /\ session_role (session c') = Identity.role live).
Proof.
  intros Hr Hops Hne Hc Hv Hs. cbn zeta. set (ring := run r' after).
  pose proof (version1_Ok _ _ _ _ _ _ _ Hc) as (Hf & Hrole & Hak).
  unfold seal_session_credential in Hs. rewrite Hc in Hs. cbn [map_err] in Hs.
  unfold mbind, stm_bind, liftS in Hs.
  assert (open_v1 ring token = Ok (fields_of c)) as Ho.
  { apply (sealed_token_opens r); [by apply reachable_ok|done..]. }
  rewrite Hf in Ho, Hv. pose proof (v_lifetime _ Hv) as Hl. cbn in Hl.
  assert (forall now, now < expires_at_epoch_secs lifetime ->
    (2 ^ 63 <=? now) || (expires_at_epoch_secs lifetime <=? now) = false) as Hfresh by (intros; lia).
  split_and!.
  - intros now Hnow. rewrite (authenticate_opened _ _ _ _ _ Ho). cbn. rewrite decide_True by done.
    by replace (expires_at_epoch_secs lifetime <=? now) with true by lia; rewrite orb_true_r.
  - intros now Hnow Hlive. rewrite (authenticate_opened _ _ _ _ _ Ho). cbn. rewrite decide_True, Hfresh by done.
    unfold provider_lookup_live_role_identity. rewrite Hlive. bind_step. rewrite refuse_none.
    2: { intros x [= <-]. by apply (not_ne_self _ (stable_id (Identity.role (resolved_identity issuer)))). }
    cbn. rewrite !(not_ne_self _ 0) by naive_solver. cbn. by rewrite Hc.
  - intros now Hnow Hlive. rewrite (authenticate_opened _ _ _ _ _ Ho). cbn. rewrite decide_True, Hfresh by done.
    unfold provider_lookup_live_role_identity. rewrite Hlive. done.
  - intros ak' text now x. by apply authenticate_sound.
Qed.

End sessions.

(** ** A provider with one live role *)

Import TokenSamples.

Definition sample_backend : IdentityProviderBackend :=
  in_memory (MkInMemory ∅ (build_roles [sample_issuer]) (build_store []) false).

Definition sample_material : GeneratedSessionCredentialMaterial :=
  MkMaterial (lit "ARGSABCDEFGHIJKLMNOPQRST") (lit "AAECAwQFBgcICQoLDA0ODxAREhMUFRYXGBkaGxwd").

Lemma sample_live :
  lookup_live_role_identity (IdentityProviderBackend:=sample_backend) (stable_id (Identity.role sample_issuer)) = Ok (Some sample_issuer).
Proof. vm_compute. reflexivity. Qed.

Lemma sample_seal_session :
  seal_session_credential sample_material (MkResolvedRoleIdentity sample_issuer) (lit "test-session")
    (MkSessionLifetime 1700000000 1700003600) (Some (lit "alice")) sample_ring = (Ok sample_token, snd sample_sealed).
Proof.
  unfold seal_session_credential. change (version1 _ _ _ _ _ _) with sample_session. rewrite sample_session_Ok.
  exact sample_sealed_Ok.
Qed.

Lemma session_authentication_witness :
  authenticate_session_credential (H:=sample_backend) (run (snd sample_sealed) sample_ops) (lit "ARGSABCDEFGHIJKLMNOPQRST")
    (Some sample_token) 1700003599 = Ok (Session sample_credential).
Proof.
  apply (session_authentication (backend:=sample_backend) sample_ring sample_material (MkResolvedRoleIdentity sample_issuer)
    (lit "test-session") (MkSessionLifetime 1700000000 1700003600) (Some (lit "alice")) sample_token (snd sample_sealed)
    sample_ops sample_credential sample_ring_reachable sample_ops_ok).
  - intros Hin. repeat (apply elem_of_cons in Hin as [Hin|Hin]; [discriminate Hin|]). by apply elem_of_nil in Hin.
  - exact sample_session_Ok.
  - exact sample_fields_valid.
  - exact sample_seal_session.
  - reflexivity.
  - exact sample_live.
Defined.

End ProviderSpec.
