(* ===== verification/Canonical.v ===== *)
(** The canonical form of a request that signature version 4 signs,
    crates/auth/src/encoding.rs and canonical.rs: percent-encoding and decoding, the
    canonical path, query, headers and request, and the timestamps of a request. *)

From Stdlib Require Import ZifyBool.
From stdpp Require Import strings.
From S2P Require Import Prelude Machine Str Utf8 Chunked HttpDate Conditional Identity.

Local Open Scope Z_scope.

(** * Methods of strings and vectors *)
Module StrSort.
Import Str.

(** [String::from_utf8_lossy(bytes)]: each longest head of a character that does not go
    on as one is replaced by U+FFFD *)
Definition REPLACEMENT : Z := 0xFFFD.

Fixpoint from_utf8_lossy (bytes : list byte) : str :=
  match bytes with
  | [] => []
  | b0 :: r0 =>
      let x0 := byte.unsigned b0 in
      if x0 <? 0x80 then x0 :: from_utf8_lossy r0
      else if in_range x0 0xC2 0xDF then
        match r0 with
        | b1 :: r1 =>
            let x1 := byte.unsigned b1 in
            if is_cont x1 then Z.land x0 0x1F * 64 + Z.land x1 0x3F :: from_utf8_lossy r1
            else REPLACEMENT :: from_utf8_lossy r0
        | [] => [REPLACEMENT]
        end
      else if in_range x0 0xE0 0xEF then
        match r0 with
        | b1 :: r1 =>
            let x1 := byte.unsigned b1 in
            if second_ok x0 x1 then
              match r1 with
              | b2 :: r2 =>
                  let x2 := byte.unsigned b2 in
                  if is_cont x2
                  then (Z.land x0 0x0F * 64 + Z.land x1 0x3F) * 64 + Z.land x2 0x3F :: from_utf8_lossy r2
                  else REPLACEMENT :: from_utf8_lossy r1
              | [] => [REPLACEMENT]
              end
            else REPLACEMENT :: from_utf8_lossy r0
        | [] => [REPLACEMENT]
        end
      else if in_range x0 0xF0 0xF4 then
        match r0 with
        | b1 :: r1 =>
            let x1 := byte.unsigned b1 in
            if second_ok x0 x1 then
              match r1 with
              | b2 :: r2 =>
                  let x2 := byte.unsigned b2 in
                  if is_cont x2 then
                    match r2 with
                    | b3 :: r3 =>
                        let x3 := byte.unsigned b3 in
                        if is_cont x3
                        then ((Z.land x0 0x07 * 64 + Z.land x1 0x3F) * 64 + Z.land x2 0x3F) * 64 + Z.land x3 0x3F
                               :: from_utf8_lossy r3
                        else REPLACEMENT :: from_utf8_lossy r2
                    | [] => [REPLACEMENT]
                    end
                  else REPLACEMENT :: from_utf8_lossy r1
              | [] => [REPLACEMENT]
              end
            else REPLACEMENT :: from_utf8_lossy r0
        | [] => [REPLACEMENT]
        end
      else REPLACEMENT :: from_utf8_lossy r0
  end.

(** [parts.join(sep)] *)
Fixpoint join (sep : str) (parts : list str) : str :=
  match parts with
  | [] => []
  | [p] => p
  | p :: ps => p ++ sep ++ join sep ps
  end.

Section sort.
Context {A : Type} (le : A -> A -> bool).

Fixpoint insert_after (x : A) (l : list A) : list A :=
  match l with
  | [] => [x]
  | y :: l' => if le x y then x :: l else y :: insert_after x l'
  end.

(** The stable sort of the standard library by a total preorder: elements that compare
    as equal keep their order *)
Definition sort_by (l : list A) : list A := foldr insert_after [] l.

End sort.

(** [v.dedup()] *)
Fixpoint dedup (l : list str) : list str :=
  match l with
  | x :: l' => match l' with
               | y :: _ => if bool_decide (x = y) then dedup l' else x :: dedup l'
               | [] => [x]
               end
  | [] => []
  end.

(** The order of pairs of strings *)
Definition pair_le (a b : str * str) : bool :=
  if bool_decide (a.1 = b.1) then str_le a.2 b.2 else str_le a.1 b.1.

End StrSort.

(** * encoding.rs and canonical.rs *)
Module Canonical.
Import Str Machine StrMore Account StrSort.

Definition PERCENT : Z := 37.
Definition LF : str := [10].

Definition hex_val (b : Z) : option Z :=
  if in_range b 48 57 then Some (b - 48)
  else if in_range b 97 102 then Some (b - 97 + 10)
  else if in_range b 65 70 then Some (b - 65 + 10)
  else None.

(** The loop of [percent_decode_lossy] over the bytes *)
Fixpoint percent_decode_bytes (bytes : list Z) : list Z :=
  match bytes with
  | [] => []
  | b :: r =>
      match r with
      | h :: l :: r' =>
          if b =? PERCENT then
            match hex_val h, hex_val l with
            | Some hi, Some lo => Z.lor (Z.shiftl hi 4) lo :: percent_decode_bytes r'
            | _, _ => b :: percent_decode_bytes r
            end
          else b :: percent_decode_bytes r
      | _ => b :: percent_decode_bytes r
      end
  end.

Definition percent_decode_lossy (s : str) : str :=
  if bool_decide (PERCENT ∉ bytes s) then s
  else from_utf8_lossy (byte.of_Z <$> percent_decode_bytes (bytes s)).

Definition HEX_UPPER : list Z := lit "0123456789ABCDEF".

(** The indices are below sixteen. *)
Definition percent_encoded (b : Z) : str :=
  [PERCENT; nth (Z.to_nat (Z.shiftr b 4)) HEX_UPPER 0; nth (Z.to_nat (Z.land b 0x0f)) HEX_UPPER 0].

Definition is_unreserved (b : Z) : bool :=
  in_range b 65 90 || in_range b 97 122 || in_range b 48 57 || (b =? 45) || (b =? 95) || (b =? 46) || (b =? 126).

(** The arm of both encoders for a byte on its own *)
Definition encode_byte (b : Z) : str := if is_unreserved b then [b] else percent_encoded b.

Definition uri_encode (value : str) : str := bytes value ≫= encode_byte.

Definition is_some {A} (o : option A) : bool := match o with Some _ => true | None => false end.

(** The loop of [uri_encode_path] over the bytes *)
Fixpoint encode_path_bytes (bs : list Z) : str :=
  match bs with
  | [] => []
  | b :: r =>
      if b =? 47 then 47 :: encode_path_bytes r else
      match r with
      | h :: l :: r' =>
          if (b =? PERCENT) && is_some (hex_val h) && is_some (hex_val l)
          then PERCENT :: h :: l :: encode_path_bytes r'
          else encode_byte b ++ encode_path_bytes r
      | _ => encode_byte b ++ encode_path_bytes r
      end
  end.

Definition uri_encode_path (path : str) : str := encode_path_bytes (bytes path).

Definition canonical_request (method uri query headers signed_headers body_hash : str) : str :=
  method ++ LF ++ uri_encode_path uri ++ LF ++ query ++ LF ++ headers ++ LF ++
  signed_headers ++ LF ++ body_hash.

(** [s.trim_matches(' ')] *)
Definition trim_spaces (s : str) : str := rev (trim_start_matches 32 (rev (trim_start_matches 32 s))).

(** The loop of [normalize_header_value] over the characters *)
Fixpoint collapse (prev_was_space : bool) (s : str) : str :=
  match s with
  | [] => []
  | ch :: s' =>
      if ch =? 32 then (if prev_was_space then collapse true s' else 32 :: collapse true s')
      else ch :: collapse false s'
  end.

Definition normalize_header_value (value : str) : str := collapse false (trim_spaces value).

(** The loops of [canonical_headers] over the sorted pairs: [current] is the name whose
    values are being collected *)
Fixpoint header_lines (current : str) (sorted : list (str * str)) : str :=
  match sorted with
  | [] => LF
  | (name, value) :: rest =>
      if bool_decide (name = current) then lit "," ++ normalize_header_value value ++ header_lines current rest
      else LF ++ name ++ lit ":" ++ normalize_header_value value ++ header_lines name rest
  end.

Definition canonical_headers (headers : list (str * str)) : str :=
  match sort_by (fun a b => str_le a.1 b.1) headers with
  | [] => []
  | (name, value) :: rest => name ++ lit ":" ++ normalize_header_value value ++ header_lines name rest
  end.

Definition canonical_pair (pair : str) : str * str :=
  let parts := splitn 2 61 pair in
  let key := default [] (parts !! 0%nat) in
  let val := default [] (parts !! 1%nat) in
  (uri_encode (percent_decode_lossy key), uri_encode (percent_decode_lossy val)).

Definition canonical_query_string (query : str) : str :=
  if bool_decide (query = []) then [] else
  let pairs := canonical_pair <$> filter (fun s => s <> []) (split 38 query) in
  join (lit "&") ((fun '(k, v) => k ++ lit "=" ++ v) <$> sort_by pair_le pairs).

Definition string_to_sign (timestamp scope canonical_request_hash : str) : str :=
  lit "AWS4-HMAC-SHA256" ++ LF ++ timestamp ++ LF ++ scope ++ LF ++ canonical_request_hash.

End Canonical.
