(* ===== verification/CanonicalSpec.v ===== *)
(** What the canonical form of [Canonical] keeps of a request and what it drops: the
    query as a multiset of decoded parameters, the headers as combined values by name, the
    decoded path.  [SortSpec] holds the lemmas on sorting, joining and splitting. *)

From Stdlib Require Import ZifyBool.
From stdpp Require Import strings sorting.
From S2P Require Import Prelude Machine Str Utf8 Conditional ConditionalSpec Identity Canonical.

Local Open Scope Z_scope.

Module SortSpec.
Import Str Utf8 StrMore StrSort.

(** ** The order of strings *)

Lemma str_le_refl a : str_le a a = true.
Proof. induction a as [|x a IH]; simpl; [done|]. by rewrite Z.eqb_refl. Qed.

Lemma str_le_total a b : str_le a b = true \/ str_le b a = true.
Proof.
  revert b. induction a as [|x a IH]; intros [|y b]; simpl; auto.
  destruct (Z.eqb_spec x y) as [->|]; [rewrite Z.eqb_refl; apply IH|].
  rewrite (proj2 (Z.eqb_neq y x)) by done. destruct (Z.lt_total x y) as [?|[?|?]]; [left|done|right]; lia.
Qed.

Lemma str_le_antisym a b : str_le a b = true -> str_le b a = true -> a = b.
Proof.
  revert b. induction a as [|x a IH]; intros [|y b]; simpl; try done.
  rewrite (Z.eqb_sym y x). destruct (Z.eqb_spec x y) as [->|]; [|lia]. intros Ha Hb. f_equal. by apply IH.
Qed.

Lemma str_le_trans a b c : str_le a b = true -> str_le b c = true -> str_le a c = true.
Proof.
  revert b c. induction a as [|x a IH]; intros [|y b] [|z c]; simpl; try done.
  destruct (Z.eqb_spec x y) as [->|].
  - destruct (Z.eqb_spec y z) as [->|]; [apply IH|done].
  - destruct (Z.eqb_spec y z) as [->|]; [rewrite (proj2 (Z.eqb_neq x z)) by done; done|].
    intros. destruct (Z.eqb_spec x z); lia.
Qed.

(** ** Sorting *)

Section sort.
Context {A : Type} (le : A -> A -> bool).
Hypothesis le_total : forall a b, le a b = true \/ le b a = true.
Hypothesis le_trans : forall a b c, le a b = true -> le b c = true -> le a c = true.

Lemma insert_after_perm x l : insert_after le x l ≡ₚ x :: l.
Proof. induction l as [|y l IH]; simpl; [done|]. destruct (le x y); [done|]. rewrite IH. constructor. Qed.

Lemma sort_by_perm l : sort_by le l ≡ₚ l.
Proof. induction l as [|x l IH]; simpl; [done|]. by rewrite insert_after_perm, IH. Qed.

Lemma insert_after_sorted x l : StronglySorted (fun a b => le a b = true) l -> StronglySorted (fun a b => le a b = true) (insert_after le x l).
Proof.
  induction 1 as [|y l Hl IH Hy]; simpl; [by repeat constructor|].
  destruct (le x y) eqn:Hxy.
  - constructor; [by constructor|]. constructor; [done|]. eapply list.Forall_impl; [exact Hy|]. intros z. by apply le_trans.
  - constructor; [done|]. rewrite insert_after_perm. constructor; [|done]. by destruct (le_total x y); [congruence|].
Qed.

Lemma sort_by_sorted l : StronglySorted (fun a b => le a b = true) (sort_by le l).
Proof. induction l as [|x l IH]; simpl; [constructor|]. by apply insert_after_sorted. Qed.

(** A list in which no element precedes one that is not above it is not changed. *)
Lemma sort_by_unique (Hanti : forall a b, le a b = true -> le b a = true -> a = b) l1 l2 :
  l1 ≡ₚ l2 -> sort_by le l1 = sort_by le l2.
Proof.
  intros Hp. assert (AntiSymm (=) (fun a b => le a b = true)) by (intros a b; apply Hanti).
  apply (StronglySorted_unique (fun a b => le a b = true)); [apply sort_by_sorted..|]. by rewrite !sort_by_perm.
Qed.

(** Elements that a property of the key selects keep their order. *)
Lemma sort_by_filter (P : A -> Prop) `{!forall a, Decision (P a)} l :
  (forall a b, P a -> P b -> le a b = true) -> filter P (sort_by le l) = filter P l.
Proof.
  intros HP. assert (forall x l, P x -> filter P (insert_after le x l) = x :: filter P l) as Hin.
  { intros x l0 Hx. induction l0 as [|y l0 IH]; simpl; [by rewrite filter_cons_True|].
    destruct (le x y) eqn:Hxy; [by rewrite filter_cons_True|]. destruct (decide (P y)) as [Hy|Hy].
    - rewrite (HP x y) in Hxy by done. done.
    - by rewrite !(filter_cons_False P y) by done. }
  assert (forall x l, ~ P x -> filter P (insert_after le x l) = filter P l) as Hout.
  { intros x l0 Hx. induction l0 as [|y l0 IH]; simpl; [by rewrite filter_cons_False|].
    destruct (le x y); [by rewrite filter_cons_False|]. rewrite !filter_cons. by rewrite IH. }
  induction l as [|x l IH]; simpl; [done|]. destruct (decide (P x)).
  - by rewrite Hin, IH, filter_cons_True by done.
  - by rewrite Hout, IH, filter_cons_False by done.
Qed.

End sort.

Lemma filter_all {A} (P : A -> Prop) `{!forall a, Decision (P a)} l : Forall P l -> filter P l = l.
Proof. induction 1 as [|x l Hx _ IH]; [done|]. by rewrite filter_cons_True, IH. Qed.

Lemma pair_le_total a b : pair_le a b = true \/ pair_le b a = true.
Proof.
  destruct a as [a a'], b as [b b']. unfold pair_le. simpl. destruct (decide (a = b)) as [->|Hne].
  - rewrite !bool_decide_eq_true_2 by done. apply str_le_total.
  - rewrite !bool_decide_eq_false_2 by congruence. apply str_le_total.
Qed.

Lemma pair_le_trans a b c : pair_le a b = true -> pair_le b c = true -> pair_le a c = true.
Proof.
  destruct a as [a a'], b as [b b'], c as [c c']. unfold pair_le. simpl.
  repeat case_bool_decide; subst; try done; eauto using str_le_trans.
  intros Hab Hbc. pose proof (str_le_antisym _ _ Hab Hbc). by subst.
Qed.

Lemma pair_le_antisym a b : pair_le a b = true -> pair_le b a = true -> a = b.
Proof.
  destruct a as [a a'], b as [b b']. unfold pair_le. simpl. destruct (decide (a = b)) as [->|Hne].
  - rewrite !bool_decide_eq_true_2 by done. intros. f_equal. by apply str_le_antisym.
  - rewrite !bool_decide_eq_false_2 by congruence. intros. by destruct Hne; apply str_le_antisym.
Qed.

Lemma sort_pairs_unique l1 l2 : l1 ≡ₚ l2 -> sort_by pair_le l1 = sort_by pair_le l2.
Proof. apply sort_by_unique; [apply pair_le_total|apply pair_le_trans|apply pair_le_antisym]. Qed.

(** ** Joining *)

Definition free (c : Z) (s : str) : Prop := Forall (fun x => x <> c) s.

Lemma join_cons sep p ps : ps <> [] -> join sep (p :: ps) = p ++ sep ++ join sep ps.
Proof. by destruct ps. Qed.

Lemma join_snoc sep ps p : ps <> [] -> join sep (ps ++ [p]) = join sep ps ++ sep ++ p.
Proof.
  induction ps as [|q ps IH]; [done|]. intros _. destruct ps as [|q' ps]; [done|].
  rewrite <-app_comm_cons, !join_cons by (by destruct ps). rewrite IH by done. by rewrite <-!app_assoc.
Qed.

Lemma split_joined c ps : ps <> [] -> Forall (free c) ps -> split c (join [c] ps) = ps.
Proof.
  intros Hne Hf. induction Hf as [|p ps Hp Hps IH]; [done|]. destruct ps as [|p' ps].
  - by apply ConditionalSpec.split_none.
  - rewrite join_cons by done. change ([c] ++ join [c] (p' :: ps)) with (c :: join [c] (p' :: ps)).
    rewrite ConditionalSpec.split_app by done. by rewrite IH.
Qed.

Lemma join_split c s : join [c] (split c s) = s.
Proof.
  induction s as [|x s IH]; [done|]. cbn [split]. destruct (ConditionalSpec.split_cons_ne c s) as (p & ps & Hs). rewrite Hs in *.
  destruct (Z.eqb_spec x c) as [->|Hx]; [rewrite join_cons by done; by rewrite IH|]. rewrite <-IH. by destruct ps.
Qed.

Lemma join_inj c ps1 ps2 : Forall (free c) ps1 -> Forall (free c) ps2 ->
  Forall (fun p => p <> []) ps1 -> Forall (fun p => p <> []) ps2 -> join [c] ps1 = join [c] ps2 -> ps1 = ps2.
Proof.
  intros F1 F2 N1 N2 He. destruct (decide (ps1 = [])) as [->|Hn1], (decide (ps2 = [])) as [->|Hn2].
  - done.
  - destruct N2 as [|p ps Hp _]; [done|]. simpl in He. destruct ps; [done|]. by destruct p.
  - destruct N1 as [|p ps Hp _]; [done|]. simpl in He. destruct ps; [done|]. by destruct p.
  - rewrite <-(split_joined c ps1), <-(split_joined c ps2) by done. by rewrite He.
Qed.

Lemma free_join c sep ps : free c sep -> Forall (free c) ps -> free c (join sep ps).
Proof.
  intros Hs. induction 1 as [|p ps Hp _ IH]; [constructor|]. destruct ps as [|p' ps]; [done|].
  rewrite join_cons by done. unfold free in *. rewrite !list.Forall_app. done.
Qed.

(** Each part of a split is free of the separator, and its characters come from the text. *)
Lemma split_parts c (P : Z -> Prop) s : Forall P s -> Forall (fun p => free c p /\ Forall P p) (split c s).
Proof.
  induction 1 as [|x s Hx _ IH]; simpl; [by repeat constructor|]. destruct (Z.eqb_spec x c).
  - constructor; [by repeat constructor|done].
  - destruct (split c s) as [|p ps]; [by repeat constructor|]. inversion IH as [|?? [Hf Hp] Hps]; subst.
    constructor; [|done]. split; by constructor.
Qed.

End SortSpec.

Module CanonicalSpec.
Import Str Utf8 Machine StrMore StrSort SortSpec Account Canonical.

(** ** Percent-encoding *)

Definition is_byte (b : Z) : Prop := 0 <= b < 256.

Lemma str_bytes_range s : Forall is_byte (bytes s).
Proof. unfold bytes. apply list.Forall_fmap, list.Forall_true. intros b. apply byte.unsigned_range. Qed.

Lemma of_Z_bytes s : byte.of_Z <$> bytes s = as_bytes s.
Proof.
  unfold bytes. rewrite <-list_fmap_compose. rewrite <-(list_fmap_id (as_bytes s)) at 2. apply list_fmap_ext.
  intros i b _. apply byte.of_Z_unsigned.
Qed.

Lemma bytes_inj s1 s2 : Forall scalar s1 -> Forall scalar s2 -> bytes s1 = bytes s2 -> s1 = s2.
Proof. intros H1 H2 He. apply as_bytes_inj; [done..|]. by rewrite <-!of_Z_bytes, He. Qed.

(** The characters an encoded byte is made of *)
Definition encoded_char (c : Z) : bool := is_unreserved c || (c =? PERCENT).

Definition byte_ok (b : Z) : bool :=
  forallb encoded_char (encode_byte b) &&
  (is_unreserved b ||
   match encode_byte b with
   | [p; h; l] =>
       match hex_val h, hex_val l with
       | Some hi, Some lo => (p =? PERCENT) && (Z.lor (Z.shiftl hi 4) lo =? b)
       | _, _ => false
       end
   | _ => false
   end).

Lemma all_bytes_ok : forallb byte_ok (Z.of_nat <$> seq 0 256) = true.
Proof. by vm_compute. Qed.

Lemma byte_is_ok b : is_byte b -> byte_ok b = true.
Proof.
  intros Hb. assert (Forall (fun b => byte_ok b = true) (Z.of_nat <$> seq 0 256)) as Hall.
  { apply list.Forall_forall. intros x Hx. pose proof all_bytes_ok as Ha. rewrite forallb_forall in Ha.
    apply Ha. by apply list_elem_of_In. }
  rewrite list.Forall_forall in Hall. apply Hall. apply list_elem_of_fmap. exists (Z.to_nat b).
  unfold is_byte in Hb. split; [lia|]. apply elem_of_seq. lia.
Qed.

Lemma encode_byte_chars b : is_byte b -> Forall (fun c => encoded_char c = true) (encode_byte b).
Proof.
  intros Hb%byte_is_ok. unfold byte_ok in Hb. apply andb_prop in Hb as [Hb _].
  rewrite forallb_forall in Hb. apply list.Forall_forall. intros x Hx%list_elem_of_In. by apply Hb.
Qed.

Lemma decode_plain b r : b <> PERCENT -> percent_decode_bytes (b :: r) = b :: percent_decode_bytes r.
Proof. intros Hb. destruct r as [|h [|l r]]; cbn [percent_decode_bytes]; [done..|]. by rewrite (proj2 (Z.eqb_neq _ _)). Qed.

Lemma decode_encoded b r : is_byte b -> percent_decode_bytes (encode_byte b ++ r) = b :: percent_decode_bytes r.
Proof.
  intros Hb%byte_is_ok. unfold byte_ok in Hb. apply andb_prop in Hb as [_ Hb]. apply orb_prop in Hb as [Hu|Hb].
  - unfold encode_byte. rewrite Hu. apply decode_plain. intros ->. by vm_compute in Hu.
  - destruct (encode_byte b) as [|p [|h [|l [|? ?]]]]; try done. cbn [app percent_decode_bytes].
    destruct (hex_val h) as [hi|], (hex_val l) as [lo|]; try done. apply andb_prop in Hb as [Hp Hv].
    rewrite Hp. f_equal. lia.
Qed.

Lemma decode_encode bs : Forall is_byte bs -> percent_decode_bytes (bs ≫= encode_byte) = bs.
Proof. induction 1 as [|b bs Hb _ IH]; [done|]. by rewrite bind_cons, decode_encoded, IH. Qed.

Lemma encoded_ascii c : encoded_char c = true -> ascii c.
Proof. unfold encoded_char, is_unreserved, in_range, PERCENT, ascii. lia. Qed.

Lemma uri_encode_chars s : Forall (fun c => encoded_char c = true) (uri_encode s).
Proof.
  unfold uri_encode. pose proof (str_bytes_range s) as Hr. induction Hr as [|b bs Hb _ IH]; [constructor|].
  rewrite bind_cons. apply list.Forall_app. split; [by apply encode_byte_chars|done].
Qed.

Lemma bytes_encoded s : Forall (fun c => encoded_char c = true) s -> bytes s = s.
Proof. intros Hs. apply bytes_ascii. eapply list.Forall_impl; [exact Hs|]. apply encoded_ascii. Qed.

Lemma uri_encode_decodes s : percent_decode_bytes (uri_encode s) = bytes s.
Proof. apply decode_encode, str_bytes_range. Qed.

Lemma uri_encode_inj s1 s2 : Forall scalar s1 -> Forall scalar s2 -> uri_encode s1 = uri_encode s2 -> s1 = s2.
Proof. intros H1 H2 He. apply bytes_inj; [done..|]. by rewrite <-!uri_encode_decodes, He. Qed.

Lemma encoded_free c s : encoded_char c = false -> Forall (fun c => encoded_char c = true) s -> free c s.
Proof. intros Hc Hs. eapply list.Forall_impl; [exact Hs|]. intros x Hx ->. congruence. Qed.

(** ** Lossy decoding *)

Lemma lossy_cons b r : exists c r', from_utf8_lossy (b :: r) = c :: from_utf8_lossy r' /\ scalar c /\ (length r' <= length r)%nat.
Proof.
  assert (scalar REPLACEMENT) as Hrep by (unfold scalar, REPLACEMENT; lia).
  cbn [from_utf8_lossy]. pose proof (byte.unsigned_range b) as R0.
  destruct (Z.ltb_spec (byte.unsigned b) 0x80); [eexists _, r; split; [done|]; split; [unfold scalar; lia|done]|].
  destruct (in_range (byte.unsigned b) 0xC2 0xDF) eqn:H2.
  { destruct r as [|b1 r1]; [by exists REPLACEMENT, []|]. pose proof (byte.unsigned_range b1) as R1.
    destruct (is_cont (byte.unsigned b1)) eqn:C1; [|by exists REPLACEMENT, (b1 :: r1)].
    eexists _, r1. split; [done|]. split; [unfold scalar; utf8_arith|simpl; lia]. }
  destruct (in_range (byte.unsigned b) 0xE0 0xEF) eqn:H3.
  { destruct r as [|b1 r1]; [by exists REPLACEMENT, []|]. pose proof (byte.unsigned_range b1) as R1.
    destruct (second_ok _ _) eqn:C1; [|by exists REPLACEMENT, (b1 :: r1)]. apply second_ok_spec in C1.
    destruct r1 as [|b2 r2]; [exists REPLACEMENT, []; split; [done|]; split; [done|simpl; lia]|].
    pose proof (byte.unsigned_range b2) as R2.
    destruct (is_cont (byte.unsigned b2)) eqn:C2; [|exists REPLACEMENT, (b2 :: r2); split; [done|]; split; [done|simpl; lia]].
    eexists _, r2. split; [done|]. split; [unfold scalar; utf8_arith|simpl; lia]. }
  destruct (in_range (byte.unsigned b) 0xF0 0xF4) eqn:H4; [|by exists REPLACEMENT, r].
  destruct r as [|b1 r1]; [by exists REPLACEMENT, []|]. pose proof (byte.unsigned_range b1) as R1.
  destruct (second_ok _ _) eqn:C1; [|by exists REPLACEMENT, (b1 :: r1)]. apply second_ok_spec in C1.
  destruct r1 as [|b2 r2]; [exists REPLACEMENT, []; split; [done|]; split; [done|simpl; lia]|].
  pose proof (byte.unsigned_range b2) as R2.
  destruct (is_cont (byte.unsigned b2)) eqn:C2; [|exists REPLACEMENT, (b2 :: r2); split; [done|]; split; [done|simpl; lia]].
  destruct r2 as [|b3 r3]; [exists REPLACEMENT, []; split; [done|]; split; [done|simpl; lia]|].
  pose proof (byte.unsigned_range b3) as R3.
  destruct (is_cont (byte.unsigned b3)) eqn:C3; [|exists REPLACEMENT, (b3 :: r3); split; [done|]; split; [done|simpl; lia]].
  eexists _, r3. split; [done|]. split; [unfold scalar; utf8_arith|simpl; lia].
Qed.

Lemma lossy_scalar bs : Forall scalar (from_utf8_lossy bs).
Proof.
  induction bs as [bs IH] using (induction_ltof1 _ length). unfold ltof in IH. destruct bs as [|b r]; [constructor|].
  destruct (lossy_cons b r) as (c & r' & -> & Hc & Hl). constructor; [done|]. apply IH. simpl. lia.
Qed.

(** Nothing is lost of valid text. *)
Lemma lossy_valid bs : forall s, from_utf8 bs = Some s -> from_utf8_lossy bs = s.
Proof.
  induction bs as [bs IH] using (induction_ltof1 _ length). unfold ltof in IH. intros s.
  destruct bs as [|b r]; [by intros [= <-]|]. cbn [from_utf8 from_utf8_lossy].
  destruct (byte.unsigned b <? 0x80); [intros (s' & Hs & ->)%fmap_Some; f_equal; apply IH; [simpl; lia|done]|].
  destruct r as [|b1 r1]; [done|]. destruct (in_range _ 0xC2 0xDF).
  { destruct (is_cont _); [|done]. intros (s' & Hs & ->)%fmap_Some. f_equal. apply IH; [simpl; lia|done]. }
  destruct r1 as [|b2 r2]; [done|]. destruct (in_range _ 0xE0 0xEF).
  { destruct (second_ok _ _); [|done]. cbn [andb]. destruct (is_cont _); [|done]. intros (s' & Hs & ->)%fmap_Some.
    f_equal. apply IH; [simpl; lia|done]. }
  destruct r2 as [|b3 r3]; [done|]. destruct (in_range _ 0xF0 0xF4); [|done]. destruct (second_ok _ _); [|done]. cbn [andb].
  destruct (is_cont (byte.unsigned b2)); [|done]. destruct (is_cont (byte.unsigned b3)); [|done].
  intros (s' & Hs & ->)%fmap_Some. f_equal. apply IH; [simpl; lia|done].
Qed.

Lemma lossy_as_bytes s : Forall scalar s -> from_utf8_lossy (as_bytes s) = s.
Proof. intros Hs. apply lossy_valid. by apply from_utf8_as_bytes. Qed.

Lemma percent_decode_scalar s : Forall scalar s -> Forall scalar (percent_decode_lossy s).
Proof. intros Hs. unfold percent_decode_lossy. case_bool_decide; [done|]. apply lossy_scalar. Qed.

Lemma decode_no_percent bs : PERCENT ∉ bs -> percent_decode_bytes bs = bs.
Proof.
  induction bs as [|b bs IH]; [done|]. rewrite not_elem_of_cons. intros [Hb Hbs]. rewrite decode_plain by congruence.
  by rewrite IH.
Qed.

(** Decoding inverts the encoder of single values. *)
Lemma percent_decode_encode s : Forall scalar s -> percent_decode_lossy (uri_encode s) = s.
Proof.
  intros Hs. unfold percent_decode_lossy. rewrite bytes_encoded, uri_encode_decodes by apply uri_encode_chars.
  case_bool_decide as Hp.
  - apply bytes_inj; [|done|].
    + eapply list.Forall_impl; [apply uri_encode_chars|]. intros c Hc%encoded_ascii. unfold ascii in Hc. unfold scalar. lia.
    + rewrite bytes_encoded by apply uri_encode_chars. by rewrite <-uri_encode_decodes, decode_no_percent.
  - rewrite of_Z_bytes. by apply lossy_as_bytes.
Qed.

(** ** The canonical path *)

(** The two ways the encoder goes on behind a byte *)
Lemma encode_path_cases b r :
  (exists h l r', b = PERCENT /\ r = h :: l :: r' /\ is_some (hex_val h) = true /\ is_some (hex_val l) = true /\
     encode_path_bytes (b :: r) = PERCENT :: h :: l :: encode_path_bytes r' /\
     percent_decode_bytes (b :: r) = default 0 (hi ← hex_val h; lo ← hex_val l; Some (Z.lor (Z.shiftl hi 4) lo))
                                       :: percent_decode_bytes r') \/
  (encode_path_bytes (b :: r) = (if b =? 47 then [47] else encode_byte b) ++ encode_path_bytes r /\
   percent_decode_bytes (b :: r) = b :: percent_decode_bytes r).
Proof.
  change (encode_path_bytes (b :: r)) with
    (if b =? 47 then 47 :: encode_path_bytes r else
     match r with
     | h :: l :: r' =>
         if (b =? PERCENT) && is_some (hex_val h) && is_some (hex_val l)
         then PERCENT :: h :: l :: encode_path_bytes r'
         else encode_byte b ++ encode_path_bytes r
     | _ => encode_byte b ++ encode_path_bytes r
     end).
  destruct (Z.eqb_spec b 47) as [->|Hslash]; [right; by rewrite decode_plain|].
  destruct (Z.eqb_spec b PERCENT) as [->|Hp].
  2: { right. rewrite decode_plain by done. by destruct r as [|h [|l r']]. }
  destruct r as [|h [|l r']]; [by right..|]. cbn [andb].
  change (percent_decode_bytes (PERCENT :: h :: l :: r')) with
    (match hex_val h, hex_val l with
     | Some hi, Some lo => Z.lor (Z.shiftl hi 4) lo :: percent_decode_bytes r'
     | _, _ => PERCENT :: percent_decode_bytes (h :: l :: r')
     end).
  destruct (hex_val h) as [hi|] eqn:Hh, (hex_val l) as [lo|] eqn:Hl; cbn [is_some andb]; [left|by right..].
  exists h, l, r'. by rewrite Hh, Hl.
Qed.

Lemma encode_path_decodes bs : Forall is_byte bs -> percent_decode_bytes (encode_path_bytes bs) = percent_decode_bytes bs.
Proof.
  induction bs as [bs IH] using (induction_ltof1 _ length). unfold ltof in IH. destruct bs as [|b r]; [done|].
  intros [Hb Hr]%list.Forall_cons. destruct (encode_path_cases b r) as [(h & l & r' & -> & -> & Hh & Hl & -> & ->)|[-> ->]].
  - cbn [percent_decode_bytes]. rewrite (Z.eqb_refl PERCENT). destruct (hex_val h), (hex_val l); try done. cbn. f_equal.
    rewrite !list.Forall_cons in Hr. apply IH; [simpl; lia|apply Hr].
  - destruct (Z.eqb_spec b 47) as [->|_]; [cbn [app]; rewrite decode_plain by done|rewrite decode_encoded by done];
      f_equal; apply IH; simpl; [lia|done|lia|done].
Qed.

(** The canonical path is one line. *)
Lemma uri_encode_path_chars p : free 10 (uri_encode_path p).
Proof.
  unfold uri_encode_path. pose proof (str_bytes_range p) as Hr. revert Hr. generalize (bytes p). clear p. intros bs.
  assert (forall b, is_some (hex_val b) = true -> b <> 10) as Hhex by (intros b Hb ->; done).
  induction bs as [bs IH] using (induction_ltof1 _ length). unfold ltof in IH. destruct bs as [|b r]; [constructor|].
  intros [Hb Hr]%list.Forall_cons. destruct (encode_path_cases b r) as [(h & l & r' & -> & -> & Hh & Hl & -> & _)|[-> _]].
  - rewrite !list.Forall_cons in Hr. repeat (apply list.Forall_cons; split; [by (done || apply Hhex)|]).
    apply IH; [simpl; lia|apply Hr].
  - apply list.Forall_app. split; [|apply IH; [simpl; lia|done]].
    destruct (b =? 47); [by repeat constructor|]. by apply encoded_free, encode_byte_chars.
Qed.

(** The canonical path keeps exactly the text that the path decodes to. *)
Definition decoded_path (p : str) : list Z := percent_decode_bytes (bytes p).

Lemma uri_encode_path_exact p1 p2 : uri_encode_path p1 = uri_encode_path p2 -> decoded_path p1 = decoded_path p2.
Proof. intros He. unfold decoded_path. rewrite <-!(encode_path_decodes (bytes _)) by apply str_bytes_range. by unfold uri_encode_path in He; rewrite He. Qed.

(** ** The canonical query *)

Definition query_parameter (pair : str) : str * str :=
  let parts := splitn 2 61 pair in
  (percent_decode_lossy (default [] (parts !! 0%nat)), percent_decode_lossy (default [] (parts !! 1%nat))).

(** The parameters of a query: the decoded names and values of its parts that are not empty *)
Definition query_parameters (query : str) : list (str * str) :=
  query_parameter <$> filter (fun s => s <> []) (split 38 query).

Definition encode_pair (p : str * str) : str * str := (uri_encode p.1, uri_encode p.2).
Definition decode_pair (p : str * str) : str * str := (percent_decode_lossy p.1, percent_decode_lossy p.2).
Definition pair_text (p : str * str) : str := p.1 ++ lit "=" ++ p.2.

Definition pair_scalar (p : str * str) : Prop := Forall scalar p.1 /\ Forall scalar p.2.
Definition pair_encoded (p : str * str) : Prop :=
  Forall (fun c => encoded_char c = true) p.1 /\ Forall (fun c => encoded_char c = true) p.2.

Lemma canonical_query_unfold query : canonical_query_string query =
  join (lit "&") (pair_text <$> sort_by pair_le (encode_pair <$> query_parameters query)).
Proof.
  unfold canonical_query_string. case_bool_decide as Hq; [by rewrite Hq|]. unfold query_parameters.
  rewrite <-(list_fmap_compose query_parameter encode_pair). f_equal. apply list_fmap_ext. by intros i [k v] _.
Qed.

Lemma splitn_parts P n c s : Forall P s -> Forall (Forall P) (splitn n c s).
Proof.
  revert s. induction n as [|n IH]; intros s Hs; [constructor|]. cbn [splitn]. destruct n as [|n']; [by repeat constructor|].
  destruct (split_once c s) as [[a b]|] eqn:Hab; [|by repeat constructor].
  apply split_once_Some in Hab as [-> _]. apply list.Forall_app in Hs as [Ha Hb]. apply list.Forall_cons in Hb as [_ Hb].
  constructor; [done|]. by apply IH.
Qed.

Lemma default_part (P : Z -> Prop) parts i : Forall (Forall P) parts -> Forall P (default [] (parts !! i)).
Proof. intros Hp. destruct (parts !! i) as [p|] eqn:Hi; simpl; [|constructor]. by eapply list.Forall_lookup_1. Qed.

Lemma query_parameters_scalar query : Forall scalar query -> Forall pair_scalar (query_parameters query).
Proof.
  intros Hq. unfold query_parameters. apply list.Forall_fmap. apply list.Forall_forall. intros p [_ Hp]%list_elem_of_filter.
  apply (split_parts 38) in Hq. rewrite list.Forall_forall in Hq. destruct (Hq p Hp) as [_ Hs].
  split; apply percent_decode_scalar, default_part, splitn_parts, Hs.
Qed.

Lemma encode_pair_encoded p : pair_encoded (encode_pair p).
Proof. split; apply uri_encode_chars. Qed.

Lemma sorted_pairs_encoded ps : Forall pair_encoded (sort_by pair_le (encode_pair <$> ps)).
Proof. rewrite sort_by_perm. apply list.Forall_fmap, list.Forall_true. intros p. apply encode_pair_encoded. Qed.

Lemma pair_text_parts p : pair_encoded p -> free 38 (pair_text p) /\ pair_text p <> [] /\ free 10 (pair_text p).
Proof.
  intros [H1 H2]. assert (forall c, encoded_char c = false -> c <> 61 -> free c (pair_text p)) as Hf.
  { intros c Hc Hne. unfold pair_text. apply list.Forall_app. split; [by apply encoded_free|].
    apply list.Forall_app. split; [by repeat constructor; cbv; congruence|by apply encoded_free]. }
  split; [by apply Hf|]. split; [|by apply Hf]. unfold pair_text. by destruct (p.1).
Qed.

Lemma pair_text_inj p1 p2 : pair_encoded p1 -> pair_encoded p2 -> pair_text p1 = pair_text p2 -> p1 = p2.
Proof.
  intros [H1 _] [H2 _] He. destruct p1 as [k1 v1], p2 as [k2 v2]. unfold pair_text in He. cbn in H1, H2, He.
  assert (split_once 61 (k1 ++ 61 :: v1) = Some (k1, v1)) as E1 by (apply split_once_app; by apply encoded_free).
  assert (split_once 61 (k2 ++ 61 :: v2) = Some (k2, v2)) as E2 by (apply split_once_app; by apply encoded_free).
  change (lit "=" ++ v1) with (61 :: v1) in He. change (lit "=" ++ v2) with (61 :: v2) in He. congruence.
Qed.

Lemma pair_texts_inj l1 l2 : Forall pair_encoded l1 -> Forall pair_encoded l2 -> pair_text <$> l1 = pair_text <$> l2 -> l1 = l2.
Proof.
  intros H1. revert l2. induction H1 as [|p1 l1 Hp1 _ IH]; intros [|p2 l2]; try done.
  intros [Hp2 H2]%list.Forall_cons. rewrite !fmap_cons. intros [= He Hl]. f_equal; [by apply pair_text_inj|by apply IH].
Qed.

Lemma pair_texts_ok ps : let texts := pair_text <$> sort_by pair_le (encode_pair <$> ps) in
  Forall (free 38) texts /\ Forall (fun t => t <> []) texts /\ Forall (free 10) texts.
Proof.
  cbv zeta. pose proof (sorted_pairs_encoded ps) as Hs. rewrite !list.Forall_fmap.
  repeat split; (eapply list.Forall_impl; [exact Hs|]; intros p Hp; apply (pair_text_parts p Hp)).
Qed.

Lemma decode_pairs ps : Forall pair_scalar ps -> decode_pair <$> (encode_pair <$> ps) = ps.
Proof.
  induction 1 as [|[k v] ps [Hk Hv] _ IH]; [done|]. rewrite !fmap_cons, IH. f_equal.
  unfold decode_pair, encode_pair. cbn [fst snd] in *. by rewrite !percent_decode_encode.
Qed.

(** The canonical text of a query and its parameters determine each other. *)
Lemma canonical_query_exact q1 q2 : Forall scalar q1 -> Forall scalar q2 ->
  canonical_query_string q1 = canonical_query_string q2 <-> query_parameters q1 ≡ₚ query_parameters q2.
Proof.
  intros Hq1%query_parameters_scalar Hq2%query_parameters_scalar. rewrite !canonical_query_unfold. split.
  - intros He. apply (join_inj 38) in He; [|apply pair_texts_ok..]. apply pair_texts_inj in He; [|apply sorted_pairs_encoded..].
    rewrite <-(decode_pairs (query_parameters q1)), <-(decode_pairs (query_parameters q2)) by done.
    apply fmap_Permutation. rewrite <-(sort_by_perm pair_le (encode_pair <$> query_parameters q1)).
    rewrite <-(sort_by_perm pair_le (encode_pair <$> query_parameters q2)). by rewrite He.
  - intros Hp. do 2 f_equal. apply sort_pairs_unique. by apply fmap_Permutation.
Qed.

Lemma canonical_query_line q : free 10 (canonical_query_string q).
Proof. rewrite canonical_query_unfold. apply free_join; [by repeat constructor; cbv; congruence|apply pair_texts_ok]. Qed.

(** The parameters of the canonical text are those of the query. *)
Lemma query_parameter_text p : pair_scalar p -> query_parameter (pair_text (encode_pair p)) = p.
Proof.
  intros [H1 H2]. destruct p as [k v]. unfold query_parameter, pair_text, encode_pair. cbn [fst snd] in *.
  change (lit "=" ++ uri_encode v) with (61 :: uri_encode v). cbn [splitn].
  rewrite split_once_app by (apply encoded_free, uri_encode_chars; done).
  change ((percent_decode_lossy (uri_encode k), percent_decode_lossy (uri_encode v)) = (k, v)). by rewrite !percent_decode_encode.
Qed.

Lemma canonical_query_parameters q : Forall scalar q -> query_parameters (canonical_query_string q) ≡ₚ query_parameters q.
Proof.
  intros Hq%query_parameters_scalar. rewrite canonical_query_unfold.
  destruct (pair_texts_ok (query_parameters q)) as (Hf & Hn & _). revert Hq Hf Hn. generalize (query_parameters q). clear q.
  intros ps Hps Hf Hn. assert (forall l, l ≡ₚ encode_pair <$> ps -> query_parameter <$> (pair_text <$> l) ≡ₚ ps) as Hl.
  { intros l ->. rewrite <-!list_fmap_compose. rewrite <-(list_fmap_id ps) at 2. apply reflexive_eq, list_fmap_ext.
    intros i p Hp. simpl. apply query_parameter_text. by eapply list.Forall_lookup_1. }
  unfold query_parameters. destruct (decide (pair_text <$> sort_by pair_le (encode_pair <$> ps) = [])) as [He|Hne].
  - rewrite He. change (query_parameter <$> [] ≡ₚ ps). rewrite <-He. apply Hl, sort_by_perm.
  - change (lit "&") with [38]. rewrite split_joined by done. rewrite filter_all by done.
    apply Hl, sort_by_perm.
Qed.

Lemma canonical_query_scalar q : Forall scalar (canonical_query_string q).
Proof.
  rewrite canonical_query_unfold. assert (Forall (Forall scalar) (pair_text <$> sort_by pair_le (encode_pair <$> query_parameters q))) as Ht.
  { apply list.Forall_fmap. eapply list.Forall_impl; [apply sorted_pairs_encoded|]. intros [k v] [Hk Hv]. unfold compose, pair_text.
    assert (forall s, Forall (fun c => encoded_char c = true) s -> Forall scalar s) as Henc.
    { intros s Hs. eapply list.Forall_impl; [exact Hs|]. intros c Hc%encoded_ascii. unfold ascii in Hc. unfold scalar. lia. }
    apply list.Forall_app_2; [by apply Henc|]. apply list.Forall_app_2; [|by apply Henc].
    apply list.Forall_singleton. unfold scalar. cbv. intuition congruence. }
  induction Ht as [|t ts Ht _ IH]; [constructor|]. destruct ts as [|t' ts]; [done|]. rewrite join_cons by done.
  apply list.Forall_app_2; [done|]. apply list.Forall_app_2; [|done]. apply list.Forall_singleton. unfold scalar. cbv. intuition congruence.
Qed.

Lemma ascii_scalar s : forallb (fun c => in_range c 0 127) s = true -> Forall scalar s.
Proof.
  rewrite forallb_forall. intros Hs. apply list.Forall_forall. intros c Hc%list_elem_of_In%Hs. unfold in_range in Hc. unfold scalar. lia.
Qed.

(** C37: The canonical query.  Two queries have the same canonical text exactly when they have
    the same parameters, decoded, each as often: only the order and the spelling of a
    query are dropped.  Empty parts do not count, and a parameter without
    an equals sign has the empty value.  The canonical text has the same parameters and is
    its own canonical text. *)
Theorem canonical_query q1 q2 : Forall scalar q1 -> Forall scalar q2 ->
  (canonical_query_string q1 = canonical_query_string q2 <-> query_parameters q1 ≡ₚ query_parameters q2) /\
  query_parameters (canonical_query_string q1) ≡ₚ query_parameters q1 /\
  canonical_query_string (canonical_query_string q1) = canonical_query_string q1.
Proof.
  intros H1 H2. split; [by apply canonical_query_exact|]. split; [by apply canonical_query_parameters|].
  apply canonical_query_exact; [apply canonical_query_scalar|done|by apply canonical_query_parameters].
Qed.

Lemma canonical_query_witness :
  canonical_query_string (lit "b=2&a&x%2fy=%C3%28") = canonical_query_string (lit "&x/y=%EF%BF%BD(&b=%32&a=") /\
  query_parameters (lit "b=2&a&x%2fy=%C3%28") ≡ₚ query_parameters (lit "&x/y=%EF%BF%BD(&b=%32&a=").
Proof.
  assert (canonical_query_string (lit "b=2&a&x%2fy=%C3%28") = canonical_query_string (lit "&x/y=%EF%BF%BD(&b=%32&a=")) as He
    by (vm_compute; reflexivity).
  split; [exact He|]. apply (canonical_query (lit "b=2&a&x%2fy=%C3%28") (lit "&x/y=%EF%BF%BD(&b=%32&a="));
    [apply ascii_scalar; vm_compute; reflexivity..|exact He].
Defined.

(** ** The canonical headers *)

Definition values (headers : list (str * str)) (n : str) : list str := snd <$> filter (fun p => p.1 = n) headers.

(** What a header stands for: its values in their order, normalised and joined *)
Definition combined (headers : list (str * str)) (n : str) : option str :=
  match values headers n with
  | [] => None
  | vs => Some (join (lit ",") (normalize_header_value <$> vs))
  end.

(** The values of a sorted list by name, behind a name that is being collected *)
Fixpoint group (n : str) (vs : list str) (rest : list (str * str)) : list (str * list str) :=
  match rest with
  | [] => [(n, vs)]
  | (m, v) :: r => if bool_decide (m = n) then group n (vs ++ [v]) r else (n, vs) :: group m [v] r
  end.

Definition groups (headers : list (str * str)) : list (str * list str) :=
  match sort_by (fun a b => str_le a.1 b.1) headers with
  | [] => []
  | (n, v) :: rest => group n [v] rest
  end.

Definition entry (g : str * list str) : str * str := (g.1, join (lit ",") (normalize_header_value <$> g.2)).
Definition header_map (headers : list (str * str)) : list (str * str) := entry <$> groups headers.
Definition header_line (p : str * str) : str := p.1 ++ lit ":" ++ p.2.

Lemma header_lines_group rest : forall n vs, vs <> [] ->
  header_line (entry (n, vs)) ++ header_lines n rest = (header_line <$> (entry <$> group n vs rest)) ≫= (fun l => l ++ LF).
Proof.
  induction rest as [|[m v] r IH]; intros n vs Hvs; cbn [header_lines group].
  - rewrite !fmap_cons, bind_cons. by rewrite app_nil_r.
  - case_bool_decide as Hm.
    + rewrite <-IH by (by destruct vs). unfold header_line, entry. cbn [fst snd].
      assert (join (lit ",") (normalize_header_value <$> (vs ++ [v])) =
        join (lit ",") (normalize_header_value <$> vs) ++ lit "," ++ normalize_header_value v) as ->.
      { rewrite fmap_app. apply join_snoc. intros Hn. by apply Hvs, (fmap_nil_inv normalize_header_value). }
      by rewrite <-!app_assoc.
    + rewrite !fmap_cons, bind_cons, <-IH by done. rewrite <-!app_assoc. f_equal.
      unfold header_line at 1, entry at 1. cbn [fst snd]. by rewrite <-!app_assoc.
Qed.

Lemma canonical_headers_lines headers :
  canonical_headers headers = (header_line <$> header_map headers) ≫= (fun l => l ++ LF).
Proof.
  unfold canonical_headers, header_map, groups. destruct (sort_by _ headers) as [|[n v] rest]; [done|].
  rewrite <-header_lines_group by done. unfold header_line, entry. cbn. by rewrite <-!app_assoc.
Qed.

Definition before {A} (a b : str * A) : Prop := str_le a.1 b.1 = true /\ a.1 <> b.1.

Lemma values_cons m v r n : values ((m, v) :: r) n = if decide (m = n) then v :: values r n else values r n.
Proof.
  unfold values. destruct (decide (m = n)); [by rewrite filter_cons_True|by rewrite filter_cons_False].
Qed.

Lemma values_none r n : Forall (fun p => p.1 <> n) r -> values r n = [].
Proof. induction 1 as [|[m v] r Hm _ IH]; [done|]. by rewrite values_cons, decide_False. Qed.

Lemma values_some r n : values r n <> [] -> exists v, (n, v) ∈ r.
Proof.
  induction r as [|[m v] r IH]; [done|]. rewrite values_cons. destruct (decide (m = n)) as [->|]; [by exists v; left|].
  intros [w Hw]%IH. exists w. by right.
Qed.

Lemma group_exact rest : forall n vs, Forall (fun p => str_le n p.1 = true) rest ->
  StronglySorted (fun a b => str_le a.1 b.1 = true) rest -> vs <> [] ->
  (forall m ws, (m, ws) ∈ group n vs rest <->
     m = n /\ ws = vs ++ values rest n \/ m <> n /\ ws = values rest m /\ ws <> []) /\
  StronglySorted before (group n vs rest).
Proof.
  induction rest as [|[m0 v] r IH]; intros n vs Hle Hs Hvs; cbn [group].
  - split; [|by repeat constructor]. intros m ws. rewrite list_elem_of_singleton. unfold values. cbn. rewrite app_nil_r.
    naive_solver.
  - apply list.Forall_cons in Hle as [Hm0 Hr]. cbn in Hm0. apply StronglySorted_cons in Hs as [Hm Hs]. cbn in Hm.
    case_bool_decide as He.
    + subst m0. destruct (IH n (vs ++ [v]) Hr Hs) as [Hin Hsort]; [by destruct vs|]. split; [|done].
      intros m ws. rewrite Hin, values_cons, decide_True by done. rewrite <-app_assoc. cbn [app].
      rewrite values_cons. destruct (decide (n = m)) as [<-|]; naive_solver.
    + destruct (IH m0 [v] Hm Hs) as [Hin Hsort]; [done|].
      assert (Forall (fun p : str * str => p.1 <> n) r) as Hnot.
      { eapply list.Forall_impl; [exact Hm|]. intros [m w] Hp Hpn. cbn in Hp, Hpn. subst m. by destruct He; apply str_le_antisym. }
      split.
      * intros m ws. rewrite elem_of_cons, Hin, !values_cons, (decide_False (P:=m0 = n)) by done.
        rewrite (values_none r n) by done. rewrite app_nil_r.
        destruct (decide (m0 = m)) as [<-|Hne]; [naive_solver|]. split; [|naive_solver].
        intros [[= -> ->]|[[-> _]|(_ & -> & Hw)]]; [by left|done|]. right. split; [|done]. intros ->.
        by rewrite (values_none r n) in Hw.
      * constructor; [done|]. apply list.Forall_forall. intros [m ws] Hg. apply Hin in Hg as [[-> _]|(Hne & -> & Hw)];
          [done|]. destruct (values_some _ _ Hw) as [w Hmw]. rewrite list.Forall_forall in Hr, Hnot.
        split; cbn; [exact (Hr _ Hmw)|]. intros ->. by apply (Hnot _ Hmw).
Qed.

Lemma values_sorted headers n : values (sort_by (fun a b => str_le a.1 b.1) headers) n = values headers n.
Proof. unfold values. f_equal. apply sort_by_filter. intros a b -> ->. apply str_le_refl. Qed.

Lemma groups_exact headers :
  (forall m ws, (m, ws) ∈ groups headers <-> ws = values headers m /\ ws <> []) /\ StronglySorted before (groups headers).
Proof.
  unfold groups. pose proof (values_sorted headers) as Hv.
  assert (StronglySorted (fun a b => str_le a.1 b.1 = true) (sort_by (fun a b : str * str => str_le a.1 b.1) headers)) as Hs.
  { apply (sort_by_sorted (fun a b : str * str => str_le a.1 b.1)); intros *; [apply str_le_total|apply str_le_trans]. }
  destruct (sort_by _ headers) as [|[n v] rest].
  - split; [|constructor]. intros m ws. rewrite <-Hv. unfold values. cbn. rewrite elem_of_nil. naive_solver.
  - apply StronglySorted_cons in Hs as [Hn Hs]. destruct (group_exact rest n [v] Hn Hs) as [Hin Hsort]; [done|]. split; [|done].
    intros m ws. rewrite Hin, <-!Hv, !values_cons. destruct (decide (n = m)) as [<-|]; naive_solver.
Qed.

Lemma header_map_elem headers n c : (n, c) ∈ header_map headers <-> combined headers n = Some c.
Proof.
  unfold header_map. rewrite list_elem_of_fmap. destruct (groups_exact headers) as [Hin _]. unfold combined. split.
  - intros ([m ws] & [= -> ->] & [-> Hne]%Hin). cbn. by destruct (values headers m).
  - intros Hc. exists (n, values headers n). rewrite Hin. unfold entry. cbn.
    destruct (values headers n) eqn:Hv; [done|]. by injection Hc as <-.
Qed.

Lemma header_map_sorted headers : StronglySorted before (header_map headers).
Proof.
  unfold header_map. destruct (groups_exact headers) as [_ Hs]. induction Hs as [|g gs Hgs IH Hg]; [constructor|].
  rewrite fmap_cons. constructor; [done|]. by apply list.Forall_fmap.
Qed.

Lemma before_NoDup {A} (l : list (str * A)) : StronglySorted before l -> NoDup l.
Proof.
  induction 1 as [|x l Hl IH Hx]; constructor; [|done]. intros Hin. rewrite list.Forall_forall in Hx. by destruct (Hx x Hin).
Qed.

Lemma header_map_exact h1 h2 : header_map h1 = header_map h2 <-> forall n, combined h1 n = combined h2 n.
Proof.
  split.
  - intros He n. apply option_eq. intros c. by rewrite <-!header_map_elem, He.
  - intros Hc. assert (AntiSymm (=) (before (A:=str))) as Hanti.
    { intros a b [Hab Hne] [Hba _]. by destruct Hne; apply str_le_antisym. }
    apply (StronglySorted_unique before); [apply header_map_sorted..|].
    apply NoDup_Permutation; [apply before_NoDup, header_map_sorted..|]. intros [n c]. by rewrite !header_map_elem, Hc.
Qed.

(** Header names and values as HTTP has them: no colon in a name, no line feed in either *)
Definition header_ok (p : str * str) : Prop := free 58 p.1 /\ free 10 p.1 /\ free 10 p.2.

Lemma trim_matches_forall (P : Z -> Prop) c s : Forall P s -> Forall P (trim_start_matches c s).
Proof. induction 1 as [|x s Hx Hs IH]; simpl; [constructor|]. destruct (x =? c); [done|by constructor]. Qed.

Lemma collapse_forall (P : Z -> Prop) s : forall b, Forall P s -> Forall P (collapse b s).
Proof.
  intros b Hs. revert b. induction Hs as [|x s Hx _ IH]; intros b; simpl; [constructor|].
  destruct (Z.eqb_spec x 32) as [->|]; [destruct b; [done|by constructor]|by constructor].
Qed.

Lemma normalize_forall (P : Z -> Prop) s : Forall P s -> Forall P (normalize_header_value s).
Proof.
  intros Hs. unfold normalize_header_value, trim_spaces.
  by apply collapse_forall, List.Forall_rev, trim_matches_forall, List.Forall_rev, trim_matches_forall.
Qed.

Lemma header_map_ok headers : Forall header_ok headers -> Forall header_ok (header_map headers).
Proof.
  intros Hh. apply list.Forall_forall. intros [n c] Hc%header_map_elem. unfold combined in Hc.
  assert (Forall (fun v => free 10 v) (values headers n)) as Hv.
  { unfold values. apply list.Forall_fmap, list.Forall_forall. intros p [_ Hp]%list_elem_of_filter.
    rewrite list.Forall_forall in Hh. apply (Hh p Hp). }
  destruct (values headers n) as [|v vs] eqn:Hvs; [done|]. apply Some_inj in Hc. subst c.
  destruct (values_some headers n) as [w Hw]; [by rewrite Hvs|].
  rewrite list.Forall_forall in Hh. destruct (Hh _ Hw) as (H1 & H2 & _). split_and!; [done..|].
  apply (free_join 10 (lit ",") (normalize_header_value <$> (v :: vs))); [by repeat constructor; cbv; congruence|]. apply list.Forall_fmap.
  eapply list.Forall_impl; [exact Hv|]. intros x. apply normalize_forall.
Qed.

Lemma header_line_free p : header_ok p -> free 10 (header_line p).
Proof.
  intros (_ & H1 & H2). unfold header_line. apply list.Forall_app. split; [done|]. apply list.Forall_app.
  split; [by repeat constructor; cbv; congruence|done].
Qed.

Lemma header_lines_inj l1 l2 : Forall header_ok l1 -> Forall header_ok l2 -> header_line <$> l1 = header_line <$> l2 -> l1 = l2.
Proof.
  intros H1. revert l2. induction H1 as [|[n1 c1] l1 (Hn1 & _) _ IH]; intros [|[n2 c2] l2]; try done.
  intros [(Hn2 & _) H2]%list.Forall_cons. rewrite !fmap_cons. intros [= He Hl]. f_equal; [|by apply IH].
  unfold header_line in He. cbn [fst snd] in He, Hn1, Hn2.
  change (lit ":" ++ c1) with (58 :: c1) in He. change (lit ":" ++ c2) with (58 :: c2) in He.
  pose proof (split_once_app 58 n1 c1 Hn1). pose proof (split_once_app 58 n2 c2 Hn2). congruence.
Qed.

(** ** The canonical request *)

Definition request_lines (method uri query : str) (headers : list (str * str)) (signed_headers body_hash : str) : list str :=
  method :: uri_encode_path uri :: query :: (header_line <$> header_map headers) ++ [[]; signed_headers; body_hash].

Lemma canonical_request_joined method uri query headers signed_headers body_hash :
  canonical_request method uri query (canonical_headers headers) signed_headers body_hash =
  join LF (request_lines method uri query headers signed_headers body_hash).
Proof.
  unfold canonical_request, request_lines. rewrite canonical_headers_lines.
  assert (forall ls, (ls ≫= (fun l => l ++ LF)) ++ LF ++ signed_headers ++ LF ++ body_hash =
    join LF (ls ++ [[]; signed_headers; body_hash])) as Hls.
  { induction ls as [|l ls IH]; [done|]. rewrite bind_cons, <-app_comm_cons, join_cons by (by destruct ls).
    by rewrite <-IH, <-!app_assoc. }
  rewrite Hls. rewrite !join_cons by (done || by destruct (header_line <$> header_map headers)). done.
Qed.

Lemma request_lines_free method uri query headers signed_headers body_hash :
  free 10 method -> free 10 query -> free 10 signed_headers -> free 10 body_hash -> Forall header_ok headers ->
  Forall (free 10) (request_lines method uri query headers signed_headers body_hash).
Proof.
  intros. unfold request_lines. repeat (apply list.Forall_cons; split; [done || apply uri_encode_path_chars|]).
  apply list.Forall_app. split.
  - apply list.Forall_fmap. eapply list.Forall_impl; [by apply header_map_ok|]. apply header_line_free.
  - repeat (apply list.Forall_cons; split; [done || constructor|]). constructor.
Qed.

(** A canonical request determines its parts. *)
Lemma canonical_request_inj m1 m2 u1 u2 q1 q2 h1 h2 s1 s2 b1 b2 :
  free 10 m1 -> free 10 m2 -> free 10 q1 -> free 10 q2 -> free 10 s1 -> free 10 s2 -> free 10 b1 -> free 10 b2 ->
  Forall header_ok h1 -> Forall header_ok h2 ->
  canonical_request m1 u1 q1 (canonical_headers h1) s1 b1 = canonical_request m2 u2 q2 (canonical_headers h2) s2 b2 ->
  m1 = m2 /\ decoded_path u1 = decoded_path u2 /\ q1 = q2 /\ (forall n, combined h1 n = combined h2 n) /\ s1 = s2 /\ b1 = b2.
Proof.
  intros Hm1 Hm2 Hq1 Hq2 Hs1 Hs2 Hb1 Hb2 Hh1 Hh2. rewrite !canonical_request_joined. intros He.
  assert (request_lines m1 u1 q1 h1 s1 b1 = request_lines m2 u2 q2 h2 s2 b2) as Hl.
  { rewrite <-(split_joined 10 (request_lines m1 u1 q1 h1 s1 b1)) by (done || by apply request_lines_free).
    rewrite <-(split_joined 10 (request_lines m2 u2 q2 h2 s2 b2)) by (done || by apply request_lines_free).
    by unfold LF in He; rewrite He. }
  unfold request_lines in Hl. injection Hl as -> Hu -> Hl. apply app_inj_2 in Hl as [Hh Hl]; [|done]. injection Hl as -> ->.
  split_and!; try done; [by apply uri_encode_path_exact|].
  apply header_map_exact. apply header_lines_inj in Hh; [done|by apply header_map_ok..].
Qed.

End CanonicalSpec.
