(* ===== verification/AmzDate.v ===== *)
(** The timestamps of signed requests, the second half of crates/auth/src/canonical.rs: the
    basic format of signatures and the extended format of policies.  The theorems relate
    both to the Gregorian calendar of [HttpDate]. *)

From Stdlib Require Import ZifyBool.
From stdpp Require Import strings.
From S2P Require Import Prelude Machine Str Utf8 HttpDate Conditional ConditionalSpec Identity CanonicalSpec.

Local Open Scope Z_scope.

Module AmzDate.
Import Str Utf8 Machine StrMore Account.

(** A function that returns an option is an outcome whose error is None. *)
Definition checked32 (n : Z) : outcome () Z := if in_range n 0 (2 ^ 32 - 1) then Ok n else Err ().
Definition checkedi64 (n : Z) : outcome () Z := if in_range n (- 2 ^ 63) (2 ^ 63 - 1) then Ok n else Err ().

Definition parse_fixed_width_u32_ascii (bytes : list Z) : outcome () Z :=
  foldM (fun value b =>
    guard_err (negb (is_ascii_digit b)) ();;
    value ← checked32 (value * 10);
    checked32 (value + (b - 48))) 0 bytes.

Definition is_leap (y : Z) : bool := (y mod 4 =? 0) && (negb (y mod 100 =? 0) || (y mod 400 =? 0)).

Definition MONTH_DAYS : list Z := [0; 31; 59; 90; 120; 151; 181; 212; 243; 273; 304; 334].
Definition DAYS_PER_MONTH : list Z := [31; 28; 31; 30; 31; 30; 31; 31; 30; 31; 30; 31].

Definition days_since_epoch (year month day : Z) : outcome () Z :=
  guard_err (year <? 1970) ();;
  guard_err (negb (in_range month 1 12)) ();;
  max_day ← idx DAYS_PER_MONTH (Z.to_nat (month - 1));
  max_day ← (if (month =? 2) && is_leap year then HttpDate.add32 max_day 1 else mret max_day);
  guard_err ((day =? 0) || (max_day <? day)) ();;
  days ← for_range 1970 (Z.to_nat year) 0 (fun days y => add64 days (if is_leap (Z.of_nat y) then 366 else 365));
  before ← idx MONTH_DAYS (Z.to_nat (month - 1));
  days ← add64 days before;
  days ← (if (2 <? month) && is_leap year then add64 days 1 else mret days);
  add64 days (day - 1).

Definition parse_yyyymmdd_ascii (bytes : list Z) : outcome () Z :=
  guard_err (negb (len bytes =? 8)) ();;
  b ← index_range bytes 0 4; year ← parse_fixed_width_u32_ascii b;
  b ← index_range bytes 4 6; month ← parse_fixed_width_u32_ascii b;
  b ← index_range bytes 6 8; day ← parse_fixed_width_u32_ascii b;
  days_since_epoch year month day.

Definition parse_amz_date (ts : str) : outcome () Z :=
  let bytes := bytes ts in
  guard_err (negb (len bytes =? 16)) ();;
  b8 ← idx bytes 8; b15 ← idx bytes 15;
  guard_err (negb (b8 =? 84) || negb (b15 =? 90)) ();;
  b ← index_range bytes 0 8; days ← parse_yyyymmdd_ascii b;
  b ← index_range bytes 9 11; hour ← parse_fixed_width_u32_ascii b;
  b ← index_range bytes 11 13; min ← parse_fixed_width_u32_ascii b;
  b ← index_range bytes 13 15; sec ← parse_fixed_width_u32_ascii b;
  guard_err ((23 <? hour) || (59 <? min) || (59 <? sec)) ();;
  n ← HttpDate.mul64 days 86400;
  h ← HttpDate.mul64 hour 3600; n ← add64 n h;
  m ← HttpDate.mul64 min 60; n ← add64 n m;
  add64 n sec.

Definition parse_amz_date_stamp (date_stamp : str) : outcome () Z := parse_yyyymmdd_ascii (bytes date_stamp).

(** [.is_some()]: a panic of the parser would be one here. *)
Definition is_some_o {A} (m : outcome () A) : outcome () bool :=
  match m with Ok _ => Ok true | Err _ => Ok false | Panic => Panic end.

Definition amz_date_matches_date_stamp (timestamp date_stamp : str) : outcome () bool :=
  a ← is_some_o (parse_amz_date timestamp);
  if negb a then mret false else
  b ← is_some_o (parse_amz_date_stamp date_stamp);
  mret (b && bool_decide (get_range (bytes timestamp) 0 8 = Some (bytes date_stamp))).

(** ** The extended format *)

Record Iso8601UtcOptions := MkIso8601UtcOptions {
  trim_whitespace : bool;
  require_fixed_width_fields : bool
}.

(** [s.strip_suffix(c)] *)
Definition strip_suffix (c : Z) (s : str) : option str :=
  match rev s with
  | x :: r => if x =? c then Some (rev r) else None
  | [] => None
  end.

(** The three parts that the date and the time are split into, and their lengths *)
Definition three_parts (c : Z) (s : str) : outcome () (str * str * str) :=
  match split c s with
  | [a; b; d] => Ok (a, b, d)
  | _ => Err ()
  end.

Definition widths_ok (fixed : bool) (w1 w2 w3 : Z) (a b c : str) : outcome () () :=
  guard_err (fixed && (negb (len (bytes a) =? w1) || negb (len (bytes b) =? w2) || negb (len (bytes c) =? w3))) ().

(** [s.parse::<u32>().ok()?] *)
Definition parse_u32 (s : str) : outcome () Z := ok_or (from_str_radix 10 (2 ^ 32 - 1) s) ().

Definition parse_iso8601_date (date : str) (fixed : bool) : outcome () (Z * Z * Z) :=
  '(year_part, month_part, day_part) ← three_parts 45 date;
  widths_ok fixed 4 2 2 year_part month_part day_part;;
  year ← ok_or (HttpDate.parse_i64 year_part) ();
  month ← parse_u32 month_part;
  day ← parse_u32 day_part;
  mret (year, month, day).

Definition parse_iso8601_time (time : str) (fixed : bool) : outcome () (Z * Z * Z) :=
  '(hour_part, minute_part, second_part) ← three_parts 58 time;
  widths_ok fixed 2 2 2 hour_part minute_part second_part;;
  hour ← parse_u32 hour_part;
  minute ← parse_u32 minute_part;
  second ← parse_u32 second_part;
  mret (hour, minute, second).

(** The remainder of a negative year has its sign, which makes no difference to the tests
    for zero. *)
Definition is_leap_i64 (year : Z) : bool :=
  ((Z.rem year 4 =? 0) && negb (Z.rem year 100 =? 0)) || (Z.rem year 400 =? 0).

Definition days_in_month_i64 (year month : Z) : outcome () Z :=
  if (month =? 1) || (month =? 3) || (month =? 5) || (month =? 7) || (month =? 8) || (month =? 10) || (month =? 12)
  then Ok 31
  else if (month =? 4) || (month =? 6) || (month =? 9) || (month =? 11) then Ok 30
  else if month =? 2 then Ok (if is_leap_i64 year then 29 else 28)
  else Err ().

Definition date_to_days_i64 (year month day : Z) : outcome () Z :=
  year ← checkedi64 (year - (if month <=? 2 then 1 else 0));
  y ← (if 0 <=? year then mret year else HttpDate.addi64 year (-399));
  let era := Z.quot y 400 in
  e ← checkedi64 (era * 400);
  yoe ← checkedi64 (year - e);
  month_offset ← checkedi64 (month + (if 2 <? month then -3 else 9));
  d ← checkedi64 (month_offset * 153);
  d ← checkedi64 (d + 2);
  d ← checkedi64 (Z.quot d 5);
  d ← checkedi64 (d + day);
  doy ← checkedi64 (d - 1);
  e ← checkedi64 (yoe * 365);
  e ← checkedi64 (e + Z.quot yoe 4);
  e ← checkedi64 (e - Z.quot yoe 100);
  doe ← checkedi64 (e + doy);
  n ← checkedi64 (era * 146097);
  n ← checkedi64 (n + doe);
  checkedi64 (n - 719468).

Definition date_time_to_epoch_seconds (year month day hour minute second : Z) : outcome () Z :=
  max_day ← days_in_month_i64 year month;
  guard_err ((day =? 0) || (max_day <? day) || (23 <? hour) || (59 <? minute) || (59 <? second)) ();;
  days ← date_to_days_i64 year month day;
  guard_err (days <? 0) ();;
  n ← checkedi64 (days * 86400);
  n ← checkedi64 (n + hour * 3600);
  n ← checkedi64 (n + minute * 60);
  n ← checkedi64 (n + second);
  guard_err (n <? 0) ();;
  mret n.

Definition parse_iso8601_utc_seconds_with_options (value : str) (options : Iso8601UtcOptions) : outcome () Z :=
  let value := if trim_whitespace options then trim value else value in
  datetime ← ok_or (strip_suffix 90 value) ();
  let '(datetime, fractional) :=
    match split_once 46 datetime with
    | Some (prefix, suffix) => (prefix, Some suffix)
    | None => (datetime, None)
    end in
  guard_err (match fractional with
             | Some part => negb (forallb is_ascii_digit (bytes part))
             | None => false
             end) ();;
  '(date, time) ← ok_or (split_once 84 datetime) ();
  '(year, month, day) ← parse_iso8601_date date (require_fixed_width_fields options);
  '(hour, minute, second) ← parse_iso8601_time time (require_fixed_width_fields options);
  date_time_to_epoch_seconds year month day hour minute second.

(** ** Specification: dates of the calendar in fixed-width digits *)

Definition two (n : Z) : str := [48 + n / 10; 48 + n mod 10].
Definition four (n : Z) : str := two (n / 100) ++ two (n mod 100).

Definition stamp_text (date : Z * Z * Z) : str := let '(y, m, d) := date in four y ++ two m ++ two d.
Definition amz_text (date : Z * Z * Z) (h mi s : Z) : str := stamp_text date ++ lit "T" ++ two h ++ two mi ++ two s ++ lit "Z".

Definition time_ok (h mi s : Z) : Prop := 0 <= h <= 23 /\ 0 <= mi <= 59 /\ 0 <= s <= 59.

(** ** Digits *)

Lemma parse_fixed_step acc a l : 0 <= acc < 1000 ->
  foldM (fun value b =>
    guard_err (negb (is_ascii_digit b)) ();;
    value ← checked32 (value * 10);
    checked32 (value + (b - 48))) acc (a :: l) =
  if is_ascii_digit a then
    foldM (fun value b =>
      guard_err (negb (is_ascii_digit b)) ();;
      value ← checked32 (value * 10);
      checked32 (value + (b - 48))) (acc * 10 + (a - 48)) l
  else Err ().
Proof.
  intros Hacc. cbn [foldM]. unfold guard_err, checked32. destruct (is_ascii_digit a) eqn:Ha; [|done].
  unfold is_ascii_digit in Ha. cbn [negb mbind outcome_bind].
  replace (in_range (acc * 10) 0 (2 ^ 32 - 1)) with true by (unfold in_range in *; lia). cbn [mbind outcome_bind].
  by replace (in_range (acc * 10 + (a - 48)) 0 (2 ^ 32 - 1)) with true by (unfold in_range in *; lia).
Qed.

Lemma parse_two a b : parse_fixed_width_u32_ascii [a; b] =
  if is_ascii_digit a && is_ascii_digit b then Ok (10 * (a - 48) + (b - 48)) else Err ().
Proof.
  unfold parse_fixed_width_u32_ascii. rewrite parse_fixed_step by lia. destruct (is_ascii_digit a) eqn:Ha; [|done].
  unfold is_ascii_digit, in_range in Ha. rewrite parse_fixed_step by lia. cbn [andb].
  destruct (is_ascii_digit b); [|done]. cbn [foldM]. f_equal. lia.
Qed.

Lemma parse_four a b c d : parse_fixed_width_u32_ascii [a; b; c; d] =
  if is_ascii_digit a && is_ascii_digit b && is_ascii_digit c && is_ascii_digit d
  then Ok (1000 * (a - 48) + 100 * (b - 48) + 10 * (c - 48) + (d - 48)) else Err ().
Proof.
  unfold parse_fixed_width_u32_ascii. rewrite parse_fixed_step by lia. destruct (is_ascii_digit a) eqn:Ha; [|done].
  unfold is_ascii_digit, in_range in Ha. rewrite parse_fixed_step by lia. destruct (is_ascii_digit b) eqn:Hb; [|done].
  unfold is_ascii_digit, in_range in Hb. rewrite parse_fixed_step by lia. destruct (is_ascii_digit c) eqn:Hc; [|done].
  unfold is_ascii_digit, in_range in Hc. rewrite parse_fixed_step by lia. cbn [andb].
  destruct (is_ascii_digit d); [|done]. cbn [foldM]. f_equal. lia.
Qed.

(** Digits and the number they stand for *)
Lemma two_exact a b n : is_ascii_digit a && is_ascii_digit b = true /\ n = 10 * (a - 48) + (b - 48) <->
  0 <= n < 100 /\ [a; b] = two n.
Proof.
  unfold is_ascii_digit, in_range, two. split.
  - intros [H ->]. assert (0 <= a - 48 <= 9 /\ 0 <= b - 48 <= 9) as [Ha Hb] by lia. split; [lia|].
    repeat f_equal; Z.to_euclidean_division_equations; lia.
  - intros [Hn [= -> ->]]. Z.to_euclidean_division_equations; lia.
Qed.

Lemma four_exact a b c d n :
  is_ascii_digit a && is_ascii_digit b && is_ascii_digit c && is_ascii_digit d = true /\
    n = 1000 * (a - 48) + 100 * (b - 48) + 10 * (c - 48) + (d - 48) <->
  0 <= n < 10000 /\ [a; b; c; d] = four n.
Proof.
  split.
  - intros [H ->]. assert (is_ascii_digit a && is_ascii_digit b = true) as Hab by (destruct (is_ascii_digit a), (is_ascii_digit b); done).
    assert (is_ascii_digit c && is_ascii_digit d = true) as Hcd by (destruct (is_ascii_digit c), (is_ascii_digit d); lia).
    destruct (proj1 (two_exact a b _) (conj Hab eq_refl)) as [H1 E1]. destruct (proj1 (two_exact c d _) (conj Hcd eq_refl)) as [H2 E2].
    split; [lia|]. unfold four. change [a; b; c; d] with ([a; b] ++ [c; d]). rewrite E1, E2.
    f_equal; f_equal; Z.to_euclidean_division_equations; lia.
  - intros [Hn E]. unfold four in E. injection E as Ea Eb Ec Ed.
    destruct (proj2 (two_exact a b (n / 100))) as [Hab Eab]; [split; [Z.to_euclidean_division_equations; lia|unfold two; congruence]|].
    destruct (proj2 (two_exact c d (n mod 100))) as [Hcd Ecd]; [split; [Z.to_euclidean_division_equations; lia|unfold two; congruence]|].
    split; [destruct (is_ascii_digit a), (is_ascii_digit b), (is_ascii_digit c), (is_ascii_digit d); done|].
    clear - Eab Ecd. Z.to_euclidean_division_equations; lia.
Qed.

(** ** Days *)

Lemma leap_same y : is_leap y = HttpDate.is_leap y.
Proof. unfold is_leap, HttpDate.is_leap. Z.to_euclidean_division_equations; lia. Qed.

Lemma year_days y : HttpDate.day_number (y + 1, 1, 1) = HttpDate.day_number (y, 1, 1) + (if is_leap y then 366 else 365).
Proof.
  unfold HttpDate.day_number. cbn [Z.leb Z.compare Pos.compare Pos.compare_cont]. cbv zeta.
  destruct (is_leap y) eqn:Hl; unfold is_leap in Hl; Z.to_euclidean_division_equations; lia.
Qed.

Lemma first_day_bound y : 1970 <= y < 2 ^ 32 -> 0 <= HttpDate.day_number (y, 1, 1) < 2 ^ 42.
Proof.
  intros Hy. unfold HttpDate.day_number. cbn [Z.leb Z.compare Pos.compare Pos.compare_cont]. cbv zeta.
  Z.to_euclidean_division_equations; lia.
Qed.

Lemma years_loop k : Z.of_nat k < 2 ^ 32 - 1970 ->
  foldM (E:=()) (fun days y => add64 days (if is_leap (Z.of_nat y) then 366 else 365)) 0 (seq 1970 k) =
  Ok (HttpDate.day_number (1970 + Z.of_nat k, 1, 1)).
Proof.
  induction k as [|k IH]; intros Hk; [done|]. rewrite seq_S, foldM_app, IH by lia. cbn [mbind outcome_bind foldM].
  pose proof (first_day_bound (1970 + Z.of_nat k) ltac:(lia)) as Hb.
  rewrite add64_Ok by (unfold MAX64; destruct (is_leap _); lia). cbn [mbind outcome_bind]. f_equal.
  replace (Z.of_nat (1970 + k)) with (1970 + Z.of_nat k) by lia. rewrite <-year_days. f_equal. f_equal. f_equal. lia.
Qed.

Lemma leap_step y : 365 * y + y / 4 - y / 100 + y / 400 =
  365 * (y - 1) + (y - 1) / 4 - (y - 1) / 100 + (y - 1) / 400 + 365 + (if HttpDate.is_leap y then 1 else 0).
Proof. destruct (HttpDate.is_leap y) eqn:Hl; unfold HttpDate.is_leap in Hl; Z.to_euclidean_division_equations; lia. Qed.

(** One month of the tables *)
Ltac month_case y :=
  eexists; split; [destruct (HttpDate.is_leap y); reflexivity|]; split; [done|]; split; [lia|];
  intros d; pose proof (leap_step y); cbn -[Z.div Z.mul Z.add Z.sub];
  repeat match goal with
         | |- context [(153 * ?k + 2) / 5] =>
             let v := eval vm_compute in ((153 * k + 2) / 5) in change ((153 * k + 2) / 5) with v
         end;
  destruct (HttpDate.is_leap y); lia.

(** The lengths of the months and the days before them *)
Lemma month_tables y m : 1 <= m <= 12 -> exists before,
  DAYS_PER_MONTH !! Z.to_nat (m - 1) = Some (HttpDate.month_len y m - if (m =? 2) && is_leap y then 1 else 0) /\
  MONTH_DAYS !! Z.to_nat (m - 1) = Some before /\ 0 <= before <= 334 /\
  forall d, HttpDate.day_number (y, m, d) = HttpDate.day_number (y, 1, 1) + before + (if (2 <? m) && is_leap y then 1 else 0) + (d - 1).
Proof.
  intros Hm. assert (m = 1 \/ m = 2 \/ m = 3 \/ m = 4 \/ m = 5 \/ m = 6 \/ m = 7 \/ m = 8 \/ m = 9 \/ m = 10 \/ m = 11 \/ m = 12) as Hc by lia.
  clear Hm. rewrite leap_same. unfold HttpDate.month_len, HttpDate.day_number.
  repeat (destruct Hc as [-> | Hc]; [month_case y|]). subst. month_case y.
Qed.

Lemma days_since_epoch_exact y m d : 0 <= y < 2 ^ 32 -> 0 <= m -> 0 <= d ->
  HttpDate.valid_date (y, m, d) /\ days_since_epoch y m d = Ok (HttpDate.day_number (y, m, d)) \/
  ~ HttpDate.valid_date (y, m, d) /\ days_since_epoch y m d = Err ().
Proof.
  intros Hy Hm Hd. unfold days_since_epoch, HttpDate.valid_date, guard_err.
  destruct (Z.ltb_spec y 1970) as [|Hy0]; [right; split; [lia|done]|]. cbn [mbind outcome_bind].
  destruct (in_range m 1 12) eqn:Hm12; unfold in_range in Hm12; [|right; split; [lia|done]]. cbn [negb mbind outcome_bind].
  destruct (month_tables y m ltac:(lia)) as (before & Hdm & Hmd & Hb & Hn). unfold idx, unwrap. rewrite Hdm. cbn [mbind outcome_bind].
  assert (28 <= HttpDate.month_len y m <= 31) as Hml by (unfold HttpDate.month_len; repeat case_match; lia).
  assert ((if (m =? 2) && is_leap y then HttpDate.add32 (E:=()) (HttpDate.month_len y m - (if (m =? 2) && is_leap y then 1 else 0)) 1
           else mret (HttpDate.month_len y m - (if (m =? 2) && is_leap y then 1 else 0))) = Ok (HttpDate.month_len y m)) as ->.
  { destruct ((m =? 2) && is_leap y); [rewrite HttpDate.add32_Ok by (unfold HttpDate.U32_MAX; lia)|]; unfold mret, outcome_ret; f_equal; lia. }
  cbn [mbind outcome_bind]. destruct ((d =? 0) || (HttpDate.month_len y m <? d)) eqn:Hdd; [right; split; [lia|done]|].
  left. split; [lia|]. cbn [mbind outcome_bind]. unfold for_range. rewrite years_loop by lia. rewrite Hmd. cbn [mbind outcome_bind].
  replace (1970 + Z.of_nat (Z.to_nat y - 1970)) with y by lia. pose proof (first_day_bound y ltac:(lia)) as Hf.
  rewrite (add64_Ok _ before) by (unfold MAX64; lia). cbn [mbind outcome_bind]. specialize (Hn d).
  destruct ((2 <? m) && is_leap y); [rewrite (add64_Ok _ 1) by (unfold MAX64; lia)|]; cbn [mbind outcome_bind mret outcome_ret];
    rewrite add64_Ok by (unfold MAX64; lia); f_equal; lia.
Qed.

(** ** The basic format *)

(** The day a text of eight digits stands for; day 2932897 is the first of the year 10000 *)
Definition stamp_of (bs : list Z) (n : Z) : Prop :=
  exists k, n = Z.of_nat k /\ n < 2932897 /\ bs = stamp_text (HttpDate.calendar k).

Lemma calendar_of date : HttpDate.valid_date date -> date.1.1 < 10000 ->
  exists k, date = HttpDate.calendar k /\ HttpDate.day_number date = Z.of_nat k /\ Z.of_nat k < 2932897.
Proof.
  intros Hv Hy. assert (0 <= HttpDate.day_number date < 2932897) as Hn.
  { destruct date as [[y m] d]. cbn in Hy. pose proof Hv as (Hy0 & Hm & Hd).
    assert (HttpDate.month_len y m <= 31) as Hml by (unfold HttpDate.month_len; repeat case_match; lia).
    unfold HttpDate.day_number. destruct (Z.leb_spec m 2); [assert (m = 1 \/ m = 2) as [-> | ->] by lia|];
      Z.to_euclidean_division_equations; lia. }
  exists (Z.to_nat (HttpDate.day_number date)).
  assert (HttpDate.days_to_date (E:=()) (HttpDate.day_number date) = Ok date) as H1
    by (apply HttpDate.days_to_date_number; [done|unfold HttpDate.MAX_DAYS; lia]).
  pose proof (HttpDate.days_to_date_calendar (E:=()) (Z.to_nat (HttpDate.day_number date)) ltac:(unfold HttpDate.MAX_DAYS; lia)) as H2.
  rewrite Z2Nat.id in H2 |- * by lia. split; [congruence|lia].
Qed.

Lemma calendar_small k : Z.of_nat k < 2932897 -> exists y m d, HttpDate.calendar k = (y, m, d) /\
  HttpDate.valid_date (y, m, d) /\ 1970 <= y < 10000 /\ 1 <= m <= 12 /\ 1 <= d <= 31 /\ HttpDate.day_number (y, m, d) = Z.of_nat k.
Proof.
  intros Hk. pose proof (HttpDate.calendar_valid k) as Hv. pose proof (HttpDate.calendar_number k) as Hn.
  destruct (HttpDate.calendar k) as [[y m] d] eqn:Hc. exists y, m, d. pose proof (HttpDate.calendar_year k y m d Hc Hk) as Hy.
  pose proof (HttpDate.valid_date_day y m d Hv). destruct Hv as (? & ? & ?). split_and!; try done; lia.
Qed.

Lemma stamp_length date : length (stamp_text date) = 8%nat.
Proof. by destruct date as [[y m] d]. Qed.

Lemma parse_stamp_exact bs :
  (exists n, stamp_of bs n /\ parse_yyyymmdd_ascii bs = Ok n) \/ (forall n, ~ stamp_of bs n) /\ parse_yyyymmdd_ascii bs = Err ().
Proof.
  unfold parse_yyyymmdd_ascii, guard_err. destruct (Z.eqb_spec (len bs) 8) as [Hl|Hl].
  2: { right. split; [|done]. intros n (k & _ & _ & ->). unfold len in Hl. by rewrite stamp_length in Hl. }
  destruct bs as [|a [|b [|c [|d [|e [|f [|g [|h [|? ?]]]]]]]]]; try (unfold len in Hl; cbn in Hl; lia). clear Hl.
  change (index_range [a; b; c; d; e; f; g; h] 0 4) with (Ok (E:=()) [a; b; c; d]).
  change (index_range [a; b; c; d; e; f; g; h] 4 6) with (Ok (E:=()) [e; f]).
  change (index_range [a; b; c; d; e; f; g; h] 6 8) with (Ok (E:=()) [g; h]). cbn [negb mbind outcome_bind].
  rewrite parse_four, !parse_two.
  assert (forall n, stamp_of [a; b; c; d; e; f; g; h] n -> exists y m d', 0 <= y < 10000 /\ [a; b; c; d] = four y /\
    0 <= m < 100 /\ [e; f] = two m /\ 0 <= d' < 100 /\ [g; h] = two d' /\ HttpDate.valid_date (y, m, d')) as Hinv.
  { intros n (k & -> & Hk & E). destruct (calendar_small k Hk) as (y & m & d' & Hc & Hv & Hy & Hm & Hd & _). rewrite Hc in E.
    exists y, m, d'. injection E as -> -> -> -> -> -> -> ->. split_and!; try done; lia. }
  destruct (_ && _ && _ && _) eqn:D1; [|right; split; [|done]; intros n (y & m & d' & Hy & E & _)%Hinv;
    destruct (proj2 (four_exact a b c d y) (conj Hy E)); congruence].
  cbn [mbind outcome_bind]. destruct (is_ascii_digit e && is_ascii_digit f) eqn:D2; [|right; split; [|done];
    intros n (y & m & d' & _ & _ & Hm & E & _)%Hinv; destruct (proj2 (two_exact e f m) (conj Hm E)); congruence].
  cbn [mbind outcome_bind]. destruct (is_ascii_digit g && is_ascii_digit h) eqn:D3; [|right; split; [|done];
    intros n (y & m & d' & _ & _ & _ & _ & Hd & E & _)%Hinv; destruct (proj2 (two_exact g h d') (conj Hd E)); congruence].
  cbn [mbind outcome_bind].
  destruct (proj1 (four_exact a b c d _) (conj D1 eq_refl)) as [Hy Ey]. destruct (proj1 (two_exact e f _) (conj D2 eq_refl)) as [Hm Em].
  destruct (proj1 (two_exact g h _) (conj D3 eq_refl)) as [Hd Ed].
  set (y := 1000 * (a - 48) + _ + _ + _) in *. set (m := 10 * (e - 48) + _) in *. set (d' := 10 * (g - 48) + _) in *.
  destruct (days_since_epoch_exact y m d' ltac:(lia) ltac:(lia) ltac:(lia)) as [[Hv ->]|[Hv ->]].
  - left. destruct (calendar_of (y, m, d') Hv ltac:(cbn; lia)) as (k & Hc & Hn & Hk). exists (Z.of_nat k). split; [|by rewrite Hn].
    exists k. split_and!; [done..|]. rewrite <-Hc. cbn [stamp_text]. rewrite <-Ey, <-Em, <-Ed. done.
  - right. split; [|done]. intros n (y0 & m0 & d0 & Hy0 & E1 & Hm0 & E2 & Hd0 & E3 & Hv0)%Hinv. apply Hv.
    destruct (proj2 (four_exact a b c d y0) (conj Hy0 E1)) as [_ ->]. destruct (proj2 (two_exact e f m0) (conj Hm0 E2)) as [_ ->].
    by destruct (proj2 (two_exact g h d0) (conj Hd0 E3)) as [_ ->].
Qed.

Lemma two_inj n1 n2 : 0 <= n1 < 100 -> 0 <= n2 < 100 -> two n1 = two n2 -> n1 = n2.
Proof. intros H1 H2 [= E1 E2]. Z.to_euclidean_division_equations; lia. Qed.

Lemma stamp_of_unique bs n1 n2 : stamp_of bs n1 -> stamp_of bs n2 -> n1 = n2.
Proof.
  intros (k1 & -> & H1 & ->) (k2 & -> & H2 & E).
  destruct (calendar_small k1 H1) as (y1 & m1 & d1 & E1 & _ & Hy1 & Hm1 & Hd1 & <-).
  destruct (calendar_small k2 H2) as (y2 & m2 & d2 & E2 & _ & Hy2 & Hm2 & Hd2 & <-). rewrite E1, E2 in E. cbn [stamp_text] in E.
  apply app_inj_1 in E as [Ey E]; [|done]. apply app_inj_1 in E as [Em Ed]; [|done]. unfold four in Ey.
  apply app_inj_1 in Ey as [Ec Ey]; [|done].
  apply two_inj in Em, Ed, Ec, Ey; try (Z.to_euclidean_division_equations; lia). subst.
  replace y1 with y2; [done|]. Z.to_euclidean_division_equations; lia.
Qed.

Lemma parse_stamp_Ok bs n : parse_yyyymmdd_ascii bs = Ok n <-> stamp_of bs n.
Proof.
  destruct (parse_stamp_exact bs) as [(n' & Hn & ->)|[Hn ->]].
  - split; [by intros [= <-]|]. intros H. f_equal. by eapply stamp_of_unique.
  - split; [done|]. by intros ?%Hn.
Qed.

(** The second a timestamp stands for *)
Definition second_of (bs : list Z) (n : Z) : Prop :=
  exists k h mi s, Z.of_nat k < 2932897 /\ time_ok h mi s /\ bs = amz_text (HttpDate.calendar k) h mi s /\
    n = Z.of_nat k * 86400 + h * 3600 + mi * 60 + s.

(** The fields of a timestamp of sixteen bytes *)
Lemma amz_text_fields stamp a b c d e f :
  length stamp = 8%nat ->
  let bs := stamp ++ [84] ++ [a; b] ++ [c; d] ++ [e; f] ++ [90] in
  index_range (E:=()) bs 0 8 = Ok stamp /\ index_range (E:=()) bs 9 11 = Ok [a; b] /\
  index_range (E:=()) bs 11 13 = Ok [c; d] /\ index_range (E:=()) bs 13 15 = Ok [e; f].
Proof. intros Hl. destruct stamp as [|? [|? [|? [|? [|? [|? [|? [|? [|? ?]]]]]]]]]; done. Qed.

Lemma parse_amz_fields stamp a b c d e f ts : length stamp = 8%nat ->
  bytes ts = stamp ++ [84] ++ [a; b] ++ [c; d] ++ [e; f] ++ [90] ->
  parse_amz_date ts =
    days ← parse_yyyymmdd_ascii stamp;
    hour ← parse_fixed_width_u32_ascii [a; b];
    min ← parse_fixed_width_u32_ascii [c; d];
    sec ← parse_fixed_width_u32_ascii [e; f];
    guard_err ((23 <? hour) || (59 <? min) || (59 <? sec)) ();;
    n ← HttpDate.mul64 days 86400;
    h ← HttpDate.mul64 hour 3600; n ← add64 n h;
    m ← HttpDate.mul64 min 60; n ← add64 n m;
    add64 n sec.
Proof.
  intros Hl Hb. unfold parse_amz_date. rewrite Hb. destruct (amz_text_fields stamp a b c d e f Hl) as (E1 & E2 & E3 & E4).
  rewrite E1, E2, E3, E4. clear E1 E2 E3 E4.
  by destruct stamp as [|? [|? [|? [|? [|? [|? [|? [|? [|? ?]]]]]]]]].
Qed.

(** A text without the shape of a timestamp *)
Lemma parse_amz_shape ts :
  (exists stamp a b c d e f, length stamp = 8%nat /\ bytes ts = stamp ++ [84] ++ [a; b] ++ [c; d] ++ [e; f] ++ [90]) \/
  (forall n, ~ second_of (bytes ts) n) /\ parse_amz_date ts = Err ().
Proof.
  assert (forall n, second_of (bytes ts) n -> exists stamp a b c d e f, length stamp = 8%nat /\
    bytes ts = stamp ++ [84] ++ [a; b] ++ [c; d] ++ [e; f] ++ [90]) as Hshape.
  { intros n (k & h & mi & s & _ & _ & -> & _). unfold amz_text. eexists _, _, _, _, _, _, _. split; [apply stamp_length|done]. }
  unfold parse_amz_date. destruct (Z.eqb_spec (len (bytes ts)) 16) as [Hl|Hl].
  2: { right. split; [|done]. intros n (stamp & a & b & c & d & e & f & Hs & E)%Hshape. rewrite E in Hl. unfold len in Hl.
       rewrite length_app, Hs in Hl. done. }
  destruct (bytes ts) as [|x0 [|x1 [|x2 [|x3 [|x4 [|x5 [|x6 [|x7 [|x8 [|x9 [|x10 [|x11 [|x12 [|x13 [|x14 [|x15 [|? ?]]]]]]]]]]]]]]]]];
    try (unfold len in Hl; cbn in Hl; lia). cbn [negb guard_err mbind outcome_bind].
  change (idx (E:=()) _ 8) with (Ok (E:=()) x8). change (idx (E:=()) _ 15) with (Ok (E:=()) x15). cbn [mbind outcome_bind].
  destruct (Z.eqb_spec x8 84) as [->|H8]; [destruct (Z.eqb_spec x15 90) as [->|H15]|].
  - left. by exists [x0; x1; x2; x3; x4; x5; x6; x7], x9, x10, x11, x12, x13, x14.
  - right. split; [|done]. intros n (stamp & a & b & c & d & e & f & Hs & E)%Hshape.
    destruct stamp as [|? [|? [|? [|? [|? [|? [|? [|? [|? ?]]]]]]]]]; try done. injection E as. congruence.
  - right. split; [|done]. intros n (stamp & a & b & c & d & e & f & Hs & E)%Hshape.
    destruct stamp as [|? [|? [|? [|? [|? [|? [|? [|? [|? ?]]]]]]]]]; try done. injection E as. congruence.
Qed.

Lemma second_of_fields stamp a b c d e f n : length stamp = 8%nat ->
  second_of (stamp ++ [84] ++ [a; b] ++ [c; d] ++ [e; f] ++ [90]) n <->
  exists days h mi s, stamp_of stamp days /\ time_ok h mi s /\ [a; b] = two h /\ [c; d] = two mi /\ [e; f] = two s /\
    n = days * 86400 + h * 3600 + mi * 60 + s.
Proof.
  intros Hl. split.
  - intros (k & h & mi & s & Hk & Ht & E & ->). unfold amz_text in E.
    apply app_inj_1 in E as [-> E]; [|by rewrite stamp_length]. injection E as -> -> -> -> -> ->.
    exists (Z.of_nat k), h, mi, s. split; [by exists k|]. done.
  - intros (days & h & mi & s & (k & -> & Hk & ->) & Ht & -> & -> & -> & ->). by exists k, h, mi, s.
Qed.

Lemma parse_amz_exact ts :
  (exists n, second_of (bytes ts) n /\ parse_amz_date ts = Ok n) \/ (forall n, ~ second_of (bytes ts) n) /\ parse_amz_date ts = Err ().
Proof.
  destruct (parse_amz_shape ts) as [(stamp & a & b & c & d & e & f & Hl & Hb)|?]; [|by right].
  rewrite (parse_amz_fields stamp a b c d e f ts Hl Hb). rewrite Hb. setoid_rewrite (second_of_fields stamp a b c d e f _ Hl).
  assert (forall h mi s, time_ok h mi s -> 0 <= h < 100 /\ 0 <= mi < 100 /\ 0 <= s < 100) as Hrange by (unfold time_ok; lia).
  destruct (parse_stamp_exact stamp) as [(days & Hd & ->)|[Hd ->]].
  2: { right. split; [|done]. intros n (days & h & mi & s & Hs & _). by apply Hd in Hs. }
  cbn [mbind outcome_bind]. rewrite !parse_two.
  destruct (is_ascii_digit a && is_ascii_digit b) eqn:D1.
  2: { right. split; [|done]. intros n (? & h & mi & s & _ & Ht%Hrange & E & _).
       destruct (proj2 (two_exact a b h) (conj (proj1 Ht) E)); congruence. }
  cbn [mbind outcome_bind]. destruct (is_ascii_digit c && is_ascii_digit d) eqn:D2.
  2: { right. split; [|done]. intros n (? & h & mi & s & _ & Ht%Hrange & _ & E & _).
       destruct (proj2 (two_exact c d mi) (conj (proj1 (proj2 Ht)) E)); congruence. }
  cbn [mbind outcome_bind]. destruct (is_ascii_digit e && is_ascii_digit f) eqn:D3.
  2: { right. split; [|done]. intros n (? & h & mi & s & _ & Ht%Hrange & _ & _ & E & _).
       destruct (proj2 (two_exact e f s) (conj (proj2 (proj2 Ht)) E)); congruence. }
  cbn [mbind outcome_bind].
  destruct (proj1 (two_exact a b _) (conj D1 eq_refl)) as [Hh Eh]. destruct (proj1 (two_exact c d _) (conj D2 eq_refl)) as [Hm Em].
  destruct (proj1 (two_exact e f _) (conj D3 eq_refl)) as [Hs Es].
  set (h := 10 * (a - 48) + _) in *. set (mi := 10 * (c - 48) + _) in *. set (s := 10 * (e - 48) + _) in *. unfold guard_err.
  assert (0 <= days < 2932897) as Hday by (destruct Hd as (k & -> & Hk & _); lia).
  destruct ((23 <? h) || (59 <? mi) || (59 <? s)) eqn:Ht.
  - right. split; [|done]. intros n (? & h' & mi' & s' & _ & Hok & E1 & E2 & E3 & _). pose proof (Hrange _ _ _ Hok) as (? & ? & ?).
    rewrite Eh in E1. rewrite Em in E2. rewrite Es in E3. apply two_inj in E1, E2, E3; [|done..]. unfold time_ok in Hok. lia.
  - left. exists (days * 86400 + h * 3600 + mi * 60 + s). split; [exists days, h, mi, s; split_and!; try done; unfold time_ok; lia|].
    cbn [mbind outcome_bind]. unfold MAX64. rewrite (HttpDate.mul64_Ok days) by (unfold MAX64; lia). cbn [mbind outcome_bind].
    rewrite (HttpDate.mul64_Ok h) by (unfold MAX64; lia). cbn [mbind outcome_bind]. rewrite add64_Ok by (unfold MAX64; lia). cbn [mbind outcome_bind].
    rewrite (HttpDate.mul64_Ok mi) by (unfold MAX64; lia). cbn [mbind outcome_bind]. rewrite add64_Ok by (unfold MAX64; lia). cbn [mbind outcome_bind].
    by rewrite add64_Ok by (unfold MAX64; lia).
Qed.

(** The date stamp of a timestamp *)
Lemma matches_exact ts ds : exists b, amz_date_matches_date_stamp ts ds = Ok b /\
  (b = true <-> exists k h mi s, Z.of_nat k < 2932897 /\ time_ok h mi s /\
     bytes ts = amz_text (HttpDate.calendar k) h mi s /\ bytes ds = stamp_text (HttpDate.calendar k)).
Proof.
  unfold amz_date_matches_date_stamp, parse_amz_date_stamp.
  destruct (parse_amz_exact ts) as [(n & Hn & ->)|[Hn ->]]; cbn [is_some_o mbind outcome_bind negb].
  2: { exists false. split; [done|]. split; [done|]. intros (k & h & mi & s & Hk & Ht & E & _). destruct (Hn _ (ex_intro _ k
         (ex_intro _ h (ex_intro _ mi (ex_intro _ s (conj Hk (conj Ht (conj E eq_refl)))))))). }
  assert (forall k h mi s, get_range (amz_text (HttpDate.calendar k) h mi s) 0 8 = Some (stamp_text (HttpDate.calendar k))) as Hget.
  { intros k h mi s. unfold amz_text. pose proof (stamp_length (HttpDate.calendar k)) as Hl.
    destruct (stamp_text (HttpDate.calendar k)) as [|? [|? [|? [|? [|? [|? [|? [|? [|? ?]]]]]]]]]; done. }
  destruct (parse_stamp_exact (bytes ds)) as [(d & Hd & ->)|[Hd ->]]; cbn [is_some_o mbind outcome_bind andb]; eexists; (split; [done|]).
  - rewrite bool_decide_eq_true. destruct Hn as (k & h & mi & s & Hk & Ht & E & _). rewrite E, Hget. split.
    + intros [= Hds]. by exists k, h, mi, s.
    + intros (k' & h' & mi' & s' & _ & _ & E' & ->). f_equal. unfold amz_text in E'. by apply app_inj_1 in E' as [-> _]; [|rewrite !stamp_length].
  - split; [done|]. intros (k & h & mi & s & Hk & _ & _ & E). destruct (Hd (Z.of_nat k)). by exists k.
Qed.

(** ** The extended format *)

Definition iso_text (date : Z * Z * Z) (h mi s : Z) (fraction : option str) : str :=
  let '(y, m, d) := date in
  four y ++ lit "-" ++ two m ++ lit "-" ++ two d ++ lit "T" ++ two h ++ lit ":" ++ two mi ++ lit ":" ++ two s ++
  match fraction with Some f => lit "." ++ f | None => [] end ++ lit "Z".

Definition digit (c : Z) : Prop := 48 <= c <= 57.

Lemma two_digits n : 0 <= n < 100 -> Forall digit (two n).
Proof. intros Hn. unfold digit. repeat constructor; Z.to_euclidean_division_equations; lia. Qed.

Lemma four_digits n : 0 <= n < 10000 -> Forall digit (four n).
Proof. intros Hn. apply list.Forall_app. split; apply two_digits; Z.to_euclidean_division_equations; lia. Qed.

Lemma digits_free c s : ~ digit c -> Forall digit s -> Forall (fun x => x <> c) s.
Proof. intros Hc Hs. eapply list.Forall_impl; [exact Hs|]. by intros x Hx ->. Qed.

Lemma digits_ascii s : Forall digit s -> Forall ascii s.
Proof. intros Hs. eapply list.Forall_impl; [exact Hs|]. unfold digit, ascii. lia. Qed.

Lemma digits_len s : Forall digit s -> len (bytes s) = len s.
Proof. intros Hs%digits_ascii. unfold bytes, len. by rewrite length_fmap, as_bytes_ascii, length_fmap. Qed.

Lemma parse_digits_digits max s : forall acc, Forall digit s -> 0 <= acc -> 0 <= max ->
  foldl (fun a c => a * 10 + (c - 48)) acc s <= max ->
  parse_digits 10 max acc s = Some (foldl (fun a c => a * 10 + (c - 48)) acc s).
Proof.
  assert (forall s acc, Forall digit s -> 0 <= acc -> acc <= foldl (fun a c => a * 10 + (c - 48)) acc s) as Hmono.
  { intros t acc Ht. revert acc. induction Ht as [|c t Hc _ IH]; intros acc Hacc; cbn [foldl]; [lia|].
    unfold digit in Hc. specialize (IH (acc * 10 + (c - 48))). lia. }
  induction s as [|c s IH]; intros acc Hs Hacc Hmax Hle; cbn [parse_digits foldl]; [done|].
  apply list.Forall_cons in Hs as [Hc Hs]. unfold digit in Hc. cbn [foldl] in Hle.
  assert (digit_value c = Some (c - 48)) as -> by (unfold digit_value, in_range; by rewrite (proj2 (Z.leb_le 48 c)), (proj2 (Z.leb_le c 57)) by lia).
  cbn [mbind option_bind]. rewrite (proj2 (Z.leb_gt _ _)) by lia. pose proof (Hmono s (acc * 10 + (c - 48)) Hs ltac:(lia)).
  rewrite (proj2 (Z.leb_le _ _)) by lia. apply IH; done || lia.
Qed.

Lemma from_digits max c s : Forall digit (c :: s) -> 0 <= max -> foldl (fun a c => a * 10 + (c - 48)) 0 (c :: s) <= max ->
  from_str_radix 10 max (c :: s) = Some (foldl (fun a c => a * 10 + (c - 48)) 0 (c :: s)).
Proof.
  intros Hs Hmax Hle. rewrite from_str_radix_digit; [by apply parse_digits_digits|].
  apply list.Forall_cons in Hs as [Hc _]. unfold digit in Hc. lia.
Qed.

Lemma two_u32 n : 0 <= n < 100 -> parse_u32 (two n) = Ok n.
Proof.
  intros Hn. unfold parse_u32, two. rewrite from_digits; [cbn [foldl ok_or]; f_equal| |lia|cbn [foldl]].
  - Z.to_euclidean_division_equations; lia.
  - by apply two_digits.
  - Z.to_euclidean_division_equations; lia.
Qed.

Lemma four_i64 n : 0 <= n < 10000 -> HttpDate.parse_i64 (four n) = Some n.
Proof.
  intros Hn. assert (from_str_radix 10 HttpDate.I64_MAX (four n) = Some n) as Hp.
  { unfold four, two. cbn [app]. rewrite from_digits; [cbn [foldl]; f_equal| |unfold HttpDate.I64_MAX; lia|cbn [foldl]; unfold HttpDate.I64_MAX].
    - Z.to_euclidean_division_equations; lia.
    - by apply four_digits.
    - Z.to_euclidean_division_equations; lia. }
  pose proof (four_digits n Hn) as Hd. unfold four, two in *. cbn [app] in *. apply list.Forall_cons in Hd as [Hc _]. unfold digit in Hc.
  set (c := 48 + n / 100 / 10) in *. clearbody c.
  assert (c = 48 \/ c = 49 \/ c = 50 \/ c = 51 \/ c = 52 \/ c = 53 \/ c = 54 \/ c = 55 \/ c = 56 \/ c = 57) as Hcase by lia.
  unfold HttpDate.parse_i64. repeat (destruct Hcase as [-> | Hcase]; [done|]). by subst.
Qed.

Lemma three_parts_exact c x y z : Forall (fun k => k <> c) x -> Forall (fun k => k <> c) y -> Forall (fun k => k <> c) z ->
  three_parts c (x ++ c :: y ++ c :: z) = Ok (x, y, z).
Proof. intros Hx Hy Hz. unfold three_parts. by rewrite !ConditionalSpec.split_app, ConditionalSpec.split_none. Qed.

Lemma strip_suffix_snoc c s : strip_suffix c (s ++ [c]) = Some s.
Proof. unfold strip_suffix. rewrite rev_unit, Z.eqb_refl. by rewrite rev_involutive. Qed.

Lemma checkedi64_Ok n : - 2 ^ 63 <= n <= 2 ^ 63 - 1 -> checkedi64 n = Ok n.
Proof. intros Hn. unfold checkedi64, in_range. by rewrite (proj2 (Z.leb_le _ n)), (proj2 (Z.leb_le n _)) by lia. Qed.

Ltac checked_step :=
  match goal with |- context [checkedi64 ?n] => rewrite (checkedi64_Ok n) by lia; cbn [mbind outcome_bind] end.

Lemma date_to_days_i64_exact y m d : 0 <= y < 2 ^ 40 -> 1 <= m <= 12 -> 1 <= d <= 31 ->
  date_to_days_i64 y m d = Ok (HttpDate.day_number (y, m, d)).
Proof.
  intros Hy Hm Hd. unfold date_to_days_i64, HttpDate.day_number. cbv zeta.
  replace (y - (if m <=? 2 then 1 else 0)) with (if m <=? 2 then y - 1 else y) by (destruct (m <=? 2); lia).
  set (y' := if m <=? 2 then y - 1 else y). assert (-1 <= y' < 2 ^ 40) as Hy' by (unfold y'; destruct (m <=? 2); lia).
  clearbody y'. checked_step.
  assert ((if 0 <=? y' then mret y' else HttpDate.addi64 (E:=()) y' (-399)) = Ok (if 0 <=? y' then y' else y' - 399)) as ->
    by (destruct (0 <=? y'); [|rewrite HttpDate.addi64_Ok by (unfold HttpDate.I64_MAX; lia)]; done).
  cbn [mbind outcome_bind].
  assert (Z.quot (if 0 <=? y' then y' else y' - 399) 400 = y' / 400) as -> by
    (destruct (Z.leb_spec 0 y'); Z.to_euclidean_division_equations; lia).
  replace (m + (if 2 <? m then -3 else 9)) with (if m <=? 2 then m + 9 else m - 3) by (destruct (Z.leb_spec m 2), (Z.ltb_spec 2 m); lia).
  set (mp := if m <=? 2 then m + 9 else m - 3). assert (0 <= mp <= 11) as Hmp by (unfold mp; destruct (Z.leb_spec m 2); lia).
  set (era := y' / 400). assert (-1 <= era < 2 ^ 40) as He by (unfold era; Z.to_euclidean_division_equations; lia).
  set (yoe := y' - era * 400). assert (0 <= yoe < 400) as Hyoe by (unfold yoe, era; Z.to_euclidean_division_equations; lia).
  assert (0 <= (mp * 153 + 2) / 5 <= 400 /\ 0 <= yoe / 4 <= 100 /\ 0 <= yoe / 100 <= yoe / 4) as (? & ? & ?)
    by (clear -Hmp Hyoe; Z.to_euclidean_division_equations; lia).
  rewrite (checkedi64_Ok (era * 400)) by lia. cbn [mbind outcome_bind]. change (y' - era * 400) with yoe.
  rewrite (checkedi64_Ok yoe) by lia. cbn [mbind outcome_bind].
  assert (y' = 400 * era + yoe) as Hye by (unfold yoe; lia).
  rewrite !(Z.quot_div_nonneg yoe) by lia. replace (153 * mp) with (mp * 153) by lia. clearbody mp yoe.
  repeat first [rewrite Z.quot_div_nonneg by lia | checked_step]. f_equal.
  clearbody era. clear - Hye Hyoe. subst y'.
  Z.to_euclidean_division_equations; lia.
Qed.

Lemma leap_i64_same y : 0 <= y -> is_leap_i64 y = HttpDate.is_leap y.
Proof. intros Hy. unfold is_leap_i64, HttpDate.is_leap. by rewrite !Z.rem_mod_nonneg by lia. Qed.

Lemma days_in_month_exact y m : 0 <= y -> 1 <= m <= 12 -> days_in_month_i64 y m = Ok (HttpDate.month_len y m).
Proof.
  intros Hy Hm. unfold days_in_month_i64, HttpDate.month_len. rewrite leap_i64_same by done.
  assert (m = 1 \/ m = 2 \/ m = 3 \/ m = 4 \/ m = 5 \/ m = 6 \/ m = 7 \/ m = 8 \/ m = 9 \/ m = 10 \/ m = 11 \/ m = 12) as Hc by lia.
  repeat (destruct Hc as [-> | Hc]; [done|]). by subst.
Qed.

Lemma epoch_seconds_exact k y m d h mi s : HttpDate.calendar k = (y, m, d) -> Z.of_nat k < 2932897 -> time_ok h mi s ->
  date_time_to_epoch_seconds y m d h mi s = Ok (Z.of_nat k * 86400 + h * 3600 + mi * 60 + s).
Proof.
  intros Hc Hk Ht. destruct (calendar_small k Hk) as (y' & m' & d' & Hc' & Hv & Hy & Hm & Hd & Hn).
  rewrite Hc in Hc'. injection Hc' as <- <- <-. unfold date_time_to_epoch_seconds, guard_err, time_ok in *. destruct Hv as (_ & _ & Hdm).
  rewrite days_in_month_exact by lia. cbn [mbind outcome_bind].
  replace ((d =? 0) || (HttpDate.month_len y m <? d) || (23 <? h) || (59 <? mi) || (59 <? s)) with false by lia. cbn [mbind outcome_bind].
  rewrite date_to_days_i64_exact, Hn by lia. cbn [mbind outcome_bind]. rewrite (proj2 (Z.ltb_ge _ 0)) by lia. cbn [mbind outcome_bind].
  repeat checked_step. by rewrite (proj2 (Z.ltb_ge _ 0)) by lia.
Qed.

Lemma all_digits f : Forall digit f -> forallb is_ascii_digit (bytes f) = true.
Proof.
  intros Hf. rewrite bytes_ascii by (by apply digits_ascii). apply forallb_forall. intros x Hx%list_elem_of_In.
  rewrite list.Forall_forall in Hf. specialize (Hf x Hx). unfold digit in Hf. unfold is_ascii_digit, in_range. lia.
Qed.

Lemma iso_text_black date h mi s f : 0 <= date.1.1 < 10000 -> trim (iso_text date h mi s f) = iso_text date h mi s f.
Proof.
  intros Hy. destruct date as [[y m] d]. cbn in Hy.
  assert (exists c r, black c /\ iso_text (y, m, d) h mi s f = c :: r ++ [90]) as (c & r & Hc & ->); [|by apply trim_black_ends].
  exists (48 + y / 100 / 10), (48 + (y / 100) mod 10 :: two (y mod 100) ++ lit "-" ++ two m ++ lit "-" ++ two d ++ lit "T" ++ two h ++
    lit ":" ++ two mi ++ lit ":" ++ two s ++ match f with Some f => lit "." ++ f | None => [] end).
  split; [unfold black, is_whitespace, in_range; Z.to_euclidean_division_equations; lia|].
  unfold iso_text, four, two. cbn [app]. by destruct f; rewrite <-?app_assoc.
Qed.

Lemma iso_date_exact y m d fixed : 0 <= y < 10000 -> 0 <= m < 100 -> 0 <= d < 100 ->
  parse_iso8601_date (four y ++ 45 :: two m ++ 45 :: two d) fixed = Ok (y, m, d).
Proof.
  intros Hy Hm Hd. pose proof (four_digits y Hy). pose proof (two_digits m Hm). pose proof (two_digits d Hd).
  assert (~ digit 45) by (unfold digit; lia).
  unfold parse_iso8601_date. rewrite three_parts_exact by (by apply digits_free). cbn [mbind outcome_bind].
  unfold widths_ok, guard_err. rewrite !digits_len by done. change (len (four y)) with 4. change (len (two m)) with 2.
  change (len (two d)) with 2. rewrite andb_false_r. cbn [mbind outcome_bind]. by rewrite four_i64, !two_u32 by lia.
Qed.

Lemma iso_time_exact h mi s fixed : time_ok h mi s ->
  parse_iso8601_time (two h ++ 58 :: two mi ++ 58 :: two s) fixed = Ok (h, mi, s).
Proof.
  unfold time_ok. intros (Hh & Hm & Hs). pose proof (two_digits h ltac:(lia)). pose proof (two_digits mi ltac:(lia)).
  pose proof (two_digits s ltac:(lia)). assert (~ digit 58) by (unfold digit; lia).
  unfold parse_iso8601_time. rewrite three_parts_exact by (by apply digits_free). cbn [mbind outcome_bind].
  unfold widths_ok, guard_err. rewrite !digits_len by done. change (len (two h)) with 2. change (len (two mi)) with 2.
  change (len (two s)) with 2. rewrite andb_false_r. cbn [mbind outcome_bind]. by rewrite !two_u32 by lia.
Qed.

Lemma iso_roundtrip k h mi s fraction options : Z.of_nat k < 2932897 -> time_ok h mi s ->
  (forall f, fraction = Some f -> Forall digit f) ->
  parse_iso8601_utc_seconds_with_options (iso_text (HttpDate.calendar k) h mi s fraction) options =
    Ok (Z.of_nat k * 86400 + h * 3600 + mi * 60 + s).
Proof.
  intros Hk Ht Hf. destruct (calendar_small k Hk) as (y & m & d & Hc & _ & Hy & Hm & Hd & _).
  unfold parse_iso8601_utc_seconds_with_options. cbv zeta.
  assert ((if trim_whitespace options then trim (iso_text (HttpDate.calendar k) h mi s fraction) else
    iso_text (HttpDate.calendar k) h mi s fraction) = iso_text (HttpDate.calendar k) h mi s fraction) as ->.
  { destruct (trim_whitespace options); [|done]. apply iso_text_black. rewrite Hc. cbn. lia. }
  pose proof (four_digits y ltac:(lia)) as Fy. pose proof (two_digits m ltac:(lia)) as Fm. pose proof (two_digits d ltac:(lia)) as Fd.
  unfold time_ok in Ht. pose proof (two_digits h ltac:(lia)) as Fh. pose proof (two_digits mi ltac:(lia)) as Fi.
  pose proof (two_digits s ltac:(lia)) as Fs.
  set (date := four y ++ 45 :: two m ++ 45 :: two d). set (time := two h ++ 58 :: two mi ++ 58 :: two s).
  assert (iso_text (HttpDate.calendar k) h mi s fraction =
    (date ++ 84 :: time ++ match fraction with Some f => 46 :: f | None => [] end) ++ [90]) as ->.
  { rewrite Hc. unfold iso_text, date, time. destruct fraction; rewrite <-!app_assoc; cbn [app]; rewrite <-?app_assoc; done. }
  rewrite strip_suffix_snoc. cbn [ok_or mbind outcome_bind].
  assert (forall c, ~ digit c -> c <> 45 -> Forall (fun x => x <> c) date) as Fdate.
  { intros c Hcd H45. unfold date. rewrite list.Forall_app, list.Forall_cons, list.Forall_app, list.Forall_cons.
    split_and!; try (by apply digits_free); congruence. }
  assert (forall c, ~ digit c -> c <> 58 -> Forall (fun x => x <> c) time) as Ftime.
  { intros c Hcd H58. unfold time. rewrite list.Forall_app, list.Forall_cons, list.Forall_app, list.Forall_cons.
    split_and!; try (by apply digits_free); congruence. }
  assert (~ digit 46 /\ ~ digit 84 /\ ~ digit 45 /\ ~ digit 58) as (N46 & N84 & N45 & N58) by (unfold digit; lia).
  assert (Forall (fun x => x <> 46) (date ++ 84 :: time)) as F46.
  { rewrite list.Forall_app, list.Forall_cons. split_and!; [by apply Fdate|done|by apply Ftime]. }
  assert (('(date, time) ← ok_or (split_once 84 (date ++ 84 :: time)) ();
    '(year, month, day) ← parse_iso8601_date date (require_fixed_width_fields options);
    '(hour, minute, second) ← parse_iso8601_time time (require_fixed_width_fields options);
    date_time_to_epoch_seconds year month day hour minute second) = Ok (Z.of_nat k * 86400 + h * 3600 + mi * 60 + s)) as Hrest.
  { rewrite split_once_app by (by apply Fdate). cbn [ok_or mbind outcome_bind].
    unfold date, time. rewrite iso_date_exact by lia. cbn [mbind outcome_bind]. rewrite iso_time_exact by (unfold time_ok; lia).
    cbn [mbind outcome_bind]. by apply epoch_seconds_exact. }
  destruct fraction as [f|].
  - assert (date ++ 84 :: time ++ 46 :: f = (date ++ 84 :: time) ++ 46 :: f) as -> by (by rewrite <-app_assoc).
    rewrite split_once_app by done. unfold guard_err. rewrite all_digits by (by apply Hf). exact Hrest.
  - rewrite app_nil_r. rewrite split_once_None by done. exact Hrest.
Qed.

(** ** Totality *)

Lemma bind_total {E A B} (c : outcome E A) (k : A -> outcome E B) :
  c <> Panic -> (forall a, c = Ok a -> k a <> Panic) -> (c ≫= k) <> Panic.
Proof. destruct c; cbn; naive_solver. Qed.

Lemma checkedi64_total n : checkedi64 n <> Panic.
Proof. unfold checkedi64. by case_match. Qed.

Lemma guard_total {E} b (e : E) : guard_err b e <> Panic.
Proof. unfold guard_err. by destruct b. Qed.

Lemma ok_or_total {E A} (o : option A) (e : E) : ok_or o e <> Panic.
Proof. by destruct o. Qed.

Lemma date_to_days_i64_total y m d : 0 <= y -> date_to_days_i64 y m d <> Panic.
Proof.
  intros Hy. unfold date_to_days_i64. apply bind_total; [apply checkedi64_total|]. intros y' Hy'.
  assert (-1 <= y') as H1 by (unfold checkedi64 in Hy'; repeat case_match; simplify_eq; lia).
  apply bind_total; [destruct (Z.leb_spec 0 y'); [done|by rewrite HttpDate.addi64_Ok by (unfold HttpDate.I64_MAX; lia)]|].
  intros z _. repeat (apply bind_total; [apply checkedi64_total|intros ? _]). apply checkedi64_total.
Qed.

Lemma parse_year s : Forall (fun x => x <> 45) s -> forall y, HttpDate.parse_i64 s = Some y -> 0 <= y.
Proof.
  intros Hs y Hp. assert (from_str_radix 10 HttpDate.I64_MAX s = Some y) as Hr.
  { unfold HttpDate.parse_i64 in Hp. destruct s as [|c s]; [done|]. apply list.Forall_cons in Hs as [Hc _].
    destruct c as [|p|p]; try done. do 6 (destruct p as [p|p|]; try done). }
  apply from_str_radix_range in Hr; [lia|lia|unfold HttpDate.I64_MAX; lia].
Qed.

Lemma iso_date_total s fixed : parse_iso8601_date s fixed <> Panic /\
  forall y m d, parse_iso8601_date s fixed = Ok (y, m, d) -> 0 <= y.
Proof.
  unfold parse_iso8601_date, three_parts. pose proof (SortSpec.split_parts 45 (fun _ => True) s ltac:(by apply list.Forall_true)) as Hp.
  destruct (split 45 s) as [|a [|b [|c [|? ?]]]]; try done. apply list.Forall_cons in Hp as [[Ha _] _]. cbn [mbind outcome_bind].
  unfold widths_ok, guard_err. destruct (_ && _); [done|]. cbn [mbind outcome_bind].
  destruct (HttpDate.parse_i64 a) as [y|] eqn:Hy; [|done]. cbn [ok_or mbind outcome_bind]. unfold parse_u32.
  destruct (from_str_radix _ _ b); [|done]. destruct (from_str_radix _ _ c); [|done]. cbn.
  split; [done|]. intros ??? [= <- <- <-]. by eapply parse_year.
Qed.

Lemma iso_time_total s fixed : parse_iso8601_time s fixed <> Panic.
Proof.
  unfold parse_iso8601_time, three_parts. destruct (split 58 s) as [|a [|b [|c [|? ?]]]]; try done. cbn [mbind outcome_bind].
  unfold widths_ok, parse_u32. apply bind_total; [apply guard_total|]. intros _ _.
  repeat (apply bind_total; [apply ok_or_total|intros ? _]). done.
Qed.

Lemma epoch_seconds_total y m d h mi s : 0 <= y -> date_time_to_epoch_seconds y m d h mi s <> Panic.
Proof.
  intros Hy. unfold date_time_to_epoch_seconds. apply bind_total; [unfold days_in_month_i64; by repeat case_match|]. intros l _.
  apply bind_total; [apply guard_total|]. intros _ _. apply bind_total; [by apply date_to_days_i64_total|]. intros n _.
  apply bind_total; [apply guard_total|]. intros _ _. repeat (apply bind_total; [apply checkedi64_total|intros ? _]).
  apply bind_total; [apply guard_total|]. done.
Qed.

Lemma iso_total value options : parse_iso8601_utc_seconds_with_options value options <> Panic.
Proof.
  unfold parse_iso8601_utc_seconds_with_options. cbv zeta. apply bind_total; [apply ok_or_total|]. intros dt _.
  assert (forall dt fr, (guard_err (match fr with Some part => negb (forallb is_ascii_digit (bytes part)) | None => false end) ();;
    '(date, time) ← ok_or (split_once 84 dt) ();
    '(year, month, day) ← parse_iso8601_date date (require_fixed_width_fields options);
    '(hour, minute, second) ← parse_iso8601_time time (require_fixed_width_fields options);
    date_time_to_epoch_seconds year month day hour minute second) <> Panic) as Hrest.
  { intros t fr. apply bind_total; [apply guard_total|]. intros _ _. apply bind_total; [apply ok_or_total|]. intros [date time] _.
    destruct (iso_date_total date (require_fixed_width_fields options)) as [Hd Hy].
    apply bind_total; [done|]. intros [[y m] d] Hymd. apply bind_total; [apply iso_time_total|]. intros [[h mi] s] _.
    by eapply epoch_seconds_total, Hy. }
  destruct (split_once 46 dt) as [[a b]|]; [apply (Hrest a (Some b))|apply (Hrest dt None)].
Qed.

Lemma second_of_unique bs n1 n2 : second_of bs n1 -> second_of bs n2 -> n1 = n2.
Proof.
  intros (k1 & h1 & i1 & s1 & Hk1 & T1 & -> & ->) (k2 & h2 & i2 & s2 & Hk2 & T2 & E & ->). unfold amz_text, time_ok in *.
  apply app_inj_1 in E as [Es E]; [|by rewrite !stamp_length]. injection E as E1 E2 E3 E4 E5 E6.
  assert (h1 = h2 /\ i1 = i2 /\ s1 = s2) as (-> & -> & ->) by (Z.to_euclidean_division_equations; lia).
  f_equal. f_equal. f_equal. f_equal. apply (stamp_of_unique (stamp_text (HttpDate.calendar k1))); [by exists k1|by exists k2].
Qed.

Lemma parse_amz_Ok ts n : parse_amz_date ts = Ok n <-> second_of (bytes ts) n.
Proof.
  destruct (parse_amz_exact ts) as [(n' & Hn & ->)|[Hn ->]].
  - split; [by intros [= <-]|]. intros H. f_equal. by eapply second_of_unique.
  - split; [done|]. by intros ?%Hn.
Qed.

(** C38: The timestamps of requests.  The parser of the basic format never panics; it accepts
    exactly the texts YYYYMMDDThhmmssZ of a date of the Gregorian calendar from 1970 to
    9999 and a time of day, and returns the seconds since the epoch.  A timestamp matches
    a date stamp exactly when both are texts of the same date.  The parser of the extended
    format, which computes the days in another way, never panics either; it reads
    YYYY-MM-DDThh:mm:ssZ, with or without a fraction of digits and under all options, as
    the same second. *)
Theorem amz_dates :
  (forall ts, parse_amz_date ts <> Panic /\ forall n, parse_amz_date ts = Ok n <->
     exists k h mi s, Z.of_nat k < 2932897 /\ time_ok h mi s /\ bytes ts = amz_text (HttpDate.calendar k) h mi s /\
       n = Z.of_nat k * 86400 + h * 3600 + mi * 60 + s) /\
  (forall ts ds, exists b, amz_date_matches_date_stamp ts ds = Ok b /\
     (b = true <-> exists k h mi s, Z.of_nat k < 2932897 /\ time_ok h mi s /\
        bytes ts = amz_text (HttpDate.calendar k) h mi s /\ bytes ds = stamp_text (HttpDate.calendar k))) /\
  (forall value options, parse_iso8601_utc_seconds_with_options value options <> Panic) /\
  (forall k h mi s fraction options, Z.of_nat k < 2932897 -> time_ok h mi s ->
     (forall f, fraction = Some f -> Forall digit f) ->
     parse_iso8601_utc_seconds_with_options (iso_text (HttpDate.calendar k) h mi s fraction) options =
       Ok (Z.of_nat k * 86400 + h * 3600 + mi * 60 + s)).
Proof.
  split_and!.
  - intros ts. split; [|apply parse_amz_Ok]. by destruct (parse_amz_exact ts) as [(n & _ & ->)|[_ ->]].
  - apply matches_exact.
  - apply iso_total.
  - apply iso_roundtrip.
Qed.

(** A plus sign passes for a digit of a field of fixed width. *)
Example fixed_width_plus_sign :
  parse_iso8601_utc_seconds_with_options (lit "2020-+1-+2T+3:+4:+5Z") (MkIso8601UtcOptions false true) =
  parse_iso8601_utc_seconds_with_options (lit "2020-01-02T03:04:05Z") (MkIso8601UtcOptions false true).
Proof. by vm_compute. Qed.

End AmzDate.
