(* ===== verification/SigV4.v ===== *)
(** Signature version 4, crates/auth/src/sigv4.rs, with the credential scope of
    credential.rs: the Authorization header, the headers that have to be signed, the
    signing key and the verification of a request.  The headers of a request are the
    trait [HeaderSource] of request.rs for slices of pairs: names in lower case with their
    values, in order. *)

From Stdlib Require Import ZifyBool.
From stdpp Require Import strings gmap.
From S2P Require Import Prelude Machine Str Chunked Conditional Identity SessionToken Provider Canonical AmzDate.

Local Open Scope Z_scope.

Module SigV4.
Import Str Machine StrMore Account StrSort Credential Backend Canonical AmzDate.

Definition MAX_SIGNED_HEADERS_LEN : Z := 2048.
Definition MAX_SIGNED_HEADER_COUNT : Z := 128.
Definition SIGNATURE_HEX_LEN : Z := 64.

Record SignatureMismatchDiagnostics := MkDiagnostics {
  diagnostics_access_key_id : str;
  diagnostics_string_to_sign : str;
  signature_provided : str;
  diagnostics_canonical_request : option str
}.

Inductive AuthError :=
  | MissingAuth
  | MalformedAuth
  | MalformedAuthComponents
  | MalformedSignedHeaders
  | UnsupportedAuthType
  | MissingQueryParam (param : str)
  | InvalidQueryParam (param : str)
  | InvalidQueryCredentialRegion (param provided_region expected_region : str)
  | InvalidQueryCredentialService (param provided_service expected_service : str)
  | InvalidHeaderCredentialRegion (provided_region expected_region : str)
  | InvalidHeaderCredentialService (provided_service expected_service : str)
  | InvalidCredentialScope (param : str)
  | InvalidCredentialScopeRegion (param credential provided_region expected_region : str)
  | InvalidCredentialScopeService (param credential provided_service expected_service : str)
  | UnknownAccessKey (access_key_id : str)
  | IdentityProviderFailure (error : IdentityProviderError)
  | SessionTokenKeyRingUnavailable
  | DuplicateAuthorizationHeader
  | MultipleAuthMechanisms (authorization : str)
  | AccessDenied
  | SignatureMismatch (diagnostics : option SignatureMismatchDiagnostics)
  | UnexpectedSecurityToken (token : str)
  | ExpiredToken
  | ExpiredSessionToken (tokens : list str)
  | MissingSignedHeader (header : str)
  | RequestExpired
  | PresignedRequestExpired (x_amz_expires expires_epoch server_time_epoch : Z)
  | RequestNotYetValid (amz_date_epoch_millis expires_epoch server_time_epoch : Z)
  | UnsignedHeaders (headers : list str).

Record CredentialScope := MkCredentialScope {
  scope_access_key_id : str;
  date : str;
  region : str;
  service : str
}.

Definition AWS4_REQUEST : str := lit "aws4_request".

(** [parse_credential_scope_ref] *)
Definition parse_credential_scope (value : str) : outcome () CredentialScope :=
  guard_err (bool_decide (value = []) || (MAX_CREDENTIAL_LEN <? len (bytes value))) ();;
  match split 47 value with
  | [access_key_id; date; region; service; terminator] =>
      guard_err (negb (bool_decide (terminator = AWS4_REQUEST))) ();;
      guard_err (bool_decide (access_key_id = []) || (MAX_ACCESS_KEY_ID_LEN <? len (bytes access_key_id))) ();;
      _ ← parse_amz_date_stamp date;
      mret (MkCredentialScope access_key_id date region service)
  | _ => Err ()
  end.

Record SigV4Auth := MkSigV4Auth {
  auth_credential : CredentialScope;
  signed_headers : list str;
  signature : str
}.

Definition is_lower_hex (value : str) : bool := forallb (fun b => is_ascii_digit b || in_range b 97 102) (bytes value).

(** The three components while the parts are read *)
Record Components := MkComponents {
  credential_str : option str;
  signed_headers_str : option str;
  signature_str : option str
}.

Definition read_part (c : Components) (part : str) : outcome AuthError Components :=
  let part := trim part in
  match strip_prefix (lit "Credential=") part with
  | Some val =>
      guard_err (is_some (credential_str c)) MalformedAuthComponents;;
      mret (MkComponents (Some val) (signed_headers_str c) (signature_str c))
  | None =>
      match strip_prefix (lit "SignedHeaders=") part with
      | Some val =>
          guard_err (is_some (signed_headers_str c)) MalformedAuthComponents;;
          mret (MkComponents (credential_str c) (Some val) (signature_str c))
      | None =>
          match strip_prefix (lit "Signature=") part with
          | Some val =>
              guard_err (is_some (signature_str c)) MalformedAuthComponents;;
              mret (MkComponents (credential_str c) (signed_headers_str c) (Some val))
          | None => Err MalformedAuthComponents
          end
      end
  end.

Definition sort_names (names : list str) : list str := sort_by str_le names.

Definition parse_auth_header (value : str) : outcome AuthError SigV4Auth :=
  let value := trim value in
  rest ← ok_or (strip_prefix (lit "AWS4-HMAC-SHA256") value) UnsupportedAuthType;
  let rest := trim_start rest in
  let parts := split 44 rest in
  guard_err (negb (len parts =? 3)) MalformedAuthComponents;;
  c ← foldM read_part (MkComponents None None None) parts;
  credential_str ← ok_or (credential_str c) MalformedAuthComponents;
  signed_headers_str ← ok_or (signed_headers_str c) MalformedAuthComponents;
  signature_str ← ok_or (signature_str c) MalformedAuthComponents;
  guard_err (bool_decide (signed_headers_str = [])) MalformedSignedHeaders;;
  guard_err (MAX_SIGNED_HEADERS_LEN <? len (bytes signed_headers_str)) MalformedAuth;;
  guard_err (negb (len (bytes signature_str) =? SIGNATURE_HEX_LEN) || negb (is_lower_hex signature_str)) MalformedAuth;;
  credential ← map_err (fun _ => MalformedAuth) (parse_credential_scope credential_str);
  let signed_headers :=
    dedup (sort_names (to_ascii_lowercase <$> filter (fun s => s <> []) (split 59 signed_headers_str))) in
  guard_err (bool_decide (signed_headers = []) || (MAX_SIGNED_HEADER_COUNT <? len signed_headers)) MalformedAuth;;
  mret (MkSigV4Auth credential signed_headers signature_str).

(** [HeaderSource::first_value] *)
Definition first_value (headers : list (str * str)) (name : str) : option str :=
  (fun '(_, p) => p.2) <$> list_find (fun p => p.1 = name) headers.

Definition CONTENT_SHA256 : str := lit "x-amz-content-sha256".

Definition unsigned_required_headers (signed_headers : list str) (headers : list (str * str)) : list str :=
  let unsigned_headers :=
    if is_some (first_value headers (lit "host")) && bool_decide (lit "host" ∉ signed_headers)
    then [lit "host"] else [] in
  foldl (fun unsigned_headers '(name, _) =>
    if is_some (strip_prefix (lit "x-amz-") name) && bool_decide (name <> CONTENT_SHA256)
       && bool_decide (name ∉ signed_headers) && bool_decide (name ∉ unsigned_headers)
    then unsigned_headers ++ [name] else unsigned_headers) unsigned_headers headers.

Record HeaderSigningTimestamp := MkHeaderSigningTimestamp {
  header_name : str;
  timestamp_value : str
}.

Record VerifyRequestCredentialInput := MkInput {
  method : str;
  uri : str;
  query_string : str;
  headers : list (str * str);
  body_hash : str;
  auth : SigV4Auth;
  timestamp : option HeaderSigningTimestamp
}.

Definition credential_access_key_id (c : AuthenticatedCredential) : str :=
  match c with
  | LongLived c => stored_access_key_id c
  | Session c => access_key_id c
  end.

Definition credential_secret_key (c : AuthenticatedCredential) : SecretKey :=
  match c with
  | LongLived c => stored_secret_key c
  | Session c => secret_key c
  end.

(** The loop that collects the values of the signed headers *)
Definition collect_signed (headers : list (str * str)) (names : list str) : outcome AuthError (list (str * str)) :=
  foldM (fun pairs signed_name =>
    let found := filter (fun p => p.1 = signed_name) headers in
    guard_err (bool_decide (found = [])) (MissingSignedHeader signed_name);;
    mret (pairs ++ ((fun p => (signed_name, p.2)) <$> found))) [] names.

Section crypto.
Context `{Crypto}.

Definition derive_signing_key (secret : SecretKey) (date region service : str) : list byte :=
  let k_secret := lit "AWS4" ++ secret in
  let k_date := hmac_sha256 (as_bytes k_secret) (as_bytes date) in
  let k_region := hmac_sha256 k_date (as_bytes region) in
  let k_service := hmac_sha256 k_region (as_bytes service) in
  hmac_sha256 k_service (as_bytes AWS4_REQUEST).

Definition verify_request_credential (input : VerifyRequestCredentialInput) (credential : AuthenticatedCredential) :
    outcome AuthError str :=
  let auth := auth input in
  let scope := auth_credential auth in
  assert_true (bool_decide (as_bytes (credential_access_key_id credential) = as_bytes (scope_access_key_id scope)));;
  let secret := credential_secret_key credential in
  signed_header_pairs ← collect_signed (headers input) (signed_headers auth);
  let unsigned_headers := unsigned_required_headers (signed_headers auth) (headers input) in
  guard_err (negb (bool_decide (unsigned_headers = []))) (UnsignedHeaders unsigned_headers);;
  let canonical_hdrs := canonical_headers signed_header_pairs in
  let signed_headers_str := join (lit ";") (signed_headers auth) in
  let canonical_qs := canonical_query_string (query_string input) in
  let creq := canonical_request (method input) (uri input) canonical_qs canonical_hdrs signed_headers_str (body_hash input) in
  let creq_hash := Chunked.sha256_hex (as_bytes creq) in
  timestamp ← ok_or (timestamp input) (MissingSignedHeader (lit "x-amz-date"));
  guard_err (bool_decide (header_name timestamp ∉ signed_headers auth)) (UnsignedHeaders [header_name timestamp]);;
  same_day ← map_err (fun _ => MalformedAuth) (amz_date_matches_date_stamp (timestamp_value timestamp) (date scope));
  guard_err (negb same_day) MalformedAuth;;
  let scope_text := date scope ++ lit "/" ++ region scope ++ lit "/" ++ service scope ++ lit "/aws4_request" in
  let sts := string_to_sign (timestamp_value timestamp) scope_text creq_hash in
  let signing_key := derive_signing_key secret (date scope) (region scope) (service scope) in
  let expected_sig := hmac_sha256 signing_key (as_bytes sts) in
  let expected_hex := Chunked.hex_encode expected_sig in
  guard_err (negb (Chunked.constant_time_eq (as_bytes expected_hex) (as_bytes (signature auth))))
    (SignatureMismatch (Some (MkDiagnostics (scope_access_key_id scope) sts (signature auth) (Some creq))));;
  mret creq.

End crypto.

End SigV4.
